(* ===== verification/_CoqProject ===== *)
-Q . S2P
Prelude.v
Glob.v
PolicyDoc.v
PolicyEval.v
PolicyTaint.v
Explain.v
PolicyStore.v
Merkle.v
Canonical.v
GoJSON.v
AuditChain.v
Checkpoint.v
Throttle.v
KV.v
Dpop.v
McpDpop.v
ToolApprovals.v
Provenance.v
Hook.v
ToolGuard.v
DeviceAuth.v
TokenGrants.v
Ciba.v
Rar.v
AgentGate.v
Delegation.v
Registration.v
Jar.v
Authorize.v
Session.v
Totp.v
McpResource.v
Tenants.v
Rbac.v
Organizations.v
AdminApi.v
Shrink.v
ShrinkSources.v
Passwords.v
SignIn.v
ApiTokens.v
Identities.v
Passkeys.v
