(* ===== verification/Prelude.v ===== *)
(** * TheAuth: a verification development

    TheAuth is a Go library for authentication and for authorizing AI agents. This development models
    the part of it that decides and records: the policy engine and the guards in front of it, the
    approvals that unblock an escalated call, the audit hash chain and the transparency log of
    checkpoints over it, the OAuth authorization server (client registration, the authorization endpoint
    with consent, pushed and signed requests, codes, refresh tokens, device codes, backchannel
    authentication, token exchange between agents), the proofs of possession that bind its tokens, the
    resource server that accepts them, sign-in with passwords, emailed links and second factors, sessions,
    API tokens and device logins, organizations with their roles and the admin API over them, and the
    limiters and replay caches that protect the endpoints. Definitions follow the Go code function by function and are executable; an in-memory store is a record of [gmap]s, a mutex protected method
    is one atomic function on it, an error is a value. Times and durations are nanoseconds in [Z]
    with the zero time at 0; a [float64] is a [spec_float]; a Go string or byte slice is a [string].

    ** The parts and the files

    - [Prelude] (this file): results, 64 bit integers, time, insertion sort by a Go [less] function,
      the order of strings, sets as lists without repeats, pieces of strings, the hint database [go] and
      the tactics.
    - [Glob] ([policy/glob.go]): the pattern matcher as the loop over its cursor, [Escape], [expand].
    - [PolicyDoc] ([policy/policy.go], [codes.go], the data of [risk.go] and [taint.go]): documents,
      [Validate] and [Parse] with their errors. The class [GoLib] holds what the engine uses of Go's
      libraries: addresses and prefixes, RFC 3339 and clock times, the JSON decoder.
    - [PolicyEval] ([policy/eval.go], [risk.go]): conditions, statement matching, deny overrides with
      escalation, default deny codes, risk tiers.
    - [PolicyTaint] ([policy/taint.go] and [Evaluate], [EvaluateWithBoundary] of [eval.go]): taint
      rules over provenance labels, and the permission boundary.
    - [Explain] ([policy/explain.go]): the reasons of a decision.
    - [Shrink], [ShrinkSources] ([policy/shrink]): what an agent used of its grants, the narrower policy
      proposed from it and the replay of recorded calls; the sources of calls and grants, and what the
      proposal means for [Evaluate].
    - [PolicyStore] ([policy/memory.go], [storage.go], [http.go]): the in-process policy store, the
      class [PolicyStorage] that states the storage contract, [Guard.Decide] and [RequirePolicy]
      proved against that class.
    - [Merkle] ([audit/checkpoint/merkle.go]): RFC 6962 trees, with SHA-256 as the class [Sha256].
    - [Canonical] ([audit/checkpoint/canonical.go]): RFC 8785 canonical JSON; float formatting is the
      class [FloatFormat].
    - [Checkpoint] ([audit/checkpoint/checkpoint.go], [leaves.go], [types.go], [sign.go],
      [receipt.go], [store.go]): leaves with salted commitments per field, signed checkpoints,
      inclusion and consistency proofs, receipts and the checkpoint store; HMAC, Ed25519 and base64
      are the class [Crypto].
    - [Throttle] ([internal/throttle]): login and second factor throttling over the class
      [ThrottleStore], its memory store, and two limiters racing on compare and swap.
    - [KV] ([kv/kv.go], [kv/memory.go]): the in-memory cache, replay cache and token bucket, and the
      window limiter over the class [CounterCache].
    - [ToolApprovals] ([tool_approvals.go], [storage/memory/memory_toolapprovals.go],
      [approvals/approvals.go]): approval requests and the inbox where people decide them.
    - [Provenance] ([policy/toolguard/provenance.go]): labels and the tracker that carries the labels
      of tool outputs into later arguments.
    - [Hook] ([policy/hook/hook.go], [runner.go]): composed hooks under a timeout.
    - [ToolGuard] ([policy/toolguard]): the guard of a tool call, which calls [PolicyTaint], [Hook]
      and [Provenance] and spends approvals through the class [ApprovalStore]; the in-process and the
      storage backed approvals are its instances.

    - [GoJSON]: what the audit chain uses of [encoding/json]: the encoding of a flat struct, and that
      it is injective on valid UTF-8.
    - [AuditChain] ([internal/audit/chainhash.go], [chain.go], and the writer, erasure and reader of
      [storage/postgres]): chained row hashes; SHA-256 and HMAC are the class [ChainLib].
    - [DeviceAuth] ([internal/as/device.go], [storage/memory/memory_device.go]): the device
      authorization grant, with a step relation of interleaved polls, decisions and redemptions.
    - [TokenGrants] ([internal/as/token.go], [hardening.go], [revoke.go], [storage/memory/memory_v20.go]):
      code exchange and refresh rotation, with the storage calls of concurrent requests as steps.
    - [Ciba] ([internal/as/ciba.go], [token_ciba.go], [storage/memory/memory_ciba.go]): backchannel
      authentication, minting through [TokenGrants], with polls and decisions as steps.
    - [Rar] ([internal/rar], [internal/as/rar.go]): authorization details and their narrowing.
    - [Dpop] ([internal/dpop], [internal/as/dpop.go]): proofs of possession, their nonces and the memory
      of their identifiers; the primitives are the class [DpopLib], a shared cache is the class
      [ReplayCache] with the memory of [KV] as an instance. A run time panic is a result.
    - [McpDpop], [McpResource] ([mcpresource]): the resource server's own verifier of proofs, and its
      token verification, key and introspection caches, revocation checks and middleware; the state is
      a record, requests are atomic, what the authorization server answers is an argument.
    - [Registration] ([internal/as/dcr.go], [registration_token.go], [internal/cimd/document.go], the
      clients and registration tokens of [storage/memory]): metadata validation, registration tokens and
      the endpoint, with the storage calls of concurrent registrations as steps.
    - [Jar] ([internal/as/jar.go]): signed request objects, over the primitives of [DpopLib].
    - [Authorize] ([internal/as/authz.go], [compat.go], [authctx.go], [consent.go], [par.go], the two
      handlers of [handlers/handlers.go]): from an inline, pushed or signed request to a stored code of
      [TokenGrants]; clients come from [Registration], resources from [Delegation], details from [Rar],
      the replay cache of consent tickets from [KV].
    - [AgentGate] ([agentpolicy/agentpolicy.go], [internal/agent/gate.go]): the gate in front of an
      agent's tokens; it asks a policy engine, which evaluates documents with [PolicyTaint]. Its
      clients use the record [MintGate] of the gate with its laws.
    - [Delegation] ([internal/chain], [internal/delegation], [internal/as/token_v34.go],
      [agent_expiry.go], [compat.go]): actor chains, delegation grants and token exchange, proved
      against [MintGate].
    - [Session] ([internal/session], the sessions of [storage/memory]): issuing under the cap of
      concurrent sessions and validation.
    - [Totp] ([internal/totp], [crypto/recoverycode.go], the TOTP tables of [storage/memory]):
      enrollment, one-time codes and recovery codes over [Session] and the limiter of [Throttle];
      [exec] and [run] execute any sequence of requests and record the attempts made.
    - [Passwords] ([crypto/password.go], [bcrypt.go], [pbkdf2.go], [internal/password/verify.go]): password
      hashes, legacy formats and their upgrade; key derivations and base64 are the class [PasswordLib].
    - [SignIn] ([internal/password], [internal/magiclink], [internal/trusteddevice], [internal/emailnorm],
      the account gate of [lifecycle.go]): sign-up, sign-in, resets, links and remembered devices over
      [Session], [Totp], [Throttle] and [Passwords]; [exec] and [run] execute any sequence of them.
    - [ApiTokens] ([internal/apitokens], [storage/memory/memory_apitokens.go]): tokens with abilities, their
      routes, and the device grant with its attempt limiter; [exec] and [run] execute any sequence of requests.
    - [Identities] ([internal/oauth/service.go], [state.go], [internal/identitylink], the account and passkey
      tables of [storage/memory]): social sign-in, linked identities and merged users over [SignIn]; [exec] and
      [run] execute any sequence of requests.
    - [Passkeys] ([internal/webauthn], the credentials of [storage/memory]): ceremonies, counters and the policy on
      authenticators over [Identities]; the library is the class [WebAuthnLib] with the laws [WebAuthnLaws], and the
      storage calls of concurrent logins are steps of [world_step].
    - [Tenants] (users, organizations, permissions, roles and grants of [storage/memory]): the tables that
      the next three files share, and their well-formedness.
    - [Rbac] ([internal/rbac], [RequirePermission] of [middleware.go]): the permission catalog, seeding,
      grants and role editing, and the permission gate.
    - [Organizations] ([internal/organizations] with its handlers, [lifecycle.go]): organizations, members
      and account operations.
    - [AdminApi] ([internal/admin/handlers.go]): the admin routes with their three gates, over [Rbac] and
      [Organizations].

    ** What the theorems show

    - Patterns. [Match] decides the declarative glob relation within its iteration bound; escaped
      values match only themselves; [expand] inserts values as literals unless the template escapes
      the reference, and then it does not.
    - Decisions. Exact characterisations of when [evaluate], [Evaluate] and [EvaluateWithBoundary]
      allow: some statement permits, none denies or escalates, no tier requires more, no taint rule is
      violated, the boundary agrees. Deny wins, order does not matter, the strongest tier is chosen.
      An explanation names a statement that matched, or conditions that failed and at most three near
      misses; it reads the clock a second time.
    - Stores and guards. The policy store refines finite maps; an allow of the HTTP guard is grounded
      in a stored, attached statement; the middleware runs the handler exactly on an allow.
    - Tool calls. [Authorize] permits in exactly two ways; no approval permits two calls, for any
      store that keeps the contract, under any interleaving; approvals are decided and spent once;
      tracked labels reach later arguments; a hook run lets a call through exactly when every hook in turn
      allowed it before its context was done.
    - The log. Proofs made by the operator verify (completeness) and a verified proof fixes the leaf
      or the older tree, assuming that no two of the strings actually hashed collide (soundness); a
      receipt is bound to the log the same way, and a log that still matches a checkpoint shows the
      leaves that were signed.
    - The chain. A log written by the store verifies after any batches and erasures; two logs that
      verify and share a row's hash agree on that row and on all before it; cutting off the newest
      rows goes unnoticed.
    - Tokens. A token family has at most one live refresh token, under every interleaving of the
      storage calls; a rotation never gains scope, lifetime or another key, whether the family started at a
      code, a device approval or a backchannel approval; reuse revokes the family
      and code replay the tokens of the code; the race between reuse and rotation that leaves a live
      token. A device code is redeemed at most once, and polling answers as RFC 8628 says; backchannel
      tokens are delivered once and only after an approval, unless two decisions race.
    - Authorization. Every code the server ever stores was stored by one of the calls it served, and its user,
      client, redirect URI, challenge, audience, scopes, details and consent are those of that call. Pushing a
      request and then authorizing with its [request_uri] stores the code that the inline request stores, where
      the request is allowed inline; and a consent ticket is completed once; a pushed request that meets a signed out user
      can never be completed, a request object of one client authorizes another, and the two switches
      that demand pushed or signed requests guard the inline path only. Narrowed authorization details
      permit nothing that was not granted, along any chain of narrowings.
    - Registration. The clients registered with a token are at most its uses, under every interleaving,
      refunds included, and declare only what the token allows; the endpoint is a run of those steps;
      redirect URIs are safe and anonymous clients public. The scope cap binds the declaration only.
    - Proofs of possession. Exactly when a proof is accepted; it is accepted once, until the clock skew
      in which it can be replayed, at both servers; a bound token needs its key; nonces cannot be made
      without the secret; the memory of identifiers is well formed and bounded; a crafted key panics.
    - The resource server. A served request carries a token that verifies for this resource, with the
      scopes asked for and its proof, and neither the introspection nor the revocation answer of that request
      objects to it; a rotated key and a revoked delegation stop working
      in bounded time; the caches are bounded; the agent it names is the first delegate.
    - Agents. What the gate approves is inside the request, the ceiling and the policies; an exchanged
      token only ever shrinks, along any chain of exchanges, within the depth limit; a revoked
      delegation stays revoked until it is granted again.
    - Second factors. For any run of requests: accepted one-time codes have strictly increasing time
      steps, a pending session becomes full only by an accepted factor of its user, five wrong codes
      revoke it, a recovery code works once, and no user exceeds the session cap; and the enrollment
      that confirms another secret than the one it checked.
    - Signing in. A sign-in succeeds only for the owner of a verified password, through the throttle and the
      account gate, and its session is full only without a second factor or on a trusted device; refusals
      answer alike and count alike, and differ in the audit event they emit; hashes verify their own password and need no upgrade; a reset leaves only the new
      password, no session and no trusted device; an emailed token works once in any run of operations. A
      link signs in without the second factor, and a reset leaves other reset tokens usable.
    - API tokens. Every ability of every token was handed on by somebody who held it, in any run, or was chosen
      by the host, who may mint and import tokens with any abilities; a route
      serves only callers who hold its ability now; a revoked token is never accepted again; at most five
      wrong user codes per user and address in fifteen minutes when lookups are served one by one, and any
      number when they are served in parallel; three ways in which an approved device
      login is spent without a token.
    - Identities. A social login finishes only in the browser that started it, for the same provider, within
      the lifetime of the flow and once, in any run; it signs in the owner of the provider account, the user
      with the verified address or a new user whom the policy admits; destinations are on the allow-list; a
      merge moves everything, and asks nothing of the user who is merged.
    - Passkeys. A login is by the owner of a stored credential, on an open challenge, and under the policy that
      rejects clones a counter signs in once under any interleaving; a registration is for the user who began it and an admitted authenticator; names
      of authenticators have a normal form; a merge disables the passkeys it moves.
    - Shrinking. Compacting a policy changes no outcome of a decision: allowed, escalated or denied; without merging a proposal only narrows; a
      proposal replays the calls it was made from without losing one; the ways in which a merge widens.
    - Tenants. The permission gate serves exactly the holders of a permission in the active organization
      and super admins, whom the service never makes, except by renaming a role of the system; the audit
      trail tells the grants in force after any run of requests; a PATCH gives a member exactly the roles
      named; seeding is idempotent; every organization keeps an owner while the organization routes are served
      one by one, and two removals that race leave one without, as the admin API does; and what that API does across organizations.
    - Limits. Lockout after the configured failures, no refusal within the grace period, closed form
      of the backoff, no failure lost to a race, exact budgets of the window limiter, replay refused,
      bounded memory of the cache, and an unbounded throttle store.

    ** Bounds and fuel

    [match_loop] runs on [match_fuel], proved sufficient. The Merkle recursions use the number of
    leaves as fuel, which each split decreases. [casAttempts] and [maxTrackDepth] are the code's own
    bounds. [writeCanonical] is bounded by the code's depth limit. Integers are unbounded [Z] except
    where wrapping matters, which is written with [wrap64].

    ** Not modelled

    Network and SQL adapters, HTTP encoding of answers, key generation, signature checks and token
    signing (arguments of the definitions that use them), audit events beside the audit log itself.
    SCIM, SAML and the provider clients are protocol code around library checks; HTTP rate
    limiting, client authentication, introspection, the agent service, the token vault, shared signals and
    codes sent by SMS are not modelled. The entries of the admin API's trail are the calls of its emitter; the
    asynchronous writer behind it drops events when its queue is full or it does not run. The hook before an access
    token is signed and the error callback of a hook runner are host code. Requests are atomic in [Session], [Totp], [SignIn], [ApiTokens], [Identities], [Dpop],
    [McpResource], [Authorize] and the tenant files but for the removal of members, logins with passkeys and
    the parallel lookups of user codes; elsewhere interleavings of storage
    calls are modelled. *)

From Stdlib Require Import ZArith Lia String Ascii Sorting.Sorted DecimalString DecimalZ DecimalFacts.
From stdpp Require Import base gmap strings list sorting.

Set Default Goal Selector "!".
Open Scope Z_scope.

(** ** Results of fallible Go functions

    A Go function returning [(T, error)] is modelled by [result E T]: [Err e] for a non nil error,
    [Ok v] otherwise. *)

Inductive result (E A : Type) : Type :=
| Ok (a : A)
| Err (e : E).
Arguments Ok {E A} a.
Arguments Err {E A} e.

Definition is_ok {E A} (r : result E A) : bool :=
  match r with Ok _ => true | Err _ => false end.

Declare Scope go_scope.
Delimit Scope go_scope with go.
Open Scope go_scope.

(** [let? x := c in k] is Go's [x, err := c; if err != nil { return err }; k]. *)
Notation "'let?' x := c 'in' k" :=
  (match c with Ok x => k | Err e => Err e end)
  (at level 10, x pattern, c at level 100, k at level 200) : go_scope.

(** ** Machine integers and time

    [int] and [int64] are 64 bit two's complement: [wrap64] reduces a mathematical integer to the
    value the machine stores. *)

Definition min_int64 : Z := - 2 ^ 63.
Definition max_int64 : Z := 2 ^ 63 - 1.

Definition wrap64 (z : Z) : Z := (z + 2 ^ 63) mod 2 ^ 64 - 2 ^ 63.

Definition in_int64 (z : Z) : Prop := min_int64 <= z <= max_int64.

(** [time.Time] is the number of nanoseconds since January 1, year 1 UTC, the instant of Go's zero
    time; [time.Duration] is an [int64] number of nanoseconds. *)
Definition IsZero (t : Z) : bool := t =? 0.
Definition Before (t u : Z) : bool := t <? u.
Definition After (t u : Z) : bool := u <? t.

(** [time.Time.Sub] saturates at the bounds of [time.Duration]. *)
Definition Sub (t u : Z) : Z := Z.max min_int64 (Z.min max_int64 (t - u)).

Definition Nanosecond : Z := 1.
Definition Second : Z := 1000000000.
Definition Minute : Z := 60 * Second.
Definition Hour : Z := 60 * Minute.

(** The Unix epoch, [t.Unix()], [t.UnixMicro()] and [time.Unix(n, 0)] *)
Definition unix_epoch : Z := 62135596800 * Second.
Definition Unix (t : Z) : Z := (t - unix_epoch) / Second.
Definition UnixMicro (t : Z) : Z := (t - unix_epoch) / 1000.
Definition FromUnix (n : Z) : Z := unix_epoch + n * Second.

(** [strconv.FormatInt(n, 10)] *)
Definition FormatInt (n : Z) : string := NilZero.string_of_int (Z.to_int n).

(** ** Automation *)

Create HintDb go discriminated.
Create Rewrite HintDb gostr.

(** Case analysis on the boolean tests of the goal and hypotheses, turning each into its
    proposition. *)
Ltac bool_prop :=
  repeat match goal with
  | H : (_ && _)%bool = true |- _ => apply andb_prop in H; destruct H
  | H : (_ || _)%bool = false |- _ => apply orb_false_elim in H; destruct H
  | H : negb _ = true |- _ => apply negb_true_iff in H
  | H : negb _ = false |- _ => apply negb_false_iff in H
  | H : (_ <? _)%Z = true |- _ => apply Z.ltb_lt in H
  | H : (_ <? _)%Z = false |- _ => apply Z.ltb_ge in H
  | H : (_ <=? _)%Z = true |- _ => apply Z.leb_le in H
  | H : (_ <=? _)%Z = false |- _ => apply Z.leb_gt in H
  | H : (_ =? _)%Z = true |- _ => apply Z.eqb_eq in H
  | H : (_ =? _)%Z = false |- _ => apply Z.eqb_neq in H
  | H : String.eqb _ _ = true |- _ => apply String.eqb_eq in H
  | H : String.eqb _ _ = false |- _ => apply String.eqb_neq in H
  | H : bool_decide _ = true |- _ => apply bool_decide_eq_true_1 in H
  | H : bool_decide _ = false |- _ => apply bool_decide_eq_false_1 in H
  end.

(** Unfold the time tests everywhere, so that [lia] sees integers. *)
Ltac go_time := unfold IsZero, Before, After in *.

(** Split every [if] and [match] of the goal, closing the absurd branches. *)
Ltac go_cases :=
  repeat (case_match; simplify_eq/=; try done); bool_prop.

Lemma wrap64_small z : in_int64 z -> wrap64 z = z.
Proof. unfold in_int64, wrap64, min_int64, max_int64. intros H. rewrite Z.mod_small; lia. Qed.

Lemma wrap64_range z : in_int64 (wrap64 z).
Proof.
  unfold in_int64, wrap64, min_int64, max_int64.
  pose proof (Z.mod_pos_bound (z + 2 ^ 63) (2 ^ 64) ltac:(lia)). lia.
Qed.

Lemma Sub_small t u : in_int64 (t - u) -> Sub t u = t - u.
Proof. unfold Sub, in_int64. lia. Qed.

#[export] Hint Resolve wrap64_range wrap64_small Sub_small : go.

(** ** Stable sorting

    [sort.SliceStable] and [sort.Slice] on keys without ties: a stable insertion sort by a strict
    comparison. *)

Section SortBy.
Context {A : Type} (less : A -> A -> bool).

Fixpoint insert_by (x : A) (l : list A) : list A :=
  match l with
  | [] => [x]
  | y :: l' => if less x y then x :: l else y :: insert_by x l'
  end.

(** Elements are inserted from the left, each one behind the elements it ties with. *)
Definition sort_by (l : list A) : list A := fold_left (fun acc x => insert_by x acc) l [].

Lemma insert_by_perm x l : insert_by x l ≡ₚ x :: l.
Proof.
  induction l as [|y l IH]; simpl; [done|]. destruct (less x y); [done|].
  rewrite IH. apply Permutation_swap.
Qed.

Lemma fold_insert_perm l acc :
  fold_left (fun acc x => insert_by x acc) l acc ≡ₚ l ++ acc.
Proof.
  revert acc. induction l as [|x l IH]; intros acc; simpl; [done|].
  rewrite IH, insert_by_perm, Permutation_middle. done.
Qed.

Lemma sort_by_perm l : sort_by l ≡ₚ l.
Proof. unfold sort_by. rewrite fold_insert_perm, app_nil_r. done. Qed.

Lemma sort_by_length l : length (sort_by l) = length l.
Proof. apply Permutation_length, sort_by_perm. Qed.

Lemma elem_of_sort_by x l : x ∈ sort_by l ↔ x ∈ l.
Proof. by rewrite sort_by_perm. Qed.

(** [not_after x y]: [y] does not sort strictly before [x]. *)
Definition not_after (x y : A) : Prop := less y x = false.

Context (Hasym : ∀ x y, less x y = true -> less y x = false).
Context (Htrans : ∀ x y z, less y x = false -> less z y = false -> less z x = false).

Lemma insert_by_sorted x l :
  StronglySorted not_after l -> StronglySorted not_after (insert_by x l).
Proof using Hasym Htrans.
  induction 1 as [|y l Hs IH Hy]; simpl; [repeat constructor|].
  destruct (less x y) eqn:E.
  - constructor; [by constructor|]. constructor; [by apply Hasym|].
    eapply Forall_impl; [exact Hy|]. intros z Hz. eapply Htrans; [by apply Hasym|done].
  - constructor; [done|]. rewrite insert_by_perm. by constructor.
Qed.

Lemma sort_by_sorted l : StronglySorted not_after (sort_by l).
Proof using Hasym Htrans.
  unfold sort_by. assert (H : StronglySorted not_after []) by constructor. revert H.
  generalize (@nil A) as acc.
  induction l as [|x l IH]; intros acc H; simpl; [done|]. by apply IH, insert_by_sorted.
Qed.

(** Without ties the result does not depend on the order of the input. *)
Lemma sort_by_unique l l' :
  (∀ x y, x ∈ l -> y ∈ l -> less x y = false -> less y x = false -> x = y) ->
  l ≡ₚ l' -> sort_by l = sort_by l'.
Proof using Hasym Htrans.
  intros Htie Hp. apply (StronglySorted_unique_strong not_after).
  - intros x y Hx Hy H1 H2. rewrite elem_of_sort_by in Hx, Hy. rewrite <- Hp in Hy. auto.
  - apply sort_by_sorted.
  - apply sort_by_sorted.
  - by rewrite !sort_by_perm.
Qed.
End SortBy.

(** Sorting compares keys only, so it commutes with a change of the values. *)
Lemma sort_by_Forall2 {A B} (less : A -> A -> bool) (less' : B -> B -> bool) (R : A -> B -> Prop) l l' :
  (∀ x y x' y', R x x' -> R y y' -> less x y = less' x' y') ->
  Forall2 R l l' -> Forall2 R (sort_by less l) (sort_by less' l').
Proof.
  intros Hl Hr. unfold sort_by. assert (Hacc : Forall2 R [] []) by constructor. revert Hacc.
  generalize (@nil A), (@nil B).
  induction Hr as [|x x' l l' Hx Hr IH]; intros acc acc' Hacc; simpl; [done|]. apply IH.
  clear IH Hr. induction Hacc as [|y y' acc acc' Hy Hacc IH]; simpl; [by repeat constructor|].
  rewrite (Hl x y x' y') by done. destruct (less' x' y'); [by repeat constructor|by constructor].
Qed.

(** ** String order

    Go compares strings byte by byte; [String.ltb] is that order. *)

Lemma string_compare_refl s : String.compare s s = Eq.
Proof.
  induction s as [|c s IH]; simpl; [done|].
  unfold Ascii.compare. rewrite N.compare_refl. done.
Qed.

Lemma string_ltb_trans s t u :
  String.ltb s t = true -> String.ltb t u = true -> String.ltb s u = true.
Proof.
  unfold String.ltb. revert t u.
  induction s as [|a s IH]; intros [|b t] [|c u]; simpl; try done.
  unfold Ascii.compare.
  destruct (N.compare_spec (N_of_ascii a) (N_of_ascii b)) as [E1|E1|E1]; [| |done];
    destruct (N.compare_spec (N_of_ascii b) (N_of_ascii c)) as [E2|E2|E2]; try done;
    destruct (N.compare_spec (N_of_ascii a) (N_of_ascii c)) as [E3|E3|E3]; try done; try lia.
  intros. eapply IH; eauto.
Qed.

Lemma string_ltb_asym s t : String.ltb s t = true -> String.ltb t s = false.
Proof. unfold String.ltb. rewrite (String.compare_antisym t s). by destruct (String.compare s t). Qed.

Lemma string_ltb_total s t : String.ltb s t = false -> String.ltb t s = false -> s = t.
Proof.
  unfold String.ltb. rewrite (String.compare_antisym t s).
  destruct (String.compare s t) eqn:E; try done. intros _ _. by apply String.compare_eq_iff.
Qed.

Lemma string_not_ltb_trans s t u :
  String.ltb t s = false -> String.ltb u t = false -> String.ltb u s = false.
Proof.
  intros H1 H2. destruct (String.ltb u s) eqn:E; [|done]. exfalso.
  destruct (String.ltb s t) eqn:Est.
  - by rewrite (string_ltb_trans _ _ _ E Est) in H2.
  - rewrite (string_ltb_total _ _ Est H1) in E. congruence.
Qed.

(** [sort.Strings] *)
Definition sort_strings : list string -> list string := sort_by String.ltb.

Lemma elem_of_sort_strings x l : x ∈ sort_strings l ↔ x ∈ l.
Proof. apply elem_of_sort_by. Qed.

Lemma sort_strings_sorted l : StronglySorted (not_after String.ltb) (sort_strings l).
Proof. apply sort_by_sorted; [apply string_ltb_asym|apply string_not_ltb_trans]. Qed.

(** Deduplication that keeps the first occurrence, as the loops
    [if !slices.Contains(out, x) { out = append(out, x) }] do. *)
Definition add_new {A} `{EqDecision A} (out : list A) (x : A) : list A :=
  if bool_decide (x ∈ out) then out else out ++ [x].

Definition dedup {A} `{EqDecision A} (l : list A) : list A := fold_left add_new l [].

Lemma elem_of_fold_add_new {A} `{EqDecision A} (l out : list A) x :
  x ∈ fold_left add_new l out ↔ x ∈ out ∨ x ∈ l.
Proof.
  revert out. induction l as [|y l IH]; intros out; simpl; [set_solver|].
  rewrite IH. unfold add_new. case_bool_decide; set_solver.
Qed.

Lemma NoDup_fold_add_new {A} `{EqDecision A} (l out : list A) :
  NoDup out -> NoDup (fold_left add_new l out).
Proof.
  revert out. induction l as [|y l IH]; intros out Hout; simpl; [done|]. apply IH.
  unfold add_new. case_bool_decide; [done|]. apply NoDup_app. split; [done|].
  split; [set_solver|]. by apply NoDup_singleton.
Qed.

Lemma elem_of_dedup {A} `{EqDecision A} (l : list A) x : x ∈ dedup l ↔ x ∈ l.
Proof. unfold dedup. rewrite elem_of_fold_add_new. set_solver. Qed.

Lemma NoDup_dedup {A} `{EqDecision A} (l : list A) : NoDup (dedup l).
Proof. apply NoDup_fold_add_new. constructor. Qed.

Lemma existsb_true_iff {A} (f : A -> bool) (l : list A) :
  existsb f l = true ↔ ∃ x, x ∈ l ∧ f x = true.
Proof. rewrite existsb_exists. by setoid_rewrite list_elem_of_In. Qed.

Lemma existsb_false_iff {A} (f : A -> bool) (l : list A) :
  existsb f l = false ↔ ∀ x, x ∈ l -> f x = false.
Proof.
  split.
  - intros H x Hx. destruct (f x) eqn:E; [|done].
    assert (existsb f l = true); [|congruence]. apply existsb_true_iff. eauto.
  - intros H. destruct (existsb f l) eqn:E; [|done].
    apply existsb_true_iff in E as (x & Hx & Hf). rewrite H in Hf; done.
Qed.

Lemma filter_none {A} (f : A -> bool) l : (∀ x, In x l -> f x = false) -> List.filter f l = [].
Proof.
  induction l as [|x l IH]; simpl; [done|]. intros Hl. rewrite (Hl x) by auto. apply IH. intros y Hy. apply Hl. auto.
Qed.

Lemma existsb_eqb_elem (x : string) l : existsb (String.eqb x) l = true ↔ x ∈ l.
Proof.
  rewrite existsb_true_iff. split; [|exists x; split; [done|apply String.eqb_refl]].
  intros (y & Hy & ->%String.eqb_eq). done.
Qed.

(** Pairs with distinct first components. *)
Lemma NoDup_fst_eq {A B} (l : list (A * B)) a b b' : NoDup l.*1 -> (a, b) ∈ l -> (a, b') ∈ l -> b = b'.
Proof.
  intros Hnd (i & Hi)%list_elem_of_lookup_1 (j & Hj)%list_elem_of_lookup_1.
  assert (i = j) as ->; [|congruence].
  eapply NoDup_lookup; [exact Hnd| |]; rewrite list_lookup_fmap; [by rewrite Hi|by rewrite Hj].
Qed.

Lemma NoDup_fst_filter {A B} (P : A * B -> Prop) `{∀ x, Decision (P x)} (l : list (A * B)) :
  NoDup l.*1 -> NoDup (filter P l).*1.
Proof.
  induction l as [|[a b] l IH]; [done|]. intros [Hn Hl]%NoDup_cons.
  rewrite filter_cons. case_decide; [|auto]. apply NoDup_cons. split; [|auto].
  intros (x & Hx1 & [_ Hx]%list_elem_of_filter)%list_elem_of_fmap. apply Hn, list_elem_of_fmap. eauto.
Qed.

(** ** Strings *)

Lemma string_length_app a b : String.length (a +:+ b) = (String.length a + String.length b)%nat.
Proof. induction a as [|c a IH]; simpl; [done|]. by rewrite <- IH. Qed.

Lemma list_of_string_app a b :
  list_ascii_of_string (a +:+ b) = list_ascii_of_string a ++ list_ascii_of_string b.
Proof. induction a as [|c a IH]; simpl; [done|]. by rewrite <- IH. Qed.

Lemma substring_full s n : (String.length s <= n)%nat -> String.substring 0 n s = s.
Proof. revert n. induction s as [|c s IH]; intros [|n] Hn; simpl in *; try done; [lia|]. by rewrite IH by lia. Qed.

Lemma substring_split s h :
  String.substring 0 h s +:+ String.substring h (String.length s - h) s = s.
Proof.
  revert h. induction s as [|c s IH]; intros [|h]; try done.
  - apply (substring_full (String c s)). simpl. lia.
  - cbn [String.substring String.length Nat.sub].
    change (String c (String.substring 0 h s) +:+ String.substring h (String.length s - h) s)
      with (String c (String.substring 0 h s +:+ String.substring h (String.length s - h) s)).
    by rewrite IH.
Qed.

Lemma substring_length s n : (n <= String.length s)%nat -> String.length (String.substring 0 n s) = n.
Proof. revert n. induction s as [|c s IH]; intros [|n] Hn; simpl in *; try done; [lia|]. by rewrite IH by lia. Qed.

Lemma substring_app_l a b : String.substring 0 (String.length a) (a +:+ b) = a.
Proof. induction a as [|c a IH]; simpl; [by destruct b|]. by f_equal. Qed.

Lemma substring_app_r a b n : String.length b = n -> String.substring (String.length a) n (a +:+ b) = b.
Proof.
  intros <-. induction a as [|c a IH]; simpl; [|done]. induction b as [|d b IH]; simpl; [done|]. by f_equal.
Qed.
