(* ===== verification/Glob.v ===== *)
(** * Policy globs ([policy/glob.go])

    The pattern language of policy documents: [Match] (iterative wildcard matching with one
    backtrack point), [Escape] and the [{var}] substitution [expand]. Go strings are byte strings;
    the loops of the source run over [list ascii] with the source's own cursors. [glob] is the
    declarative meaning of a pattern, and [Match] is proved to decide it within the number of
    iterations its comment announces. *)

From Stdlib Require Import ZArith Lia String Ascii.
From stdpp Require Import base gmap strings list.
From S2P Require Import Prelude.

Set Default Goal Selector "!".

Abbreviation bytes_of := list_ascii_of_string.
Abbreviation of_bytes := string_of_list_ascii.

Definition star_byte : ascii := "*"%char.
Definition backslash : ascii := "092"%char.
Definition lbrace : ascii := "{"%char.
Definition rbrace : ascii := "}"%char.

(** [token(p, i)]: the byte at [i], how many bytes it takes, whether it is a wildcard. Callers
    check [i < len(p)]. *)
Definition token (p : list ascii) (i : nat) : ascii * nat * bool :=
  match p !! i with
  | Some c =>
      if decide (c = star_byte) then ("000"%char, 1%nat, true)
      else if decide (c = backslash) then
        match p !! S i with
        | Some c' => (c', 2%nat, false)
        | None => (c, 1%nat, false)
        end
      else (c, 1%nat, false)
  | None => ("000"%char, 1%nat, false)
  end.

(** The loop variables of [Match]. *)
Record cursor := mkCursor { cp : nat; ci : nat; starP : Z; starI : nat }.

Inductive step_result :=
| Continue (c : cursor)
| Return (b : bool).

(** The loop after the subject is used up: only wildcards may be left. *)
Fixpoint only_stars (fuel : nat) (pattern : list ascii) (p : nat) : bool :=
  match fuel with
  | O => true
  | S fuel =>
      if (p <? length pattern)%nat then
        let '(_, w, star) := token pattern p in
        if star then only_stars fuel pattern (p + w) else false
      else true
  end.

(** One iteration of the main loop of [Match], or the loop's exit. *)
Definition match_step (pattern s : list ascii) (c : cursor) : step_result :=
  let backtrack :=
    if (starP c <? 0)%Z then Return false
    else Continue (mkCursor (Z.to_nat (starP c) + 1) (S (starI c)) (starP c) (S (starI c))) in
  match s !! ci c with
  | Some b =>
      if (cp c <? length pattern)%nat then
        let '(t, w, star) := token pattern (cp c) in
        if star then Continue (mkCursor (cp c + w) (ci c) (Z.of_nat (cp c)) (ci c))
        else if decide (t = b) then Continue (mkCursor (cp c + w) (S (ci c)) (starP c) (starI c))
        else backtrack
      else backtrack
  | None => Return (only_stars (length pattern) pattern (cp c))
  end.

Fixpoint match_loop (fuel : nat) (pattern s : list ascii) (c : cursor) : option bool :=
  match fuel with
  | O => None
  | S fuel =>
      match match_step pattern s c with
      | Continue c' => match_loop fuel pattern s c'
      | Return b => Some b
      end
  end.

(** The iteration bound of the source's comment, O(len(pattern) * len(s)). *)
Definition match_fuel (pattern s : list ascii) : nat :=
  S ((length s + 1) * (length pattern + 2) + length pattern).

Definition match_bytes (pattern s : list ascii) : option bool :=
  match_loop (match_fuel pattern s) pattern s (mkCursor 0 0 (-1) 0).

Definition Match (pattern s : string) : bool :=
  default false (match_bytes (bytes_of pattern) (bytes_of s)).

(** [Escape] writes a backslash before every [*] and backslash. *)
Definition special (c : ascii) : bool := bool_decide (c = star_byte) || bool_decide (c = backslash).

Fixpoint escape_loop (v : list ascii) : list ascii :=
  match v with
  | [] => []
  | c :: v' => if special c then backslash :: c :: escape_loop v' else c :: escape_loop v'
  end.

Definition escape_bytes (v : list ascii) : list ascii :=
  if existsb special v then escape_loop v else v.

Definition Escape (v : string) : string := of_bytes (escape_bytes (bytes_of v)).

Definition isVarChar (c : ascii) : bool :=
  let n := N_of_ascii c in
  ((97 <=? n) && (n <=? 122) || (65 <=? n) && (n <=? 90) || (48 <=? n) && (n <=? 57)
   || (n =? 95) || (n =? 46) || (n =? 45))%N.

(** The inner scan of [expand]: the longest run of variable characters. *)
Fixpoint var_span (s : list ascii) : list ascii :=
  match s with
  | [] => []
  | c :: s' => if isVarChar c then c :: var_span s' else []
  end.

(** The main loop of [expand]. [skip] counts the bytes the assignment [i = j] jumps over. *)
Fixpoint expand_loop (vars : gmap string string) (escape : bool) (skip : nat) (s : list ascii)
  : list ascii * bool :=
  match s with
  | [] => ([], true)
  | c :: s' =>
      match skip with
      | S k => expand_loop vars escape k s'
      | O =>
          let name := var_span s' in
          if negb (bool_decide (c = lbrace)) || bool_decide (name = [])
             || negb (bool_decide (s' !! length name = Some rbrace))
          then let '(out, ok) := expand_loop vars escape 0 s' in (c :: out, ok)
          else
            let v := vars !! of_bytes name in
            let bs := bytes_of (default ""%string v) in
            let bs := if escape then escape_bytes bs else bs in
            let '(out, ok) := expand_loop vars escape (S (length name)) s' in
            (bs ++ out, bool_decide (is_Some v) && ok)
      end
  end.

Definition expand (s : string) (vars : gmap string string) (escape : bool) : string * bool :=
  if negb (existsb (fun c => bool_decide (c = lbrace)) (bytes_of s)) then (s, true)
  else let '(out, ok) := expand_loop vars escape 0 (bytes_of s) in (of_bytes out, ok).

(** ** The declarative meaning of a pattern *)

Inductive tok :=
| Lit (c : ascii)
| Star.

(** The tokens of a pattern, left to right. *)
Fixpoint toks (p : list ascii) : list tok :=
  match p with
  | [] => []
  | c :: p' =>
      if decide (c = star_byte) then Star :: toks p'
      else if decide (c = backslash) then
        match p' with
        | c' :: p'' => Lit c' :: toks p''
        | [] => [Lit c]
        end
      else Lit c :: toks p'
  end.

(** A literal stands for itself, a wildcard for any run of bytes. *)
Inductive glob : list tok -> list ascii -> Prop :=
| glob_nil : glob [] []
| glob_lit c ts s : glob ts s -> glob (Lit c :: ts) (c :: s)
| glob_star ts s1 s2 : glob ts s2 -> glob (Star :: ts) (s1 ++ s2).

#[export] Hint Constructors glob : go.

Lemma glob_lit_inv c ts s : glob (Lit c :: ts) s -> ∃ s', s = c :: s' ∧ glob ts s'.
Proof. inversion 1; subst. eauto. Qed.

Lemma glob_star_inv ts s : glob (Star :: ts) s -> ∃ s1 s2, s = s1 ++ s2 ∧ glob ts s2.
Proof. inversion 1; subst. eauto. Qed.

Lemma glob_lits seg ts s :
  glob (map Lit seg ++ ts) s ↔ ∃ s', s = seg ++ s' ∧ glob ts s'.
Proof.
  revert s. induction seg as [|c seg IH]; intros s; simpl.
  - split; [eauto|by intros (? & -> & ?)].
  - split.
    + intros (s' & -> & H)%glob_lit_inv. apply IH in H as (s'' & -> & H). eauto.
    + intros (s' & -> & H). constructor. apply IH. eauto.
Qed.

Lemma glob_star_drop ts s i :
  glob (Star :: ts) (drop i s) ↔ ∃ k, (i ≤ k)%nat ∧ (k ≤ length s ∨ k = i)%nat ∧ glob ts (drop k s).
Proof.
  split.
  - intros (s1 & s2 & Heq & H')%glob_star_inv.
    exists (i + length s1)%nat.
    assert (length (drop i s) = length s1 + length s2)%nat as Hl by by rewrite Heq, length_app.
    rewrite length_drop in Hl. split; [lia|]. split.
    + destruct (decide (length s < i)%nat); [right|left]; lia.
    + by rewrite <- drop_drop, Heq, drop_app_length.
  - intros (k & ? & ? & H'). rewrite <- (take_drop (k - i) (drop i s)), drop_drop.
    constructor. by replace (i + (k - i))%nat with k by lia.
Qed.

(** [token] reads one token of the rest of the pattern. *)
Lemma token_toks p i c w star :
  (i < length p)%nat -> token p i = (c, w, star) ->
  toks (drop i p) = (if star then Star else Lit c) :: toks (drop (i + w) p)
  ∧ (1 ≤ w)%nat ∧ (i + w ≤ length p)%nat.
Proof.
  intros Hi. unfold token. destruct (lookup_lt_is_Some_2 p i Hi) as [b Hb]. rewrite Hb.
  rewrite (drop_S p b i Hb). simpl.
  destruct (decide (b = star_byte)) as [->|]; [intros; simplify_eq|].
  { split; [by rewrite Nat.add_1_r|lia]. }
  destruct (decide (b = backslash)) as [->|]; [|intros; simplify_eq].
  - destruct (p !! S i) as [b'|] eqn:Hb'; intros; simplify_eq.
    + rewrite (drop_S p c (S i) Hb'). apply lookup_lt_Some in Hb'.
      replace (i + 2)%nat with (S (S i)) by lia. split; [done|lia].
    + rewrite (drop_ge p (S i)) by by apply lookup_ge_None. rewrite Nat.add_1_r.
      rewrite drop_ge by by apply lookup_ge_None. split; [done|lia].
  - split; [by rewrite Nat.add_1_r|lia].
Qed.

Lemma only_stars_spec fuel p i :
  (length p ≤ i + fuel)%nat -> only_stars fuel p i = true ↔ glob (toks (drop i p)) [].
Proof.
  revert i. induction fuel as [|fuel IH]; intros i Hf; simpl.
  - rewrite drop_ge by lia. split; [intros _; constructor|done].
  - destruct (Nat.ltb_spec i (length p)) as [Hi|Hi].
    + destruct (token p i) as [[c w] star] eqn:E.
      apply token_toks in E as (-> & ? & ?); [|done]. destruct star.
      * rewrite IH by lia. split; [intros Hg; apply (glob_star _ [] _ Hg)|].
        intros (s1 & s2 & Heq & H')%glob_star_inv. symmetry in Heq.
        by apply app_nil in Heq as [-> ->].
      * split; [done|inversion 1].
    + rewrite drop_ge by lia. split; [intros _; constructor|done].
Qed.

(** ** The loop invariant of [Match]

    Cursors stay in range; the bytes matched since the last wildcard are literals of the pattern;
    and the whole pattern matches exactly when the rest matches from here, or the part after the
    last wildcard matches from a later position. *)
Record loop_inv (p s : list ascii) (c : cursor) : Prop := {
  inv_i : (starI c ≤ ci c ≤ length s)%nat;
  inv_p : (cp c ≤ length p)%nat;
  inv_seg : (0 ≤ starP c)%Z -> ∃ seg,
    toks (drop (Z.to_nat (starP c) + 1) p) = map Lit seg ++ toks (drop (cp c) p)
    ∧ drop (starI c) s = seg ++ drop (ci c) s;
  inv_star : (0 ≤ starP c)%Z -> (Z.to_nat (starP c) < length p)%nat;
  inv_sem : glob (toks p) s ↔
    glob (toks (drop (cp c) p)) (drop (ci c) s)
    ∨ (0 ≤ starP c)%Z ∧ ∃ k, (starI c < k ≤ length s)%nat
        ∧ glob (toks (drop (Z.to_nat (starP c) + 1) p)) (drop k s);
}.

Lemma loop_inv_init p s : loop_inv p s (mkCursor 0 0 (-1) 0).
Proof. split; simpl; try lia. rewrite !drop_0. intuition lia. Qed.

(** How many more iterations the loop can take. *)
Definition loop_measure (p s : list ascii) (c : cursor) : nat :=
  ((length s + 1 - starI c) * (length p + 2) + (length p - cp c))%nat.

Lemma seg_length (s : list ascii) i j seg :
  (i ≤ j ≤ length s)%nat -> drop i s = seg ++ drop j s -> (length seg = j - i)%nat.
Proof. intros ? H. apply (f_equal length) in H. rewrite length_app, !length_drop in H. lia. Qed.

(** Reading a wildcard makes the older one redundant. *)
Lemma step_star_inv p s c b w :
  loop_inv p s c -> (cp c < length p)%nat -> (ci c < length s)%nat ->
  token p (cp c) = (b, w, true) ->
  loop_inv p s (mkCursor (cp c + w) (ci c) (Z.of_nat (cp c)) (ci c)).
Proof.
  intros [Hi Hp Hseg Hstar Hsem] Hlt Hci Ht. apply token_toks in Ht as Htok; [|done].
  destruct Htok as (Htok & ? & ?).
  assert (w = 1%nat) as ->.
  { revert Ht. unfold token. destruct (p !! cp c); [|intros; by simplify_eq].
    repeat case_match; intros; by simplify_eq. }
  assert (Hstar_old : glob (toks (drop (cp c) p)) (drop (ci c) s) ↔
    ∃ k, (ci c ≤ k ≤ length s)%nat ∧ glob (toks (drop (cp c + 1) p)) (drop k s)).
  { rewrite Htok, glob_star_drop. split.
    - intros (k & ? & ? & ?). exists k. split; [lia|done].
    - intros (k & ? & ?). exists k. split; [lia|]. split; [lia|done]. }
  split; simpl; rewrite ?Nat2Z.id; try lia.
  - intros _. by exists [].
  - rewrite Hsem, Hstar_old. split.
    + intros [(k & Hk & Hg)|(Hs & k & Hk & Hg)].
      * destruct (decide (k = ci c)) as [->|]; [by left|right]. split; [lia|].
        exists k. split; [lia|done].
      * right. split; [lia|]. destruct (Hseg Hs) as (seg & Heq & Hd).
        pose proof (seg_length s (starI c) (ci c) seg ltac:(lia) Hd).
        rewrite Heq in Hg. apply glob_lits in Hg as (s' & Hs' & Hg).
        rewrite Htok in Hg. assert (s' = drop (k + length seg) s) as ->.
        { by rewrite <- drop_drop, Hs', drop_app_length. }
        apply glob_star_drop in Hg as (k' & ? & Hk' & Hg).
        assert (k + length seg ≤ length s)%nat.
        { apply (f_equal length) in Hs'. rewrite length_app, length_drop in Hs'. lia. }
        exists k'. split; [lia|done].
    + intros [Hg|(_ & k & Hk & Hg)]; left; [exists (ci c)|exists k]; (split; [lia|done]).
Qed.

(** A matching byte moves both cursors. *)
Lemma step_lit_inv p s c b w :
  loop_inv p s c -> (cp c < length p)%nat -> s !! ci c = Some b ->
  token p (cp c) = (b, w, false) ->
  loop_inv p s (mkCursor (cp c + w) (S (ci c)) (starP c) (starI c)).
Proof.
  intros [Hi Hp Hseg Hstar Hsem] Hlt Hb Ht. apply token_toks in Ht as (Htok & ? & ?); [|done].
  pose proof (lookup_lt_Some _ _ _ Hb). pose proof (drop_S s b _ Hb) as Hd.
  split; simpl; try lia.
  - intros Hs. destruct (Hseg Hs) as (seg & Heq & Hds). exists (seg ++ [b]).
    split; [by rewrite Heq, Htok, map_app, <- app_assoc|by rewrite Hds, Hd, <- app_assoc].
  - rewrite Hsem, Htok, Hd. split; (intros [Hg|Hg]; [left|by right]).
    + apply glob_lit_inv in Hg as (? & ? & ?). by simplify_eq.
    + by constructor.
Qed.

(** A dead end falls back to the last wildcard, one byte further. *)
Lemma step_back_inv p s c :
  loop_inv p s c -> (ci c < length s)%nat -> (0 ≤ starP c)%Z ->
  ¬ glob (toks (drop (cp c) p)) (drop (ci c) s) ->
  loop_inv p s (mkCursor (Z.to_nat (starP c) + 1) (S (starI c)) (starP c) (S (starI c))).
Proof.
  intros [Hi Hp Hseg Hstar Hsem] Hlt Hs Hno. specialize (Hstar Hs). split; simpl; try lia.
  - intros _. by exists [].
  - rewrite Hsem. split.
    + intros [Hg|(_ & k & Hk & Hg)]; [done|].
      destruct (decide (k = S (starI c))) as [->|]; [by left|right]. split; [done|].
      exists k. split; [lia|done].
    + intros [Hg|(_ & k & Hk & Hg)]; right; (split; [done|]); eexists; (split; [|exact Hg]); lia.
Qed.

(** When the subject is used up, no later start of the last wildcard can match. *)
Lemma exit_inv p s c :
  loop_inv p s c -> s !! ci c = None ->
  only_stars (length p) p (cp c) = true ↔ glob (toks p) s.
Proof.
  intros [Hi Hp Hseg Hstar Hsem] Hn%lookup_ge_None. rewrite only_stars_spec by lia.
  rewrite Hsem. rewrite (drop_ge s (ci c)) in * by lia. split; [by left|].
  intros [Hg|(Hs & k & Hk & Hg)]; [done|]. exfalso.
  destruct (Hseg Hs) as (seg & Heq & Hd). rewrite Heq in Hg.
  apply glob_lits in Hg as (s' & Hs' & _).
  apply (f_equal length) in Hs'. apply (f_equal length) in Hd.
  rewrite !length_app, !length_drop in *. simpl in *. lia.
Qed.

Lemma not_lit_match t b ts s : t ≠ b -> ¬ glob (Lit t :: ts) (b :: s).
Proof. intros Hne (? & ? & _)%glob_lit_inv. by simplify_eq. Qed.

(** One iteration keeps the invariant and uses up the measure, or returns the right answer. *)
Lemma match_step_ok p s c :
  loop_inv p s c ->
  match match_step p s c with
  | Continue c' => loop_inv p s c' ∧ (loop_measure p s c' < loop_measure p s c)%nat
  | Return b => b = true ↔ glob (toks p) s
  end.
Proof.
  intros Hinv. pose proof Hinv as [Hi Hp Hseg Hstar Hsem]. unfold match_step.
  destruct (s !! ci c) as [b|] eqn:Hb; [|by apply exit_inv].
  pose proof (lookup_lt_Some _ _ _ Hb) as Hci. pose proof (drop_S s b _ Hb) as Hd.
  assert (Hback : ¬ glob (toks (drop (cp c) p)) (drop (ci c) s) ->
    match (if (starP c <? 0)%Z then Return false
           else Continue (mkCursor (Z.to_nat (starP c) + 1) (S (starI c)) (starP c) (S (starI c))))
    with
    | Continue c' => loop_inv p s c' ∧ (loop_measure p s c' < loop_measure p s c)%nat
    | Return b => b = true ↔ glob (toks p) s
    end).
  { intros Hno. destruct (Z.ltb_spec (starP c) 0).
    - rewrite Hsem. split; [done|]. intros [?|[? _]]; [done|lia].
    - split; [by apply step_back_inv|]. specialize (Hstar ltac:(done)).
      unfold loop_measure; simpl. nia. }
  destruct (Nat.ltb_spec (cp c) (length p)) as [Hlt|Hge].
  - destruct (token p (cp c)) as [[t w] star] eqn:Ht.
    pose proof (token_toks _ _ _ _ _ Hlt Ht) as (Htok & ? & ?). destruct star.
    + split; [by eapply step_star_inv|]. unfold loop_measure; simpl. nia.
    + case_decide as Htb.
      * subst t. split; [by eapply step_lit_inv|]. unfold loop_measure; simpl. nia.
      * apply Hback. rewrite Htok, Hd. by apply not_lit_match.
  - apply Hback. rewrite (drop_ge p) by lia. rewrite Hd. inversion 1.
Qed.

Lemma match_loop_ok fuel p s c :
  loop_inv p s c -> (loop_measure p s c < fuel)%nat ->
  ∃ b, match_loop fuel p s c = Some b ∧ (b = true ↔ glob (toks p) s).
Proof.
  revert c. induction fuel as [|fuel IH]; intros c Hinv Hf; [lia|]. simpl.
  pose proof (match_step_ok p s c Hinv) as Hs. destruct (match_step p s c); [|eauto].
  destruct Hs. apply IH; [done|lia].
Qed.

Lemma match_bytes_ok p s : ∃ b, match_bytes p s = Some b ∧ (b = true ↔ glob (toks p) s).
Proof.
  apply match_loop_ok; [apply loop_inv_init|]. unfold match_fuel, loop_measure; simpl. nia.
Qed.

Lemma Match_glob pattern s :
  Match pattern s = true ↔ glob (toks (bytes_of pattern)) (bytes_of s).
Proof. unfold Match. by destruct (match_bytes_ok (bytes_of pattern) (bytes_of s)) as (b & -> & H). Qed.

(** ** Escaping *)

Lemma escape_loop_id v : existsb special v = false -> escape_loop v = v.
Proof.
  induction v as [|c v IH]; simpl; [done|]. intros [-> H]%orb_false_elim. by rewrite IH.
Qed.

Lemma escape_bytes_loop v : escape_bytes v = escape_loop v.
Proof. unfold escape_bytes. destruct (existsb special v) eqn:E; [done|]. by rewrite escape_loop_id. Qed.

Lemma escape_bytes_app u v : escape_bytes (u ++ v) = escape_bytes u ++ escape_bytes v.
Proof.
  rewrite !escape_bytes_loop. induction u as [|c u IH]; simpl; [done|].
  destruct (special c); simpl; by rewrite IH.
Qed.

Lemma toks_escape v rest : toks (escape_bytes v ++ rest) = map Lit v ++ toks rest.
Proof.
  rewrite escape_bytes_loop. induction v as [|c v IH]; [done|]. simpl. unfold special.
  destruct (bool_decide (c = star_byte)) eqn:E1; [by simpl; rewrite IH|].
  destruct (bool_decide (c = backslash)) eqn:E2; [by simpl; rewrite IH|].
  apply bool_decide_eq_false in E1, E2. simpl. by rewrite !decide_False, IH by done.
Qed.

Lemma glob_map_lit v s : glob (map Lit v) s ↔ s = v.
Proof.
  rewrite <- (app_nil_r (map Lit v)), glob_lits. split.
  - intros (s' & -> & H). inversion H. by rewrite app_nil_r.
  - intros ->. exists []. rewrite app_nil_r. eauto with go.
Qed.

Lemma bytes_of_inj s t : bytes_of s = bytes_of t -> s = t.
Proof. intros H. rewrite <- (string_of_list_ascii_of_string s), H. apply string_of_list_ascii_of_string. Qed.

Lemma bytes_of_app s t : bytes_of (String.append s t) = bytes_of s ++ bytes_of t.
Proof. induction s as [|c s IH]; simpl; [done|]. by rewrite IH. Qed.

#[export] Hint Rewrite bytes_of_app list_ascii_of_string_of_list_ascii string_of_list_ascii_of_string : gostr.

(** ** Templates

    A template is read into literal bytes and variable references. [item_toks] gives a template its
    meaning as a glob: the tokens of its text, with every variable replaced by the literal bytes of
    its value. *)

Inductive item :=
| Byte (c : ascii)
| Var (name : string).

Fixpoint items (skip : nat) (s : list ascii) : list item :=
  match s with
  | [] => []
  | c :: s' =>
      match skip with
      | S k => items k s'
      | O =>
          let name := var_span s' in
          if negb (bool_decide (c = lbrace)) || bool_decide (name = [])
             || negb (bool_decide (s' !! length name = Some rbrace))
          then Byte c :: items 0 s'
          else Var (of_bytes name) :: items (S (length name)) s'
      end
  end.

Definition var_value (vars : gmap string string) (name : string) : list ascii :=
  bytes_of (default ""%string (vars !! name)).

Fixpoint item_toks (vars : gmap string string) (l : list item) : list tok :=
  match l with
  | [] => []
  | Var n :: l' => map Lit (var_value vars n) ++ item_toks vars l'
  | Byte c :: l' =>
      if decide (c = star_byte) then Star :: item_toks vars l'
      else if decide (c = backslash) then
        match l' with
        | Byte c' :: l'' => Lit c' :: item_toks vars l''
        | _ => Lit c :: item_toks vars l'
        end
      else Lit c :: item_toks vars l'
  end.

(** No variable reference directly follows an unescaped backslash. *)
Fixpoint no_escaped_var (l : list item) : bool :=
  match l with
  | [] => true
  | Var _ :: l' => no_escaped_var l'
  | Byte c :: l' =>
      if decide (c = backslash) then
        match l' with
        | Byte _ :: l'' => no_escaped_var l''
        | Var _ :: _ => false
        | [] => true
        end
      else no_escaped_var l'
  end.

Definition item_bytes (vars : gmap string string) (escape : bool) (i : item) : list ascii :=
  match i with
  | Byte c => [c]
  | Var n => if escape then escape_bytes (var_value vars n) else var_value vars n
  end.

Definition resolved (vars : gmap string string) (i : item) : bool :=
  match i with Byte _ => true | Var n => bool_decide (is_Some (vars !! n)) end.

Lemma expand_loop_items vars escape skip s :
  expand_loop vars escape skip s =
  (concat (map (item_bytes vars escape) (items skip s)), forallb (resolved vars) (items skip s)).
Proof.
  revert skip. induction s as [|c s IH]; intros skip; simpl; [done|].
  destruct skip as [|k]; [|apply IH].
  case_match; rewrite IH; simpl; [done|]. unfold var_value. done.
Qed.

Lemma items_no_brace s :
  existsb (fun c => bool_decide (c = lbrace)) s = false -> items 0 s = map Byte s.
Proof.
  induction s as [|c s IH]; [done|]. intros H. cbn [existsb] in H.
  apply orb_false_elim in H as [H1 H2]. simpl. rewrite H1. simpl. by rewrite IH.
Qed.

Lemma concat_bytes vars escape s : concat (map (item_bytes vars escape) (map Byte s)) = s.
Proof. induction s as [|c s IH]; simpl; [done|]. by rewrite IH. Qed.

Lemma resolved_bytes vars s : forallb (resolved vars) (map Byte s) = true.
Proof. induction s; simpl; [done|]. done. Qed.

(** [expand] with the shortcut for strings without a brace folded in. *)
Lemma expand_items s vars escape :
  expand s vars escape =
  (of_bytes (concat (map (item_bytes vars escape) (items 0 (bytes_of s)))),
   forallb (resolved vars) (items 0 (bytes_of s))).
Proof.
  unfold expand. destruct (existsb _ (bytes_of s)) eqn:E; simpl.
  - by rewrite expand_loop_items.
  - rewrite (items_no_brace _ E), concat_bytes, resolved_bytes.
    by rewrite string_of_list_ascii_of_string.
Qed.

Lemma item_toks_correct vars l :
  no_escaped_var l = true ->
  toks (concat (map (item_bytes vars true) l)) = item_toks vars l.
Proof.
  remember (length l) as n eqn:Hn. revert l Hn.
  induction n as [n IH] using (well_founded_induction lt_wf). intros l -> Hsafe.
  destruct l as [|[c|name] l']; [done| |]; simpl in *.
  - destruct (decide (c = star_byte)) as [->|Hs].
    { f_equal. eapply IH; [|done|]; [simpl; lia|]. by rewrite decide_False in Hsafe by done. }
    destruct (decide (c = backslash)) as [->|Hb].
    + destruct l' as [|[c'|]]; [done| |done]. simpl. f_equal.
      eapply IH; [|done|done]. simpl; lia.
    + f_equal. eapply IH; [|done|done]. simpl; lia.
  - rewrite toks_escape. f_equal. eapply IH; [|done|done]. simpl; lia.
Qed.

(** ** Properties *)

(** C1. [Match] terminates within the iteration bound of its comment, O(len(pattern) * len(s)), and
    decides the declarative meaning of the pattern: a wildcard stands for any run of bytes, an
    escaped byte for itself, and one backtrack point (the last wildcard) is enough. *)
Theorem Match_decides_glob pattern s :
  ∃ b, match_loop (match_fuel (bytes_of pattern) (bytes_of s)) (bytes_of pattern) (bytes_of s)
         (mkCursor 0 0 (-1) 0) = Some b
    ∧ Match pattern s = b
    ∧ (b = true ↔ glob (toks (bytes_of pattern)) (bytes_of s)).
Proof.
  destruct (match_bytes_ok (bytes_of pattern) (bytes_of s)) as (b & Hb & Hiff).
  exists b. unfold Match. rewrite Hb. done.
Qed.

(** Round trip of [Escape]: inside any pattern prefix and suffix whose tokens it does not break
    up, an escaped value matches exactly itself, so escaped text carries no wildcards. *)
Theorem Escape_literal v pattern s :
  Match (Escape v ++ pattern) s = true ↔
  ∃ rest, s = (v ++ rest)%string ∧ Match pattern rest = true.
Proof.
  rewrite Match_glob. unfold Escape. autorewrite with gostr. rewrite toks_escape, glob_lits. split.
  - intros (s' & Hs & Hg). exists (of_bytes s'). split.
    + apply bytes_of_inj. by autorewrite with gostr.
    + apply Match_glob. by autorewrite with gostr.
  - intros (rest & -> & Hg). exists (bytes_of rest).
    autorewrite with gostr. by rewrite <- Match_glob.
Qed.

(** [expand] with escaping substitutes values, never patterns: when no variable reference
    follows an unescaped backslash, the expanded pattern means the template with every variable
    replaced by the literal bytes of its value, and [ok] says that every variable had a value. *)
Theorem expand_substitutes_literals tmpl vars
  (Hsafe : no_escaped_var (items 0 (bytes_of tmpl)) = true) :
  ∀ s, Match (expand tmpl vars true).1 s = true ↔
       glob (item_toks vars (items 0 (bytes_of tmpl))) (bytes_of s).
Proof.
  intros s. rewrite Match_glob, expand_items. simpl. autorewrite with gostr.
  by rewrite item_toks_correct.
Qed.

Lemma expand_substitutes_literals_witness :
  glob (item_toks {["id" := "a*"]} (items 0 (bytes_of "u:{id}/*"))) (bytes_of "u:a*/x")
  ∧ ¬ glob (item_toks {["id" := "a*"]} (items 0 (bytes_of "u:{id}/*"))) (bytes_of "u:abc/x").
Proof.
  split.
  - apply (expand_substitutes_literals "u:{id}/*" {["id" := "a*"]} eq_refl "u:a*/x").
    vm_compute. reflexivity.
  - intros H. apply (expand_substitutes_literals "u:{id}/*" {["id" := "a*"]} eq_refl) in H.
    vm_compute in H. discriminate H.
Defined.

(** The side condition of [expand_substitutes_literals] is needed: a backslash in front of a reference swallows the escape
    of the substituted value, and a value such as [*] becomes a wildcard again. *)
Theorem expand_after_backslash_injects :
  Match (expand "\{id}" {["id" := "*"]} true).1 "\anything" = true
  ∧ (expand "\{id}" {["id" := "*"]} true).2 = true.
Proof. vm_compute. done. Qed.
