(* ===== verification/PolicyDoc.v ===== *)
(** * Policy documents ([policy/policy.go], [policy/codes.go], [policy/risk.go] data)

    The data of the policy engine (conditions, statements, policies, requests, decisions, risk
    tiers, taint rules) and the validation of a document. Effects, requirements and decision codes
    are Go string types, so they are strings here: a document that was never validated can hold any
    effect. The Go library functions the engine calls (IP addresses, RFC 3339 and clock parsing,
    JSON decoding) are the fields of the class [GoLib]. *)

From Stdlib Require Import ZArith Lia String Ascii.
From Corelib Require Import SpecFloat.
From stdpp Require Import base gmap strings list pretty.
From S2P Require Import Prelude Glob.

Set Default Goal Selector "!".
Open Scope string_scope.

(** ** Constants *)

Definition Version : string := "1".
Definition MaxDocumentBytes : Z := 2 ^ 20.
Definition MaxStatements : nat := 256.
Definition MaxPatternLen : nat := 512.
Definition MaxListLen : nat := 256.

Definition Allow : string := "allow".
Definition Deny : string := "deny".
Definition Escalate : string := "escalate".

Definition OpEquals : string := "equals".
Definition OpNotEquals : string := "not_equals".
Definition OpIn : string := "in".
Definition OpNotIn : string := "not_in".
Definition OpIPCIDR : string := "ip_cidr".
Definition OpNotIPCIDR : string := "not_ip_cidr".
Definition OpTimeWindow : string := "time_window".
Definition OpDailyWindow : string := "daily_window".

Definition RequireNone : string := "none".
Definition RequireApproval : string := "approval".
Definition RequireStepUp : string := "step_up".

(** ** Decision codes ([policy/codes.go]) *)

Definition CodeAllowed : string := "allowed".
Definition CodeApprovalConsumed : string := "approval_consumed".
Definition CodeNoPermission : string := "no_permission".
Definition CodeRateLimited : string := "rate_limited".
Definition CodeIPNotAllowed : string := "ip_not_allowed".
Definition CodeTimeRestricted : string := "time_restricted".
Definition CodeArgumentRejected : string := "argument_rejected".
Definition CodeApprovalRequired : string := "approval_required".
Definition CodeApprovalInvalid : string := "approval_invalid".
Definition CodeAgentNotFound : string := "agent_not_found".
Definition CodeAgentRevoked : string := "agent_revoked".
Definition CodeAgentExpired : string := "agent_expired".
Definition CodeInvalidToken : string := "invalid_token".
Definition CodeOwnerMismatch : string := "owner_mismatch".
Definition CodeHookDenied : string := "hook_denied".
Definition CodeHookTimeout : string := "hook_timeout".
Definition CodeHookError : string := "hook_error".
Definition CodeTaintViolation : string := "taint_violation".
Definition CodeRiskEscalation : string := "risk_escalation".
Definition CodePolicyIndeterminate : string := "policy_indeterminate".

Definition AllDecisionCodes : list string :=
  [CodeAllowed; CodeApprovalConsumed; CodeNoPermission; CodeRateLimited;
   CodeIPNotAllowed; CodeTimeRestricted; CodeArgumentRejected;
   CodeApprovalRequired; CodeApprovalInvalid; CodeAgentNotFound;
   CodeAgentRevoked; CodeAgentExpired; CodeInvalidToken; CodeOwnerMismatch;
   CodeHookDenied; CodeHookTimeout; CodeHookError; CodeTaintViolation;
   CodeRiskEscalation; CodePolicyIndeterminate].

Definition code_valid (c : string) : bool := existsb (String.eqb c) AllDecisionCodes.

Definition code_permits (c : string) : bool :=
  (c =? CodeAllowed)%string || (c =? CodeApprovalConsumed)%string.

(** ** Documents *)

Record Condition := mkCondition { cond_op : string; cond_key : string; cond_values : list string }.

Record Statement := mkStatement {
  stmt_id : string;
  stmt_effect : string;
  stmt_actions : list string;
  stmt_resources : list string;
  stmt_conditions : list Condition;
  stmt_tier : string;
  stmt_require : string;
}.

Record Policy := mkPolicy {
  pol_version : string;
  pol_id : string;
  pol_statements : list Statement;
}.

(** ** Requests, decisions, risk tiers and taint rules *)

Record Request := mkRequest {
  req_action : string;
  req_resource : string;
  req_attributes : gmap string string;
  req_ip : string;
  req_now : Z;
  req_amount : spec_float;
  req_currency : string;
  req_data_class : string;
  req_irreversible : bool;
  req_provenance : gmap string (list string);
}.

Record Escalation := mkEscalation {
  esc_tier : string;
  esc_requirement : string;
  esc_reason : string;
}.

Record RiskTier := mkRiskTier {
  tier_name : string;
  tier_min_amount : spec_float;
  tier_currency : string;
  tier_data_classes : list string;
  tier_irreversible : option bool;
  tier_require : string;
}.

Record ArgRule := mkArgRule { arg_forbid : list string; arg_require : list string }.

Record TaintRule := mkTaintRule {
  taint_id : string;
  taint_resource : string;
  taint_actions : list string;
  taint_forbid : list string;
  taint_require : list string;
  taint_args : gmap string ArgRule;
  taint_effect : string;
  taint_tier : string;
  taint_unlabeled : string;
}.

Record TaintMatch := mkTaintMatch {
  tm_rule : string;
  tm_kind : string;
  tm_arg : string;
  tm_labels : list string;
  tm_effect : string;
}.

Record TaintVerdict := mkTaintVerdict {
  tv_verdict : string;
  tv_matches : list TaintMatch;
  tv_labels : gmap string (list string);
}.

Record Decision := mkDecision {
  d_allowed : bool;
  d_effect : string;
  d_policy_id : string;
  d_statement_id : string;
  d_reason : string;
  d_code : string;
  d_boundary : bool;
  d_escalation : option Escalation;
  d_taint : option TaintVerdict;
}.

(** The clock is a function of the caller: [ev_now] is [Evaluator.Now] ([None] for a nil function,
    which selects [time.Now]). *)
Record Evaluator := mkEvaluator {
  ev_now : option Z;
  ev_risk : list RiskTier;
  ev_taint : list TaintRule;
}.

(** ** The Go library behind the engine *)

Class GoLib := {
  Addr : Type;
  Prefix : Type;
  ParseAddr : string -> option Addr;
  Unmap : Addr -> Addr;
  ParsePrefix : string -> option Prefix;
  Contains : Prefix -> Addr -> bool;
  (** [time.Parse(time.RFC3339, v)] *)
  ParseRFC3339 : string -> option Z;
  (** [time.Parse("15:04", strings.TrimSpace(v))] as hour and minute *)
  ParseHHMM : string -> option (Z * Z);
  (** [json.Decoder] with [DisallowUnknownFields]: the document and whether data trails it *)
  DecodePolicy : string -> option (Policy * bool);
}.

Section Validate.
Context `{GoLib}.

Inductive cond_error :=
| CondTooManyValues
| CondValueTooLong
| CondArity (op : string)
| CondBadCIDR (v : string)
| CondBadTime (v : string)
| CondUnknownOp (op : string).

Inductive stmt_error :=
| StmtEffect
| StmtRequire
| StmtEmptyPatterns (field : string)
| StmtTooManyPatterns (field : string)
| StmtPatternLen (field : string)
| StmtTooManyConditions
| StmtCondition (e : cond_error).

(** Every document error wraps [ErrInvalid]. *)
Inductive doc_error :=
| DocTooLarge
| DocJSON
| DocTrailing
| DocVersion
| DocTooManyStatements
| DocStatement (i : nat) (e : stmt_error).

Definition parseClock (v : string) : option Z :=
  match ParseHHMM v with
  | Some (h, m) => Some (h * 60 + m)
  | None => None
  end.

(** The first value of a list on which a check fails. *)
Fixpoint first_error {E A : Type} (check : A -> option E) (l : list A) : option E :=
  match l with
  | [] => None
  | x :: l' => match check x with Some e => Some e | None => first_error check l' end
  end.

Definition checkPatterns (field : string) (l : list string) : option stmt_error :=
  if bool_decide (l = []) then Some (StmtEmptyPatterns field)
  else if (MaxListLen <? length l)%nat then Some (StmtTooManyPatterns field)
  else first_error
         (fun v => if (v =? "")%string || (MaxPatternLen <? String.length v)%nat
                   then Some (StmtPatternLen field) else None) l.

Definition condition_validate (c : Condition) : option cond_error :=
  let vs := cond_values c in
  if (MaxListLen <? length vs)%nat then Some CondTooManyValues
  else if existsb (fun v => (MaxPatternLen <? String.length v)%nat) vs then Some CondValueTooLong
  else
    let op := cond_op c in
    if (op =? OpEquals)%string || (op =? OpNotEquals)%string then
      if (cond_key c =? "")%string || negb (length vs =? 1)%nat then Some (CondArity op) else None
    else if (op =? OpIn)%string || (op =? OpNotIn)%string then
      if (cond_key c =? "")%string || (length vs =? 0)%nat then Some (CondArity op) else None
    else if (op =? OpIPCIDR)%string || (op =? OpNotIPCIDR)%string then
      if (length vs =? 0)%nat then Some (CondArity op)
      else first_error (fun v => match ParsePrefix v with
                                 | Some _ => None | None => Some (CondBadCIDR v) end) vs
    else if (op =? OpTimeWindow)%string then
      match vs with
      | [a; b] =>
          if (a =? "")%string && (b =? "")%string then Some (CondArity op)
          else first_error (fun v => if (v =? "")%string then None
                                     else match ParseRFC3339 v with
                                          | Some _ => None | None => Some (CondBadTime v) end) vs
      | _ => Some (CondArity op)
      end
    else if (op =? OpDailyWindow)%string then
      if negb (length vs =? 2)%nat then Some (CondArity op)
      else first_error (fun v => match parseClock v with
                                 | Some _ => None | None => Some (CondBadTime v) end) vs
    else Some (CondUnknownOp op).

Definition statement_validate (s : Statement) : option stmt_error :=
  let e := stmt_effect s in
  if negb ((e =? Allow)%string || (e =? Deny)%string || (e =? Escalate)%string)
  then Some StmtEffect
  else if (e =? Escalate)%string && negb (stmt_require s =? "")%string
          && negb (stmt_require s =? RequireApproval)%string
          && negb (stmt_require s =? RequireStepUp)%string
  then Some StmtRequire
  else match checkPatterns "actions" (stmt_actions s) with
  | Some err => Some err
  | None =>
      match checkPatterns "resources" (stmt_resources s) with
      | Some err => Some err
      | None =>
          if (MaxListLen <? length (stmt_conditions s))%nat then Some StmtTooManyConditions
          else match first_error condition_validate (stmt_conditions s) with
               | Some ce => Some (StmtCondition ce)
               | None => None
               end
      end
  end.

Fixpoint validate_statements (i : nat) (l : list Statement) : option doc_error :=
  match l with
  | [] => None
  | s :: l' =>
      match statement_validate s with
      | Some e => Some (DocStatement i e)
      | None => validate_statements (S i) l'
      end
  end.

Definition Validate (p : Policy) : option doc_error :=
  if negb (pol_version p =? Version)%string then Some DocVersion
  else if (MaxStatements <? length (pol_statements p))%nat then Some DocTooManyStatements
  else validate_statements 0 (pol_statements p).

Definition Parse (data : string) : result doc_error Policy :=
  if (MaxDocumentBytes <? Z.of_nat (String.length data))%Z then Err DocTooLarge
  else match DecodePolicy data with
  | None => Err DocJSON
  | Some (p, more) =>
      if more : bool then Err DocTrailing
      else match Validate p with
           | Some e => Err e
           | None => Ok p
           end
  end.

(** ** What validation guarantees *)

(** A validated statement has a known effect. *)
Definition known_effect (s : Statement) : Prop :=
  stmt_effect s = Allow ∨ stmt_effect s = Deny ∨ stmt_effect s = Escalate.

Lemma statement_validate_effect s : statement_validate s = None -> known_effect s.
Proof.
  unfold statement_validate, known_effect. case_match eqn:E; [done|]. intros _.
  apply negb_false_iff in E. repeat (apply orb_prop in E as [E|E]); bool_prop; tauto.
Qed.

Lemma validate_statements_None i l s :
  validate_statements i l = None -> s ∈ l -> statement_validate s = None.
Proof.
  revert i. induction l as [|x l IH]; intros i; [by intros _ ?%elem_of_nil|]. simpl.
  case_match; [done|]. intros Hl [->|?]%elem_of_cons; [done|eauto].
Qed.

Lemma Validate_None p s : Validate p = None -> s ∈ pol_statements p -> statement_validate s = None.
Proof. unfold Validate. go_cases; eauto using validate_statements_None. Qed.

Lemma Parse_Ok data p : Parse data = Ok p -> Validate p = None.
Proof. unfold Parse. by repeat case_match; intros; simplify_eq. Qed.
End Validate.
