(* ===== verification/PolicyEval.v ===== *)
(** * Policy evaluation ([policy/eval.go], [policy/risk.go])

    Conditions, statement matching, the explicit-deny-wins evaluation loop, risk tiers and the
    refinement of a default deny. The taint stage and [Evaluate] itself are in [PolicyTaint]. *)

From Stdlib Require Import ZArith Lia String Ascii.
From Corelib Require Import SpecFloat.
From stdpp Require Import base gmap strings list pretty.
From S2P Require Import Prelude Glob PolicyDoc.

Set Default Goal Selector "!".
Open Scope string_scope.

Definition statementIndexID (i : nat) : string := "stmt-" ++ pretty i.

Section Eval.
Context `{GoLib}.

(** ** Conditions *)

Definition inCIDR (cidrs : list string) (ip : string) : bool :=
  match ParseAddr ip with
  | None => false
  | Some addr =>
      let addr := Unmap addr in
      existsb (fun c => match ParsePrefix c with
                        | Some p => Contains p addr
                        | None => false
                        end) cidrs
  end.

Definition inAbsoluteWindow (v : list string) (now : Z) : bool :=
  match v with
  | [a; b] =>
      (if (a =? "")%string then true
       else match ParseRFC3339 a with
            | Some start => negb (Before now start)
            | None => false
            end)
      && (if (b =? "")%string then true
          else match ParseRFC3339 b with
               | Some stop => Before now stop
               | None => false
               end)
  | _ => false
  end.

(** [u.Hour()*60 + u.Minute()] of the UTC time of day. *)
Definition clock_of (now : Z) : Z := ((now / Hour) mod 24) * 60 + (now / Minute) mod 60.

Definition inDailyWindow (v : list string) (now : Z) : bool :=
  match v with
  | [a; b] =>
      match parseClock a, parseClock b with
      | Some start, Some stop =>
          let cur := clock_of now in
          if (start <=? stop)%Z then (start <=? cur)%Z && (cur <? stop)%Z
          else (start <=? cur)%Z || (cur <? stop)%Z
      | _, _ => false
      end
  | _ => false
  end.

(** The expanded values of a condition; a value with an unresolved variable is dropped. *)
Definition wanted (c : Condition) (req : Request) : list string :=
  omap (fun v => let '(x, ok) := expand v (req_attributes req) false in
                 if ok : bool then Some x else None) (cond_values c).

(** The attribute a condition reads: [Request.IP] for the key ["ip"], [Attributes] otherwise. *)
Definition cond_attr (c : Condition) (req : Request) : option string :=
  if (cond_key c =? "ip")%string then
    if (req_ip req =? "")%string then None else Some (req_ip req)
  else req_attributes req !! cond_key c.

Definition holds (c : Condition) (req : Request) : bool :=
  let op := cond_op c in
  if (op =? OpTimeWindow)%string then inAbsoluteWindow (cond_values c) (req_now req)
  else if (op =? OpDailyWindow)%string then inDailyWindow (cond_values c) (req_now req)
  else
    let want := wanted c req in
    let eq_one (v : string) := match want with [w] => (v =? w)%string | _ => false end in
    let mem (v : string) := existsb (String.eqb v) want in
    match cond_attr c req with
    | Some v =>
        if (op =? OpEquals)%string then eq_one v
        else if (op =? OpNotEquals)%string then negb (eq_one v)
        else if (op =? OpIn)%string then mem v
        else if (op =? OpNotIn)%string then negb (mem v)
        else if (op =? OpIPCIDR)%string then inCIDR (cond_values c) v
        else if (op =? OpNotIPCIDR)%string then negb (inCIDR (cond_values c) v)
        else false
    | None =>
        (op =? OpNotEquals)%string || (op =? OpNotIn)%string || (op =? OpNotIPCIDR)%string
    end.

(** ** Statements *)

Fixpoint matches_resource (pats : list string) (req : Request) (unresolvedMatches : bool) : bool :=
  match pats with
  | [] => false
  | pat :: pats' =>
      let '(exp, ok) := expand pat (req_attributes req) true in
      if ok : bool then
        if Match exp (req_resource req) then true
        else matches_resource pats' req unresolvedMatches
      else if unresolvedMatches then true
      else matches_resource pats' req unresolvedMatches
  end.

Definition matchesTarget (s : Statement) (req : Request) : bool :=
  existsb (fun p => Match p (req_action req)) (stmt_actions s)
  && matches_resource (stmt_resources s) req (stmt_effect s =? Deny)%string.

Definition matches (s : Statement) (req : Request) : bool :=
  matchesTarget s req && forallb (fun c => holds c req) (stmt_conditions s).

(** ** Risk tiers ([policy/risk.go]) *)

Definition float_zero : spec_float := S754_zero false.

Definition tier_matches (t : RiskTier) (req : Request) : bool :=
  negb (SFltb float_zero (tier_min_amount t) && SFltb (req_amount req) (tier_min_amount t))
  && negb (negb (tier_currency t =? "")%string
           && negb (tier_currency t =? req_currency req)%string)
  && (bool_decide (tier_data_classes t = [])
      || existsb (fun c => (c =? req_data_class req)%string) (tier_data_classes t))
  && match tier_irreversible t with
     | None => true
     | Some b => Bool.eqb b (req_irreversible req)
     end.

Definition strength (r : string) : Z :=
  if (r =? RequireStepUp)%string then 2
  else if (r =? RequireApproval)%string then 1
  else 0.

Fixpoint classify_loop (req : Request) (tiers : list RiskTier) (best : option RiskTier)
  : option RiskTier :=
  match tiers with
  | [] => best
  | t :: tiers' =>
      if tier_matches t req then
        match best with
        | None => classify_loop req tiers' (Some t)
        | Some b =>
            classify_loop req tiers'
              (if (strength (tier_require b) <? strength (tier_require t))%Z then Some t else best)
        end
      else classify_loop req tiers' best
  end.

Definition Classify (e : Evaluator) (req : Request) : option RiskTier :=
  match classify_loop req (ev_risk e) None with
  | Some b => if (strength (tier_require b) =? 0)%Z then None else Some b
  | None => None
  end.

Definition applyRisk (e : Evaluator) (req : Request) (d : Decision) : Decision :=
  match Classify e req with
  | None => d
  | Some t =>
      let reason := "risk tier " ++ tier_name t ++ " requires " ++ tier_require t in
      {| d_allowed := false; d_effect := Escalate; d_policy_id := d_policy_id d;
         d_statement_id := d_statement_id d; d_reason := reason; d_code := CodeRiskEscalation;
         d_boundary := d_boundary d;
         d_escalation := Some (mkEscalation (tier_name t) (tier_require t) reason);
         d_taint := d_taint d |}
  end.

(** ** Evaluation *)

Definition stmt_name (s : Statement) (i : nat) : string :=
  if (stmt_id s =? "")%string then statementIndexID i else stmt_id s.

Definition deny_decision (pid : string) (i : nat) (s : Statement) : Decision :=
  mkDecision false (stmt_effect s) pid (stmt_name s i) "explicit deny" CodeNoPermission false None None.

Definition escalate_decision (pid : string) (i : nat) (s : Statement) : Decision :=
  let reason := "escalation required by statement" in
  let req := if (stmt_require s =? "")%string then RequireApproval else stmt_require s in
  mkDecision false (stmt_effect s) pid (stmt_name s i) reason CodeApprovalRequired false
    (Some (mkEscalation (stmt_tier s) req reason)) None.

Definition allow_decision (pid : string) (i : nat) (s : Statement) : Decision :=
  mkDecision true (stmt_effect s) pid (stmt_name s i) "allowed by statement" CodeAllowed false
    None None.

(** The loop variables [allow] and [escalate] of [evaluate]. *)
Record eval_acc := mkAcc { acc_allow : option Decision; acc_escalate : option Decision }.

(** The inner loop over the statements of one policy. [inl] is the early return of an explicit
    deny. *)
Fixpoint eval_statements (req : Request) (pid : string) (i : nat) (ss : list Statement)
  (acc : eval_acc) : Decision + eval_acc :=
  match ss with
  | [] => inr acc
  | s :: ss' =>
      if matches s req then
        if (stmt_effect s =? Deny)%string then inl (deny_decision pid i s)
        else if (stmt_effect s =? Escalate)%string then
          eval_statements req pid (S i) ss'
            (match acc_escalate acc with
             | None => mkAcc (acc_allow acc) (Some (escalate_decision pid i s))
             | Some _ => acc
             end)
        else
          eval_statements req pid (S i) ss'
            (match acc_allow acc with
             | None => mkAcc (Some (allow_decision pid i s)) (acc_escalate acc)
             | Some _ => acc
             end)
      else eval_statements req pid (S i) ss' acc
  end.

Fixpoint eval_policies (req : Request) (ps : list (option Policy)) (acc : eval_acc)
  : Decision + eval_acc :=
  match ps with
  | [] => inr acc
  | None :: ps' => eval_policies req ps' acc
  | Some p :: ps' =>
      match eval_statements req (pol_id p) 0 (pol_statements p) acc with
      | inl d => inl d
      | inr acc' => eval_policies req ps' acc'
      end
  end.

(** The first condition of a statement that fails on an address or a time, as a code. *)
Fixpoint failed_condition_code (req : Request) (cs : list Condition) : option string :=
  match cs with
  | [] => None
  | c :: cs' =>
      if holds c req then failed_condition_code req cs'
      else if (cond_op c =? OpIPCIDR)%string || (cond_op c =? OpNotIPCIDR)%string
      then Some CodeIPNotAllowed
      else if (cond_op c =? OpTimeWindow)%string || (cond_op c =? OpDailyWindow)%string
      then Some CodeTimeRestricted
      else failed_condition_code req cs'
  end.

Fixpoint deny_code_statements (req : Request) (ss : list Statement) : option string :=
  match ss with
  | [] => None
  | s :: ss' =>
      if negb (stmt_effect s =? Allow)%string || negb (matchesTarget s req)
      then deny_code_statements req ss'
      else match failed_condition_code req (stmt_conditions s) with
           | Some c => Some c
           | None => deny_code_statements req ss'
           end
  end.

Fixpoint defaultDenyCode (req : Request) (ps : list (option Policy)) : string :=
  match ps with
  | [] => CodeNoPermission
  | None :: ps' => defaultDenyCode req ps'
  | Some p :: ps' =>
      match deny_code_statements req (pol_statements p) with
      | Some c => c
      | None => defaultDenyCode req ps'
      end
  end.

Definition default_deny (req : Request) (ps : list (option Policy)) : Decision :=
  mkDecision false "" "" "" "no matching allow statement (default deny)"
    (defaultDenyCode req ps) false None None.

Definition evaluate (e : Evaluator) (req : Request) (ps : list (option Policy)) : Decision :=
  match eval_policies req ps (mkAcc None None) with
  | inl d => d
  | inr acc =>
      match acc_escalate acc with
      | Some d => d
      | None =>
          match acc_allow acc with
          | Some d => applyRisk e req d
          | None => default_deny req ps
          end
      end
  end.

(** [clock] is what [time.Now()] returns. *)
Definition prepare (e : Evaluator) (clock : Z) (req : Request) : Request :=
  if IsZero (req_now req) then
    {| req_action := req_action req; req_resource := req_resource req;
       req_attributes := req_attributes req; req_ip := req_ip req;
       req_now := default clock (ev_now e);
       req_amount := req_amount req; req_currency := req_currency req;
       req_data_class := req_data_class req; req_irreversible := req_irreversible req;
       req_provenance := req_provenance req |}
  else req.

(** ** The evaluation loop, declaratively

    [statements_of] lists every statement with its policy id and index, in evaluation order. The
    loop picks the first matching deny, else the first matching escalate, else the first matching
    permit. *)

Definition located : Type := string * nat * Statement.

Fixpoint number (pid : string) (i : nat) (ss : list Statement) : list located :=
  match ss with
  | [] => []
  | s :: ss' => (pid, i, s) :: number pid (S i) ss'
  end.

Fixpoint statements_of (ps : list (option Policy)) : list located :=
  match ps with
  | [] => []
  | None :: ps' => statements_of ps'
  | Some p :: ps' => number (pol_id p) 0 (pol_statements p) ++ statements_of ps'
  end.

Definition is_deny (s : Statement) : bool := (stmt_effect s =? Deny)%string.
Definition is_escalate (s : Statement) : bool := (stmt_effect s =? Escalate)%string.
Definition is_permit (s : Statement) : bool := negb (is_deny s) && negb (is_escalate s).

Definition hit (req : Request) (P : Statement -> bool) (x : located) : bool :=
  matches x.2 req && P x.2.

Definition first (req : Request) (P : Statement -> bool) (l : list located) : option located :=
  List.find (hit req P) l.

Definition on_located {B} (f : string -> nat -> Statement -> B) (x : located) : B :=
  f x.1.1 x.1.2 x.2.

Definition or_else {A} (a b : option A) : option A :=
  match a with Some _ => a | None => b end.

Definition acc_after (req : Request) (acc : eval_acc) (l : list located) : eval_acc :=
  mkAcc (or_else (acc_allow acc) (on_located allow_decision <$> first req is_permit l))
        (or_else (acc_escalate acc) (on_located escalate_decision <$> first req is_escalate l)).

Lemma eval_statements_spec req pid i ss acc :
  eval_statements req pid i ss acc =
  match first req is_deny (number pid i ss) with
  | Some x => inl (on_located deny_decision x)
  | None => inr (acc_after req acc (number pid i ss))
  end.
Proof.
  revert i acc. induction ss as [|s ss IH]; intros i [al es].
  - unfold acc_after. simpl. by destruct al, es.
  - unfold acc_after, first, hit in *. cbn [eval_statements number List.find snd].
    destruct (matches s req) eqn:Hm; cbn [andb]; [|apply IH].
    change (stmt_effect s =? Deny)%string with (is_deny s).
    change (stmt_effect s =? Escalate)%string with (is_escalate s).
    change (is_permit s) with (negb (is_deny s) && negb (is_escalate s)).
    destruct (is_deny s); [done|]. destruct (is_escalate s); rewrite IH; cbn [negb andb];
      (destruct (List.find (λ x : located, matches x.2 req && is_deny x.2) _); [done|]).
    + by destruct es.
    + by destruct al.
Qed.

Lemma find_app {A} (f : A -> bool) l1 l2 :
  List.find f (l1 ++ l2) = or_else (List.find f l1) (List.find f l2).
Proof. induction l1 as [|x l1 IH]; simpl; [done|]. by destruct (f x). Qed.

Lemma eval_policies_spec req ps acc :
  eval_policies req ps acc =
  match first req is_deny (statements_of ps) with
  | Some x => inl (on_located deny_decision x)
  | None => inr (acc_after req acc (statements_of ps))
  end.
Proof.
  revert acc. induction ps as [|[p|] ps IH]; intros [al es]; simpl.
  - unfold acc_after; simpl. by destruct al, es.
  - rewrite eval_statements_spec. unfold acc_after, first in *. rewrite !find_app.
    destruct (List.find (hit req is_deny) (number _ _ _)); simpl; [done|]. rewrite IH. simpl.
    case_match; [done|]. do 2 f_equal.
    + destruct al; [done|]. by destruct (List.find (hit req is_permit) (number _ _ _)).
    + destruct es; [done|]. by destruct (List.find (hit req is_escalate) (number _ _ _)).
  - apply IH.
Qed.

(** The decision of [evaluate] in closed form. *)
Lemma evaluate_spec e req ps :
  evaluate e req ps =
  let l := statements_of ps in
  match first req is_deny l, first req is_escalate l, first req is_permit l with
  | Some x, _, _ => on_located deny_decision x
  | None, Some x, _ => on_located escalate_decision x
  | None, None, Some x => applyRisk e req (on_located allow_decision x)
  | None, None, None => default_deny req ps
  end.
Proof.
  unfold evaluate. rewrite eval_policies_spec. simpl.
  destruct (first req is_deny _); [done|]. unfold acc_after; simpl.
  destruct (first req is_escalate _); [done|]. by destruct (first req is_permit _).
Qed.

Lemma first_None req P l :
  first req P l = None ↔ ∀ x, x ∈ l -> hit req P x = false.
Proof.
  unfold first. split.
  - intros Hf x Hx. eapply List.find_none; [done|]. by apply list_elem_of_In.
  - induction l as [|y l IH]; intros Hf; simpl; [done|].
    rewrite (Hf y) by set_solver. apply IH. intros; apply Hf. set_solver.
Qed.

Lemma first_Some req P l x :
  first req P l = Some x -> x ∈ l ∧ matches x.2 req = true ∧ P x.2 = true.
Proof.
  intros [Hin Hhit]%List.find_some. apply list_elem_of_In in Hin.
  split; [done|]. by apply andb_prop.
Qed.

(** Some statement of the policies matches the request and satisfies [P]. *)
Definition any_match (req : Request) (P : Statement -> bool) (ps : list (option Policy)) : Prop :=
  ∃ p s, Some p ∈ ps ∧ s ∈ pol_statements p ∧ matches s req = true ∧ P s = true.

Lemma elem_of_number pid i ss x :
  x ∈ number pid i ss -> x.1.1 = pid ∧ x.2 ∈ ss.
Proof. revert i. induction ss as [|s ss IH]; simpl; intros i; set_solver. Qed.

Lemma number_elem_of pid i ss s : s ∈ ss -> ∃ x, x ∈ number pid i ss ∧ x.2 = s.
Proof.
  revert i. induction ss as [|s' ss IH]; simpl; intros i; [set_solver|].
  intros [->|Hs]%elem_of_cons; [eexists; split; [left|done]|].
  destruct (IH (S i) Hs) as (x & ? & ?). exists x. set_solver.
Qed.

Lemma elem_of_statements_of ps x :
  x ∈ statements_of ps -> ∃ p, Some p ∈ ps ∧ x.1.1 = pol_id p ∧ x.2 ∈ pol_statements p.
Proof.
  induction ps as [|[p|] ps IH]; simpl; [set_solver| |].
  - intros [Hx|Hx]%elem_of_app.
    + apply elem_of_number in Hx as [? ?]. exists p. set_solver.
    + destruct (IH Hx) as (p' & ? & ? & ?). exists p'. set_solver.
  - intros Hx. destruct (IH Hx) as (p' & ? & ? & ?). exists p'. set_solver.
Qed.

Lemma statements_of_elem_of ps p s :
  Some p ∈ ps -> s ∈ pol_statements p -> ∃ x, x ∈ statements_of ps ∧ x.2 = s.
Proof.
  intros Hp Hs. induction ps as [|[q|] ps IH]; simpl; [set_solver| |].
  - apply elem_of_cons in Hp as [Hp|Hp]; [simplify_eq|].
    + destruct (number_elem_of (pol_id q) 0 _ _ Hs) as (x & ? & ?). exists x. set_solver.
    + destruct (IH Hp) as (x & ? & ?). exists x. set_solver.
  - apply elem_of_cons in Hp as [?|Hp]; [done|auto].
Qed.

Lemma first_None_any req P ps :
  first req P (statements_of ps) = None ↔ ¬ any_match req P ps.
Proof.
  rewrite first_None. split.
  - intros Hf (p & s & Hp & Hs & Hm & HP).
    destruct (statements_of_elem_of _ _ _ Hp Hs) as (x & Hx & <-).
    specialize (Hf x Hx). unfold hit in Hf. by rewrite Hm, HP in Hf.
  - intros Hno x Hx. destruct (hit req P x) eqn:E; [|done]. exfalso. apply Hno.
    apply andb_prop in E as [? ?]. destruct (elem_of_statements_of _ _ Hx) as (p & ? & ? & ?).
    by exists p, x.2.
Qed.

Lemma first_Some_any req P ps x :
  first req P (statements_of ps) = Some x -> any_match req P ps.
Proof.
  intros (Hx & ? & ?)%first_Some. destruct (elem_of_statements_of _ _ Hx) as (p & ? & ? & ?).
  by exists p, x.2.
Qed.

Lemma any_match_first req P ps :
  any_match req P ps -> ∃ x, first req P (statements_of ps) = Some x.
Proof.
  intros Hm. destruct (first req P (statements_of ps)) as [x|] eqn:E; [eauto|].
  by apply first_None_any in E.
Qed.

Lemma applyRisk_allowed e req d :
  d_allowed (applyRisk e req d) = true ↔ d_allowed d = true ∧ Classify e req = None.
Proof. unfold applyRisk. destruct (Classify e req); simpl; intuition congruence. Qed.

Lemma evaluate_allowed e req ps :
  d_allowed (evaluate e req ps) = true ↔
  any_match req is_permit ps ∧ ¬ any_match req is_deny ps ∧ ¬ any_match req is_escalate ps
  ∧ Classify e req = None.
Proof.
  rewrite evaluate_spec. simpl. rewrite <- !first_None_any.
  destruct (first req is_deny _) eqn:Hd; [simpl; intuition congruence|].
  destruct (first req is_escalate _) eqn:He; [simpl; intuition congruence|].
  destruct (first req is_permit _) eqn:Hp.
  - rewrite applyRisk_allowed. apply first_Some_any in Hp. simpl. tauto.
  - apply first_None_any in Hp. simpl. intuition congruence.
Qed.

(** Two policy sets with the same statements, in any order and grouping. *)
Definition same_statements (ps qs : list (option Policy)) : Prop :=
  ∀ s, (∃ p, Some p ∈ ps ∧ s ∈ pol_statements p) ↔ (∃ p, Some p ∈ qs ∧ s ∈ pol_statements p).

Lemma any_match_same req P ps qs :
  same_statements ps qs -> any_match req P ps ↔ any_match req P qs.
Proof.
  intros Hs. unfold any_match. split; intros (p & s & Hp & Hin & ?).
  - destruct (proj1 (Hs s)) as (q & ? & ?); [eauto|]. by exists q, s.
  - destruct (proj2 (Hs s)) as (q & ? & ?); [eauto|]. by exists q, s.
Qed.
End Eval.

Section EvalProperties.
Context `{GoLib}.
Open Scope list_scope.

(** *** Risk classification *)

Lemma classify_loop_spec req tiers best :
  match classify_loop req tiers best with
  | None => best = None ∧ ∀ u, u ∈ tiers -> tier_matches u req = false
  | Some t =>
      (best = Some t ∧ ∀ u, u ∈ tiers -> tier_matches u req = true ->
         strength (tier_require u) <= strength (tier_require t))
      ∨ ∃ l1 l2, tiers = l1 ++ t :: l2 ∧ tier_matches t req = true
          ∧ (∀ b, best = Some b -> strength (tier_require b) < strength (tier_require t))
          ∧ (∀ u, u ∈ l1 -> tier_matches u req = true ->
               strength (tier_require u) < strength (tier_require t))
          ∧ (∀ u, u ∈ l2 -> tier_matches u req = true ->
               strength (tier_require u) <= strength (tier_require t))
  end.
Proof.
  revert best. induction tiers as [|t tiers IH]; intros best; simpl.
  { destruct best; [left|]; (split; [done|intros ? ?%elem_of_nil; done]). }
  destruct (tier_matches t req) eqn:Hm.
  - assert (Hnew : ∀ b, best = None ∨ best = Some b ∧ strength (tier_require b) < strength (tier_require t) ->
      match classify_loop req tiers (Some t) with
      | None => False
      | Some v => ∃ l1 l2, t :: tiers = l1 ++ v :: l2 ∧ tier_matches v req = true
          ∧ (∀ b, best = Some b -> strength (tier_require b) < strength (tier_require v))
          ∧ (∀ u, u ∈ l1 -> tier_matches u req = true ->
               strength (tier_require u) < strength (tier_require v))
          ∧ (∀ u, u ∈ l2 -> tier_matches u req = true ->
               strength (tier_require u) <= strength (tier_require v))
      end).
    { intros b Hb. specialize (IH (Some t)). destruct (classify_loop req tiers (Some t)) as [v|].
      - destruct IH as [[[= ->] Hle]|(l1 & l2 & -> & Hv & Hbest & H1 & H2)].
        + exists [], tiers. repeat split; try done; [|set_solver].
          intros b' ->. destruct Hb as [?|[[= ->] ?]]; done.
        + exists (t :: l1), l2. repeat split; try done.
          * intros b' ->. specialize (Hbest t eq_refl). destruct Hb as [?|[[= ->] ?]]; [done|lia].
          * intros u [->|Hu]%elem_of_cons ?; [by apply Hbest|by apply H1].
      - destruct IH. done. }
    destruct best as [b|].
    + destruct (Z.ltb_spec (strength (tier_require b)) (strength (tier_require t))).
      * specialize (Hnew b (or_intror (conj eq_refl ltac:(done)))).
        destruct (classify_loop _ _ _); [by right|done].
      * specialize (IH (Some b)). destruct (classify_loop _ _ _) as [v|].
        -- destruct IH as [[[= ->] Hle]|(l1 & l2 & -> & Hv & Hbest & H1 & H2)].
           ++ left. split; [done|]. intros u [->|Hu]%elem_of_cons ?; [done|by apply Hle].
           ++ right. exists (t :: l1), l2. repeat split; try done.
              specialize (Hbest b eq_refl).
              intros u [->|Hu]%elem_of_cons ?; [lia|by apply H1].
        -- destruct IH; done.
    + specialize (Hnew t (or_introl eq_refl)). destruct (classify_loop _ _ _); [by right|done].
  - specialize (IH best). destruct (classify_loop _ _ _) as [v|].
    + destruct IH as [[-> Hle]|(l1 & l2 & -> & Hv & Hbest & H1 & H2)].
      * left. split; [done|]. intros u [->|Hu]%elem_of_cons ?; [congruence|by apply Hle].
      * right. exists (t :: l1), l2. repeat split; try done.
        intros u [->|Hu]%elem_of_cons ?; [congruence|by apply H1].
    + destruct IH as [-> Hall]. split; [done|]. intros u [->|Hu]%elem_of_cons; [done|by apply Hall].
Qed.

Lemma strength_nonneg r : 0 <= strength r.
Proof. unfold strength. repeat case_match; lia. Qed.

(** [t] is the strongest tier matching the request, the first of its strength. *)
Definition strongest (req : Request) (tiers : list RiskTier) (t : RiskTier) : Prop :=
  ∃ l1 l2, tiers = l1 ++ t :: l2 ∧ tier_matches t req = true
    ∧ (∀ u, u ∈ l1 -> tier_matches u req = true ->
         strength (tier_require u) < strength (tier_require t))
    ∧ (∀ u, u ∈ l2 -> tier_matches u req = true ->
         strength (tier_require u) <= strength (tier_require t)).

Lemma Classify_None_iff e req :
  Classify e req = None ↔
  ∀ t, t ∈ ev_risk e -> tier_matches t req = true -> strength (tier_require t) = 0.
Proof.
  unfold Classify. pose proof (classify_loop_spec req (ev_risk e) None) as Hc.
  destruct (classify_loop _ _ _) as [t|].
  - destruct Hc as [[? _]|(l1 & l2 & Heq & Ht & _ & H1 & H2)]; [done|].
    destruct (Z.eqb_spec (strength (tier_require t)) 0) as [Hz|Hz].
    + split; [|done]. intros _ u Hu Hm. pose proof (strength_nonneg (tier_require u)).
      rewrite Heq in Hu. apply elem_of_app in Hu as [Hu|[->|Hu]%elem_of_cons]; [|done|].
      * specialize (H1 u Hu Hm). lia.
      * specialize (H2 u Hu Hm). lia.
    + split; [done|]. intros Hall. exfalso. apply Hz, Hall; [rewrite Heq; set_solver|done].
  - destruct Hc as [_ Hno]. split; [|done]. intros _ t Ht Hm. by rewrite Hno in Hm.
Qed.

(** ** Properties *)

(** Deny overrides: [evaluate] allows a request exactly when some statement that is neither
    deny nor escalate matches it, no deny and no escalate statement of any policy matches it, and no
    risk tier demands anything. Everything else, the empty policy set included, is refused. *)
Theorem evaluate_allows_iff e req ps :
  d_allowed (evaluate e req ps) = true ↔
  any_match req is_permit ps ∧ ¬ any_match req is_deny ps ∧ ¬ any_match req is_escalate ps
  ∧ ∀ t, t ∈ ev_risk e -> tier_matches t req = true -> strength (tier_require t) = 0.
Proof. by rewrite evaluate_allowed, Classify_None_iff. Qed.

(** A matching deny decides the request whatever else the policies say: the decision is an
    explicit deny naming the first matching deny statement in evaluation order. *)
Theorem evaluate_explicit_deny e req ps (Hdeny : any_match req is_deny ps) :
  ∃ p i s, Some p ∈ ps ∧ s ∈ pol_statements p ∧ matches s req = true ∧ stmt_effect s = Deny
    ∧ first req is_deny (statements_of ps) = Some (pol_id p, i, s)
    ∧ evaluate e req ps = deny_decision (pol_id p) i s
    ∧ d_effect (evaluate e req ps) = Deny.
Proof.
  apply any_match_first in Hdeny as [x Hx].
  pose proof (first_Some _ _ _ _ Hx) as (Hin & Hm & Hd).
  destruct (elem_of_statements_of _ _ Hin) as (p & Hp & Hid & Hs).
  destruct x as [[pid i] s]; simpl in *; subst pid. apply String.eqb_eq in Hd.
  assert (Hev : evaluate e req ps = deny_decision (pol_id p) i s).
  { rewrite evaluate_spec. cbv zeta. by rewrite Hx. }
  exists p, i, s. by rewrite Hev.
Qed.

(** The outcome does not depend on the order or grouping of statements: two policy sets with the
    same statements allow the same requests. *)
Theorem evaluate_order_independent e req ps qs (Hsame : same_statements ps qs) :
  d_allowed (evaluate e req ps) = d_allowed (evaluate e req qs).
Proof.
  apply eq_true_iff_eq. rewrite !evaluate_allowed.
  pose proof (any_match_same req is_permit ps qs Hsame).
  pose proof (any_match_same req is_deny ps qs Hsame).
  pose proof (any_match_same req is_escalate ps qs Hsame). tauto.
Qed.

(** [Classify] returns the strongest matching tier, the first of its strength, and nothing when
    no matching tier demands anything. *)
Theorem Classify_strongest e req :
  match Classify e req with
  | Some t => strongest req (ev_risk e) t ∧ 0 < strength (tier_require t)
  | None => ∀ t, t ∈ ev_risk e -> tier_matches t req = true -> strength (tier_require t) = 0
  end.
Proof.
  destruct (Classify e req) as [t|] eqn:E; [|by apply Classify_None_iff].
  unfold Classify in E. pose proof (classify_loop_spec req (ev_risk e) None) as Hc.
  destruct (classify_loop _ _ _) as [u|]; [|done]. case_match eqn:Hz; simplify_eq. bool_prop.
  destruct Hc as [[? _]|(l1 & l2 & Heq & Ht & _ & H1 & H2)]; [done|].
  pose proof (strength_nonneg (tier_require t)). split; [by exists l1, l2|lia].
Qed.

(** Daily windows that wrap past midnight are the complement of the window between the swapped
    times: every instant is in exactly one of the two. *)
Theorem daily_window_complement a b start stop now
  (Ha : parseClock a = Some start) (Hb : parseClock b = Some stop) (Hne : start ≠ stop) :
  inDailyWindow [a; b] now = negb (inDailyWindow [b; a] now).
Proof.
  unfold inDailyWindow. rewrite Ha, Hb. generalize (clock_of now). intros cur.
  destruct (Z.leb_spec start stop), (Z.leb_spec stop start),
    (Z.leb_spec start cur), (Z.ltb_spec cur stop), (Z.leb_spec stop cur), (Z.ltb_spec cur start);
    simpl; done || lia.
Qed.
End EvalProperties.

(** ** A concrete library, for witnesses

    Addresses and prefixes are their texts; clocks are [HH:MM] with two digits each. *)
Definition digit (c : ascii) : option Z :=
  let n := Z.of_N (N_of_ascii c) in
  if (48 <=? n)%Z && (n <=? 57)%Z then Some (n - 48)%Z else None.

Definition demo_allow : Statement := mkStatement "a" Allow ["*"] ["doc:{user}"] [] "" "".

#[export] Instance demo_lib : GoLib := {|
  Addr := string; Prefix := string;
  ParseAddr := Some; Unmap := id; ParsePrefix := Some;
  Contains := fun p a => String.prefix p a;
  ParseRFC3339 := fun _ => None;
  ParseHHMM := fun v =>
    match v with
    | String a (String b (String _ (String c (String d "")))) =>
        a ← digit a; b ← digit b; c ← digit c; d ← digit d;
        Some ((10 * a + b)%Z, (10 * c + d)%Z)
    | _ => None
    end;
  DecodePolicy := fun data =>
    if (data =? "readers")%string then Some (mkPolicy "1" "" [demo_allow], false) else None;
|}.

Definition demo_request : Request :=
  mkRequest "read" "doc:1" {["user" := "1"]} "10.0.0.7" (3600 * 1000000000) (S754_zero false) "" ""
    false ∅.

Definition demo_deny : Statement :=
  mkStatement "" Deny ["read"] ["doc:*"] [mkCondition OpIPCIDR "ip" ["10."]] "" "".
Definition demo_policies : list (option Policy) :=
  [Some (mkPolicy "1" "p" [demo_allow]); None; Some (mkPolicy "1" "q" [demo_deny])].
Definition demo_evaluator : Evaluator := mkEvaluator None [] [].

Lemma demo_any_deny : any_match demo_request is_deny demo_policies.
Proof.
  exists (mkPolicy "1" "q" [demo_deny]), demo_deny.
  split; [set_solver|]. split; [set_solver|]. split; by vm_compute.
Qed.

Lemma evaluate_explicit_deny_witness :
  d_effect (evaluate demo_evaluator demo_request demo_policies) = Deny
  ∧ d_statement_id (evaluate demo_evaluator demo_request demo_policies) = "stmt-0".
Proof.
  split; [|vm_compute; reflexivity].
  destruct (evaluate_explicit_deny demo_evaluator demo_request demo_policies demo_any_deny)
    as (p & i & s & _ & _ & _ & _ & _ & _ & Heff).
  exact Heff.
Defined.

Lemma demo_same : same_statements demo_policies [Some (mkPolicy "1" "r" [demo_deny; demo_allow])].
Proof.
  intros s. unfold demo_policies. split; intros (p & Hp & Hs);
    repeat (apply elem_of_cons in Hp as [Hp|Hp]); try (by apply elem_of_nil in Hp);
    simplify_eq; simpl in Hs; repeat (apply elem_of_cons in Hs as [Hs|Hs]);
    try (by apply elem_of_nil in Hs); subst s.
  - exists (mkPolicy "1" "r" [demo_deny; demo_allow]). split; [by left|right; left].
  - exists (mkPolicy "1" "r" [demo_deny; demo_allow]). split; [by left|left].
  - exists (mkPolicy "1" "q" [demo_deny]). split; [by right; right; left|left].
  - exists (mkPolicy "1" "p" [demo_allow]). split; [by left|left].
Qed.

Lemma evaluate_order_independent_witness :
  d_allowed (evaluate demo_evaluator demo_request demo_policies) =
  d_allowed (evaluate demo_evaluator demo_request [Some (mkPolicy "1" "r" [demo_deny; demo_allow])]).
Proof. exact (evaluate_order_independent demo_evaluator demo_request _ _ demo_same). Defined.

Lemma daily_window_complement_witness :
  inDailyWindow ["22:00"; "06:30"] (3600 * 1000000000) = true
  ∧ inDailyWindow ["06:30"; "22:00"] (3600 * 1000000000) = false.
Proof.
  split; [|vm_compute; reflexivity].
  rewrite (daily_window_complement "22:00" "06:30" 1320 390); [vm_compute; reflexivity..|].
  discriminate.
Defined.
