(* ===== verification/PolicyTaint.v ===== *)
(** * Taint rules and the full evaluator ([policy/taint.go], [policy/eval.go])

    Provenance labels, the taint rules over them, the stage that turns an allow into an escalation
    or a deny, and the entry points [Evaluate] and [EvaluateWithBoundary]. Provenance maps are
    finite maps: the iteration order of a Go map is not observable here because labels are sorted
    after every loop over one. *)

From Stdlib Require Import ZArith Lia String Ascii.
From Corelib Require Import SpecFloat.
From stdpp Require Import base gmap strings list pretty.
From S2P Require Import Prelude Glob PolicyDoc PolicyEval.

Set Default Goal Selector "!".
Open Scope string_scope.
Open Scope list_scope.

Definition CallLabelsKey : string := "*".
Definition UnlabeledAllow : string := "allow".
Definition UnlabeledViolate : string := "violate".
Definition TaintClean : string := "clean".
Definition TaintEscalate : string := "escalate".
Definition TaintDeny : string := "deny".

(** [strings.CutSuffix(pattern, "*")] *)
Definition cut_star (pattern : string) : option string :=
  match rev (bytes_of pattern) with
  | c :: r => if decide (c = star_byte) then Some (of_bytes (rev r)) else None
  | [] => None
  end.

Definition MatchLabel (pattern label : string) : bool :=
  if (pattern =? "*")%string then true
  else match cut_star pattern with
       | Some p => String.prefix p label
       | None => (pattern =? label)%string
       end.

(** The non empty labels of one argument, deduplicated and sorted; [None] when none is left. *)
Definition clean_labels (labels : list string) : option (list string) :=
  let clean := dedup (List.filter (fun l => negb (l =? "")%string) labels) in
  if bool_decide (clean = []) then None else Some (sort_strings clean).

Definition NormalizeProvenance (raw : gmap string (list string)) : gmap string (list string) :=
  omap clean_labels raw.

Definition rule_effect (r : TaintRule) : string :=
  if (taint_effect r =? Deny)%string then Deny else Escalate.

Definition rule_id (r : TaintRule) (i : nat) : string :=
  if (taint_id r =? "")%string then pretty i else taint_id r.

Definition matches_any (pats : list string) (l : string) : bool :=
  existsb (fun p => MatchLabel p l) pats.

(** The matches [checkLabels] appends. *)
Definition checkLabels (r : TaintRule) (id arg : string) (labels : list string) (spec : ArgRule)
  : list TaintMatch :=
  let eff := rule_effect r in
  let bad := List.filter (matches_any (arg_forbid spec)) labels in
  let forbidden :=
    if bool_decide (arg_forbid spec = []) || bool_decide (bad = []) then []
    else [mkTaintMatch id "forbid" arg bad eff] in
  let missing :=
    List.filter (fun p => negb (existsb (fun l => MatchLabel p l) labels)) (arg_require spec) in
  let required :=
    if bool_decide (arg_require spec = []) then []
    else if bool_decide (labels = []) && negb (taint_unlabeled r =? UnlabeledViolate)%string then []
    else if bool_decide (missing = []) then []
    else [mkTaintMatch id "require" arg missing eff] in
  forbidden ++ required.

(** Every label of the call, deduplicated and sorted. *)
Definition all_labels (prov : gmap string (list string)) : list string :=
  sort_strings (dedup (concat (map snd (map_to_list prov)))).

(** The labels an argument rule sees: its own and those of the whole call. *)
Definition arg_labels (prov : gmap string (list string)) (n : string) : list string :=
  sort_strings (fold_left add_new (default [] (prov !! CallLabelsKey)) (default [] (prov !! n))).

Definition rule_applies (req : Request) (r : TaintRule) : bool :=
  Match (taint_resource r) (req_resource req)
  && (bool_decide (taint_actions r = [])
      || existsb (fun p => Match p (req_action req)) (taint_actions r)).

Definition rule_matches (req : Request) (prov : gmap string (list string)) (i : nat) (r : TaintRule)
  : list TaintMatch :=
  if negb (rule_applies req r) then []
  else if bool_decide (prov = ∅) && negb (taint_unlabeled r =? UnlabeledViolate)%string then []
  else
    let id := rule_id r i in
    checkLabels r id CallLabelsKey (all_labels prov) (mkArgRule (taint_forbid r) (taint_require r))
    ++ concat (map (fun n => checkLabels r id n (arg_labels prov n)
                               (default (mkArgRule [] []) (taint_args r !! n)))
                   (sort_strings (map fst (map_to_list (taint_args r))))).

Fixpoint rules_matches (req : Request) (prov : gmap string (list string)) (i : nat)
  (rs : list TaintRule) : list TaintMatch :=
  match rs with
  | [] => []
  | r :: rs' => rule_matches req prov i r ++ rules_matches req prov (S i) rs'
  end.

Definition EvaluateTaint (e : Evaluator) (req : Request) : option TaintVerdict :=
  let prov := NormalizeProvenance (req_provenance req) in
  let ms := rules_matches req prov 0 (ev_taint e) in
  if bool_decide (prov = ∅) && bool_decide (length ms = 0%nat) then None
  else
    let verdict :=
      if bool_decide (length ms = 0%nat) then TaintClean
      else if existsb (fun m => (tm_effect m =? Deny)%string) ms then TaintDeny
      else TaintEscalate in
    Some (mkTaintVerdict verdict ms prov).

(** The tier of the first rule named by the first match with the verdict's effect. *)
Fixpoint tier_of_rule (id : string) (i : nat) (rs : list TaintRule) : option string :=
  match rs with
  | [] => None
  | r :: rs' =>
      if (rule_id r i =? id)%string && negb (taint_tier r =? "")%string then Some (taint_tier r)
      else tier_of_rule id (S i) rs'
  end.

Definition taintTier (e : Evaluator) (v : TaintVerdict) : string :=
  match List.find (fun m => (tm_effect m =? tv_verdict v)%string) (tv_matches v) with
  | Some m => default "taint" (tier_of_rule (tm_rule m) 0 (ev_taint e))
  | None => "taint"
  end.

Definition describe_match (m : TaintMatch) : string :=
  let kind := if (tm_kind m =? "require")%string then "missing" else "forbidden" in
  (kind +:+ " " +:+ String.concat "," (tm_labels m) +:+ " on " +:+ tm_arg m)%string.

Definition describeTaint (v : TaintVerdict) : string :=
  ("taint: " +:+ String.concat "; " (map describe_match (tv_matches v)))%string.

Section Evaluate.
Context `{GoLib}.

Definition with_taint (d : Decision) (v : TaintVerdict) : Decision :=
  mkDecision (d_allowed d) (d_effect d) (d_policy_id d) (d_statement_id d) (d_reason d) (d_code d)
    (d_boundary d) (d_escalation d) (Some v).

Definition applyTaint (e : Evaluator) (req : Request) (d : Decision) : Decision :=
  if bool_decide (length (ev_taint e) = 0%nat)
     || (negb (d_allowed d) && negb (d_effect d =? Escalate)%string)
  then d
  else match EvaluateTaint e req with
  | None => d
  | Some v =>
      let d := with_taint d v in
      if (tv_verdict v =? TaintClean)%string then d
      else if (tv_verdict v =? TaintDeny)%string then
        mkDecision false Deny (d_policy_id d) (d_statement_id d)
          ("taint violation: " +:+ describeTaint v) CodeTaintViolation (d_boundary d) None (d_taint d)
      else if (d_effect d =? Escalate)%string then d
      else
        let reason := describeTaint v in
        mkDecision false Escalate (d_policy_id d) (d_statement_id d) reason CodeTaintViolation
          (d_boundary d) (Some (mkEscalation (taintTier e v) RequireApproval reason)) (d_taint d)
  end.

Definition Evaluate (e : Evaluator) (clock : Z) (req : Request) (ps : list (option Policy))
  : Decision :=
  let req := prepare e clock req in
  applyTaint e req (evaluate e req ps).

(** [clock2] is a second reading of the clock: the boundary is evaluated on a request prepared
    anew. *)
Definition EvaluateWithBoundary (e : Evaluator) (clock clock2 : Z) (req : Request)
  (identity boundary : list (option Policy)) : Decision :=
  let d := Evaluate e clock req identity in
  if negb (d_allowed d) || bool_decide (boundary = []) then d
  else
    let b := evaluate e (prepare e clock2 req) boundary in
    if d_allowed b then d
    else mkDecision (d_allowed b) (d_effect b) (d_policy_id b) (d_statement_id b)
           ("permission boundary: " +:+ d_reason b) (d_code b) true (d_escalation b) (d_taint b).
End Evaluate.

(** ** What the taint rules mean *)

(** The argument [n] of the request carries the label [l]. *)
Definition carries (req : Request) (n l : string) : Prop :=
  l ≠ "" ∧ ∃ ls, req_provenance req !! n = Some ls ∧ l ∈ ls.

Definition strict (r : TaintRule) : Prop := taint_unlabeled r = UnlabeledViolate.

(** Labels [L] break a rule: a forbidden one is present, or a required one is missing (on unlabeled
    arguments only in strict mode). *)
Definition violates (L : string -> Prop) (str : Prop) (spec : ArgRule) : Prop :=
  (∃ l p, L l ∧ p ∈ arg_forbid spec ∧ MatchLabel p l = true)
  ∨ ((str ∨ ∃ l, L l) ∧ ∃ p, p ∈ arg_require spec ∧ ∀ l, L l -> MatchLabel p l = false).

Definition rule_violated (req : Request) (r : TaintRule) : Prop :=
  rule_applies req r = true
  ∧ (strict r ∨ ∃ n l, carries req n l)
  ∧ (violates (fun l => ∃ n, carries req n l) (strict r) (mkArgRule (taint_forbid r) (taint_require r))
     ∨ ∃ n spec, taint_args r !! n = Some spec
        ∧ violates (fun l => carries req n l ∨ carries req CallLabelsKey l) (strict r) spec).

Lemma filter_nil_iff {A} (f : A -> bool) l :
  List.filter f l = [] ↔ ∀ x, x ∈ l -> f x = false.
Proof.
  induction l as [|y l IH]; simpl; [set_solver|]. destruct (f y) eqn:E.
  - split; [done|]. intros Hf. rewrite (Hf y) in E; [done|set_solver].
  - rewrite IH. split; [|set_solver]. intros Hf x [->|Hx]%elem_of_cons; auto.
Qed.

Lemma filter_elem {A} (f : A -> bool) l x : x ∈ List.filter f l ↔ x ∈ l ∧ f x = true.
Proof. rewrite !list_elem_of_In. apply filter_In. Qed.

Lemma forbidden_iff labels spec :
  List.filter (matches_any (arg_forbid spec)) labels ≠ [] ↔
  ∃ l p, l ∈ labels ∧ p ∈ arg_forbid spec ∧ MatchLabel p l = true.
Proof.
  rewrite filter_nil_iff. split.
  - intros Hn. destruct (existsb (matches_any (arg_forbid spec)) labels) eqn:E.
    + apply existsb_true_iff in E as (l & Hl & (p & Hp & Hm)%existsb_true_iff). eauto.
    + exfalso. apply Hn. by apply existsb_false_iff.
  - intros (l & p & Hl & Hp & Hm) Hf. specialize (Hf l Hl).
    unfold matches_any in Hf. rewrite existsb_false_iff in Hf. rewrite Hf in Hm; done.
Qed.

Lemma missing_iff labels spec :
  List.filter (fun p => negb (existsb (fun l => MatchLabel p l) labels)) (arg_require spec) ≠ [] ↔
  ∃ p, p ∈ arg_require spec ∧ ∀ l, l ∈ labels -> MatchLabel p l = false.
Proof.
  rewrite filter_nil_iff. split.
  - intros Hn.
    destruct (existsb (fun p => negb (existsb (fun l => MatchLabel p l) labels)) (arg_require spec)) eqn:E.
    + apply existsb_true_iff in E as (p & Hp & Hm%negb_true_iff). exists p. split; [done|].
      by apply existsb_false_iff.
    + exfalso. apply Hn. by apply existsb_false_iff.
  - intros (p & Hp & Hm) Hf. specialize (Hf p Hp). apply negb_false_iff in Hf.
    apply existsb_true_iff in Hf as (l & Hl & Hx). rewrite Hm in Hx; done.
Qed.

Lemma nonempty_iff {A} (l : list A) : l ≠ [] ↔ ∃ x, x ∈ l.
Proof. destruct l as [|x l]; [set_solver|]. split; [exists x; set_solver|done]. Qed.

Lemma if_nonempty {A} (P : Prop) `{base.Decision P} (x : A) :
  (if bool_decide P then [] else [x]) ≠ [] ↔ ¬ P.
Proof. case_bool_decide; split; done. Qed.

(** [checkLabels] reports something exactly when the labels break the rule. *)
Lemma checkLabels_iff r id arg labels spec (L : string -> Prop) :
  (∀ l, l ∈ labels ↔ L l) ->
  checkLabels r id arg labels spec ≠ [] ↔ violates L (strict r) spec.
Proof.
  intros HL. unfold checkLabels, violates. rewrite app_nil.
  assert (H1 : (if bool_decide (arg_forbid spec = [])
                  || bool_decide (List.filter (matches_any (arg_forbid spec)) labels = []) then []
                else [mkTaintMatch id "forbid" arg
                        (List.filter (matches_any (arg_forbid spec)) labels) (rule_effect r)]) ≠ [] ↔
    ∃ l p, L l ∧ p ∈ arg_forbid spec ∧ MatchLabel p l = true).
  { setoid_rewrite <- HL. rewrite <- forbidden_iff.
    destruct (bool_decide_reflect (arg_forbid spec = [])) as [->|]; simpl.
    - split; [done|]. intros Hn. exfalso. apply Hn. apply filter_nil_iff. done.
    - case_bool_decide; split; done. }
  assert (H2 : (if bool_decide (arg_require spec = []) then []
    else if bool_decide (labels = []) && negb (taint_unlabeled r =? UnlabeledViolate)%string then []
    else if bool_decide (List.filter (fun p => negb (existsb (fun l => MatchLabel p l) labels))
                           (arg_require spec) = []) then []
    else [mkTaintMatch id "require" arg
            (List.filter (fun p => negb (existsb (fun l => MatchLabel p l) labels))
               (arg_require spec)) (rule_effect r)]) ≠ [] ↔
    (strict r ∨ ∃ l, L l) ∧ ∃ p, p ∈ arg_require spec ∧ ∀ l, L l -> MatchLabel p l = false).
  { setoid_rewrite <- HL. rewrite <- missing_iff, <- nonempty_iff. unfold strict.
    destruct (bool_decide_reflect (arg_require spec = [])) as [->|]; simpl; [intuition congruence|].
    destruct (bool_decide_reflect (labels = [])) as [->|]; simpl.
    - destruct (String.eqb_spec (taint_unlabeled r) UnlabeledViolate); simpl; [|intuition congruence].
      rewrite if_nonempty. tauto.
    - rewrite if_nonempty. tauto. }
  rewrite <- H1, <- H2. clear H1 H2.
  repeat case_match; simpl; intuition congruence.
Qed.

Lemma normalized_iff req n l :
  (∃ ls, NormalizeProvenance (req_provenance req) !! n = Some ls ∧ l ∈ ls) ↔ carries req n l.
Proof.
  unfold NormalizeProvenance, carries. rewrite lookup_omap. unfold clean_labels.
  destruct (req_provenance req !! n) as [ls|]; simpl; [|naive_solver].
  set (c := dedup _). assert (Hc : ∀ x, x ∈ c ↔ x ≠ "" ∧ x ∈ ls).
  { intros x. unfold c. rewrite elem_of_dedup, filter_elem.
    rewrite negb_true_iff, String.eqb_neq. tauto. }
  case_bool_decide as E.
  - split; [naive_solver|]. intros (Hne & ls' & [= <-] & Hl).
    exfalso. assert (Hin : l ∈ c) by (apply Hc; done). rewrite E in Hin. by apply elem_of_nil in Hin.
  - split.
    + intros (ls' & [= <-] & Hl). apply elem_of_sort_strings, Hc in Hl as [? ?]. eauto.
    + intros (Hne & ls' & [= <-] & Hl). eexists. split; [done|].
      apply elem_of_sort_strings, Hc. done.
Qed.

Lemma normalized_empty req :
  NormalizeProvenance (req_provenance req) ≠ ∅ ↔ ∃ n l, carries req n l.
Proof.
  setoid_rewrite <- normalized_iff. split.
  - intros Hne. apply map_choose in Hne as (n & ls & Hn). exists n.
    assert (Hls : ls ≠ []).
    { revert Hn. unfold NormalizeProvenance. rewrite lookup_omap. intros Hn.
      destruct (req_provenance req !! n); [|done]. simpl in Hn. unfold clean_labels in Hn.
      case_bool_decide as E; simplify_eq. intros Hs. apply E.
      apply Permutation_nil_r. rewrite <- Hs. symmetry. apply sort_by_perm. }
    apply nonempty_iff in Hls as [l ?]. eauto.
  - intros (n & l & ls & Hn & _) Hempty. rewrite Hempty in Hn. by rewrite lookup_empty in Hn.
Qed.

Lemma all_labels_iff (prov : gmap string (list string)) l :
  l ∈ all_labels prov ↔ ∃ n ls, prov !! n = Some ls ∧ l ∈ ls.
Proof.
  unfold all_labels. rewrite elem_of_sort_strings, elem_of_dedup, list_elem_of_In, in_concat. split.
  - intros (ls & ([n ls'] & <- & Hin)%in_map_iff & Hl). exists n, ls'.
    split; [apply elem_of_map_to_list, list_elem_of_In; done|by apply list_elem_of_In].
  - intros (n & ls & Hn & Hl). exists ls. split; [|by apply list_elem_of_In].
    apply in_map_iff. exists (n, ls). split; [done|]. by apply list_elem_of_In, elem_of_map_to_list.
Qed.

Lemma arg_labels_iff (prov : gmap string (list string)) n l :
  l ∈ arg_labels prov n ↔
  (∃ ls, prov !! n = Some ls ∧ l ∈ ls) ∨ (∃ ls, prov !! CallLabelsKey = Some ls ∧ l ∈ ls).
Proof.
  unfold arg_labels. rewrite elem_of_sort_strings, elem_of_fold_add_new.
  assert (Hd : ∀ k, l ∈ default [] (prov !! k) ↔ ∃ ls, prov !! k = Some ls ∧ l ∈ ls).
  { intros k. destruct (prov !! k) as [ls|]; simpl; [naive_solver|]. split; [by intros ?%elem_of_nil|naive_solver]. }
  by rewrite !Hd.
Qed.

Lemma concat_nonempty {A B} (f : A -> list B) l :
  concat (map f l) ≠ [] ↔ ∃ x, x ∈ l ∧ f x ≠ [].
Proof.
  rewrite nonempty_iff. setoid_rewrite nonempty_iff. setoid_rewrite list_elem_of_In.
  setoid_rewrite in_concat. setoid_rewrite in_map_iff. naive_solver.
Qed.

Lemma call_labels_iff req l :
  l ∈ all_labels (NormalizeProvenance (req_provenance req)) ↔ ∃ n, carries req n l.
Proof. rewrite all_labels_iff. by setoid_rewrite (normalized_iff req). Qed.

Lemma named_labels_iff req n l :
  l ∈ arg_labels (NormalizeProvenance (req_provenance req)) n ↔
  carries req n l ∨ carries req CallLabelsKey l.
Proof. rewrite arg_labels_iff. by rewrite !normalized_iff. Qed.

Lemma args_matches_iff req id r :
  concat (map (fun n => checkLabels r id n (arg_labels (NormalizeProvenance (req_provenance req)) n)
                          (default (mkArgRule [] []) (taint_args r !! n)))
            (sort_strings (map fst (map_to_list (taint_args r))))) ≠ [] ↔
  ∃ n spec, taint_args r !! n = Some spec
    ∧ violates (fun l => carries req n l ∨ carries req CallLabelsKey l) (strict r) spec.
Proof.
  rewrite concat_nonempty. setoid_rewrite elem_of_sort_strings. split.
  - intros (n & Hn & Hc). apply list_elem_of_In, in_map_iff in Hn as ([n' spec] & <- & Hin).
    apply list_elem_of_In, elem_of_map_to_list in Hin. simpl in *. rewrite Hin in Hc.
    exists n', spec. split; [done|].
    by apply (checkLabels_iff _ _ _ _ _ _ (named_labels_iff req n')) in Hc.
  - intros (n & spec & Hn & Hv). exists n. split.
    + apply list_elem_of_In, in_map_iff. exists (n, spec). split; [done|].
      by apply list_elem_of_In, elem_of_map_to_list.
    + rewrite Hn. simpl. by apply (checkLabels_iff _ _ _ _ _ _ (named_labels_iff req n)).
Qed.

Lemma rule_matches_iff req i r :
  rule_matches req (NormalizeProvenance (req_provenance req)) i r ≠ [] ↔ rule_violated req r.
Proof.
  unfold rule_matches, rule_violated.
  destruct (rule_applies req r); simpl; [|naive_solver].
  pose proof (normalized_empty req) as Hemp.
  pose proof (args_matches_iff req (rule_id r i) r) as Hargs.
  pose proof (checkLabels_iff r (rule_id r i) CallLabelsKey _
                (mkArgRule (taint_forbid r) (taint_require r)) _ (call_labels_iff req)) as Hcall.
  set (prov := NormalizeProvenance _) in *.
  assert (Hbody : ∀ l1 l2 : list TaintMatch, l1 ++ l2 ≠ [] ↔ l1 ≠ [] ∨ l2 ≠ []).
  { intros l1 l2. rewrite app_nil. destruct l1; intuition congruence. }
  unfold strict in *. destruct (bool_decide_reflect (prov = ∅)) as [He|Hne]; simpl.
  - destruct (String.eqb_spec (taint_unlabeled r) UnlabeledViolate); simpl.
    + rewrite Hbody, Hargs, Hcall. tauto.
    + split; [done|]. intros (_ & [?|Hc] & _); [done|]. by apply Hemp in Hc.
  - rewrite Hbody, Hargs, Hcall. tauto.
Qed.

Lemma rules_matches_iff req i rs :
  rules_matches req (NormalizeProvenance (req_provenance req)) i rs ≠ [] ↔
  ∃ r, r ∈ rs ∧ rule_violated req r.
Proof.
  revert i. induction rs as [|r rs IH]; intros i; simpl; [set_solver|].
  rewrite app_nil. specialize (IH (S i)). pose proof (rule_matches_iff req i r) as Hr.
  destruct (rule_matches req _ i r) as [|m ms].
  - split.
    + intros Hn. destruct (proj1 IH) as (r' & ? & ?); [naive_solver|]. exists r'. set_solver.
    + intros (r' & [->|Hin]%elem_of_cons & Hv); [naive_solver|].
      intros [_ Hn]. apply (proj2 IH); [eauto|done].
  - split; [|naive_solver]. intros _. exists r. split; [set_solver|]. by apply Hr.
Qed.

Section TaintProperties.
Context `{GoLib}.

Lemma EvaluateTaint_verdict e req :
  match EvaluateTaint e req with
  | None => ¬ ∃ r, r ∈ ev_taint e ∧ rule_violated req r
  | Some v => tv_verdict v = TaintClean ↔ ¬ ∃ r, r ∈ ev_taint e ∧ rule_violated req r
  end.
Proof.
  pose proof (rules_matches_iff req 0 (ev_taint e)) as Hms. unfold EvaluateTaint.
  destruct (rules_matches _ _ _ _) as [|m ms'] eqn:E; simpl.
  - assert (Hno : ¬ ∃ r, r ∈ ev_taint e ∧ rule_violated req r) by (rewrite <- Hms; intros Hx; by apply Hx).
    destruct (bool_decide _); simpl; done.
  - rewrite andb_false_r. split; [case_match; done|]. intros Hn. exfalso. apply Hn. by apply Hms.
Qed.

Lemma evaluate_allowed_effect e req ps :
  d_allowed (evaluate e req ps) = true -> d_effect (evaluate e req ps) ≠ Escalate.
Proof.
  rewrite evaluate_spec. simpl. unfold on_located.
  repeat case_match; simpl; try done. unfold applyRisk. destruct (Classify e req); simpl; [done|].
  intros _. match goal with H : first _ is_permit _ = Some _ |- _ =>
    apply first_Some in H as (_ & _ & Hp) end.
  unfold is_permit, is_escalate in Hp. bool_prop. done.
Qed.

Lemma applyTaint_allowed e req d (Heff : d_allowed d = true -> d_effect d ≠ Escalate) :
  d_allowed (applyTaint e req d) = true ↔
  d_allowed d = true ∧ ¬ ∃ r, r ∈ ev_taint e ∧ rule_violated req r.
Proof.
  unfold applyTaint. destruct (d_allowed d) eqn:Ha.
  - simpl. rewrite orb_false_r. case_bool_decide as E.
    + apply nil_length_inv in E. rewrite E. set_solver.
    + pose proof (EvaluateTaint_verdict e req) as Hv.
      destruct (EvaluateTaint e req) as [v|]; [|by rewrite Ha].
      destruct (String.eqb_spec (tv_verdict v) TaintClean); simpl;
        [rewrite Ha; split; [intros _; split; [done|by apply Hv]|done]|].
      specialize (Heff eq_refl). apply String.eqb_neq in Heff. rewrite Heff. split; [case_match; done|].
      intros [_ Hno]; by apply Hv in Hno.
  - split; [|by intros [? _]]. simpl. repeat case_match; simpl; try done; congruence.
Qed.

(** C2. The taint stage can only narrow: [Evaluate] allows a request exactly when the policies and
    risk tiers allow it at the request's (or the clock's) time and no taint rule is violated by the
    labels its arguments carry. *)
Theorem Evaluate_allows_iff e clock req ps :
  d_allowed (Evaluate e clock req ps) = true ↔
  d_allowed (evaluate e (prepare e clock req) ps) = true
  ∧ ¬ ∃ r, r ∈ ev_taint e ∧ rule_violated (prepare e clock req) r.
Proof. apply applyTaint_allowed, evaluate_allowed_effect. Qed.

(** A permission boundary only narrows: with a non empty boundary the request is allowed
    exactly when the identity policies allow it and the boundary policies allow it too; without
    one the identity policies decide. *)
Theorem EvaluateWithBoundary_allows_iff e clock clock2 req identity boundary :
  d_allowed (EvaluateWithBoundary e clock clock2 req identity boundary) = true ↔
  d_allowed (Evaluate e clock req identity) = true
  ∧ (boundary = [] ∨ d_allowed (evaluate e (prepare e clock2 req) boundary) = true).
Proof.
  unfold EvaluateWithBoundary. destruct (d_allowed (Evaluate e clock req identity)) eqn:Ha; simpl.
  - case_bool_decide; [rewrite Ha; tauto|].
    destruct (d_allowed (evaluate e (prepare e clock2 req) boundary)) eqn:Hb; simpl; [|naive_solver].
    rewrite Ha. tauto.
  - rewrite Ha. split; [done|by intros [? _]].
Qed.
End TaintProperties.
