(* ===== verification/Explain.v ===== *)
(** * Explaining a decision ([policy/explain.go])

    [Explain] evaluates a request as [Evaluate] does and adds the statement that decided, its conditions,
    and for a default deny the conditions that failed and the statements that almost allowed. The request
    is prepared a second time for the reasons, with a clock reading of its own. Scores are [float64].
    Rendering as text ([String]) is not modelled. *)

From Stdlib Require Import ZArith Lia String Ascii.
From Corelib Require Import SpecFloat.
From stdpp Require Import base gmap strings list pretty.
From S2P Require Import Prelude Glob PolicyDoc PolicyEval PolicyTaint.

Set Default Goal Selector "!".
Open Scope string_scope.
Open Scope list_scope.

Definition MaxNearMisses : nat := 3.
Definition MismatchResource : string := "resource".
Definition MismatchAction : string := "action".
Definition MismatchCondition : string := "condition".

Record MatchedStatement := mkMatched { ms_policy : string; ms_statement : string; ms_effect : string }.

Record ConditionResult := mkConditionResult {
  cr_policy : string; cr_statement : string; cr_op : string; cr_key : string; cr_values : list string;
  cr_passed : bool; cr_detail : string;
}.

Record NearMiss := mkNearMiss {
  nm_policy : string; nm_statement : string; nm_mismatch : list string; nm_hint : string; nm_score : spec_float;
}.

Record Explanation := mkExplanation {
  x_decision : Decision; x_code : string; x_matched : option MatchedStatement;
  x_conditions : list ConditionResult; x_near : list NearMiss;
}.

(** What the sentences use of Go: a UTC time in seconds as text, and the verb [%q]. *)
Class ExplainLib := { format_utc : Z -> string; quote : string -> string }.

(** ** Scores *)

Definition x_mul := SFmul 53 1024.
Definition x_add := SFadd 53 1024.
Definition x_div := SFdiv 53 1024.
Definition x_float (z : Z) : spec_float := binary_normalize 53 1024 z 0 false.

(** The constants 0.6, 0.4 and 0.9 as [float64]. *)
Definition f06 : spec_float := S754_finite false 5404319552844595 (-53).
Definition f04 : spec_float := S754_finite false 7205759403792794 (-54).
Definition f09 : spec_float := S754_finite false 8106479329266893 (-53).

(** [math.Round]: to the nearest integer, halves away from zero. *)
Definition Round (f : spec_float) : spec_float :=
  match f with
  | S754_finite s m e =>
      if (0 <=? e)%Z then f
      else
        let d := (2 ^ (- e))%Z in
        let q := (Z.pos m / d)%Z in
        let q := if (d <=? 2 * (Z.pos m mod d))%Z then (q + 1)%Z else q in
        binary_normalize 53 1024 (if s then - q else q) 0 s
  | _ => f
  end.

(** [strings.Split(s, "/")] *)
Fixpoint split_slashes (cur s : string) : list string :=
  match s with
  | EmptyString => [cur]
  | String c s => if (c =? "/")%char then cur :: split_slashes "" s else split_slashes (cur +:+ String c "") s
  end.

Fixpoint shared_segments (p r : list string) : nat :=
  match p, r with
  | a :: p, b :: r => if Match a b then S (shared_segments p r) else 0
  | _, _ => 0
  end.

Definition segmentOverlap (pattern resource : string) : spec_float :=
  if Match pattern resource then x_float 1
  else
    let p := split_slashes "" pattern in
    let r := split_slashes "" resource in
    x_div (x_float (Z.of_nat (shared_segments p r))) (x_float (Z.of_nat (Nat.max (length p) (length r)))).

Section Explain.
Context `{GoLib} `{ExplainLib}.

(** ** Conditions *)

Definition condition_detail (c : Condition) (req : Request) (passed : bool) : string :=
  let state := if passed then "held" else "failed" in
  if (cond_op c =? OpIPCIDR)%string || (cond_op c =? OpNotIPCIDR)%string then
    let ip := if (cond_key c =? "ip")%string then req_ip req else default "" (req_attributes req !! cond_key c) in
    let ip := if (ip =? "")%string then "(none)" else ip in
    "source ip " +:+ ip +:+ " " +:+ state +:+ " " +:+ cond_op c +:+ " " +:+ String.concat "," (cond_values c)
  else if (cond_op c =? OpTimeWindow)%string || (cond_op c =? OpDailyWindow)%string then
    "time " +:+ format_utc (req_now req) +:+ " " +:+ state +:+ " " +:+ cond_op c +:+ " [" +:+ String.concat ", " (cond_values c) +:+ "]"
  else
    "attribute " +:+ cond_key c +:+ "=" +:+ default "(unset)" (req_attributes req !! cond_key c) +:+ " " +:+ state +:+ " "
      +:+ cond_op c +:+ " [" +:+ String.concat ", " (cond_values c) +:+ "]".

Definition conditionResult (policyID statement : string) (c : Condition) (req : Request) : ConditionResult :=
  mkConditionResult policyID statement (cond_op c) (cond_key c) (cond_values c) (holds c req) (condition_detail c req (holds c req)).

(** ** The deciding statement *)

(** The loops over the policies and statements that are there visit [statements_of]. *)
Definition findDecided (d : Decision) (req : Request) (ps : list (option Policy)) : option located :=
  List.find (fun x : located => (x.1.1 =? d_policy_id d)%string && (stmt_name x.2 x.1.2 =? d_statement_id d)%string && matches x.2 req)
    (statements_of ps).

(** ** Near misses *)

Definition hint (s : Statement) (req : Request) (pattern : string) (mismatch : list string) : string :=
  String.concat "; "
    ((if existsb (String.eqb MismatchResource) mismatch
      then ["resource " +:+ quote pattern +:+ " does not cover " +:+ quote (req_resource req)] else [])
     ++ (if existsb (String.eqb MismatchAction) mismatch
         then ["you hold " +:+ String.concat ", " (stmt_actions s) +:+ " on " +:+ pattern +:+ ", this needs " +:+ req_action req] else [])
     ++ (if existsb (String.eqb MismatchCondition) mismatch then ["action and resource match but a condition failed"] else [])).

(** The best overlap of a resource pattern and that pattern, expanded. *)
Definition best_pattern (req : Request) (pats : list string) : spec_float * string :=
  fold_left (fun '(overlap, best) pat =>
    let exp := (expand pat (req_attributes req) true).1 in
    let o := segmentOverlap exp (req_resource req) in
    if (best =? "")%string || SFltb overlap o then (o, exp) else (overlap, best)) pats (float_zero, "").

Definition mismatches (actionOK resourceOK : bool) : list string :=
  (if resourceOK then [] else [MismatchResource]) ++ (if actionOK then [] else [MismatchAction])
  ++ (if resourceOK && actionOK then [MismatchCondition] else []).

Definition near_miss (req : Request) (x : located) : option NearMiss :=
  let s := x.2 in
  if (stmt_effect s =? Deny)%string || matches s req then None
  else
    let actionOK := existsb (fun a => Match a (req_action req)) (stmt_actions s) in
    let resourceOK := matches_resource (stmt_resources s) req false in
    let '(overlap, best) := best_pattern req (stmt_resources s) in
    if SFeqb overlap float_zero && negb actionOK then None
    else
      let mm := mismatches actionOK resourceOK in
      let score := x_mul f06 overlap in
      let score := if actionOK then x_add score f04 else score in
      let score := if resourceOK && actionOK then f09 else score in
      Some (mkNearMiss x.1.1 (stmt_name s x.1.2) mm (hint s req best mm) (x_div (Round (x_mul score (x_float 100))) (x_float 100))).

Definition nearer (a b : NearMiss) : bool := SFltb (nm_score b) (nm_score a).

Definition nearMisses (req : Request) (ps : list (option Policy)) : list NearMiss :=
  firstn MaxNearMisses (sort_by nearer (omap (near_miss req) (statements_of ps))).

(** ** The explanation *)

(** The conditions that failed on allow statements covering the action and resource. *)
Definition failed_in (req : Request) (x : located) : list ConditionResult :=
  if negb (stmt_effect x.2 =? Allow)%string || negb (matchesTarget x.2 req) then []
  else List.filter (fun r => negb (cr_passed r))
         (map (fun c => conditionResult x.1.1 (stmt_name x.2 x.1.2) c req) (stmt_conditions x.2)).

Definition failed_conditions (req : Request) (ps : list (option Policy)) : list ConditionResult :=
  mjoin (map (failed_in req) (statements_of ps)).

(** [clock] is read by [Evaluate], [clock2] by the second [prepare]. *)
Definition Explain (e : Evaluator) (clock clock2 : Z) (req : Request) (ps : list (option Policy)) : Explanation :=
  let d := Evaluate e clock req ps in
  let req := prepare e clock2 req in
  if negb (d_statement_id d =? "")%string then
    mkExplanation d (d_code d)
      (Some (mkMatched (d_policy_id d) (d_statement_id d) (if (d_effect d =? "")%string then Allow else d_effect d)))
      (match findDecided d req ps with
       | Some x => map (fun c => conditionResult x.1.1 (d_statement_id d) c req) (stmt_conditions x.2)
       | None => []
       end) []
  else if negb (d_effect d =? "")%string || d_allowed d then mkExplanation d (d_code d) None [] []
  else mkExplanation d (d_code d) None (failed_conditions req ps) (nearMisses req ps).
End Explain.

(** ** What an explanation tells *)

Section Properties.
Context `{GoLib} `{ExplainLib}.

Lemma stmt_name_nonempty s i : stmt_name s i ≠ "".
Proof. unfold stmt_name, statementIndexID. by destruct (String.eqb_spec (stmt_id s) ""). Qed.

(** The statement that a decision names, if it names one, is one that matched. *)
Definition names (d : Decision) (req : Request) (ps : list (option Policy)) (x : located) : Prop :=
  x ∈ statements_of ps ∧ matches x.2 req = true ∧ d_policy_id d = x.1.1 ∧ d_statement_id d = stmt_name x.2 x.1.2.

Lemma applyRisk_ids e req d :
  d_policy_id (applyRisk e req d) = d_policy_id d ∧ d_statement_id (applyRisk e req d) = d_statement_id d.
Proof. unfold applyRisk. by destruct (Classify e req). Qed.

Lemma applyTaint_ids e req d :
  d_policy_id (applyTaint e req d) = d_policy_id d ∧ d_statement_id (applyTaint e req d) = d_statement_id d.
Proof. unfold applyTaint. repeat case_match; done. Qed.

Lemma evaluate_names e req ps :
  (∃ x, names (evaluate e req ps) req ps x) ∨ evaluate e req ps = default_deny req ps.
Proof.
  rewrite evaluate_spec. simpl. destruct (first req is_deny _) as [x|] eqn:Hd.
  { apply first_Some in Hd as (? & ? & ?). left. by exists x. }
  destruct (first req is_escalate _) as [x|] eqn:He.
  { apply first_Some in He as (? & ? & ?). left. by exists x. }
  destruct (first req is_permit _) as [x|] eqn:Hp; [|by right]. apply first_Some in Hp as (? & ? & ?). left. exists x.
  destruct (applyRisk_ids e req (on_located allow_decision x)) as [Hi Hs]. unfold names. by rewrite Hi, Hs.
Qed.

Lemma applyTaint_default e req ps : applyTaint e req (default_deny req ps) = default_deny req ps.
Proof. unfold applyTaint. simpl. by rewrite orb_true_r. Qed.

(** The decision names a matching statement, or it is the default deny. *)
Lemma Evaluate_names e clock req ps :
  (∃ x, names (Evaluate e clock req ps) (prepare e clock req) ps x)
  ∨ Evaluate e clock req ps = default_deny (prepare e clock req) ps.
Proof.
  unfold Evaluate. destruct (evaluate_names e (prepare e clock req) ps) as [[x (? & ? & ? & ?)]| ->].
  - left. exists x. destruct (applyTaint_ids e (prepare e clock req) (evaluate e (prepare e clock req) ps)) as [Hi Hs].
    unfold names. by rewrite Hi, Hs.
  - right. apply applyTaint_default.
Qed.

Lemma findDecided_names d req ps x :
  names d req ps x -> ∃ y, findDecided d req ps = Some y ∧ names d req ps y.
Proof.
  intros (Hx & Hm & Hi & Hs). unfold findDecided. destruct (find _ _) as [y|] eqn:Hf.
  - apply find_some in Hf as [Hy%list_elem_of_In Hc]. apply andb_true_iff in Hc as [[? ?]%andb_true_iff ?].
    exists y. split; [done|]. unfold names. by rewrite !String.eqb_eq in *.
  - apply List.find_none with (x := x) in Hf; [|by apply list_elem_of_In].
    by rewrite <- Hi, <- Hs, !String.eqb_refl, Hm in Hf.
Qed.

(** The clock is read once, or does not matter. *)
Definition same_request (e : Evaluator) (clock clock2 : Z) (req : Request) : Prop :=
  prepare e clock2 req = prepare e clock req.

(** An explanation repeats the decision of [Evaluate]. If it was decided by a statement, the explanation
    finds a matching statement of that policy and name and lists its conditions, each of which held; if it
    is a default deny, no statement is named, every listed condition failed on an allow statement that
    covers the action and resource, and the near misses are at most three statements that are not denials
    and do not match. *)
Theorem Explain_sound e clock clock2 req ps :
  same_request e clock clock2 req ->
  let d := Evaluate e clock req ps in let x := Explain e clock clock2 req ps in let r := prepare e clock req in
  x_decision x = d ∧ x_code x = d_code d
  ∧ ((∃ y, names d r ps y
        ∧ x_matched x = Some (mkMatched (d_policy_id d) (d_statement_id d) (if (d_effect d =? "")%string then Allow else d_effect d))
        ∧ x_conditions x = map (fun c => conditionResult y.1.1 (d_statement_id d) c r) (stmt_conditions y.2)
        ∧ (∀ c, c ∈ x_conditions x -> cr_passed c = true) ∧ x_near x = [])
     ∨ (d = default_deny r ps ∧ x_matched x = None
        ∧ (∀ c, c ∈ x_conditions x -> cr_passed c = false)
        ∧ (length (x_near x) <= MaxNearMisses)%nat
        ∧ ∀ m, m ∈ x_near x -> ∃ y, y ∈ statements_of ps ∧ near_miss r y = Some m
            ∧ matches y.2 r = false ∧ stmt_effect y.2 ≠ Deny)).
Proof.
  unfold same_request. intros Hsame. unfold Explain. cbv zeta. rewrite Hsame. set (d := Evaluate e clock req ps). set (r := prepare e clock req).
  pose proof (Evaluate_names e clock req ps) as Hn. fold d r in Hn. destruct Hn as [[y Hy]|Hd].
  - destruct (findDecided_names _ _ _ _ Hy) as (z & -> & Hz). pose proof Hz as (_ & Hm & _ & Hs).
    assert (Hne : d_statement_id d ≠ "") by (rewrite Hs; apply stmt_name_nonempty).
    rewrite (proj2 (String.eqb_neq _ _) Hne). simpl. split_and!; try done. left. exists z. split_and!; try done.
    intros c Hin. apply list_elem_of_In, in_map_iff in Hin as (k & <- & Hk). simpl.
    apply andb_true_iff in Hm as [_ Hall]. by apply (proj1 (List.forallb_forall _ _) Hall).
  - rewrite Hd. simpl. split_and!; try done. right. split_and!; try done.
    + intros c (l & Hc & (z & <- & Hz)%list_elem_of_In%in_map_iff)%list_elem_of_join.
      unfold failed_in in Hc. destruct (_ || _); [set_solver|]. apply list_elem_of_In, List.filter_In in Hc as [_ Hc]. by apply negb_true_iff.
    + unfold nearMisses. rewrite length_firstn. lia.
    + intros m Hin. apply elem_of_take in Hin as (i & Hi & _). apply list_elem_of_lookup_2, elem_of_sort_by, list_elem_of_omap in Hi
        as (y & Hy & Hm). exists y. split_and!; try done; unfold near_miss in Hm;
        destruct (String.eqb_spec (stmt_effect y.2) Deny); try done; by destruct (matches y.2 r).
Qed.

(** A code that blames a condition with this operator. *)
Definition blames (code op : string) : Prop :=
  code = CodeIPNotAllowed ∧ (op = OpIPCIDR ∨ op = OpNotIPCIDR)
  ∨ code = CodeTimeRestricted ∧ (op = OpTimeWindow ∨ op = OpDailyWindow).

Lemma failed_condition_blames r cs code :
  failed_condition_code r cs = Some code -> ∃ c, c ∈ cs ∧ holds c r = false ∧ blames code (cond_op c).
Proof.
  unfold blames. induction cs as [|c cs IH]; simpl; [done|]. destruct (holds c r) eqn:Hh; [intros (c' & ? & ?)%IH; exists c'; set_solver|].
  destruct ((cond_op c =? OpIPCIDR)%string || _) eqn:E1.
  { intros [= <-]. exists c. apply orb_true_iff in E1. rewrite !String.eqb_eq in E1. set_solver. }
  destruct ((cond_op c =? OpTimeWindow)%string || _) eqn:E2; [|intros (c' & ? & ?)%IH; exists c'; set_solver].
  intros [= <-]. exists c. apply orb_true_iff in E2. rewrite !String.eqb_eq in E2. set_solver.
Qed.

Lemma deny_code_blames r pid i ss code :
  deny_code_statements r ss = Some code ->
  ∃ c, c ∈ mjoin (map (failed_in r) (number pid i ss)) ∧ cr_passed c = false ∧ blames code (cr_op c).
Proof.
  revert i. induction ss as [|s ss IH]; simpl; intros i; [done|]. setoid_rewrite elem_of_app.
  destruct (negb _ || negb _) eqn:Et; [intros (c & ? & ?)%(IH (S i)); eauto|].
  destruct (failed_condition_code r (stmt_conditions s)) as [k|] eqn:Hf; [|intros (c & ? & ?)%(IH (S i)); eauto].
  intros [= <-]. apply failed_condition_blames in Hf as (c & Hin & Hh & Hk). exists (conditionResult pid (stmt_name s i) c r).
  split; [|done]. left. unfold failed_in. simpl. rewrite Et. apply list_elem_of_In, List.filter_In. simpl. rewrite Hh.
  split; [|done]. apply in_map_iff. exists c. split; [done|]. by apply list_elem_of_In.
Qed.

Lemma default_deny_blames r ps :
  defaultDenyCode r ps ≠ CodeNoPermission ->
  ∃ c, c ∈ failed_conditions r ps ∧ cr_passed c = false ∧ blames (defaultDenyCode r ps) (cr_op c).
Proof.
  unfold failed_conditions. induction ps as [|[p|] ps IH]; simpl; [done| |done].
  setoid_rewrite map_app. setoid_rewrite join_app. setoid_rewrite elem_of_app.
  destruct (deny_code_statements r (pol_statements p)) as [k|] eqn:Hk.
  - intros _. apply (deny_code_blames r (pol_id p) 0) in Hk as (c & Hin & ?). eauto.
  - intros (c & Hin & ?)%IH. eauto.
Qed.

(** A default deny blamed on the address or the time lists a condition of that kind that failed. *)
Theorem Explain_blames e clock clock2 req ps :
  same_request e clock clock2 req ->
  let x := Explain e clock clock2 req ps in
  x_decision x = default_deny (prepare e clock req) ps -> x_code x ≠ CodeNoPermission ->
  ∃ c, c ∈ x_conditions x ∧ cr_passed c = false ∧ blames (x_code x) (cr_op c).
Proof.
  unfold same_request. intros Hsame. unfold Explain. cbv zeta. rewrite Hsame.
  set (d := Evaluate e clock req ps). set (r := prepare e clock req). intros Hd Hc.
  assert (Hd' : d = default_deny r ps) by (repeat case_match; simpl in Hd; done).
  rewrite Hd' in Hc |- *. simpl in Hc |- *. by apply default_deny_blames.
Qed.
End Properties.

(** ** Examples *)

#[local] Instance example_explain : ExplainLib := {| format_utc _ := "now"; quote s := s |}.

(** Deny from outside the office, allow inside it during working hours. *)
Definition office_policy : list (option Policy) :=
  [Some (mkPolicy "1" "p" [mkStatement "" Allow ["read"] ["doc/*"]
     [mkCondition OpDailyWindow "" ["08:00"; "18:00"]; mkCondition OpIPCIDR "ip" ["10."]] "" ""])].

Definition at_hour (h : Z) (ip : string) : Request :=
  mkRequest "read" "doc/1" ∅ ip (h * 3600 * 1000000000)%Z (S754_zero false) "" "" false ∅.

(** Refused at nine o'clock from another network: the address is blamed and listed, the statement is the
    one near miss. *)
Lemma Explain_sound_witness :
  let d := Evaluate demo_evaluator 0 (at_hour 9 "11.0.0.7") office_policy in
  let x := Explain demo_evaluator 0 0 (at_hour 9 "11.0.0.7") office_policy in
  x_decision x = d ∧ x_code x = CodeIPNotAllowed ∧ map nm_statement (x_near x) = ["stmt-0"].
Proof.
  destruct (Explain_sound demo_evaluator 0 0 (at_hour 9 "11.0.0.7") office_policy eq_refl) as (Hd & Hc & _).
  split; [exact Hd|]. split; [rewrite Hc|]; vm_compute; reflexivity.
Defined.

(** The reasons are read at a second clock reading: a request without a time that is allowed in the last
    moment of the window is explained by a matched statement whose conditions are not found, or failed,
    when the window has closed in between. *)
Lemma explained_after_closing :
  let req := at_hour 0 "10.0.0.7" in let x := Explain demo_evaluator (17 * 3600 * 1000000000) (19 * 3600 * 1000000000) req office_policy in
  d_allowed (x_decision x) = true ∧ x_conditions x = [].
Proof. by vm_compute. Qed.
