(* ===== verification/PolicyStore.v ===== *)
(** * Policy storage and the HTTP guard ([policy/storage.go], [policy/memory.go], [policy/http.go])

    The in-process [Memory] store of policies and attachments, the storage contract as the class
    [PolicyStorage] with the laws the guard relies on, and the guard itself: the subjects of a
    principal, [Decide], the request it builds and the outcome of [RequirePolicy]. Identifiers
    (ULIDs) are their text. The authenticator, the subject and attribute callbacks and the clock are
    arguments. *)

From Stdlib Require Import ZArith Lia String Ascii.
From Corelib Require Import SpecFloat.
From stdpp Require Import base gmap strings list pretty.
From S2P Require Import Prelude Glob PolicyDoc PolicyEval PolicyTaint.

Set Default Goal Selector "!".
Open Scope string_scope.
Open Scope list_scope.
Open Scope Z_scope.

(** ** Data *)

Definition SubjectUser : string := "user".
Definition SubjectGroup : string := "group".
Definition SubjectRole : string := "role".
Definition SubjectToken : string := "token".

Record Subject := mkSubject { sub_kind : string; sub_id : string }.

#[export] Instance Subject_eq_dec : EqDecision Subject.
Proof. solve_decision. Defined.

#[export] Instance Subject_countable : Countable Subject.
Proof.
  refine (inj_countable' (fun s => (sub_kind s, sub_id s)) (fun p => mkSubject p.1 p.2) _).
  by intros [? ?].
Defined.

Record PolicyRecord := mkRecord {
  rec_id : string;
  rec_name : string;
  rec_document : string;
  rec_created_at : Z;
  rec_updated_at : Z;
}.

Record Attached := mkAttached { att_subject : Subject; att_record : PolicyRecord }.

(** The zero value Go reads at an absent key of [map[string]Record]. *)
Definition zero_record : PolicyRecord := mkRecord "" "" "" 0 0.

Inductive store_error :=
  | ErrNotFound
  | ErrPutEmptyID
  | ErrPutInvalid (id : string) (e : doc_error)
  | ErrSubjects
  | ErrLoadPolicies
  | ErrStoredPolicy (id : string) (e : doc_error).

(** ** The in-process store *)

Record Memory := mkMemory {
  mem_policies : gmap string PolicyRecord;
  mem_attached : gmap Subject (gset string);
}.

Definition NewMemory : Memory := mkMemory ∅ ∅.

(** The order of [PoliciesFor]: policy id, then subject kind, then subject id. *)
Definition attached_less (a b : Attached) : bool :=
  if negb (rec_id (att_record a) =? rec_id (att_record b))%string
  then String.ltb (rec_id (att_record a)) (rec_id (att_record b))
  else if negb (sub_kind (att_subject a) =? sub_kind (att_subject b))%string
  then String.ltb (sub_kind (att_subject a)) (sub_kind (att_subject b))
  else String.ltb (sub_id (att_subject a)) (sub_id (att_subject b)).

Section MemoryOps.
Context `{GoLib}.

Definition PutPolicy (m : Memory) (now : Z) (r : PolicyRecord) : result store_error Memory :=
  if (rec_id r =? "")%string then Err ErrPutEmptyID
  else match Parse (rec_document r) with
  | Err e => Err (ErrPutInvalid (rec_id r) e)
  | Ok _ =>
      let created :=
        match mem_policies m !! rec_id r with
        | Some old => rec_created_at old
        | None => now
        end in
      let r' := mkRecord (rec_id r) (rec_name r) (rec_document r) created now in
      Ok (mkMemory (<[rec_id r := r']> (mem_policies m)) (mem_attached m))
  end.

Definition GetPolicy (m : Memory) (id : string) : result store_error PolicyRecord :=
  match mem_policies m !! id with
  | None => Err ErrNotFound
  | Some r => Ok r
  end.

Definition ListPolicies (m : Memory) : list PolicyRecord :=
  sort_by (fun a b => String.ltb (rec_id a) (rec_id b)) (map snd (map_to_list (mem_policies m))).

Definition drop_id (id : string) (set : gset string) : option (gset string) :=
  let set' := set ∖ {[id]} in
  if bool_decide (set' = ∅) then None else Some set'.

Definition DeletePolicy (m : Memory) (id : string) : Memory :=
  mkMemory (delete id (mem_policies m)) (omap (drop_id id) (mem_attached m)).

Definition AttachPolicy (m : Memory) (s : Subject) (id : string) : result store_error Memory :=
  match mem_policies m !! id with
  | None => Err ErrNotFound
  | Some _ =>
      let set := default ∅ (mem_attached m !! s) in
      Ok (mkMemory (mem_policies m) (<[s := {[id]} ∪ set]> (mem_attached m)))
  end.

Definition DetachPolicy (m : Memory) (s : Subject) (id : string) : Memory :=
  let set := default ∅ (mem_attached m !! s) ∖ {[id]} in
  mkMemory (mem_policies m)
    (if bool_decide (set = ∅) then delete s (mem_attached m)
     else <[s := set]> (mem_attached m)).

Definition attached_of (m : Memory) (s : Subject) : list Attached :=
  map (fun id => mkAttached s (default zero_record (mem_policies m !! id)))
      (elements (default ∅ (mem_attached m !! s))).

Definition PoliciesFor (m : Memory) (subjects : list Subject) : list Attached :=
  sort_by attached_less (concat (map (attached_of m) (dedup subjects))).
End MemoryOps.

(** One mutation of the store, whichever way it ends: an operation that fails leaves the store. *)
Inductive mem_op :=
  | OpPut (now : Z) (r : PolicyRecord)
  | OpDelete (id : string)
  | OpAttach (s : Subject) (id : string)
  | OpDetach (s : Subject) (id : string).

Definition apply_op `{GoLib} (m : Memory) (op : mem_op) : Memory :=
  let keep r := match r with Ok m' => m' | Err _ => m end in
  match op with
  | OpPut now r => keep (PutPolicy m now r)
  | OpDelete id => DeletePolicy m id
  | OpAttach s id => keep (AttachPolicy m s id)
  | OpDetach s id => DetachPolicy m s id
  end.

(** ** The storage contract the guard relies on *)

Class PolicyStorage (St : Type) := {
  st_valid : St -> Prop;
  st_get : St -> string -> result store_error PolicyRecord;
  st_attached : St -> Subject -> string -> Prop;
  st_for : St -> list Subject -> result store_error (list Attached);
  st_for_spec st subjects l :
    st_valid st -> st_for st subjects = Ok l ->
    ∀ a, a ∈ l ↔ att_subject a ∈ subjects
               ∧ st_attached st (att_subject a) (rec_id (att_record a))
               ∧ st_get st (rec_id (att_record a)) = Ok (att_record a);
}.

(** ** The guard *)

Record Principal := mkPrincipal {
  p_kind : string;
  p_user_id : string;
  p_token_id : option string;
  p_agent_name : string;
  p_delegated_by : option string;
}.

Record Resource := mkResource {
  res_name : string;
  res_attributes : gmap string string;
  res_amount : spec_float;
  res_currency : string;
  res_data_class : string;
  res_irreversible : bool;
}.

(** What the guard reads of an [http.Request]. *)
Record HttpRequest := mkHttpRequest { http_remote_addr : string }.

Record Options := mkOptions {
  opt_audit : bool;
  opt_audit_deny_only : bool;
  opt_subjects : option (Principal -> option (list Subject));
  opt_attributes : option (HttpRequest -> Principal -> gmap string string);
  opt_client_ip : option (HttpRequest -> string);
  opt_evaluator : Evaluator;
}.

Definition PrincipalSubjects (p : Principal) : list Subject :=
  let owner := default (p_user_id p) (p_delegated_by p) in
  mkSubject SubjectUser owner ::
  match p_token_id p with
  | Some t => [mkSubject SubjectToken t]
  | None => []
  end.

Definition indeterminate : Decision :=
  mkDecision false "" "" "" "" CodePolicyIndeterminate false None None.

Definition index_byte (c : ascii) (l : list ascii) : bool := existsb (Ascii.eqb c) l.

(** The bytes before the first [c], all of them when there is none. *)
Fixpoint before_byte (c : ascii) (l : list ascii) : list ascii :=
  match l with
  | [] => []
  | x :: l' => if Ascii.eqb x c then [] else x :: before_byte c l'
  end.

(** [net.SplitHostPort], its host; [None] where it returns an error. *)
Definition SplitHost (addr : string) : option string :=
  let l := bytes_of addr in
  if negb (index_byte ":"%char l) then None
  else match l with
  | "["%char :: rest =>
      let host := before_byte "]"%char rest in
      match drop (length host) rest with
      | _ :: ":"%char :: port =>
          if index_byte ":"%char port || index_byte "["%char rest || index_byte "]"%char port
          then None else Some (of_bytes host)
      | _ => None
      end
  | _ =>
      let port := before_byte ":"%char (rev l) in
      let host := take (length l - length port - 1) l in
      if index_byte ":"%char host || index_byte "["%char l || index_byte "]"%char l
      then None else Some (of_bytes host)
  end.

Section Guard.
Context `{GoLib} {St : Type} `{PolicyStorage St}.

(** The loop of [Decide]: token policies form the boundary, the others the identity. *)
Fixpoint split_attached (l : list Attached) (identity boundary : list (option Policy))
  : result store_error (list (option Policy) * list (option Policy)) :=
  match l with
  | [] => Ok (identity, boundary)
  | a :: l' =>
      match Parse (rec_document (att_record a)) with
      | Err e => Err (ErrStoredPolicy (rec_id (att_record a)) e)
      | Ok doc =>
          let doc := Some (mkPolicy (pol_version doc) (rec_id (att_record a)) (pol_statements doc)) in
          if (sub_kind (att_subject a) =? SubjectToken)%string
          then split_attached l' identity (boundary ++ [doc])
          else split_attached l' (identity ++ [doc]) boundary
      end
  end.

(** The subjects of a decision; [None] when the callback fails. *)
Definition decide_subjects (o : Options) (p : Principal) : option (list Subject) :=
  match opt_subjects o with
  | None => Some (PrincipalSubjects p)
  | Some f =>
      match f p with
      | None => None
      | Some extra => Some (PrincipalSubjects p ++ extra)
      end
  end.

Definition Decide (st : St) (o : Options) (clock clock2 : Z) (p : Principal) (req : Request)
  : Decision * option store_error :=
  match decide_subjects o p with
  | None => (indeterminate, Some ErrSubjects)
  | Some subs =>
      match st_for st subs with
      | Err _ => (indeterminate, Some ErrLoadPolicies)
      | Ok attached =>
          match split_attached attached [] [] with
          | Err e => (indeterminate, Some e)
          | Ok (identity, boundary) =>
              (EvaluateWithBoundary (opt_evaluator o) clock clock2 req identity boundary, None)
          end
      end
  end.

Definition clientIP (o : Options) (r : HttpRequest) : string :=
  match opt_client_ip o with
  | Some f => f r
  | None => default (http_remote_addr r) (SplitHost (http_remote_addr r))
  end.

(** Later entries win: resource attributes, then the callback's, then the principal's. *)
Definition request (o : Options) (r : HttpRequest) (p : Principal) (action : string)
  (res : Resource) : Request :=
  let attrs : gmap string string :=
    <["principal.kind" := p_kind p]> {["principal.id" := p_user_id p]} in
  let attrs := match p_token_id p with Some t => <["token.id" := t]> attrs | None => attrs end in
  let attrs :=
    if negb (p_agent_name p =? "")%string then <["agent.name" := p_agent_name p]> attrs else attrs in
  let attrs := match opt_attributes o with Some f => f r p ∪ attrs | None => attrs end in
  let attrs := res_attributes res ∪ attrs in
  mkRequest action (res_name res) attrs (clientIP o r) 0 (res_amount res) (res_currency res)
    (res_data_class res) (res_irreversible res) ∅.

(** An audit event of the guard: the typed part of its metadata. *)
Record AuditEvent := mkAuditEvent {
  ae_resource : string; ae_action : string; ae_allowed : bool; ae_effect : string;
  ae_code : string; ae_policy_id : string; ae_statement_id : string;
}.

Definition audit (o : Options) (req : Request) (d : Decision) : list AuditEvent :=
  if negb (opt_audit o) || (d_allowed d && opt_audit_deny_only o) then []
  else [mkAuditEvent (req_resource req) (req_action req) (d_allowed d) (d_effect d) (d_code d)
          (d_policy_id d) (d_statement_id d)].

Definition ErrorCodeDenied : string := "policy.denied".
Definition ErrorCodeEscalate : string := "policy.escalation_required".
Definition ErrorCodeStepUp : string := "auth.step_up_required".

(** How the middleware ends: the authenticator answered, a problem was written, or the next handler
    runs with the decision in its context. *)
Inductive http_outcome :=
  | NotAuthenticated
  | Problem (status : Z) (code : string) (decision_code : string)
  | Next (d : Decision).

Definition RequirePolicy (st : St) (o : Options)
  (auth : HttpRequest -> option (HttpRequest * Principal)) (resourceFn : HttpRequest -> Resource)
  (clock clock2 : Z) (action : string) (r : HttpRequest) : list AuditEvent * http_outcome :=
  match auth r with
  | None => ([], NotAuthenticated)
  | Some (r, p) =>
      let req := request o r p action (resourceFn r) in
      match Decide st o clock clock2 p req with
      | (_, Some _) => ([], Problem 500 "policy.error" CodePolicyIndeterminate)
      | (d, None) =>
          let events := audit o req d in
          match d_escalation d with
          | Some esc =>
              if (d_effect d =? Escalate)%string then
                if (esc_requirement esc =? RequireStepUp)%string
                then (events, Problem 401 ErrorCodeStepUp (d_code d))
                else (events, Problem 403 ErrorCodeEscalate (d_code d))
              else if negb (d_allowed d) then (events, Problem 403 ErrorCodeDenied (d_code d))
              else (events, Next d)
          | None =>
              if negb (d_allowed d) then (events, Problem 403 ErrorCodeDenied (d_code d))
              else (events, Next d)
          end
      end
  end.
End Guard.

(** ** The store refines its specification *)

(** The contract as two sets: the documents, and the pairs of a subject and a policy id. *)
Record spec_store := mkSpec {
  sp_policies : gmap string PolicyRecord;
  sp_attached : gset (Subject * string);
}.

Definition spec_op `{GoLib} (sp : spec_store) (op : mem_op) : spec_store :=
  match op with
  | OpPut now r =>
      if negb (rec_id r =? "")%string && is_ok (Parse (rec_document r)) then
        let created := from_option rec_created_at now (sp_policies sp !! rec_id r) in
        mkSpec (<[rec_id r := mkRecord (rec_id r) (rec_name r) (rec_document r) created now]>
                  (sp_policies sp)) (sp_attached sp)
      else sp
  | OpDelete id => mkSpec (delete id (sp_policies sp)) (filter (fun x => x.2 ≠ id) (sp_attached sp))
  | OpAttach s id =>
      if bool_decide (id ∈ dom (sp_policies sp))
      then mkSpec (sp_policies sp) ({[(s, id)]} ∪ sp_attached sp) else sp
  | OpDetach s id => mkSpec (sp_policies sp) (sp_attached sp ∖ {[(s, id)]})
  end.

Definition attached_to (m : Memory) (s : Subject) (id : string) : Prop :=
  ∃ set, mem_attached m !! s = Some set ∧ id ∈ set.

Definition refines (m : Memory) (sp : spec_store) : Prop :=
  mem_policies m = sp_policies sp ∧ ∀ s id, attached_to m s id ↔ (s, id) ∈ sp_attached sp.

(** Documents are keyed by their id and parse; attachments name existing policies and no set of
    attachments is empty. *)
Record mem_ok `{GoLib} (m : Memory) : Prop := {
  ok_policies : ∀ id r, mem_policies m !! id = Some r ->
    rec_id r = id ∧ id ≠ "" ∧ ∃ p, Parse (rec_document r) = Ok p;
  ok_attached : ∀ s id, attached_to m s id -> is_Some (mem_policies m !! id);
  ok_nonempty : ∀ s set, mem_attached m !! s = Some set -> set ≠ ∅;
}.

Lemma attached_default m s id :
  attached_to m s id ↔ id ∈ default ∅ (mem_attached m !! s).
Proof.
  unfold attached_to. destruct (mem_attached m !! s) as [set|]; simpl; [naive_solver|]. set_solver.
Qed.

Section MemoryProofs.
Context `{GoLib}.

Lemma PutPolicy_attached m now r m' :
  PutPolicy m now r = Ok m' -> mem_attached m' = mem_attached m.
Proof. unfold PutPolicy. repeat case_match; naive_solver. Qed.

Lemma DeletePolicy_attached m id s id' :
  attached_to (DeletePolicy m id) s id' ↔ attached_to m s id' ∧ id' ≠ id.
Proof.
  rewrite !attached_default. unfold DeletePolicy; simpl. rewrite lookup_omap.
  destruct (mem_attached m !! s) as [set|]; simpl; [|set_solver]. unfold drop_id.
  destruct (bool_decide_reflect (set ∖ {[id]} = ∅)); simpl; set_solver.
Qed.

Lemma AttachPolicy_attached m s id m' s' id' :
  AttachPolicy m s id = Ok m' ->
  attached_to m' s' id' ↔ attached_to m s' id' ∨ (s', id') = (s, id).
Proof.
  unfold AttachPolicy. case_match; [|done]. intros [= <-]. rewrite !attached_default. simpl.
  destruct (decide (s' = s)) as [->|].
  - rewrite lookup_insert_eq. set_solver.
  - rewrite lookup_insert_ne by done. set_solver.
Qed.

Lemma DetachPolicy_attached m s id s' id' :
  attached_to (DetachPolicy m s id) s' id' ↔ attached_to m s' id' ∧ (s', id') ≠ (s, id).
Proof.
  rewrite !attached_default. unfold DetachPolicy; simpl. destruct (decide (s' = s)) as [->|].
  - case_bool_decide; [rewrite lookup_delete_eq|rewrite lookup_insert_eq]; set_solver.
  - case_bool_decide; [rewrite lookup_delete_ne by done|rewrite lookup_insert_ne by done]; set_solver.
Qed.

Lemma apply_op_ok m op : mem_ok m -> mem_ok (apply_op m op).
Proof.
  intros Hm. destruct op as [now r|id|s id|s id]; simpl.
  - destruct (PutPolicy m now r) as [m'|] eqn:E; [|done].
    pose proof (PutPolicy_attached _ _ _ _ E) as Ha. revert E. unfold PutPolicy.
    destruct (String.eqb_spec (rec_id r) ""); [done|].
    destruct (Parse (rec_document r)) as [p|] eqn:Hp; [|done]. intros [= <-]. split; simpl.
    + intros id r' [[<- <-]|[_ Hr]]%lookup_insert_Some; [simpl; eauto|]. by apply (ok_policies m).
    + intros s id Hs. apply lookup_insert_is_Some'. right. by apply (ok_attached m Hm s).
    + apply (ok_nonempty m Hm).
  - split; simpl.
    + intros id' r' [_ Hr]%lookup_delete_Some. by apply (ok_policies m).
    + intros s id' [Hs Hne]%DeletePolicy_attached. rewrite lookup_delete_ne by done.
      by apply (ok_attached m Hm s).
    + intros s set. rewrite lookup_omap. destruct (mem_attached m !! s); [|done]. simpl.
      unfold drop_id. case_bool_decide; naive_solver.
  - destruct (AttachPolicy m s id) as [m'|] eqn:E; [|done].
    pose proof (λ s' id', AttachPolicy_attached _ _ _ _ s' id' E) as Ha. revert E Ha.
    unfold AttachPolicy. destruct (mem_policies m !! id) as [r|] eqn:Hr; [|done].
    intros [= <-] Ha. split; simpl.
    + apply (ok_policies m Hm).
    + intros s' id' [Hs|[= -> ->]]%Ha; [by apply (ok_attached m Hm s')|by rewrite Hr].
    + intros s' set [[_ <-]|[_ Hs]]%lookup_insert_Some; [set_solver|]. by apply (ok_nonempty m Hm s').
  - split; simpl.
    + apply (ok_policies m Hm).
    + intros s' id' [Hs _]%DetachPolicy_attached. by apply (ok_attached m Hm s').
    + intros s' set. case_bool_decide as E.
      * intros [_ Hs]%lookup_delete_Some. by apply (ok_nonempty m Hm s').
      * intros [[_ <-]|[_ Hs]]%lookup_insert_Some; [done|]. by apply (ok_nonempty m Hm s').
Qed.

Lemma apply_op_refines m sp op : refines m sp -> refines (apply_op m op) (spec_op sp op).
Proof.
  intros [Hp Ha]. destruct op as [now r|id|s id|s id]; simpl.
  - destruct (PutPolicy m now r) as [m'|] eqn:E.
    + pose proof (PutPolicy_attached _ _ _ _ E) as Hat. revert E. unfold PutPolicy.
      destruct (rec_id r =? "")%string; [done|]. destruct (Parse (rec_document r)); [|done].
      intros [= <-]. simpl. split; [|done]. simpl. rewrite <- Hp.
      by destruct (mem_policies m !! rec_id r).
    + revert E. unfold PutPolicy.
      destruct (rec_id r =? "")%string; [done|]. by destruct (Parse (rec_document r)).
  - split; [by rewrite <- Hp|]. intros s id'. rewrite DeletePolicy_attached, Ha. simpl.
    rewrite elem_of_filter. simpl. tauto.
  - destruct (AttachPolicy m s id) as [m'|] eqn:E.
    + pose proof (λ s' id', AttachPolicy_attached _ _ _ _ s' id' E) as Hat. revert E Hat.
      unfold AttachPolicy. rewrite Hp. destruct (sp_policies sp !! id) eqn:Hl; [|done].
      intros [= <-] Hat. rewrite bool_decide_eq_true_2 by (apply elem_of_dom; eauto).
      split; [done|]. intros s' id'. rewrite Hat, Ha. set_solver.
    + revert E. unfold AttachPolicy. rewrite Hp. destruct (sp_policies sp !! id) eqn:Hl; [done|].
      rewrite bool_decide_eq_false_2; [done|]. by rewrite not_elem_of_dom.
  - split; [done|]. intros s' id'. rewrite DetachPolicy_attached, Ha. simpl. set_solver.
Qed.

Lemma new_memory_ok : mem_ok NewMemory.
Proof. split; unfold attached_to; simpl; setoid_rewrite lookup_empty; naive_solver. Qed.

Lemma reachable_ok ops : mem_ok (fold_left apply_op ops NewMemory).
Proof.
  generalize new_memory_ok. generalize NewMemory.
  induction ops as [|op ops IH]; intros m Hm; simpl; [done|]. by apply IH, apply_op_ok.
Qed.

(** Any sequence of store operations keeps the store well formed (documents keyed by their id
    and valid, attachments only to existing policies, no empty attachment set) and equal to the
    abstract store of documents and attachment pairs after the same operations. *)
Theorem memory_refines_spec ops :
  let m := fold_left apply_op ops NewMemory in
  mem_ok m ∧ refines m (fold_left spec_op ops (mkSpec ∅ ∅)).
Proof.
  split; [apply reachable_ok|].
  assert (H0 : refines NewMemory (mkSpec ∅ ∅)).
  { unfold refines, attached_to; simpl. setoid_rewrite lookup_empty. set_solver. }
  revert H0. generalize NewMemory, (mkSpec ∅ ∅).
  induction ops as [|op ops IH]; intros m sp Href; simpl; [done|]. by apply IH, apply_op_refines.
Qed.

Lemma PoliciesFor_elem m subjects a :
  mem_ok m ->
  a ∈ PoliciesFor m subjects ↔
  att_subject a ∈ subjects ∧ attached_to m (att_subject a) (rec_id (att_record a))
  ∧ mem_policies m !! rec_id (att_record a) = Some (att_record a).
Proof.
  intros Hm. unfold PoliciesFor. rewrite elem_of_sort_by, list_elem_of_In, in_concat.
  setoid_rewrite in_map_iff. setoid_rewrite <- list_elem_of_In. setoid_rewrite elem_of_dedup.
  unfold attached_of. split.
  - intros (l & (s & <- & Hs) & (id & -> & Hid)%list_elem_of_fmap). simpl.
    apply elem_of_elements, attached_default in Hid.
    destruct (ok_attached m Hm _ _ Hid) as [r Hr]. rewrite Hr; simpl.
    destruct (ok_policies m Hm _ _ Hr) as [-> _]. eauto.
  - destruct a as [s r]; simpl. intros (Hs & Hat & Hr). eexists. split; [by exists s|].
    apply list_elem_of_fmap. exists (rec_id r). rewrite Hr. split; [done|].
    by apply elem_of_elements, attached_default.
Qed.
End MemoryProofs.

#[export] Instance Memory_storage `{GoLib} : PolicyStorage Memory.
Proof.
  refine {| st_valid := mem_ok; st_get := GetPolicy; st_attached := attached_to;
            st_for m subjects := Ok (PoliciesFor m subjects) |}.
  intros m subjects l Hm [= <-] a. rewrite (PoliciesFor_elem _ _ _ Hm). unfold GetPolicy.
  destruct (mem_policies m !! rec_id (att_record a)); naive_solver.
Defined.

(** ** The guard, against the storage contract *)

Section GuardProofs.
Context `{GoLib} {St : Type} `{!PolicyStorage St}.

(** The policy the guard evaluates for an attachment. *)
Definition policy_of (a : Attached) (doc : Policy) : Policy :=
  mkPolicy (pol_version doc) (rec_id (att_record a)) (pol_statements doc).

Definition is_token (a : Attached) : bool := (sub_kind (att_subject a) =? SubjectToken)%string.

Lemma split_attached_spec l I B I' B' :
  split_attached l I B = Ok (I', B') ->
  ∀ p, (Some p ∈ I' ↔ Some p ∈ I ∨ ∃ a doc, a ∈ l ∧ is_token a = false
            ∧ Parse (rec_document (att_record a)) = Ok doc ∧ p = policy_of a doc)
     ∧ (Some p ∈ B' ↔ Some p ∈ B ∨ ∃ a doc, a ∈ l ∧ is_token a = true
            ∧ Parse (rec_document (att_record a)) = Ok doc ∧ p = policy_of a doc).
Proof.
  revert I B. induction l as [|a l IH]; intros I B; simpl.
  { intros [= -> ->] p. set_solver. }
  destruct (Parse (rec_document (att_record a))) as [doc|] eqn:Hdoc; [|done].
  fold (policy_of a doc) (is_token a). intros Hs p.
  assert (Hcons : ∀ b, (∃ a0 doc0, a0 ∈ a :: l ∧ is_token a0 = b
        ∧ Parse (rec_document (att_record a0)) = Ok doc0 ∧ p = policy_of a0 doc0) ↔
      (is_token a = b ∧ p = policy_of a doc) ∨ ∃ a0 doc0, a0 ∈ l ∧ is_token a0 = b
        ∧ Parse (rec_document (att_record a0)) = Ok doc0 ∧ p = policy_of a0 doc0).
  { intros b. setoid_rewrite elem_of_cons. split.
    - intros (a0 & doc0 & [->|Hin] & Hb & Hp & ->); [left|right; eauto 10].
      rewrite Hdoc in Hp. injection Hp as ->. done.
    - intros [[Hb ->]|(a0 & doc0 & Hin & Hb & Hp & ->)]; eauto 10. }
  rewrite !Hcons.
  destruct (is_token a); specialize (IH _ _ Hs p); rewrite elem_of_app, list_elem_of_singleton in IH;
    destruct IH as [-> ->]; naive_solver.
Qed.

Lemma split_attached_error l I B e :
  split_attached l I B = Err e ->
  ∃ a e', a ∈ l ∧ Parse (rec_document (att_record a)) = Err e'.
Proof.
  revert I B. induction l as [|a l IH]; intros I B; simpl; [done|].
  destruct (Parse (rec_document (att_record a))) as [doc|e'] eqn:Hdoc; [|intros _; set_solver].
  intros Hs. destruct (sub_kind (att_subject a) =? SubjectToken)%string;
    destruct (IH _ _ Hs) as (a0 & e' & Hin & He); set_solver.
Qed.

Lemma EvaluateWithBoundary_effect e c1 c2 req I B :
  d_allowed (EvaluateWithBoundary e c1 c2 req I B) = true ->
  d_effect (EvaluateWithBoundary e c1 c2 req I B) ≠ Escalate.
Proof.
  assert (Hev : d_allowed (Evaluate e c1 req I) = true -> d_effect (Evaluate e c1 req I) ≠ Escalate).
  { unfold Evaluate, applyTaint. pose proof (evaluate_allowed_effect e (prepare e c1 req) I) as Hd.
    repeat case_match; simpl; try done; auto. }
  unfold EvaluateWithBoundary. case_match; [done|].
  destruct (d_allowed (evaluate e (prepare e c2 req) B)) eqn:Eb; simpl; [done|]. congruence.
Qed.

(** A statement of a policy the store has attached to one of the [subs]. *)
Definition attached_statement (st : St) (subs : list Subject) (token : bool) (s : Statement) : Prop :=
  ∃ sub r doc, sub ∈ subs ∧ (sub_kind sub =? SubjectToken)%string = token
    ∧ st_attached st sub (rec_id r) ∧ st_get st (rec_id r) = Ok r
    ∧ Parse (rec_document r) = Ok doc ∧ s ∈ pol_statements doc.

Lemma any_match_attached st subs l token req P ps :
  st_valid st -> st_for st subs = Ok l ->
  (∀ p, Some p ∈ ps ↔ ∃ a doc, a ∈ l ∧ is_token a = token
            ∧ Parse (rec_document (att_record a)) = Ok doc ∧ p = policy_of a doc) ->
  any_match req P ps ↔
  ∃ s, attached_statement st subs token s ∧ matches s req = true ∧ P s = true.
Proof.
  intros Hv Hf Hps. pose proof (st_for_spec st subs l Hv Hf) as Hspec. unfold any_match. split.
  - intros (p & s & Hp & Hs & Hm & HP). apply Hps in Hp as (a & doc & Ha & Ht & Hdoc & ->).
    apply Hspec in Ha as (Hsub & Hatt & Hget). exists s. split; [|done].
    exists (att_subject a), (att_record a), doc. done.
  - intros (s & (sub & r & doc & Hsub & Ht & Hatt & Hget & Hdoc & Hs) & Hm & HP).
    exists (policy_of (mkAttached sub r) doc), s. split; [|done].
    apply Hps. exists (mkAttached sub r), doc. split; [|done]. apply Hspec. done.
Qed.

Lemma Decide_Ok st o c1 c2 p req d :
  Decide st o c1 c2 p req = (d, None) ->
  ∃ subs l I B, decide_subjects o p = Some subs ∧ st_for st subs = Ok l
    ∧ split_attached l [] [] = Ok (I, B)
    ∧ d = EvaluateWithBoundary (opt_evaluator o) c1 c2 req I B.
Proof. unfold Decide. repeat case_match; naive_solver. Qed.

Lemma Decide_allowed_Ok st o c1 c2 p req :
  d_allowed (Decide st o c1 c2 p req).1 = true ->
  ∃ d, Decide st o c1 c2 p req = (d, None) ∧ d_allowed d = true.
Proof. unfold Decide. repeat case_match; simpl; naive_solver. Qed.

Lemma no_deny_escalate_permit req st subs b s :
  (¬ ∃ s, attached_statement st subs b s ∧ matches s req = true ∧ is_deny s = true) ->
  (¬ ∃ s, attached_statement st subs b s ∧ matches s req = true ∧ is_escalate s = true) ->
  attached_statement st subs b s -> matches s req = true -> is_permit s = true.
Proof.
  intros Hd He Ha Hm. unfold is_permit.
  destruct (is_deny s) eqn:E1; [exfalso; eauto|]. destruct (is_escalate s) eqn:E2; [exfalso; eauto|done].
Qed.

(** An allow of the guard is grounded in the store, whatever implements the storage contract:
    some valid policy stored and attached to a user, group or role subject of the principal permits
    the request, no matching statement of an attached policy (of the principal or of its token)
    denies or escalates, and no taint rule is violated. *)
Theorem Decide_allow_grounded st o c1 c2 p req (Hv : st_valid st)
  (Ha : d_allowed (Decide st o c1 c2 p req).1 = true) :
  let e := opt_evaluator o in
  ∃ subs, decide_subjects o p = Some subs
    ∧ (∃ s, attached_statement st subs false s ∧ matches s (prepare e c1 req) = true
            ∧ is_permit s = true)
    ∧ (∀ s, attached_statement st subs false s -> matches s (prepare e c1 req) = true ->
            is_permit s = true)
    ∧ (∀ s, attached_statement st subs true s -> matches s (prepare e c2 req) = true ->
            is_permit s = true)
    ∧ ¬ ∃ r, r ∈ ev_taint e ∧ rule_violated (prepare e c1 req) r.
Proof.
  apply Decide_allowed_Ok in Ha as (d & Hd & Ha).
  apply Decide_Ok in Hd as (subs & l & I & B & Hsubs & Hl & Hsplit & ->).
  exists subs. split; [done|].
  assert (HI : ∀ p, Some p ∈ I ↔ _) by (intros p'; rewrite (proj1 (split_attached_spec _ _ _ _ _ Hsplit p'));
    rewrite elem_of_nil; apply left_id, _).
  assert (HB : ∀ p, Some p ∈ B ↔ _) by (intros p'; rewrite (proj2 (split_attached_spec _ _ _ _ _ Hsplit p'));
    rewrite elem_of_nil; apply left_id, _).
  unfold EvaluateWithBoundary in Ha. revert Ha.
  destruct (d_allowed (Evaluate _ c1 req I)) eqn:He; simpl; [|congruence]. intros Ha.
  pose proof He as He'. unfold Evaluate in He. apply applyTaint_allowed in He as [He Htaint];
    [|apply evaluate_allowed_effect].
  apply evaluate_allowed in He as (Hp & Hnd & Hne & _).
  rewrite (any_match_attached _ _ _ _ _ _ _ Hv Hl HI) in Hp.
  rewrite (any_match_attached _ _ _ _ _ _ _ Hv Hl HI) in Hnd.
  rewrite (any_match_attached _ _ _ _ _ _ _ Hv Hl HI) in Hne.
  split_and!; [done|eauto using no_deny_escalate_permit| |done].
  intros s Hs Hm. revert Ha. case_bool_decide as EB.
  - exfalso. assert (Hx : any_match (prepare (opt_evaluator o) c2 req) (λ _, true) B)
      by (apply (any_match_attached _ _ _ _ _ _ _ Hv Hl HB); eauto).
    destruct Hx as (? & ? & Hin & _). rewrite EB in Hin. by apply elem_of_nil in Hin.
  - destruct (d_allowed (evaluate _ _ B)) eqn:Hb; [intros _|done].
    apply evaluate_allowed in Hb as (_ & Hnd2 & Hne2 & _).
    rewrite (any_match_attached _ _ _ _ _ _ _ Hv Hl HB) in Hnd2.
    rewrite (any_match_attached _ _ _ _ _ _ _ Hv Hl HB) in Hne2.
    eauto using no_deny_escalate_permit.
Qed.

(** The middleware fails closed: the next handler runs exactly when the caller is
    authenticated, the decision was reached without an error and it allows; a failure to resolve
    subjects, load or parse policies answers 500 and no allow is ever audited for it. *)
Theorem RequirePolicy_next_iff st o auth resourceFn c1 c2 action r d :
  (RequirePolicy st o auth resourceFn c1 c2 action r).2 = Next d ↔
  ∃ r' p, auth r = Some (r', p)
    ∧ Decide st o c1 c2 p (request o r' p action (resourceFn r')) = (d, None)
    ∧ d_allowed d = true.
Proof.
  unfold RequirePolicy. destruct (auth r) as [[r' p]|]; [|naive_solver].
  destruct (Decide _ _ _ _ _ _) as [d' [err|]] eqn:Hd.
  { split; [done|]. intros (? & ? & [= <- <-] & E & _). congruence. }
  assert (Heff : d_allowed d' = true -> (d_effect d' =? Escalate)%string = false).
  { apply Decide_Ok in Hd as (subs & l & I & B & _ & _ & _ & ->). intros Ha.
    by apply String.eqb_neq, EvaluateWithBoundary_effect. }
  trans (d' = d ∧ d_allowed d' = true).
  2: { split; [intros [<- ?]; eauto|]. intros (? & ? & [= <- <-] & E & ?). split; congruence. }
  destruct (d_allowed d') eqn:Ha; [rewrite (Heff eq_refl)|]; simpl; repeat case_match; simpl;
    intuition congruence.
Qed.
End GuardProofs.

(** Over the in-process store the guard always reaches a decision: whatever operations built
    the store, [Decide] returns no error unless the subject callback failed. *)
Theorem Decide_memory_total `{GoLib} ops o c1 c2 p req subs
  (Hsubs : decide_subjects o p = Some subs) :
  (Decide (fold_left apply_op ops NewMemory) o c1 c2 p req).2 = None.
Proof.
  pose proof (reachable_ok ops) as Hok. unfold Decide. rewrite Hsubs. simpl.
  destruct (split_attached _ [] []) as [[I B]|e] eqn:E; [done|].
  apply split_attached_error in E as (a & e' & Ha & He).
  apply (PoliciesFor_elem _ _ _ Hok) in Ha as (_ & _ & Hr).
  apply (ok_policies _ Hok) in Hr as (_ & _ & doc & Hdoc). congruence.
Qed.

(** ** Witnesses *)

Definition demo_options : Options := mkOptions true false None None None demo_evaluator.
Definition demo_principal : Principal := mkPrincipal "user" "u1" (Some "t1") "" None.
Definition demo_http : HttpRequest := mkHttpRequest "[::1]:80".

(** A store with one valid policy attached to the user and to the token, and a rejected document. *)
Definition demo_ops : list mem_op :=
  [OpPut 5 (mkRecord "r" "readers" "readers" 0 0); OpPut 6 (mkRecord "bad" "" "not a policy" 0 0);
   OpAttach (mkSubject SubjectUser "u1") "r"; OpAttach (mkSubject SubjectToken "t1") "r";
   OpAttach (mkSubject SubjectUser "u1") "bad"].
Definition demo_store : Memory := fold_left apply_op demo_ops NewMemory.

Lemma Decide_allow_grounded_witness :
  ∃ s, attached_statement demo_store (PrincipalSubjects demo_principal) false s
    ∧ matches s demo_request = true ∧ is_permit s = true.
Proof.
  assert (Hv : st_valid demo_store) by exact (reachable_ok demo_ops).
  assert (Ha : d_allowed (Decide demo_store demo_options 7 7 demo_principal demo_request).1 = true)
    by (vm_compute; reflexivity).
  destruct (Decide_allow_grounded demo_store demo_options 7 7 demo_principal demo_request
              Hv Ha) as (subs & [= <-] & Hs & _).
  exact Hs.
Defined.

Lemma Decide_memory_total_witness :
  (Decide demo_store demo_options 7 7 demo_principal demo_request).2 = None.
Proof.
  exact (Decide_memory_total demo_ops demo_options 7 7 demo_principal demo_request
           (PrincipalSubjects demo_principal) eq_refl).
Defined.

Example demo_guard_allows :
  (RequirePolicy demo_store demo_options (fun r => Some (r, demo_principal))
     (fun _ => mkResource "doc:9" {["user" := "9"]} (S754_zero false) "" "" false) 7 7 "read" demo_http).2
  = Next (allow_decision "r" 0 demo_allow).
Proof. vm_compute. reflexivity. Qed.
