(* ===== verification/Merkle.v ===== *)
(** * RFC 6962 Merkle trees ([audit/checkpoint/merkle.go])

    Tree heads, inclusion and consistency paths over leaf hashes, and their verifiers. Byte slices
    are strings, sizes and indices are integers. SHA-256 is the parameter of the class [Sha256]:
    the code relies on its digests being 32 bytes long, and soundness is stated up to an explicit
    collision of it. Loops that shift a cursor run with fuel equal to the bit length of the cursor,
    the recursions over leaves with fuel equal to their number; the unfolding equations below show
    that the fuel never runs out. *)

From Stdlib Require Import ZArith Lia String Ascii.
From stdpp Require Import base sets strings list.
From S2P Require Import Prelude.

Set Default Goal Selector "!".
Open Scope string_scope.
Open Scope list_scope.
Open Scope Z_scope.

Class Sha256 := {
  sha256 : string -> string;
  sha256_length : ∀ s, String.length (sha256 s) = 32%nat;
}.

Definition hashBytes : nat := 32.

Section Merkle.
Context `{Sha256}.

Definition LeafHash (data : string) : string := sha256 (String "000"%char data).

Definition NodeHash (left right : string) : string :=
  sha256 (String "001"%char (left +:+ right)).

Fixpoint splitPoint_loop (fuel : nat) (k n : Z) : Z :=
  match fuel with
  | O => k
  | S fuel' => if k * 2 <? n then splitPoint_loop fuel' (k * 2) n else k
  end.

Definition splitPoint (n : Z) : Z := splitPoint_loop (Z.to_nat (Z.log2 n)) 1 n.

Definition isPowerOfTwo (n : Z) : bool := (0 <? n) && (Z.land n (n - 1) =? 0).

Definition zlen {A} (l : list A) : Z := Z.of_nat (length l).
Definition ztake {A} (k : Z) (l : list A) : list A := take (Z.to_nat k) l.
Definition zdrop {A} (k : Z) (l : list A) : list A := drop (Z.to_nat k) l.

Fixpoint MerkleRoot_fuel (fuel : nat) (leaves : list string) : string :=
  match leaves with
  | [] => sha256 ""
  | [h] => h
  | _ =>
      let k := splitPoint (zlen leaves) in
      match fuel with
      | O => ""
      | S fuel' =>
          NodeHash (MerkleRoot_fuel fuel' (ztake k leaves)) (MerkleRoot_fuel fuel' (zdrop k leaves))
      end
  end.

Definition MerkleRoot (leaves : list string) : string := MerkleRoot_fuel (length leaves) leaves.

Fixpoint InclusionPath_fuel (fuel : nat) (leaves : list string) (index : Z) : option (list string) :=
  let n := zlen leaves in
  if (index <? 0) || (n <=? index) then None
  else if n =? 1 then Some []
  else
    let k := splitPoint n in
    match fuel with
    | O => None
    | S fuel' =>
        if index <? k then
          sub ← InclusionPath_fuel fuel' (ztake k leaves) index;
          Some (sub ++ [MerkleRoot (zdrop k leaves)])
        else
          sub ← InclusionPath_fuel fuel' (zdrop k leaves) (index - k);
          Some (sub ++ [MerkleRoot (ztake k leaves)])
    end.

Definition InclusionPath (leaves : list string) (index : Z) : option (list string) :=
  InclusionPath_fuel (length leaves) leaves index.

Fixpoint subProof_fuel (fuel : nat) (m : Z) (leaves : list string) (complete : bool) : list string :=
  let n := zlen leaves in
  if m =? n then (if complete then [] else [MerkleRoot leaves])
  else
    let k := splitPoint n in
    match fuel with
    | O => []
    | S fuel' =>
        if m <=? k
        then subProof_fuel fuel' m (ztake k leaves) complete ++ [MerkleRoot (zdrop k leaves)]
        else subProof_fuel fuel' (m - k) (zdrop k leaves) false ++ [MerkleRoot (ztake k leaves)]
    end.

Definition subProof (m : Z) (leaves : list string) (complete : bool) : list string :=
  subProof_fuel (length leaves) m leaves complete.

Definition ConsistencyPath (leaves : list string) (oldSize : Z) : option (list string) :=
  let n := zlen leaves in
  if (oldSize <? 0) || (n <? oldSize) then None
  else if (oldSize =? 0) || (oldSize =? n) then Some []
  else Some (subProof oldSize leaves true).

(** The number of significant bits of a cursor, enough to shift it to zero. *)
Definition bits (f : Z) : nat := Z.to_nat (Z.log2 f + 1).

Fixpoint skip_loop (fuel : nat) (fn sn : Z) : Z * Z :=
  match fuel with
  | O => (fn, sn)
  | S fuel' =>
      if (Z.land fn 1 =? 0) && negb (fn =? 0)
      then skip_loop fuel' (Z.shiftr fn 1) (Z.shiftr sn 1)
      else (fn, sn)
  end.

Definition skipEvenLevels (fn sn : Z) : Z * Z := skip_loop (bits fn) fn sn.

(** One iteration of the loop of [RootFromInclusion]; [None] when the path is too long. *)
Definition inclusion_step (st : string * Z * Z) (p : string) : option (string * Z * Z) :=
  let '(r, fn, sn) := st in
  if sn =? 0 then None
  else
    let '(r, (fn, sn)) :=
      if (Z.land fn 1 =? 1) || (fn =? sn)
      then (NodeHash p r, skipEvenLevels fn sn)
      else (NodeHash r p, (fn, sn)) in
    Some (r, Z.shiftr fn 1, Z.shiftr sn 1).

Fixpoint inclusion_loop (st : string * Z * Z) (path : list string) : option (string * Z * Z) :=
  match path with
  | [] => Some st
  | p :: path' => st' ← inclusion_step st p; inclusion_loop st' path'
  end.

Definition RootFromInclusion (leafHash : string) (index size : Z) (path : list string)
  : option string :=
  if (index <? 0) || (size <=? index) then None
  else match inclusion_loop (leafHash, index, size - 1) path with
  | None => None
  | Some (r, _, sn) => if negb (sn =? 0) then None else Some r
  end.

Definition is_hash (h : string) : bool := (String.length h =? hashBytes)%nat.
Definition allHashes (path : list string) : bool := forallb is_hash path.

Definition VerifyInclusionPath (leafHash : string) (index size : Z) (path : list string)
  (root : string) : bool :=
  if negb (is_hash leafHash) || negb (is_hash root) || negb (allHashes path) then false
  else match RootFromInclusion leafHash index size path with
  | None => false
  | Some got => (got =? root)%string
  end.

(** [Some result] when the case needs no hashing. *)
Definition consistencyTrivial (oldSize newSize : Z) (oldRoot newRoot : string) (path : list string)
  : option bool :=
  if (oldSize <? 0) || (newSize <? oldSize) then Some false
  else if negb (is_hash oldRoot) || negb (is_hash newRoot) || negb (allHashes path) then Some false
  else if oldSize =? newSize then Some (bool_decide (path = []) && (oldRoot =? newRoot)%string)
  else if oldSize =? 0 then Some (bool_decide (path = []))
  else None.

Fixpoint strip_loop (fuel : nat) (fn sn : Z) : Z * Z :=
  match fuel with
  | O => (fn, sn)
  | S fuel' =>
      if Z.land fn 1 =? 1 then strip_loop fuel' (Z.shiftr fn 1) (Z.shiftr sn 1) else (fn, sn)
  end.

Definition consistency_step (st : string * string * Z * Z) (c : string)
  : option (string * string * Z * Z) :=
  let '(fr, sr, fn, sn) := st in
  if sn =? 0 then None
  else
    let '(fr, sr, (fn, sn)) :=
      if (Z.land fn 1 =? 1) || (fn =? sn)
      then (NodeHash c fr, NodeHash c sr, skipEvenLevels fn sn)
      else (fr, NodeHash sr c, (fn, sn)) in
    Some (fr, sr, Z.shiftr fn 1, Z.shiftr sn 1).

Fixpoint consistency_loop (st : string * string * Z * Z) (path : list string)
  : option (string * string * Z * Z) :=
  match path with
  | [] => Some st
  | c :: path' => st' ← consistency_step st c; consistency_loop st' path'
  end.

Definition foldConsistency (fn sn : Z) (node : string) (nodes : list string)
  : option (string * string * Z) :=
  let '(fn, sn) := strip_loop (bits fn) fn sn in
  '(fr, sr, _, sn) ← consistency_loop (node, node, fn, sn) nodes; Some (fr, sr, sn).

Definition VerifyConsistencyPath (oldSize newSize : Z) (oldRoot newRoot : string)
  (path : list string) : bool :=
  match consistencyTrivial oldSize newSize oldRoot newRoot path with
  | Some result => result
  | None =>
      let nodes := (if isPowerOfTwo oldSize then [oldRoot] else []) ++ path in
      match nodes with
      | [] => false
      | node :: nodes' =>
          match foldConsistency (oldSize - 1) (newSize - 1) node nodes' with
          | None => false
          | Some (fr, sr, sn) => (sn =? 0) && (fr =? oldRoot)%string && (sr =? newRoot)%string
          end
      end
  end.

(** ** The split point *)

Lemma splitPoint_loop_spec fuel e n :
  0 <= e -> 2 ^ e < n -> n <= 2 ^ (e + 1 + Z.of_nat fuel) ->
  ∃ e', 0 <= e' ∧ splitPoint_loop fuel (2 ^ e) n = 2 ^ e' ∧ 2 ^ e' < n <= 2 * 2 ^ e'.
Proof.
  revert e. induction fuel as [|fuel IH]; intros e He Hlt Hn; simpl.
  - exists e. replace (e + 1 + Z.of_nat 0) with (Z.succ e) in Hn by lia.
    rewrite Z.pow_succ_r in Hn by done. done.
  - destruct (Z.ltb_spec (2 ^ e * 2) n).
    + replace (2 ^ e * 2) with (2 ^ (e + 1)) in * by (rewrite Z.pow_add_r by lia; lia).
      apply IH; [lia|lia|]. replace (e + 1 + 1 + Z.of_nat fuel) with (e + 1 + Z.of_nat (S fuel)) by lia. done.
    + exists e. lia.
Qed.

(** The split point is a power of two [2 ^ e] with [2 ^ e < n <= 2 ^ (e + 1)]. *)
Lemma splitPoint_spec n :
  2 <= n -> ∃ e, 0 <= e ∧ splitPoint n = 2 ^ e ∧ 2 ^ e < n <= 2 * 2 ^ e.
Proof.
  intros Hn. unfold splitPoint. apply (splitPoint_loop_spec _ 0 n); [lia|simpl; lia|].
  pose proof (Z.log2_spec n ltac:(lia)) as [_ Hl]. pose proof (Z.log2_nonneg n).
  rewrite Z2Nat.id by done. replace (0 + 1 + Z.log2 n) with (Z.succ (Z.log2 n)) by lia. lia.
Qed.

Lemma pow2_unique e e' n :
  0 <= e -> 0 <= e' -> 2 ^ e < n <= 2 * 2 ^ e -> 2 ^ e' < n <= 2 * 2 ^ e' -> e = e'.
Proof.
  intros He He' [H1 H2] [H3 H4]. rewrite <- Z.pow_succ_r in H2, H4 by done.
  assert (2 ^ e < 2 ^ Z.succ e') as Ha%Z.pow_lt_mono_r_iff by lia; [|lia..].
  assert (2 ^ e' < 2 ^ Z.succ e) as Hb%Z.pow_lt_mono_r_iff by lia; lia.
Qed.

Lemma splitPoint_unique n e : 0 <= e -> 2 ^ e < n <= 2 * 2 ^ e -> splitPoint n = 2 ^ e.
Proof.
  intros He Hn. assert (2 <= n) as H2 by (pose proof (Z.pow_pos_nonneg 2 e); lia).
  destruct (splitPoint_spec n H2) as (e' & He' & -> & Hn'). f_equal. by eapply pow2_unique.
Qed.

Lemma splitPoint_bounds n : 2 <= n -> 1 <= splitPoint n < n.
Proof.
  intros Hn. destruct (splitPoint_spec n Hn) as (e & He & -> & ?).
  pose proof (Z.pow_pos_nonneg 2 e). lia.
Qed.

(** ** Unfolding equations: the fuel is enough *)

Lemma zlen_nonneg {A} (l : list A) : 0 <= zlen l.
Proof. unfold zlen. lia. Qed.

Lemma zlen_take {A} k (l : list A) : 0 <= k <= zlen l -> zlen (ztake k l) = k.
Proof. unfold zlen, ztake. rewrite length_take. lia. Qed.

Lemma zlen_drop {A} k (l : list A) : 0 <= k <= zlen l -> zlen (zdrop k l) = zlen l - k.
Proof. unfold zlen, zdrop. rewrite length_drop. lia. Qed.

Lemma take_drop_z {A} k (l : list A) : ztake k l ++ zdrop k l = l.
Proof. apply take_drop. Qed.

Lemma leaves_cases (l : list string) :
  l = [] ∨ (∃ h, l = [h]) ∨ 2 <= zlen l.
Proof. unfold zlen. destruct l as [|h [|h' l]]; simpl; eauto. right; right. lia. Qed.

Lemma MerkleRoot_fuel_step fuel l :
  2 <= zlen l ->
  MerkleRoot_fuel (S fuel) l =
  NodeHash (MerkleRoot_fuel fuel (ztake (splitPoint (zlen l)) l))
           (MerkleRoot_fuel fuel (zdrop (splitPoint (zlen l)) l)).
Proof. destruct l as [|h [|h' l]]; unfold zlen; simpl; intros; done || lia. Qed.

Lemma split_lengths {A} (l : list A) :
  2 <= zlen l ->
  (length (ztake (splitPoint (zlen l)) l) < length l
   ∧ length (zdrop (splitPoint (zlen l)) l) < length l)%nat.
Proof.
  intros Hl. pose proof (splitPoint_bounds _ Hl). unfold ztake, zdrop.
  rewrite length_take, length_drop. unfold zlen in *. lia.
Qed.

Lemma MerkleRoot_fuel_enough fuel fuel' l :
  (length l <= fuel)%nat -> (length l <= fuel')%nat ->
  MerkleRoot_fuel fuel l = MerkleRoot_fuel fuel' l.
Proof.
  revert fuel' l. induction fuel as [|fuel IH]; intros fuel' l Hf Hf'.
  - destruct l; [|simpl in Hf; lia]. by destruct fuel'.
  - destruct (leaves_cases l) as [->|[[h ->]|Hl]]; [by destruct fuel'..|].
    pose proof (split_lengths l Hl).
    destruct fuel' as [|fuel']; [unfold zlen in *; lia|].
    rewrite !MerkleRoot_fuel_step by done. f_equal; apply IH; lia.
Qed.

Lemma MerkleRoot_split l :
  2 <= zlen l ->
  MerkleRoot l = NodeHash (MerkleRoot (ztake (splitPoint (zlen l)) l))
                          (MerkleRoot (zdrop (splitPoint (zlen l)) l)).
Proof.
  intros Hl. pose proof (split_lengths l Hl). unfold MerkleRoot at 1.
  destruct (length l) as [|n] eqn:E; [unfold zlen in *; lia|].
  rewrite MerkleRoot_fuel_step by done. f_equal; apply MerkleRoot_fuel_enough; lia.
Qed.

Lemma InclusionPath_fuel_enough fuel fuel' l i :
  (length l <= fuel)%nat -> (length l <= fuel')%nat ->
  InclusionPath_fuel fuel l i = InclusionPath_fuel fuel' l i.
Proof.
  revert fuel' l i. induction fuel as [|fuel IH]; intros fuel' l i Hf Hf'.
  - destruct l; [|simpl in Hf; lia]. destruct fuel'; simpl;
      destruct (Z.ltb_spec i 0), (Z.leb_spec (zlen (A:=string) []) i); unfold zlen in *; simpl in *; done || lia.
  - assert (H1 : (i <? 0) || (zlen l <=? i) = true \/ zlen l = 1 \/ 2 <= zlen l).
    { destruct (Z.ltb_spec i 0), (Z.leb_spec (zlen l) i); simpl; auto. right. pose proof (zlen_nonneg l). lia. }
    destruct H1 as [H1|[H1|H1]].
    + simpl. destruct fuel'; simpl; by rewrite H1.
    + simpl. destruct fuel'; simpl; rewrite H1; done.
    + pose proof (split_lengths l H1). destruct fuel' as [|fuel']; [unfold zlen in *; lia|].
      simpl. by rewrite !(IH fuel') by lia.
Qed.

Lemma InclusionPath_split l i :
  2 <= zlen l -> 0 <= i < zlen l ->
  InclusionPath l i =
  let k := splitPoint (zlen l) in
  if i <? k then sub ← InclusionPath (ztake k l) i; Some (sub ++ [MerkleRoot (zdrop k l)])
  else sub ← InclusionPath (zdrop k l) (i - k); Some (sub ++ [MerkleRoot (ztake k l)]).
Proof.
  intros Hl Hi. pose proof (split_lengths l Hl). unfold InclusionPath at 1.
  destruct (length l) as [|n] eqn:E; [unfold zlen in *; lia|]. simpl.
  destruct (Z.ltb_spec i 0), (Z.leb_spec (zlen l) i), (Z.eqb_spec (zlen l) 1); try lia. simpl.
  unfold InclusionPath.
  rewrite (InclusionPath_fuel_enough n (length (ztake (splitPoint (zlen l)) l))) by lia.
  by rewrite (InclusionPath_fuel_enough n (length (zdrop (splitPoint (zlen l)) l))) by lia.
Qed.

Lemma subProof_fuel_enough fuel fuel' m l b :
  0 < m <= zlen l -> (length l <= fuel)%nat -> (length l <= fuel')%nat ->
  subProof_fuel fuel m l b = subProof_fuel fuel' m l b.
Proof.
  revert fuel' m l b. induction fuel as [|fuel IH]; intros fuel' m l b Hm Hf Hf'; [unfold zlen in *; lia|].
  destruct fuel' as [|fuel']; [unfold zlen in *; lia|]. simpl.
  destruct (Z.eqb_spec m (zlen l)); [done|].
  assert (Hl : 2 <= zlen l) by lia.
  pose proof (split_lengths l Hl). pose proof (splitPoint_bounds _ Hl).
  destruct (Z.leb_spec m (splitPoint (zlen l))); f_equal; apply IH; try lia.
  - rewrite zlen_take; lia.
  - rewrite zlen_drop; lia.
Qed.

Lemma subProof_split m l b :
  0 < m < zlen l ->
  subProof m l b =
  let k := splitPoint (zlen l) in
  if m <=? k then subProof m (ztake k l) b ++ [MerkleRoot (zdrop k l)]
  else subProof (m - k) (zdrop k l) false ++ [MerkleRoot (ztake k l)].
Proof.
  intros Hm. assert (Hl : 2 <= zlen l) by lia.
  pose proof (split_lengths l Hl). pose proof (splitPoint_bounds _ Hl). unfold subProof at 1.
  destruct (length l) as [|n] eqn:E; [unfold zlen in *; lia|]. simpl.
  destruct (Z.eqb_spec m (zlen l)); [lia|]. unfold subProof.
  destruct (Z.leb_spec m (splitPoint (zlen l))); f_equal; apply subProof_fuel_enough; try lia.
  - rewrite zlen_take; lia.
  - rewrite zlen_drop; lia.
Qed.

Lemma subProof_full l b : subProof (zlen l) l b = if b then [] else [MerkleRoot l].
Proof. unfold subProof. destruct (length l); simpl; by rewrite Z.eqb_refl. Qed.

(** ** Cursor moves

    Both verifiers move the cursor pair [(fn, sn)] the same way and only differ in what they hash, so
    the arithmetic is done once, on the sequence of sides ([true] when the path element is on the
    left). *)

Definition cursor_step (f s : Z) : option (bool * Z * Z) :=
  if s =? 0 then None
  else if (Z.land f 1 =? 1) || (f =? s)
  then let '(f, s) := skipEvenLevels f s in Some (true, Z.shiftr f 1, Z.shiftr s 1)
  else Some (false, Z.shiftr f 1, Z.shiftr s 1).

Fixpoint moves (f s : Z) (n : nat) : option (list bool * Z * Z) :=
  match n with
  | O => Some ([], f, s)
  | S n' =>
      match cursor_step f s with
      | None => None
      | Some (b, f, s) =>
          match moves f s n' with
          | None => None
          | Some (bs, f, s) => Some (b :: bs, f, s)
          end
      end
  end.

Definition join (b : bool) (p r : string) : string := if b then NodeHash p r else NodeHash r p.

Fixpoint climb (r : string) (bs : list bool) (path : list string) : string :=
  match bs, path with
  | b :: bs', p :: path' => climb (join b p r) bs' path'
  | _, _ => r
  end.

Fixpoint climb_old (r : string) (bs : list bool) (path : list string) : string :=
  match bs, path with
  | b :: bs', p :: path' => climb_old (if b then NodeHash p r else r) bs' path'
  | _, _ => r
  end.

Lemma inclusion_loop_moves r f s path :
  inclusion_loop (r, f, s) path =
  match moves f s (length path) with
  | None => None
  | Some (bs, f', s') => Some (climb r bs path, f', s')
  end.
Proof.
  revert r f s. induction path as [|p path IH]; intros r f s; simpl; [done|].
  unfold cursor_step. destruct (s =? 0); [done|].
  destruct ((Z.land f 1 =? 1) || (f =? s)); [destruct (skipEvenLevels f s) as [f' s']|]; simpl;
    rewrite IH; by destruct (moves _ _ _) as [[[? ?] ?]|].
Qed.

Lemma consistency_loop_moves fr sr f s path :
  consistency_loop (fr, sr, f, s) path =
  match moves f s (length path) with
  | None => None
  | Some (bs, f', s') => Some (climb_old fr bs path, climb sr bs path, f', s')
  end.
Proof.
  revert fr sr f s. induction path as [|p path IH]; intros fr sr f s; simpl; [done|].
  unfold cursor_step. destruct (s =? 0); [done|].
  destruct ((Z.land f 1 =? 1) || (f =? s)); [destruct (skipEvenLevels f s) as [f' s']|]; simpl;
    rewrite IH; by destruct (moves _ _ _) as [[[? ?] ?]|].
Qed.

Lemma moves_length f s n bs f' s' : moves f s n = Some (bs, f', s') -> length bs = n.
Proof.
  revert f s bs. induction n as [|n IH]; intros f s bs; simpl; [naive_solver|].
  destruct (cursor_step f s) as [[[b f1] s1]|]; [|done].
  destruct (moves f1 s1 n) as [[[bs1 f2] s2]|] eqn:E; [|done]. intros [= <- <- <-]. simpl.
  f_equal. eauto.
Qed.

Lemma moves_app f s n1 n2 :
  moves f s (n1 + n2) =
  match moves f s n1 with
  | None => None
  | Some (bs, f1, s1) =>
      match moves f1 s1 n2 with
      | None => None
      | Some (bs', f2, s2) => Some (bs ++ bs', f2, s2)
      end
  end.
Proof.
  revert f s. induction n1 as [|n1 IH]; intros f s; simpl.
  - by destruct (moves f s n2) as [[[? ?] ?]|].
  - destruct (cursor_step f s) as [[[b f1] s1]|]; [|done]. rewrite IH.
    destruct (moves f1 s1 n1) as [[[bs f2] s2]|]; [|done].
    by destruct (moves f2 s2 n2) as [[[? ?] ?]|].
Qed.

Lemma climb_snoc r bs b path p :
  length bs = length path -> climb r (bs ++ [b]) (path ++ [p]) = join b p (climb r bs path).
Proof.
  revert r path. induction bs as [|b' bs IH]; intros r [|p' path]; simpl; [done..|].
  intros [= Hl]. by apply IH.
Qed.

Lemma climb_old_snoc r bs b path p :
  length bs = length path ->
  climb_old r (bs ++ [b]) (path ++ [p]) =
  if b then NodeHash p (climb_old r bs path) else climb_old r bs path.
Proof.
  revert r path. induction bs as [|b' bs IH]; intros r [|p' path]; simpl; [done..|].
  intros [= Hl]. by apply IH.
Qed.

Lemma land1 f : Z.land f 1 = f mod 2.
Proof. change 1 with (Z.ones 1) at 1. by rewrite Z.land_ones. Qed.

Lemma shr1 f : Z.shiftr f 1 = f / 2.
Proof. by rewrite Z.shiftr_div_pow2. Qed.

Lemma bits_double f : 0 < f -> bits (2 * f) = S (bits f).
Proof.
  intros Hf. unfold bits. rewrite Z.log2_double by done. pose proof (Z.log2_nonneg f). lia.
Qed.

Lemma bits_succ_double f : 0 < f -> bits (2 * f + 1) = S (bits f).
Proof.
  intros Hf. unfold bits. rewrite Z.log2_succ_double by done. pose proof (Z.log2_nonneg f). lia.
Qed.

Lemma skip_even f s : 0 < f -> skipEvenLevels (2 * f) s = skipEvenLevels f (s / 2).
Proof.
  intros Hf. unfold skipEvenLevels at 1. rewrite bits_double by done. simpl.
  rewrite land1, !shr1. rewrite (Z.mul_comm 2 f), Z.mod_mul by done.
  destruct (Z.eqb_spec (f * 2) 0); [lia|]. simpl. by rewrite Z.div_mul.
Qed.

Lemma skip_odd f s : f mod 2 = 1 -> skipEvenLevels f s = (f, s).
Proof. intros Hf. unfold skipEvenLevels. destruct (bits f); simpl; [done|]. by rewrite land1, Hf. Qed.

(** Skipping on equal non zero cursors ends on equal odd cursors, and runs in step with the same
    cursors under an extra top bit. *)
Lemma skip_equal d f :
  0 < f < 2 ^ d -> 0 <= d ->
  ∃ d' g, 0 < g < 2 ^ d' ∧ 0 < d' ∧ g mod 2 = 1 ∧ skipEvenLevels f f = (g, g)
    ∧ skipEvenLevels (f + 2 ^ d) (f + 2 ^ d) = (g + 2 ^ d', g + 2 ^ d').
Proof.
  intros Hf Hd. revert d Hd f Hf. refine (natlike_ind _ _ _); [simpl; lia|].
  intros d Hd IH f Hf. rewrite Z.pow_succ_r in * by done.
  destruct (Z.eq_dec (f mod 2) 0) as [He|Ho].
  - apply Z.div_exact in He; [|done]. set (h := f / 2) in *. rewrite He in *.
    destruct (IH h ltac:(lia)) as (d' & g & Hg & Hd' & Hgo & Hs1 & Hs2). exists d', g.
    rewrite <- Z.mul_add_distr_l, !skip_even by lia.
    rewrite !(Z.mul_comm 2), !Z.div_mul by done. done.
  - exists (Z.succ d), f. rewrite Z.pow_succ_r by done.
    assert (f mod 2 = 1) by (pose proof (Z.mod_pos_bound f 2); lia).
    assert ((f + 2 * 2 ^ d) mod 2 = 1) by (by rewrite (Z.mul_comm 2 (2 ^ d)), Z.mod_add).
    rewrite !skip_odd by done. split_and!; done || lia.
Qed.

Lemma skip_pow d : 0 <= d -> skipEvenLevels (2 ^ d) (2 ^ d) = (1, 1).
Proof.
  revert d. refine (natlike_ind _ _ _); [done|]. intros d Hd IH.
  rewrite Z.pow_succ_r, skip_even by (done || by apply Z.pow_pos_nonneg).
  by rewrite (Z.mul_comm 2), Z.div_mul.
Qed.

Lemma cursor_top d : 0 <= d -> cursor_step (2 ^ d) (2 ^ d) = Some (true, 0, 0).
Proof.
  intros Hd. unfold cursor_step. pose proof (Z.pow_pos_nonneg 2 d).
  destruct (Z.eqb_spec (2 ^ d) 0); [lia|]. by rewrite Z.eqb_refl, orb_true_r, skip_pow.
Qed.

(** Inside the left subtree of a larger tree the cursor moves as it does in the subtree alone. *)
Lemma cursor_left d f s' b f1 s1 :
  0 <= d -> 0 <= f < 2 ^ d -> 2 ^ d <= s' < 2 * 2 ^ d ->
  cursor_step f (2 ^ d - 1) = Some (b, f1, s1) ->
  ∃ d1 s1', 0 <= d1 ∧ 0 <= f1 < 2 ^ d1 ∧ s1 = 2 ^ d1 - 1 ∧ 2 ^ d1 <= s1' < 2 * 2 ^ d1
    ∧ cursor_step f s' = Some (b, f1, s1').
Proof.
  intros Hd Hf Hs Hstep. destruct (Z.eq_dec d 0) as [->|Hd0]; [done|].
  replace d with (Z.succ (d - 1)) in * by lia. set (d1 := d - 1) in *.
  rewrite Z.pow_succ_r in * by lia. set (P := 2 ^ d1) in *.
  assert (Hodd : (Z.land f 1 =? 1) || (f =? 2 * P - 1) = (f mod 2 =? 1)).
  { rewrite land1. destruct (Z.eqb_spec f (2 * P - 1)), (Z.eqb_spec (f mod 2) 1); simpl; try done.
    Z.div_mod_to_equations. lia. }
  revert Hstep. unfold cursor_step. rewrite Hodd, land1, !shr1.
  destruct (Z.eqb_spec (2 * P - 1) 0), (Z.eqb_spec s' 0), (Z.eqb_spec f s'); try lia.
  rewrite orb_false_r. intros Hstep. exists d1, (s' / 2). destruct (Z.eqb_spec (f mod 2) 1) as [Ho|Ho].
  - rewrite !skip_odd, !shr1 in * by done. injection Hstep as <- <- <-.
    fold P. split_and!; try done; try (Z.div_mod_to_equations; lia).
  - injection Hstep as <- <- <-. fold P. split_and!; try done; try (Z.div_mod_to_equations; lia).
Qed.

(** Inside the right subtree the cursor moves as in the subtree alone, with one more top bit. *)
Lemma cursor_right d f s b f1 s1 :
  0 <= d -> 0 <= f <= s -> s < 2 ^ d ->
  cursor_step f s = Some (b, f1, s1) ->
  ∃ d1, 0 <= d1 ∧ 0 <= f1 <= s1 ∧ s1 < 2 ^ d1
    ∧ cursor_step (f + 2 ^ d) (s + 2 ^ d) = Some (b, f1 + 2 ^ d1, s1 + 2 ^ d1).
Proof.
  intros Hd Hf Hs. unfold cursor_step. destruct (Z.eqb_spec s 0) as [|Hs0]; [done|].
  assert (Hd1 : 1 <= d) by (destruct (Z.eq_dec d 0) as [->|]; simpl in *; lia).
  destruct (Z.eqb_spec (s + 2 ^ d) 0); [lia|]. rewrite !land1.
  assert (HP : 2 ^ d = 2 * 2 ^ (d - 1)) by (rewrite <- Z.pow_succ_r by lia; f_equal; lia).
  assert (Hm : (f + 2 ^ d) mod 2 = f mod 2) by (rewrite HP, (Z.mul_comm 2), Z.mod_add; done).
  assert (He : (f + 2 ^ d =? s + 2 ^ d) = (f =? s)).
  { destruct (Z.eqb_spec f s), (Z.eqb_spec (f + 2 ^ d) (s + 2 ^ d)); done || lia. }
  rewrite Hm, He. clear Hm He.
  destruct (Z.eqb_spec (f mod 2) 1) as [Ho|Ho]; simpl; [|destruct (Z.eqb_spec f s) as [->|Hne]]; simpl.
  - rewrite !skip_odd by (done || rewrite HP, (Z.mul_comm 2), Z.mod_add; done). rewrite !shr1.
    intros [= <- <- <-]. exists (d - 1). rewrite HP, (Z.mul_comm 2), !Z.div_add by done.
    split_and!; try done; try (Z.div_mod_to_equations; lia).
  - destruct (skip_equal d s ltac:(lia) Hd) as (d' & g & Hg & Hd' & Hgo & -> & ->). rewrite !shr1.
    intros [= <- <- <-]. exists (d' - 1).
    assert (HP' : 2 ^ d' = 2 * 2 ^ (d' - 1)) by (rewrite <- Z.pow_succ_r by lia; f_equal; lia).
    rewrite HP', (Z.mul_comm 2), !Z.div_add by done.
    split_and!; try done; try (Z.div_mod_to_equations; lia).
  - rewrite !shr1. intros [= <- <- <-]. exists (d - 1). rewrite HP, (Z.mul_comm 2), !Z.div_add by done.
    split_and!; try done; try (Z.div_mod_to_equations; lia).
Qed.

Lemma moves_left n d f s' bs f1 s1 :
  0 <= d -> 0 <= f < 2 ^ d -> 2 ^ d <= s' < 2 * 2 ^ d ->
  moves f (2 ^ d - 1) n = Some (bs, f1, s1) ->
  ∃ d1 s1', 0 <= d1 ∧ s1 = 2 ^ d1 - 1 ∧ 2 ^ d1 <= s1' < 2 * 2 ^ d1
    ∧ moves f s' n = Some (bs, f1, s1').
Proof.
  revert d f s' bs. induction n as [|n IH]; intros d f s' bs Hd Hf Hs; simpl.
  - intros [= <- <- <-]. exists d, s'. done.
  - destruct (cursor_step f (2 ^ d - 1)) as [[[b f2] s2]|] eqn:E; [|done].
    apply (cursor_left d f s') in E as (d2 & s2' & Hd2 & Hf2 & -> & Hs2 & ->); [|done..].
    destruct (moves f2 (2 ^ d2 - 1) n) as [[[bs' f3] s3]|] eqn:E; [|done]. intros [= <- <- <-].
    apply (IH d2 f2 s2') in E as (d3 & s3' & Hd3 & -> & Hs3 & ->); [|done..]. eauto 10.
Qed.

Lemma moves_right n d f s bs f1 s1 :
  0 <= d -> 0 <= f <= s -> s < 2 ^ d ->
  moves f s n = Some (bs, f1, s1) ->
  ∃ d1, 0 <= d1 ∧ moves (f + 2 ^ d) (s + 2 ^ d) n = Some (bs, f1 + 2 ^ d1, s1 + 2 ^ d1).
Proof.
  revert d f s bs. induction n as [|n IH]; intros d f s bs Hd Hf Hs; simpl.
  - intros [= <- <- <-]. eauto.
  - destruct (cursor_step f s) as [[[b f2] s2]|] eqn:E; [|done].
    apply (cursor_right d f s) in E as (d2 & Hd2 & Hf2 & Hs2 & ->); [|done..].
    destruct (moves f2 s2 n) as [[[bs' f3] s3]|] eqn:E; [|done]. intros [= <- <- <-].
    apply (IH d2 f2 s2) in E as (d3 & Hd3 & ->); [|done..]. eauto.
Qed.

Definition strip (f s : Z) : Z * Z := strip_loop (bits f) f s.

Lemma strip_odd f s : 0 <= f -> strip (2 * f + 1) s = strip f (s / 2).
Proof.
  intros Hf. destruct (Z.eq_dec f 0) as [->|Hne];
    [change ((0, Z.shiftr s 1) = (0, s / 2)); by rewrite shr1|].
  unfold strip at 1. rewrite bits_succ_double by lia. simpl. rewrite land1, !shr1.
  replace ((2 * f + 1) mod 2) with 1 by (Z.div_mod_to_equations; lia).
  by replace ((2 * f + 1) / 2) with f by (Z.div_mod_to_equations; lia).
Qed.

Lemma strip_even f s : f mod 2 = 0 -> strip f s = (f, s).
Proof. intros Hf. unfold strip. destruct (bits f); simpl; [done|]. by rewrite land1, Hf. Qed.

Lemma parity f : f mod 2 = 0 ∨ ∃ h, f = 2 * h + 1.
Proof. destruct (Z.eq_dec (f mod 2) 0); [by left|right]. exists (f / 2). Z.div_mod_to_equations. lia. Qed.

Lemma strip_left d f s' :
  0 <= d -> 0 <= f < 2 ^ d -> 2 ^ d <= s' < 2 * 2 ^ d ->
  ∃ d1 f1 s1', 0 <= d1 ∧ 0 <= f1 < 2 ^ d1 ∧ 2 ^ d1 <= s1' < 2 * 2 ^ d1
    ∧ strip f (2 ^ d - 1) = (f1, 2 ^ d1 - 1) ∧ strip f s' = (f1, s1').
Proof.
  intros Hd. revert d Hd f s'. refine (natlike_ind _ _ _).
  - intros f s' Hf Hs. exists 0, 0, s'. replace f with 0 by (simpl in *; lia).
    rewrite !strip_even by done. split_and!; done || lia.
  - intros d Hd IH f s' Hf Hs. rewrite Z.pow_succ_r in * by done. destruct (parity f) as [He|[h ->]].
    + exists (Z.succ d), f, s'. rewrite !strip_even, Z.pow_succ_r by done. split_and!; done || lia.
    + rewrite !strip_odd by lia.
      replace ((2 * 2 ^ d - 1) / 2) with (2 ^ d - 1) by (Z.div_mod_to_equations; lia).
      apply IH; Z.div_mod_to_equations; lia.
Qed.

Lemma strip_right d f s :
  0 <= d -> 0 <= f <= s -> s < 2 ^ d -> f < 2 ^ d - 1 ->
  ∃ d1 f1 s1, 0 <= d1 ∧ 0 <= f1 <= s1 ∧ s1 < 2 ^ d1
    ∧ strip f s = (f1, s1) ∧ strip (f + 2 ^ d) (s + 2 ^ d) = (f1 + 2 ^ d1, s1 + 2 ^ d1).
Proof.
  intros Hd. revert d Hd f s. refine (natlike_ind _ _ _); [simpl; lia|].
  intros d Hd IH f s Hf Hs Hne. rewrite Z.pow_succ_r in * by done. destruct (parity f) as [He|[h ->]].
  - exists (Z.succ d), f, s. rewrite Z.pow_succ_r by done.
    assert ((f + 2 * 2 ^ d) mod 2 = 0) by (by rewrite (Z.mul_comm 2 (2 ^ d)), Z.mod_add).
    rewrite !strip_even by done. split_and!; done || lia.
  - replace (2 * h + 1 + 2 * 2 ^ d) with (2 * (h + 2 ^ d) + 1) by lia. rewrite !strip_odd by lia.
    rewrite (Z.mul_comm 2 (2 ^ d)), Z.div_add by done. apply IH; Z.div_mod_to_equations; lia.
Qed.

(** ** Routes

    The sides of a leaf's path, read off the tree from the top as [InclusionPath] does, and those
    of the old tree's last complete subtree as [subProof] does. *)

Inductive route : Z -> Z -> list bool -> Prop :=
  | route_leaf : route 0 1 []
  | route_left i n bs :
      2 <= n -> i < splitPoint n -> route i (splitPoint n) bs -> route i n (bs ++ [false])
  | route_right i n bs :
      2 <= n -> splitPoint n <= i -> route (i - splitPoint n) (n - splitPoint n) bs ->
      route i n (bs ++ [true]).

Inductive croute : Z -> Z -> list bool -> Prop :=
  | croute_full e : 0 <= e -> croute (2 ^ e) (2 ^ e) []
  | croute_left m n bs :
      2 <= n -> m <= splitPoint n -> croute m (splitPoint n) bs -> croute m n (bs ++ [false])
  | croute_right m n bs :
      2 <= n -> splitPoint n < m < n -> croute (m - splitPoint n) (n - splitPoint n) bs ->
      croute m n (bs ++ [true]).

Lemma moves_snoc f s n bs f1 s1 b f2 s2 :
  moves f s n = Some (bs, f1, s1) -> cursor_step f1 s1 = Some (b, f2, s2) ->
  moves f s (n + 1) = Some (bs ++ [b], f2, s2).
Proof. intros Hm Hc. rewrite moves_app, Hm. simpl. by rewrite Hc. Qed.

Lemma pow2_pred_zero d : 0 <= d -> 0 = 2 ^ d - 1 -> d = 0.
Proof.
  intros Hd He. destruct (Z.eq_dec d 0); [done|].
  pose proof (Z.pow_gt_1 2 d). lia.
Qed.

Lemma route_moves i n bs :
  route i n bs -> 0 <= i < n ∧ moves i (n - 1) (length bs) = Some (bs, 0, 0).
Proof.
  induction 1 as [|i n bs Hn Hi _ [Hb IH]|i n bs Hn Hi _ [Hb IH]]; [done| |];
    destruct (splitPoint_spec n Hn) as (e & He & Hk & Hb'); rewrite Hk in *;
    (split; [lia|]); rewrite length_app; simpl.
  - apply (moves_left _ e i (n - 1)) in IH as (d1 & s1 & Hd1 & Hz & Hs1 & Hm); [|lia..].
    apply pow2_pred_zero in Hz; [subst d1|done]. replace s1 with 1 in * by (simpl in *; lia).
    by apply (moves_snoc _ _ _ _ _ _ _ _ _ Hm).
  - apply (moves_right _ e) in IH as (d1 & Hd1 & Hm); [|lia..].
    replace (i - 2 ^ e + 2 ^ e) with i in Hm by lia.
    replace (n - 2 ^ e - 1 + 2 ^ e) with (n - 1) in Hm by lia.
    by apply (moves_snoc _ _ _ _ _ _ _ _ _ Hm), cursor_top.
Qed.

Lemma croute_moves m n bs :
  croute m n bs ->
  1 <= m <= n ∧ ∃ f s, strip (m - 1) (n - 1) = (f, s) ∧ moves f s (length bs) = Some (bs, 0, 0).
Proof.
  induction 1 as [e He|m n bs Hn Hi _ (Hb & f & s & Hs & IH)|m n bs Hn Hi _ (Hb & f & s & Hs & IH)].
  { pose proof (Z.pow_pos_nonneg 2 e). split; [lia|]. exists 0, 0. split; [|done].
    clear H0. revert e He. refine (natlike_ind _ _ _); [done|]. intros e He IH.
    rewrite Z.pow_succ_r by done. pose proof (Z.pow_pos_nonneg 2 e).
    replace (2 * 2 ^ e - 1) with (2 * (2 ^ e - 1) + 1) by lia. rewrite strip_odd by lia.
    by replace ((2 * (2 ^ e - 1) + 1) / 2) with (2 ^ e - 1) by (Z.div_mod_to_equations; lia). }
  all: destruct (splitPoint_spec n Hn) as (e & He & Hk & Hb'); rewrite Hk in *;
    (split; [lia|]); rewrite length_app; simpl.
  - destruct (strip_left e (m - 1) (n - 1)) as (d & f' & s' & Hd & Hf & Hs' & E & E'); [lia..|].
    rewrite E in Hs. injection Hs as -> <-. exists f, s'. split; [done|].
    apply (moves_left _ d f s') in IH as (d1 & s1 & Hd1 & Hz & Hs1 & Hm); [|done..].
    apply pow2_pred_zero in Hz; [subst d1|done]. replace s1 with 1 in * by (simpl in *; lia).
    by apply (moves_snoc _ _ _ _ _ _ _ _ _ Hm).
  - destruct (strip_right e (m - 2 ^ e - 1) (n - 2 ^ e - 1)) as (d & f' & s' & Hd & Hf & Hs' & E & E');
      [lia..|]. rewrite E in Hs. injection Hs as -> ->.
    replace (m - 2 ^ e - 1 + 2 ^ e) with (m - 1) in E' by lia.
    replace (n - 2 ^ e - 1 + 2 ^ e) with (n - 1) in E' by lia.
    exists (f + 2 ^ d), (s + 2 ^ d). split; [done|].
    apply (moves_right _ d) in IH as (d1 & Hd1 & Hm); [|done..].
    by apply (moves_snoc _ _ _ _ _ _ _ _ _ Hm), cursor_top.
Qed.

(** Every position has a route; the old tree is a proper prefix or a complete subtree. *)
Lemma route_exists n : ∀ i, 0 <= i < n -> ∃ bs, route i n bs.
Proof.
  induction (Z.lt_wf 0 n) as [n _ IH]. intros i Hi. destruct (Z.eq_dec n 1) as [->|Hne].
  { exists []. replace i with 0 by lia. constructor. }
  assert (Hn : 2 <= n) by lia. pose proof (splitPoint_bounds n Hn).
  destruct (Z_lt_le_dec i (splitPoint n)).
  - destruct (IH (splitPoint n)) with (i := i) as [bs ?]; [lia..|]. eauto using route.
  - destruct (IH (n - splitPoint n)) with (i := i - splitPoint n) as [bs ?]; [lia..|].
    eauto using route.
Qed.

Lemma croute_exists n :
  ∀ m, 1 <= m -> m < n ∨ (m = n ∧ ∃ e, 0 <= e ∧ n = 2 ^ e) -> ∃ bs, croute m n bs.
Proof.
  induction (Z.lt_wf 0 n) as [n _ IH]. intros m Hm [Hlt|(-> & e & He & ->)]; [|eauto using croute].
  assert (Hn : 2 <= n) by lia. pose proof (splitPoint_bounds n Hn).
  destruct (splitPoint_spec n Hn) as (e & He & Hk & Hb).
  destruct (Z_le_gt_dec m (splitPoint n)).
  - destruct (IH (splitPoint n)) with (m := m) as [bs ?]; [lia..| |eauto using croute].
    destruct (Z.eq_dec m (splitPoint n)); [right; eauto|left; lia].
  - destruct (IH (n - splitPoint n)) with (m := m - splitPoint n) as [bs ?]; [lia..|].
    exists (bs ++ [true]). constructor; done || lia.
Qed.

(** ** The verifiers along a route *)

Lemma moves_stuck n : moves 0 0 (S n) = None.
Proof. done. Qed.

(** Along a route of length [k], a path ends at the root exactly when it has [k] elements. *)
Lemma moves_exact f s bs n :
  moves f s (length bs) = Some (bs, 0, 0) ->
  match moves f s n with
  | Some (bs', _, 0) => n = length bs ∧ bs' = bs
  | _ => n ≠ length bs
  end.
Proof.
  intros Hm. destruct (lt_eq_lt_dec n (length bs)) as [[Hlt| ->]|Hgt]; [|by rewrite Hm|].
  - replace (length bs) with (n + S (length bs - n - 1))%nat in Hm by lia. rewrite moves_app in Hm.
    destruct (moves f s n) as [[[bs' f1] s1]|]; [|lia]. simpl in Hm.
    destruct s1; [done|lia..].
  - replace n with (length bs + S (n - length bs - 1))%nat by lia.
    rewrite moves_app, Hm, moves_stuck. lia.
Qed.

Lemma RootFromInclusion_route leaf i n bs path :
  route i n bs ->
  RootFromInclusion leaf i n path =
  if decide (length path = length bs) then Some (climb leaf bs path) else None.
Proof.
  intros Hr. destruct (route_moves _ _ _ Hr) as [Hi Hm]. unfold RootFromInclusion.
  destruct (Z.ltb_spec i 0), (Z.leb_spec n i); try lia. simpl. rewrite inclusion_loop_moves.
  pose proof (moves_exact _ _ _ (length path) Hm) as He.
  destruct (moves i (n - 1) (length path)) as [[[bs' f] s]|]; [|by rewrite decide_False].
  destruct s; simpl; [|by rewrite decide_False..]. destruct He as [-> ->]. by rewrite decide_True.
Qed.

Lemma foldConsistency_route m n bs x path :
  croute m n bs ->
  match foldConsistency (m - 1) (n - 1) x path with
  | Some (fr, sr, 0) => length path = length bs ∧ fr = climb_old x bs path ∧ sr = climb x bs path
  | _ => length path ≠ length bs
  end.
Proof.
  intros Hr. destruct (croute_moves _ _ _ Hr) as [Hi (f & s & Hs & Hm)]. unfold foldConsistency.
  fold (strip (m - 1) (n - 1)). rewrite Hs, consistency_loop_moves.
  pose proof (moves_exact _ _ _ (length path) Hm) as He.
  destruct (moves f s (length path)) as [[[bs' f'] s']|]; simpl; [|done].
  destruct s'; [|done..]. by destruct He as [-> ->].
Qed.

(** ** Digests *)

Lemma NodeHash_is_hash l r : is_hash (NodeHash l r) = true.
Proof. unfold is_hash, NodeHash. by rewrite sha256_length. Qed.

Lemma allHashes_elem path p : allHashes path = true -> p ∈ path -> is_hash p = true.
Proof. unfold allHashes. rewrite forallb_forall. setoid_rewrite <- list_elem_of_In. auto. Qed.

Lemma allHashes_app p1 p2 : allHashes (p1 ++ p2) = allHashes p1 && allHashes p2.
Proof. apply forallb_app. Qed.

Lemma allHashes_snoc x path p :
  allHashes (x :: path) = true -> is_hash p = true -> allHashes (x :: path ++ [p]) = true.
Proof. intros Ha Hp. rewrite app_comm_cons, allHashes_app, Ha. simpl. by rewrite Hp. Qed.

Lemma allHashes_take_drop k l :
  allHashes l = true -> allHashes (ztake k l) = true ∧ allHashes (zdrop k l) = true.
Proof. intros Hl. rewrite <- (take_drop_z k l), allHashes_app in Hl. by apply andb_true_iff. Qed.

Lemma MerkleRoot_is_hash l : allHashes l = true -> is_hash (MerkleRoot l) = true.
Proof.
  intros Hl. destruct (leaves_cases l) as [->|[[h ->]|Hn]].
  - unfold is_hash. change (MerkleRoot []) with (sha256 ""). by rewrite sha256_length.
  - by apply (allHashes_elem [h]); [|by left].
  - rewrite MerkleRoot_split by done. apply NodeHash_is_hash.
Qed.

Lemma climb_is_hash r bs path : is_hash r = true -> is_hash (climb r bs path) = true.
Proof.
  revert r path. induction bs as [|b bs IH]; intros r [|p path]; simpl; [done..|].
  intros _. apply IH. destruct b; apply NodeHash_is_hash.
Qed.

Lemma climb_old_is_hash r bs path : is_hash r = true -> is_hash (climb_old r bs path) = true.
Proof.
  revert r path. induction bs as [|b bs IH]; intros r [|p path]; simpl; [done..|].
  intros Hr. apply IH. destruct b; [apply NodeHash_is_hash|done].
Qed.

(** ** Completeness *)

Lemma lookup_ztake {A} k i (l : list A) :
  0 <= i < k -> ztake k l !! Z.to_nat i = l !! Z.to_nat i.
Proof. intros Hi. unfold ztake. by rewrite lookup_take_lt by lia. Qed.

Lemma lookup_zdrop {A} k i (l : list A) :
  0 <= k <= i -> zdrop k l !! Z.to_nat (i - k) = l !! Z.to_nat i.
Proof. intros Hi. unfold zdrop. rewrite lookup_drop. f_equal. lia. Qed.

Lemma InclusionPath_route i n bs leaves :
  route i n bs -> n = zlen leaves -> allHashes leaves = true ->
  ∃ path leaf, InclusionPath leaves i = Some path ∧ leaves !! Z.to_nat i = Some leaf
    ∧ length path = length bs ∧ climb leaf bs path = MerkleRoot leaves ∧ allHashes path = true.
Proof.
  intros Hr. revert leaves.
  induction Hr as [|i n bs Hn Hi Hr IH|i n bs Hn Hi Hr IH]; intros leaves Hz Hl.
  { exists []. destruct (leaves_cases leaves) as [->|[[h ->]|Hn]]; [done| |lia]. by exists h. }
  all: subst n; pose proof (splitPoint_bounds _ Hn); pose proof (proj1 (route_moves _ _ _ Hr)) as Hb.
  all: destruct (allHashes_take_drop (splitPoint (zlen leaves)) leaves Hl) as [Ht Hd].
  all: rewrite InclusionPath_split by lia; simpl.
  - destruct (IH (ztake (splitPoint (zlen leaves)) leaves)) as (path & leaf & HP & Hlf & Hlen & Hc & Ha);
      [by rewrite zlen_take by lia|done|].
    destruct (Z.ltb_spec i (splitPoint (zlen leaves))); [|lia]. rewrite HP. simpl.
    eexists _, leaf. split; [done|]. rewrite lookup_ztake in Hlf by lia.
    rewrite !length_app, climb_snoc, Hc, allHashes_app, Ha by done. simpl.
    rewrite MerkleRoot_is_hash, (MerkleRoot_split leaves) by done. split_and!; done || lia.
  - destruct (IH (zdrop (splitPoint (zlen leaves)) leaves)) as (path & leaf & HP & Hlf & Hlen & Hc & Ha);
      [by rewrite zlen_drop by lia|done|].
    destruct (Z.ltb_spec i (splitPoint (zlen leaves))); [lia|]. rewrite HP. simpl.
    eexists _, leaf. split; [done|]. rewrite lookup_zdrop in Hlf by lia.
    rewrite !length_app, climb_snoc, Hc, allHashes_app, Ha by done. simpl.
    rewrite MerkleRoot_is_hash, (MerkleRoot_split leaves) by done. split_and!; done || lia.
Qed.

Lemma inclusion_path_verifies leaves i
  (Hi : 0 <= i < zlen leaves) (Hl : allHashes leaves = true) :
  ∃ path leaf, InclusionPath leaves i = Some path ∧ leaves !! Z.to_nat i = Some leaf
    ∧ VerifyInclusionPath leaf i (zlen leaves) path (MerkleRoot leaves) = true.
Proof.
  destruct (route_exists _ i Hi) as [bs Hr].
  destruct (InclusionPath_route i _ bs leaves Hr eq_refl Hl) as (path & leaf & HP & Hlf & Hlen & Hc & Ha).
  exists path, leaf. split; [done|]. split; [done|]. unfold VerifyInclusionPath.
  rewrite (allHashes_elem leaves leaf), MerkleRoot_is_hash, Ha by eauto using list_elem_of_lookup_2.
  rewrite (RootFromInclusion_route _ _ _ _ _ Hr), decide_True by done. simpl.
  by rewrite Hc, String.eqb_refl.
Qed.

(** Inclusion proofs are complete: every leaf of a tree of digests has an inclusion path, and the
    verifier accepts it for that leaf, its index, the tree's size and its root. *)
Theorem inclusion_complete leaves i
  (Hi : 0 <= i < zlen leaves) (Hl : allHashes leaves = true) :
  ∃ path leaf, InclusionPath leaves i = Some path ∧ leaves !! Z.to_nat i = Some leaf
    ∧ VerifyInclusionPath leaf i (zlen leaves) path (MerkleRoot leaves) = true.
Proof. by apply inclusion_path_verifies. Qed.

Lemma isPowerOfTwo_pow e : 0 <= e -> isPowerOfTwo (2 ^ e) = true.
Proof.
  intros He. unfold isPowerOfTwo. pose proof (Z.pow_pos_nonneg 2 e).
  destruct (Z.ltb_spec 0 (2 ^ e)); [|lia]. simpl. apply Z.eqb_eq.
  replace (2 ^ e - 1) with (Z.ones e) by (rewrite Z.ones_equiv; lia).
  rewrite Z.land_ones by done. apply Z.mod_same. lia.
Qed.

Lemma isPowerOfTwo_between e m : 0 <= e -> 2 ^ e < m < 2 * 2 ^ e -> isPowerOfTwo m = false.
Proof.
  intros He Hm. unfold isPowerOfTwo. pose proof (Z.pow_pos_nonneg 2 e).
  destruct (Z.ltb_spec 0 m); [|done]. simpl. apply Z.eqb_neq. intros Hz.
  assert (Hbit : ∀ x, 2 ^ e <= x < 2 * 2 ^ e -> Z.testbit x e = true).
  { intros x Hx. replace e with (Z.log2 x); [apply Z.bit_log2; lia|].
    apply Z.log2_unique; [done|]. by rewrite Z.pow_succ_r by done. }
  pose proof (Z.land_spec m (m - 1) e) as Hl. rewrite Hz, Z.bits_0, !Hbit in Hl by lia. done.
Qed.

Lemma ztake_full {A} (l : list A) : ztake (zlen l) l = l.
Proof. unfold ztake, zlen. rewrite Nat2Z.id. by rewrite firstn_all. Qed.

Lemma ztake_ztake {A} m k (l : list A) : 0 <= m <= k -> ztake m (ztake k l) = ztake m l.
Proof. intros Hm. unfold ztake. rewrite take_take. f_equal. lia. Qed.

Lemma ztake_split {A} m k (l : list A) :
  0 <= k <= m -> m <= zlen l -> ztake m l = ztake k l ++ ztake (m - k) (zdrop k l).
Proof.
  intros Hm Hl. unfold ztake, zdrop, zlen in *. rewrite <- (take_drop (Z.to_nat k) l) at 1.
  rewrite take_app, take_take, length_take. f_equal; f_equal; lia.
Qed.

Lemma zdrop_ztake {A} m k (l : list A) :
  0 <= k <= m -> m <= zlen l ->
  ztake k (ztake m l) = ztake k l ∧ zdrop k (ztake m l) = ztake (m - k) (zdrop k l).
Proof.
  intros Hm Hl. split; [apply ztake_ztake; lia|]. unfold ztake, zdrop.
  rewrite skipn_firstn_comm. f_equal. lia.
Qed.

Lemma subProof_route m n bs leaves :
  croute m n bs -> n = zlen leaves -> allHashes leaves = true ->
  ∃ x path, subProof m leaves false = x :: path
    ∧ subProof m leaves true = (if isPowerOfTwo m then path else x :: path)
    ∧ (isPowerOfTwo m = true -> x = MerkleRoot (ztake m leaves))
    ∧ length path = length bs ∧ allHashes (x :: path) = true
    ∧ climb_old x bs path = MerkleRoot (ztake m leaves) ∧ climb x bs path = MerkleRoot leaves.
Proof.
  intros Hr. revert leaves.
  induction Hr as [e He|m n bs Hn Hi Hr IH|m n bs Hn Hi Hr IH]; intros leaves Hz Hl.
  { exists (MerkleRoot leaves), []. rewrite isPowerOfTwo_pow, Hz, !subProof_full, ztake_full by done.
    simpl. rewrite MerkleRoot_is_hash by done. done. }
  all: subst n; pose proof (splitPoint_bounds _ Hn); pose proof (proj1 (croute_moves _ _ _ Hr)) as Hb.
  all: destruct (allHashes_take_drop (splitPoint (zlen leaves)) leaves Hl) as [Ht Hd].
  - destruct (IH (ztake (splitPoint (zlen leaves)) leaves))
      as (x & path & Hf & Htr & Hx & Hlen & Ha & Ho & Hc); [by rewrite zlen_take by lia|done|].
    rewrite !subProof_split by lia. simpl.
    destruct (Z.leb_spec m (splitPoint (zlen leaves))); [|lia]. rewrite Hf, Htr.
    rewrite ztake_ztake in * by lia. exists x, (path ++ [MerkleRoot (zdrop (splitPoint (zlen leaves)) leaves)]).
    rewrite !length_app, climb_snoc, climb_old_snoc, Hc, Ho by done.
    rewrite (MerkleRoot_split leaves) by done.
    split_and!; try done; [by destruct (isPowerOfTwo m)|simpl; lia|].
    apply allHashes_snoc; auto using MerkleRoot_is_hash.
  - destruct (splitPoint_spec _ Hn) as (e & He & Hk & Hb2).
    destruct (IH (zdrop (splitPoint (zlen leaves)) leaves))
      as (x & path & Hf & Htr & Hx & Hlen & Ha & Ho & Hc); [by rewrite zlen_drop by lia|done|].
    rewrite !subProof_split by lia. simpl.
    destruct (Z.leb_spec m (splitPoint (zlen leaves))); [lia|]. rewrite Hf.
    rewrite (isPowerOfTwo_between e) by (done || lia).
    exists x, (path ++ [MerkleRoot (ztake (splitPoint (zlen leaves)) leaves)]).
    rewrite !length_app, climb_snoc, climb_old_snoc, Hc, Ho by done.
    rewrite (MerkleRoot_split leaves), (MerkleRoot_split (ztake m leaves)) by (done || rewrite zlen_take; lia).
    rewrite zlen_take, (splitPoint_unique m e) by lia. rewrite <- Hk.
    destruct (zdrop_ztake m (splitPoint (zlen leaves)) leaves) as [-> ->]; [lia..|].
    split_and!; try done; [simpl; lia|]. apply allHashes_snoc; auto using MerkleRoot_is_hash.
Qed.

Lemma consistency_path_verifies leaves m
  (Hm : 0 <= m <= zlen leaves) (Hl : allHashes leaves = true) :
  ∃ path, ConsistencyPath leaves m = Some path
    ∧ VerifyConsistencyPath m (zlen leaves) (MerkleRoot (ztake m leaves)) (MerkleRoot leaves) path
      = true.
Proof.
  destruct (allHashes_take_drop m leaves Hl) as [Hl' _].
  unfold ConsistencyPath, VerifyConsistencyPath, consistencyTrivial.
  destruct (Z.ltb_spec m 0), (Z.ltb_spec (zlen leaves) m); try lia. simpl.
  rewrite !MerkleRoot_is_hash by done. simpl. destruct (Z.eqb_spec m (zlen leaves)) as [->|Hne].
  { rewrite orb_true_r. exists []. by rewrite ztake_full, String.eqb_refl. }
  destruct (Z.eqb_spec m 0) as [->|Hm0]; simpl; [by exists []|]. eexists. split; [done|].
  destruct (croute_exists (zlen leaves) m) as [bs Hr]; [lia..|].
  destruct (subProof_route m _ bs leaves Hr eq_refl Hl) as (x & path & _ & -> & Hx & Hlen & Ha & Ho & Hc).
  assert (Hnodes : (if isPowerOfTwo m then [MerkleRoot (ztake m leaves)] else [])
      ++ (if isPowerOfTwo m then path else x :: path) = x :: path).
  { destruct (isPowerOfTwo m); [by rewrite Hx|done]. }
  rewrite Hnodes.
  assert (Hap : allHashes (if isPowerOfTwo m then path else x :: path) = true).
  { destruct (isPowerOfTwo m); [|done]. by apply andb_true_iff in Ha as [_ ?]. }
  rewrite Hap. simpl. pose proof (foldConsistency_route _ _ _ x path Hr) as Hfold.
  destruct (foldConsistency _ _ x path) as [[[fr sr] [| |]]|]; try done. destruct Hfold as (_ & -> & ->).
  by rewrite Ho, Hc, !String.eqb_refl.
Qed.

(** Consistency proofs are complete: for every prefix of a tree of digests (the empty and the full
    one included) there is a consistency path, and the verifier accepts it for the two sizes and
    roots. *)
Theorem consistency_complete leaves m
  (Hm : 0 <= m <= zlen leaves) (Hl : allHashes leaves = true) :
  ∃ path, ConsistencyPath leaves m = Some path
    ∧ VerifyConsistencyPath m (zlen leaves) (MerkleRoot (ztake m leaves)) (MerkleRoot leaves) path
      = true.
Proof. by apply consistency_path_verifies. Qed.

(** ** Soundness

    SHA-256 has collisions, so soundness assumes that none occurs among the strings actually hashed:
    those of the tree ([root_input]) and those of the verifier ([climb_inputs], [climb_old_inputs]).
    [inj_on P Q] says that no string of [P] collides with a different string of [Q]. *)

Definition node_input (l r : string) : string := String "001"%char (l +:+ r).

Inductive root_input : list string -> string -> Prop :=
  | root_input_here l :
      2 <= zlen l ->
      root_input l (node_input (MerkleRoot (ztake (splitPoint (zlen l)) l))
                               (MerkleRoot (zdrop (splitPoint (zlen l)) l)))
  | root_input_left l x :
      2 <= zlen l -> root_input (ztake (splitPoint (zlen l)) l) x -> root_input l x
  | root_input_right l x :
      2 <= zlen l -> root_input (zdrop (splitPoint (zlen l)) l) x -> root_input l x.

Definition join_input (b : bool) (p r : string) : string :=
  if b then node_input p r else node_input r p.

Fixpoint climb_inputs (r : string) (bs : list bool) (path : list string) : list string :=
  match bs, path with
  | b :: bs', p :: path' => join_input b p r :: climb_inputs (join b p r) bs' path'
  | _, _ => []
  end.

Fixpoint climb_old_inputs (r : string) (bs : list bool) (path : list string) : list string :=
  match bs, path with
  | true :: bs', p :: path' => node_input p r :: climb_old_inputs (NodeHash p r) bs' path'
  | false :: bs', _ :: path' => climb_old_inputs r bs' path'
  | _, _ => []
  end.

Definition inj_on (P Q : string -> Prop) : Prop :=
  ∀ x y, P x -> Q y -> sha256 x = sha256 y -> x = y.

Lemma inj_on_mono (P P' Q Q' : string -> Prop) :
  inj_on P Q -> (∀ x, P' x -> P x) -> (∀ x, Q' x -> Q x) -> inj_on P' Q'.
Proof. unfold inj_on. intros Hi HP HQ x y Hx Hy. auto. Qed.

Lemma climb_inputs_snoc r bs b path p :
  length bs = length path ->
  climb_inputs r (bs ++ [b]) (path ++ [p]) = climb_inputs r bs path ++ [join_input b p (climb r bs path)].
Proof.
  revert r path. induction bs as [|b' bs IH]; intros r [|p' path]; simpl; [done..|].
  intros [= Hl]. by rewrite IH.
Qed.

Lemma climb_old_inputs_snoc r bs b path p :
  length bs = length path ->
  climb_old_inputs r (bs ++ [b]) (path ++ [p]) =
  climb_old_inputs r bs path ++ (if b then [node_input p (climb_old r bs path)] else []).
Proof.
  revert r path. induction bs as [|b' bs IH]; intros r [|p' path]; simpl; [by destruct b|done..|].
  intros [= Hl]. destruct b'; by rewrite IH.
Qed.

Lemma append_inj (l l' r r' : string) :
  String.length l = String.length l' -> l +:+ r = l' +:+ r' -> l = l' ∧ r = r'.
Proof.
  revert l'. induction l as [|c l IH]; intros [|c' l']; simpl; try done.
  intros [= Hlen] [= -> He]. destruct (IH l' Hlen He) as [-> ->]. done.
Qed.

Lemma node_input_inj l r l' r' :
  is_hash l = true -> is_hash l' = true -> node_input l r = node_input l' r' -> l = l' ∧ r = r'.
Proof.
  unfold is_hash. intros Hl%Nat.eqb_eq Hl'%Nat.eqb_eq [= He]. apply append_inj; [congruence|done].
Qed.

(** A node that hashes to the root of a tree is the tree's top node. *)
Lemma root_node_inj l a b (P : string -> Prop) :
  inj_on (root_input l) P -> P (node_input a b) -> 2 <= zlen l -> allHashes l = true ->
  is_hash a = true -> NodeHash a b = MerkleRoot l ->
  a = MerkleRoot (ztake (splitPoint (zlen l)) l) ∧ b = MerkleRoot (zdrop (splitPoint (zlen l)) l).
Proof.
  intros Hinj HP Hn Hl Ha He. rewrite MerkleRoot_split in He by done.
  destruct (allHashes_take_drop (splitPoint (zlen l)) l Hl) as [Ht _].
  apply node_input_inj; [done|by apply MerkleRoot_is_hash|]. symmetry.
  apply Hinj; [by apply root_input_here|done|]. done.
Qed.

Lemma inj_on_sub l P :
  2 <= zlen l -> inj_on (root_input l) P ->
  inj_on (root_input (ztake (splitPoint (zlen l)) l)) P
  ∧ inj_on (root_input (zdrop (splitPoint (zlen l)) l)) P.
Proof.
  intros Hn Hi. split; (eapply inj_on_mono; [exact Hi| |done]); eauto using root_input.
Qed.

Lemma snoc_length {A B} (l : list A) (k : list B) b :
  length l = length (k ++ [b]) -> ∃ l' a, l = l' ++ [a] ∧ length k = length l'.
Proof.
  rewrite length_app. simpl. intros Hl. destruct l as [|a l _] using rev_ind; [simpl in Hl; lia|].
  exists l, a. rewrite length_app in Hl. simpl in Hl. split; [done|lia].
Qed.

(** The last element of an accepted path: it and the rest are the two subtree roots. *)
Lemma climb_peel l x bs b path p :
  2 <= zlen l -> allHashes l = true -> is_hash x = true -> is_hash p = true ->
  length bs = length path -> climb x (bs ++ [b]) (path ++ [p]) = MerkleRoot l ->
  inj_on (root_input l) (fun y => y ∈ climb_inputs x (bs ++ [b]) (path ++ [p])) ->
  let left := ztake (splitPoint (zlen l)) l in
  let right := zdrop (splitPoint (zlen l)) l in
  let sub := if b then right else left in
  p = MerkleRoot (if b then left else right) ∧ climb x bs path = MerkleRoot sub
  ∧ inj_on (root_input sub) (fun y => y ∈ climb_inputs x bs path).
Proof.
  intros Hn Hl Hx Hp Hlen Hc Hinj. rewrite climb_snoc in Hc by done.
  rewrite climb_inputs_snoc in Hinj by done. pose proof (inj_on_sub _ _ Hn Hinj) as [Hi1 Hi2].
  destruct b; apply (root_node_inj _ _ _ _ Hinj) in Hc as [Hc1 Hc2];
    try (by apply elem_of_app; right; left); auto using climb_is_hash; simpl.
  - split_and!; [done..|]. eapply inj_on_mono; [exact Hi2|done|set_solver].
  - split_and!; [done..|]. eapply inj_on_mono; [exact Hi1|done|set_solver].
Qed.

Lemma climb_old_peel l x bs path p :
  2 <= zlen l -> allHashes l = true -> is_hash p = true ->
  length bs = length path -> climb_old x (bs ++ [true]) (path ++ [p]) = MerkleRoot l ->
  inj_on (root_input l) (fun y => y ∈ climb_old_inputs x (bs ++ [true]) (path ++ [p])) ->
  p = MerkleRoot (ztake (splitPoint (zlen l)) l)
  ∧ climb_old x bs path = MerkleRoot (zdrop (splitPoint (zlen l)) l)
  ∧ inj_on (root_input (zdrop (splitPoint (zlen l)) l)) (fun y => y ∈ climb_old_inputs x bs path).
Proof.
  intros Hn Hl Hp Hlen Hc Hinj. rewrite climb_old_snoc in Hc by done.
  rewrite climb_old_inputs_snoc in Hinj by done. pose proof (inj_on_sub _ _ Hn Hinj) as [Hi1 Hi2].
  apply (root_node_inj _ _ _ _ Hinj) in Hc as [Hc1 Hc2]; [|by apply elem_of_app; right; left|done..].
  split_and!; [done..|]. eapply inj_on_mono; [exact Hi2|done|set_solver].
Qed.

Lemma allHashes_snoc_inv path p :
  allHashes (path ++ [p]) = true -> allHashes path = true ∧ is_hash p = true.
Proof.
  rewrite allHashes_app. intros [Hp Hq]%andb_true_iff. simpl in Hq. by rewrite andb_true_r in Hq.
Qed.

Lemma climb_route_sound i n bs leaves leaf path :
  route i n bs -> n = zlen leaves -> length path = length bs ->
  allHashes leaves = true -> is_hash leaf = true -> allHashes path = true ->
  climb leaf bs path = MerkleRoot leaves ->
  inj_on (root_input leaves) (fun x => x ∈ climb_inputs leaf bs path) ->
  leaves !! Z.to_nat i = Some leaf.
Proof.
  intros Hr. revert leaves path.
  induction Hr as [|i n bs Hn Hi Hr IH|i n bs Hn Hi Hr IH]; intros leaves path Hz Hlen Hl Hlf Hp Hc Hinj.
  { destruct (leaves_cases leaves) as [->|[[h ->]|Hn]]; [done| |lia]. simpl in Hc. by subst. }
  all: subst n; pose proof (splitPoint_bounds _ Hn); pose proof (proj1 (route_moves _ _ _ Hr)) as Hb.
  all: destruct (snoc_length _ _ _ Hlen) as (path' & p & -> & Hlen').
  all: apply allHashes_snoc_inv in Hp as [Hp' Hp].
  all: destruct (allHashes_take_drop (splitPoint (zlen leaves)) leaves Hl) as [Ht Hd].
  all: apply climb_peel in Hc as (Hc1 & Hc2 & Hi'); [|done..]; simpl in Hc2, Hi'.
  - rewrite <- (lookup_ztake (splitPoint (zlen leaves))) by lia.
    eapply IH; eauto. by rewrite zlen_take by lia.
  - rewrite <- (lookup_zdrop (splitPoint (zlen leaves))) by lia.
    eapply IH; eauto. by rewrite zlen_drop by lia.
Qed.

Lemma inclusion_verified_leaf leaves leaf i path
  (Hl : allHashes leaves = true)
  (Hv : VerifyInclusionPath leaf i (zlen leaves) path (MerkleRoot leaves) = true)
  (Hinj : ∀ bs, route i (zlen leaves) bs ->
          inj_on (root_input leaves) (fun x => x ∈ climb_inputs leaf bs path)) :
  0 <= i < zlen leaves ∧ leaves !! Z.to_nat i = Some leaf.
Proof.
  unfold VerifyInclusionPath in Hv.
  destruct (is_hash leaf) eqn:Hlf, (is_hash (MerkleRoot leaves)), (allHashes path) eqn:Hp; try done.
  simpl in Hv. destruct (RootFromInclusion leaf i (zlen leaves) path) as [got|] eqn:Hroot; [|done].
  apply String.eqb_eq in Hv. subst got.
  assert (Hi : 0 <= i < zlen leaves).
  { unfold RootFromInclusion in Hroot. destruct (Z.ltb_spec i 0), (Z.leb_spec (zlen leaves) i); done || lia. }
  split; [done|]. destruct (route_exists _ i Hi) as [bs Hr].
  rewrite (RootFromInclusion_route _ _ _ _ _ Hr) in Hroot. case_decide; [|done]. injection Hroot as Hc.
  eapply climb_route_sound; eauto.
Qed.

(** C22. Inclusion proofs are sound: if the verifier accepts a path for a leaf hash at an index of a tree
    of digests, against the tree's own size and root, then that leaf is in the tree at that index,
    provided SHA-256 shows no collision between the node inputs of the tree and those the verifier
    hashed. *)
Theorem inclusion_sound leaves leaf i path
  (Hl : allHashes leaves = true)
  (Hv : VerifyInclusionPath leaf i (zlen leaves) path (MerkleRoot leaves) = true)
  (Hinj : ∀ bs, route i (zlen leaves) bs ->
          inj_on (root_input leaves) (fun x => x ∈ climb_inputs leaf bs path)) :
  0 <= i < zlen leaves ∧ leaves !! Z.to_nat i = Some leaf.
Proof. by apply inclusion_verified_leaf with (path := path). Qed.

Lemma MerkleRoot_inj n : ∀ l l',
  zlen l = n -> zlen l' = n -> allHashes l = true -> allHashes l' = true ->
  inj_on (root_input l) (root_input l') -> MerkleRoot l = MerkleRoot l' -> l = l'.
Proof.
  induction (Z.lt_wf 0 n) as [n _ IH]. intros l l' Hz Hz' Hl Hl' Hinj He.
  destruct (leaves_cases l) as [->|[[h ->]|Hn]].
  - destruct l'; [done|]. unfold zlen in *. simpl in *. lia.
  - destruct l' as [|h' [|]]; unfold zlen in *; simpl in *; [lia| |lia]. change (h = h') in He. by subst.
  - assert (Hn' : 2 <= zlen l') by lia. pose proof (splitPoint_bounds _ Hn).
    destruct (allHashes_take_drop (splitPoint (zlen l')) l' Hl') as [Ht' Hd'].
    destruct (allHashes_take_drop (splitPoint (zlen l)) l Hl) as [Ht Hd].
    rewrite (MerkleRoot_split l') in He by done. symmetry in He.
    apply (root_node_inj _ _ _ _ Hinj) in He as [H1 H2];
      [|by apply root_input_here|done|done|by apply MerkleRoot_is_hash].
    apply inj_on_sub in Hinj as [Hi1 Hi2]; [|done].
    rewrite <- (take_drop_z (splitPoint (zlen l)) l), <- (take_drop_z (splitPoint (zlen l')) l').
    assert (Hzz : zlen l = zlen l') by lia. rewrite Hzz in *. f_equal.
    + apply (IH (splitPoint (zlen l'))); rewrite ?zlen_take; try done; try lia.
      eapply inj_on_mono; [exact Hi1|done|]. intros. by apply root_input_left.
    + apply (IH (zlen l' - splitPoint (zlen l'))); rewrite ?zlen_drop; try done; try lia.
      eapply inj_on_mono; [exact Hi2|done|]. intros. by apply root_input_right.
Qed.

(** No collision among the strings hashed for two trees and a consistency proof between them. *)
Record consistency_inj (old new : list string) (x : string) (bs : list bool) (path : list string)
  : Prop := {
  cinj_old : inj_on (root_input old) (fun y => y ∈ climb_old_inputs x bs path);
  cinj_new : inj_on (root_input new) (fun y => y ∈ climb_inputs x bs path);
  cinj_roots : inj_on (root_input old) (root_input new);
}.

Lemma climb_croute_sound m n bs old new x path :
  croute m n bs -> m = zlen old -> n = zlen new -> length path = length bs ->
  allHashes old = true -> allHashes new = true -> allHashes (x :: path) = true ->
  climb_old x bs path = MerkleRoot old -> climb x bs path = MerkleRoot new ->
  consistency_inj old new x bs path ->
  ztake m new = old.
Proof.
  intros Hr. revert old new path.
  induction Hr as [e He|m n bs Hn Hi Hr IH|m n bs Hn Hi Hr IH];
    intros old new path Hm Hz Hlen Ho Hw Hp Hco Hcn Hinj.
  { rewrite Hz, ztake_full. symmetry. apply (MerkleRoot_inj (2 ^ e)); try done.
    - apply Hinj.
    - destruct path; [|done]. simpl in *. congruence. }
  all: subst n; pose proof (splitPoint_bounds _ Hn); pose proof (proj1 (croute_moves _ _ _ Hr)) as Hb.
  all: destruct (snoc_length _ _ _ Hlen) as (path' & p & -> & Hlen').
  all: rewrite app_comm_cons in Hp; apply allHashes_snoc_inv in Hp as [Hp' Hp].
  all: assert (Hx : is_hash x = true) by (by apply andb_true_iff in Hp' as [? _]).
  all: destruct Hinj as [Hi1 Hi2 Hi3].
  all: destruct (allHashes_take_drop (splitPoint (zlen new)) new Hw) as [Ht Hd].
  all: apply climb_peel in Hcn as (Hc1 & Hc2 & Hi4); [|done..]; simpl in Hc1, Hc2, Hi4.
  - rewrite <- (ztake_ztake m (splitPoint (zlen new))) by lia.
    rewrite climb_old_snoc in Hco by done. rewrite climb_old_inputs_snoc, app_nil_r in Hi1 by done.
    apply (IH old _ path'); try done; [by rewrite zlen_take by lia|]. split; [done..|].
    eapply inj_on_mono; [exact Hi3|done|]. intros. by apply root_input_left.
  - destruct (splitPoint_spec _ Hn) as (e & He & Hk & Hb2).
    assert (Hkm : splitPoint (zlen old) = splitPoint (zlen new)).
    { rewrite Hk. apply splitPoint_unique; [done|lia]. }
    destruct (allHashes_take_drop (splitPoint (zlen old)) old Ho) as [Hto Hdo].
    apply climb_old_peel in Hco as (Hc3 & Hc4 & Hi5); [|lia|done..].
    apply inj_on_sub in Hi3 as [Hi6 Hi7]; [|lia].
    rewrite Hkm in *. rewrite (ztake_split m (splitPoint (zlen new))) by lia.
    rewrite <- (take_drop_z (splitPoint (zlen new)) old). f_equal.
    + symmetry. apply (MerkleRoot_inj (splitPoint (zlen new))); rewrite ?zlen_take; try done; try lia.
      * eapply inj_on_mono; [exact Hi6|done|]. intros. by apply root_input_left.
      * congruence.
    + apply (IH _ _ path'); try done; [rewrite zlen_drop; lia..|]. split; [done..|].
      eapply inj_on_mono; [exact Hi7|done|]. intros. by apply root_input_right.
Qed.

(** C23. Consistency proofs are sound: if the verifier accepts a path between the roots of two trees of
    digests, for their sizes and with a non empty old tree, then the old leaves are the first leaves
    of the new tree (nothing was changed, dropped or reordered), provided SHA-256 shows no collision
    among the node inputs of the two trees and of the verifier. *)
Theorem consistency_sound old new path
  (Ho : allHashes old = true) (Hw : allHashes new = true) (Hne : 0 < zlen old)
  (Hv : VerifyConsistencyPath (zlen old) (zlen new) (MerkleRoot old) (MerkleRoot new) path = true)
  (Hroots : inj_on (root_input old) (root_input new))
  (Hinj : ∀ bs x path', croute (zlen old) (zlen new) bs ->
          x :: path' = (if isPowerOfTwo (zlen old) then [MerkleRoot old] else []) ++ path ->
          consistency_inj old new x bs path') :
  zlen old <= zlen new ∧ ztake (zlen old) new = old.
Proof.
  revert Hv. unfold VerifyConsistencyPath, consistencyTrivial.
  destruct (Z.ltb_spec (zlen old) 0), (Z.ltb_spec (zlen new) (zlen old)); try done; [].
  rewrite !MerkleRoot_is_hash by done. destruct (allHashes path) eqn:Hp; [|done]. simpl.
  destruct (Z.eqb_spec (zlen old) (zlen new)) as [He|Hlt].
  { intros [_ Hr%String.eqb_eq]%andb_true_iff. split; [done|]. rewrite He, ztake_full.
    symmetry. by apply (MerkleRoot_inj (zlen new)). }
  destruct (Z.eqb_spec (zlen old) 0); [lia|].
  destruct ((if isPowerOfTwo (zlen old) then [MerkleRoot old] else []) ++ path) as [|x path'] eqn:En; [done|].
  destruct (croute_exists (zlen new) (zlen old)) as [bs Hr]; [lia..|].
  pose proof (foldConsistency_route _ _ _ x path' Hr) as Hf.
  destruct (foldConsistency _ _ x path') as [[[fr sr] sn]|]; [|done].
  intros [[Hz%Z.eqb_eq Hfr%String.eqb_eq]%andb_true_iff Hsr%String.eqb_eq]%andb_true_iff.
  subst. destruct Hf as (Hlen & Hfr & Hsr). split; [done|].
  assert (Hap : allHashes (x :: path') = true).
  { rewrite <- En, allHashes_app, Hp. destruct (isPowerOfTwo _); [|done]. simpl.
    by rewrite MerkleRoot_is_hash. }
  eapply climb_croute_sound; eauto.
Qed.
End Merkle.

(** ** Witnesses

    A concrete 32 byte digest (a polynomial of the bytes, modulo [2 ^ 61]) and trees over it. *)

Fixpoint digits (n : nat) (x : Z) : string :=
  match n with
  | O => ""
  | S n' => String (ascii_of_N (Z.to_N (x mod 256))) (digits n' (x / 256))
  end.

Lemma digits_length n x : String.length (digits n x) = n.
Proof. revert x. induction n as [|n IH]; intros x; simpl; [done|]. by rewrite IH. Qed.

Definition poly (s : string) : Z :=
  fold_left (fun h c => Z.land (h * 257 + Z.of_N (N_of_ascii c) + 1) 2305843009213693951)
    (list_ascii_of_string s) 5381.

Definition poly_digest : Sha256 :=
  {| sha256 := fun s => digits 32 (poly s); sha256_length := fun s => digits_length 32 (poly s) |}.

#[local] Existing Instance poly_digest.

Definition demo_leaves : list string :=
  map LeafHash ["a"%string; "b"%string; "c"%string; "d"%string; "e"%string].

Lemma inclusion_complete_witness :
  ∃ path leaf, InclusionPath demo_leaves 3 = Some path ∧ demo_leaves !! 3%nat = Some leaf
    ∧ VerifyInclusionPath leaf 3 5 path (MerkleRoot demo_leaves) = true.
Proof. apply (inclusion_complete demo_leaves 3); [unfold zlen; simpl; lia|vm_compute; reflexivity]. Defined.

Lemma consistency_complete_witness :
  ∃ path, ConsistencyPath demo_leaves 3 = Some path
    ∧ VerifyConsistencyPath 3 5 (MerkleRoot (ztake 3 demo_leaves)) (MerkleRoot demo_leaves) path = true.
Proof. apply (consistency_complete demo_leaves 3); [unfold zlen; simpl; lia|vm_compute; reflexivity]. Defined.

Definition leaf_a : string := LeafHash "a".
Definition leaf_b : string := LeafHash "b".

Lemma no_root_input_one h x : ¬ root_input [h] x.
Proof. inversion 1; unfold zlen in *; simpl in *; lia. Qed.

Lemma root_input_two h h' x : root_input [h; h'] x -> x = node_input h h'.
Proof.
  inversion 1; subst; [done|..]; exfalso.
  - by apply (no_root_input_one h x).
  - by apply (no_root_input_one h' x).
Qed.

Lemma splitPoint_two : splitPoint 2 = 1.
Proof. done. Qed.

Lemma route_one bs : route 0 1 bs -> bs = [].
Proof. inversion 1; [done|lia..]. Qed.

Lemma croute_one bs : croute 1 1 bs -> bs = [].
Proof. inversion 1; [done|lia..]. Qed.

Lemma inclusion_sound_witness :
  [leaf_a; leaf_b] !! Z.to_nat 1 = Some leaf_b.
Proof.
  refine (proj2 (inclusion_sound [leaf_a; leaf_b] leaf_b 1 [leaf_a] _ _ _)).
  - vm_compute. reflexivity.
  - vm_compute. reflexivity.
  - intros bs Hr x y Hx%root_input_two Hy _. subst x.
    change (zlen [leaf_a; leaf_b]) with 2 in Hr.
    inversion Hr as [|i n bs' H2 H1 Hb|i n bs' H2 H1 Hb]; subst; rewrite splitPoint_two in *; [lia|].
    apply route_one in Hb. subst bs'. simpl in Hy. by apply list_elem_of_singleton in Hy.
Defined.

Lemma consistency_sound_witness :
  ztake (zlen [leaf_a]) [leaf_a; leaf_b] = [leaf_a].
Proof.
  refine (proj2 (consistency_sound [leaf_a] [leaf_a; leaf_b] [leaf_b] _ _ _ _ _ _)).
  - vm_compute. reflexivity.
  - vm_compute. reflexivity.
  - vm_compute. reflexivity.
  - vm_compute. reflexivity.
  - intros x y Hx. by apply no_root_input_one in Hx.
  - intros bs x path' Hr [= -> ->].
    change (zlen [leaf_a; leaf_b]) with 2 in Hr. change (zlen [leaf_a]) with 1 in Hr.
    assert (Hbs : bs = [false]).
    { inversion Hr as [e He E1 E2|m n bs' H2 H1 Hb|m n bs' H2 H1 Hb]; subst; rewrite ?splitPoint_two in *;
        [congruence| |lia]. by apply croute_one in Hb; subst. }
    subst bs. split.
    + intros z y Hz. by apply no_root_input_one in Hz.
    + intros z y Hz%root_input_two Hy _. subst z. simpl in Hy. by apply list_elem_of_singleton in Hy.
    + intros z y Hz. by apply no_root_input_one in Hz.
Defined.
