(* ===== verification/Canonical.v ===== *)
(** * Canonical JSON ([audit/checkpoint/canonical.go])

    The byte encoding that checkpoints sign and leaves hash: keys sorted by UTF-16 code unit, strings
    escaped as JavaScript does, numbers formatted as JavaScript does. A Go [map[string]any] is an
    association list here, in the order its iteration happens to visit it. Go strings are byte
    strings, so UTF-8 decoding with the replacement of invalid bytes is written out. [strconv]'s
    shortest float formatting is the parameter of [FloatFormat]. The reflective default case of the
    encoder (a value re-read through [encoding/json]) has no constructor. *)

From Stdlib Require Import ZArith Lia String Ascii.
From Corelib Require Import SpecFloat.
From stdpp Require Import base sets strings list pretty.
From S2P Require Import Prelude.

Set Default Goal Selector "!".
Open Scope string_scope.
Open Scope list_scope.
Open Scope Z_scope.

(** [strconv.FormatFloat(f, 'e', -1, 64)] and [strconv.FormatFloat(f, 'f', -1, 64)]. *)
Class FloatFormat := {
  format_e : spec_float -> string;
  format_f : spec_float -> string;
}.

Inductive json :=
  | JNull
  | JBool (b : bool)
  | JString (s : string)
  | JFloat (f : spec_float)
  | JInt (z : Z)
  | JArray (l : list json)
  | JObject (m : list (string * json)).

(** ** UTF-8 and UTF-16 *)

Definition byte_val (c : ascii) : Z := Z.of_N (N_of_ascii c).
Definition byte_of (z : Z) : ascii := ascii_of_N (Z.to_N z).

Definition RuneError : Z := 65533.

Definition in_range (lo hi x : Z) : bool := (lo <=? x) && (x <=? hi).

(** A continuation byte's six bits. *)
Definition cont (c : ascii) : option Z :=
  if in_range 128 191 (byte_val c) then Some (byte_val c - 128) else None.

(** [utf8.DecodeRune] on a non empty slice: the rune and the bytes left. An invalid or short
    encoding is [RuneError] and consumes one byte. *)
Definition decode_rune (c : ascii) (l : list ascii) : Z * list ascii :=
  let x := byte_val c in
  let bad := (RuneError, l) in
  if x <? 128 then (x, l)
  else if in_range 194 223 x then
    match l with
    | c1 :: l1 => match cont c1 with Some y => ((x - 192) * 64 + y, l1) | None => bad end
    | [] => bad
    end
  else if in_range 224 239 x then
    match l with
    | c1 :: c2 :: l2 =>
        match cont c1, cont c2 with
        | Some y, Some z =>
            let r := (x - 224) * 4096 + y * 64 + z in
            if (r <? 2048) || in_range 55296 57343 r then bad else (r, l2)
        | _, _ => bad
        end
    | _ => bad
    end
  else if in_range 240 244 x then
    match l with
    | c1 :: c2 :: c3 :: l3 =>
        match cont c1, cont c2, cont c3 with
        | Some y, Some z, Some w =>
            let r := (x - 240) * 262144 + y * 4096 + z * 64 + w in
            if in_range 65536 1114111 r then (r, l3) else bad
        | _, _, _ => bad
        end
    | _ => bad
    end
  else bad.

Fixpoint runes_fuel (fuel : nat) (l : list ascii) : list Z :=
  match fuel, l with
  | S fuel', c :: l' => let '(r, l'') := decode_rune c l' in r :: runes_fuel fuel' l''
  | _, _ => []
  end.

(** [[]rune(s)] *)
Definition runes (s : string) : list Z :=
  let l := list_ascii_of_string s in runes_fuel (length l) l.

(** [utf8.AppendRune] for a rune [decode_rune] can return. *)
Definition encode_rune (r : Z) : list ascii :=
  if r <? 128 then [byte_of r]
  else if r <? 2048 then [byte_of (192 + r / 64); byte_of (128 + r mod 64)]
  else if r <? 65536 then
    [byte_of (224 + r / 4096); byte_of (128 + r / 64 mod 64); byte_of (128 + r mod 64)]
  else
    [byte_of (240 + r / 262144); byte_of (128 + r / 4096 mod 64);
     byte_of (128 + r / 64 mod 64); byte_of (128 + r mod 64)].

Definition utf16_rune (r : Z) : list Z :=
  if r <? 65536 then [r]
  else [55296 + (r - 65536) / 1024; 56320 + (r - 65536) mod 1024].

Definition code_units (s : string) : list Z := concat (map utf16_rune (runes s)).

Fixpoint compare_units (a b : list Z) : Z :=
  match a, b with
  | [], [] => 0
  | [], _ :: _ => -1
  | _ :: _, [] => 1
  | x :: a', y :: b' => if x =? y then compare_units a' b' else if x <? y then -1 else 1
  end.

Definition compareCodeUnits (a b : string) : Z := compare_units (code_units a) (code_units b).

(** ** Strings and numbers *)

Definition hex_digit (z : Z) : ascii := byte_of (if z <? 10 then 48 + z else 87 + z).

Definition quote : ascii := ascii_of_N 34.
Definition backslash : ascii := ascii_of_N 92.

Definition write_rune (r : Z) : list ascii :=
  if r =? 34 then [backslash; quote]
  else if r =? 92 then [backslash; backslash]
  else if r =? 8 then [backslash; "b"%char]
  else if r =? 12 then [backslash; "f"%char]
  else if r =? 10 then [backslash; "n"%char]
  else if r =? 13 then [backslash; "r"%char]
  else if r =? 9 then [backslash; "t"%char]
  else if r <? 32 then
    [backslash; "u"%char; "0"%char; "0"%char; hex_digit (r / 16); hex_digit (r mod 16)]
  else encode_rune r.

Definition writeJSString (s : string) : list ascii :=
  quote :: concat (map write_rune (runes s)) ++ [quote].

Definition float64 (z : Z) : spec_float := binary_normalize 53 1024 z 0 false.
Definition f1e21 : spec_float := S754_finite false 7629394531250000 17.
Definition f1em6 : spec_float := S754_finite false 4722366482869645 (-72).

Definition bytes_cut_e (l : list ascii) : list ascii * list ascii :=
  let fix go l := match l with
    | [] => ([], [])
    | c :: l' => if Ascii.eqb c "e"%char then ([], l') else let '(a, b) := go l' in (c :: a, b)
    end in go l.

Fixpoint trim_zeros (l : list ascii) : list ascii :=
  match l with
  | c :: l' => if Ascii.eqb c "0"%char then trim_zeros l' else l
  | [] => []
  end.

Section Canonical.
Context `{FloatFormat}.

Definition jsNumber (f : spec_float) : list ascii :=
  match f with
  | S754_nan | S754_infinity _ => list_ascii_of_string "null"
  | S754_zero _ => list_ascii_of_string "0"
  | S754_finite _ _ _ =>
      let abs := SFabs f in
      if negb (SFltb abs f1e21) || SFltb abs f1em6 then
        let '(mant, exp) := bytes_cut_e (list_ascii_of_string (format_e f)) in
        match exp with
        | sign :: digits => mant ++ "e"%char :: sign :: trim_zeros digits
        | [] => mant ++ ["e"%char]
        end
      else list_ascii_of_string (format_f f)
  end.

Definition maxCanonicalDepth : nat := 256.

(** The entries of an object, sorted by key. *)
Definition sort_entries {A} (m : list (string * A)) : list (string * A) :=
  sort_by (fun x y => compareCodeUnits x.1 y.1 <? 0) m.

(** [b.WriteByte(',')] between the elements. *)
Fixpoint join_comma (l : list (list ascii)) : list ascii :=
  match l with
  | [] => []
  | [x] => x
  | x :: l' => x ++ ","%char :: join_comma l'
  end.

(** All elements written, or [None] at the first error. *)
Definition all_written : list (option (list ascii)) -> option (list (list ascii)) :=
  fix go l := match l with
    | [] => Some []
    | None :: _ => None
    | Some x :: l' => match go l' with None => None | Some xs => Some (x :: xs) end
    end.

(** [fuel] is the nesting still allowed: [maxCanonicalDepth - depth + 1]. *)
Fixpoint writeCanonical (fuel : nat) (v : json) : option (list ascii) :=
  match fuel with
  | O => None
  | S fuel' =>
      match v with
      | JNull => Some (list_ascii_of_string "null")
      | JBool b => Some (list_ascii_of_string (if b then "true" else "false"))
      | JString s => Some (writeJSString s)
      | JFloat f => Some (jsNumber f)
      | JInt z => Some (jsNumber (float64 z))
      | JArray l =>
          match all_written (map (writeCanonical fuel') l) with
          | None => None
          | Some xs => Some ("["%char :: join_comma xs ++ ["]"%char])
          end
      | JObject m =>
          let entry kv :=
            match writeCanonical fuel' kv.2 with
            | None => None
            | Some x => Some (writeJSString kv.1 ++ ":"%char :: x)
            end in
          match all_written (map entry (sort_entries m)) with
          | None => None
          | Some xs => Some ("{"%char :: join_comma xs ++ ["}"%char])
          end
      end
  end.

Definition CanonicalJSON (v : json) : option string :=
  match writeCanonical (S maxCanonicalDepth) v with
  | None => None
  | Some l => Some (string_of_list_ascii l)
  end.

(** ** The encoding does not depend on map order *)

Lemma compare_units_antisym a b : compare_units b a = - compare_units a b.
Proof.
  revert b. induction a as [|x a IH]; intros [|y b]; simpl; try done.
  rewrite (Z.eqb_sym y x). destruct (Z.eqb_spec x y) as [->|Hne]; [apply IH|].
  destruct (Z.ltb_spec x y), (Z.ltb_spec y x); lia.
Qed.

Lemma compare_units_eq a b : compare_units a b = 0 -> a = b.
Proof.
  revert b. induction a as [|x a IH]; intros [|y b]; simpl; try done.
  destruct (Z.eqb_spec x y) as [->|Hne]; [intros; f_equal; auto|]. by destruct (x <? y).
Qed.

Lemma compare_units_trans a b c :
  compare_units a b <= 0 -> compare_units b c <= 0 -> compare_units a c <= 0.
Proof.
  revert b c. induction a as [|x a IH]; intros [|y b] [|z c]; simpl; try lia.
  destruct (Z.eqb_spec x y), (Z.eqb_spec y z), (Z.eqb_spec x z);
    destruct (Z.ltb_spec x y), (Z.ltb_spec y z), (Z.ltb_spec x z); try lia. intros. eapply IH; eauto.
Qed.

Definition entry_less {A} (x y : string * A) : bool := compareCodeUnits x.1 y.1 <? 0.

Lemma entry_less_asym {A} (x y : string * A) : entry_less x y = true -> entry_less y x = false.
Proof.
  unfold entry_less, compareCodeUnits. rewrite (compare_units_antisym (code_units x.1)).
  destruct (Z.ltb_spec (compare_units (code_units x.1) (code_units y.1)) 0); [|done].
  intros _. apply Z.ltb_ge. lia.
Qed.

Lemma entry_less_trans {A} (x y z : string * A) :
  entry_less y x = false -> entry_less z y = false -> entry_less z x = false.
Proof.
  unfold entry_less, compareCodeUnits. rewrite !Z.ltb_ge. intros H1 H2.
  rewrite compare_units_antisym in H1, H2 |- *.
  pose proof (compare_units_trans (code_units x.1) (code_units y.1) (code_units z.1)). lia.
Qed.

Lemma sort_entries_perm_eq {A} (m m' : list (string * A)) :
  NoDup (map (fun kv => code_units kv.1) m) -> m ≡ₚ m' -> sort_entries m = sort_entries m'.
Proof.
  intros Hnd Hp. apply sort_by_unique; [apply entry_less_asym|apply entry_less_trans| |done].
  intros x y Hx Hy. unfold compareCodeUnits. rewrite !Z.ltb_ge, (compare_units_antisym (code_units x.1)).
  intros H1 H2. assert (Hu : code_units x.1 = code_units y.1) by (apply compare_units_eq; lia).
  apply list_elem_of_lookup_1 in Hx as [i Hi]. apply list_elem_of_lookup_1 in Hy as [j Hj].
  assert (i = j) as ->; [|congruence].
  eapply (NoDup_lookup _ i j (code_units x.1) Hnd); rewrite list_lookup_fmap; [by rewrite Hi|].
  rewrite Hj. simpl. by rewrite Hu.
Qed.

(** Two Go values that differ only in the iteration order of their maps, at any depth. Keys are
    distinct as JavaScript strings. *)
Inductive same_json : json -> json -> Prop :=
  | same_refl v : same_json v v
  | same_array l l' : Forall2 same_json l l' -> same_json (JArray l) (JArray l')
  | same_object m m' m'' :
      NoDup (map (fun kv => code_units kv.1) m) -> m ≡ₚ m' ->
      Forall2 (fun x y => x.1 = y.1 ∧ same_json x.2 y.2) m' m'' ->
      same_json (JObject m) (JObject m'').

Lemma all_written_Forall2 {A B} (R : A -> B -> Prop) (f : A -> option (list ascii)) g l l' :
  (∀ x y, R x y -> f x = g y) -> Forall2 R l l' ->
  all_written (map f l) = all_written (map g l').
Proof.
  intros Hfg. induction 1 as [|x y l l' Hxy _ IH]; simpl; [done|]. rewrite (Hfg x y Hxy).
  destruct (g y); [|done]. by rewrite IH.
Qed.

Lemma writeCanonical_same fuel v w :
  same_json v w -> writeCanonical fuel v = writeCanonical fuel w.
Proof.
  revert v w. induction fuel as [|fuel IH]; intros v w Hs; [done|].
  destruct Hs as [v|l l' Hl|m m' m'' Hnd Hp Hm]; simpl; [done|..].
  - by rewrite (all_written_Forall2 same_json _ (writeCanonical fuel) l l').
  - rewrite (sort_entries_perm_eq m m' Hnd Hp).
    erewrite (all_written_Forall2 (fun x y => x.1 = y.1 ∧ same_json x.2 y.2)); [done| |].
    + intros x y [-> Hxy]. by rewrite (IH _ _ Hxy).
    + apply sort_by_Forall2; [|done]. intros x y x' y' [Hx _] [Hy _]. by rewrite Hx, Hy.
Qed.

(** Canonical encoding is deterministic: values that differ only in the order in which Go happens to
    iterate their maps, at any depth, encode to the same bytes, when the keys of each map are
    distinct as UTF-16 strings. *)
Theorem CanonicalJSON_order_independent v w (Hs : same_json v w) : CanonicalJSON v = CanonicalJSON w.
Proof. unfold CanonicalJSON. by rewrite (writeCanonical_same _ _ _ Hs). Qed.

(** Distinct Go keys are not enough: two keys that are different invalid UTF-8 byte strings are equal
    as UTF-16 strings, and the encoding of a map with both depends on the iteration order, so the
    signed or hashed bytes of such a value are not determined by it. *)
Theorem CanonicalJSON_invalid_keys_ambiguous :
  ∃ m m', NoDup (map fst m) ∧ m ≡ₚ m' ∧ CanonicalJSON (JObject m) ≠ CanonicalJSON (JObject m').
Proof.
  set (k := (fun n => String (ascii_of_N n) "")).
  exists [(k 254%N, JBool true); (k 255%N, JBool false)], [(k 255%N, JBool false); (k 254%N, JBool true)].
  split; [|split].
  - apply (bool_decide_eq_true_1 (NoDup _)). vm_compute. reflexivity.
  - apply Permutation_swap.
  - vm_compute. congruence.
Qed.
End Canonical.

(** ** Witnesses *)

(** Decimal formatting of whole numbers. *)
Definition whole (f : spec_float) : string :=
  match f with
  | S754_finite sign m e =>
      let z := if 0 <=? e then Zpos m * 2 ^ e else Zpos m / 2 ^ (- e) in
      pretty (if sign then - z else z)
  | _ => "0"
  end.

Definition int_floats : FloatFormat := {| format_e := fun f => whole f +:+ "e+00"; format_f := whole |}.

Example canonical_example :
  @CanonicalJSON int_floats (JObject [("b", JInt (-120)); ("a", JArray [JString "x"; JNull; JBool true])])
  = Some (string_of_list_ascii
            (("{"%char :: quote :: "a"%char :: quote :: list_ascii_of_string ":[")
             ++ quote :: "x"%char :: quote :: list_ascii_of_string ",null,true],"
             ++ quote :: "b"%char :: quote :: list_ascii_of_string ":-120}")).
Proof. vm_compute. reflexivity. Qed.

Lemma CanonicalJSON_order_independent_witness :
  @CanonicalJSON int_floats (JObject [("b", JInt 1); ("a", JArray [JString "x"])])
  = @CanonicalJSON int_floats (JObject [("a", JArray [JString "x"]); ("b", JInt 1)]).
Proof.
  apply (@CanonicalJSON_order_independent int_floats).
  eapply same_object; [|apply Permutation_swap|repeat constructor].
  apply (bool_decide_eq_true_1 (NoDup _)). vm_compute. reflexivity.
Defined.
