(* ===== verification/GoJSON.v ===== *)
(** * What [encoding/json] writes for a flat struct

    [json.Marshal] of a struct whose fields are strings and integers, in field order. The theorems
    are about what can be read back: two structs of the same shape with the same encoding hold the same
    integers and, up to bytes that are not valid UTF-8, the same strings. *)

From Stdlib Require Import ZArith Lia String Ascii DecimalString DecimalZ DecimalFacts.
From stdpp Require Import base strings list.
From S2P Require Import Prelude Canonical.

Set Default Goal Selector "!".
Open Scope string_scope.
Open Scope list_scope.
Open Scope Z_scope.

(** ** Encoding *)

(** A rune as [appendString] escapes it, HTML escaping on. *)
Definition json_rune (r : Z) : list ascii :=
  if r =? 34 then [backslash; quote]
  else if r =? 92 then [backslash; backslash]
  else if r =? 8 then [backslash; "b"%char]
  else if r =? 12 then [backslash; "f"%char]
  else if r =? 10 then [backslash; "n"%char]
  else if r =? 13 then [backslash; "r"%char]
  else if r =? 9 then [backslash; "t"%char]
  else if (r <? 32) || (r =? 38) || (r =? 60) || (r =? 62) then
    [backslash; "u"%char; "0"%char; "0"%char; hex_digit (r / 16); hex_digit (r mod 16)]
  else if (r =? 8232) || (r =? 8233) then
    [backslash; "u"%char; "2"%char; "0"%char; "2"%char; hex_digit (r mod 16)]
  else encode_rune r.

(** A byte that is not part of valid UTF-8. *)
Definition json_bad : list ascii := [backslash; "u"%char; "f"%char; "f"%char; "f"%char; "d"%char].

(** The runes of a string, each with whether it stands for an invalid byte. *)
Fixpoint scan_fuel (fuel : nat) (l : list ascii) : list (Z * bool) :=
  match fuel, l with
  | S fuel', c :: l' =>
      let '(r, l'') := decode_rune c l' in
      (r, (r =? RuneError) && bool_decide (length l'' = length l')) :: scan_fuel fuel' l''
  | _, _ => []
  end.

Definition scan (s : string) : list (Z * bool) :=
  let l := list_ascii_of_string s in scan_fuel (length l) l.

Definition json_token (t : Z * bool) : list ascii := if t.2 then json_bad else json_rune t.1.

Definition json_string (s : string) : list ascii := quote :: concat (map json_token (scan s)) ++ [quote].

Inductive json_field := FString (s : string) | FInt (n : Z).

Definition json_value (f : json_field) : list ascii :=
  match f with FString s => json_string s | FInt n => list_ascii_of_string (FormatInt n) end.

Definition json_member (m : string * json_field) : list ascii :=
  quote :: list_ascii_of_string m.1 ++ quote :: ":"%char :: json_value m.2.

Fixpoint json_members (ms : list (string * json_field)) : list ascii :=
  match ms with
  | [] => ["}"%char]
  | [m] => json_member m ++ ["}"%char]
  | m :: ms' => json_member m ++ ","%char :: json_members ms'
  end.

Definition MarshalStruct (ms : list (string * json_field)) : list ascii := "{"%char :: json_members ms.

(** ** Decoding one rune *)

Definition hex_value (c : ascii) : Z :=
  let x := byte_val c in if x <? 58 then x - 48 else x - 87.

(** Reads one token back. *)
Definition read_token (l : list ascii) : option (Z * list ascii) :=
  match l with
  | [] => None
  | c :: l' =>
      if Ascii.eqb c backslash then
        match l' with
        | "u"%char :: a :: b :: d :: e :: l'' =>
            Some (((hex_value a * 16 + hex_value b) * 16 + hex_value d) * 16 + hex_value e, l'')
        | "b"%char :: l'' => Some (8, l'')
        | "f"%char :: l'' => Some (12, l'')
        | "n"%char :: l'' => Some (10, l'')
        | "r"%char :: l'' => Some (13, l'')
        | "t"%char :: l'' => Some (9, l'')
        | e :: l'' => Some (byte_val e, l'')
        | [] => None
        end
      else Some (decode_rune c l')
  end.

Definition scalar (r : Z) : Prop := 0 <= r <= 1114111 ∧ ~ (55296 <= r <= 57343).

Lemma byte_val_of z : 0 <= z < 256 -> byte_val (byte_of z) = z.
Proof.
  intros Hz. unfold byte_val, byte_of. rewrite N_ascii_embedding by lia. lia.
Qed.

Lemma cont_of z : 0 <= z < 64 -> cont (byte_of (128 + z)) = Some z.
Proof.
  intros Hz. unfold cont, in_range. rewrite byte_val_of by lia.
  destruct (Z.leb_spec 128 (128 + z)); [|lia]. destruct (Z.leb_spec (128 + z) 191); [|lia].
  simpl. f_equal. lia.
Qed.

Lemma in_range_true lo hi x : lo <= x <= hi -> in_range lo hi x = true.
Proof. intros H. unfold in_range. apply andb_true_intro. split; apply Z.leb_le; lia. Qed.

Lemma in_range_false lo hi x : ~ (lo <= x <= hi) -> in_range lo hi x = false.
Proof. intros H. unfold in_range. destruct (Z.leb_spec lo x), (Z.leb_spec x hi); simpl; done || lia. Qed.

Ltac digits := Z.div_mod_to_equations; lia.

(** Decoding a rune right after encoding it. *)
Lemma decode_encode r x : scalar r -> 128 <= r ->
  ∃ c l, encode_rune r ++ x = c :: l ∧ decode_rune c l = (r, x) ∧ 128 <= byte_val c.
Proof.
  intros [Hr Hs] Hge. unfold encode_rune. rewrite (proj2 (Z.ltb_ge r 128)) by lia.
  assert (M1 := Z.mod_pos_bound r 64 ltac:(lia)). assert (M2 := Z.mod_pos_bound (r / 64) 64 ltac:(lia)).
  assert (M3 := Z.mod_pos_bound (r / 4096) 64 ltac:(lia)).
  destruct (Z.ltb_spec r 2048); [|destruct (Z.ltb_spec r 65536)]; eexists _, _; (split; [reflexivity|]);
    rewrite byte_val_of by digits; (split; [|digits]); unfold decode_rune; rewrite byte_val_of by digits.
  - rewrite (proj2 (Z.ltb_ge _ 128)) by digits. rewrite in_range_true by digits. cbn [app].
    rewrite cont_of by lia. f_equal. digits.
  - rewrite (proj2 (Z.ltb_ge _ 128)) by digits. rewrite (in_range_false 194) by digits.
    rewrite (in_range_true 224) by digits. cbn [app]. rewrite !cont_of by lia. cbv zeta.
    replace ((224 + r / 4096 - 224) * 4096 + r / 64 mod 64 * 64 + r mod 64) with r by digits.
    rewrite (proj2 (Z.ltb_ge r 2048)), in_range_false by lia. done.
  - rewrite (proj2 (Z.ltb_ge _ 128)) by digits. rewrite (in_range_false 194), (in_range_false 224) by digits.
    rewrite (in_range_true 240) by digits. cbn [app]. rewrite !cont_of by lia. cbv zeta.
    replace ((240 + r / 262144 - 240) * 262144 + r / 4096 mod 64 * 4096 + r / 64 mod 64 * 64 + r mod 64) with r by digits.
    by rewrite in_range_true by lia.
Qed.

(** A token is read back as its rune, and never starts with the quote that ends a string. *)
Lemma read_json_rune r x : scalar r ->
  read_token (json_rune r ++ x) = Some (r, x) ∧ head (json_rune r ++ x) ≠ Some quote.
Proof.
  intros Hr. destruct (decide (r < 128)) as [Hlt|Hge].
  - destruct Hr as [[Hr0 _] _]. rewrite <- (Z2Nat.id r Hr0) in *. remember (Z.to_nat r) as n eqn:En. clear En r Hr0.
    do 128 (destruct n as [|n]; [split; [reflexivity|discriminate]|]). lia.
  - destruct (decide (r = 8232)) as [->|H1]; [split; [reflexivity|discriminate]|].
    destruct (decide (r = 8233)) as [->|H2]; [split; [reflexivity|discriminate]|].
    assert (Hj : json_rune r = encode_rune r).
    { unfold json_rune. repeat (rewrite (proj2 (Z.eqb_neq _ _)) by lia). by rewrite (proj2 (Z.ltb_ge r 32)) by lia. }
    destruct (decode_encode r x Hr) as (c & l & He & Hd & Hc); [lia|]. rewrite Hj, He.
    assert (Hq : ∀ z, 0 <= z < 128 -> c ≠ byte_of z).
    { intros z Hz ->. rewrite byte_val_of in Hc by lia. lia. }
    split; [|simpl; intros [= E]; by apply (Hq 34)]. simpl.
    destruct (Ascii.eqb_spec c backslash) as [E|_]; [by destruct (Hq 92)|]. by rewrite Hd.
Qed.

(** [decode_rune] returns scalar values. *)
Lemma cont_range c y : cont c = Some y -> 0 <= y < 64.
Proof. unfold cont, in_range. intros H. case_match; [|done]. simplify_eq. bool_prop. lia. Qed.

Lemma byte_val_range c : 0 <= byte_val c < 256.
Proof. unfold byte_val. pose proof (N_ascii_bounded c). lia. Qed.

Lemma decode_scalar c l : scalar (decode_rune c l).1.
Proof.
  pose proof (byte_val_range c) as Hb. assert (He : scalar RuneError) by (unfold scalar, RuneError; lia).
  unfold decode_rune. destruct (Z.ltb_spec (byte_val c) 128); [unfold scalar; simpl; lia|].
  destruct (in_range 194 223 (byte_val c)) eqn:E1.
  { unfold in_range in E1. bool_prop. destruct l as [|c1 l]; [done|]. destruct (cont c1) as [y|] eqn:Ey; [|done].
    apply cont_range in Ey. unfold scalar. simpl. lia. }
  destruct (in_range 224 239 (byte_val c)) eqn:E2.
  { unfold in_range in E2. bool_prop. destruct l as [|c1 [|c2 l]]; [done|done|].
    destruct (cont c1) as [y|] eqn:Ey; [|done]. destruct (cont c2) as [z|] eqn:Ez; [|done].
    apply cont_range in Ey, Ez. cbv zeta. destruct (_ || _) eqn:Eb; [done|].
    apply orb_false_elim in Eb as [_ Eb]. unfold in_range in Eb. unfold scalar. simpl.
    destruct (Z.leb_spec 55296 ((byte_val c - 224) * 4096 + y * 64 + z)); [|lia].
    destruct (Z.leb_spec ((byte_val c - 224) * 4096 + y * 64 + z) 57343); [done|lia]. }
  destruct (in_range 240 244 (byte_val c)) eqn:E3; [|done].
  destruct l as [|c1 [|c2 [|c3 l]]]; [done|done|done|].
  destruct (cont c1) as [y|] eqn:Ey; [|done]. destruct (cont c2) as [z|] eqn:Ez; [|done].
  destruct (cont c3) as [w|] eqn:Ew; [|done]. cbv zeta. destruct (in_range 65536 1114111 _) eqn:Er; [|done].
  unfold in_range in Er. bool_prop. unfold scalar. simpl. lia.
Qed.

(** ** Reading back *)

Definition token_ok (t : Z * bool) : Prop := scalar t.1 ∧ (t.2 = true -> t.1 = RuneError).

Lemma scan_fuel_ok fuel l : Forall token_ok (scan_fuel fuel l).
Proof.
  revert l. induction fuel as [|fuel IH]; intros [|c l]; simpl; try constructor.
  pose proof (decode_scalar c l) as Hs. destruct (decode_rune c l) as [r l']. simpl in Hs.
  constructor; [|apply IH]. split; [done|]. simpl. intros [Hr%Z.eqb_eq _]%andb_prop. done.
Qed.

Lemma scan_runes s : map fst (scan s) = runes s.
Proof.
  unfold scan, runes. generalize (list_ascii_of_string s). intros l. generalize (length l). intros n.
  revert l. induction n as [|n IH]; intros [|c l]; simpl; try done.
  destruct (decode_rune c l) as [r l']. simpl. by rewrite IH.
Qed.

Lemma read_json_token t x : token_ok t ->
  read_token (json_token t ++ x) = Some (t.1, x) ∧ head (json_token t ++ x) ≠ Some quote.
Proof.
  intros [Hs Hb]. unfold json_token. destruct t.2; [|by apply read_json_rune].
  rewrite Hb by done. split; [reflexivity|discriminate].
Qed.

(** The runes of a string can be read back, and so can what follows it. *)
Lemma json_tokens_inj ts ts' x y :
  Forall token_ok ts -> Forall token_ok ts' ->
  concat (map json_token ts) ++ quote :: x = concat (map json_token ts') ++ quote :: y ->
  map fst ts = map fst ts' ∧ x = y.
Proof.
  intros Hts. revert ts'. induction Hts as [|t ts Ht Hts IH]; intros ts' Hts' He;
    destruct Hts' as [|t' ts' Ht' Hts'].
  - by injection He.
  - exfalso. cbn [map concat] in He. rewrite <- app_assoc in He.
    apply (proj2 (read_json_token t' (concat (map json_token ts') ++ quote :: y) Ht')). by rewrite <- He.
  - exfalso. cbn [map concat] in He. rewrite <- app_assoc in He.
    apply (proj2 (read_json_token t (concat (map json_token ts) ++ quote :: x) Ht)). by rewrite He.
  - cbn [map concat] in *. rewrite <- !app_assoc in He.
    pose proof (proj1 (read_json_token t (concat (map json_token ts) ++ quote :: x) Ht)) as H1.
    pose proof (proj1 (read_json_token t' (concat (map json_token ts') ++ quote :: y) Ht')) as H2.
    rewrite He, H2 in H1. injection H1 as Hr Hrest. destruct (IH ts' Hts' (eq_sym Hrest)) as [-> ->].
    by rewrite Hr.
Qed.

Lemma json_string_inj s s' x y :
  json_string s ++ x = json_string s' ++ y -> runes s = runes s' ∧ x = y.
Proof.
  unfold json_string. cbn [app]. rewrite <- !app_assoc. cbn [app]. intros [= He].
  rewrite <- !scan_runes. by apply json_tokens_inj; [apply scan_fuel_ok|apply scan_fuel_ok|].
Qed.

(** *** Integers *)

Definition int_char (c : ascii) : bool := existsb (Ascii.eqb c) (list_ascii_of_string "-0123456789").

Lemma uint_chars d : forallb int_char (list_ascii_of_string (NilEmpty.string_of_uint d)) = true.
Proof. induction d; simpl; done. Qed.

Lemma FormatInt_chars n : forallb int_char (list_ascii_of_string (FormatInt n)) = true.
Proof.
  assert (Hz : ∀ d, forallb int_char (list_ascii_of_string (NilZero.string_of_uint d)) = true).
  { intros d. pose proof (uint_chars d). by destruct d. }
  unfold FormatInt. destruct (Z.to_int n); simpl; apply Hz.
Qed.

Lemma FormatInt_read n : option_map Z.of_int (NilZero.int_of_string (FormatInt n)) = Some n.
Proof.
  unfold FormatInt. rewrite <- (of_to n) at 2.
  destruct (Z.to_int n) as [[]|[]]; try reflexivity; by rewrite NilZero.isi.
Qed.

Lemma list_ascii_inj s s' : list_ascii_of_string s = list_ascii_of_string s' -> s = s'.
Proof. intros H. rewrite <- (string_of_list_ascii_of_string s), H. apply string_of_list_ascii_of_string. Qed.

(** The part before a separator is determined when neither part contains it. *)
Lemma before_sep {A} (P : A -> bool) (l l' x y : list A) c :
  forallb P l = true -> forallb P l' = true -> P c = false -> l ++ c :: x = l' ++ c :: y -> l = l' ∧ x = y.
Proof.
  intros Hl Hl' Hc. revert l' Hl'. induction l as [|a l IH]; intros [|b l'] Hl'; simpl in *; intros He; simplify_eq.
  - done.
  - apply andb_prop in Hl' as [? _]. congruence.
  - apply andb_prop in Hl as [? _]. congruence.
  - apply andb_prop in Hl as [_ Hl]. apply andb_prop in Hl' as [_ Hl']. by destruct (IH Hl l' Hl') as [-> ->].
Qed.

Lemma FormatInt_inj n n' c x y :
  int_char c = false ->
  list_ascii_of_string (FormatInt n) ++ c :: x = list_ascii_of_string (FormatInt n') ++ c :: y ->
  n = n' ∧ x = y.
Proof.
  intros Hc He. apply (before_sep int_char) in He as [He%list_ascii_inj ->]; [|apply FormatInt_chars..|done].
  split; [|done]. pose proof (FormatInt_read n) as H1. rewrite He, FormatInt_read in H1. congruence.
Qed.

(** *** Structs *)

Definition same_kind (f f' : json_field) : Prop :=
  match f, f' with FString _, FString _ | FInt _, FInt _ => True | _, _ => False end.

(** Equal up to invalid UTF-8. *)
Definition same_value (f f' : json_field) : Prop :=
  match f, f' with
  | FString s, FString s' => runes s = runes s'
  | FInt n, FInt n' => n = n'
  | _, _ => False
  end.

Definition same_shape : list (string * json_field) -> list (string * json_field) -> Prop :=
  Forall2 (fun m m' => m.1 = m'.1 ∧ same_kind m.2 m'.2).

Lemma json_member_inj m m' c x y :
  m.1 = m'.1 -> same_kind m.2 m'.2 -> int_char c = false ->
  json_member m ++ c :: x = json_member m' ++ c :: y -> same_value m.2 m'.2 ∧ x = y.
Proof.
  intros Hn Hk Hc. unfold json_member. rewrite Hn. cbn [app]. rewrite <- !app_assoc. intros [= He].
  apply app_inv_head in He. injection He as He. destruct m.2 as [s|n], m'.2 as [s'|n']; simpl in *; try done.
  - apply json_string_inj in He as [? He]. by injection He as ->.
  - by eapply FormatInt_inj.
Qed.

(** Two structs of one shape with one encoding hold the same values, up to invalid UTF-8. *)
Lemma MarshalStruct_inj ms ms' :
  same_shape ms ms' -> MarshalStruct ms = MarshalStruct ms' ->
  Forall2 (fun m m' => same_value m.2 m'.2) ms ms'.
Proof.
  intros Hs [= He]. revert He. induction Hs as [|m m' ms ms' [Hn Hk] Hs IH]; intros He; [constructor|].
  destruct Hs as [|m1 m1' ms ms' H1 Hs].
  - simpl in He. apply json_member_inj in He as [? _]; [|done..]. by repeat constructor.
  - cbn [json_members] in He. fold (json_members (m1 :: ms)) (json_members (m1' :: ms')) in He.
    apply json_member_inj in He as [Hv He]; [|done..]. constructor; [done|]. by apply IH.
Qed.

(** [string([]rune(s)) == s]: the string is valid UTF-8. *)
Definition valid_utf8 (s : string) : Prop := concat (map encode_rune (runes s)) = list_ascii_of_string s.

Lemma valid_utf8_runes_inj s s' : valid_utf8 s -> valid_utf8 s' -> runes s = runes s' -> s = s'.
Proof. unfold valid_utf8. intros H H' E. apply list_ascii_inj. congruence. Qed.

Definition valid_members (ms : list (string * json_field)) : Prop :=
  Forall (fun m => match m.2 with FString s => valid_utf8 s | FInt _ => True end) ms.

(** With valid UTF-8 throughout, the encoding determines the struct. *)
Lemma MarshalStruct_valid_inj ms ms' :
  same_shape ms ms' -> valid_members ms -> valid_members ms' -> MarshalStruct ms = MarshalStruct ms' -> ms = ms'.
Proof.
  intros Hs Hv Hv' He%MarshalStruct_inj; [|done]. revert Hv Hv' He. unfold valid_members.
  induction Hs as [|[n f] [n' f'] ms ms' [Hn Hk] Hs IH]; [done|].
  intros [Hf Hv]%Forall_cons [Hf' Hv']%Forall_cons [Hm He]%Forall2_cons. simpl in *. subst n'. f_equal; [f_equal|by apply IH].
  destruct f, f'; simpl in *; try done; f_equal; [by apply valid_utf8_runes_inj|done].
Qed.
