(* ===== verification/AuditChain.v ===== *)
(** * The audit hash chain ([internal/audit/chainhash.go], [chain.go], [storage/postgres])

    Each audit row is hashed together with the hash of the row before it in its chain, one chain per
    organization. The rows are built and verified by [chainhash.go]; the Postgres backend appends
    batches under the lock of the chain heads, blanks the raw ids of an erased user and verifies the
    table in order of chain and position. SHA-256 and HMAC are parameters. [json.Marshal] of metadata,
    delegation chain and provenance is part of an event. The native [jsonb] and [inet] columns that
    mirror two hashed texts are not modelled. *)

From Stdlib Require Import ZArith Lia String Ascii Sorting.Sorted.
From stdpp Require Import base gmap strings list sorting.
From S2P Require Import Prelude Canonical GoJSON.

Set Default Goal Selector "!".
Open Scope string_scope.
Open Scope list_scope.
Open Scope Z_scope.

(** Hex of SHA-256, and of HMAC-SHA256 under a secret. *)
Class ChainLib := {
  sha256_hex : list ascii -> string;
  hmac_hex : string -> string -> string;
}.

(** ** Rows ([chainhash.go]) *)

Definition ChainHashVersion : Z := 1.

Record ChainPayload := mkPayload {
  p_v : Z; p_chain_key : string; p_seq : Z; p_prev : string; p_id : string; p_org : string;
  p_actor_user : string; p_actor_session : string; p_action : string; p_target_type : string;
  p_target_id : string; p_metadata : string; p_ip : string; p_user_agent : string; p_created_at : Z;
  p_subject : string; p_actor : string; p_policy_version : string; p_approver : string;
  p_delegation : string; p_provenance : string;
}.

(** The members [json.Marshal] writes, at the given version. *)
Definition payload_members (v : Z) (p : ChainPayload) : list (string * json_field) :=
  [("v", FInt v); ("chainKey", FString (p_chain_key p)); ("seq", FInt (p_seq p));
   ("prev", FString (p_prev p)); ("id", FString (p_id p)); ("org", FString (p_org p));
   ("actorUserPseudonym", FString (p_actor_user p)); ("actorSession", FString (p_actor_session p));
   ("action", FString (p_action p)); ("targetType", FString (p_target_type p));
   ("targetId", FString (p_target_id p)); ("metadata", FString (p_metadata p)); ("ip", FString (p_ip p));
   ("userAgent", FString (p_user_agent p)); ("createdAt", FInt (p_created_at p));
   ("subjectPseudonym", FString (p_subject p)); ("actorPseudonym", FString (p_actor p));
   ("policyVersion", FString (p_policy_version p)); ("approverPseudonym", FString (p_approver p));
   ("delegationChain", FString (p_delegation p)); ("inputProvenance", FString (p_provenance p))].

Record ChainHead := mkHead { h_seq : Z; h_hash : string }.

(** [json.Marshal] of the three maps is [None] when it fails. Ids are their string forms. *)
Record AuditEvent := mkEvent {
  e_id : string; e_org : option string; e_actor_user : option string; e_actor_session : option string;
  e_action : string; e_target_type : string; e_target_id : string; e_metadata : option string;
  e_ip : string; e_user_agent : string; e_created_at : Z; e_subject : string; e_actor : string;
  e_policy_version : string; e_approver : string; e_delegation : option string;
  e_provenance : option string;
}.

Record ChainRow := mkRow {
  r_payload : ChainPayload; r_hash : string; r_actor_user : string; r_subject : string; r_actor : string;
  r_approver : string; r_org : string; r_session : string; r_extra : string;
}.

(** [models.AuditChainBreak] and [models.AuditChainResult] *)
Record AuditChainBreak := mkBreak { b_key : string; b_row : string; b_seq : Z; b_reason : string }.

Record AuditChainResult := mkResult {
  ar_supported : bool; ar_ok : bool; ar_checked : Z; ar_unchained : Z; ar_erased : Z;
  ar_break : option AuditChainBreak;
}.

Section Chain.
Context `{ChainLib}.

Definition row_input (p : ChainPayload) : list ascii := MarshalStruct (payload_members ChainHashVersion p).

Definition RowHash (p : ChainPayload) : string := sha256_hex (row_input p).

Definition Pseudonym (secret id : string) : string :=
  if (id =? "")%string then "" else hmac_hex secret ("theauth.audit.pseudonym.v1:" +:+ id).

Definition MarshalOr (raw : option string) (empty : string) : option string :=
  match raw with
  | None => None
  | Some s => if (s =? "null")%string then Some empty else Some s
  end.

Definition ChainKey (e : AuditEvent) : string := default "" (e_org e).

Definition BuildChainEntry (e : AuditEvent) (secret : string) (head : ChainHead) (now : Z)
  : option (ChainPayload * string) :=
  match MarshalOr (e_metadata e) "{}", MarshalOr (e_delegation e) "[]", MarshalOr (e_provenance e) "{}" with
  | Some meta, Some chain, Some prov =>
      let created := if IsZero (e_created_at e) then now else e_created_at e in
      let p := mkPayload 0 (ChainKey e) (h_seq head + 1) (h_hash head) (e_id e) (ChainKey e)
        (match e_actor_user e with Some u => Pseudonym secret u | None => "" end)
        (default "" (e_actor_session e)) (e_action e) (e_target_type e) (e_target_id e) meta (e_ip e)
        (e_user_agent e) (UnixMicro created) (Pseudonym secret (e_subject e)) (Pseudonym secret (e_actor e))
        (e_policy_version e) (Pseudonym secret (e_approver e)) chain prov in
      Some (p, RowHash p)
  | _, _, _ => None
  end.

(** *** Verification *)

(** The four raw ids beside their pseudonyms: [None] for a mismatch, else whether one was erased. *)
Fixpoint check_ids (secret : option string) (ids : list (string * string)) : option bool :=
  match ids with
  | [] => Some false
  | (raw, pseudo) :: ids' =>
      if (raw =? "")%string && negb (pseudo =? "")%string then option_map (fun _ => true) (check_ids secret ids')
      else match secret with
      | Some sec =>
          if negb (raw =? "")%string && negb (Pseudonym sec raw =? pseudo)%string then None
          else check_ids secret ids'
      | None => check_ids secret ids'
      end
  end.

Definition row_ids (r : ChainRow) : list (string * string) :=
  [(r_actor_user r, p_actor_user (r_payload r)); (r_subject r, p_subject (r_payload r));
   (r_actor r, p_actor (r_payload r)); (r_approver r, p_approver (r_payload r))].

(** One row against the position and hash expected: the reason of a break, or whether it is erased. *)
Definition check_row (secret : option string) (wantSeq : Z) (wantPrev : string) (r : ChainRow) : string + bool :=
  let p := r_payload r in
  if negb (p_seq p =? wantSeq) then inl "seq_gap"
  else if negb (p_prev p =? wantPrev)%string then inl "prev_hash_mismatch"
  else if negb (RowHash p =? r_hash r)%string then inl "hash_mismatch"
  else if (negb (r_org r =? "")%string && negb (r_org r =? p_chain_key p)%string)
          || (negb (r_session r =? "")%string && negb (r_session r =? p_actor_session p)%string)
  then inl "hash_mismatch"
  else if negb (r_extra r =? "")%string then inl (r_extra r)
  else match check_ids secret (row_ids r) with
  | None => inl "pseudonym_mismatch"
  | Some erased => inr erased
  end.

(** The chain the walk is in, [None] before the first row, and what its next row must show. *)
Record walk := mkWalk { w_key : option string; w_seq : Z; w_prev : string; w_checked : Z; w_erased : Z }.

Definition enter (w : walk) (key : string) : walk :=
  if bool_decide (w_key w = Some key) then w else mkWalk (Some key) 1 "" (w_checked w) (w_erased w).

(** A row that cannot be read ends the walk with an error, beside the counts so far. *)
Fixpoint walk_rows (secret : option string) (unchained : Z) (w : walk) (rows : list (option ChainRow))
  : AuditChainResult * bool :=
  match rows with
  | [] => (mkResult true true (w_checked w) unchained (w_erased w) None, true)
  | None :: _ => (mkResult true true (w_checked w) unchained (w_erased w) None, false)
  | Some r :: rows' =>
      let p := r_payload r in
      let w := enter w (p_chain_key p) in
      let checked := w_checked w + 1 in
      match check_row secret (w_seq w) (w_prev w) r with
      | inl reason =>
          (mkResult true false checked unchained (w_erased w)
             (Some (mkBreak (p_chain_key p) (p_id p) (p_seq p) reason)), true)
      | inr erased =>
          walk_rows secret unchained
            (mkWalk (w_key w) (w_seq w + 1) (r_hash r) checked
               (if erased : bool then w_erased w + 1 else w_erased w)) rows'
      end
  end.

Definition VerifyChainRows (rows : list (option ChainRow)) (secret : option string) (unchained : Z)
  : AuditChainResult * bool :=
  walk_rows secret unchained (mkWalk None 0 "" 0 0) rows.

(** ** The Postgres backend ([postgres_audit.go], [audit_chain.go], [postgres_lifecycle.go]) *)

Record AuditTable := mkTable {
  t_rows : list ChainRow; t_heads : gmap string ChainHead; t_secret : option string; t_unchained : Z;
}.

Definition stored_row (e : AuditEvent) (p : ChainPayload) (hash : string) : ChainRow :=
  mkRow p hash (default "" (e_actor_user e)) (e_subject e) (e_actor e) (e_approver e) (default "" (e_org e))
    (default "" (e_actor_session e)) "".

(** [lockChainHeads]: a chain without a row gets position 0 and no hash. *)
Definition head_of (heads : gmap string ChainHead) (key : string) : ChainHead :=
  default (mkHead 0 "") (heads !! key).

Fixpoint append_events (secret : string) (now : Z) (events : list AuditEvent) (rows : list ChainRow)
    (heads : gmap string ChainHead) : option (list ChainRow * gmap string ChainHead) :=
  match events with
  | [] => Some (rows, heads)
  | e :: events' =>
      match BuildChainEntry e secret (head_of heads (ChainKey e)) now with
      | None => None
      | Some (p, hash) =>
          append_events secret now events' (rows ++ [stored_row e p hash])
            (<[ChainKey e := mkHead (p_seq p) hash]> heads)
      end
  end.

(** [fresh] is the secret drawn when there is none yet. A failed batch is rolled back. *)
Definition InsertAuditEvents (t : AuditTable) (fresh : string) (now : Z) (events : list AuditEvent) : AuditTable * bool :=
  match events with
  | [] => (t, true)
  | _ =>
      let secret := default fresh (t_secret t) in
      match append_events secret now events (t_rows t) (t_heads t) with
      | None => (t, false)
      | Some (rows, heads) => (mkTable rows heads (Some secret) (t_unchained t), true)
      end
  end.

Definition blank (id raw : string) : string := if (raw =? id)%string then "" else raw.

(** What [DeleteUserCascade] does to the audit rows: the statements on the three id columns, and the
    foreign keys on the user and on the user's sessions, which are set to null. *)
Definition DeleteUserCascade (user : string) (sessions : list string) (t : AuditTable) : AuditTable :=
  mkTable (map (fun r =>
      mkRow (r_payload r) (r_hash r) (blank user (r_actor_user r)) (blank user (r_subject r))
        (blank user (r_actor r)) (blank user (r_approver r)) (r_org r)
        (if bool_decide (r_session r ∈ sessions) then "" else r_session r) (r_extra r)) (t_rows t))
    (t_heads t) (t_secret t) (t_unchained t).

(** [ORDER BY chain_key, chain_seq] *)
Definition row_less (r r' : ChainRow) : bool :=
  let k := p_chain_key (r_payload r) in
  let k' := p_chain_key (r_payload r') in
  String.ltb k k' || ((k =? k')%string && (p_seq (r_payload r) <? p_seq (r_payload r'))).

Definition VerifyAuditChain (t : AuditTable) : AuditChainResult * bool :=
  VerifyChainRows (map Some (sort_by row_less (t_rows t))) (t_secret t) (t_unchained t).

(** [chain.go]: a backend without a chain, here [None], is reported as unverified, with an error. *)
Definition VerifyChain (st : option AuditTable) : AuditChainResult * bool :=
  match st with
  | Some t => VerifyAuditChain t
  | None => (mkResult false false 0 0 0 None, false)
  end.
End Chain.

(** ** Linked rows *)

Section Linked.
Context `{ChainLib}.

Notation key r := (p_chain_key (r_payload r)).
Notation seq r := (p_seq (r_payload r)).

(** What a row must show after the row [prev] of the walk. *)
Definition want (prev : option ChainRow) (r : ChainRow) : Z * string :=
  match prev with
  | Some q => if bool_decide (key q = key r) then (seq q + 1, r_hash q) else (1, "")
  | None => (1, "")
  end.

Definition row_ok (secret : option string) (prev : option ChainRow) (r : ChainRow) : Prop :=
  ∃ erased, check_row secret (want prev r).1 (want prev r).2 r = inr erased.

Fixpoint linked (secret : option string) (prev : option ChainRow) (rows : list ChainRow) : Prop :=
  match rows with
  | [] => True
  | r :: rows' => row_ok secret prev r ∧ linked secret (Some r) rows'
  end.

(** The walk has just passed [prev]. *)
Definition passed (prev : option ChainRow) (w : walk) : Prop :=
  match prev with
  | None => w_key w = None
  | Some q => w_key w = Some (key q) ∧ w_seq w = seq q + 1 ∧ w_prev w = r_hash q
  end.

Lemma enter_want prev w r :
  passed prev w -> (w_seq (enter w (key r)), w_prev (enter w (key r))) = want prev r
  ∧ w_key (enter w (key r)) = Some (key r) ∧ w_checked (enter w (key r)) = w_checked w.
Proof.
  intros Hp. unfold enter, want. destruct prev as [q|]; simpl in Hp.
  - destruct Hp as (Hk & Hs & Hh). rewrite Hk. destruct (decide (key q = key r)) as [E|E].
    + rewrite !bool_decide_eq_true_2 by congruence. rewrite Hs, Hh. split_and!; congruence || done.
    + rewrite !bool_decide_eq_false_2 by congruence. done.
  - rewrite Hp. by rewrite bool_decide_eq_false_2.
Qed.

Lemma check_row_seq secret n h r b : check_row secret n h r = inr b -> seq r = n ∧ p_prev (r_payload r) = h
  ∧ RowHash (r_payload r) = r_hash r.
Proof.
  unfold check_row. destruct (Z.eqb_spec (seq r) n); [|done]. cbn [negb].
  destruct (String.eqb_spec (p_prev (r_payload r)) h); [|done]. cbn [negb].
  by destruct (String.eqb_spec (RowHash (r_payload r)) (r_hash r)).
Qed.

(** The walk succeeds exactly on linked rows, and then it has checked them all. *)
Lemma walk_linked secret u rows prev w :
  passed prev w ->
  (linked secret prev rows ->
     ∃ e, walk_rows secret u w (map Some rows)
          = (mkResult true true (w_checked w + Z.of_nat (length rows)) u e None, true))
  ∧ (ar_ok (walk_rows secret u w (map Some rows)).1 = true -> linked secret prev rows).
Proof.
  revert prev w. induction rows as [|r rows IH]; intros prev w Hp; cbn [map walk_rows linked].
  { split; [|done]. intros _. eexists. do 2 f_equal. simpl. lia. }
  destruct (enter_want prev w r Hp) as (Hw & Hk & Hc). apply (f_equal fst) in Hw as Hs. apply (f_equal snd) in Hw as Hh.
  simpl in Hs, Hh. unfold row_ok. rewrite Hs, Hh.
  destruct (check_row secret (want prev r).1 (want prev r).2 r) as [reason|erased] eqn:Ec.
  { split; [|done]. by intros [[? ?] _]. }
  pose proof (check_row_seq _ _ _ _ _ Ec) as (Hseq & _ & _).
  set (w' := mkWalk _ _ _ _ _). assert (Hp' : passed (Some r) w').
  { simpl. split_and!; [done| |done]. lia. }
  destruct (IH (Some r) w' Hp') as [IH1 IH2]. split.
  - intros [_ Hl]. destruct (IH1 Hl) as [e He]. exists e. rewrite He. unfold w'. cbn [w_checked length]. rewrite Hc.
    do 2 f_equal. lia.
  - intros Hok. split; [by eauto|]. by apply IH2.
Qed.

Lemma VerifyChainRows_linked secret u rows :
  (linked secret None rows -> ∃ e, VerifyChainRows (map Some rows) secret u
     = (mkResult true true (Z.of_nat (length rows)) u e None, true))
  ∧ (ar_ok (VerifyChainRows (map Some rows) secret u).1 = true -> linked secret None rows).
Proof. by apply (walk_linked secret u rows None (mkWalk None 0 "" 0 0)). Qed.

(** Inside linked rows, a row past the first of its chain directly follows the row it names. *)
Lemma linked_row secret prev rows i r :
  linked secret prev rows -> rows !! i = Some r ->
  RowHash (r_payload r) = r_hash r
  ∧ (seq r, p_prev (r_payload r)) = want (match i with O => prev | S i' => rows !! i' end) r.
Proof.
  revert prev i. induction rows as [|q rows IH]; intros prev i Hl Hi; [done|]. destruct Hl as [[b Hq] Hl].
  destruct i as [|i]; simpl in Hi.
  - injection Hi as ->. apply check_row_seq in Hq as (-> & -> & ?). split; [done|]. by destruct (want prev r).
  - destruct (IH (Some q) i Hl Hi) as [H1 H2]. split; [done|]. rewrite H2. by destruct i.
Qed.

Lemma linked_pred secret rows i r :
  linked secret None rows -> rows !! i = Some r -> 1 < seq r ->
  ∃ i' q, i = S i' ∧ rows !! i' = Some q ∧ key q = key r ∧ seq r = seq q + 1 ∧ p_prev (r_payload r) = r_hash q.
Proof.
  intros Hl Hi Hs. destruct (linked_row _ _ _ _ _ Hl Hi) as [_ Hw]. unfold want in Hw.
  destruct i as [|i]; [injection Hw; lia|]. destruct (rows !! i) as [q|] eqn:Hq; [|injection Hw; lia].
  destruct (bool_decide (key q = key r)) eqn:Ek; [|injection Hw; lia]. apply bool_decide_eq_true in Ek.
  injection Hw as H1 H2. by exists i, q.
Qed.

Lemma linked_seq_pos secret rows i r : linked secret None rows -> rows !! i = Some r -> 1 <= seq r.
Proof.
  revert r. induction i as [|i IH]; intros r Hl Hi; destruct (linked_row _ _ _ _ _ Hl Hi) as [_ Hw]; unfold want in Hw.
  - injection Hw. lia.
  - destruct (rows !! i) as [q|] eqn:Hq; [|injection Hw; lia]. specialize (IH q Hl eq_refl).
    destruct (bool_decide _); injection Hw; lia.
Qed.

(** ** Tamper evidence *)

Definition valid_payload (p : ChainPayload) : Prop := valid_members (payload_members ChainHashVersion p).

(** Every hashed field agrees: all but the version, which is not stored. *)
Definition same_payload (p p' : ChainPayload) : Prop :=
  payload_members ChainHashVersion p = payload_members ChainHashVersion p'.

Lemma row_input_inj p p' :
  valid_payload p -> valid_payload p' -> row_input p = row_input p' -> same_payload p p'.
Proof. intros Hv Hv' He. by apply MarshalStruct_valid_inj; [repeat constructor|..]. Qed.

(** The rows hold valid UTF-8 and no two of their hash inputs collide. *)
Definition no_collision (rows rows' : list ChainRow) : Prop :=
  ∀ r r', r ∈ rows -> r' ∈ rows' -> sha256_hex (row_input (r_payload r)) = sha256_hex (row_input (r_payload r')) ->
    row_input (r_payload r) = row_input (r_payload r').

Definition valid_rows (rows : list ChainRow) : Prop := Forall (fun r => valid_payload (r_payload r)) rows.

(** From a common hash, two linked logs agree row by row back to the start of the chain. *)
Lemma linked_agree secret secret' rows rows' i j r r' (k : nat) :
  linked secret None rows -> linked secret' None rows' -> valid_rows rows -> valid_rows rows' ->
  no_collision rows rows' -> rows !! i = Some r -> rows' !! j = Some r' -> r_hash r = r_hash r' ->
  Z.of_nat k < seq r ->
  ∃ q q', (k <= i)%nat ∧ (k <= j)%nat ∧ rows !! (i - k)%nat = Some q ∧ rows' !! (j - k)%nat = Some q'
    ∧ r_hash q = r_hash q' ∧ same_payload (r_payload q) (r_payload q') ∧ key q = key r ∧ seq q = seq r - Z.of_nat k.
Proof.
  intros Hl Hl' Hv Hv' Hc Hi Hj.
  assert (Hsame : ∀ a b q q', rows !! a = Some q -> rows' !! b = Some q' -> r_hash q = r_hash q' ->
    same_payload (r_payload q) (r_payload q')).
  { intros a b q q' Ha Hb Hh. destruct (linked_row _ _ _ _ _ Hl Ha) as [H1 _].
    destruct (linked_row _ _ _ _ _ Hl' Hb) as [H2 _].
    apply list_elem_of_lookup_2 in Ha as Hin. apply list_elem_of_lookup_2 in Hb as Hin'.
    apply row_input_inj; [by eapply (proj1 (Forall_forall _ _) Hv)|by eapply (proj1 (Forall_forall _ _) Hv')|].
    apply Hc; [done|done|]. unfold RowHash in *. congruence. }
  intros Hh. induction k as [|k IH]; intros Hk.
  - exists r, r'. rewrite !Nat.sub_0_r. split_and!; try lia; try done. by eapply Hsame.
  - destruct IH as (q & q' & Hki & Hkj & Hq & Hq' & Hqh & Hp & Hkey & Hs); [lia|].
    destruct (linked_pred _ _ _ _ Hl Hq) as (i' & p & Ei & Hpi & Hkp & Hsp & Hpp); [lia|].
    assert (Hm : seq q' = seq q ∧ p_prev (r_payload q') = p_prev (r_payload q)).
    { unfold same_payload, payload_members in Hp. by simplify_eq. }
    destruct Hm as [Hm1 Hm2].
    destruct (linked_pred _ _ _ _ Hl' Hq') as (j' & p' & Ej & Hpj & _ & _ & Hpp'); [lia|].
    exists p, p'. replace (i - S k)%nat with i' by lia. replace (j - S k)%nat with j' by lia.
    assert (r_hash p = r_hash p') by congruence.
    split_and!; try lia; try done; [by eapply Hsame|congruence].
Qed.

End Linked.

(** C20. The audit chain is tamper evident: when two logs both verify and one row of each shows the
    same hash, the two logs agree on every hashed field of that row and of every row before it in its
    chain, back to the first, at the same positions. So changing, inserting, removing or reordering
    rows below a known hash is detected, provided the rows are valid UTF-8 and SHA-256 shows no
    collision between their hash inputs. *)
Theorem chain_tamper_evident `{ChainLib} secret secret' u u' rows rows' i j r r' :
  ar_ok (VerifyChainRows (map Some rows) secret u).1 = true ->
  ar_ok (VerifyChainRows (map Some rows') secret' u').1 = true ->
  valid_rows rows -> valid_rows rows' -> no_collision rows rows' ->
  rows !! i = Some r -> rows' !! j = Some r' -> r_hash r = r_hash r' ->
  1 <= p_seq (r_payload r) ∧ ∀ k : nat, Z.of_nat k < p_seq (r_payload r) ->
    ∃ q q', (k <= i)%nat ∧ (k <= j)%nat ∧ rows !! (i - k)%nat = Some q ∧ rows' !! (j - k)%nat = Some q'
      ∧ same_payload (r_payload q) (r_payload q').
Proof.
  intros Hl%VerifyChainRows_linked Hl'%VerifyChainRows_linked Hv Hv' Hc Hi Hj Hh. split.
  - exact (linked_seq_pos _ _ _ _ Hl Hi).
  - intros k Hk. destruct (linked_agree secret secret' rows rows' i j r r' k) as (q & q' & ? & ? & ? & ? & _ & ? & _); try done.
    exists q, q'. by split_and!.
Qed.

(** ** Logs the backend writes *)

Section Written.
Context `{ChainLib}.

Notation key r := (p_chain_key (r_payload r)).
Notation seq r := (p_seq (r_payload r)).

Definition position (r : ChainRow) : string * Z := (key r, seq r).

Lemma row_less_true r r' :
  row_less r r' = true ↔ String.ltb (key r) (key r') = true ∨ (key r = key r' ∧ seq r < seq r').
Proof. unfold row_less. rewrite orb_true_iff, andb_true_iff, String.eqb_eq, Z.ltb_lt. done. Qed.

Lemma row_less_false r r' :
  row_less r r' = false ↔ String.ltb (key r) (key r') = false ∧ (key r = key r' -> seq r' <= seq r).
Proof.
  unfold row_less. rewrite orb_false_iff, andb_false_iff, String.eqb_neq, Z.ltb_ge.
  destruct (decide (key r = key r')); naive_solver.
Qed.

Lemma string_ltb_irrefl s : String.ltb s s = false.
Proof. destruct (String.ltb s s) eqn:E; [|done]. pose proof (string_ltb_asym _ _ E). congruence. Qed.

Lemma row_less_asym r r' : row_less r r' = true -> row_less r' r = false.
Proof.
  rewrite row_less_true, row_less_false. intros [Hk|[Hk Hs]].
  - split; [by apply string_ltb_asym|]. intros E. rewrite E, string_ltb_irrefl in Hk. done.
  - rewrite Hk. split; [apply string_ltb_irrefl|lia].
Qed.

Lemma row_not_less_trans x y z : row_less y x = false -> row_less z y = false -> row_less z x = false.
Proof.
  rewrite !row_less_false. intros [H1 H2] [H3 H4]. split; [by eapply string_not_ltb_trans|]. intros E.
  assert (Ey : key y = key z).
  { apply string_ltb_total; [rewrite E; done|done]. }
  rewrite Ey in H2. specialize (H2 E). specialize (H4 (eq_sym Ey)). lia.
Qed.

(** Rows between two rows of one chain are of that chain. *)
Lemma row_between p q r :
  key p = key r -> row_less q p = false -> row_less r q = false -> key q = key r ∧ seq p <= seq q <= seq r.
Proof.
  rewrite !row_less_false. intros E [H1 H2] [H3 H4].
  assert (Eq : key q = key r) by (apply string_ltb_total; [by rewrite <- E|done]).
  split; [done|]. split; [apply H2; congruence|by apply H4].
Qed.

Definition id_ok (secret : string) (id : string * string) : Prop := id.1 = "" ∨ Pseudonym secret id.1 = id.2.

(** A row is sound on its own: its hash is right, and raw columns are blank or agree with the hash. *)
Record row_sound (secret : string) (r : ChainRow) : Prop := mkRowSound {
  rs_hash : RowHash (r_payload r) = r_hash r;
  rs_org : r_org r = "" ∨ r_org r = key r;
  rs_session : r_session r = "" ∨ r_session r = p_actor_session (r_payload r);
  rs_extra : r_extra r = "";
  rs_ids : Forall (id_ok secret) (row_ids r);
}.

(** It starts its chain, or the row it names is in the table. *)
Definition has_pred (rows : list ChainRow) (r : ChainRow) : Prop :=
  (seq r = 1 ∧ p_prev (r_payload r) = "")
  ∨ ∃ q, q ∈ rows ∧ key q = key r ∧ seq r = seq q + 1 ∧ p_prev (r_payload r) = r_hash q.

Lemma check_ids_ok secret ids : Forall (id_ok secret) ids -> is_Some (check_ids (Some secret) ids).
Proof.
  induction 1 as [|[raw pseudo] ids Hid Hids [b Hb]]; simpl; [by eexists|]. rewrite Hb.
  destruct (_ && _) eqn:E; [by eexists|]. destruct (negb (raw =? "")%string && _) eqn:E2; [|by eexists].
  bool_prop. by destruct Hid.
Qed.

Lemma check_row_sound secret r : row_sound secret r -> ∃ b, check_row (Some secret) (seq r) (p_prev (r_payload r)) r = inr b.
Proof.
  intros [Hh Ho Hs He Hi]. unfold check_row. rewrite Z.eqb_refl, String.eqb_refl, Hh, String.eqb_refl, He.
  assert (Horg : negb (r_org r =? "")%string && negb (r_org r =? key r)%string = false).
  { destruct Ho as [->| ->]; [done|]. by rewrite String.eqb_refl, andb_false_r. }
  assert (Hses : negb (r_session r =? "")%string && negb (r_session r =? p_actor_session (r_payload r))%string = false).
  { destruct Hs as [->| ->]; [done|]. by rewrite String.eqb_refl, andb_false_r. }
  rewrite Horg, Hses. destruct (check_ids_ok _ _ Hi) as [b Hb]. rewrite Hb. by exists b.
Qed.

Lemma NoDup_map_inj {A B} (f : A -> B) l x y : NoDup (map f l) -> x ∈ l -> y ∈ l -> f x = f y -> x = y.
Proof.
  induction l as [|a l IH]; simpl; [set_solver|]. intros [Ha Hnd]%NoDup_cons Hx Hy E.
  assert (Hin : ∀ z, z ∈ l -> f z ∈ map f l) by (intros z Hz; by apply list_elem_of_In, in_map, list_elem_of_In).
  apply elem_of_cons in Hx as [->|Hx], Hy as [->|Hy]; [done| | |by apply IH].
  - destruct Ha. rewrite E. by apply Hin.
  - destruct Ha. rewrite <- E. by apply Hin.
Qed.

(** In rows in order, what the walk wants of a row after the rows before it is what the row shows. *)
Lemma want_sorted l1 r l2 :
  let l := l1 ++ r :: l2 in
  StronglySorted (not_after row_less) l -> NoDup (map position l) -> (∀ q, q ∈ l -> 1 <= seq q) ->
  has_pred l r -> want (last l1) r = (seq r, p_prev (r_payload r)).
Proof.
  intros l Hs Hnd Hpos Hpred. apply StronglySorted_app in Hs as (Hle & Hs1 & Hs2).
  assert (Hlt : ∀ q, q ∈ l1 -> row_less r q = false ∧ position q ≠ position r).
  { intros q Hq. split; [apply Hle; [done|set_solver]|]. intros E. unfold l in Hnd. rewrite map_app in Hnd.
    apply NoDup_app in Hnd as (_ & Hd & _). apply (Hd (position q)); [by apply list_elem_of_In, in_map, list_elem_of_In|].
    rewrite E. apply list_elem_of_In, in_map, list_elem_of_In. set_solver. }
  destruct (last l1) as [q|] eqn:Eq.
  - apply last_Some in Eq as [l1' ->]. destruct (Hlt q) as [Hqr Hne]; [set_solver|].
    unfold want. destruct Hpred as [[H1 H2]|(p & Hp & Hk & Hsq & Hpr)].
    + rewrite bool_decide_eq_false_2; [by rewrite H1, H2|]. intros E. apply row_less_false in Hqr as [_ Hqr].
      specialize (Hqr (eq_sym E)). assert (1 <= seq q) by (apply Hpos; unfold l; set_solver).
      apply Hne. unfold position. rewrite E. f_equal. lia.
    + assert (Hpl : p ∈ l1' ++ [q]).
      { apply elem_of_app in Hp as [?|[->|Hp]%elem_of_cons]; [done|lia|].
        apply StronglySorted_inv in Hs2 as [_ Hs2]. rewrite Forall_forall in Hs2. specialize (Hs2 p Hp).
        apply row_less_false in Hs2 as [_ Hs2]. specialize (Hs2 Hk). lia. }
      assert (Hpq : row_less q p = false).
      { apply elem_of_app in Hpl as [Hpl| ->%list_elem_of_singleton].
        - apply StronglySorted_app in Hs1 as (Hle1 & _). apply Hle1; [done|set_solver].
        - apply row_less_false. split; [apply string_ltb_irrefl|lia]. }
      destruct (row_between p q r Hk Hpq Hqr) as [Hkq Hsb]. rewrite bool_decide_eq_true_2 by done.
      assert (Epq : p = q); [|subst p; by rewrite Hsq, Hpr].
      apply (NoDup_map_inj position l); [done|unfold l; set_solver|unfold l; set_solver|].
      assert (seq q ≠ seq r) by (intros E; apply Hne; unfold position; by rewrite Hkq, E).
      unfold position. f_equal; [congruence|lia].
  - apply last_None in Eq as ->. unfold want. destruct Hpred as [[H1 H2]|(p & Hp & Hk & Hsq & Hpr)]; [by rewrite H1, H2|].
    apply elem_of_cons in Hp as [->|Hp]; [lia|]. apply StronglySorted_inv in Hs2 as [_ Hs2].
    rewrite Forall_forall in Hs2. specialize (Hs2 p Hp). apply row_less_false in Hs2 as [_ Hs2].
    specialize (Hs2 Hk). lia.
Qed.

(** Rows in order, each sound and with its predecessor among them, are linked. *)
Lemma sorted_linked secret l :
  StronglySorted (not_after row_less) l -> NoDup (map position l) ->
  (∀ r, r ∈ l -> 1 <= seq r ∧ row_sound secret r ∧ has_pred l r) -> linked (Some secret) None l.
Proof.
  intros Hs Hnd Hall.
  assert (Hgen : ∀ l2 l1, l = l1 ++ l2 -> linked (Some secret) (last l1) l2); [|by apply (Hgen l [])].
  induction l2 as [|r l2 IH]; intros l1 El; [done|]. split.
  2: { specialize (IH (l1 ++ [r])). rewrite last_snoc in IH. apply IH. by rewrite <- app_assoc. }
  assert (Hr : r ∈ l) by (rewrite El; set_solver). destruct (Hall r Hr) as (Hpos & Hsound & Hpred).
  unfold row_ok. subst l. rewrite (want_sorted l1 r l2); [by apply check_row_sound|done|done| |done].
  intros q Hq. by apply Hall.
Qed.

(** *** The table *)

Record rows_ok (secret : string) (rows : list ChainRow) (heads : gmap string ChainHead) : Prop := mkRowsOk {
  ok_rows : ∀ r, r ∈ rows ->
    1 <= seq r <= h_seq (head_of heads (key r)) ∧ row_sound secret r ∧ has_pred rows r;
  ok_positions : NoDup (map position rows);
  ok_heads : ∀ k, let h := head_of heads k in
    (h_seq h = 0 ∧ h_hash h = "")
    ∨ (0 < h_seq h ∧ ∃ r, r ∈ rows ∧ key r = k ∧ seq r = h_seq h ∧ r_hash r = h_hash h);
}.

Lemma Build_sound e secret head now p hash :
  BuildChainEntry e secret head now = Some (p, hash) ->
  row_sound secret (stored_row e p hash) ∧ p_chain_key p = ChainKey e ∧ p_seq p = h_seq head + 1
  ∧ p_prev p = h_hash head.
Proof.
  unfold BuildChainEntry. destruct (MarshalOr (e_metadata e) _); [|done].
  destruct (MarshalOr (e_delegation e) _); [|done]. destruct (MarshalOr (e_provenance e) _); [|done].
  intros [= <- <-]. split; [|done]. constructor; simpl; [done|by right|by right|done|].
  unfold row_ids, stored_row. simpl. constructor; [destruct (e_actor_user e); [by right|by left]|]. by repeat (constructor; [by right|]).
Qed.

Lemma has_pred_app rows rows' r : has_pred rows r -> has_pred (rows ++ rows') r.
Proof. intros [?|(q & Hq & ?)]; [by left|right]. exists q. split; [set_solver|done]. Qed.

Lemma rows_ok_append secret rows heads e p hash now :
  rows_ok secret rows heads -> BuildChainEntry e secret (head_of heads (ChainKey e)) now = Some (p, hash) ->
  rows_ok secret (rows ++ [stored_row e p hash]) (<[ChainKey e := mkHead (p_seq p) hash]> heads).
Proof.
  intros [Hr Hn Hh] (Hs & Hk & Hq & Hp)%Build_sound. set (r := stored_row e p hash).
  assert (Hge : 0 <= h_seq (head_of heads (ChainKey e))) by (destruct (Hh (ChainKey e)) as [[-> _]|[? _]]; lia).
  assert (Hhead : ∀ k, head_of (<[ChainKey e := mkHead (p_seq p) hash]> heads) k
    = if decide (k = ChainKey e) then mkHead (p_seq p) hash else head_of heads k).
  { intros k. unfold head_of. case_decide as E; [by rewrite E, lookup_insert_eq|by rewrite lookup_insert_ne]. }
  constructor.
  - intros q [Hin| ->%list_elem_of_singleton]%elem_of_app; rewrite Hhead.
    + destruct (Hr q Hin) as (Hb & ? & ?). split_and!; try done; [lia| |by apply has_pred_app].
      case_decide as E; [|lia]. rewrite E in Hb. simpl. lia.
    + unfold r. cbn [stored_row r_payload]. rewrite Hk. rewrite decide_True by done. cbn [h_seq].
      split_and!; [lia|lia|done|]. unfold has_pred. change (r_payload (stored_row e p hash)) with p.
      destruct (Hh (ChainKey e)) as [[H0 H1]|(H0 & q & Hin & ? & ? & ?)].
      * left. split; [lia|congruence].
      * right. exists q. split_and!; [set_solver|congruence|lia|congruence].
  - rewrite map_app. apply NoDup_app. split_and!; [done| |by apply NoDup_singleton].
    intros x (q & <- & Hin)%list_elem_of_In%in_map_iff E%list_elem_of_singleton.
    apply list_elem_of_In in Hin. destruct (Hr q Hin) as (Hb & _). unfold position, r in E. simpl in E.
    injection E as E1 E2. rewrite E1, Hk in Hb. lia.
  - intros k. rewrite Hhead. case_decide as E.
    + right. simpl. split; [lia|]. exists r. split_and!; [set_solver|unfold r; simpl; congruence|done|done].
    + destruct (Hh k) as [?|(? & q & ? & ?)]; [by left|right]. split; [done|]. exists q. split; [set_solver|done].
Qed.

Lemma append_events_ok secret now events rows heads rows' heads' :
  rows_ok secret rows heads -> append_events secret now events rows heads = Some (rows', heads') ->
  rows_ok secret rows' heads'.
Proof.
  revert rows heads. induction events as [|e events IH]; intros rows heads Hok; simpl; [by intros [= <- <-]|].
  destruct (BuildChainEntry e secret _ now) as [[p hash]|] eqn:E; [|done]. intros Ha.
  eapply IH; [|exact Ha]. by eapply rows_ok_append.
Qed.

Definition table_ok (t : AuditTable) : Prop :=
  match t_secret t with
  | Some secret => rows_ok secret (t_rows t) (t_heads t)
  | None => t_rows t = [] ∧ t_heads t = ∅
  end.

Lemma rows_ok_empty secret : rows_ok secret [] ∅.
Proof. constructor; [set_solver|constructor|]. intros k. by left. Qed.

Lemma InsertAuditEvents_ok t fresh now events : table_ok t -> table_ok (InsertAuditEvents t fresh now events).1.
Proof.
  intros Hok. unfold InsertAuditEvents. destruct events as [|e events]; [done|].
  set (secret := default fresh (t_secret t)).
  assert (Hrows : rows_ok secret (t_rows t) (t_heads t)).
  { unfold table_ok, secret in *. destruct (t_secret t); [done|]. destruct Hok as [-> ->]. apply rows_ok_empty. }
  destruct (append_events _ _ _ _ _) as [[rows heads]|] eqn:Ea; [|done]. by eapply append_events_ok.
Qed.

(** Erasing a user keeps payloads, hashes and positions, and blanks raw columns. *)
Lemma rows_ok_map secret rows heads (f : ChainRow -> ChainRow) :
  (∀ r, r_payload (f r) = r_payload r ∧ r_hash (f r) = r_hash r) ->
  (∀ r, row_sound secret r -> row_sound secret (f r)) ->
  rows_ok secret rows heads -> rows_ok secret (map f rows) heads.
Proof.
  intros Hf Hs [Hr Hn Hh].
  assert (Hin : ∀ q, q ∈ rows -> f q ∈ map f rows) by (intros q Hq; by apply list_elem_of_In, in_map, list_elem_of_In).
  constructor.
  - intros r (q & <- & Hq%list_elem_of_In)%list_elem_of_In%in_map_iff. destruct (Hr q Hq) as (Hb & Hsq & Hpr).
    destruct (Hf q) as [Ep Eh]. unfold has_pred. rewrite Ep. split_and!; [lia|lia|by apply Hs|].
    destruct Hpr as [?|(p & Hp & ?)]; [by left|right]. exists (f p). destruct (Hf p) as [-> ->]. by auto.
  - rewrite map_map. erewrite map_ext; [exact Hn|]. intros q. unfold position. by destruct (Hf q) as [-> _].
  - intros k. destruct (Hh k) as [?|(? & q & Hq & ?)]; [by left|right]. split; [done|]. exists (f q).
    destruct (Hf q) as [-> ->]. by auto.
Qed.

Lemma id_ok_blank secret user raw pseudo : id_ok secret (raw, pseudo) -> id_ok secret (blank user raw, pseudo).
Proof. unfold id_ok, blank. simpl. destruct (raw =? user)%string; [by left|done]. Qed.

Lemma DeleteUserCascade_ok user sessions t : table_ok t -> table_ok (DeleteUserCascade user sessions t).
Proof.
  unfold table_ok. simpl. destruct (t_secret t) as [secret|]; [|by intros [-> ->]].
  apply rows_ok_map; [done|]. intros r [Hh Ho Hse He Hi]. constructor; simpl; [done|done| |done|].
  - destruct (bool_decide _); [by left|done].
  - unfold row_ids in *. simpl. rewrite !Forall_cons in *. destruct Hi as (? & ? & ? & ? & ?).
    split_and!; by auto using id_ok_blank.
Qed.

(** Batches of events and erasures of users, in any order. *)
Inductive audit_step : AuditTable -> AuditTable -> Prop :=
  | audit_insert t fresh now events : audit_step t (InsertAuditEvents t fresh now events).1
  | audit_erase t user sessions : audit_step t (DeleteUserCascade user sessions t).

Definition empty_table (unchained : Z) : AuditTable := mkTable [] ∅ None unchained.

Lemma table_ok_reachable u t : rtc audit_step (empty_table u) t -> table_ok t.
Proof.
  intros Hr. assert (H0 : table_ok (empty_table u)) by done. revert Hr H0. generalize (empty_table u).
  intros t0 Hr. induction Hr as [|? ? ? []]; eauto using InsertAuditEvents_ok, DeleteUserCascade_ok.
Qed.

Lemma table_ok_verifies t : table_ok t ->
  ∃ e, VerifyAuditChain t = (mkResult true true (Z.of_nat (length (t_rows t))) (t_unchained t) e None, true).
Proof.
  intros Hok. unfold VerifyAuditChain. rewrite <- (sort_by_length row_less).
  apply VerifyChainRows_linked. unfold table_ok in Hok. destruct (t_secret t) as [secret|].
  - destruct Hok as [Hr Hn _]. apply sorted_linked.
    + apply sort_by_sorted; [exact row_less_asym|exact row_not_less_trans].
    + by rewrite sort_by_perm.
    + intros r. rewrite elem_of_sort_by. intros Hin. destruct (Hr r Hin) as (? & ? & Hp).
      split_and!; [lia|done|]. destruct Hp as [?|(q & Hq & ?)]; [by left|right]. exists q. by rewrite elem_of_sort_by.
  - destruct Hok as [-> _]. done.
Qed.
End Written.

(** C21. An untouched log verifies: after any sequence of event batches, failed batches and user erasures
    in any number of chains, verification succeeds, reports no break and has checked every chained row. *)
Theorem audit_log_verifies `{ChainLib} u t :
  rtc audit_step (empty_table u) t ->
  ∃ erased, VerifyChain (Some t)
    = (mkResult true true (Z.of_nat (length (t_rows t))) (t_unchained t) erased None, true).
Proof. intros Hr%table_ok_reachable. by apply table_ok_verifies. Qed.

(** The table without the rows of one chain after position [n]. *)
Definition truncate (k : string) (n : Z) (t : AuditTable) : AuditTable :=
  mkTable (filter (fun r => p_chain_key (r_payload r) = k -> p_seq (r_payload r) <= n) (t_rows t))
    (t_heads t) (t_secret t) (t_unchained t).

Lemma NoDup_map_filter {A B} (f : A -> B) (P : A -> Prop) `{∀ x, Decision (P x)} l :
  NoDup (map f l) -> NoDup (map f (filter P l)).
Proof. intros Hn. eapply sublist_NoDup; [exact Hn|]. apply (fmap_sublist f), sublist_filter. Qed.

(** Deleting the end of a chain is not detected: removing the newest rows of any chain, from any
    position on, leaves a log that verifies without a break, although the table of chain heads still
    names the removed rows. *)
Theorem chain_truncation_verifies `{ChainLib} u t k n :
  rtc audit_step (empty_table u) t ->
  ∃ erased, VerifyAuditChain (truncate k n t)
    = (mkResult true true (Z.of_nat (length (t_rows (truncate k n t)))) (t_unchained t) erased None, true)
  ∧ t_heads (truncate k n t) = t_heads t.
Proof.
  intros Hok%table_ok_reachable. unfold VerifyAuditChain. rewrite <- (sort_by_length row_less).
  enough (Hl : linked (t_secret t) None (sort_by row_less (t_rows (truncate k n t)))).
  { destruct (proj1 (VerifyChainRows_linked _ (t_unchained t) _) Hl) as [e He]. by exists e. }
  unfold table_ok in Hok. cbn [truncate t_rows].
  destruct (t_secret t) as [secret|]; [|destruct Hok as [-> _]; done]. destruct Hok as [Hr Hn _]. apply sorted_linked.
  - apply sort_by_sorted; [exact row_less_asym|exact row_not_less_trans].
  - rewrite sort_by_perm. by apply NoDup_map_filter.
  - intros r. rewrite elem_of_sort_by, list_elem_of_filter. intros [Hle Hin].
    destruct (Hr r Hin) as (? & ? & Hp). split_and!; [lia|done|]. destruct Hp as [?|(q & Hq & Hk & Hs & ?)]; [by left|right].
    exists q. rewrite elem_of_sort_by, list_elem_of_filter. split_and!; try done. rewrite Hk. intros E.
    specialize (Hle E). lia.
Qed.

(** ** A small log *)

Definition demo_lib : ChainLib := {|
  sha256_hex l := string_of_list_ascii l; hmac_hex s x := (s +:+ ":" +:+ x)%string |}.
#[local] Existing Instance demo_lib.

Definition demo_event (id actor : string) : AuditEvent :=
  mkEvent id (Some "org") (Some actor) None "login" "user" actor (Some "null") "10.0.0.1" "curl"
    (FromUnix 1700000000) actor "" "v1" "" (Some "null") (Some "null").

Definition demo_table : AuditTable :=
  DeleteUserCascade "ann" []
    (InsertAuditEvents (empty_table 0) "secret" 0 [demo_event "e1" "ann"; demo_event "e2" "bob"]).1.

Definition demo_rows : list ChainRow := sort_by row_less (t_rows demo_table).

Lemma demo_reachable : rtc audit_step (empty_table 0) demo_table.
Proof.
  eapply rtc_l; [apply (audit_insert _ "secret" 0 [demo_event "e1" "ann"; demo_event "e2" "bob"])|].
  apply rtc_once, audit_erase.
Qed.

Lemma audit_log_verifies_witness :
  VerifyChain (Some demo_table) = (mkResult true true 2 0 1 None, true).
Proof. destruct (audit_log_verifies 0 demo_table demo_reachable) as [e He]. vm_compute. reflexivity. Defined.

Lemma chain_truncation_verifies_witness :
  length (t_rows (truncate "org" 1 demo_table)) = 1%nat
  ∧ h_seq (head_of (t_heads (truncate "org" 1 demo_table)) "org") = 2
  ∧ ∃ erased, (VerifyAuditChain (truncate "org" 1 demo_table)) = (mkResult true true 1 0 erased None, true).
Proof.
  split_and!; [vm_compute; reflexivity|vm_compute; reflexivity|].
  destruct (chain_truncation_verifies 0 demo_table "org" 1 demo_reachable) as [e [He _]]. exists e. exact He.
Defined.

Lemma chain_tamper_evident_witness :
  ∃ r, demo_rows !! 1%nat = Some r ∧ p_seq (r_payload r) = 2
    ∧ ∃ q q', demo_rows !! 0%nat = Some q ∧ demo_rows !! 0%nat = Some q' ∧ same_payload (r_payload q) (r_payload q').
Proof.
  assert (Hr : ∃ r, demo_rows !! 1%nat = Some r ∧ p_seq (r_payload r) = 2)
    by (eexists; split; vm_compute; reflexivity).
  destruct Hr as (r & Hr & Hs). exists r. split_and!; [done|done|].
  assert (Hv : valid_rows demo_rows) by (repeat constructor).
  assert (Hok : ar_ok (VerifyChainRows (map Some demo_rows) (t_secret demo_table) 0).1 = true)
    by (vm_compute; reflexivity).
  assert (Hc : no_collision demo_rows demo_rows).
  { intros q q' _ _ E. apply (f_equal list_ascii_of_string) in E. unfold sha256_hex, demo_lib in E.
    by rewrite !list_ascii_of_string_of_list_ascii in E. }
  destruct (chain_tamper_evident _ _ 0 0 demo_rows demo_rows 1 1 r r Hok Hok Hv Hv Hc Hr Hr eq_refl) as [_ Hall].
  destruct (Hall 1%nat) as (q & q' & _ & _ & Hq & Hq' & Hp); [lia|]. exists q, q'. by split_and!.
Defined.
