(* ===== verification/Checkpoint.v ===== *)
(** * Signed checkpoints, proofs and receipts ([audit/checkpoint])

    Leaves of the audit log ([leaves.go]), signed tree heads ([sign.go], [checkpoint.go]), inclusion
    and consistency proofs over them, receipts that reveal some fields of a row ([receipt.go]) and
    the in-memory checkpoint store ([store.go]). A nil Go slice or map, which the verifiers reject,
    is [None]. HMAC, Ed25519 and base64 are the parameters of [Crypto], with the documented facts
    the package relies on. The loops of [VerifyReceipt] over maps run in the order of [map_to_list]:
    in Go the order is arbitrary, which can only change the reason of a failure. *)

From Stdlib Require Import ZArith Lia String Ascii.
From stdpp Require Import base gmap strings list sorting.
From S2P Require Import Prelude Merkle Canonical.

Set Default Goal Selector "!".
Open Scope string_scope.
Open Scope list_scope.
Open Scope Z_scope.

Class Crypto := {
  hmac_sha256 : string -> string -> string;
  ed25519_public : string -> string;
  ed25519_sign : string -> string -> string;
  ed25519_verify : string -> string -> string -> bool;
  b64_encode : string -> string;
  b64_decode : string -> option string;
  hmac_length : ∀ k m, String.length (hmac_sha256 k m) = 32%nat;
  ed25519_public_length : ∀ k, String.length (ed25519_public k) = 32%nat;
  ed25519_sign_length : ∀ k m, String.length (ed25519_sign k m) = 64%nat;
  ed25519_correct : ∀ k m, ed25519_verify (ed25519_public k) m (ed25519_sign k m) = true;
  b64_decode_encode : ∀ s, b64_decode (b64_encode s) = Some s;
}.

(** ** Hexadecimal ([encoding/hex], [types.go]) *)

Definition hex_byte (c : ascii) : list ascii :=
  [hex_digit (byte_val c / 16); hex_digit (byte_val c mod 16)].

Definition hex_encode (s : string) : string :=
  string_of_list_ascii (concat (map hex_byte (list_ascii_of_string s))).

Definition hex_val (c : ascii) : option Z :=
  let x := byte_val c in
  if in_range 48 57 x then Some (x - 48)
  else if in_range 97 102 x then Some (x - 87)
  else if in_range 65 70 x then Some (x - 55)
  else None.

Fixpoint hex_decode_bytes (l : list ascii) : option (list ascii) :=
  match l with
  | [] => Some []
  | a :: b :: l' =>
      match hex_val a, hex_val b, hex_decode_bytes l' with
      | Some x, Some y, Some r => Some (byte_of (16 * x + y) :: r)
      | _, _, _ => None
      end
  | [_] => None
  end.

Definition hex_decode (s : string) : option string :=
  match hex_decode_bytes (list_ascii_of_string s) with
  | None => None
  | Some l => Some (string_of_list_ascii l)
  end.

(** [^[0-9a-f]{64}$] *)
Definition isHashHex (s : string) : bool :=
  (String.length s =? 64)%nat
  && forallb (fun c => in_range 48 57 (byte_val c) || in_range 97 102 (byte_val c))
       (list_ascii_of_string s).

(** [hex.DecodeString] with its error ignored. *)
Definition hex_bytes (s : string) : string := default "" (hex_decode s).

Definition hexList (l : list string) : list string := map hex_encode l.

Fixpoint decodeHexList (l : list string) : option (list string) :=
  match l with
  | [] => Some []
  | s :: l' =>
      if negb (isHashHex s) then None
      else match hex_decode s, decodeHexList l' with
           | Some b, Some bs => Some (b :: bs)
           | _, _ => None
           end
  end.

Definition sameHex (a b : string) : bool :=
  if negb (isHashHex a) || negb (isHashHex b) then false
  else (hex_bytes a =? hex_bytes b)%string.

(** ** Data ([types.go]) *)

Definition checkpointVersion : Z := 1.
Definition leafVersion : Z := 1.
Definition signatureBytes : nat := 64.
Definition publicKeyBytes : nat := 32.
Definition algEd25519 : string := "Ed25519".
Definition jwkKty : string := "OKP".
Definition jwkCrv : string := "Ed25519".
Definition maxSafeInteger : Z := 2 ^ 53 - 1.
Definition newline : string := String (ascii_of_N 10) "".
Definition nul : string := String (ascii_of_N 0) "".
Definition signDomain : string := "theauth.audit.checkpoint.v1" +:+ newline.
Definition saltDomain : string := "theauth.audit.receipt.salt.v1".
Definition commitDomain : string := "theauth.audit.receipt.field.v1".

Record JWK := mkJWK { jwk_kty : string; jwk_crv : string; jwk_x : string }.
Record PublicKey := mkPublicKey { pk_key_id : string; pk_public_key : JWK }.

Record Checkpoint := mkCheckpoint {
  cp_version : Z; cp_alg : string; cp_key_id : string; cp_size : Z; cp_root_hash : string;
  cp_timestamp : Z; cp_since : option Z; cp_until : option Z; cp_signature : string;
}.

Record InclusionProof := mkInclusionProof {
  ip_version : Z; ip_row_id : string; ip_leaf_index : Z; ip_tree_size : Z; ip_leaf_hash : string;
  ip_path : option (list string);
}.

Record ConsistencyProof := mkConsistencyProof {
  cpf_version : Z; cpf_old_size : Z; cpf_new_size : Z; cpf_path : option (list string);
}.

Record RevealedField := mkRevealed { rf_value : json; rf_salt : string }.

Record Decision := mkDecision {
  dec_row_id : string; dec_row_hash : string; dec_hash_version : Z;
  dec_revealed : option (gmap string RevealedField);
  dec_commitments : option (gmap string string);
}.

Record Receipt := mkReceipt {
  rc_version : Z; rc_decision : Decision; rc_proof : InclusionProof; rc_checkpoint : Checkpoint;
}.

Inductive Reason :=
  | ReasonMalformed | ReasonUnsupportedAlg | ReasonUnknownKey | ReasonBadSignature
  | ReasonSizeMismatch | ReasonScopeMismatch | ReasonBadProof | ReasonLeafMismatch
  | ReasonBadCommitment.

(** [Outcome]: valid, or a failure reason. *)
Inductive Outcome := OK | Fail (r : Reason).

Inductive cp_error :=
  | ErrInvalidCheckpoint | ErrLogMismatch | ErrRowNotFound | ErrInvalidField | ErrInvalidOrder
  | ErrScopeMismatch | ErrNoSigner | ErrNoSource | ErrNoSaltKey | ErrReadRows | ErrCanonical
  | ErrSign | ErrSignatureLength | ErrIndexRange | ErrStorePut.

(** ** Leaves ([leaves.go]) *)

Definition GoChainHashVersion : Z := 101.

Definition FieldsV2 : list string :=
  ["id"; "action"; "resource"; "parameters"; "result"; "reason"; "durationMs"; "tokensCost"; "ip";
   "userAgent"; "cacheHit"; "timestamp"; "policyVersion"; "delegationChain"; "inputProvenance";
   "idPseudonyms"].
Definition FieldsV1 : list string :=
  ["id"; "action"; "resource"; "parameters"; "result"; "reason"; "durationMs"; "tokensCost"; "ip";
   "userAgent"; "cacheHit"; "timestamp"; "agentId"; "userId"].
Definition GoChainFields : list string :=
  ["id"; "organizationId"; "action"; "targetType"; "targetId"; "metadata"; "ip"; "userAgent";
   "createdAtMicro"; "policyVersion"; "delegationChain"; "inputProvenance"; "chainSeq"; "prevHash"].

Definition FieldsFor (hashVersion : Z) : list string :=
  if hashVersion =? GoChainHashVersion then GoChainFields
  else if 2 <=? hashVersion then FieldsV2
  else FieldsV1.

Record Row := mkRow {
  row_id : string; row_hash : string; row_hash_version : Z; row_timestamp_ms : Z;
  row_fields : gmap string json;
}.

(** [Source.Rows]; [None] is an error of the source. *)
Record Log := mkLog { lg_source : option (option (list Row)); lg_salt_key : string }.

Record leaf := mkLeaf {
  leaf_row : Row; leaf_salts : gmap string string; leaf_commitments : gmap string string;
  leaf_hash : string;
}.

Section Checkpoint.
Context `{FloatFormat} `{Sha256} `{Crypto}.

Definition fieldSalt (key rowHash field : string) : string :=
  hex_encode (hmac_sha256 key (saltDomain +:+ nul +:+ rowHash +:+ nul +:+ field)).

Definition fieldCommitment (field salt : string) (value : json) : option string :=
  match CanonicalJSON value with
  | None => None
  | Some c =>
      Some (hex_encode (sha256 (commitDomain +:+ nul +:+ field +:+ nul +:+ salt +:+ nul +:+ c)))
  end.

Definition leafPreimage (rowID rowHash : string) (hashVersion : Z) (commitments : gmap string string)
  : option string :=
  let fields := map (fun kv => (kv.1, JString kv.2)) (map_to_list commitments) in
  CanonicalJSON (JObject [("v", JInt leafVersion); ("rowId", JString rowID);
    ("rowHash", JString rowHash); ("hashVersion", JInt hashVersion); ("fields", JObject fields)]).

Fixpoint build_fields (row : Row) (key : string) (fields : list string)
  (salts commitments : gmap string string) : option (gmap string string * gmap string string) :=
  match fields with
  | [] => Some (salts, commitments)
  | f :: fields' =>
      let salt := fieldSalt key (row_hash row) f in
      match fieldCommitment f salt (default JNull (row_fields row !! f)) with
      | None => None
      | Some c => build_fields row key fields' (<[f := salt]> salts) (<[f := c]> commitments)
      end
  end.

Definition buildLeaf (row : Row) (key : string) : option leaf :=
  match build_fields row key (FieldsFor (row_hash_version row)) ∅ ∅ with
  | None => None
  | Some (salts, commitments) =>
      match leafPreimage (row_id row) (row_hash row) (row_hash_version row) commitments with
      | None => None
      | Some pre => Some (mkLeaf row salts commitments (LeafHash pre))
      end
  end.

Definition row_kept (since until : option Z) (r : Row) : bool :=
  negb ((row_hash r =? "")%string
        || match since with Some s => row_timestamp_ms r <? s | None => false end
        || match until with Some u => u <? row_timestamp_ms r | None => false end).

Definition row_less (a b : Row) : bool :=
  if negb (row_timestamp_ms a =? row_timestamp_ms b) then row_timestamp_ms a <? row_timestamp_ms b
  else String.ltb (row_id a) (row_id b).

Fixpoint build_leaves (rows : list Row) (key : string) : option (list leaf) :=
  match rows with
  | [] => Some []
  | r :: rows' =>
      match buildLeaf r key with
      | None => None
      | Some l => match build_leaves rows' key with None => None | Some ls => Some (l :: ls) end
      end
  end.

(** The rows a range covers, in log order. *)
Definition covered (since until : option Z) (rows : list Row) : list Row :=
  sort_by row_less (List.filter (row_kept since until) rows).

Definition loadLeaves (lg : Log) (since until : option Z) (limit : Z) : result cp_error (list leaf) :=
  match lg_source lg with
  | None => Err ErrNoSource
  | Some rows =>
      if (lg_salt_key lg =? "")%string then Err ErrNoSaltKey
      else match rows with
      | None => Err ErrReadRows
      | Some rows =>
          let kept := covered since until rows in
          let kept := if (0 <=? limit) && (limit <? zlen kept) then ztake limit kept else kept in
          match build_leaves kept (lg_salt_key lg) with
          | None => Err ErrCanonical
          | Some ls => Ok ls
          end
      end
  end.

Definition leafHashes (ls : list leaf) : list string := map leaf_hash ls.

(** ** Signatures ([sign.go]) *)

(** A [Signer]; [signer_sign] is [None] when the signer fails. *)
Record Signer := mkSigner { signer_key_id : string; signer_sign : string -> option string }.

Definition Ed25519Signer (key keyID : string) : Signer :=
  mkSigner keyID (fun m => Some (ed25519_sign key m)).

Definition NewPublicKey (keyID pub : string) : PublicKey :=
  mkPublicKey keyID (mkJWK jwkKty jwkCrv (b64_encode pub)).

Definition nilable (p : option Z) : json := match p with None => JNull | Some v => JInt v end.

Definition signedBytes (c : Checkpoint) : option string :=
  match CanonicalJSON (JObject [("version", JInt (cp_version c)); ("alg", JString (cp_alg c));
    ("keyId", JString (cp_key_id c)); ("size", JInt (cp_size c));
    ("rootHash", JString (cp_root_hash c)); ("timestamp", JInt (cp_timestamp c));
    ("since", nilable (cp_since c)); ("until", nilable (cp_until c))]) with
  | None => None
  | Some s => Some (signDomain +:+ s)
  end.

Definition with_signature (c : Checkpoint) (sig : string) : Checkpoint :=
  mkCheckpoint (cp_version c) (cp_alg c) (cp_key_id c) (cp_size c) (cp_root_hash c)
    (cp_timestamp c) (cp_since c) (cp_until c) sig.

Definition signCheckpoint (signer : Signer) (c : Checkpoint) : result cp_error Checkpoint :=
  match signedBytes c with
  | None => Err ErrCanonical
  | Some msg =>
      match signer_sign signer msg with
      | None => Err ErrSign
      | Some sig =>
          if negb (String.length sig =? signatureBytes)%nat then Err ErrSignatureLength
          else Ok (with_signature c (b64_encode sig))
      end
  end.

Definition validTime (p : option Z) : bool :=
  match p with None => true | Some v => (0 <=? v) && (v <=? maxSafeInteger) end.

Definition wellFormed (c : Checkpoint) : bool :=
  (cp_version c =? checkpointVersion) && (0 <=? cp_size c) && (cp_size c <=? maxSafeInteger)
  && isHashHex (cp_root_hash c) && (0 <=? cp_timestamp c) && (cp_timestamp c <=? maxSafeInteger)
  && validTime (cp_since c) && validTime (cp_until c).

Definition VerifyCheckpoint (c : Checkpoint) (keys : list PublicKey) : Outcome :=
  if negb (wellFormed c) then Fail ReasonMalformed
  else if negb (cp_alg c =? algEd25519)%string then Fail ReasonUnsupportedAlg
  else match List.find (fun k => (pk_key_id k =? cp_key_id c)%string) keys with
  | None => Fail ReasonUnknownKey
  | Some k =>
      if negb (jwk_kty (pk_public_key k) =? jwkKty)%string
         || negb (jwk_crv (pk_public_key k) =? jwkCrv)%string
      then Fail ReasonUnsupportedAlg
      else match b64_decode (jwk_x (pk_public_key k)) with
      | None => Fail ReasonBadSignature
      | Some pub =>
          if negb (String.length pub =? publicKeyBytes)%nat then Fail ReasonBadSignature
          else match b64_decode (cp_signature c) with
          | None => Fail ReasonBadSignature
          | Some sig =>
              if negb (String.length sig =? signatureBytes)%nat then Fail ReasonBadSignature
              else match signedBytes c with
              | None => Fail ReasonMalformed
              | Some msg => if ed25519_verify pub msg sig then OK else Fail ReasonBadSignature
              end
          end
      end
  end.

(** ** Checkpoints and proofs ([checkpoint.go]) *)

Definition unix_epoch : Z := 62135596800 * Second.

(** [t.UnixMilli()] *)
Definition UnixMilli (t : Z) : Z := (t - unix_epoch) / 1000000.

Definition rootHex (ls : list leaf) : string := hex_encode (MerkleRoot (leafHashes ls)).

Record CreateOptions (St : Type) := mkCreateOptions {
  co_signer : option Signer;
  co_since : option Z;
  co_until : option Z;
  co_now : Z;
  co_store : option St;
}.
#[global] Arguments mkCreateOptions {St}.
#[global] Arguments co_signer {St}.
#[global] Arguments co_since {St}.
#[global] Arguments co_until {St}.
#[global] Arguments co_now {St}.
#[global] Arguments co_store {St}.

(** [put] is the store's [Put]; the result carries the store after it. *)
Definition CreateCheckpoint {St} (put : St -> Checkpoint -> option St) (clock : Z) (lg : Log)
  (opts : CreateOptions St) : result cp_error (Checkpoint * option St) :=
  match co_signer opts with
  | None => Err ErrNoSigner
  | Some signer =>
      let since := option_map UnixMilli (co_since opts) in
      let until := option_map UnixMilli (co_until opts) in
      match loadLeaves lg since until (-1) with
      | Err e => Err e
      | Ok ls =>
          let now := if IsZero (co_now opts) then clock else co_now opts in
          match signCheckpoint signer
                  (mkCheckpoint checkpointVersion algEd25519 (signer_key_id signer) (zlen ls)
                     (rootHex ls) (UnixMilli now) since until "") with
          | Err e => Err e
          | Ok cp =>
              match co_store opts with
              | None => Ok (cp, None)
              | Some st => match put st cp with None => Err ErrStorePut | Some st' => Ok (cp, Some st') end
              end
          end
      end
  end.

Definition leavesMatching (lg : Log) (cp : Checkpoint) : result cp_error (list leaf) :=
  if negb (wellFormed cp) then Err ErrInvalidCheckpoint
  else match loadLeaves lg (cp_since cp) (cp_until cp) (cp_size cp) with
  | Err e => Err e
  | Ok ls =>
      if zlen ls <? cp_size cp then Err ErrLogMismatch
      else if negb (sameHex (rootHex ls) (cp_root_hash cp)) then Err ErrLogMismatch
      else Ok ls
  end.

Fixpoint index_from (i : Z) (ls : list leaf) (rowID : string) : Z :=
  match ls with
  | [] => -1
  | l :: ls' => if (row_id (leaf_row l) =? rowID)%string then i else index_from (i + 1) ls' rowID
  end.

Definition indexOf (ls : list leaf) (rowID : string) : Z := index_from 0 ls rowID.

Definition leaf_hash_at (ls : list leaf) (idx : Z) : string :=
  default "" (leaf_hash <$> ls !! Z.to_nat idx).

Definition CreateInclusionProof (lg : Log) (rowID : string) (cp : Checkpoint)
  : result cp_error InclusionProof :=
  match leavesMatching lg cp with
  | Err e => Err e
  | Ok ls =>
      let idx := indexOf ls rowID in
      if idx <? 0 then Err ErrRowNotFound
      else match InclusionPath (leafHashes ls) idx with
      | None => Err ErrIndexRange
      | Some path =>
          Ok (mkInclusionProof 1 rowID idx (cp_size cp) (hex_encode (leaf_hash_at ls idx))
                (Some (hexList path)))
      end
  end.

Definition proofShapeOK (p : InclusionProof) : bool :=
  if negb (ip_version p =? 1) || (ip_leaf_index p <? 0) || (maxSafeInteger <? ip_leaf_index p)
     || (ip_tree_size p <? 0) || (maxSafeInteger <? ip_tree_size p) || negb (isHashHex (ip_leaf_hash p))
  then false
  else match ip_path p with
  | None => false
  | Some path => forallb isHashHex path
  end.

Definition VerifyInclusionProof (p : InclusionProof) (cp : Checkpoint) (keys : list PublicKey)
  : Outcome :=
  match VerifyCheckpoint cp keys with
  | Fail r => Fail r
  | OK =>
      if negb (proofShapeOK p) then Fail ReasonMalformed
      else if negb (ip_tree_size p =? cp_size cp) then Fail ReasonSizeMismatch
      else match decodeHexList (default [] (ip_path p)) with
      | None => Fail ReasonMalformed
      | Some path =>
          if negb (VerifyInclusionPath (hex_bytes (ip_leaf_hash p)) (ip_leaf_index p)
                     (ip_tree_size p) path (hex_bytes (cp_root_hash cp)))
          then Fail ReasonBadProof else OK
      end
  end.

Definition sameBound (a b : option Z) : bool :=
  match a, b with
  | None, None => true
  | Some x, Some y => x =? y
  | _, _ => false
  end.

Definition CreateConsistencyProof (lg : Log) (older newer : Checkpoint)
  : result cp_error ConsistencyProof :=
  if negb (wellFormed older) || negb (wellFormed newer) then Err ErrInvalidCheckpoint
  else if cp_size newer <? cp_size older then Err ErrInvalidOrder
  else if negb (sameBound (cp_since older) (cp_since newer)) then Err ErrScopeMismatch
  else match leavesMatching lg newer with
  | Err e => Err e
  | Ok ls =>
      if negb (sameHex (rootHex (ztake (cp_size older) ls)) (cp_root_hash older))
      then Err ErrLogMismatch
      else match ConsistencyPath (leafHashes ls) (cp_size older) with
      | None => Err ErrIndexRange
      | Some path =>
          Ok (mkConsistencyProof 1 (cp_size older) (cp_size newer) (Some (hexList path)))
      end
  end.

Definition VerifyConsistencyProof (p : ConsistencyProof) (older newer : Checkpoint)
  (keys : list PublicKey) : Outcome :=
  match VerifyCheckpoint older keys, VerifyCheckpoint newer keys with
  | Fail r, _ => Fail r
  | OK, Fail r => Fail r
  | OK, OK =>
      match cpf_path p with
      | None => Fail ReasonMalformed
      | Some path =>
          if negb (cpf_version p =? 1) then Fail ReasonMalformed
          else match decodeHexList path with
          | None => Fail ReasonMalformed
          | Some path =>
              if negb (cpf_old_size p =? cp_size older) || negb (cpf_new_size p =? cp_size newer)
              then Fail ReasonSizeMismatch
              else if negb (sameBound (cp_since older) (cp_since newer))
              then Fail ReasonScopeMismatch
              else if negb (VerifyConsistencyPath (cp_size older) (cp_size newer)
                              (hex_bytes (cp_root_hash older)) (hex_bytes (cp_root_hash newer)) path)
              then Fail ReasonBadProof else OK
          end
      end
  end.

(** ** Receipts ([receipt.go]) *)

Fixpoint reveal_fields (l : leaf) (reveal allowed : list string)
  (revealed : gmap string RevealedField) (commitments : gmap string string)
  : gmap string RevealedField * gmap string string :=
  match allowed with
  | [] => (revealed, commitments)
  | name :: allowed' =>
      if bool_decide (name ∈ reveal) then
        let f := mkRevealed (default JNull (row_fields (leaf_row l) !! name))
                   (default "" (leaf_salts l !! name)) in
        reveal_fields l reveal allowed' (<[name := f]> revealed) commitments
      else
        reveal_fields l reveal allowed' revealed
          (<[name := default "" (leaf_commitments l !! name)]> commitments)
  end.

Definition CreateReceipt (lg : Log) (rowID : string) (cp : Checkpoint) (reveal : list string)
  : result cp_error Receipt :=
  match leavesMatching lg cp with
  | Err e => Err e
  | Ok ls =>
      let idx := indexOf ls rowID in
      match (if idx <? 0 then None else ls !! Z.to_nat idx) with
      | None => Err ErrRowNotFound
      | Some l =>
          let allowed := FieldsFor (row_hash_version (leaf_row l)) in
          if negb (forallb (fun name => bool_decide (name ∈ allowed)) reveal) then Err ErrInvalidField
          else
            let '(revealed, commitments) := reveal_fields l reveal allowed ∅ ∅ in
            match InclusionPath (leafHashes ls) idx with
            | None => Err ErrIndexRange
            | Some path =>
                Ok (mkReceipt 1
                      (mkDecision rowID (row_hash (leaf_row l)) (row_hash_version (leaf_row l))
                         (Some revealed) (Some commitments))
                      (mkInclusionProof 1 rowID idx (cp_size cp) (hex_encode (leaf_hash l))
                         (Some (hexList path)))
                      cp)
            end
      end
  end.

(** The first loop of [VerifyReceipt]: the hidden commitments. *)
Definition hidden_ok (allowed : list string) (kv : string * string) : bool :=
  bool_decide (kv.1 ∈ allowed) && isHashHex kv.2.

(** The second loop: each revealed field adds the commitment recomputed from its value. *)
Fixpoint add_revealed (allowed : list string) (l : list (string * RevealedField))
  (commitments : gmap string string) : gmap string string + Reason :=
  match l with
  | [] => inl commitments
  | (name, f) :: l' =>
      if negb (bool_decide (name ∈ allowed)) || negb (isHashHex (rf_salt f)) then inr ReasonMalformed
      else if bool_decide (is_Some (commitments !! name)) then inr ReasonMalformed
      else match fieldCommitment name (rf_salt f) (rf_value f) with
      | None => inr ReasonBadCommitment
      | Some c => add_revealed allowed l' (<[name := c]> commitments)
      end
  end.

Definition VerifyReceipt (r : Receipt) (keys : list PublicKey) : Outcome :=
  let d := rc_decision r in
  match dec_revealed d, dec_commitments d with
  | Some revealed, Some hidden =>
      if negb (rc_version r =? 1) || negb (dec_row_id d =? ip_row_id (rc_proof r))%string
      then Fail ReasonMalformed
      else
        let allowed := FieldsFor (dec_hash_version d) in
        if negb (size revealed + size hidden =? length allowed)%nat then Fail ReasonMalformed
        else if negb (forallb (hidden_ok allowed) (map_to_list hidden)) then Fail ReasonMalformed
        else match add_revealed allowed (map_to_list revealed) hidden with
        | inr reason => Fail reason
        | inl commitments =>
            match leafPreimage (dec_row_id d) (dec_row_hash d) (dec_hash_version d) commitments with
            | None => Fail ReasonMalformed
            | Some pre =>
                match hex_decode (ip_leaf_hash (rc_proof r)) with
                | None => Fail ReasonLeafMismatch
                | Some got =>
                    if negb (isHashHex (ip_leaf_hash (rc_proof r)))
                       || negb (LeafHash pre =? got)%string
                    then Fail ReasonLeafMismatch
                    else VerifyInclusionProof (rc_proof r) (rc_checkpoint r) keys
                end
            end
        end
  | _, _ => Fail ReasonMalformed
  end.

(** ** The in-memory store ([store.go]) *)

Definition MemoryStore : Type := list Checkpoint.

Definition sameCheckpoint (a b : Checkpoint) : bool :=
  (cp_size a =? cp_size b) && (cp_root_hash a =? cp_root_hash b)%string
  && (cp_key_id a =? cp_key_id b)%string && (cp_timestamp a =? cp_timestamp b)
  && sameBound (cp_since a) (cp_since b) && sameBound (cp_until a) (cp_until b)
  && (cp_signature a =? cp_signature b)%string.

Definition checkpoint_less (a b : Checkpoint) : bool :=
  if negb (cp_size a =? cp_size b) then cp_size a <? cp_size b else cp_timestamp a <? cp_timestamp b.

Definition Put (items : MemoryStore) (c : Checkpoint) : MemoryStore :=
  if existsb (fun it => sameCheckpoint it c) items then items
  else sort_by checkpoint_less (items ++ [c]).

Definition Latest (items : MemoryStore) : option Checkpoint := last items.

Definition BySize (items : MemoryStore) (size : Z) : list Checkpoint :=
  List.filter (fun it => cp_size it =? size) items.

Definition List_ (items : MemoryStore) : list Checkpoint := items.

#[local] Opaque CanonicalJSON.

(** ** Hexadecimal round trips *)

Lemma hex_byte_val c :
  hex_val (hex_digit (byte_val c / 16)) = Some (byte_val c / 16)
  ∧ hex_val (hex_digit (byte_val c mod 16)) = Some (byte_val c mod 16)
  ∧ byte_of (16 * (byte_val c / 16) + byte_val c mod 16) = c
  ∧ forallb (fun c => in_range 48 57 (byte_val c) || in_range 97 102 (byte_val c)) (hex_byte c) = true.
Proof. destruct c as [[] [] [] [] [] [] [] []]; vm_compute; done. Qed.

Lemma hex_decode_encode_bytes l : hex_decode_bytes (concat (map hex_byte l)) = Some l.
Proof.
  induction l as [|c l IH]; simpl; [done|].
  destruct (hex_byte_val c) as (-> & -> & Hc & _). by rewrite IH, Hc.
Qed.

Lemma hex_decode_encode b : hex_decode (hex_encode b) = Some b.
Proof.
  unfold hex_decode, hex_encode. rewrite list_ascii_of_string_of_list_ascii, hex_decode_encode_bytes.
  by rewrite string_of_list_ascii_of_string.
Qed.

Lemma hex_bytes_encode b : hex_bytes (hex_encode b) = b.
Proof. unfold hex_bytes. by rewrite hex_decode_encode. Qed.

Lemma length_of_bytes l : String.length (string_of_list_ascii l) = length l.
Proof. induction l as [|c l IH]; simpl; [done|]. by rewrite IH. Qed.

Lemma bytes_length s : length (list_ascii_of_string s) = String.length s.
Proof. induction s as [|c s IH]; simpl; [done|]. by rewrite IH. Qed.

Lemma isHashHex_encode b : is_hash b = true -> isHashHex (hex_encode b) = true.
Proof.
  unfold is_hash, isHashHex, hex_encode. intros Hb%Nat.eqb_eq. unfold hashBytes in Hb.
  rewrite list_ascii_of_string_of_list_ascii, length_of_bytes. apply andb_true_iff. split.
  - apply Nat.eqb_eq. rewrite <- bytes_length in Hb.
    assert (Hl : ∀ l, length (concat (map hex_byte l)) = (2 * length l)%nat)
      by (intros l; induction l as [|c l IH]; simpl in *; lia).
    rewrite Hl, Hb. done.
  - clear Hb. induction (list_ascii_of_string b) as [|c l IH]; [done|].
    change (concat (map hex_byte (c :: l))) with (hex_byte c ++ concat (map hex_byte l)).
    rewrite forallb_app, IH.
    destruct (hex_byte_val c) as (_ & _ & _ & ->). done.
Qed.

Lemma decodeHexList_hexList path :
  allHashes path = true -> decodeHexList (hexList path) = Some path.
Proof.
  induction path as [|p path IH]; simpl; [done|]. intros [Hp Hr]%andb_true_iff.
  by rewrite isHashHex_encode, hex_decode_encode, IH.
Qed.

Lemma forallb_hexList path : allHashes path = true -> forallb isHashHex (hexList path) = true.
Proof.
  induction path as [|p path IH]; simpl; [done|]. intros [Hp Hr]%andb_true_iff.
  by rewrite isHashHex_encode, IH.
Qed.

Lemma sameHex_encode b h :
  sameHex (hex_encode b) h = true -> hex_bytes h = b.
Proof.
  unfold sameHex. repeat case_match; try done. rewrite hex_bytes_encode. intros ?%String.eqb_eq. done.
Qed.

(** ** Leaves *)

Lemma LeafHash_is_hash d : is_hash (LeafHash d) = true.
Proof. unfold is_hash, LeafHash. by rewrite sha256_length. Qed.

Lemma build_leaves_spec rows key ls :
  build_leaves rows key = Some ls -> Forall2 (fun r l => buildLeaf r key = Some l) rows ls.
Proof.
  revert ls. induction rows as [|r rows IH]; intros ls; simpl; [intros [= <-]; constructor|].
  destruct (buildLeaf r key) eqn:E; [|done]. destruct (build_leaves rows key); [|done].
  intros [= <-]. constructor; auto.
Qed.

Lemma build_leaves_hashes rows key ls :
  build_leaves rows key = Some ls -> allHashes (leafHashes ls) = true.
Proof.
  intros Hf%build_leaves_spec. induction Hf as [|r l rows ls Hl _ IH]; [done|]. simpl. rewrite IH.
  unfold buildLeaf in Hl. repeat case_match; simplify_eq. simpl. by rewrite LeafHash_is_hash.
Qed.

Lemma loadLeaves_Ok lg since until limit ls :
  loadLeaves lg since until limit = Ok ls ->
  ∃ rows kept, lg_source lg = Some (Some rows)
    ∧ kept = (if (0 <=? limit) && (limit <? zlen (covered since until rows))
              then ztake limit (covered since until rows) else covered since until rows)
    ∧ build_leaves kept (lg_salt_key lg) = Some ls.
Proof.
  unfold loadLeaves. destruct (lg_source lg) as [[rows|]|]; [|by case_match|done].
  destruct (lg_salt_key lg =? "")%string; [done|].
  destruct (build_leaves _ _) eqn:E; [|done]. intros [= ->]. eauto.
Qed.

Lemma zlen_map {A B} (f : A -> B) l : zlen (map f l) = zlen l.
Proof. unfold zlen. by rewrite length_map. Qed.

Lemma leavesMatching_Ok lg cp ls :
  leavesMatching lg cp = Ok ls ->
  wellFormed cp = true ∧ zlen ls = cp_size cp ∧ allHashes (leafHashes ls) = true
  ∧ hex_bytes (cp_root_hash cp) = MerkleRoot (leafHashes ls)
  ∧ ∃ rows, lg_source lg = Some (Some rows)
    ∧ Forall2 (fun r l => buildLeaf r (lg_salt_key lg) = Some l)
        (ztake (cp_size cp) (covered (cp_since cp) (cp_until cp) rows)) ls.
Proof.
  unfold leavesMatching. destruct (wellFormed cp) eqn:Hw; [|done].
  destruct (loadLeaves lg _ _ _) as [ls'|] eqn:El; [|done]. simpl.
  destruct (Z.ltb_spec (zlen ls') (cp_size cp)) as [|Hlen]; [done|].
  destruct (sameHex _ _) eqn:Es; [|done]. intros [= ->].
  apply loadLeaves_Ok in El as (rows & kept & Hsrc & Hk & Hb).
  assert (Hsize : 0 <= cp_size cp).
  { unfold wellFormed in Hw. repeat (apply andb_true_iff in Hw as [Hw ?]). lia. }
  pose proof (build_leaves_spec _ _ _ Hb) as Hf. pose proof (Forall2_length _ _ _ Hf) as Hfl.
  assert (Hkept : kept = ztake (cp_size cp) (covered (cp_since cp) (cp_until cp) rows)).
  { rewrite Hk. destruct (Z.leb_spec 0 (cp_size cp)); [|lia]. simpl.
    destruct (Z.ltb_spec (cp_size cp) (zlen (covered (cp_since cp) (cp_until cp) rows))); [done|].
    unfold ztake. rewrite firstn_all2; [done|]. unfold zlen in *. lia. }
  split; [done|]. split_and!.
  - unfold zlen in *. rewrite <- Hfl, Hkept in *. unfold ztake in *. rewrite length_take in *. lia.
  - eapply build_leaves_hashes; eauto.
  - by apply sameHex_encode.
  - exists rows. split; [done|]. by rewrite <- Hkept.
Qed.

Lemma index_from_spec ls rowID i :
  0 <= i ->
  let idx := index_from i ls rowID in
  idx = -1 ∨ (i <= idx < i + zlen ls
              ∧ ∃ l, ls !! Z.to_nat (idx - i) = Some l ∧ row_id (leaf_row l) = rowID).
Proof.
  revert i. induction ls as [|l ls IH]; intros i Hi; simpl; [by left|]. unfold zlen in *. simpl.
  destruct (String.eqb_spec (row_id (leaf_row l)) rowID) as [He|_].
  - right. split; [lia|]. exists l. rewrite Z.sub_diag. done.
  - destruct (IH (i + 1)) as [->|(Hr & l' & Hl' & He)]; [lia|by left|]. right. split; [lia|].
    exists l'. split; [|done]. rewrite <- Hl'.
    replace (Z.to_nat (index_from (i + 1) ls rowID - i))
      with (S (Z.to_nat (index_from (i + 1) ls rowID - (i + 1)))) by lia. done.
Qed.

Lemma indexOf_spec ls rowID :
  0 <= indexOf ls rowID ->
  indexOf ls rowID < zlen ls
  ∧ ∃ l, ls !! Z.to_nat (indexOf ls rowID) = Some l ∧ row_id (leaf_row l) = rowID.
Proof.
  unfold indexOf. intros Hi. destruct (index_from_spec ls rowID 0) as [?|(Hr & l & Hl & He)]; [lia..|].
  rewrite Z.sub_0_r in Hl. split; [lia|eauto].
Qed.

(** ** Proofs that the operator creates verify *)

Lemma wellFormed_size cp : wellFormed cp = true -> 0 <= cp_size cp <= maxSafeInteger.
Proof. unfold wellFormed. intros Hw. repeat (apply andb_true_iff in Hw as [Hw ?]). lia. Qed.

Lemma leaf_hash_at_lookup ls idx h :
  leafHashes ls !! Z.to_nat idx = Some h -> leaf_hash_at ls idx = h.
Proof.
  unfold leafHashes, leaf_hash_at. rewrite list_lookup_fmap.
  destruct (ls !! Z.to_nat idx); simpl; congruence.
Qed.

Lemma inclusion_proof_verifies lg cp ls rowID path keys :
  VerifyCheckpoint cp keys = OK -> leavesMatching lg cp = Ok ls -> 0 <= indexOf ls rowID ->
  InclusionPath (leafHashes ls) (indexOf ls rowID) = Some path ->
  VerifyInclusionProof
    (mkInclusionProof 1 rowID (indexOf ls rowID) (cp_size cp)
       (hex_encode (leaf_hash_at ls (indexOf ls rowID))) (Some (hexList path))) cp keys = OK.
Proof.
  intros Hcp (Hwf & Hlen & Hh & Hroot & _)%leavesMatching_Ok Hidx Hpath.
  pose proof (wellFormed_size _ Hwf) as Hsz. destruct (indexOf_spec _ _ Hidx) as [Hlt _].
  destruct (inclusion_path_verifies (leafHashes ls) (indexOf ls rowID)) as (path' & h & Hp & Hl & Hv);
    [unfold leafHashes; rewrite zlen_map; lia|done|].
  rewrite Hpath in Hp. injection Hp as <-. apply leaf_hash_at_lookup in Hl. subst h.
  assert (Hph : allHashes path = true ∧ is_hash (leaf_hash_at ls (indexOf ls rowID)) = true).
  { unfold VerifyInclusionPath in Hv.
    destruct (is_hash (leaf_hash_at _ _)), (is_hash (MerkleRoot _)), (allHashes path); done. }
  destruct Hph as [Hap Hih]. unfold VerifyInclusionProof, proofShapeOK; simpl.
  rewrite Hcp, isHashHex_encode, forallb_hexList, decodeHexList_hexList by done.
  rewrite hex_bytes_encode, Hroot, Z.eqb_refl.
  unfold leafHashes in Hv. rewrite zlen_map, Hlen in Hv. fold (leafHashes ls) in Hv. rewrite Hv. simpl.
  destruct (Z.ltb_spec (indexOf ls rowID) 0), (Z.ltb_spec maxSafeInteger (indexOf ls rowID)),
    (Z.ltb_spec (cp_size cp) 0), (Z.ltb_spec maxSafeInteger (cp_size cp)); done || lia.
Qed.

(** Every inclusion proof the operator can create against a genuine checkpoint verifies offline,
    whatever rows the log gained after the checkpoint. *)
Theorem inclusion_proof_roundtrip lg rowID cp keys p
  (Hcp : VerifyCheckpoint cp keys = OK) (Hp : CreateInclusionProof lg rowID cp = Ok p) :
  VerifyInclusionProof p cp keys = OK.
Proof.
  revert Hp. unfold CreateInclusionProof. destruct (leavesMatching lg cp) as [ls|] eqn:Hm; [|done].
  destruct (Z.ltb_spec (indexOf ls rowID) 0); [done|].
  destruct (InclusionPath _ _) as [path|] eqn:Hpath; [|done]. intros [= <-].
  by eapply inclusion_proof_verifies.
Qed.

Lemma leafHashes_take k ls : leafHashes (ztake k ls) = ztake k (leafHashes ls).
Proof. unfold leafHashes, ztake. symmetry. apply firstn_map. Qed.

(** Every consistency proof the operator can create between two genuine checkpoints verifies
    offline. *)
Theorem consistency_proof_roundtrip lg older newer keys p
  (Ho : VerifyCheckpoint older keys = OK) (Hn : VerifyCheckpoint newer keys = OK)
  (Hp : CreateConsistencyProof lg older newer = Ok p) :
  VerifyConsistencyProof p older newer keys = OK.
Proof.
  revert Hp. unfold CreateConsistencyProof.
  destruct (wellFormed older) eqn:Hw1; [|done]. destruct (wellFormed newer) eqn:Hw2; [|done]. simpl.
  destruct (Z.ltb_spec (cp_size newer) (cp_size older)); [done|].
  destruct (sameBound _ _) eqn:Hb; [|done]. simpl.
  destruct (leavesMatching lg newer) as [ls|] eqn:Hm; [|done].
  apply leavesMatching_Ok in Hm as (_ & Hlen & Hh & Hroot & _).
  destruct (sameHex _ _) eqn:Hs; [|done]. apply sameHex_encode in Hs. simpl.
  pose proof (wellFormed_size _ Hw1) as Hsz.
  destruct (consistency_path_verifies (leafHashes ls) (cp_size older)) as (path & Hc & Hv);
    [unfold leafHashes; rewrite zlen_map; lia|done|].
  rewrite Hc. intros [= <-]. unfold VerifyConsistencyProof; simpl. rewrite Ho, Hn.
  assert (Hap : allHashes path = true).
  { unfold VerifyConsistencyPath, consistencyTrivial in Hv.
    destruct (allHashes path); [done|]. simpl in Hv. rewrite orb_true_r in Hv. by destruct (_ || _). }
  rewrite decodeHexList_hexList, !Z.eqb_refl, Hb by done. simpl.
  rewrite Hs, Hroot, leafHashes_take. unfold leafHashes at 1 in Hv. rewrite zlen_map, Hlen in Hv.
  by rewrite Hv.
Qed.

(** ** Receipts *)

Lemma FieldsFor_NoDup v : NoDup (FieldsFor v).
Proof.
  unfold FieldsFor. repeat case_match; apply (bool_decide_eq_true_1 (NoDup _)); vm_compute; reflexivity.
Qed.

Lemma build_fields_spec row key fields s0 c0 s c :
  NoDup fields -> build_fields row key fields s0 c0 = Some (s, c) ->
  ∀ f, (f ∈ fields -> s !! f = Some (fieldSalt key (row_hash row) f)
          ∧ c !! f = fieldCommitment f (fieldSalt key (row_hash row) f)
                       (default JNull (row_fields row !! f)) ∧ is_Some (c !! f))
     ∧ (f ∉ fields -> s !! f = s0 !! f ∧ c !! f = c0 !! f).
Proof.
  intros Hnd. revert s0 c0. induction Hnd as [|g fields Hg Hnd IH]; intros s0 c0; simpl.
  { intros [= -> ->] f. set_solver. }
  destruct (fieldCommitment g _ _) as [cg|] eqn:Ec; [|done]. intros Hb f.
  destruct (IH _ _ Hb f) as [Hin' Hout]. split.
  - intros [->|Hin]%elem_of_cons; [|by apply Hin']. destruct (Hout Hg) as [-> ->].
    rewrite !lookup_insert_eq. eauto.
  - intros [Hne Hnin]%not_elem_of_cons. destruct (Hout Hnin) as [-> ->].
    by rewrite !lookup_insert_ne.
Qed.

Lemma reveal_fields_spec l reveal allowed r0 c0 r c :
  NoDup allowed -> reveal_fields l reveal allowed r0 c0 = (r, c) ->
  ∀ n, r !! n = (if decide (n ∈ allowed ∧ n ∈ reveal)
                 then Some (mkRevealed (default JNull (row_fields (leaf_row l) !! n))
                              (default "" (leaf_salts l !! n))) else r0 !! n)
     ∧ c !! n = (if decide (n ∈ allowed ∧ n ∉ reveal)
                 then Some (default "" (leaf_commitments l !! n)) else c0 !! n).
Proof.
  intros Hnd. revert r0 c0.
  induction Hnd as [|g allowed Hg Hnd IH]; intros r0 c0; cbn [reveal_fields].
  { intros [= -> ->] n. rewrite !decide_False by set_solver. done. }
  case_bool_decide as Hr; intros He n; destruct (IH _ _ He n) as [-> ->];
    destruct (decide (n = g)) as [->|Hne].
  - rewrite lookup_insert_eq. rewrite !(decide_False (P := g ∈ allowed ∧ _)) by tauto.
    rewrite decide_True by set_solver. rewrite decide_False by tauto. done.
  - rewrite lookup_insert_ne by done. split; apply decide_ext; set_solver.
  - rewrite lookup_insert_eq. rewrite !(decide_False (P := g ∈ allowed ∧ _)) by tauto.
    rewrite decide_False by tauto. rewrite decide_True by set_solver. done.
  - rewrite lookup_insert_ne by done. split; apply decide_ext; set_solver.
Qed.

Lemma add_revealed_spec allowed l m (cm : string -> string) :
  NoDup l.*1 ->
  (∀ n f, (n, f) ∈ l -> n ∈ allowed ∧ isHashHex (rf_salt f) = true ∧ m !! n = None
            ∧ fieldCommitment n (rf_salt f) (rf_value f) = Some (cm n)) ->
  ∃ m', add_revealed allowed l m = inl m'
    ∧ ∀ n, m' !! n = if decide (n ∈ l.*1) then Some (cm n) else m !! n.
Proof.
  revert m. induction l as [|[n f] l IH]; intros m Hnd Hl; cbn [add_revealed].
  { exists m. split; [done|]. intros n. rewrite decide_False; [done|]. apply not_elem_of_nil. }
  apply NoDup_cons in Hnd as [Hn Hnd]. destruct (Hl n f) as (Ha & Hs & Hm & Hc); [by left|].
  rewrite bool_decide_eq_true_2, Hs by done. simpl. rewrite bool_decide_eq_false_2, Hc by (rewrite Hm; by intros []).
  destruct (IH (<[n := cm n]> m) Hnd) as (m' & -> & Hm').
  { intros n' f' Hin. destruct (Hl n' f') as (? & ? & ? & ?); [by right|].
    rewrite lookup_insert_ne; [done|]. intros <-. apply Hn. by apply (list_elem_of_fmap_2 fst _ (n, f')). }
  exists m'. split; [done|]. intros k. rewrite Hm'. destruct (decide (k = n)) as [->|Hne].
  - rewrite lookup_insert_eq. rewrite (decide_True (P := n ∈ _ :: _)) by by left. by case_decide.
  - rewrite lookup_insert_ne by done. apply decide_ext. rewrite elem_of_cons. tauto.
Qed.

Lemma fieldSalt_hex key h f : isHashHex (fieldSalt key h f) = true.
Proof. apply isHashHex_encode. unfold is_hash. by rewrite hmac_length. Qed.

Lemma fieldCommitment_hex f salt v c : fieldCommitment f salt v = Some c -> isHashHex c = true.
Proof.
  unfold fieldCommitment. case_match; [|done]. intros [= <-]. apply isHashHex_encode.
  unfold is_hash. by rewrite sha256_length.
Qed.

(** What [buildLeaf] records: for each field of the row its salt and the commitment of its value. *)
Lemma buildLeaf_spec row key l :
  buildLeaf row key = Some l ->
  leaf_row l = row
  ∧ (∃ pre, leafPreimage (row_id row) (row_hash row) (row_hash_version row) (leaf_commitments l)
            = Some pre ∧ leaf_hash l = LeafHash pre)
  ∧ ∀ f, (f ∈ FieldsFor (row_hash_version row) ->
            ∃ salt c, leaf_salts l !! f = Some salt ∧ leaf_commitments l !! f = Some c
              ∧ isHashHex salt = true
              ∧ fieldCommitment f salt (default JNull (row_fields row !! f)) = Some c)
       ∧ (f ∉ FieldsFor (row_hash_version row) -> leaf_commitments l !! f = None).
Proof.
  unfold buildLeaf. destruct (build_fields _ _ _ _ _) as [[salts comms]|] eqn:Eb; [|done].
  destruct (leafPreimage _ _ _ _) as [pre|] eqn:Ep; [|done]. intros [= <-]; simpl.
  split; [done|]. split; [eauto|]. intros f.
  destruct (build_fields_spec _ _ _ _ _ _ _ (FieldsFor_NoDup _) Eb f) as [Hin Hout]. split.
  - intros Hf. destruct (Hin Hf) as (Hs & Hc & c & Hc'). rewrite Hs, Hc'. eexists _, c.
    split_and!; [done..|apply fieldSalt_hex|congruence].
  - intros Hf. by destruct (Hout Hf) as [_ ->].
Qed.

Lemma reveal_sizes l reveal allowed r c :
  NoDup allowed -> reveal_fields l reveal allowed ∅ ∅ = (r, c) ->
  (size r + size c = length allowed)%nat.
Proof.
  intros Hnd He. pose proof (reveal_fields_spec _ _ _ _ _ _ _ Hnd He) as Hs.
  assert (Hr : ∀ n, n ∈ dom r ↔ n ∈ allowed ∧ n ∈ reveal).
  { intros n. rewrite elem_of_dom. destruct (Hs n) as [-> _]. case_decide; [by split; eauto|].
    rewrite lookup_empty. split; [by intros []|done]. }
  assert (Hc : ∀ n, n ∈ dom c ↔ n ∈ allowed ∧ n ∉ reveal).
  { intros n. rewrite elem_of_dom. destruct (Hs n) as [_ ->]. case_decide; [by split; eauto|].
    rewrite lookup_empty. split; [by intros []|done]. }
  rewrite <- (size_dom r), <- (size_dom c), <- size_union by set_solver.
  rewrite <- (size_list_to_set (C := gset string) allowed) by done. f_equal. apply set_eq. intros n.
  rewrite elem_of_union, Hr, Hc, elem_of_list_to_set. destruct (decide (n ∈ reveal)); tauto.
Qed.

(** Recomputing the revealed commitments on top of the hidden ones gives back the leaf's. *)
Lemma reveal_restores row key l reveal r c :
  buildLeaf row key = Some l ->
  reveal_fields l reveal (FieldsFor (row_hash_version row)) ∅ ∅ = (r, c) ->
  forallb (hidden_ok (FieldsFor (row_hash_version row))) (map_to_list c) = true
  ∧ add_revealed (FieldsFor (row_hash_version row)) (map_to_list r) c = inl (leaf_commitments l).
Proof.
  intros Hb He. pose proof (buildLeaf_spec _ _ _ Hb) as (Hrow & _ & Hf).
  pose proof (reveal_fields_spec _ _ _ _ _ _ _ (FieldsFor_NoDup _) He) as Hs. split.
  - apply forallb_forall. intros [n h] Hin%list_elem_of_In%elem_of_map_to_list.
    destruct (Hs n) as [_ Hc]. rewrite Hin in Hc. case_decide as Hd; [|by rewrite lookup_empty in Hc].
    destruct Hd as [Hn _]. destruct (proj1 (Hf n) Hn) as (salt & cn & _ & Hcn & _ & Hfc).
    rewrite Hcn in Hc. injection Hc as ->. unfold hidden_ok; simpl.
    rewrite bool_decide_eq_true_2 by done. by eapply fieldCommitment_hex.
  - destruct (add_revealed_spec (FieldsFor (row_hash_version row)) (map_to_list r) c
      (fun n => default "" (leaf_commitments l !! n))) as (m' & -> & Hm').
    + apply NoDup_fst_map_to_list.
    + intros n f Hin%elem_of_map_to_list. destruct (Hs n) as [Hr Hc]. rewrite Hin in Hr.
      destruct (decide (_ ∧ n ∈ reveal)) as [[Hn Hrev]|]; [|by rewrite lookup_empty in Hr].
      injection Hr as ->. rewrite decide_False, lookup_empty in Hc by tauto.
      destruct (proj1 (Hf n) Hn) as (salt & cn & -> & -> & Hsalt & Hfc). simpl. rewrite Hrow. done.
    + f_equal. apply map_eq. intros n. rewrite Hm'. destruct (Hs n) as [Hr Hc].
      destruct (decide (n ∈ (map_to_list r).*1)) as [Hd|Hd].
      * apply list_elem_of_fmap in Hd as ([n' f] & -> & Hin%elem_of_map_to_list). simpl in *.
        rewrite Hin in Hr.
        destruct (decide (_ ∧ n' ∈ reveal)) as [[Hn _]|]; [|by rewrite lookup_empty in Hr].
        destruct (proj1 (Hf n') Hn) as (salt & cn & _ & -> & _). done.
      * rewrite Hc. case_decide as Hd'.
        { destruct Hd' as [Hn _]. destruct (proj1 (Hf n) Hn) as (salt & cn & _ & -> & _). done. }
        rewrite lookup_empty. destruct (decide (n ∈ FieldsFor (row_hash_version row))) as [Hn|Hn].
        { exfalso. assert (Hrev : n ∈ reveal) by (destruct (decide (n ∈ reveal)); tauto).
          rewrite decide_True in Hr by done. apply Hd. apply elem_of_map_to_list in Hr.
          by apply (list_elem_of_fmap_2 fst) in Hr. }
        by rewrite (proj2 (Hf n) Hn).
Qed.

(** Every receipt the operator can create verifies offline, whichever fields it reveals: the
    commitments recomputed from the revealed values and salts, together with the hidden ones, give
    back the leaf, and its inclusion proof verifies. *)
Theorem receipt_roundtrip lg rowID cp reveal keys r
  (Hcp : VerifyCheckpoint cp keys = OK) (Hr : CreateReceipt lg rowID cp reveal = Ok r) :
  VerifyReceipt r keys = OK.
Proof.
  revert Hr. unfold CreateReceipt. destruct (leavesMatching lg cp) as [ls|] eqn:Hm; [|done].
  destruct (Z.ltb_spec (indexOf ls rowID) 0) as [|Hidx]; [done|].
  destruct (ls !! Z.to_nat (indexOf ls rowID)) as [l|] eqn:Hl; [|done].
  destruct (indexOf_spec _ _ Hidx) as (_ & l' & Hl' & Hid). rewrite Hl in Hl'. injection Hl' as <-.
  case_match; [done|]. destruct (reveal_fields _ _ _ _ _) as [rev com] eqn:Er.
  destruct (InclusionPath _ _) as [path|] eqn:Hp; [|done]. intros [= <-].
  destruct (leavesMatching_Ok _ _ _ Hm) as (_ & _ & _ & _ & rows & _ & Hf).
  destruct (Forall2_lookup_r _ _ _ _ _ Hf Hl) as (row & _ & Hb).
  pose proof (buildLeaf_spec _ _ _ Hb) as (Hrow & (pre & Hpre & Hhash) & _). rewrite Hrow in *.
  destruct (reveal_restores _ _ _ _ _ _ Hb Er) as [Hhid Hadd].
  unfold VerifyReceipt; simpl. rewrite String.eqb_refl, (reveal_sizes _ _ _ _ _ (FieldsFor_NoDup _) Er).
  rewrite Nat.eqb_refl, Hhid, Hadd, <- Hid. simpl. rewrite Hpre, hex_decode_encode.
  rewrite isHashHex_encode by (rewrite Hhash; apply LeafHash_is_hash).
  rewrite Hhash, String.eqb_refl. simpl. rewrite Hid.
  assert (Hlh : LeafHash pre = leaf_hash_at ls (indexOf ls rowID)) by (unfold leaf_hash_at; by rewrite Hl).
  rewrite Hlh. by eapply inclusion_proof_verifies.
Qed.

(** ** Signing *)

(** The signature covers everything but itself. *)
Lemma signedBytes_with_signature c sig : signedBytes (with_signature c sig) = signedBytes c.
Proof. done. Qed.

Lemma VerifyCheckpoint_signed c key keys msg :
  let cp := with_signature c (b64_encode (ed25519_sign key msg)) in
  cp_alg c = algEd25519 ->
  List.find (fun k => (pk_key_id k =? cp_key_id c)%string) keys
    = Some (NewPublicKey (cp_key_id c) (ed25519_public key)) ->
  signedBytes c = Some msg -> wellFormed cp = true -> VerifyCheckpoint cp keys = OK.
Proof.
  intros cp Ha Hk Hm Hw. unfold VerifyCheckpoint. rewrite Hw. unfold cp. rewrite signedBytes_with_signature.
  simpl. rewrite Ha, Hk. simpl. rewrite !b64_decode_encode, ed25519_public_length, ed25519_sign_length.
  simpl. by rewrite Hm, ed25519_correct.
Qed.

Lemma signCheckpoint_Ok signer c cp :
  signCheckpoint signer c = Ok cp ->
  ∃ msg sig, signedBytes c = Some msg ∧ signer_sign signer msg = Some sig
    ∧ cp = with_signature c (b64_encode sig).
Proof.
  unfold signCheckpoint. destruct (signedBytes c) as [msg|]; [|done].
  destruct (signer_sign signer msg) as [sig|] eqn:Es; [|done]. case_match; [done|]. intros [= <-].
  by exists msg, sig.
Qed.

Lemma CreateCheckpoint_Ok {St} (put : St -> Checkpoint -> option St) clock lg opts cp st :
  CreateCheckpoint put clock lg opts = Ok (cp, st) ->
  ∃ signer ls, co_signer opts = Some signer
    ∧ loadLeaves lg (option_map UnixMilli (co_since opts)) (option_map UnixMilli (co_until opts)) (-1)
      = Ok ls
    ∧ signCheckpoint signer
        (mkCheckpoint checkpointVersion algEd25519 (signer_key_id signer) (zlen ls) (rootHex ls)
           (UnixMilli (if IsZero (co_now opts) then clock else co_now opts))
           (option_map UnixMilli (co_since opts)) (option_map UnixMilli (co_until opts)) "") = Ok cp.
Proof.
  unfold CreateCheckpoint. destruct (co_signer opts) as [signer|]; [|done].
  destruct (loadLeaves _ _ _ _) as [ls|] eqn:El; [|done].
  destruct (signCheckpoint _ _) as [cp'|] eqn:Es; [|done].
  repeat case_match; intros [= <- <-]; eauto 10.
Qed.

(** A checkpoint created with an Ed25519 key verifies under the public key published for it: its
    signature covers exactly the fields the verifier rebuilds. The ranges that [wellFormed] asks for
    (non negative times below 2^53) are the only condition. *)
Theorem created_checkpoint_verifies {St} (put : St -> Checkpoint -> option St) clock lg opts key keyID
  keys cp st
  (Hs : co_signer opts = Some (Ed25519Signer key keyID))
  (Hk : List.find (fun k => (pk_key_id k =? keyID)%string) keys
        = Some (NewPublicKey keyID (ed25519_public key)))
  (Hc : CreateCheckpoint put clock lg opts = Ok (cp, st)) (Hw : wellFormed cp = true) :
  VerifyCheckpoint cp keys = OK.
Proof.
  apply CreateCheckpoint_Ok in Hc as (signer & ls & Hs' & _ & Hsig). rewrite Hs in Hs'.
  injection Hs' as <-. apply signCheckpoint_Ok in Hsig as (msg & sig & Hmsg & [= <-] & ->).
  by eapply VerifyCheckpoint_signed.
Qed.

(** Tamper evidence: if a later log still matches a checkpoint that was created over an earlier one,
    then the leaves it shows for the checkpoint's range are the leaves that were signed, in the same
    order, provided SHA-256 shows no collision between the node inputs of the two trees. *)
Theorem checkpoint_tamper_evident {St} (put : St -> Checkpoint -> option St) clock lg lg' opts cp st ls'
  (Hc : CreateCheckpoint put clock lg opts = Ok (cp, st)) (Hm : leavesMatching lg' cp = Ok ls')
  (Hinj : ∀ ls, loadLeaves lg (cp_since cp) (cp_until cp) (-1) = Ok ls ->
          inj_on (root_input (leafHashes ls)) (root_input (leafHashes ls'))) :
  ∃ ls, loadLeaves lg (cp_since cp) (cp_until cp) (-1) = Ok ls ∧ leafHashes ls' = leafHashes ls.
Proof.
  apply CreateCheckpoint_Ok in Hc as (signer & ls & _ & Hl & Hsig).
  apply signCheckpoint_Ok in Hsig as (msg & sig & _ & _ & ->). simpl in *.
  exists ls. split; [done|]. specialize (Hinj ls Hl).
  apply leavesMatching_Ok in Hm as (_ & Hlen & Hh & Hroot & _). simpl in *.
  unfold rootHex in Hroot. rewrite hex_bytes_encode in Hroot. symmetry.
  apply loadLeaves_Ok in Hl as (rows & kept & _ & _ & Hb).
  apply (MerkleRoot_inj (zlen ls)); [| | |done..].
  - by apply zlen_map.
  - unfold leafHashes. by rewrite zlen_map.
  - by eapply build_leaves_hashes.
Qed.

(** ** The store *)

Lemma checkpoint_less_asym a b : checkpoint_less a b = true -> checkpoint_less b a = false.
Proof.
  unfold checkpoint_less. destruct (Z.eqb_spec (cp_size a) (cp_size b)), (Z.eqb_spec (cp_size b) (cp_size a));
    simpl; rewrite Z.ltb_lt, Z.ltb_ge; lia.
Qed.

Lemma checkpoint_less_trans a b c :
  checkpoint_less b a = false -> checkpoint_less c b = false -> checkpoint_less c a = false.
Proof.
  unfold checkpoint_less. destruct (Z.eqb_spec (cp_size a) (cp_size b)), (Z.eqb_spec (cp_size b) (cp_size a)),
    (Z.eqb_spec (cp_size b) (cp_size c)), (Z.eqb_spec (cp_size c) (cp_size b)),
    (Z.eqb_spec (cp_size a) (cp_size c)), (Z.eqb_spec (cp_size c) (cp_size a));
    simpl; rewrite !Z.ltb_ge; lia.
Qed.

Lemma Put_sorted items c :
  StronglySorted (not_after checkpoint_less) items ->
  StronglySorted (not_after checkpoint_less) (Put items c).
Proof.
  intros Hs. unfold Put. case_match; [done|].
  apply sort_by_sorted; [apply checkpoint_less_asym|apply checkpoint_less_trans].
Qed.

Lemma sorted_last_max items c x :
  StronglySorted (not_after checkpoint_less) items -> last items = Some c -> x ∈ items ->
  checkpoint_less c x = false.
Proof.
  induction 1 as [|y items Hs IH Hy]; [done|]. destruct items as [|z items].
  - intros [= <-] ->%list_elem_of_singleton. unfold checkpoint_less.
    rewrite Z.eqb_refl. simpl. apply Z.ltb_irrefl.
  - intros Hl [->|Hin]%elem_of_cons; [|by apply IH].
    rewrite Forall_forall in Hy. apply Hy. apply last_Some_elem_of. done.
Qed.

(** The store keeps every checkpoint put into it, up to repeats, ordered by size and time, and
    [Latest] is the last in that order: no stored checkpoint is larger, or as large and later. *)
Theorem store_latest puts c :
  Latest (fold_left Put puts []) = Some c ->
  (∀ x, x ∈ puts -> ∃ y, y ∈ fold_left Put puts [] ∧ (y = x ∨ sameCheckpoint y x = true))
  ∧ ∀ y, y ∈ fold_left Put puts [] -> checkpoint_less c y = false.
Proof.
  intros Hl. split.
  - intros x Hx. clear Hl c. assert (Hk : ∀ ps items y, y ∈ items -> y ∈ fold_left Put ps items).
    { induction ps as [|p ps IH]; intros items y Hy; simpl; [done|]. apply IH. unfold Put.
      case_match; [done|]. apply elem_of_sort_by. set_solver. }
    generalize (@nil Checkpoint). induction puts as [|p puts IH]; [by apply elem_of_nil in Hx|].
    intros items. simpl. apply elem_of_cons in Hx as [->|Hx]; [|by apply IH].
    unfold Put at 2. destruct (existsb _ items) eqn:E.
    + apply existsb_true_iff in E as (y & Hy & Hsame). exists y. eauto.
    + exists p. split; [|by left]. apply Hk, elem_of_sort_by. set_solver.
  - intros y Hy. eapply sorted_last_max; [|exact Hl|done]. clear.
    assert (Hs : StronglySorted (not_after checkpoint_less) []) by constructor. revert Hs.
    generalize (@nil Checkpoint). induction puts as [|p puts IH]; intros items Hs; simpl; [done|].
    by apply IH, Put_sorted.
Qed.

(** ** What a verified receipt proves *)

Lemma add_revealed_inv allowed l m m' :
  add_revealed allowed l m = inl m' ->
  (∀ n f, (n, f) ∈ l -> n ∈ allowed ∧ m' !! n = fieldCommitment n (rf_salt f) (rf_value f))
  ∧ ∀ n c, m !! n = Some c -> m' !! n = Some c.
Proof.
  revert m. induction l as [|[n f] l IH]; intros m; cbn [add_revealed].
  { intros [= ->]. split; [|done]. by intros n f ?%elem_of_nil. }
  destruct (bool_decide_reflect (n ∈ allowed)) as [Hn|]; [|done]. simpl.
  destruct (isHashHex (rf_salt f)); [|done]. simpl.
  destruct (bool_decide_reflect (is_Some (m !! n))) as [|Hm]; [done|].
  destruct (fieldCommitment n (rf_salt f) (rf_value f)) as [c|] eqn:Ec; [|done].
  intros (Hl & Hk)%IH. split.
  - intros n' f' [[= -> ->]|Hin]%elem_of_cons; [|by apply Hl]. rewrite Ec. split; [done|].
    apply Hk. apply lookup_insert_eq.
  - intros n' c' Hc'. apply Hk. rewrite lookup_insert_ne; [done|]. intros ->. apply Hm. eauto.
Qed.

Lemma VerifyInclusionProof_OK p cp keys :
  VerifyInclusionProof p cp keys = OK ->
  VerifyCheckpoint cp keys = OK ∧ ip_tree_size p = cp_size cp ∧ ∃ path,
    decodeHexList (default [] (ip_path p)) = Some path
    ∧ VerifyInclusionPath (hex_bytes (ip_leaf_hash p)) (ip_leaf_index p) (cp_size cp) path
      (hex_bytes (cp_root_hash cp)) = true.
Proof.
  unfold VerifyInclusionProof. destruct (VerifyCheckpoint cp keys); [|done]. case_match; [done|].
  destruct (Z.eqb_spec (ip_tree_size p) (cp_size cp)) as [->|]; [|done]. simpl.
  destruct (decodeHexList _) as [path|]; [|done]. destruct (VerifyInclusionPath _ _ _ _ _) eqn:E; [|done].
  eauto.
Qed.

(** A verified receipt is bound to the signed log: when the checkpoint is the head of a tree of
    digests, the tree's leaf at the proof's index is the hash of the receipt's own row data, in which
    every revealed field appears by the commitment of its revealed value and every hidden one by the
    commitment the receipt shows; provided SHA-256 shows no collision between the tree's node inputs
    and the verifier's. *)
Theorem receipt_sound r keys hs
  (Hv : VerifyReceipt r keys = OK) (Hh : allHashes hs = true)
  (Hlen : zlen hs = cp_size (rc_checkpoint r))
  (Hroot : hex_bytes (cp_root_hash (rc_checkpoint r)) = MerkleRoot hs)
  (Hinj : ∀ bs path, decodeHexList (default [] (ip_path (rc_proof r))) = Some path ->
          route (ip_leaf_index (rc_proof r)) (zlen hs) bs ->
          inj_on (root_input hs)
            (fun x => x ∈ climb_inputs (hex_bytes (ip_leaf_hash (rc_proof r))) bs path)) :
  VerifyCheckpoint (rc_checkpoint r) keys = OK
  ∧ ∃ commitments pre,
    leafPreimage (dec_row_id (rc_decision r)) (dec_row_hash (rc_decision r))
      (dec_hash_version (rc_decision r)) commitments = Some pre
    ∧ hs !! Z.to_nat (ip_leaf_index (rc_proof r)) = Some (LeafHash pre)
    ∧ (∀ revealed n f, dec_revealed (rc_decision r) = Some revealed -> revealed !! n = Some f ->
         commitments !! n = fieldCommitment n (rf_salt f) (rf_value f))
    ∧ (∀ hidden n c, dec_commitments (rc_decision r) = Some hidden -> hidden !! n = Some c ->
         commitments !! n = Some c).
Proof.
  revert Hv. unfold VerifyReceipt.
  destruct (dec_revealed (rc_decision r)) as [revealed|]; [|done].
  destruct (dec_commitments (rc_decision r)) as [hidden|]; [|done].
  case_match; [done|]. case_match; [done|]. case_match; [done|].
  destruct (add_revealed _ _ hidden) as [commitments|] eqn:Ea; [|done].
  destruct (leafPreimage _ _ _ commitments) as [pre|] eqn:Ep; [|done].
  destruct (hex_decode (ip_leaf_hash (rc_proof r))) as [got|] eqn:Eh; [|done].
  destruct (isHashHex (ip_leaf_hash (rc_proof r))); [|done]. simpl.
  destruct (String.eqb_spec (LeafHash pre) got) as [He|]; [|done]. simpl.
  intros (Hcp & Hts & path & Hdec & Hpath)%VerifyInclusionProof_OK. split; [done|].
  apply add_revealed_inv in Ea as [Hrev Hhid]. exists commitments, pre. split; [done|].
  rewrite <- Hlen, Hroot in Hpath.
  destruct (inclusion_verified_leaf hs _ _ _ Hh Hpath) as [_ Hleaf]; [auto|]. split_and!.
  - rewrite Hleaf. unfold hex_bytes. by rewrite Eh, He.
  - intros rev' n f [= <-] Hf. apply (Hrev n f). by apply elem_of_map_to_list.
  - intros hid' n c [= <-] Hc. by apply Hhid.
Qed.
End Checkpoint.

(** ** Witnesses

    A log of two rows, a signing key and the checkpoint over the log, with the concrete digest of
    [Merkle] and a symmetric stand-in for the signature scheme. *)

Definition demo_tag (n : nat) (k m : string) : string := digits n (poly (k +:+ "|" +:+ m)).

Definition demo_crypto : Crypto.
Proof.
  refine {| hmac_sha256 := demo_tag 32;
            ed25519_public := fun k => digits 32 (poly k);
            ed25519_sign := fun k m => demo_tag 64 (digits 32 (poly k)) m;
            ed25519_verify := fun pub m sig => (sig =? demo_tag 64 pub m)%string;
            b64_encode := fun s => s; b64_decode := Some |}.
  - intros k m. apply digits_length.
  - intros k. apply digits_length.
  - intros k m. apply digits_length.
  - intros k m. apply String.eqb_refl.
  - done.
Defined.

#[local] Existing Instances int_floats poly_digest demo_crypto.

Definition get {E A} (d : A) (r : result E A) : A := match r with Ok x => x | Err _ => d end.

Definition demo_row (id : string) (t : Z) : Row :=
  mkRow id ("hash-" +:+ id) GoChainHashVersion t {["action" := JString "login"; "id" := JString id]}.
Definition demo_log : Log := mkLog (Some (Some [demo_row "b" 20; demo_row "a" 10])) "salt-key".
Definition demo_opts : CreateOptions MemoryStore :=
  mkCreateOptions (Some (Ed25519Signer "secret" "k1")) None None (unix_epoch + 5 * Second) (Some []).
Definition demo_created : result cp_error (Checkpoint * option MemoryStore) :=
  CreateCheckpoint (fun st c => Some (Put st c)) 0 demo_log demo_opts.
Definition demo_cp : Checkpoint :=
  (get (mkCheckpoint 0 "" "" 0 "" 0 None None "", None) demo_created).1.
Definition demo_keys : list PublicKey := [NewPublicKey "k1" (ed25519_public "secret")].
Definition demo_receipt : Receipt :=
  get (mkReceipt 0 (mkDecision "" "" 0 None None) (mkInclusionProof 0 "" 0 0 "" None) demo_cp)
    (CreateReceipt demo_log "b" demo_cp ["action"]).

Lemma demo_verifies : VerifyCheckpoint demo_cp demo_keys = OK.
Proof. vm_compute. reflexivity. Qed.

Lemma created_checkpoint_verifies_witness : VerifyCheckpoint demo_cp demo_keys = OK.
Proof.
  apply (created_checkpoint_verifies (fun st c => Some (Put st c)) 0 demo_log demo_opts "secret" "k1"
           demo_keys demo_cp (Some [demo_cp])).
  - reflexivity.
  - reflexivity.
  - vm_compute. reflexivity.
  - vm_compute. reflexivity.
Defined.

Definition demo_proof : InclusionProof :=
  get (mkInclusionProof 0 "" 0 0 "" None) (CreateInclusionProof demo_log "b" demo_cp).

Lemma demo_proof_created : CreateInclusionProof demo_log "b" demo_cp = Ok demo_proof.
Proof. vm_compute. reflexivity. Qed.

Lemma inclusion_proof_roundtrip_witness : VerifyInclusionProof demo_proof demo_cp demo_keys = OK.
Proof.
  exact (inclusion_proof_roundtrip demo_log "b" demo_cp demo_keys demo_proof demo_verifies
           demo_proof_created).
Defined.

(** The checkpoint before row [b] was written. *)
Definition demo_older : Checkpoint :=
  (get (mkCheckpoint 0 "" "" 0 "" 0 None None "", None)
     (CreateCheckpoint (fun st c => Some (Put st c)) 0
        (mkLog (Some (Some [demo_row "a" 10])) "salt-key") demo_opts)).1.

Lemma demo_older_verifies : VerifyCheckpoint demo_older demo_keys = OK.
Proof. vm_compute. reflexivity. Qed.

Definition demo_consistency : ConsistencyProof :=
  get (mkConsistencyProof 0 0 0 None) (CreateConsistencyProof demo_log demo_older demo_cp).

Lemma demo_consistency_created :
  CreateConsistencyProof demo_log demo_older demo_cp = Ok demo_consistency.
Proof. vm_compute. reflexivity. Qed.

Lemma consistency_proof_roundtrip_witness :
  VerifyConsistencyProof demo_consistency demo_older demo_cp demo_keys = OK.
Proof.
  exact (consistency_proof_roundtrip demo_log demo_older demo_cp demo_keys demo_consistency
           demo_older_verifies demo_verifies demo_consistency_created).
Defined.

Lemma demo_receipt_created : CreateReceipt demo_log "b" demo_cp ["action"] = Ok demo_receipt.
Proof. vm_compute. reflexivity. Qed.

Lemma receipt_roundtrip_witness : VerifyReceipt demo_receipt demo_keys = OK.
Proof.
  exact (receipt_roundtrip demo_log "b" demo_cp ["action"] demo_keys demo_receipt demo_verifies
           demo_receipt_created).
Defined.

(** The leaves of the log, as hashes. *)
Definition demo_leaf_list : list leaf := get [] (loadLeaves demo_log None None (-1)).
Definition demo_hashes : list string := leafHashes demo_leaf_list.

Lemma demo_loaded : loadLeaves demo_log (cp_since demo_cp) (cp_until demo_cp) (-1) = Ok demo_leaf_list.
Proof. vm_compute. reflexivity. Qed.

Lemma demo_matching : leavesMatching demo_log demo_cp = Ok demo_leaf_list.
Proof. vm_compute. reflexivity. Qed.

Lemma demo_hashes_two : ∃ a b, demo_hashes = [a; b].
Proof. exists (nth 0 demo_hashes ""), (nth 1 demo_hashes ""). vm_compute. reflexivity. Qed.

Lemma demo_inj : inj_on (root_input demo_hashes) (root_input demo_hashes).
Proof.
  destruct demo_hashes_two as (a & b & ->).
  intros x y Hx%root_input_two Hy%root_input_two _. congruence.
Qed.

Lemma demo_created_ok :
  CreateCheckpoint (fun st c => Some (Put st c)) 0 demo_log demo_opts = Ok (demo_cp, Some [demo_cp]).
Proof. vm_compute. reflexivity. Qed.

Lemma demo_receipt_row :
  dec_row_id (rc_decision demo_receipt) = "b" ∧ dec_row_hash (rc_decision demo_receipt) = "hash-b"
  ∧ dec_hash_version (rc_decision demo_receipt) = GoChainHashVersion.
Proof. vm_compute. done. Qed.

#[local] Opaque demo_leaf_list demo_cp demo_receipt.

Lemma Ok_inj {E A} (x y : A) : @Ok E A x = Ok y -> x = y.
Proof. by intros [= ->]. Qed.

Lemma checkpoint_tamper_evident_witness :
  ∃ ls, loadLeaves demo_log (cp_since demo_cp) (cp_until demo_cp) (-1) = Ok ls
    ∧ demo_hashes = leafHashes ls.
Proof.
  apply (checkpoint_tamper_evident (fun st c => Some (Put st c)) 0 demo_log demo_log demo_opts demo_cp
           (Some [demo_cp]) demo_leaf_list demo_created_ok demo_matching).
  intros ls Hl. rewrite demo_loaded in Hl. apply Ok_inj in Hl. rewrite <- Hl. exact demo_inj.
Defined.

Lemma store_latest_witness :
  checkpoint_less demo_cp (with_signature demo_cp "other") = false.
Proof.
  refine (proj2 (store_latest [with_signature demo_cp "other"; demo_cp; demo_cp] demo_cp _) _ _).
  - vm_compute. reflexivity.
  - vm_compute. by left.
Defined.

Lemma demo_receipt_path : ∃ p a,
  decodeHexList (default [] (ip_path (rc_proof demo_receipt))) = Some [p]
  ∧ demo_hashes = [p; a] ∧ hex_bytes (ip_leaf_hash (rc_proof demo_receipt)) = a.
Proof.
  exists (nth 0 demo_hashes ""), (nth 1 demo_hashes ""). vm_compute. done.
Qed.

Lemma demo_receipt_verifies : VerifyReceipt demo_receipt demo_keys = OK.
Proof. vm_compute. reflexivity. Qed.

Lemma demo_receipt_index : ip_leaf_index (rc_proof demo_receipt) = 1.
Proof. vm_compute. reflexivity. Qed.

Lemma receipt_sound_witness :
  ∃ commitments pre,
    leafPreimage "b" "hash-b" GoChainHashVersion commitments = Some pre
    ∧ demo_hashes !! 1%nat = Some (LeafHash pre).
Proof.
  destruct (receipt_sound demo_receipt demo_keys demo_hashes demo_receipt_verifies)
    as (_ & com & pre & Hpre & Hl & _).
  - vm_compute. reflexivity.
  - vm_compute. reflexivity.
  - vm_compute. reflexivity.
  - destruct demo_receipt_path as (p & a & Hd & Hh & Ha). rewrite Ha, Hh, demo_receipt_index.
    change (zlen [p; a]) with 2. intros bs path Hp Hr. rewrite Hd in Hp. injection Hp as <-.
    inversion Hr as [|i n bs' H2 H1 Hb|i n bs' H2 H1 Hb]; subst; rewrite splitPoint_two in *; [lia|].
    apply route_one in Hb. subst bs'. intros x y Hx%root_input_two Hy%list_elem_of_singleton _. rewrite Hx, Hy. reflexivity.
  - destruct demo_receipt_row as (E1 & E2 & E3). rewrite E1, E2, E3 in Hpre.
    exists com, pre. rewrite demo_receipt_index in Hl. split; [exact Hpre|exact Hl].
Defined.
