(* ===== verification/Throttle.v ===== *)
(** * Login and MFA throttling ([internal/throttle])

    The limiter ([throttle.go]) over a store of counters, and the default in-process store
    ([memory.go]). The store is the class [ThrottleStore]: the limiter is written against it, with
    its optional compare-and-swap, and [MemoryStore] is its instance. Every operation takes the
    reading of the clock as an argument. The error results of the store interface, which the memory
    store never returns, are not modelled. *)

From Stdlib Require Import ZArith Lia String Ascii.
From stdpp Require Import base gmap strings list.
From S2P Require Import Prelude.

Set Default Goal Selector "!".
Open Scope string_scope.
Open Scope list_scope.
Open Scope Z_scope.

(** ** Data *)

Record Entry := mkEntry {
  en_failures : Z;
  en_last_failure : Z;
  en_blocked_until : Z;
  en_expires_at : Z;
}.

#[export] Instance Entry_eq_dec : EqDecision Entry.
Proof. solve_decision. Defined.

Definition zero_entry : Entry := mkEntry 0 0 0 0.

Record Config := mkConfig {
  GraceFailures : Z; BaseDelay : Z; MaxDelay : Z; ResetAfter : Z;
  UserMaxFailures : Z; UserLockout : Z; MFAMaxFailures : Z; MFALockout : Z;
}.

Definition positive_or (v d : Z) : Z := if v <=? 0 then d else v.

Definition WithDefaults (c : Config) : Config :=
  mkConfig (positive_or (GraceFailures c) 3) (positive_or (BaseDelay c) Second)
    (positive_or (MaxDelay c) (15 * Minute)) (positive_or (ResetAfter c) (15 * Minute))
    (positive_or (UserMaxFailures c) 10) (positive_or (UserLockout c) (15 * Minute))
    (positive_or (MFAMaxFailures c) 5) (positive_or (MFALockout c) (15 * Minute)).

(** [BlockedError] *)
Inductive blocked_result := NotBlocked | Blocked (retry_after : Z) (locked : bool).

Definition LoginKeyPrefix : string := "login:".
Definition loginKey (ip ident : string) : string := LoginKeyPrefix +:+ ip +:+ "|" +:+ ident.
Definition userKey (ident : string) : string := "user:" +:+ ident.
Definition mfaKey (userID : string) : string := "mfa:" +:+ userID.

(** [Store] with its optional [CASStore] capability: [ts_cas] writes only when the stored entry is
    still the one read. *)
Class ThrottleStore (St : Type) := {
  ts_get : St -> string -> option Entry;
  ts_set : St -> Z -> string -> Entry -> St;
  ts_delete : St -> string -> St;
  ts_cas : option (St -> string -> option Entry -> Entry -> option St);
}.

Definition casAttempts : nat := 64.

(** ** The limiter ([throttle.go]) *)

(** [d *= 2] on an [int64], stopping at the cap. *)
Fixpoint backoff_loop (cfg : Config) (n : nat) (d : Z) : Z :=
  match n with
  | O => if MaxDelay cfg <? d then MaxDelay cfg else d
  | S n' =>
      let d := wrap64 (d * 2) in
      if MaxDelay cfg <=? d then MaxDelay cfg else backoff_loop cfg n' d
  end.

Definition backoff (cfg : Config) (over : Z) : Z := backoff_loop cfg (Z.to_nat (over - 1)) (BaseDelay cfg).

Definition lapsed (e : Entry) (now : Z) : bool :=
  negb (After (en_blocked_until e) now) && negb (IsZero (en_blocked_until e)).

Definition with_blocked (e : Entry) (t : Z) : Entry :=
  mkEntry (en_failures e) (en_last_failure e) t (en_expires_at e).

(** The entry [bump] writes over the one it read. *)
Definition bump_entry (cfg : Config) (now : Z) (restartAfterLock : bool) (apply : Entry -> Entry)
  (prev : option Entry) : Entry :=
  let e :=
    match prev with
    | None => zero_entry
    | Some e =>
        if negb (After (en_expires_at e) now) || (restartAfterLock && lapsed e now)
        then zero_entry else e
    end in
  let e := apply (mkEntry (en_failures e + 1) now (en_blocked_until e) (en_expires_at e)) in
  let expires := en_last_failure e + ResetAfter cfg in
  let expires :=
    if After (en_blocked_until e) expires then en_blocked_until e + ResetAfter cfg else expires in
  mkEntry (en_failures e) (en_last_failure e) (en_blocked_until e) expires.

Section Limiter.
Context {St : Type} `{ThrottleStore St} (cfg : Config).

Definition blocked (st : St) (key : string) (now : Z) (locked : bool) : blocked_result :=
  match ts_get st key with
  | Some e =>
      if After (en_blocked_until e) now then Blocked (Sub (en_blocked_until e) now) locked
      else NotBlocked
  | None => NotBlocked
  end.

(** [None] is the error after [casAttempts] lost races. *)
Fixpoint bump_loop (attempts : nat) (st : St) (key : string) (now : Z) (restart : bool)
  (apply : Entry -> Entry) : option St :=
  match attempts with
  | O => None
  | S attempts' =>
      let prev := ts_get st key in
      let e := bump_entry cfg now restart apply prev in
      match ts_cas with
      | None => Some (ts_set st now key e)
      | Some cas =>
          match cas st key prev e with
          | Some st' => Some st'
          | None => bump_loop attempts' st key now restart apply
          end
      end
  end.

Definition bump (st : St) (key : string) (now : Z) (restart : bool) (apply : Entry -> Entry)
  : option St := bump_loop casAttempts st key now restart apply.

Definition CheckLogin (st : St) (now : Z) (ip ident : string) : blocked_result :=
  match blocked st (userKey ident) now true with
  | Blocked d l => Blocked d l
  | NotBlocked => blocked st (loginKey ip ident) now false
  end.

Definition login_apply (now : Z) (e : Entry) : Entry :=
  let over := en_failures e - GraceFailures cfg in
  if 0 <? over then with_blocked e (now + backoff cfg over) else e.

Definition user_apply (now : Z) (e : Entry) : Entry :=
  if UserMaxFailures cfg <=? en_failures e then with_blocked e (now + UserLockout cfg) else e.

Definition mfa_apply (now : Z) (e : Entry) : Entry :=
  if MFAMaxFailures cfg <=? en_failures e then with_blocked e (now + MFALockout cfg) else e.

Definition RecordLoginFailure (st : St) (now : Z) (ip ident : string) : option St :=
  match bump st (loginKey ip ident) now false (login_apply now) with
  | None => None
  | Some st => bump st (userKey ident) now true (user_apply now)
  end.

Definition RecordLoginSuccess (st : St) (ip ident : string) : St :=
  ts_delete (ts_delete st (loginKey ip ident)) (userKey ident).

Definition CheckMFA (st : St) (now : Z) (userID : string) : blocked_result :=
  blocked st (mfaKey userID) now true.

Definition RecordMFAFailure (st : St) (now : Z) (userID : string) : option St :=
  bump st (mfaKey userID) now true (mfa_apply now).

Definition RecordMFASuccess (st : St) (userID : string) : St := ts_delete st (mfaKey userID).

Definition UnlockIdentifier (st : St) (ident userID : string) : St :=
  let st := ts_delete st (userKey ident) in
  if (userID =? "")%string then st else ts_delete st (mfaKey userID).
End Limiter.

(** ** The default store ([memory.go]) *)

Definition defaultMaxEntries : Z := 100000.

Record MemoryStore := mkMemoryStore {
  ms_entries : gmap string Entry;
  ms_max_entries : Z;
  ms_sweep_every : Z;
  ms_last_sweep : Z;
}.

Definition NewMemoryStore (maxEntries : Z) : MemoryStore :=
  mkMemoryStore ∅ (positive_or maxEntries defaultMaxEntries) Minute 0.

Definition with_entries (m : MemoryStore) (es : gmap string Entry) : MemoryStore :=
  mkMemoryStore es (ms_max_entries m) (ms_sweep_every m) (ms_last_sweep m).

Definition Get (m : MemoryStore) (key : string) : option Entry := ms_entries m !! key.

Definition sweepLocked (m : MemoryStore) (now : Z) : MemoryStore :=
  mkMemoryStore (filter (fun kv => After (en_expires_at kv.2) now = true) (ms_entries m))
    (ms_max_entries m) (ms_sweep_every m) now.

(** [victim] is the key a [range] over the map visits first. *)
Definition MSet (victim : gmap string Entry -> string) (now : Z) (m : MemoryStore) (key : string)
  (e : Entry) : MemoryStore :=
  let m :=
    if (ms_sweep_every m <=? Sub now (ms_last_sweep m))
       || (ms_max_entries m <=? Z.of_nat (size (ms_entries m)))
    then sweepLocked m now else m in
  let es :=
    if bool_decide (ms_entries m !! key = None)
       && (ms_max_entries m <=? Z.of_nat (size (ms_entries m)))
    then delete (victim (ms_entries m)) (ms_entries m) else ms_entries m in
  with_entries m (<[key := e]> es).

Definition Delete (m : MemoryStore) (key : string) : MemoryStore :=
  with_entries m (delete key (ms_entries m)).

Definition CompareAndSwap (m : MemoryStore) (key : string) (prev : option Entry) (next : Entry)
  : option MemoryStore :=
  if bool_decide (ms_entries m !! key = prev)
  then Some (with_entries m (<[key := next]> (ms_entries m))) else None.

(** The bytes after the first ['|'] of a login key's rest. *)
Fixpoint after_bar (s : string) : option string :=
  match s with
  | "" => None
  | String c s' => if Ascii.eqb c "|"%char then Some s' else after_bar s'
  end.

Definition login_ident (key : string) : option string :=
  if String.prefix LoginKeyPrefix key
  then after_bar (String.substring 6 (String.length key - 6) key) else None.

Definition DeleteLoginEntries (m : MemoryStore) (ident : string) : MemoryStore :=
  with_entries m (filter (fun kv => login_ident kv.1 ≠ Some ident) (ms_entries m)).

(** The memory store as the limiter sees it; [victim] resolves the map order of [Set]. *)
Definition MemoryStore_store (victim : gmap string Entry -> string) : ThrottleStore MemoryStore := {|
  ts_get := Get;
  ts_set m now := MSet victim now m;
  ts_delete := Delete;
  ts_cas := Some CompareAndSwap;
|}.

(** [ClearLoginBackoff] on the memory store, which has the capability it needs. *)
Definition ClearLoginBackoff (m : MemoryStore) (ident : string) : MemoryStore :=
  DeleteLoginEntries m ident.

(** ** Backoff *)

Lemma backoff_loop_closed cfg n d :
  0 < d < 2 ^ 62 -> MaxDelay cfg <= 2 ^ 62 ->
  backoff_loop cfg n d = Z.min (MaxDelay cfg) (d * 2 ^ Z.of_nat n).
Proof.
  revert d. induction n as [|n IH]; intros d Hd Hmax; cbn [backoff_loop].
  - rewrite Z.mul_1_r. destruct (Z.ltb_spec (MaxDelay cfg) d); lia.
  - rewrite wrap64_small by (unfold in_int64, min_int64, max_int64; lia).
    pose proof (Z.pow_pos_nonneg 2 (Z.of_nat n)) as Hp. rewrite Nat2Z.inj_succ, Z.pow_succ_r by lia.
    destruct (Z.leb_spec (MaxDelay cfg) (d * 2)).
    + rewrite Z.min_l; [done|]. nia.
    + rewrite IH by lia. f_equal. lia.
Qed.

(** The backoff delay doubles with every failure past the grace period and is capped: for delays below
    2^62 ns (146 years) the doubling loop never overflows [time.Duration] and its result is
    [min(MaxDelay, BaseDelay * 2^(over-1))]. *)
Theorem backoff_closed cfg over
  (Hb : 0 < BaseDelay cfg < 2 ^ 62) (Hm : MaxDelay cfg <= 2 ^ 62) (Ho : 1 <= over) :
  backoff cfg over = Z.min (MaxDelay cfg) (BaseDelay cfg * 2 ^ (over - 1)).
Proof. unfold backoff. rewrite backoff_loop_closed, Z2Nat.id by (done || lia). done. Qed.

(** ** The limiter over the memory store *)

Lemma userKey_inj a b : userKey a = userKey b -> a = b.
Proof. unfold userKey. simpl. intros He. by injection He. Qed.

Lemma userKey_loginKey ident ip ident' : userKey ident ≠ loginKey ip ident'.
Proof. done. Qed.

Section MemoryLimiter.
Context (victim : gmap string Entry -> string) (cfg : Config).
#[local] Instance store : ThrottleStore MemoryStore := MemoryStore_store victim.

(** Under the limiter's mutex the first compare-and-swap succeeds. *)
Lemma bump_memory m key now restart apply :
  bump cfg m key now restart apply =
  Some (with_entries m (<[key := bump_entry cfg now restart apply (Get m key)]> (ms_entries m))).
Proof. unfold bump. simpl. unfold CompareAndSwap, Get. by rewrite bool_decide_eq_true_2. Qed.

Lemma RecordLoginFailure_memory m now ip ident :
  ∃ e, RecordLoginFailure cfg m now ip ident = Some (with_entries m
    (<[userKey ident := bump_entry cfg now true (user_apply cfg now) (Get m (userKey ident))]>
      (<[loginKey ip ident := e]> (ms_entries m))))
  ∧ e = bump_entry cfg now false (login_apply cfg now) (Get m (loginKey ip ident)).
Proof.
  eexists. split; [|done]. unfold RecordLoginFailure. rewrite !bump_memory. unfold Get; simpl.
  by rewrite lookup_insert_ne by apply not_eq_sym, userKey_loginKey.
Qed.

(** The failures of one identifier, each at a time and from an address. *)
Fixpoint record_failures (m : MemoryStore) (ident : string) (l : list (Z * string)) : option MemoryStore :=
  match l with
  | [] => Some m
  | (t, ip) :: l' =>
      match RecordLoginFailure cfg m t ip ident with
      | None => None
      | Some m' => record_failures m' ident l'
      end
  end.

(** Recording failures in the memory store never fails. *)
Lemma record_failures_total m ident l : ∃ m', record_failures m ident l = Some m'.
Proof.
  revert m. induction l as [|[t ip] l IH]; intros m; cbn [record_failures]; [by exists m|].
  destruct (RecordLoginFailure_memory m t ip ident) as (el & -> & _). apply IH.
Qed.

(** Times that never let a counter expire: each is within [ResetAfter] of the one before. *)
Fixpoint spaced (last : option Z) (ts : list Z) : Prop :=
  match ts with
  | [] => True
  | t :: ts' =>
      0 <= t ∧ match last with Some p => p <= t < p + ResetAfter cfg | None => True end
      ∧ spaced (Some t) ts'
  end.

(** A counter at [k] failures, the last at [t], that has not locked yet. *)
Definition counting (k t : Z) (e : option Entry) : Prop :=
  match e with
  | None => k = 0
  | Some e => en_failures e = k ∧ en_blocked_until e = 0 ∧ en_expires_at e = t + ResetAfter cfg
  end.

Lemma bump_counting k t now (apply : Z -> Entry -> Entry) prev :
  0 < ResetAfter cfg -> 0 <= now -> counting k t prev -> (prev ≠ None -> now < t + ResetAfter cfg) ->
  bump_entry cfg now true (apply now) prev =
  let e := apply now (mkEntry (k + 1) now 0 (en_expires_at (default zero_entry prev))) in
  mkEntry (en_failures e) (en_last_failure e) (en_blocked_until e)
    (if After (en_blocked_until e) (en_last_failure e + ResetAfter cfg)
     then en_blocked_until e + ResetAfter cfg else en_last_failure e + ResetAfter cfg).
Proof.
  intros Hr Hnow Hc Hlive. unfold bump_entry. destruct prev as [e|]; simpl in *; [|by subst].
  destruct Hc as (<- & Hb & He). unfold lapsed. rewrite Hb, He. go_time.
  rewrite andb_false_r, orb_false_r. specialize (Hlive ltac:(done)).
  destruct (Z.ltb_spec now (t + ResetAfter cfg)); [|lia]. simpl. by rewrite Hb, He.
Qed.

Lemma failures_count ident l m m' k t :
  0 < ResetAfter cfg -> 0 < UserLockout cfg -> 0 <= k ->
  counting k t (Get m (userKey ident)) ->
  spaced (if decide (Get m (userKey ident) = None) then None else Some t) (map fst l) ->
  k + Z.of_nat (length l) <= UserMaxFailures cfg ->
  record_failures m ident l = Some m' -> l ≠ [] ->
  ∃ tl e, last (map fst l) = Some tl ∧ Get m' (userKey ident) = Some e
    ∧ en_blocked_until e
      = if UserMaxFailures cfg <=? k + Z.of_nat (length l) then tl + UserLockout cfg else 0.
Proof.
  intros Hr Hlock. revert m k t.
  induction l as [|[t1 ip] l IH]; intros m k t Hk Hc Hsp Hmax Hrec Hne; [done|].
  cbn [record_failures] in Hrec.
  destruct (RecordLoginFailure_memory m t1 ip ident) as (el & Hrf & _). rewrite Hrf in Hrec.
  cbn [map spaced fst] in Hsp. destruct Hsp as (Ht1 & Hlive & Hsp).
  set (e1 := bump_entry cfg t1 true (user_apply cfg t1) (Get m (userKey ident))) in *.
  set (m1 := with_entries m _) in *.
  assert (Hg1 : Get m1 (userKey ident) = Some e1) by (unfold Get, m1; simpl; apply lookup_insert_eq).
  assert (He1 : e1 = _) by (apply (bump_counting k t t1 (user_apply cfg)); try done;
    intros Hn; rewrite decide_False in Hlive by done; simpl in Hlive; lia).
  unfold user_apply in He1. cbn [en_failures] in He1.
  destruct l as [|[t2 ip2] l].
  - injection Hrec as <-. exists t1, e1. split; [done|]. split; [done|].
    replace (k + Z.of_nat (length [(t1, ip)])) with (k + 1) by (simpl; lia).
    rewrite He1. by destruct (UserMaxFailures cfg <=? k + 1).
  - destruct (Z.leb_spec (UserMaxFailures cfg) (k + 1)); [simpl in Hmax; lia|].
    destruct (IH m1 (k + 1) t1) as (tl & e & Hl & Hg & Hb); [lia| | |simpl in *; lia|done|done|].
    + rewrite Hg1, He1. simpl. go_time. destruct (Z.ltb_spec (t1 + ResetAfter cfg) 0); [lia|]. done.
    + rewrite decide_False by (by rewrite Hg1). done.
    + exists tl, e. split; [done|]. split; [done|]. rewrite Hb. simpl length.
      by replace (k + 1 + Z.of_nat (S (length l))) with (k + Z.of_nat (S (S (length l)))) by lia.
Qed.

(** Lockout: after [UserMaxFailures] failures of one identifier, from any addresses and each within
    [ResetAfter] of the one before, every login attempt for it is refused, from every address, until
    [UserLockout] after the last failure, and the error says how long. *)
Theorem user_locked_out ident l m tl now ip
  (Hr : 0 < ResetAfter cfg) (Hlock : 0 < UserLockout cfg <= max_int64) (Hl : l ≠ [])
  (Hfresh : Get m (userKey ident) = None) (Hsp : spaced None (map fst l))
  (Hlen : Z.of_nat (length l) = UserMaxFailures cfg)
  (Htl : last (map fst l) = Some tl) (Hnow : tl <= now < tl + UserLockout cfg) :
  ∃ m', record_failures m ident l = Some m'
    ∧ CheckLogin m' now ip ident = Blocked (tl + UserLockout cfg - now) true.
Proof.
  destruct (record_failures_total m ident l) as [m' Hrec]. exists m'. split; [done|].
  destruct (failures_count ident l m m' 0 0) as (tl' & e & Htl' & Hg & Hb); try done; try lia.
  { by rewrite Hfresh. }
  { by rewrite decide_True. }
  rewrite Htl in Htl'. injection Htl' as <-. unfold CheckLogin, blocked. cbn [ts_get store MemoryStore_store].
  rewrite Hg, Hb, Z.add_0_l, Hlen, Z.leb_refl. go_time.
  destruct (Z.ltb_spec now (tl + UserLockout cfg)); [|lia].
  rewrite Sub_small; [done|]. unfold in_int64, min_int64, max_int64 in *. lia.
Qed.

(** No login entry of [ident] has more than [k] failures or a block. *)
Definition within_grace (ident : string) (k : Z) (m : MemoryStore) : Prop :=
  ∀ ip e, Get m (loginKey ip ident) = Some e -> 0 <= en_failures e <= k ∧ en_blocked_until e = 0.

Lemma login_bump_grace k now prev :
  0 <= k -> k + 1 <= GraceFailures cfg ->
  match prev with Some e => 0 <= en_failures e <= k ∧ en_blocked_until e = 0 | None => True end ->
  let e := bump_entry cfg now false (login_apply cfg now) prev in
  0 <= en_failures e <= k + 1 ∧ en_blocked_until e = 0.
Proof.
  intros Hk Hg Hp. unfold bump_entry, login_apply.
  set (e0 := match prev with None => _ | Some _ => _ end).
  assert (He : 0 <= en_failures e0 <= k ∧ en_blocked_until e0 = 0).
  { unfold e0. destruct prev; [case_match|]; simpl; done || lia. }
  cbn [en_failures]. destruct (Z.ltb_spec 0 (en_failures e0 + 1 - GraceFailures cfg)); [lia|]. simpl. lia.
Qed.

Lemma failures_grace ident l m m' k :
  0 <= k -> k + Z.of_nat (length l) <= GraceFailures cfg ->
  within_grace ident k m -> record_failures m ident l = Some m' ->
  within_grace ident (k + Z.of_nat (length l)) m'.
Proof.
  revert m k. induction l as [|[t ip] l IH]; intros m k Hk Hg Hw; cbn [record_failures].
  { intros [= <-]. by rewrite Z.add_0_r. }
  destruct (RecordLoginFailure_memory m t ip ident) as (el & -> & Hel). intros Hrec.
  cbn [length] in Hg. replace (k + Z.of_nat (length ((t, ip) :: l))) with (k + 1 + Z.of_nat (length l))
    by (cbn [length]; lia).
  eapply IH; [lia|lia| |exact Hrec]. intros ip' e. unfold Get; simpl.
  rewrite lookup_insert_ne by apply userKey_loginKey.
  destruct (decide (loginKey ip' ident = loginKey ip ident)) as [->|Hne].
  - rewrite lookup_insert_eq. intros [= <-]. rewrite Hel. apply login_bump_grace; [done|lia|].
    destruct (Get m (loginKey ip ident)) eqn:E; [|done]. by apply (Hw ip).
  - rewrite lookup_insert_ne by done. intros He. destruct (Hw ip' e He). lia.
Qed.

(** No early refusal: fewer than [UserMaxFailures] failures of an identifier, at most
    [GraceFailures] of them, leave every login attempt for it unblocked, from every address. *)
Theorem no_block_within_grace ident l m now ip
  (Hr : 0 < ResetAfter cfg) (Hlock : 0 < UserLockout cfg) (Hnow : 0 <= now)
  (Hfresh : ∀ key, Get m key = None) (Hsp : spaced None (map fst l))
  (Hlen : Z.of_nat (length l) < UserMaxFailures cfg)
  (Hgrace : Z.of_nat (length l) <= GraceFailures cfg) :
  ∃ m', record_failures m ident l = Some m' ∧ CheckLogin m' now ip ident = NotBlocked.
Proof.
  destruct (record_failures_total m ident l) as [m' Hrec]. exists m'. split; [done|].
  assert (Hlogin : blocked m' (loginKey ip ident) now false = NotBlocked).
  { assert (Hw : within_grace ident (0 + Z.of_nat (length l)) m').
    { apply (failures_grace ident l m m' 0); [lia|lia| |exact Hrec]. intros ip' e. by rewrite Hfresh. }
    unfold blocked. cbn [ts_get store MemoryStore_store].
    destruct (Get m' (loginKey ip ident)) as [e|] eqn:E; [|done].
    destruct (Hw ip e E) as [_ ->]. go_time. destruct (Z.ltb_spec now 0); [lia|done]. }
  unfold CheckLogin. rewrite Hlogin. unfold blocked. cbn [ts_get store MemoryStore_store].
  destruct l as [|x l]; [injection Hrec as <-; by rewrite Hfresh|].
  destruct (failures_count ident (x :: l) m m' 0 0) as (tl & e & _ & -> & ->); try done; try lia.
  - by rewrite Hfresh.
  - by rewrite decide_True.
  - destruct (Z.leb_spec (UserMaxFailures cfg) (0 + Z.of_nat (length (x :: l)))); [lia|].
    go_time. destruct (Z.ltb_spec now 0); [lia|done].
Qed.

(** One failure for each identifier of a list, all from one address. *)
Fixpoint record_idents (m : MemoryStore) (ip : string) (l : list (Z * string)) : option MemoryStore :=
  match l with
  | [] => Some m
  | (t, ident) :: l' =>
      match RecordLoginFailure cfg m t ip ident with
      | None => None
      | Some m' => record_idents m' ip l'
      end
  end.

Lemma loginKey_inj ip a b : loginKey ip a = loginKey ip b -> a = b.
Proof.
  unfold loginKey. intros He. simpl in He. injection He as He.
  induction ip as [|c ip IH]; simpl in He; [by injection He|]. injection He as He. auto.
Qed.

Lemma record_idents_size ip l m :
  NoDup l.*2 ->
  (∀ ident, ident ∈ l.*2 -> Get m (userKey ident) = None ∧ Get m (loginKey ip ident) = None) ->
  ∃ m', record_idents m ip l = Some m'
    ∧ size (ms_entries m') = (size (ms_entries m) + 2 * length l)%nat.
Proof.
  revert m. induction l as [|[t ident] l IH]; intros m Hnd Hfresh; cbn [record_idents].
  { exists m. simpl. split; [done|lia]. }
  apply NoDup_cons in Hnd as [Hn Hnd]. destruct (Hfresh ident) as [Hu Hl]; [by left|].
  destruct (RecordLoginFailure_memory m t ip ident) as (el & -> & _).
  set (es := <[userKey ident := _]> _).
  destruct (IH (with_entries m es) Hnd) as (m' & -> & Hsz); unfold Get, es in *; simpl.
  - intros i Hi. destruct (Hfresh i) as [Hu' Hl']; [by right|].
    assert (Hne : i ≠ ident) by (intros ->; done).
    rewrite !lookup_insert_ne; try done.
    + intros ?%loginKey_inj. congruence.
    + intros ?%userKey_inj. congruence.
  - exists m'. split; [done|]. rewrite Hsz. simpl.
    rewrite !map_size_insert, Hl. rewrite lookup_insert_ne by done. rewrite Hu. simpl. lia.
Qed.

(** The cap of the memory store does not bound the limiter's use of it: one address that tries [n]
    different identifiers leaves [2 * n] entries, whatever [maxEntries] is and however old the
    entries are, because [CompareAndSwap], the only write the limiter makes, neither sweeps nor
    evicts. *)
Theorem memory_store_unbounded maxEntries ip l (Hnd : NoDup l.*2) :
  ∃ m', record_idents (NewMemoryStore maxEntries) ip l = Some m'
    ∧ size (ms_entries m') = (2 * length l)%nat.
Proof.
  destruct (record_idents_size ip l (NewMemoryStore maxEntries) Hnd) as (m' & Hm & Hs); [done|].
  exists m'. split; [done|]. rewrite Hs. done.
Qed.
End MemoryLimiter.

(** ** Concurrent writers

    Several processes run the loop of [bump] on one key of a shared store. Each reads the entry, then
    tries to swap it; between the two, others may read, swap or clear it. *)

Section Race.
Context (cfg : Config) (restart : bool) (apply : Z -> Entry -> Entry) (key : string).

Record race := mkRace {
  ra_store : MemoryStore;
  ra_reads : gmap nat (option Entry * Z);
  ra_commits : list Z;
}.

Inductive race_step : race -> race -> Prop :=
  | race_read st reads commits p now :
      race_step (mkRace st reads commits) (mkRace st (<[p := (Get st key, now)]> reads) commits)
  | race_commit st st' reads commits p prev now :
      reads !! p = Some (prev, now) ->
      CompareAndSwap st key prev (bump_entry cfg now restart (apply now) prev) = Some st' ->
      race_step (mkRace st reads commits) (mkRace st' (delete p reads) (commits ++ [now]))
  | race_retry st reads commits p prev now :
      reads !! p = Some (prev, now) ->
      CompareAndSwap st key prev (bump_entry cfg now restart (apply now) prev) = None ->
      race_step (mkRace st reads commits) (mkRace st (delete p reads) commits)
  | race_clear st reads commits :
      race_step (mkRace st reads commits) (mkRace (Delete st key) reads [])
  | race_other st st' reads commits :
      Get st' key = Get st key -> race_step (mkRace st reads commits) (mkRace st' reads commits).

(** The entry after failures counted one after the other. *)
Definition sequential (ts : list Z) : option Entry :=
  fold_left (fun e now => Some (bump_entry cfg now restart (apply now) e)) ts None.

Lemma race_step_sequential s s' :
  race_step s s' -> Get (ra_store s) key = sequential (ra_commits s) ->
  Get (ra_store s') key = sequential (ra_commits s').
Proof.
  destruct 1 as [|st st' reads commits p prev now Hr Hc| | |st st' reads commits Ho]; simpl; intros Hs;
    try done.
  - unfold CompareAndSwap in Hc. case_bool_decide as E; [|done]. injection Hc as <-.
    unfold Get in *. simpl. rewrite lookup_insert_eq. unfold sequential in *.
    rewrite fold_left_app. simpl. by rewrite <- Hs, E.
  - unfold Get, Delete; simpl. by rewrite lookup_delete_eq.
  - by rewrite Ho.
Qed.

(** No failure is lost to a race: however the reads, swaps, retries and clears of concurrent writers
    interleave, the stored entry is the one that counting the successful writers' failures one after
    the other, since the last clear, would give. *)
Theorem cas_linearizable s0 s
  (H0 : Get (ra_store s0) key = None) (Hc : ra_commits s0 = []) (Hs : rtc race_step s0 s) :
  Get (ra_store s) key = sequential (ra_commits s).
Proof.
  assert (Hinit : Get (ra_store s0) key = sequential (ra_commits s0)) by (by rewrite H0, Hc).
  clear H0 Hc. induction Hs as [s|s s1 s2 Hstep _ IH]; [done|].
  apply IH. by eapply race_step_sequential.
Qed.
End Race.

(** ** Witnesses *)

Definition demo_cfg : Config := WithDefaults (mkConfig 0 0 0 0 3 0 0 0).
Definition demo_victim (m : gmap string Entry) : string := default "" (fst <$> head (map_to_list m)).
Definition demo_attempts : list (Z * string) := [(10, "1.1.1.1"); (20, "2.2.2.2"); (30, "1.1.1.1")].
Lemma backoff_closed_witness :
  0 < BaseDelay demo_cfg < 2 ^ 62
  ∧ backoff demo_cfg 4 = Z.min (MaxDelay demo_cfg) (BaseDelay demo_cfg * 2 ^ (4 - 1)).
Proof. split; [vm_compute; done|]. apply (backoff_closed demo_cfg 4); vm_compute; done. Defined.

Lemma user_locked_out_witness :
  ∃ m', record_failures demo_victim demo_cfg (NewMemoryStore 0) "bob" demo_attempts = Some m'
    ∧ CheckLogin (H := MemoryStore_store demo_victim) m' 40 "9.9.9.9" "bob"
      = Blocked (30 + UserLockout demo_cfg - 40) true.
Proof.
  apply (user_locked_out demo_victim demo_cfg "bob" demo_attempts (NewMemoryStore 0) 30 40 "9.9.9.9");
    vm_compute; done || lia.
Defined.

Lemma no_block_within_grace_witness :
  ∃ m', record_failures demo_victim demo_cfg (NewMemoryStore 0) "bob" [(10, "1.1.1.1"); (20, "1.1.1.1")]
        = Some m'
    ∧ CheckLogin (H := MemoryStore_store demo_victim) m' 21 "1.1.1.1" "bob" = NotBlocked.
Proof.
  apply (no_block_within_grace demo_victim demo_cfg "bob" [(10, "1.1.1.1"); (20, "1.1.1.1")]
           (NewMemoryStore 0) 21 "1.1.1.1"); vm_compute; done || lia.
Defined.

Lemma memory_store_unbounded_witness :
  ∃ m', record_idents demo_victim demo_cfg (NewMemoryStore 1) "1.1.1.1" [(1, "a"); (2, "b"); (3, "c")]
        = Some m' ∧ size (ms_entries m') = 6%nat.
Proof.
  apply (memory_store_unbounded demo_victim demo_cfg 1 "1.1.1.1" [(1, "a"); (2, "b"); (3, "c")]).
  apply (bool_decide_eq_true_1 (NoDup _)). vm_compute. reflexivity.
Defined.

(** Two processes read the absent entry; the first swap wins, the second fails, reads again and
    wins. *)
Lemma cas_linearizable_witness :
  ∃ s, en_failures <$> Get (ra_store s) "mfa:u" = Some 2 ∧ ra_commits s = [10; 12]
    ∧ Get (ra_store s) "mfa:u" = sequential demo_cfg true (mfa_apply demo_cfg) (ra_commits s).
Proof.
  set (bumped := fun now prev => bump_entry demo_cfg now true (mfa_apply demo_cfg now) prev).
  set (m0 := NewMemoryStore 0). set (e1 := bumped 10 None). set (e2 := bumped 12 (Some e1)).
  set (m1 := with_entries m0 {["mfa:u" := e1]}). set (m2 := with_entries m1 {["mfa:u" := e2]}).
  exists (mkRace m2 (delete 1%nat (<[1%nat := (Some e1, 12)]> (delete 1%nat (delete 0%nat
            (<[1%nat := (None, 11)]> (<[0%nat := (None, 10)]> ∅)))))) [10; 12]).
  split; [vm_compute; reflexivity|]. split; [reflexivity|].
  apply (cas_linearizable demo_cfg true (mfa_apply demo_cfg) "mfa:u" (mkRace m0 ∅ [])); [done|done|].
  eapply rtc_l; [apply (race_read _ _ _ _ _ _ _ 0%nat 10)|].
  eapply rtc_l; [apply (race_read _ _ _ _ _ _ _ 1%nat 11)|].
  eapply rtc_l; [apply (race_commit _ _ _ _ m0 m1 _ _ 0%nat None 10); vm_compute; reflexivity|].
  eapply rtc_l; [apply (race_retry _ _ _ _ m1 _ _ 1%nat None 11); vm_compute; reflexivity|].
  eapply rtc_l; [apply (race_read _ _ _ _ _ _ _ 1%nat 12)|].
  eapply rtc_l; [apply (race_commit _ _ _ _ m1 m2 _ _ 1%nat (Some e1) 12); vm_compute; reflexivity|].
  apply rtc_refl.
Defined.
