(* ===== verification/KV.v ===== *)
(** * Shared counters, replay caches and rate limits ([kv/kv.go], [kv/memory.go])

    The in-process adapter [Memory]: expiring entries with bounded size, the replay cache on top of
    [SetNX], the token bucket limiter (in [float64] arithmetic, by [SpecFloat]), and the fixed window
    limiter of [kv.go], which is written against the class [CounterCache] that states what it needs
    of any [Cache]. A Go [range] over a map is the argument [range], any enumeration of the map. *)

From Stdlib Require Import ZArith Lia String Ascii.
From Corelib Require Import SpecFloat.
From stdpp Require Import base gmap strings list sorting.
From S2P Require Import Prelude.

Set Default Goal Selector "!".
Open Scope string_scope.
Open Scope list_scope.
Open Scope Z_scope.

Record memEntry := mkMemEntry { me_value : string; me_n : Z; me_expires : Z }.

Definition expired (e : memEntry) (now : Z) : bool :=
  negb (IsZero (me_expires e)) && negb (Before now (me_expires e)).

Record bucket := mkBucket { bk_tokens : spec_float; bk_last : Z; bk_window : Z }.

Definition DefaultMemoryMaxEntries : nat := Z.to_nat 100000.

Record Memory := mkMemory {
  mem_max : nat;
  mem_entries : gmap string memEntry;
  mem_buckets : gmap string bucket;
}.

(** [WithMaxEntries(n)] applies when [n > 0]. *)
Definition NewMemory (n : nat) : Memory :=
  mkMemory (if (0 <? n)%nat then n else DefaultMemoryMaxEntries) ∅ ∅.

Definition set_entries (m : Memory) (es : gmap string memEntry) : Memory :=
  mkMemory (mem_max m) es (mem_buckets m).

Record Decision := mkDecision { dc_allowed : bool; dc_remaining : Z; dc_retry_after : Z }.

(** [time.Unix(1<<40, 0)] *)
Definition far_future : Z := (2 ^ 40 + 62135596800) * Second.

Section Memory.
Context (range : gmap string memEntry -> list (string * memEntry)).
Context (any_bucket : gmap string bucket -> string).

(** The entry and the store after the lookup, which drops the key when it expired. *)
Definition live (m : Memory) (key : string) (now : Z) : Memory * option memEntry :=
  match mem_entries m !! key with
  | None => (m, None)
  | Some e =>
      if expired e now then (set_entries m (delete key (mem_entries m)), None) else (m, Some e)
  end.

Definition sweepEntries (m : Memory) (now : Z) : Memory :=
  set_entries m (filter (fun kv => expired kv.2 now = false) (mem_entries m)).

(** One round of the loop of [evictSoonest]: the victim so far and its expiry. *)
Definition sooner (best : option (string * Z)) (kv : string * memEntry) : option (string * Z) :=
  let exp := if IsZero (me_expires kv.2) then far_future else me_expires kv.2 in
  match best with
  | None => Some (kv.1, exp)
  | Some (_, b) => if Before exp b then Some (kv.1, exp) else best
  end.

Definition evictSoonest (m : Memory) : Memory :=
  match fold_left sooner (range (mem_entries m)) None with
  | None => m
  | Some (victim, _) => set_entries m (delete victim (mem_entries m))
  end.

Definition put (m : Memory) (key : string) (e : memEntry) (now : Z) : Memory :=
  let m :=
    if bool_decide (mem_entries m !! key = None) && (mem_max m <=? size (mem_entries m))%nat then
      let m := sweepEntries m now in
      if (mem_max m <=? size (mem_entries m))%nat then evictSoonest m else m
    else m in
  set_entries m (<[key := e]> (mem_entries m)).

Definition expiry (now ttl : Z) : Z := if ttl <=? 0 then 0 else now + ttl.

Definition Get (m : Memory) (now : Z) (key : string) : Memory * option string :=
  let '(m, e) := live m key now in (m, me_value <$> e).

Definition Set_ (m : Memory) (now : Z) (key value : string) (ttl : Z) : Memory :=
  put m key (mkMemEntry value 0 (expiry now ttl)) now.

Definition SetNX (m : Memory) (now : Z) (key value : string) (ttl : Z) : Memory * bool :=
  let '(m, e) := live m key now in
  match e with
  | Some _ => (m, false)
  | None => (put m key (mkMemEntry value 0 (expiry now ttl)) now, true)
  end.

Definition Delete (m : Memory) (key : string) : Memory :=
  set_entries m (delete key (mem_entries m)).

Definition Incr (m : Memory) (now : Z) (key : string) (ttl : Z) : Memory * Z :=
  let '(m, e) := live m key now in
  match e with
  | Some e =>
      let n := wrap64 (me_n e + 1) in
      (set_entries m (<[key := mkMemEntry (me_value e) n (me_expires e)]> (mem_entries m)), n)
  | None => (put m key (mkMemEntry "" 1 (expiry now ttl)) now, 1)
  end.

Definition seen_value : string := String (ascii_of_N 1) "".

Definition Seen (m : Memory) (now : Z) (key : string) (ttl : Z) : Memory * bool :=
  let '(m, stored) := SetNX m now key seen_value ttl in (m, negb stored).

(** *** The token bucket *)

Definition fadd := SFadd 53 1024.
Definition fsub := SFsub 53 1024.
Definition fmul := SFmul 53 1024.
Definition fdiv := SFdiv 53 1024.
Definition float64 (z : Z) : spec_float := binary_normalize 53 1024 z 0 false.

(** [d.Seconds()] *)
Definition Seconds (d : Z) : spec_float :=
  fadd (float64 (Z.quot d Second)) (fdiv (float64 (Z.rem d Second)) (float64 Second)).

(** [int(f)], truncation of a finite float. *)
Definition trunc (f : spec_float) : Z :=
  match f with
  | S754_finite s m e =>
      let z := if 0 <=? e then Zpos m * 2 ^ e else Zpos m / 2 ^ (- e) in if s then - z else z
  | _ => 0
  end.

Definition sweepBuckets (m : Memory) (now : Z) : Memory :=
  mkMemory (mem_max m) (mem_entries m)
    (filter (fun kb => Sub now (bk_last kb.2) < bk_window kb.2) (mem_buckets m)).

Definition set_buckets (m : Memory) (bs : gmap string bucket) : Memory :=
  mkMemory (mem_max m) (mem_entries m) bs.

(** The bucket of [key], made when absent. *)
Definition get_bucket (m : Memory) (now : Z) (key : string) (limit : Z) : Memory * bucket :=
  match mem_buckets m !! key with
  | Some b => (m, b)
  | None =>
      let m :=
        if (mem_max m <=? size (mem_buckets m))%nat then
          let m := sweepBuckets m now in
          if (mem_max m <=? size (mem_buckets m))%nat
          then set_buckets m (delete (any_bucket (mem_buckets m)) (mem_buckets m)) else m
        else m in
      (m, mkBucket (float64 limit) now 0)
  end.

Definition refill (b : bucket) (now limit window : Z) : bucket :=
  let rate := fdiv (float64 limit) (Seconds window) in
  let el := Seconds (Sub now (bk_last b)) in
  if SFltb (S754_zero false) el then
    let tokens := fadd (bk_tokens b) (fmul el rate) in
    let tokens := if SFltb (float64 limit) tokens then float64 limit else tokens in
    mkBucket tokens now window
  else mkBucket (bk_tokens b) (bk_last b) window.

Definition Allow (m : Memory) (now : Z) (key : string) (limit window : Z) : Memory * Decision :=
  if (limit <=? 0) || (window <=? 0) then (m, mkDecision true 0 0)
  else
    let '(m, b) := get_bucket m now key limit in
    let b := refill b now limit window in
    if SFleb (float64 1) (bk_tokens b) then
      let tokens := fsub (bk_tokens b) (float64 1) in
      (set_buckets m (<[key := mkBucket tokens (bk_last b) (bk_window b)]> (mem_buckets m)),
       mkDecision true (trunc tokens) 0)
    else
      let rate := fdiv (float64 limit) (Seconds window) in
      let wait := fmul (fdiv (fsub (float64 1) (bk_tokens b)) rate) (float64 Second) in
      (set_buckets m (<[key := b]> (mem_buckets m)), mkDecision false 0 (trunc wait)).
End Memory.

(** ** What the limiters and replay caches need of a cache ([kv.go]) *)

(** [cc_view st now key] is the live counter at [key] and the time it expires. *)
Class CounterCache (St : Type) := {
  cc_incr : St -> Z -> string -> Z -> St * Z;
  cc_view : St -> Z -> string -> option (Z * Z);
  cc_incr_fresh st now key ttl :
    0 <= now -> 0 < ttl -> cc_view st now key = None ->
    (cc_incr st now key ttl).2 = 1
    ∧ ∀ now', now <= now' < now + ttl ->
        cc_view (cc_incr st now key ttl).1 now' key = Some (1, now + ttl);
  cc_incr_live st now key ttl n ex :
    0 <= n < max_int64 -> cc_view st now key = Some (n, ex) ->
    (cc_incr st now key ttl).2 = n + 1
    ∧ ∀ now', now <= now' < ex -> cc_view (cc_incr st now key ttl).1 now' key = Some (n + 1, ex);
}.

Section Window.
Context {St : Type} `{CounterCache St} (Prefix : string).

Definition WindowAllow (st : St) (now : Z) (key : string) (limit window : Z) : St * Decision :=
  if (limit <=? 0) || (window <=? 0) then (st, mkDecision true 0 0)
  else
    let '(st, n) := cc_incr st now (Prefix +:+ key) window in
    if limit <? n then (st, mkDecision false 0 window)
    else
      let remaining := limit - n in
      let remaining := if 2147483647 <? remaining then 2147483647 else remaining in
      (st, mkDecision true remaining 0).

(** The decisions of successive calls for one key. *)
Fixpoint window_calls (st : St) (key : string) (limit window : Z) (ts : list Z) : list bool :=
  match ts with
  | [] => []
  | t :: ts' =>
      let '(st, d) := WindowAllow st t key limit window in
      dc_allowed d :: window_calls st key limit window ts'
  end.
End Window.

(** ** The fixed window admits exactly the limit *)

Section WindowProofs.
Context {St : Type} `{CounterCache St} (Prefix : string).

Lemma WindowAllow_count st now key limit window n st' :
  0 < limit -> 0 < window -> cc_incr st now (Prefix +:+ key) window = (st', n) ->
  (WindowAllow Prefix st now key limit window).1 = st'
  ∧ dc_allowed (WindowAllow Prefix st now key limit window).2 = (n <=? limit).
Proof.
  intros Hl Hw Hi. unfold WindowAllow. rewrite Hi.
  destruct (Z.leb_spec limit 0), (Z.leb_spec window 0); try lia. simpl.
  destruct (Z.ltb_spec limit n), (Z.leb_spec n limit); simpl; done || lia.
Qed.

Lemma window_calls_live st key limit window ts t0 now n :
  0 < limit -> 0 < window -> 0 <= n -> n + Z.of_nat (length ts) < max_int64 ->
  (∀ now', now <= now' < t0 + window -> cc_view st now' (Prefix +:+ key) = Some (n, t0 + window)) ->
  Forall (fun t => t < t0 + window) ts -> StronglySorted Z.le (now :: ts) ->
  window_calls Prefix st key limit window ts
  = map (fun i => n + Z.of_nat i + 1 <=? limit) (seq 0 (length ts)).
Proof.
  intros Hl Hw. revert st now n. induction ts as [|t ts IH]; intros st now n Hn Hmax Hv Hts Hs; [done|].
  apply Forall_cons in Hts as [Ht Hts]. apply StronglySorted_inv in Hs as [Hs Hnow].
  apply Forall_cons in Hnow as [Hnt _]. cbn [length] in Hmax.
  destruct (cc_incr st t (Prefix +:+ key) window) as [st' n'] eqn:Ei.
  destruct (cc_incr_live st t (Prefix +:+ key) window n (t0 + window)) as [Hn' Hv'];
    [lia|apply Hv; lia|]. rewrite Ei in Hn', Hv'. simpl in Hn', Hv'.
  destruct (WindowAllow_count st t key limit window n' st' Hl Hw Ei) as [H1 H2].
  cbn [window_calls length seq map]. destruct (WindowAllow _ _ _ _ _) as [st2 d]. simpl in *. subst.
  rewrite H2, Z.add_0_r. f_equal.
  rewrite (IH st' t (n + 1)) by (done || lia).
  rewrite <- seq_shift, map_map. apply map_ext. intros i. f_equal. lia.
Qed.

(** The fixed window limiter admits exactly the budget: of the calls for one key made within a window
    of the first, the first [limit] are allowed and all others are refused, over any cache with the
    counter contract. *)
Theorem window_admits_limit st key limit window t0 ts
  (Hl : 0 < limit) (Hw : 0 < window) (Ht0 : 0 <= t0)
  (Hfresh : cc_view st t0 (Prefix +:+ key) = None)
  (Hts : Forall (fun t => t < t0 + window) ts) (Hs : StronglySorted Z.le (t0 :: ts))
  (Hlen : Z.of_nat (length ts) + 1 < max_int64) :
  window_calls Prefix st key limit window (t0 :: ts)
  = map (fun i => Z.of_nat i + 1 <=? limit) (seq 0 (S (length ts))).
Proof.
  destruct (cc_incr st t0 (Prefix +:+ key) window) as [st' n'] eqn:Ei.
  destruct (cc_incr_fresh st t0 (Prefix +:+ key) window Ht0 Hw Hfresh) as [Hn Hv].
  rewrite Ei in Hn, Hv. simpl in Hn, Hv. subst n'.
  destruct (WindowAllow_count st t0 key limit window 1 st' Hl Hw Ei) as [H1 H2].
  cbn [window_calls]. destruct (WindowAllow _ _ _ _ _) as [st2 d]. simpl in *. subst.
  rewrite H2. f_equal. rewrite (window_calls_live st' key limit window ts t0 t0 1) by (done || lia).
  rewrite <- seq_shift, map_map. apply map_ext. intros i. f_equal. lia.
Qed.
End WindowProofs.

(** ** The memory adapter *)

Section MemoryProofs.
Context (range : gmap string memEntry -> list (string * memEntry)).
Context (Hrange : ∀ es, range es ≡ₚ map_to_list es).
Context (any_bucket : gmap string bucket -> string).
Context (Hany : ∀ bs, bs ≠ ∅ -> is_Some (bs !! any_bucket bs)).

Lemma sooner_fold l best :
  best ≠ None ∨ l ≠ [] ->
  ∃ k b, fold_left sooner l best = Some (k, b) ∧ (best = Some (k, b) ∨ k ∈ l.*1).
Proof.
  revert best. induction l as [|kv l IH]; intros best Hb; simpl.
  { destruct best as [[k b]|]; [eauto|]. by destruct Hb. }
  destruct (IH (sooner best kv)) as (k & b & -> & Hk); [left; unfold sooner; destruct best as [[? ?]|]; [case_match|]; done|].
  exists k, b. split; [done|]. destruct Hk as [Hk|Hk]; [|right; by right].
  unfold sooner in Hk. destruct best as [[k' b']|]; [|injection Hk as <- _; right; by left].
  case_match; [injection Hk as <- _; right; by left|by left].
Qed.

Lemma evictSoonest_size m :
  mem_entries m ≠ ∅ -> size (mem_entries (evictSoonest range m)) = (size (mem_entries m) - 1)%nat
  ∧ mem_max (evictSoonest range m) = mem_max m.
Proof using Hrange.
  intros Hne. unfold evictSoonest.
  destruct (sooner_fold (range (mem_entries m)) None) as (k & b & -> & [?|Hk]); [|done|].
  - right. intros Hnil. pose proof (Hrange (mem_entries m)) as Hp. rewrite Hnil in Hp.
    apply Permutation_nil_l in Hp. apply Hne. by apply map_to_list_empty_iff.
  - split; [|done]. simpl. rewrite map_size_delete.
    rewrite Hrange in Hk. apply list_elem_of_fmap in Hk as ([k' e] & -> & Hin%elem_of_map_to_list).
    simpl. rewrite Hin. lia.
Qed.

Lemma filter_size {A} (P : string * A -> Prop) `{!∀ x, base.Decision (P x)} (es : gmap string A) :
  (size (filter P es) <= size es)%nat.
Proof. rewrite <- !size_dom. apply subseteq_size. apply dom_filter_subseteq. Qed.

Record mem_ok (m : Memory) : Prop := {
  ok_max : (1 <= mem_max m)%nat;
  ok_entries : (size (mem_entries m) <= mem_max m)%nat;
  ok_buckets : (size (mem_buckets m) <= mem_max m)%nat;
}.

Lemma live_spec m key now :
  mem_max (live m key now).1 = mem_max m ∧ mem_buckets (live m key now).1 = mem_buckets m
  ∧ (∀ k, k ≠ key -> mem_entries (live m key now).1 !! k = mem_entries m !! k)
  ∧ match (live m key now).2 with
    | Some e => (live m key now).1 = m ∧ mem_entries m !! key = Some e ∧ expired e now = false
    | None => mem_entries (live m key now).1 !! key = None
              ∧ ∀ e, mem_entries m !! key = Some e -> expired e now = true
    end
  ∧ (size (mem_entries (live m key now).1) <= size (mem_entries m))%nat.
Proof.
  unfold live. destruct (mem_entries m !! key) as [e|] eqn:E; [|by split_and!; simpl].
  destruct (expired e now) eqn:Ex; simpl; [|by split_and!].
  split_and!; try done.
  - intros k Hk. by rewrite lookup_delete_ne.
  - by rewrite lookup_delete_eq.
  - naive_solver.
  - rewrite map_size_delete, E. lia.
Qed.

Lemma put_ok m key e now : mem_ok m -> mem_ok (put range m key e now).
Proof using Hrange.
  intros [H1 H2 H3]. unfold put.
  destruct (bool_decide_reflect (mem_entries m !! key = None)) as [Hn|Hs]; simpl.
  2: { split; simpl; [done| |done]. rewrite map_size_insert. by destruct (mem_entries m !! key). }
  destruct (Nat.leb_spec (mem_max m) (size (mem_entries m))).
  - pose proof (filter_size (fun kv => expired kv.2 now = false) (mem_entries m)) as Hf.
    simpl. set (es := filter _ _) in *. destruct (Nat.leb_spec (mem_max m) (size es)) as [Hfull|Hroom].
    + destruct (evictSoonest_size (sweepEntries m now)) as [Hsz Hmax].
      { intros He. change (es = ∅) in He. rewrite He, map_size_empty in Hfull. lia. }
      assert (Hb : mem_buckets (evictSoonest range (sweepEntries m now)) = mem_buckets m).
      { unfold evictSoonest. by destruct (fold_left _ _ _) as [[? ?]|]. }
      split; simpl; rewrite ?Hmax, ?Hb; [done| |done]. rewrite map_size_insert. simpl in *. fold es in Hsz.
      case_match; unfold id; lia.
    + split; simpl in *; [done| |done]. rewrite map_size_insert. fold es. case_match; unfold id; lia.
  - split; simpl; [done| |done]. rewrite map_size_insert, Hn. lia.
Qed.

Lemma live_ok m key now : mem_ok m -> mem_ok (live m key now).1.
Proof.
  intros [H1 H2 H3]. destruct (live_spec m key now) as (Hm & Hb & _ & _ & Hs).
  split; rewrite ?Hm, ?Hb; try done. lia.
Qed.

Lemma update_ok m key e e0 :
  mem_ok m -> mem_entries m !! key = Some e0 -> mem_ok (set_entries m (<[key := e]> (mem_entries m))).
Proof. intros [H1 H2 H3] He. split; simpl; [done| |done]. by rewrite map_size_insert, He. Qed.

Lemma get_bucket_ok m now key limit (b : bucket) :
  mem_ok m ->
  mem_ok (set_buckets (get_bucket any_bucket m now key limit).1
            (<[key := b]> (mem_buckets (get_bucket any_bucket m now key limit).1))).
Proof using Hany.
  intros [H1 H2 H3]. unfold get_bucket. destruct (mem_buckets m !! key) as [b0|] eqn:E; simpl.
  { split; simpl; [done|done|]. by rewrite map_size_insert, E. }
  destruct (Nat.leb_spec (mem_max m) (size (mem_buckets m))).
  - pose proof (filter_size (fun kb => Sub now (bk_last kb.2) < bk_window kb.2) (mem_buckets m)) as Hf.
    simpl. set (bs := filter _ _) in *. destruct (Nat.leb_spec (mem_max m) (size bs)) as [Hfull|Hroom]; simpl.
    + assert (Hne : bs ≠ ∅) by (intros He; rewrite He, map_size_empty in Hfull; lia).
      destruct (Hany bs Hne) as [v Hv].
      split; simpl; [done|done|]. rewrite map_size_insert, map_size_delete, Hv. case_match; unfold id; lia.
    + split; simpl; [done|done|]. rewrite map_size_insert. fold bs. case_match; unfold id; lia.
  - split; simpl; [done|done|]. rewrite map_size_insert, E. lia.
Qed.

(** One call on the adapter. *)
Inductive kv_op :=
  | OGet (now : Z) (key : string)
  | OSet (now : Z) (key value : string) (ttl : Z)
  | OSetNX (now : Z) (key value : string) (ttl : Z)
  | ODelete (key : string)
  | OIncr (now : Z) (key : string) (ttl : Z)
  | OAllow (now : Z) (key : string) (limit window : Z).

Definition run_op (m : Memory) (op : kv_op) : Memory :=
  match op with
  | OGet now key => (Get m now key).1
  | OSet now key value ttl => Set_ range m now key value ttl
  | OSetNX now key value ttl => (SetNX range m now key value ttl).1
  | ODelete key => Delete m key
  | OIncr now key ttl => (Incr range m now key ttl).1
  | OAllow now key limit window => (Allow any_bucket m now key limit window).1
  end.

Lemma run_op_ok m op : mem_ok m -> mem_ok (run_op m op).
Proof using Hrange Hany.
  intros Hm. destruct op as [now key|now key v ttl|now key v ttl|key|now key ttl|now key limit window]; simpl.
  - pose proof (live_ok m key now Hm). unfold Get. by destruct (live m key now).
  - by apply put_ok.
  - pose proof (live_ok m key now Hm). unfold SetNX. destruct (live m key now) as [m1 [e|]]; simpl; [done|].
    by apply put_ok.
  - destruct Hm as [H1 H2 H3]. split; simpl; [done| |done]. rewrite map_size_delete. case_match; unfold id; lia.
  - pose proof (live_ok m key now Hm) as Hl. pose proof (live_spec m key now) as (_ & _ & _ & He & _).
    unfold Incr. destruct (live m key now) as [m1 [e|]]; simpl in *; [|by apply put_ok].
    destruct He as (-> & He & _). by eapply update_ok.
  - unfold Allow. case_match; [done|].
    pose proof (fun b => get_bucket_ok m now key limit b Hm) as Hb.
    destruct (get_bucket any_bucket m now key limit) as [m1 b]; simpl in *.
    case_match; simpl; apply Hb.
Qed.

Lemma evict_max m : mem_max (evictSoonest range m) = mem_max m.
Proof. unfold evictSoonest. by destruct (fold_left _ _ _) as [[? ?]|]. Qed.

Lemma put_max m key e now : mem_max (put range m key e now) = mem_max m.
Proof. unfold put. simpl. repeat case_match; simpl; by rewrite ?evict_max. Qed.

Lemma live_max m key now : mem_max (live m key now).1 = mem_max m.
Proof. by destruct (live_spec m key now). Qed.

Lemma run_op_max m op : mem_max (run_op m op) = mem_max m.
Proof.
  destruct op as [now key|now key v ttl|now key v ttl|key|now key ttl|now key limit window]; cbn [run_op].
  - pose proof (live_max m key now). unfold Get. by destruct (live m key now).
  - apply put_max.
  - pose proof (live_max m key now). unfold SetNX. destruct (live m key now) as [m1 [e|]]; cbn [fst snd] in *; [done|].
    by rewrite put_max.
  - done.
  - pose proof (live_max m key now). unfold Incr. destruct (live m key now) as [m1 [e|]]; cbn [fst snd] in *; [done|].
    by rewrite put_max.
  - unfold Allow, get_bucket. repeat case_match; simplify_eq/=; done.
Qed.

(** The adapter stays bounded: whatever calls are made, in whatever order a map is ranged over, it
    never holds more than the configured number of entries, nor of rate buckets. *)
Theorem memory_bounded n ops :
  let m := fold_left run_op ops (NewMemory n) in
  (size (mem_entries m) <= mem_max (NewMemory n))%nat
  ∧ (size (mem_buckets m) <= mem_max (NewMemory n))%nat.
Proof using Hrange Hany.
  assert (H0 : mem_ok (NewMemory n)).
  { split; unfold NewMemory; cbn [mem_max mem_entries mem_buckets]; rewrite ?map_size_empty; try lia.
    destruct (Nat.ltb_spec 0 n); [lia|]. unfold DefaultMemoryMaxEntries. lia. }
  generalize dependent (NewMemory n). induction ops as [|op ops IH]; intros m [H1 H2 H3]; [done|].
  cbn [fold_left]. rewrite <- (run_op_max m op). by apply IH, run_op_ok.
Qed.

(** ** Replay detection *)

Lemma put_room m key e now :
  (size (mem_entries m) < mem_max m)%nat ->
  put range m key e now = set_entries m (<[key := e]> (mem_entries m)).
Proof.
  intros Hs. unfold put. destruct (Nat.leb_spec (mem_max m) (size (mem_entries m))); [lia|].
  by rewrite andb_false_r.
Qed.

Lemma Seen_keeps m now key ttl k e :
  (size (mem_entries m) < mem_max m)%nat -> mem_entries m !! k = Some e -> expired e now = false ->
  mem_entries (Seen range m now key ttl).1 !! k = Some e.
Proof.
  intros Hs Hk He. destruct (live_spec m key now) as (Hm & _ & Ho & Hl & Hsz).
  unfold Seen, SetNX. destruct (live m key now) as [m1 [e1|]]; cbn [fst snd negb] in *; [by destruct Hl as [-> _]|].
  rewrite put_room by lia. simpl.
  destruct (decide (k = key)) as [->|Hne]; [destruct Hl as [_ Hl]; rewrite (Hl e Hk) in He; done|].
  rewrite lookup_insert_ne by done. by rewrite Ho.
Qed.

Lemma Seen_size m now key ttl :
  (size (mem_entries m) < mem_max m)%nat ->
  (size (mem_entries (Seen range m now key ttl).1) <= S (size (mem_entries m)))%nat
  ∧ mem_max (Seen range m now key ttl).1 = mem_max m.
Proof.
  intros Hs. destruct (live_spec m key now) as (Hm & _ & _ & Hl & Hsz).
  unfold Seen, SetNX. destruct (live m key now) as [m1 [e1|]]; cbn [fst snd negb] in *; [lia|].
  rewrite put_room by lia. simpl. split; [|done]. rewrite map_size_insert. case_match; unfold id; lia.
Qed.

(** The store after recording identifiers, each at a time. *)
Definition seen_run (ttl : Z) (m : Memory) (l : list (Z * string)) : Memory :=
  fold_left (fun m x => (Seen range m x.1 x.2 ttl).1) l m.

Lemma seen_run_size ttl l m :
  (size (mem_entries m) + length l <= mem_max m)%nat ->
  (size (mem_entries (seen_run ttl m l)) <= size (mem_entries m) + length l)%nat
  ∧ mem_max (seen_run ttl m l) = mem_max m.
Proof.
  revert m. induction l as [|[t k] l IH]; intros m Hs; simpl in *; [lia|].
  destruct (Seen_size m t k ttl) as [H1 H2]; [lia|].
  destruct (IH (Seen range m t k ttl).1) as [H3 H4]; [lia|]. unfold seen_run in *. lia.
Qed.

Lemma seen_run_keeps ttl l m k e :
  (size (mem_entries m) + length l <= mem_max m)%nat -> mem_entries m !! k = Some e ->
  Forall (fun x => expired e x.1 = false) l -> mem_entries (seen_run ttl m l) !! k = Some e.
Proof.
  revert m. induction l as [|[t k'] l IH]; intros m Hs Hk Hl; simpl in *; [done|].
  apply Forall_cons in Hl as [Ht Hl]. destruct (Seen_size m t k' ttl) as [H1 H2]; [lia|].
  apply IH; [lia| |done]. apply Seen_keeps; [lia|done..].
Qed.

(** A one-time identifier is accepted once: after [Seen] accepts a key, every presentation of it within
    its lifetime is reported as a replay, whatever else was presented before and in between, as long
    as the adapter's capacity was not exceeded. *)
Theorem seen_rejects_replay n ttl l1 l2 t t' k m2
  (Ht : 0 <= t) (Httl : 0 < ttl)
  (Hcap : (length l1 + 1 + length l2 <= mem_max (NewMemory n))%nat)
  (Hfirst : Seen range (seen_run ttl (NewMemory n) l1) t k ttl = (m2, false))
  (Hl2 : Forall (fun x => x.1 < t + ttl) l2) (Ht' : t' < t + ttl) :
  (Seen range (seen_run ttl m2 l2) t' k ttl).2 = true.
Proof.
  destruct (seen_run_size ttl l1 (NewMemory n)) as [Hs1 Hm1]; [cbn [NewMemory mem_entries]; rewrite map_size_empty; lia|].
  cbn [NewMemory mem_entries] in Hs1. rewrite map_size_empty in Hs1. set (m1 := seen_run ttl (NewMemory n) l1) in *.
  set (e := mkMemEntry seen_value 0 (expiry t ttl)).
  assert (Hexp : ∀ x, x < t + ttl -> expired e x = false).
  { intros x Hx. unfold expired, e, expiry; simpl. go_time. destruct (Z.leb_spec ttl 0); [lia|].
    destruct (Z.ltb_spec x (t + ttl)); [|lia]. apply andb_false_r. }
  assert (Hk2 : mem_entries m2 !! k = Some e ∧ (size (mem_entries m2) <= length l1 + 1)%nat
                ∧ mem_max m2 = mem_max (NewMemory n)).
  { pose proof (Seen_size m1 t k ttl) as Hsz. rewrite Hfirst in Hsz. simpl in Hsz.
    split; [|lia]. destruct (live_spec m1 k t) as (Hm & _ & _ & _ & Hsz').
    unfold Seen, SetNX in Hfirst. destruct (live m1 k t) as [m' [e'|]]; cbn [fst snd negb] in *; [by simplify_eq|].
    rewrite put_room in Hfirst by lia. injection Hfirst as <-. simpl. apply lookup_insert_eq. }
  destruct Hk2 as (Hk2 & Hsz2 & Hmax2).
  assert (Hk3 : mem_entries (seen_run ttl m2 l2) !! k = Some e).
  { apply seen_run_keeps; [lia|done|]. eapply Forall_impl; [exact Hl2|]. intros x Hx. by apply Hexp. }
  unfold Seen, SetNX, live. rewrite Hk3, (Hexp t') by done. done.
Qed.
End MemoryProofs.

(** The memory adapter meets the counter contract. *)
Definition counter_view (m : Memory) (now : Z) (key : string) : option (Z * Z) :=
  match mem_entries m !! key with
  | Some e => if expired e now then None else Some (me_n e, me_expires e)
  | None => None
  end.

Definition Memory_cache (range : gmap string memEntry -> list (string * memEntry)) : CounterCache Memory.
Proof.
  refine {| cc_incr := Incr range; cc_view := counter_view |}.
  - intros m now key ttl Hnow Httl Hv. unfold Incr. destruct (live_spec m key now) as (_ & _ & _ & Hl & _).
    unfold counter_view in Hv. destruct (live m key now) as [m1 [e|]]; simpl in *.
    { destruct Hl as (_ & He & Hx). by rewrite He, Hx in Hv. }
    split; [done|]. intros now' Hn. unfold counter_view, put. simpl. rewrite lookup_insert_eq.
    unfold expired, expiry; simpl. go_time. destruct (Z.leb_spec ttl 0); [lia|].
    destruct (Z.ltb_spec now' (now + ttl)); [|lia]. by rewrite andb_false_r.
  - intros m now key ttl n ex Hn Hv. unfold Incr. destruct (live_spec m key now) as (_ & _ & _ & Hl & _).
    unfold counter_view in Hv. destruct (live m key now) as [m1 [e|]]; simpl in *.
    2: { destruct Hl as [_ Hl]. destruct (mem_entries m !! key) as [e|]; [by rewrite Hl in Hv|done]. }
    destruct Hl as (-> & He & Hx). rewrite He, Hx in Hv. injection Hv as <- <-.
    rewrite wrap64_small by (unfold in_int64, min_int64, max_int64 in *; lia).
    split; [done|]. intros now' Hn'. unfold counter_view. simpl. rewrite lookup_insert_eq.
    unfold expired in *; simpl in *. go_time. destruct (Z.ltb_spec now' (me_expires e)); [|lia].
    by rewrite andb_false_r.
Defined.

(** ** Witnesses *)

Lemma window_admits_limit_witness :
  window_calls (H := Memory_cache map_to_list) "rl:" (NewMemory 5) "ip" 2 100 [10; 11; 50]
  = [true; true; false].
Proof.
  apply (window_admits_limit (H := Memory_cache map_to_list) "rl:" (NewMemory 5) "ip" 2 100 10 [11; 50]);
    try (vm_compute; done); repeat constructor; lia.
Defined.

Definition first_bucket (bs : gmap string bucket) : string := default "" (fst <$> head (map_to_list bs)).

Lemma first_bucket_spec bs : bs ≠ ∅ -> is_Some (bs !! first_bucket bs).
Proof.
  intros Hne. unfold first_bucket. destruct (map_to_list bs) as [|[k b] l] eqn:E.
  - apply map_to_list_empty_iff in E. done.
  - simpl. exists b. apply elem_of_map_to_list. rewrite E. by left.
Qed.

Lemma memory_bounded_witness :
  (size (mem_entries (fold_left (run_op map_to_list first_bucket)
     [OSet 1 "a" "x" 5; OIncr 2 "b" 0; OSetNX 3 "c" "y" 9; OAllow 3 "d" 2 5] (NewMemory 2))) <= 2)%nat.
Proof.
  apply (memory_bounded map_to_list (fun es => reflexivity _) first_bucket first_bucket_spec 2
           [OSet 1 "a" "x" 5; OIncr 2 "b" 0; OSetNX 3 "c" "y" 9; OAllow 3 "d" 2 5]).
Defined.

Lemma seen_rejects_replay_witness :
  (Seen map_to_list (seen_run map_to_list 100 (Seen map_to_list (NewMemory 4) 5 "jti" 100).1
     [(6, "x"); (7, "jti")]) 104 "jti" 100).2 = true.
Proof.
  apply (seen_rejects_replay map_to_list 4 100 [] [(6, "x"); (7, "jti")] 5 104 "jti");
    try lia; try (vm_compute; reflexivity).
  - vm_compute. lia.
  - repeat constructor; simpl; lia.
Defined.
