(* ===== verification/Dpop.v ===== *)
(** * DPoP proofs ([internal/dpop] and [internal/as/dpop.go])

    RFC 9449: a client proves with every request that it holds a key. The verifier parses the proof,
    checks its signature with the key in its header, compares it with the request, checks its age and its
    nonce, and remembers its identifier so that it works once. Decoders, hashes, signature schemes and the
    URL parser are the class [DpopLib]; a shared replay cache is the class [ReplayCache]. A run time panic
    is the error [DPanic]. Times of day and the clock readings are arguments. *)

From Stdlib Require Import ZArith Lia String Ascii.
From stdpp Require Import base gmap strings list.
From S2P Require Import Prelude Canonical GoJSON KV.

Set Default Goal Selector "!".
Open Scope string_scope.
Open Scope list_scope.
Open Scope Z_scope.

(** ** Data ([proof.go], [binding.go]) *)

Definition ProofTyp : string := "dpop+jwt".
Definition AlgES256 : string := "ES256".
Definition AlgES384 : string := "ES384".
Definition AlgRS256 : string := "RS256".
Definition AlgPS256 : string := "PS256".
Definition AlgEdDSA : string := "EdDSA".
Definition DefaultAllowedAlgs : list string := [AlgES256; AlgES384; AlgRS256; AlgPS256; AlgEdDSA].

Record JWK := mkJWK {
  jwk_kty : string; jwk_crv : string; jwk_x : string; jwk_y : string; jwk_n : string; jwk_e : string;
  jwk_alg : string; jwk_kid : string; jwk_use : string;
}.

Record ProofHeader := mkHeader { ph_typ : string; ph_alg : string; ph_jwk : option JWK }.

Record ProofClaims := mkClaims {
  pc_jti : string; pc_htm : string; pc_htu : string; pc_iat : Z; pc_ath : string; pc_nonce : string;
}.

Record Proof_ := mkProof { pr_header : ProofHeader; pr_claims : ProofClaims; pr_thumbprint : string }.

Record VerifyParams := mkParams {
  vp_method : string; vp_url : string; vp_access_token : string; vp_now : Z; vp_require_nonce : bool;
}.

(** The sentinels; the text that [joinErr] and [%w] add is dropped. [DPanic] is a run time panic. *)
Inductive dpop_error :=
  | ErrMalformedProof | ErrUnsupportedAlg | ErrSignatureInvalid | ErrProofExpired | ErrMethodMismatch
  | ErrURIMismatch | ErrATHMismatch | ErrATHRequired | ErrNonceRequired | ErrNonceInvalid | ErrReplay
  | ErrReplayStore | ErrJKTMismatch | ErrRequestURL | ErrNonceSecretRequired | ErrNonceSecret | DPanic.

Inductive Curve := P256 | P384.
Definition BitSize (c : Curve) : Z := match c with P256 => 256 | P384 => 384 end.

(** A parsed URL. *)
Record URL := mkURL { u_scheme : string; u_host : string; u_path : string }.

Definition ascii_string (s : string) : Prop := Forall (fun c => byte_val c < 128) (list_ascii_of_string s).

(** The lower case of an ASCII letter. *)
Definition fold_byte (c : ascii) : ascii :=
  if (65 <=? byte_val c) && (byte_val c <=? 90) then byte_of (byte_val c + 32) else c.
Definition fold_ascii (s : string) : string := string_of_list_ascii (map fold_byte (list_ascii_of_string s)).

(** What the verifier calls of Go's libraries: [base64.RawURLEncoding], the JSON decoders of the two parts
    of a proof, [url.Parse], case folding, [strconv.Quote] (the verb [%q]), the hashes and HMAC-SHA256, the
    signature schemes on a digest (Ed25519 on the message), and whether a byte string encodes a point of a curve. *)
Class DpopLib := {
  b64_encode : string -> string;
  b64_decode : string -> option string;
  decode_header : string -> option ProofHeader;
  decode_claims : string -> option ProofClaims;
  url_parse : string -> option URL;
  EqualFold : string -> string -> bool;
  ToLower : string -> string;
  TrimSpace : string -> string;
  Quote : string -> string;
  sha256 : string -> string;
  sha384 : string -> string;
  hmac_sha256 : string -> string -> string;
  on_curve : Curve -> list ascii -> bool;
  ecdsa_verify : Curve -> Z -> Z -> string -> Z -> Z -> bool;
  rsa_pkcs1v15 : Z -> Z -> string -> string -> bool;
  rsa_pss : Z -> Z -> string -> string -> bool;
  ed25519_verify : string -> string -> string -> bool;
  b64_decode_encode s : b64_decode (b64_encode s) = Some s;
  b64_decode_empty : b64_decode "" = Some "";
  hmac_sha256_length k m : String.length (hmac_sha256 k m) = 32%nat;
  EqualFold_ascii s t : ascii_string s -> ascii_string t -> EqualFold s t = (fold_ascii s =? fold_ascii t)%string;
  Quote_prefix a b s t : Quote a +:+ s = Quote b +:+ t -> a = b ∧ s = t;
}.

(** [kv.ReplayCache]: [Seen] at a time, of a key, for a time to live; [None] is a backend error. *)
Class ReplayCache (R : Type) := { rc_seen : R -> Z -> string -> Z -> R * option bool }.

(** The in-memory cache never fails. *)
#[export] Instance memory_replay : ReplayCache Memory :=
  {| rc_seen m now key ttl := let '(m, seen) := Seen map_to_list m now key ttl in (m, Some seen) |}.

(** ** Proofs ([proof.go]) *)

(** [strings.Split(token, ".")] *)
Fixpoint split_dots (cur s : string) : list string :=
  match s with
  | "" => [cur]
  | String c s' => if Ascii.eqb c "." then cur :: split_dots "" s' else split_dots (cur +:+ String c "") s'
  end.

(** [new(big.Int).SetBytes] *)
Definition SetBytes (s : string) : Z := fold_left (fun n c => 256 * n + byte_val c) (list_ascii_of_string s) 0.

Definition len (s : string) : Z := Z.of_nat (String.length s).

(** [copy(buf[off:], src)]; [None] is the panic of a slice bound out of range. *)
Definition copy_at (buf : list ascii) (off : Z) (src : list ascii) : option (list ascii) :=
  if (off <? 0) || (Z.of_nat (length buf) <? off) then None
  else
    let o := Z.to_nat off in
    let n := Nat.min (length buf - o) (length src) in
    Some (take o buf ++ take n src ++ drop (o + n) buf).

Section Proofs.
Context `{DpopLib}.

Definition ParseProof (token : string) : result dpop_error (ProofHeader * ProofClaims * string * string) :=
  match split_dots "" token with
  | [p0; p1; p2] =>
      match b64_decode p0 with
      | None => Err ErrMalformedProof
      | Some headerBytes =>
          match b64_decode p1 with
          | None => Err ErrMalformedProof
          | Some payloadBytes =>
              match b64_decode p2 with
              | None => Err ErrMalformedProof
              | Some sig =>
                  match decode_header headerBytes with
                  | None => Err ErrMalformedProof
                  | Some hdr =>
                      match decode_claims payloadBytes with
                      | None => Err ErrMalformedProof
                      | Some claims => Ok (hdr, claims, sig, p0 +:+ "." +:+ p1)
                      end
                  end
              end
          end
      end
  | _ => Err ErrMalformedProof
  end.

(** The uncompressed point: 4, then both coordinates right aligned. *)
Definition uncompressed (byteSize : Z) (xBytes yBytes : string) : option (list ascii) :=
  let buf := byte_of 4 :: replicate (Z.to_nat (2 * byteSize)) (byte_of 0) in
  match copy_at buf (1 + byteSize - len xBytes) (list_ascii_of_string xBytes) with
  | None => None
  | Some buf => copy_at buf (1 + 2 * byteSize - len yBytes) (list_ascii_of_string yBytes)
  end.

Definition verifyECDSA (jwk : JWK) (signingInput sig : string) (curve : Curve) (h : string -> string) : result dpop_error unit :=
  if negb (jwk_kty jwk =? "EC")%string then Err ErrMalformedProof
  else if (jwk_x jwk =? "")%string || (jwk_y jwk =? "")%string then Err ErrMalformedProof
  else match b64_decode (jwk_x jwk) with
  | None => Err ErrMalformedProof
  | Some xBytes =>
      match b64_decode (jwk_y jwk) with
      | None => Err ErrMalformedProof
      | Some yBytes =>
          let byteSize := (BitSize curve + 7) / 8 in
          match uncompressed byteSize xBytes yBytes with
          | None => Err DPanic
          | Some point =>
              if negb (on_curve curve point) then Err ErrMalformedProof
              else if negb (len sig =? 2 * byteSize) then Err ErrSignatureInvalid
              else
                let r := SetBytes (String.substring 0 (Z.to_nat byteSize) sig) in
                let sVal := SetBytes (String.substring (Z.to_nat byteSize) (Z.to_nat byteSize) sig) in
                if negb (ecdsa_verify curve (SetBytes xBytes) (SetBytes yBytes) (h signingInput) r sVal)
                then Err ErrSignatureInvalid else Ok tt
          end
      end
  end.

(** [Int64] of a big integer keeps its low 64 bits. *)
Definition verifyRSA (jwk : JWK) (signingInput sig : string) (pss : bool) : result dpop_error unit :=
  if negb (jwk_kty jwk =? "RSA")%string then Err ErrMalformedProof
  else if (jwk_n jwk =? "")%string || (jwk_e jwk =? "")%string then Err ErrMalformedProof
  else match b64_decode (jwk_n jwk) with
  | None => Err ErrMalformedProof
  | Some nBytes =>
      match b64_decode (jwk_e jwk) with
      | None => Err ErrMalformedProof
      | Some eBytes =>
          if (len nBytes =? 0) || (len eBytes =? 0) then Err ErrMalformedProof
          else if len nBytes * 8 <? 2048 then Err ErrMalformedProof
          else
            let e := wrap64 (SetBytes eBytes) in
            if (e <=? 0) || (2 ^ 31 - 1 <? e) then Err ErrMalformedProof
            else if (if pss then rsa_pss else rsa_pkcs1v15) (SetBytes nBytes) e (sha256 signingInput) sig
            then Ok tt else Err ErrSignatureInvalid
      end
  end.

Definition verifyEdDSA (jwk : JWK) (signingInput sig : string) : result dpop_error unit :=
  if negb (jwk_kty jwk =? "OKP")%string then Err ErrMalformedProof
  else if negb (jwk_crv jwk =? "Ed25519")%string then Err ErrMalformedProof
  else match b64_decode (jwk_x jwk) with
  | None => Err ErrMalformedProof
  | Some xBytes =>
      if negb (len xBytes =? 32) then Err ErrMalformedProof
      else if negb (ed25519_verify xBytes signingInput sig) then Err ErrSignatureInvalid
      else Ok tt
  end.

Definition verifySignature (alg : string) (jwk : option JWK) (signingInput sig : string) : result dpop_error unit :=
  match jwk with
  | None => Err ErrMalformedProof
  | Some jwk =>
      if (alg =? AlgES256)%string then verifyECDSA jwk signingInput sig P256 sha256
      else if (alg =? AlgES384)%string then verifyECDSA jwk signingInput sig P384 sha384
      else if (alg =? AlgRS256)%string then verifyRSA jwk signingInput sig false
      else if (alg =? AlgPS256)%string then verifyRSA jwk signingInput sig true
      else if (alg =? AlgEdDSA)%string then verifyEdDSA jwk signingInput sig
      else Err ErrUnsupportedAlg
  end.

(** A double quote, and the quoted name of a member with its colon. *)
Definition dquote : string := String (ascii_of_nat 34) "".
Definition member (name : string) : string := dquote +:+ name +:+ dquote +:+ ":".

(** The canonical JSON of the key, its members in the order of their names. *)
Definition canonical_jwk (jwk : JWK) : option string :=
  if (jwk_kty jwk =? "EC")%string then
    if (jwk_crv jwk =? "")%string || (jwk_x jwk =? "")%string || (jwk_y jwk =? "")%string then None
    else Some ("{" +:+ member "crv" +:+ Quote (jwk_crv jwk) +:+ "," +:+ member "kty" +:+ dquote +:+ "EC" +:+ dquote
               +:+ "," +:+ member "x" +:+ Quote (jwk_x jwk) +:+ "," +:+ member "y" +:+ Quote (jwk_y jwk) +:+ "}")
  else if (jwk_kty jwk =? "RSA")%string then
    if (jwk_n jwk =? "")%string || (jwk_e jwk =? "")%string then None
    else Some ("{" +:+ member "e" +:+ Quote (jwk_e jwk) +:+ "," +:+ member "kty" +:+ dquote +:+ "RSA" +:+ dquote
               +:+ "," +:+ member "n" +:+ Quote (jwk_n jwk) +:+ "}")
  else if (jwk_kty jwk =? "OKP")%string then
    if (jwk_crv jwk =? "")%string || (jwk_x jwk =? "")%string then None
    else Some ("{" +:+ member "crv" +:+ Quote (jwk_crv jwk) +:+ "," +:+ member "kty" +:+ dquote +:+ "OKP" +:+ dquote
               +:+ "," +:+ member "x" +:+ Quote (jwk_x jwk) +:+ "}")
  else None.

Definition Thumbprint (jwk : option JWK) : result dpop_error string :=
  match jwk ≫= canonical_jwk with
  | None => Err ErrMalformedProof
  | Some canonical => Ok (b64_encode (sha256 canonical))
  end.

Definition HasSuffix (s suffix : string) : bool :=
  (String.length suffix <=? String.length s)%nat
  && (String.substring (String.length s - String.length suffix) (String.length suffix) s =? suffix)%string.
Definition TrimSuffix (s suffix : string) : string :=
  if HasSuffix s suffix then String.substring 0 (String.length s - String.length suffix) s else s.

Definition canonicalURI (rawURL : string) : option string :=
  match url_parse rawURL with
  | None => None
  | Some u =>
      if (u_scheme u =? "")%string || (u_host u =? "")%string then None
      else
        let host := if EqualFold (u_scheme u) "http" && HasSuffix (u_host u) ":80" then TrimSuffix (u_host u) ":80"
                    else if EqualFold (u_scheme u) "https" && HasSuffix (u_host u) ":443"
                    then TrimSuffix (u_host u) ":443" else u_host u in
        let path := if (u_path u =? "")%string then "/" else u_path u in
        Some (ToLower (u_scheme u) +:+ "://" +:+ host +:+ path)
  end.

Definition AccessTokenHash (accessToken : string) : string := b64_encode (sha256 accessToken).

(** ** Nonces ([nonce.go]) *)

Definition nonceVersion : Z := 1.
Definition nonceLen : Z := 1 + 8 + 32.

(** [binary.BigEndian.PutUint64] and [Uint64], on [n] bytes. *)
Fixpoint put_be (n : nat) (z : Z) : list ascii :=
  match n with O => [] | S n' => put_be n' (z / 256) ++ [byte_of (z mod 256)] end.
Definition PutUint64 (z : Z) : string := string_of_list_ascii (put_be 8 z).

Definition issueNonce (secret : string) (now clock : Z) : string :=
  let now := if IsZero now then clock else now in
  let head := String (byte_of nonceVersion) (PutUint64 (Unix now mod 2 ^ 64)) in
  b64_encode (head +:+ hmac_sha256 secret head).

(** [time.Unix(sec, 0)] of any [int64]. *)
Definition time_unix (sec : Z) : Z := wrap64 (sec + 62135596800) * Second.

Definition verifyNonce (secret nonce : string) (ttl now clock : Z) : result dpop_error unit :=
  if (nonce =? "")%string then Err ErrNonceInvalid
  else match b64_decode nonce with
  | None => Err ErrNonceInvalid
  | Some raw =>
      if negb (len raw =? nonceLen)
         || negb (bool_decide (String.get 0 raw = Some (byte_of nonceVersion))) then Err ErrNonceInvalid
      else if negb (hmac_sha256 secret (String.substring 0 9 raw) =? String.substring 9 32 raw)%string
      then Err ErrNonceInvalid
      else
        let now := if IsZero now then clock else now in
        let iat := time_unix (wrap64 (SetBytes (String.substring 1 8 raw))) in
        if ttl <? Sub now iat then Err ErrNonceInvalid
        else if ttl <? Sub iat now then Err ErrNonceInvalid
        else Ok tt
  end.
End Proofs.

(** ** The service ([service.go]) *)

Record jtiEntry := mkJti { je_jti : string; je_expires : Z }.
#[export] Instance jtiEntry_eq_dec : EqDecision jtiEntry.
Proof. solve_decision. Defined.

(** An element of the list: its identity and its value. *)
Abbreviation element := (nat * jtiEntry)%type.

(** [jtiList] has the oldest element first; [jtiSeen] finds the element of an identifier; [next_el] is the
    identity of the next element. *)
Record Service (R : Type) := mkService {
  sv_allowed : gset string; sv_max_age : Z; sv_skew : Z; sv_nonce_ttl : Z; sv_require_nonce : bool;
  sv_require_clients : gset string; sv_secret : string; sv_replay : option R; sv_cap : Z;
  sv_list : list element; sv_seen : gmap string element; sv_next : nat;
}.
Arguments mkService {R}.
Arguments sv_allowed {R}.
Arguments sv_max_age {R}.
Arguments sv_skew {R}.
Arguments sv_nonce_ttl {R}.
Arguments sv_require_nonce {R}.
Arguments sv_require_clients {R}.
Arguments sv_secret {R}.
Arguments sv_replay {R}.
Arguments sv_cap {R}.
Arguments sv_list {R}.
Arguments sv_seen {R}.
Arguments sv_next {R}.

Record Config (R : Type) := mkConfig {
  cf_algs : list string; cf_max_age : Z; cf_skew : Z; cf_nonce_ttl : Z; cf_require_nonce : bool;
  cf_require_clients : list string; cf_secret : string; cf_replay : option R; cf_window : Z;
}.
Arguments mkConfig {R}.
Arguments cf_algs {R}.
Arguments cf_max_age {R}.
Arguments cf_skew {R}.
Arguments cf_nonce_ttl {R}.
Arguments cf_require_nonce {R}.
Arguments cf_require_clients {R}.
Arguments cf_secret {R}.
Arguments cf_replay {R}.
Arguments cf_window {R}.

(** The expiry sweep: from the oldest element to the first that is still alive. *)
Fixpoint sweep (now : Z) (l : list element) (seen : gmap string element) : list element * gmap string element :=
  match l with
  | [] => ([], seen)
  | (id, e) :: l' => if Before now (je_expires e) then (l, seen) else sweep now l' (delete (je_jti e) seen)
  end.

(** The eviction of the oldest elements while the list has [cap] or more. *)
Fixpoint trim (cap : Z) (l : list element) (seen : gmap string element) : list element * gmap string element :=
  match l with
  | [] => ([], seen)
  | (id, e) :: l' => if cap <=? Z.of_nat (length l) then trim cap l' (delete (je_jti e) seen) else (l, seen)
  end.

Section Verify.
Context `{DpopLib} {R : Type} `{ReplayCache R}.

(** [fresh_secret] is what [newNonceSecret] returns. *)
Definition New (cfg : Config R) (fresh_secret : option string) : result dpop_error (Service R) :=
  let allowed := match cf_algs cfg with [] => DefaultAllowedAlgs | l => l end in
  let secret := if (cf_secret cfg =? "")%string then fresh_secret else Some (cf_secret cfg) in
  match secret with
  | None => Err ErrNonceSecret
  | Some secret =>
      Ok (mkService (list_to_set (map TrimSpace allowed))
            (if cf_max_age cfg <=? 0 then 60 * Second else cf_max_age cfg) (cf_skew cfg)
            (if cf_nonce_ttl cfg <=? 0 then 10 * Minute else cf_nonce_ttl cfg) (cf_require_nonce cfg)
            (list_to_set (cf_require_clients cfg)) secret (cf_replay cfg)
            (if cf_window cfg <=? 0 then 4096 else cf_window cfg) [] ∅ 0)
  end.

Definition ClientRequiresDPoP (s : Service R) (clientID : string) : bool := bool_decide (clientID ∈ sv_require_clients s).

Definition IssueNonce (s : Service R) (now clock : Z) : string := issueNonce (sv_secret s) now clock.

Definition with_jtis (s : Service R) (l : list element) (seen : gmap string element) (next : nat) : Service R :=
  mkService (sv_allowed s) (sv_max_age s) (sv_skew s) (sv_nonce_ttl s) (sv_require_nonce s) (sv_require_clients s)
    (sv_secret s) (sv_replay s) (sv_cap s) l seen next.
Definition with_replay (s : Service R) (r : R) : Service R :=
  mkService (sv_allowed s) (sv_max_age s) (sv_skew s) (sv_nonce_ttl s) (sv_require_nonce s) (sv_require_clients s)
    (sv_secret s) (Some r) (sv_cap s) (sv_list s) (sv_seen s) (sv_next s).

(** [s.jtiList.Remove(el)] *)
Definition remove_el (id : nat) (l : list element) : list element := filter (fun x => x.1 ≠ id) l.

Definition rememberJTI (s : Service R) (now : Z) (jti : string) (expires : Z) : Service R * bool :=
  match sv_seen s !! jti with
  | Some (id, e) =>
      if Before now (je_expires e) then (s, false)
      else
        let '(l, seen) := sweep now (remove_el id (sv_list s)) (delete jti (sv_seen s)) in
        let '(l, seen) := trim (sv_cap s) l seen in
        let el := (sv_next s, mkJti jti expires) in
        (with_jtis s (l ++ [el]) (<[jti := el]> seen) (S (sv_next s)), true)
  | None =>
      let '(l, seen) := sweep now (sv_list s) (sv_seen s) in
      let '(l, seen) := trim (sv_cap s) l seen in
      let el := (sv_next s, mkJti jti expires) in
      (with_jtis s (l ++ [el]) (<[jti := el]> seen) (S (sv_next s)), true)
  end.

(** [clock] is the reading of [time.Now] in [rememberJTI] or [time.Until]. *)
Definition checkJTI (s : Service R) (clock : Z) (jti : string) (expires : Z) : Service R * result dpop_error bool :=
  match sv_replay s with
  | None => let '(s, fresh) := rememberJTI s clock jti expires in (s, Ok fresh)
  | Some r =>
      let ttl := Sub expires clock in
      let ttl := if ttl <? Second then Second else ttl in
      match rc_seen r clock ("dpop:jti:" +:+ jti) ttl with
      | (r, None) => (with_replay s r, Err ErrReplayStore)
      | (r, Some seen) => (with_replay s r, Ok (negb seen))
      end
  end.

(** [-d] wraps for the least duration. *)
Definition abs (d : Z) : Z := if d <? 0 then wrap64 (- d) else d.

(** Checks 1 to 7 and the presence of an identifier, which leave the service as it is. The result is the
    parsed proof with its issue time. *)
Definition static_checks (s : Service R) (proofJWT : string) (p : VerifyParams) (clock : Z)
  : result dpop_error (ProofHeader * ProofClaims * Z) :=
  let? (hdr, claims, sig, signingInput) := ParseProof proofJWT in
  if negb (ph_typ hdr =? ProofTyp)%string then Err ErrMalformedProof
  else if negb (bool_decide (ph_alg hdr ∈ sv_allowed s)) then Err ErrUnsupportedAlg
  else
  let? _ := verifySignature (ph_alg hdr) (ph_jwk hdr) signingInput sig in
  if negb (EqualFold (pc_htm claims) (vp_method p)) then Err ErrMethodMismatch
  else match canonicalURI (vp_url p) with
  | None => Err ErrRequestURL
  | Some wantURI =>
      match canonicalURI (pc_htu claims) with
      | None => Err ErrURIMismatch
      | Some gotURI =>
          if negb (gotURI =? wantURI)%string then Err ErrURIMismatch
          else
            let now := if IsZero (vp_now p) then clock else vp_now p in
            if pc_iat claims =? 0 then Err ErrProofExpired
            else
              let iat := time_unix (pc_iat claims) in
              if wrap64 (sv_max_age s + sv_skew s) <? abs (Sub now iat) then Err ErrProofExpired
              else if vp_require_nonce p && (pc_nonce claims =? "")%string then Err ErrNonceRequired
              else
                let? _ := if (pc_nonce claims =? "")%string then Ok tt
                          else if (sv_secret s =? "")%string then Err ErrNonceSecretRequired
                          else verifyNonce (sv_secret s) (pc_nonce claims) (sv_nonce_ttl s) now clock in
                if (pc_jti claims =? "")%string then Err ErrMalformedProof else Ok (hdr, claims, iat)
      end
  end.

(** Check 9 and the thumbprint. *)
Definition bind_checks (p : VerifyParams) (hdr : ProofHeader) (claims : ProofClaims) : result dpop_error Proof_ :=
  let? _ := if (vp_access_token p =? "")%string then Ok tt
            else if (pc_ath claims =? "")%string then Err ErrATHRequired
            else if negb (pc_ath claims =? AccessTokenHash (vp_access_token p))%string then Err ErrATHMismatch
            else Ok tt in
  let? thumb := Thumbprint (ph_jwk hdr) in
  Ok (mkProof hdr claims thumb).

(** [clock] is the reading of the clock for a request without a time, [jti_clock] the later one of check 8. *)
Definition Verify (s : Service R) (proofJWT : string) (p : VerifyParams) (clock jti_clock : Z)
  : Service R * result dpop_error Proof_ :=
  match static_checks s proofJWT p clock with
  | Err e => (s, Err e)
  | Ok (hdr, claims, iat) =>
      match checkJTI s jti_clock (pc_jti claims) (iat + sv_max_age s) with
      | (s, Err e) => (s, Err e)
      | (s, Ok false) => (s, Err ErrReplay)
      | (s, Ok true) => (s, bind_checks p hdr claims)
      end
  end.

Definition VerifyAgainstConfirmation (s : Service R) (proofJWT : string) (p : VerifyParams) (jkt : string)
  (clock jti_clock : Z) : Service R * result dpop_error Proof_ :=
  match Verify s proofJWT p clock jti_clock with
  | (s, Err e) => (s, Err e)
  | (s, Ok proof) =>
      if (jkt =? "")%string || negb (pr_thumbprint proof =? jkt)%string then (s, Err ErrJKTMismatch) else (s, Ok proof)
  end.

(** ** The token endpoint ([internal/as/dpop.go]) *)

Inductive as_dpop_error := ErrDPoPRequired | ErrDPoPNonceRequired | ErrDPoPInvalid (e : dpop_error).

Record DPoPRequest := mkDPoPRequest { dr_proof : string; dr_client : string; dr_method : string; dr_url : string }.

(** [None] for the service is a server without DPoP. [now] is the reading of the clock. *)
Definition dpopThumbprintForRequest (s : option (Service R)) (req : DPoPRequest) (now jti_clock : Z)
  : option (Service R) * result as_dpop_error string :=
  match s with
  | None => (None, Ok "")
  | Some s =>
      if (dr_proof req =? "")%string then
        if ClientRequiresDPoP s (dr_client req) then (Some s, Err ErrDPoPRequired) else (Some s, Ok "")
      else match Verify s (dr_proof req) (mkParams (dr_method req) (dr_url req) "" now (sv_require_nonce s)) now jti_clock with
      | (s, Ok proof) => (Some s, Ok (pr_thumbprint proof))
      | (s, Err ErrNonceRequired) | (s, Err ErrNonceInvalid) => (Some s, Err ErrDPoPNonceRequired)
      | (s, Err e) => (Some s, Err (ErrDPoPInvalid e))
      end
  end.

Definition IssueDPoPNonce (s : option (Service R)) (now : Z) : string :=
  match s with None => "" | Some s => IssueNonce s now now end.

Definition DPoPProofMaxAge (s : option (Service R)) : Z := match s with None => 0 | Some s => sv_max_age s end.
End Verify.

(** ** The memory of identifiers *)

(** [seen] finds exactly the elements of [l], by identifier. *)
Definition indexed (l : list element) (seen : gmap string element) : Prop :=
  NoDup l.*1 ∧ ∀ jti el, seen !! jti = Some el ↔ el ∈ l ∧ je_jti el.2 = jti.

(** The map after the elements of [p] were dropped. *)
Definition dropped (p : list element) (seen : gmap string element) : gmap string element :=
  fold_left (fun m x => delete (je_jti x.2) m) p seen.

Lemma dropped_lookup p seen j el :
  dropped p seen !! j = Some el ↔ seen !! j = Some el ∧ j ∉ map (fun x => je_jti x.2) p.
Proof.
  unfold dropped. revert seen. induction p as [|x p IH]; intros seen; simpl; [set_solver|].
  rewrite IH, lookup_delete_Some, not_elem_of_cons. intuition congruence.
Qed.

Lemma sweep_spec now l seen :
  ∃ p, l = p ++ (sweep now l seen).1 ∧ (sweep now l seen).2 = dropped p seen
       ∧ Forall (fun x => je_expires x.2 <= now) p.
Proof.
  revert seen. induction l as [|[id e] l IH]; intros seen; simpl; [by exists []|].
  unfold Before. destruct (Z.ltb_spec now (je_expires e)); simpl; [by exists []|].
  destruct (IH (delete (je_jti e) seen)) as (p & Hl & Hs & Hp). exists ((id, e) :: p). simpl.
  split_and!; [by f_equal|done|by constructor].
Qed.

Lemma trim_spec cap l seen :
  ∃ p, l = p ++ (trim cap l seen).1 ∧ (trim cap l seen).2 = dropped p seen
       ∧ (p = [] ∨ cap - 1 <= Z.of_nat (length (trim cap l seen).1))
       ∧ (0 < cap -> Z.of_nat (length (trim cap l seen).1) < cap).
Proof.
  revert seen. induction l as [|[id e] l IH]; intros seen; [exists []; simpl; split_and!; auto; lia|].
  cbn [trim]. destruct (Z.leb_spec cap (Z.of_nat (length ((id, e) :: l)))) as [Hle|Hgt].
  2: { exists []. split_and!; auto. }
  destruct (IH (delete (je_jti e) seen)) as (p & Hl & Hs & Hor & Hp). exists ((id, e) :: p).
  split_and!; [simpl; by f_equal|done| |done]. right. destruct Hor as [->|?]; [|done].
  simpl in Hl, Hle. rewrite <- Hl. lia.
Qed.

Lemma indexed_drop p l seen : indexed (p ++ l) seen -> indexed l (dropped p seen).
Proof.
  intros [Hnd Hi]. rewrite fmap_app in Hnd. apply NoDup_app in Hnd as (_ & Hdis & Hnd). split; [done|].
  intros j el. rewrite dropped_lookup, Hi, elem_of_app. split.
  - intros [[[Hp|Hl] Hj] Hn]; [|done]. destruct Hn. apply list_elem_of_fmap. eauto.
  - intros [Hl Hj]. split; [auto|]. intros (x & Hx & Hxp)%list_elem_of_fmap.
    assert (Hs : seen !! j = Some x) by (apply Hi; rewrite elem_of_app; auto).
    assert (Hs' : seen !! j = Some el) by (apply Hi; rewrite elem_of_app; auto). simplify_eq.
    apply (Hdis el.1); apply list_elem_of_fmap; eauto.
Qed.

Lemma indexed_remove l seen j id e :
  indexed l seen -> seen !! j = Some (id, e) -> indexed (remove_el id l) (delete j seen).
Proof.
  intros [Hnd Hi] Hj. pose proof Hj as [Hin Hje]%Hi. split; [by apply NoDup_fst_filter|].
  intros j' [id' e']. unfold remove_el. rewrite lookup_delete_Some, Hi, list_elem_of_filter. simpl in *.
  split; [|intros [[Hid Hel] <-]].
  - intros [Hne [Hel <-]]. split_and!; [|done..]. intros ->.
    rewrite (NoDup_fst_eq _ _ _ _ Hnd Hin Hel) in Hje. done.
  - split_and!; [|done..]. intros ->. apply Hid.
    assert (Hs : seen !! je_jti e' = Some (id', e')) by (apply Hi; auto). congruence.
Qed.

Lemma indexed_snoc l seen n j x :
  indexed l seen -> seen !! j = None -> n ∉ l.*1 ->
  indexed (l ++ [(n, mkJti j x)]) (<[j := (n, mkJti j x)]> seen).
Proof.
  intros [Hnd Hi] Hj Hn. split.
  - rewrite fmap_app. apply NoDup_app. split_and!; [done|set_solver|apply NoDup_singleton].
  - intros j' el. rewrite lookup_insert_Some, Hi, elem_of_app, list_elem_of_singleton. split.
    + intros [[-> <-]|[Hne [Hel <-]]]; auto.
    + intros [[Hel| ->] <-]; [|by left]. right. split; [|done].
      intros ->. assert (seen !! je_jti el.2 = Some el) by (apply Hi; auto). congruence.
Qed.

Section Remember.
Context {R : Type}.
Implicit Types s : Service R.

(** The invariant of the memory. *)
Record jti_wf s : Prop := {
  wf_indexed : indexed (sv_list s) (sv_seen s);
  wf_next : Forall (fun x => (x.1 < sv_next s)%nat) (sv_list s);
  wf_cap : 0 < sv_cap s;
  wf_size : Z.of_nat (length (sv_list s)) <= sv_cap s;
}.

(** [rememberJTI] on a live identifier, and otherwise: the front of the list is dropped, then the new
    element is appended. *)
Lemma rememberJTI_false s now j x s' :
  rememberJTI s now j x = (s', false) -> s' = s ∧ ∃ id e, sv_seen s !! j = Some (id, e) ∧ now < je_expires e.
Proof.
  unfold rememberJTI. destruct (sv_seen s !! j) as [[id e]|] eqn:E; [destruct (Before now (je_expires e)) eqn:Eb|].
  - intros [= <-]. split; [done|]. exists id, e. split; [done|]. go_time. bool_prop. done.
  - destruct (sweep _ _ _) as [l m]. by destruct (trim _ l m).
  - destruct (sweep _ _ _) as [l m]. by destruct (trim _ l m).
Qed.

(** The list and the map that the sweep starts from. *)
Definition sweep_from s j : list element * gmap string element :=
  match sv_seen s !! j with
  | Some (id, _) => (remove_el id (sv_list s), delete j (sv_seen s))
  | None => (sv_list s, sv_seen s)
  end.

Lemma rememberJTI_true s now j x s' :
  rememberJTI s now j x = (s', true) ->
  (∀ id e, sv_seen s !! j = Some (id, e) -> je_expires e <= now) ∧
  ∃ p1 p2 l, (sweep_from s j).1 = p1 ++ p2 ++ l ∧ Forall (fun y => je_expires y.2 <= now) p1
    ∧ (p2 = [] ∨ sv_cap s - 1 <= Z.of_nat (length l)) ∧ (0 < sv_cap s -> Z.of_nat (length l) < sv_cap s)
    ∧ s' = with_jtis s (l ++ [(sv_next s, mkJti j x)])
             (<[j := (sv_next s, mkJti j x)]> (dropped (p1 ++ p2) (sweep_from s j).2)) (S (sv_next s)).
Proof.
  intros Hr.
  assert (Hx : (∀ id e, sv_seen s !! j = Some (id, e) -> je_expires e <= now) ∧
    s' = (let '(l, seen) := sweep now (sweep_from s j).1 (sweep_from s j).2 in
          let '(l, seen) := trim (sv_cap s) l seen in
          let el := (sv_next s, mkJti j x) in
          with_jtis s (l ++ [el]) (<[j := el]> seen) (S (sv_next s)))).
  { unfold rememberJTI, sweep_from in *. destruct (sv_seen s !! j) as [[id e]|] eqn:E;
      [destruct (Before now (je_expires e)) eqn:Eb; [done|]|]; simpl.
    - split; [intros ? ? [= <- <-]; go_time; bool_prop; lia|].
      destruct (sweep _ _ _) as [l m]. destruct (trim _ l m). congruence.
    - split; [done|]. destruct (sweep _ _ _) as [l m]. destruct (trim _ l m). congruence. }
  destruct Hx as [Hexp ->]. split; [done|].
  destruct (sweep_spec now (sweep_from s j).1 (sweep_from s j).2) as (p1 & H1 & H2 & H3).
  destruct (sweep _ _ _) as [l1 m1]. simpl in *.
  destruct (trim_spec (sv_cap s) l1 m1) as (p2 & H4 & H5 & H6 & H7).
  destruct (trim (sv_cap s) l1 m1) as [l2 m2]. simpl in *.
  exists p1, p2, l2. rewrite <- H4. split_and!; [done..|]. unfold dropped in *. rewrite fold_left_app. by subst.
Qed.

Lemma sweep_from_spec s j :
  indexed (sv_list s) (sv_seen s) ->
  indexed (sweep_from s j).1 (sweep_from s j).2 ∧ (sweep_from s j).2 !! j = None
  ∧ sublist (sweep_from s j).1 (sv_list s).
Proof.
  intros Hi. unfold sweep_from. destruct (sv_seen s !! j) as [[id e]|] eqn:E; simpl; [|done].
  split_and!; [by eapply indexed_remove|by rewrite lookup_delete_eq|apply sublist_filter].
Qed.

Lemma rememberJTI_config s now j x :
  ∃ l m n, (rememberJTI s now j x).1 = with_jtis s l m n.
Proof.
  destruct (rememberJTI s now j x) as [s' []] eqn:E.
  - apply rememberJTI_true in E as (_ & p1 & p2 & l & _ & _ & _ & _ & ->). by eexists _, _, _.
  - apply rememberJTI_false in E as [-> _]. exists (sv_list s), (sv_seen s), (sv_next s). by destruct s.
Qed.

Lemma rememberJTI_wf s now j x : jti_wf s -> jti_wf (rememberJTI s now j x).1.
Proof.
  intros Hwf. destruct (rememberJTI s now j x) as [s' []] eqn:E; simpl.
  2: { by apply rememberJTI_false in E as [-> _]. }
  apply rememberJTI_true in E as (_ & p1 & p2 & l & Hl & _ & _ & Hlen & ->).
  destruct (sweep_from_spec s j (wf_indexed _ Hwf)) as (Hi & Hj & Hsub).
  pose proof (wf_next _ Hwf) as Hn. pose proof (wf_cap _ Hwf) as Hc. specialize (Hlen Hc).
  assert (Hin : ∀ y, y ∈ l -> y ∈ sv_list s).
  { intros y Hy. apply (sublist_subseteq _ _ Hsub). rewrite Hl, !elem_of_app. auto. }
  assert (Hlt : Forall (fun y : element => (y.1 < sv_next s)%nat) l).
  { rewrite Forall_forall in *. auto. }
  constructor; simpl; [|apply Forall_app; split; [eapply Forall_impl; [exact Hlt|simpl; lia]|repeat constructor; simpl; lia]|done|].
  - apply indexed_snoc.
    + apply indexed_drop. by rewrite <- app_assoc, <- Hl.
    + destruct (dropped _ _ !! j) eqn:Ed; [|done]. apply dropped_lookup in Ed as [Ed _]. congruence.
    + intros (y & Hy1 & Hy)%list_elem_of_fmap. rewrite Forall_forall in Hlt. specialize (Hlt y Hy). lia.
  - rewrite length_app. simpl. lia.
Qed.

(** [kept s j x n]: the identifier is remembered until [x], with at most [n] younger elements. *)
Definition kept s (j : string) (x : Z) (n : nat) : Prop :=
  ∃ id l1 l2, sv_list s = l1 ++ (id, mkJti j x) :: l2 ∧ (length l2 <= n)%nat.

Lemma kept_seen s j x n : jti_wf s -> kept s j x n -> ∃ id, sv_seen s !! j = Some (id, mkJti j x).
Proof.
  intros Hwf (id & l1 & l2 & Hl & _). exists id. apply (wf_indexed _ Hwf). rewrite Hl. split; [set_solver|done].
Qed.

Lemma kept_refuses s j x n now x' : jti_wf s -> kept s j x n -> now < x -> rememberJTI s now j x' = (s, false).
Proof.
  intros Hwf Hk Hn. destruct (kept_seen _ _ _ _ Hwf Hk) as [id Hs]. unfold rememberJTI. rewrite Hs. simpl.
  unfold Before. by rewrite (proj2 (Z.ltb_lt now x) Hn).
Qed.

Lemma remembered_kept s now j x s' : rememberJTI s now j x = (s', true) -> kept s' j x 0.
Proof.
  intros (_ & p1 & p2 & l & _ & _ & _ & _ & ->)%rememberJTI_true. by exists (sv_next s), l, [].
Qed.

Lemma NoDup_mid_eq (q1 q2 l1 l2 : list element) y :
  NoDup (l1 ++ y :: l2).*1 -> q1 ++ y :: q2 = l1 ++ y :: l2 -> q2 = l2.
Proof.
  revert l1. induction q1 as [|z q1 IH]; intros l1 Hnd He; destruct l1 as [|z' l1]; simplify_eq/=; [done| | |].
  - apply NoDup_cons in Hnd as [Hn _]. destruct Hn. rewrite fmap_app. set_solver.
  - apply NoDup_cons in Hnd as [Hn _]. destruct Hn. rewrite fmap_app. set_solver.
  - apply NoDup_cons in Hnd as [_ Hnd]. by eapply IH.
Qed.

(** A list whose element survives the removal of others and of a front that does not reach it. *)
Lemma kept_split (p l l1 l2 : list element) y : p ++ l = l1 ++ y :: l2 -> y ∉ p -> ∃ l1', l = l1' ++ y :: l2.
Proof.
  revert l1. induction p as [|z p IH]; intros l1 He Hy; simpl in *; [by exists l1|].
  destruct l1 as [|z' l1]; simplify_eq/=; [set_solver|]. apply (IH l1); [done|set_solver].
Qed.

Lemma kept_remember s now j x n j' x' :
  jti_wf s -> kept s j x n -> now < x -> Z.of_nat n + 1 < sv_cap s -> kept (rememberJTI s now j' x').1 j x (S n).
Proof.
  intros Hwf Hk Hnow Hcap. destruct (kept_seen _ _ _ _ Hwf Hk) as [id0 Hs0].
  destruct Hk as (id & l1 & l2 & Hl & Hn).
  destruct (rememberJTI s now j' x') as [s' []] eqn:E; simpl.
  2: { apply rememberJTI_false in E as [-> _]. exists id, l1, l2. split; [done|lia]. }
  destruct (decide (j' = j)) as [->|Hne].
  { apply rememberJTI_true in E as [He _]. specialize (He _ _ Hs0). simpl in He. lia. }
  apply rememberJTI_true in E as (_ & p1 & p2 & l & Hf & Hp1 & Hp2 & _ & ->).
  assert (Hy : ∃ l1' l2', (sweep_from s j').1 = l1' ++ (id, mkJti j x) :: l2' ∧ (length l2' <= length l2)%nat).
  { unfold sweep_from. destruct (sv_seen s !! j') as [[id' e']|] eqn:Es; [|by exists l1, l2].
    exists (remove_el id' l1), (remove_el id' l2). simpl. split; [|apply length_filter].
    rewrite Hl. unfold remove_el. rewrite filter_app, filter_cons_True; [done|]. simpl. intros ->.
    apply Hne. apply (wf_indexed _ Hwf) in Es as [Es1 Es2]. simpl in Es2.
    assert (Hi2 : (id', mkJti j x) ∈ sv_list s) by (rewrite Hl; set_solver).
    rewrite <- (NoDup_fst_eq _ _ _ _ (proj1 (wf_indexed _ Hwf)) Hi2 Es1) in Es2. done. }
  destruct Hy as (l1' & l2' & Hy & Hlen'). rewrite Hf in Hy.
  apply kept_split in Hy as [l1'' Hy].
  2: { intros Hin. rewrite Forall_forall in Hp1. specialize (Hp1 _ Hin). simpl in Hp1. lia. }
  assert (∃ l3, l = l3 ++ (id, mkJti j x) :: l2') as [l3 Hl3].
  { destruct Hp2 as [->|Hp2]; [by exists l1''|]. destruct (decide ((id, mkJti j x) ∈ p2)) as [Hin|Hin].
    - exfalso. apply list_elem_of_split in Hin as (q1 & q2 & ->). rewrite <- app_assoc in Hy. simpl in Hy.
      assert (Hnd : NoDup (p1 ++ (q1 ++ (id, mkJti j x) :: q2) ++ l).*1).
      { rewrite <- Hf. apply sweep_from_spec, Hwf. }
      rewrite <- app_assoc in Hnd. simpl in Hnd. rewrite Hy in Hnd.
      assert (Hq : q2 ++ l = l2').
      { eapply NoDup_mid_eq; [|exact Hy]. rewrite fmap_app in Hnd. by apply NoDup_app in Hnd as (_ & _ & ?). }
      assert (length l <= length l2')%nat by (rewrite <- Hq, length_app; lia). lia.
    - apply kept_split in Hy as [? ?]; eauto. }
  exists id, l3, (l2' ++ [(sv_next s, mkJti j' x')]). simpl. rewrite Hl3, <- app_assoc. split; [done|].
  rewrite length_app. simpl. lia.
Qed.
End Remember.

(** ** Runs of the verifier *)

(** One call of [Verify]: the proof, the parameters and the two clock readings. *)
Record call := mkCall { c_proof : string; c_params : VerifyParams; c_clock : Z; c_jti_clock : Z }.

Section Runs.
Context `{DpopLib} {R : Type} `{ReplayCache R}.
Implicit Types s : Service R.

Definition verify_call s (c : call) : Service R * result dpop_error Proof_ :=
  Verify s (c_proof c) (c_params c) (c_clock c) (c_jti_clock c).

Definition verify_run s (cs : list call) : Service R := fold_left (fun s c => (verify_call s c).1) cs s.

(** What never changes. *)
Definition same_config s s' : Prop :=
  sv_allowed s' = sv_allowed s ∧ sv_max_age s' = sv_max_age s ∧ sv_skew s' = sv_skew s
  ∧ sv_nonce_ttl s' = sv_nonce_ttl s ∧ sv_secret s' = sv_secret s ∧ sv_cap s' = sv_cap s
  ∧ (sv_replay s = None -> sv_replay s' = None).

(** The identifier a call presents at check 8, with the time until which it is to be remembered. *)
Definition presents s (c : call) : option (string * Z) :=
  match static_checks s (c_proof c) (c_params c) (c_clock c) with
  | Ok (_, claims, iat) => Some (pc_jti claims, iat + sv_max_age s)
  | Err _ => None
  end.

Lemma static_checks_config s s' jwt p clock :
  same_config s s' -> static_checks s' jwt p clock = static_checks s jwt p clock.
Proof. intros (H1 & H2 & H3 & H4 & H5 & _). unfold static_checks. by rewrite H1, H2, H3, H4, H5. Qed.

Lemma verify_call_presents s c :
  sv_replay s = None ->
  (verify_call s c).1 = match presents s c with
                        | Some (j, x) => (rememberJTI s (c_jti_clock c) j x).1
                        | None => s
                        end.
Proof.
  intros Hr. unfold verify_call, Verify, presents, checkJTI. rewrite Hr.
  destruct (static_checks _ _ _ _) as [[[hdr claims] iat]|e]; [|done].
  by destruct (rememberJTI _ _ _ _) as [s' []].
Qed.

Lemma verify_call_config s c : same_config s (verify_call s c).1.
Proof.
  unfold verify_call, Verify, checkJTI. destruct (static_checks _ _ _ _) as [[[hdr claims] iat]|e]; [|done].
  destruct (sv_replay s) as [r|] eqn:Er.
  - destruct (rc_seen _ _ _ _) as [r' [[]|]]; simpl; unfold same_config; rewrite Er; by split_and!.
  - destruct (rememberJTI_config s (c_jti_clock c) (pc_jti claims) (iat + sv_max_age s)) as (l & m & n & Hs).
    destruct (rememberJTI _ _ _ _) as [s' []]; simpl in *; subst; unfold same_config; simpl; rewrite Er; by split_and!.
Qed.

Lemma same_config_trans s1 s2 s3 : same_config s1 s2 -> same_config s2 s3 -> same_config s1 s3.
Proof. unfold same_config. intros (?&?&?&?&?&?&?) (?&?&?&?&?&?&?). split_and!; try congruence. auto. Qed.

Lemma verify_run_config s cs : same_config s (verify_run s cs).
Proof.
  revert s. induction cs as [|c cs IH]; intros s; [by repeat split|].
  eapply same_config_trans; [apply verify_call_config|apply IH].
Qed.

Lemma verify_call_wf s c : jti_wf s -> jti_wf (verify_call s c).1.
Proof.
  intros Hwf. unfold verify_call, Verify, checkJTI. destruct (static_checks _ _ _ _) as [[[hdr claims] iat]|e]; [|done].
  destruct (sv_replay s) as [r|] eqn:Er.
  - destruct (rc_seen _ _ _ _) as [r' [[]|]]; simpl; destruct Hwf; by constructor.
  - pose proof (rememberJTI_wf s (c_jti_clock c) (pc_jti claims) (iat + sv_max_age s) Hwf) as Hw.
    by destruct (rememberJTI _ _ _ _) as [s' []].
Qed.

Lemma verify_run_wf s cs : jti_wf s -> jti_wf (verify_run s cs).
Proof. revert s. induction cs as [|c cs IH]; intros s Hs; [done|]. by apply IH, verify_call_wf. Qed.

Lemma New_wf cfg fresh s : New cfg fresh = Ok s -> jti_wf s ∧ sv_replay s = cf_replay cfg ∧ sv_list s = [].
Proof.
  unfold New. destruct (if (cf_secret cfg =? "")%string then fresh else Some (cf_secret cfg)); [|done].
  intros [= <-]. split; [|done]. constructor; simpl.
  - split; [constructor|]. intros j el. rewrite lookup_empty. set_solver.
  - constructor.
  - destruct (Z.leb_spec (cf_window cfg) 0); lia.
  - destruct (Z.leb_spec (cf_window cfg) 0); lia.
Qed.

(** C36. The memory of identifiers stays well formed, whatever proofs are presented at whatever times: the
    map finds exactly the elements of the list, each identifier once, and the list never holds more than
    the configured number of elements. *)
Theorem jti_memory_well_formed cfg fresh s cs
  (Hnew : New cfg fresh = Ok s) :
  let s' := verify_run s cs in
  NoDup (map (fun x => je_jti x.2) (sv_list s'))
  ∧ (∀ jti el, sv_seen s' !! jti = Some el ↔ el ∈ sv_list s' ∧ je_jti el.2 = jti)
  ∧ Z.of_nat (length (sv_list s')) <= (if cf_window cfg <=? 0 then 4096 else cf_window cfg).
Proof.
  intros s'. assert (Hwf : jti_wf s') by (apply verify_run_wf, (New_wf _ _ _ Hnew)).
  pose proof (wf_indexed _ Hwf) as [Hnd Hi]. split_and!; [|exact Hi|].
  - apply NoDup_fmap_1 in Hnd. apply NoDup_fmap_2_strong; [|done].
    intros x y Hx Hy He. assert (Hsx : sv_seen s' !! je_jti x.2 = Some x) by (apply Hi; auto).
    assert (Hsy : sv_seen s' !! je_jti x.2 = Some y) by (apply Hi; auto). congruence.
  - pose proof (wf_size _ Hwf) as Hsz. destruct (verify_run_config s cs) as (_ & _ & _ & _ & _ & Hc & _).
    fold s' in Hc. rewrite Hc in Hsz. revert Hnew. unfold New.
    destruct (if (cf_secret cfg =? "")%string then fresh else Some (cf_secret cfg)); [|done]. by intros [= <-].
Qed.

Lemma verify_run_kept s j x n cs :
  jti_wf s -> sv_replay s = None -> kept s j x n -> Forall (fun c => c_jti_clock c < x) cs ->
  Z.of_nat n + Z.of_nat (length cs) < sv_cap s -> kept (verify_run s cs) j x (n + length cs).
Proof.
  revert s n. induction cs as [|c cs IH]; intros s n Hwf Hr Hk Hc Hcap; simpl in *; [by rewrite Nat.add_0_r|].
  apply Forall_cons in Hc as [Hc Hcs]. destruct (verify_call_config s c) as (_ & _ & _ & _ & _ & Hcap' & Hr').
  replace (n + S (length cs))%nat with (S n + length cs)%nat by lia.
  apply IH; [by apply verify_call_wf|auto| |done|rewrite Hcap'; lia].
  rewrite verify_call_presents by done. destruct (presents s c) as [[j' x']|].
  - apply kept_remember; auto. lia.
  - destruct Hk as (id & l1 & l2 & Hl & Hn). exists id, l1, l2. split; [done|lia].
Qed.

(** C17. A proof works once. After a proof is accepted, no proof with the same identifier is accepted
    again before the accepted proof's issue time plus the maximal age, whatever other proofs are presented
    in between, provided they are fewer than the capacity of the memory. *)
Theorem proof_accepted_once cfg fresh s cs0 c pr s1 cs c' hdr claims iat
  (Hnew : New cfg fresh = Ok s) (Hlocal : cf_replay cfg = None)
  (Hok : verify_call (verify_run s cs0) c = (s1, Ok pr))
  (Hclaims : static_checks s (c_proof c) (c_params c) (c_clock c) = Ok (hdr, claims, iat))
  (Hfew : Z.of_nat (length cs) < sv_cap s)
  (Hbefore : Forall (fun d => c_jti_clock d < iat + sv_max_age s) (cs ++ [c']))
  (Hsame : ∃ x, presents s c' = Some (pc_jti claims, x)) :
  verify_call (verify_run s1 cs) c' = (verify_run s1 cs, Err ErrReplay).
Proof.
  destruct (New_wf _ _ _ Hnew) as (Hwf & Hr & _). rewrite Hlocal in Hr.
  pose proof (verify_run_wf _ cs0 Hwf) as Hwf0. pose proof (verify_run_config s cs0) as Hc0.
  set (s0 := verify_run s cs0) in *. pose proof (verify_call_config s0 c) as Hc1. rewrite Hok in Hc1. simpl in Hc1.
  pose proof (same_config_trans _ _ _ Hc0 Hc1) as Hc01.
  assert (Hr0 : sv_replay s0 = None) by (destruct Hc0 as (_&_&_&_&_&_&?); auto).
  assert (Hk : kept s1 (pc_jti claims) (iat + sv_max_age s) 0).
  { revert Hok. unfold verify_call, Verify, checkJTI. rewrite (static_checks_config _ _ _ _ _ Hc0), Hclaims, Hr0.
    destruct Hc0 as (_ & -> & _). destruct (rememberJTI _ _ _ _) as [s' []] eqn:E; [|done].
    intros [= -> _]. by eapply remembered_kept. }
  assert (Hwf1 : jti_wf s1) by (pose proof (verify_call_wf s0 c Hwf0) as Hw; by rewrite Hok in Hw).
  apply Forall_app in Hbefore as [Hcs [Hc' _]%Forall_cons].
  pose proof (verify_run_config s1 cs) as Hc2. pose proof (same_config_trans _ _ _ Hc01 Hc2) as Hc02.
  assert (Hr1 : sv_replay s1 = None) by (destruct Hc01 as (_&_&_&_&_&_&?); auto).
  assert (Hcap : sv_cap s1 = sv_cap s) by (by destruct Hc01 as (_&_&_&_&_&?&_)).
  assert (Hk2 := verify_run_kept s1 _ _ 0 cs Hwf1 Hr1 Hk Hcs ltac:(lia)).
  destruct Hsame as [x Hx]. unfold verify_call, Verify, checkJTI. rewrite (static_checks_config _ _ _ _ _ Hc02).
  unfold presents in Hx. destruct (static_checks s (c_proof c') _ _) as [[[hdr' claims'] iat']|]; [|done].
  injection Hx as Hj _. destruct Hc02 as (_ & _ & _ & _ & _ & _ & Hr2). rewrite (Hr2 Hr), Hj.
  rewrite (kept_refuses _ _ _ _ (c_jti_clock c') _ (verify_run_wf _ cs Hwf1) Hk2 Hc'). done.
Qed.
End Runs.

(** ** What an accepted proof says *)

(** A run without overflow of the window's length, which [New]'s defaults and any configuration below
    three centuries satisfy. *)
Definition sane_window {R} (s : Service R) : Prop := 0 <= sv_max_age s + sv_skew s < max_int64.

(** The age test, exactly: a proof is inside the window, or its issue time is so far in the future that
    the difference saturates and its absolute value wraps. *)
Lemma age_test {R} (s : Service R) now iat :
  sane_window s ->
  (wrap64 (sv_max_age s + sv_skew s) <? abs (Sub now iat)) = false
  ↔ Z.abs (now - iat) <= sv_max_age s + sv_skew s ∨ now - iat <= min_int64.
Proof.
  intros Hs. unfold sane_window in Hs. rewrite wrap64_small by (unfold in_int64, min_int64 in *; lia).
  unfold abs, Sub. rewrite Z.ltb_ge. destruct (Z.le_gt_cases (now - iat) min_int64) as [Hle|Hgt].
  - replace (Z.max _ _) with min_int64 by (unfold max_int64, min_int64 in *; lia).
    change (min_int64 <? 0) with true. cbn match. change (wrap64 (- min_int64)) with min_int64.
    split; [by right|unfold min_int64; lia].
  - destruct (Z.ltb_spec (Z.max min_int64 (Z.min max_int64 (now - iat))) 0) as [Hn|Hn].
    + rewrite wrap64_small by (unfold in_int64, max_int64, min_int64 in *; lia).
      unfold max_int64, min_int64 in *. lia.
    + unfold max_int64, min_int64 in *. lia.
Qed.

Section Accepted.
Context `{DpopLib} {R : Type} `{ReplayCache R}.
Implicit Types s : Service R.

(** What RFC 9449 section 4.3 asks, as the code implements it: [accepts s p c hdr claims jwk thumb] for
    a proof with the given header, claims, signature and signed text. *)
Record accepts s (p : VerifyParams) (clock : Z) (hdr : ProofHeader) (claims : ProofClaims) (sig input : string) : Prop := {
  ac_typ : ph_typ hdr = ProofTyp;
  ac_alg : ph_alg hdr ∈ sv_allowed s;
  ac_signed : verifySignature (ph_alg hdr) (ph_jwk hdr) input sig = Ok tt;
  ac_method : EqualFold (pc_htm claims) (vp_method p) = true;
  ac_uri : ∃ uri, canonicalURI (vp_url p) = Some uri ∧ canonicalURI (pc_htu claims) = Some uri;
  ac_iat : pc_iat claims ≠ 0;
  ac_age : let now := if IsZero (vp_now p) then clock else vp_now p in
           Z.abs (now - time_unix (pc_iat claims)) <= sv_max_age s + sv_skew s
           ∨ now - time_unix (pc_iat claims) <= min_int64;
  ac_nonce : (vp_require_nonce p = true -> pc_nonce claims ≠ "")
             ∧ (pc_nonce claims ≠ "" -> sv_secret s ≠ ""
                ∧ verifyNonce (sv_secret s) (pc_nonce claims) (sv_nonce_ttl s)
                    (if IsZero (vp_now p) then clock else vp_now p) clock = Ok tt);
  ac_jti : pc_jti claims ≠ "";
}.

Lemma static_checks_iff s jwt p clock hdr claims iat :
  sane_window s ->
  static_checks s jwt p clock = Ok (hdr, claims, iat)
  ↔ iat = time_unix (pc_iat claims) ∧ ∃ sig input, ParseProof jwt = Ok (hdr, claims, sig, input) ∧ accepts s p clock hdr claims sig input.
Proof.
  intros Hs. unfold static_checks. split.
  - destruct (ParseProof jwt) as [[[[h c] sig] input]|]; [|done].
    destruct (String.eqb_spec (ph_typ h) ProofTyp); [|done]. case_bool_decide; [|done]. cbn [negb].
    destruct (verifySignature _ _ _ _) as [[]|] eqn:Esig; [|done].
    destruct (EqualFold _ _) eqn:Em; [|done]. cbn [negb].
    destruct (canonicalURI (vp_url p)) as [want|] eqn:Eu; [|done].
    destruct (canonicalURI (pc_htu c)) as [got|] eqn:Eg; [|done].
    destruct (String.eqb_spec got want) as [->|]; [|done]. cbn [negb].
    destruct (Z.eqb_spec (pc_iat c) 0) as [|Hiat]; [done|].
    destruct (wrap64 _ <? _) eqn:Ea; [done|]. rewrite age_test in Ea by done.
    destruct (vp_require_nonce p && (pc_nonce c =? "")%string) eqn:Er; [done|].
    destruct (String.eqb_spec (pc_jti c) "") as [Ej|Ej].
    { by destruct (if (pc_nonce c =? "")%string then _ else _). }
    destruct (if (pc_nonce c =? "")%string then _ else _) as [u|] eqn:En; [|done].
    intros [= <- <- <-]. split; [done|]. exists sig, input. split; [done|]. constructor; eauto. split.
    + intros Hr En'. rewrite Hr, En' in Er. done.
    + intros Hne. destruct (String.eqb_spec (pc_nonce c) ""); [done|].
      destruct (String.eqb_spec (sv_secret s) ""); [done|]. by destruct u.
  - intros [-> (sig & input & -> & [H1 H2 H3 H4 (uri & H5 & H5') H6 H7 [H8 H8'] H9])].
    rewrite H1, H3, H4, H5, H5', String.eqb_refl. rewrite bool_decide_eq_true_2 by done. cbn [negb].
    rewrite String.eqb_refl. cbn [negb]. rewrite (proj2 (Z.eqb_neq _ _) H6). rewrite (proj2 (age_test s _ _ Hs) H7).
    destruct (vp_require_nonce p) eqn:Er; cbn [andb].
    + rewrite (proj2 (String.eqb_neq _ _) (H8 eq_refl)). destruct (H8' (H8 eq_refl)) as [Hsec Hn].
      rewrite (proj2 (String.eqb_neq _ _) Hsec), Hn, (proj2 (String.eqb_neq _ _) H9). done.
    + destruct (String.eqb_spec (pc_nonce claims) "") as [|Hne].
      * rewrite (proj2 (String.eqb_neq _ _) H9). done.
      * destruct (H8' Hne) as [Hsec Hn]. rewrite (proj2 (String.eqb_neq _ _) Hsec), Hn, (proj2 (String.eqb_neq _ _) H9). done.
Qed.

(** C16. What an accepted proof establishes, exactly. [Verify] accepts a proof if and only if it parses,
    has the type [dpop+jwt] and an allowed algorithm, is signed by the key in its header, names the method
    and the address of the request, was issued inside the window, carries a valid nonce if it carries one
    or one is required, has an identifier that is not remembered, and carries the hash of the access token
    when there is one; the result is the thumbprint of that key. The window has a hole: a proof issued more
    than 2^63 nanoseconds in the future is accepted too, because the difference of the times saturates at the
    least duration, whose absolute value is itself. *)
Theorem Verify_accepts_iff s jwt p clock jti_clock pr
  (Hlocal : sv_replay s = None) (Hwin : sane_window s) :
  (Verify s jwt p clock jti_clock).2 = Ok pr
  ↔ ∃ hdr claims sig input jwk canonical,
      ParseProof jwt = Ok (hdr, claims, sig, input) ∧ accepts s p clock hdr claims sig input
      ∧ (∀ id e, sv_seen s !! pc_jti claims = Some (id, e) -> je_expires e <= jti_clock)
      ∧ (vp_access_token p ≠ "" -> pc_ath claims ≠ "" ∧ pc_ath claims = AccessTokenHash (vp_access_token p))
      ∧ ph_jwk hdr = Some jwk ∧ canonical_jwk jwk = Some canonical
      ∧ pr = mkProof hdr claims (b64_encode (sha256 canonical)).
Proof.
  unfold Verify. split.
  - destruct (static_checks s jwt p clock) as [[[hdr claims] iat]|] eqn:Es; [|done].
    apply static_checks_iff in Es as [-> (sig & input & Hp & Hacc)]; [|done]. unfold checkJTI. rewrite Hlocal.
    destruct (rememberJTI _ _ _ _) as [s' []] eqn:Er; [|done]. simpl. unfold bind_checks, Thumbprint.
    destruct (if (vp_access_token p =? "")%string then _ else _) as [[]|] eqn:Ea; [|done].
    destruct (ph_jwk hdr ≫= canonical_jwk) as [can|] eqn:Ec; [|done]. intros [= <-].
    apply bind_Some in Ec as (jwk & Hjwk & Hcan). apply rememberJTI_true in Er as [Hexp _].
    exists hdr, claims, sig, input, jwk, can. split_and!; try done.
    intros Hne. destruct (String.eqb_spec (vp_access_token p) ""); [done|].
    destruct (String.eqb_spec (pc_ath claims) ""); [done|]. by destruct (String.eqb_spec (pc_ath claims) (AccessTokenHash (vp_access_token p))).
  - intros (hdr & claims & sig & input & jwk & can & Hp & Hacc & Hexp & Hath & Hjwk & Hcan & ->).
    rewrite (proj2 (static_checks_iff s jwt p clock hdr claims _ Hwin)) by eauto.
    unfold checkJTI. rewrite Hlocal. destruct (rememberJTI _ _ _ _) as [s' []] eqn:Er.
    2: { apply rememberJTI_false in Er as (_ & id & e & He & Hlt). specialize (Hexp _ _ He). lia. }
    simpl. unfold bind_checks, Thumbprint. rewrite Hjwk. simpl. rewrite Hcan.
    destruct (String.eqb_spec (vp_access_token p) "") as [|Hne]; [done|]. destruct (Hath Hne) as [Hn Heq].
    rewrite (proj2 (String.eqb_neq _ _) Hn), <- Heq, String.eqb_refl. done.
Qed.
End Accepted.

(** ** Replay in the skew *)

Section Skew.
Context `{DpopLib} {R : Type} `{ReplayCache R}.
Implicit Types s : Service R.

(** A proof is replayed in the clock skew. The identifier of a proof is remembered until its issue time
    plus the maximal age, but the proof is acceptable until that time plus the clock skew: once the first
    time has passed, a proof that has just been accepted is accepted again. *)
Theorem skew_replay s jwt p clock jti_clock s1 pr p' clock' jti_clock' hdr claims iat
  (Hlocal : sv_replay s = None)
  (Hfirst : Verify s jwt p clock jti_clock = (s1, Ok pr))
  (Hacceptable : static_checks s jwt p' clock' = Ok (hdr, claims, iat))
  (Hlate : iat + sv_max_age s <= jti_clock')
  (Htoken : vp_access_token p' = vp_access_token p) :
  (Verify s1 jwt p' clock' jti_clock').2 = Ok pr.
Proof.
  pose proof (verify_call_config s (mkCall jwt p clock jti_clock)) as Hc.
  unfold verify_call in Hc. cbn [c_proof c_params c_clock c_jti_clock] in Hc. rewrite Hfirst in Hc. cbn [fst] in Hc.
  unfold Verify in *. rewrite (static_checks_config _ _ _ _ _ Hc), Hacceptable.
  destruct (static_checks s jwt p clock) as [[[hdr' claims'] iat']|] eqn:Es; [|done].
  assert (hdr' = hdr ∧ claims' = claims ∧ iat' = iat) as (-> & -> & ->).
  { clear -Es Hacceptable. unfold static_checks in *. destruct (ParseProof jwt) as [[[[h c] sig] input]|]; [|done].
    repeat (case_match; try done; simplify_eq). }
  destruct Hc as (_ & Hmax & _ & _ & _ & _ & Hr). unfold checkJTI in *. rewrite (Hr Hlocal), Hmax. rewrite Hlocal in Hfirst.
  destruct (rememberJTI s _ _ _) as [s' []] eqn:E; [|done]. injection Hfirst as -> Hb.
  assert (Hs1 : ∃ id, sv_seen s1 !! pc_jti claims = Some (id, mkJti (pc_jti claims) (iat + sv_max_age s))).
  { apply rememberJTI_true in E as (_ & p1 & p2 & l & _ & _ & _ & _ & ->). simpl. rewrite lookup_insert_eq. eauto. }
  destruct Hs1 as [id Hs1]. destruct (rememberJTI s1 _ _ _) as [s2 []] eqn:E2.
  - cbn [snd]. unfold bind_checks in *. by rewrite Htoken.
  - apply rememberJTI_false in E2 as (_ & id' & e & He & Hlt). simplify_eq/=. lia.
Qed.
End Skew.

(** ** Panics *)

Section Panic.
Context `{DpopLib} {R : Type} `{ReplayCache R}.
Implicit Types s : Service R.

Lemma copy_at_None buf off src : copy_at buf off src = None ↔ off < 0 ∨ Z.of_nat (length buf) < off.
Proof.
  unfold copy_at. destruct (Z.ltb_spec off 0); destruct (Z.ltb_spec (Z.of_nat (length buf)) off); simpl; split; try done; try lia.
Qed.

Lemma copy_at_length buf off src buf' : copy_at buf off src = Some buf' -> length buf' = length buf.
Proof.
  unfold copy_at. destruct (Z.ltb_spec off 0); [done|]. destruct (Z.ltb_spec (Z.of_nat (length buf)) off); [done|].
  simpl. intros [= <-]. rewrite !length_app, !length_take, length_drop. lia.
Qed.

Lemma uncompressed_panics byteSize x y :
  0 <= byteSize ->
  uncompressed byteSize x y = None ↔ 1 + byteSize < len x ∨ 1 + 2 * byteSize < len y.
Proof.
  intros Hb. unfold uncompressed. set (buf := byte_of 4 :: replicate _ _).
  assert (Hlen : Z.of_nat (length buf) = 1 + 2 * byteSize) by (unfold buf; cbn [length]; rewrite length_replicate; lia).
  assert (0 <= len x ∧ 0 <= len y) by (unfold len; lia).
  destruct (copy_at buf (1 + byteSize - len x) _) as [buf'|] eqn:E.
  - apply copy_at_length in E as Hl. rewrite copy_at_None, Hl, Hlen.
    assert (¬ (1 + byteSize - len x < 0 ∨ Z.of_nat (length buf) < 1 + byteSize - len x)) by (rewrite <- copy_at_None; by rewrite E).
    lia.
  - apply copy_at_None in E. split; [|done]. intros _. lia.
Qed.

(** The bytes of a coordinate on the curve of an algorithm. *)
Definition coordinate_size (alg : string) : option Z :=
  if (alg =? AlgES256)%string then Some 32 else if (alg =? AlgES384)%string then Some 48 else None.

(** A key whose coordinates do not fit the curve of the algorithm. *)
Definition oversized_key (alg : string) (jwk : JWK) : Prop :=
  ∃ size x y, coordinate_size alg = Some size ∧ jwk_kty jwk = "EC" ∧ jwk_x jwk ≠ "" ∧ jwk_y jwk ≠ ""
    ∧ b64_decode (jwk_x jwk) = Some x ∧ b64_decode (jwk_y jwk) = Some y ∧ (1 + size < len x ∨ 1 + 2 * size < len y).

Lemma verifyECDSA_panics jwk input sig curve h :
  verifyECDSA jwk input sig curve h = Err DPanic
  ↔ jwk_kty jwk = "EC" ∧ jwk_x jwk ≠ "" ∧ jwk_y jwk ≠ "" ∧ ∃ x y, b64_decode (jwk_x jwk) = Some x
    ∧ b64_decode (jwk_y jwk) = Some y
    ∧ (1 + (BitSize curve + 7) / 8 < len x ∨ 1 + 2 * ((BitSize curve + 7) / 8) < len y).
Proof.
  assert (Hb : 0 <= (BitSize curve + 7) / 8) by (by destruct curve).
  unfold verifyECDSA. destruct (String.eqb_spec (jwk_kty jwk) "EC"); [|naive_solver]. cbn [negb].
  destruct (String.eqb_spec (jwk_x jwk) ""); [naive_solver|]. destruct (String.eqb_spec (jwk_y jwk) ""); [naive_solver|].
  cbn [orb]. destruct (b64_decode (jwk_x jwk)) as [x|]; [|naive_solver].
  destruct (b64_decode (jwk_y jwk)) as [y|]; [|naive_solver].
  destruct (uncompressed _ x y) as [pt|] eqn:Eu.
  - assert (Hn : ¬ (1 + (BitSize curve + 7) / 8 < len x ∨ 1 + 2 * ((BitSize curve + 7) / 8) < len y))
      by (rewrite <- uncompressed_panics by done; by rewrite Eu).
    split; [by repeat case_match|naive_solver].
  - apply uncompressed_panics in Eu; [|done]. split; [|done]. intros _. split_and!; eauto.
Qed.

Lemma verifySignature_panics alg jwk input sig :
  verifySignature alg (Some jwk) input sig = Err DPanic ↔ oversized_key alg jwk.
Proof.
  unfold verifySignature, oversized_key, coordinate_size.
  destruct (String.eqb_spec alg AlgES256); [rewrite verifyECDSA_panics; simpl; naive_solver|].
  destruct (String.eqb_spec alg AlgES384); [rewrite verifyECDSA_panics; simpl; naive_solver|].
  split; [|naive_solver]. unfold verifyRSA, verifyEdDSA. by repeat case_match.
Qed.

(** A crafted key crashes the verifier. [Verify] panics exactly on a proof of the right type whose
    algorithm is an allowed ECDSA one and whose key has a coordinate too long for the curve (for ES256, an
    [x] of more than 33 bytes or a [y] of more than 65): a slice bound becomes negative. The signature is
    not looked at, so no key is needed. *)
Theorem Verify_panics_iff s jwt p clock jti_clock :
  (Verify s jwt p clock jti_clock).2 = Err DPanic
  ↔ ∃ hdr claims sig input jwk,
      ParseProof jwt = Ok (hdr, claims, sig, input) ∧ ph_typ hdr = ProofTyp ∧ ph_alg hdr ∈ sv_allowed s
      ∧ ph_jwk hdr = Some jwk ∧ oversized_key (ph_alg hdr) jwk.
Proof.
  assert (Hiff : (Verify s jwt p clock jti_clock).2 = Err DPanic ↔ static_checks s jwt p clock = Err DPanic).
  { unfold Verify. destruct (static_checks s jwt p clock) as [[[hdr claims] iat]|e]; simpl; [|split; congruence].
    unfold checkJTI, bind_checks, Thumbprint. split; [|done]. by repeat case_match; simplify_eq/=. }
  rewrite Hiff. unfold static_checks.
  destruct (ParseProof jwt) as [[[[hdr claims] sig] input]|e] eqn:Ep.
  2: { split; [|naive_solver]. intros [= ->]. exfalso. revert Ep. unfold ParseProof. by repeat case_match. }
  destruct (String.eqb_spec (ph_typ hdr) ProofTyp); [|naive_solver]. case_bool_decide; [|naive_solver]. cbn [negb].
  destruct (ph_jwk hdr) as [jwk|] eqn:Ej; [|cbn [verifySignature]; naive_solver].
  destruct (verifySignature _ _ _ _) as [[]|err] eqn:Es.
  - assert (¬ oversized_key (ph_alg hdr) jwk) by (rewrite <- verifySignature_panics; by rewrite Es).
    split; [|naive_solver]. unfold verifyNonce. by repeat case_match; simplify_eq/=.
  - split.
    + intros [= ->]. apply verifySignature_panics in Es. naive_solver.
    + intros (h & c & sg & i & jw & [= <- <- <- <-] & _ & _ & Hj & Ho). rewrite Ej in Hj. injection Hj as <-.
      apply (verifySignature_panics _ _ input sig) in Ho. congruence.
Qed.
End Panic.

(** ** Nonces *)

Lemma SetBytes_snoc l c :
  SetBytes (string_of_list_ascii (l ++ [c])) = 256 * SetBytes (string_of_list_ascii l) + byte_val c.
Proof. unfold SetBytes. rewrite !list_ascii_of_string_of_list_ascii, fold_left_app. done. Qed.

Lemma put_be_value n z : SetBytes (string_of_list_ascii (put_be n z)) = z mod 256 ^ Z.of_nat n.
Proof.
  revert z. induction n as [|n IH]; intros z; [simpl; by rewrite Z.mod_1_r|].
  cbn [put_be]. rewrite SetBytes_snoc, IH, byte_val_of by (apply Z.mod_pos_bound; lia).
  rewrite Nat2Z.inj_succ, Z.pow_succ_r by lia. rewrite (Z.rem_mul_r z 256 (256 ^ Z.of_nat n)) by lia. lia.
Qed.

Lemma put_be_length n z : length (put_be n z) = n.
Proof. revert z. induction n as [|n IH]; intros z; [done|]. cbn [put_be]. rewrite length_app, IH. simpl. lia. Qed.

Lemma put_be_of l : put_be (length l) (SetBytes (string_of_list_ascii l)) = l.
Proof.
  induction l as [|c l IH] using rev_ind; [done|]. rewrite length_app, Nat.add_1_r, SetBytes_snoc. cbn [put_be].
  pose proof (byte_val_range c).
  rewrite (Z.mul_comm 256), Z.div_add_l, Z.div_small, Z.add_0_r, IH by lia.
  rewrite Z.add_comm, Z.mod_add, Z.mod_small by lia. do 2 f_equal.
  unfold byte_of, byte_val. rewrite N2Z.id. apply ascii_N_embedding.
Qed.

Lemma SetBytes_nonneg s : 0 <= SetBytes s.
Proof.
  unfold SetBytes. assert (Hg : ∀ l n, 0 <= n -> 0 <= fold_left (fun n c => 256 * n + byte_val c) l n).
  { induction l as [|c l IH]; intros n Hn; [done|]. apply IH. pose proof (byte_val_range c). lia. }
  by apply Hg.
Qed.

Lemma PutUint64_length z : String.length (PutUint64 z) = 8%nat.
Proof. reflexivity. Qed.

Section Nonce.
Context `{DpopLib}.

(** The bytes of a nonce for a count of seconds. *)
Definition nonce_bytes (secret : string) (z : Z) : string :=
  let head := String (byte_of nonceVersion) (PutUint64 z) in head +:+ hmac_sha256 secret head.

(** The checks of [verifyNonce] on the bytes, without the age. *)
Lemma nonce_shape secret raw :
  len raw = nonceLen ∧ String.get 0 raw = Some (byte_of nonceVersion)
  ∧ hmac_sha256 secret (String.substring 0 9 raw) = String.substring 9 32 raw
  ↔ raw = nonce_bytes secret (SetBytes (String.substring 1 8 raw)).
Proof.
  split.
  - intros (Hl & Hv & Hm). unfold len, nonceLen in Hl. assert (Hl' : String.length raw = 41%nat) by lia.
    destruct raw as [|v raw]; [done|]. simpl in Hv. injection Hv as ->. simpl in Hl'.
    unfold nonce_bytes. cbn zeta. change (String.substring 1 8 (String ?c raw)) with (String.substring 0 8 raw).
    pose proof (substring_split raw 8) as Hr. pose proof (substring_length raw 8 ltac:(lia)) as Hlen.
    assert (Hp : PutUint64 (SetBytes (String.substring 0 8 raw)) = String.substring 0 8 raw).
    { unfold PutUint64. rewrite <- (string_of_list_ascii_of_string (String.substring 0 8 raw)) at 1.
      replace 8%nat with (length (list_ascii_of_string (String.substring 0 8 raw))) at 1.
      - rewrite put_be_of. apply string_of_list_ascii_of_string.
      - rewrite <- Hlen at 2. clear. generalize (String.substring 0 8 raw) as s. intros s.
        induction s as [|c s IH]; simpl; [done|]. by rewrite IH. }
    rewrite Hp. change (String ?c (String.substring 0 8 raw)) with (String.substring 0 9 (String c raw)). rewrite Hm.
    change (String.substring 9 32 (String ?c raw)) with (String.substring 8 32 raw). simpl. f_equal.
    transitivity (String (byte_of nonceVersion) (String.substring 0 8 raw +:+ String.substring 8 32 raw)); [|done].
    f_equal. etrans; [symmetry; exact Hr|]. do 2 f_equal. lia.
  - intros ->. unfold nonce_bytes. cbn zeta. set (z := SetBytes _).
    set (head := String (byte_of nonceVersion) (PutUint64 z)). assert (Hh : String.length head = 9%nat) by done.
    split_and!.
    + unfold len. rewrite string_length_app, Hh, hmac_sha256_length. done.
    + done.
    + rewrite <- Hh, substring_app_l. rewrite Hh at 1. rewrite <- Hh. rewrite substring_app_r; [done|apply hmac_sha256_length].
Qed.
(** [verifyNonce], exactly. *)
Lemma verifyNonce_iff secret nonce ttl now clock :
  verifyNonce secret nonce ttl now clock = Ok tt
  ↔ nonce ≠ "" ∧ ∃ z, 0 <= z < 2 ^ 64 ∧ b64_decode nonce = Some (nonce_bytes secret z)
    ∧ let now := if IsZero now then clock else now in
      Sub now (time_unix (wrap64 z)) <= ttl ∧ Sub (time_unix (wrap64 z)) now <= ttl.
Proof.
  unfold verifyNonce. destruct (String.eqb_spec nonce ""); [naive_solver|].
  destruct (b64_decode nonce) as [raw|]; [|naive_solver]. cbn zeta. set (now' := if IsZero now then clock else now).
  assert (Hsh := nonce_shape secret raw).
  assert (Hbound : raw = nonce_bytes secret (SetBytes (String.substring 1 8 raw)) -> 0 <= SetBytes (String.substring 1 8 raw) < 2 ^ 64).
  { intros ->. unfold nonce_bytes. cbn zeta.
    change (String.substring 1 8 (String ?c (PutUint64 ?z) +:+ ?m)) with (String.substring 0 (String.length (PutUint64 z)) (PutUint64 z +:+ m)).
    rewrite substring_app_l. unfold PutUint64. rewrite put_be_value. apply Z.mod_pos_bound. done. }
  assert (Hz : ∀ z, 0 <= z < 2 ^ 64 -> raw = nonce_bytes secret z -> SetBytes (String.substring 1 8 raw) = z).
  { intros z Hz ->. unfold nonce_bytes. cbn zeta.
    change (String.substring 1 8 (String ?c (PutUint64 ?z) +:+ ?m)) with (String.substring 0 (String.length (PutUint64 z)) (PutUint64 z +:+ m)).
    rewrite substring_app_l. unfold PutUint64. rewrite put_be_value. by apply Z.mod_small. }
  destruct (Z.eqb_spec (len raw) nonceLen) as [Hl|Hl].
  2: { split; [done|]. intros (_ & z & Hzr & [= Hr] & _). destruct Hl. apply Hsh. by rewrite (Hz z Hzr Hr). }
  case_bool_decide as Hv.
  2: { split; [done|]. intros (_ & z & Hzr & [= Hr] & _). destruct Hv. apply Hsh. by rewrite (Hz z Hzr Hr). }
  destruct (String.eqb_spec (hmac_sha256 secret (String.substring 0 9 raw)) (String.substring 9 32 raw)) as [Hm|Hm].
  2: { split; [done|]. intros (_ & z & Hzr & [= Hr] & _). destruct Hm. apply Hsh. by rewrite (Hz z Hzr Hr). }
  cbn [negb orb]. assert (Hraw : raw = nonce_bytes secret (SetBytes (String.substring 1 8 raw))) by (by apply Hsh).
  split.
  - destruct (Z.ltb_spec ttl (Sub now' (time_unix (wrap64 (SetBytes (String.substring 1 8 raw)))))) as [|H1]; [done|].
    destruct (Z.ltb_spec ttl (Sub (time_unix (wrap64 (SetBytes (String.substring 1 8 raw)))) now')) as [|H2]; [done|].
    intros _. split; [done|]. exists (SetBytes (String.substring 1 8 raw)). split; [auto|]. split; [by f_equal|auto].
  - intros (_ & z & Hzr & [= Hr] & H1 & H2). rewrite (Hz z Hzr Hr).
    rewrite (proj2 (Z.ltb_ge _ _) H1), (proj2 (Z.ltb_ge _ _) H2). done.
Qed.

(** Nonces round trip and cannot be made without the secret. A nonce that the service issued is accepted
    at a later time exactly while its age, to the second, is within the time to live; and every accepted
    nonce carries the HMAC, under the service's secret, of the version and time it states, which lies
    within the time to live of now. *)
Theorem nonce_roundtrip secret t now ttl clock
  (Ht : t ≠ 0) (Hrange : 0 <= t < 2 ^ 62 * Second) (Hnow : now ≠ 0) :
  (verifyNonce secret (issueNonce secret t clock) ttl now clock = Ok tt
     ↔ Sub now (t / Second * Second) <= ttl ∧ Sub (t / Second * Second) now <= ttl)
  ∧ (∀ nonce, verifyNonce secret nonce ttl now clock = Ok tt ->
       ∃ z, b64_decode nonce = Some (nonce_bytes secret z)
         ∧ Sub now (time_unix (wrap64 z)) <= ttl ∧ Sub (time_unix (wrap64 z)) now <= ttl).
Proof.
  unfold IsZero. split.
  2: { intros nonce (_ & z & _ & Hd & Ha)%verifyNonce_iff. unfold IsZero in Ha. apply Z.eqb_neq in Hnow. rewrite Hnow in Ha. eauto. }
  assert (Hu : Unix t = t / Second - 62135596800).
  { unfold Unix, unix_epoch. replace (t - _) with (t + - 62135596800 * Second) by lia. rewrite Z.div_add by done. lia. }
  assert (Hq : 0 <= t / Second < 2 ^ 62) by (split; [apply Z.div_pos; [lia|done]|apply Z.div_lt_upper_bound; [done|lia]]).
  assert (Hi : issueNonce secret t clock = b64_encode (nonce_bytes secret (Unix t mod 2 ^ 64))).
  { unfold issueNonce, IsZero. by rewrite (proj2 (Z.eqb_neq _ _) Ht). }
  assert (Hw : time_unix (wrap64 (Unix t mod 2 ^ 64)) = t / Second * Second).
  { assert (Hwm : wrap64 (Unix t mod 2 ^ 64) = Unix t).
    { unfold wrap64. rewrite Zplus_mod_idemp_l. fold (wrap64 (Unix t)). apply wrap64_small.
      unfold in_int64, min_int64, max_int64. lia. }
    unfold time_unix. rewrite Hwm, Hu. rewrite wrap64_small by (unfold in_int64, min_int64, max_int64; lia). lia. }
  rewrite verifyNonce_iff, Hi, b64_decode_encode. unfold IsZero. rewrite (proj2 (Z.eqb_neq _ _) Hnow). cbn zeta. split.
  - intros (_ & z & Hz & Hb & Ha). apply (inj Some) in Hb. unfold nonce_bytes in Hb. cbn zeta in Hb.
    assert (Hsz : ∀ a m, String.substring 1 8 (String (byte_of nonceVersion) (PutUint64 a) +:+ m) = PutUint64 a).
    { intros a m. apply (substring_app_l (PutUint64 a) m). }
    apply (f_equal (String.substring 1 8)) in Hb. rewrite !Hsz in Hb. apply (f_equal SetBytes) in Hb.
    unfold PutUint64 in Hb. rewrite !put_be_value in Hb. change (256 ^ Z.of_nat 8) with (2 ^ 64) in Hb.
    rewrite Z.mod_mod, (Z.mod_small z) in Hb by lia. rewrite <- Hb, Hw in Ha. done.
  - intros Ha. split.
    { intros He. assert (Hd := b64_decode_encode (nonce_bytes secret (Unix t mod 2 ^ 64))). rewrite He, b64_decode_empty in Hd. done. }
    exists (Unix t mod 2 ^ 64). split; [by apply Z.mod_pos_bound|]. split; [done|]. by rewrite Hw.
Qed.
End Nonce.

(** ** Thumbprints *)

(** The members of a key that its type has. *)
Definition key_members (jwk : JWK) : list string :=
  if (jwk_kty jwk =? "EC")%string then ["EC"; jwk_crv jwk; jwk_x jwk; jwk_y jwk]
  else if (jwk_kty jwk =? "RSA")%string then ["RSA"; jwk_e jwk; jwk_n jwk]
  else if (jwk_kty jwk =? "OKP")%string then ["OKP"; jwk_crv jwk; jwk_x jwk] else [].

Section Binding.
Context `{DpopLib} {R : Type} `{ReplayCache R}.
Implicit Types s : Service R.

Lemma app_inj (a s t : string) : a +:+ s = a +:+ t -> s = t.
Proof. induction a as [|c a IH]; [done|]. intros He. apply IH. by injection He. Qed.

Ltac strip_quotes :=
  repeat match goal with
  | H : Quote _ +:+ _ = Quote _ +:+ _ |- _ => apply Quote_prefix in H as [? H]
  | H : ?a +:+ _ = ?a +:+ _ |- _ => apply app_inj in H
  end.

Lemma canonical_jwk_inj a b c : canonical_jwk a = Some c -> canonical_jwk b = Some c -> key_members a = key_members b.
Proof.
  unfold canonical_jwk, key_members. intros Ha Hb.
  repeat (case_match; try discriminate Ha; try discriminate Hb);
    apply (inj Some) in Ha; rewrite <- Ha in Hb; apply (inj Some) in Hb; clear Ha;
    strip_quotes; first [discriminate Hb | congruence].
Qed.

(** Sender constraint. When a proof is accepted for a token bound to the thumbprint of a key, the key in
    the proof, under which its signature was verified, is that key: both have the same type and members,
    unless their two canonical encodings are a SHA-256 collision. *)
Theorem proof_binds_token_key s jwt p jkt clock jti_clock s' pr bound
  (Hwin : sane_window s)
  (Hok : VerifyAgainstConfirmation s jwt p jkt clock jti_clock = (s', Ok pr))
  (Hjkt : Thumbprint (Some bound) = Ok jkt) :
  ∃ jwk sig input c c', ph_jwk (pr_header pr) = Some jwk
    ∧ verifySignature (ph_alg (pr_header pr)) (Some jwk) input sig = Ok tt
    ∧ canonical_jwk jwk = Some c ∧ canonical_jwk bound = Some c'
    ∧ (key_members jwk = key_members bound ∨ c ≠ c' ∧ sha256 c = sha256 c').
Proof.
  unfold VerifyAgainstConfirmation, Verify in Hok.
  destruct (static_checks s jwt p clock) as [[[hdr claims] iat]|] eqn:Es; [|done].
  apply static_checks_iff in Es as [_ (sig & input & _ & [_ _ Hsig _ _ _ _ _ _])]; [|done].
  destruct (checkJTI _ _ _ _) as [s1 [[]|]]; [|done..].
  destruct (bind_checks p hdr claims) as [pr'|] eqn:Eb; [|done].
  destruct (String.eqb_spec jkt ""); [done|]. destruct (String.eqb_spec (pr_thumbprint pr') jkt) as [Ht|]; [|done].
  injection Hok as _ <-. unfold bind_checks in Eb. destruct (if (vp_access_token p =? "")%string then _ else _); [|done].
  unfold Thumbprint in *. destruct (ph_jwk hdr) as [jwk|] eqn:Ej; [|done]. simpl in Eb, Hjkt.
  destruct (canonical_jwk jwk) as [c|] eqn:Ec; [|done]. destruct (canonical_jwk bound) as [c'|] eqn:Ec'; [|done].
  injection Eb as <-. injection Hjkt as <-. simpl in *.
  exists jwk, sig, input, c, c'. split_and!; try done.
  destruct (decide (c = c')) as [->|Hne]; [left; by eapply canonical_jwk_inj|right]. split; [done|].
  apply (f_equal b64_decode) in Ht. rewrite !b64_decode_encode in Ht. congruence.
Qed.
End Binding.

(** ** Concrete runs

    A library with base64 and SHA-256 as the identity, in which every Ed25519 signature is valid, the header
    [H] has an Ed25519 key, the header [E] an ECDSA key with a long coordinate, and the claims [C] were issued
    at the Unix time 1700000000. *)

Fixpoint frame (s : string) : string :=
  match s with "" => "0" | String c s' => String "1" (String c (frame s')) end.

Lemma frame_prefix a b s t : frame a +:+ s = frame b +:+ t -> a = b ∧ s = t.
Proof.
  revert b. induction a as [|c a IH]; intros [|d b] He; injection He; [done..|].
  intros Hr ->. apply IH in Hr as [-> ->]. done.
Qed.

Definition toy_x : string := "0123456789abcdef0123456789abcdef".
Definition toy_jwk : JWK := mkJWK "OKP" "Ed25519" toy_x "" "" "" "" "" "".
Definition long_jwk : JWK := mkJWK "EC" "P-256" (toy_x +:+ "ab") toy_x "" "" "" "" "".
Definition toy_claims : ProofClaims := mkClaims "id-1" "POST" "/token" 1700000000 "" "".

#[local] Instance toy_lib : DpopLib := {|
  b64_encode s := s; b64_decode s := Some s;
  decode_header s := if (s =? "H")%string then Some (mkHeader ProofTyp AlgEdDSA (Some toy_jwk))
                     else if (s =? "E")%string then Some (mkHeader ProofTyp AlgES256 (Some long_jwk)) else None;
  decode_claims s := if (s =? "C")%string then Some toy_claims else None;
  url_parse s := Some (mkURL "https" "as.example" s);
  EqualFold s t := (fold_ascii s =? fold_ascii t)%string; ToLower := fold_ascii; TrimSpace s := s; Quote := frame;
  sha256 s := s; sha384 s := s; hmac_sha256 _ _ := toy_x;
  on_curve _ _ := true; ecdsa_verify _ _ _ _ _ _ := true; rsa_pkcs1v15 _ _ _ _ := true; rsa_pss _ _ _ _ := true;
  ed25519_verify _ _ _ := true;
  b64_decode_encode s := eq_refl; b64_decode_empty := eq_refl; hmac_sha256_length k m := eq_refl;
  EqualFold_ascii s t _ _ := eq_refl; Quote_prefix := frame_prefix |}.

Definition toy_config : Config Memory := mkConfig [] 0 (60 * Second) 0 false [] "secret" None 0.
Definition toy_service : Service Memory :=
  mkService (list_to_set DefaultAllowedAlgs) (60 * Second) (60 * Second) (10 * Minute) false ∅ "secret" None 4096 [] ∅ 0.

(** A request [n] seconds after the proof was issued, and the same call a second time. *)
Definition toy_at (n : Z) : Z := FromUnix (1700000000 + n).
Definition toy_params (n : Z) : VerifyParams := mkParams "post" "/token" "" (toy_at n) false.
Definition toy_call (n : Z) : call := mkCall "H.C.S" (toy_params n) 0 (toy_at n).

Lemma jti_memory_well_formed_witness :
  Z.of_nat (length (sv_list (verify_run toy_service [toy_call 3; toy_call 4]))) <= 4096.
Proof. exact (proj2 (proj2 (jti_memory_well_formed toy_config None toy_service [toy_call 3; toy_call 4] eq_refl))). Defined.

Lemma proof_accepted_once_witness :
  (verify_call (verify_call toy_service (toy_call 3)).1 (toy_call 5)).2 = Err ErrReplay.
Proof.
  pose proof (proof_accepted_once toy_config None toy_service [] (toy_call 3)
    (mkProof (mkHeader ProofTyp AlgEdDSA (Some toy_jwk)) toy_claims (default "" (canonical_jwk toy_jwk)))
    (verify_call toy_service (toy_call 3)).1 [] (toy_call 5) (mkHeader ProofTyp AlgEdDSA (Some toy_jwk)) toy_claims
    (toy_at 0)) as Hw.
  unfold verify_run in Hw. cbn [fold_left] in Hw. rewrite Hw; [reflexivity|reflexivity|reflexivity|vm_compute; reflexivity
    |vm_compute; reflexivity|vm_compute; reflexivity| |].
  - repeat constructor.
  - eexists. vm_compute. reflexivity.
Defined.

Lemma Verify_accepts_iff_witness :
  pc_jti (pr_claims (mkProof (mkHeader ProofTyp AlgEdDSA (Some toy_jwk)) toy_claims (default "" (canonical_jwk toy_jwk)))) ≠ "".
Proof.
  destruct (proj1 (Verify_accepts_iff toy_service "H.C.S" (toy_params 3) 0 (toy_at 3)
    (mkProof (mkHeader ProofTyp AlgEdDSA (Some toy_jwk)) toy_claims (default "" (canonical_jwk toy_jwk)))
    eq_refl ltac:(unfold sane_window; vm_compute; split; [discriminate|reflexivity])) ltac:(vm_compute; reflexivity))
    as (hdr & claims & sig & input & jwk & c & _ & Hacc & _ & _ & _ & _ & He).
  rewrite He. exact (ac_jti _ _ _ _ _ _ _ Hacc).
Defined.

(** Seventy and eighty seconds after its issue, the same proof is accepted twice. *)
Lemma skew_replay_witness :
  let first := Verify toy_service "H.C.S" (toy_params 70) 0 (toy_at 70) in
  is_ok first.2 = true ∧ (Verify first.1 "H.C.S" (toy_params 80) 0 (toy_at 80)).2 = first.2.
Proof.
  intros first. split; [vm_compute; reflexivity|].
  assert (Hf : first.2 = Ok (mkProof (mkHeader ProofTyp AlgEdDSA (Some toy_jwk)) toy_claims (default "" (canonical_jwk toy_jwk))))
    by (vm_compute; reflexivity).
  rewrite Hf.
  apply (skew_replay toy_service "H.C.S" (toy_params 70) 0 (toy_at 70) first.1 _ (toy_params 80) 0 (toy_at 80)
    (mkHeader ProofTyp AlgEdDSA (Some toy_jwk)) toy_claims (toy_at 0) eq_refl).
  - rewrite <- Hf. apply surjective_pairing.
  - vm_compute. reflexivity.
  - vm_compute. discriminate.
  - reflexivity.
Defined.

(** A proof issued in the year 2400 is accepted in 2023. *)
Example far_future_accepted :
  let far := (1700000000 + 376 * 31557600) in
  (wrap64 (sv_max_age toy_service + sv_skew toy_service) <? abs (Sub (toy_at 0) (time_unix far))) = false.
Proof. vm_compute. reflexivity. Qed.

Example long_coordinate_panics :
  (Verify toy_service "E.C.S" (toy_params 3) 0 (toy_at 3)).2 = Err DPanic.
Proof. vm_compute. reflexivity. Qed.

Lemma nonce_roundtrip_witness :
  verifyNonce "secret" (issueNonce "secret" (toy_at 0) 0) (10 * Minute) (toy_at 30) 0 = Ok tt.
Proof.
  apply (proj1 (nonce_roundtrip "secret" (toy_at 0) (toy_at 30) (10 * Minute) 0 ltac:(vm_compute; discriminate)
    ltac:(vm_compute; split; [discriminate|reflexivity]) ltac:(vm_compute; discriminate))).
  vm_compute. split; discriminate.
Defined.

Lemma proof_binds_token_key_witness :
  ∃ jwk sig input c c', Some toy_jwk = Some jwk
    ∧ verifySignature AlgEdDSA (Some jwk) input sig = Ok tt
    ∧ canonical_jwk jwk = Some c ∧ canonical_jwk toy_jwk = Some c'
    ∧ (key_members jwk = key_members toy_jwk ∨ c ≠ c' ∧ sha256 c = sha256 c').
Proof.
  set (r := VerifyAgainstConfirmation toy_service "H.C.S" (toy_params 3) (default "" (canonical_jwk toy_jwk)) 0 (toy_at 3)).
  apply (proof_binds_token_key toy_service "H.C.S" (toy_params 3) (default "" (canonical_jwk toy_jwk)) 0 (toy_at 3) r.1
    (mkProof (mkHeader ProofTyp AlgEdDSA (Some toy_jwk)) toy_claims (default "" (canonical_jwk toy_jwk))) toy_jwk).
  - unfold sane_window. vm_compute. split; [discriminate|reflexivity].
  - assert (r.2 = Ok (mkProof (mkHeader ProofTyp AlgEdDSA (Some toy_jwk)) toy_claims (default "" (canonical_jwk toy_jwk)))) as <-
      by (vm_compute; reflexivity). apply surjective_pairing.
  - vm_compute. reflexivity.
Defined.
