(* ===== verification/McpDpop.v ===== *)
(** * DPoP at the resource server ([mcpresource/dpop.go])

    The resource server has a verifier of its own: the checks are those of [Dpop], without nonces, with the
    hash of the access token always required and with the key compared with the token's. The memory of
    identifiers is a map and a slice. The primitives are those of [DpopLib]; the two decoders are [McpDpopLib]. *)

From Stdlib Require Import ZArith Lia String Ascii.
From stdpp Require Import base gmap strings list.
From S2P Require Import Prelude Canonical GoJSON KV Dpop.

Set Default Goal Selector "!".
Open Scope string_scope.
Open Scope list_scope.
Open Scope Z_scope.

(** ** Data *)

Definition dpopProofTyp : string := "dpop+jwt".
Definition defaultDPoPAlgs : list string := ["ES256"; "ES384"; "RS256"; "PS256"; "EdDSA"].

Record dpopJWK := mkDJWK {
  dk_kty : string; dk_crv : string; dk_x : string; dk_y : string; dk_n : string; dk_e : string;
}.
Record dpopHeader := mkDHeader { dh_typ : string; dh_alg : string; dh_jwk : option dpopJWK }.
Record dpopClaims := mkDClaims {
  dc_jti : string; dc_htm : string; dc_htu : string; dc_iat : Z; dc_ath : string; dc_nonce : string;
}.

Record dpopVerifier := mkVerifier {
  dv_algs : gset string; dv_max_age : Z; dv_cap : Z; dv_seen : gmap string Z; dv_order : list string; dv_skew : Z;
}.

Record dpopVerifyParams := mkDParams {
  dp_method : string; dp_url : string; dp_token : string; dp_jkt : string; dp_now : Z;
}.

Inductive mdpop_error :=
  | errDPoPMalformed | errDPoPSignature | errDPoPMethodMismatch | errDPoPURIMismatch | errDPoPATHRequired
  | errDPoPATHMismatch | errDPoPProofExpired | errDPoPReplay | errDPoPJKTMismatch | errDPoPMissingHeader
  | errRequestURL | MPanic.

Class McpDpopLib := {
  decode_dpop_header : string -> option dpopHeader;
  decode_dpop_claims : string -> option dpopClaims;
}.

Definition newDPoPVerifier (algs : list string) (maxAge skew jtiCap : Z) : dpopVerifier :=
  mkVerifier (list_to_set (match algs with [] => defaultDPoPAlgs | l => l end))
    (if maxAge <=? 0 then 60 * Second else maxAge) (if jtiCap <=? 0 then 4096 else jtiCap) ∅ [] skew.

(** ** The memory of identifiers *)

Fixpoint order_sweep (now : Z) (order : list string) (seen : gmap string Z) : list string * gmap string Z :=
  match order with
  | [] => ([], seen)
  | head :: rest =>
      if match seen !! head with Some exp => Before now exp | None => false end then (order, seen)
      else order_sweep now rest (delete head seen)
  end.

Fixpoint order_trim (cap : Z) (order : list string) (seen : gmap string Z) : list string * gmap string Z :=
  match order with
  | [] => ([], seen)
  | head :: rest => if cap <=? Z.of_nat (length order) then order_trim cap rest (delete head seen) else (order, seen)
  end.

Definition with_order (v : dpopVerifier) (order : list string) (seen : gmap string Z) : dpopVerifier :=
  mkVerifier (dv_algs v) (dv_max_age v) (dv_cap v) seen order (dv_skew v).

Definition mcp_rememberJTI (v : dpopVerifier) (now : Z) (jti : string) (expiresAt : Z) : dpopVerifier * bool :=
  if match dv_seen v !! jti with Some exp => Before now exp | None => false end then (v, false)
  else
    let '(order, seen) := order_sweep now (dv_order v) (dv_seen v) in
    let '(order, seen) := order_trim (dv_cap v) order seen in
    (with_order v (order ++ [jti]) (<[jti := expiresAt]> seen), true).

(** ** Keys and signatures *)

Section McpDpop.
Context `{DpopLib} `{McpDpopLib}.

Definition dpopAccessTokenHash (token : string) : string := b64_encode (sha256 token).

Definition dpop_canonical (jwk : dpopJWK) : option string :=
  if (dk_kty jwk =? "EC")%string then
    Some ("{" +:+ member "crv" +:+ Quote (dk_crv jwk) +:+ "," +:+ member "kty" +:+ dquote +:+ "EC" +:+ dquote
          +:+ "," +:+ member "x" +:+ Quote (dk_x jwk) +:+ "," +:+ member "y" +:+ Quote (dk_y jwk) +:+ "}")
  else if (dk_kty jwk =? "RSA")%string then
    Some ("{" +:+ member "e" +:+ Quote (dk_e jwk) +:+ "," +:+ member "kty" +:+ dquote +:+ "RSA" +:+ dquote
          +:+ "," +:+ member "n" +:+ Quote (dk_n jwk) +:+ "}")
  else if (dk_kty jwk =? "OKP")%string then
    Some ("{" +:+ member "crv" +:+ Quote (dk_crv jwk) +:+ "," +:+ member "kty" +:+ dquote +:+ "OKP" +:+ dquote
          +:+ "," +:+ member "x" +:+ Quote (dk_x jwk) +:+ "}")
  else None.

Definition dpopThumbprint (jwk : option dpopJWK) : result mdpop_error string :=
  match jwk ≫= dpop_canonical with
  | None => Err errDPoPMalformed
  | Some canonical => Ok (b64_encode (sha256 canonical))
  end.

Definition dpopVerifyECDSA (jwk : dpopJWK) (signingInput sig : string) (curve : Curve) (h : string -> string) : result mdpop_error unit :=
  if negb (dk_kty jwk =? "EC")%string then Err errDPoPMalformed
  else match b64_decode (dk_x jwk) with
  | None => Err errDPoPMalformed
  | Some xBytes =>
      match b64_decode (dk_y jwk) with
      | None => Err errDPoPMalformed
      | Some yBytes =>
          let byteSize := (BitSize curve + 7) / 8 in
          match uncompressed byteSize xBytes yBytes with
          | None => Err MPanic
          | Some point =>
              if negb (on_curve curve point) then Err errDPoPMalformed
              else if negb (len sig =? 2 * byteSize) then Err errDPoPSignature
              else
                let r := SetBytes (String.substring 0 (Z.to_nat byteSize) sig) in
                let sVal := SetBytes (String.substring (Z.to_nat byteSize) (Z.to_nat byteSize) sig) in
                if negb (ecdsa_verify curve (SetBytes xBytes) (SetBytes yBytes) (h signingInput) r sVal)
                then Err errDPoPSignature else Ok tt
          end
      end
  end.

Definition dpopVerifyRSA (jwk : dpopJWK) (signingInput sig : string) (pss : bool) : result mdpop_error unit :=
  if negb (dk_kty jwk =? "RSA")%string then Err errDPoPMalformed
  else match b64_decode (dk_n jwk) with
  | None => Err errDPoPMalformed
  | Some nBytes =>
      match b64_decode (dk_e jwk) with
      | None => Err errDPoPMalformed
      | Some eBytes =>
          if len nBytes * 8 <? 2048 then Err errDPoPMalformed
          else
            let e := wrap64 (SetBytes eBytes) in
            if e <=? 0 then Err errDPoPMalformed
            else if (if pss then rsa_pss else rsa_pkcs1v15) (SetBytes nBytes) e (sha256 signingInput) sig
            then Ok tt else Err errDPoPSignature
      end
  end.

Definition dpopVerifyEdDSA (jwk : dpopJWK) (signingInput sig : string) : result mdpop_error unit :=
  if negb (dk_kty jwk =? "OKP")%string || negb (dk_crv jwk =? "Ed25519")%string then Err errDPoPMalformed
  else match b64_decode (dk_x jwk) with
  | None => Err errDPoPMalformed
  | Some xBytes =>
      if negb (len xBytes =? 32) then Err errDPoPMalformed
      else if negb (ed25519_verify xBytes signingInput sig) then Err errDPoPSignature
      else Ok tt
  end.

Definition dpopVerifySig (alg : string) (jwk : option dpopJWK) (signingInput sig : string) : result mdpop_error unit :=
  match jwk with
  | None => Err errDPoPMalformed
  | Some jwk =>
      if (alg =? "ES256")%string then dpopVerifyECDSA jwk signingInput sig P256 sha256
      else if (alg =? "ES384")%string then dpopVerifyECDSA jwk signingInput sig P384 sha384
      else if (alg =? "RS256")%string then dpopVerifyRSA jwk signingInput sig false
      else if (alg =? "PS256")%string then dpopVerifyRSA jwk signingInput sig true
      else if (alg =? "EdDSA")%string then dpopVerifyEdDSA jwk signingInput sig
      else Err errDPoPMalformed
  end.

Definition canonicalDPoPURI (rawURL : string) : option string :=
  match url_parse rawURL with
  | None => None
  | Some u =>
      if (u_scheme u =? "")%string || (u_host u =? "")%string then None
      else
        let host := if EqualFold (u_scheme u) "http" && HasSuffix (u_host u) ":80" then TrimSuffix (u_host u) ":80"
                    else if EqualFold (u_scheme u) "https" && HasSuffix (u_host u) ":443"
                    then TrimSuffix (u_host u) ":443" else u_host u in
        let path := if (u_path u =? "")%string then "/" else u_path u in
        Some (ToLower (u_scheme u) +:+ "://" +:+ host +:+ path)
  end.

(** ** Verification *)

(** [delta := now.Sub(iat)], made positive; the negation wraps. *)
Definition proof_delta (now iat : Z) : Z := let d := Sub now iat in if d <? 0 then wrap64 (- d) else d.

(** The three decoded parts with the signed text. *)
Definition parse_dpop (proofJWT : string) : result mdpop_error (dpopHeader * dpopClaims * string * string) :=
  match split_dots "" proofJWT with
  | [p0; p1; p2] =>
      match b64_decode p0, b64_decode p1, b64_decode p2 with
      | Some headerBytes, Some payloadBytes, Some sig =>
          match decode_dpop_header headerBytes, decode_dpop_claims payloadBytes with
          | Some hdr, Some claims => Ok (hdr, claims, sig, p0 +:+ "." +:+ p1)
          | _, _ => Err errDPoPMalformed
          end
      | _, _, _ => Err errDPoPMalformed
      end
  | _ => Err errDPoPMalformed
  end.

(** Every check before the memory of identifiers; the result is the header, the claims and the issue time. *)
Definition bind_static (v : dpopVerifier) (proofJWT : string) (p : dpopVerifyParams) (clock : Z)
  : result mdpop_error (dpopHeader * dpopClaims * Z) :=
  let? (hdr, claims, sig, signingInput) := parse_dpop proofJWT in
  if negb (dh_typ hdr =? dpopProofTyp)%string then Err errDPoPMalformed
  else if negb (bool_decide (dh_alg hdr ∈ dv_algs v)) then Err errDPoPMalformed
  else
  let? _ := dpopVerifySig (dh_alg hdr) (dh_jwk hdr) signingInput sig in
  if negb (EqualFold (dc_htm claims) (dp_method p)) then Err errDPoPMethodMismatch
  else match canonicalDPoPURI (dp_url p) with
  | None => Err errRequestURL
  | Some wantURI =>
      match canonicalDPoPURI (dc_htu claims) with
      | None => Err errDPoPURIMismatch
      | Some gotURI =>
          if negb (gotURI =? wantURI)%string then Err errDPoPURIMismatch
          else
            let now := if IsZero (dp_now p) then clock else dp_now p in
            if dc_iat claims =? 0 then Err errDPoPProofExpired
            else
              let iat := time_unix (dc_iat claims) in
              if wrap64 (dv_max_age v + dv_skew v) <? proof_delta now iat then Err errDPoPProofExpired
              else if (dc_jti claims =? "")%string then Err errDPoPMalformed
              else Ok (hdr, claims, iat)
      end
  end.

(** The checks after it. *)
Definition bind_after (p : dpopVerifyParams) (hdr : dpopHeader) (claims : dpopClaims) : result mdpop_error string :=
  if (dc_ath claims =? "")%string then Err errDPoPATHRequired
  else if negb (dc_ath claims =? dpopAccessTokenHash (dp_token p))%string then Err errDPoPATHMismatch
  else
  let? thumb := dpopThumbprint (dh_jwk hdr) in
  if negb (dp_jkt p =? "")%string && negb (thumb =? dp_jkt p)%string then Err errDPoPJKTMismatch else Ok thumb.

Definition verifyAndBind (v : dpopVerifier) (proofJWT : string) (p : dpopVerifyParams) (clock jti_clock : Z)
  : dpopVerifier * result mdpop_error string :=
  match bind_static v proofJWT p clock with
  | Err e => (v, Err e)
  | Ok (hdr, claims, iat) =>
      match mcp_rememberJTI v jti_clock (dc_jti claims) (iat + dv_max_age v) with
      | (v, false) => (v, Err errDPoPReplay)
      | (v, true) => (v, bind_after p hdr claims)
      end
  end.

(** ** Theorems *)

Lemma mcp_rememberJTI_config v now j x :
  ∃ order seen, (mcp_rememberJTI v now j x).1 = with_order v order seen.
Proof.
  unfold mcp_rememberJTI. destruct (match dv_seen v !! j with Some _ => _ | None => _ end); simpl.
  - exists (dv_order v), (dv_seen v). by destruct v.
  - destruct (order_sweep _ _ _) as [o m]. destruct (order_trim _ o m) as [o' m']. by eexists _, _.
Qed.

Lemma bind_static_config v order seen proofJWT p clock :
  bind_static (with_order v order seen) proofJWT p clock = bind_static v proofJWT p clock.
Proof. done. Qed.

(** The claims and the issue time do not depend on the request. *)
Lemma bind_static_det v jwt p p' c c' hdr hdr' claims claims' iat iat' :
  bind_static v jwt p c = Ok (hdr, claims, iat) -> bind_static v jwt p' c' = Ok (hdr', claims', iat') ->
  hdr' = hdr ∧ claims' = claims ∧ iat' = iat.
Proof.
  unfold bind_static. destruct (parse_dpop jwt) as [[[[h cl] sig] input]|]; [|done].
  intros H1 H2. repeat (case_match; try done; simplify_eq).
Qed.

Lemma mcp_remember_expired v now j x v' now' x' :
  mcp_rememberJTI v now j x = (v', true) -> x <= now' -> (mcp_rememberJTI v' now' j x').2 = true.
Proof.
  unfold mcp_rememberJTI. destruct (match dv_seen v !! j with Some _ => _ | None => _ end); [done|].
  destruct (order_sweep now _ _) as [o m]. destruct (order_trim _ o m) as [o' m']. intros [= <-] Hx.
  simpl. rewrite lookup_insert_eq. unfold Before. rewrite (proj2 (Z.ltb_ge now' x) Hx).
  destruct (order_sweep now' _ _) as [o2 m2]. by destruct (order_trim _ o2 m2).
Qed.

(** A proof is replayed at the resource server. The identifier of an accepted proof is remembered until
    its issue time plus the maximal age; the proof stays acceptable for the clock skew longer, and in that
    time it is accepted again, for the same token. A verifier built by default has a skew of sixty seconds,
    so every proof can be replayed in its second minute. *)
Theorem resource_proof_replayed v jwt p clock jti_clock v1 thumb p' clock' jti_clock' hdr claims iat
  (Hfirst : verifyAndBind v jwt p clock jti_clock = (v1, Ok thumb))
  (Hacceptable : bind_static v jwt p' clock' = Ok (hdr, claims, iat))
  (Hlate : iat + dv_max_age v <= jti_clock')
  (Htoken : dp_token p' = dp_token p) (Hjkt : dp_jkt p' = dp_jkt p) :
  (verifyAndBind v1 jwt p' clock' jti_clock').2 = Ok thumb.
Proof.
  unfold verifyAndBind in *. destruct (bind_static v jwt p clock) as [[[hdr0 claims0] iat0]|] eqn:E0; [|done].
  destruct (bind_static_det _ _ _ _ _ _ _ _ _ _ _ _ E0 Hacceptable) as (<- & <- & <-).
  destruct (mcp_rememberJTI v _ _ _) as [v' []] eqn:Er; [|done]. injection Hfirst as <- Hb.
  destruct (mcp_rememberJTI_config v jti_clock (dc_jti claims) (iat + dv_max_age v)) as (o & m & Hc).
  rewrite Er in Hc. cbn [fst] in Hc. pose proof (mcp_remember_expired _ _ _ _ _ jti_clock' (iat + dv_max_age v) Er Hlate) as Hf.
  rewrite Hc in *. rewrite bind_static_config, Hacceptable. change (dv_max_age (with_order v o m)) with (dv_max_age v).
  destruct (mcp_rememberJTI (with_order v o m) _ _ _) as [v2 []]; [|done]. cbn [snd].
  unfold bind_after in *. by rewrite Htoken, Hjkt.
Qed.

(** What [verifyAndBind] establishes. *)
Lemma verifyAndBind_ok v jwt p clock jti_clock v' thumb :
  verifyAndBind v jwt p clock jti_clock = (v', Ok thumb) ->
  ∃ hdr claims sig input jwk canonical, parse_dpop jwt = Ok (hdr, claims, sig, input)
    ∧ dh_alg hdr ∈ dv_algs v ∧ dh_jwk hdr = Some jwk
    ∧ dpopVerifySig (dh_alg hdr) (Some jwk) input sig = Ok tt
    ∧ EqualFold (dc_htm claims) (dp_method p) = true
    ∧ (∃ uri, canonicalDPoPURI (dp_url p) = Some uri ∧ canonicalDPoPURI (dc_htu claims) = Some uri)
    ∧ dc_ath claims = dpopAccessTokenHash (dp_token p)
    ∧ dpop_canonical jwk = Some canonical ∧ thumb = b64_encode (sha256 canonical)
    ∧ (dp_jkt p ≠ "" -> thumb = dp_jkt p).
Proof.
  unfold verifyAndBind, bind_static. destruct (parse_dpop jwt) as [[[[hdr claims] sig] input]|] eqn:Ep; [|done].
  destruct (String.eqb_spec (dh_typ hdr) dpopProofTyp); [|done]. case_bool_decide; [|done]. cbn [negb].
  destruct (dpopVerifySig _ _ _ _) as [[]|] eqn:Es; [|done]. destruct (EqualFold _ _) eqn:Em; [|done]. cbn [negb].
  destruct (canonicalDPoPURI (dp_url p)) as [want|] eqn:Eu; [|done].
  destruct (canonicalDPoPURI (dc_htu claims)) as [got|] eqn:Eg; [|done].
  destruct (String.eqb_spec got want) as [->|]; [|done]. cbn [negb].
  destruct (dc_iat claims =? 0); [done|]. destruct (_ <? _); [done|]. destruct (dc_jti claims =? "")%string; [done|].
  destruct (mcp_rememberJTI _ _ _ _) as [v1 []]; [|done]. unfold bind_after, dpopThumbprint.
  destruct (String.eqb_spec (dc_ath claims) ""); [done|].
  destruct (String.eqb_spec (dc_ath claims) (dpopAccessTokenHash (dp_token p))); [|done]. cbn [negb].
  destruct (dh_jwk hdr) as [jwk|] eqn:Ej; [|done]. simpl. destruct (dpop_canonical jwk) as [can|] eqn:Ec; [|done].
  destruct (String.eqb_spec (dp_jkt p) "") as [Hj|Hj]; cbn [negb andb].
  - intros [= _ <-]. exists hdr, claims, sig, input, jwk, can. split_and!; try done. eauto.
  - destruct (String.eqb_spec (b64_encode (sha256 can)) (dp_jkt p)); [|done]. intros [= _ <-].
    exists hdr, claims, sig, input, jwk, can. split_and!; try done. eauto.
Qed.

(** Both sides compute the same thumbprint for a key they both accept. *)
Lemma thumbprints_agree (jwk : JWK) c :
  canonical_jwk jwk = Some c ->
  dpop_canonical (mkDJWK (jwk_kty jwk) (jwk_crv jwk) (jwk_x jwk) (jwk_y jwk) (jwk_n jwk) (jwk_e jwk)) = Some c.
Proof. unfold canonical_jwk, dpop_canonical. simpl. by repeat case_match. Qed.
End McpDpop.

(** ** A concrete replay *)

#[local] Instance mcp_toy_lib : McpDpopLib := {|
  decode_dpop_header s := if (s =? "H")%string then Some (mkDHeader dpopProofTyp "EdDSA" (Some (mkDJWK "OKP" "Ed25519" toy_x "" "" ""))) else None;
  decode_dpop_claims s := if (s =? "C")%string then Some (mkDClaims "id-1" "GET" "/mcp" 1700000000 "token" "") else None |}.

#[local] Existing Instance toy_lib.

Definition default_verifier : dpopVerifier := newDPoPVerifier [] 0 (60 * Second) 0.
Definition mcp_params (n : Z) : dpopVerifyParams := mkDParams "GET" "/mcp" "token" "" (toy_at n).

(** With the default configuration, a proof is accepted 30 seconds after its issue, and again at 61. *)
Lemma resource_proof_replayed_witness :
  let first := verifyAndBind default_verifier "H.C.S" (mcp_params 30) 0 (toy_at 30) in
  is_ok first.2 = true ∧ (verifyAndBind first.1 "H.C.S" (mcp_params 61) 0 (toy_at 61)).2 = first.2.
Proof.
  intros first. split; [vm_compute; reflexivity|]. destruct first as [v1 [thumb|]] eqn:E; [|exfalso; revert E; vm_compute; discriminate].
  cbn [fst snd]. apply (resource_proof_replayed default_verifier "H.C.S" (mcp_params 30) 0 (toy_at 30) v1 thumb (mcp_params 61) 0
    (toy_at 61) (mkDHeader dpopProofTyp "EdDSA" (Some (mkDJWK "OKP" "Ed25519" toy_x "" "" "")))
    (mkDClaims "id-1" "GET" "/mcp" 1700000000 "token" "") (toy_at 0) E).
  - vm_compute. reflexivity.
  - vm_compute. discriminate.
  - reflexivity.
  - reflexivity.
Defined.
