(* ===== verification/ToolApprovals.v ===== *)
(** * Approvals of agent tool calls ([tool_approvals.go], [storage/memory/memory_toolapprovals.go],
      [approvals/approvals.go])

    The approval requests of the in-memory storage backend (open, approve, deny, consume, list) and
    the HTTP inbox where administrators decide them. Each store call is one atomic step, as the
    store's mutex makes it; the state machine is explored over arbitrary sequences of calls. *)

From Stdlib Require Import ZArith Lia String Ascii.
From stdpp Require Import base gmap strings list sorting.
From S2P Require Import Prelude.

Set Default Goal Selector "!".
Open Scope string_scope.
Open Scope list_scope.
Open Scope Z_scope.

(** ** Data ([tool_approvals.go]); an unset time is the zero time *)

Record ToolApproval := mkToolApproval {
  ta_id : string; ta_agent_id : string; ta_action : string; ta_resource : string;
  ta_requirement : string; ta_tier : string; ta_reason : string; ta_approver : string;
  ta_opened_by : string; ta_denied_by : string; ta_created_at : Z; ta_expires_at : Z;
  ta_approved_at : Z; ta_consumed_at : Z; ta_denied_at : Z;
}.

Definition set_approved (a : ToolApproval) (now : Z) (by_ : string) : ToolApproval :=
  mkToolApproval (ta_id a) (ta_agent_id a) (ta_action a) (ta_resource a) (ta_requirement a)
    (ta_tier a) (ta_reason a) by_ (ta_opened_by a) (ta_denied_by a) (ta_created_at a)
    (ta_expires_at a) now (ta_consumed_at a) (ta_denied_at a).

Definition set_consumed (a : ToolApproval) (now : Z) : ToolApproval :=
  mkToolApproval (ta_id a) (ta_agent_id a) (ta_action a) (ta_resource a) (ta_requirement a)
    (ta_tier a) (ta_reason a) (ta_approver a) (ta_opened_by a) (ta_denied_by a) (ta_created_at a)
    (ta_expires_at a) (ta_approved_at a) now (ta_denied_at a).

Definition set_denied (a : ToolApproval) (now : Z) (by_ : string) : ToolApproval :=
  mkToolApproval (ta_id a) (ta_agent_id a) (ta_action a) (ta_resource a) (ta_requirement a)
    (ta_tier a) (ta_reason a) (ta_approver a) (ta_opened_by a) by_ (ta_created_at a)
    (ta_expires_at a) (ta_approved_at a) (ta_consumed_at a) now.

(** ** The store ([memory_toolapprovals.go]) *)

Abbreviation Approvals_ := (gmap string ToolApproval).

(** [None] is the duplicate id error. *)
Definition OpenToolApproval (s : Approvals_) (a : ToolApproval) : option Approvals_ :=
  match s !! ta_id a with
  | Some _ => None
  | None => Some (<[ta_id a := a]> s)
  end.

Definition toolApprovalLive (a : ToolApproval) (now : Z) : bool :=
  IsZero (ta_consumed_at a) && IsZero (ta_denied_at a)
  && (IsZero (ta_expires_at a) || After (ta_expires_at a) now).

Definition ApproveToolApproval (s : Approvals_) (id approver : string) (now : Z) : Approvals_ * bool :=
  match s !! id with
  | None => (s, false)
  | Some a =>
      if negb (IsZero (ta_approved_at a)) || negb (toolApprovalLive a now) then (s, false)
      else (<[id := set_approved a now approver]> s, true)
  end.

Definition ConsumeToolApproval (s : Approvals_) (id agentID action resource : string) (now : Z)
  : Approvals_ * bool :=
  match s !! id with
  | None => (s, false)
  | Some a =>
      if IsZero (ta_approved_at a) || negb (toolApprovalLive a now) then (s, false)
      else if negb (ta_agent_id a =? agentID)%string || negb (ta_action a =? action)%string
              || negb (ta_resource a =? resource)%string
      then (s, false)
      else (<[id := set_consumed a now]> s, true)
  end.

Definition DenyToolApproval (s : Approvals_) (id denier : string) (now : Z) : Approvals_ * bool :=
  match s !! id with
  | None => (s, false)
  | Some a =>
      if negb (IsZero (ta_approved_at a)) || negb (toolApprovalLive a now) then (s, false)
      else (<[id := set_denied a now denier]> s, true)
  end.

Definition GetToolApproval (s : Approvals_) (id : string) : option ToolApproval := s !! id.

Definition approval_less (a b : ToolApproval) : bool :=
  if negb (ta_created_at a =? ta_created_at b) then After (ta_created_at a) (ta_created_at b)
  else String.ltb (ta_id a) (ta_id b).

Definition ListToolApprovals (s : Approvals_) (limit : Z) : list ToolApproval :=
  let limit := if limit <=? 0 then 100 else limit in
  take (Z.to_nat limit) (sort_by approval_less (map snd (map_to_list s))).

(** ** The inbox ([approvals.go]) *)

Definition ActionApproved : string := "tool_approval.approved".
Definition ActionDenied : string := "tool_approval.denied".
Definition StatusPending : string := "pending".
Definition StatusApproved : string := "approved".
Definition StatusDenied : string := "denied".
Definition StatusExpired : string := "expired".
Definition StatusSpent : string := "consumed".

(** [Authenticate] answers [None] on an error; [audit_ok] is whether the audit write succeeds. *)
Record InboxConfig (Req : Type) := mkInboxConfig {
  ic_authenticate : Req -> option string;
  ic_is_admin : string -> bool;
  ic_allow_self : bool;
  ic_audit_ok : bool;
}.
Arguments mkInboxConfig {Req}.
Arguments ic_authenticate {Req}.
Arguments ic_is_admin {Req}.
Arguments ic_allow_self {Req}.
Arguments ic_audit_ok {Req}.

Definition statusOf (a : ToolApproval) (now : Z) : string :=
  if negb (IsZero (ta_denied_at a)) then StatusDenied
  else if negb (IsZero (ta_consumed_at a)) then StatusSpent
  else if negb (IsZero (ta_approved_at a)) then StatusApproved
  else if negb (IsZero (ta_expires_at a)) && negb (After (ta_expires_at a) now) then StatusExpired
  else StatusPending.

(** The audit row of a decision. *)
Record DecisionAudit := mkDecisionAudit { da_action : string; da_target : string; da_actor : string }.

(** The HTTP answer: a problem, or the approval's new status. *)
Inductive inbox_answer := InboxProblem (status : Z) (code : string) | InboxOK (approval_status : string).

Section Inbox.
Context {Req : Type} (cfg : InboxConfig Req).

(** The listing of one status, or of all when [want] is empty. *)
Definition inbox_list (s : Approvals_) (now : Z) (want : string) : option (list string) :=
  if negb (existsb (String.eqb want)
             [""; StatusPending; StatusApproved; StatusDenied; StatusExpired; StatusSpent])
  then None
  else Some (map ta_id (List.filter
         (fun a => (want =? "")%string || (statusOf a now =? want)%string) (ListToolApprovals s 0))).

Definition inbox_decide (approve : bool) (s : Approvals_) (now : Z) (id adminID : string)
  : Approvals_ * list DecisionAudit * inbox_answer :=
  match GetToolApproval s id with
  | None => (s, [], InboxProblem 404 "admin.not_found")
  | Some a =>
      if negb (ic_allow_self cfg) && negb (ta_opened_by a =? "")%string
         && (ta_opened_by a =? adminID)%string
      then (s, [], InboxProblem 403 "approvals.self_approval")
      else if negb (statusOf a now =? StatusPending)%string
      then (s, [], InboxProblem 409 "approvals.not_pending")
      else
        let '(s', ok) :=
          if approve then ApproveToolApproval s id adminID now else DenyToolApproval s id adminID now in
        if negb ok then (s', [], InboxProblem 409 "approvals.not_pending")
        else if negb (ic_audit_ok cfg) then (s', [], InboxProblem 500 "approvals.audit_failed")
        else
          let row := mkDecisionAudit (if approve then ActionApproved else ActionDenied) id adminID in
          (s', [row], InboxOK (match GetToolApproval s' id with
                               | Some fresh => statusOf fresh now
                               | None => StatusPending
                               end))
  end.

(** [guard(decide(approve))] *)
Definition inbox_handle (approve : bool) (s : Approvals_) (now : Z) (r : Req) (id : string)
  : Approvals_ * list DecisionAudit * inbox_answer :=
  match ic_authenticate cfg r with
  | None => (s, [], InboxProblem 401 "approvals.unauthenticated")
  | Some adminID =>
      if (adminID =? "")%string then (s, [], InboxProblem 401 "approvals.unauthenticated")
      else if negb (ic_is_admin cfg adminID) then (s, [], InboxProblem 403 "approvals.forbidden")
      else inbox_decide approve s now id adminID
  end.
End Inbox.

(** ** Sequences of store calls *)

Inductive store_call :=
  | CallOpen (a : ToolApproval)
  | CallApprove (id approver : string) (now : Z)
  | CallDeny (id denier : string) (now : Z)
  | CallConsume (id agentID action resource : string) (now : Z).

(** What a call did, when it did something. *)
Inductive store_event := Opened (id : string) | Approved (id : string) | Denied (id : string) | Consumed (id : string).

#[export] Instance store_event_eq_dec : EqDecision store_event.
Proof. solve_decision. Defined.

Definition store_step (s : Approvals_) (c : store_call) : Approvals_ * list store_event :=
  match c with
  | CallOpen a =>
      match OpenToolApproval s a with None => (s, []) | Some s' => (s', [Opened (ta_id a)]) end
  | CallApprove id by_ now =>
      let '(s', ok) := ApproveToolApproval s id by_ now in (s', if ok then [Approved id] else [])
  | CallDeny id by_ now =>
      let '(s', ok) := DenyToolApproval s id by_ now in (s', if ok then [Denied id] else [])
  | CallConsume id ag ac re now =>
      let '(s', ok) := ConsumeToolApproval s id ag ac re now in (s', if ok then [Consumed id] else [])
  end.

Fixpoint store_run (s : Approvals_) (cs : list store_call) : Approvals_ * list store_event :=
  match cs with
  | [] => (s, [])
  | c :: cs' =>
      let '(s, evs) := store_step s c in
      let '(s, evs') := store_run s cs' in (s, evs ++ evs')
  end.

(** A request is opened undecided, and decisions carry a real time. *)
Definition call_ok (c : store_call) : Prop :=
  match c with
  | CallOpen a => ta_approved_at a = 0 ∧ ta_consumed_at a = 0 ∧ ta_denied_at a = 0
  | CallApprove _ _ now | CallDeny _ _ now | CallConsume _ _ _ _ now => now ≠ 0
  end.

(** ** The life of an approval *)

Definition cnt (ev : store_event) (log : list store_event) : nat := length (filter (fun e => e = ev) log).

Lemma cnt_app ev l1 l2 : cnt ev (l1 ++ l2) = (cnt ev l1 + cnt ev l2)%nat.
Proof. unfold cnt. by rewrite filter_app, length_app. Qed.

Lemma cnt_one ev e : cnt ev [e] = if decide (e = ev) then 1%nat else 0%nat.
Proof. unfold cnt. simpl. rewrite filter_cons. by case_decide. Qed.

Definition flag (t : Z) : nat := if IsZero t then 0%nat else 1%nat.

Lemma flag_zero : flag 0 = 0%nat.
Proof. done. Qed.

Lemma flag_set now : now ≠ 0 -> flag now = 1%nat.
Proof. intros Hn. unfold flag, IsZero. by destruct (Z.eqb_spec now 0). Qed.

(** The times recorded on an approval count the events of its id. *)
Definition tracked (id : string) (log : list store_event) (a : ToolApproval) : Prop :=
  cnt (Approved id) log = flag (ta_approved_at a) ∧ cnt (Denied id) log = flag (ta_denied_at a)
  ∧ cnt (Consumed id) log = flag (ta_consumed_at a)
  ∧ (ta_consumed_at a ≠ 0 -> ta_approved_at a ≠ 0 ∧ ta_denied_at a = 0)
  ∧ (ta_denied_at a ≠ 0 -> ta_approved_at a = 0).

Definition untouched (id : string) (log : list store_event) : Prop :=
  cnt (Approved id) log = 0%nat ∧ cnt (Denied id) log = 0%nat ∧ cnt (Consumed id) log = 0%nat.

Definition log_ok (s : Approvals_) (log : list store_event) : Prop :=
  ∀ id, match s !! id with Some a => tracked id log a | None => untouched id log end.

Lemma log_ok_same (s : Approvals_) log evs id :
  (∀ e, e ∈ evs -> e ≠ Approved id ∧ e ≠ Denied id ∧ e ≠ Consumed id) ->
  match s !! id with Some a => tracked id log a | None => untouched id log end ->
  match s !! id with Some a => tracked id (log ++ evs) a | None => untouched id (log ++ evs) end.
Proof.
  intros He. assert (H0 : ∀ ev, ev = Approved id ∨ ev = Denied id ∨ ev = Consumed id ->
    cnt ev (log ++ evs) = cnt ev log).
  { intros ev Hev. rewrite cnt_app. unfold cnt at 2.
    replace (filter (fun e => e = ev) evs) with (@nil store_event); [simpl; lia|].
    symmetry. induction evs as [|e evs IH]; [done|]. rewrite filter_cons_False; [apply IH; set_solver|].
    destruct (He e) as (? & ? & ?); [by left|]. destruct Hev as [->|[->| ->]]; done. }
  unfold tracked, untouched. rewrite !H0 by tauto. done.
Qed.

(** A decided or spent approval: one event of its own id, one approval rewritten. *)
Lemma log_ok_update s log id a' ev :
  log_ok s log -> (ev = Approved id ∨ ev = Denied id ∨ ev = Consumed id) ->
  tracked id (log ++ [ev]) a' -> log_ok (<[id := a']> s) (log ++ [ev]).
Proof.
  intros Hl Hev Ht id'. destruct (decide (id' = id)) as [->|Hne].
  - by rewrite lookup_insert_eq.
  - rewrite lookup_insert_ne by done. apply log_ok_same; [|apply Hl].
    intros e ->%list_elem_of_singleton. destruct Hev as [->|[->| ->]]; split_and!; congruence.
Qed.

Lemma live_unset a now :
  toolApprovalLive a now = true -> ta_consumed_at a = 0 ∧ ta_denied_at a = 0.
Proof. unfold toolApprovalLive. intros Hl. go_time. bool_prop. done. Qed.

Ltac count_event :=
  unfold tracked; rewrite !cnt_app, !cnt_one;
  repeat first [rewrite decide_True by done|rewrite decide_False by done]; simpl.

Lemma store_step_log s c log :
  log_ok s log -> call_ok c -> log_ok (store_step s c).1 (log ++ (store_step s c).2).
Proof.
  intros Hl Hc. destruct c as [a|id by_ now|id by_ now|id ag ac re now]; simpl in *.
  - unfold OpenToolApproval. destruct (s !! ta_id a) eqn:E; simpl; [by rewrite app_nil_r|].
    intros id. pose proof (Hl id) as Hid. destruct (decide (id = ta_id a)) as [->|Hne].
    + rewrite lookup_insert_eq. rewrite E in Hid. destruct Hid as (H1 & H2 & H3).
      destruct Hc as (Hz1 & Hz2 & Hz3). count_event. by rewrite H1, H2, H3, Hz1, Hz2, Hz3.
    + rewrite lookup_insert_ne by done. apply log_ok_same; [|done]. set_solver.
  - unfold ApproveToolApproval. destruct (s !! id) as [a|] eqn:E; simpl; [|by rewrite app_nil_r].
    destruct (IsZero (ta_approved_at a)) eqn:Ea, (toolApprovalLive a now) eqn:El; simpl;
      try (by rewrite app_nil_r).
    apply log_ok_update; [done|by left|]. pose proof (Hl id) as Hid. rewrite E in Hid.
    destruct Hid as (H1 & H2 & H3 & _). destruct (live_unset _ _ El) as [Hc0 Hd0].
    go_time. bool_prop. count_event. rewrite H1, H2, H3, Ea, Hc0, Hd0, (flag_set now Hc), flag_zero. done.
  - unfold DenyToolApproval. destruct (s !! id) as [a|] eqn:E; simpl; [|by rewrite app_nil_r].
    destruct (IsZero (ta_approved_at a)) eqn:Ea, (toolApprovalLive a now) eqn:El; simpl;
      try (by rewrite app_nil_r).
    apply log_ok_update; [done|by right; left|]. pose proof (Hl id) as Hid. rewrite E in Hid.
    destruct Hid as (H1 & H2 & H3 & _). destruct (live_unset _ _ El) as [Hc0 Hd0].
    go_time. bool_prop. count_event. rewrite H1, H2, H3, Ea, Hc0, Hd0, (flag_set now Hc), flag_zero. done.
  - unfold ConsumeToolApproval. destruct (s !! id) as [a|] eqn:E; simpl; [|by rewrite app_nil_r].
    destruct (IsZero (ta_approved_at a)) eqn:Ea, (toolApprovalLive a now) eqn:El; simpl;
      try (by rewrite app_nil_r).
    destruct (_ || _ || _); simpl; [by rewrite app_nil_r|].
    apply log_ok_update; [done|by right; right|]. pose proof (Hl id) as Hid. rewrite E in Hid.
    destruct Hid as (H1 & H2 & H3 & _). destruct (live_unset _ _ El) as [Hc0 Hd0].
    go_time. bool_prop. count_event. rewrite H1, H2, H3, Hc0, Hd0, (flag_set now Hc), flag_zero.
    split_and!; try done; lia.
Qed.

Lemma store_run_log s cs log :
  log_ok s log -> Forall call_ok cs -> log_ok (store_run s cs).1 (log ++ (store_run s cs).2).
Proof.
  revert s log. induction cs as [|c cs IH]; intros s log Hl Hcs; simpl; [by rewrite app_nil_r|].
  apply Forall_cons in Hcs as [Hc Hcs]. pose proof (store_step_log s c log Hl Hc) as Hs.
  destruct (store_step s c) as [s1 evs]. specialize (IH s1 (log ++ evs)).
  destruct (store_run s1 cs) as [s2 evs']. simpl in *. rewrite app_assoc. by apply IH.
Qed.

(** An approval is decided once and spent at most once: in every sequence of store calls, an id is
    approved, denied and consumed at most once each, never both approved and denied, and it is
    consumed only if it was approved (and so never denied). *)
Theorem approval_spent_once cs id (Hcs : Forall call_ok cs) :
  let log := (store_run ∅ cs).2 in
  (cnt (Consumed id) log <= 1)%nat ∧ (cnt (Approved id) log + cnt (Denied id) log <= 1)%nat
  ∧ (cnt (Consumed id) log <= cnt (Approved id) log)%nat.
Proof.
  cbv zeta. assert (H0 : log_ok ∅ []) by (intros i; by rewrite lookup_empty).
  pose proof (store_run_log ∅ cs [] H0 Hcs id) as Hl. simpl in Hl.
  destruct ((store_run ∅ cs).1 !! id) as [a|].
  - destruct Hl as (-> & -> & -> & Hc & Hd). unfold flag. go_time.
    destruct (Z.eqb_spec (ta_consumed_at a) 0), (Z.eqb_spec (ta_approved_at a) 0),
      (Z.eqb_spec (ta_denied_at a) 0); tauto || lia.
  - destruct Hl as (-> & -> & ->). lia.
Qed.

(** The inbox decides as the rules say: a decision goes through only for an authenticated
    administrator other than the request's opener (unless self approval is on) and only while the
    request is pending; it then changes exactly that request and writes one audit row. Any other
    answer leaves the store as it was, except a failed audit write. *)
Theorem inbox_decision {Req} (cfg : InboxConfig Req) approve s now r id s' rows ans
  (Hnow : now ≠ 0) (Hh : inbox_handle cfg approve s now r id = (s', rows, ans)) :
  match ans with
  | InboxOK st => ∃ adminID a, ic_authenticate cfg r = Some adminID ∧ ic_is_admin cfg adminID = true
      ∧ s !! id = Some a ∧ statusOf a now = StatusPending
      ∧ (ic_allow_self cfg = true ∨ ta_opened_by a = "" ∨ ta_opened_by a ≠ adminID)
      ∧ s' = <[id := if approve then set_approved a now adminID else set_denied a now adminID]> s
      ∧ rows = [mkDecisionAudit (if approve then ActionApproved else ActionDenied) id adminID]
      ∧ st = (if approve then StatusApproved else StatusDenied)
  | InboxProblem _ code => rows = [] ∧ (code ≠ "approvals.audit_failed" -> s' = s)
  end.
Proof.
  revert Hh. unfold inbox_handle. destruct (ic_authenticate cfg r) as [adminID|]; [|by intros [= <- <- <-]].
  destruct (adminID =? "")%string; [by intros [= <- <- <-]|].
  destruct (ic_is_admin cfg adminID) eqn:Hadm; [|by intros [= <- <- <-]]. simpl.
  unfold inbox_decide, GetToolApproval. destruct (s !! id) as [a|] eqn:Ha; [|by intros [= <- <- <-]].
  destruct (negb (ic_allow_self cfg) && _ && _) eqn:Hself; [by intros [= <- <- <-]|].
  destruct (String.eqb_spec (statusOf a now) StatusPending) as [Hp|]; [|by intros [= <- <- <-]]. simpl.
  assert (Hself' : ic_allow_self cfg = true ∨ ta_opened_by a = "" ∨ ta_opened_by a ≠ adminID).
  { destruct (ic_allow_self cfg); [by left|]. right. simpl in Hself.
    destruct (String.eqb_spec (ta_opened_by a) ""), (String.eqb_spec (ta_opened_by a) adminID); auto. }
  unfold ApproveToolApproval, DenyToolApproval. rewrite Ha.
  destruct approve; (destruct (_ || _); [by intros [= <- <- <-]|]); simpl;
    (destruct (ic_audit_ok cfg); simpl; [|by intros [= <- <- <-]]);
    rewrite lookup_insert_eq; intros [= <- <- <-]; exists adminID, a; split_and!; try done;
    unfold statusOf in *; simpl; go_time; revert Hp; repeat case_match; bool_prop; done.
Qed.

(** ** Witnesses *)

Definition demo_approval : ToolApproval :=
  mkToolApproval "ap1" "agent" "execute" "tool:pay" "approval" "" "" "" "alice" "" 5 100 0 0 0.

Lemma approval_spent_once_witness :
  (cnt (Consumed "ap1") (store_run ∅ [CallOpen demo_approval; CallApprove "ap1" "bob" 10;
     CallConsume "ap1" "agent" "execute" "tool:pay" 11; CallConsume "ap1" "agent" "execute" "tool:pay" 12]).2
   <= 1)%nat.
Proof.
  apply (approval_spent_once [CallOpen demo_approval; CallApprove "ap1" "bob" 10;
     CallConsume "ap1" "agent" "execute" "tool:pay" 11; CallConsume "ap1" "agent" "execute" "tool:pay" 12]).
  repeat constructor; done.
Defined.

Example approval_spent_exactly_once :
  cnt (Consumed "ap1") (store_run ∅ [CallOpen demo_approval; CallApprove "ap1" "bob" 10;
     CallConsume "ap1" "agent" "execute" "tool:pay" 11; CallConsume "ap1" "agent" "execute" "tool:pay" 12]).2
  = 1%nat.
Proof. vm_compute. reflexivity. Qed.

Definition demo_open : Approvals_ := {["ap1" := demo_approval]}.
Definition demo_inbox : InboxConfig string := mkInboxConfig Some (fun _ => true) false true.

Lemma inbox_decision_witness :
  ∃ adminID a, ic_authenticate demo_inbox "bob" = Some adminID
    ∧ demo_open !! "ap1" = Some a ∧ ta_opened_by a ≠ adminID.
Proof.
  destruct (inbox_decision demo_inbox true demo_open 10 "bob" "ap1"
              {["ap1" := set_approved demo_approval 10 "bob"]}
              [mkDecisionAudit ActionApproved "ap1" "bob"] (InboxOK StatusApproved)) as
    (adminID & a & H1 & _ & H3 & _ & H5 & _); [done|vm_compute; reflexivity|].
  exists adminID, a. split; [exact H1|]. split; [exact H3|].
  destruct H5 as [H5|[H5|H5]]; [done| |done].
  vm_compute in H3. injection H3 as <-. done.
Defined.
