(* ===== verification/Provenance.v ===== *)
(** * Provenance labels of tool calls ([policy/toolguard/provenance.go])

    Label sets, their union per argument, and the tracker that remembers the strings of tool outputs
    so that a later argument equal to one, or contained in one, inherits its labels. The values the
    tracker walks by reflection are the type [gval]; a Go map is the list of its entries in the order
    the iteration visits them. *)

From Stdlib Require Import ZArith Lia String Ascii.
From stdpp Require Import base gmap strings list sorting.
From S2P Require Import Prelude PolicyTaint.

Set Default Goal Selector "!".
Open Scope string_scope.
Open Scope list_scope.

(** ** Label sets *)

Abbreviation Labels := (gset string).

(** [Add] on a set that is not nil. *)
Definition Labels_Add (l : Labels) (labels : list string) : Labels :=
  fold_left (fun l s => if (s =? "")%string then l else {[s]} ∪ l) labels l.

Definition NewLabels (labels : list string) : Labels := Labels_Add ∅ labels.

Definition Slice (l : Labels) : list string := sort_strings (elements l).

Definition Union (l : Labels) (others : list Labels) : Labels :=
  fold_left (fun out o => Labels_Add out (Slice o)) others (NewLabels (Slice l)).

Definition Has (l : Labels) (pattern : string) : bool :=
  existsb (fun s => MatchLabel pattern s) (elements l).

(** The labels of every argument of a provenance map: [DeriveLabels(prov)]. *)
Definition DeriveLabels (prov : gmap string (list string)) : list string :=
  Slice (fold_left (fun out kv => Labels_Add out (snd kv)) (map_to_list prov) ∅).

Definition add_map (sets : gmap string Labels) (m : gmap string (list string)) : gmap string Labels :=
  merge (fun s ls => match ls with
                     | None => s
                     | Some ls => Some (Labels_Add (default ∅ s) ls)
                     end) sets m.

Definition MergeProvenance (maps : list (gmap string (list string))) : gmap string (list string) :=
  omap (fun s : Labels => if bool_decide (s = ∅) then None else Some (Slice s)) (fold_left add_map maps ∅).

(** ** Values, as reflection sees them *)

Inductive gval :=
  | GInvalid
  | GScalar
  | GString (s : string)
  | GPointer (v : option gval)
  | GInterface (v : option gval)
  | GMap (string_keys : bool) (entries : list (string * gval))
  | GSlice (vs : list gval)
  | GStruct (fields : list (string * string * bool * gval)).

(** A field is its name, the first part of its json tag, whether it is exported, and its value. *)

Definition maxTrackDepth : nat := 8.

(** The strings [walkStrings] calls [fn] on, in order. *)
Fixpoint walkStrings (v : gval) (depth : nat) : list string :=
  if (maxTrackDepth <? depth)%nat then []
  else match v with
  | GInvalid | GScalar | GPointer None | GInterface None => []
  | GString s => [s]
  | GPointer (Some v) | GInterface (Some v) => walkStrings v (S depth)
  | GMap _ entries => flat_map (fun kv => walkStrings (snd kv) (S depth)) entries
  | GSlice vs => flat_map (fun v => walkStrings v (S depth)) vs
  | GStruct fields =>
      flat_map (fun f => let '(_, _, exported, v) := f in
                         if exported : bool then walkStrings v (S depth) else []) fields
  end.

(** [reflect.ValueOf(v.Interface())]: an interface value becomes the value it holds. *)
Definition unwrap (v : gval) : gval :=
  match v with GInterface None => GInvalid | GInterface (Some v) => v | v => v end.

Fixpoint argValues (v : gval) : gmap string gval :=
  match v with
  | GPointer (Some v) | GInterface (Some v) => argValues v
  | GMap true entries => fold_left (fun out kv => <[fst kv := unwrap (snd kv)]> out) entries ∅
  | GStruct fields =>
      fold_left (fun out f =>
        let '(name, tag, exported, v) := f in
        if exported : bool then
          let name := if negb (tag =? "")%string && negb (tag =? "-")%string then tag else name in
          <[name := unwrap v]> out
        else out) fields ∅
  | _ => ∅
  end.

(** ** The tracker *)

(** [pt_max_entries] is a natural number: a negative bound makes [remember] index an empty slice. *)
Record ProvenanceTracker := mkTracker {
  pt_texts : gmap string Labels;
  pt_order : list string;
  pt_substring : bool;
  pt_min_len : Z;
  pt_max_entries : nat;
}.

Definition NewProvenanceTracker : ProvenanceTracker := mkTracker ∅ [] true 4 1000.
Definition WithSubstringMatch (on : bool) (t : ProvenanceTracker) : ProvenanceTracker :=
  mkTracker (pt_texts t) (pt_order t) on (pt_min_len t) (pt_max_entries t).
Definition WithMinTextLength (n : Z) (t : ProvenanceTracker) : ProvenanceTracker :=
  mkTracker (pt_texts t) (pt_order t) (pt_substring t) n (pt_max_entries t).
Definition WithMaxTextEntries (n : nat) (t : ProvenanceTracker) : ProvenanceTracker :=
  mkTracker (pt_texts t) (pt_order t) (pt_substring t) (pt_min_len t) n.

(** [strings.Contains] *)
Fixpoint contains (text s : string) : bool :=
  String.prefix s text || match text with "" => false | String _ text => contains text s end.

Definition too_short (t : ProvenanceTracker) (s : string) : bool :=
  (Z.of_nat (String.length s) <? pt_min_len t)%Z.

(** The order without the first occurrence of [s]. *)
Fixpoint remove_first (s : string) (order : list string) : list string :=
  match order with
  | [] => []
  | k :: order => if (k =? s)%string then order else k :: remove_first s order
  end.

(** The loop that drops the oldest strings while more than [max] are remembered. *)
Fixpoint drop_oldest (max : nat) (texts : gmap string Labels) (order : list string)
  : gmap string Labels * list string :=
  match order with
  | [] => (texts, [])
  | k :: rest =>
      if (max <? length order)%nat then drop_oldest max (delete k texts) rest else (texts, order)
  end.

Definition remember (t : ProvenanceTracker) (s : string) (labels : Labels) : ProvenanceTracker :=
  if too_short t s then t
  else
    let '(cur, order) :=
      match pt_texts t !! s with
      | Some cur => (cur, remove_first s (pt_order t))
      | None => (∅, pt_order t)
      end in
    let texts := <[s := Labels_Add cur (Slice labels)]> (pt_texts t) in
    let '(texts, order) := drop_oldest (pt_max_entries t) texts (order ++ [s]) in
    mkTracker texts order (pt_substring t) (pt_min_len t) (pt_max_entries t).

Definition collect (t : ProvenanceTracker) (s : string) (into : Labels) : Labels :=
  if too_short t s then into
  else
    let into := match pt_texts t !! s with Some ls => Labels_Add into (Slice ls) | None => into end in
    if pt_substring t then
      fold_left (fun into kv =>
        if negb (fst kv =? s)%string && contains (fst kv) s then Labels_Add into (Slice (snd kv)) else into)
        (map_to_list (pt_texts t)) into
    else into.

Definition Track (t : ProvenanceTracker) (value : gval) (labels : list string) : ProvenanceTracker :=
  let set := NewLabels labels in
  if bool_decide (set = ∅) then t
  else fold_left (fun t s => remember t s set) (walkStrings value 0) t.

Definition TrackResult (t : ProvenanceTracker) (tool : string) (result : gval) (inherited : list string)
  : ProvenanceTracker :=
  Track t result (("tool_output:" +:+ tool) :: inherited).

Definition LabelsOf (t : ProvenanceTracker) (value : gval) : list string :=
  Slice (fold_left (fun out s => collect t s out) (walkStrings value 0) ∅).

Definition ArgLabels (t : ProvenanceTracker) (args : gval) : gmap string (list string) :=
  omap (fun v => let ls := LabelsOf t v in if bool_decide (ls = []) then None else Some ls)
    (argValues args).

(** ** Label sets *)

Lemma elem_of_Add l labels x : x ∈ Labels_Add l labels ↔ x ∈ l ∨ (x ∈ labels ∧ x ≠ "").
Proof.
  unfold Labels_Add. revert l. induction labels as [|s labels IH]; intros l; simpl; [set_solver|].
  rewrite IH. destruct (String.eqb_spec s ""); set_solver.
Qed.

Lemma elem_of_Slice l x : x ∈ Slice l ↔ x ∈ l.
Proof. unfold Slice. rewrite elem_of_sort_strings. apply elem_of_elements. Qed.

Lemma elem_of_NewLabels labels x : x ∈ NewLabels labels ↔ x ∈ labels ∧ x ≠ "".
Proof. unfold NewLabels. rewrite elem_of_Add. set_solver. Qed.

(** ** What the tracker keeps *)

(** The remembered strings are exactly the ordered ones, each once, within the bound. *)
Record tracker_ok (t : ProvenanceTracker) : Prop := {
  ok_nodup : NoDup (pt_order t);
  ok_dom : ∀ s, s ∈ pt_order t ↔ is_Some (pt_texts t !! s);
  ok_bound : (length (pt_order t) <= pt_max_entries t)%nat;
}.

Lemma remove_first_split s a b : s ∉ a -> remove_first s (a ++ s :: b) = a ++ b.
Proof.
  induction a as [|x a IH]; simpl; intros Hs; [by rewrite String.eqb_refl|].
  apply not_elem_of_cons in Hs as [Hx Ha]. destruct (String.eqb_spec x s); [congruence|].
  by rewrite IH.
Qed.

Lemma drop_oldest_spec max texts order texts' order' :
  drop_oldest max texts order = (texts', order') ->
  ∃ dropped, order = dropped ++ order' ∧ (length order' <= max)%nat
    ∧ ((length order <= max)%nat -> dropped = [])
    ∧ ((max <= length order)%nat -> length order' = max)
    ∧ (∀ s, texts' !! s = if decide (s ∈ dropped) then None else texts !! s).
Proof.
  revert texts. induction order as [|k rest IH]; simpl; intros texts E.
  { injection E as <- <-. exists []. split_and!; simpl; try done; try lia. }
  destruct (Nat.ltb_spec max (S (length rest))).
  - apply IH in E as (dropped & -> & Hlen & Hnil & Heq & Htexts). exists (k :: dropped).
    split_and!; try done; [simpl; intros; lia|intros _; apply Heq; lia|].
    intros s. rewrite Htexts. destruct (decide (s = k)) as [->|Hk].
    + rewrite (decide_True (P := k ∈ k :: dropped)) by set_solver.
      case_decide; [done|apply lookup_delete_eq].
    + rewrite lookup_delete_ne by done. repeat case_decide; set_solver.
  - injection E as <- <-. exists []. split_and!; simpl; try done; try lia.
Qed.

(** The order once the string about to be remembered is taken out. *)
Definition order_without (t : ProvenanceTracker) (s : string) : list string :=
  match pt_texts t !! s with Some _ => remove_first s (pt_order t) | None => pt_order t end.

Lemma order_without_spec t s :
  tracker_ok t ->
  (∀ x, x ∈ order_without t s ↔ x ∈ pt_order t ∧ x ≠ s) ∧ NoDup (order_without t s)
  ∧ (∀ a x b, pt_order t = a ++ x :: b -> x ≠ s ->
       ∃ a' b', order_without t s = a' ++ x :: b' ∧ (length b' <= length b)%nat).
Proof.
  intros [Hnd Hdom _]. unfold order_without. destruct (pt_texts t !! s) eqn:Es.
  - assert (Hs : s ∈ pt_order t) by (apply Hdom; eauto).
    apply list_elem_of_split in Hs as (a & b & Hab). rewrite Hab in Hnd |- *.
    apply NoDup_app in Hnd as (Hnda & Hdis & [Hnb Hndb]%NoDup_cons).
    assert (Ha : s ∉ a) by (intros Ha; apply (Hdis s Ha); left).
    rewrite remove_first_split by done. split_and!.
    + intros x. rewrite !elem_of_app, elem_of_cons. split; [|naive_solver].
      intros Hx. split; [tauto|]. intros ->. tauto.
    + apply NoDup_app. split_and!; [done|set_solver|done].
    + intros a' x b' E Hx. apply app_eq_inv in E as [(l & -> & E)|(l & -> & E)].
      * destruct l as [|y l]; [by injection E|]. injection E as -> ->.
        exists a', (l ++ b). rewrite <- app_assoc. split; [done|]. rewrite !length_app. simpl. lia.
      * destruct l as [|y l]; [by injection E|]. injection E as -> ->.
        exists (a ++ l), b'. by rewrite <- app_assoc.
  - assert (Hs : s ∉ pt_order t) by (intros Hs%Hdom; rewrite Es in Hs; by destruct Hs).
    split_and!; [set_solver|done|eauto].
Qed.

(** What one [remember] of a long enough string does to the state. *)
Lemma remember_spec t s L :
  too_short t s = false ->
  ∃ dropped,
    order_without t s ++ [s] = dropped ++ pt_order (remember t s L)
    ∧ (length (pt_order (remember t s L)) <= pt_max_entries t)%nat
    ∧ ((pt_max_entries t <= length (order_without t s ++ [s]))%nat ->
         length (pt_order (remember t s L)) = pt_max_entries t)
    ∧ ((length (order_without t s ++ [s]) <= pt_max_entries t)%nat -> dropped = [])
    ∧ (∀ x, pt_texts (remember t s L) !! x =
         if decide (x ∈ dropped) then None
         else if decide (x = s) then Some (Labels_Add (default ∅ (pt_texts t !! s)) (Slice L))
         else pt_texts t !! x).
Proof.
  intros Hlen. unfold remember. rewrite Hlen.
  assert (Ecur : (match pt_texts t !! s with
                  | Some cur => (cur, remove_first s (pt_order t))
                  | None => (∅, pt_order t)
                  end) = (default ∅ (pt_texts t !! s), order_without t s)).
  { unfold order_without. by destruct (pt_texts t !! s). }
  rewrite Ecur. destruct (drop_oldest _ _ _) as [texts' order'] eqn:Ed. simpl.
  apply drop_oldest_spec in Ed as (dropped & Hord & Hmax & Hnil & Hfull & Htexts).
  exists dropped. split_and!; try done.
  intros x. rewrite Htexts. case_decide; [done|]. case_decide as Hxs.
  - rewrite Hxs. apply lookup_insert_eq.
  - by rewrite lookup_insert_ne.
Qed.

Lemma remember_same t s L :
  pt_max_entries (remember t s L) = pt_max_entries t ∧ pt_min_len (remember t s L) = pt_min_len t
  ∧ pt_substring (remember t s L) = pt_substring t.
Proof.
  unfold remember. destruct (too_short t s); [done|].
  destruct (pt_texts t !! s); by destruct (drop_oldest _ _ _).
Qed.

Lemma remember_ok t s L : tracker_ok t -> tracker_ok (remember t s L).
Proof.
  intros Hok. destruct (too_short t s) eqn:Hs; [by unfold remember; rewrite Hs|].
  destruct (order_without_spec t s Hok) as (Helem & Hnd & _).
  destruct (remember_spec t s L Hs) as (dropped & Hord & Hmax & _ & _ & Htexts).
  destruct (remember_same t s L) as (Hm & _ & _).
  assert (Hnd' : NoDup (order_without t s ++ [s])).
  { apply NoDup_app. split_and!; [done| |apply NoDup_singleton].
    intros x [_ Hx]%Helem. set_solver. }
  rewrite Hord in Hnd'. apply NoDup_app in Hnd' as (_ & Hdis & Hnd').
  split; [done| |by rewrite Hm].
  intros x. rewrite Htexts. transitivity (x ∈ order_without t s ++ [s] ∧ x ∉ dropped).
  - rewrite Hord, elem_of_app. set_solver.
  - rewrite elem_of_app, list_elem_of_singleton, Helem, (ok_dom _ Hok).
    repeat case_decide; split; try naive_solver; intros [? ?]; done.
Qed.

(** ** Labels flow from outputs into arguments *)

(** [s] is remembered with the labels [L], and at most [n] strings are newer. *)
Definition recent (t : ProvenanceTracker) (s : string) (n : nat) (L : list string) : Prop :=
  ∃ a b ls, pt_order t = a ++ s :: b ∧ (length b <= n)%nat ∧ pt_texts t !! s = Some ls
    ∧ (∀ l, l ∈ L -> l ≠ "" -> l ∈ ls).

Lemma recent_le t s n m L : recent t s n L -> (n <= m)%nat -> recent t s m L.
Proof. intros (a & b & ls & ? & ? & ? & ?) ?. exists a, b, ls. split_and!; [done|lia|done|done]. Qed.

(** The newest entries survive the eviction. *)
Lemma keep_suffix {A} (dropped kept a b : list A) max :
  a ++ b = dropped ++ kept -> (length b <= max)%nat ->
  ((max <= length (a ++ b))%nat -> length kept = max) -> ((length (a ++ b) <= max)%nat -> dropped = []) ->
  ∃ a', kept = a' ++ b ∧ a = dropped ++ a'.
Proof.
  intros E Hb Hfull Hnil. apply app_eq_inv in E as [(l & Ha & Hk)|(l & Hd & Hb')].
  - by exists l.
  - destruct (decide (length (a ++ b) <= max)%nat) as [Hle|Hle].
    + rewrite (Hnil Hle) in Hd. symmetry in Hd. apply app_eq_nil in Hd as [-> ->].
      exists []. by rewrite (Hnil Hle).
    + assert (length kept = max) by (apply Hfull; lia).
      assert (l = []) as -> by (apply length_zero_iff_nil; apply (f_equal length) in Hb'; rewrite length_app in Hb'; lia).
      exists []. rewrite app_nil_r in Hd |- *. by rewrite Hd, Hb'.
Qed.

Lemma remember_new t s labels :
  tracker_ok t -> too_short t s = false -> (0 < pt_max_entries t)%nat ->
  recent (remember t s (NewLabels labels)) s 0 labels.
Proof.
  intros Hok Hs Hmax. destruct (order_without_spec t s Hok) as (Helem & _ & _).
  destruct (remember_spec t s (NewLabels labels) Hs) as (dropped & Hord & _ & Hfull & Hnil & Htexts).
  destruct (keep_suffix dropped _ (order_without t s) [s] (pt_max_entries t) Hord) as (a' & Ha & Hb); [simpl; lia|done|done|].
  exists a', [], (Labels_Add (default ∅ (pt_texts t !! s)) (Slice (NewLabels labels))).
  split_and!; [done|simpl; lia| |].
  - rewrite Htexts, decide_False, decide_True; [done|done|].
    intros Hd. assert (Hin : s ∈ order_without t s) by (rewrite Hb; set_solver).
    apply Helem in Hin. tauto.
  - intros l Hl Hne. rewrite elem_of_Add, elem_of_Slice, elem_of_NewLabels. tauto.
Qed.

Lemma remember_recent t s n L x X :
  tracker_ok t -> recent t s n L -> (S n < pt_max_entries t)%nat -> recent (remember t x X) s (S n) L.
Proof.
  intros Hok (a & b & ls & Hord & Hb & Hls & HL) Hn.
  destruct (too_short t x) eqn:Hx.
  { unfold remember. rewrite Hx. exists a, b, ls. split_and!; [done|lia|done|done]. }
  destruct (order_without_spec t x Hok) as (Helem & Hnd & Hsplit).
  destruct (remember_spec t x X Hx) as (dropped & Hord' & _ & Hfull & Hnil & Htexts).
  destruct (decide (s = x)) as [->|Hne].
  - destruct (keep_suffix dropped _ (order_without t x) [x] (pt_max_entries t) Hord') as (a' & Ha & Hd); [simpl; lia|done|done|].
    exists a', [], (Labels_Add ls (Slice X)). split_and!; [done|simpl; lia| |].
    + rewrite Htexts, decide_False, decide_True, Hls; [done|done|].
      intros Hin. assert (Hin' : x ∈ order_without t x) by (rewrite Hd; set_solver).
      apply Helem in Hin'. tauto.
    + intros l Hl Hl'. rewrite elem_of_Add. auto.
  - destruct (Hsplit _ _ _ Hord Hne) as (a1 & b1 & E & Hb1). rewrite E, <- app_assoc in Hord'.
    destruct (keep_suffix dropped _ a1 ((s :: b1) ++ [x]) (pt_max_entries t) Hord') as (a' & Ha & Hd).
    { rewrite length_app. simpl. lia. }
    { rewrite E, <- app_assoc in Hfull. done. }
    { rewrite E, <- app_assoc in Hnil. done. }
    exists a', (b1 ++ [x]), ls. split_and!; [done|rewrite length_app; simpl; lia| |done].
    rewrite Htexts, decide_False, decide_False; [done|done|].
    intros Hin. assert (Hs : s ∈ a1) by (rewrite Hd; set_solver).
    rewrite E in Hnd. apply NoDup_app in Hnd as (_ & Hdis & _). apply (Hdis s Hs). left.
Qed.

Lemma remember_all_ok t ss X :
  tracker_ok t ->
  let t' := fold_left (fun t s => remember t s X) ss t in
  tracker_ok t' ∧ pt_max_entries t' = pt_max_entries t ∧ pt_min_len t' = pt_min_len t
  ∧ pt_substring t' = pt_substring t.
Proof.
  revert t. induction ss as [|s ss IH]; simpl; intros t Hok; [done|].
  destruct (remember_same t s X) as (<- & <- & <-). apply IH, remember_ok, Hok.
Qed.

Lemma remember_all_recent t ss X s n L :
  tracker_ok t -> recent t s n L -> (n + length ss < pt_max_entries t)%nat ->
  recent (fold_left (fun t s => remember t s X) ss t) s (n + length ss) L.
Proof.
  revert t n. induction ss as [|x ss IH]; simpl; intros t n Hok Hr Hn.
  - by rewrite Nat.add_0_r.
  - destruct (remember_same t x X) as (Hm & _ & _).
    replace (n + S (length ss))%nat with (S n + length ss)%nat by lia.
    apply IH; [by apply remember_ok|apply remember_recent; [done..|lia]|rewrite Hm; lia].
Qed.

Lemma Track_ok t v labels :
  tracker_ok t ->
  tracker_ok (Track t v labels) ∧ pt_max_entries (Track t v labels) = pt_max_entries t
  ∧ pt_min_len (Track t v labels) = pt_min_len t ∧ pt_substring (Track t v labels) = pt_substring t.
Proof. intros Hok. unfold Track. case_bool_decide; [done|]. by apply remember_all_ok. Qed.

Lemma Track_recent t v labels s n L :
  tracker_ok t -> recent t s n L -> (n + length (walkStrings v 0) < pt_max_entries t)%nat ->
  recent (Track t v labels) s (n + length (walkStrings v 0)) L.
Proof.
  intros Hok Hr Hn. unfold Track. case_bool_decide.
  - apply (recent_le _ _ _ _ _ Hr). lia.
  - by apply remember_all_recent.
Qed.

Lemma Track_new t v labels s l :
  tracker_ok t -> s ∈ walkStrings v 0 -> too_short t s = false -> l ∈ labels -> l ≠ "" ->
  (length (walkStrings v 0) <= pt_max_entries t)%nat ->
  recent (Track t v labels) s (length (walkStrings v 0) - 1) labels.
Proof.
  intros Hok Hs Hlen Hl Hne Hn. unfold Track. rewrite bool_decide_false.
  2: { intros E. assert (Hin : l ∈ NewLabels labels) by (by apply elem_of_NewLabels).
       rewrite E in Hin. set_solver. }
  apply list_elem_of_split in Hs as (a & b & Hab). rewrite Hab, length_app in Hn |- *. simpl in Hn |- *.
  rewrite fold_left_app. simpl.
  destruct (remember_all_ok t a (NewLabels labels) Hok) as (Hok' & Hmax & Hmin & _).
  set (t1 := fold_left _ a t) in *. destruct (remember_same t1 s (NewLabels labels)) as (Hm & _ & _).
  apply (recent_le _ _ (0 + length b)); [|lia].
  apply remember_all_recent; [by apply remember_ok| |rewrite Hm, Hmax; lia].
  apply remember_new; [done| |rewrite Hmax; lia]. unfold too_short in *. by rewrite Hmin.
Qed.

(** Later outputs, tracked in order. *)
Definition track_all (t : ProvenanceTracker) (rest : list (gval * list string)) : ProvenanceTracker :=
  fold_left (fun t vl => Track t (fst vl) (snd vl)) rest t.

Definition strings_in (rest : list (gval * list string)) : nat :=
  list_sum (map (fun vl => length (walkStrings (fst vl) 0)) rest).

Lemma track_all_recent t rest s n L :
  tracker_ok t -> recent t s n L -> (n + strings_in rest < pt_max_entries t)%nat ->
  let t' := track_all t rest in
  recent t' s (n + strings_in rest) L ∧ pt_min_len t' = pt_min_len t ∧ pt_substring t' = pt_substring t.
Proof.
  unfold track_all, strings_in. revert t n.
  induction rest as [|[v ls] rest IH]; simpl; intros t n Hok Hr Hn.
  - by rewrite Nat.add_0_r.
  - destruct (Track_ok t v ls Hok) as (Hok' & Hm & Hmin & Hsub). rewrite <- Hmin, <- Hsub.
    rewrite Nat.add_assoc. apply IH; [done|apply Track_recent; [done..|lia]|rewrite Hm; lia].
Qed.

Lemma containing_mono s (kvs : list (string * Labels)) into l :
  l ∈ into ->
  l ∈ fold_left (fun into kv =>
        if negb (fst kv =? s)%string && contains (fst kv) s then Labels_Add into (Slice (snd kv)) else into)
        kvs into.
Proof.
  revert into. induction kvs as [|kv kvs IH]; simpl; intros into Hi; [done|]. apply IH.
  destruct (negb _ && _); [|done]. rewrite elem_of_Add. tauto.
Qed.

Lemma collect_mono t s into l : l ∈ into -> l ∈ collect t s into.
Proof.
  intros Hl. unfold collect. destruct (too_short t s); [done|].
  assert (Hl' : l ∈ match pt_texts t !! s with Some ls => Labels_Add into (Slice ls) | None => into end).
  { destruct (pt_texts t !! s); [|done]. rewrite elem_of_Add. tauto. }
  destruct (pt_substring t); [by apply containing_mono|done].
Qed.

Lemma collect_finds t text s ls l into :
  pt_texts t !! text = Some ls -> too_short t s = false ->
  s = text ∨ pt_substring t = true ∧ contains text s = true -> l ∈ ls -> l ≠ "" ->
  l ∈ collect t s into.
Proof.
  intros Htext Hs Hc Hl Hne. unfold collect. rewrite Hs.
  destruct (String.eqb_spec text s) as [->|Hts].
  - rewrite Htext. assert (Hi : l ∈ Labels_Add into (Slice ls)).
    { rewrite elem_of_Add, elem_of_Slice. tauto. }
    destruct (pt_substring t); [by apply containing_mono|done].
  - destruct Hc as [->|[Hsub Hc]]; [done|]. rewrite Hsub.
    apply elem_of_map_to_list, list_elem_of_split in Htext as (k1 & k2 & ->).
    rewrite fold_left_app. simpl. apply containing_mono.
    destruct (String.eqb_spec text s); [done|]. rewrite Hc. simpl.
    rewrite elem_of_Add, elem_of_Slice. tauto.
Qed.

Lemma LabelsOf_finds t value text s ls l :
  s ∈ walkStrings value 0 -> pt_texts t !! text = Some ls -> too_short t s = false ->
  s = text ∨ pt_substring t = true ∧ contains text s = true -> l ∈ ls -> l ≠ "" ->
  l ∈ LabelsOf t value.
Proof.
  intros Hs Htext Hlen Hc Hl Hne. unfold LabelsOf. rewrite elem_of_Slice.
  assert (Hmono : ∀ ss i, l ∈ i -> l ∈ fold_left (fun out s => collect t s out) ss i).
  { induction ss as [|x ss IH]; simpl; intros i Hi; [done|]. by apply IH, collect_mono. }
  apply list_elem_of_split in Hs as (a & b & ->). rewrite fold_left_app. simpl.
  apply Hmono. by apply (collect_finds t text s ls l).
Qed.

Lemma ArgLabels_finds t args name value l :
  argValues args !! name = Some value -> l ∈ LabelsOf t value ->
  ∃ ls, ArgLabels t args !! name = Some ls ∧ l ∈ ls.
Proof.
  intros Hv Hl. unfold ArgLabels. rewrite lookup_omap, Hv. simpl.
  rewrite bool_decide_false by (intros E; rewrite E in Hl; set_solver). eauto.
Qed.

(** A value tracked with labels taints the later calls its strings reach: after a tool output
    [v] is tracked with the labels [labels] and then any outputs [rest], an argument holding a
    string [s] of [v] (or a part of one, when substring matching is on) that is not below the
    minimum length gets each of the labels, as long as no more strings were remembered than the
    tracker holds. [walkStrings] gives the strings at most [maxTrackDepth] levels deep, in outputs
    and in arguments. *)
Theorem tracked_labels_inherited (t : ProvenanceTracker) (v : gval) (labels : list string)
  (rest : list (gval * list string)) (args : gval) (name : string) (value : gval) (text s l : string) :
  tracker_ok t ->
  (length (walkStrings v 0) + strings_in rest <= pt_max_entries t)%nat ->
  text ∈ walkStrings v 0 ->
  too_short t text = false -> too_short t s = false ->
  l ∈ labels -> l ≠ "" ->
  argValues args !! name = Some value -> s ∈ walkStrings value 0 ->
  s = text ∨ pt_substring t = true ∧ contains text s = true ->
  ∃ ls, ArgLabels (track_all (Track t v labels) rest) args !! name = Some ls ∧ l ∈ ls.
Proof.
  intros Hok Hn Htext Hlen Hlen' Hl Hne Hv Hs Hc.
  destruct (Track_ok t v labels Hok) as (Hok' & Hmax & Hmin & Hsub).
  assert (Hr : recent (Track t v labels) text (length (walkStrings v 0) - 1) labels)
    by (apply (Track_new t v labels text l); done || lia).
  assert (Hpos : (0 < length (walkStrings v 0))%nat)
    by (destruct (walkStrings v 0); [set_solver|simpl; lia]).
  apply (track_all_recent _ rest) in Hr as ((a & b & ls & _ & _ & Hls & HL) & Hmin' & Hsub');
    [|done|rewrite Hmax; lia].
  apply (ArgLabels_finds _ _ _ value); [done|].
  apply (LabelsOf_finds _ _ text s ls); try done; [|by rewrite Hsub', Hsub|by apply HL].
  unfold too_short in *. by rewrite Hmin', Hmin.
Qed.

Definition page : gval :=
  GMap true [("url", GInterface (Some (GString "https://a.example")));
             ("body", GInterface (Some (GSlice [GString "pay to DE89 3704"; GScalar])))].

Lemma empty_tracker_ok on min max :
  tracker_ok (mkTracker ∅ [] on min max).
Proof.
  split; simpl; [constructor| |lia]. intros s. rewrite lookup_empty. split; [set_solver|by intros [? ?]].
Qed.

Lemma tracked_labels_inherited_witness :
  ∃ ls, ArgLabels (track_all (Track NewProvenanceTracker page ["tool_output:fetch"; "untrusted_web"])
                     [(GString "another output", ["user"])])
          (GStruct [("IBAN", "iban", true, GString "DE89 3704")]) !! "iban" = Some ls
        ∧ "untrusted_web" ∈ ls.
Proof.
  apply (tracked_labels_inherited NewProvenanceTracker page ["tool_output:fetch"; "untrusted_web"]
           [(GString "another output", ["user"])] (GStruct [("IBAN", "iban", true, GString "DE89 3704")])
           "iban" (GString "DE89 3704") "pay to DE89 3704" "DE89 3704" "untrusted_web").
  - apply empty_tracker_ok.
  - apply Nat.leb_le. reflexivity.
  - right. left.
  - reflexivity.
  - reflexivity.
  - right. left.
  - discriminate.
  - reflexivity.
  - left.
  - right. split; reflexivity.
Defined.
