(* ===== verification/Hook.v ===== *)
(** * Before authorize hooks ([policy/hook/hook.go], [policy/hook/runner.go])

    A hook sees an agent's call and answers allow, deny or escalate. [Compose] runs several with deny
    overrides; [Run] runs one under a timeout and fails closed. A hook is a function of its context,
    the time it is called and its input, which says when it returns and with what, or that it never
    returns; the runner's goroutine and [select] become a comparison of that time with the time the
    context is done. When both happen at the same time [select] picks either: the argument [tie].
    The elapsed time of an outcome is the time the answer or the end of the context is known; the code
    reads its clock a little later, once it is scheduled. A failure is also told to the runner's
    [OnError] callback, which runs before [Run] returns and can take any time: it cannot change the
    outcome and is not modelled, so nothing is stated of how long [Run] takes.
    The HTTP guard ([httpguard.go], [wire.go]) is one implementation of a hook and is not modelled. *)

From Stdlib Require Import ZArith Lia String Ascii.
From Corelib Require Import SpecFloat.
From stdpp Require Import base gmap strings list sorting pretty.
From S2P Require Import Prelude.

Set Default Goal Selector "!".
Open Scope string_scope.
Open Scope list_scope.
Open Scope Z_scope.

(** ** Verdicts and outcomes *)

Definition Hook_Allow : string := "allow".
Definition Hook_Deny : string := "deny".
Definition Hook_Escalate : string := "escalate".

Definition CodeHookDenied : string := "hook_denied".
Definition CodeHookTimeout : string := "hook_timeout".
Definition CodeHookError : string := "hook_error".
Definition HookCodeApprovalRequired : string := "approval_required".

Definition maxClip : nat := 256.
Definition maxMetadataKeys : nat := 16.
Definition defaultDenyReason : string := "Blocked by beforeAuthorize hook".
Definition defaultEscalateReason : string := "beforeAuthorize hook requires approval".

(** A metadata value; [MOther] is a value of any other type. *)
Inductive meta := MString (s : string) | MBool (b : bool) | MFloat (f : spec_float) | MInt (z : Z) | MOther.

Record Verdict := mkVerdict {
  v_decision : string; v_reason : string; v_code : string; v_guard : string; v_rule_id : string;
  v_metadata : gmap string meta;
}.

Record Outcome := mkOutcome {
  o_decision : string; o_code : string; o_reason : string; o_guard : string; o_rule_id : string;
  o_metadata : gmap string meta; o_elapsed : Z;
}.

Definition Allowed (o : Outcome) : bool := (o_decision o =? Hook_Allow)%string.

(** ** Contexts and hooks *)

(** When a context is done, and whether by a deadline rather than a cancellation. *)
Record Context_ := mkContext { cx_done : option (Z * bool) }.

(** [ctx.Err()] at [now]. *)
Definition ctx_err (ctx : Context_) (now : Z) : option bool :=
  match cx_done ctx with
  | Some (at_, deadline) => if at_ <=? now then Some deadline else None
  | None => None
  end.

(** The time a hook's context is done, with the cause. *)
Definition done_at (ctx : Context_) (start timeout : Z) : Z * bool :=
  match cx_done ctx with
  | Some (at_, deadline) => if at_ <=? start + timeout then (at_, deadline) else (start + timeout, true)
  | None => (start + timeout, true)
  end.

(** [context.WithTimeoutCause] *)
Definition WithTimeout (ctx : Context_) (start timeout : Z) : Context_ :=
  mkContext (Some (done_at ctx start timeout)).

(** What a hook call ends with; an error says whether it is [context.DeadlineExceeded]. *)
Inductive hook_result := HVerdict (v : Verdict) | HError (deadline : bool) | HPanic.

(** The hook's input is opaque to the runner. [None]: the hook never returns. *)
Definition Hook (In : Type) : Type := Context_ -> Z -> In -> option (Z * hook_result).

(** ** Compose *)

Definition allow_verdict : Verdict := mkVerdict Hook_Allow "" "" "" "" ∅.

Section Hooks.
Context {In : Type}.

(** [composed.BeforeAuthorize] *)
Fixpoint composed (hs : list (Hook In)) (escalation : option Verdict) (ctx : Context_) (now : Z) (i : In)
  : option (Z * hook_result) :=
  match hs with
  | [] => Some (now, HVerdict (default allow_verdict escalation))
  | h :: hs =>
      match ctx_err ctx now with
      | Some deadline => Some (now, HError deadline)
      | None =>
          match h ctx now i with
          | None => None
          | Some (now, HVerdict v) =>
              if (v_decision v =? Hook_Deny)%string then Some (now, HVerdict v)
              else if (v_decision v =? Hook_Escalate)%string then
                composed hs (Some (default v escalation)) ctx now i
              else if (v_decision v =? Hook_Allow)%string then composed hs escalation ctx now i
              else Some (now, HError false)
          | Some (now, r) => Some (now, r)
          end
      end
  end.

(** Nil hooks are skipped. *)
Definition Compose (hooks : list (option (Hook In))) : Hook In :=
  fun ctx now i => composed (omap id hooks) None ctx now i.

(** ** The runner *)

Definition Millisecond : Z := 1000000.
Definition DefaultTimeout : Z := 2 * Second.
Definition MaxTimeout : Z := 60 * Second.

(** [r_env_ms] is the number the environment variable holds, [None] when unset or not a number. *)
Record Runner := mkRunner {
  r_hook : option (Hook In);
  r_timeout : Z;
  r_env_ms : option Z;
}.

Definition ResolvedTimeout (r : Runner) : Z :=
  if 0 <? r_timeout r then Z.min (r_timeout r) MaxTimeout
  else match r_env_ms r with
  | Some ms => if (0 <? ms) && (ms <=? Z.quot MaxTimeout Millisecond) then ms * Millisecond else DefaultTimeout
  | None => DefaultTimeout
  end.

Inductive ErrorKind := KindTimeout | KindError | KindPanic | KindMalformed.

Definition ctxKind (cause_deadline err_deadline : bool) : ErrorKind :=
  if cause_deadline || err_deadline then KindTimeout else KindError.

(** Only the outcome: the [OnError] callback, which [notify] calls here and waits for, cannot change it. *)
Definition fail (kind : ErrorKind) (elapsed timeout : Z) : Outcome :=
  match kind with
  | KindTimeout =>
      mkOutcome Hook_Deny CodeHookTimeout
        ("beforeAuthorize hook timed out after " +:+ pretty (Z.quot timeout Millisecond) +:+ "ms") "" "" ∅ elapsed
  | _ => mkOutcome Hook_Deny CodeHookError "beforeAuthorize hook failed" "" "" ∅ elapsed
  end.

Definition orDefault (s def : string) : string := if (s =? "")%string then def else s.

(** [utf8.RuneStart]: not a continuation byte. *)
Definition RuneStart (c : ascii) : bool := negb (N.land (N_of_ascii c) 192 =? 128)%N.

Fixpoint clip_at (s : string) (cut : nat) : nat :=
  match cut with
  | O => O
  | S n => match String.get cut s with
           | Some c => if RuneStart c then cut else clip_at s n
           | None => cut
           end
  end.

Definition clip (s : string) : string :=
  if (String.length s <=? maxClip)%nat then s else String.substring 0 (clip_at s maxClip) s.

Definition finite (f : spec_float) : bool :=
  match f with S754_zero _ | S754_finite _ _ _ => true | _ => false end.

Definition keep_meta (v : meta) : option meta :=
  match v with
  | MString s => Some (MString (clip s))
  | MBool b => Some (MBool b)
  | MFloat f => if finite f then Some (MFloat f) else None
  | MInt z => Some (MFloat (binary_normalize 53 1024 z 0 false))
  | MOther => None
  end.

Definition sanitizeMetadata (raw : gmap string meta) : gmap string meta :=
  fold_left (fun out kv =>
    if (maxMetadataKeys <=? size out)%nat then out
    else match keep_meta (snd kv) with Some v => <[clip (fst kv) := v]> out | None => out end)
    (sort_by (fun a b => String.ltb (fst a) (fst b)) (map_to_list raw)) ∅.

Definition verdict (v : Verdict) (elapsed timeout : Z) : Outcome :=
  let rule := if (clip (v_rule_id v) =? "")%string then clip (v_code v) else clip (v_rule_id v) in
  if (v_decision v =? Hook_Allow)%string then mkOutcome Hook_Allow "" "" "" "" ∅ elapsed
  else if (v_decision v =? Hook_Deny)%string then
    mkOutcome Hook_Deny CodeHookDenied (orDefault (v_reason v) defaultDenyReason)
      (clip (v_guard v)) rule (sanitizeMetadata (v_metadata v)) elapsed
  else if (v_decision v =? Hook_Escalate)%string then
    mkOutcome Hook_Escalate HookCodeApprovalRequired (orDefault (v_reason v) defaultEscalateReason)
      (clip (v_guard v)) rule (sanitizeMetadata (v_metadata v)) elapsed
  else fail KindMalformed elapsed timeout.

(** [r = None] is the nil runner: no hook is configured, and every call goes on. [start] is the clock when it is called. *)
Definition Run (r : option Runner) (ctx : Context_) (start : Z) (i : In) (tie : bool) : Outcome :=
  match r with
  | None => mkOutcome Hook_Allow "" "" "" "" ∅ 0
  | Some r =>
      match r_hook r with
      | None => fail KindError 0 0
      | Some h =>
          let timeout := ResolvedTimeout r in
          match ctx_err ctx start with
          | Some deadline => fail (ctxKind deadline deadline) 0 timeout
          | None =>
              let '(done, deadline) := done_at ctx start timeout in
              let hctx := WithTimeout ctx start timeout in
              let expired := fail (ctxKind deadline deadline) (done - start) timeout in
              match h hctx start i with
              | None => expired
              | Some (now, res) =>
                  if (now <? done) || ((now =? done) && tie) then
                    match res with
                    | HPanic => fail KindPanic (now - start) timeout
                    | HError dl =>
                        match ctx_err hctx now with
                        | Some deadline => fail (ctxKind deadline dl) (now - start) timeout
                        | None => fail KindError (now - start) timeout
                        end
                    | HVerdict v => verdict v (now - start) timeout
                    end
                  else expired
              end
          end
      end
  end.
End Hooks.
Arguments Runner In : clear implicits.

(** ** Theorems *)

Section HookTheorems.
Context {In : Type}.

(** The hooks all answer allow, one after the other, the last at [fin]. *)
Inductive all_allow (ctx : Context_) (i : In) : list (Hook In) -> Z -> Z -> Prop :=
  | allow_nil now : all_allow ctx i [] now now
  | allow_cons h hs now next v fin :
      ctx_err ctx now = None ->
      h ctx now i = Some (next, HVerdict v) -> v_decision v = Hook_Allow ->
      all_allow ctx i hs next fin ->
      all_allow ctx i (h :: hs) now fin.

Lemma composed_escalated hs e ctx now (i : In) fin v :
  v_decision e = Hook_Escalate -> composed hs (Some e) ctx now i = Some (fin, HVerdict v) ->
  v_decision v ≠ Hook_Allow.
Proof.
  revert e now. induction hs as [|h hs IH]; simpl; intros e now He Hc.
  { injection Hc as _ <-. by rewrite He. }
  destruct (ctx_err ctx now); [congruence|].
  destruct (h ctx now i) as [[next [w|dl|]]|]; try congruence.
  destruct (String.eqb_spec (v_decision w) Hook_Deny) as [Hd|].
  { injection Hc as _ <-. by rewrite Hd. }
  destruct (String.eqb_spec (v_decision w) Hook_Escalate); [by apply (IH e next)|].
  destruct (String.eqb_spec (v_decision w) Hook_Allow); [by apply (IH e next)|congruence].
Qed.

Lemma composed_allow_iff hs ctx now (i : In) fin :
  (∃ v, composed hs None ctx now i = Some (fin, HVerdict v) ∧ v_decision v = Hook_Allow)
  ↔ all_allow ctx i hs now fin.
Proof.
  split.
  - intros (v & Hc & Hv). revert now Hc. induction hs as [|h hs IH]; simpl; intros now Hc.
    { injection Hc as -> _. constructor. }
    destruct (ctx_err ctx now) eqn:Ec; [congruence|].
    destruct (h ctx now i) as [[next [w|dl|]]|] eqn:Eh; try congruence.
    destruct (String.eqb_spec (v_decision w) Hook_Deny) as [Hd|]; [injection Hc as -> ->; rewrite Hv in Hd; discriminate|].
    destruct (String.eqb_spec (v_decision w) Hook_Escalate); [by apply composed_escalated in Hc|].
    destruct (String.eqb_spec (v_decision w) Hook_Allow); [|congruence].
    by apply (allow_cons _ _ _ _ _ next w); auto.
  - induction 1 as [now|h hs now next w fin Ec Eh Hw _ (v & Hc & Hv)]; simpl.
    + by exists allow_verdict.
    + exists v. rewrite Ec, Eh, Hw. done.
Qed.

Lemma in_time_spec now done tie :
  BoolSpec (now < done ∨ now = done ∧ tie = true) (¬ (now < done ∨ now = done ∧ tie = true))
    ((now <? done) || ((now =? done) && tie)).
Proof.
  destruct (Z.ltb_spec now done), (Z.eqb_spec now done), tie; simpl; constructor; lia || naive_solver lia.
Qed.

Lemma fail_denies kind elapsed timeout : o_decision (fail kind elapsed timeout) = Hook_Deny.
Proof. by destruct kind. Qed.

Lemma verdict_decision v elapsed timeout :
  o_decision (verdict v elapsed timeout) = Hook_Allow ↔ v_decision v = Hook_Allow.
Proof.
  unfold verdict. destruct (String.eqb_spec (v_decision v) Hook_Allow); [done|].
  destruct (v_decision v =? Hook_Deny)%string; [done|].
  by destruct (v_decision v =? Hook_Escalate)%string.
Qed.

(** C39. A runner over composed hooks lets a call through exactly when the caller's context is live
    and every configured hook, run in order, answered allow before the runner's context was done.
    A deny, an escalation, an unknown verdict, an error, a panic, a hook that does not return, a
    timeout or a cancellation anywhere all block the call. *)
Theorem Run_composed_allows_iff (r : Runner In) (hooks : list (option (Hook In))) (ctx : Context_)
  (start : Z) (i : In) (tie : bool) :
  r_hook r = Some (Compose hooks) ->
  Allowed (Run (Some r) ctx start i tie) = true ↔
  ctx_err ctx start = None ∧
  ∃ fin, all_allow (WithTimeout ctx start (ResolvedTimeout r)) i (omap id hooks) start fin
    ∧ (fin < fst (done_at ctx start (ResolvedTimeout r))
       ∨ fin = fst (done_at ctx start (ResolvedTimeout r)) ∧ tie = true).
Proof.
  intros Hr. unfold Allowed, Run. rewrite Hr, String.eqb_eq.
  destruct (ctx_err ctx start) eqn:Ec; [rewrite fail_denies; naive_solver|].
  destruct (done_at ctx start _) as [done deadline] eqn:Ed. cbn [fst].
  set (hctx := WithTimeout ctx start (ResolvedTimeout r)). unfold Compose.
  destruct (composed _ _ _ _ _) as [[now res]|] eqn:Eh.
  - destruct (in_time_spec now done tie) as [Et|Et].
    + transitivity (∃ v, res = HVerdict v ∧ v_decision v = Hook_Allow).
      { destruct res as [v|dl|].
        - rewrite verdict_decision. naive_solver.
        - destruct (ctx_err hctx now); rewrite fail_denies; naive_solver.
        - rewrite fail_denies. naive_solver. }
      split.
      * intros (v & -> & Hv). split; [done|]. exists now. split; [|done].
        apply composed_allow_iff. eauto.
      * intros (_ & fin & Hall%composed_allow_iff & _). rewrite Eh in Hall. naive_solver.
    + rewrite fail_denies. split; [done|].
      intros (_ & fin & Hall%composed_allow_iff & Hfin). rewrite Eh in Hall.
      destruct Hall as (v & [= <- _] & _). done.
  - rewrite fail_denies. split; [done|]. intros (_ & fin & Hall%composed_allow_iff & _).
    rewrite Eh in Hall. naive_solver.
Qed.

End HookTheorems.

(** Two hooks that allow after a second each, with a nil hook between. *)
Definition slow_allow : Hook unit := fun _ now _ => Some (now + Second, HVerdict allow_verdict).
Definition two_hooks : Runner unit :=
  mkRunner (Some (Compose [Some slow_allow; None; Some slow_allow])) (3 * Second) None.

Lemma Run_composed_allows_iff_witness :
  Allowed (Run (Some two_hooks) (mkContext None) 0 tt false) = true.
Proof.
  apply (Run_composed_allows_iff two_hooks [Some slow_allow; None; Some slow_allow] (mkContext None) 0 tt
           false eq_refl).
  split; [reflexivity|]. exists (2 * Second). split; [|left; reflexivity].
  apply (allow_cons _ _ _ _ _ Second allow_verdict); [reflexivity..|].
  apply (allow_cons _ _ _ _ _ (2 * Second) allow_verdict); [reflexivity..|constructor].
Defined.

(** A hook slower than the timeout blocks the call. *)
Example slow_hook_times_out :
  o_code (Run (Some (mkRunner (Some slow_allow) 1 None)) (mkContext None) 0 tt true) = CodeHookTimeout.
Proof. reflexivity. Qed.
