(* ===== verification/ToolGuard.v ===== *)
(** * The tool guard ([policy/toolguard])

    The policy engine in front of an agent's tool call ([toolguard.go], [hook.go]): load policies,
    evaluate with the call's provenance, run the hook, spend or open an approval, record the decision
    and run the tool only on a permit. Approvals are the class [ApprovalStore], which states the
    single use contract of the Go interface; the in-process [MemoryApprovals] ([memory.go]) and
    [StorageApprovals] ([storage.go]) over the storage backend discharge it. The rate limit, the
    policy source, the description of the agent and the JSON encoding of arguments ([argumentsMap])
    are arguments; the hook is [Hook.Run] and the tracker [Provenance]. Random ids and the clock are
    part of the context of a call. *)

From Stdlib Require Import ZArith Lia String Ascii.
From Corelib Require Import SpecFloat.
From stdpp Require Import base gmap strings list.
From S2P Require Import Prelude Hook Provenance Glob PolicyDoc PolicyEval PolicyTaint ToolApprovals.

Set Default Goal Selector "!".
Open Scope string_scope.
Open Scope list_scope.
Open Scope Z_scope.

(** ** Calls *)

(** [c_args] is [GInvalid] for nil arguments. *)
Record Call := mkCall {
  c_agent_id : string; c_tool : string; c_action : string; c_resource : string;
  c_amount : spec_float; c_currency : string; c_data_class : string; c_irreversible : bool;
  c_attributes : gmap string string; c_provenance : gmap string (list string); c_args : gval;
}.

Definition call_action (c : Call) : string := if (c_action c =? "")%string then "execute" else c_action c.

Definition call_resource (c : Call) : string :=
  if (c_resource c =? "")%string then "tool:" +:+ c_tool c else c_resource c.

(** ** Approvals ([Approvals] interface) *)

(** [ap_consume] answers [None] when the store fails. [ap_dead s id]: [id] can never be spent again;
    [ap_known s id]: a request has that id; [ap_env]: a step of another client of the store, such as
    a human decision. *)
Class ApprovalStore (A : Type) := {
  ap_open : A -> Z -> string -> Call -> Escalation -> option A;
  ap_consume : A -> Z -> string -> Call -> A * option bool;
  ap_env : A -> A -> Prop;
  ap_dead : A -> string -> Prop;
  ap_known : A -> string -> Prop;
  ap_consume_dead s now id c s' :
    0 < now -> ap_consume s now id c = (s', Some true) -> ap_dead s' id ∧ ¬ ap_dead s id;
  ap_dead_consume s now id id' c : ap_dead s id -> ap_dead (ap_consume s now id' c).1 id;
  ap_known_consume s now id id' c : ap_known (ap_consume s now id' c).1 id -> ap_known s id;
  ap_dead_open s now id id' c e s' :
    ap_dead s id -> ¬ ap_known s id' -> ap_open s now id' c e = Some s' -> ap_dead s' id;
  ap_dead_env s s' id : ap_dead s id -> ap_env s s' -> ap_dead s' id;
}.

(** *** In process ([memory.go]) *)

Record memRequest := mkMemRequest {
  mr_agent_id : string; mr_action : string; mr_resource : string;
  mr_approved : bool; mr_spent : bool; mr_approver : string;
}.

Abbreviation MemoryApprovals := (gmap string memRequest).

Definition MemOpen (m : MemoryApprovals) (id : string) (c : Call) : MemoryApprovals :=
  <[id := mkMemRequest (c_agent_id c) (call_action c) (call_resource c) false false ""]> m.

Definition MemApprove (m : MemoryApprovals) (id approver : string) : option MemoryApprovals :=
  match m !! id with
  | None => None
  | Some r => Some (<[id := mkMemRequest (mr_agent_id r) (mr_action r) (mr_resource r) true (mr_spent r)
                            approver]> m)
  end.

Definition MemConsume (m : MemoryApprovals) (id : string) (c : Call) : MemoryApprovals * bool :=
  match m !! id with
  | None => (m, false)
  | Some r =>
      if negb (mr_approved r) || mr_spent r then (m, false)
      else if negb (mr_agent_id r =? c_agent_id c)%string || negb (mr_action r =? call_action c)%string
              || negb (mr_resource r =? call_resource c)%string
      then (m, false)
      else (<[id := mkMemRequest (mr_agent_id r) (mr_action r) (mr_resource r) (mr_approved r) true
                      (mr_approver r)]> m, true)
  end.

(** *** Over the storage backend ([storage.go]) *)

Definition DefaultApprovalTTL : Z := Hour.

Definition StorageOpen (ttl : Z) (s : Approvals_) (now : Z) (id : string) (c : Call) (e : Escalation)
  : option Approvals_ :=
  OpenToolApproval s
    (mkToolApproval id (c_agent_id c) (call_action c) (call_resource c) (esc_requirement e)
       (esc_tier e) (esc_reason e) "" "" "" now (if 0 <? ttl then now + ttl else 0) 0 0 0).

(** [false] when the request is not pending. *)
Definition StorageApprove (s : Approvals_) (now : Z) (id approver : string) : Approvals_ * bool :=
  ApproveToolApproval s id approver now.

Definition StorageConsume (s : Approvals_) (now : Z) (id : string) (c : Call) : Approvals_ * bool :=
  ConsumeToolApproval s id (c_agent_id c) (call_action c) (call_resource c) now.

(** ** The guard *)

Inductive limit_error := LimitRateLimited | LimitAgentNotFound | LimitOther.

Definition limitCode (e : limit_error) : string :=
  match e with
  | LimitRateLimited => CodeRateLimited
  | LimitAgentNotFound => CodeAgentNotFound
  | LimitOther => CodePolicyIndeterminate
  end.

(** What the hook sees of a call. *)
Record HookInput (Args Sub : Type) := mkHookInput {
  hi_agent_id : string; hi_action : string; hi_resource : string; hi_arguments : Args;
  hi_subject : option Sub; hi_source : string; hi_ip : string;
}.
Arguments mkHookInput {Args Sub}.

(** [g_arguments] is [argumentsMap], [None] where the arguments cannot be encoded; [g_hook_subject]
    answers [None] on an error. *)
Record Guard (Args Sub : Type) := mkGuard {
  g_evaluator : Evaluator;
  g_policies : option (string -> option (list (option Policy)));
  g_limit : option (string -> option limit_error);
  g_hook : option (Runner (HookInput Args Sub));
  g_hook_subject : option (string -> option Sub);
  g_arguments : gval -> option Args;
  g_audit : bool;
}.
Arguments mkGuard {Args Sub}.
Arguments g_evaluator {Args Sub}.
Arguments g_policies {Args Sub}.
Arguments g_limit {Args Sub}.
Arguments g_hook {Args Sub}.
Arguments g_hook_subject {Args Sub}.
Arguments g_arguments {Args Sub}.
Arguments g_audit {Args Sub}.

(** The context of a call: the approval id to spend, the clock when the call is evaluated and when
    the approvals store is asked, the random id a new approval would get ([None] when the random
    source fails), the context and its client address, and how the hook's [select] breaks a tie. *)
Record Ctx := mkCtx {
  ctx_approval_id : string; ctx_now : Z; ctx_store_now : Z; ctx_fresh_id : option string;
  ctx_context : Context_; ctx_ip : string; ctx_tie : bool;
}.

(** [nil], with the approval spent if one was, or the error. *)
Inductive guard_result :=
  | Permit (spent : option string)
  | ApprovalRequiredError (requirement code approval_id : string)
  | DeniedError (code : string)
  | TaintViolationError (code : string)
  | GuardFailed (code : string).

Definition is_permit (r : guard_result) : bool :=
  match r with Permit _ => true | _ => false end.

(** [CodeOf] *)
Definition CodeOf (r : guard_result) : string :=
  match r with
  | Permit _ => ""
  | ApprovalRequiredError _ code _ | DeniedError code | TaintViolationError code | GuardFailed code => code
  end.

(** The audit record of a decision: the labels, the outcome and the hook's decision. *)
Record GuardAudit := mkGuardAudit {
  ga_agent_id : string; ga_tool : string; ga_action : string; ga_resource : string;
  ga_effect : string; ga_outcome : string; ga_reason : string; ga_code : string;
  ga_labels : gmap string (list string); ga_taint : option TaintVerdict; ga_hook : option Outcome;
}.

Section ToolGuard.
Context `{GoLib} {A : Type} `{ApprovalStore A} {Args Sub : Type}.
Implicit Types (g : Guard Args Sub) (st : option A).

(** [st] is the approvals store, [None] when none is configured. *)
Definition escalate (ctx : Ctx) st (c : Call) (d : Decision) : option A * guard_result :=
  let esc := default (mkEscalation "" RequireApproval (d_reason d)) (d_escalation d) in
  match st with
  | None => (None, ApprovalRequiredError (esc_requirement esc) (d_code d) "")
  | Some s =>
      let try := negb (ctx_approval_id ctx =? "")%string && (esc_requirement esc =? RequireApproval)%string in
      let '(s, spent) :=
        if try then ap_consume s (ctx_store_now ctx) (ctx_approval_id ctx) c else (s, Some false) in
      match spent with
      | None => (Some s, GuardFailed CodePolicyIndeterminate)
      | Some true => (Some s, Permit (Some (ctx_approval_id ctx)))
      | Some false =>
          let code := if try then CodeApprovalInvalid else d_code d in
          match ctx_fresh_id ctx with
          | None => (Some s, GuardFailed CodePolicyIndeterminate)
          | Some id =>
              match ap_open s (ctx_store_now ctx) id c esc with
              | None => (Some s, GuardFailed CodePolicyIndeterminate)
              | Some s' => (Some s', ApprovalRequiredError (esc_requirement esc) code id)
              end
          end
      end
  end.

Definition call_provenance (tr : option ProvenanceTracker) (c : Call) : gmap string (list string) :=
  let tracked := match tr, c_args c with
                 | None, _ | _, GInvalid => ∅
                 | Some t, args => ArgLabels t args
                 end in
  MergeProvenance [c_provenance c; tracked].

Definition call_request (tr : option ProvenanceTracker) (c : Call) : Request :=
  let attrs := <["tool" := c_tool c]> (<["agent_id" := c_agent_id c]> (c_attributes c)) in
  mkRequest (call_action c) (call_resource c) attrs "" 0 (c_amount c) (c_currency c) (c_data_class c)
    (c_irreversible c) (call_provenance tr c).

(** The provenance and the decision, when they were reached, and the result so far. With a hook
    configured an escalation is left to [applyHook]. *)
Definition guard_evaluate g (ctx : Ctx) (tr : option ProvenanceTracker) st (c : Call)
  : option A * option (gmap string (list string) * Decision) * guard_result :=
  match g_policies g with
  | None => (st, None, GuardFailed CodePolicyIndeterminate)
  | Some policies =>
      if (c_agent_id c =? "")%string then (st, None, GuardFailed CodePolicyIndeterminate)
      else match match g_limit g with Some f => f (c_agent_id c) | None => None end with
      | Some e => (st, None, GuardFailed (limitCode e))
      | None =>
          match policies (c_agent_id c) with
          | None => (st, None, GuardFailed CodePolicyIndeterminate)
          | Some pols =>
              let prov := call_provenance tr c in
              let d := Evaluate (g_evaluator g) (ctx_now ctx) (call_request tr c) pols in
              if (d_effect d =? Allow)%string then (st, Some (prov, d), Permit None)
              else if (d_effect d =? Escalate)%string then
                match g_hook g with
                | Some _ => (st, Some (prov, d), Permit None)
                | None => let '(st, r) := escalate ctx st c d in (st, Some (prov, d), r)
                end
              else match d_taint d with
              | Some v =>
                  if (tv_verdict v =? TaintDeny)%string
                  then (st, Some (prov, d), TaintViolationError (d_code d))
                  else (st, Some (prov, d), DeniedError (d_code d))
              | None => (st, Some (prov, d), DeniedError (d_code d))
              end
          end
      end
  end.

(** The decision a hook makes of the policy's: an escalation of an allow, or a deny. *)
Definition hook_escalated (d : Decision) (out : Outcome) : Decision :=
  mkDecision false Escalate (d_policy_id d) (d_statement_id d) (o_reason out) CodeApprovalRequired
    (d_boundary d) (Some (mkEscalation "" RequireApproval (o_reason out))) (d_taint d).

Definition hook_denied (d : Decision) (out : Outcome) : Decision :=
  mkDecision false Deny (d_policy_id d) (d_statement_id d) (o_reason out) (o_code out)
    (d_boundary d) None (d_taint d).

(** The hook's outcome, [None] when the agent could not be described. *)
Definition hook_outcome g (hook : Runner (HookInput Args Sub)) (ctx : Ctx) (c : Call) : option Outcome :=
  let run sub :=
    match g_arguments g (c_args c) with
    | None => mkOutcome Hook_Deny Hook.CodeHookError "beforeAuthorize hook failed" "" "" ∅ 0
    | Some args =>
        Run (Some hook) (ctx_context ctx) (ctx_now ctx)
          (mkHookInput (c_agent_id c) (call_action c) (call_resource c) args sub "authorize" (ctx_ip ctx))
          (ctx_tie ctx)
    end in
  match g_hook_subject g with
  | None => Some (run None)
  | Some f => match f (c_agent_id c) with None => None | Some sub => Some (run (Some sub)) end
  end.

Definition applyHook g (hook : Runner (HookInput Args Sub)) (ctx : Ctx) st (c : Call) (d : Decision)
  (r : guard_result) : option A * Decision * option Outcome * guard_result :=
  if negb (is_permit r) then (st, d, None, r)
  else match hook_outcome g hook ctx c with
  | None => (st, d, None, GuardFailed CodePolicyIndeterminate)
  | Some out =>
      if (o_decision out =? Hook_Allow)%string then
        if (d_effect d =? Escalate)%string
        then let '(st, r) := escalate ctx st c d in (st, d, Some out, r)
        else (st, d, Some out, Permit None)
      else if (o_decision out =? Hook_Escalate)%string then
        let d := if (d_effect d =? Escalate)%string then d else hook_escalated d out in
        let '(st, r) := escalate ctx st c d in (st, d, Some out, r)
      else (st, hook_denied d out, Some out, DeniedError (o_code out))
  end.

Definition decide_call g (ctx : Ctx) (tr : option ProvenanceTracker) st (c : Call)
  : option A * option (gmap string (list string) * Decision) * option Outcome * guard_result :=
  match guard_evaluate g ctx tr st c with
  | (st, None, r) => (st, None, None, r)
  | (st, Some (prov, d), r) =>
      match g_hook g with
      | None => (st, Some (prov, d), None, r)
      | Some hook =>
          if negb (d_effect d =? Allow)%string && negb (d_effect d =? Escalate)%string
          then (st, Some (prov, d), None, r)
          else let '(st, d, hk, r) := applyHook g hook ctx st c d r in (st, Some (prov, d), hk, r)
      end
  end.

(** [audit] *)
Definition guard_audit g (c : Call) (pd : option (gmap string (list string) * Decision))
  (hk : option Outcome) (r : guard_result) : option GuardAudit :=
  match pd with
  | None => None
  | Some (prov, d) =>
      let hookBlocked := match hk with Some o => negb (Allowed o) | None => false end in
      if negb (g_audit g) || (bool_decide (prov = ∅) && negb hookBlocked) then None
      else
        let '(outcome, code) :=
          match r with
          | TaintViolationError _ => ("taint_denied", d_code d)
          | DeniedError _ => ("denied", d_code d)
          | ApprovalRequiredError _ _ _ => ("approval_required", d_code d)
          | GuardFailed _ => ("failed", d_code d)
          | Permit _ =>
              if (d_effect d =? Escalate)%string then ("approved", CodeApprovalConsumed)
              else ("allowed", d_code d)
          end in
        let code := if (CodeOf r =? "")%string then code else CodeOf r in
        Some (mkGuardAudit (c_agent_id c) (c_tool c) (call_action c) (call_resource c) (d_effect d)
                outcome (d_reason d) code prov (if bool_decide (prov = ∅) then None else d_taint d) hk)
  end.

(** [authorize]: the provenance, the result and the audit record. *)
Definition authorize g (ctx : Ctx) (tr : option ProvenanceTracker) st (c : Call)
  : option A * gmap string (list string) * guard_result * option GuardAudit :=
  let '(st, pd, hk, r) := decide_call g ctx tr st c in
  (st, match pd with Some (prov, _) => prov | None => ∅ end, r, guard_audit g c pd hk r).

Definition Authorize g (ctx : Ctx) (tr : option ProvenanceTracker) st (c : Call)
  : option A * guard_result :=
  let '(st, _, r, _) := authorize g ctx tr st c in (st, r).

(** [Tool]: [fn] runs only on a permit; its result, [None] for an error, is tracked. *)
Definition Tool g (build : gval -> Call) (fn : gval -> option gval) (ctx : Ctx)
  (tr : option ProvenanceTracker) st (args : gval)
  : option ProvenanceTracker * option A * (guard_result + option gval) :=
  let c := build args in
  let c := match c_args c, tr with
           | GInvalid, Some _ =>
               mkCall (c_agent_id c) (c_tool c) (c_action c) (c_resource c) (c_amount c) (c_currency c)
                 (c_data_class c) (c_irreversible c) (c_attributes c) (c_provenance c) args
           | _, _ => c
           end in
  let '(st, prov, r, _) := authorize g ctx tr st c in
  if negb (is_permit r) then (tr, st, inl r)
  else
    let res := fn args in
    let tr := match res, tr with
              | Some v, Some t => Some (TrackResult t (c_tool c) v (DeriveLabels prov))
              | _, _ => tr
              end in
    (tr, st, inr res).
End ToolGuard.

(** ** The two stores keep the approvals contract *)

Definition mem_spent (m : MemoryApprovals) (id : string) : Prop := ∃ r, m !! id = Some r ∧ mr_spent r = true.

Lemma MemConsume_cases m id c :
  MemConsume m id c = (m, false)
  ∨ ∃ r, m !! id = Some r ∧ mr_approved r = true ∧ mr_spent r = false
      ∧ mr_agent_id r = c_agent_id c ∧ mr_action r = call_action c ∧ mr_resource r = call_resource c
      ∧ MemConsume m id c =
        (<[id := mkMemRequest (mr_agent_id r) (mr_action r) (mr_resource r) true true (mr_approver r)]> m, true).
Proof.
  unfold MemConsume. destruct (m !! id) as [r|] eqn:E; [|by left].
  destruct (mr_approved r) eqn:Ea, (mr_spent r) eqn:Es; simpl; try by left.
  destruct (String.eqb_spec (mr_agent_id r) (c_agent_id c)); simpl; [|by left].
  destruct (String.eqb_spec (mr_action r) (call_action c)); simpl; [|by left].
  destruct (String.eqb_spec (mr_resource r) (call_resource c)); simpl; [|by left].
  right. exists r. by rewrite Ea, Es.
Qed.

#[export] Instance MemoryApprovals_store : ApprovalStore MemoryApprovals.
Proof.
  refine {| ap_open m _ id c _ := Some (MemOpen m id c);
            ap_consume m _ id c := let '(m', ok) := MemConsume m id c in (m', Some ok);
            ap_env m m' := ∃ id by_, MemApprove m id by_ = Some m';
            ap_dead := mem_spent;
            ap_known m id := is_Some (m !! id) |}.
  - intros m now id c m' _ E.
    destruct (MemConsume_cases m id c) as [Ec|(r & Hr & _ & Hs & _ & _ & _ & Ec)]; rewrite Ec in E;
      simplify_eq. split.
    + eexists. split; [apply lookup_insert_eq|done].
    + intros (r' & Hr' & Hs'). congruence.
  - intros m now id id' c (r & Hr & Hs).
    destruct (MemConsume_cases m id' c) as [->|(r' & Hr' & _ & Hs' & _ & _ & _ & ->)]; simpl; [by exists r|].
    exists r. rewrite lookup_insert_ne by congruence. done.
  - intros m now id id' c.
    destruct (MemConsume_cases m id' c) as [->|(r' & Hr' & _ & Hs' & _ & _ & _ & ->)]; simpl; [done|].
    destruct (decide (id' = id)) as [->|]; [eauto|by rewrite lookup_insert_ne].
  - intros m now id id' c e m' (r & Hr & Hs) Hk [= <-]. exists r.
    unfold MemOpen. rewrite lookup_insert_ne by (intros ->; eauto). done.
  - intros m m' id (r & Hr & Hs) (id' & by_ & E). unfold MemApprove in E.
    destruct (m !! id') as [r'|] eqn:Hr'; simplify_eq. destruct (decide (id' = id)) as [->|].
    + eexists. split; [apply lookup_insert_eq|]. simpl. congruence.
    + exists r. by rewrite lookup_insert_ne.
Defined.

Definition storage_spent (s : Approvals_) (id : string) : Prop :=
  ∃ a, s !! id = Some a ∧ ta_consumed_at a ≠ 0.

(** A human decision taken on the shared store. *)
Definition storage_env (s s' : Approvals_) : Prop :=
  ∃ id by_ now, s' = (ApproveToolApproval s id by_ now).1 ∨ s' = (DenyToolApproval s id by_ now).1.

Lemma storage_env_spent s s' id : storage_spent s id -> storage_env s s' -> storage_spent s' id.
Proof.
  intros (a & Ha & Hc) (id' & by_ & now & [->| ->]);
    unfold ApproveToolApproval, DenyToolApproval; destruct (s !! id') as [a'|] eqn:Ha'; try by exists a.
  all: destruct (negb _ || _) eqn:E; [by exists a|].
  all: destruct (decide (id' = id)) as [->|]; [|exists a; simpl; by rewrite lookup_insert_ne].
  all: simplify_eq; eexists; split; [apply lookup_insert_eq|done].
Qed.

Lemma StorageConsume_cases s now id c :
  StorageConsume s now id c = (s, false)
  ∨ ∃ a, s !! id = Some a ∧ ta_consumed_at a = 0
      ∧ StorageConsume s now id c = (<[id := set_consumed a now]> s, true).
Proof.
  unfold StorageConsume, ConsumeToolApproval. destruct (s !! id) as [a|] eqn:E; [|by left].
  destruct (IsZero (ta_approved_at a) || negb (toolApprovalLive a now)) eqn:El; [by left|].
  destruct (negb _ || negb _ || negb _); [by left|]. right. exists a. split_and!; [done| |done].
  unfold toolApprovalLive, IsZero in El. bool_prop. done.
Qed.

#[export] Instance StorageApprovals_store (ttl : Z) : ApprovalStore Approvals_.
Proof.
  refine {| ap_open := StorageOpen ttl;
            ap_consume s now id c := let '(s', ok) := StorageConsume s now id c in (s', Some ok);
            ap_env := storage_env;
            ap_dead := storage_spent;
            ap_known s id := is_Some (s !! id) |}.
  - intros s now id c s' Hnow E.
    destruct (StorageConsume_cases s now id c) as [Ec|(a & Ha & Hc & Ec)]; rewrite Ec in E; simplify_eq.
    split; [eexists; split; [apply lookup_insert_eq|simpl; lia]|].
    intros (a' & Ha' & Hc'). congruence.
  - intros s now id id' c (a & Ha & Hc).
    destruct (StorageConsume_cases s now id' c) as [->|(a' & Ha' & Hc' & ->)]; simpl; [by exists a|].
    exists a. rewrite lookup_insert_ne by congruence. done.
  - intros s now id id' c.
    destruct (StorageConsume_cases s now id' c) as [->|(a' & Ha' & Hc' & ->)]; simpl; [done|].
    destruct (decide (id' = id)) as [->|]; [eauto|by rewrite lookup_insert_ne].
  - intros s now id id' c e s' (a & Ha & Hc) Hk E. unfold StorageOpen, OpenToolApproval in E. simpl in E.
    destruct (s !! id') eqn:E'; simplify_eq. exists a. rewrite lookup_insert_ne by congruence. done.
  - intros s s' id. apply storage_env_spent.
Defined.

(** ** Theorems *)

Section GuardTheorems.
Context `{GoLib} {A : Type} `{ApprovalStore A} {Args Sub : Type}.
Implicit Types (g : Guard Args Sub) (st : option A).

(** The policy decision on a call, when the guard gets as far as evaluating it. *)
Definition policy_decision g (ctx : Ctx) (tr : option ProvenanceTracker) (c : Call) : option Decision :=
  match g_policies g with
  | Some policies =>
      if (c_agent_id c =? "")%string then None
      else match match g_limit g with Some f => f (c_agent_id c) | None => None end, policies (c_agent_id c) with
      | None, Some pols => Some (Evaluate (g_evaluator g) (ctx_now ctx) (call_request tr c) pols)
      | _, _ => None
      end
  | None => None
  end.

(** What the hook says, allow when there is none; [None] when the agent could not be described. *)
Definition hook_says g (ctx : Ctx) (c : Call) : option string :=
  match g_hook g with
  | None => Some Hook_Allow
  | Some hook => match hook_outcome g hook ctx c with Some o => Some (o_decision o) | None => None end
  end.

(** The presented approval is spent, now, on this call. *)
Definition spends (ctx : Ctx) st (c : Call) st' : Prop :=
  ∃ s s', st = Some s ∧ st' = Some s' ∧ ctx_approval_id ctx ≠ ""
    ∧ ap_consume s (ctx_store_now ctx) (ctx_approval_id ctx) c = (s', Some true).

(** The requirement of the escalation, a human approval when the decision has none. *)
Definition needs (d : Decision) : string :=
  match d_escalation d with Some e => esc_requirement e | None => RequireApproval end.

Lemma escalate_permit_iff ctx st c d st' spent :
  escalate ctx st c d = (st', Permit spent) ↔
  needs d = RequireApproval ∧ spends ctx st c st' ∧ spent = Some (ctx_approval_id ctx).
Proof.
  unfold escalate, needs, spends.
  assert (Hreq : esc_requirement (default (mkEscalation "" RequireApproval (d_reason d)) (d_escalation d))
    = match d_escalation d with Some e => esc_requirement e | None => RequireApproval end)
    by (by destruct (d_escalation d)).
  rewrite Hreq. destruct st as [s|]; [|naive_solver].
  set (req := match d_escalation d with Some e => esc_requirement e | None => _ end).
  destruct (String.eqb_spec (ctx_approval_id ctx) ""), (String.eqb_spec req RequireApproval); simpl;
    try (destruct (ctx_fresh_id ctx); [destruct (ap_open _ _ _ _ _)|]; naive_solver).
  destruct (ap_consume s _ _ c) as [s1 spent1] eqn:E. transitivity (spent1 = Some true ∧ st' = Some s1
    ∧ spent = Some (ctx_approval_id ctx)).
  - destruct spent1 as [[|]|]; [naive_solver| |naive_solver].
    destruct (ctx_fresh_id ctx); [destruct (ap_open _ _ _ _ _)|]; naive_solver.
  - split; [intros (-> & -> & ->); split_and!; [done|by exists s, s1|done]|].
    intros (_ & (s0 & s2 & [= <-] & -> & _ & Ec) & ->). rewrite E in Ec. by injection Ec as -> ->.
Qed.

Lemma guard_evaluate_decision g ctx tr st c :
  match policy_decision g ctx tr c with
  | None => ∃ code, guard_evaluate g ctx tr st c = (st, None, GuardFailed code)
  | Some d =>
      guard_evaluate g ctx tr st c =
      let prov := call_provenance tr c in
      if (d_effect d =? Allow)%string then (st, Some (prov, d), Permit None)
      else if (d_effect d =? Escalate)%string then
        match g_hook g with
        | Some _ => (st, Some (prov, d), Permit None)
        | None => let '(st, r) := escalate ctx st c d in (st, Some (prov, d), r)
        end
      else match d_taint d with
      | Some v =>
          if (tv_verdict v =? TaintDeny)%string then (st, Some (prov, d), TaintViolationError (d_code d))
          else (st, Some (prov, d), DeniedError (d_code d))
      | None => (st, Some (prov, d), DeniedError (d_code d))
      end
  end.
Proof.
  unfold policy_decision, guard_evaluate. destruct (g_policies g) as [policies|]; [|eauto].
  destruct (c_agent_id c =? "")%string; [eauto|].
  destruct (match g_limit g with Some f => f (c_agent_id c) | None => None end); [eauto|].
  destruct (policies (c_agent_id c)) as [pols|]; eauto.
Qed.

Ltac elim_combined := intros [(?&?&?&?)|(?&?&[(?&?&[?|?])|(?&?&?&?&?&?&?)])]; congruence.

(** How [Authorize] combines the policy decision [d] with the hook and the approvals. *)
Lemma Authorize_combines g ctx tr st c d :
  policy_decision g ctx tr c = Some d ->
  ∀ st' spent, Authorize g ctx tr st c = (st', Permit spent) ↔
  (d_effect d = Allow ∧ hook_says g ctx c = Some Hook_Allow ∧ st' = st ∧ spent = None)
  ∨ (∃ e, escalate ctx st c e = (st', Permit spent)
     ∧ (e = d ∧ d_effect d = Escalate
          ∧ (hook_says g ctx c = Some Hook_Allow ∨ hook_says g ctx c = Some Hook_Escalate)
        ∨ ∃ hook out, g_hook g = Some hook ∧ hook_outcome g hook ctx c = Some out
            ∧ o_decision out = Hook_Escalate ∧ d_effect d = Allow ∧ e = hook_escalated d out)).
Proof.
  intros Hd st' spent. pose proof (guard_evaluate_decision g ctx tr st c) as He. rewrite Hd in He.
  unfold Authorize, authorize, decide_call, hook_says. rewrite He. clear He Hd. cbn zeta.
  assert (Hae : Allow ≠ Escalate) by discriminate.
  assert (Hhe : Hook_Allow ≠ Hook_Escalate) by discriminate.
  destruct (String.eqb_spec (d_effect d) Allow) as [Ha|Ha].
  - destruct (g_hook g) as [hook|].
    2: { split; [intros [= <- <-]; by left|elim_combined]. }
    rewrite Ha. simpl. unfold applyHook. cbn [is_permit negb].
    destruct (hook_outcome g hook ctx c) as [out|] eqn:Eo; [|split; [done|elim_combined]].
    destruct (String.eqb_spec (o_decision out) Hook_Allow) as [Eh|Eh].
    { rewrite Ha, Eh. simpl. split; [intros [= <- <-]; by left|elim_combined]. }
    destruct (String.eqb_spec (o_decision out) Hook_Escalate) as [Ee|Ee]; [|split; [done|elim_combined]].
    rewrite Ha. simpl. destruct (escalate _ _ _ _) as [st1 r1] eqn:Ec. split.
    + intros [= -> ->]. right. eexists. split; [exact Ec|]. right. by exists hook, out.
    + elim_combined.
  - destruct (String.eqb_spec (d_effect d) Escalate) as [Hes|Hes].
    + destruct (g_hook g) as [hook|].
      2: { destruct (escalate _ _ _ _) as [st1 r1] eqn:Ec. split; [|elim_combined].
           intros [= -> ->]. right. eexists. split; [exact Ec|]. left. auto. }
      rewrite Hes. simpl. unfold applyHook. cbn [is_permit negb].
      destruct (hook_outcome g hook ctx c) as [out|] eqn:Eo; [|split; [done|elim_combined]].
      rewrite Hes. destruct (String.eqb_spec (o_decision out) Hook_Allow) as [Eh|Eh];
        [|destruct (String.eqb_spec (o_decision out) Hook_Escalate) as [Ee|Ee]]; simpl.
      3: { split; [done|elim_combined]. }
      all: destruct (escalate _ _ _ _) as [st1 r1] eqn:Ec; split; [|elim_combined].
      all: intros [= -> ->]; right; eexists; split; [exact Ec|]; left; rewrite ?Eh, ?Ee; auto.
    + split; [|elim_combined]. apply String.eqb_neq in Ha, Hes.
      destruct (d_taint d) as [v|]; [destruct (tv_verdict v =? TaintDeny)%string|];
        destruct (g_hook g); rewrite ?Ha, ?Hes; simpl; discriminate.
Qed.

(** C5. The guard permits a call in exactly two ways. Either the policy allows it and the hook (if
    there is one) allows it, and no approval is touched; or the call is escalated, by a policy that
    asks for a human approval or by the hook, no hook denies it, and the approval id presented with
    the call is spent on it by the store. In particular a policy deny, a failed policy load, an
    empty agent id, a rate limit, a step up requirement or a failing hook never permits. *)
Theorem Authorize_permit_iff g ctx tr st c st' spent :
  Authorize g ctx tr st c = (st', Permit spent) ↔
  ∃ d, policy_decision g ctx tr c = Some d
    ∧ (d_effect d = Allow ∧ hook_says g ctx c = Some Hook_Allow ∧ st' = st ∧ spent = None
       ∨ (d_effect d = Escalate ∧ needs d = RequireApproval
            ∧ (hook_says g ctx c = Some Hook_Allow ∨ hook_says g ctx c = Some Hook_Escalate)
          ∨ d_effect d = Allow ∧ hook_says g ctx c = Some Hook_Escalate)
         ∧ spends ctx st c st' ∧ spent = Some (ctx_approval_id ctx)).
Proof.
  destruct (policy_decision g ctx tr c) as [d|] eqn:Hd.
  2: { split; [|naive_solver]. pose proof (guard_evaluate_decision g ctx tr st c) as He.
       rewrite Hd in He. destruct He as [code He].
       unfold Authorize, authorize, decide_call. rewrite He. done. }
  rewrite (Authorize_combines g ctx tr st c d Hd). split.
  - intros [?|(e & (Hn & Hs & ->)%escalate_permit_iff & Hcase)]; exists d; (split; [done|]); [by left|].
    right. split; [|done]. destruct Hcase as [(-> & ? & ?)|(hook & out & Hh & Ho & He & ? & ->)].
    + by left.
    + right. split; [done|]. unfold hook_says. by rewrite Hh, Ho, He.
  - intros (d' & [= <-] & [?|(Hcase & Hs & ->)]); [by left|]. right.
    destruct Hcase as [(He & Hn & Hh)|(Ha & Hh)].
    + exists d. split; [by apply escalate_permit_iff|by left].
    + unfold hook_says in Hh. destruct (g_hook g) as [hook|] eqn:Eg; [|discriminate].
      destruct (hook_outcome g hook ctx c) as [out|] eqn:Eo; [|discriminate]. injection Hh as Hh.
      exists (hook_escalated d out). split; [by apply escalate_permit_iff|].
      right. by exists hook, out.
Qed.

(** Runs of one guard over a shared store: any calls, interleaved with any steps of other clients of
    the store. The ids spent are collected. Clocks are past the zero time, and a new request never
    gets the id of an existing one (the ids are 128 random bits). *)
Inductive guard_run g : option A -> list string -> option A -> Prop :=
  | run_start st : guard_run g st [] st
  | run_env st spent s s' :
      guard_run g st spent (Some s) -> ap_env s s' -> guard_run g st spent (Some s')
  | run_call st spent st1 ctx tr c st2 r :
      guard_run g st spent st1 ->
      0 < ctx_store_now ctx ->
      (∀ s id, st1 = Some s -> ctx_fresh_id ctx = Some id -> ¬ ap_known s id) ->
      Authorize g ctx tr st1 c = (st2, r) ->
      guard_run g st (match r with Permit (Some id) => id :: spent | _ => spent end) st2.

Lemma escalate_keeps_dead ctx s c d st' r id :
  (∀ id', ctx_fresh_id ctx = Some id' -> ¬ ap_known s id') ->
  escalate ctx (Some s) c d = (st', r) -> ap_dead s id -> ∃ s', st' = Some s' ∧ ap_dead s' id.
Proof.
  intros Hfresh E Hdead. unfold escalate in E. cbn zeta in E.
  set (try := negb _ && _) in E.
  destruct (if try then _ else _) as [s1 spent] eqn:Es.
  assert (H1 : ap_dead s1 id ∧ (∀ id', ctx_fresh_id ctx = Some id' -> ¬ ap_known s1 id')).
  { destruct try; [|by injection Es as <- _].
    apply (f_equal fst) in Es. simpl in Es. rewrite <- Es. split; [by apply ap_dead_consume|].
    intros id' Hid' Hk%ap_known_consume. by apply (Hfresh id'). }
  destruct H1 as [Hd1 Hf1]. destruct spent as [[|]|]; [simplify_eq; eauto| |simplify_eq; eauto].
  destruct (ctx_fresh_id ctx) as [id'|] eqn:Ef; [|simplify_eq; eauto].
  destruct (ap_open s1 _ id' c _) as [s2|] eqn:Eo; simplify_eq; [|eauto].
  eexists. split; [done|]. by eapply ap_dead_open; [|by apply Hf1|].
Qed.

Lemma Authorize_store_cases g ctx tr st c st' r :
  Authorize g ctx tr st c = (st', r) ->
  st' = st ∨ ∃ d, escalate ctx st c d = (st', r).
Proof.
  unfold Authorize, authorize, decide_call. pose proof (guard_evaluate_decision g ctx tr st c) as He.
  destruct (policy_decision g ctx tr c) as [d|].
  2: { destruct He as [code ->]. intros [= <- _]. by left. }
  rewrite He. clear He. cbn zeta.
  destruct (g_hook g) as [hook|].
  2: { repeat case_match; intros; simplify_eq/=; eauto. }
  assert (Hhook : ∀ r0, let '(st1, _, _, r1) := applyHook g hook ctx st c d r0 in
            st1 = st ∨ ∃ d, escalate ctx st c d = (st1, r1)).
  { intros r0. unfold applyHook. destruct (negb (is_permit r0)); [by left|].
    destruct (hook_outcome g hook ctx c) as [out|]; [|by left].
    destruct (o_decision out =? Hook_Allow)%string.
    { destruct (d_effect d =? Escalate)%string; [|by left]. destruct (escalate _ _ _ _) eqn:E. eauto. }
    destruct (o_decision out =? Hook_Escalate)%string; [|by left].
    destruct (escalate _ _ _ _) eqn:E. eauto. }
  repeat case_match; intros; simplify_eq/=; eauto.
  all: match goal with E : applyHook _ _ _ _ _ _ ?r0 = _ |- _ => specialize (Hhook r0); rewrite E in Hhook end.
  all: done.
Qed.

Lemma Authorize_keeps_dead g ctx tr s c st' r id :
  (∀ id', ctx_fresh_id ctx = Some id' -> ¬ ap_known s id') ->
  Authorize g ctx tr (Some s) c = (st', r) -> ap_dead s id -> ∃ s', st' = Some s' ∧ ap_dead s' id.
Proof.
  intros Hf [->|[d E]]%Authorize_store_cases Hdead; [eauto|]. by eapply escalate_keeps_dead.
Qed.

Lemma Authorize_spends g ctx tr st c st' id :
  Authorize g ctx tr st c = (st', Permit (Some id)) -> id = ctx_approval_id ctx ∧ spends ctx st c st'.
Proof.
  destruct (policy_decision g ctx tr c) as [d|] eqn:Hd.
  - intros [(_ & _ & _ & ?)|(e & (_ & Hs & Hid)%escalate_permit_iff & _)]%(Authorize_combines _ _ _ _ _ d Hd);
      [done|]. by injection Hid.
  - pose proof (guard_evaluate_decision g ctx tr st c) as He. rewrite Hd in He. destruct He as [code He].
    unfold Authorize, authorize, decide_call. by rewrite He.
Qed.

Lemma guard_run_spent_dead g st spent st' :
  guard_run g st spent st' ->
  NoDup spent ∧ (∀ id, id ∈ spent -> ∃ s, st' = Some s ∧ ap_dead s id).
Proof.
  induction 1 as [st|st spent s s' _ [IHn IHd] Henv|st spent st1 ctx tr c st2 r _ [IHn IHd] Hnow Hf E].
  - split; [constructor|set_solver].
  - split; [done|]. intros id (s0 & [= <-] & Hd)%IHd. eexists. split; [done|]. by eapply ap_dead_env.
  - assert (Hold : ∀ id, id ∈ spent -> ∃ s, st2 = Some s ∧ ap_dead s id).
    { intros id (s & -> & Hd)%IHd. eapply Authorize_keeps_dead; [|exact E|done]. naive_solver. }
    destruct r as [[id|]| | | |]; try done.
    apply Authorize_spends in E as [-> (s & s' & -> & -> & _ & Hc)].
    destruct (ap_consume_dead _ _ _ _ _ Hnow Hc) as [Hdead Hlive]. split.
    + apply NoDup_cons. split; [|done]. intros (s0 & [= <-] & ?)%IHd. done.
    + intros id [->|Hid]%elem_of_cons; [eauto|by apply Hold].
Qed.

(** C6. An approval is spent at most once. In every run of a guard over a shared approvals store,
    whatever the calls, their agents and contexts, and however human decisions and other clients of
    the store interleave with them, no approval id permits two calls. This holds for every store
    that keeps the [Approvals] contract, and so for the in-process store and the storage backend. *)
Theorem approval_permits_one_call g st spent st' : guard_run g st spent st' -> NoDup spent.
Proof. intros Hrun. by apply guard_run_spent_dead in Hrun as [? _]. Qed.
End GuardTheorems.

(** *** A run: a call is escalated, approved by a human, permitted once, and refused after that *)

Definition demo_guard : Guard unit unit :=
  mkGuard (mkEvaluator None [mkRiskTier "wire" (S754_zero false) "" [] (Some true) RequireApproval] [])
    (Some (fun _ => Some [Some (mkPolicy "1" "p" [mkStatement "s" Allow ["*"] ["*"] [] "" ""])]))
    None None None (fun _ => Some tt) true.

Definition demo_call : Call :=
  mkCall "agent-1" "wire_transfer" "" "" (S754_zero false) "" "" true ∅ ∅ GInvalid.

Definition demo_ctx (approval : string) (fresh : string) : Ctx :=
  mkCtx approval Second Second (Some fresh) (mkContext None) "" false.

Definition demo_m0 : option MemoryApprovals := Some ∅.
Definition demo_s1 := Eval vm_compute in Authorize demo_guard (demo_ctx "" "a1") None demo_m0 demo_call.
Definition demo_m2 : MemoryApprovals := default ∅ (demo_s1.1 ≫= fun m => MemApprove m "a1" "alice").
Definition demo_s3 := Eval vm_compute in Authorize demo_guard (demo_ctx "a1" "a2") None (Some demo_m2) demo_call.
Definition demo_s4 := Eval vm_compute in Authorize demo_guard (demo_ctx "a1" "a3") None demo_s3.1 demo_call.

Example demo_run_results :
  demo_s1.2 = ApprovalRequiredError RequireApproval CodeRiskEscalation "a1"
  ∧ demo_s3.2 = Permit (Some "a1")
  ∧ demo_s4.2 = ApprovalRequiredError RequireApproval CodeApprovalInvalid "a3".
Proof. split_and!; vm_compute; reflexivity. Qed.

Lemma demo_run : guard_run demo_guard demo_m0 ["a1"] demo_s4.1.
Proof.
  apply (run_call _ _ ["a1"] demo_s3.1 (demo_ctx "a1" "a3") None demo_call _ demo_s4.2);
    [| reflexivity | | vm_compute; reflexivity].
  2: { intros s id [= <-] [= <-] [r Hr]. vm_compute in Hr. discriminate. }
  apply (run_call _ _ [] (Some demo_m2) (demo_ctx "a1" "a2") None demo_call _ (Permit (Some "a1")));
    [| reflexivity | | vm_compute; reflexivity].
  2: { intros s id [= <-] [= <-] [r Hr]. vm_compute in Hr. discriminate. }
  apply (run_env _ _ _ (default ∅ demo_s1.1)); [|exists "a1", "alice"; vm_compute; reflexivity].
  apply (run_call _ _ [] demo_m0 (demo_ctx "" "a1") None demo_call _ demo_s1.2);
    [constructor | reflexivity | | vm_compute; reflexivity].
  intros s id [= <-] [= <-] [r Hr]. vm_compute in Hr. discriminate.
Qed.

Lemma approval_permits_one_call_witness :
  guard_run demo_guard demo_m0 ["a1"] demo_s4.1 ∧ NoDup ["a1"].
Proof.
  split; [exact demo_run|].
  exact (approval_permits_one_call demo_guard demo_m0 ["a1"] demo_s4.1 demo_run).
Defined.
