(* ===== verification/DeviceAuth.v ===== *)
(** * The device grant ([internal/as/device.go], [storage/memory/memory_device.go],
      [internal/models/models_device_authz.go])

    RFC 8628: a device asks for a device code and a user code, a signed-in user approves or denies the
    user code, and the device polls the token endpoint until its code is redeemed, once. The store's
    methods are atomic; the service makes several of them per request, so requests interleave, and
    the theorems are about every interleaving. Client authentication, DPoP proofs, the attempt
    limiter and minting are arguments, as are the random codes and ids. A Go [range] over the map is
    the argument [range], any enumeration of it. *)

From Stdlib Require Import ZArith Lia String Ascii.
From stdpp Require Import base gmap strings list sorting.
From S2P Require Import Prelude Canonical.

Set Default Goal Selector "!".
Open Scope string_scope.
Open Scope list_scope.
Open Scope Z_scope.

(** ** Data *)

Definition DeviceAuthPending : string := "pending".
Definition DeviceAuthApproved : string := "approved".
Definition DeviceAuthDenied : string := "denied".
Definition DeviceAuthConsumed : string := "consumed".

Record DeviceAuthorization := mkDevice {
  da_id : string; da_device_hash : string; da_user_hash : string; da_client_id : string;
  da_scope : list string; da_resource : string; da_status : string; da_user_id : option string;
  da_interval : Z; da_last_poll : option Z; da_created_at : Z; da_expires_at : Z;
  da_decided_at : option Z;
}.

Definition set_decided (d : DeviceAuthorization) (status userID : string) (now : Z) : DeviceAuthorization :=
  mkDevice (da_id d) (da_device_hash d) (da_user_hash d) (da_client_id d) (da_scope d) (da_resource d)
    status (Some userID) (da_interval d) (da_last_poll d) (da_created_at d) (da_expires_at d) (Some now).

Definition set_polled (d : DeviceAuthorization) (at_ interval : Z) : DeviceAuthorization :=
  mkDevice (da_id d) (da_device_hash d) (da_user_hash d) (da_client_id d) (da_scope d) (da_resource d)
    (da_status d) (da_user_id d) interval (Some at_) (da_created_at d) (da_expires_at d) (da_decided_at d).

Definition set_consumed_status (d : DeviceAuthorization) : DeviceAuthorization :=
  mkDevice (da_id d) (da_device_hash d) (da_user_hash d) (da_client_id d) (da_scope d) (da_resource d)
    DeviceAuthConsumed (da_user_id d) (da_interval d) (da_last_poll d) (da_created_at d)
    (da_expires_at d) (da_decided_at d).

Inductive device_error :=
  | ErrDeviceAuthorizationPending | ErrDeviceSlowDown | ErrDeviceAccessDenied | ErrDeviceExpiredToken
  | ErrDeviceAuthDisabled | ErrDeviceAuthUserCodeTaken | ErrDeviceUserCodeInvalid
  | ErrDeviceTooManyAttempts | ErrDeviceLimiter | ErrNoUniqueUserCode | ErrRandom
  | ErrOAuthInvalidGrant | ErrOAuthInvalidRequest | ErrOAuthInvalidScope | ErrOAuthInvalidResource
  | ErrOAuthUnsupportedGrantType | ErrOAuthClient | ErrDPoP | ErrMint | ErrStorageNotFound.

(** ** The store ([memory_device.go]) *)

Abbreviation Devices := (gmap string DeviceAuthorization).

(** The loop of [InsertDeviceAuthorization] over the rows: [true] when a live row has the user code;
    long dead rows met before that are deleted. *)
Fixpoint insert_scan (rows : list (string * DeviceAuthorization)) (user_hash : string) (now : Z)
  (s : Devices) : Devices * bool :=
  match rows with
  | [] => (s, false)
  | (id, d) :: rows =>
      if (da_user_hash d =? user_hash)%string && Before now (da_expires_at d) then (s, true)
      else insert_scan rows user_hash now
             (if After now (da_expires_at d + Hour) then delete id s else s)
  end.

Section DeviceStore.
Context (range : Devices -> list (string * DeviceAuthorization)).

Definition InsertDeviceAuthorization (s : Devices) (now : Z) (d : DeviceAuthorization)
  : Devices * option device_error :=
  let '(s, taken) := insert_scan (range s) (da_user_hash d) now s in
  if taken : bool then (s, Some ErrDeviceAuthUserCodeTaken) else (<[da_id d := d]> s, None).

Definition deviceBy (s : Devices) (match_ : DeviceAuthorization -> bool) : option DeviceAuthorization :=
  List.find match_ (map snd (range s)).

Definition DeviceAuthorizationByDeviceCodeHash (s : Devices) (hash : string) : option DeviceAuthorization :=
  deviceBy s (fun d => (da_device_hash d =? hash)%string).

(** The row that expires last. *)
Definition DeviceAuthorizationByUserCodeHash (s : Devices) (hash : string) : option DeviceAuthorization :=
  fold_left (fun best kv =>
    let d := snd kv in
    if negb (da_user_hash d =? hash)%string then best
    else match best with
    | None => Some d
    | Some b => if After (da_expires_at d) (da_expires_at b) then Some d else best
    end) (range s) None.
End DeviceStore.

Definition DecideDeviceAuthorization (s : Devices) (id status userID : string) (now : Z) : Devices * bool :=
  match s !! id with
  | None => (s, false)
  | Some d =>
      if negb (da_status d =? DeviceAuthPending)%string || negb (Before now (da_expires_at d)) then (s, false)
      else (<[id := set_decided d status userID now]> s, true)
  end.

(** [None] is [ErrStorageNotFound]. *)
Definition RecordDeviceAuthorizationPoll (s : Devices) (id : string) (polledAt interval : Z) : option Devices :=
  match s !! id with
  | None => None
  | Some d => Some (<[id := set_polled d polledAt interval]> s)
  end.

Definition ConsumeDeviceAuthorization (s : Devices) (id : string) (now : Z) : Devices * bool :=
  match s !! id with
  | None => (s, false)
  | Some d =>
      if negb (da_status d =? DeviceAuthApproved)%string || negb (Before now (da_expires_at d)) then (s, false)
      else (<[id := set_consumed_status d]> s, true)
  end.

Definition DeleteExpiredDeviceAuthorizations (s : Devices) (before : Z) : Devices * Z :=
  let kept := filter (fun kv => Before (da_expires_at kv.2) before = false) s in
  (kept, Z.of_nat (size s) - Z.of_nat (size kept)).

(** ** Configuration and codes ([device.go]) *)

Definition DefaultDeviceExpiry : Z := 10 * Minute.
Definition DefaultDeviceInterval : Z := 5 * Second.
Definition DefaultUserCodeAlphabet : string := "BCDFGHJKLMNPQRSTVWXZ".
Definition DefaultUserCodeLength : Z := 8.
Definition DefaultDeviceVerifyAttempts : Z := 10.
Definition DefaultDeviceVerifyWindow : Z := 15 * Minute.
Definition deviceSlowDownStep : Z := 5.
Definition deviceMaxInsertTry : nat := 5.

Record DeviceConfig := mkDeviceConfig {
  dc_expires_in : Z; dc_interval : Z; dc_code_length : Z; dc_alphabet : string;
  dc_max_attempts : Z; dc_attempt_window : Z;
}.

Definition applyDeviceDefaults (c : DeviceConfig) : DeviceConfig :=
  mkDeviceConfig
    (if dc_expires_in c <=? 0 then DefaultDeviceExpiry else dc_expires_in c)
    (if dc_interval c <=? 0 then DefaultDeviceInterval else dc_interval c)
    (if dc_code_length c <=? 0 then DefaultUserCodeLength else dc_code_length c)
    (if (dc_alphabet c =? "")%string then DefaultUserCodeAlphabet else dc_alphabet c)
    (if dc_max_attempts c <=? 0 then DefaultDeviceVerifyAttempts else dc_max_attempts c)
    (if dc_attempt_window c <=? 0 then DefaultDeviceVerifyWindow else dc_attempt_window c).

(** Upper case of an ASCII letter. *)
Definition upper_byte (c : ascii) : ascii :=
  if (97 <=? byte_val c) && (byte_val c <=? 122) then byte_of (byte_val c - 32) else c.

(** [strings.ToUpper], which maps a string of ASCII bytes byte by byte, and HMAC-SHA256. *)
Class DeviceLib := {
  ToUpper : string -> string;
  hmac : string -> string -> string;
  ToUpper_ascii s :
    Forall (fun c => byte_val c < 128) (list_ascii_of_string s) ->
    ToUpper s = string_of_list_ascii (map upper_byte (list_ascii_of_string s));
}.

Section Service.
Context `{DeviceLib}.

Definition codeHash (encryptionKey label code : string) : string :=
  hmac (hmac encryptionKey "theauth/device-authorization/v1")
    (label +:+ String "000" "" +:+ code).

Definition normalizeUserCode (i alphabet : string) : string :=
  string_of_list_ascii (List.concat (map encode_rune
    (List.filter (fun r => existsb (Z.eqb r) (runes alphabet)) (runes (ToUpper i))))).

Definition formatUserCode (code : string) : string :=
  let n := String.length code in
  if (n <? 4)%nat then code
  else let h := Nat.div n 2 in String.substring 0 h code +:+ "-" +:+ String.substring h (n - h) code.

(** The code the random indices [picks] give. *)
Definition newUserCode (alphabet : string) (picks : list nat) : option string :=
  string_of_list_ascii <$> mapM (fun k => String.get k alphabet) picks.

(** ** Resources and scopes ([device.go], [service.go]) *)

Record ProtectedResource := mkResource { pr_identifier : string; pr_scopes : list string }.

Fixpoint trim_slashes (l : list ascii) : list ascii :=
  match l with
  | c :: l' => if Ascii.eqb c "/" then trim_slashes l' else l
  | [] => []
  end.

(** [strings.TrimRight(s, "/")] *)
Definition TrimRightSlash (s : string) : string :=
  string_of_list_ascii (rev (trim_slashes (rev (list_ascii_of_string s)))).

Definition ResourceByIdentifier (resources : list ProtectedResource) (id : string) : option ProtectedResource :=
  List.find (fun r => (TrimRightSlash (pr_identifier r) =? TrimRightSlash id)%string) resources.

Definition deviceResource (resources : list ProtectedResource) (id : string) : result device_error ProtectedResource :=
  if (id =? "")%string then
    match resources with [r] => Ok r | _ => Err ErrOAuthInvalidResource end
  else match ResourceByIdentifier resources id with
  | None => Err ErrOAuthInvalidResource
  | Some r => Ok r
  end.

(** Any error is [ErrOAuthInvalidScope] to the caller. *)
Definition validateScopeAgainstResource (requested : list string) (r : ProtectedResource)
  : result device_error (list string) :=
  match requested with
  | [] => Err ErrOAuthInvalidScope
  | _ =>
      if bool_decide (pr_scopes r = []) then Ok requested
      else if forallb (fun s => bool_decide (s ∈ pr_scopes r)) requested then Ok requested
      else Err ErrOAuthInvalidScope
  end.

(** ** The service ([device.go]) *)

Record OAuthClient := mkClient { cl_client_id : string; cl_grant_types : list string }.
Definition GrantTypeDeviceCode : string := "urn:ietf:params:oauth:grant-type:device_code".

Record DeviceAuthResponse := mkDeviceResponse {
  dr_device_code : string; dr_user_code : string; dr_expires_in : Z; dr_interval : Z;
}.

Record DeviceService := mkService {
  sv_cfg : DeviceConfig;
  sv_resources : list ProtectedResource;
  sv_key : string;
  sv_range : Devices -> list (string * DeviceAuthorization);
}.

Definition with_user_hash (d : DeviceAuthorization) (h : string) : DeviceAuthorization :=
  mkDevice (da_id d) (da_device_hash d) h (da_client_id d) (da_scope d) (da_resource d) (da_status d)
    (da_user_id d) (da_interval d) (da_last_poll d) (da_created_at d) (da_expires_at d) (da_decided_at d).

(** The retry loop: [codes] gives the user code of each try, [None] when the random source fails;
    [wall] is the store's own clock. *)
Fixpoint insert_loop (sv : DeviceService) (wall : Z) (row : DeviceAuthorization) (codes : nat -> option string)
  (try tries : nat) (s : Devices) : Devices * result device_error string :=
  match tries with
  | O => (s, Err ErrNoUniqueUserCode)
  | S tries =>
      match codes try with
      | None => (s, Err ErrRandom)
      | Some userCode =>
          match InsertDeviceAuthorization (sv_range sv) s wall
                  (with_user_hash row (codeHash (sv_key sv) "user" userCode)) with
          | (s, Some _) => insert_loop sv wall row codes (S try) tries s
          | (s, None) => (s, Ok userCode)
          end
      end
  end.

(** The client was authenticated, or not ([None]). *)
Definition StartDeviceAuthorization (sv : DeviceService) (s : Devices) (now wall : Z)
  (client : option OAuthClient) (scope : list string) (resource : string)
  (id : string) (deviceCode : option string) (codes : nat -> option string)
  : Devices * result device_error DeviceAuthResponse :=
  let cfg := sv_cfg sv in
  match client with
  | None => (s, Err ErrOAuthClient)
  | Some c =>
      if negb (existsb (String.eqb GrantTypeDeviceCode) (cl_grant_types c))
      then (s, Err ErrOAuthUnsupportedGrantType)
      else match deviceResource (sv_resources sv) resource with
      | Err e => (s, Err e)
      | Ok res =>
          match validateScopeAgainstResource scope res with
          | Err e => (s, Err e)
          | Ok scope =>
              match deviceCode with
              | None => (s, Err ErrRandom)
              | Some code =>
                  let row := mkDevice id (codeHash (sv_key sv) "device" code) "" (cl_client_id c) scope
                               (pr_identifier res) DeviceAuthPending None (Z.quot (dc_interval cfg) Second)
                               None now (now + dc_expires_in cfg) None in
                  match insert_loop sv wall row codes 0 deviceMaxInsertTry s with
                  | (s, Err e) => (s, Err e)
                  | (s, Ok userCode) =>
                      (s, Ok (mkDeviceResponse code (formatUserCode userCode)
                                (Z.quot (dc_expires_in cfg) Second) (da_interval row)))
                  end
              end
          end
      end
  end.

(** [limited]: the limiter's answer, [None] when it fails. *)
Definition attemptAllowed (limited : option bool) : option device_error :=
  match limited with
  | None => Some ErrDeviceLimiter
  | Some false => Some ErrDeviceTooManyAttempts
  | Some true => None
  end.

Definition lookupPending (sv : DeviceService) (s : Devices) (now : Z) (userCode : string)
  : result device_error DeviceAuthorization :=
  let norm := normalizeUserCode userCode (dc_alphabet (sv_cfg sv)) in
  if negb (Z.of_nat (String.length norm) =? dc_code_length (sv_cfg sv)) then Err ErrDeviceUserCodeInvalid
  else match DeviceAuthorizationByUserCodeHash (sv_range sv) s (codeHash (sv_key sv) "user" norm) with
  | None => Err ErrDeviceUserCodeInvalid
  | Some row =>
      if negb (da_status row =? DeviceAuthPending)%string || negb (Before now (da_expires_at row))
      then Err ErrDeviceUserCodeInvalid else Ok row
  end.

Definition LookupDeviceUserCode (sv : DeviceService) (s : Devices) (now : Z) (limited : option bool)
  (userCode : string) : result device_error (string * list string * Z) :=
  match attemptAllowed limited with
  | Some e => Err e
  | None =>
      match lookupPending sv s now userCode with
      | Err e => Err e
      | Ok row => Ok (da_client_id row, da_scope row, da_expires_at row)
      end
  end.

(** [later] is the clock when the decision is stored. *)
Definition DecideDeviceUserCode (sv : DeviceService) (s : Devices) (now later : Z) (limited : option bool)
  (userCode userID : string) (approve : bool) : Devices * option device_error :=
  match attemptAllowed limited with
  | Some e => (s, Some e)
  | None =>
      match lookupPending sv s now userCode with
      | Err e => (s, Some e)
      | Ok row =>
          let status := if approve then DeviceAuthApproved else DeviceAuthDenied in
          let '(s, applied) := DecideDeviceAuthorization s (da_id row) status userID later in
          (s, if applied : bool then None else Some ErrDeviceUserCodeInvalid)
      end
  end.

(** *** [PollDeviceToken], by its calls of the store *)

Definition poll_lookup (sv : DeviceService) (s : Devices) (now : Z) (client : option OAuthClient)
  (code : string) : result device_error DeviceAuthorization :=
  match client with
  | None => Err ErrOAuthClient
  | Some c =>
      if (code =? "")%string then Err ErrOAuthInvalidRequest
      else match DeviceAuthorizationByDeviceCodeHash (sv_range sv) s (codeHash (sv_key sv) "device" code) with
      | None => Err ErrOAuthInvalidGrant
      | Some row =>
          if negb (da_client_id row =? cl_client_id c)%string then Err ErrOAuthInvalidGrant
          else if negb (Before now (da_expires_at row)) then Err ErrDeviceExpiredToken
          else Ok row
      end
  end.

Definition too_fast (row : DeviceAuthorization) (now : Z) : bool :=
  match da_last_poll row with
  | Some last => Sub now last <? da_interval row * Second
  | None => false
  end.

Definition poll_record (s : Devices) (row : DeviceAuthorization) (now : Z) : result device_error Devices :=
  let interval := if too_fast row now then da_interval row + deviceSlowDownStep else da_interval row in
  match RecordDeviceAuthorizationPoll s (da_id row) now interval with
  | None => Err ErrStorageNotFound
  | Some s => Ok s
  end.

(** The user who approved, or the error of the row's status. *)
Definition poll_status (row : DeviceAuthorization) : result device_error string :=
  if (da_status row =? DeviceAuthPending)%string then Err ErrDeviceAuthorizationPending
  else if (da_status row =? DeviceAuthDenied)%string then Err ErrDeviceAccessDenied
  else if (da_status row =? DeviceAuthApproved)%string then
    match da_user_id row with None => Err ErrOAuthInvalidGrant | Some user => Ok user end
  else Err ErrOAuthInvalidGrant.

(** [dpop]: the thumbprint, [None] on a bad proof. [mint client user scope resource jkt] is the token
    response, [None] on an error. *)
Definition PollDeviceToken {Resp} (sv : DeviceService) (s : Devices) (now : Z) (client : option OAuthClient)
  (code : string) (dpop : option string)
  (mint : string -> string -> list string -> string -> string -> option Resp)
  : Devices * result device_error Resp :=
  match poll_lookup sv s now client code with
  | Err e => (s, Err e)
  | Ok row =>
      match poll_record s row now with
      | Err e => (s, Err e)
      | Ok s =>
          if too_fast row now then (s, Err ErrDeviceSlowDown)
          else match poll_status row with
          | Err e => (s, Err e)
          | Ok user =>
              match dpop with
              | None => (s, Err ErrDPoP)
              | Some jkt =>
                  let '(s, won) := ConsumeDeviceAuthorization s (da_id row) now in
                  if negb won then (s, Err ErrOAuthInvalidGrant)
                  else match mint (da_client_id row) user (da_scope row) (da_resource row) jkt with
                  | None => (s, Err ErrMint)
                  | Some resp => (s, Ok resp)
                  end
              end
          end
      end
  end.
End Service.

(** ** Interleaved requests *)

(** A redemption, as the minting sees it. *)
Record redemption := mkRedemption {
  rd_id : string; rd_client : string; rd_user : string; rd_scope : list string; rd_resource : string;
  rd_at : Z;
}.

(** The store, the polls in flight (the row read, the clock, and whether the poll was recorded), and
    what happened: the rows inserted, the approvals of users, the codes redeemed. *)
Record world := mkWorld {
  w_store : Devices;
  w_polls : gmap nat (DeviceAuthorization * Z * bool);
  w_inserted : list DeviceAuthorization;
  w_approved : list (string * string);
  w_redeemed : list redemption;
}.

Definition world0 : world := mkWorld ∅ ∅ [] [] [].

Section Interleaving.
Context `{DeviceLib} (sv : DeviceService).

(** One store call of some request. New rows are pending and have a fresh id; a decision is by a
    signed-in user, on any id. A poll reads, then records itself, then consumes. *)
Inductive device_step : world -> world -> Prop :=
  | step_insert w wall d s err :
      da_status d = DeviceAuthPending -> da_id d ∉ map da_id (w_inserted w) ->
      InsertDeviceAuthorization (sv_range sv) (w_store w) wall d = (s, err) ->
      device_step w (mkWorld s (w_polls w)
        (match err with None => d :: w_inserted w | Some _ => w_inserted w end) (w_approved w) (w_redeemed w))
  | step_decide w id user now (approve : bool) s applied :
      DecideDeviceAuthorization (w_store w) id
        (if approve then DeviceAuthApproved else DeviceAuthDenied) user now = (s, applied) ->
      device_step w (mkWorld s (w_polls w) (w_inserted w)
        (if applied && approve then (id, user) :: w_approved w else w_approved w) (w_redeemed w))
  | step_purge w before :
      device_step w (mkWorld (DeleteExpiredDeviceAuthorizations (w_store w) before).1 (w_polls w)
        (w_inserted w) (w_approved w) (w_redeemed w))
  | step_poll_read w p now client code row :
      poll_lookup sv (w_store w) now client code = Ok row ->
      device_step w (mkWorld (w_store w) (<[p := (row, now, false)]> (w_polls w)) (w_inserted w)
        (w_approved w) (w_redeemed w))
  | step_poll_record w p row now s :
      w_polls w !! p = Some (row, now, false) -> poll_record (w_store w) row now = Ok s ->
      device_step w (mkWorld s
        (if too_fast row now then delete p (w_polls w) else <[p := (row, now, true)]> (w_polls w))
        (w_inserted w) (w_approved w) (w_redeemed w))
  | step_poll_abort w p :
      device_step w (mkWorld (w_store w) (delete p (w_polls w)) (w_inserted w) (w_approved w) (w_redeemed w))
  | step_poll_consume w p row now user s (won : bool) :
      w_polls w !! p = Some (row, now, true) -> poll_status row = Ok user ->
      ConsumeDeviceAuthorization (w_store w) (da_id row) now = (s, won) ->
      device_step w (mkWorld s (delete p (w_polls w)) (w_inserted w) (w_approved w)
        (if won then
           mkRedemption (da_id row) (da_client_id row) user (da_scope row) (da_resource row) now :: w_redeemed w
         else w_redeemed w)).

(** A row some insertion made, decided only by recorded approvals. *)
Definition row_ok (w : world) (d : DeviceAuthorization) : Prop :=
  (∃ d0, d0 ∈ w_inserted w ∧ da_id d0 = da_id d ∧ da_client_id d0 = da_client_id d
     ∧ da_scope d0 = da_scope d ∧ da_resource d0 = da_resource d ∧ da_expires_at d0 = da_expires_at d)
  ∧ (da_status d = DeviceAuthApproved -> ∃ user, da_user_id d = Some user ∧ (da_id d, user) ∈ w_approved w).

Record world_ok (w : world) : Prop := {
  wo_ids : NoDup (map da_id (w_inserted w));
  wo_rows id d : w_store w !! id = Some d -> da_id d = id ∧ row_ok w d;
  wo_polls p row now b : w_polls w !! p = Some (row, now, b) -> row_ok w row;
  wo_redeemed r : r ∈ w_redeemed w ->
    (∀ d, w_store w !! rd_id r = Some d -> da_status d = DeviceAuthConsumed)
    ∧ (rd_id r, rd_user r) ∈ w_approved w
    ∧ ∃ d0, d0 ∈ w_inserted w ∧ da_id d0 = rd_id r ∧ da_client_id d0 = rd_client r
        ∧ da_scope d0 = rd_scope r ∧ da_resource d0 = rd_resource r ∧ rd_at r < da_expires_at d0;
  wo_once : NoDup (map rd_id (w_redeemed w));
}.

(** The history only grows, so rows stay explained. *)
Definition history_grows (w w' : world) : Prop :=
  (∀ d, d ∈ w_inserted w -> d ∈ w_inserted w') ∧ (∀ a, a ∈ w_approved w -> a ∈ w_approved w').

Lemma row_ok_grows w w' d : history_grows w w' -> row_ok w d -> row_ok w' d.
Proof.
  intros [Hi Ha] [(d0 & ? & ?) Hst]. split; [exists d0; split; [by apply Hi|done]|].
  intros (u & ? & ?)%Hst. eauto.
Qed.

Lemma step_grows w w' : device_step w w' -> history_grows w w'.
Proof.
  destruct 1; split; simpl; intros x Hx; try done; repeat case_match; try done; by right.
Qed.

Lemma insert_scan_sub rows h now s s' b :
  insert_scan rows h now s = (s', b) -> s' ⊆ s.
Proof.
  revert s. induction rows as [|[id d] rows IH]; simpl; intros s E; [by injection E as <-|].
  destruct (_ && _); [by injection E as <-|]. apply IH in E. etrans; [exact E|].
  case_match; [apply delete_subseteq|done].
Qed.

Lemma decide_cases s id st user now s' applied :
  DecideDeviceAuthorization s id st user now = (s', applied) ->
  applied = false ∧ s' = s
  ∨ applied = true ∧ ∃ d, s !! id = Some d ∧ da_status d = DeviceAuthPending
      ∧ s' = <[id := set_decided d st user now]> s.
Proof.
  unfold DecideDeviceAuthorization. destruct (s !! id) as [d|] eqn:E; [|intros [= <- <-]; by left].
  destruct (String.eqb_spec (da_status d) DeviceAuthPending) as [Hp|]; simpl; [|intros [= <- <-]; by left].
  destruct (Before now (da_expires_at d)); simpl; intros [= <- <-]; [right|by left]. eauto.
Qed.

Lemma consume_cases s id now s' won :
  ConsumeDeviceAuthorization s id now = (s', won) ->
  won = false ∧ s' = s
  ∨ won = true ∧ ∃ d, s !! id = Some d ∧ da_status d = DeviceAuthApproved ∧ now < da_expires_at d
      ∧ s' = <[id := set_consumed_status d]> s.
Proof.
  unfold ConsumeDeviceAuthorization. destruct (s !! id) as [d|] eqn:E; [|intros [= <- <-]; by left].
  destruct (String.eqb_spec (da_status d) DeviceAuthApproved) as [Hp|]; simpl; [|intros [= <- <-]; by left].
  unfold Before. destruct (Z.ltb_spec now (da_expires_at d)); simpl; intros [= <- <-]; [right|by left]. eauto 6.
Qed.

Lemma record_cases s row now s' :
  poll_record s row now = Ok s' ->
  ∃ d i, s !! da_id row = Some d ∧ s' = <[da_id row := set_polled d now i]> s.
Proof.
  unfold poll_record, RecordDeviceAuthorizationPoll.
  destruct (s !! da_id row) as [d|]; intros E; [|done]. injection E as <-. eauto.
Qed.

Lemma inserted_unique w d1 d2 :
  NoDup (map da_id (w_inserted w)) -> d1 ∈ w_inserted w -> d2 ∈ w_inserted w -> da_id d1 = da_id d2 -> d1 = d2.
Proof.
  generalize (w_inserted w). induction l as [|d l IH]; simpl; intros Hn H1 H2 He; [by apply elem_of_nil in H1|].
  apply NoDup_cons in Hn as [Hd Hn].
  assert (Hin : ∀ x, x ∈ l -> da_id x ∈ map da_id l) by (intros x Hx; by apply list_elem_of_fmap_2).
  apply elem_of_cons in H1 as [->|H1]; apply elem_of_cons in H2 as [->|H2]; try done.
  - exfalso. apply Hd. rewrite He. by apply Hin.
  - exfalso. apply Hd. rewrite <- He. by apply Hin.
  - by apply IH.
Qed.

(** What a step that redeems nothing has to show. *)
Lemma world_ok_step w s' polls' ins' app' :
  let w' := mkWorld s' polls' ins' app' (w_redeemed w) in
  world_ok w -> history_grows w w' -> NoDup (map da_id ins') ->
  (∀ id d, s' !! id = Some d -> da_id d = id ∧ row_ok w' d) ->
  (∀ p row now b, polls' !! p = Some (row, now, b) -> row_ok w' row) ->
  (∀ r d, r ∈ w_redeemed w -> s' !! rd_id r = Some d -> da_status d = DeviceAuthConsumed) ->
  world_ok w'.
Proof.
  intros w' Hok Hg Hids Hrows Hpolls Hred. split; [done|done|done| |by apply (wo_once _ Hok)].
  intros r Hr. destruct (wo_redeemed _ Hok r Hr) as (_ & Ha & d0 & Hd0 & Hrest).
  split; [by eauto|]. split; [by apply Hg|]. exists d0. split; [by apply Hg|done].
Qed.

Lemma insert_ok w wall d s err :
  world_ok w -> da_status d = DeviceAuthPending -> da_id d ∉ map da_id (w_inserted w) ->
  InsertDeviceAuthorization (sv_range sv) (w_store w) wall d = (s, err) ->
  world_ok (mkWorld s (w_polls w)
    (match err with None => d :: w_inserted w | Some _ => w_inserted w end) (w_approved w) (w_redeemed w)).
Proof.
  intros Hok Hp Hid E. unfold InsertDeviceAuthorization in E.
  destruct (insert_scan _ _ _ _) as [s1 taken] eqn:Es. apply insert_scan_sub in Es.
  assert (Hsub : ∀ id d', s1 !! id = Some d' -> w_store w !! id = Some d') by (intros; by eapply lookup_weaken).
  assert (Hg : history_grows w (mkWorld s (w_polls w)
    (match err with None => d :: w_inserted w | Some _ => w_inserted w end) (w_approved w) (w_redeemed w))).
  { split; simpl; [|done]. intros x Hx. destruct err; [done|by right]. }
  apply world_ok_step; [done|done| | | |]; destruct taken; injection E as <- <-.
  - apply (wo_ids _ Hok).
  - simpl. apply NoDup_cons. split; [done|apply (wo_ids _ Hok)].
  - intros id d' Hd'%Hsub. destruct (wo_rows _ Hok _ _ Hd') as [? ?]. eauto using row_ok_grows.
  - intros id d' [[<- <-]|[_ Hd'%Hsub]]%lookup_insert_Some.
    + split; [done|]. split; [exists d; split; [left|done]|]. by rewrite Hp.
    + destruct (wo_rows _ Hok _ _ Hd') as [? ?]. eauto using row_ok_grows.
  - intros p row now b Hpoll. by eapply row_ok_grows, (wo_polls _ Hok).
  - intros p row now b Hpoll. by eapply row_ok_grows, (wo_polls _ Hok).
  - intros r d' Hr Hd'%Hsub. by apply (proj1 (wo_redeemed _ Hok r Hr)).
  - intros r d' Hr [[Hrd _]|[_ Hd'%Hsub]]%lookup_insert_Some; [|by apply (proj1 (wo_redeemed _ Hok r Hr))].
    destruct (wo_redeemed _ Hok r Hr) as (_ & _ & d0 & Hd0 & He & _). exfalso. apply Hid.
    rewrite Hrd, <- He. by apply list_elem_of_fmap_2.
Qed.

(** An update of one stored row that keeps what the insertion said of it. *)
Lemma row_update_ok w w' id d d' :
  world_ok w -> history_grows w w' -> w_store w !! id = Some d ->
  da_id d' = da_id d -> da_client_id d' = da_client_id d -> da_scope d' = da_scope d ->
  da_resource d' = da_resource d -> da_expires_at d' = da_expires_at d ->
  (da_status d' = DeviceAuthApproved ->
   ∃ user, da_user_id d' = Some user ∧ (da_id d', user) ∈ w_approved w') ->
  ∀ id0 d0, <[id := d']> (w_store w) !! id0 = Some d0 -> da_id d0 = id0 ∧ row_ok w' d0.
Proof.
  intros Hok Hg Hd Hi Hc Hs Hr He Ha id0 d0 [[<- <-]|[_ Hd0]]%lookup_insert_Some.
  - destruct (wo_rows _ Hok _ _ Hd) as [<- [(x & ? & ?) _]]. split; [done|]. split; [|done].
    exists x. split; [by apply Hg|]. by rewrite Hi, Hc, Hs, Hr, He.
  - destruct (wo_rows _ Hok _ _ Hd0) as [? ?]. eauto using row_ok_grows.
Qed.

(** Go visits every row of the map, in some order. *)
Context (Hrange : ∀ s, sv_range sv s ≡ₚ map_to_list s).

Lemma find_in_store s f d :
  deviceBy (sv_range sv) s f = Some d -> ∃ id, s !! id = Some d ∧ f d = true.
Proof.
  intros Hf. unfold deviceBy in Hf. apply List.find_some in Hf as [Hin Hf].
  apply in_map_iff in Hin as ([id d'] & <- & Hin). exists id. split; [|done].
  apply elem_of_map_to_list. rewrite <- Hrange. by apply list_elem_of_In.
Qed.

Lemma poll_lookup_iff s now client code row :
  poll_lookup sv s now client code = Ok row ↔
  ∃ c, client = Some c ∧ code ≠ ""
    ∧ DeviceAuthorizationByDeviceCodeHash (sv_range sv) s (codeHash (sv_key sv) "device" code) = Some row
    ∧ da_client_id row = cl_client_id c ∧ now < da_expires_at row.
Proof.
  unfold poll_lookup. destruct client as [c|]; [|naive_solver].
  destruct (String.eqb_spec code ""); [naive_solver|].
  destruct (DeviceAuthorizationByDeviceCodeHash _ _ _) as [r|]; [|naive_solver].
  unfold Before. destruct (String.eqb_spec (da_client_id r) (cl_client_id c)),
    (Z.ltb_spec now (da_expires_at r)); simpl; split; try naive_solver; try naive_solver lia.
Qed.

Lemma redeemed_consumed w r d :
  world_ok w -> r ∈ w_redeemed w -> w_store w !! rd_id r = Some d -> da_status d = DeviceAuthConsumed.
Proof. intros Hok Hr. apply (wo_redeemed _ Hok r Hr). Qed.

Lemma decide_ok w id user now (approve : bool) s applied :
  world_ok w ->
  DecideDeviceAuthorization (w_store w) id
    (if approve then DeviceAuthApproved else DeviceAuthDenied) user now = (s, applied) ->
  world_ok (mkWorld s (w_polls w) (w_inserted w)
    (if applied && approve then (id, user) :: w_approved w else w_approved w) (w_redeemed w)).
Proof.
  intros Hok Hd. set (app' := if applied && approve then _ else _).
  assert (Hg : history_grows w (mkWorld s (w_polls w) (w_inserted w) app' (w_redeemed w))).
  { split; [done|]. simpl. intros a Ha. unfold app'. destruct (applied && approve); [by right|done]. }
  apply world_ok_step; try done; [apply (wo_ids _ Hok)| | |].
  - apply decide_cases in Hd as [[-> ->]|(-> & d & Hd & Hp & ->)].
    + intros id0 d0 Hd0. destruct (wo_rows _ Hok _ _ Hd0). eauto using row_ok_grows.
    + eapply row_update_ok; try done. simpl. intros Ha. exists user. split; [done|].
      destruct (wo_rows _ Hok _ _ Hd) as [-> _]. unfold app'. destruct approve; [left|done].
  - intros p row n b Hp. by eapply row_ok_grows, (wo_polls _ Hok).
  - intros r d Hr. apply decide_cases in Hd as [[-> ->]|(-> & d1 & Hd1 & Hp & ->)].
    + by apply redeemed_consumed.
    + intros [[Heq <-]|[_ Hd']]%lookup_insert_Some; [|by eapply redeemed_consumed].
      rewrite Heq in Hd1. apply (redeemed_consumed w r d1 Hok Hr) in Hd1. rewrite Hd1 in Hp. done.
Qed.

Lemma purge_ok w before :
  world_ok w ->
  world_ok (mkWorld (DeleteExpiredDeviceAuthorizations (w_store w) before).1 (w_polls w) (w_inserted w)
              (w_approved w) (w_redeemed w)).
Proof.
  intros Hok. apply world_ok_step; try done; [apply (wo_ids _ Hok)| | |]; simpl.
  - intros id d [Hd _]%map_lookup_filter_Some. by apply (wo_rows _ Hok).
  - apply (wo_polls _ Hok).
  - intros r d Hr [Hd _]%map_lookup_filter_Some. by eapply redeemed_consumed.
Qed.

Lemma read_ok w p now client code row :
  world_ok w -> poll_lookup sv (w_store w) now client code = Ok row ->
  world_ok (mkWorld (w_store w) (<[p := (row, now, false)]> (w_polls w)) (w_inserted w) (w_approved w)
              (w_redeemed w)).
Proof.
  intros Hok (c & _ & _ & (id & Hid & _)%find_in_store & _)%poll_lookup_iff. apply world_ok_step; try done.
  - apply (wo_ids _ Hok).
  - apply (wo_rows _ Hok).
  - intros p' row' now' b [[_ [= <- <- <-]]|[_ Hp]]%lookup_insert_Some; [|by apply (wo_polls _ Hok) in Hp].
    by apply (wo_rows _ Hok) in Hid as [_ ?].
  - intros r d Hr Hd. by eapply redeemed_consumed.
Qed.

Lemma record_ok w p row now s :
  world_ok w -> w_polls w !! p = Some (row, now, false) -> poll_record (w_store w) row now = Ok s ->
  world_ok (mkWorld s
    (if too_fast row now then delete p (w_polls w) else <[p := (row, now, true)]> (w_polls w))
    (w_inserted w) (w_approved w) (w_redeemed w)).
Proof.
  intros Hok Hp (d & i & Hd & ->)%record_cases. apply world_ok_step; try done; [apply (wo_ids _ Hok)| | |].
  - apply (row_update_ok w _ _ d); try done. simpl. by apply (wo_rows _ Hok) in Hd as [_ [_ ?]].
  - apply (wo_polls _ Hok) in Hp as Hrow. intros p' row' now' b Hp'. destruct (too_fast row now).
    + apply lookup_delete_Some in Hp' as [_ Hp']. by apply (wo_polls _ Hok) in Hp'.
    + apply lookup_insert_Some in Hp' as [[_ [= <- <- <-]]|[_ Hp']]; [done|].
      by apply (wo_polls _ Hok) in Hp'.
  - intros r d' Hr [[Heq <-]|[_ Hd']]%lookup_insert_Some; simpl; eapply (redeemed_consumed w r); try done.
    by rewrite <- Heq.
Qed.

Lemma status_user row user :
  poll_status row = Ok user -> da_status row = DeviceAuthApproved ∧ da_user_id row = Some user.
Proof.
  unfold poll_status. destruct (_ =? DeviceAuthPending)%string; [done|].
  destruct (_ =? DeviceAuthDenied)%string; [done|].
  destruct (String.eqb_spec (da_status row) DeviceAuthApproved); [|done].
  destruct (da_user_id row); [|done]. by intros [= ->].
Qed.

Lemma consume_ok w p row now user s (won : bool) :
  world_ok w -> w_polls w !! p = Some (row, now, true) -> poll_status row = Ok user ->
  ConsumeDeviceAuthorization (w_store w) (da_id row) now = (s, won) ->
  world_ok (mkWorld s (delete p (w_polls w)) (w_inserted w) (w_approved w)
    (if won then
       mkRedemption (da_id row) (da_client_id row) user (da_scope row) (da_resource row) now :: w_redeemed w
     else w_redeemed w)).
Proof.
  intros Hok Hp [Hst Hu]%status_user Hc.
  assert (Hpolls : ∀ p' row' now' b, delete p (w_polls w) !! p' = Some (row', now', b) -> row_ok w row').
  { intros p' row' now' b [_ Hp']%lookup_delete_Some. by apply (wo_polls _ Hok) in Hp'. }
  apply consume_cases in Hc as [[-> ->]|(-> & d & Hd & Ha & Hexp & ->)].
  { apply world_ok_step; try done; [apply (wo_ids _ Hok)|apply (wo_rows _ Hok)|].
    intros r d Hr Hd. by eapply redeemed_consumed. }
  destruct (wo_polls _ Hok _ _ _ _ Hp) as [(d0 & Hd0 & Hid & Hcl & Hsc & Hre & _) Happ].
  destruct (Happ Hst) as (u & Hu' & Hin). rewrite Hu in Hu'. injection Hu' as <-.
  destruct (wo_rows _ Hok _ _ Hd) as [Hdid [(d1 & Hd1 & Hid1 & _ & _ & _ & Hex) _]].
  assert (d1 = d0) as -> by (eapply inserted_unique; [apply (wo_ids _ Hok)|done|done|congruence]).
  assert (Hnew : da_id row ∉ map rd_id (w_redeemed w)).
  { intros (r & Hr & Hin')%list_elem_of_fmap. rewrite Hr in Hd.
    pose proof (redeemed_consumed w r d Hok Hin' Hd) as Hcons. rewrite Hcons in Ha. done. }
  split; simpl.
  - apply (wo_ids _ Hok).
  - apply (row_update_ok w _ _ d); try done.
  - apply Hpolls.
  - intros r [->|Hr]%elem_of_cons; simpl.
    + split; [intros d' [[_ <-]|[? _]]%lookup_insert_Some; done|]. split; [done|].
      exists d0. split_and!; try done. by rewrite Hex.
    + destruct (wo_redeemed _ Hok r Hr) as (Hcons & Hrest). split; [|done].
      intros d' [[_ <-]|[_ Hd']]%lookup_insert_Some; [done|by apply Hcons].
  - apply NoDup_cons. split; [done|apply (wo_once _ Hok)].
Qed.

Lemma device_step_ok w w' : world_ok w -> device_step w w' -> world_ok w'.
Proof.
  intros Hok Hstep. destruct Hstep.
  - by eapply insert_ok.
  - by eapply decide_ok.
  - by apply purge_ok.
  - by eapply read_ok.
  - by eapply record_ok.
  - apply world_ok_step; try done; [apply (wo_ids _ Hok)|apply (wo_rows _ Hok)| |].
    + intros p' row' now' b [_ Hp']%lookup_delete_Some. by apply (wo_polls _ Hok) in Hp'.
    + intros r d Hr Hd. by eapply redeemed_consumed.
  - by eapply consume_ok.
Qed.

Lemma reachable_world_ok w : rtc device_step world0 w -> world_ok w.
Proof.
  intros Hr. assert (H0 : world_ok world0).
  { split; simpl; [apply NoDup_nil_2|done|done| |apply NoDup_nil_2]. by intros r ?%elem_of_nil. }
  revert Hr H0. generalize world0. intros w0 Hr.
  induction Hr as [|w1 w2 w3 Hs _ IH]; intros H1; [done|]. apply IH. by eapply device_step_ok.
Qed.

(** C13. A device code is redeemed at most once, and only with consent: in every interleaving of
    insertions, user decisions, purges and polls in flight, no authorization is redeemed twice, and
    every redemption mints for the client, scope and resource the device asked for, as the user who
    approved that authorization, before it expired. *)
Theorem device_code_redeemed_once w :
  rtc device_step world0 w ->
  NoDup (map rd_id (w_redeemed w))
  ∧ ∀ r, r ∈ w_redeemed w ->
      (rd_id r, rd_user r) ∈ w_approved w
      ∧ ∃ d, d ∈ w_inserted w ∧ da_id d = rd_id r ∧ da_client_id d = rd_client r
          ∧ da_scope d = rd_scope r ∧ da_resource d = rd_resource r ∧ rd_at r < da_expires_at d.
Proof.
  intros Hok%reachable_world_ok. split; [apply (wo_once _ Hok)|].
  intros r Hr. by destruct (wo_redeemed _ Hok r Hr) as (_ & ? & ?).
Qed.

(** ** One request at a time *)

Definition keyed (s : Devices) : Prop := ∀ id d, s !! id = Some d -> da_id d = id.

Lemma PollDeviceToken_iff {Resp} s now client code dpop
  (mint : string -> string -> list string -> string -> string -> option Resp) s' resp :
  keyed s ->
  PollDeviceToken sv s now client code dpop mint = (s', Ok resp) ↔
  ∃ row c user jkt,
    client = Some c ∧ code ≠ ""
    ∧ DeviceAuthorizationByDeviceCodeHash (sv_range sv) s (codeHash (sv_key sv) "device" code) = Some row
    ∧ da_client_id row = cl_client_id c ∧ now < da_expires_at row ∧ too_fast row now = false
    ∧ da_status row = DeviceAuthApproved ∧ da_user_id row = Some user ∧ dpop = Some jkt
    ∧ mint (da_client_id row) user (da_scope row) (da_resource row) jkt = Some resp
    ∧ s' = <[da_id row := set_consumed_status (set_polled row now (da_interval row))]> s.
Proof.
  intros Hk. unfold PollDeviceToken. split.
  - destruct (poll_lookup sv s now client code) as [row|] eqn:El; [|done].
    apply poll_lookup_iff in El as (c & -> & Hcode & Hhash & Hcl & Hexp).
    pose proof Hhash as (id & Hid & _)%find_in_store. pose proof (Hk _ _ Hid) as <-.
    unfold poll_record, RecordDeviceAuthorizationPoll. rewrite Hid.
    destruct (too_fast row now) eqn:Ef; [done|].
    destruct (poll_status row) as [user|] eqn:Eu; [|done]. apply status_user in Eu as [Hst Hu].
    destruct dpop as [jkt|]; [|done].
    unfold ConsumeDeviceAuthorization. rewrite lookup_insert_eq. simpl. rewrite Hst.
    unfold Before. destruct (Z.ltb_spec now (da_expires_at row)); [|lia]. simpl.
    destruct (mint _ _ _ _ _) eqn:Em; [|done]. rewrite insert_insert_eq. intros [= <- <-].
    exists row, c, user, jkt. split_and!; try done.
  - intros (row & c & user & jkt & -> & Hcode & Hhash & Hcl & Hexp & Hf & Hst & Hu & -> & Hm & ->).
    pose proof Hhash as (id & Hid & _)%find_in_store. pose proof (Hk _ _ Hid) as <-.
    rewrite (proj2 (poll_lookup_iff s now (Some c) code row)) by eauto 6.
    unfold poll_record, RecordDeviceAuthorizationPoll. rewrite Hid, Hf.
    unfold poll_status. rewrite Hst, Hu. simpl.
    unfold ConsumeDeviceAuthorization. rewrite lookup_insert_eq. simpl. rewrite Hst. unfold Before.
    destruct (Z.ltb_spec now (da_expires_at row)); [|lia]. simpl.
    by rewrite insert_insert_eq, Hm.
Qed.

(** *** Typed user codes *)

Definition ascii_only (l : list ascii) : Prop := Forall (fun c => byte_val c < 128) l.

(** The alphabet can be typed back: ASCII, upper case, and without the separator. *)
Definition typeable (alphabet : string) : Prop :=
  ascii_only (list_ascii_of_string alphabet)
  ∧ Forall (fun c => upper_byte c = c ∧ c ≠ "-"%char) (list_ascii_of_string alphabet).

Definition over (alphabet code : string) : Prop :=
  Forall (fun c => c ∈ list_ascii_of_string alphabet) (list_ascii_of_string code).

Lemma runes_ascii s :
  ascii_only (list_ascii_of_string s) -> runes s = map byte_val (list_ascii_of_string s).
Proof.
  unfold runes. generalize (list_ascii_of_string s) as l.
  induction l as [|c l IH]; intros Hl; [done|]. apply Forall_cons in Hl as [Hc Hl].
  cbn [length runes_fuel map]. unfold decode_rune. apply Z.ltb_lt in Hc. rewrite Hc. by rewrite IH.
Qed.

Lemma encode_ascii c : byte_val c < 128 -> encode_rune (byte_val c) = [c].
Proof.
  intros Hc. unfold encode_rune. apply Z.ltb_lt in Hc. rewrite Hc. f_equal.
  unfold byte_of, byte_val. by rewrite N2Z.id, ascii_N_embedding.
Qed.

Lemma byte_val_inj a b : byte_val a = byte_val b -> a = b.
Proof.
  unfold byte_val. intros ?%N2Z.inj. rewrite <- (ascii_N_embedding a), <- (ascii_N_embedding b). by f_equal.
Qed.

Lemma formatUserCode_shape code :
  formatUserCode code = code ∨ ∃ a b, formatUserCode code = a +:+ "-" +:+ b ∧ a +:+ b = code.
Proof.
  unfold formatUserCode. destruct (_ <? 4)%nat; [by left|]. right.
  eexists _, _. split; [done|]. apply substring_split.
Qed.

Definition keep (alphabet : string) (r : Z) : bool := existsb (Z.eqb r) (runes alphabet).

Lemma keep_alphabet alphabet c :
  typeable alphabet -> keep alphabet (byte_val c) = true ↔ c ∈ list_ascii_of_string alphabet.
Proof.
  intros [Ha _]. unfold keep. rewrite runes_ascii by done. rewrite existsb_true_iff. split.
  - intros (r & (c' & -> & Hc')%list_elem_of_fmap & Heq%Z.eqb_eq). by apply byte_val_inj in Heq as ->.
  - intros Hc. exists (byte_val c). split; [by apply list_elem_of_fmap_2|apply Z.eqb_refl].
Qed.

(** What the page makes of a typed code over the alphabet, with separators in it. *)
Lemma normalize_bytes alphabet l :
  typeable alphabet -> Forall (fun c => c ∈ list_ascii_of_string alphabet ∨ c = "-"%char) l ->
  normalizeUserCode (string_of_list_ascii l) alphabet =
  string_of_list_ascii (List.filter (fun c => negb (Ascii.eqb c "-")) l).
Proof.
  intros Ht Hl. pose proof Ht as [Ha Hu].
  assert (Hasc : ascii_only l ∧ map upper_byte l = l).
  { induction Hl as [|c l Hc _ [IH1 IH2]]; [by split; [constructor|]|]. simpl.
    destruct Hc as [Hc| ->]; [|split; [by constructor|by rewrite IH2]].
    rewrite Forall_forall in Hu. destruct (Hu c Hc) as [Hup _].
    unfold ascii_only in Ha. rewrite Forall_forall in Ha. split; [constructor; auto|by rewrite Hup, IH2]. }
  destruct Hasc as [Hasc Hup]. unfold normalizeUserCode.
  assert (Hto : ToUpper (string_of_list_ascii l) = string_of_list_ascii l).
  { rewrite ToUpper_ascii; rewrite list_ascii_of_string_of_list_ascii; [by rewrite Hup|done]. }
  rewrite Hto, (runes_ascii (string_of_list_ascii l)); rewrite list_ascii_of_string_of_list_ascii; [|done].
  f_equal. fold (keep alphabet). clear Hto Hup. induction Hl as [|c l Hc Hl IH]; [done|].
  apply Forall_cons in Hasc as [Hc128 Hasc]. cbn [map List.filter].
  destruct (Ascii.eqb_spec c "-") as [->|Hne]; simpl.
  - replace (keep alphabet (byte_val "-")) with false; [by apply IH|]. symmetry. apply not_true_iff_false.
    rewrite keep_alphabet by done. intros Hin. rewrite Forall_forall in Hu. by destruct (Hu _ Hin).
  - destruct Hc as [Hc|]; [|done]. rewrite (proj2 (keep_alphabet alphabet c Ht) Hc). cbn [map List.concat].
    rewrite encode_ascii by done. simpl. f_equal. by apply IH.
Qed.

(** The code shown to the user, with its separator, normalizes back to the code that was hashed. *)
Lemma user_code_normalizes alphabet code :
  typeable alphabet -> over alphabet code -> normalizeUserCode (formatUserCode code) alphabet = code.
Proof.
  intros Ht Ho.
  assert (Hdash : ∀ s, over alphabet s ->
    List.filter (fun c => negb (Ascii.eqb c "-")) (list_ascii_of_string s) = list_ascii_of_string s).
  { intros s Hs. unfold over in Hs. induction Hs as [|c l Hc _ IH]; [done|]. simpl.
    destruct Ht as [_ Hu]. rewrite Forall_forall in Hu. destruct (Hu c Hc) as [_ Hne].
    destruct (Ascii.eqb_spec c "-"); [done|]. simpl. by rewrite IH. }
  rewrite <- (string_of_list_ascii_of_string (formatUserCode code)), normalize_bytes; [|done|].
  - transitivity (string_of_list_ascii (list_ascii_of_string code)); [|apply string_of_list_ascii_of_string].
    f_equal. destruct (formatUserCode_shape code) as [->|(a & b & -> & <-)]; [by apply Hdash|].
    rewrite !list_of_string_app. unfold over in Ho. rewrite list_of_string_app, Forall_app in Ho.
    destruct Ho as [Hoa Hob]. rewrite !List.filter_app, (Hdash a), (Hdash b) by done. done.
  - destruct (formatUserCode_shape code) as [->|(a & b & -> & <-)].
    + eapply Forall_impl; [exact Ho|]. auto.
    + rewrite !list_of_string_app. unfold over in Ho. rewrite list_of_string_app, Forall_app in Ho.
      destruct Ho as [Hoa Hob]. apply Forall_app. split; [eapply Forall_impl; [exact Hoa|]; auto|].
      apply Forall_cons. split; [by right|]. eapply Forall_impl; [exact Hob|]. auto.
Qed.

(** *** The whole flow *)

Lemma insert_scan_fresh rows h now s :
  (∀ id d, (id, d) ∈ rows -> da_user_hash d ≠ h) -> ∃ s', insert_scan rows h now s = (s', false) ∧ s' ⊆ s.
Proof.
  intros Hfresh. destruct (insert_scan rows h now s) as [s' b] eqn:E. exists s'.
  pose proof (insert_scan_sub _ _ _ _ _ _ E) as Hsub. split; [|done]. f_equal.
  revert s E Hsub. induction rows as [|[id d] rows IH]; simpl; intros s E Hsub; [by injection E|].
  assert (Hne : (da_user_hash d =? h)%string = false) by (apply String.eqb_neq, (Hfresh id); left).
  rewrite Hne in E. simpl in E.
  eapply IH; [|exact E|by eapply insert_scan_sub]. intros id' d' Hin. apply (Hfresh id'). by right.
Qed.

(** A row that alone has its user code is found by it. *)
Lemma by_user_hash_unique s id d :
  s !! id = Some d -> (∀ id' d', s !! id' = Some d' -> da_user_hash d' = da_user_hash d -> d' = d) ->
  DeviceAuthorizationByUserCodeHash (sv_range sv) s (da_user_hash d) = Some d.
Proof.
  intros Hd Huniq. unfold DeviceAuthorizationByUserCodeHash.
  assert (Hin : (id, d) ∈ sv_range sv s) by (by rewrite Hrange; apply elem_of_map_to_list).
  assert (Hall : ∀ id' d', (id', d') ∈ sv_range sv s -> da_user_hash d' = da_user_hash d -> d' = d).
  { intros id' d'. rewrite Hrange, elem_of_map_to_list. apply Huniq. }
  assert (Hacc : ∀ l acc, (∀ id' d', (id', d') ∈ l -> da_user_hash d' = da_user_hash d -> d' = d) ->
    (acc = None ∧ (id, d) ∈ l ∨ acc = Some d) ->
    fold_left (fun best kv => if negb (da_user_hash (snd kv) =? da_user_hash d)%string then best
      else match best with
           | None => Some (snd kv)
           | Some b => if After (da_expires_at (snd kv)) (da_expires_at b) then Some (snd kv) else best
           end) l acc = Some d).
  { induction l as [|[id' d'] l IH]; simpl; intros acc Hl Hcase.
    { destruct Hcase as [[_ Hn]| ->]; [by apply elem_of_nil in Hn|done]. }
    apply IH; [intros; eapply Hl; [by right|done]|].
    destruct (String.eqb_spec (da_user_hash d') (da_user_hash d)) as [He|Hne]; simpl.
    - right. apply (Hl id' d') in He as ->; [|left]. destruct Hcase as [[-> _]| ->]; [done|]. by case_match.
    - destruct Hcase as [[-> [[= -> ->]|Hn]%elem_of_cons]| ->]; [done|by left|by right]. }
  apply Hacc; [done|by left].
Qed.

Lemma by_device_hash_unique s id d :
  s !! id = Some d -> (∀ id' d', s !! id' = Some d' -> da_device_hash d' = da_device_hash d -> d' = d) ->
  DeviceAuthorizationByDeviceCodeHash (sv_range sv) s (da_device_hash d) = Some d.
Proof.
  intros Hd Huniq. unfold DeviceAuthorizationByDeviceCodeHash.
  destruct (deviceBy _ _ _) as [d'|] eqn:E.
  - apply find_in_store in E as (id' & Hid' & He%String.eqb_eq). f_equal. by eapply Huniq.
  - exfalso. unfold deviceBy in E. apply (List.find_none _ _) with (x := d) in E.
    + by rewrite String.eqb_refl in E.
    + apply in_map_iff. exists (id, d). split; [done|]. apply list_elem_of_In. rewrite Hrange.
      by apply elem_of_map_to_list.
Qed.

Section Flow.
Context (s : Devices) (c : OAuthClient) (scope sc : list string) (res : ProtectedResource)
  (resource id dcode code user jkt : string) (codes : nat -> option string) (t0 wall t1 t1' t2 : Z).
Context (Hkeyed : keyed s)
  (Hgrant : existsb (String.eqb GrantTypeDeviceCode) (cl_grant_types c) = true)
  (Hres : deviceResource (sv_resources sv) resource = Ok res)
  (Hscope : validateScopeAgainstResource scope res = Ok sc)
  (Hdcode : dcode ≠ "") (Hcodes : codes 0%nat = Some code)
  (Halpha : typeable (dc_alphabet (sv_cfg sv))) (Hover : over (dc_alphabet (sv_cfg sv)) code)
  (Hlen : Z.of_nat (String.length code) = dc_code_length (sv_cfg sv))
  (Hfresh : ∀ id' d', s !! id' = Some d' ->
     da_user_hash d' ≠ codeHash (sv_key sv) "user" code
     ∧ da_device_hash d' ≠ codeHash (sv_key sv) "device" dcode).

Definition started_row : DeviceAuthorization :=
  mkDevice id (codeHash (sv_key sv) "device" dcode) (codeHash (sv_key sv) "user" code) (cl_client_id c) sc
    (pr_identifier res) DeviceAuthPending None (Z.quot (dc_interval (sv_cfg sv)) Second) None t0
    (t0 + dc_expires_in (sv_cfg sv)) None.

Lemma flow_starts :
  ∃ s1 r, StartDeviceAuthorization sv s t0 wall (Some c) scope resource id (Some dcode) codes = (s1, Ok r)
    ∧ dr_device_code r = dcode ∧ dr_user_code r = formatUserCode code
    ∧ ∃ s0, s0 ⊆ s ∧ s1 = <[id := started_row]> s0.
Proof.
  unfold StartDeviceAuthorization. rewrite Hgrant, Hres, Hscope. cbn [negb].
  unfold deviceMaxInsertTry. cbn [insert_loop]. rewrite Hcodes.
  unfold InsertDeviceAuthorization. cbn [da_user_hash with_user_hash].
  destruct (insert_scan_fresh (sv_range sv s) (codeHash (sv_key sv) "user" code) wall s) as (s0 & -> & Hsub).
  { intros id' d'. rewrite Hrange, elem_of_map_to_list. apply Hfresh. }
  eexists _, _. split; [reflexivity|]. split; [done|]. split; [done|]. by exists s0.
Qed.

Lemma flow_unique s0 d :
  s0 ⊆ s -> da_user_hash d = da_user_hash started_row -> da_device_hash d = da_device_hash started_row ->
  ∀ id' d', <[id := d]> s0 !! id' = Some d' ->
    (da_user_hash d' = da_user_hash d ∨ da_device_hash d' = da_device_hash d) -> d' = d.
Proof.
  intros Hsub Hu Hd id' d' [[_ <-]|[_ Hd']]%lookup_insert_Some Hh; [done|exfalso].
  destruct (Hfresh id' d') as [Hnu Hnd]; [by eapply lookup_weaken|].
  rewrite Hu, Hd in Hh. simpl in Hh. naive_solver.
Qed.

Lemma flow_approves s0 r :
  s0 ⊆ s -> dr_user_code r = formatUserCode code -> t1 < t0 + dc_expires_in (sv_cfg sv) ->
  t1' < t0 + dc_expires_in (sv_cfg sv) ->
  DecideDeviceUserCode sv (<[id := started_row]> s0) t1 t1' (Some true) (dr_user_code r) user true =
  (<[id := set_decided started_row DeviceAuthApproved user t1']> s0, None).
Proof.
  intros Hsub -> H1 H1'. unfold DecideDeviceUserCode, lookupPending. cbn [attemptAllowed].
  rewrite user_code_normalizes, Hlen, Z.eqb_refl by done. cbn [negb].
  rewrite (by_user_hash_unique (<[id := started_row]> s0) id started_row);
    [|apply lookup_insert_eq|intros; eapply flow_unique; eauto].
  unfold started_row at 1 2. cbn [da_status da_expires_at]. rewrite String.eqb_refl. unfold Before.
  destruct (Z.ltb_spec t1 (t0 + dc_expires_in (sv_cfg sv))); [|lia]. simpl.
  unfold DecideDeviceAuthorization. rewrite lookup_insert_eq. cbn [da_status started_row da_expires_at].
  rewrite String.eqb_refl. unfold Before.
  destruct (Z.ltb_spec t1' (t0 + dc_expires_in (sv_cfg sv))); [|lia]. simpl. by rewrite insert_insert_eq.
Qed.
(** C38. The device grant completes. A client that may use it asks for a valid resource and scope, and
    gets codes no stored authorization has; the user types the displayed code, separator included,
    and approves; then the device's first poll before expiry gets tokens for that user, scope and
    resource, if the proof of possession and the minting succeed. The alphabet has to be upper case
    ASCII without the separator. *)
Theorem device_flow_completes {Resp} (resp : Resp)
  (mint : string -> string -> list string -> string -> string -> option Resp) :
  t1 < t0 + dc_expires_in (sv_cfg sv) -> t1' < t0 + dc_expires_in (sv_cfg sv) ->
  t2 < t0 + dc_expires_in (sv_cfg sv) ->
  mint (cl_client_id c) user sc (pr_identifier res) jkt = Some resp ->
  ∃ s1 r s2 s3,
    StartDeviceAuthorization sv s t0 wall (Some c) scope resource id (Some dcode) codes = (s1, Ok r)
    ∧ DecideDeviceUserCode sv s1 t1 t1' (Some true) (dr_user_code r) user true = (s2, None)
    ∧ PollDeviceToken sv s2 t2 (Some c) (dr_device_code r) (Some jkt) mint = (s3, Ok resp).
Proof.
  intros H1 H1' H2 Hmint. destruct flow_starts as (s1 & r & Hs & Hdr & Hur & s0 & Hsub & ->).
  set (d := set_decided started_row DeviceAuthApproved user t1').
  eexists _, r, (<[id := d]> s0), _. split; [exact Hs|]. split; [by apply flow_approves|].
  apply PollDeviceToken_iff.
  { intros id' d' [[<- <-]|[_ Hd']]%lookup_insert_Some; [done|]. apply Hkeyed. by eapply lookup_weaken. }
  exists d, c, user, jkt. rewrite Hdr. split_and!; try done.
  change (codeHash (sv_key sv) "device" dcode) with (da_device_hash d).
  apply (by_device_hash_unique _ id); [apply lookup_insert_eq|]. intros. eapply flow_unique; eauto.
Qed.
End Flow.

(** The device grant answers a poll with tokens exactly when the client is authenticated and the
    code is its own, unexpired, polled no faster than the interval, approved by a user, and the proof
    of possession and the minting succeed; the authorization is then consumed. *)
Theorem PollDeviceToken_ok_iff {Resp} s now client code dpop
  (mint : string -> string -> list string -> string -> string -> option Resp) s' resp :
  keyed s ->
  PollDeviceToken sv s now client code dpop mint = (s', Ok resp) ↔
  ∃ row c user jkt,
    client = Some c ∧ code ≠ ""
    ∧ DeviceAuthorizationByDeviceCodeHash (sv_range sv) s (codeHash (sv_key sv) "device" code) = Some row
    ∧ da_client_id row = cl_client_id c ∧ now < da_expires_at row ∧ too_fast row now = false
    ∧ da_status row = DeviceAuthApproved ∧ da_user_id row = Some user ∧ dpop = Some jkt
    ∧ mint (da_client_id row) user (da_scope row) (da_resource row) jkt = Some resp
    ∧ s' = <[da_id row := set_consumed_status (set_polled row now (da_interval row))]> s.
Proof. apply PollDeviceToken_iff. Qed.
End Interleaving.

(** ** Witnesses *)

Definition demo_upper (s : string) : string :=
  string_of_list_ascii (map upper_byte (list_ascii_of_string s)).
#[local] Instance demo_device_lib : DeviceLib :=
  {| ToUpper := demo_upper; hmac := fun k m => k +:+ ":" +:+ m; ToUpper_ascii s _ := eq_refl |}.

Definition demo_service : DeviceService :=
  mkService (applyDeviceDefaults (mkDeviceConfig 0 0 0 "" 0 0)) [mkResource "https://api" ["read"]] "k"
    map_to_list.
Definition demo_client : OAuthClient := mkClient "tv" [GrantTypeDeviceCode].
Definition demo_mint (client user : string) (scope : list string) (resource jkt : string) : option string :=
  Some (client +:+ "/" +:+ user +:+ "/" +:+ resource).

Lemma demo_typeable : typeable DefaultUserCodeAlphabet.
Proof. split; apply Forall_forall; intros c Hc; simpl in Hc; repeat (apply elem_of_cons in Hc as [->|Hc]; [by vm_compute|]); by apply elem_of_nil in Hc. Qed.

Lemma demo_over : over DefaultUserCodeAlphabet "BCDFGHJK".
Proof. apply (bool_decide_eq_true_1 (Forall _ _)). vm_compute. reflexivity. Qed.

Lemma device_flow_completes_witness :
  ∃ s1 r s2 s3,
    StartDeviceAuthorization demo_service ∅ Second Second (Some demo_client) ["read"] "" "01"
      (Some "dev-code") (fun _ => Some "BCDFGHJK") = (s1, Ok r)
    ∧ DecideDeviceUserCode demo_service s1 (2 * Second) (2 * Second) (Some true) (dr_user_code r) "alice" true
      = (s2, None)
    ∧ PollDeviceToken demo_service s2 (9 * Second) (Some demo_client) (dr_device_code r) (Some "") demo_mint
      = (s3, Ok "tv/alice/https://api").
Proof.
  apply (device_flow_completes demo_service (fun s => reflexivity _) ∅ demo_client ["read"] ["read"]
           (mkResource "https://api" ["read"]) "" "01" "dev-code" "BCDFGHJK" "alice" ""
           (fun _ => Some "BCDFGHJK") Second Second (2 * Second) (2 * Second) (9 * Second));
    try reflexivity; try discriminate.
  - exact demo_typeable.
  - exact demo_over.
Defined.

Definition demo_row : DeviceAuthorization :=
  mkDevice "01" (codeHash "k" "device" "dev-code") "uh" "tv" ["read"] "https://api" DeviceAuthPending None 5
    None Second (601 * Second) None.
Definition demo_approved : DeviceAuthorization := set_decided demo_row DeviceAuthApproved "alice" (2 * Second).
Definition demo_polled : DeviceAuthorization := set_polled demo_approved (9 * Second) 5.

Lemma PollDeviceToken_ok_iff_witness :
  PollDeviceToken demo_service {["01" := demo_approved]} (9 * Second) (Some demo_client) "dev-code" (Some "")
    demo_mint
  = (<["01" := set_consumed_status demo_polled]> {["01" := demo_approved]}, Ok "tv/alice/https://api").
Proof.
  apply (PollDeviceToken_ok_iff demo_service (fun s => reflexivity _)).
  - intros id d [<- <-]%lookup_singleton_Some. reflexivity.
  - exists demo_approved, demo_client, "alice", "". split_and!; try reflexivity; discriminate.
Defined.

(** Two polls read the approved row; both record themselves, the first to consume wins. *)
Definition demo_world (d : DeviceAuthorization) polls redeemed : world :=
  mkWorld {["01" := d]} polls [demo_row] [("01", "alice")] redeemed.
Definition demo_redemption : redemption :=
  mkRedemption "01" "tv" "alice" ["read"] "https://api" (9 * Second).

Lemma demo_race :
  rtc (device_step demo_service) world0
    (demo_world (set_consumed_status demo_polled) ∅ [demo_redemption]).
Proof.
  eapply rtc_l; [apply (step_insert _ world0 Second demo_row {["01" := demo_row]} None);
    [reflexivity|by intros ?%elem_of_nil|vm_compute; reflexivity]|].
  eapply rtc_l; [apply (step_decide _ _ "01" "alice" (2 * Second) true {["01" := demo_approved]} true);
    vm_compute; reflexivity|].
  eapply rtc_l; [apply (step_poll_read _ _ 0%nat (9 * Second) (Some demo_client) "dev-code" demo_approved);
    vm_compute; reflexivity|].
  eapply rtc_l; [apply (step_poll_read _ _ 1%nat (9 * Second) (Some demo_client) "dev-code" demo_approved);
    vm_compute; reflexivity|].
  eapply rtc_l; [apply (step_poll_record _ _ 0%nat demo_approved (9 * Second) {["01" := demo_polled]});
    vm_compute; reflexivity|].
  eapply rtc_l; [apply (step_poll_record _ _ 1%nat demo_approved (9 * Second) {["01" := demo_polled]});
    vm_compute; reflexivity|].
  eapply rtc_l; [apply (step_poll_consume _ _ 0%nat demo_approved (9 * Second) "alice"
    {["01" := set_consumed_status demo_polled]} true); vm_compute; reflexivity|].
  eapply rtc_l; [apply (step_poll_consume _ _ 1%nat demo_approved (9 * Second) "alice"
    {["01" := set_consumed_status demo_polled]} false); vm_compute; reflexivity|].
  match goal with |- rtc _ ?w ?w' => replace w with w' by (vm_compute; reflexivity) end. apply rtc_refl.
Qed.

Lemma device_code_redeemed_once_witness :
  NoDup ["01"] ∧ ("01", "alice") ∈ w_approved (demo_world (set_consumed_status demo_polled) ∅ [demo_redemption]).
Proof.
  destruct (device_code_redeemed_once demo_service (fun s => reflexivity _) _ demo_race) as [Hn Hr].
  split; [exact Hn|]. exact (proj1 (Hr demo_redemption (list_elem_of_here _ _))).
Defined.
