(* ===== verification/TokenGrants.v ===== *)
(** * Authorization codes and refresh tokens ([internal/as/token.go], [hardening.go], [revoke.go],
      [compat.go], [consent.go], [storage/memory/memory_v20.go])

    The authorization code grant with PKCE, the refresh token grant with rotation and reuse detection,
    revocation and the access token denylist, over the in-memory store. Each method of the store is
    atomic, each request makes several, and the theorems are about every interleaving of requests.
    Client authentication, proofs of possession, narrowing of authorization details, redirect
    equivalence on loopback and signing are arguments of the requests, as are random values and ids.
    The store keys refresh tokens by the hex form of their hash, which is injective: here the key is
    the hash. *)

From Stdlib Require Import ZArith Lia String Ascii DecimalString DecimalZ DecimalFacts.
From stdpp Require Import base gmap strings list.
From S2P Require Import Prelude.

Set Default Goal Selector "!".
Open Scope string_scope.
Open Scope list_scope.
Open Scope Z_scope.

(** ** Data ([internal/models/models_v20.go]) *)

Record AuthorizationCode := mkCode {
  ac_code : string; ac_client_id : string; ac_user_id : string; ac_redirect_uri : string;
  ac_scope : list string; ac_resource : string; ac_challenge : string; ac_challenge_method : string;
  ac_nonce : string; ac_details : string; ac_auth_time : Z; ac_acr : string; ac_amr : list string;
  ac_expires_at : Z;
}.

Record RefreshToken := mkRefresh {
  rt_id : string; rt_hash : string; rt_family : string; rt_client_id : string;
  rt_user_id : option string; rt_scope : list string; rt_resource : string; rt_parent_jti : string;
  rt_issued_at : Z; rt_expires_at : Z; rt_revoked_at : option Z; rt_note : string; rt_jkt : string;
  rt_code_hash : string; rt_details : string; rt_auth_time : Z; rt_acr : string; rt_amr : list string;
}.

Definition set_revoked (t : RefreshToken) (now : Z) (note : string) : RefreshToken :=
  mkRefresh (rt_id t) (rt_hash t) (rt_family t) (rt_client_id t) (rt_user_id t) (rt_scope t)
    (rt_resource t) (rt_parent_jti t) (rt_issued_at t) (rt_expires_at t) (Some now) note (rt_jkt t)
    (rt_code_hash t) (rt_details t) (rt_auth_time t) (rt_acr t) (rt_amr t).

(** ** The store ([memory_v20.go]) *)

Record GrantStore := mkStore {
  gs_codes : gmap string AuthorizationCode;
  gs_tokens : gmap string RefreshToken;
  gs_families : gmap string (list string);
  gs_denied : gmap string Z;
}.

Definition NewGrantStore : GrantStore := mkStore ∅ ∅ ∅ ∅.

Definition with_tokens (s : GrantStore) (ts : gmap string RefreshToken) : GrantStore :=
  mkStore (gs_codes s) ts (gs_families s) (gs_denied s).

Definition InsertAuthorizationCode (s : GrantStore) (c : AuthorizationCode) : GrantStore :=
  mkStore (<[ac_code c := c]> (gs_codes s)) (gs_tokens s) (gs_families s) (gs_denied s).

Definition ConsumeAuthorizationCode (s : GrantStore) (code : string) : GrantStore * option AuthorizationCode :=
  match gs_codes s !! code with
  | None => (s, None)
  | Some c => (mkStore (delete code (gs_codes s)) (gs_tokens s) (gs_families s) (gs_denied s), Some c)
  end.

Definition InsertRefreshToken (s : GrantStore) (t : RefreshToken) : GrantStore :=
  mkStore (gs_codes s) (<[rt_hash t := t]> (gs_tokens s))
    (<[rt_family t := default [] (gs_families s !! rt_family t) ++ [rt_hash t]]> (gs_families s))
    (gs_denied s).

Definition RefreshTokenByHash (s : GrantStore) (hash : string) : option RefreshToken := gs_tokens s !! hash.

(** [None] is [ErrNotFound]: no such token, or already revoked. *)
Definition RevokeRefreshToken (s : GrantStore) (hash reason : string) (now : Z) : option GrantStore :=
  match gs_tokens s !! hash with
  | None => None
  | Some t =>
      match rt_revoked_at t with
      | Some _ => None
      | None => Some (with_tokens s (<[hash := set_revoked t now reason]> (gs_tokens s)))
      end
  end.

(** The zero value of the struct, which a map lookup yields for a missing key. *)
Definition zero_token : RefreshToken :=
  mkRefresh "" "" "" "" None [] "" "" 0 0 None "" "" "" "" 0 "" [].

(** The loop over the keys of a family: the tokens, and the jtis of those it revoked. A key whose token
    was erased with its user gets a revoked zero value. *)
Definition revoke_key (reason : string) (now : Z) (acc : gmap string RefreshToken * list string) (k : string)
  : gmap string RefreshToken * list string :=
  let '(ts, jtis) := acc in
  let t := default zero_token (ts !! k) in
  match rt_revoked_at t with
  | None => (<[k := set_revoked t now reason]> ts, jtis ++ [rt_parent_jti t])
  | Some _ => (ts, jtis)
  end.

Definition revoke_keys (ts : gmap string RefreshToken) (keys : list string) (reason : string) (now : Z)
  : gmap string RefreshToken * list string :=
  fold_left (revoke_key reason now) keys (ts, []).

Definition RevokeRefreshTokenFamily (s : GrantStore) (family reason : string) (now : Z) : GrantStore :=
  match gs_families s !! family with
  | None => s
  | Some keys => with_tokens s (revoke_keys (gs_tokens s) keys reason now).1
  end.

(** The families of the code's tokens, and every key in them. *)
Definition code_families (s : GrantStore) (codeHash : string) : list string :=
  dedup (map (fun kt => rt_family (snd kt))
           (List.filter (fun kt => (rt_code_hash (snd kt) =? codeHash)%string) (map_to_list (gs_tokens s)))).

Definition RevokeRefreshTokensByAuthCode (s : GrantStore) (codeHash reason : string) (now : Z)
  : GrantStore * list string :=
  if (codeHash =? "")%string then (s, [])
  else
    let keys := flat_map (fun f => default [] (gs_families s !! f)) (code_families s codeHash) in
    let '(ts, jtis) := revoke_keys (gs_tokens s) keys reason now in
    (with_tokens s ts, jtis).

Definition DenyAccessToken (s : GrantStore) (jti : string) (expiresAt now : Z) : GrantStore :=
  mkStore (gs_codes s) (gs_tokens s) (gs_families s)
    (<[jti := expiresAt]> (filter (fun kv => After kv.2 now = true) (gs_denied s))).

Definition IsAccessTokenDenied (s : GrantStore) (jti : string) (now : Z) : bool :=
  match gs_denied s !! jti with Some exp => After exp now | None => false end.

(** What [deleteUserDependents] of [memory_lifecycle.go] does to codes and refresh tokens: the index of
    families stays. *)
Definition deleteUserDependents (s : GrantStore) (userID : string) : GrantStore :=
  mkStore (filter (fun kc => ac_user_id kc.2 ≠ userID) (gs_codes s))
    (filter (fun kt => rt_user_id kt.2 ≠ Some userID) (gs_tokens s)) (gs_families s) (gs_denied s).

(** ** The grant expiry carried by a token ([consent.go]) *)

(** [strconv.ParseInt(s, 10, 64)]: an optional sign and at least one digit, within [int64]. *)
Definition ParseInt (s : string) : option Z :=
  let digits :=
    match s with
    | String "+" s' => match s' with
                       | String "-" _ => None
                       | _ => NilZero.int_of_string s'
                       end
    | _ => NilZero.int_of_string s
    end in
  match digits with
  | Some d => let n := Z.of_int d in
              if (min_int64 <=? n) && (n <=? max_int64) then Some n else None
  | None => None
  end.

Definition grantExpirySep : ascii := "~".

(** The bytes after the last separator, [None] without one. *)
Fixpoint after_last_sep (s : string) : option string :=
  match s with
  | "" => None
  | String c s' =>
      match after_last_sep s' with
      | Some r => Some r
      | None => if Ascii.eqb c grantExpirySep then Some s' else None
      end
  end.

Definition splitGrantExpiry (tok : string) : Z :=
  match after_last_sep tok with
  | None => 0
  | Some rest =>
      match ParseInt rest with
      | Some n => if n <=? 0 then 0 else FromUnix n
      | None => 0
      end
  end.

Definition withGrantExpiry (tok : string) (exp : Z) : string :=
  if IsZero exp then tok else tok +:+ String grantExpirySep (FormatInt (Unix exp)).

(** ** Scopes and keys ([compat.go], [service.go], [hardening.go]) *)

Definition scopeSubset (sub sup : list string) : bool :=
  forallb (fun s => bool_decide (s ∈ sup)) sub.

Inductive grant_error :=
  | ErrOAuthInvalidRequest | ErrOAuthInvalidGrant | ErrOAuthInvalidClient | ErrOAuthRedirectURIMismatch
  | ErrOAuthPKCEMismatch | ErrOAuthInvalidResource | ErrOAuthInvalidScope | ErrAuthorizationDetails
  | ErrDPoPInvalid | ErrDPoPProof | ErrIssue | ErrRandomToken | ErrIDToken.

Definition narrowRefreshScopes (dropUnknown : bool) (requested granted : list string)
  : result grant_error (list string) :=
  match requested with
  | [] => Ok granted
  | _ =>
      if scopeSubset requested granted then Ok requested
      else if negb dropUnknown then Err ErrOAuthInvalidScope
      else match List.filter (fun sc => bool_decide (sc ∈ granted)) requested with
      | [] => Err ErrOAuthInvalidScope
      | out => Ok out
      end
  end.

Definition jktEqual (a b : string) : bool := negb (a =? "")%string && (a =? b)%string.

(** ** The token endpoint ([token.go]) *)

(** SHA-256 of a token, and its base64url form for PKCE. *)
Class TokenLib := {
  HashToken : string -> string;
  CodeChallenge : string -> string;
  hexString : string -> string;
}.

Record GrantConfig := mkGrantConfig {
  gc_issuer : string; gc_access_ttl : Z; gc_refresh_ttl : Z; gc_drop_unknown : bool;
  gc_oidc : bool; gc_denylist : bool;
}.

Record Claims := mkClaims {
  c_iss : string; c_sub : string; c_aud : string; c_exp : Z; c_iat : Z; c_jti : string;
  c_client_id : string; c_scope : list string; c_cnf_jkt : string; c_details : string;
  c_auth_time : Z; c_acr : string; c_amr : list string;
}.

Record mintInput := mkMintInput {
  mi_client_id : string; mi_user_id : option string; mi_scope : list string; mi_resource : string;
  mi_family : option string; mi_jkt : string; mi_code_hash : string; mi_grant_expiry : Z;
  mi_details : string; mi_auth_time : Z; mi_acr : string; mi_amr : list string; mi_nonce : string;
}.

Record TokenResponse := mkTokenResponse {
  tr_access : string; tr_type : string; tr_expires_in : Z; tr_refresh : string; tr_scope : list string;
  tr_id_token : string;
}.

(** What a mint draws from outside: the clock, fresh ids, a random token ([None] when the random
    source fails), the signer with the hooks before it ([None] on an error), and the ID token. *)
Record MintEnv := mkMintEnv {
  me_now : Z; me_jti : string; me_family : string; me_id : string; me_token : option string;
  me_issue : Claims -> option string; me_id_token : Claims -> option string;
}.

Definition capped (exp grantExpiry : Z) : Z :=
  if negb (IsZero grantExpiry) && Before grantExpiry exp then grantExpiry else exp.

Section Grants.
Context `{TokenLib} (cfg : GrantConfig).

Definition mint_claims (env : MintEnv) (i : mintInput) : Claims :=
  mkClaims (gc_issuer cfg) (default "" (mi_user_id i)) (mi_resource i)
    (Unix (capped (me_now env + gc_access_ttl cfg) (mi_grant_expiry i))) (Unix (me_now env)) (me_jti env)
    (mi_client_id i) (mi_scope i) (mi_jkt i) (mi_details i) (mi_auth_time i) (mi_acr i) (mi_amr i).

Definition mint_token (env : MintEnv) (i : mintInput) (tok : string) : RefreshToken :=
  mkRefresh (me_id env) (HashToken tok) (default (me_family env) (mi_family i)) (mi_client_id i)
    (mi_user_id i) (mi_scope i) (mi_resource i) (me_jti env) (me_now env)
    (capped (me_now env + gc_refresh_ttl cfg) (mi_grant_expiry i)) None "" (mi_jkt i) (mi_code_hash i)
    (mi_details i) (mi_auth_time i) (mi_acr i) (mi_amr i).

(** The refresh token is stored before the ID token is issued. *)
Definition mintAccessAndRefresh (env : MintEnv) (s : GrantStore) (i : mintInput)
  : GrantStore * result grant_error TokenResponse :=
  let accessExp := capped (me_now env + gc_access_ttl cfg) (mi_grant_expiry i) in
  if negb (After accessExp (me_now env)) then (s, Err ErrOAuthInvalidGrant)
  else match me_issue env (mint_claims env i) with
  | None => (s, Err ErrIssue)
  | Some access =>
      match me_token env with
      | None => (s, Err ErrRandomToken)
      | Some raw =>
          let tok := withGrantExpiry raw (mi_grant_expiry i) in
          let s := InsertRefreshToken s (mint_token env i tok) in
          let type_ := if (mi_jkt i =? "")%string then "Bearer" else "DPoP" in
          let resp := mkTokenResponse access type_ (Z.quot (Sub accessExp (me_now env)) Second) tok
                        (mi_scope i) in
          if gc_oidc cfg && bool_decide (is_Some (mi_user_id i)) && bool_decide ("openid" ∈ mi_scope i) then
            match me_id_token env (mint_claims env i) with
            | None => (s, Err ErrIDToken)
            | Some idt => (s, Ok (resp idt))
            end
          else (s, Ok (resp ""))
      end
  end.

Definition codeStorageKey (code : string) : string := hexString (HashToken code).

(** Adds a jti to the denylist when the feature is on. *)
Definition denyAccessJTI (s : GrantStore) (jti : string) (exp now : Z) : GrantStore :=
  if negb (gc_denylist cfg) || (jti =? "")%string then s else DenyAccessToken s jti exp now.

Definition accessJTIRevoked (s : GrantStore) (jti : string) (now : Z) : bool :=
  if negb (gc_denylist cfg) || (jti =? "")%string then false else IsAccessTokenDenied s jti now.

Definition handleCodeReplay (s : GrantStore) (codeKey : string) (now : Z) : GrantStore :=
  let '(s, jtis) := RevokeRefreshTokensByAuthCode s codeKey "authorization code replay" now in
  fold_left (fun s j => denyAccessJTI s j (now + gc_access_ttl cfg) now) jtis s.

Record TokenRequest := mkTokenRequest {
  rq_code : string; rq_verifier : string; rq_redirect_uri : string; rq_refresh_token : string;
  rq_resource : string; rq_scope : list string;
}.

(** What the request's helpers answer: the authenticated client, whether two redirect URIs are the
    same on loopback (with the compatibility switch on), the audience of a resource, whether a
    requested resource is the granted one, the narrowed details, and the DPoP thumbprint, [""]
    without a proof. *)
Record RequestEnv := mkRequestEnv {
  re_client : option string; re_now : Z; re_loopback : string -> string -> bool;
  re_audience : string -> option string; re_matches : string -> string -> bool;
  re_details : string -> option string; re_jkt : option string;
}.

(** The checks of [ExchangeAuthorizationCode] on the consumed code. *)
Definition exchange_checks (e : RequestEnv) (client : string) (req : TokenRequest) (c : AuthorizationCode)
  : result grant_error mintInput :=
  if negb (ac_client_id c =? client)%string then Err ErrOAuthInvalidGrant
  else if negb (After (ac_expires_at c) (re_now e)) then Err ErrOAuthInvalidGrant
  else if (rq_redirect_uri req =? "")%string
          || (negb (rq_redirect_uri req =? ac_redirect_uri c)%string
              && negb (re_loopback e (rq_redirect_uri req) (ac_redirect_uri c)))
  then Err ErrOAuthRedirectURIMismatch
  else if negb (ac_challenge_method c =? "S256")%string then Err ErrOAuthInvalidGrant
  else if negb (CodeChallenge (rq_verifier req) =? ac_challenge c)%string then Err ErrOAuthPKCEMismatch
  else match re_audience e (ac_resource c) with
  | None => Err ErrOAuthInvalidResource
  | Some audience =>
      match re_details e (ac_details c) with
      | None => Err ErrAuthorizationDetails
      | Some details =>
          match re_jkt e with
          | None => Err ErrDPoPProof
          | Some jkt =>
              Ok (mkMintInput client (Some (ac_user_id c)) (ac_scope c) audience None jkt
                    (codeStorageKey (rq_code req)) (splitGrantExpiry (rq_code req)) details
                    (ac_auth_time c) (ac_acr c) (ac_amr c) (ac_nonce c))
          end
      end
  end.

Definition ExchangeAuthorizationCode (e : RequestEnv) (env : MintEnv) (s : GrantStore) (req : TokenRequest)
  : GrantStore * result grant_error TokenResponse :=
  match re_client e with
  | None => (s, Err ErrOAuthInvalidClient)
  | Some client =>
      if (rq_code req =? "")%string || (rq_verifier req =? "")%string then (s, Err ErrOAuthInvalidRequest)
      else match ConsumeAuthorizationCode s (codeStorageKey (rq_code req)) with
      | (s, None) => (handleCodeReplay s (codeStorageKey (rq_code req)) (re_now e), Err ErrOAuthInvalidGrant)
      | (s, Some c) =>
          match exchange_checks e client req c with
          | Err err => (s, Err err)
          | Ok i => mintAccessAndRefresh env s i
          end
      end
  end.

(** The checks of [RefreshAccessToken] on the token read, once it is known not to be revoked. *)
Definition refresh_checks (e : RequestEnv) (client : string) (req : TokenRequest) (rt : RefreshToken)
  : result grant_error mintInput :=
  if negb (After (rt_expires_at rt) (re_now e)) then Err ErrOAuthInvalidGrant
  else if negb (rq_resource req =? "")%string && negb (re_matches e (rq_resource req) (rt_resource rt))
  then Err ErrOAuthInvalidResource
  else match narrowRefreshScopes (gc_drop_unknown cfg) (rq_scope req) (rt_scope rt) with
  | Err err => Err err
  | Ok scope =>
      match re_jkt e with
      | None => Err ErrDPoPProof
      | Some jkt =>
          if negb (rt_jkt rt =? "")%string && ((jkt =? "")%string || negb (jktEqual jkt (rt_jkt rt)))
          then Err ErrDPoPInvalid
          else match re_details e (rt_details rt) with
          | None => Err ErrAuthorizationDetails
          | Some details =>
              Ok (mkMintInput client (rt_user_id rt) scope (rt_resource rt) (Some (rt_family rt)) jkt ""
                    (splitGrantExpiry (rq_refresh_token req)) details (rt_auth_time rt) (rt_acr rt)
                    (rt_amr rt) "")
          end
      end
  end.

Definition RefreshAccessToken (e : RequestEnv) (env : MintEnv) (s : GrantStore) (req : TokenRequest)
  : GrantStore * result grant_error TokenResponse :=
  match re_client e with
  | None => (s, Err ErrOAuthInvalidClient)
  | Some client =>
      if (rq_refresh_token req =? "")%string then (s, Err ErrOAuthInvalidRequest)
      else
        let hash := HashToken (rq_refresh_token req) in
        match RefreshTokenByHash s hash with
        | None => (s, Err ErrOAuthInvalidGrant)
        | Some rt =>
            if negb (rt_client_id rt =? client)%string then (s, Err ErrOAuthInvalidGrant)
            else match rt_revoked_at rt with
            | Some _ =>
                (RevokeRefreshTokenFamily s (rt_family rt) "reuse detected" (re_now e), Err ErrOAuthInvalidGrant)
            | None =>
                match refresh_checks e client req rt with
                | Err err => (s, Err err)
                | Ok i =>
                    match RevokeRefreshToken s hash "rotated" (re_now e) with
                    | None =>
                        (RevokeRefreshTokenFamily s (rt_family rt) "reuse detected" (re_now e),
                         Err ErrOAuthInvalidGrant)
                    | Some s => mintAccessAndRefresh env s i
                    end
                end
            end
        end
  end.

(** [revoke.go] *)
Definition revokeRefreshFamily (s : GrantStore) (hash clientID : string) (now : Z) : GrantStore :=
  match RefreshTokenByHash s hash with
  | None => s
  | Some rt =>
      if negb (rt_client_id rt =? clientID)%string then s
      else RevokeRefreshTokenFamily s (rt_family rt) "explicit revoke" now
  end.
End Grants.

(** ** Grant expiry *)

Fixpoint no_sep (s : string) : bool :=
  match s with "" => true | String c s' => negb (Ascii.eqb c grantExpirySep) && no_sep s' end.

Lemma after_last_sep_none s : no_sep s = true -> after_last_sep s = None.
Proof.
  induction s as [|c s IH]; simpl; [done|]. intros [Hc Hs]%andb_prop. rewrite IH by done.
  by destruct (Ascii.eqb c grantExpirySep).
Qed.

Lemma after_last_sep_app raw d : no_sep d = true -> after_last_sep (raw +:+ String grantExpirySep d) = Some d.
Proof.
  intros Hd. induction raw as [|c raw IH].
  - change ("" +:+ String grantExpirySep d) with (String grantExpirySep d).
    cbn [after_last_sep]. by rewrite after_last_sep_none, Ascii.eqb_refl.
  - change (String c raw +:+ String grantExpirySep d) with (String c (raw +:+ String grantExpirySep d)).
    cbn [after_last_sep]. by rewrite IH.
Qed.

Lemma no_sep_uint d : no_sep (NilEmpty.string_of_uint d) = true.
Proof. induction d; simpl; try done; rewrite IHd; done. Qed.

Lemma FormatInt_pos n : 0 < n -> ∃ d, d ≠ Decimal.Nil ∧ FormatInt n = NilEmpty.string_of_uint d
  ∧ Z.of_int (Decimal.Pos d) = n.
Proof.
  intros Hn. unfold FormatInt. pose proof (DecimalZ.of_to n) as Hof.
  destruct n as [|p|p]; try lia. simpl in *. exists (Pos.to_uint p).
  assert (Hnil : Pos.to_uint p ≠ Decimal.Nil) by apply DecimalPos.Unsigned.to_uint_nonnil.
  split; [done|]. split; [by destruct (Pos.to_uint p)|done].
Qed.

Lemma ParseInt_FormatInt n : 0 < n <= max_int64 -> ParseInt (FormatInt n) = Some n.
Proof.
  intros Hn. destruct (FormatInt_pos n) as (d & Hd & Hf & Hz); [lia|].
  assert (Hs : NilZero.int_of_string (FormatInt n) = Some (Decimal.Pos d)).
  { rewrite Hf. transitivity (NilZero.int_of_string (NilZero.string_of_int (Decimal.Pos d))); [by destruct d|].
    apply NilZero.isi; congruence. }
  assert (Hr : (min_int64 <=? n) && (n <=? max_int64) = true).
  { apply andb_true_intro. split; apply Z.leb_le; unfold min_int64, max_int64 in *; lia. }
  assert (Hhead : ∀ s, FormatInt n ≠ String "+" s) by (rewrite Hf; by destruct d).
  unfold ParseInt. rewrite <- Hz in Hr.
  destruct (FormatInt n) as [|c s] eqn:E; [by rewrite Hs, Hr, Hz|].
  destruct (Ascii.eqb_spec c "+") as [->|Hc]; [by destruct (Hhead s)|].
  assert (Hm : (match String c s with
    | String "+" s' => match s' with String "-" _ => None | _ => NilZero.int_of_string s' end
    | _ => NilZero.int_of_string (String c s) end) = Some (Decimal.Pos d)).
  { rewrite <- Hs. destruct c as [[] [] [] [] [] [] [] []]; try reflexivity; done. }
  rewrite Hm. by rewrite Hr, Hz.
Qed.

(** A whole second expiry survives the trip through a token. *)
Lemma grant_expiry_roundtrip raw n :
  0 < n <= max_int64 -> splitGrantExpiry (withGrantExpiry raw (FromUnix n)) = FromUnix n.
Proof.
  intros Hn. unfold splitGrantExpiry, withGrantExpiry, IsZero.
  assert (HU : Unix (FromUnix n) = n).
  { unfold Unix, FromUnix. replace (unix_epoch + n * Second - unix_epoch) with (n * Second) by lia.
    apply Z.div_mul. done. }
  destruct (Z.eqb_spec (FromUnix n) 0) as [E|_]; [unfold FromUnix, unix_epoch, Second in E; lia|].
  rewrite HU, after_last_sep_app.
  - rewrite ParseInt_FormatInt by done. destruct (Z.leb_spec n 0); [lia|done].
  - destruct (FormatInt_pos n) as (d & _ & -> & _); [lia|apply no_sep_uint].
Qed.

Lemma capped_le exp g : g ≠ 0 -> capped exp g <= g.
Proof.
  intros Hg. unfold capped, IsZero, Before. destruct (Z.eqb_spec g 0); [done|]. simpl.
  destruct (Z.ltb_spec g exp); lia.
Qed.

(** What a successful mint leaves: the new token, live, under its hash. *)
Lemma mint_ok `{TokenLib} cfg env s i s' resp :
  mintAccessAndRefresh cfg env s i = (s', Ok resp) ->
  ∃ raw, me_token env = Some raw ∧ tr_refresh resp = withGrantExpiry raw (mi_grant_expiry i)
    ∧ s' = InsertRefreshToken s (mint_token cfg env i (tr_refresh resp)).
Proof.
  unfold mintAccessAndRefresh. destruct (negb _); [done|]. destruct (me_issue _ _); [|done].
  destruct (me_token env) as [raw|]; [|done]. destruct (_ && _).
  - destruct (me_id_token _ _); [|done]. intros [= <- <-]. by exists raw.
  - intros [= <- <-]. by exists raw.
Qed.

(** A grant's expiry outlives rotation: when the consent behind a grant ends at a given second, the
    access token and the refresh token minted from it expire no later, and the refresh token carries
    the same expiry into its own rotation. *)
Theorem grant_expiry_carried `{TokenLib} cfg env s i s' resp n :
  0 < n <= max_int64 -> mi_grant_expiry i = FromUnix n ->
  mintAccessAndRefresh cfg env s i = (s', Ok resp) ->
  c_exp (mint_claims cfg env i) <= n
  ∧ (∃ t, gs_tokens s' !! HashToken (tr_refresh resp) = Some t ∧ rt_expires_at t <= FromUnix n)
  ∧ splitGrantExpiry (tr_refresh resp) = FromUnix n.
Proof.
  intros Hn Hg (raw & _ & Hr & ->)%mint_ok.
  assert (Hne : FromUnix n ≠ 0) by (unfold FromUnix, unix_epoch, Second; lia). split_and!.
  - simpl. rewrite Hg. pose proof (capped_le (me_now env + gc_access_ttl cfg) (FromUnix n) Hne) as Hc.
    unfold Unix. apply Z.div_le_upper_bound; [done|]. unfold FromUnix in Hc at 2. lia.
  - eexists. split; [simpl; apply lookup_insert_eq|]. simpl. rewrite Hg. by apply capped_le.
  - rewrite Hr, Hg. by apply grant_expiry_roundtrip.
Qed.

(** ** What revocation leaves *)

Definition live (t : RefreshToken) : Prop := rt_revoked_at t = None.

(** No token comes alive. *)
Definition revokes (ts ts' : gmap string RefreshToken) : Prop :=
  ∀ h t, ts' !! h = Some t -> live t -> ts !! h = Some t.

(** The families do not change, and tokens are at most revoked or erased. *)
Definition store_revokes (s s' : GrantStore) : Prop :=
  gs_families s' = gs_families s ∧ revokes (gs_tokens s) (gs_tokens s').

#[export] Instance revokes_refl : Reflexive revokes.
Proof. by intros ts h t. Qed.

#[export] Instance revokes_trans : Transitive revokes.
Proof. intros a b c Hab Hbc h t Ht Hl. eauto. Qed.

#[export] Instance store_revokes_refl : Reflexive store_revokes.
Proof. intros s. split; [done|reflexivity]. Qed.

#[export] Instance store_revokes_trans : Transitive store_revokes.
Proof. intros a b c [H1 H2] [H3 H4]. split; [congruence|by transitivity (gs_tokens b)]. Qed.

Lemma revokes_insert ts h t now note : revokes ts (<[h := set_revoked t now note]> ts).
Proof. by intros k t' [[<- <-]|[_ Ht]]%lookup_insert_Some Hl. Qed.

(** One step of the loop over a family's keys. *)
Lemma revoke_key_spec reason now ts js k :
  let r := revoke_key reason now (ts, js) k in
  revokes ts r.1 ∧ (∀ j, j ∈ js -> j ∈ r.2) ∧ (∀ h, h ≠ k -> r.1 !! h = ts !! h)
  ∧ (∀ t, r.1 !! k = Some t -> ~ live t)
  ∧ (∀ t, ts !! k = Some t -> live t -> rt_parent_jti t ∈ r.2).
Proof.
  unfold revoke_key. destruct (rt_revoked_at (default zero_token (ts !! k))) eqn:Er; simpl.
  - split_and!; [reflexivity|done|done| |]; intros t' Ht; rewrite Ht in Er; simpl in Er; unfold live; congruence.
  - split_and!; [by apply revokes_insert|set_solver|intros h Hh; by rewrite lookup_insert_ne| |].
    + intros t'. rewrite lookup_insert_eq. by intros [= <-].
    + intros t' Ht. rewrite Ht. set_solver.
Qed.

Lemma revoke_fold_spec reason now l ts js :
  let r := fold_left (revoke_key reason now) l (ts, js) in
  revokes ts r.1 ∧ (∀ j, j ∈ js -> j ∈ r.2) ∧ (∀ h t, h ∈ l -> r.1 !! h = Some t -> ~ live t)
  ∧ (∀ h t, h ∈ l -> ts !! h = Some t -> live t -> rt_parent_jti t ∈ r.2).
Proof.
  revert ts js. induction l as [|k l IH]; intros ts js; cbn [fold_left].
  { split_and!; [reflexivity|done|set_solver|set_solver]. }
  pose proof (revoke_key_spec reason now ts js k) as Hk. cbv zeta in Hk.
  destruct (revoke_key reason now (ts, js) k) as [ts1 js1]. destruct Hk as (H1 & H2 & H3 & H4 & H5).
  destruct (IH ts1 js1) as (I1 & I2 & I3 & I4). simpl in *. split_and!; [by transitivity ts1|by eauto| |].
  - intros h t [->|Hin]%elem_of_cons Ht; [|by eauto]. intros Hl. by apply (H4 t); [apply I1|].
  - intros h t Hin Ht Hl. destruct (decide (h = k)) as [->|Hne]; [by eauto|].
    apply I4 with h; [set_solver|by rewrite H3|done].
Qed.

(** The loop revokes every token under one of the keys, reports their jtis, and nothing else. *)
Lemma revoke_keys_spec ts keys reason now :
  let r := revoke_keys ts keys reason now in
  revokes ts r.1 ∧ (∀ h t, h ∈ keys -> r.1 !! h = Some t -> ~ live t)
  ∧ (∀ h t, h ∈ keys -> ts !! h = Some t -> live t -> rt_parent_jti t ∈ r.2).
Proof. destruct (revoke_fold_spec reason now keys ts []) as (H1 & _ & H3 & H4). by split_and!. Qed.

Lemma RevokeRefreshToken_some s hash reason now s' :
  RevokeRefreshToken s hash reason now = Some s' ->
  store_revokes s s' ∧ ∃ t, gs_tokens s !! hash = Some t ∧ live t
    ∧ s' = with_tokens s (<[hash := set_revoked t now reason]> (gs_tokens s)).
Proof.
  unfold RevokeRefreshToken. destruct (gs_tokens s !! hash) as [t|] eqn:E; [|done].
  destruct (rt_revoked_at t) eqn:Er; [done|]. intros [= <-]. split; [|by exists t].
  split; [done|]. apply revokes_insert.
Qed.

Lemma RevokeRefreshTokenFamily_revokes s family reason now :
  store_revokes s (RevokeRefreshTokenFamily s family reason now).
Proof.
  unfold RevokeRefreshTokenFamily. destruct (gs_families s !! family); [|reflexivity].
  split; [done|]. apply revoke_keys_spec.
Qed.

Lemma RevokeRefreshTokensByAuthCode_revokes s key reason now :
  store_revokes s (RevokeRefreshTokensByAuthCode s key reason now).1.
Proof.
  unfold RevokeRefreshTokensByAuthCode. destruct (_ =? _)%string; [reflexivity|].
  set (keys := flat_map _ _). pose proof (revoke_keys_spec (gs_tokens s) keys reason now) as [Hr _].
  destruct (revoke_keys _ _ _ _). by split.
Qed.

Lemma denyAccessJTI_tokens cfg s jti exp now : gs_tokens (denyAccessJTI cfg s jti exp now) = gs_tokens s
  ∧ gs_families (denyAccessJTI cfg s jti exp now) = gs_families s
  ∧ gs_codes (denyAccessJTI cfg s jti exp now) = gs_codes s.
Proof. unfold denyAccessJTI. by destruct (_ || _). Qed.

Lemma deny_all_tokens cfg jtis exp now s :
  let s' := fold_left (fun s j => denyAccessJTI cfg s j exp now) jtis s in
  gs_tokens s' = gs_tokens s ∧ gs_families s' = gs_families s ∧ gs_codes s' = gs_codes s.
Proof.
  revert s. induction jtis as [|j l IH]; intros s; [done|]. simpl.
  destruct (IH (denyAccessJTI cfg s j exp now)) as (-> & -> & ->). apply denyAccessJTI_tokens.
Qed.

Lemma handleCodeReplay_tokens cfg s key now :
  gs_tokens (handleCodeReplay cfg s key now)
    = gs_tokens (RevokeRefreshTokensByAuthCode s key "authorization code replay" now).1
  ∧ gs_families (handleCodeReplay cfg s key now) = gs_families s.
Proof.
  unfold handleCodeReplay. pose proof (RevokeRefreshTokensByAuthCode_revokes s key "authorization code replay" now) as [Hf _].
  destruct (RevokeRefreshTokensByAuthCode _ _ _ _) as [s1 jtis].
  destruct (deny_all_tokens cfg jtis (now + gc_access_ttl cfg) now s1) as (-> & -> & _). by split.
Qed.

Lemma handleCodeReplay_revokes cfg s key now : store_revokes s (handleCodeReplay cfg s key now).
Proof.
  destruct (handleCodeReplay_tokens cfg s key now) as [Ht Hf].
  destruct (RevokeRefreshTokensByAuthCode_revokes s key "authorization code replay" now) as [_ Hr].
  split; [done|by rewrite Ht].
Qed.

Lemma ConsumeAuthorizationCode_revokes s key : store_revokes s (ConsumeAuthorizationCode s key).1.
Proof. unfold ConsumeAuthorizationCode. destruct (gs_codes s !! key); [split; [done|reflexivity]|reflexivity]. Qed.

Lemma deleteUserDependents_revokes s user : store_revokes s (deleteUserDependents s user).
Proof. split; [done|]. by intros h t [Ht _]%map_lookup_filter_Some Hl. Qed.

Lemma revokeRefreshFamily_revokes s hash client now : store_revokes s (revokeRefreshFamily s hash client now).
Proof.
  unfold revokeRefreshFamily. destruct (RefreshTokenByHash s hash); [|reflexivity].
  destruct (negb _); [reflexivity|apply RevokeRefreshTokenFamily_revokes].
Qed.

(** ** Interleaved requests *)

(** Where a request stands between two calls of the store: it read a live refresh token that passed
    every check, or it consumed its code or token and has yet to mint. *)
Inductive request_state :=
  | Rotating (hash : string) (rt : RefreshToken) (i : mintInput)
  | Minting (i : mintInput).

(** What a user approved outside the redirect flow: the device grant ([PollDeviceToken] of [device.go]) mints from
    the approved row and the key of the poll, the backchannel grant ([MintCIBATokens]) from the approved
    request without a key. *)
Record approval := mkApproval {
  av_client : string; av_user : string; av_scope : list string; av_resource : string; av_jkt : string }.

Definition approved_input (a : approval) : mintInput :=
  mkMintInput (av_client a) (Some (av_user a)) (av_scope a) (av_resource a) None (av_jkt a) "" 0 "" 0 "" [] "".

(** Where a grant starts. *)
Inductive grant_origin := FromCode (c : AuthorizationCode) | FromApproval (a : approval).

(** The codes issued and the approvals redeemed so far, the store, the requests in flight, and for each family
    what its first token was minted from. *)
Record grant_world := mkGrantWorld {
  gw_issued : list grant_origin;
  gw_store : GrantStore; gw_requests : gmap nat request_state; gw_roots : gmap string mintInput;
}.

Definition grant_world0 : grant_world := mkGrantWorld [] NewGrantStore ∅ ∅.

(** A family keeps what it was first minted from. *)
Definition with_root (roots : gmap string mintInput) (family : string) (i : mintInput) : gmap string mintInput :=
  match roots !! family with Some _ => roots | None => <[family := i]> roots end.

(** The roots after a mint that left the store [s]: a mint that failed before storing starts no family. *)
Definition roots_after (s : GrantStore) (roots : gmap string mintInput) (family : string) (i : mintInput)
  : gmap string mintInput :=
  match gs_families s !! family with Some _ => with_root roots family i | None => roots end.

(** The names a mint draws are new: the hash of the refresh token, which stays in the index of families
    even when its token is erased, and the family of a first token. *)
Definition fresh_mint `{TokenLib} (env : MintEnv) (s : GrantStore) (i : mintInput) : Prop :=
  (∀ raw f keys, me_token env = Some raw -> gs_families s !! f = Some keys ->
     HashToken (withGrantExpiry raw (mi_grant_expiry i)) ∉ keys)
  ∧ (mi_family i = None -> gs_families s !! me_family env = None).

Section Interleaving.
Context `{TokenLib} (cfg : GrantConfig).

Inductive grant_step : grant_world -> grant_world -> Prop :=
  | gstep_code iss c s rs roots :
      grant_step (mkGrantWorld iss s rs roots) (mkGrantWorld (FromCode c :: iss) (InsertAuthorizationCode s c) rs roots)
  | gstep_approved iss p a s rs roots :
      rs !! p = None ->
      grant_step (mkGrantWorld iss s rs roots)
        (mkGrantWorld (FromApproval a :: iss) s (<[p := Minting (approved_input a)]> rs) roots)
  | gstep_redeem iss p e client req c i s s' rs roots :
      ConsumeAuthorizationCode s (codeStorageKey (rq_code req)) = (s', Some c) ->
      exchange_checks e client req c = Ok i -> rs !! p = None ->
      grant_step (mkGrantWorld iss s rs roots) (mkGrantWorld iss s' (<[p := Minting i]> rs) roots)
  | gstep_burn iss e client req c err s s' rs roots :
      ConsumeAuthorizationCode s (codeStorageKey (rq_code req)) = (s', Some c) ->
      exchange_checks e client req c = Err err ->
      grant_step (mkGrantWorld iss s rs roots) (mkGrantWorld iss s' rs roots)
  | gstep_replay iss key now s rs roots :
      gs_codes s !! key = None ->
      grant_step (mkGrantWorld iss s rs roots) (mkGrantWorld iss (handleCodeReplay cfg s key now) rs roots)
  | gstep_read iss p e client req rt i s rs roots :
      RefreshTokenByHash s (HashToken (rq_refresh_token req)) = Some rt ->
      rt_client_id rt = client -> live rt -> refresh_checks cfg e client req rt = Ok i -> rs !! p = None ->
      grant_step (mkGrantWorld iss s rs roots)
        (mkGrantWorld iss s (<[p := Rotating (HashToken (rq_refresh_token req)) rt i]> rs) roots)
  | gstep_reuse iss hash rt now s rs roots :
      RefreshTokenByHash s hash = Some rt -> ~ live rt ->
      grant_step (mkGrantWorld iss s rs roots)
        (mkGrantWorld iss (RevokeRefreshTokenFamily s (rt_family rt) "reuse detected" now) rs roots)
  | gstep_rotate iss p hash rt i now s s' rs roots :
      rs !! p = Some (Rotating hash rt i) -> RevokeRefreshToken s hash "rotated" now = Some s' ->
      grant_step (mkGrantWorld iss s rs roots) (mkGrantWorld iss s' (<[p := Minting i]> rs) roots)
  | gstep_lost iss p hash rt i now s rs roots :
      rs !! p = Some (Rotating hash rt i) -> RevokeRefreshToken s hash "rotated" now = None ->
      grant_step (mkGrantWorld iss s rs roots)
        (mkGrantWorld iss (RevokeRefreshTokenFamily s (rt_family rt) "reuse detected" now) (delete p rs) roots)
  | gstep_mint iss p i env s s' resp rs roots :
      rs !! p = Some (Minting i) -> fresh_mint env s i -> mintAccessAndRefresh cfg env s i = (s', resp) ->
      grant_step (mkGrantWorld iss s rs roots)
        (mkGrantWorld iss s' (delete p rs) (roots_after s' roots (default (me_family env) (mi_family i)) i))
  | gstep_revoke iss hash client now s rs roots :
      grant_step (mkGrantWorld iss s rs roots) (mkGrantWorld iss (revokeRefreshFamily s hash client now) rs roots)
  | gstep_erase iss user s rs roots :
      grant_step (mkGrantWorld iss s rs roots) (mkGrantWorld iss (deleteUserDependents s user) rs roots)
  | gstep_deny iss jti exp now s rs roots :
      grant_step (mkGrantWorld iss s rs roots) (mkGrantWorld iss (denyAccessJTI cfg s jti exp now) rs roots).

(** *** Single live token *)

Record rotation_ok (w : grant_world) : Prop := mkRotationOk {
  ro_index : ∀ h t, gs_tokens (gw_store w) !! h = Some t -> live t ->
    ∃ keys, gs_families (gw_store w) !! rt_family t = Some keys ∧ h ∈ keys;
  ro_live : ∀ h1 h2 t1 t2, gs_tokens (gw_store w) !! h1 = Some t1 -> gs_tokens (gw_store w) !! h2 = Some t2 ->
    live t1 -> live t2 -> rt_family t1 = rt_family t2 -> h1 = h2;
  ro_pending : ∀ h t p i, gs_tokens (gw_store w) !! h = Some t -> live t ->
    gw_requests w !! p = Some (Minting i) -> mi_family i ≠ Some (rt_family t);
  ro_unique : ∀ p q i j f, gw_requests w !! p = Some (Minting i) -> gw_requests w !! q = Some (Minting j) ->
    mi_family i = Some f -> mi_family j = Some f -> p = q;
  ro_known : ∀ p i f, gw_requests w !! p = Some (Minting i) -> mi_family i = Some f ->
    is_Some (gs_families (gw_store w) !! f);
  ro_read : ∀ p h rt i, gw_requests w !! p = Some (Rotating h rt i) ->
    mi_family i = Some (rt_family rt)
    ∧ (∃ keys, gs_families (gw_store w) !! rt_family rt = Some keys ∧ h ∈ keys)
    ∧ ∀ t, gs_tokens (gw_store w) !! h = Some t -> live t -> rt_family t = rt_family rt;
}.

(** Revocations and requests that end or only read keep the invariant. *)
Lemma rotation_ok_revokes iss iss' s s' rs rs' roots roots' :
  rotation_ok (mkGrantWorld iss s rs roots) -> store_revokes s s' ->
  (∀ p i, rs' !! p = Some (Minting i) -> rs !! p = Some (Minting i) ∨ mi_family i = None) ->
  (∀ p h rt i, rs' !! p = Some (Rotating h rt i) -> rs !! p = Some (Rotating h rt i)
     ∨ (gs_tokens s !! h = Some rt ∧ live rt ∧ mi_family i = Some (rt_family rt))) ->
  rotation_ok (mkGrantWorld iss' s' rs' roots').
Proof.
  intros [Hi Hl Hp Hu Hk Hr] [Hf Hv] HM HR. simpl in *. constructor; simpl; rewrite ?Hf.
  - intros h t Ht Hlive. eauto.
  - intros h1 h2 t1 t2 H1 H2 L1 L2. by apply (Hl h1 h2 t1 t2); auto.
  - intros h t p i Ht Hlive Hm. destruct (HM p i Hm) as [Hm'|Hn]; [|by rewrite Hn]. by eapply Hp; eauto.
  - intros p q i j f Hm1 Hm2 F1 F2. destruct (HM p i Hm1) as [|?]; [|congruence].
    destruct (HM q j Hm2) as [|?]; [|congruence]. by eapply Hu.
  - intros p i f Hm Hfam. destruct (HM p i Hm) as [|?]; [by eapply Hk|congruence].
  - intros p h rt i Hm. destruct (HR p h rt i Hm) as [Hm'|(Ht & Hlive & Hfam)].
    + destruct (Hr p h rt i Hm') as (? & ? & Hlive). split_and!; [done|done|]. by eauto.
    + split_and!; [done|by eauto|]. intros t Ht' Hl'. pose proof (Hv _ _ Ht' Hl'). congruence.
Qed.

Lemma rotation_ok_same iss iss' s s' rs roots roots' :
  rotation_ok (mkGrantWorld iss s rs roots) -> store_revokes s s' -> rotation_ok (mkGrantWorld iss' s' rs roots').
Proof. intros Hok Hs. by eapply rotation_ok_revokes; eauto. Qed.

Lemma refresh_checks_ok e client req rt i :
  refresh_checks cfg e client req rt = Ok i ->
  After (rt_expires_at rt) (re_now e) = true
  ∧ mi_family i = Some (rt_family rt) ∧ mi_client_id i = client ∧ mi_user_id i = rt_user_id rt
  ∧ mi_resource i = rt_resource rt ∧ mi_scope i ⊆ rt_scope rt
  ∧ (rt_jkt rt ≠ "" -> mi_jkt i = rt_jkt rt)
  ∧ mi_auth_time i = rt_auth_time rt ∧ mi_acr i = rt_acr rt ∧ mi_amr i = rt_amr rt.
Proof.
  unfold refresh_checks. destruct (After _ _); [|done]. simpl. destruct (_ && _); [done|].
  destruct (narrowRefreshScopes _ _ _) as [scope|] eqn:En; [|done].
  destruct (re_jkt e) as [jkt|]; [|done]. destruct (_ && _) eqn:Ej; [done|].
  destruct (re_details _ _); [|done]. intros [= <-]. simpl. split_and!; try done.
  - revert En. unfold narrowRefreshScopes. destruct (rq_scope req) as [|x l] eqn:Er; [by intros [= <-]|].
    destruct (scopeSubset _ _) eqn:Es.
    + intros [= <-] y Hy. unfold scopeSubset in Es. rewrite forallb_forall in Es.
      apply list_elem_of_In, Es in Hy. by apply bool_decide_eq_true in Hy.
    + destruct (gc_drop_unknown cfg); [|done]. cbn [negb]. destruct (List.filter _ _) as [|z zs] eqn:Ef; [done|].
      intros [= <-] y Hy. rewrite <- Ef in Hy. apply list_elem_of_In, filter_In in Hy as [_ Hy].
      by apply bool_decide_eq_true in Hy.
  - intros Hj. apply String.eqb_neq in Hj. rewrite Hj in Ej. simpl in Ej.
    apply orb_false_elim in Ej as [_ Ej]. apply negb_false_iff in Ej. unfold jktEqual in Ej.
    apply andb_prop in Ej as [_ Ej]. by apply String.eqb_eq in Ej.
Qed.

Lemma exchange_checks_ok e client req c i :
  exchange_checks e client req c = Ok i ->
  ac_client_id c = client ∧ After (ac_expires_at c) (re_now e) = true
  ∧ CodeChallenge (rq_verifier req) = ac_challenge c ∧ ac_challenge_method c = "S256"
  ∧ mi_family i = None ∧ mi_client_id i = client ∧ mi_user_id i = Some (ac_user_id c)
  ∧ mi_scope i = ac_scope c ∧ mi_code_hash i = codeStorageKey (rq_code req)
  ∧ mi_auth_time i = ac_auth_time c ∧ mi_acr i = ac_acr c ∧ mi_amr i = ac_amr c.
Proof.
  unfold exchange_checks. destruct (String.eqb_spec (ac_client_id c) client); [|done]. simpl.
  destruct (After _ _); [|done]. simpl. destruct (_ || _); [done|].
  destruct (String.eqb_spec (ac_challenge_method c) "S256"); [|done]. simpl.
  destruct (String.eqb_spec (CodeChallenge (rq_verifier req)) (ac_challenge c)); [|done]. simpl.
  destruct (re_audience _ _); [|done]. destruct (re_details _ _); [|done]. destruct (re_jkt e); [|done].
  by intros [= <-].
Qed.

Lemma mint_cases env s i s' resp :
  mintAccessAndRefresh cfg env s i = (s', resp) ->
  s' = s ∨ ∃ raw, me_token env = Some raw
    ∧ s' = InsertRefreshToken s (mint_token cfg env i (withGrantExpiry raw (mi_grant_expiry i))).
Proof.
  unfold mintAccessAndRefresh. destruct (negb _); [intros [= <- _]; by left|].
  destruct (me_issue _ _); [|intros [= <- _]; by left].
  destruct (me_token env) as [raw|]; [|intros [= <- _]; by left].
  destruct (_ && _); [destruct (me_id_token _ _)|]; intros [= <- _]; right; by exists raw.
Qed.

(** A token is minted into a family only by a request that holds the family's turn, so there is no
    other live token in it. *)
Lemma rotation_ok_insert iss s rs roots roots' p i t :
  rotation_ok (mkGrantWorld iss s rs roots) -> rs !! p = Some (Minting i) -> live t ->
  (∀ f keys, gs_families s !! f = Some keys -> rt_hash t ∉ keys) ->
  (mi_family i = Some (rt_family t) ∨ (mi_family i = None ∧ gs_families s !! rt_family t = None)) ->
  rotation_ok (mkGrantWorld iss (InsertRefreshToken s t) (delete p rs) roots').
Proof.
  intros [Hi Hl Hp Hu Hk Hr] Hm Hlive Hnew Hfam. simpl in *.
  assert (Hnone : ∀ h t', gs_tokens s !! h = Some t' -> live t' -> rt_family t' ≠ rt_family t).
  { intros h t' Ht Hl' E. destruct Hfam as [Hfam|[_ Hfam]].
    - apply (Hp h t' p i Ht Hl' Hm). by rewrite E.
    - destruct (Hi h t' Ht Hl') as (keys & Hkeys & _). rewrite E in Hkeys. congruence. }
  assert (Hgrow : ∀ g h keys, gs_families s !! g = Some keys -> h ∈ keys -> ∃ keys',
    <[rt_family t := default [] (gs_families s !! rt_family t) ++ [rt_hash t]]> (gs_families s) !! g = Some keys'
    ∧ h ∈ keys').
  { intros g h keys Hkeys Hin. destruct (decide (g = rt_family t)) as [->|E].
    - rewrite lookup_insert_eq, Hkeys. eexists. split; [done|set_solver].
    - rewrite lookup_insert_ne by done. eauto. }
  constructor; simpl.
  - intros h t' [[<- <-]|[Hne Ht]]%lookup_insert_Some Hl'.
    + rewrite lookup_insert_eq. eexists. split; [done|set_solver].
    + destruct (Hi h t' Ht Hl') as (keys & Hkeys & Hin). by eapply Hgrow.
  - intros h1 h2 t1 t2 [[<- <-]|[? H1]]%lookup_insert_Some [[<- <-]|[? H2]]%lookup_insert_Some L1 L2 E;
      [done|by destruct (Hnone h2 t2)|by destruct (Hnone h1 t1)|by eapply Hl].
  - intros h t' q j [[<- <-]|[? Ht]]%lookup_insert_Some L [Hq Hj]%lookup_delete_Some; [|by eapply Hp].
    intros E. destruct Hfam as [Hfam|[_ Hfam]]; [by destruct Hq; eapply Hu|].
    destruct (Hk q j (rt_family t) Hj E) as [? ?]. congruence.
  - intros q q' j j' f [_ H1]%lookup_delete_Some [_ H2]%lookup_delete_Some. by eapply Hu.
  - intros q j f [_ Hj]%lookup_delete_Some E. destruct (decide (f = rt_family t)) as [->|Hne].
    + rewrite lookup_insert_eq. by eexists.
    + rewrite lookup_insert_ne by done. by eapply Hk.
  - intros q h rt j [_ Hj]%lookup_delete_Some. destruct (Hr q h rt j Hj) as (? & (keys & Hkeys & Hin) & E).
    split_and!; [done|by eapply Hgrow|]. intros t' [[<- <-]|[_ Ht']]%lookup_insert_Some Hl'; [|by eauto].
    by destruct (Hnew _ _ Hkeys).
Qed.

(** A rotation takes the family's only live token, and with it the turn to mint. *)
Lemma rotation_ok_rotate iss s s' rs roots p hash rt i now :
  rotation_ok (mkGrantWorld iss s rs roots) -> rs !! p = Some (Rotating hash rt i) ->
  RevokeRefreshToken s hash "rotated" now = Some s' ->
  rotation_ok (mkGrantWorld iss s' (<[p := Minting i]> rs) roots).
Proof.
  intros Hok Hp (Hv & t & Ht & Hlive & ->)%RevokeRefreshToken_some.
  pose proof Hok as [Hi Hl Hpe Hu Hk Hr]. simpl in *.
  destruct (Hr p hash rt i Hp) as (Hfam & _ & E0). specialize (E0 t Ht Hlive).
  assert (Hok' : rotation_ok (mkGrantWorld iss (with_tokens s (<[hash:=set_revoked t now "rotated"]> (gs_tokens s)))
    (delete p rs) roots)).
  { eapply rotation_ok_revokes; [exact Hok|exact Hv| |]; intros q; [intros j|intros h rt' j];
      intros [_ ?]%lookup_delete_Some; by left. }
  destruct Hok' as [Hi' Hl' Hp' Hu' Hk' Hr']. simpl in *. constructor; simpl; try done.
  - intros h t' q j Ht' L [[<- [= <-]]|[Hq Hj]]%lookup_insert_Some.
    + rewrite Hfam. intros [= E]. apply lookup_insert_Some in Ht' as [[_ <-]|[Hne Ht']]; [done|].
      apply Hne. apply (Hl hash h t t' Ht Ht' Hlive L). congruence.
    + apply (Hp' h t' q j Ht' L). by apply lookup_delete_Some.
  - intros q q' j j' f Hj Hj' F F'. destruct (decide (q = q')) as [|Hne]; [done|]. exfalso.
    apply lookup_insert_Some in Hj as [[<- [= <-]]|[Hq Hj]];
      apply lookup_insert_Some in Hj' as [[<- [= <-]]|[Hq' Hj']].
    + done.
    + apply (Hpe hash t q' j' Ht Hlive Hj'). congruence.
    + apply (Hpe hash t q j Ht Hlive Hj). congruence.
    + apply Hne. by eapply Hu.
  - intros q j f [[<- [= <-]]|[Hq Hj]]%lookup_insert_Some F; [|by eapply Hk].
    destruct (Hi hash t Ht Hlive) as (keys & Hkeys & _). exists keys. congruence.
  - intros q h rt' j [[<- ?]|[Hq Hj]]%lookup_insert_Some; [done|]. apply (Hr' q). by apply lookup_delete_Some.
Qed.

Lemma rotation_ok_step w w' : rotation_ok w -> grant_step w w' -> rotation_ok w'.
Proof.
  intros Hok Hs. destruct Hs.
  - eapply rotation_ok_same; [exact Hok|]. split; [done|reflexivity].
  - eapply rotation_ok_revokes; [exact Hok|reflexivity| |].
    + intros q j [[<- [= <-]]|[? ?]]%lookup_insert_Some; [by right|by left].
    + intros q h rt j [[<- ?]|[? ?]]%lookup_insert_Some; [done|by left].
  - eapply rotation_ok_revokes; [exact Hok| | |].
    + pose proof (ConsumeAuthorizationCode_revokes s (codeStorageKey (rq_code req))) as Hv.
      by rewrite H0 in Hv.
    + intros q j [[<- [= <-]]|[? ?]]%lookup_insert_Some; [right|by left].
      by apply exchange_checks_ok in H1 as (_ & _ & _ & _ & ? & _).
    + intros q h rt j [[<- ?]|[? ?]]%lookup_insert_Some; [done|by left].
  - eapply rotation_ok_same; [exact Hok|].
    pose proof (ConsumeAuthorizationCode_revokes s (codeStorageKey (rq_code req))) as Hv. by rewrite H0 in Hv.
  - eapply rotation_ok_same; [exact Hok|apply handleCodeReplay_revokes].
  - eapply rotation_ok_revokes; [exact Hok|reflexivity| |].
    + intros q j [[<- ?]|[? ?]]%lookup_insert_Some; [done|by left].
    + intros q h rt' j [[<- [= <- <- <-]]|[? ?]]%lookup_insert_Some; [right|by left].
      split_and!; [done|done|]. by apply refresh_checks_ok in H3 as (_ & ? & _).
  - eapply rotation_ok_same; [exact Hok|apply RevokeRefreshTokenFamily_revokes].
  - by eapply rotation_ok_rotate.
  - eapply rotation_ok_revokes; [exact Hok|apply RevokeRefreshTokenFamily_revokes| |];
      intros q; [intros j|intros h rt' j]; intros [_ ?]%lookup_delete_Some; by left.
  - destruct H1 as [Hh Hf]. apply mint_cases in H2 as [->|(raw & Hraw & ->)].
    + eapply rotation_ok_revokes; [exact Hok|reflexivity| |];
        intros q; [intros j|intros h rt' j]; intros [_ ?]%lookup_delete_Some; by left.
    + eapply rotation_ok_insert; [exact Hok|done|done|by intros f keys; apply Hh|]. simpl.
      destruct (mi_family i) as [f|]; [by left|right; split; [done|by apply Hf]].
  - eapply rotation_ok_same; [exact Hok|apply revokeRefreshFamily_revokes].
  - eapply rotation_ok_same; [exact Hok|apply deleteUserDependents_revokes].
  - eapply rotation_ok_same; [exact Hok|]. destruct (denyAccessJTI_tokens cfg s jti exp now) as (? & ? & _).
    split; [done|by rewrite H0].
Qed.

Lemma rotation_ok_reachable w : rtc grant_step grant_world0 w -> rotation_ok w.
Proof.
  intros Hr. assert (H0 : rotation_ok grant_world0) by (constructor; simpl; intros *; rewrite ?lookup_empty; done).
  revert Hr H0. generalize grant_world0. intros w0 Hr. induction Hr; eauto using rotation_ok_step.
Qed.

(** *** Lineage of a grant *)

(** What a token says of its grant. *)
Definition token_grant (t : RefreshToken) : mintInput :=
  mkMintInput (rt_client_id t) (rt_user_id t) (rt_scope t) (rt_resource t) (Some (rt_family t)) (rt_jkt t)
    (rt_code_hash t) 0 (rt_details t) (rt_auth_time t) (rt_acr t) (rt_amr t) "".

(** [i] stays within [r]: the same client, user, resource and authentication, no scope [r] lacks, and
    the key [r] is bound to, if it is bound to one. *)
Record within (r i : mintInput) : Prop := mkWithin {
  wi_client : mi_client_id i = mi_client_id r;
  wi_user : mi_user_id i = mi_user_id r;
  wi_resource : mi_resource i = mi_resource r;
  wi_scope : mi_scope i ⊆ mi_scope r;
  wi_jkt : mi_jkt r ≠ "" -> mi_jkt i = mi_jkt r;
  wi_auth_time : mi_auth_time i = mi_auth_time r;
  wi_acr : mi_acr i = mi_acr r;
  wi_amr : mi_amr i = mi_amr r;
}.

#[local] Instance within_refl : Reflexive within.
Proof. by constructor. Qed.

#[local] Instance within_trans : Transitive within.
Proof.
  intros a b c [] []. constructor; try congruence; [set_solver|].
  intros Hj. rewrite wi_jkt1; [by apply wi_jkt0|]. by rewrite wi_jkt0.
Qed.

(** Every live token, and every request about to mint into a family, stays within the family's root. *)
Record lineage_ok (w : grant_world) : Prop := mkLineageOk {
  lo_token : ∀ h t, gs_tokens (gw_store w) !! h = Some t -> live t ->
    ∃ r, gw_roots w !! rt_family t = Some r ∧ within r (token_grant t);
  lo_request : ∀ p q i f, gw_requests w !! p = Some q ->
    (q = Minting i ∨ ∃ h rt, q = Rotating h rt i) -> mi_family i = Some f ->
    ∃ r, gw_roots w !! f = Some r ∧ within r i;
}.

Lemma lineage_ok_revokes iss iss' s s' rs rs' roots :
  lineage_ok (mkGrantWorld iss s rs roots) -> store_revokes s s' ->
  (∀ p q i f, rs' !! p = Some q -> (q = Minting i ∨ ∃ h rt, q = Rotating h rt i) -> mi_family i = Some f ->
     (∃ p' q', rs !! p' = Some q' ∧ (q' = Minting i ∨ ∃ h rt, q' = Rotating h rt i))
     ∨ ∃ h rt, gs_tokens s !! h = Some rt ∧ live rt ∧ rt_family rt = f ∧ within (token_grant rt) i) ->
  lineage_ok (mkGrantWorld iss' s' rs' roots).
Proof.
  intros [Ht Hq] [_ Hv] Hrs. simpl in *. constructor; simpl.
  - intros h t Hh Hl. by apply (Ht h t); [apply Hv|].
  - intros p q i f Hp Hi Hf. destruct (Hrs p q i f Hp Hi Hf) as [(p' & q' & Hp' & Hq')|(h & rt & Hh & Hl & <- & Hw)].
    + by eapply Hq.
    + destruct (Ht h rt Hh Hl) as (r & Hr & Hrw). exists r. split; [done|by transitivity (token_grant rt)].
Qed.

Lemma lineage_ok_fewer iss iss' s s' rs rs' roots :
  lineage_ok (mkGrantWorld iss s rs roots) -> store_revokes s s' -> rs' ⊆ rs ->
  lineage_ok (mkGrantWorld iss' s' rs' roots).
Proof.
  intros Hok Hs Hsub. eapply lineage_ok_revokes; [done|done|]. intros p q i f Hp Hi _. left. exists p, q.
  split; [|done]. by eapply lookup_weaken.
Qed.

Lemma with_root_old roots f i g r : roots !! g = Some r -> with_root roots f i !! g = Some r.
Proof.
  intros Hr. unfold with_root. destruct (roots !! f) eqn:E; [done|].
  rewrite lookup_insert_ne; [done|congruence].
Qed.

(** The minted token joins its family within the root, or starts a family as the root. *)
Lemma lineage_ok_mint iss s rs roots p i env tok :
  lineage_ok (mkGrantWorld iss s rs roots) -> rs !! p = Some (Minting i) ->
  let f := default (me_family env) (mi_family i) in
  (mi_family i = None -> roots !! f = None) ->
  lineage_ok (mkGrantWorld iss (InsertRefreshToken s (mint_token cfg env i tok)) (delete p rs) (with_root roots f i)).
Proof.
  intros [Ht Hq] Hp f Hnew. simpl in *. constructor; simpl.
  - intros h t [[<- <-]|[Hne Hh]]%lookup_insert_Some Hl; simpl.
    + fold f. destruct (mi_family i) as [g|] eqn:E.
      * destruct (Hq p _ i g Hp (or_introl eq_refl) E) as (r & Hr & Hw). exists r.
        split; [by apply with_root_old|]. transitivity i; [done|by constructor].
      * exists i. unfold with_root. rewrite Hnew by done. rewrite lookup_insert_eq. split; [done|by constructor].
    + destruct (Ht h t Hh Hl) as (r & Hr & Hw). exists r. split; [by apply with_root_old|done].
  - intros q st j g [_ Hj]%lookup_delete_Some Hi Hg. destruct (Hq q st j g Hj Hi Hg) as (r & Hr & Hw).
    exists r. split; [by apply with_root_old|done].
Qed.

(** A family has a root only once it has tokens. *)
Definition roots_ok (w : grant_world) : Prop :=
  ∀ f, is_Some (gw_roots w !! f) -> is_Some (gs_families (gw_store w) !! f).

Lemma rotating_within e client req rt i :
  rt_client_id rt = client -> refresh_checks cfg e client req rt = Ok i -> within (token_grant rt) i.
Proof.
  intros Hc (_ & Hf & ? & ? & ? & ? & ? & ? & ? & ?)%refresh_checks_ok. constructor; simpl; congruence || done.
Qed.

Lemma roots_grow s f i roots g r : roots !! g = Some r -> roots_after s roots f i !! g = Some r.
Proof. intros Hr. unfold roots_after. destruct (gs_families s !! f); [by apply with_root_old|done]. Qed.

Lemma roots_ok_step w w' : roots_ok w -> grant_step w w' -> roots_ok w'.
Proof.
  intros Hok Hs f. specialize (Hok f).
  destruct Hs; simpl in *; try done.
  - pose proof (ConsumeAuthorizationCode_revokes s (codeStorageKey (rq_code req))) as [Hf _].
    rewrite H0 in Hf. simpl in Hf. by rewrite Hf.
  - pose proof (ConsumeAuthorizationCode_revokes s (codeStorageKey (rq_code req))) as [Hf _].
    rewrite H0 in Hf. simpl in Hf. by rewrite Hf.
  - by rewrite (proj1 (handleCodeReplay_revokes cfg s key now)).
  - by rewrite (proj1 (RevokeRefreshTokenFamily_revokes s (rt_family rt) "reuse detected" now)).
  - apply RevokeRefreshToken_some in H1 as [[-> _] _]. done.
  - by rewrite (proj1 (RevokeRefreshTokenFamily_revokes s (rt_family rt) "reuse detected" now)).
  - assert (Hgrow : is_Some (gs_families s !! f) -> is_Some (gs_families s' !! f)).
    { apply mint_cases in H2 as [->|(raw & _ & ->)]; [done|]. simpl. intros [l Hl].
      destruct (decide (f = default (me_family env) (mi_family i))) as [->|Hne];
        [rewrite lookup_insert_eq|rewrite lookup_insert_ne by done]; eauto. }
    unfold roots_after. destruct (gs_families s' !! default (me_family env) (mi_family i)) eqn:E; [|by auto].
    unfold with_root.
    destruct (roots !! default (me_family env) (mi_family i)); [by auto|]. intros [r [[<- _]|[_ Hr]]%lookup_insert_Some]; eauto.
  - by rewrite (proj1 (revokeRefreshFamily_revokes s hash client now)).
  - destruct (denyAccessJTI_tokens cfg s jti exp now) as (_ & -> & _). done.
Qed.

Lemma lineage_ok_step w w' :
  rotation_ok w -> roots_ok w -> lineage_ok w -> grant_step w w' -> lineage_ok w'.
Proof.
  intros Hro Hroots Hok Hs. destruct Hs.
  - eapply lineage_ok_fewer; [exact Hok| |done]. split; [done|reflexivity].
  - eapply lineage_ok_revokes; [exact Hok|reflexivity|].
    intros q st j f [[<- <-]|[_ Hj]]%lookup_insert_Some Hi Hf; [|left; by eauto].
    by destruct Hi as [[= <-]|(? & ? & [=])].
  - pose proof (ConsumeAuthorizationCode_revokes s (codeStorageKey (rq_code req))) as Hv. rewrite H0 in Hv.
    eapply lineage_ok_revokes; [exact Hok|exact Hv|].
    intros q st j f [[<- <-]|[_ Hj]]%lookup_insert_Some Hi Hf; [|left; by eauto].
    apply exchange_checks_ok in H1 as (_ & _ & _ & _ & Hn & _).
    destruct Hi as [[= <-]|(? & ? & [=])]. congruence.
  - pose proof (ConsumeAuthorizationCode_revokes s (codeStorageKey (rq_code req))) as Hv. rewrite H0 in Hv.
    by eapply lineage_ok_fewer.
  - eapply lineage_ok_fewer; [exact Hok|apply handleCodeReplay_revokes|done].
  - eapply lineage_ok_revokes; [exact Hok|reflexivity|].
    intros q st j f [[<- <-]|[_ Hj]]%lookup_insert_Some Hi Hf; [|left; by eauto].
    destruct Hi as [[=]|(h & rt' & [= <- <- <-])]. right. exists (HashToken (rq_refresh_token req)), rt.
    pose proof (refresh_checks_ok _ _ _ _ _ H3) as (_ & Hfam & _).
    split_and!; [done|done|congruence|by eapply rotating_within].
  - eapply lineage_ok_fewer; [exact Hok|apply RevokeRefreshTokenFamily_revokes|done].
  - eapply lineage_ok_revokes; [exact Hok|by eapply RevokeRefreshToken_some|].
    intros q st j f [[<- <-]|[_ Hj]]%lookup_insert_Some Hi Hf; [|left; by eauto].
    destruct Hi as [[= <-]|(? & ? & [=])]. left. exists p, (Rotating hash rt i). eauto.
  - eapply lineage_ok_fewer; [exact Hok|apply RevokeRefreshTokenFamily_revokes|apply delete_subseteq].
  - apply mint_cases in H2 as [->|(raw & Hraw & ->)].
    + pose proof (lineage_ok_fewer iss iss s s rs (delete p rs) roots Hok (reflexivity _) (delete_subseteq _ _)) as [Ht Hq].
      constructor; simpl in *.
      * intros h t Hh Hl. destruct (Ht h t Hh Hl) as (r & Hr & Hw). exists r. split; [by apply roots_grow|done].
      * intros q st j f Hj Hi Hf. destruct (Hq q st j f Hj Hi Hf) as (r & Hr & Hw). exists r.
        split; [by apply roots_grow|done].
    + unfold roots_after. simpl. rewrite lookup_insert_eq. apply lineage_ok_mint; [done|done|].
      intros Hn. rewrite Hn. simpl. destruct H1 as [_ H1]. specialize (H1 Hn).
      apply eq_None_not_Some. intros Hs%Hroots. simpl in Hs. rewrite H1 in Hs. by destruct Hs.
  - eapply lineage_ok_fewer; [exact Hok|apply revokeRefreshFamily_revokes|done].
  - eapply lineage_ok_fewer; [exact Hok|apply deleteUserDependents_revokes|done].
  - eapply lineage_ok_fewer; [exact Hok| |done].
    destruct (denyAccessJTI_tokens cfg s jti exp now) as (Ht & Hf & _). split; [done|by rewrite Ht].
Qed.

(** *** Where a grant starts *)

Definition from_origin (issued : list grant_origin) (r : mintInput) : Prop :=
  (∃ e client req c, FromCode c ∈ issued ∧ exchange_checks e client req c = Ok r)
  ∨ ∃ a, FromApproval a ∈ issued ∧ r = approved_input a.

(** A family starts at a code that was issued and passed every check of the exchange, or at an approval. *)
Record origin_ok (w : grant_world) : Prop := mkOriginOk {
  oo_codes : ∀ k c, gs_codes (gw_store w) !! k = Some c -> FromCode c ∈ gw_issued w;
  oo_minting : ∀ p i, gw_requests w !! p = Some (Minting i) -> mi_family i = None -> from_origin (gw_issued w) i;
  oo_roots : ∀ f r, gw_roots w !! f = Some r -> from_origin (gw_issued w) r;
}.

Lemma RevokeRefreshTokenFamily_codes s f reason now :
  gs_codes (RevokeRefreshTokenFamily s f reason now) = gs_codes s.
Proof. unfold RevokeRefreshTokenFamily. by destruct (gs_families s !! f). Qed.

Lemma handleCodeReplay_codes s key now : gs_codes (handleCodeReplay cfg s key now) = gs_codes s.
Proof.
  unfold handleCodeReplay. destruct (RevokeRefreshTokensByAuthCode _ _ _ _) as [s1 jtis] eqn:E.
  destruct (deny_all_tokens cfg jtis (now + gc_access_ttl cfg) now s1) as (_ & _ & ->).
  revert E. unfold RevokeRefreshTokensByAuthCode. destruct (_ =? _)%string; [by intros [= <- _]|].
  destruct (revoke_keys _ _ _ _). by intros [= <- _].
Qed.

Lemma revokeRefreshFamily_codes s hash client now :
  gs_codes (revokeRefreshFamily s hash client now) = gs_codes s.
Proof.
  unfold revokeRefreshFamily. destruct (RefreshTokenByHash s hash); [|done]. destruct (negb _); [done|].
  apply RevokeRefreshTokenFamily_codes.
Qed.

Lemma Consume_codes s key s' c :
  ConsumeAuthorizationCode s key = (s', Some c) -> gs_codes s !! key = Some c ∧ gs_codes s' = delete key (gs_codes s).
Proof. unfold ConsumeAuthorizationCode. destruct (gs_codes s !! key) eqn:E; [|done]. by intros [= <- <-]. Qed.

(** Steps that issue nothing and only drop codes and requests keep the invariant. *)
Lemma origin_ok_shrink iss s s' rs rs' roots :
  origin_ok (mkGrantWorld iss s rs roots) -> gs_codes s' ⊆ gs_codes s ->
  (∀ p i, rs' !! p = Some (Minting i) -> mi_family i = None -> rs !! p = Some (Minting i) ∨ from_origin iss i) ->
  origin_ok (mkGrantWorld iss s' rs' roots).
Proof.
  intros [Hc Hm Hr] Hsub Hrs. constructor; simpl in *; [| |done].
  - intros k c Hk. eapply Hc. by eapply lookup_weaken.
  - intros p i Hp Hn. destruct (Hrs p i Hp Hn) as [Hp'|]; [by eapply Hm|done].
Qed.

Lemma origin_ok_mint iss s s' rs roots p i env resp :
  lineage_ok (mkGrantWorld iss s rs roots) -> origin_ok (mkGrantWorld iss s rs roots) ->
  rs !! p = Some (Minting i) -> mintAccessAndRefresh cfg env s i = (s', resp) ->
  origin_ok (mkGrantWorld iss s' (delete p rs) (roots_after s' roots (default (me_family env) (mi_family i)) i)).
Proof.
  intros Hlin Hok Hp Hmint.
  assert (Hc : gs_codes s' = gs_codes s) by (by apply mint_cases in Hmint as [->|(raw & _ & ->)]).
  assert (Hok' : origin_ok (mkGrantWorld iss s' (delete p rs) roots)).
  { eapply origin_ok_shrink; [exact Hok|by rewrite Hc|]. intros q j [_ Hj]%lookup_delete_Some _. by left. }
  destruct Hok' as [H1 H2 H3]. constructor; [done|done|]. simpl in *. intros f r. unfold roots_after, with_root.
  destruct (gs_families s' !! _); [|by eauto].
  destruct (roots !! default (me_family env) (mi_family i)) eqn:E; [by eauto|].
  intros [[_ <-]|[_ Hr]]%lookup_insert_Some; [|by eauto].
  destruct (mi_family i) as [g|] eqn:Ef; [|by eapply (oo_minting _ Hok)].
  destruct (lo_request _ Hlin p _ i g Hp (or_introl eq_refl) Ef) as (r & Hr & _). simpl in *. congruence.
Qed.

Lemma from_origin_cons o iss r : from_origin iss r -> from_origin (o :: iss) r.
Proof.
  intros [(e & cl & req & c & Hin & He)|(a & Hin & He)]; [left; exists e, cl, req, c|right; exists a]; (split; [by right|done]).
Qed.

Lemma origin_ok_step w w' : rotation_ok w -> lineage_ok w -> origin_ok w -> grant_step w w' -> origin_ok w'.
Proof.
  intros Hrot Hlin Hok Hs. destruct Hs.
  - destruct Hok as [Hc Hm Hr]. simpl in *.
    constructor; simpl; [|by eauto using from_origin_cons|by eauto using from_origin_cons].
    intros k c' [[_ <-]|[_ Hk]]%lookup_insert_Some; [by left|]. right. by eapply Hc.
  - destruct Hok as [Hc Hm Hr]. simpl in *. constructor; simpl; [|..|by eauto using from_origin_cons].
    + intros k c Hk. right. by eapply Hc.
    + intros q j [[<- [= <-]]|[_ Hj]]%lookup_insert_Some Hn; [|by eauto using from_origin_cons].
      right. exists a. split; [by left|done].
  - apply Consume_codes in H0 as [Hk Hd]. eapply origin_ok_shrink; [exact Hok|rewrite Hd; apply delete_subseteq|].
    intros q j [[<- [= <-]]|[_ Hj]]%lookup_insert_Some Hn; [right|by left].
    left. exists e, client, req, c. split; [|done]. by eapply (oo_codes _ Hok).
  - apply Consume_codes in H0 as [Hk Hd].
    eapply origin_ok_shrink; [exact Hok|rewrite Hd; apply delete_subseteq|by left].
  - eapply origin_ok_shrink; [exact Hok|by rewrite handleCodeReplay_codes|by left].
  - eapply origin_ok_shrink; [exact Hok|done|].
    intros q j [[_ [=]]|[_ Hj]]%lookup_insert_Some _. by left.
  - eapply origin_ok_shrink; [exact Hok|by rewrite RevokeRefreshTokenFamily_codes|by left].
  - pose proof H0 as Hp. apply RevokeRefreshToken_some in H1 as (_ & t & _ & _ & ->).
    eapply origin_ok_shrink; [exact Hok|done|].
    intros q j [[<- [= <-]]|[_ Hj]]%lookup_insert_Some Hn; [|by left].
    destruct (ro_read _ Hrot p hash rt i Hp) as [Hf _]. congruence.
  - eapply origin_ok_shrink; [exact Hok|by rewrite RevokeRefreshTokenFamily_codes|].
    intros q j [_ Hj]%lookup_delete_Some _. by left.
  - by eapply origin_ok_mint.
  - eapply origin_ok_shrink; [exact Hok|by rewrite revokeRefreshFamily_codes|by left].
  - eapply origin_ok_shrink; [exact Hok|apply map_filter_subseteq|by left].
  - eapply origin_ok_shrink; [exact Hok| |by left].
    destruct (denyAccessJTI_tokens cfg s jti exp now) as (_ & _ & ->). done.
Qed.

Lemma grants_ok_reachable w :
  rtc grant_step grant_world0 w -> rotation_ok w ∧ roots_ok w ∧ lineage_ok w ∧ origin_ok w.
Proof.
  intros Hr.
  assert (Hall : ∀ w0, rtc grant_step w0 w -> rotation_ok w0 ∧ roots_ok w0 ∧ lineage_ok w0 ∧ origin_ok w0 ->
    rotation_ok w ∧ roots_ok w ∧ lineage_ok w ∧ origin_ok w).
  { intros w0 Hr0. induction Hr0; [done|]. intros (H1 & H2 & H3 & H4).
    eauto 10 using rotation_ok_step, roots_ok_step, lineage_ok_step, origin_ok_step. }
  apply (Hall grant_world0 Hr). split_and!.
  - apply rotation_ok_reachable, rtc_refl.
  - by intros f [? ?].
  - constructor; simpl; intros *; rewrite ?lookup_empty; done.
  - constructor; simpl; intros *; rewrite ?lookup_empty; done.
Qed.

End Interleaving.

(** C7. Refresh token rotation under concurrency: in every interleaving of code exchanges, device and backchannel
    approvals, refreshes, replays, reuses and revocations, a rotation family holds at most one refresh token that is not
    revoked, and while it holds one, no request that already spent its token can still mint another. *)
Theorem one_live_token_per_family `{TokenLib} cfg w :
  rtc (grant_step cfg) grant_world0 w ->
  (∀ h1 h2 t1 t2, gs_tokens (gw_store w) !! h1 = Some t1 -> gs_tokens (gw_store w) !! h2 = Some t2 ->
     live t1 -> live t2 -> rt_family t1 = rt_family t2 -> h1 = h2)
  ∧ (∀ h t p i, gs_tokens (gw_store w) !! h = Some t -> live t -> gw_requests w !! p = Some (Minting i) ->
       mi_family i ≠ Some (rt_family t)).
Proof. intros [H1 H2 H3 _ _ _]%rotation_ok_reachable. split; [exact H2|exact H3]. Qed.

(** C8. Rotation never widens a grant, in every interleaving of the grants that mint refresh tokens (codes, device
    codes, backchannel requests, refreshes) with replays, reuses and revocations. Every refresh token that is
    not revoked goes back to what its family started from. Either this is an authorization code that was issued
    to its client and passed the checks of the exchange, PKCE included: the token names the code's user and
    authentication and asks for no scope the code does not carry. Or it is a device or backchannel approval
    that was redeemed: the token names the approved client, user and resource, asks for no scope that
    was not approved, and carries no authentication event. In both cases it keeps the resource and the key its
    family was first bound to. That an approval is redeemed once is stated of the device and backchannel
    stores themselves. *)
Theorem rotation_never_widens `{TokenLib} cfg w h t :
  rtc (grant_step cfg) grant_world0 w -> gs_tokens (gw_store w) !! h = Some t -> live t ->
  (∃ e req c root, FromCode c ∈ gw_issued w ∧ exchange_checks e (rt_client_id t) req c = Ok root
    ∧ CodeChallenge (rq_verifier req) = ac_challenge c
    ∧ rt_client_id t = ac_client_id c ∧ rt_user_id t = Some (ac_user_id c) ∧ rt_scope t ⊆ ac_scope c
    ∧ rt_resource t = mi_resource root ∧ (mi_jkt root ≠ "" -> rt_jkt t = mi_jkt root)
    ∧ rt_auth_time t = ac_auth_time c ∧ rt_acr t = ac_acr c ∧ rt_amr t = ac_amr c)
  ∨ ∃ a, FromApproval a ∈ gw_issued w
    ∧ rt_client_id t = av_client a ∧ rt_user_id t = Some (av_user a) ∧ rt_scope t ⊆ av_scope a
    ∧ rt_resource t = av_resource a ∧ (av_jkt a ≠ "" -> rt_jkt t = av_jkt a)
    ∧ rt_auth_time t = 0 ∧ rt_acr t = "" ∧ rt_amr t = [].
Proof.
  intros (_ & _ & Hl & Ho)%grants_ok_reachable Ht Hlive.
  destruct (lo_token _ Hl h t Ht Hlive) as (root & Hroot & []).
  destruct (oo_roots _ Ho _ _ Hroot) as [(e & client & req & c & Hin & He)|(a & Hin & ->)]; [left|right].
  - pose proof (exchange_checks_ok _ _ _ _ _ He) as (? & _ & ? & _ & _ & Hcl & Hu & Hsc & _ & Ha & Hb & Hd).
    simpl in *. rewrite Hcl in wi_client0. exists e, req, c, root. rewrite wi_client0.
    split_and!; try done; try congruence. by rewrite <- Hsc.
  - simpl in *. by exists a.
Qed.

(** ** Whole requests *)

Section Handlers.
Context `{TokenLib} (cfg : GrantConfig).

Lemma fresh_revokes env s s' i : store_revokes s s' -> fresh_mint env s i -> fresh_mint env s' i.
Proof. intros [Hf Hv] [H1 H2]. by split; rewrite ?Hf. Qed.

Lemma mint_steps iss s rs roots p i env s' resp :
  rs !! p = None -> fresh_mint env s i -> mintAccessAndRefresh cfg env s i = (s', resp) ->
  grant_step cfg (mkGrantWorld iss s (<[p := Minting i]> rs) roots)
    (mkGrantWorld iss s' rs (roots_after s' roots (default (me_family env) (mi_family i)) i)).
Proof.
  intros Hp Hf Hm.
  pose proof (gstep_mint cfg iss p i env s s' resp (<[p := Minting i]> rs) roots) as Hstep.
  rewrite delete_insert_id in Hstep by done. apply Hstep; [by rewrite lookup_insert_eq|done|done].
Qed.

(** Redeeming an approval is a step that logs it and the mint. *)
Lemma approved_steps iss s rs roots p a env s' resp :
  rs !! p = None -> fresh_mint env s (approved_input a) -> mintAccessAndRefresh cfg env s (approved_input a) = (s', resp) ->
  ∃ roots', rtc (grant_step cfg) (mkGrantWorld iss s rs roots) (mkGrantWorld (FromApproval a :: iss) s' rs roots').
Proof. intros Hp Hf Hm. eexists. eapply rtc_l; [by apply (gstep_approved cfg iss p a)|]. by eapply rtc_once, mint_steps. Qed.

Lemma ExchangeAuthorizationCode_steps e env iss s rs roots req s' r p :
  rs !! p = None -> (∀ i, fresh_mint env s i) -> ExchangeAuthorizationCode cfg e env s req = (s', r) ->
  ∃ roots', rtc (grant_step cfg) (mkGrantWorld iss s rs roots) (mkGrantWorld iss s' rs roots').
Proof.
  intros Hp Hf. unfold ExchangeAuthorizationCode. destruct (re_client e) as [client|];
    [|intros [= <- _]; exists roots; reflexivity].
  destruct (_ || _); [intros [= <- _]; exists roots; reflexivity|].
  pose proof (ConsumeAuthorizationCode_revokes s (codeStorageKey (rq_code req))) as Hv.
  destruct (ConsumeAuthorizationCode s (codeStorageKey (rq_code req))) as [s1 [c|]] eqn:Ec.
  - destruct (exchange_checks e client req c) as [i|err] eqn:Ee.
    + intros Hm. eexists. eapply rtc_l; [by eapply gstep_redeem|]. eapply rtc_once, mint_steps; [done| |exact Hm].
      by eapply fresh_revokes; [exact Hv|].
    + intros [= <- _]. exists roots. eapply rtc_once, gstep_burn; eauto.
  - intros [= <- _]. exists roots. revert Ec. unfold ConsumeAuthorizationCode.
    destruct (gs_codes s !! codeStorageKey (rq_code req)) eqn:E; [done|]. intros [= <-].
    by eapply rtc_once, gstep_replay.
Qed.

Lemma RefreshAccessToken_steps e env iss s rs roots req s' r p :
  rs !! p = None -> (∀ i, fresh_mint env s i) -> RefreshAccessToken cfg e env s req = (s', r) ->
  ∃ roots', rtc (grant_step cfg) (mkGrantWorld iss s rs roots) (mkGrantWorld iss s' rs roots').
Proof.
  intros Hp Hf. unfold RefreshAccessToken. destruct (re_client e) as [client|];
    [|intros [= <- _]; exists roots; reflexivity].
  destruct (_ =? _)%string; [intros [= <- _]; exists roots; reflexivity|]. cbv zeta.
  destruct (RefreshTokenByHash s _) as [rt|] eqn:Et; [|intros [= <- _]; exists roots; reflexivity].
  destruct (String.eqb_spec (rt_client_id rt) client) as [Hc|]; [|intros [= <- _]; exists roots; reflexivity].
  cbn [negb]. destruct (rt_revoked_at rt) as [at_|] eqn:Er.
  { intros [= <- _]. exists roots. eapply rtc_once, gstep_reuse; [exact Et|]. unfold live. congruence. }
  destruct (refresh_checks cfg e client req rt) as [i|err] eqn:Ee; [|intros [= <- _]; exists roots; reflexivity].
  set (w1 := mkGrantWorld iss s (<[p := Rotating (HashToken (rq_refresh_token req)) rt i]> rs) roots).
  assert (H1 : grant_step cfg (mkGrantWorld iss s rs roots) w1) by (by eapply gstep_read).
  destruct (RevokeRefreshToken s _ "rotated" (re_now e)) as [s1|] eqn:Ev.
  - intros Hm. eexists. eapply rtc_l; [exact H1|]. eapply rtc_l; [eapply gstep_rotate; [|exact Ev]; apply lookup_insert_eq|].
    rewrite insert_insert_eq. eapply rtc_once, mint_steps; [done| |exact Hm].
    apply RevokeRefreshToken_some in Ev as [Hv _]. by eapply fresh_revokes; [exact Hv|].
  - intros [= <- _]. exists roots. eapply rtc_l; [exact H1|]. eapply rtc_once.
    pose proof (gstep_lost cfg iss p (HashToken (rq_refresh_token req)) rt i (re_now e) s
      (<[p := Rotating (HashToken (rq_refresh_token req)) rt i]> rs) roots) as Hstep.
    rewrite delete_insert_id in Hstep by done. apply Hstep; [by rewrite lookup_insert_eq|done].
Qed.

(** Revoking a family leaves none of its tokens alive. *)
Lemma family_revoked w f reason now h t :
  rotation_ok w -> gs_tokens (RevokeRefreshTokenFamily (gw_store w) f reason now) !! h = Some t ->
  rt_family t = f -> ~ live t.
Proof.
  intros Hok Ht Hf Hl. destruct (RevokeRefreshTokenFamily_revokes (gw_store w) f reason now) as [_ Hv].
  destruct (ro_index _ Hok h t (Hv _ _ Ht Hl) Hl) as (keys & Hkeys & Hin). rewrite Hf in Hkeys.
  revert Ht. unfold RevokeRefreshTokenFamily. rewrite Hkeys. intros Ht.
  by apply (proj1 (proj2 (revoke_keys_spec (gs_tokens (gw_store w)) keys reason now)) h t).
Qed.
End Handlers.

(** C37. A whole request is a sequence of the interleaved steps: a code exchange or a refresh that runs
    without interference ends in the store that the steps reach, whatever it answers, so what holds of
    every interleaving holds of every sequence of requests. *)
Theorem token_requests_are_steps `{TokenLib} cfg e env iss s rs roots req p :
  rs !! p = None -> (∀ i, fresh_mint env s i) ->
  (∃ roots', rtc (grant_step cfg) (mkGrantWorld iss s rs roots)
     (mkGrantWorld iss (ExchangeAuthorizationCode cfg e env s req).1 rs roots'))
  ∧ ∃ roots', rtc (grant_step cfg) (mkGrantWorld iss s rs roots)
      (mkGrantWorld iss (RefreshAccessToken cfg e env s req).1 rs roots').
Proof.
  intros Hp Hf. split.
  - destruct (ExchangeAuthorizationCode cfg e env s req) eqn:E. by eapply ExchangeAuthorizationCode_steps.
  - destruct (RefreshAccessToken cfg e env s req) eqn:E. by eapply RefreshAccessToken_steps.
Qed.

(** Reuse detection: when a client presents a refresh token of its own that was already rotated or
    revoked, it is refused and afterwards no refresh token of that family is left alive. *)
Theorem reuse_revokes_family `{TokenLib} cfg w e env req rt :
  rtc (grant_step cfg) grant_world0 w -> rq_refresh_token req ≠ "" ->
  RefreshTokenByHash (gw_store w) (HashToken (rq_refresh_token req)) = Some rt -> ~ live rt ->
  re_client e = Some (rt_client_id rt) ->
  ∃ s', RefreshAccessToken cfg e env (gw_store w) req = (s', Err ErrOAuthInvalidGrant)
    ∧ ∀ h t, gs_tokens s' !! h = Some t -> rt_family t = rt_family rt -> ~ live t.
Proof.
  intros Hr%rotation_ok_reachable Hne%String.eqb_neq Hrt Hdead Hc. unfold RefreshAccessToken.
  rewrite Hc, Hne, Hrt, String.eqb_refl. cbn [negb]. unfold live in Hdead.
  destruct (rt_revoked_at rt); [|done]. eexists. split; [done|]. intros h t Ht Hf. by eapply family_revoked.
Qed.

Lemma denied_kept cfg s j k exp now :
  gs_denied s !! k = Some exp -> After exp now = true ->
  gs_denied (denyAccessJTI cfg s j exp now) !! k = Some exp.
Proof.
  intros Hk Ha. unfold denyAccessJTI. destruct (_ || _); [done|]. simpl.
  destruct (decide (j = k)) as [->|Hne]; [by rewrite lookup_insert_eq|].
  rewrite lookup_insert_ne by done. by apply map_lookup_filter_Some.
Qed.

Lemma deny_all_kept cfg jtis s k exp now :
  gs_denied s !! k = Some exp -> After exp now = true ->
  gs_denied (fold_left (fun s j => denyAccessJTI cfg s j exp now) jtis s) !! k = Some exp.
Proof. intros Hk Ha. revert s Hk. induction jtis; intros s Hk; [done|]. simpl. eauto using denied_kept. Qed.

(** Every jti on the list is denied afterwards, when the denylist is on. *)
Lemma deny_all_denies cfg jtis s j exp now :
  gc_denylist cfg = true -> j ∈ jtis -> j ≠ "" -> After exp now = true ->
  gs_denied (fold_left (fun s j => denyAccessJTI cfg s j exp now) jtis s) !! j = Some exp.
Proof.
  intros Hd Hin Hj%String.eqb_neq Ha. revert s. induction Hin as [l|y l Hin IH]; intros s; simpl; [|by eauto].
  apply deny_all_kept; [|done]. unfold denyAccessJTI. rewrite Hd, Hj. apply lookup_insert_eq.
Qed.

Lemma code_families_in s key h t :
  gs_tokens s !! h = Some t -> rt_code_hash t = key -> rt_family t ∈ code_families s key.
Proof.
  intros Ht Hk. unfold code_families. apply elem_of_dedup, list_elem_of_In.
  apply in_map_iff. exists (h, t). split; [done|]. apply filter_In. split.
  - apply list_elem_of_In. by apply elem_of_map_to_list.
  - simpl. rewrite Hk. apply String.eqb_refl.
Qed.

(** Authorization code replay: presenting a code that is no longer stored is refused for every
    authenticated client, and afterwards no refresh token is alive in a family that the code started,
    however often it was rotated; with the denylist on, the access tokens minted beside the refresh
    tokens that were still alive are denied as well. *)
Theorem code_replay_revokes `{TokenLib} cfg w e env req client :
  let key := codeStorageKey (rq_code req) in
  rtc (grant_step cfg) grant_world0 w -> gs_codes (gw_store w) !! key = None -> key ≠ "" ->
  rq_code req ≠ "" -> rq_verifier req ≠ "" -> re_client e = Some client ->
  ∃ s', ExchangeAuthorizationCode cfg e env (gw_store w) req = (s', Err ErrOAuthInvalidGrant)
    ∧ ∀ h0 t0, gs_tokens (gw_store w) !! h0 = Some t0 -> rt_code_hash t0 = key ->
        (∀ h t, gs_tokens s' !! h = Some t -> rt_family t = rt_family t0 -> ~ live t)
        ∧ ∀ h t, gs_tokens (gw_store w) !! h = Some t -> live t -> rt_family t = rt_family t0 ->
            gc_denylist cfg = true -> 0 < gc_access_ttl cfg -> rt_parent_jti t ≠ "" ->
            accessJTIRevoked cfg s' (rt_parent_jti t) (re_now e) = true.
Proof.
  intros key Hr%rotation_ok_reachable Hgone Hk%String.eqb_neq Hc%String.eqb_neq Hv%String.eqb_neq He.
  unfold ExchangeAuthorizationCode. rewrite He, Hc, Hv. cbn [orb]. unfold ConsumeAuthorizationCode. fold key.
  rewrite Hgone. eexists. split; [done|]. intros h0 t0 Ht0 Hk0.
  unfold handleCodeReplay, RevokeRefreshTokensByAuthCode. rewrite Hk.
  set (keys := flat_map _ _).
  assert (Hkeys : ∀ h t, gs_tokens (gw_store w) !! h = Some t -> live t ->
    rt_family t = rt_family t0 -> h ∈ keys).
  { intros h t Ht Hl Hf. destruct (ro_index _ Hr h t Ht Hl) as (ks & Hks & Hin).
    apply list_elem_of_In, in_flat_map. exists (rt_family t0). split.
    - apply list_elem_of_In. by eapply code_families_in.
    - rewrite <- Hf, Hks. by apply list_elem_of_In. }
  destruct (revoke_keys_spec (gs_tokens (gw_store w)) keys "authorization code replay" (re_now e)) as (Hrv & Hdead & Hj).
  destruct (revoke_keys _ _ _ _) as [ts jtis]. simpl in *. set (s1 := with_tokens (gw_store w) ts).
  set (exp := re_now e + gc_access_ttl cfg). split.
  - destruct (deny_all_tokens cfg jtis exp (re_now e) s1) as (-> & _ & _). simpl. intros h t Ht Hf Hl.
    apply (Hdead h t); [|done|done]. by apply (Hkeys h t); [apply Hrv| |].
  - intros h t Ht Hl Hf Hd Httl Hjti.
    assert (Ha : After exp (re_now e) = true) by (apply Z.ltb_lt; unfold exp; lia).
    unfold accessJTIRevoked. rewrite Hd. apply String.eqb_neq in Hjti as Hjb. rewrite Hjb. cbn [orb negb].
    unfold IsAccessTokenDenied. rewrite deny_all_denies; [done|done|by eauto|done|done].
Qed.

(** ** A run *)

Definition demo_lib : TokenLib := {|
  HashToken s := String.append "h:" s; CodeChallenge s := String.append "c:" s; hexString s := s |}.
#[local] Existing Instance demo_lib.

Definition demo_cfg : GrantConfig := mkGrantConfig "iss" (3600 * Second) (86400 * Second) false false true.
Definition demo_now : Z := FromUnix 1700000000.
Definition demo_client : RequestEnv :=
  mkRequestEnv (Some "app") demo_now (fun _ _ => false) Some String.eqb Some (Some "").
Definition demo_env (n : string) : MintEnv :=
  mkMintEnv demo_now (String.append "jti" n) "family" (String.append "id" n) (Some (String.append "rt" n))
    (fun _ => Some "access") (fun _ => None).
Definition demo_code : AuthorizationCode :=
  mkCode (codeStorageKey "code") "app" "alice" "https://app/cb" ["read"; "write"] "api" "c:verifier" "S256" "" ""
    demo_now "" [] (demo_now + 60 * Second).
Definition demo_exchange : TokenRequest := mkTokenRequest "code" "verifier" "https://app/cb" "" "" [].
Definition demo_refresh (tok : string) : TokenRequest := mkTokenRequest "" "" "" tok "" ["read"].

Definition demo_grant : mintInput :=
  mkMintInput "app" (Some "alice") ["read"; "write"] "api" None "" (codeStorageKey "code") 0 "" demo_now "" [] "".
Definition demo_s0 : GrantStore := InsertAuthorizationCode NewGrantStore demo_code.
Definition demo_s1 : GrantStore := (ExchangeAuthorizationCode demo_cfg demo_client (demo_env "1") demo_s0 demo_exchange).1.
Definition demo_roots : gmap string mintInput := roots_after demo_s1 ∅ "family" demo_grant.
Definition demo_w1 : grant_world := mkGrantWorld [FromCode demo_code] demo_s1 ∅ demo_roots.

(** The token of the first exchange, what its rotation mints from, and the store once it is spent. *)
Definition demo_rt1 : RefreshToken := mint_token demo_cfg (demo_env "1") demo_grant "rt1".
Definition demo_next : mintInput :=
  mkMintInput "app" (Some "alice") ["read"] "api" (Some "family") "" "" 0 "" demo_now "" [] "".
Definition demo_s2 : GrantStore :=
  with_tokens demo_s1 (<["h:rt1" := set_revoked demo_rt1 demo_now "rotated"]> (gs_tokens demo_s1)).
Definition demo_w2 : grant_world := mkGrantWorld [FromCode demo_code] demo_s2 {[ 0%nat := Minting demo_next ]} demo_roots.

Lemma demo_fresh n s i keys :
  gs_families s = keys ->
  map_Forall (fun _ ks => String.append "h:" (withGrantExpiry (String.append "rt" n) (mi_grant_expiry i)) ∉ ks) keys ->
  (mi_family i = None -> keys !! "family" = None) -> fresh_mint (demo_env n) s i.
Proof. intros <- H1 H2. split; [|done]. intros raw f ks [= <-]. apply H1. Qed.

Lemma demo_reach1 : rtc (grant_step demo_cfg) grant_world0 demo_w1.
Proof.
  eapply rtc_l; [apply (gstep_code demo_cfg [] demo_code)|].
  eapply rtc_l; [apply (gstep_redeem demo_cfg [FromCode demo_code] 0 demo_client "app" demo_exchange demo_code demo_grant demo_s0);
    vm_compute; reflexivity|].
  eapply rtc_once. apply (mint_steps demo_cfg [FromCode demo_code] _ ∅ ∅ 0 demo_grant (demo_env "1") demo_s1
    (Ok (mkTokenResponse "access" "Bearer" 3600 "rt1" ["read"; "write"] ""))).
  - done.
  - by apply (demo_fresh _ _ _ ∅); [vm_compute; reflexivity|apply map_Forall_empty|].
  - vm_compute. reflexivity.
Qed.

Lemma demo_reach2 : rtc (grant_step demo_cfg) grant_world0 demo_w2.
Proof.
  etransitivity; [apply demo_reach1|].
  eapply rtc_l; [apply (gstep_read demo_cfg [FromCode demo_code] 0 demo_client "app" (demo_refresh "rt1") demo_rt1 demo_next);
    vm_compute; reflexivity|].
  eapply rtc_once. unfold demo_w2. rewrite <- insert_empty.
  rewrite <- (insert_insert_eq ∅ 0%nat (Minting demo_next) (Rotating "h:rt1" demo_rt1 demo_next)).
  eapply (gstep_rotate demo_cfg [FromCode demo_code] 0 "h:rt1" demo_rt1 demo_next demo_now); vm_compute; reflexivity.
Qed.

(** The race that reuse detection leaves open: a request that has already spent its refresh token
    and not yet minted is not reached by the revocation of its family. In this run the reuse of the
    rotated token is detected, the whole family is revoked, and the pending mint then stores a refresh
    token of that same family that is not revoked. *)
Theorem reuse_race_leaves_live_token :
  ∃ cfg : GrantConfig, ∃ w s' h rt w' h' t,
    rtc (grant_step cfg) grant_world0 w
    ∧ RefreshTokenByHash (gw_store w) h = Some rt ∧ ~ live rt
    ∧ s' = RevokeRefreshTokenFamily (gw_store w) (rt_family rt) "reuse detected" demo_now
    ∧ rtc (grant_step cfg) (mkGrantWorld (gw_issued w) s' (gw_requests w) (gw_roots w)) w'
    ∧ gs_tokens (gw_store w') !! h' = Some t ∧ rt_family t = rt_family rt ∧ live t.
Proof.
  set (s' := RevokeRefreshTokenFamily demo_s2 "family" "reuse detected" demo_now).
  set (s3 := (mintAccessAndRefresh demo_cfg (demo_env "2") s' demo_next).1).
  exists demo_cfg, demo_w2, s', "h:rt1", (set_revoked demo_rt1 demo_now "rotated"),
    (mkGrantWorld [FromCode demo_code] s3 ∅ (roots_after s3 demo_roots "family" demo_next)),
    "h:rt2", (mint_token demo_cfg (demo_env "2") demo_next "rt2").
  split_and!; [exact demo_reach2|by vm_compute|done|done| |by vm_compute|done|done].
  apply rtc_once. unfold demo_w2. cbn [gw_issued gw_requests gw_roots]. rewrite <- insert_empty.
  apply (mint_steps demo_cfg [FromCode demo_code] s' ∅ demo_roots 0 demo_next (demo_env "2") s3
    (Ok (mkTokenResponse "access" "Bearer" 3600 "rt2" ["read"] ""))).
  - done.
  - apply (demo_fresh _ _ _ {[ "family" := ["h:rt1"] ]}); [vm_compute; reflexivity| |done].
    apply map_Forall_singleton. by intros [?|?%elem_of_nil]%elem_of_cons.
  - vm_compute. reflexivity.
Qed.

(** ** Witnesses *)

Lemma grant_expiry_carried_witness :
  let i := mkMintInput "app" None [] "api" None "" "" (FromUnix 1700000060) "" 0 "" [] "" in
  ∃ s' resp, mintAccessAndRefresh demo_cfg (demo_env "1") NewGrantStore i = (s', Ok resp)
    ∧ splitGrantExpiry (tr_refresh resp) = FromUnix 1700000060
    ∧ c_exp (mint_claims demo_cfg (demo_env "1") i) <= 1700000060.
Proof.
  intros i. eexists _, _. split; [vm_compute; reflexivity|].
  edestruct (grant_expiry_carried demo_cfg (demo_env "1") NewGrantStore i) as (H1 & _ & H3);
    [|reflexivity|vm_compute; reflexivity|by split]. vm_compute. split; congruence.
Defined.

Lemma one_live_token_per_family_witness :
  rtc (grant_step demo_cfg) grant_world0 demo_w1
  ∧ ∀ h t, gs_tokens demo_s1 !! h = Some t -> live t -> rt_family t = "family" -> h = "h:rt1".
Proof.
  split; [exact demo_reach1|]. intros h t Ht Hl Hf.
  refine (proj1 (one_live_token_per_family demo_cfg demo_w1 demo_reach1) h "h:rt1" t demo_rt1 Ht _ Hl eq_refl Hf).
  vm_compute. reflexivity.
Defined.

Lemma rotation_never_widens_witness :
  ∃ e req c root, FromCode c ∈ [FromCode demo_code] ∧ exchange_checks e "app" req c = Ok root ∧ rt_scope demo_rt1 ⊆ ac_scope c.
Proof.
  destruct (rotation_never_widens demo_cfg demo_w1 "h:rt1" demo_rt1 demo_reach1)
    as [(e & req & c & root & Hin & He & _ & _ & _ & Hs & _)|(a & Hin & _)]; [vm_compute; reflexivity|done| |].
  - by exists e, req, c, root.
  - by apply list_elem_of_singleton in Hin.
Defined.

Definition demo_env2 : MintEnv :=
  mkMintEnv demo_now "jti2" "family2" "id2" (Some "rt2") (fun _ => Some "access") (fun _ => None).

Lemma demo_fresh2 i : fresh_mint demo_env2 demo_s1 i.
Proof.
  split.
  - intros raw f keys [= <-].
    assert (Hs : gs_families demo_s1 = {[ "family" := ["h:rt1"] ]}) by (vm_compute; reflexivity).
    rewrite Hs. intros [_ <-]%lookup_singleton_Some [Hh|?%elem_of_nil]%elem_of_cons; [|done].
    revert Hh. unfold withGrantExpiry. by destruct (IsZero _).
  - intros _. vm_compute. reflexivity.
Qed.

Lemma token_requests_are_steps_witness :
  ∃ roots, rtc (grant_step demo_cfg) demo_w1
    (mkGrantWorld [FromCode demo_code] (RefreshAccessToken demo_cfg demo_client demo_env2 demo_s1 (demo_refresh "rt1")).1 ∅ roots)
  ∧ (RefreshAccessToken demo_cfg demo_client demo_env2 demo_s1 (demo_refresh "rt1")).2
    = Ok (mkTokenResponse "access" "Bearer" 3600 "rt2" ["read"] "").
Proof.
  destruct (token_requests_are_steps demo_cfg demo_client demo_env2 [FromCode demo_code] demo_s1 ∅ demo_roots
    (demo_refresh "rt1") 0 (lookup_empty _) demo_fresh2) as [_ [roots Hr]].
  exists roots. split; [exact Hr|]. vm_compute. reflexivity.
Defined.

Lemma reuse_revokes_family_witness :
  ∃ s', RefreshAccessToken demo_cfg demo_client demo_env2 demo_s2 (demo_refresh "rt1") = (s', Err ErrOAuthInvalidGrant)
    ∧ ∀ h t, gs_tokens s' !! h = Some t -> rt_family t = "family" -> ~ live t.
Proof.
  apply (reuse_revokes_family demo_cfg demo_w2 demo_client demo_env2 (demo_refresh "rt1")
    (set_revoked demo_rt1 demo_now "rotated") demo_reach2); [done|vm_compute; reflexivity|done|reflexivity].
Defined.

Lemma code_replay_revokes_witness :
  ∃ s', ExchangeAuthorizationCode demo_cfg demo_client demo_env2 demo_s1 demo_exchange = (s', Err ErrOAuthInvalidGrant)
    ∧ (∀ h t, gs_tokens s' !! h = Some t -> rt_family t = "family" -> ~ live t)
    ∧ accessJTIRevoked demo_cfg s' "jti1" demo_now = true.
Proof.
  destruct (code_replay_revokes demo_cfg demo_w1 demo_client demo_env2 demo_exchange "app" demo_reach1)
    as (s' & Hs & Hall); [vm_compute; reflexivity|done|done|done|reflexivity|].
  destruct (Hall "h:rt1" demo_rt1) as [H1 H2]; [vm_compute; reflexivity|reflexivity|].
  exists s'. split_and!; [exact Hs|exact H1|].
  apply (H2 "h:rt1" demo_rt1); [vm_compute; reflexivity|reflexivity|reflexivity|reflexivity|reflexivity|done].
Defined.
