(* ===== verification/Ciba.v ===== *)
(** * Backchannel authentication ([internal/as/ciba.go], [token_ciba.go], [config_ciba.go],
      [internal/models/models_ciba.go], [storage/memory/memory_ciba.go])

    CIBA: a client asks for tokens of a user who is not in front of it, the user decides on another device,
    and the client polls until the request's tokens are delivered, once. A decision reads the request and
    writes it back in two storage calls; polls make up to three. The calls are atomic, and the theorems are
    about their interleavings. Client authentication, random identifiers and the notification are arguments;
    tokens are minted by [mintAccessAndRefresh] of [TokenGrants]. *)

From Stdlib Require Import ZArith Lia String Ascii.
From stdpp Require Import base gmap strings list.
From S2P Require Import Prelude Canonical DeviceAuth TokenGrants.

Set Default Goal Selector "!".
Open Scope string_scope.
Open Scope list_scope.
Open Scope Z_scope.

(** ** Data *)

Definition BackchannelStatusPending : string := "pending".
Definition BackchannelStatusApproved : string := "approved".
Definition BackchannelStatusDenied : string := "denied".
Definition cibaStatusConsumed : string := "consumed".

Record BackchannelRequest := mkBackchannel {
  br_id : string; br_client : string; br_user : option string; br_login_hint : string; br_hint_token : string;
  br_id_hint : string; br_scope : list string; br_message : string; br_notify_token : string; br_status : string;
  br_access : string; br_refresh : string; br_interval : Z; br_last_poll : option Z; br_expires : Z; br_created : Z;
}.

Record CIBAConfig := mkCIBAConfig { cb_expiry : Z; cb_interval : Z; cb_max_expiry : Z; cb_min_poll : Z }.

Definition applyCIBADefaults (c : CIBAConfig) : CIBAConfig :=
  mkCIBAConfig (if cb_expiry c <=? 0 then 300 * Second else cb_expiry c)
    (if cb_interval c <=? 0 then 5 * Second else cb_interval c)
    (if cb_max_expiry c <=? 0 then 600 * Second else cb_max_expiry c)
    (if cb_min_poll c <=? 0 then 3 * Second else cb_min_poll c).

Inductive ciba_error :=
  | ErrCIBADisabled | ErrCIBAClient | ErrCIBAInvalidRequest | ErrCIBARandom | ErrCIBAStorageNotFound
  | ErrCIBANotify | ErrCIBAInvalidGrant | ErrCIBAExpiredToken | ErrCIBASlowDown | ErrCIBAAuthorizationPending
  | ErrCIBAAccessDenied | ErrCIBAUserMismatch | ErrCIBAMint (e : grant_error).

(** ** The store ([memory_ciba.go]) *)

Abbreviation Backchannels := (gmap string BackchannelRequest).

(** [None] is [ErrNotFound], also for an identifier that is taken. *)
Definition InsertBackchannelRequest (s : Backchannels) (now : Z) (r : BackchannelRequest) : option Backchannels :=
  match s !! br_id r with
  | Some _ => None
  | None =>
      let created := if IsZero (br_created r) then now else br_created r in
      Some (<[br_id r := mkBackchannel (br_id r) (br_client r) (br_user r) (br_login_hint r) (br_hint_token r) (br_id_hint r)
        (br_scope r) (br_message r) (br_notify_token r) (br_status r) (br_access r) (br_refresh r) (br_interval r)
        (br_last_poll r) (br_expires r) created]> s)
  end.

Definition set_created (r : BackchannelRequest) (created : Z) : BackchannelRequest :=
  mkBackchannel (br_id r) (br_client r) (br_user r) (br_login_hint r) (br_hint_token r) (br_id_hint r) (br_scope r)
    (br_message r) (br_notify_token r) (br_status r) (br_access r) (br_refresh r) (br_interval r) (br_last_poll r)
    (br_expires r) created.

Definition UpdateBackchannelRequest (s : Backchannels) (r : BackchannelRequest) : option Backchannels :=
  match s !! br_id r with
  | None => None
  | Some existing => Some (<[br_id r := set_created r (br_created existing)]> s)
  end.

Definition DeleteBackchannelRequest (s : Backchannels) (id : string) : option Backchannels :=
  match s !! id with None => None | Some _ => Some (delete id s) end.

Definition set_touched (r : BackchannelRequest) (now interval : Z) : BackchannelRequest :=
  mkBackchannel (br_id r) (br_client r) (br_user r) (br_login_hint r) (br_hint_token r) (br_id_hint r) (br_scope r)
    (br_message r) (br_notify_token r) (br_status r) (br_access r) (br_refresh r) interval (Some now) (br_expires r) (br_created r).

Definition TouchBackchannelPoll (s : Backchannels) (id : string) (now interval : Z) : option (Backchannels * BackchannelRequest) :=
  match s !! id with
  | None => None
  | Some r => let r := set_touched r now interval in Some (<[id := r]> s, r)
  end.

Definition set_status (r : BackchannelRequest) (status : string) : BackchannelRequest :=
  mkBackchannel (br_id r) (br_client r) (br_user r) (br_login_hint r) (br_hint_token r) (br_id_hint r) (br_scope r)
    (br_message r) (br_notify_token r) status (br_access r) (br_refresh r) (br_interval r) (br_last_poll r) (br_expires r) (br_created r).

(** [None] when the request is not approved or has expired. *)
Definition RedeemBackchannelRequest (s : Backchannels) (id : string) (now : Z) : Backchannels * option BackchannelRequest :=
  match s !! id with
  | Some r =>
      if negb (br_status r =? BackchannelStatusApproved)%string || negb (Before now (br_expires r)) then (s, None)
      else let r := set_status r cibaStatusConsumed in (<[id := r]> s, Some r)
  | None => (s, None)
  end.

(** ** The client's request ([ciba.go]) *)

Record BackchannelAuthRequest := mkAuthRequest {
  ba_client : string; ba_login_hint : string; ba_hint_token : string; ba_id_hint : string; ba_scope : list string;
  ba_message : string; ba_notify_token : string; ba_requested_expiry : Z;
}.

Definition hintCount (r : BackchannelAuthRequest) : Z :=
  (if (ba_login_hint r =? "")%string then 0 else 1) + (if (ba_hint_token r =? "")%string then 0 else 1)
  + (if (ba_id_hint r =? "")%string then 0 else 1).

(** The lifetime of a request. *)
Definition request_expiry (cfg : CIBAConfig) (requested : Z) : Z :=
  if 0 <? requested then
    let requested := wrap64 (requested * Second) in
    let expiry := if requested <? cb_expiry cfg then requested else cb_expiry cfg in
    if cb_max_expiry cfg <? expiry then cb_max_expiry cfg else expiry
  else cb_expiry cfg.

(** [authenticated] says whether the client's secret is right, [rand] is the new identifier, [notified] whether
    the device was reached. The answer is the identifier, the lifetime and the interval in seconds. *)
Definition BackchannelAuthenticate (cfg : CIBAConfig) (s : Backchannels) (authenticated : bool) (rand : option string)
  (now : Z) (notified : bool) (req : BackchannelAuthRequest) : Backchannels * result ciba_error (string * Z * Z) :=
  if negb authenticated then (s, Err ErrCIBAClient)
  else if negb (hintCount req =? 1) then (s, Err ErrCIBAInvalidRequest)
  else if bool_decide (ba_scope req = []) then (s, Err ErrCIBAInvalidRequest)
  else
    let expiry := request_expiry cfg (ba_requested_expiry req) in
    match rand with
    | None => (s, Err ErrCIBARandom)
    | Some id =>
        let row := mkBackchannel id (ba_client req) None (ba_login_hint req) (ba_hint_token req) (ba_id_hint req) (ba_scope req)
          (ba_message req) (ba_notify_token req) BackchannelStatusPending "" "" (Z.quot (cb_interval cfg) Second) None
          (now + expiry) now in
        match InsertBackchannelRequest s now row with
        | None => (s, Err ErrCIBAStorageNotFound)
        | Some s =>
            if negb notified then (s, Err ErrCIBANotify)
            else (s, Ok (id, Z.quot expiry Second, Z.quot (cb_interval cfg) Second))
        end
    end.

(** ** The user's decision *)

(** The first storage call of a decision and its checks; [now] is [None] for a denial, which does not look
    at the expiry. *)
Definition decide_read (s : Backchannels) (id user : string) (now : option Z) : result ciba_error BackchannelRequest :=
  match s !! id with
  | None => Err ErrCIBAInvalidGrant
  | Some row =>
      if negb (br_status row =? BackchannelStatusPending)%string then Err ErrCIBAInvalidGrant
      else if match now with Some t => negb (Before t (br_expires row)) | None => false end then Err ErrCIBAExpiredToken
      else if match br_user row with Some u => negb (u =? user)%string | None => false end then Err ErrCIBAUserMismatch
      else Ok row
  end.

Definition set_approved (r : BackchannelRequest) (user access refresh : string) : BackchannelRequest :=
  mkBackchannel (br_id r) (br_client r) (Some user) (br_login_hint r) (br_hint_token r) (br_id_hint r) (br_scope r)
    (br_message r) (br_notify_token r) BackchannelStatusApproved access refresh (br_interval r) (br_last_poll r)
    (br_expires r) (br_created r).
Definition set_denied (r : BackchannelRequest) (user : string) : BackchannelRequest :=
  mkBackchannel (br_id r) (br_client r) (Some user) (br_login_hint r) (br_hint_token r) (br_id_hint r) (br_scope r)
    (br_message r) (br_notify_token r) BackchannelStatusDenied (br_access r) (br_refresh r) (br_interval r) (br_last_poll r)
    (br_expires r) (br_created r).

(** The second storage call: the row that was read, changed, is written back. *)
Definition approve_write (s : Backchannels) (row : BackchannelRequest) (user access refresh : string) : Backchannels * option ciba_error :=
  match UpdateBackchannelRequest s (set_approved row user access refresh) with
  | None => (s, Some ErrCIBAStorageNotFound)
  | Some s => (s, None)
  end.
Definition deny_write (s : Backchannels) (row : BackchannelRequest) (user : string) : Backchannels * option ciba_error :=
  match UpdateBackchannelRequest s (set_denied row user) with
  | None => (s, Some ErrCIBAStorageNotFound)
  | Some s => (s, None)
  end.

Section Decide.
Context `{TokenLib} (gcfg : GrantConfig) (resources : list ProtectedResource).

(** [token_ciba.go]: the audience is the first configured resource. *)
Definition MintCIBATokens (env : MintEnv) (g : GrantStore) (row : BackchannelRequest) (user : string)
  : GrantStore * result grant_error (string * string) :=
  let resource := match resources with r :: _ => pr_identifier r | [] => "" end in
  match mintAccessAndRefresh gcfg env g (mkMintInput (br_client row) (Some user) (br_scope row) resource None "" "" 0 "" 0 "" [] "") with
  | (g, Ok resp) => (g, Ok (tr_access resp, tr_refresh resp))
  | (g, Err e) => (g, Err e)
  end.

Definition ApproveBackchannelRequest (env : MintEnv) (g : GrantStore) (s : Backchannels) (id user : string) (now : Z)
  : GrantStore * Backchannels * option ciba_error :=
  match decide_read s id user (Some now) with
  | Err e => (g, s, Some e)
  | Ok row =>
      match MintCIBATokens env g row user with
      | (g, Err e) => (g, s, Some (ErrCIBAMint e))
      | (g, Ok (access, refresh)) => let '(s, e) := approve_write s row user access refresh in (g, s, e)
      end
  end.
End Decide.

Definition DenyBackchannelRequest (s : Backchannels) (id user : string) : Backchannels * option ciba_error :=
  match decide_read s id user None with
  | Err e => (s, Some e)
  | Ok row => deny_write s row user
  end.

(** ** Polling *)

(** The first storage call of a poll and its checks, up to the rate limit. [inl] is an answer without a further
    call, [inr] the row, with the interval to record when the poll is too fast. *)
Definition ciba_read (cfg : CIBAConfig) (s : Backchannels) (client : option string) (id : string) (now : Z)
  : ciba_error + (BackchannelRequest * option Z) :=
  match client with
  | None => inl ErrCIBAClient
  | Some client =>
      if (id =? "")%string then inl ErrCIBAInvalidRequest
      else match s !! id with
      | None => inl ErrCIBAInvalidGrant
      | Some row =>
          if negb (br_client row =? client)%string then inl ErrCIBAInvalidGrant
          else if negb (Before now (br_expires row)) then inl ErrCIBAExpiredToken
          else
            let slow := match br_last_poll row with Some l => Sub now l <? cb_min_poll cfg | None => false end in
            if slow then
              let doubled := wrap64 (br_interval row * 2) in
              let maxSeconds := Z.quot (cb_max_expiry cfg) Second in
              inr (row, Some (if maxSeconds <? doubled then maxSeconds else doubled))
            else inr (row, None)
      end
  end.

Record CIBAToken := mkCIBAToken { ct_access : string; ct_refresh : string; ct_scope : list string; ct_expires_in : Z }.

(** The switch over the status of the touched row: an answer, or the redemption. *)
Definition ciba_switch (row : BackchannelRequest) : option ciba_error :=
  if (br_status row =? BackchannelStatusPending)%string then Some ErrCIBAAuthorizationPending
  else if (br_status row =? BackchannelStatusDenied)%string then Some ErrCIBAAccessDenied
  else if (br_status row =? cibaStatusConsumed)%string then Some ErrCIBAInvalidGrant
  else if (br_status row =? BackchannelStatusApproved)%string then
    if (br_access row =? "")%string then Some ErrCIBAAuthorizationPending else None
  else Some ErrCIBAAuthorizationPending.

Definition PollBackchannelToken (cfg : CIBAConfig) (accessTTL : Z) (s : Backchannels) (client : option string) (id : string) (now : Z)
  : Backchannels * result ciba_error CIBAToken :=
  match ciba_read cfg s client id now with
  | inl e => (s, Err e)
  | inr (row, Some interval) =>
      match TouchBackchannelPoll s id now interval with
      | None => (s, Err ErrCIBAStorageNotFound)
      | Some (s, _) => (s, Err ErrCIBASlowDown)
      end
  | inr (row, None) =>
      match TouchBackchannelPoll s id now (br_interval row) with
      | None => (s, Err ErrCIBAStorageNotFound)
      | Some (s, row) =>
          match ciba_switch row with
          | Some e => (s, Err e)
          | None =>
              match RedeemBackchannelRequest s id now with
              | (s, None) => (s, Err ErrCIBAInvalidGrant)
              | (s, Some won) => (s, Ok (mkCIBAToken (br_access won) (br_refresh won) (br_scope won) (Z.quot accessTTL Second)))
              end
          end
      end
  end.

(** The fallback of [redeemBackchannel] for a store without an atomic redemption, under its lock. *)
Definition redeem_fallback (s : Backchannels) (id : string) (now : Z) : Backchannels * result ciba_error (option BackchannelRequest) :=
  match s !! id with
  | None => (s, Ok None)
  | Some row =>
      if negb (br_status row =? BackchannelStatusApproved)%string || negb (Before now (br_expires row)) then (s, Ok None)
      else
        let claimed := set_status row cibaStatusConsumed in
        match UpdateBackchannelRequest s claimed with
        | None => (s, Err ErrCIBAStorageNotFound)
        | Some s => (s, Ok (Some claimed))
        end
  end.

(** ** Interleavings with atomic decisions *)

(** The store, the approvals given so far (request, user and tokens) and the deliveries made (request, tokens and
    time). *)
Record ciba_world := mkCibaWorld {
  cw_store : Backchannels; cw_approved : list (string * string * string * string); cw_delivered : list (string * string * string * Z);
}.
Definition ciba_world0 : ciba_world := mkCibaWorld ∅ [] [].

Section Worlds.
Context `{TokenLib} (cfg : CIBAConfig) (gcfg : GrantConfig) (resources : list ProtectedResource).

(** One storage call of a request, a poll, or a whole decision. The calls of different polls interleave. *)
Inductive ciba_step : ciba_world -> ciba_world -> Prop :=
  | cs_request s ap de authenticated rand now notified req s' r :
      BackchannelAuthenticate cfg s authenticated rand now notified req = (s', r) ->
      ciba_step (mkCibaWorld s ap de) (mkCibaWorld s' ap de)
  | cs_approve s ap de env g id user now row g' access refresh s' :
      decide_read s id user (Some now) = Ok row -> MintCIBATokens gcfg resources env g row user = (g', Ok (access, refresh)) ->
      approve_write s row user access refresh = (s', None) ->
      ciba_step (mkCibaWorld s ap de) (mkCibaWorld s' (ap ++ [(id, user, access, refresh)]) de)
  | cs_deny s ap de id user s' e :
      DenyBackchannelRequest s id user = (s', e) -> ciba_step (mkCibaWorld s ap de) (mkCibaWorld s' ap de)
  | cs_touch s ap de id now interval s' row :
      TouchBackchannelPoll s id now interval = Some (s', row) -> ciba_step (mkCibaWorld s ap de) (mkCibaWorld s' ap de)
  | cs_redeem s ap de id now s' won :
      RedeemBackchannelRequest s id now = (s', Some won) ->
      ciba_step (mkCibaWorld s ap de) (mkCibaWorld s' ap (de ++ [(id, br_access won, br_refresh won, now)])).

Record ciba_inv (w : ciba_world) : Prop := {
  ci_id : ∀ id r, cw_store w !! id = Some r -> br_id r = id;
  ci_pending : ∀ id r, cw_store w !! id = Some r -> br_status r = BackchannelStatusPending -> br_user r = None;
  ci_approved : ∀ id r, cw_store w !! id = Some r ->
    br_status r = BackchannelStatusApproved ∨ br_status r = cibaStatusConsumed ->
    ∃ user, br_user r = Some user ∧ (id, user, br_access r, br_refresh r) ∈ cw_approved w;
  ci_consumed : ∀ id a f t, (id, a, f, t) ∈ cw_delivered w ->
    ∃ r, cw_store w !! id = Some r ∧ br_status r = cibaStatusConsumed ∧ t < br_expires r
         ∧ ∃ user, (id, user, a, f) ∈ cw_approved w;
  ci_once : NoDup (map (fun d => d.1.1.1) (cw_delivered w));
}.

(** A row replaced by one with the same status and tokens, or by a new pending or denied one. *)
Lemma ciba_inv_insert s ap de id r r' ap' :
  ciba_inv (mkCibaWorld s ap de) -> s !! id = Some r -> br_id r' = id -> br_status r ≠ cibaStatusConsumed ∨ br_status r' = cibaStatusConsumed ->
  br_expires r' = br_expires r -> ap ⊆ ap' ->
  (br_status r' = BackchannelStatusPending -> br_user r' = None) ->
  (br_status r' = BackchannelStatusApproved ∨ br_status r' = cibaStatusConsumed ->
     ∃ user, br_user r' = Some user ∧ (id, user, br_access r', br_refresh r') ∈ ap') ->
  ciba_inv (mkCibaWorld (<[id := r']> s) ap' de).
Proof.
  intros [I1 I2 I3 I4 I5] Hr Hid Hst Hexp Hap Hpend Happ. simpl in *. constructor; simpl; [..|done].
  - intros id0 r0. rewrite lookup_insert_Some. intros [[<- <-]|[_ ?]]; eauto.
  - intros id0 r0. rewrite lookup_insert_Some. intros [[<- <-]|[_ ?]]; eauto.
  - intros id0 r0. rewrite lookup_insert_Some. intros [[<- <-]|[_ Hr0]] Hs; [by apply Happ|].
    destruct (I3 id0 r0 Hr0 Hs) as (user & ? & ?). exists user. split; [done|]. by apply Hap.
  - intros id0 a f t Hd. destruct (I4 _ _ _ _ Hd) as (r0 & Hr0 & Hs0 & Ht & user & Hu).
    destruct (decide (id = id0)) as [<-|Hne].
    + rewrite Hr in Hr0. injection Hr0 as <-. exists r'. rewrite lookup_insert_eq. split_and!; [done| |lia|].
      * destruct Hst; [congruence|done].
      * exists user. by apply Hap.
    + exists r0. rewrite lookup_insert_ne by done. split_and!; [done..|]. exists user. by apply Hap.
Qed.

Lemma decide_read_ok s id user now row :
  decide_read s id user now = Ok row -> s !! id = Some row ∧ br_status row = BackchannelStatusPending.
Proof.
  unfold decide_read. destruct (s !! id) as [r|]; [|done]. destruct (String.eqb_spec (br_status r) BackchannelStatusPending); [|done].
  intros. repeat case_match; simplify_eq/=; auto.
Qed.

Lemma ciba_inv_step w w' : ciba_inv w -> ciba_step w w' -> ciba_inv w'.
Proof.
  intros I Hstep. destruct Hstep as [s ap de authenticated rand now notified req s' r Hr|s ap de env g id user now row g' access refresh s' Hd Hm Hw
    |s ap de id user s' e Hd|s ap de id now interval s' row Ht|s ap de id now s' won Hw].
  - unfold BackchannelAuthenticate, InsertBackchannelRequest in Hr. cbn [br_id] in Hr.
    destruct (negb authenticated); [by simplify_eq|]. destruct (negb (hintCount req =? 1)); [by simplify_eq|].
    case_bool_decide; [by simplify_eq|]. destruct rand as [id|]; [|by simplify_eq].
    destruct (s !! id) eqn:Ei; [by simplify_eq|].
    assert (Hs : ∃ r0, s' = <[id := r0]> s ∧ br_id r0 = id ∧ br_status r0 = BackchannelStatusPending ∧ br_user r0 = None).
    { destruct (negb notified); simplify_eq; by eexists. }
    destruct Hs as (r0 & -> & Hi & Hs & Hu). destruct I as [I1 I2 I3 I4 I5]. simpl in *. constructor; simpl; [..|done].
    + intros id0 r1. rewrite lookup_insert_Some. intros [[<- <-]|[_ ?]]; eauto.
    + intros id0 r1. rewrite lookup_insert_Some. intros [[<- <-]|[_ ?]]; eauto.
    + intros id0 r1. rewrite lookup_insert_Some. intros [[<- <-]|[_ ?]] Hst; [|eauto]. rewrite Hs in Hst. by destruct Hst.
    + intros id0 a f t Hdel. destruct (I4 _ _ _ _ Hdel) as (r1 & Hr1 & ?). exists r1.
      rewrite lookup_insert_ne by congruence. done.
  - apply decide_read_ok in Hd as [Hrow Hst]. unfold approve_write, UpdateBackchannelRequest in Hw. cbn [br_id set_approved] in Hw.
    rewrite (ci_id _ I _ _ Hrow), Hrow in Hw. injection Hw as <-.
    apply (ciba_inv_insert s ap de id row); simpl; try done; [by apply (ci_id _ I)|left; by rewrite Hst|set_solver|].
    intros _. exists user. split; [done|]. set_solver.
  - unfold DenyBackchannelRequest in Hd. destruct (decide_read s id user None) as [row|] eqn:Er; [|by simplify_eq].
    apply decide_read_ok in Er as [Hrow Hst]. unfold deny_write, UpdateBackchannelRequest in Hd. cbn [br_id set_denied] in Hd.
    rewrite (ci_id _ I _ _ Hrow), Hrow in Hd. injection Hd as <- _.
    apply (ciba_inv_insert s ap de id row); simpl; try done; [by apply (ci_id _ I)|left; by rewrite Hst|by intros [?|?]].
  - unfold TouchBackchannelPoll in Ht. destruct (s !! id) as [r|] eqn:Er; [|done]. injection Ht as <- _.
    apply (ciba_inv_insert s ap de id r); simpl; try done.
    + by apply (ci_id _ I).
    + destruct (decide (br_status r = cibaStatusConsumed)); auto.
    + by apply (ci_pending _ I id).
    + by apply (ci_approved _ I id).
  - unfold RedeemBackchannelRequest in Hw. destruct (s !! id) as [r|] eqn:Er; [|done].
    destruct (String.eqb_spec (br_status r) BackchannelStatusApproved) as [Ea|]; [|done].
    unfold Before in Hw. destruct (Z.ltb_spec now (br_expires r)) as [Hlt|]; [|done]. simpl in Hw. injection Hw as <- <-.
    destruct (ci_approved _ I id r Er (or_introl Ea)) as (user & Hu & Hin).
    assert (I' : ciba_inv (mkCibaWorld (<[id := set_status r cibaStatusConsumed]> s) ap de)).
    { apply (ciba_inv_insert s ap de id r); simpl; try done; [by apply (ci_id _ I)|by right|]. intros _. eauto. }
    destruct I' as [I1 I2 I3 I4 I5]. constructor; simpl in *; [done..| |].
    + intros id0 a f t. rewrite elem_of_app, list_elem_of_singleton. intros [Hdel|[= -> -> -> ->]]; [by apply I4|].
      exists (set_status r cibaStatusConsumed). rewrite lookup_insert_eq. split_and!; [done..|]. by exists user.
    + rewrite map_app. apply NoDup_app. split_and!; [done| |apply NoDup_singleton].
      intros id0 Hi0 Hi1. simpl in Hi1. apply list_elem_of_singleton in Hi1 as ->.
      apply list_elem_of_fmap in Hi0 as ([[[id1 a] f] t] & -> & Hdel). simpl in *.
      destruct (ci_consumed _ I _ _ _ _ Hdel) as (r1 & Hr1 & Hs1 & _). simpl in Hr1. rewrite Er in Hr1. injection Hr1 as <-.
      rewrite Hs1 in Ea. done.
Qed.

Lemma ciba_inv_reachable w : rtc ciba_step ciba_world0 w -> ciba_inv w.
Proof.
  apply (rtc_ind_r (fun w => ciba_inv w)); [|intros ? ? _ Hs Hi; by eapply ciba_inv_step].
  constructor; simpl; try done; [set_solver|constructor].
Qed.

(** Backchannel tokens are delivered once, and only after an approval. As long as each decision is atomic,
    under every interleaving of the storage calls of requests and polls, no request's tokens are delivered
    twice, the tokens delivered are those of an approval of that request, the delivery is before the request's
    expiry, and no request that ended denied has a delivery. *)
Theorem ciba_tokens_once w
  (Hreach : rtc ciba_step ciba_world0 w) :
  NoDup (map (fun d => d.1.1.1) (cw_delivered w))
  ∧ (∀ id access refresh t, (id, access, refresh, t) ∈ cw_delivered w ->
       (∃ user, (id, user, access, refresh) ∈ cw_approved w)
       ∧ ∃ r, cw_store w !! id = Some r ∧ br_status r = cibaStatusConsumed ∧ t < br_expires r).
Proof.
  destruct (ciba_inv_reachable w Hreach) as [_ _ _ I4 I5]. split; [done|]. intros id a f t Hd.
  destruct (I4 _ _ _ _ Hd) as (r & ? & ? & ? & ?). eauto 6.
Qed.

(** A pending request has no user, so the comparison of the deciding user with it never refuses. *)
Lemma user_never_compared w id user now :
  rtc ciba_step ciba_world0 w -> decide_read (cw_store w) id user now ≠ Err ErrCIBAUserMismatch.
Proof.
  intros Hreach%ciba_inv_reachable. unfold decide_read. destruct (cw_store w !! id) as [r|] eqn:Er; [|done].
  destruct (String.eqb_spec (br_status r) BackchannelStatusPending) as [Ep|]; [|done]. cbn [negb].
  rewrite (ci_pending _ Hreach id r Er Ep). by destruct (match now with Some _ => _ | None => _ end).
Qed.

(** A poll is a sequence of such steps, and a successful one a delivery to the client of the request. *)
Theorem poll_is_steps ttl s ap de client id now s' r
  (Hpoll : PollBackchannelToken cfg ttl s client id now = (s', r)) :
  match r with
  | Ok tok => rtc ciba_step (mkCibaWorld s ap de) (mkCibaWorld s' ap (de ++ [(id, ct_access tok, ct_refresh tok, now)]))
              ∧ ∃ row, s !! id = Some row ∧ client = Some (br_client row) ∧ ct_scope tok = br_scope row
  | Err _ => rtc ciba_step (mkCibaWorld s ap de) (mkCibaWorld s' ap de)
  end.
Proof.
  revert Hpoll. unfold PollBackchannelToken, ciba_read. destruct client as [client|]; [|intros [= <- <-]; done].
  destruct (id =? "")%string; [by intros [= <- <-]|]. destruct (s !! id) as [row|] eqn:Er; [|by intros [= <- <-]].
  destruct (String.eqb_spec (br_client row) client) as [Hc|]; [|by intros [= <- <-]]. cbn [negb].
  destruct (Before now (br_expires row)); [|by intros [= <- <-]]. cbn [negb].
  assert (Htouch : ∀ i, TouchBackchannelPoll s id now i = Some (<[id := set_touched row now i]> s, set_touched row now i))
    by (intros i; unfold TouchBackchannelPoll; by rewrite Er).
  destruct (match br_last_poll row with Some _ => _ | None => _ end).
  - rewrite Htouch. intros [= <- <-]. apply rtc_once. eapply cs_touch, Htouch.
  - rewrite Htouch. destruct (ciba_switch _); [intros [= <- <-]; apply rtc_once; eapply cs_touch, Htouch|].
    destruct (RedeemBackchannelRequest _ id now) as [s2 [won|]] eqn:Ew; intros [= <- <-].
    + split.
      * eapply rtc_l; [eapply cs_touch, Htouch|]. apply rtc_once. simpl. by apply cs_redeem.
      * exists row. split_and!; [done|by f_equal|]. simpl. unfold RedeemBackchannelRequest in Ew.
        rewrite lookup_insert_eq in Ew. repeat case_match; simplify_eq/=; done.
    + apply rtc_once. unfold RedeemBackchannelRequest in Ew. rewrite lookup_insert_eq in Ew.
      repeat case_match; simplify_eq/=; eapply cs_touch, Htouch.
Qed.
(** So is an approval. *)
Lemma approve_is_step env g s ap de id user now g' s' :
  ApproveBackchannelRequest gcfg resources env g s id user now = (g', s', None) ->
  ∃ access refresh, ciba_step (mkCibaWorld s ap de) (mkCibaWorld s' (ap ++ [(id, user, access, refresh)]) de).
Proof.
  unfold ApproveBackchannelRequest. destruct (decide_read s id user (Some now)) as [row|] eqn:Er; [|done].
  destruct (MintCIBATokens _ _ _ _ _ _) as [g1 [[access refresh]|]] eqn:Em; [|done].
  destruct (approve_write _ _ _ _ _) as [s1 e] eqn:Ew. intros [= -> -> ->]. exists access, refresh. by eapply cs_approve.
Qed.
End Worlds.

(** The fallback redemption does what the atomic one does, on a store whose rows are under their identifiers. *)
Lemma redeem_fallback_same s id now :
  (∀ r, s !! id = Some r -> br_id r = id) ->
  redeem_fallback s id now = let '(s', won) := RedeemBackchannelRequest s id now in (s', Ok won).
Proof.
  intros Hid. unfold redeem_fallback, RedeemBackchannelRequest. destruct (s !! id) as [r|] eqn:Er; [|done].
  destruct (_ || _); [done|]. unfold UpdateBackchannelRequest. cbn [br_id set_status].
  rewrite (Hid r eq_refl), Er. done.
Qed.

(** The lifetime a client asks for can shorten the default, never extend it, whatever the configured maximum. *)
Lemma requested_expiry_only_shortens cfg requested : request_expiry cfg requested <= cb_expiry cfg.
Proof.
  unfold request_expiry. destruct (0 <? requested); [|lia]. cbv zeta.
  set (e := if _ <? cb_expiry cfg then _ else _).
  assert (e <= cb_expiry cfg) by (unfold e; destruct (Z.ltb_spec (wrap64 (requested * Second)) (cb_expiry cfg)); lia).
  destruct (Z.ltb_spec (cb_max_expiry cfg) e); lia.
Qed.

(** ** Racing decisions *)

(** A late approval overrides everything. An approval that read a pending request writes the whole row back
    without looking at it again. Whatever became of the request in the meantime, also when it was denied or its
    tokens were already delivered, it is approved afterwards and the next poll of the client delivers tokens. *)
Theorem stale_approval_wins cfg ttl s id user now row s2 r2 access refresh now2
  (Hread : decide_read s id user (Some now) = Ok row) (Hid : br_id row = id) (Hne : id ≠ "")
  (Hthen : s2 !! id = Some r2) (Htok : access ≠ "") (Hexp : now2 < br_expires row)
  (Hpoll : br_last_poll row = None) :
  let s3 := (approve_write s2 row user access refresh).1 in
  (PollBackchannelToken cfg ttl s3 (Some (br_client row)) id now2).2
    = Ok (mkCIBAToken access refresh (br_scope row) (Z.quot ttl Second)).
Proof.
  unfold approve_write, UpdateBackchannelRequest. cbn [br_id set_approved]. rewrite Hid, Hthen. cbn [fst].
  unfold PollBackchannelToken, ciba_read. apply String.eqb_neq in Hne as ->. rewrite lookup_insert_eq.
  cbn [set_created set_approved br_client br_expires br_last_poll br_interval]. rewrite String.eqb_refl. cbn [negb].
  unfold Before. rewrite (proj2 (Z.ltb_lt _ _) Hexp), Hpoll. cbn [negb].
  unfold TouchBackchannelPoll. rewrite lookup_insert_eq. unfold ciba_switch.
  cbn [set_touched set_created set_approved br_status br_access]. apply String.eqb_neq in Htok as ->.
  change (if (BackchannelStatusApproved =? BackchannelStatusPending)%string then ?a else ?b) with b.
  change (if (BackchannelStatusApproved =? BackchannelStatusDenied)%string then ?a else ?b) with b.
  change (if (BackchannelStatusApproved =? cibaStatusConsumed)%string then ?a else ?b) with b.
  rewrite String.eqb_refl. unfold RedeemBackchannelRequest. rewrite insert_insert_eq, lookup_insert_eq.
  cbn [set_touched set_created set_approved br_status br_expires]. rewrite String.eqb_refl. unfold Before.
  rewrite (proj2 (Z.ltb_lt _ _) Hexp). done.
Qed.

(** ** Approvals as steps of the grant store *)

Section Approvals.
Context `{TokenLib} (gcfg : GrantConfig).

(** The mint of [PollDeviceToken], with the authorization server's own mint. *)
Definition device_mint (env : MintEnv) (g : GrantStore) (client user : string) (scope : list string) (resource jkt : string)
  : option TokenResponse :=
  match (mintAccessAndRefresh gcfg env g (approved_input (mkApproval client user scope resource jkt))).2 with
  | Ok resp => Some resp
  | Err _ => None
  end.

(** Backchannel tokens are minted by the steps of the grant store, from what the request's row asks for. *)
Theorem backchannel_mint_is_steps resources env iss g rs roots p row user :
  rs !! p = None -> (∀ i, fresh_mint env g i) ->
  let resource := match resources with r :: _ => pr_identifier r | [] => "" end in
  ∃ roots', rtc (grant_step gcfg) (mkGrantWorld iss g rs roots)
    (mkGrantWorld (FromApproval (mkApproval (br_client row) user (br_scope row) resource "") :: iss)
       (MintCIBATokens gcfg resources env g row user).1 rs roots').
Proof.
  intros Hp Hf resource. unfold MintCIBATokens. fold resource.
  change (mkMintInput _ _ _ _ _ _ _ _ _ _ _ _ _) with (approved_input (mkApproval (br_client row) user (br_scope row) resource "")).
  destruct (mintAccessAndRefresh gcfg env g _) as [g' r] eqn:E. destruct (approved_steps gcfg iss g rs roots p _ env g' r Hp (Hf _) E) as [roots' Hr].
  exists roots'. by destruct r.
Qed.

(** A device code is redeemed into tokens of what its stored row says: the client that polls, the user who
    approved it, the scopes and resource it was started with, and the key of the poll. *)
Theorem device_mint_is_steps `{DeviceLib} sv s now client code dpop env iss g rs roots p s' resp :
  rs !! p = None -> (∀ i, fresh_mint env g i) ->
  PollDeviceToken sv s now client code dpop (device_mint env g) = (s', Ok resp) ->
  ∃ row user jkt roots', poll_lookup sv s now client code = Ok row ∧ da_status row = DeviceAuthApproved ∧ da_user_id row = Some user
    ∧ dpop = Some jkt
    ∧ let a := mkApproval (da_client_id row) user (da_scope row) (da_resource row) jkt in
      rtc (grant_step gcfg) (mkGrantWorld iss g rs roots)
        (mkGrantWorld (FromApproval a :: iss) (mintAccessAndRefresh gcfg env g (approved_input a)).1 rs roots').
Proof.
  intros Hp Hf. unfold PollDeviceToken. destruct (poll_lookup sv s now client code) as [row|e]; [|done].
  destruct (poll_record s row now) as [s1|e]; [|done]. destruct (too_fast row now); [done|].
  destruct (poll_status row) as [user|e] eqn:Es; [|done]. destruct dpop as [jkt|]; [|done].
  destruct (ConsumeDeviceAuthorization s1 (da_id row) now) as [s2 won]. destruct won; [|done]. cbn [negb].
  destruct (device_mint _ _ _ _ _ _ _) as [r|]; [|done]. intros _.
  set (a := mkApproval (da_client_id row) user (da_scope row) (da_resource row) jkt).
  destruct (mintAccessAndRefresh gcfg env g (approved_input a)) as [g' r'] eqn:Em.
  destruct (approved_steps gcfg iss g rs roots p a env g' r' Hp (Hf _) Em) as [roots' Hr].
  revert Es. unfold poll_status. destruct (_ =? _)%string; [done|]. destruct (_ =? _)%string; [done|].
  destruct (String.eqb_spec (da_status row) DeviceAuthApproved); [|done]. destruct (da_user_id row) as [u|] eqn:Eu; [|done].
  intros [= ->]. exists row, user, jkt, roots'. fold a. cbv zeta. rewrite Em. by split_and!.
Qed.
End Approvals.

(** ** A run *)

#[local] Existing Instance demo_lib.

Definition ciba_cfg : CIBAConfig := applyCIBADefaults (mkCIBAConfig 0 0 0 0).
Definition ciba_req : BackchannelAuthRequest := mkAuthRequest "app" "alice@example.com" "" "" ["read"] "" "" 0.
Definition ciba_s1 : Backchannels := (BackchannelAuthenticate ciba_cfg ∅ true (Some "req") demo_now true ciba_req).1.
Definition ciba_row : BackchannelRequest := default (mkBackchannel "" "" None "" "" "" [] "" "" "" "" "" 0 None 0 0) (ciba_s1 !! "req").
Definition ciba_w1 : ciba_world := mkCibaWorld ciba_s1 [] [].
Definition ciba_s2 : Backchannels := (approve_write ciba_s1 ciba_row "alice" "access" "rt1").1.
Definition ciba_s3 : Backchannels := (RedeemBackchannelRequest ciba_s2 "req" demo_now).1.

Lemma ciba_tokens_once_witness :
  rtc (ciba_step ciba_cfg demo_cfg []) ciba_world0
    (mkCibaWorld ciba_s3 [("req", "alice", "access", "rt1")] [("req", "access", "rt1", demo_now)])
  ∧ NoDup (map (fun d => d.1.1.1) [("req", "access", "rt1", demo_now)]).
Proof.
  assert (Hr : rtc (ciba_step ciba_cfg demo_cfg []) ciba_world0
    (mkCibaWorld ciba_s3 [("req", "alice", "access", "rt1")] [("req", "access", "rt1", demo_now)])).
  { eapply rtc_l; [apply (cs_request ciba_cfg demo_cfg [] ∅ [] [] true (Some "req") demo_now true ciba_req ciba_s1
      (Ok ("req", 300, 5))); vm_compute; reflexivity|].
    eapply rtc_l; [apply (cs_approve ciba_cfg demo_cfg [] ciba_s1 [] [] (demo_env "1") NewGrantStore "req" "alice" demo_now ciba_row
      (mintAccessAndRefresh demo_cfg (demo_env "1") NewGrantStore (mkMintInput "app" (Some "alice") ["read"] "" None "" "" 0 "" 0 "" [] "")).1
      "access" "rt1" ciba_s2); vm_compute; reflexivity|].
    apply rtc_once. apply (cs_redeem ciba_cfg demo_cfg [] ciba_s2 _ [] "req" demo_now ciba_s3
      (set_status (set_approved ciba_row "alice" "access" "rt1") cibaStatusConsumed)). vm_compute. reflexivity. }
  split; [exact Hr|]. exact (proj1 (ciba_tokens_once ciba_cfg demo_cfg [] _ Hr)).
Defined.

(** Two approvals read the pending request; the first one's tokens are delivered, the second one overwrites the
    consumed request, and the client gets a second pair. A denial in between is overwritten in the same way. *)
Lemma stale_approval_wins_witness :
  br_status (default ciba_row (ciba_s3 !! "req")) = cibaStatusConsumed
  ∧ (PollBackchannelToken ciba_cfg (3600 * Second) (approve_write ciba_s3 ciba_row "bob" "access-2" "rt2").1 (Some "app") "req" demo_now).2
    = Ok (mkCIBAToken "access-2" "rt2" ["read"] 3600)
  ∧ (PollBackchannelToken ciba_cfg (3600 * Second)
       (approve_write (DenyBackchannelRequest ciba_s1 "req" "alice").1 ciba_row "bob" "access-2" "rt2").1 (Some "app") "req" demo_now).2
    = Ok (mkCIBAToken "access-2" "rt2" ["read"] 3600).
Proof.
  split; [vm_compute; reflexivity|].
  assert (Hr : decide_read ciba_s1 "req" "bob" (Some demo_now) = Ok ciba_row) by (vm_compute; reflexivity). split.
  - apply (stale_approval_wins ciba_cfg (3600 * Second) ciba_s1 "req" "bob" demo_now ciba_row ciba_s3
      (set_status (set_approved ciba_row "alice" "access" "rt1") cibaStatusConsumed) "access-2" "rt2" demo_now Hr);
      [reflexivity|discriminate|vm_compute; reflexivity|discriminate|vm_compute; reflexivity|reflexivity].
  - apply (stale_approval_wins ciba_cfg (3600 * Second) ciba_s1 "req" "bob" demo_now ciba_row _
      (set_denied ciba_row "alice") "access-2" "rt2" demo_now Hr);
      [reflexivity|discriminate|vm_compute; reflexivity|discriminate|vm_compute; reflexivity|reflexivity].
Defined.
