(* ===== verification/Rar.v ===== *)
(** * Rich authorization requests ([internal/rar/rar.go], [internal/as/rar.go])

    RFC 9396: structured permissions carried from the authorization request to the tokens. A token request may
    ask for less than was granted; [Narrow] decides it. The values of type specific members are an arbitrary
    type with decidable equality ([reflect.DeepEqual]); the JSON decoder and encoder are the class [RarLib],
    with the law that what was encoded, of valid text, decodes to itself. *)

From Stdlib Require Import ZArith Lia String Ascii.
From stdpp Require Import base gmap strings list.
From S2P Require Import Prelude Canonical GoJSON.

Set Default Goal Selector "!".
Open Scope string_scope.
Open Scope list_scope.
Open Scope Z_scope.

Definition DefaultMaxDetails : Z := 16.
Definition MaxEncodedBytes : Z := 16 * 1024.

(** ** Details *)

Record Detail (V : Type) := mkDetail {
  d_type : string; d_locations : list string; d_actions : list string; d_datatypes : list string;
  d_identifier : string; d_privileges : list string; d_fields : gmap string V;
}.
Arguments mkDetail {V}.
Arguments d_type {V}.
Arguments d_locations {V}.
Arguments d_actions {V}.
Arguments d_datatypes {V}.
Arguments d_identifier {V}.
Arguments d_privileges {V}.
Arguments d_fields {V}.

(** The members with a field of their own. *)
Definition registered : list string := ["type"; "locations"; "actions"; "datatypes"; "privileges"; "identifier"].

(** What [UnmarshalJSON] produces: a type, text that is valid UTF-8 (the decoder replaces what is not), values that
    satisfy [ok], and no registered member among the others. *)
Record storable {V} (ok : V -> Prop) (d : Detail V) : Prop := mkStorable {
  so_type : d_type d ≠ "";
  so_text : Forall valid_utf8 (d_type d :: d_identifier d :: d_locations d ++ d_actions d ++ d_datatypes d ++ d_privileges d);
  so_fields : map_Forall (fun k v => valid_utf8 k ∧ ok v) (d_fields d);
  so_unregistered : Forall (fun k => d_fields d !! k = None) registered;
}.

(** [decode_details]: the first JSON value of the input as a list of details, and whether more data follows;
    [None] for any error. [encode_details] is [json.Marshal]. [valid_value] holds of the values a decoder returns. *)
Class RarLib (V : Type) := {
  decode_details : string -> option (list (Detail V) * bool);
  encode_details : list (Detail V) -> string;
  valid_value : V -> Prop;
  decode_storable raw l more : decode_details raw = Some (l, more) -> Forall (storable valid_value) l;
  decode_encode_details l : l ≠ [] -> Forall (storable valid_value) l -> decode_details (encode_details l) = Some (l, false);
}.

Inductive rar_error := ErrInvalid | ErrOAuthInvalidAuthorizationDetails | ErrRARConfig.

(** [None] is [nil, false]. *)
Definition narrowList (req grant : list string) : option (list string) :=
  match req with
  | [] => Some grant
  | _ => match grant with
         | [] => Some req
         | _ => if forallb (fun v => bool_decide (v ∈ grant)) req then Some req else None
         end
  end.

Section Rar.
Context {V : Type} `{EqDecision V}.
Implicit Types r g e d : Detail V.

(** The loop over the request's members. *)
Definition fields_covered (r g : gmap string V) : bool :=
  forallb (fun kv => match g !! fst kv with Some gv => bool_decide (snd kv = gv) | None => bool_decide (g = ∅) end)
    (map_to_list r).

Definition narrowIdentifier (want have : string) : option string :=
  if (want =? "")%string then Some have
  else if (have =? "")%string || (have =? want)%string then Some want
  else None.

Definition narrowOne r g : option (Detail V) :=
  if negb (d_type r =? d_type g)%string then None
  else match narrowList (d_locations r) (d_locations g) with
  | None => None
  | Some locations =>
      match narrowList (d_actions r) (d_actions g) with
      | None => None
      | Some actions =>
          match narrowList (d_datatypes r) (d_datatypes g) with
          | None => None
          | Some datatypes =>
              match narrowList (d_privileges r) (d_privileges g) with
              | None => None
              | Some privileges =>
                  match narrowIdentifier (d_identifier r) (d_identifier g) with
                  | None => None
                  | Some identifier =>
                      if fields_covered (d_fields r) (d_fields g)
                      then Some (mkDetail (d_type g) locations actions datatypes identifier privileges (d_fields r ∪ d_fields g))
                      else None
                  end
              end
          end
      end
  end.

(** The first granted detail that covers the request. *)
Fixpoint narrow_first r (granted : list (Detail V)) : option (Detail V) :=
  match granted with
  | [] => None
  | g :: granted => match narrowOne r g with Some e => Some e | None => narrow_first r granted end
  end.

Fixpoint Narrow (requested granted : list (Detail V)) : option (list (Detail V)) :=
  match requested with
  | [] => Some []
  | r :: requested =>
      match narrow_first r granted with
      | None => None
      | Some eff => match Narrow requested granted with Some out => Some (eff :: out) | None => None end
      end
  end.

Definition Types (l : list (Detail V)) : list string := sort_strings (dedup (map d_type l)).

(** ** Values ([rar.go]) *)

Context `{RarLib V}.

Definition ParseBytes (raw : string) (max : Z) : result rar_error (list (Detail V)) :=
  if (raw =? "")%string then Ok []
  else
    let max := if max <=? 0 then DefaultMaxDetails else max in
    if MaxEncodedBytes <? Z.of_nat (String.length raw) then Err ErrInvalid
    else match decode_details raw with
    | None => Err ErrInvalid
    | Some (l, more) =>
        if more then Err ErrInvalid
        else if bool_decide (l = []) then Err ErrInvalid
        else if max <? Z.of_nat (length l) then Err ErrInvalid
        else Ok l
    end.

Definition Parse (raw : string) (max : Z) : result rar_error (list (Detail V)) :=
  if (raw =? "")%string then Ok [] else ParseBytes raw max.

Definition Marshal (l : list (Detail V)) : string := match l with [] => "" | _ => encode_details l end.

(** ** The authorization server ([internal/as/rar.go]) *)

Record RARConfig := mkRAR { rar_types : list string; rar_max : Z }.

Definition validateRAR (c : option RARConfig) : result rar_error (option RARConfig) :=
  match c with
  | None => Ok None
  | Some c =>
      if bool_decide (rar_types c = []) then Err ErrRARConfig
      else if bool_decide ("" ∈ rar_types c) then Err ErrRARConfig
      else if negb (bool_decide (NoDup (rar_types c))) then Err ErrRARConfig
      else if rar_max c <? 0 then Err ErrRARConfig
      else Ok (Some (mkRAR (rar_types c) (if rar_max c =? 0 then DefaultMaxDetails else rar_max c)))
  end.

Definition stringIn (l : list string) (v : string) : bool := bool_decide (v ∈ l).

Definition ValidateClientRARTypes (cfg : option RARConfig) (types : list string) : bool :=
  match types, cfg with
  | [], _ => true
  | _, None => false
  | _, Some c => forallb (stringIn (rar_types c)) types
  end.

(** [client_types] are the types the client is registered for, [None] for no client. *)
Definition parseAuthorizationDetails (cfg : option RARConfig) (client_types : option (list string)) (raw : string)
  : result rar_error (list (Detail V)) :=
  if (raw =? "")%string then Ok []
  else match cfg with
  | None => Err ErrOAuthInvalidAuthorizationDetails
  | Some c =>
      match Parse raw (rar_max c) with
      | Err _ => Err ErrOAuthInvalidAuthorizationDetails
      | Ok l =>
          if forallb (fun d => stringIn (rar_types c) (d_type d)
                               && match client_types with
                                  | Some (t :: ts) => stringIn (t :: ts) (d_type d)
                                  | _ => true
                                  end) l
          then Ok l else Err ErrOAuthInvalidAuthorizationDetails
      end
  end.

Definition narrowAuthorizationDetails (cfg : option RARConfig) (client_types : option (list string)) (requestedRaw granted : string)
  : result rar_error string :=
  if (requestedRaw =? "")%string then Ok granted
  else match parseAuthorizationDetails cfg client_types requestedRaw with
  | Err e => Err e
  | Ok requested =>
      match ParseBytes granted 1024 with
      | Err _ | Ok [] => Err ErrOAuthInvalidAuthorizationDetails
      | Ok grant =>
          match Narrow requested grant with
          | None => Err ErrOAuthInvalidAuthorizationDetails
          | Some eff => Ok (Marshal eff)
          end
      end
  end.

(** ** What a detail permits

    One access: a location, an action, a datatype, a privilege, an identifier, and type specific members. An
    absent list, identifier or member constrains nothing. *)
Record access := mkAccess {
  a_type : string; a_location : string; a_action : string; a_datatype : string; a_privilege : string;
  a_identifier : string; a_fields : gmap string V;
}.

Definition in_list (l : list string) (x : string) : Prop := l = [] ∨ x ∈ l.

Record permits d (a : access) : Prop := {
  pm_type : d_type d = a_type a;
  pm_location : in_list (d_locations d) (a_location a);
  pm_action : in_list (d_actions d) (a_action a);
  pm_datatype : in_list (d_datatypes d) (a_datatype a);
  pm_privilege : in_list (d_privileges d) (a_privilege a);
  pm_identifier : d_identifier d = "" ∨ d_identifier d = a_identifier a;
  pm_fields : d_fields d ⊆ a_fields a;
}.

Definition permitted (l : list (Detail V)) (a : access) : Prop := ∃ d, d ∈ l ∧ permits d a.

Lemma narrowList_spec req grant out x :
  narrowList req grant = Some out -> in_list out x ↔ in_list req x ∧ in_list grant x.
Proof.
  unfold narrowList, in_list. destruct req as [|v req]; [intros [= <-]; naive_solver|].
  destruct grant as [|w grant]; [intros [= <-]; naive_solver|].
  destruct (forallb _ _) eqn:E; [|done]. intros [= <-]. rewrite forallb_forall in E.
  split; [|naive_solver]. intros [?|Hx]; [done|]. split; [by right|right].
  specialize (E x (proj1 (list_elem_of_In _ _) Hx)). by apply bool_decide_eq_true_1 in E.
Qed.

Lemma narrowIdentifier_spec want have out x :
  narrowIdentifier want have = Some out -> (out = "" ∨ out = x) ↔ (want = "" ∨ want = x) ∧ (have = "" ∨ have = x).
Proof.
  unfold narrowIdentifier. destruct (String.eqb_spec want ""); [intros [= <-]; naive_solver|].
  destruct (String.eqb_spec have ""); [intros [= <-]; naive_solver|].
  destruct (String.eqb_spec have want) as [->|]; [|done]. intros [= <-]. naive_solver.
Qed.

Lemma fields_union (r g F : gmap string V) :
  fields_covered r g = true -> r ∪ g ⊆ F ↔ r ⊆ F ∧ g ⊆ F.
Proof.
  intros Hc. unfold fields_covered in Hc. rewrite forallb_forall in Hc. split.
  - intros Hu. assert (Hr : r ⊆ r ∪ g) by apply map_union_subseteq_l. split; [by etrans|].
    apply map_subseteq_spec. intros k v Hk. eapply lookup_weaken; [|exact Hu]. apply lookup_union_Some_raw.
    destruct (r !! k) as [rv|] eqn:Er; [left|by right].
    specialize (Hc (k, rv) (proj1 (list_elem_of_In _ _) (proj2 (elem_of_map_to_list r k rv) Er))). simpl in Hc.
    rewrite Hk in Hc. apply bool_decide_eq_true_1 in Hc. by subst.
  - intros [Hr Hg]. apply map_subseteq_spec. intros k v [Hk|[_ Hk]]%lookup_union_Some_raw; by eapply lookup_weaken.
Qed.

(** The effective detail permits exactly what both the request and the grant permit. *)
Lemma narrowOne_meet r g e a : narrowOne r g = Some e -> permits e a ↔ permits r a ∧ permits g a.
Proof.
  unfold narrowOne. destruct (String.eqb_spec (d_type r) (d_type g)) as [Ht|]; [|done]. cbn [negb].
  destruct (narrowList (d_locations r) _) as [l1|] eqn:E1; [|done].
  destruct (narrowList (d_actions r) _) as [l2|] eqn:E2; [|done].
  destruct (narrowList (d_datatypes r) _) as [l3|] eqn:E3; [|done].
  destruct (narrowList (d_privileges r) _) as [l4|] eqn:E4; [|done].
  destruct (narrowIdentifier _ _) as [i|] eqn:E5; [|done].
  destruct (fields_covered _ _) eqn:E6; [|done]. intros [= <-].
  pose proof (narrowList_spec _ _ _ (a_location a) E1) as H1. pose proof (narrowList_spec _ _ _ (a_action a) E2) as H2.
  pose proof (narrowList_spec _ _ _ (a_datatype a) E3) as H3. pose proof (narrowList_spec _ _ _ (a_privilege a) E4) as H4.
  pose proof (narrowIdentifier_spec _ _ _ (a_identifier a) E5) as H5. pose proof (fields_union _ _ (a_fields a) E6) as H6.
  split.
  - intros [? ? ? ? ? ? ?]. simpl in *. split; constructor; try tauto; congruence.
  - intros [[? ? ? ? ? ? ?] [? ? ? ? ? ? ?]]. constructor; simpl; tauto.
Qed.

Lemma narrow_first_in r granted e : narrow_first r granted = Some e -> ∃ g, g ∈ granted ∧ narrowOne r g = Some e.
Proof.
  induction granted as [|g granted IH]; simpl; [done|]. destruct (narrowOne r g) as [e'|] eqn:E.
  - intros [= <-]. exists g. split; [set_solver|done].
  - intros (g' & ? & ?)%IH. exists g'. split; [set_solver|done].
Qed.

Lemma Narrow_inside requested granted out a :
  Narrow requested granted = Some out -> permitted out a -> permitted granted a ∧ permitted requested a.
Proof.
  revert out. induction requested as [|r requested IH]; intros out Hn [d [Hd Hp]]; simpl in Hn.
  - simplify_eq. set_solver.
  - destruct (narrow_first r granted) as [e|] eqn:E; [|done]. destruct (Narrow requested granted) as [out'|] eqn:En; [|done].
    injection Hn as <-. apply elem_of_cons in Hd as [->|Hd].
    + apply narrow_first_in in E as (g & Hg & Ho). apply (narrowOne_meet _ _ _ a Ho) in Hp as [Hpr Hpg].
      split; [by exists g|]. exists r. split; [set_solver|done].
    + destruct (IH out' eq_refl) as [Hg (r' & Hr' & Hpr')]; [by exists d|]. split; [done|]. exists r'. split; [set_solver|done].
Qed.

Lemma Narrow_nil requested granted : Narrow requested granted = Some [] -> requested = [].
Proof. destruct requested; [done|]. simpl. by repeat case_match. Qed.

(** Narrowing keeps details storable. *)
Lemma narrowList_or req grant l : narrowList req grant = Some l -> l = req ∨ l = grant.
Proof. unfold narrowList. intros. repeat case_match; simplify_eq; auto. Qed.

Lemma narrowIdentifier_or want have i : narrowIdentifier want have = Some i -> i = want ∨ i = have.
Proof. unfold narrowIdentifier. intros. repeat case_match; simplify_eq; auto. Qed.

Lemma narrowOne_storable r g e :
  storable valid_value r -> storable valid_value g -> narrowOne r g = Some e -> storable valid_value e.
Proof.
  intros [_ Hrt Hrf Hr] [Ht Hgt Hgf Hg]. unfold narrowOne. intros He.
  repeat match goal with
  | H : context [match ?x with Some _ => _ | None => _ end] |- _ => destruct x eqn:?; [|discriminate H]
  | H : (if ?x then _ else _) = Some _ |- _ => destruct x; try discriminate H
  end.
  injection He as <-.
  repeat match goal with
  | H : narrowList _ _ = Some _ |- _ => apply narrowList_or in H
  | H : narrowIdentifier _ _ = Some _ |- _ => apply narrowIdentifier_or in H
  end.
  rewrite !Forall_cons, !Forall_app in Hrt, Hgt. split; simpl; [done| | |].
  - rewrite !Forall_cons, !Forall_app. destruct_or?; subst; tauto.
  - by apply map_Forall_union_2.
  - rewrite Forall_forall in *. intros k Hk. apply lookup_union_None. auto.
Qed.

Lemma Narrow_storable requested granted out :
  Forall (storable valid_value) requested -> Forall (storable valid_value) granted -> Narrow requested granted = Some out -> Forall (storable valid_value) out.
Proof.
  intros Hr Hg. revert out. induction Hr as [|r requested Hr _ IH]; intros out Hn; simpl in Hn; [by simplify_eq; constructor|].
  destruct (narrow_first r granted) as [e|] eqn:E; [|done]. destruct (Narrow requested granted) as [out'|]; [|done].
  injection Hn as <-. constructor; [|by apply IH]. apply narrow_first_in in E as (g & Hin & Ho).
  rewrite Forall_forall in Hg. by eapply narrowOne_storable; [exact Hr|apply Hg|].
Qed.

Lemma ParseBytes_storable raw max l : ParseBytes raw max = Ok l -> Forall (storable valid_value) l.
Proof.
  unfold ParseBytes. destruct (raw =? "")%string; [intros [= <-]; constructor|]. destruct (_ <? _); [done|].
  destruct (decode_details raw) as [[l' []]|] eqn:E; [done| |done]. case_bool_decide; [done|]. destruct (_ <? _); [done|].
  intros [= <-]. by eapply decode_storable.
Qed.

(** The details a stored value stands for. *)
Definition details_of (raw : string) : list (Detail V) := match ParseBytes raw 1024 with Ok l => l | Err _ => [] end.

(** [narrowings cfg cts n g0 g]: [g] came out of [n] token requests in a row, the first of which found [g0]. *)
Inductive narrowings (cfg : option RARConfig) : nat -> string -> string -> Prop :=
  | nw_start raw : narrowings cfg 0 raw raw
  | nw_next n raw0 raw raw' client_types requested :
      narrowings cfg n raw0 raw -> narrowAuthorizationDetails cfg client_types requested raw = Ok raw' -> narrowings cfg (S n) raw0 raw'.

Lemma details_of_Marshal out a :
  Forall (storable valid_value) out -> permitted (details_of (Marshal out)) a -> permitted out a.
Proof.
  intros Hs [d [Hd Hp]]. exists d. split; [|done]. unfold details_of in Hd. destruct out as [|o out]; [simpl in Hd; set_solver|].
  unfold Marshal, ParseBytes in Hd. destruct (encode_details (o :: out) =? "")%string; [simpl in Hd; set_solver|].
  rewrite decode_encode_details in Hd by done. repeat case_match; simplify_eq/=; set_solver.
Qed.

Lemma narrow_step cfg client_types requested raw raw' a :
  narrowAuthorizationDetails cfg client_types requested raw = Ok raw' -> permitted (details_of raw') a -> permitted (details_of raw) a.
Proof.
  unfold narrowAuthorizationDetails. destruct (requested =? "")%string eqn:Er; [by intros [= <-]|].
  destruct (parseAuthorizationDetails cfg client_types requested) as [req|] eqn:Ep; [|done].
  destruct (ParseBytes raw 1024) as [grant|] eqn:Eg; [|done]. destruct grant as [|g1 grant]; [done|].
  destruct (Narrow req (g1 :: grant)) as [eff|] eqn:En; [|done]. intros [= <-] Hp.
  assert (Hreq : Forall (storable valid_value) req).
  { unfold parseAuthorizationDetails, Parse in Ep. rewrite Er in Ep. destruct cfg as [c|]; [|done].
    destruct (ParseBytes requested (rar_max c)) as [l|] eqn:El; [|done]. destruct (forallb _ _); [|done]. injection Ep as <-.
    by eapply ParseBytes_storable. }
  pose proof (ParseBytes_storable _ _ _ Eg) as Hgr. pose proof (Narrow_storable _ _ _ Hreq Hgr En) as Heff.
  apply details_of_Marshal in Hp; [|done]. apply (Narrow_inside _ _ _ _ En) in Hp as [Hp _].
  unfold details_of. by rewrite Eg.
Qed.

(** C12. Narrowing never widens. However many token requests narrow the authorization details of a grant one
    after the other, every access the last value permits is permitted by the details first granted. And one
    narrowing is exact: the effective detail permits precisely what the request and the grant both permit. *)
Theorem details_never_widen cfg n raw0 raw a
  (Hchain : narrowings cfg n raw0 raw) :
  (permitted (details_of raw) a -> permitted (details_of raw0) a)
  ∧ (∀ r d e, narrowOne r d = Some e -> permits e a ↔ permits r a ∧ permits d a).
Proof.
  split; [|intros; by apply narrowOne_meet].
  induction Hchain as [raw|n raw0 raw raw' cts requested _ IH Hn]; [done|]. intros Hp. by eapply IH, narrow_step.
Qed.

(** A request for a type alone yields the whole grant of that type. *)
Lemma narrowOne_type_only g : narrowOne (mkDetail (d_type g) [] [] [] "" [] ∅) g = Some g.
Proof.
  unfold narrowOne. simpl. rewrite String.eqb_refl. simpl. unfold fields_covered. rewrite map_to_list_empty. simpl.
  rewrite (left_id_L ∅ (∪)). by destruct g.
Qed.
End Rar.

(** ** A concrete chain

    Values are strings; a list of details is encoded as its number in binary. *)
Definition grant_detail : Detail string := mkDetail "payment" ["https://bank"] ["initiate"; "cancel"] [] "" [] ∅.
Definition narrow_detail : Detail string := mkDetail "payment" [] ["cancel"] [] "acct-7" [] ∅.
Definition narrowed_detail : Detail string := mkDetail "payment" ["https://bank"] ["cancel"] [] "acct-7" [] ∅.

#[local] Instance detail_eq_dec : EqDecision (Detail string).
Proof. solve_decision. Defined.
(** A detail as rows of strings. *)
Definition rows_of (d : Detail string) : list (list string) :=
  [[d_type d]; d_locations d; d_actions d; d_datatypes d; [d_identifier d]; d_privileges d;
   (map_to_list (d_fields d)).*1; (map_to_list (d_fields d)).*2].
Definition of_rows (l : list (list string)) : option (Detail string) :=
  match l with
  | [[t]; l; a; dt; [i]; p; ks; vs] => Some (mkDetail t l a dt i p (list_to_map (zip ks vs)))
  | _ => None
  end.

#[local] Instance detail_countable : Countable (Detail string).
Proof.
  refine (inj_countable rows_of of_rows _). intros [t l a dt i p f]. unfold rows_of, of_rows. simpl.
  by rewrite zip_fst_snd, list_to_map_to_list.
Defined.

Fixpoint bits (p : positive) : string :=
  match p with xH => "" | xO p => String "0" (bits p) | xI p => String "1" (bits p) end.
Fixpoint unbits (s : string) : positive :=
  match s with "" => xH | String c s => if Ascii.eqb c "0" then xO (unbits s) else xI (unbits s) end.

Lemma unbits_bits p : unbits (bits p) = p.
Proof. induction p as [p IH|p IH|]; simpl; [by rewrite IH|by rewrite IH|done]. Qed.

#[local] Instance valid_utf8_dec s : Decision (valid_utf8 s).
Proof. unfold valid_utf8. apply _. Defined.

#[local] Instance storable_dec (d : Detail string) : Decision (storable valid_utf8 d).
Proof.
  refine (cast_if_and4 (decide (d_type d ≠ ""))
    (decide (Forall valid_utf8 (d_type d :: d_identifier d :: d_locations d ++ d_actions d ++ d_datatypes d ++ d_privileges d)))
    (decide (map_Forall (fun k v => valid_utf8 k ∧ valid_utf8 v) (d_fields d)))
    (decide (Forall (fun k => d_fields d !! k = None) registered))); by (split || intros []).
Defined.

#[local] Instance toy_rar : RarLib string.
Proof.
  refine {| encode_details l := bits (countable.encode l); valid_value := valid_utf8;
            decode_details raw := match countable.decode (unbits raw) with
                                  | Some l => if decide (Forall (storable valid_utf8) l) then Some (l, false) else None
                                  | None => None
                                  end |}.
  - intros raw l more. destruct (countable.decode (unbits raw)) as [l'|]; [|done]. case_decide; [|done]. by intros [= <- _].
  - intros l _ Hs. rewrite unbits_bits, countable.decode_encode. by rewrite decide_True.
Defined.

Definition toy_rar_config : option RARConfig := Some (mkRAR ["payment"] 16).

Lemma details_never_widen_witness :
  narrowAuthorizationDetails toy_rar_config None (Marshal [narrow_detail]) (Marshal [grant_detail]) = Ok (Marshal [narrowed_detail])
  ∧ (permitted [narrowed_detail] (mkAccess "payment" "https://bank" "cancel" "" "" "acct-7" (∅ : gmap string string)) ->
     permitted [grant_detail] (mkAccess "payment" "https://bank" "cancel" "" "" "acct-7" (∅ : gmap string string))).
Proof.
  assert (Hn : narrowAuthorizationDetails toy_rar_config None (Marshal [narrow_detail]) (Marshal [grant_detail]) = Ok (Marshal [narrowed_detail]))
    by (vm_compute; reflexivity).
  split; [exact Hn|]. intros Hp.
  assert (H1 : details_of (Marshal [narrowed_detail]) = [narrowed_detail]) by (vm_compute; reflexivity).
  assert (H0 : details_of (Marshal [grant_detail]) = [grant_detail]) by (vm_compute; reflexivity).
  rewrite <- H0. refine (proj1 (details_never_widen toy_rar_config 1 (Marshal [grant_detail]) (Marshal [narrowed_detail])
    (mkAccess "payment" "https://bank" "cancel" "" "" "acct-7" ∅) _) _).
  - eapply nw_next; [apply nw_start|exact Hn].
  - rewrite H1. exact Hp.
Defined.
