(* ===== verification/AgentGate.v ===== *)
(** * Agent policies and the mint gate ([agentpolicy/agentpolicy.go], [internal/agent/gate.go])

    An agent's tokens are vetted before they are minted: a policy engine answers for each scope, and
    a rate limit is spent. The gate asks any engine through the contract [PolicyEngine]; the engine of
    the [agentpolicy] package is an instance that evaluates policy documents. The rate limiter and its
    state are parameters, as are the host's resolver of policies and the hash of the documents. *)

From Stdlib Require Import ZArith Lia String Ascii.
From Corelib Require Import SpecFloat.
From stdpp Require Import base gmap strings list.
From S2P Require Import Prelude Glob PolicyDoc PolicyEval PolicyTaint.

Set Default Goal Selector "!".
Open Scope string_scope.
Open Scope list_scope.
Open Scope Z_scope.

(** ** Agents ([models_v20.go]) *)

Definition AgentStatusActive : string := "active".
Definition AgentSubjectPrefix : string := "agent:".

Record Agent := mkAgent {
  ag_id : string; ag_owner : option string; ag_org : option string; ag_status : string;
  ag_client_id : string; ag_scope : list string; ag_created_at : Z; ag_last_active : option Z;
  ag_expires_at : option Z;
}.

Definition AgentExpired (a : Agent) (now : Z) : bool :=
  match ag_expires_at a with Some exp => negb (Before now exp) | None => false end.

(** ** The gate ([gate.go]) *)

Definition VerdictAllow : string := "allow".
Definition VerdictDeny : string := "deny".
Definition VerdictEscalate : string := "escalate".
Definition VerdictNone : string := "none".

Record PolicyQuery := mkQuery { q_action : string; q_resource : string }.

Record PolicyVerdict := mkVerdict {
  v_effect : string; v_policy_id : string; v_statement_id : string; v_reason : string;
}.

(** [ratelimit.Window] *)
Record Window := mkWindow { win_requests : Z; win_per : Z; win_burst : Z }.

Record PolicyDecision := mkPolicyDecision {
  pd_applies : bool; pd_deny_list : bool; pd_rate : option Window; pd_ids : list string;
  pd_hash : string; pd_verdicts : list PolicyVerdict;
}.

(** [models.AgentMintRequest] and [models.AgentMintResult] *)
Record AgentMintRequest := mkMintRequest {
  mr_grant : string; mr_resource : string; mr_scopes : list string; mr_explicit : bool;
  mr_ceiling : option (list string);
}.

Record AgentMintResult := mkMintResult {
  mo_scopes : list string; mo_dropped : list string; mo_policy_ids : list string; mo_policy_hash : string;
}.

Inductive gate_error :=
  | ErrAgentExpired | ErrAgentNotActive | AgentRateLimitedError (retry : Z)
  | ErrOAuthServerBusy (class : string) | ErrVerdictCount
  | ErrOAuthInvalidScope (action : string)
  | AgentPolicyDeniedError (action resource policy statement reason : string).

Definition permits (v : PolicyVerdict) (denyList : bool) : bool :=
  if (v_effect v =? VerdictAllow)%string then true
  else if (v_effect v =? VerdictNone)%string then denyList
  else false.

(** The error of a refused action; the audit event beside it is not modelled. *)
Definition refuse (req : AgentMintRequest) (action : string) (v : PolicyVerdict) : gate_error :=
  if (v_effect v =? VerdictNone)%string then ErrOAuthInvalidScope action
  else AgentPolicyDeniedError action (mr_resource req) (v_policy_id v) (v_statement_id v) (v_reason v).

(** An engine answers a batch of queries, or fails with an error class. *)
Definition PolicyEngine : Type := Agent -> list PolicyQuery -> result string PolicyDecision.

(** Where the loop of [AuthorizeMint] stands: scopes kept and dropped, and the first refusal. *)
Record mint_acc := mkMintAcc {
  ma_kept : list string; ma_dropped : list string; ma_first : option (string * PolicyVerdict);
}.

(** The verdict on one scope once the ceiling is applied. *)
Definition ceiling_verdict (req : AgentMintRequest) (denyList : bool) (sc : string) (v : PolicyVerdict)
  : PolicyVerdict * bool :=
  match mr_ceiling req with
  | Some c => if bool_decide (sc ∈ c) then (v, denyList)
              else (mkVerdict VerdictNone "" "" "outside registered scope ceiling", false)
  | None => (v, denyList)
  end.

Fixpoint mint_loop (req : AgentMintRequest) (denyList : bool) (scopes : list (string * PolicyVerdict))
    (acc : mint_acc) : result gate_error mint_acc :=
  match scopes with
  | [] => Ok acc
  | (sc, v) :: scopes' =>
      let '(v, dl) := ceiling_verdict req denyList sc v in
      if permits v dl then
        mint_loop req denyList scopes' (mkMintAcc (ma_kept acc ++ [sc]) (ma_dropped acc) (ma_first acc))
      else if mr_explicit req then Err (refuse req sc v)
      else mint_loop req denyList scopes'
             (mkMintAcc (ma_kept acc) (ma_dropped acc ++ [sc])
                (match ma_first acc with None => Some (sc, v) | Some f => Some f end))
  end.

Section Gate.
Context {L : Type} (take_unit : L -> Z -> string -> option Window -> L * option Z).

(** [AllowWith] or [Allow] of the limiter: a retry delay means refused. [None] is a gate without a
    limiter. *)
Definition spend (lim : option L) (now : Z) (agentID : string) (override : option Window)
  : option L * option gate_error :=
  match lim with
  | None => (None, None)
  | Some l =>
      match take_unit l now agentID override with
      | (l, None) => (Some l, None)
      | (l, Some retry) => (Some l, Some (AgentRateLimitedError retry))
      end
  end.

(** [None] is a gate without an engine. *)
Definition AuthorizeMint (engine : option PolicyEngine) (lim : option L) (now : Z) (ag : Agent)
    (req : AgentMintRequest) : option L * result gate_error AgentMintResult :=
  let res := mkMintResult (mr_scopes req) [] [] "" in
  if AgentExpired ag now then (lim, Err ErrAgentExpired)
  else match engine with
  | None =>
      match spend lim now (ag_id ag) None with
      | (lim, Some err) => (lim, Err err)
      | (lim, None) => (lim, Ok res)
      end
  | Some eng =>
      match eng ag (map (fun sc => mkQuery sc (mr_resource req)) (mr_scopes req)) with
      | Err class => (lim, Err (ErrOAuthServerBusy class))
      | Ok dec =>
          match spend lim now (ag_id ag) (pd_rate dec) with
          | (lim, Some err) => (lim, Err err)
          | (lim, None) =>
              if negb (pd_applies dec) then (lim, Ok res)
              else if negb (length (pd_verdicts dec) =? length (mr_scopes req))%nat then (lim, Err ErrVerdictCount)
              else match mint_loop req (pd_deny_list dec) (zip (mr_scopes req) (pd_verdicts dec)) (mkMintAcc [] [] None) with
              | Err err => (lim, Err err)
              | Ok acc =>
                  match ma_kept acc, ma_first acc with
                  | [], Some (action, v) => (lim, Err (refuse req action v))
                  | kept, _ => (lim, Ok (mkMintResult kept (ma_dropped acc) (pd_ids dec) (pd_hash dec)))
                  end
              end
          end
      end
  end.

(** Call time: [lookup] is [AgentByID] of the parsed id, [None] for a malformed or unknown one. *)
Definition Authorize (engine : option PolicyEngine) (storage : option (string -> option Agent)) (lim : option L)
    (now : Z) (agentID action resource : string) : option L * option gate_error :=
  match engine with
  | None =>
      match storage ≫= (fun lookup => lookup agentID) with
      | Some ag => if AgentExpired ag now then (lim, Some ErrAgentExpired) else spend lim now agentID None
      | None => spend lim now agentID None
      end
  | Some eng =>
      match storage ≫= (fun lookup => lookup agentID) with
      | None => (lim, Some ErrAgentNotActive)
      | Some ag =>
          if negb (ag_status ag =? AgentStatusActive)%string then (lim, Some ErrAgentNotActive)
          else if AgentExpired ag now then (lim, Some ErrAgentExpired)
          else match eng ag [mkQuery action resource] with
          | Err class => (lim, Some (ErrOAuthServerBusy class))
          | Ok dec =>
              match spend lim now agentID (pd_rate dec) with
              | (lim, Some err) => (lim, Some err)
              | (lim, None) =>
                  if negb (pd_applies dec) then (lim, None)
                  else match pd_verdicts dec with
                  | [v] => if permits v (pd_deny_list dec) then (lim, None)
                           else (lim, Some (AgentPolicyDeniedError action resource (v_policy_id v) (v_statement_id v) (v_reason v)))
                  | _ => (lim, Some ErrVerdictCount)
                  end
              end
          end
      end
  end.
End Gate.

(** ** The policy engine ([agentpolicy.go]) *)

Definition ErrClassResolver : string := "resolver_error".
Definition ErrClassNoAllow : string := "no_allow_statement".
Definition ErrClassInvalidLimit : string := "invalid_rate_limit".
Definition ErrClassInvalidDoc : string := "invalid_policy".

(** What the host's resolver returns; the limit is the outcome of [Normalize]. *)
Record Resolution := mkResolution { rs_policies : list Policy; rs_rate : option (option Window) }.

Record Engine := mkEngine {
  en_base : list Policy; en_resolver : option (Agent -> option Resolution); en_deny_list : bool;
  en_eval : Evaluator; en_hash : list Policy -> string;
}.

Section PolicyEngineOf.
Context `{GoLib}.

Definition hasAllow (ps : list Policy) : bool :=
  existsb (fun p => existsb (fun s => (stmt_effect s =? Allow)%string) (pol_statements p)) ps.

Definition all_valid (ps : list Policy) : bool := forallb (fun p => bool_decide (Validate p = None)) ps.

(** [New]: every static policy is valid, and an allow list has an allow statement or may get one. *)
Definition New (base : list Policy) (resolver : option (Agent -> option Resolution)) (denyList : bool)
    (eval : Evaluator) (hash : list Policy -> string) : option Engine :=
  if negb (all_valid base) then None
  else if negb denyList && negb (bool_decide (base = [])) && bool_decide (resolver = None) && negb (hasAllow base)
  then None
  else Some (mkEngine base resolver denyList eval hash).

Definition resolve (e : Engine) (ag : Agent) : result string (list Policy * option Window) :=
  match en_resolver e with
  | None => Ok (en_base e, None)
  | Some resolver =>
      match resolver ag with
      | None => Err ErrClassResolver
      | Some res =>
          if negb (all_valid (rs_policies res)) then Err ErrClassInvalidDoc
          else match rs_rate res with
          | None => Ok (en_base e ++ rs_policies res, None)
          | Some None => Err ErrClassInvalidLimit
          | Some (Some w) => Ok (en_base e ++ rs_policies res, Some w)
          end
      end
  end.

Definition verdict (d : Decision) : PolicyVerdict :=
  let effect :=
    if (d_effect d =? Allow)%string then VerdictAllow
    else if (d_effect d =? Deny)%string then VerdictDeny
    else if (d_effect d =? Escalate)%string then VerdictEscalate
    else if negb (d_policy_id d =? "")%string || bool_decide (is_Some (d_taint d)) then VerdictDeny
    else VerdictNone in
  mkVerdict effect (d_policy_id d) (d_statement_id d) (d_reason d).

Definition agent_request (ag : Agent) (q : PolicyQuery) : Request :=
  mkRequest (q_action q) (q_resource q) (<["agent_id" := ag_id ag]> (<["client_id" := ag_client_id ag]> ∅))
    "" 0 (S754_zero false) "" "" false ∅.

(** The sorted ids without repetitions; [en_hash] stands for the digest of the documents. *)
Definition digest (e : Engine) (ps : list Policy) : list string * string :=
  (dedup (sort_strings (List.filter (fun i => negb (i =? "")%string) (map pol_id ps))), en_hash e ps).

(** [clock] is [time.Now()] for an evaluator without a clock of its own. *)
Definition Decide (e : Engine) (clock : Z) (ag : Agent) (queries : list PolicyQuery) : result string PolicyDecision :=
  match resolve e ag with
  | Err class => Err class
  | Ok (ps, limit) =>
      match ps with
      | [] => Ok (mkPolicyDecision false (en_deny_list e) limit [] "" [])
      | _ =>
          if negb (en_deny_list e) && negb (hasAllow ps) then Err ErrClassNoAllow
          else
            let '(ids, hash) := digest e ps in
            Ok (mkPolicyDecision true (en_deny_list e) limit ids hash
                  (map (fun q => verdict (Evaluate (en_eval e) clock (agent_request ag q) (map Some ps))) queries))
      end
  end.
End PolicyEngineOf.

(** ** The gate as its callers see it

    Callers rely on two laws only: a mint never gains a scope, and never loses them all. *)
Record MintGate := mkGate {
  mg_mint : Agent -> AgentMintRequest -> result gate_error AgentMintResult;
  mg_narrows : ∀ ag req res sc, mg_mint ag req = Ok res -> sc ∈ mo_scopes res -> sc ∈ mr_scopes req;
  mg_nonempty : ∀ ag req res, mg_mint ag req = Ok res -> mr_scopes req ≠ [] -> mo_scopes res ≠ [];
}.

(** ** What the gate lets through *)

Definition scope_permitted (req : AgentMintRequest) (denyList : bool) (sv : string * PolicyVerdict) : bool :=
  let '(v, dl) := ceiling_verdict req denyList sv.1 sv.2 in permits v dl.

Lemma mint_loop_ok req dl l acc acc' :
  mint_loop req dl l acc = Ok acc' ->
  ma_kept acc' = ma_kept acc ++ map fst (List.filter (scope_permitted req dl) l)
  ∧ (mr_explicit req = true -> forallb (scope_permitted req dl) l = true).
Proof.
  revert acc. induction l as [|[sc v] l IH]; intros acc; simpl.
  { intros [= <-]. by rewrite app_nil_r. }
  destruct (ceiling_verdict req dl sc v) as [v' dl'] eqn:Ec.
  assert (Hs : scope_permitted req dl (sc, v) = permits v' dl') by (unfold scope_permitted; simpl; by rewrite Ec).
  rewrite Hs. destruct (permits v' dl') eqn:Ep; simpl.
  - intros [Hk He]%IH. split; [|done]. rewrite Hk. simpl. by rewrite <- app_assoc.
  - destruct (mr_explicit req); [done|]. intros [Hk _]%IH. by split.
Qed.

Lemma zip_filter_fst {A B} (P : A * B -> bool) (l : list A) (k : list B) x :
  x ∈ map fst (List.filter P (zip l k)) -> ∃ y, (x, y) ∈ zip l k ∧ P (x, y) = true.
Proof.
  intros (p & <- & [Hin Hp]%filter_In)%list_elem_of_In%in_map_iff. apply list_elem_of_In in Hin.
  exists p.2. by destruct p.
Qed.

Section Verdicts.
Context `{GoLib}.

Lemma applyTaint_refused e req d : d_allowed d = false -> d_effect d ≠ Escalate -> applyTaint e req d = d.
Proof. intros Ha He%String.eqb_neq. unfold applyTaint. by rewrite Ha, He, orb_true_r. Qed.

Lemma applyTaint_escalate e req d :
  d_effect d = Escalate -> d_effect (applyTaint e req d) = Deny ∨ d_effect (applyTaint e req d) = Escalate.
Proof.
  intros He. unfold applyTaint. destruct (_ || _); [by right|]. destruct (EvaluateTaint e req) as [v|]; [|by right].
  destruct (tv_verdict v =? TaintClean)%string; [by right|].
  destruct (tv_verdict v =? TaintDeny)%string; [by left|]. unfold with_taint. simpl. rewrite He. by right.
Qed.

Lemma applyTaint_allow e req d :
  (d_effect d = Allow -> d_allowed d = true) ->
  d_effect (applyTaint e req d) = Allow -> d_allowed (applyTaint e req d) = true.
Proof.
  intros Hd. unfold applyTaint. destruct (_ || _); [done|]. destruct (EvaluateTaint e req) as [v|]; [|done].
  destruct (tv_verdict v =? TaintClean)%string; [done|]. destruct (tv_verdict v =? TaintDeny)%string; [done|].
  unfold with_taint. simpl. destruct (String.eqb_spec (d_effect d) Escalate) as [E|_]; [|done].
  simpl. by rewrite E.
Qed.

(** The effect of a decision, by the statements that match. *)
Lemma Evaluate_effect e clock req ps :
  let r := prepare e clock req in
  let d := Evaluate e clock req ps in
  (any_match r is_deny ps -> d_effect d = Deny)
  ∧ (any_match r is_escalate ps -> d_effect d = Deny ∨ d_effect d = Escalate)
  ∧ (d_effect d = Allow -> d_allowed d = true).
Proof.
  cbv zeta. unfold Evaluate. set (r := prepare e clock req). rewrite evaluate_spec. cbv zeta.
  destruct (first r is_deny (statements_of ps)) as [x|] eqn:Ed.
  { apply first_Some in Ed as (_ & _ & Hx%String.eqb_eq).
    assert (He : d_effect (on_located deny_decision x) = Deny) by done.
    rewrite applyTaint_refused; [|done|by rewrite He]. rewrite He. split_and!; [done|by left|done]. }
  apply first_None_any in Ed. destruct (first r is_escalate (statements_of ps)) as [x|] eqn:Ee.
  { apply first_Some in Ee as (_ & _ & Hx%String.eqb_eq).
    assert (He : d_effect (on_located escalate_decision x) = Escalate) by done.
    split; [done|]. split; [by intros _; apply applyTaint_escalate|].
    apply applyTaint_allow. by rewrite He. }
  apply first_None_any in Ee. split; [done|]. split; [done|]. apply applyTaint_allow.
  destruct (first r is_permit (statements_of ps)) as [x|] eqn:Ep; [|done].
  unfold applyRisk. by destruct (Classify e r).
Qed.

(** A verdict that lets the action through, with and without an allow statement behind it. *)
Lemma verdict_permits e clock req ps dl :
  permits (verdict (Evaluate e clock req ps)) dl = true ->
  ¬ any_match (prepare e clock req) is_deny ps ∧ ¬ any_match (prepare e clock req) is_escalate ps
  ∧ (dl = false -> d_allowed (Evaluate e clock req ps) = true).
Proof.
  pose proof (Evaluate_effect e clock req ps) as (Hd & He & Ha). simpl in Hd, He, Ha.
  unfold verdict, permits. cbn [v_effect].
  destruct (String.eqb_spec (d_effect (Evaluate e clock req ps)) Allow) as [E|E].
  { intros _. rewrite E in Hd, He. split_and!; [by intros ?%Hd|by intros [?|?]%He|by intros _; apply Ha]. }
  destruct (String.eqb_spec (d_effect (Evaluate e clock req ps)) Deny) as [E'|E']; [done|].
  destruct (String.eqb_spec (d_effect (Evaluate e clock req ps)) Escalate) as [E''|E'']; [done|].
  destruct (_ || _); [done|]. cbn. intros ->. split_and!; [by intros ?%Hd|by intros [?|?]%He|done].
Qed.
End Verdicts.

(** What the gate approves, for any engine: the scopes asked for when no policy applies, else those whose
    verdict permits them. *)
Lemma AuthorizeMint_ok {L} (take_unit : L -> Z -> string -> option Window -> L * option Z) eng lim lim' now ag req res :
  AuthorizeMint take_unit (Some eng) lim now ag req = (lim', Ok res) ->
  AgentExpired ag now = false ∧ ∃ dec, eng ag (map (fun sc => mkQuery sc (mr_resource req)) (mr_scopes req)) = Ok dec
  ∧ (pd_applies dec = false -> mo_scopes res = mr_scopes req)
  ∧ (pd_applies dec = true -> length (pd_verdicts dec) = length (mr_scopes req)
     ∧ mo_scopes res = map fst (List.filter (scope_permitted req (pd_deny_list dec)) (zip (mr_scopes req) (pd_verdicts dec)))
     ∧ (mr_explicit req = true ->
        forallb (scope_permitted req (pd_deny_list dec)) (zip (mr_scopes req) (pd_verdicts dec)) = true)).
Proof.
  unfold AuthorizeMint. destruct (AgentExpired ag now); [done|].
  destruct (eng ag _) as [dec|class]; [|done]. destruct (spend _ _ _ _ _) as [l [err|]]; [done|].
  intros Hres. split; [done|]. exists dec. split; [done|]. destruct (pd_applies dec); cbn [negb] in Hres.
  2: { injection Hres as _ <-. done. }
  split; [done|]. intros _. destruct (Nat.eqb_spec (length (pd_verdicts dec)) (length (mr_scopes req))) as [Hlen|]; [|done].
  cbn [negb] in Hres. split; [done|].
  destruct (mint_loop _ _ _ _) as [acc|err] eqn:El; [|done]. apply mint_loop_ok in El as [Hk Hx]. simpl in Hk.
  split; [|done]. rewrite <- Hk. destruct (ma_kept acc) as [|k ks]; [destruct (ma_first acc) as [[a v]|]; [done|]|];
    by injection Hres as _ <-.
Qed.

Lemma map_fst_zip {A B} (l : list A) (k : list B) : length k = length l -> map fst (zip l k) = l.
Proof.
  revert k. induction l as [|x l IH]; intros [|y k]; simpl; try done. intros [= ?]. by rewrite IH.
Qed.

Lemma filter_all {A} (f : A -> bool) l : forallb f l = true -> List.filter f l = l.
Proof. induction l as [|x l IH]; simpl; [done|]. intros [-> ?]%andb_prop. by rewrite IH. Qed.

(** What a client of the gate relies on: it never adds a scope, and keeps all of an explicit request. *)
Lemma AuthorizeMint_narrows {L} (take_unit : L -> Z -> string -> option Window -> L * option Z) eng lim lim' now ag req res :
  AuthorizeMint take_unit eng lim now ag req = (lim', Ok res) ->
  AgentExpired ag now = false ∧ (mr_explicit req = true -> mo_scopes res = mr_scopes req)
  ∧ ∀ sc, sc ∈ mo_scopes res -> sc ∈ mr_scopes req.
Proof.
  destruct eng as [eng|].
  - intros (He & dec & _ & Hno & Hyes)%AuthorizeMint_ok. split; [done|]. destruct (pd_applies dec).
    + destruct (Hyes eq_refl) as (Hlen & Hs & Hx). rewrite Hs. split.
      * intros Hex. rewrite filter_all by auto. by apply map_fst_zip.
      * intros sc (y & Hin & _)%zip_filter_fst. by apply elem_of_zip_l in Hin.
    + by rewrite Hno.
  - unfold AuthorizeMint. destruct (AgentExpired ag now); [done|]. destruct (spend _ _ _ _ _) as [l [err|]]; [done|].
    by intros [= _ <-].
Qed.

Lemma filter_sublist {A} (f : A -> bool) l : List.filter f l `sublist_of` l.
Proof. induction l as [|x l IH]; simpl; [constructor|]. destruct (f x); by constructor. Qed.

(** The granted scopes keep the order of the request, without repeats of their own. *)
Lemma AuthorizeMint_sublist {L} (take_unit : L -> Z -> string -> option Window -> L * option Z) eng lim lim' now ag req res :
  AuthorizeMint take_unit (Some eng) lim now ag req = (lim', Ok res) -> mo_scopes res `sublist_of` mr_scopes req.
Proof.
  intros (_ & dec & _ & Hno & Hyes)%AuthorizeMint_ok. destruct (pd_applies dec); [|by rewrite Hno].
  destruct (Hyes eq_refl) as (Hlen & -> & _). rewrite <- (map_fst_zip (mr_scopes req) (pd_verdicts dec)) at 2 by done.
  apply fmap_sublist, filter_sublist.
Qed.

Lemma mint_loop_first req dl l acc acc' :
  mint_loop req dl l acc = Ok acc' ->
  (ma_first acc ≠ None -> ma_first acc' ≠ None) ∧ (l ≠ [] -> ma_kept acc' = [] -> ma_first acc' ≠ None).
Proof.
  revert acc. induction l as [|[sc v] l IH]; intros acc; simpl; [by intros [= <-]|].
  destruct (ceiling_verdict req dl sc v) as [v' dl']. destruct (permits v' dl') eqn:Ep.
  - intros Hm. split; [by apply IH in Hm as [? _]|]. intros _ Hk. apply mint_loop_ok in Hm as [Hk' _].
    rewrite Hk in Hk'. simpl in Hk'. by destruct (ma_kept acc).
  - destruct (mr_explicit req); [done|]. intros [H1 _]%IH. simpl in H1.
    assert (Hf : (match ma_first acc with None => Some (sc, v') | Some f => Some f end) ≠ None) by (by destruct (ma_first acc)).
    split; intros; by apply H1.
Qed.

(** An approved mint of a non empty request carries a scope. *)
Lemma AuthorizeMint_nonempty {L} (take_unit : L -> Z -> string -> option Window -> L * option Z) eng lim lim' now ag req res :
  AuthorizeMint take_unit eng lim now ag req = (lim', Ok res) -> mr_scopes req ≠ [] -> mo_scopes res ≠ [].
Proof.
  unfold AuthorizeMint. destruct (AgentExpired ag now); [done|]. intros Hm Hne. revert Hm. destruct eng as [eng|].
  - destruct (eng ag _) as [dec|class]; [|done]. destruct (spend _ _ _ _ _) as [l [err|]]; [done|].
    destruct (pd_applies dec); cbn [negb]; [|by intros [= _ <-]].
    destruct (Nat.eqb_spec (length (pd_verdicts dec)) (length (mr_scopes req))) as [Hlen|]; [|done]. cbn [negb].
    destruct (mint_loop _ _ _ _) as [acc|err] eqn:El; [|done]. apply mint_loop_first in El as [_ Hf].
    destruct (ma_kept acc) as [|k ks]; [|by intros [= _ <-]].
    destruct (ma_first acc) as [[a v]|]; [done|]. exfalso. apply Hf; [|done|done].
    destruct (mr_scopes req), (pd_verdicts dec); done.
  - destruct (spend _ _ _ _ _) as [l [err|]]; [done|]. by intros [= _ <-].
Qed.

Lemma elem_of_zip_map {A B} (f : A -> B) l x y : (x, y) ∈ zip l (map f l) -> y = f x.
Proof. induction l as [|a l IH]; simpl; [set_solver|]. intros [[= -> ->]|?]%elem_of_cons; auto. Qed.

Lemma scope_permitted_ceiling req dl sc v :
  scope_permitted req dl (sc, v) = true ->
  (∀ c, mr_ceiling req = Some c -> sc ∈ c) ∧ permits v dl = true.
Proof.
  unfold scope_permitted, ceiling_verdict. simpl. destruct (mr_ceiling req) as [c|]; [|done].
  case_bool_decide as E; [|done]. intros Hp. split; [|done]. by intros ? [= <-].
Qed.

(** C15. What a gated mint may carry: when the gate with the policy engine approves a mint, the agent had
    not expired and its policies were resolved; the scopes are a sublist of those asked for, in the same
    order, all of them when they were asked for by name; and once any policy is attached, every scope is inside the
    ceiling, matches no deny and no escalate statement, and in allow list mode is allowed by the
    policies. *)
Theorem mint_gate_sound `{GoLib} {L} (take_unit : L -> Z -> string -> option Window -> L * option Z)
    eng clock lim lim' now ag req res :
  AuthorizeMint take_unit (Some (Decide eng clock)) lim now ag req = (lim', Ok res) ->
  AgentExpired ag now = false ∧ (mr_explicit req = true -> mo_scopes res = mr_scopes req)
  ∧ mo_scopes res `sublist_of` mr_scopes req
  ∧ ∃ ps w, resolve eng ag = Ok (ps, w) ∧ (ps ≠ [] -> ∀ sc, sc ∈ mo_scopes res ->
      let r := agent_request ag (mkQuery sc (mr_resource req)) in
      (∀ c, mr_ceiling req = Some c -> sc ∈ c)
      ∧ ¬ any_match (prepare (en_eval eng) clock r) is_deny (map Some ps)
      ∧ ¬ any_match (prepare (en_eval eng) clock r) is_escalate (map Some ps)
      ∧ (en_deny_list eng = false -> d_allowed (Evaluate (en_eval eng) clock r (map Some ps)) = true)).
Proof.
  intros Hm. destruct (AuthorizeMint_narrows _ _ _ _ _ _ _ _ Hm) as (He & Hx & _). pose proof (AuthorizeMint_sublist _ _ _ _ _ _ _ _ Hm) as Hsub.
  apply AuthorizeMint_ok in Hm as (_ & dec & Hd & _ & Hyes). split_and!; [done|done|done|].
  unfold Decide in Hd. destruct (resolve eng ag) as [[ps w]|class] eqn:Er; [|done]. exists ps, w. split; [done|].
  intros Hne sc Hsc. destruct ps as [|p ps]; [done|]. set (all := p :: ps) in *.
  destruct (negb (en_deny_list eng) && negb (hasAllow all)); [done|]. injection Hd as <-. cbn in Hyes.
  destruct (Hyes eq_refl) as (_ & Hs & _). rewrite Hs in Hsc. apply zip_filter_fst in Hsc as (v & Hin & Hp).
  rewrite map_map in Hin. apply elem_of_zip_map in Hin as ->. apply scope_permitted_ceiling in Hp as [Hc Hp].
  apply verdict_permits in Hp as (? & ? & ?). by split_and!.
Qed.

(** The gate at a state of its limiter and a time, behind its laws. *)
Definition gate_of {L} (take_unit : L -> Z -> string -> option Window -> L * option Z) (eng : option PolicyEngine)
    (lim : option L) (now : Z) : MintGate.
Proof.
  refine (mkGate (fun ag req => (AuthorizeMint take_unit eng lim now ag req).2) _ _).
  - intros ag req res sc. destruct (AuthorizeMint take_unit eng lim now ag req) as [l r] eqn:E. simpl. intros ->.
    apply AuthorizeMint_narrows in E as (_ & _ & Hsub). by apply Hsub.
  - intros ag req res. destruct (AuthorizeMint take_unit eng lim now ag req) as [l r] eqn:E. simpl. intros ->.
    by eapply AuthorizeMint_nonempty.
Defined.

(** A server without a gate mints what was asked for. *)
Definition no_gate : MintGate.
Proof.
  refine (mkGate (fun ag req => Ok (mkMintResult (mr_scopes req) [] [] "")) _ _).
  - by intros ag req res sc [= <-].
  - by intros ag req res [= <-].
Defined.

(** ** A gated mint *)

Definition demo_agent : Agent := mkAgent "a1" (Some "ann") None AgentStatusActive "client-a1" ["read"; "write"; "admin"] 0 None None.

Definition demo_engine : Engine :=
  mkEngine [mkPolicy "1" "p1" [mkStatement "s1" Allow ["read"; "write"] ["*"] [] "" "";
                               mkStatement "s2" Deny ["write"] ["*"] [] "" ""]] None false demo_evaluator (fun _ => "hash").

Definition demo_mint : AgentMintRequest := mkMintRequest "client_credentials" "api" ["read"; "write"; "admin"] false None.

Definition demo_take (l : Z) (now : Z) (key : string) (w : option Window) : Z * option Z :=
  if l <=? 0 then (l, Some 1) else (l - 1, None).

Lemma mint_gate_sound_witness :
  AuthorizeMint demo_take (Some (Decide demo_engine 1)) (Some 5) 1 demo_agent demo_mint
    = (Some 4, Ok (mkMintResult ["read"] ["write"; "admin"] ["p1"] "hash"))
  ∧ d_allowed (Evaluate demo_evaluator 1 (agent_request demo_agent (mkQuery "read" "api")) (map Some (en_base demo_engine))) = true.
Proof.
  assert (Hm : AuthorizeMint demo_take (Some (Decide demo_engine 1)) (Some 5) 1 demo_agent demo_mint
    = (Some 4, Ok (mkMintResult ["read"] ["write"; "admin"] ["p1"] "hash"))) by (vm_compute; reflexivity).
  split; [exact Hm|].
  destruct (mint_gate_sound demo_take demo_engine 1 (Some 5) (Some 4) 1 demo_agent demo_mint _ Hm)
    as (_ & _ & _ & ps & w & Hr & Hall).
  injection Hr as <- _. destruct (Hall ltac:(done) "read" ltac:(simpl; set_solver)) as (_ & _ & _ & Ha). by apply Ha.
Defined.
