(* ===== verification/Delegation.v ===== *)
(** * Delegation and token exchange ([internal/chain], [internal/delegation], [internal/as/token_v34.go],
      [agent_expiry.go], [compat.go], [storage/memory/memory_v20.go])

    A user grants an agent a scope on a resource; the agent exchanges a token of the user for one of
    its own, that names the agent as actor; further agents may exchange that token in turn. The gate
    that vets a mint is used through its laws ([MintGate]). Verification of a token, signing with the
    hook before it, DPoP proofs, ULID syntax and [url.Parse] are parameters. *)

From Stdlib Require Import ZArith Lia String Ascii.
From stdpp Require Import base gmap strings list.
From S2P Require Import Prelude Canonical PolicyDoc DeviceAuth TokenGrants AgentGate.

Set Default Goal Selector "!".
Open Scope string_scope.
Open Scope list_scope.
Open Scope Z_scope.

(** ** Actor chains ([chain.go]) *)

Inductive Actor := mkActor (a_sub : string) (a_act : option Actor).

Definition actor_sub (a : Actor) : string := match a with mkActor s _ => s end.
Definition actor_act (a : Actor) : option Actor := match a with mkActor _ n => n end.

(** The links, innermost first. *)
Fixpoint actor_links (a : Actor) : list string :=
  match a with mkActor s n => s :: match n with Some b => actor_links b | None => [] end end.

Definition links (act : option Actor) : list string := match act with Some a => actor_links a | None => [] end.

Fixpoint depth_loop (a : Actor) (depth : Z) : Z :=
  match a with mkActor _ n => match n with Some b => depth_loop b (depth + 1) | None => depth + 1 end end.

Definition Depth (act : option Actor) : Z := match act with Some a => depth_loop a 1 | None => 1 end.

Definition Prepend (newActorSub : string) (existing : option Actor) : Actor := mkActor newActorSub existing.

Definition ScopeSubset (sub sup : list string) : bool := forallb (fun s => bool_decide (s ∈ sup)) sub.

Definition ScopeIntersect (a b : list string) : list string := List.filter (fun s => bool_decide (s ∈ b)) a.

Definition TightenDuration (candidates : list Z) : Z :=
  fold_left (fun out c => if IsZero c then out else if IsZero out || Before c out then c else out) candidates 0.

(** *** The [act] claim ([token_v34.go]) *)

Fixpoint actorFromAny (raw : json) : option Actor :=
  match raw with
  | JObject m =>
      let sub := match List.find (fun kv => (fst kv =? "sub")%string) m with Some (_, JString s) => s | _ => "" end in
      if (sub =? "")%string then None
      else Some (mkActor sub
        ((fix act (m : list (string * json)) :=
            match m with
            | [] => None
            | (k, v) :: m' => if (k =? "act")%string then actorFromAny v else act m'
            end) m))
  | _ => None
  end.

Fixpoint actorClaimToMap (a : Actor) : json :=
  match a with
  | mkActor s None => JObject [("sub", JString s)]
  | mkActor s (Some b) => JObject [("sub", JString s); ("act", actorClaimToMap b)]
  end.

(** ** Scopes ([service.go]) *)

(** [unicode.IsSpace] *)
Definition IsSpace (r : Z) : bool :=
  in_range 9 13 r || (r =? 32) || (r =? 133) || (r =? 160) || (r =? 5760) || in_range 8192 8202 r
  || (r =? 8232) || (r =? 8233) || (r =? 8239) || (r =? 8287) || (r =? 12288).

Definition flush (cur : list ascii) (rest : list (list ascii)) : list (list ascii) :=
  match cur with [] => rest | _ => cur :: rest end.

Fixpoint fields_fuel (fuel : nat) (cur l : list ascii) : list (list ascii) :=
  match fuel, l with
  | S fuel', c :: l' =>
      let '(r, l'') := decode_rune c l' in
      if IsSpace r then flush cur (fields_fuel fuel' [] l'')
      else fields_fuel fuel' (cur ++ firstn (S (length l') - length l'') (c :: l')) l''
  | _, _ => flush cur []
  end.

(** [strings.Fields] *)
Definition Fields (s : string) : list string :=
  let l := list_ascii_of_string s in map string_of_list_ascii (fields_fuel (length l) [] l).

Definition scopeSplit (s : string) : list string := dedup (Fields s).

Definition scopeJoin (scope : list string) : string := String.concat " " scope.

(** ** Delegation grants ([models_v20.go], [memory_v20.go]) *)

Record DelegationGrant := mkDelegation {
  dg_id : string; dg_user : string; dg_agent : string; dg_org : option string; dg_scope : list string;
  dg_resource : string; dg_max_seconds : Z; dg_created_at : Z; dg_expires_at : option Z;
  dg_revoked_at : option Z; dg_note : string;
}.

Definition zero_grant : DelegationGrant := mkDelegation "" "" "" None [] "" 0 0 None None "".
Definition zero_agent : Agent := mkAgent "" None None "" "" [] 0 None None.

Definition set_revoked_grant (g : DelegationGrant) (at_ : Z) (reason : string) : DelegationGrant :=
  mkDelegation (dg_id g) (dg_user g) (dg_agent g) (dg_org g) (dg_scope g) (dg_resource g) (dg_max_seconds g)
    (dg_created_at g) (dg_expires_at g) (Some at_) reason.

Definition tuple_of (g : DelegationGrant) : string * string * string := (dg_user g, dg_agent g, dg_resource g).

Record DelegationStore := mkDelegations {
  ds_agents : gmap string Agent;
  ds_by_client : gmap string string;
  ds_grants : gmap string DelegationGrant;
  ds_by_tuple : gmap (string * string * string) string;
}.

Definition with_grants (s : DelegationStore) (gs : gmap string DelegationGrant)
    (ts : gmap (string * string * string) string) : DelegationStore :=
  mkDelegations (ds_agents s) (ds_by_client s) gs ts.

(** [None] is [ErrNotFound]: the tuple already has a grant that is not revoked. *)
Definition InsertDelegationGrant (s : DelegationStore) (g : DelegationGrant) : option DelegationStore :=
  let insert := Some (with_grants s (<[dg_id g := g]> (ds_grants s)) (<[tuple_of g := dg_id g]> (ds_by_tuple s))) in
  match ds_by_tuple s !! tuple_of g with
  | Some id =>
      match dg_revoked_at (default zero_grant (ds_grants s !! id)) with
      | None => None
      | Some _ => insert
      end
  | None => insert
  end.

Definition DelegationGrantByUserAgentResource (s : DelegationStore) (user agent resource : string)
  : option DelegationGrant :=
  (fun id => default zero_grant (ds_grants s !! id)) <$> ds_by_tuple s !! (user, agent, resource).

Definition RevokeDelegationGrant (s : DelegationStore) (id : string) (at_ : Z) (reason : string) : option DelegationStore :=
  match ds_grants s !! id with
  | Some g =>
      match dg_revoked_at g with
      | Some _ => None
      | None => Some (with_grants s (<[id := set_revoked_grant g at_ reason]> (ds_grants s)) (ds_by_tuple s))
      end
  | None => None
  end.

Definition AgentByClientID (s : DelegationStore) (clientID : string) : option Agent :=
  (fun id => default zero_agent (ds_agents s !! id)) <$> ds_by_client s !! clientID.

Definition UpdateAgentLastActive (s : DelegationStore) (id : string) (at_ : Z) : DelegationStore :=
  match ds_agents s !! id with
  | Some a =>
      mkDelegations (<[id := mkAgent (ag_id a) (ag_owner a) (ag_org a) (ag_status a) (ag_client_id a) (ag_scope a)
                               (ag_created_at a) (Some at_) (ag_expires_at a)]> (ds_agents s))
        (ds_by_client s) (ds_grants s) (ds_by_tuple s)
  | None => s
  end.

(** What [deleteUserDependents] of [memory_lifecycle.go] does to grants and agents: the index by tuple
    stays. *)
Definition deleteUserDelegations (s : DelegationStore) (userID : string) : DelegationStore :=
  let gone := filter (fun ia => ag_owner ia.2 = Some userID) (ds_agents s) in
  mkDelegations (filter (fun ia => ag_owner ia.2 ≠ Some userID) (ds_agents s))
    (filter (fun ci => ci.1 ∉ map (fun ia => ag_client_id ia.2) (map_to_list gone)) (ds_by_client s))
    (filter (fun ig => dg_user ig.2 ≠ userID) (ds_grants s)) (ds_by_tuple s).

(** ** The delegation service ([delegation/service.go]) *)

Definition Active (g : DelegationGrant) (now : Z) : bool :=
  match dg_revoked_at g with
  | Some _ => false
  | None => match dg_expires_at g with Some e => Before now e | None => true end
  end.

Definition NarrowScope (requested subjectScope grantScope : list string) : option (list string) :=
  match requested with
  | [] => Some (ScopeIntersect (match subjectScope with [] => grantScope | _ => subjectScope end) grantScope)
  | _ => if negb (ScopeSubset requested subjectScope) then None
         else if negb (ScopeSubset requested grantScope) then None
         else Some requested
  end.

Inductive delegation_error :=
  | ErrOAuthInvalidResource | ErrInvalidScope | ErrMaxDuration | ErrDurationCap (max : Z) | ErrAgentNotFound
  | ErrAgentInactive | ErrExpiredAgent | ErrPersist | ErrDelegationNotFound | ErrRevoke.

Record GrantDelegationInput := mkGrantInput {
  gi_user : string; gi_agent : string; gi_org : option string; gi_scope : list string; gi_resource : string;
  gi_max_seconds : Z; gi_expires_at : option Z;
}.

(** [maxDuration] is [MaxDelegationDuration], [id] the new ULID. *)
Definition GrantDelegation (resources : list ProtectedResource) (maxDuration : Z) (s : DelegationStore) (now : Z)
    (id : string) (i : GrantDelegationInput) : DelegationStore * result delegation_error DelegationGrant :=
  if (gi_resource i =? "")%string then (s, Err ErrOAuthInvalidResource)
  else match ResourceByIdentifier resources (gi_resource i) with
  | None => (s, Err ErrOAuthInvalidResource)
  | Some resource =>
      match gi_scope i with
      | [] => (s, Err ErrInvalidScope)
      | _ =>
          if negb (is_ok (validateScopeAgainstResource (gi_scope i) resource)) then (s, Err ErrInvalidScope)
          else if gi_max_seconds i <=? 0 then (s, Err ErrMaxDuration)
          else
            let maxSeconds := Z.quot maxDuration Second in
            if maxSeconds <? gi_max_seconds i then (s, Err (ErrDurationCap maxSeconds))
            else match ds_agents s !! gi_agent i with
            | None => (s, Err ErrAgentNotFound)
            | Some ag =>
                if negb (ag_status ag =? AgentStatusActive)%string then (s, Err ErrAgentInactive)
                else if AgentExpired ag now then (s, Err ErrExpiredAgent)
                else
                  let g := mkDelegation id (gi_user i) (gi_agent i) (gi_org i) (gi_scope i) (gi_resource i)
                             (gi_max_seconds i) now (gi_expires_at i) None "" in
                  match InsertDelegationGrant s g with
                  | None => (s, Err ErrPersist)
                  | Some s' => (s', Ok g)
                  end
            end
      end
  end.

(** Idempotent; a lost race counts as success. *)
Definition RevokeDelegation (s : DelegationStore) (grantID : string) (now : Z) (reason : string)
  : DelegationStore * option delegation_error :=
  match ds_grants s !! grantID with
  | None => (s, Some ErrDelegationNotFound)
  | Some cur =>
      match dg_revoked_at cur with
      | Some _ => (s, None)
      | None =>
          match RevokeDelegationGrant s grantID now reason with
          | Some s' => (s', None)
          | None => (s, Some ErrRevoke)
          end
      end
  end.

(** ** Resources ([compat.go]) *)

Definition contains_sub (needle : list ascii) (s : list ascii) : bool :=
  existsb (fun n => bool_decide (firstn (length needle) (skipn n s) = needle)) (List.seq 0 (S (length s))).

(** [strings.ToLower], as far as the ASCII needles below can tell. *)
Definition lower_byte (c : ascii) : ascii := if in_range 65 90 (byte_val c) then byte_of (byte_val c + 32) else c.

Fixpoint split_slash (cur l : list ascii) : list (list ascii) :=
  match l with
  | [] => [cur]
  | c :: l' => if Ascii.eqb c "/" then cur :: split_slash [] l' else split_slash (cur ++ [c]) l'
  end.

(** [url.Parse]: whether the URL names a user, and its decoded path; [None] for a malformed one. *)
Class ExchangeLib := {
  url_parse : string -> option (bool * string);
  parse_ulid : string -> option string;
}.

Section Exchange.
Context `{ExchangeLib}.

Definition isPathChild (configured requested : string) : bool :=
  let base := TrimRightSlash configured in
  if (base =? "")%string || negb (String.prefix (base +:+ "/") requested) then false
  else
    let bytes := list_ascii_of_string requested in
    if existsb (fun c => bool_decide (c ∈ ["?"%char; "#"%char; backslash])) bytes then false
    else
      let lower := map lower_byte bytes in
      if existsb (fun n => contains_sub (list_ascii_of_string n) lower) ["%2e"; "%2f"; "%5c"] then false
      else match url_parse requested with
      | None => false
      | Some (user, path) =>
          negb user && forallb (fun seg => negb (bool_decide (seg = ["."%char])) && negb (bool_decide (seg = ["."%char; "."%char])))
                         (split_slash [] (list_ascii_of_string path))
      end.

Record ExchangeConfig := mkExchangeConfig {
  xc_issuer : string; xc_access_ttl : Z; xc_delegated_ttl : Z; xc_max_depth : Z;
  xc_resources : list ProtectedResource; xc_optional_resource : bool; xc_path_audience : bool;
}.

(** The longest configured identifier the request is below, the first of its length. *)
Definition best_child (resources : list ProtectedResource) (raw : string) : option ProtectedResource :=
  fold_left (fun best r =>
    if negb (isPathChild (pr_identifier r) raw) then best
    else match best with
    | Some b => if (String.length (pr_identifier b) <? String.length (pr_identifier r))%nat then Some r else best
    | None => Some r
    end) resources None.

Definition resolveResource (cfg : ExchangeConfig) (raw : string) : option (ProtectedResource * string) :=
  if (raw =? "")%string then
    match xc_optional_resource cfg, xc_resources cfg with
    | true, [r] => Some (r, pr_identifier r)
    | _, _ => None
    end
  else match ResourceByIdentifier (xc_resources cfg) raw with
  | Some r => Some (r, raw)
  | None =>
      if xc_path_audience cfg then (fun r => (r, pr_identifier r)) <$> best_child (xc_resources cfg) raw else None
  end.

(** ** Token exchange ([token_v34.go], [agent_expiry.go]) *)

Inductive exchange_error :=
  | XUnsupportedGrantType | XInvalidClient | XInvalidRequest | XAgentInactive | XAgentExpired
  | XSubjectTokenInvalid | XActorTokenInvalid | XDPoP | XInvalidResource | XChainDepthExceeded
  | XDelegationNotFound | XDelegationRevoked | XInvalidScope | XGate (e : gate_error) | XInvalidGrant | XIssue.

Definition agentLiveErr (ag : option Agent) (now : Z) : option exchange_error :=
  match ag with
  | None => Some XAgentInactive
  | Some a =>
      if negb (ag_status a =? AgentStatusActive)%string then Some XAgentInactive
      else if AgentExpired a now then Some XAgentExpired
      else None
  end.

Definition agentExpiryBound (ag : Agent) : Z := default 0 (ag_expires_at ag).

Definition capExpiry (exp : Z) (bounds : list Z) : Z := TightenDuration (exp :: bounds).

(** The claims of an access token as this server reads and writes them; [x_act] is the [act] claim. *)
Record AccessClaims := mkAccessClaims {
  x_iss : string; x_sub : string; x_aud : string; x_exp : Z; x_iat : Z; x_jti : string;
  x_client_id : string; x_scope : string; x_act : option json; x_jkt : string; x_grant_id : string;
}.

Definition actorFromClaims (c : AccessClaims) : option Actor := x_act c ≫= actorFromAny.

(** [None] is an error of the lookup, [Some None] no agent. *)
Definition AgentBySubjectClaim (s : DelegationStore) (sub : string) : option (option Agent) :=
  if negb (String.prefix AgentSubjectPrefix sub) then Some None
  else match parse_ulid (String.substring 6 (String.length sub - 6) sub) with
  | None => None
  | Some id => Some <$> ds_agents s !! id
  end.

(** The walk over the chain: every actor is a live agent; the earliest expiry among them. *)
Fixpoint walk_chain (s : DelegationStore) (now : Z) (subs : list string) (chainExp : Z) : result exchange_error Z :=
  match subs with
  | [] => Ok chainExp
  | sub :: subs' =>
      match AgentBySubjectClaim s sub with
      | None | Some None => Err XSubjectTokenInvalid
      | Some (Some ag) =>
          match agentLiveErr (Some ag) now with
          | Some err => Err err
          | None => walk_chain s now subs' (capExpiry chainExp [agentExpiryBound ag])
          end
      end
  end.

Definition resolveSubjectPrincipal (s : DelegationStore) (c : AccessClaims) (now : Z)
  : result exchange_error (string * option Actor * Z) :=
  if (x_sub c =? "")%string then Err XSubjectTokenInvalid
  else if String.prefix AgentSubjectPrefix (x_sub c) then Err XSubjectTokenInvalid
  else match parse_ulid (x_sub c) with
  | None => Err XSubjectTokenInvalid
  | Some root =>
      let existing := actorFromClaims c in
      match walk_chain s now (links existing) 0 with
      | Err err => Err err
      | Ok chainExp => Ok (root, existing, chainExp)
      end
  end.

Definition TokenTypeAccessToken : string := "urn:ietf:params:oauth:token-type:access_token".

Record TokenExchangeRequest := mkExchangeRequest {
  xr_subject_token : string; xr_subject_type : string; xr_actor_token : string; xr_actor_type : string;
  xr_resource : string; xr_audience : string; xr_scope : list string;
}.

(** What a request draws from outside: the authenticated client, the wall clock and the configured
    clock, verification of an access token, the denylist, the thumbprint of the DPoP proof ([None] for
    a bad proof, [""] without one), the new id, and the hook with the signer. *)
Record ExchangeEnv := mkExchangeEnv {
  xe_client : option string; xe_now : Z; xe_clock : Z; xe_verify : string -> option AccessClaims;
  xe_denied : string -> bool; xe_proof : option string; xe_jti : string; xe_issue : AccessClaims -> option string;
}.

(** The answer, with the claims that go to [xe_issue], the root principal and the acting agent. [xe_issue] runs the
    host's [OnTokenIssued] hook first ([token_hooks.go]), which may add members of its own: the registered claims win
    over them when the token is encoded, but a hook that answers an act, cnf or delegation member replaces that one. *)
Record ExchangeResult := mkExchangeResult {
  xo_access : string; xo_type : string; xo_expires_in : Z; xo_scope : list string;
  xo_claims : AccessClaims; xo_root : string; xo_agent : string;
}.

(** Step 4: an actor token must name the requesting agent. *)
Definition actor_token_ok (e : ExchangeEnv) (req : TokenExchangeRequest) (agent : Agent) : option exchange_error :=
  if (xr_actor_token req =? "")%string then None
  else if negb (xr_actor_type req =? "")%string && negb (xr_actor_type req =? TokenTypeAccessToken)%string
  then Some XInvalidRequest
  else match xe_verify e (xr_actor_token req) with
  | None => Some XActorTokenInvalid
  | Some c => if (x_sub c =? AgentSubjectPrefix +:+ ag_id agent)%string then None else Some XActorTokenInvalid
  end.

(** Steps 2 to 4: the subject token, its proof of possession and the actor token. *)
Definition subject_checks (cfg : ExchangeConfig) (e : ExchangeEnv) (req : TokenExchangeRequest) (agent : Agent)
  : result exchange_error (AccessClaims * string) :=
  if (xr_subject_token req =? "")%string then Err XInvalidRequest
  else if negb (xr_subject_type req =? "")%string && negb (xr_subject_type req =? TokenTypeAccessToken)%string
  then Err XInvalidRequest
  else match xe_verify e (xr_subject_token req) with
  | None => Err XSubjectTokenInvalid
  | Some c =>
      if negb (x_iss c =? xc_issuer cfg)%string then Err XSubjectTokenInvalid
      else if xe_denied e (x_jti c) then Err XSubjectTokenInvalid
      else match xe_proof e with
      | None => Err XDPoP
      | Some proof =>
          if negb (x_jkt c =? "")%string && ((proof =? "")%string || negb (jktEqual proof (x_jkt c))) then Err XDPoP
          else match actor_token_ok e req agent with
          | Some err => Err err
          | None => Ok (c, proof)
          end
      end
  end.

(** Step 5: the resource is the audience of the subject token, and a requested audience is known. *)
Definition resource_checks (cfg : ExchangeConfig) (req : TokenExchangeRequest) (c : AccessClaims)
  : result exchange_error string :=
  let resourceID := if (xr_resource req =? "")%string then x_aud c else xr_resource req in
  if (resourceID =? "")%string || (x_aud c =? "")%string then Err XInvalidResource
  else match resolveResource cfg resourceID with
  | None => Err XInvalidResource
  | Some (_, aud) =>
      if negb (aud =? x_aud c)%string then Err XInvalidResource
      else if negb (xr_audience req =? "")%string && bool_decide (resolveResource cfg (xr_audience req) = None)
      then Err XInvalidResource
      else Ok aud
  end.

(** Steps 6 to 11, once the subject token is accepted. *)
Definition exchange_mint (gate : MintGate) (cfg : ExchangeConfig) (e : ExchangeEnv) (s : DelegationStore)
    (req : TokenExchangeRequest) (client : string) (agent : Agent) (c : AccessClaims) (proof aud : string)
  : result exchange_error ExchangeResult :=
  match resolveSubjectPrincipal s c (xe_clock e) with
  | Err err => Err err
  | Ok (root, existing, chainExp) =>
      if xc_max_depth cfg <? Depth existing + 1 then Err XChainDepthExceeded
      else match DelegationGrantByUserAgentResource s root (ag_id agent) aud with
      | None => Err XDelegationNotFound
      | Some grant =>
          if negb (Active grant (xe_now e)) then Err XDelegationRevoked
          else match NarrowScope (xr_scope req) (scopeSplit (x_scope c)) (dg_scope grant) with
          | None | Some [] => Err XInvalidScope
          | Some final =>
              match mg_mint gate agent (mkMintRequest "token_exchange" aud final
                      (negb (bool_decide (xr_scope req = []))) None) with
              | Err err => Err (XGate err)
              | Ok gated =>
                  let final := mo_scopes gated in
                  let policyExp := TightenDuration
                    [FromUnix (x_exp c); xe_now e + xc_delegated_ttl cfg;
                     xe_now e + wrap64 (dg_max_seconds grant * Second); xe_now e + xc_access_ttl cfg;
                     agentExpiryBound agent; chainExp] in
                  if policyExp <=? xe_now e then Err XInvalidGrant
                  else
                    let actor := Prepend (AgentSubjectPrefix +:+ ag_id agent) (actorFromClaims c) in
                    let claims := mkAccessClaims (xc_issuer cfg) (x_sub c) aud (Unix policyExp) (Unix (xe_now e))
                      (xe_jti e) client (scopeJoin final) (Some (actorClaimToMap actor)) proof (dg_id grant) in
                    match xe_issue e claims with
                    | None => Err XIssue
                    | Some access =>
                        Ok (mkExchangeResult access (if (proof =? "")%string then "Bearer" else "DPoP")
                              (Z.quot (Sub policyExp (xe_now e)) Second) final claims root (ag_id agent))
                    end
              end
          end
      end
  end.

Definition ExchangeToken (gate : MintGate) (cfg : ExchangeConfig) (e : ExchangeEnv) (s : DelegationStore)
    (req : TokenExchangeRequest) : DelegationStore * result exchange_error ExchangeResult :=
  match xe_client e with
  | None => (s, Err XInvalidClient)
  | Some client =>
      match AgentByClientID s client with
      | None => (s, Err XInvalidClient)
      | Some agent =>
          match agentLiveErr (Some agent) (xe_clock e) with
          | Some err => (s, Err err)
          | None =>
              match subject_checks cfg e req agent with
              | Err err => (s, Err err)
              | Ok (c, proof) =>
                  match resource_checks cfg req c with
                  | Err err => (s, Err err)
                  | Ok aud =>
                      match exchange_mint gate cfg e s req client agent c proof aud with
                      | Err err => (s, Err err)
                      | Ok out => (UpdateAgentLastActive s (ag_id agent) (xe_now e), Ok out)
                      end
                  end
              end
          end
      end
  end.

(** *** The agent's own token *)

(** [clientScope] is the client's registered scope string. *)
Definition ClientCredentialsToken (gate : MintGate) (cfg : ExchangeConfig) (e : ExchangeEnv) (s : DelegationStore)
    (clientScope resource : string) (scope : list string) : DelegationStore * result exchange_error ExchangeResult :=
  match xe_client e with
  | None => (s, Err XInvalidClient)
  | Some client =>
      match AgentByClientID s client with
      | None => (s, Err XInvalidClient)
      | Some agent =>
          match agentLiveErr (Some agent) (xe_clock e) with
          | Some err => (s, Err err)
          | None =>
              match resolveResource cfg resource with
              | None => (s, Err XInvalidResource)
              | Some (r, aud) =>
                  let registered := match scopeSplit clientScope with [] => ag_scope agent | l => l end in
                  let available := ScopeIntersect registered (pr_scopes r) in
                  let requested := match scope with [] => available | _ => scope end in
                  if negb (bool_decide (scope = [])) && negb (ScopeSubset scope available) then (s, Err XInvalidScope)
                  else if bool_decide (requested = []) then (s, Err XInvalidScope)
                  else match mg_mint gate agent (mkMintRequest "client_credentials" aud requested
                               (negb (bool_decide (scope = []))) None) with
                  | Err err => (s, Err (XGate err))
                  | Ok gated =>
                      let final := mo_scopes gated in
                      let exp := capExpiry (xe_now e + xc_access_ttl cfg) [agentExpiryBound agent] in
                      let claims := mkAccessClaims (xc_issuer cfg) (AgentSubjectPrefix +:+ ag_id agent) aud (Unix exp)
                        (Unix (xe_now e)) (xe_jti e) client (scopeJoin final) None "" "" in
                      match xe_issue e claims with
                      | None => (s, Err XIssue)
                      | Some access =>
                          (UpdateAgentLastActive s (ag_id agent) (xe_now e),
                           Ok (mkExchangeResult access "Bearer" (Z.quot (Sub exp (xe_now e)) Second) final claims
                                 (AgentSubjectPrefix +:+ ag_id agent) (ag_id agent)))
                      end
                  end
              end
          end
      end
  end.
End Exchange.

(** ** Chains *)

Lemma depth_loop_links a d : depth_loop a d = d + Z.of_nat (length (actor_links a)).
Proof. revert a d. fix IH 1. intros [s [b|]] d; simpl; [rewrite IH|]; lia. Qed.

Lemma Depth_links act : Depth act = 1 + Z.of_nat (length (links act)).
Proof. destruct act; simpl; [apply depth_loop_links|done]. Qed.

(** The [act] claim survives the trip through a token. *)
Lemma actor_roundtrip a : Forall (fun s => s ≠ "") (actor_links a) -> actorFromAny (actorClaimToMap a) = Some a.
Proof.
  revert a. fix IH 1. intros [s [b|]] Ha; cbn [actor_links] in Ha; apply Forall_cons in Ha as [Hs%String.eqb_neq Hb];
    simpl; rewrite Hs; [|done]. by rewrite IH.
Qed.

Lemma TightenDuration_le l c : c ∈ l -> c ≠ 0 -> TightenDuration l <= c.
Proof.
  unfold TightenDuration. set (f := fun out c => _).
  assert (Hgen : ∀ l out, (out ≠ 0 -> fold_left f l out ≠ 0 ∧ fold_left f l out <= out)
    ∧ (∀ c, c ∈ l -> c ≠ 0 -> fold_left f l out <= c)).
  { clear l c. induction l as [|x l IH]; intros out; simpl; [split; [done|set_solver]|].
    destruct (IH (f out x)) as [H1 H2].
    assert (Hf : (out ≠ 0 -> f out x ≠ 0 ∧ f out x <= out) ∧ (x ≠ 0 -> f out x ≠ 0 ∧ f out x <= x)).
    { unfold f, IsZero, Before. destruct (Z.eqb_spec x 0), (Z.eqb_spec out 0), (Z.ltb_spec x out); simpl; lia. }
    split.
    - intros Ho. destruct (proj1 Hf Ho) as [Hn Hle]. destruct (H1 Hn). lia.
    - intros c [->|Hc]%elem_of_cons Hc0; [|by apply H2]. destruct (proj2 Hf Hc0) as [Hn Hle]. destruct (H1 Hn). lia. }
  intros Hc Hc0. by apply Hgen.
Qed.

Lemma Unix_le t n : t <= FromUnix n -> Unix t <= n.
Proof. unfold Unix, FromUnix. intros Ht. apply Z.div_le_upper_bound; [done|]. lia. Qed.

Lemma FromUnix_nonzero n : 0 < n -> FromUnix n ≠ 0.
Proof. unfold FromUnix, unix_epoch, Second. lia. Qed.

Lemma ScopeSubset_spec a b : ScopeSubset a b = true -> ∀ x, x ∈ a -> x ∈ b.
Proof.
  unfold ScopeSubset. rewrite forallb_forall. intros Hall x Hx%list_elem_of_In.
  specialize (Hall x Hx). by apply bool_decide_eq_true in Hall.
Qed.

Lemma elem_of_ScopeIntersect a b x : x ∈ ScopeIntersect a b -> x ∈ a ∧ x ∈ b.
Proof. unfold ScopeIntersect. rewrite list_elem_of_In, filter_In. intros [?%list_elem_of_In ?%bool_decide_eq_true]. done. Qed.

(** Narrowing stays inside the grant, and inside the subject token unless that has no scope at all. *)
Lemma NarrowScope_sub requested subject grant final :
  NarrowScope requested subject grant = Some final ->
  ∀ x, x ∈ final -> x ∈ grant ∧ (subject ≠ [] -> x ∈ subject).
Proof.
  unfold NarrowScope. destruct requested as [|r rs].
  - intros [= <-] x Hx%elem_of_ScopeIntersect. destruct Hx as [Hx Hg]. split; [done|]. by destruct subject.
  - destruct (ScopeSubset (r :: rs) subject) eqn:E1; [|done]. destruct (ScopeSubset (r :: rs) grant) eqn:E2; [|done].
    intros [= <-] x Hx. split; [by eapply ScopeSubset_spec|]. intros _. by eapply ScopeSubset_spec.
Qed.

(** *** Scope strings *)

(** RFC 6749 scope tokens: printable ASCII without spaces. *)
Definition plain_char (c : ascii) : bool := in_range 33 126 (byte_val c).

Definition plain_scope (s : string) : Prop := s ≠ "" ∧ forallb plain_char (list_ascii_of_string s) = true.

Lemma plain_decode c l : plain_char c = true -> decode_rune c l = (byte_val c, l) ∧ IsSpace (byte_val c) = false.
Proof.
  unfold plain_char, in_range. intros [H1%Z.leb_le H2%Z.leb_le]%andb_prop. split.
  - unfold decode_rune. by rewrite (proj2 (Z.ltb_lt _ 128)) by lia.
  - unfold IsSpace, in_range. repeat (rewrite (proj2 (Z.eqb_neq _ _)) by lia).
    rewrite (proj2 (Z.leb_gt (byte_val c) 13)) by lia. rewrite (proj2 (Z.leb_gt 8192 (byte_val c))) by lia.
    by rewrite andb_false_r.
Qed.

Lemma fields_word w : ∀ rest cur fuel, (length (w ++ rest) <= fuel)%nat -> forallb plain_char w = true ->
  ∃ fuel', (length rest <= fuel')%nat ∧ fields_fuel fuel cur (w ++ rest) = fields_fuel fuel' (cur ++ w) rest.
Proof.
  induction w as [|c w IH]; intros rest cur fuel Hf Hp; simpl in *.
  - exists fuel. by rewrite app_nil_r.
  - apply andb_prop in Hp as [Hc Hw]. destruct fuel as [|fuel]; [lia|].
    destruct (plain_decode c (w ++ rest) Hc) as [Hd Hs]. cbn [fields_fuel]. rewrite Hd, Hs.
    destruct (IH rest (cur ++ [c]) fuel) as (fuel' & ? & He); [lia|done|]. exists fuel'. split; [done|].
    assert (Ht : firstn (S (length (w ++ rest)) - length (w ++ rest)) (c :: w ++ rest) = [c])
      by (by replace (S (length (w ++ rest)) - length (w ++ rest))%nat with 1%nat by lia).
    rewrite Ht, He. by rewrite <- app_assoc.
Qed.

Lemma concat_cons2 a b l : String.concat " " (a :: b :: l) = (a +:+ " " +:+ String.concat " " (b :: l))%string.
Proof. done. Qed.

Lemma fields_join l fuel :
  Forall (fun w => w ≠ [] ∧ forallb plain_char w = true) l ->
  (length (list_ascii_of_string (scopeJoin (map string_of_list_ascii l))) <= fuel)%nat ->
  fields_fuel fuel [] (list_ascii_of_string (scopeJoin (map string_of_list_ascii l))) = l.
Proof.
  unfold scopeJoin. intros Hl. revert fuel. induction Hl as [|w l [Hne Hw] Hl IH]; intros fuel Hf; [by destruct fuel|].
  destruct l as [|v l].
  - simpl in *. rewrite list_ascii_of_string_of_list_ascii in *.
    destruct (fields_word w [] [] fuel) as (fuel' & _ & He); [by rewrite app_nil_r|done|].
    rewrite app_nil_r in He. rewrite He. simpl. destruct fuel'; simpl; by destruct w.
  - cbn [map] in *. rewrite concat_cons2 in *. rewrite !list_of_string_app in *.
    rewrite list_ascii_of_string_of_list_ascii in *.
    remember (list_ascii_of_string (String.concat " " (string_of_list_ascii v :: map string_of_list_ascii l))) as tl eqn:Etl.
    destruct (fields_word w (list_ascii_of_string " " ++ tl) [] fuel) as (fuel' & Hf' & He); [done|done|].
    rewrite He. destruct fuel' as [|fuel']; [simpl in Hf'; lia|]. simpl in Hf'.
    transitivity (flush w (fields_fuel fuel' [] tl)); [done|]. rewrite IH by lia. by destruct w.
Qed.

(** Plain scopes survive the trip through a scope string. *)
Lemma scopeSplit_join l x : Forall plain_scope l -> x ∈ scopeSplit (scopeJoin l) ↔ x ∈ l.
Proof.
  intros Hl. unfold scopeSplit. rewrite elem_of_dedup. unfold Fields.
  assert (El : l = map string_of_list_ascii (map list_ascii_of_string l)).
  { rewrite map_map. erewrite map_ext; [by rewrite map_id|]. intros s. apply string_of_list_ascii_of_string. }
  rewrite El at 1 2. rewrite fields_join; [by rewrite <- El| |done].
  apply Forall_map. eapply Forall_impl; [exact Hl|]. intros s [Hne Hp]. split; [|done]. intros E. apply Hne.
  by rewrite <- (string_of_list_ascii_of_string s), E.
Qed.

(** ** What an exchange may mint *)

Section ExchangeFacts.
Context `{ExchangeLib}.

Lemma walk_chain_ok s now subs exp exp' :
  walk_chain s now subs exp = Ok exp' ->
  Forall (fun sub => sub ≠ "" ∧ ∃ ag, AgentBySubjectClaim s sub = Some (Some ag) ∧ agentLiveErr (Some ag) now = None) subs.
Proof.
  revert exp. induction subs as [|sub subs IH]; intros exp; cbn [walk_chain]; [constructor|].
  destruct (AgentBySubjectClaim s sub) as [[ag|]|] eqn:Ea; [|done|done].
  destruct (agentLiveErr (Some ag) now) eqn:El; [done|]. intros Hw. constructor; [|by eapply IH].
  split; [|by exists ag]. intros ->. done.
Qed.

(** The claims an exchange signs, against the subject token [c], the grant and the acting agent. *)
Record narrowed (cfg : ExchangeConfig) (e : ExchangeEnv) (s : DelegationStore) (c : AccessClaims) (agent : Agent)
    (out : ExchangeResult) : Prop := mkNarrowed {
  na_sub : x_sub (xo_claims out) = x_sub c;
  na_aud : x_aud (xo_claims out) = x_aud c;
  na_scope_string : x_scope (xo_claims out) = scopeJoin (xo_scope out);
  na_nonempty : xo_scope out ≠ [];
  na_scope : scopeSplit (x_scope c) ≠ [] -> xo_scope out ⊆ scopeSplit (x_scope c);
  na_exp : 0 < x_exp c -> x_exp (xo_claims out) <= x_exp c;
  na_jkt : x_jkt c ≠ "" -> x_jkt (xo_claims out) = x_jkt c;
  na_actor : actorFromClaims (xo_claims out) = Some (mkActor (AgentSubjectPrefix +:+ ag_id agent) (actorFromClaims c));
  na_depth : Depth (actorFromClaims (xo_claims out)) <= xc_max_depth cfg;
  na_live : agentLiveErr (Some agent) (xe_clock e) = None;
  na_chain : Forall (fun sub => ∃ ag, AgentBySubjectClaim s sub = Some (Some ag)
                       ∧ agentLiveErr (Some ag) (xe_clock e) = None) (links (actorFromClaims c));
  na_root : parse_ulid (x_sub c) = Some (xo_root out);
  na_agent : xo_agent out = ag_id agent;
  na_grant : ∃ g, DelegationGrantByUserAgentResource s (xo_root out) (ag_id agent) (x_aud c) = Some g
               ∧ Active g (xe_now e) = true ∧ xo_scope out ⊆ dg_scope g;
}.

Lemma resource_checks_ok cfg req c aud : resource_checks cfg req c = Ok aud -> aud = x_aud c.
Proof.
  unfold resource_checks. cbv zeta. destruct (_ || _); [done|]. destruct (resolveResource cfg _) as [[r a]|]; [|done].
  destruct (String.eqb_spec a (x_aud c)) as [->|]; [|done]. cbn [negb]. destruct (_ && _); [done|]. by intros [= <-].
Qed.

Lemma subject_checks_ok cfg e req agent c proof :
  subject_checks cfg e req agent = Ok (c, proof) ->
  xe_verify e (xr_subject_token req) = Some c ∧ x_iss c = xc_issuer cfg ∧ xe_denied e (x_jti c) = false
  ∧ (x_jkt c ≠ "" -> proof = x_jkt c).
Proof.
  unfold subject_checks. destruct (_ =? _)%string; [done|]. destruct (_ && _); [done|].
  destruct (xe_verify e _) as [c'|]; [|done]. destruct (String.eqb_spec (x_iss c') (xc_issuer cfg)); [|done]. cbn [negb].
  destruct (xe_denied e (x_jti c')) eqn:Ed; [done|]. destruct (xe_proof e) as [p|]; [|done].
  destruct (negb (x_jkt c' =? "")%string && _) eqn:Ej; [done|]. destruct (actor_token_ok e req agent); [done|].
  intros [= <- <-]. split_and!; [done|done|done|]. intros Hj%String.eqb_neq. rewrite Hj in Ej. simpl in Ej.
  apply orb_false_elim in Ej as [_ Ej]. apply negb_false_iff in Ej. unfold jktEqual in Ej.
  apply andb_prop in Ej as [_ Ej]. by apply String.eqb_eq in Ej.
Qed.

Lemma exchange_mint_ok gate cfg e s req client agent c proof out :
  exchange_mint gate cfg e s req client agent c proof (x_aud c) = Ok out ->
  agentLiveErr (Some agent) (xe_clock e) = None -> (x_jkt c ≠ "" -> proof = x_jkt c) ->
  narrowed cfg e s c agent out.
Proof.
  intros Hm Hlive Hjkt. unfold exchange_mint in Hm.
  destruct (resolveSubjectPrincipal s c (xe_clock e)) as [[[root existing] chainExp]|] eqn:Er; [|done].
  unfold resolveSubjectPrincipal in Er. destruct (x_sub c =? "")%string; [done|].
  destruct (String.prefix AgentSubjectPrefix (x_sub c)); [done|].
  destruct (parse_ulid (x_sub c)) as [root'|] eqn:Eu; [|done]. cbv zeta in Er.
  destruct (walk_chain s (xe_clock e) (links (actorFromClaims c)) 0) as [ce|] eqn:Ew; [|done]. injection Er as <- <- <-.
  apply walk_chain_ok in Ew. destruct (Z.ltb_spec (xc_max_depth cfg) (Depth (actorFromClaims c) + 1)) as [|Hdepth]; [done|].
  destruct (DelegationGrantByUserAgentResource s root' (ag_id agent) (x_aud c)) as [g|] eqn:Eg; [|done].
  destruct (Active g (xe_now e)) eqn:Eact; [|done]. cbn [negb] in Hm.
  destruct (NarrowScope _ _ _) as [[|f0 fs]|] eqn:En; [done| |done].
  destruct (mg_mint gate agent _) as [gated|] eqn:Eg2; [|done]. cbv zeta in Hm.
  pose proof (fun sc => mg_narrows gate _ _ _ sc Eg2) as Hnar. cbn [mr_scopes] in Hnar.
  pose proof (mg_nonempty gate _ _ _ Eg2 ltac:(done)) as Hne.
  destruct (Z.leb_spec (TightenDuration [FromUnix (x_exp c); xe_now e + xc_delegated_ttl cfg;
    xe_now e + wrap64 (dg_max_seconds g * Second); xe_now e + xc_access_ttl cfg; agentExpiryBound agent; ce]) (xe_now e))
    as [|_]; [done|].
  destruct (xe_issue e _) as [access|]; [|done]. injection Hm as <-.
  assert (Hsub : ∀ x, x ∈ mo_scopes gated -> x ∈ dg_scope g ∧ (scopeSplit (x_scope c) ≠ [] -> x ∈ scopeSplit (x_scope c)))
    by (intros x Hx; eapply NarrowScope_sub; [exact En|by apply Hnar]).
  assert (Hact : actorFromAny (actorClaimToMap (Prepend (AgentSubjectPrefix +:+ ag_id agent) (actorFromClaims c)))
    = Some (Prepend (AgentSubjectPrefix +:+ ag_id agent) (actorFromClaims c))).
  { apply actor_roundtrip. unfold Prepend. cbn [actor_links]. constructor; [done|].
    destruct (actorFromClaims c); [|constructor]. eapply Forall_impl; [exact Ew|]. by intros sub [? _]. }
  constructor; cbn [xo_claims xo_scope xo_root xo_agent x_sub x_aud x_scope x_exp x_jkt]; try done.
  - intros Hs x Hx. by apply Hsub.
  - intros Hx. apply Unix_le, TightenDuration_le; [set_solver|by apply FromUnix_nonzero].
  - etransitivity; [apply Z.eq_le_incl, f_equal, Hact|]. rewrite Depth_links. rewrite Depth_links in Hdepth. simpl.
    destruct (actorFromClaims c); simpl in *; lia.
  - eapply Forall_impl; [exact Ew|]. by intros sub [_ ?].
  - exists g. split_and!; [done|done|]. intros x Hx. by apply Hsub.
Qed.
End ExchangeFacts.

(** ** One exchange *)

Section ExchangeSound.
Context `{ExchangeLib}.

Lemma ExchangeToken_ok gate cfg e s s' req out :
  ExchangeToken gate cfg e s req = (s', Ok out) ->
  ∃ client agent c, xe_client e = Some client ∧ AgentByClientID s client = Some agent
    ∧ xe_verify e (xr_subject_token req) = Some c ∧ x_iss c = xc_issuer cfg ∧ xe_denied e (x_jti c) = false
    ∧ s' = UpdateAgentLastActive s (ag_id agent) (xe_now e) ∧ narrowed cfg e s c agent out.
Proof.
  unfold ExchangeToken. destruct (xe_client e) as [client|]; [|done].
  destruct (AgentByClientID s client) as [agent|] eqn:Ea; [|done].
  destruct (agentLiveErr (Some agent) (xe_clock e)) eqn:El; [done|].
  destruct (subject_checks cfg e req agent) as [[c proof]|] eqn:Es; [|done].
  destruct (resource_checks cfg req c) as [aud|] eqn:Er; [|done]. apply resource_checks_ok in Er as ->.
  destruct (exchange_mint _ _ _ _ _ _ _ _ _ _) as [out'|] eqn:Em; [|done]. intros [= <- <-].
  apply subject_checks_ok in Es as (Hv & Hi & Hd & Hj). exists client, agent, c. split_and!; try done.
  by eapply exchange_mint_ok.
Qed.

(** [exchanges cfg n c0 c]: the token with claims [c] came out of [n] exchanges in a row, the first one of
    a token with claims [c0]; stores, gates and times may differ between them. A token that verifies has a
    positive expiry. *)
Inductive exchanges (cfg : ExchangeConfig) (c0 : AccessClaims) : nat -> AccessClaims -> Prop :=
  | ex_root : exchanges cfg c0 0 c0
  | ex_next n c gate e s s' req out :
      exchanges cfg c0 n c -> xe_verify e (xr_subject_token req) = Some c -> 0 < x_exp c ->
      ExchangeToken gate cfg e s req = (s', Ok out) -> exchanges cfg c0 (S n) (xo_claims out).

Lemma plain_sub l k : l ⊆ k -> Forall plain_scope k -> Forall plain_scope l.
Proof. rewrite !Forall_forall. set_solver. Qed.

Lemma exchanges_inv cfg c0 n c :
  Forall plain_scope (scopeSplit (x_scope c0)) -> scopeSplit (x_scope c0) ≠ [] -> exchanges cfg c0 n c ->
  x_sub c = x_sub c0 ∧ x_aud c = x_aud c0 ∧ x_exp c <= x_exp c0
  ∧ scopeSplit (x_scope c) ⊆ scopeSplit (x_scope c0) ∧ scopeSplit (x_scope c) ≠ []
  ∧ Depth (actorFromClaims c) = Depth (actorFromClaims c0) + Z.of_nat n
  ∧ (n ≠ O -> Depth (actorFromClaims c) <= xc_max_depth cfg)
  ∧ links (actorFromClaims c0) `suffix_of` links (actorFromClaims c).
Proof.
  intros Hp Hne Hex. induction Hex as [|n c gate e s s' req out Hex IH Hv Hexp Hok].
  { split_and!; (done || lia). }
  destruct IH as (Hsub & Haud & Hle & Hsc & Hsne & Hd & _ & Hsuf).
  apply ExchangeToken_ok in Hok as (client & agent & c' & _ & _ & Hv' & _ & _ & _ & Hn).
  rewrite Hv in Hv'. injection Hv' as <-. pose proof (na_scope _ _ _ _ _ _ Hn Hsne) as Hscope.
  assert (Hall : Forall plain_scope (xo_scope out)) by (eapply plain_sub, Hp; set_solver).
  assert (Hsp : ∀ x, x ∈ scopeSplit (x_scope (xo_claims out)) ↔ x ∈ xo_scope out).
  { intros x. rewrite (na_scope_string _ _ _ _ _ _ Hn). by apply scopeSplit_join. }
  pose proof (na_depth _ _ _ _ _ _ Hn) as Hmax. pose proof (na_actor _ _ _ _ _ _ Hn) as Hact.
  split_and!.
  - by rewrite (na_sub _ _ _ _ _ _ Hn).
  - by rewrite (na_aud _ _ _ _ _ _ Hn).
  - pose proof (na_exp _ _ _ _ _ _ Hn Hexp). lia.
  - intros x Hx%Hsp. auto.
  - intros E. apply (na_nonempty _ _ _ _ _ _ Hn). apply elem_of_nil_inv. intros x Hx%Hsp. rewrite E in Hx. set_solver.
  - rewrite Hact. rewrite !Depth_links in *. cbn [links actor_links].
    destruct (actorFromClaims c); simpl in *; lia.
  - done.
  - rewrite Hact. cbn [links actor_links]. apply suffix_cons_r. by destruct (actorFromClaims c).
Qed.
End ExchangeSound.

(** ** The life of a grant *)

Section GrantLife.
Context `{ExchangeLib}.

(** The requests and the other writers of the store. The label names the tuple a new grant is for. A new
    id is a fresh ULID; agents are created, suspended and deleted without touching grants. *)
Inductive delegation_step (resources : list ProtectedResource) (maxDuration : Z)
  : DelegationStore -> option (string * string * string) -> DelegationStore -> Prop :=
  | step_grant s now id i s' g :
      ds_grants s !! id = None -> (∀ t, ds_by_tuple s !! t ≠ Some id) ->
      GrantDelegation resources maxDuration s now id i = (s', Ok g) ->
      delegation_step resources maxDuration s (Some (tuple_of g)) s'
  | step_refused_grant s now id i s' err :
      GrantDelegation resources maxDuration s now id i = (s', Err err) ->
      delegation_step resources maxDuration s None s'
  | step_revoke s id now reason :
      delegation_step resources maxDuration s None (RevokeDelegation s id now reason).1
  | step_erase_user s user : delegation_step resources maxDuration s None (deleteUserDelegations s user)
  | step_exchange s gate cfg e req :
      delegation_step resources maxDuration s None (ExchangeToken gate cfg e s req).1
  | step_client_credentials s gate cfg e cs r sc :
      delegation_step resources maxDuration s None (ClientCredentialsToken gate cfg e s cs r sc).1
  | step_agents s agents clients :
      delegation_step resources maxDuration s None (mkDelegations agents clients (ds_grants s) (ds_by_tuple s)).

(** Steps in a row, none of which grants the tuple [avoid] ([None]: no restriction). *)
Inductive delegation_run (resources : list ProtectedResource) (maxDuration : Z) (avoid : option (string * string * string))
  : DelegationStore -> DelegationStore -> Prop :=
  | run_refl s : delegation_run resources maxDuration avoid s s
  | run_step s1 s2 s3 l :
      delegation_run resources maxDuration avoid s1 s2 -> delegation_step resources maxDuration s2 l s3 ->
      (avoid = None ∨ l ≠ avoid) -> delegation_run resources maxDuration avoid s1 s3.

Definition empty_delegations : DelegationStore := mkDelegations ∅ ∅ ∅ ∅.

(** A grant that is not revoked is the one its tuple's index names. *)
Definition grants_ok (s : DelegationStore) : Prop :=
  ∀ id g, ds_grants s !! id = Some g ->
    dg_id g = id ∧ (dg_revoked_at g = None -> ds_by_tuple s !! tuple_of g = Some id).

(** The tuple's grant, if there still is one, is revoked. *)
Definition tuple_revoked (s : DelegationStore) (t : string * string * string) : Prop :=
  ∃ id, ds_by_tuple s !! t = Some id ∧ ∀ g, ds_grants s !! id = Some g -> dg_revoked_at g ≠ None.

Definition same_grants (s s' : DelegationStore) : Prop :=
  ds_grants s' = ds_grants s ∧ ds_by_tuple s' = ds_by_tuple s.

Lemma UpdateAgentLastActive_grants s id at_ : same_grants s (UpdateAgentLastActive s id at_).
Proof. unfold UpdateAgentLastActive. by destruct (ds_agents s !! id). Qed.

Lemma ExchangeToken_grants gate cfg e s req : same_grants s (ExchangeToken gate cfg e s req).1.
Proof.
  unfold ExchangeToken. repeat case_match; try done. apply UpdateAgentLastActive_grants.
Qed.

Lemma ClientCredentialsToken_grants gate cfg e s cs r sc : same_grants s (ClientCredentialsToken gate cfg e s cs r sc).1.
Proof.
  unfold ClientCredentialsToken. repeat case_match; try done; apply UpdateAgentLastActive_grants.
Qed.

(** A new grant is the requested one, under a tuple that had no live grant. *)
Lemma GrantDelegation_ok resources maxd s now id i s' g :
  GrantDelegation resources maxd s now id i = (s', Ok g) ->
  dg_id g = id ∧ dg_revoked_at g = None ∧ InsertDelegationGrant s g = Some s'.
Proof.
  unfold GrantDelegation. cbv zeta. repeat case_match; try done. intros [= <- <-]. by split_and!.
Qed.

Lemma GrantDelegation_err resources maxd s now id i s' err :
  GrantDelegation resources maxd s now id i = (s', Err err) -> s' = s.
Proof. unfold GrantDelegation. cbv zeta. repeat case_match; try done; by intros [= <- _]. Qed.

Lemma InsertDelegationGrant_ok s g s' :
  InsertDelegationGrant s g = Some s' ->
  s' = with_grants s (<[dg_id g := g]> (ds_grants s)) (<[tuple_of g := dg_id g]> (ds_by_tuple s))
  ∧ ∀ id, ds_by_tuple s !! tuple_of g = Some id -> ∀ g', ds_grants s !! id = Some g' -> dg_revoked_at g' ≠ None.
Proof.
  unfold InsertDelegationGrant. cbv zeta. destruct (ds_by_tuple s !! tuple_of g) as [id|]; [|by intros [= <-]].
  destruct (dg_revoked_at _) eqn:Er; [|done]. intros [= <-]. split; [done|]. intros ? [= <-] g' Hg.
  rewrite Hg in Er. simpl in Er. by rewrite Er.
Qed.

Lemma RevokeDelegation_cases s id now reason :
  (RevokeDelegation s id now reason).1 = s
  ∨ ∃ g, ds_grants s !! id = Some g ∧ dg_revoked_at g = None
      ∧ (RevokeDelegation s id now reason).1 = with_grants s (<[id := set_revoked_grant g now reason]> (ds_grants s)) (ds_by_tuple s).
Proof.
  unfold RevokeDelegation, RevokeDelegationGrant. destruct (ds_grants s !! id) as [g|] eqn:Eg; [|by left].
  destruct (dg_revoked_at g) eqn:Er; [by left|]. simpl. right. by exists g.
Qed.

Lemma same_grants_ok s s' : same_grants s s' -> grants_ok s -> grants_ok s'.
Proof. intros [E1 E2]. unfold grants_ok. by rewrite E1, E2. Qed.

Lemma grants_ok_step resources maxd s l s' : grants_ok s -> delegation_step resources maxd s l s' -> grants_ok s'.
Proof.
  intros Hok Hst. destruct Hst as [s now id i s' g Hfr Hnt Hg|s now id i s' err ->%GrantDelegation_err|s id now reason|s user
    |s gate cfg e req|s gate cfg e cs r sc|s agents clients]; try done.
  - apply GrantDelegation_ok in Hg as (<- & _ & [-> Hdead]%InsertDelegationGrant_ok). intros id' g' Hl. simpl in Hl |- *.
    apply lookup_insert_Some in Hl as [[<- <-]|[Hne Hl]]; [by rewrite lookup_insert_eq|].
    destruct (Hok _ _ Hl) as [Hid Ht]. split; [done|]. intros Hlive.
    rewrite lookup_insert_ne; [auto|]. intros E. apply (Hdead id' ltac:(rewrite E; auto) g' Hl Hlive).
  - destruct (RevokeDelegation_cases s id now reason) as [->|(g & Hg & Hr & ->)]; [done|].
    intros id' g' Hl. simpl in Hl |- *. apply lookup_insert_Some in Hl as [[<- <-]|[_ Hl]]; [|by apply Hok].
    simpl. by destruct (Hok _ _ Hg).
  - intros id g Hl. simpl in Hl |- *. apply map_lookup_filter_Some in Hl as [Hl _]. by apply Hok.
  - by eapply same_grants_ok; [apply ExchangeToken_grants|].
  - by eapply same_grants_ok; [apply ClientCredentialsToken_grants|].
Qed.

Lemma tuple_revoked_step resources maxd s l s' t :
  tuple_revoked s t -> delegation_step resources maxd s l s' -> l ≠ Some t -> tuple_revoked s' t.
Proof.
  intros (id0 & Hidx & Hrev) Hst Hl. destruct Hst as [s now id i s' g Hfr Hnt Hg|s now id i s' err ->%GrantDelegation_err
    |s id now reason|s user|s gate cfg e req|s gate cfg e cs r sc|s agents clients]; exists id0; try done.
  - apply GrantDelegation_ok in Hg as (<- & _ & [-> Hdead]%InsertDelegationGrant_ok). simpl.
    rewrite lookup_insert_ne by congruence. split; [done|]. intros g'. rewrite lookup_insert_ne; [auto|].
    intros <-. by eapply Hnt.
  - destruct (RevokeDelegation_cases s id now reason) as [->|(g & Hg & Hr & ->)]; [done|]. simpl. split; [done|].
    intros g' [[<- <-]|[_ Hg']]%lookup_insert_Some; [done|auto].
  - simpl. split; [done|]. intros g [Hg _]%map_lookup_filter_Some. auto.
  - destruct (ExchangeToken_grants gate cfg e s req) as [-> ->]. done.
  - destruct (ClientCredentialsToken_grants gate cfg e s cs r sc) as [-> ->]. done.
Qed.

Lemma run_grants_ok resources maxd av s1 s2 : delegation_run resources maxd av s1 s2 -> grants_ok s1 -> grants_ok s2.
Proof. induction 1; eauto using grants_ok_step. Qed.

Lemma run_tuple_revoked resources maxd t s1 s2 :
  delegation_run resources maxd (Some t) s1 s2 -> tuple_revoked s1 t -> tuple_revoked s2 t.
Proof. induction 1 as [|s1 s2 s3 l _ IH Hst [|Hl]]; [done|done|]. intros Hr. by eapply tuple_revoked_step; [apply IH|..]. Qed.

Lemma empty_grants_ok : grants_ok empty_delegations.
Proof. intros id g Hl. simpl in Hl. by rewrite lookup_empty in Hl. Qed.

(** Revoking a live grant leaves its tuple without one. *)
Lemma RevokeDelegation_revokes s id g now reason :
  grants_ok s -> ds_grants s !! id = Some g -> dg_revoked_at g = None ->
  tuple_revoked (RevokeDelegation s id now reason).1 (tuple_of g).
Proof.
  intros Hok Hg Hr. destruct (Hok _ _ Hg) as [_ Ht]. exists id.
  unfold RevokeDelegation, RevokeDelegationGrant. rewrite Hg, Hr. simpl. split; [auto|].
  intros g'. rewrite lookup_insert_eq. by intros [= <-].
Qed.

(** No exchange passes on a revoked or erased grant: an erased one reads as a grant of no scope. *)
Lemma exchange_not_revoked gate cfg e s s' req out :
  ExchangeToken gate cfg e s req = (s', Ok out) ->
  ¬ tuple_revoked s (xo_root out, xo_agent out, x_aud (xo_claims out)).
Proof.
  intros (client & agent & c & _ & _ & _ & _ & _ & _ & Hn)%ExchangeToken_ok (id & Hidx & Hrev).
  destruct (na_grant _ _ _ _ _ _ Hn) as (g & Hg & Hact & Hsc).
  rewrite (na_agent _ _ _ _ _ _ Hn), (na_aud _ _ _ _ _ _ Hn) in Hidx.
  unfold DelegationGrantByUserAgentResource in Hg. rewrite Hidx in Hg. simpl in Hg. injection Hg as <-.
  destruct (ds_grants s !! id) as [g|]; simpl in *.
  - unfold Active in Hact. by destruct (dg_revoked_at g) eqn:E; [|apply (Hrev g)].
  - apply (na_nonempty _ _ _ _ _ _ Hn). apply elem_of_nil_inv. set_solver.
Qed.
End GrantLife.

(** C14. What a token exchange may mint: the subject token verified, was issued by this server and not
    denied; the acting agent is the authenticated client's and live, like every agent of the chain; and
    the new token keeps the subject, the audience and the proof key, names the agent as outermost actor
    within the depth limit, expires no later than the subject token, and carries at least one scope, all
    of them scopes of an active grant of the root user to the agent for that audience and (when the
    subject token has any) scopes of the subject token. *)
Theorem exchange_narrows `{ExchangeLib} gate cfg e s s' req out :
  ExchangeToken gate cfg e s req = (s', Ok out) ->
  ∃ client agent c, xe_client e = Some client ∧ AgentByClientID s client = Some agent
    ∧ xe_verify e (xr_subject_token req) = Some c ∧ x_iss c = xc_issuer cfg ∧ xe_denied e (x_jti c) = false
    ∧ narrowed cfg e s c agent out ∧ same_grants s s'.
Proof.
  intros Hok. destruct (ExchangeToken_ok _ _ _ _ _ _ _ Hok) as (client & agent & c & ? & ? & ? & ? & ? & -> & ?).
  exists client, agent, c. split_and!; try done; apply UpdateAgentLastActive_grants.
Qed.

(** However often a token is passed on, it only shrinks: after [n] exchanges the subject and the
    audience are those of the first token, the expiry is no later, the scopes are a non empty part of the
    first token's scopes, the actor chain has grown by exactly [n] links over the first one's, and its
    depth is within the limit. *)
Theorem delegation_chain_bounded `{ExchangeLib} cfg c0 n c :
  Forall plain_scope (scopeSplit (x_scope c0)) -> scopeSplit (x_scope c0) ≠ [] -> exchanges cfg c0 n c ->
  x_sub c = x_sub c0 ∧ x_aud c = x_aud c0 ∧ x_exp c <= x_exp c0
  ∧ scopeSplit (x_scope c) ⊆ scopeSplit (x_scope c0) ∧ scopeSplit (x_scope c) ≠ []
  ∧ links (actorFromClaims c0) `suffix_of` links (actorFromClaims c)
  ∧ Depth (actorFromClaims c) = Depth (actorFromClaims c0) + Z.of_nat n
  ∧ (n ≠ O -> Z.of_nat n < xc_max_depth cfg).
Proof.
  intros Hp Hne Hex. destruct (exchanges_inv _ _ _ _ Hp Hne Hex) as (? & ? & ? & ? & ? & Hd & Hm & ?).
  split_and!; try done. intros Hn. specialize (Hm Hn). rewrite !Depth_links in *. lia.
Qed.

(** Revocation is final: once a live delegation grant is revoked, no exchange succeeds for its user,
    agent and resource, whatever requests, erasures and agent changes come in between, until the user
    grants that same tuple again; and at any time a tuple has at most one live grant. *)
Theorem revoked_delegation_refused `{ExchangeLib} resources maxd s id g now reason s2 :
  delegation_run resources maxd None empty_delegations s -> ds_grants s !! id = Some g -> dg_revoked_at g = None ->
  delegation_run resources maxd (Some (tuple_of g)) (RevokeDelegation s id now reason).1 s2 ->
  (∀ id' g', ds_grants s !! id' = Some g' -> dg_revoked_at g' = None -> tuple_of g' = tuple_of g -> id' = id)
  ∧ ∀ gate cfg e req s3 out, ExchangeToken gate cfg e s2 req = (s3, Ok out) ->
      (xo_root out, xo_agent out, x_aud (xo_claims out)) ≠ tuple_of g.
Proof.
  intros Hrun Hg Hlive Hafter. pose proof (run_grants_ok _ _ _ _ _ Hrun empty_grants_ok) as Hok. split.
  - intros id' g' Hg' Hl' Ht. destruct (Hok _ _ Hg) as [_ H1]. destruct (Hok _ _ Hg') as [_ H2].
    specialize (H1 Hlive). specialize (H2 Hl'). rewrite Ht in H2. congruence.
  - intros gate cfg e req s3 out Hx E. eapply exchange_not_revoked; [exact Hx|]. rewrite E.
    eapply run_tuple_revoked; [exact Hafter|]. by apply RevokeDelegation_revokes.
Qed.

(** ** A chain of two agents *)

Definition demo_ids : ExchangeLib :=
  {| url_parse := fun _ => None; parse_ulid := fun s => if (s =? "")%string then None else Some s |}.

Definition demo_config : ExchangeConfig :=
  mkExchangeConfig "https://as" (900 * Second) (600 * Second) 4 [mkResource "https://api" ["read"; "write"; "admin"]] false false.

Definition demo_start : Z := unix_epoch + 1700000000 * Second.

Definition live_agent (id client : string) : Agent :=
  mkAgent id (Some "u1") None AgentStatusActive client ["read"; "write"] 0 None None.

Definition demo_agents : DelegationStore :=
  mkDelegations (<["a1" := live_agent "a1" "c1"]> (<["a2" := live_agent "a2" "c2"]> ∅)) (<["c1" := "a1"]> (<["c2" := "a2"]> ∅)) ∅ ∅.

Definition demo_grant (s : DelegationStore) (id agent : string) (scope : list string) : DelegationStore :=
  (GrantDelegation (xc_resources demo_config) (3600 * Second) s demo_start id
     (mkGrantInput "u1" agent None scope "https://api" 300 None)).1.

Definition demo_delegations : DelegationStore :=
  demo_grant (demo_grant demo_agents "g1" "a1" ["read"; "write"]) "g2" "a2" ["read"; "admin"].

Definition demo_root : AccessClaims :=
  mkAccessClaims "https://as" "u1" "https://api" 1700000400 1700000000 "j0" "app" "read write" None "" "".

Definition demo_exchange_env (client jti : string) (c : AccessClaims) : ExchangeEnv :=
  mkExchangeEnv (Some client) demo_start demo_start (fun t => if (t =? "token")%string then Some c else None)
    (fun _ => false) (Some "") jti (fun _ => Some "signed").

Definition demo_exchange_request : TokenExchangeRequest := mkExchangeRequest "token" "" "" "" "https://api" "" [].

Definition demo_exchange (client jti : string) (c : AccessClaims) : DelegationStore * result exchange_error ExchangeResult :=
  ExchangeToken (H := demo_ids) no_gate demo_config (demo_exchange_env client jti c) demo_delegations demo_exchange_request.

Definition claims_of (r : DelegationStore * result exchange_error ExchangeResult) : AccessClaims :=
  match r.2 with Ok out => xo_claims out | Err _ => demo_root end.

Definition demo_first : AccessClaims := Eval vm_compute in claims_of (demo_exchange "c1" "j1" demo_root).
Definition demo_second : AccessClaims := Eval vm_compute in claims_of (demo_exchange "c2" "j2" demo_first).

Lemma exchange_narrows_witness :
  scopeSplit (x_scope demo_first) = ["read"; "write"] ∧ x_exp demo_first = 1700000300
  ∧ Depth (actorFromClaims demo_first) <= 4.
Proof.
  assert (Hx : ∃ s' out, demo_exchange "c1" "j1" demo_root = (s', Ok out) ∧ xo_claims out = demo_first)
    by (eexists _, (mkExchangeResult "signed" "Bearer" 300 ["read"; "write"] demo_first "u1" "a1"); split;
        vm_compute; reflexivity).
  destruct Hx as (s' & out & Hx & E). rewrite <- E.
  destruct (exchange_narrows (H := demo_ids) no_gate demo_config _ _ _ _ _ Hx) as (_ & ag & c & _ & _ & _ & _ & _ & Hn & _).
  pose proof (na_depth _ _ _ _ _ _ Hn) as Hd. split_and!; [| |exact Hd].
  - rewrite E. vm_compute. reflexivity.
  - by rewrite E.
Defined.

Lemma delegation_chain_bounded_witness :
  links (actorFromClaims demo_second) = ["agent:a2"; "agent:a1"] ∧ x_scope demo_second = "read"
  ∧ scopeSplit (x_scope demo_second) ⊆ ["read"; "write"] ∧ x_exp demo_second <= 1700000400.
Proof.
  split; [vm_compute; reflexivity|]. split; [vm_compute; reflexivity|].
  assert (Hroot : scopeSplit (x_scope demo_root) = ["read"; "write"]) by (vm_compute; reflexivity).
  assert (Hex : exchanges (H := demo_ids) demo_config demo_root 2 demo_second).
  { eapply (ex_next (H := demo_ids) demo_config demo_root 1 demo_first no_gate (demo_exchange_env "c2" "j2" demo_first)
      demo_delegations _ demo_exchange_request (mkExchangeResult "signed" "Bearer" 300 ["read"] demo_second "u1" "a2"));
      [|done|done|vm_compute; reflexivity].
    eapply (ex_next (H := demo_ids) demo_config demo_root 0 demo_root no_gate (demo_exchange_env "c1" "j1" demo_root)
      demo_delegations _ demo_exchange_request (mkExchangeResult "signed" "Bearer" 300 ["read"; "write"] demo_first "u1" "a1"));
      [constructor|done|done|vm_compute; reflexivity]. }
  destruct (delegation_chain_bounded (H := demo_ids) demo_config demo_root 2 demo_second) as (_ & _ & He & Hs & _).
  - rewrite Hroot. repeat constructor; done.
  - by rewrite Hroot.
  - exact Hex.
  - rewrite Hroot in Hs. by split.
Defined.

Definition demo_granted : DelegationStore := demo_grant demo_agents "g1" "a1" ["read"; "write"].

Definition demo_g1 : DelegationGrant :=
  mkDelegation "g1" "u1" "a1" None ["read"; "write"] "https://api" 300 demo_start None None "".

Lemma demo_granted_run : delegation_run (H := demo_ids) (xc_resources demo_config) (3600 * Second) None empty_delegations demo_granted.
Proof.
  eapply run_step; [eapply run_step; [apply run_refl| |by left]| |by left].
  - apply (step_agents (H := demo_ids) _ _ _ (ds_agents demo_agents) (ds_by_client demo_agents)).
  - eapply (step_grant (H := demo_ids) _ _ demo_agents demo_start "g1"
      (mkGrantInput "u1" "a1" None ["read"; "write"] "https://api" 300 None) _ demo_g1);
      [done|intros t; cbn; by rewrite lookup_empty|vm_compute; reflexivity].
Qed.

Lemma revoked_delegation_refused_witness :
  (ExchangeToken (H := demo_ids) no_gate demo_config (demo_exchange_env "c1" "j1" demo_root)
     (RevokeDelegation demo_granted "g1" demo_start "leaked").1 demo_exchange_request).2 = Err XDelegationRevoked
  ∧ ∀ gate cfg e req s3 out,
      ExchangeToken (H := demo_ids) gate cfg e (RevokeDelegation demo_granted "g1" demo_start "leaked").1 req = (s3, Ok out) ->
      (xo_root out, xo_agent out, x_aud (xo_claims out)) ≠ ("u1", "a1", "https://api").
Proof.
  split; [vm_compute; reflexivity|].
  assert (Hg : ds_grants demo_granted !! "g1" = Some demo_g1) by (vm_compute; reflexivity).
  destruct (revoked_delegation_refused (H := demo_ids) _ _ _ "g1" demo_g1 demo_start "leaked" _ demo_granted_run Hg eq_refl
    (run_refl _ _ _ _)) as [_ Hx]. exact Hx.
Defined.
