(* ===== verification/Registration.v ===== *)
(** * Client registration ([internal/as/dcr.go], [registration_token.go], [handlers.go], [internal/cimd],
      [storage/memory/memory_device.go], [memory_v20.go])

    RFC 7591 registration: a request is anonymous, carries a static operator token, or spends one use of a
    stored registration token, which caps the scopes and grant types the client may declare. The store's
    calls are atomic and those of different requests interleave ([reg_step]). [url.Parse], [strings.ToLower]
    and [strings.TrimSpace] are the class [UrlLib]; fresh ids, random secrets, the password hash and the clock
    are arguments. Audit events and traces are not modelled. *)

From Stdlib Require Import ZArith Lia String Ascii.
From stdpp Require Import base gmap strings list relations.
From S2P Require Import Prelude Dpop DeviceAuth TokenGrants Rar AgentGate Delegation.

Set Default Goal Selector "!".
Open Scope string_scope.
Open Scope list_scope.
Open Scope Z_scope.

(** ** URLs *)

(** The parts of a [url.URL] the code reads; [u_user] is [User != nil]. *)
Record URL := mkURL {
  u_scheme : string; u_opaque : string; u_user : bool; u_host : string; u_hostname : string; u_port : string;
  u_path : string; u_escaped_path : string; u_query : string; u_fragment : string;
}.

Class UrlLib := {
  parse_url : string -> option URL;
  to_lower : string -> string;
  trim_space : string -> string;
}.

Definition contains_char (c : ascii) (s : string) : bool := existsb (Ascii.eqb c) (list_ascii_of_string s).

Definition scheme_char (c : ascii) : bool :=
  let v := Canonical.byte_val c in ((97 <=? v) && (v <=? 122)) || ((48 <=? v) && (v <=? 57)) || (v =? 45).

Definition forbidden_schemes : list string := ["javascript"; "data"; "file"; "vbscript"; "blob"; "about"; "ftp"].

(** [true] when the redirect URI is accepted. *)
Definition validateRedirectURIWith `{UrlLib} (raw : string) (extraSchemes : list string) : bool :=
  if (raw =? "")%string then false
  else match parse_url raw with
  | None => false
  | Some u =>
      if (u_scheme u =? "")%string then false
      else if negb (u_fragment u =? "")%string || contains_char "#" raw then false
      else if u_user u then false
      else
        let scheme := to_lower (u_scheme u) in
        if (scheme =? "https")%string then negb (u_hostname u =? "")%string
        else if (scheme =? "http")%string then bool_decide (to_lower (u_hostname u) ∈ ["localhost"; "127.0.0.1"; "::1"])
        else if bool_decide (scheme ∈ forbidden_schemes) then false
        else if bool_decide (scheme ∈ extraSchemes) then true
        else
          let labels := split_dots "" scheme in
          (2 <=? length labels)%nat
          && forallb (fun l => negb (l =? "")%string && forallb scheme_char (list_ascii_of_string l)) labels
  end.

Definition ValidateRedirectURI `{UrlLib} (raw : string) : bool := validateRedirectURIWith raw [].

(** ** Clients ([models_v20.go]) *)

Definition GrantTypeAuthorizationCode : string := "authorization_code".
Definition GrantTypeRefreshToken : string := "refresh_token".
Definition GrantTypeClientCredentials : string := "client_credentials".
Definition GrantTypeTokenExchange : string := "urn:ietf:params:oauth:grant-type:token-exchange".
Definition GrantTypeCIBA : string := "urn:openid:params:grant-type:ciba".
Definition ResponseTypeCode : string := "code".
Definition ClientAuthSecretBasic : string := "client_secret_basic".
Definition ClientAuthSecretPost : string := "client_secret_post".
Definition ClientAuthNone : string := "none".

(** The fields that only describe the client to people. *)
Record ClientMeta := mkMeta {
  cm_contacts : list string; cm_logo : string; cm_policy : string; cm_tos : string; cm_software : string; cm_version : string;
}.

(** [rq_jwks] is the raw inline key set. *)
Record ClientRegistrationRequest := mkRegistration {
  rq_name : string; rq_redirects : list string; rq_grants : list string; rq_responses : list string; rq_scope : string;
  rq_auth_method : string; rq_app_type : string; rq_meta : ClientMeta; rq_jwks_uri : string; rq_jwks : string;
  rq_token_format : string; rq_token_alg : string; rq_detail_types : list string; rq_subject_type : string;
  rq_post_logout : list string; rq_logout_uri : string; rq_logout_session : bool;
}.

(** A stored client is the validated request with its identifiers; [oc_secret_hash] is empty for a public one. *)
Record OAuthClient := mkOAuthClient {
  oc_id : string; oc_client_id : string; oc_secret_hash : string; oc_meta : ClientRegistrationRequest;
  oc_anonymous : bool; oc_created : Z; oc_updated : Z;
}.

Record RegisteredClient := mkRegistered {
  rg_client_id : string; rg_issued_at : Z; rg_secret : string; rg_secret_expires : Z; rg_meta : ClientRegistrationRequest;
}.

(** ** The client store ([memory_v20.go]) *)

Record ClientStore := mkClientStore { cs_clients : gmap string OAuthClient; cs_by_id : gmap string string }.

Definition stamp_client (c : OAuthClient) (now : Z) : OAuthClient :=
  let created := if IsZero (oc_created c) then now else oc_created c in
  mkOAuthClient (oc_id c) (oc_client_id c) (oc_secret_hash c) (oc_meta c) (oc_anonymous c) created
    (if IsZero (oc_updated c) then created else oc_updated c).

Definition InsertOAuthClient (s : ClientStore) (now : Z) (c : OAuthClient) : option (ClientStore * OAuthClient) :=
  match cs_clients s !! oc_client_id c with
  | Some _ => None
  | None =>
      let c := stamp_client c now in
      Some (mkClientStore (<[oc_client_id c := c]> (cs_clients s)) (<[oc_id c := oc_client_id c]> (cs_by_id s)), c)
  end.

Definition OAuthClientByClientID (s : ClientStore) (id : string) : option OAuthClient := cs_clients s !! id.

(** ** Validation ([dcr.go], [oidc.go], [token_policy.go]) *)

(** [od_salt]: a pairwise salt is configured. *)
Record OIDCSettings := mkOIDCSettings { od_salt : bool; od_private : bool }.

(** [rc_policy] is [TokenPolicy.SigningAlgs], [rc_default_alg] the server's own algorithm, [rc_opaque_store] whether
    the storage keeps opaque tokens. *)
Record RegistrationConfig := mkRegistrationConfig {
  rc_anonymous : bool; rc_oidc : option OIDCSettings; rc_rar : option RARConfig; rc_policy : option (list string);
  rc_default_alg : string; rc_opaque_store : bool; rc_token_ttl : Z;
}.

Inductive register_error := ErrOAuthRegistrationDenied | ErrInvalidMetadata | ErrClientSecret | ErrPersistClient.

Definition registrationGrantAllowed (g : string) : bool :=
  bool_decide (g ∈ [GrantTypeAuthorizationCode; GrantTypeRefreshToken; GrantTypeClientCredentials; GrantTypeTokenExchange;
                    GrantTypeCIBA; GrantTypeDeviceCode]).

Definition with_defaults (r : ClientRegistrationRequest) (grants responses : list string) (method app : string)
  : ClientRegistrationRequest :=
  mkRegistration (rq_name r) (rq_redirects r) grants responses (rq_scope r) method app (rq_meta r) (rq_jwks_uri r) (rq_jwks r)
    (rq_token_format r) (rq_token_alg r) (rq_detail_types r) (rq_subject_type r) (rq_post_logout r) (rq_logout_uri r)
    (rq_logout_session r).

(** The request with the defaults filled in, [None] for invalid metadata. *)
Definition validateRegistrationRequest `{UrlLib} (req : ClientRegistrationRequest) (anonymous : bool)
  : option ClientRegistrationRequest :=
  let requires := bool_decide (rq_grants req = []) || bool_decide (GrantTypeAuthorizationCode ∈ rq_grants req) in
  if requires && bool_decide (rq_redirects req = []) then None
  else if anonymous && (1 <? length (rq_redirects req))%nat then None
  else if negb (forallb ValidateRedirectURI (rq_redirects req)) then None
  else
    let grants := if bool_decide (rq_grants req = []) then [GrantTypeAuthorizationCode; GrantTypeRefreshToken] else rq_grants req in
    if negb (forallb registrationGrantAllowed grants) then None
    else
      let responses := if bool_decide (rq_responses req = []) then [ResponseTypeCode] else rq_responses req in
      if negb (forallb (String.eqb ResponseTypeCode) responses) then None
      else
        let method := if (rq_auth_method req =? "")%string then (if anonymous then ClientAuthNone else ClientAuthSecretBasic)
                      else rq_auth_method req in
        if negb (bool_decide (method ∈ [ClientAuthSecretBasic; ClientAuthSecretPost; ClientAuthNone])) then None
        else if anonymous && negb (method =? ClientAuthNone)%string then None
        else Some (with_defaults req grants responses method (if (rq_app_type req =? "")%string then "web" else rq_app_type req)).

Definition SupportedAlg (alg : string) : bool := bool_decide (alg ∈ ["EdDSA"; "ES256"; "RS256"]).

Definition SigningAlgEnabled (cfg : RegistrationConfig) (alg : string) : bool :=
  (alg =? rc_default_alg cfg)%string || match rc_policy cfg with None => false | Some algs => bool_decide (alg ∈ algs) end.

Definition ValidateClientTokenPolicy (cfg : RegistrationConfig) (format alg : string) : bool :=
  (if (format =? "")%string || (format =? "jwt")%string then true
   else if (format =? "opaque")%string then bool_decide (is_Some (rc_policy cfg)) && rc_opaque_store cfg
   else false)
  && (if (alg =? "")%string then true
      else SupportedAlg alg && bool_decide (is_Some (rc_policy cfg)) && SigningAlgEnabled cfg alg).

Definition validateTokenMetadata (cfg : RegistrationConfig) (req : ClientRegistrationRequest) (anonymous : bool) : bool :=
  if (rq_token_format req =? "")%string && (rq_token_alg req =? "")%string && bool_decide (rq_detail_types req = []) then true
  else if anonymous then false
  else ValidateClientTokenPolicy cfg (rq_token_format req) (rq_token_alg req)
       && Rar.ValidateClientRARTypes (rc_rar cfg) (rq_detail_types req).

Fixpoint single_host `{UrlLib} (host : string) (uris : list string) : bool :=
  match uris with
  | [] => negb (host =? "")%string
  | raw :: uris' =>
      match parse_url raw with
      | None => false
      | Some u =>
          let h := to_lower (u_hostname u) in
          if (host =? "")%string then single_host h uris'
          else (host =? h)%string && single_host host uris'
      end
  end.

Definition singleHost `{UrlLib} (uris : list string) : bool := single_host "" uris.

Definition validateOIDCMetadata `{UrlLib} (cfg : RegistrationConfig) (req : ClientRegistrationRequest) (anonymous : bool) : bool :=
  if (rq_subject_type req =? "")%string && bool_decide (rq_post_logout req = []) && (rq_logout_uri req =? "")%string
     && negb (rq_logout_session req) then true
  else match rc_oidc cfg with
  | None => false
  | Some oidc =>
      if anonymous then false
      else
        (if (rq_subject_type req =? "")%string || (rq_subject_type req =? "public")%string then true
         else if (rq_subject_type req =? "pairwise")%string then od_salt oidc && singleHost (rq_redirects req)
         else false)
        && forallb ValidateRedirectURI (rq_post_logout req)
        && (if (rq_logout_uri req =? "")%string then true
            else match parse_url (rq_logout_uri req) with
            | None => false
            | Some p =>
                negb ((u_host p =? "")%string || negb (u_fragment p =? "")%string || u_user p)
                && ((u_scheme p =? "https")%string || (od_private oidc && (u_scheme p =? "http")%string))
            end)
  end.

(** What one registration draws: two ids, the clock, a secret and its hash ([None] on an error). *)
Record RegisterEnv := mkRegisterEnv { re_client : string; re_id : string; re_now : Z; re_secret : option string; re_hash : option string }.

Definition RegisterClient `{UrlLib} (cfg : RegistrationConfig) (env : RegisterEnv) (s : ClientStore)
  (req : ClientRegistrationRequest) (anonymous : bool) : ClientStore * result register_error RegisteredClient :=
  if anonymous && negb (rc_anonymous cfg) then (s, Err ErrOAuthRegistrationDenied)
  else match validateRegistrationRequest req anonymous with
  | None => (s, Err ErrInvalidMetadata)
  | Some req =>
      if negb (validateTokenMetadata cfg req anonymous) then (s, Err ErrInvalidMetadata)
      else if negb (validateOIDCMetadata cfg req anonymous) then (s, Err ErrInvalidMetadata)
      else
        let clientID := "client-" +:+ re_client env in
        let credentials :=
          if (rq_auth_method req =? ClientAuthNone)%string then Some ("", "", 0)
          else match re_secret env, re_hash env with
          | Some secret, Some hash => Some (secret, hash, if anonymous then Unix (re_now env + 30 * 24 * Hour) else 0)
          | _, _ => None
          end in
        match credentials with
        | None => (s, Err ErrClientSecret)
        | Some (secret, hash, expires) =>
            match InsertOAuthClient s (re_now env)
                    (mkOAuthClient (re_id env) clientID hash req anonymous (re_now env) (re_now env)) with
            | None => (s, Err ErrPersistClient)
            | Some (s', stored) => (s', Ok (mkRegistered (oc_client_id stored) (Unix (re_now env)) secret expires req))
            end
        end
  end.

(** ** Registration tokens ([models_registration_token.go], [memory_device.go]) *)

Record RegistrationToken := mkRegToken {
  tk_id : string; tk_hash : string; tk_prefix : string; tk_label : string; tk_org : option string; tk_scopes : list string;
  tk_grants : list string; tk_max : Z; tk_uses : Z; tk_created_by : option string; tk_created : Z; tk_expires : Z;
  tk_last_used : option Z; tk_revoked : option Z;
}.

Definition token_active (t : RegistrationToken) (now : Z) : bool :=
  bool_decide (tk_revoked t = None) && Before now (tk_expires t) && (tk_uses t <? tk_max t).

Definition with_uses (t : RegistrationToken) (uses : Z) (last : option Z) : RegistrationToken :=
  mkRegToken (tk_id t) (tk_hash t) (tk_prefix t) (tk_label t) (tk_org t) (tk_scopes t) (tk_grants t) (tk_max t) uses
    (tk_created_by t) (tk_created t) (tk_expires t) last (tk_revoked t).

Definition with_revoked (t : RegistrationToken) (at_ : Z) : RegistrationToken :=
  mkRegToken (tk_id t) (tk_hash t) (tk_prefix t) (tk_label t) (tk_org t) (tk_scopes t) (tk_grants t) (tk_max t) (tk_uses t)
    (tk_created_by t) (tk_created t) (tk_expires t) (tk_last_used t) (Some at_).

Abbreviation RegTokens := (gmap string RegistrationToken).

Definition InsertRegistrationToken (s : RegTokens) (t : RegistrationToken) : RegTokens := <[tk_id t := t]> s.

(** The first token of that hash in the map's order. *)
Definition RegistrationTokenByHash (s : RegTokens) (hash : string) : option RegistrationToken :=
  snd <$> List.find (fun kt => (tk_hash kt.2 =? hash)%string) (map_to_list s).

Definition owned_by (org : option string) (t : RegistrationToken) : bool :=
  match org with None => true | Some o => bool_decide (tk_org t = Some o) end.

Definition newer (a b : RegistrationToken) : bool :=
  if negb (tk_created a =? tk_created b) then After (tk_created a) (tk_created b) else String.ltb (tk_id b) (tk_id a).

Definition ListRegistrationTokens (s : RegTokens) (org : option string) : list RegistrationToken :=
  sort_by newer (List.filter (owned_by org) (map snd (map_to_list s))).

Definition revoke_row (s : RegTokens) (id : string) (at_ : Z) : RegTokens * bool :=
  match s !! id with
  | Some t => if bool_decide (tk_revoked t = None) then (<[id := with_revoked t at_]> s, true) else (s, false)
  | None => (s, false)
  end.

Definition redeem_row (s : RegTokens) (id : string) (now : Z) : RegTokens * bool :=
  match s !! id with
  | Some t => if token_active t now then (<[id := with_uses t (tk_uses t + 1) (Some now)]> s, true) else (s, false)
  | None => (s, false)
  end.

Definition refund_row (s : RegTokens) (id : string) : RegTokens :=
  match s !! id with
  | Some t => if 0 <? tk_uses t then <[id := with_uses t (tk_uses t - 1) (tk_last_used t)]> s else s
  | None => s
  end.

(** ** The service ([registration_token.go]) *)

Definition registrationTokenPrefix : string := "rt_".
Definition maxRegistrationTokenUses : Z := 1000.

Record CreateRegistrationTokenInput := mkCreateToken {
  ci_label : string; ci_org : option string; ci_scopes : list string; ci_grants : list string; ci_max : Z; ci_ttl : Z;
  ci_created_by : option string;
}.

Inductive token_error := ErrRegistrationTokenInvalid | ErrRegistrationTokenScope | ErrTokenRequest | ErrTokenRandom | ErrTokenNotFound.

Section Service.
Context `{TokenLib}.

(** [secret] is [crypto.NewToken()]. *)
Definition CreateRegistrationToken (cfg : RegistrationConfig) (s : RegTokens) (now : Z) (id : string) (secret : option string)
  (i : CreateRegistrationTokenInput) : RegTokens * result token_error (RegistrationToken * string) :=
  let max := if ci_max i =? 0 then 1 else ci_max i in
  if (max <? 0) || (maxRegistrationTokenUses <? max) then (s, Err ErrTokenRequest)
  else
    let ttl := if ci_ttl i =? 0 then rc_token_ttl cfg else ci_ttl i in
    if ttl <? 0 then (s, Err ErrTokenRequest)
    else if negb (forallb registrationGrantAllowed (ci_grants i)) then (s, Err ErrTokenRequest)
    else match secret with
    | None => (s, Err ErrTokenRandom)
    | Some secret =>
        let raw := registrationTokenPrefix +:+ secret in
        let t := mkRegToken id (HashToken raw) (String.substring 0 (String.length registrationTokenPrefix + 4) raw) (ci_label i)
                   (ci_org i) (ci_scopes i) (ci_grants i) max 0 (ci_created_by i) now (now + ttl) None None in
        (InsertRegistrationToken s t, Ok (t, raw))
    end.

Definition RevokeRegistrationToken (s : RegTokens) (now : Z) (id : string) (org : option string) : RegTokens * option token_error :=
  match s !! id with
  | None => (s, Some ErrTokenNotFound)
  | Some t => if negb (owned_by org t) then (s, Some ErrTokenNotFound) else ((revoke_row s id now).1, None)
  end.

Definition registrationWithinScope (t : RegistrationToken) (req : ClientRegistrationRequest) : bool :=
  (bool_decide (tk_scopes t = []) || scopeSubset (scopeSplit (rq_scope req)) (tk_scopes t))
  && (bool_decide (tk_grants t = [])
      || scopeSubset (if bool_decide (rq_grants req = []) then [GrantTypeAuthorizationCode; GrantTypeRefreshToken] else rq_grants req)
           (tk_grants t)).

(** The read and the checks before a use is spent. *)
Definition redeem_checks (s : RegTokens) (now : Z) (raw : string) (req : ClientRegistrationRequest)
  : result token_error RegistrationToken :=
  if negb (String.prefix registrationTokenPrefix raw) then Err ErrRegistrationTokenInvalid
  else match RegistrationTokenByHash s (HashToken raw) with
  | None => Err ErrRegistrationTokenInvalid
  | Some t =>
      if negb (token_active t now) then Err ErrRegistrationTokenInvalid
      else if negb (registrationWithinScope t req) then Err ErrRegistrationTokenScope
      else Ok t
  end.

Definition RedeemRegistrationToken (s : RegTokens) (now : Z) (raw : string) (req : ClientRegistrationRequest)
  : RegTokens * result token_error RegistrationToken :=
  match redeem_checks s now raw req with
  | Err e => (s, Err e)
  | Ok t =>
      match redeem_row s (tk_id t) now with
      | (s', true) => (s', Ok (with_uses t (tk_uses t + 1) (tk_last_used t)))
      | (s', false) => (s', Err ErrRegistrationTokenInvalid)
      end
  end.

Definition RefundRegistrationToken (s : RegTokens) (id : string) : RegTokens := refund_row s id.

(** ** The endpoint ([handlers.go]) *)

Inductive register_response := RegisterFailed (status : Z) (code : string) | RegisterCreated (c : RegisteredClient).

(** [hashes] are the digests of the static operator tokens. *)
Definition dcrBearerValid (hashes : list string) (rawToken : string) : bool :=
  if (rawToken =? "")%string then false else bool_decide (HashToken rawToken ∈ hashes).

Definition register_failure (e : register_error) : register_response :=
  match e with
  | ErrOAuthRegistrationDenied => RegisterFailed 401 "access_denied"
  | ErrInvalidMetadata => RegisterFailed 400 "invalid_client_metadata"
  | ErrClientSecret | ErrPersistClient => RegisterFailed 500 "server_error"
  end.

(** Who registers: nobody in particular, the operator, or the holder of a stored token. *)
Inductive registrant := Anonymous | Operator | Holder (t : RegistrationToken).

Definition is_anonymous (r : registrant) : bool := match r with Anonymous => true | _ => false end.

Context `{UrlLib}.

(** The gate in front of the registration: [authz] is the Authorization header. *)
Definition registration_gate (hashes : list string) (ts : RegTokens) (now : Z) (authz : string) (req : ClientRegistrationRequest)
  : RegTokens * result register_response registrant :=
  let authz := trim_space authz in
  if (authz =? "")%string then (ts, Ok Anonymous)
  else if negb (String.prefix "bearer " (to_lower authz)) then (ts, Err (RegisterFailed 401 "access_denied"))
  else
    let raw := trim_space (String.substring 7 (String.length authz - 7) authz) in
    if dcrBearerValid hashes raw then (ts, Ok Operator)
    else match RedeemRegistrationToken ts now raw req with
    | (ts', Ok t) => (ts', Ok (Holder t))
    | (ts', Err ErrRegistrationTokenScope) => (ts', Err (RegisterFailed 400 "invalid_client_metadata"))
    | (ts', Err ErrRegistrationTokenInvalid) => (ts', Err (RegisterFailed 401 "access_denied"))
    | (ts', Err _) => (ts', Err (RegisterFailed 500 "server_error"))
    end.

(** [body] is the decoded request, [None] when it is not valid JSON. *)
Definition handleRegister (cfg : RegistrationConfig) (hashes : list string) (env : RegisterEnv) (ts : RegTokens) (cs : ClientStore)
  (body : option ClientRegistrationRequest) (authz : string) : RegTokens * ClientStore * register_response :=
  match body with
  | None => (ts, cs, RegisterFailed 400 "invalid_client_metadata")
  | Some req =>
      match registration_gate hashes ts (re_now env) authz req with
      | (ts', Err r) => (ts', cs, r)
      | (ts', Ok who) =>
          match RegisterClient cfg env cs req (is_anonymous who) with
          | (cs', Ok c) => (ts', cs', RegisterCreated c)
          | (cs', Err e) =>
              (match who with Holder t => RefundRegistrationToken ts' (tk_id t) | _ => ts' end, cs', register_failure e)
          end
      end
  end.
End Service.

(** ** Interleavings of registrations *)

(** The stores; the requests that passed a token's checks; the requests that spent a use and whose registration has
    not finished; and the clients registered with a token. *)
Record reg_world := mkRegWorld {
  rw_tokens : RegTokens; rw_clients : ClientStore; rw_checked : list (string * ClientRegistrationRequest);
  rw_spent : list (string * ClientRegistrationRequest); rw_registered : list (string * string);
}.
Definition reg_world0 : reg_world := mkRegWorld ∅ (mkClientStore ∅ ∅) [] [] [].

Section Worlds.
Context `{TokenLib} `{UrlLib} (cfg : RegistrationConfig).

(** One storage call of a request or of the administrator. Token ids are fresh. *)
Inductive reg_step : reg_world -> reg_world -> Prop :=
  | rs_create ts cs ck sp rg now id secret i ts' r :
      ts !! id = None -> CreateRegistrationToken cfg ts now id secret i = (ts', r) ->
      reg_step (mkRegWorld ts cs ck sp rg) (mkRegWorld ts' cs ck sp rg)
  | rs_revoke ts cs ck sp rg now id org ts' e :
      RevokeRegistrationToken ts now id org = (ts', e) ->
      reg_step (mkRegWorld ts cs ck sp rg) (mkRegWorld ts' cs ck sp rg)
  | rs_check ts cs ck sp rg now raw req t :
      redeem_checks ts now raw req = Ok t ->
      reg_step (mkRegWorld ts cs ck sp rg) (mkRegWorld ts cs ((tk_id t, req) :: ck) sp rg)
  | rs_spend ts cs ck sp rg now id req ts' :
      (id, req) ∈ ck -> redeem_row ts id now = (ts', true) ->
      reg_step (mkRegWorld ts cs ck sp rg) (mkRegWorld ts' cs ck ((id, req) :: sp) rg)
  | rs_refund ts cs ck sp1 id req sp2 rg env cs0 cs1 e :
      RegisterClient cfg env cs0 req false = (cs1, Err e) ->
      reg_step (mkRegWorld ts cs ck (sp1 ++ (id, req) :: sp2) rg)
               (mkRegWorld (RefundRegistrationToken ts id) cs ck (sp1 ++ sp2) rg)
  | rs_register ts cs ck sp1 id req sp2 rg env cs' c :
      RegisterClient cfg env cs req false = (cs', Ok c) ->
      reg_step (mkRegWorld ts cs ck (sp1 ++ (id, req) :: sp2) rg)
               (mkRegWorld ts cs' ck (sp1 ++ sp2) ((id, rg_client_id c) :: rg))
  | rs_other ts cs ck sp rg env req anonymous cs' r :
      RegisterClient cfg env cs req anonymous = (cs', r) ->
      reg_step (mkRegWorld ts cs ck sp rg) (mkRegWorld ts cs' ck sp rg).

(** The caps of a token never change. *)
Definition same_caps (t t' : RegistrationToken) : Prop :=
  tk_id t' = tk_id t ∧ tk_scopes t' = tk_scopes t ∧ tk_grants t' = tk_grants t ∧ tk_max t' = tk_max t.

Definition count_id {A} (id : string) (l : list (string * A)) : Z := Z.of_nat (length (filter (fun p => p.1 = id) l)).

(** What a client declared is within the caps of the token that registered it. *)
Record capped_client (t : RegistrationToken) (c : OAuthClient) : Prop := {
  cc_public : oc_anonymous c = false;
  cc_grants : tk_grants t ≠ [] -> rq_grants (oc_meta c) ⊆ tk_grants t;
  cc_scopes : tk_scopes t ≠ [] -> scopeSplit (rq_scope (oc_meta c)) ⊆ tk_scopes t;
}.

Record reg_inv (w : reg_world) : Prop := {
  ri_id : ∀ id t, rw_tokens w !! id = Some t -> tk_id t = id;
  ri_max : ∀ id t, rw_tokens w !! id = Some t -> tk_uses t <= tk_max t <= maxRegistrationTokenUses;
  ri_uses : ∀ id t, rw_tokens w !! id = Some t -> tk_uses t = count_id id (rw_spent w) + count_id id (rw_registered w);
  ri_known : ∀ id, rw_tokens w !! id = None -> count_id id (rw_spent w) = 0 ∧ count_id id (rw_registered w) = 0;
  ri_checked : ∀ id req, (id, req) ∈ rw_checked w -> ∃ t, rw_tokens w !! id = Some t ∧ registrationWithinScope t req = true;
  ri_spent : ∀ id req, (id, req) ∈ rw_spent w -> ∃ t, rw_tokens w !! id = Some t ∧ registrationWithinScope t req = true;
  ri_registered : ∀ id cid, (id, cid) ∈ rw_registered w ->
    ∃ t c, rw_tokens w !! id = Some t ∧ cs_clients (rw_clients w) !! cid = Some c ∧ capped_client t c;
}.

Definition caps_kept (ts ts' : RegTokens) : Prop :=
  ∀ id t, ts !! id = Some t -> ∃ t', ts' !! id = Some t' ∧ same_caps t t'.

Lemma within_same_caps t t' req : same_caps t t' -> registrationWithinScope t req = registrationWithinScope t' req.
Proof. intros (_ & Hs & Hg & _). unfold registrationWithinScope. by rewrite Hs, Hg. Qed.

Lemma capped_same_caps t t' c : same_caps t t' -> capped_client t c -> capped_client t' c.
Proof. intros (_ & Hs & Hg & _) [? ? ?]. constructor; by rewrite ?Hs, ?Hg. Qed.

Lemma caps_kept_insert ts id t t' : ts !! id = Some t -> same_caps t t' -> caps_kept ts (<[id := t']> ts).
Proof.
  intros Ht Hs id0 t0 Ht0. destruct (decide (id0 = id)) as [->|].
  - simplify_eq. exists t'. by rewrite lookup_insert_eq.
  - exists t0. rewrite lookup_insert_ne by done. repeat split; done.
Qed.

Lemma caps_kept_refl ts : caps_kept ts ts.
Proof. intros id t Ht. exists t. by repeat split. Qed.

Lemma count_id_cons {A} id x (y : A) l : count_id id ((x, y) :: l) = (if bool_decide (x = id) then 1 else 0) + count_id id l.
Proof. unfold count_id. rewrite filter_cons. case_bool_decide; case_decide; simpl in *; try done; lia. Qed.

Lemma count_id_middle {A} id x (y : A) l1 l2 :
  count_id id (l1 ++ (x, y) :: l2) = (if bool_decide (x = id) then 1 else 0) + count_id id (l1 ++ l2).
Proof.
  rewrite <- (count_id_cons id x y (l1 ++ l2)). unfold count_id. f_equal. by rewrite (Permutation_middle l1 l2 (x, y)).
Qed.

Lemma count_id_nonneg {A} id (l : list (string * A)) : 0 <= count_id id l.
Proof. unfold count_id. lia. Qed.

(** What a registration stores: a client of the validated request, under a new identifier. *)
Lemma RegisterClient_ok env cs req anonymous cs' c :
  RegisterClient cfg env cs req anonymous = (cs', Ok c) ->
  ∃ req' o, validateRegistrationRequest req anonymous = Some req' ∧ validateTokenMetadata cfg req' anonymous = true
    ∧ validateOIDCMetadata cfg req' anonymous = true ∧ (anonymous = true -> rc_anonymous cfg = true)
    ∧ cs_clients cs !! rg_client_id c = None ∧ cs_clients cs' = <[rg_client_id c := o]> (cs_clients cs)
    ∧ oc_meta o = req' ∧ rg_meta c = req' ∧ oc_anonymous o = anonymous.
Proof.
  unfold RegisterClient. destruct (anonymous && _) eqn:Ea; [done|].
  destruct (validateRegistrationRequest req anonymous) as [req'|] eqn:Ev; [|done].
  destruct (validateTokenMetadata cfg req' anonymous) eqn:Et; [|done].
  destruct (validateOIDCMetadata cfg req' anonymous) eqn:Eo; [|done]. simpl.
  assert (Han : anonymous = true -> rc_anonymous cfg = true) by (destruct anonymous, (rc_anonymous cfg); done).
  destruct (if (rq_auth_method req' =? ClientAuthNone)%string then _ else _) as [[[secret hash] expires]|]; [|done].
  unfold InsertOAuthClient. simpl. destruct (cs_clients cs !! _) eqn:El; [done|]. intros [= <- <-]. simpl.
  eexists req', _. repeat split; try done.
Qed.

Lemma RegisterClient_kept env cs req anonymous cs' r id o :
  RegisterClient cfg env cs req anonymous = (cs', r) -> cs_clients cs !! id = Some o -> cs_clients cs' !! id = Some o.
Proof.
  intros Hr Ho. destruct r as [c|e].
  - apply RegisterClient_ok in Hr as (req' & o' & _ & _ & _ & _ & Hnew & -> & _).
    rewrite lookup_insert_ne; [done|]. congruence.
  - revert Hr. unfold RegisterClient. repeat case_match; intros; simplify_eq; done.
Qed.

(** Validation keeps what the request declares, apart from the default grants. *)
Lemma validate_declared req anonymous req' :
  validateRegistrationRequest req anonymous = Some req' ->
  rq_scope req' = rq_scope req ∧ rq_redirects req' = rq_redirects req
  ∧ rq_grants req' = (if bool_decide (rq_grants req = []) then [GrantTypeAuthorizationCode; GrantTypeRefreshToken] else rq_grants req).
Proof.
  unfold validateRegistrationRequest. intros Hv. repeat (case_match; [done|]). simplify_eq. done.
Qed.

Lemma scopeSubset_elem sub sup : scopeSubset sub sup = true -> sub ⊆ sup.
Proof. unfold scopeSubset. rewrite forallb_forall. intros Hf x Hx. apply list_elem_of_In in Hx. by apply Hf, bool_decide_eq_true in Hx. Qed.

(** A registration that passed a token's checks stores a client within its caps. *)
Lemma registered_capped env cs req cs' c t :
  RegisterClient cfg env cs req false = (cs', Ok c) -> registrationWithinScope t req = true ->
  ∃ o, cs_clients cs' !! rg_client_id c = Some o ∧ capped_client t o.
Proof.
  intros (req' & o & Hv & _ & _ & _ & _ & -> & Hm & _ & Ha)%RegisterClient_ok Hw. exists o. rewrite lookup_insert_eq. split; [done|].
  apply validate_declared in Hv as (Hs & _ & Hg). unfold registrationWithinScope in Hw. apply andb_true_iff in Hw as [Hw1 Hw2].
  constructor; [done| |]; intros Hne; rewrite Hm.
  - rewrite Hg. rewrite (bool_decide_false _ Hne) in Hw2. by apply scopeSubset_elem.
  - rewrite Hs. rewrite (bool_decide_false _ Hne) in Hw1. by apply scopeSubset_elem.
Qed.

(** The facts that only read the caps survive a change of the tokens that keeps them. *)
Lemma caps_kept_within ts ts' (l : list (string * ClientRegistrationRequest)) :
  caps_kept ts ts' -> (∀ id req, (id, req) ∈ l -> ∃ t, ts !! id = Some t ∧ registrationWithinScope t req = true) ->
  ∀ id req, (id, req) ∈ l -> ∃ t, ts' !! id = Some t ∧ registrationWithinScope t req = true.
Proof.
  intros Hk Hl id req (t & Ht & Hw)%Hl. apply Hk in Ht as (t' & Ht' & Hs). exists t'.
  by rewrite <- (within_same_caps t).
Qed.

Lemma caps_kept_registered ts ts' (cs cs' : ClientStore) (l : list (string * string)) :
  caps_kept ts ts' -> (∀ cid o, cs_clients cs !! cid = Some o -> cs_clients cs' !! cid = Some o) ->
  (∀ id cid, (id, cid) ∈ l -> ∃ t c, ts !! id = Some t ∧ cs_clients cs !! cid = Some c ∧ capped_client t c) ->
  ∀ id cid, (id, cid) ∈ l -> ∃ t c, ts' !! id = Some t ∧ cs_clients cs' !! cid = Some c ∧ capped_client t c.
Proof.
  intros Hk Hc Hl id cid (t & c & Ht & Hcl & Hw)%Hl. apply Hk in Ht as (t' & Ht' & Hs). exists t', c.
  eauto using capped_same_caps.
Qed.

(** A token's row is replaced by one with the same caps, and the requests in flight change with its uses. *)
Lemma reg_inv_update ts cs ck sp rg id t t' sp' :
  reg_inv (mkRegWorld ts cs ck sp rg) -> ts !! id = Some t -> same_caps t t' -> tk_uses t' <= tk_max t ->
  (∀ i, count_id i sp' - count_id i sp = if bool_decide (i = id) then tk_uses t' - tk_uses t else 0) ->
  (∀ i req, (i, req) ∈ sp' -> (i, req) ∈ sp ∨ (i, req) ∈ ck) ->
  reg_inv (mkRegWorld (<[id := t']> ts) cs ck sp' rg).
Proof.
  intros [I1 I2 I3 I4 I5 I6 I7] Ht Hs Hu Hc Hsp. simpl in *. pose proof (caps_kept_insert _ _ _ _ Ht Hs) as Hk.
  destruct Hs as (Hi & _ & _ & Hm). constructor; simpl.
  - intros i u. rewrite lookup_insert_Some. intros [[<- <-]|[_ ?]]; [rewrite Hi|]; eauto.
  - intros i u. rewrite lookup_insert_Some. intros [[<- <-]|[_ ?]]; [rewrite Hm|eauto]. apply I2 in Ht. lia.
  - intros i u. rewrite lookup_insert_Some. specialize (Hc i). intros [[<- <-]|[Hne Hi0]].
    + rewrite bool_decide_true in Hc by done. apply I3 in Ht. lia.
    + rewrite bool_decide_false in Hc by done. apply I3 in Hi0. lia.
  - intros i. rewrite lookup_insert_None. intros [Hn Hne]. specialize (Hc i). rewrite bool_decide_false in Hc by done.
    destruct (I4 i Hn) as [? ?]. split; [lia|done].
  - by apply (caps_kept_within ts).
  - apply (caps_kept_within ts); [done|]. intros i req [?|?]%Hsp; eauto.
  - by apply (caps_kept_registered ts _ cs).
Qed.

(** A created token is new, unused, and allows at most a thousand uses. *)
Lemma CreateRegistrationToken_spec ts now id secret i ts' r :
  CreateRegistrationToken cfg ts now id secret i = (ts', r) ->
  (ts' = ts ∧ ∃ e, r = Err e)
  ∨ ∃ t raw, r = Ok (t, raw) ∧ ts' = <[id := t]> ts ∧ tk_id t = id ∧ tk_uses t = 0 ∧ 0 < tk_max t <= maxRegistrationTokenUses.
Proof.
  unfold CreateRegistrationToken, InsertRegistrationToken. set (max := if ci_max i =? 0 then 1 else ci_max i).
  set (ttl := if ci_ttl i =? 0 then _ else _). destruct ((max <? 0) || _) eqn:Em; [intros [= <- <-]; left; eauto|].
  destruct (ttl <? 0); [intros [= <- <-]; left; eauto|]. destruct (forallb _ _); [|intros [= <- <-]; left; eauto].
  destruct secret as [secret|]; [|intros [= <- <-]; left; eauto]. intros [= <- <-]. right. do 2 eexists. split; [done|].
  simpl. repeat split; try done; unfold max in *; bool_prop; destruct (ci_max i =? 0) eqn:Ez; bool_prop; lia.
Qed.

Lemma reg_inv_create ts cs ck sp rg now id secret i ts' r :
  ts !! id = None -> CreateRegistrationToken cfg ts now id secret i = (ts', r) ->
  reg_inv (mkRegWorld ts cs ck sp rg) -> reg_inv (mkRegWorld ts' cs ck sp rg).
Proof.
  intros Hnew [[-> _]|(t & raw & _ & -> & Hid & Hu & Hmax)]%CreateRegistrationToken_spec [I1 I2 I3 I4 I5 I6 I7]; [done|].
  simpl in *. destruct (I4 id Hnew) as [Hc1 Hc2].
  assert (Hk : caps_kept ts (<[id := t]> ts)).
  { intros j u Hj. exists u. rewrite lookup_insert_ne by congruence. by repeat split. }
  constructor; simpl.
  - intros j u. rewrite lookup_insert_Some. intros [[<- <-]|[_ ?]]; eauto.
  - intros j u. rewrite lookup_insert_Some. intros [[<- <-]|[_ ?]]; [lia|eauto].
  - intros j u. rewrite lookup_insert_Some. intros [[<- <-]|[_ ?]]; [lia|eauto].
  - intros j. rewrite lookup_insert_None. intros [? _]. eauto.
  - by apply (caps_kept_within ts).
  - by apply (caps_kept_within ts).
  - by apply (caps_kept_registered ts _ cs).
Qed.

Lemma reg_inv_step w w' : reg_step w w' -> reg_inv w -> reg_inv w'.
Proof.
  destruct 1 as [ts cs ck sp rg now id secret i ts' r Hnew Hr|ts cs ck sp rg now id org ts' e Hr
    |ts cs ck sp rg now raw req t Hr|ts cs ck sp rg now id req ts' Hck Hr|ts cs ck sp1 id req sp2 rg env cs0 cs1 e Hr
    |ts cs ck sp1 id req sp2 rg env cs' c Hr|ts cs ck sp rg env req anonymous cs' r Hr]; intros I.
  - by eapply reg_inv_create.
  - revert Hr. unfold RevokeRegistrationToken. destruct (ts !! id) as [t|] eqn:Et; [|by intros [= <- _]].
    destruct (owned_by org t); [|by intros [= <- _]]. simpl. unfold revoke_row. rewrite Et.
    case_bool_decide; [|by intros [= <- _]]. intros [= <- _]. pose proof (ri_max _ I id t Et). eapply reg_inv_update; eauto.
    + by repeat split.
    + simpl in *. lia.
    + intros j. simpl. case_bool_decide; lia.
  - destruct I as [I1 I2 I3 I4 I5 I6 I7]. simpl in *. constructor; simpl; try done.
    intros j r [[= -> ->]|?]%elem_of_cons; [|eauto]. revert Hr. unfold redeem_checks.
    destruct (String.prefix _ raw); [|done]. unfold RegistrationTokenByHash.
    destruct (List.find _ _) as [[k u]|] eqn:Ef; [|done]. simpl. destruct (token_active u now); [|done].
    destruct (registrationWithinScope u req) eqn:Ew; [|done]. intros [= <-].
    apply find_some in Ef as [Ef%list_elem_of_In _]. apply elem_of_map_to_list in Ef. pose proof (I1 _ _ Ef) as <-. eauto.
  - revert Hr. unfold redeem_row. destruct (ts !! id) as [t|] eqn:Et; [|done]. destruct (token_active t now) eqn:Ea; [|done].
    intros [= <-]. unfold token_active in Ea. bool_prop. eapply reg_inv_update; eauto.
    + by repeat split.
    + simpl. lia.
    + intros j. rewrite count_id_cons. simpl. repeat case_bool_decide; simplify_eq; lia.
    + intros j r [[= -> ->]|?]%elem_of_cons; eauto.
  - unfold RefundRegistrationToken, refund_row. destruct (ri_spent _ I id req) as (t & Et & _); [simpl; set_solver|].
    simpl in Et. rewrite Et. pose proof (ri_uses _ I id t Et) as Hu. pose proof (ri_max _ I id t Et) as Hmax. simpl in *.
    rewrite count_id_middle, bool_decide_true in Hu by done.
    pose proof (count_id_nonneg id (sp1 ++ sp2)). pose proof (count_id_nonneg id rg).
    rewrite (proj2 (Z.ltb_lt 0 (tk_uses t))) by lia. eapply reg_inv_update; eauto.
    + by repeat split.
    + simpl. lia.
    + intros j. rewrite count_id_middle. simpl. repeat case_bool_decide; simplify_eq; lia.
    + intros j r Hj. left. set_solver.
  - destruct (ri_spent _ I id req) as (t & Et & Hw); [simpl; set_solver|]. simpl in Et.
    destruct (registered_capped _ _ _ _ _ t Hr Hw) as (o & Ho & Hcap).
    destruct I as [I1 I2 I3 I4 I5 I6 I7]; simpl in *. constructor; simpl; try done.
    + intros j u Hj. specialize (I3 j u Hj). rewrite count_id_middle in I3. rewrite count_id_cons. lia.
    + intros j Hj. destruct (I4 j Hj) as [Hc1 Hc2]. rewrite count_id_middle in Hc1. rewrite count_id_cons.
      pose proof (count_id_nonneg j (sp1 ++ sp2)). case_bool_decide; lia.
    + intros j r Hj. apply I6. set_solver.
    + intros j cid [[= -> ->]|Hj]%elem_of_cons; [exists t, o; done|]. revert j cid Hj. apply (caps_kept_registered ts ts cs); [apply caps_kept_refl| |done].
      intros cid o'. by eapply RegisterClient_kept.
  - destruct I as [I1 I2 I3 I4 I5 I6 I7]; simpl in *. constructor; simpl; try done.
    apply (caps_kept_registered ts ts cs); [apply caps_kept_refl| |done]. intros cid o'. by eapply RegisterClient_kept.
Qed.

Lemma reg_inv_reachable w : rtc reg_step reg_world0 w -> reg_inv w.
Proof.
  intros Hw. assert (Hs : reg_inv reg_world0) by (constructor; simpl; set_solver).
  induction Hw as [w|w1 w2 w3 Hstep _ IH]; [done|]. apply IH. by eapply reg_inv_step.
Qed.

(** C19. Registration tokens are spent at most as often as they allow. After any interleaving of the creation and
    revocation of tokens and of the storage calls of registrations, failed and refunded ones included, the clients
    registered with a token are at most its [MaxUses], which is at most a thousand, and each of them is stored, is not
    anonymous, and declares only grant types and scopes that the token allows. *)
Theorem registrations_within_token w id t (Hw : rtc reg_step reg_world0 w) (Ht : rw_tokens w !! id = Some t) :
  count_id id (rw_registered w) <= tk_max t <= 1000
  ∧ ∀ cid, (id, cid) ∈ rw_registered w -> ∃ c, cs_clients (rw_clients w) !! cid = Some c ∧ capped_client t c.
Proof.
  apply reg_inv_reachable in Hw as [_ I2 I3 _ _ _ I7]. split.
  - specialize (I2 _ _ Ht). specialize (I3 _ _ Ht). pose proof (count_id_nonneg id (rw_spent w)).
    unfold maxRegistrationTokenUses in I2. lia.
  - intros cid (t' & c & Ht' & Hc & Hcap)%I7. simplify_eq. eauto.
Qed.

(** ** The endpoint is a run of steps *)

Lemma registration_gate_holder hashes ts now authz req ts' t :
  (∀ i u, ts !! i = Some u -> tk_id u = i) -> registration_gate hashes ts now authz req = (ts', Ok (Holder t)) ->
  ∃ raw t0, redeem_checks ts now raw req = Ok t0 ∧ tk_id t = tk_id t0 ∧ redeem_row ts (tk_id t0) now = (ts', true).
Proof.
  intros Hid. unfold registration_gate. repeat (case_match; try done). unfold RedeemRegistrationToken in *.
  intros [= <- <-]. match goal with E : match redeem_checks _ _ ?r _ with _ => _ end = _ |- _ => exists r; revert E end.
  destruct (redeem_checks _ _ _ _) as [t0|]; [|done]. destruct (redeem_row _ _ _) as [s' []] eqn:Er; [|done].
  intros [= -> <-]. eauto.
Qed.

Lemma registration_gate_other hashes ts now authz req ts' r :
  registration_gate hashes ts now authz req = (ts', r) -> (∀ t, r ≠ Ok (Holder t)) -> ts' = ts.
Proof.
  unfold registration_gate, RedeemRegistrationToken. intros Hg Hn. revert Hg.
  destruct (_ =? "")%string; [by intros [= <- _]|]. destruct (negb _); [by intros [= <- _]|].
  destruct (dcrBearerValid _ _); [by intros [= <- _]|].
  destruct (redeem_checks _ _ _ _) as [t0|e]; [|by destruct e; intros [= <- _]].
  destruct (redeem_row ts (tk_id t0) now) as [s' []] eqn:Er; [intros [= _ <-]; by edestruct Hn|].
  revert Er. unfold redeem_row. repeat case_match; intros; by simplify_eq.
Qed.

(** The registration endpoint is a run of the storage calls above: whatever it answers, the stores it leaves are
    those of a sequence of steps, with the request's spent use either turned into the client it registered or given
    back. *)
Theorem handleRegister_steps hashes env ts cs ck sp rg body authz ts' cs' resp
  (Hid : ∀ i u, ts !! i = Some u -> tk_id u = i)
  (Hr : handleRegister cfg hashes env ts cs body authz = (ts', cs', resp)) :
  ∃ ck' rg', rtc reg_step (mkRegWorld ts cs ck sp rg) (mkRegWorld ts' cs' ck' sp rg')
    ∧ (rg' = rg ∨ ∃ id c, resp = RegisterCreated c ∧ rg' = (id, rg_client_id c) :: rg).
Proof.
  revert Hr. unfold handleRegister. destruct body as [req|].
  2: { intros [= <- <- _]. exists ck, rg. split; [constructor|by left]. }
  destruct (registration_gate hashes ts (re_now env) authz req) as [ts1 [who|r]] eqn:Eg.
  2: { apply registration_gate_other in Eg; [|done]. subst. intros [= <- <- _]. exists ck, rg. split; [constructor|by left]. }
  destruct (RegisterClient cfg env cs req (is_anonymous who)) as [cs1 [c|e]] eqn:Er; intros [= <- <- <-];
    destruct who as [| |t]; simpl in Er; try (apply registration_gate_other in Eg; [|done]; subst ts1);
    try (exists ck, rg; split; [apply rtc_once; by eapply rs_other|by left]);
    apply registration_gate_holder in Eg as (raw & t0 & Hck & Ht & Hrow); try done; rewrite ?Ht;
    exists ((tk_id t0, req) :: ck).
  - exists ((tk_id t0, rg_client_id c) :: rg). split; [|right; eauto]. eapply rtc_l; [by eapply rs_check|].
    eapply rtc_l; [eapply rs_spend; [by left|done]|]. apply rtc_once. by eapply (rs_register _ _ _ [] _ _ sp).
  - exists rg. split; [|by left]. eapply rtc_l; [by eapply rs_check|]. eapply rtc_l; [eapply rs_spend; [by left|done]|].
    assert (cs1 = cs) as ->; [|apply rtc_once; by eapply (rs_refund _ _ _ [] _ _ sp)].
    revert Er. unfold RegisterClient. repeat case_match; intros; by simplify_eq.
Qed.

(** ** Who may register what *)

(** A redirect URI is an absolute URI without user and fragment: https with a host, http on a loopback host, or a
    private scheme in reverse DNS form, none of the dangerous ones. *)
Record safe_redirect (raw : string) (u : URL) : Prop := {
  sr_parse : parse_url raw = Some u;
  sr_fragment : u_fragment u = "" ∧ contains_char "#" raw = false;
  sr_user : u_user u = false;
  sr_scheme : (to_lower (u_scheme u) = "https" ∧ u_hostname u ≠ "")
    ∨ (to_lower (u_scheme u) = "http" ∧ to_lower (u_hostname u) ∈ ["localhost"; "127.0.0.1"; "::1"])
    ∨ ((to_lower (u_scheme u) ∉ forbidden_schemes) ∧ (2 <= length (split_dots "" (to_lower (u_scheme u))))%nat);
}.

Lemma ValidateRedirectURI_safe raw : ValidateRedirectURI raw = true -> ∃ u, safe_redirect raw u.
Proof.
  unfold ValidateRedirectURI, validateRedirectURIWith. destruct (raw =? "")%string; [done|].
  destruct (parse_url raw) as [u|] eqn:Ep; [|done]. destruct (u_scheme u =? "")%string; [done|].
  destruct (negb _ || _) eqn:Ef; [done|]. destruct (u_user u) eqn:Eu; [done|]. intros Hs. exists u.
  apply orb_false_iff in Ef as [Ef1 Ef2]. apply negb_false_iff, String.eqb_eq in Ef1.
  constructor; try done. revert Hs. destruct (_ =? "https")%string eqn:E1.
  { apply String.eqb_eq in E1. intros Hh. left. split; [done|]. apply negb_true_iff, String.eqb_neq in Hh. done. }
  destruct (_ =? "http")%string eqn:E2.
  { apply String.eqb_eq in E2. intros Hh%bool_decide_eq_true. right. left. done. }
  case_bool_decide as E3; [done|]. rewrite bool_decide_false by set_solver. intros [Hl%Nat.leb_le _]%andb_true_iff.
  right. right. done.
Qed.

(** What a validated request satisfies; [anonymous] ones more. *)
Record valid_registration (req : ClientRegistrationRequest) (anonymous : bool) : Prop := {
  vr_redirects : ∀ raw, raw ∈ rq_redirects req -> ∃ u, safe_redirect raw u;
  vr_grants : forallb registrationGrantAllowed (rq_grants req) = true;
  vr_single : anonymous = true -> (length (rq_redirects req) <= 1)%nat;
  vr_public : anonymous = true -> rq_auth_method req = ClientAuthNone;
}.

Lemma validateRegistrationRequest_valid req anonymous req' :
  validateRegistrationRequest req anonymous = Some req' -> valid_registration req' anonymous.
Proof.
  unfold validateRegistrationRequest.
  set (grants := if bool_decide (rq_grants req = []) then _ else _). set (responses := if bool_decide (rq_responses req = []) then _ else _).
  set (method := if (rq_auth_method req =? "")%string then _ else _).
  destruct (_ && bool_decide (rq_redirects req = [])); [done|]. destruct (anonymous && (1 <? _)%nat) eqn:E1; [done|].
  destruct (forallb ValidateRedirectURI _) eqn:E2; [|done]. destruct (forallb registrationGrantAllowed grants) eqn:E3; [|done].
  destruct (forallb (String.eqb _) responses); [|done]. destruct (bool_decide (method ∈ _)); [|done].
  destruct (anonymous && negb _) eqn:E4; [done|]. intros [= <-]. constructor; simpl; try done.
  - intros raw Hraw. apply ValidateRedirectURI_safe. rewrite forallb_forall in E2. by apply E2, list_elem_of_In.
  - intros ->. simpl in E1. apply Nat.ltb_ge in E1. lia.
  - intros ->. simpl in E4. by apply negb_false_iff, String.eqb_eq in E4.
Qed.

(** Anonymous clients set no metadata that steers the server. *)
Lemma anonymous_metadata req :
  validateTokenMetadata cfg req true = true -> validateOIDCMetadata cfg req true = true ->
  rq_token_format req = "" ∧ rq_token_alg req = "" ∧ rq_detail_types req = [] ∧ rq_subject_type req = "" ∧ rq_logout_uri req = "".
Proof.
  unfold validateTokenMetadata, validateOIDCMetadata. intros Ht Ho.
  destruct (_ && bool_decide (rq_detail_types req = [])) eqn:E1; [|done].
  destruct (_ && negb (rq_logout_session req)) eqn:E2; [|by destruct (rc_oidc cfg)].
  rewrite !andb_true_iff, !String.eqb_eq, bool_decide_eq_true in E1. rewrite !andb_true_iff, !String.eqb_eq in E2. naive_solver.
Qed.

(** What the registration endpoint lets in. A client is created only by an authorized request: anonymously if the
    configuration allows it, with a static operator token, or with a stored token whose checks passed. Its redirect
    URIs are all safe, its grant types supported, and an anonymous client is public, has at most one redirect URI and
    sets no token, authorization details or OpenID metadata. *)
Theorem registration_sound hashes env ts cs body authz ts' cs' c
  (Hr : handleRegister cfg hashes env ts cs body authz = (ts', cs', RegisterCreated c)) :
  ∃ req who o, body = Some req ∧ registration_gate hashes ts (re_now env) authz req = (ts', Ok who)
    ∧ cs_clients cs !! rg_client_id c = None ∧ cs_clients cs' = <[rg_client_id c := o]> (cs_clients cs)
    ∧ oc_anonymous o = is_anonymous who ∧ rg_meta c = oc_meta o ∧ valid_registration (oc_meta o) (is_anonymous who)
    ∧ (who = Anonymous -> rc_anonymous cfg = true ∧ rq_token_format (oc_meta o) = "" ∧ rq_token_alg (oc_meta o) = ""
         ∧ rq_detail_types (oc_meta o) = [] ∧ rq_subject_type (oc_meta o) = "" ∧ rq_logout_uri (oc_meta o) = "").
Proof.
  revert Hr. unfold handleRegister. destruct body as [req|]; [|done].
  destruct (registration_gate hashes ts (re_now env) authz req) as [ts1 [who|r]] eqn:Eg.
  2: { intros [= _ _ Ec]. subst r. revert Eg. unfold registration_gate. by repeat case_match. }
  destruct (RegisterClient cfg env cs req (is_anonymous who)) as [cs1 [c'|e]] eqn:Er; intros [= <- <- Hc]; [subst c'|by destruct e].
  apply RegisterClient_ok in Er as (req' & o & Hv & Ht & Ho & Han & Hnew & Hcs & Hm & Hrg & Hoa).
  exists req, who, o. rewrite Hm. apply validateRegistrationRequest_valid in Hv. repeat (split; [done|]).
  intros ->. split; [by apply Han|]. by apply anonymous_metadata.
Qed.
End Worlds.

(** The secret's expiry is never set: only a confidential client has a secret, and an anonymous one is public. *)
Lemma secret_never_expires `{UrlLib} cfg env cs req anonymous cs' c :
  RegisterClient cfg env cs req anonymous = (cs', Ok c) -> rg_secret_expires c = 0.
Proof.
  unfold RegisterClient. destruct (anonymous && _); [done|].
  destruct (validateRegistrationRequest req anonymous) as [req'|] eqn:Ev; [|done].
  apply validateRegistrationRequest_valid in Ev. destruct (validateTokenMetadata _ _ _); [|done].
  destruct (validateOIDCMetadata _ _ _); [|done]. simpl.
  destruct (rq_auth_method req' =? ClientAuthNone)%string eqn:Em.
  - destruct (InsertOAuthClient _ _ _) as [[]|]; [by intros [= _ <-]|done].
  - destruct anonymous; [apply String.eqb_neq in Em; by destruct Em; apply (vr_public _ _ Ev)|].
    destruct (re_secret env), (re_hash env); try done. destruct (InsertOAuthClient _ _ _) as [[]|]; [by intros [= _ <-]|done].
Qed.

(** ** A registration *)

#[local] Existing Instance TokenGrants.demo_lib.

Definition toy_url (raw : string) : option URL :=
  if String.prefix "https://app/" raw then Some (mkURL "https" "" false "app" "app" "" "/cb" "/cb" "" "") else None.
Definition toy_urls : UrlLib := {| parse_url := toy_url; to_lower s := s; trim_space s := s |}.
#[local] Existing Instance toy_urls.

Definition reg_cfg : RegistrationConfig := mkRegistrationConfig false None None None "EdDSA" false (24 * Hour).
Definition reg_input : CreateRegistrationTokenInput := mkCreateToken "ci" None ["read"] [GrantTypeAuthorizationCode] 1 0 None.
Definition reg_request : ClientRegistrationRequest :=
  mkRegistration "app" ["https://app/cb"] [GrantTypeAuthorizationCode] [] "read" "" "" (mkMeta [] "" "" "" "" "") "" "" "" "" [] "" []
    "" false.
Definition reg_env : RegisterEnv := mkRegisterEnv "c1" "i1" demo_now (Some "secret") (Some "hash").
Definition reg_tokens : RegTokens := (CreateRegistrationToken reg_cfg ∅ demo_now "t1" (Some "s1") reg_input).1.
Definition reg_none : ClientStore := mkClientStore ∅ ∅.

Definition reg_row : RegistrationToken := default (mkRegToken "" "" "" "" None [] [] 0 0 None 0 0 None None) (reg_tokens !! "t1").
Definition reg_spent : RegTokens := (redeem_row reg_tokens "t1" demo_now).1.
Definition reg_registered : ClientStore := (RegisterClient reg_cfg reg_env reg_none reg_request false).1.
Definition reg_client : RegisteredClient :=
  match (RegisterClient reg_cfg reg_env reg_none reg_request false).2 with Ok c => c | Err _ => mkRegistered "" 0 "" 0 reg_request end.

(** One use: the first registration succeeds, the second is refused. *)
Example register_twice :
  let '(ts, cs, r) := handleRegister reg_cfg [] reg_env reg_tokens reg_none (Some reg_request) "bearer rt_s1" in
  r = RegisterCreated reg_client ∧ (handleRegister reg_cfg [] reg_env ts cs (Some reg_request) "bearer rt_s1").2 = RegisterFailed 401 "access_denied".
Proof. vm_compute. done. Qed.

Lemma registrations_within_token_witness :
  count_id "t1" [("t1", "client-c1")] <= 1 <= 1000
  ∧ ∀ cid, (("t1", cid) : string * string) ∈ [("t1", "client-c1")] -> ∃ c, cs_clients reg_registered !! cid = Some c ∧ capped_client (with_uses reg_row 1 (Some demo_now)) c.
Proof.
  refine (registrations_within_token reg_cfg
    (mkRegWorld reg_spent reg_registered [("t1", reg_request)] [] [("t1", "client-c1")]) "t1"
    (with_uses reg_row 1 (Some demo_now)) _ _); [|vm_compute; reflexivity].
  eapply rtc_l; [eapply (rs_create reg_cfg ∅ reg_none [] [] [] demo_now "t1" (Some "s1") reg_input); [done|vm_compute; reflexivity]|].
  eapply rtc_l; [eapply (rs_check reg_cfg reg_tokens reg_none [] [] [] demo_now "rt_s1" reg_request reg_row); vm_compute; reflexivity|].
  eapply rtc_l; [eapply (rs_spend reg_cfg reg_tokens reg_none _ [] [] demo_now "t1" reg_request reg_spent); [by left|vm_compute; reflexivity]|].
  apply rtc_once. eapply (rs_register reg_cfg reg_spent reg_none _ [] "t1" reg_request [] [] reg_env reg_registered reg_client).
  vm_compute. reflexivity.
Defined.

Lemma handleRegister_steps_witness :
  ∃ ck' rg', rtc (reg_step reg_cfg) (mkRegWorld reg_tokens reg_none [] [] []) (mkRegWorld reg_spent reg_registered ck' [] rg')
    ∧ (rg' = [] ∨ ∃ id c, RegisterCreated reg_client = RegisterCreated c ∧ rg' = [(id, rg_client_id c)]).
Proof.
  refine (handleRegister_steps reg_cfg [] reg_env reg_tokens reg_none [] [] [] (Some reg_request) "bearer rt_s1" reg_spent
    reg_registered (RegisterCreated reg_client) _ _); [|vm_compute; reflexivity].
  intros i u. change reg_tokens with (<["t1" := reg_row]> (∅ : RegTokens)). rewrite lookup_insert_Some. by intros [[<- <-]|[_ ?]].
Defined.

Lemma registration_sound_witness :
  ∃ req who o, Some reg_request = Some req
    ∧ registration_gate [] reg_tokens demo_now "bearer rt_s1" req = (reg_spent, Ok who)
    ∧ cs_clients reg_none !! rg_client_id reg_client = None ∧ cs_clients reg_registered = <[rg_client_id reg_client := o]> ∅
    ∧ oc_anonymous o = is_anonymous who ∧ rg_meta reg_client = oc_meta o ∧ valid_registration (oc_meta o) (is_anonymous who)
    ∧ (who = Anonymous -> rc_anonymous reg_cfg = true ∧ rq_token_format (oc_meta o) = "" ∧ rq_token_alg (oc_meta o) = ""
         ∧ rq_detail_types (oc_meta o) = [] ∧ rq_subject_type (oc_meta o) = "" ∧ rq_logout_uri (oc_meta o) = "").
Proof.
  refine (registration_sound reg_cfg [] reg_env reg_tokens reg_none (Some reg_request) "bearer rt_s1" reg_spent reg_registered
    reg_client _).
  vm_compute. reflexivity.
Defined.
