(* ===== verification/Jar.v ===== *)
(** * Request objects ([internal/as/jar.go], RFC 9101)

    An authorization request as a JWT signed by the client: the header's algorithm, the keys the client registered
    inline, the signature, the times and the parties are checked before its claims replace the parameters. The
    primitives are those of [DpopLib]; the JSON decoders and [strings.ToUpper] are the class [JarLib]. *)

From Stdlib Require Import ZArith Lia String Ascii.
From stdpp Require Import base gmap strings list.
From S2P Require Import Prelude Canonical Dpop AgentGate Delegation Registration.

Set Default Goal Selector "!".
Open Scope string_scope.
Open Scope list_scope.
Open Scope Z_scope.

(** The parsed query of the authorization endpoint ([authz.go]); the scopes are split already. *)
Record AuthorizeRequest := mkAuthorize {
  ar_client : string; ar_redirect : string; ar_response : string; ar_scope : list string; ar_state : string;
  ar_challenge : string; ar_method : string; ar_resource : string; ar_nonce : string; ar_max_age : option Z;
  ar_acr : list string; ar_prompt : string; ar_details : string;
}.

Record JARConfig := mkJAR { jar_algs : list string; jar_require : bool }.

Definition applyJARDefaults (c : JARConfig) : JARConfig :=
  mkJAR (if bool_decide (jar_algs c = []) then ["ES256"; "RS256"; "EdDSA"] else jar_algs c) (jar_require c).

Record jarHeader := mkJarHeader { jr_alg : string; jr_kid : string }.

Record jarClaims := mkJarClaims {
  jc_iss : string; jc_aud : string; jc_exp : Z; jc_iat : Z; jc_nbf : Z; jc_jti : string; jc_response : string; jc_client : string;
  jc_redirect : string; jc_scope : string; jc_state : string; jc_nonce : string; jc_challenge : string; jc_method : string;
  jc_resource : string; jc_max_age : option Z; jc_acr : string; jc_prompt : string; jc_details : string;
}.

Inductive jar_error :=
  | JNotConfigured | JMalformed | JHeaderDecode | JHeaderParse | JForbiddenAlg | JUnlistedAlg | JNoKey | JSignatureDecode
  | JPayloadDecode | JSignature | JClaimsParse | JExpired | JIatFuture | JNotYetValid | JIssuer | JAudience.

(** ** Keys *)

Record jwkBase := mkJwkBase { jb_kty : string; jb_alg : string; jb_use : string; jb_kid : string }.
Record jwkParams := mkJwkParams { jp_crv : string; jp_x : string; jp_y : string; jp_n : string; jp_e : string }.

Inductive jar_key := JEC (c : Curve) (x y : Z) | JRSA (n e : Z) | JOKP (pub : string).
Record clientPublicKey := mkClientKey { ck_alg : string; ck_key : jar_key }.

(** The decoders of the two JSON parts of a request object and of a key set: for each key its common members and the
    members of its type, [None] where they do not decode. *)
Class JarLib := {
  jar_decode_header : string -> option jarHeader;
  jar_decode_claims : string -> option jarClaims;
  jar_decode_jwks : string -> option (list (option jwkBase * option jwkParams));
  ToUpper : string -> string;
}.

(** [time.Unix(n, 0)]: the seconds since year 1 are an [int64]. *)
Definition unix_time (n : Z) : Z := wrap64 (n + 62135596800) * Second.

Section Jar.
Context `{DpopLib} `{JarLib}.

Definition key_alg (base : jwkBase) (alg : string) : string := if (jb_alg base =? "")%string then alg else jb_alg base.

Definition parseECJWK (params : option jwkParams) (base : jwkBase) : option clientPublicKey :=
  match params with
  | None => None
  | Some k =>
      let curve := if (jp_crv k =? "P-256")%string then Some (P256, "ES256")
                   else if (jp_crv k =? "P-384")%string then Some (P384, "ES384") else None in
      match curve, b64_decode (jp_x k), b64_decode (jp_y k) with
      | Some (c, alg), Some x, Some y => Some (mkClientKey (key_alg base alg) (JEC c (SetBytes x) (SetBytes y)))
      | _, _, _ => None
      end
  end.

Definition parseRSAJWK (params : option jwkParams) (base : jwkBase) : option clientPublicKey :=
  match params with
  | None => None
  | Some k =>
      match b64_decode (jp_n k), b64_decode (jp_e k) with
      | Some n, Some e => Some (mkClientKey (key_alg base "RS256") (JRSA (SetBytes n) (wrap64 (SetBytes e))))
      | _, _ => None
      end
  end.

Definition parseOKPJWK (params : option jwkParams) (base : jwkBase) : option clientPublicKey :=
  match params with
  | None => None
  | Some k =>
      if negb (jp_crv k =? "Ed25519")%string then None
      else match b64_decode (jp_x k) with
      | None => None
      | Some x => if negb (len x =? 32) then None else Some (mkClientKey (key_alg base "EdDSA") (JOKP x))
      end
  end.

(** One key of the set: [None] when it is skipped. *)
Definition parse_key (raw : option jwkBase * option jwkParams) : option clientPublicKey :=
  match raw.1 with
  | None => None
  | Some base =>
      if negb (jb_use base =? "")%string && negb (jb_use base =? "sig")%string then None
      else if (jb_kty base =? "EC")%string then parseECJWK raw.2 base
      else if (jb_kty base =? "RSA")%string then parseRSAJWK raw.2 base
      else if (jb_kty base =? "OKP")%string then parseOKPJWK raw.2 base
      else None
  end.

Definition parseJWKS (data : string) : option (list clientPublicKey) :=
  match jar_decode_jwks data with None => None | Some keys => Some (omap parse_key keys) end.

Definition resolveClientJARKeys (client : OAuthClient) : option (list clientPublicKey) :=
  if (rq_jwks (oc_meta client) =? "")%string then None else parseJWKS (rq_jwks (oc_meta client)).

(** ** Signatures *)

Definition jarAlgIsForbidden (alg : string) : bool :=
  (alg =? "")%string || (ToLower alg =? "none")%string || String.prefix "HS" (ToUpper alg).

Definition jarAlgAccepted (alg : string) (accepted : list string) : bool := existsb (fun a => EqualFold a alg) accepted.

Definition ecdsaSigParts (sig : string) : option (Z * Z) :=
  if negb (len sig mod 2 =? 0) then None
  else
    let half := Nat.div2 (String.length sig) in
    Some (SetBytes (String.substring 0 half sig), SetBytes (String.substring half (String.length sig - half) sig)).

Definition jar_verifyECDSA (c : Curve) (x y : Z) (digest sig : string) : bool :=
  match ecdsaSigParts sig with Some (r, s) => ecdsa_verify c x y digest r s | None => false end.

Definition jarVerifySignature (alg input sig : string) (cpk : clientPublicKey) : bool :=
  let alg := ToUpper alg in
  if (alg =? "ES256")%string then match ck_key cpk with JEC c x y => jar_verifyECDSA c x y (sha256 input) sig | _ => false end
  else if (alg =? "ES384")%string then match ck_key cpk with JEC c x y => jar_verifyECDSA c x y (sha384 input) sig | _ => false end
  else if (alg =? "RS256")%string then match ck_key cpk with JRSA n e => rsa_pkcs1v15 n e (sha256 input) sig | _ => false end
  else if (alg =? "PS256")%string then match ck_key cpk with JRSA n e => rsa_pss n e (sha256 input) sig | _ => false end
  else if (alg =? "EDDSA")%string then match ck_key cpk with JOKP pub => ed25519_verify pub input sig | _ => false end
  else false.

(** ** Request objects *)

(** The times and the parties of the claims. *)
Definition claims_error (c : jarClaims) (skew now : Z) (clientID issuer : string) : option jar_error :=
  if (jc_exp c =? 0) || Before (unix_time (jc_exp c) + skew) now then Some JExpired
  else if negb (jc_iat c =? 0) && After (unix_time (jc_iat c)) (now + (5 * Minute + skew)) then Some JIatFuture
  else if negb (jc_nbf c =? 0) && After (unix_time (jc_nbf c) - skew) now then Some JNotYetValid
  else if negb (jc_iss c =? clientID)%string then Some JIssuer
  else if negb (jc_aud c =? issuer)%string then Some JAudience
  else None.

Definition claims_request (c : jarClaims) : AuthorizeRequest :=
  mkAuthorize (jc_client c) (jc_redirect c) (jc_response c) (scopeSplit (jc_scope c)) (jc_state c) (jc_challenge c) (jc_method c)
    (jc_resource c) (jc_nonce c) (jc_max_age c) (Fields (jc_acr c)) (jc_prompt c) (jc_details c).

Definition ParseRequestObject (cfg : option JARConfig) (skew now : Z) (rawJWT clientID issuer : string) (client : OAuthClient)
  : result jar_error AuthorizeRequest :=
  match cfg with
  | None => Err JNotConfigured
  | Some cfg =>
      let cfg := applyJARDefaults cfg in
      match split_dots "" rawJWT with
      | [p0; p1; p2] =>
          match b64_decode p0 with
          | None => Err JHeaderDecode
          | Some hb =>
              match jar_decode_header hb with
              | None => Err JHeaderParse
              | Some hdr =>
                  if jarAlgIsForbidden (jr_alg hdr) then Err JForbiddenAlg
                  else if negb (jarAlgAccepted (jr_alg hdr) (jar_algs cfg)) then Err JUnlistedAlg
                  else match resolveClientJARKeys client with
                  | None | Some [] => Err JNoKey
                  | Some keys =>
                      match b64_decode p2 with
                      | None => Err JSignatureDecode
                      | Some sig =>
                          match b64_decode p1 with
                          | None => Err JPayloadDecode
                          | Some payload =>
                              if negb (existsb (jarVerifySignature (jr_alg hdr) (p0 +:+ "." +:+ p1) sig) keys) then Err JSignature
                              else match jar_decode_claims payload with
                              | None => Err JClaimsParse
                              | Some c => match claims_error c skew now clientID issuer with
                                          | Some e => Err e
                                          | None => Ok (claims_request c)
                                          end
                              end
                          end
                      end
                  end
              end
          end
      | _ => Err JMalformed
      end
  end.

(** ** Soundness *)

(** The request object [raw] of [client] carries the claims [c]: signed over its first two parts by one of the client's
    keys with a listed algorithm that is neither [none] nor symmetric, current, and between the two parties. *)
Record signed_request (cfg : JARConfig) (skew now : Z) (raw clientID issuer : string) (client : OAuthClient) (c : jarClaims) : Prop := {
  sq_signature : ∃ p0 p1 p2 hb alg kid sig payload key keys, split_dots "" raw = [p0; p1; p2] ∧ b64_decode p0 = Some hb
    ∧ jar_decode_header hb = Some (mkJarHeader alg kid) ∧ b64_decode p1 = Some payload ∧ b64_decode p2 = Some sig
    ∧ jar_decode_claims payload = Some c ∧ resolveClientJARKeys client = Some keys ∧ key ∈ keys
    ∧ jarVerifySignature alg (p0 +:+ "." +:+ p1) sig key = true
    ∧ jarAlgIsForbidden alg = false ∧ jarAlgAccepted alg (jar_algs (applyJARDefaults cfg)) = true;
  sq_parties : jc_iss c = clientID ∧ jc_aud c = issuer;
  sq_current : jc_exp c ≠ 0 ∧ now <= unix_time (jc_exp c) + skew;
  sq_started : jc_nbf c ≠ 0 -> unix_time (jc_nbf c) - skew <= now;
}.

(** Only signed requests are accepted, with their claims. *)
Lemma ParseRequestObject_ok cfg skew now raw clientID issuer client req :
  ParseRequestObject cfg skew now raw clientID issuer client = Ok req ->
  ∃ jar c, cfg = Some jar ∧ signed_request jar skew now raw clientID issuer client c ∧ req = claims_request c.
Proof.
  unfold ParseRequestObject. destruct cfg as [jar|]; [|done].
  destruct (split_dots "" raw) as [|p0 [|p1 [|p2 [|]]]] eqn:Esp; try done.
  destruct (b64_decode p0) as [hb|] eqn:E0; [|done]. destruct (jar_decode_header hb) as [[alg kid]|] eqn:Eh; [|done]. simpl.
  destruct (jarAlgIsForbidden alg) eqn:Ef; [done|]. destruct (jarAlgAccepted alg _) eqn:Ea; [|done]. simpl.
  destruct (resolveClientJARKeys client) as [keys|] eqn:Ek; [|done]. destruct keys as [|k0 keys']; [done|].
  destruct (b64_decode p2) as [sig|] eqn:E2; [|done]. destruct (b64_decode p1) as [payload|] eqn:E1; [|done].
  destruct (existsb _ (k0 :: keys')) eqn:Es; [|done]. cbn [negb]. destruct (jar_decode_claims payload) as [c|] eqn:Ec; [|done].
  destruct (claims_error c skew now clientID issuer) eqn:Ee; [done|]. intros [= <-]. exists jar, c. split; [done|]. split; [|done].
  apply existsb_true_iff in Es as (key & Hkey & Hv). unfold claims_error in Ee.
  repeat (case_match; [done|]). go_time. bool_prop. constructor; try done.
  - exists p0, p1, p2, hb, alg, kid, sig, payload, key, (k0 :: keys'). repeat split; done.
  - intros Hn%Z.eqb_neq. destruct (jc_nbf c =? 0); [done|]. simpl in *. bool_prop. lia.
Qed.
End Jar.
