(* ===== verification/Authorize.v ===== *)
(** * The authorization endpoint ([internal/as/authz.go], [compat.go], [authctx.go], [consent.go], [par.go],
      [handlers/handlers.go], [storage/memory/memory_par.go])

    From an authorization request, inline, pushed (RFC 9126) or signed (RFC 9101), to an authorization code: the checks
    of [startAuthorize], the host's consent with its single-use tickets, pushed requests, and the two HTTP handlers.
    The state is the grant store, the pushed requests, the replay cache of consent tickets and the cache that links a
    code to a session. A request reads one clock. [url.Parse] and the case functions are [UrlLib]; building a URL with
    query parameters, the JSON encodings of tickets and pushed requests and [url.QueryEscape] are [AuthzLib]; the
    consent handler of the host is a function of the configuration. Clients' [client_uri] is not modelled. *)

From Stdlib Require Import ZArith Lia String Ascii.
From stdpp Require Import base gmap strings list.
From S2P Require Import Prelude Canonical GoJSON KV Dpop DeviceAuth TokenGrants Rar AgentGate Delegation Registration Jar.

Set Default Goal Selector "!".
Open Scope string_scope.
Open Scope list_scope.
Open Scope Z_scope.

(** ** Configuration and state *)

Record ClientCompat := mkCompat {
  cp_optional_resource : bool; cp_drop_unknown : bool; cp_any_port : bool; cp_localhost : bool; cp_path_audience : bool;
}.

Record PARConfig := mkPAR { par_ttl : Z; par_require : bool }.

Definition applyPARDefaults (c : PARConfig) : PARConfig := mkPAR (if par_ttl c <=? 0 then 60 * Second else par_ttl c) (par_require c).

(** How and when the user authenticated. *)
Record AuthContext := mkAuthContext { ax_time : Z; ax_amr : list string; ax_acr : string; ax_session : string }.

(** [cq_cimd]: the metadata was fetched from the client's URL, and is verified. *)
Record ConsentRequest := mkConsentRequest {
  cq_user : string; cq_client : string; cq_name : string; cq_logo : string; cq_policy : string; cq_tos : string;
  cq_redirect : string; cq_cimd : bool; cq_scopes : list string; cq_resource : string; cq_details : string; cq_state : string;
  cq_max_ttl : Z;
}.

Inductive ConsentAction := ConsentApprove | ConsentDeny | ConsentInteract | ConsentOther.

Record ConsentDecision := mkDecision {
  cd_action : ConsentAction; cd_scopes : list string; cd_expires : Z; cd_max_ttl : Z; cd_url : string;
}.

Record consentTicket := mkTicket {
  tc_version : Z; tc_jti : string; tc_exp : Z; tc_uid : string; tc_sid : string; tc_req : AuthorizeRequest;
}.

(** [az_consent] is the host's handler, [None] for one that is not set; it answers [None] for an error. *)
Record AuthzConfig := mkAuthzConfig {
  az_issuer : string; az_resources : list ProtectedResource; az_compat : ClientCompat; az_require_state : bool; az_code_ttl : Z;
  az_oidc : bool; az_acr : gmap string string; az_par : option PARConfig; az_jar : option JARConfig; az_skew : Z;
  az_rar : option RARConfig; az_consent : option (ConsentRequest -> option ConsentDecision); az_ticket_ttl : Z;
  az_max_grant : Z; az_key : string; az_cimd : option (string -> option OAuthClient);
}.

Record pushedRequest := mkPushed { pu_payload : string; pu_expires : Z }.

(** [st_oidc] is the session cache, [None] when there is none. *)
Record AuthzState := mkAuthzState {
  st_grants : GrantStore; st_pushed : gmap string pushedRequest; st_tickets : Memory; st_oidc : option Memory;
}.

Definition with_pushed (s : AuthzState) (p : gmap string pushedRequest) : AuthzState :=
  mkAuthzState (st_grants s) p (st_tickets s) (st_oidc s).
Definition with_tickets (s : AuthzState) (m : Memory) : AuthzState := mkAuthzState (st_grants s) (st_pushed s) m (st_oidc s).

Inductive authz_error :=
  | AUnsupportedResponseType | AInvalidRequest | AInvalidResource | AInvalidClient | AInvalidScope | AScopeRequired
  | AInvalidDetails | ALoginRequired | AReauthRequired | ARandom | AConsentHandler | AConsentDecision | AConsentTicket
  | AConsentKey | AConsentConfig.

(** Strings that survive JSON: an encoder replaces invalid UTF-8. *)
Definition valid_request (r : AuthorizeRequest) : Prop :=
  Forall valid_utf8 ([ar_client r; ar_redirect r; ar_response r; ar_state r; ar_challenge r; ar_method r; ar_resource r; ar_nonce r;
                      ar_prompt r; ar_details r] ++ ar_scope r ++ ar_acr r).

(** [url_with]: the URL with query parameters set, [None] when it does not parse. *)
Class AuthzLib := {
  url_with : string -> list (string * string) -> option string;
  QueryEscape : string -> string;
  encode_ticket : consentTicket -> string;
  decode_ticket : string -> option consentTicket;
  encode_request : AuthorizeRequest -> string;
  decode_request : string -> option AuthorizeRequest;
  decode_encode_request r : valid_request r -> decode_request (encode_request r) = Some r;
}.

(** ** Scopes, redirect URIs and authentication ([compat.go], [authz.go], [authctx.go], [oidc.go]) *)

Definition ScopeOpenID : string := "openid".
Definition oidc_scope (s : string) : bool := bool_decide (s ∈ [ScopeOpenID; "profile"; "email"]).

Definition splitOIDCScopes (requested : list string) : list string * list string :=
  (List.filter oidc_scope requested, List.filter (fun s => negb (oidc_scope s)) requested).

Definition narrowResourceScopes (drop : bool) (requested : list string) (resource : ProtectedResource) (client_scope : string)
  : result authz_error (list string) :=
  if negb drop || bool_decide (requested = []) then
    match requested with
    | [] => Err AScopeRequired
    | _ => match validateScopeAgainstResource requested resource with Ok l => Ok l | Err _ => Err AInvalidScope end
    end
  else
    let allowed := Fields client_scope in
    match List.filter (fun sc => (bool_decide (pr_scopes resource = []) || bool_decide (sc ∈ pr_scopes resource))
                                 && (bool_decide (allowed = []) || bool_decide (sc ∈ allowed))) requested with
    | [] => Err AInvalidScope
    | out => Ok out
    end.

Definition narrowScopes (cfg : AuthzConfig) (requested : list string) (resource : ProtectedResource) (client_scope : string)
  : result authz_error (list string) :=
  let drop := cp_drop_unknown (az_compat cfg) in
  if az_oidc cfg then
    match splitOIDCScopes requested with
    | ([], _) => narrowResourceScopes drop requested resource client_scope
    | (std, []) => Ok std
    | (std, rest) => match narrowResourceScopes drop rest resource client_scope with Ok out => Ok (std ++ out) | Err e => Err e end
    end
  else narrowResourceScopes drop requested resource client_scope.

#[export] Instance AuthorizationCode_eq_dec : EqDecision AuthorizationCode.
Proof. solve_decision. Defined.

Section Endpoint.
Context `{UrlLib} `{ExchangeLib} `{DpopLib} `{JarLib} `{AuthzLib} `{TokenLib} {V : Type} `{EqDecision V} `{RarLib V}.
Implicit Types (cfg : AuthzConfig) (st : AuthzState) (req : AuthorizeRequest).

Definition parseLoopback (raw : string) (allowLocalhost : bool) : option URL :=
  match parse_url raw with
  | None => None
  | Some u =>
      if negb (u_scheme u =? "http")%string || u_user u || negb (u_fragment u =? "")%string || negb (u_opaque u =? "")%string then None
      else
        let h := to_lower (u_hostname u) in
        if negb (bool_decide (h ∈ ["127.0.0.1"; "::1"]) || ((h =? "localhost")%string && allowLocalhost)) then None
        else if (u_port u =? "")%string then Some u
        else match ParseInt (u_port u) with
        | None => None
        | Some n => if (n <? 1) || (65535 <? n) then None else Some u
        end
  end.

Definition loopbackEquivalent (compat : ClientCompat) (a b : string) : bool :=
  match parseLoopback a (cp_localhost compat), parseLoopback b (cp_localhost compat) with
  | Some ua, Some ub =>
      (u_hostname ua =? u_hostname ub)%string && (u_escaped_path ua =? u_escaped_path ub)%string && (u_query ua =? u_query ub)%string
  | _, _ => false
  end.

Definition redirectURIRegistered (compat : ClientCompat) (registered : list string) (uri : string) : bool :=
  if (uri =? "")%string then false
  else if bool_decide (uri ∈ registered) then true
  else cp_any_port compat && existsb (fun r => loopbackEquivalent compat r uri) registered.

(** [resolveResource] with the two switches of the configuration. *)
Definition resource_view cfg : ExchangeConfig :=
  mkExchangeConfig (az_issuer cfg) 0 0 0 (az_resources cfg) (cp_optional_resource (az_compat cfg)) (cp_path_audience (az_compat cfg)).

Definition LooksLikeCIMD (clientID : string) : bool :=
  if negb (String.prefix "https://" clientID) then false
  else match parse_url clientID with
  | None => false
  | Some u =>
      (u_scheme u =? "https")%string && negb (u_host u =? "")%string && negb (u_user u) && (u_fragment u =? "")%string
      && negb (u_path u =? "")%string && negb (u_path u =? "/")%string
      && forallb (fun seg => negb (bool_decide (seg = ["."%char])) && negb (bool_decide (seg = ["."%char; "."%char])))
           (split_slash [] (list_ascii_of_string (u_path u)))
  end.

Definition ResolveClient cfg (cs : ClientStore) (clientID : string) : option OAuthClient :=
  if (clientID =? "")%string then None
  else if LooksLikeCIMD clientID then match az_cimd cfg with None => None | Some resolve => resolve clientID end
  else OAuthClientByClientID cs clientID.

Definition ACRMethodKey (amr : list string) : string :=
  String.concat "+" (sort_strings (dedup (List.filter (fun m => negb (m =? "")%string) (map (fun m => to_lower (trim_space m)) amr)))).

Definition acrFor cfg (ac : AuthContext) : string :=
  if negb (ax_acr ac =? "")%string then ax_acr ac
  else
    let key := ACRMethodKey (ax_amr ac) in
    if (key =? "")%string then ""
    else match az_acr cfg !! key with
    | Some (String _ _ as v) => v
    | _ => if contains_char "+" key || (key =? "mfa")%string then "urn:theauth:acr:mfa" else "urn:theauth:acr:1fa"
    end.

(** [time.Duration(maxAge)*time.Second] wraps. *)
Definition too_old (maxAge : option Z) (ac : option AuthContext) (now : Z) : bool :=
  match maxAge with
  | None => false
  | Some m =>
      match ac with
      | None => true
      | Some ac => IsZero (ax_time ac) || (m <=? 0) || (wrap64 (m * Second) <? Sub now (ax_time ac))
      end
  end.

Definition reauthNeeded cfg req (ac : option AuthContext) (now : Z) : bool :=
  too_old (ar_max_age req) ac now
  || (negb (bool_decide (ar_acr req = []))
      && match ac with
         | None => true
         | Some ac => let got := acrFor cfg ac in (got =? "")%string || negb (bool_decide (got ∈ ar_acr req))
         end).

(** ** Redirects *)

Definition state_param (state issuer : string) : list (string * string) :=
  (if (state =? "")%string then [] else [("state", state)]) ++ (if (issuer =? "")%string then [] else [("iss", issuer)]).

Definition buildAuthzRedirect (redirectURI code state issuer : string) : string :=
  match url_with redirectURI (("code", code) :: state_param state issuer) with
  | Some u => u
  | None => redirectURI +:+ "?code=" +:+ QueryEscape code +:+ "&state=" +:+ QueryEscape state
  end.

Definition buildAuthzErrorRedirect (redirectURI code state issuer : string) : string :=
  default redirectURI (url_with redirectURI (("error", code) :: state_param state issuer)).

(** ** Consent ([consent.go]) *)

Definition consentTicketParam : string := "consent_ticket".
Definition consentTicketTTL cfg : Z := if 0 <? az_ticket_ttl cfg then az_ticket_ttl cfg else 10 * Minute.

Definition consentKey cfg : option string :=
  if (az_key cfg =? "")%string then None else Some (hmac_sha256 (az_key cfg) "theauth/consent-ticket/v1").

Definition signTicket cfg (t : consentTicket) : option string :=
  match consentKey cfg with
  | None => None
  | Some key => let enc := b64_encode (encode_ticket t) in Some (enc +:+ "." +:+ b64_encode (hmac_sha256 key enc))
  end.

(** [strings.Cut(raw, ".")] *)
Fixpoint cut_dot (s : string) : option (string * string) :=
  match s with
  | "" => None
  | String c s' => if Ascii.eqb c "." then Some ("", s') else (fun p => (String c p.1, p.2)) <$> cut_dot s'
  end.

Definition parseTicket cfg (now : Z) (raw : string) : result authz_error consentTicket :=
  match consentKey cfg with
  | None => Err AConsentKey
  | Some key =>
      match cut_dot raw with
      | None => Err AConsentTicket
      | Some (enc, sig) =>
          if (enc =? "")%string || (sig =? "")%string then Err AConsentTicket
          else match b64_decode sig with
          | None => Err AConsentTicket
          | Some got =>
              if negb (got =? hmac_sha256 key enc)%string then Err AConsentTicket
              else match b64_decode enc with
              | None => Err AConsentTicket
              | Some body =>
                  match decode_ticket body with
                  | None => Err AConsentTicket
                  | Some t =>
                      if negb (tc_version t =? 1) || (tc_jti t =? "")%string then Err AConsentTicket
                      else if negb (After (unix_time (tc_exp t)) now) then Err AConsentTicket
                      else Ok t
                  end
              end
          end
      end
  end.

Definition consentRequest cfg req (client : OAuthClient) (user : string) (scope : list string) : ConsentRequest :=
  let m := oc_meta client in
  mkConsentRequest user (oc_client_id client) (rq_name m) (cm_logo (rq_meta m)) (cm_policy (rq_meta m)) (cm_tos (rq_meta m))
    (ar_redirect req) (LooksLikeCIMD (oc_client_id client)) scope (ar_resource req) (ar_details req) (ar_state req) (az_max_grant cfg).

Definition subsetScopes (granted requested : list string) : option (list string) :=
  match granted with
  | [] => None
  | _ => if forallb (fun g => bool_decide (g ∈ requested)) granted then Some (dedup granted) else None
  end.

(** [exp.UTC().Truncate(time.Second)] *)
Definition TruncateSecond (t : Z) : Z := t - t mod Second.

(** The grant's expiry, zero when only the tokens' lifetimes bound it; [None] for a decision that is refused. *)
Definition clampGrantExpiry cfg (dec : ConsentDecision) (now : Z) : option Z :=
  if negb (IsZero (cd_expires dec)) && negb (After (cd_expires dec) now) then None
  else if cd_max_ttl dec <? 0 then None
  else
    let exp := cd_expires dec in
    let t := now + cd_max_ttl dec in
    let exp := if (0 <? cd_max_ttl dec) && (IsZero exp || Before t exp) then t else exp in
    let t := now + az_max_grant cfg in
    let exp := if (0 <? az_max_grant cfg) && (IsZero exp || After exp t) then t else exp in
    if IsZero exp then Some 0
    else let exp := TruncateSecond exp in if After exp now then Some exp else None.

Definition consent_target_ok (target : string) (u : URL) : bool :=
  ((u_scheme u =? "")%string && (u_host u =? "")%string && String.prefix "/" target && negb (String.prefix "//" target)
   && negb (String.prefix (String "/" (String backslash "")) target))
  || (((u_scheme u =? "https")%string || (u_scheme u =? "http")%string) && negb (u_host u =? "")%string && negb (u_user u)).

Definition interactURL cfg (now : Z) (rand : option string) req (user : string) (ac : option AuthContext) (target : string)
  : result authz_error string :=
  match parse_url target with
  | None => Err AConsentDecision
  | Some u =>
      if (target =? "")%string || negb (consent_target_ok target u) then Err AConsentDecision
      else match rand with
      | None => Err ARandom
      | Some jti =>
          let t := mkTicket 1 jti (Unix (now + consentTicketTTL cfg)) user (match ac with Some ac => ax_session ac | None => "" end) req in
          match signTicket cfg t with
          | None => Err AConsentKey
          | Some ticket => match url_with target [(consentTicketParam, ticket)] with Some s => Ok s | None => Err AConsentDecision end
          end
      end
  end.

Definition burnTicket st (now : Z) (t : consentTicket) : AuthzState * option authz_error :=
  let '(m, seen) := Seen map_to_list (st_tickets st) now ("consent:" +:+ tc_jti t) (wrap64 (Sub (unix_time (tc_exp t)) now + Minute)) in
  (with_tickets st m, if seen then Some AConsentTicket else None).

Inductive consentOutcome := Respond (redirect : string) | Granted (scope : list string) (expiry : Z).

(** [resume] is the ticket and the decision that completes it. *)
Definition consent_decision cfg (handler : ConsentRequest -> option ConsentDecision) req (client : OAuthClient) (user : string)
  (scope : list string) (resume : option (consentTicket * ConsentDecision)) : result authz_error ConsentDecision :=
  match resume with
  | Some (_, dec) => match cd_action dec with ConsentInteract => Err AConsentDecision | _ => Ok dec end
  | None => match handler (consentRequest cfg req client user scope) with Some dec => Ok dec | None => Err AConsentHandler end
  end.

Definition burn_resume st (now : Z) (resume : option (consentTicket * ConsentDecision)) : AuthzState * option authz_error :=
  match resume with Some (t, _) => burnTicket st now t | None => (st, None) end.

Definition consentStep cfg st (now : Z) (rand : option string) (handler : ConsentRequest -> option ConsentDecision) req
  (client : OAuthClient) (user : string) (ac : option AuthContext) (scope : list string)
  (resume : option (consentTicket * ConsentDecision)) : AuthzState * result authz_error consentOutcome :=
  match consent_decision cfg handler req client user scope resume with
  | Err e => (st, Err e)
  | Ok dec =>
      match cd_action dec with
      | ConsentDeny =>
          match burn_resume st now resume with
          | (st', Some e) => (st', Err e)
          | (st', None) => (st', Ok (Respond (buildAuthzErrorRedirect (ar_redirect req) "access_denied" (ar_state req) (az_issuer cfg))))
          end
      | ConsentInteract =>
          (st, match interactURL cfg now rand req user ac (cd_url dec) with Ok u => Ok (Respond u) | Err e => Err e end)
      | ConsentApprove =>
          match subsetScopes (cd_scopes dec) scope, clampGrantExpiry cfg dec now with
          | Some granted, Some exp =>
              match burn_resume st now resume with
              | (st', Some e) => (st', Err e)
              | (st', None) => (st', Ok (Granted granted exp))
              end
          | _, _ => (st, Err AConsentDecision)
          end
      | ConsentOther => (st, Err AConsentDecision)
      end
  end.

(** ** The endpoint ([authz.go]) *)

(** What a request draws: the clock, the random source, how the user authenticated, and the user. *)
Record AuthzEnv := mkAuthzEnv { ev_now : Z; ev_rand : option string; ev_context : option AuthContext; ev_user : option string }.

(** The checks before the user is looked at: the client, the audience, the scopes and the encoded details. *)
Definition authorize_checks cfg (cs : ClientStore) req : result authz_error (OAuthClient * string * list string * string) :=
  if negb (ar_response req =? ResponseTypeCode)%string then Err AUnsupportedResponseType
  else if (ar_client req =? "")%string then Err AInvalidRequest
  else if (ar_challenge req =? "")%string || negb (ar_method req =? "S256")%string then Err AInvalidRequest
  else if az_require_state cfg && (ar_state req =? "")%string then Err AInvalidRequest
  else match resolveResource (resource_view cfg) (ar_resource req) with
  | None => Err AInvalidResource
  | Some (resource, audience) =>
      match ResolveClient cfg cs (ar_client req) with
      | None => Err AInvalidClient
      | Some client =>
          if negb (redirectURIRegistered (az_compat cfg) (rq_redirects (oc_meta client)) (ar_redirect req)) then Err AInvalidRequest
          else match narrowScopes cfg (ar_scope req) resource (rq_scope (oc_meta client)) with
          | Err e => Err e
          | Ok scope =>
              match Rar.parseAuthorizationDetails (az_rar cfg) (Some (rq_detail_types (oc_meta client))) (ar_details req) with
              | Err _ => Err AInvalidDetails
              | Ok details => Ok (client, audience, scope, Rar.Marshal (V := V) details)
              end
          end
      end
  end.

Definition linkCodeSession cfg (oidc : option Memory) (now : Z) (codeKey session : string) : option Memory :=
  match oidc with
  | None => None
  | Some m => if (session =? "")%string then Some m
              else Some (Set_ map_to_list m now ("oidc:code:" +:+ codeKey) session (az_code_ttl cfg + Minute))
  end.

(** The stored code. *)
Definition code_row cfg (env : AuthzEnv) req (client : OAuthClient) (user audience details : string) (scope : list string) (code : string)
  : AuthorizationCode :=
  mkCode (codeStorageKey code) (oc_client_id client) user (ar_redirect req) scope audience (ar_challenge req) (ar_method req)
    (ar_nonce req) details (match ev_context env with Some ac => ax_time ac | None => 0 end)
    (match ev_context env with Some ac => acrFor cfg ac | None => acrFor cfg (mkAuthContext 0 [] "" "") end)
    (match ev_context env with Some ac => ax_amr ac | None => [] end) (ev_now env + az_code_ttl cfg).

Definition issue_code cfg (env : AuthzEnv) st req (client : OAuthClient) (user audience details : string) (scope : list string) (expiry : Z)
  : AuthzState * result authz_error string :=
  match ev_rand env with
  | None => (st, Err ARandom)
  | Some tok =>
      let code := withGrantExpiry tok expiry in
      let row := code_row cfg env req client user audience details scope code in
      let oidc := if az_oidc cfg && bool_decide (ScopeOpenID ∈ scope)
                  then linkCodeSession cfg (st_oidc st) (ev_now env) (codeStorageKey code)
                         (match ev_context env with Some ac => ax_session ac | None => "" end)
                  else st_oidc st in
      (mkAuthzState (InsertAuthorizationCode (st_grants st) row) (st_pushed st) (st_tickets st) oidc,
       Ok (buildAuthzRedirect (ar_redirect req) code (ar_state req) (az_issuer cfg)))
  end.

Definition startAuthorize cfg (cs : ClientStore) (env : AuthzEnv) st req (resume : option (consentTicket * ConsentDecision))
  : AuthzState * result authz_error string :=
  match authorize_checks cfg cs req with
  | Err e => (st, Err e)
  | Ok (client, audience, scope, details) =>
      match ev_user env with
      | None => (st, Err ALoginRequired)
      | Some user =>
          if reauthNeeded cfg req (ev_context env) (ev_now env) then (st, Err AReauthRequired)
          else match az_consent cfg with
          | None => issue_code cfg env st req client user audience details scope 0
          | Some handler =>
              match consentStep cfg st (ev_now env) (ev_rand env) handler req client user (ev_context env) scope resume with
              | (st', Err e) => (st', Err e)
              | (st', Ok (Respond u)) => (st', Ok u)
              | (st', Ok (Granted granted expiry)) => issue_code cfg env st' req client user audience details granted expiry
              end
          end
      end
  end.

Definition StartAuthorize cfg cs env st req := startAuthorize cfg cs env st req None.

Definition CompleteConsent cfg cs (env : AuthzEnv) st (ticket : string) (dec : ConsentDecision) : AuthzState * result authz_error string :=
  match az_consent cfg, ev_user env with
  | None, _ => (st, Err AConsentConfig)
  | _, None => (st, Err AConsentTicket)
  | Some _, Some user =>
      match parseTicket cfg (ev_now env) ticket with
      | Err e => (st, Err e)
      | Ok t =>
          if negb (tc_uid t =? user)%string then (st, Err AConsentTicket)
          else if negb (tc_sid t =? "")%string
                  && negb (bool_decide (ax_session <$> ev_context env = Some (tc_sid t))) then (st, Err AConsentTicket)
          else startAuthorize cfg cs env st (tc_req t) (Some (t, dec))
      end
  end.

(** ** Pushed requests ([par.go], [memory_par.go]) *)

Definition requestURIPrefix : string := "urn:ietf:params:oauth:request_uri:".

Definition InsertPushedRequest (p : gmap string pushedRequest) (uri payload : string) (expires : Z) : gmap string pushedRequest :=
  <[uri := mkPushed payload expires]> p.

(** The payload, [None] for [ErrNotFound]; an expired request is deleted as well. *)
Definition consume_row (p : gmap string pushedRequest) (now : Z) (uri : string) : gmap string pushedRequest * option string :=
  match p !! uri with
  | None => (p, None)
  | Some r => (delete uri p, if After now (pu_expires r) then None else Some (pu_payload r))
  end.

Definition with_target req (audience : string) (scope : list string) : AuthorizeRequest :=
  mkAuthorize (ar_client req) (ar_redirect req) (ar_response req) scope (ar_state req) (ar_challenge req) (ar_method req) audience
    (ar_nonce req) (ar_max_age req) (ar_acr req) (ar_prompt req) (ar_details req).

(** [rand] is the hex form of 32 random bytes. *)
Definition PushAuthorize cfg (cs : ClientStore) st (now : Z) (rand : option string) req : AuthzState * result authz_error (string * Z) :=
  match az_par cfg with
  | None => (st, Err AInvalidRequest)
  | Some par =>
      if negb (ar_response req =? ResponseTypeCode)%string then (st, Err AUnsupportedResponseType)
      else if (ar_client req =? "")%string then (st, Err AInvalidRequest)
      else if (ar_challenge req =? "")%string || negb (ar_method req =? "S256")%string then (st, Err AInvalidRequest)
      else match resolveResource (resource_view cfg) (ar_resource req) with
      | None => (st, Err AInvalidResource)
      | Some (resource, audience) =>
          match ResolveClient cfg cs (ar_client req) with
          | None => (st, Err AInvalidClient)
          | Some client =>
              if negb (redirectURIRegistered (az_compat cfg) (rq_redirects (oc_meta client)) (ar_redirect req)) then (st, Err AInvalidRequest)
              else match narrowScopes cfg (ar_scope req) resource (rq_scope (oc_meta client)) with
              | Err e => (st, Err e)
              | Ok scope =>
                  match rand with
                  | None => (st, Err ARandom)
                  | Some token =>
                      let uri := requestURIPrefix +:+ token in
                      let ttl := if par_ttl par <=? 0 then 60 * Second else par_ttl par in
                      (with_pushed st (InsertPushedRequest (st_pushed st) uri (encode_request (with_target req audience scope)) (now + ttl)),
                       Ok (uri, ttl / Second))
                  end
              end
          end
      end
  end.

Definition ConsumePushedRequest st (now : Z) (uri : string) : AuthzState * result authz_error AuthorizeRequest :=
  if negb (String.prefix requestURIPrefix uri) then (st, Err AInvalidRequest)
  else match consume_row (st_pushed st) now uri with
  | (p, None) => (with_pushed st p, Err AInvalidRequest)
  | (p, Some payload) =>
      (with_pushed st p, match decode_request payload with Some r => Ok r | None => Err AInvalidRequest end)
  end.

(** ** The handlers ([handlers.go]) *)

Inductive authz_response := HRedirect (url : string) | HLogin (reauth : bool) | HError (status : Z) (code : string).

Definition ParseMaxAge (raw : string) : option (option Z) :=
  if (raw =? "")%string then Some None
  else match ParseInt raw with Some n => if n <? 0 then None else Some (Some n) | None => None end.

(** The request of the parameters [q]; [None] for a bad [max_age]. *)
Definition inline_request (clientID : string) (q : string -> string) : option AuthorizeRequest :=
  match ParseMaxAge (q "max_age") with
  | None => None
  | Some maxAge =>
      Some (mkAuthorize clientID (q "redirect_uri") (q "response_type") (scopeSplit (q "scope")) (q "state") (q "code_challenge")
              (q "code_challenge_method") (q "resource") (q "nonce") maxAge (Fields (q "acr_values")) (q "prompt")
              (q "authorization_details"))
  end.

Definition inline_params : list string :=
  ["response_type"; "redirect_uri"; "scope"; "state"; "code_challenge"; "code_challenge_method"; "resource"; "nonce";
   "authorization_details"; "max_age"; "acr_values"; "prompt"].

Definition hasInlineAuthorizeParams (q : string -> string) : bool := existsb (fun k => negb (q k =? "")%string) inline_params.

Definition with_client req (clientID : string) : AuthorizeRequest :=
  mkAuthorize (if (ar_client req =? "")%string then clientID else ar_client req) (ar_redirect req) (ar_response req) (ar_scope req)
    (ar_state req) (ar_challenge req) (ar_method req) (ar_resource req) (ar_nonce req) (ar_max_age req) (ar_acr req) (ar_prompt req)
    (ar_details req).

(** The request of a request object. *)
Definition object_request cfg (cs : ClientStore) (now : Z) (raw clientID : string) : result authz_response AuthorizeRequest :=
  match ResolveClient cfg cs clientID with
  | None => Err (HError 401 "invalid_client")
  | Some client =>
      match ParseRequestObject (az_jar cfg) (az_skew cfg) now raw clientID (az_issuer cfg) client with
      | Err _ => Err (HError 400 "invalid_request")
      | Ok req => Ok (with_client req clientID)
      end
  end.

(** The request of an authorization query. *)
Definition authorize_request cfg (cs : ClientStore) st (now : Z) (q : string -> string) : AuthzState * result authz_response AuthorizeRequest :=
  let clientID := q "client_id" in
  let uri := q "request_uri" in
  let object := q "request" in
  if negb (uri =? "")%string && negb (object =? "")%string then (st, Err (HError 400 "invalid_request"))
  else if negb (uri =? "")%string then
    if hasInlineAuthorizeParams q then (st, Err (HError 400 "invalid_request"))
    else match ConsumePushedRequest st now uri with
    | (st', Err _) => (st', Err (HError 400 "invalid_request"))
    | (st', Ok req) =>
        (st', if negb (clientID =? "")%string && negb (ar_client req =? clientID)%string then Err (HError 400 "invalid_request") else Ok req)
    end
  else if negb (object =? "")%string then (st, object_request cfg cs now object clientID)
  else if match az_par cfg with Some par => par_require par | None => false end then (st, Err (HError 400 "invalid_request"))
  else if match az_jar cfg with Some jar => jar_require jar | None => false end then (st, Err (HError 400 "invalid_request"))
  else (st, match inline_request clientID q with Some req => Ok req | None => Err (HError 400 "invalid_request") end).

(** [mapOAuthErrorCode] on the errors of the endpoint. *)
Definition authz_code (e : authz_error) : string :=
  match e with
  | AUnsupportedResponseType => "unsupported_response_type"
  | AInvalidRequest => "invalid_request"
  | AInvalidResource => "invalid_target"
  | AInvalidClient => "invalid_client"
  | AInvalidScope => "invalid_scope"
  | AInvalidDetails => "invalid_authorization_details"
  | _ => "server_error"
  end.

Definition RedirectURIRegisteredFor cfg (cs : ClientStore) (clientID uri : string) : bool :=
  match ResolveClient cfg cs clientID with
  | None => false
  | Some client => redirectURIRegistered (az_compat cfg) (rq_redirects (oc_meta client)) uri
  end.

Definition error_params cfg req (code : string) : list (string * string) :=
  [("error", code); ("iss", az_issuer cfg)] ++ (if (ar_state req =? "")%string then [] else [("state", ar_state req)]).

Definition writeAuthorizeError cfg (cs : ClientStore) req (code : string) : authz_response :=
  if negb (ar_redirect req =? "")%string && RedirectURIRegisteredFor cfg cs (ar_client req) (ar_redirect req)
     && negb (code =? "invalid_request")%string && negb (code =? "invalid_target")%string then
    match url_with (ar_redirect req) (error_params cfg req code) with Some u => HRedirect u | None => HError 400 code end
  else HError 400 code.

Definition login_response cfg cs req (reauth : bool) : authz_response :=
  if (ar_prompt req =? "none")%string then writeAuthorizeError cfg cs req "login_required" else HLogin reauth.

(** The request is known: authorize it and answer. *)
Definition finish_authorize cfg (cs : ClientStore) (env : AuthzEnv) st req : AuthzState * authz_response :=
  let env := mkAuthzEnv (ev_now env) (ev_rand env) (match ev_user env with Some _ => ev_context env | None => None end) (ev_user env) in
  match StartAuthorize cfg cs env st req with
  | (st', Ok u) => (st', HRedirect u)
  | (st', Err ALoginRequired) => (st', login_response cfg cs req false)
  | (st', Err AReauthRequired) => (st', login_response cfg cs req true)
  | (st', Err e) => (st', writeAuthorizeError cfg cs req (authz_code e))
  end.

Definition handleAuthorize cfg (cs : ClientStore) (env : AuthzEnv) st (q : string -> string) : AuthzState * authz_response :=
  match authorize_request cfg cs st (ev_now env) q with
  | (st', Err r) => (st', r)
  | (st', Ok req) => finish_authorize cfg cs env st' req
  end.

(** [q] is the form; the client's secret is not read. *)
Definition handlePAR cfg (cs : ClientStore) st (now : Z) (rand : option string) (clientID : string) (q : string -> string)
  : AuthzState * result authz_response (string * Z) :=
  let req := if negb (q "request" =? "")%string then object_request cfg cs now (q "request") clientID
             else match inline_request clientID q with Some req => Ok req | None => Err (HError 400 "invalid_request") end in
  match req with
  | Err r => (st, Err r)
  | Ok req =>
      match PushAuthorize cfg cs st now rand req with
      | (st', Ok r) => (st', Ok r)
      | (st', Err e) => (st', Err (HError (if (authz_code e =? "invalid_client")%string then 401 else 400) (authz_code e)))
      end
  end.

(** ** Pushing a request changes nothing *)

Lemma filter_forallb {A} (f : A -> bool) l : forallb f (List.filter f l) = true.
Proof. induction l as [|x l IH]; simpl; [done|]. destruct (f x) eqn:E; simpl; [by rewrite E|done]. Qed.

Lemma narrowResourceScopes_idem drop requested r sc out :
  narrowResourceScopes drop requested r sc = Ok out -> narrowResourceScopes drop out r sc = Ok out ∧ out ≠ [] ∧ out ⊆ requested.
Proof.
  unfold narrowResourceScopes. destruct (negb drop || bool_decide (requested = [])) eqn:Ed.
  - destruct requested as [|x l]; [done|]. unfold validateScopeAgainstResource.
    rewrite (bool_decide_false (x :: l = [])) in Ed by done.
    destruct (bool_decide (pr_scopes r = [])) eqn:Er; [|destruct (forallb _ (x :: l)) eqn:Ef; [|done]];
      intros [= <-]; rewrite (bool_decide_false (x :: l = [])), Ed, ?Ef by done; done.
  - destruct (List.filter _ requested) as [|x l] eqn:Ef; [done|]. intros [= <-].
    rewrite (bool_decide_false (x :: l = [])) by done. apply orb_false_iff in Ed as [Ed _]. rewrite Ed. simpl orb. cbv iota.
    split; [|split; [done|]].
    + rewrite <- Ef at 1. rewrite filter_all by apply filter_forallb. by rewrite Ef.
    + rewrite <- Ef. intros y [Hy _]%list_elem_of_In%filter_In. by apply list_elem_of_In.
Qed.



Lemma narrowScopes_sub cfg requested r sc out : narrowScopes cfg requested r sc = Ok out -> out ⊆ requested.
Proof.
  unfold narrowScopes. destruct (az_oidc cfg); [|by intros (_ & _ & ?)%narrowResourceScopes_idem].
  unfold splitOIDCScopes.
  assert (Hf : ∀ f, List.filter f requested ⊆ requested).
  { intros f y [Hy _]%list_elem_of_In%filter_In. by apply list_elem_of_In. }
  pose proof (Hf oidc_scope) as Hstd. pose proof (Hf (fun s => negb (oidc_scope s))) as Hrest.
  destruct (List.filter oidc_scope requested) as [|x std]; [by intros (_ & _ & ?)%narrowResourceScopes_idem|].
  destruct (List.filter (fun s => negb (oidc_scope s)) requested) as [|y rest]; [by intros [= <-]|].
  destruct (narrowResourceScopes _ _ _ _) as [o|] eqn:En; [|done]. intros [= <-].
  apply narrowResourceScopes_idem in En as (_ & _ & Hsub). set_solver.
Qed.







(** What a push checked and stored. *)
Lemma PushAuthorize_ok cfg cs st now rand req st1 uri n :
  PushAuthorize cfg cs st now rand req = (st1, Ok (uri, n)) ->
  ∃ par resource audience client scope tok, az_par cfg = Some par ∧ rand = Some tok ∧ uri = requestURIPrefix +:+ tok
    ∧ resolveResource (resource_view cfg) (ar_resource req) = Some (resource, audience)
    ∧ ResolveClient cfg cs (ar_client req) = Some client
    ∧ narrowScopes cfg (ar_scope req) resource (rq_scope (oc_meta client)) = Ok scope
    ∧ st1 = with_pushed st (<[uri := mkPushed (encode_request (with_target req audience scope))
              (now + (if par_ttl par <=? 0 then 60 * Second else par_ttl par))]> (st_pushed st)).
Proof.
  unfold PushAuthorize. destruct (az_par cfg) as [par|]; [|done]. destruct (negb _); [done|].
  destruct (ar_client req =? "")%string; [done|]. destruct (_ || _); [done|].
  destruct (resolveResource _ _) as [[resource audience]|] eqn:Er; [|done].
  destruct (ResolveClient cfg cs _) as [client|] eqn:Ec; [|done]. destruct (negb _); [done|].
  destruct (narrowScopes _ _ _ _) as [scope|] eqn:En; [|done]. destruct rand as [tok|]; [|done]. intros [= <- <- <-].
  eexists par, resource, audience, client, scope, tok. by repeat split.
Qed.


(** The query that presents a pushed request. *)
Definition pushed_query (clientID uri : string) (q : string -> string) : Prop :=
  q "client_id" = clientID ∧ q "request_uri" = uri ∧ q "request" = "" ∧ ∀ k, k ∈ inline_params -> q k = "".

Lemma pushed_query_inline clientID uri q : pushed_query clientID uri q -> hasInlineAuthorizeParams q = false.
Proof. intros (_ & _ & _ & Hq). apply existsb_false_iff. intros k Hk. by rewrite (Hq k Hk). Qed.

Lemma prefix_app a b : String.prefix a (a +:+ b) = true.
Proof. induction a as [|c a IH]; [by destruct b|].
  change (String c a +:+ b) with (String c (a +:+ b)). simpl. destruct (ascii_dec c c); [exact IH|congruence]. Qed.

Lemma authorize_request_pushed cfg cs st now clientID uri q :
  pushed_query clientID uri q -> uri ≠ "" ->
  authorize_request cfg cs st now q =
  match ConsumePushedRequest st now uri with
  | (st', Err _) => (st', Err (HError 400 "invalid_request"))
  | (st', Ok req) =>
      (st', if negb (clientID =? "")%string && negb (ar_client req =? clientID)%string then Err (HError 400 "invalid_request") else Ok req)
  end.
Proof.
  intros Hq Hne. pose proof (pushed_query_inline _ _ _ Hq) as Hin. destruct Hq as (Hc & Hu & Ho & _).
  unfold authorize_request. rewrite Hc, Hu, Ho, Hin, (proj2 (String.eqb_neq _ _) Hne). done.
Qed.

Lemma ConsumePushedRequest_live st now tok r :
  st_pushed st !! (requestURIPrefix +:+ tok) = Some r -> now <= pu_expires r ->
  ConsumePushedRequest st now (requestURIPrefix +:+ tok) =
  (with_pushed st (delete (requestURIPrefix +:+ tok) (st_pushed st)),
   match decode_request (pu_payload r) with Some r => Ok r | None => Err AInvalidRequest end).
Proof.
  intros Hr Hn. unfold ConsumePushedRequest. rewrite prefix_app. cbn [negb]. unfold consume_row, After.
  by rewrite Hr, (proj2 (Z.ltb_ge _ _) Hn).
Qed.









(** ** The codes a server issues *)

Lemma narrowResourceScopes_catalog drop requested r sc out x :
  narrowResourceScopes drop requested r sc = Ok out -> x ∈ out -> pr_scopes r = [] ∨ x ∈ pr_scopes r.
Proof.
  unfold narrowResourceScopes. destruct (negb drop || _).
  - destruct requested as [|y l]; [done|]. unfold validateScopeAgainstResource. case_bool_decide; [by left|].
    destruct (forallb _ (y :: l)) eqn:Ef; [|done]. intros [= <-] Hx. right. rewrite forallb_forall in Ef.
    apply list_elem_of_In in Hx. by apply Ef, bool_decide_eq_true in Hx.
  - destruct (List.filter _ requested) as [|y l] eqn:Ef; [done|]. intros [= <-]. rewrite <- Ef.
    intros [_ [Hc _]%andb_true_iff]%list_elem_of_In%filter_In. apply orb_true_iff in Hc as [?%bool_decide_eq_true|?%bool_decide_eq_true]; auto.
Qed.

Lemma narrowScopes_catalog cfg requested r sc out x :
  narrowScopes cfg requested r sc = Ok out -> x ∈ out ->
  (az_oidc cfg = true ∧ oidc_scope x = true) ∨ pr_scopes r = [] ∨ x ∈ pr_scopes r.
Proof.
  unfold narrowScopes. destruct (az_oidc cfg); [|intros Hn Hx; right; by eapply narrowResourceScopes_catalog].
  unfold splitOIDCScopes. pose proof (filter_forallb oidc_scope requested) as Hs. rewrite forallb_forall in Hs.
  destruct (List.filter oidc_scope requested) as [|y std]; [intros Hn Hx; right; by eapply narrowResourceScopes_catalog|].
  destruct (List.filter (fun s => negb (oidc_scope s)) requested) as [|z rest].
  - intros [= <-] Hx%list_elem_of_In. auto.
  - destruct (narrowResourceScopes _ _ _ _) as [o|] eqn:En; [|done]. intros [= <-].
    rewrite app_comm_cons, elem_of_app. intros [Hx%list_elem_of_In|Hx]; [auto|]. right. by eapply narrowResourceScopes_catalog.
Qed.

(** The consent behind a code: the decision that completed a ticket, or the answer of the handler on what it was shown. *)
Definition consented cfg req (resume : option (consentTicket * ConsentDecision)) (h : ConsentRequest -> option ConsentDecision)
  (row : AuthorizationCode) (dec : ConsentDecision) : Prop :=
  cd_action dec = ConsentApprove ∧ ac_scope row ⊆ cd_scopes dec
  ∧ match resume with
    | Some (_, d) => dec = d
    | None => ∃ client shown, h (consentRequest cfg req client (ac_user_id row) shown) = Some dec
        ∧ ac_client_id row = oc_client_id client ∧ ac_scope row ⊆ shown
    end.

(** What the row of a code says, next to the request [req] it was issued for, the clients [cs] and what the server
    drew and knew of the user in [env]. *)
Record sound_code cfg (cs : ClientStore) (env : AuthzEnv) req (resume : option (consentTicket * ConsentDecision)) (row : AuthorizationCode)
  : Prop := {
  sc_user : ev_user env = Some (ac_user_id row);
  sc_pkce : ac_challenge row = ar_challenge req ∧ ac_challenge row ≠ "" ∧ ac_challenge_method row = "S256";
  sc_client : ∃ client, ResolveClient cfg cs (ar_client req) = Some client ∧ ac_client_id row = oc_client_id client
    ∧ ac_redirect_uri row = ar_redirect req
    ∧ redirectURIRegistered (az_compat cfg) (rq_redirects (oc_meta client)) (ac_redirect_uri row) = true;
  sc_scope : ac_scope row ⊆ ar_scope req
    ∧ ∃ resource, resolveResource (resource_view cfg) (ar_resource req) = Some (resource, ac_resource row)
      ∧ ∀ x, x ∈ ac_scope row -> (az_oidc cfg = true ∧ oidc_scope x = true) ∨ pr_scopes resource = [] ∨ x ∈ pr_scopes resource;
  sc_details : ∃ types (l : list (Rar.Detail V)), Rar.parseAuthorizationDetails (az_rar cfg) types (ar_details req) = Ok l
    ∧ ac_details row = Rar.Marshal l ∧ ∀ d, d ∈ l -> ∃ rar, az_rar cfg = Some rar ∧ Rar.d_type d ∈ rar_types rar;
  sc_auth : reauthNeeded cfg req (ev_context env) (ev_now env) = false
    ∧ ac_auth_time row = match ev_context env with Some ac => ax_time ac | None => 0 end;
  sc_consent : ∀ h, az_consent cfg = Some h -> ∃ dec, consented cfg req resume h row dec;
  sc_expiry : ac_expires_at row = ev_now env + az_code_ttl cfg;
  sc_drawn : ∃ tok expiry, ev_rand env = Some tok ∧ ac_code row = codeStorageKey (withGrantExpiry tok expiry);
}.

Lemma parse_details_types rar types raw (l : list (Rar.Detail V)) d :
  Rar.parseAuthorizationDetails rar types raw = Ok l -> d ∈ l -> ∃ c, rar = Some c ∧ Rar.d_type d ∈ rar_types c.
Proof.
  unfold Rar.parseAuthorizationDetails. destruct (raw =? "")%string; [intros [= <-] ?%elem_of_nil; done|].
  destruct rar as [c|]; [|done]. destruct (Rar.Parse raw _) as [l'|]; [|done]. destruct (forallb _ l') eqn:Ef; [|done].
  intros [= <-] Hd. exists c. split; [done|]. rewrite forallb_forall in Ef. apply list_elem_of_In, Ef, andb_true_iff in Hd as [Hd _].
  by apply bool_decide_eq_true in Hd.
Qed.

(** What the checks establish, for any scope within the narrowed one. *)
Lemma authorize_checks_sound cfg cs env st req resume client audience scope details user granted expiry st' r :
  authorize_checks cfg cs req = Ok (client, audience, scope, details) -> ev_user env = Some user -> granted ⊆ scope ->
  reauthNeeded cfg req (ev_context env) (ev_now env) = false ->
  (∀ h row, az_consent cfg = Some h -> ac_scope row = granted -> ac_user_id row = user -> ac_client_id row = oc_client_id client ->
     ∃ dec, consented cfg req resume h row dec) ->
  issue_code cfg env st req client user audience details granted expiry = (st', r) ->
  ∀ k row, gs_codes (st_grants st') !! k = Some row -> gs_codes (st_grants st) !! k = Some row ∨ sound_code cfg cs env req resume row.
Proof.
  unfold authorize_checks. destruct (negb _); [done|]. destruct (_ =? "")%string; [done|]. destruct (_ || _) eqn:Ep; [done|].
  apply orb_false_iff in Ep as [Ep1%String.eqb_neq Ep2%negb_false_iff%String.eqb_eq]. destruct (_ && _); [done|].
  destruct (resolveResource _ _) as [[resource aud]|] eqn:Er; [|done]. destruct (ResolveClient cfg cs _) as [cl|] eqn:Ec; [|done].
  destruct (redirectURIRegistered _ _ _) eqn:Ereg; [|done]. cbn [negb]. destruct (narrowScopes _ _ _ _) as [sc|] eqn:En; [|done].
  destruct (Rar.parseAuthorizationDetails _ _ _) as [l|] eqn:Ed; [|done]. intros [= -> -> -> <-] Hu Hsub Hauth Hcon.
  unfold issue_code. destruct (ev_rand env) as [tok|] eqn:Etok; [|intros [= <- _]; by left]. intros [= <- _] k row. cbn [st_grants].
  unfold InsertAuthorizationCode. cbn [gs_codes]. rewrite lookup_insert_Some. intros [[_ <-]|[_ ?]]; [right|by left].
  constructor; cbn -[elem_of]; try done.
  - by exists client.
  - split; [intros x Hx%Hsub; by eapply narrowScopes_sub|]. exists resource. split; [done|].
    intros x Hx%Hsub. by eapply narrowScopes_catalog.
  - eexists _, l. split_and!; [done|done|]. intros d. by eapply parse_details_types.
  - intros h Hh. by apply (Hcon h).
  - by exists tok, expiry.
Qed.

Lemma subsetScopes_sub granted requested out : subsetScopes granted requested = Some out -> out ⊆ granted ∧ out ⊆ requested.
Proof.
  unfold subsetScopes. destruct granted as [|g l]; [done|]. destruct (forallb _ (g :: l)) eqn:Ef; [|done]. intros [= <-].
  rewrite forallb_forall in Ef. split; intros x; rewrite elem_of_dedup; [done|]. intros Hx%list_elem_of_In.
  by apply Ef, bool_decide_eq_true in Hx.
Qed.

(** Consent changes the tickets only. *)
Lemma burn_resume_grants st now resume : st_grants (burn_resume st now resume).1 = st_grants st
  ∧ st_pushed (burn_resume st now resume).1 = st_pushed st.
Proof. destruct resume as [[t d]|]; [|done]. cbn. unfold burnTicket. by destruct (Seen _ _ _ _ _). Qed.

Lemma consentStep_frame cfg st now rand h req client user ac scope resume st' r :
  consentStep cfg st now rand h req client user ac scope resume = (st', r) -> st_grants st' = st_grants st ∧ st_pushed st' = st_pushed st.
Proof.
  unfold consentStep. pose proof (burn_resume_grants st now resume) as Hb. destruct (burn_resume st now resume) as [st1 o]. simpl in Hb.
  repeat case_match; intros; simplify_eq; done.
Qed.

Lemma consentStep_granted cfg st now rand h req client user ac scope resume st' granted exp :
  consentStep cfg st now rand h req client user ac scope resume = (st', Ok (Granted granted exp)) ->
  granted ⊆ scope ∧ ∃ dec, consent_decision cfg h req client user scope resume = Ok dec ∧ cd_action dec = ConsentApprove
    ∧ granted ⊆ cd_scopes dec ∧ burn_resume st now resume = (st', None).
Proof.
  unfold consentStep. destruct (consent_decision _ _ _ _ _ _ _) as [dec|]; [|done]. destruct (cd_action dec) eqn:Ea.
  - destruct (subsetScopes _ _) as [g|] eqn:Es; [|done]. destruct (clampGrantExpiry _ _ _) as [e|]; [|done].
    destruct (burn_resume st now resume) as [st1 [|]]; [done|]. intros [= <- <- <-].
    apply subsetScopes_sub in Es as [? ?]. split; [done|]. by exists dec.
  - by destruct (burn_resume st now resume) as [? []].
  - by destruct (interactURL _ _ _ _ _ _ _).
  - done.
Qed.

Lemma startAuthorize_codes cfg cs env st req resume st' r k row :
  startAuthorize cfg cs env st req resume = (st', r) -> gs_codes (st_grants st') !! k = Some row ->
  gs_codes (st_grants st) !! k = Some row ∨ sound_code cfg cs env req resume row.
Proof.
  unfold startAuthorize. destruct (authorize_checks cfg cs req) as [[[[client audience] scope] details]|] eqn:Ec; [|intros [= <- _]; by left].
  destruct (ev_user env) as [user|] eqn:Eu; [|intros [= <- _]; by left].
  destruct (reauthNeeded _ _ _ _) eqn:Ea; [intros [= <- _]; by left|]. destruct (az_consent cfg) as [h|] eqn:Eh.
  - destruct (consentStep _ _ _ _ _ _ _ _ _ _ _) as [st1 o] eqn:Es. pose proof (consentStep_frame _ _ _ _ _ _ _ _ _ _ _ _ _ Es) as [Hg _].
    destruct o as [[u|granted exp]|e]; try (intros [= <- _]; rewrite Hg; by left).
    apply consentStep_granted in Es as (Hsub & dec & Hdec & Hap & Hs & _). rewrite <- Hg. intros Hi.
    refine (authorize_checks_sound _ _ _ _ _ resume _ _ _ _ _ _ _ _ _ Ec Eu Hsub Ea _ Hi k row).
    intros h' row' Hh' Hrs Hru Hrc. assert (h' = h) as -> by congruence. exists dec. split; [done|]. rewrite Hrs. split; [done|]. revert Hdec. unfold consent_decision.
    destruct resume as [[t d]|]; [by destruct (cd_action d); intros [= <-]|].
    destruct (h _) as [d|] eqn:Ehh; [|done]. intros [= <-]. exists client, scope. by rewrite Hru.
  - intros Hi. refine (authorize_checks_sound _ _ _ _ _ resume _ _ _ _ _ _ _ _ _ Ec Eu (reflexivity _) Ea _ Hi k row). intros h row' Hh. congruence.
Qed.

(** ** Runs of the endpoints *)

Section Runs.
Context (cfg : AuthzConfig) (live : AuthzEnv -> Prop) (fresh : string -> Prop).

(** One request to the authorization endpoint, the completion of a consent, or the pushed request endpoint, by any user
    at a time that [live] allows and, for a push, with a [request_uri] that [fresh] allows. The registered clients may
    differ from step to step. *)
Inductive authz_step : AuthzState -> AuthzState -> Prop :=
  | as_authorize cs env st q : live env -> authz_step st (handleAuthorize cfg cs env st q).1
  | as_complete cs env st ticket dec : live env -> authz_step st (CompleteConsent cfg cs env st ticket dec).1
  | as_push cs st now rand clientID q :
      (∀ tok, rand = Some tok -> fresh (requestURIPrefix +:+ tok)) -> authz_step st (handlePAR cfg cs st now rand clientID q).1.
End Runs.

Lemma authorize_request_grants cfg cs st now q : st_grants (authorize_request cfg cs st now q).1 = st_grants st
  ∧ st_tickets (authorize_request cfg cs st now q).1 = st_tickets st.
Proof. unfold authorize_request, ConsumePushedRequest, consume_row. repeat (case_match; simplify_eq); done. Qed.

Lemma PushAuthorize_grants cfg cs st now rand req : st_grants (PushAuthorize cfg cs st now rand req).1 = st_grants st
  ∧ st_tickets (PushAuthorize cfg cs st now rand req).1 = st_tickets st.
Proof. unfold PushAuthorize. repeat case_match; done. Qed.

Lemma handlePAR_grants cfg cs st now rand clientID q : st_grants (handlePAR cfg cs st now rand clientID q).1 = st_grants st
  ∧ st_tickets (handlePAR cfg cs st now rand clientID q).1 = st_tickets st.
Proof.
  unfold handlePAR. destruct (if negb _ then _ else _) as [req|]; [|done]. pose proof (PushAuthorize_grants cfg cs st now rand req).
  by destruct (PushAuthorize cfg cs st now rand req) as [? [|]].
Qed.

Lemma finish_authorize_state cfg cs env st req :
  ∃ env', ev_now env' = ev_now env ∧ ev_user env' = ev_user env
    ∧ (finish_authorize cfg cs env st req).1 = (startAuthorize cfg cs env' st req None).1.
Proof.
  exists (mkAuthzEnv (ev_now env) (ev_rand env) (match ev_user env with Some _ => ev_context env | None => None end) (ev_user env)). split; [done|]. split; [done|].
  unfold finish_authorize, StartAuthorize. destruct (startAuthorize _ _ _ _ _ _) as [st' [|[]]]; done.
Qed.

Lemma CompleteConsent_start cfg cs env st ticket dec :
  (∃ e, CompleteConsent cfg cs env st ticket dec = (st, Err e))
  ∨ ∃ t, parseTicket cfg (ev_now env) ticket = Ok t ∧ ev_user env = Some (tc_uid t)
      ∧ CompleteConsent cfg cs env st ticket dec = startAuthorize cfg cs env st (tc_req t) (Some (t, dec)).
Proof.
  unfold CompleteConsent. destruct (az_consent cfg) as [h|]; [|left; eauto]. destruct (ev_user env) as [user|]; [|left; eauto].
  destruct (parseTicket _ _ _) as [t|]; [|left; eauto]. destruct (_ =? user)%string eqn:Eu; [|left; eauto].
  apply String.eqb_eq in Eu. cbn [negb]. destruct (_ && _); [left; eauto|]. right. exists t. by subst.
Qed.

(** A request to one of the endpoints, with what the server draws and knows as it serves it. *)
Inductive authz_call :=
  | CallAuthorize (cs : ClientStore) (env : AuthzEnv) (q : string -> string)
  | CallComplete (cs : ClientStore) (env : AuthzEnv) (ticket : string) (dec : ConsentDecision)
  | CallPush (cs : ClientStore) (now : Z) (rand : option string) (clientID : string) (q : string -> string).

Definition serve_call cfg st (c : authz_call) : AuthzState :=
  match c with
  | CallAuthorize cs env q => (handleAuthorize cfg cs env st q).1
  | CallComplete cs env ticket dec => (CompleteConsent cfg cs env st ticket dec).1
  | CallPush cs now rand clientID q => (handlePAR cfg cs st now rand clientID q).1
  end.

Definition serve_calls cfg st (calls : list authz_call) : AuthzState := fold_left (serve_call cfg) calls st.

(** The call [c], served at the state [st], explains the code [row]. *)
Definition issued_by cfg st (c : authz_call) (row : AuthorizationCode) : Prop :=
  match c with
  | CallAuthorize cs env q =>
      ∃ req, (authorize_request cfg cs st (ev_now env) q).2 = Ok req ∧ sound_code cfg cs env req None row
  | CallComplete cs env ticket dec =>
      ∃ t, parseTicket cfg (ev_now env) ticket = Ok t ∧ ac_user_id row = tc_uid t ∧ sound_code cfg cs env (tc_req t) (Some (t, dec)) row
  | CallPush _ _ _ _ _ => False
  end.

Lemma finish_authorize_signed_in cfg cs env st req user :
  ev_user env = Some user -> (finish_authorize cfg cs env st req).1 = (startAuthorize cfg cs env st req None).1.
Proof.
  intros Hu. unfold finish_authorize, StartAuthorize. rewrite Hu. replace (mkAuthzEnv _ _ _ _) with env by (destruct env; simpl in *; by subst).
  by destruct (startAuthorize _ _ _ _ _ _) as [st' [|[]]].
Qed.

Lemma finish_authorize_anonymous cfg cs env st req :
  ev_user env = None -> st_grants (finish_authorize cfg cs env st req).1 = st_grants st.
Proof.
  intros Hu. unfold finish_authorize, StartAuthorize, startAuthorize. rewrite Hu. cbn [ev_user].
  destruct (authorize_checks cfg cs req) as [[[[? ?] ?] ?]|e]; [done|]. by destruct e.
Qed.

(** One call issues only codes it explains. *)
Lemma serve_call_codes cfg st c k row :
  gs_codes (st_grants (serve_call cfg st c)) !! k = Some row -> gs_codes (st_grants st) !! k = Some row ∨ issued_by cfg st c row.
Proof.
  destruct c as [cs env q|cs env ticket dec|cs now rand clientID q]; simpl.
  - unfold handleAuthorize. pose proof (authorize_request_grants cfg cs st (ev_now env) q) as [Hg _].
    destruct (authorize_request cfg cs st (ev_now env) q) as [st0 [req|r]]; simpl in *; [|rewrite Hg; by left].
    destruct (ev_user env) as [user|] eqn:Eu; [|rewrite finish_authorize_anonymous, Hg by done; by left].
    rewrite (finish_authorize_signed_in _ _ _ _ _ user Eu). destruct (startAuthorize cfg cs env st0 req None) as [st3 r] eqn:Es. intros Hrow.
    destruct (startAuthorize_codes _ _ _ _ _ _ _ _ _ _ Es Hrow) as [Hold|Hok]; [left; by rewrite Hg in Hold|right; by exists req].
  - destruct (CompleteConsent_start cfg cs env st ticket dec) as [(e & ->)|(t & Ht & Hu & ->)]; [by left|].
    destruct (startAuthorize cfg cs env st (tc_req t) (Some (t, dec))) as [st3 r] eqn:Es. intros Hrow.
    destruct (startAuthorize_codes _ _ _ _ _ _ _ _ _ _ Es Hrow) as [Hold|Hok]; [by left|right]. exists t. split; [done|]. split; [|done].
    pose proof (sc_user _ _ _ _ _ _ Hok). congruence.
  - rewrite (proj1 (handlePAR_grants _ _ _ _ _ _ _)). by left.
Qed.

(** C9. Every authorization code the server stores is sound. Take any sequence of calls to the authorization endpoint
    (inline, pushed or signed requests), the consent completion and the pushed request endpoint. A code that is
    stored after it and was not before was issued by one call, never a push, and fits that call: it
    belongs to the user signed in for it and the client its request names, at the redirect URI it names, which
    is registered for that client, with its challenge under S256; its audience is the resource the request
    resolves to, its scopes are among those requested and in that resource's catalog or OpenID scopes; its
    authorization details are the request's, of supported types; no fresh authentication was due; it
    expires the configured time after the call, under a name drawn in it; and where the host asks for consent, it
    approved all its scopes, answering for this user, client and request, or by the decision that completed a
    ticket this server signed for them. *)
Theorem issued_codes_sound cfg st calls k row
  (Hrow : gs_codes (st_grants (serve_calls cfg st calls)) !! k = Some row) (Hnew : gs_codes (st_grants st) !! k ≠ Some row) :
  ∃ before c after, calls = before ++ c :: after ∧ issued_by cfg (serve_calls cfg st before) c row.
Proof.
  induction calls as [|c calls IH] using rev_ind; [done|]. unfold serve_calls in Hrow. rewrite fold_left_app in Hrow. simpl in Hrow.
  apply serve_call_codes in Hrow as [Hold|Hok].
  - destruct (IH Hold) as (before & c' & after & -> & Hi). exists before, c', (after ++ [c]). by rewrite <- app_assoc.
  - by exists calls, c, [].
Qed.

(** ** A pushed request is used once *)

Lemma issue_code_frame cfg env st req client user audience details scope expiry :
  st_pushed (issue_code cfg env st req client user audience details scope expiry).1 = st_pushed st
  ∧ st_tickets (issue_code cfg env st req client user audience details scope expiry).1 = st_tickets st.
Proof. unfold issue_code. by destruct (ev_rand env). Qed.

Lemma startAuthorize_pushed cfg cs env st req resume : st_pushed (startAuthorize cfg cs env st req resume).1 = st_pushed st.
Proof.
  unfold startAuthorize. destruct (authorize_checks cfg cs req) as [[[[client audience] scope] details]|]; [|done].
  destruct (ev_user env); [|done]. destruct (reauthNeeded _ _ _ _); [done|]. destruct (az_consent cfg) as [h|]; [|apply issue_code_frame].
  destruct (consentStep _ _ _ _ _ _ _ _ _ _ _) as [st1 out] eqn:Es. apply consentStep_frame in Es as [_ Hp].
  destruct out as [[|]|]; try done. by rewrite (proj1 (issue_code_frame _ _ _ _ _ _ _ _ _ _)).
Qed.

Lemma consume_row_absent p now uri u : p !! u = None -> (consume_row p now uri).1 !! u = None.
Proof. intros Hu. unfold consume_row. destruct (p !! uri); [|done]. simpl. by rewrite lookup_delete_None; right. Qed.

Lemma pushed_absent_step cfg live uri st st' :
  authz_step cfg live (fun u => u ≠ uri) st st' -> st_pushed st !! uri = None -> st_pushed st' !! uri = None.
Proof.
  intros Hs Hn. destruct Hs as [cs env st q _|cs env st ticket dec _|cs st now rand clientID q Hf].
  - unfold handleAuthorize. assert (Hr : st_pushed (authorize_request cfg cs st (ev_now env) q).1 !! uri = None).
    { unfold authorize_request, ConsumePushedRequest. pose proof (consume_row_absent (st_pushed st) (ev_now env) (q "request_uri") _ Hn).
      repeat (case_match; simplify_eq/=); done. }
    destruct (authorize_request cfg cs st (ev_now env) q) as [st0 [req|r]]; simpl in *; [|done].
    destruct (finish_authorize_state cfg cs env st0 req) as (env' & _ & _ & ->). by rewrite startAuthorize_pushed.
  - destruct (CompleteConsent_start cfg cs env st ticket dec) as [(e & ->)|(t & _ & _ & ->)]; [done|]. by rewrite startAuthorize_pushed.
  - unfold handlePAR. destruct (if negb _ then _ else _) as [req|]; [|done].
    destruct (PushAuthorize cfg cs st now rand req) as [st1 [[u n]|e]] eqn:Ep; simpl.
    + apply PushAuthorize_ok in Ep as (par & resource & audience & client & scope & tok & _ & -> & -> & _ & _ & _ & ->). simpl.
      rewrite lookup_insert_ne by (by apply Hf). done.
    + revert Ep. unfold PushAuthorize. repeat case_match; intros; by simplify_eq.
Qed.

Lemma pushed_absent_run cfg live uri st st' :
  rtc (authz_step cfg live (fun u => u ≠ uri)) st st' -> st_pushed st !! uri = None -> st_pushed st' !! uri = None.
Proof. induction 1 as [|? ? ? Hs _ IH]; [done|]. intros Hn. apply IH. by eapply pushed_absent_step. Qed.

(** A request by a [request_uri] that is gone is refused. *)
Lemma absent_refused cfg cs env st clientID uri q :
  pushed_query clientID uri q -> uri ≠ "" -> st_pushed st !! uri = None ->
  handleAuthorize cfg cs env st q = (st, HError 400 "invalid_request").
Proof.
  intros Hq Hne Hn. unfold handleAuthorize. rewrite (authorize_request_pushed _ _ _ _ _ _ _ Hq Hne).
  unfold ConsumePushedRequest. destruct (negb _); [done|]. unfold consume_row. rewrite Hn. by destruct st.
Qed.

(** A user who is not signed in cannot complete a pushed request. Presenting a valid [request_uri] without a
    session redirects to the login page, which returns to the same address; but the stored request is consumed by
    then, so however often the user comes back, signed in or not, and whatever else happens, the request is refused
    as invalid. *)
Theorem pushed_login_dead_end cfg cs env st q clientID tok r req x
  (Hq : pushed_query clientID (requestURIPrefix +:+ tok) q)
  (Hr : st_pushed st !! (requestURIPrefix +:+ tok) = Some r) (Hlive : ev_now env <= pu_expires r)
  (Hdec : decode_request (pu_payload r) = Some req) (Hcl : ar_client req = clientID) (Hchk : authorize_checks cfg cs req = Ok x)
  (Hu : ev_user env = None) (Hp : ar_prompt req ≠ "none") :
  (handleAuthorize cfg cs env st q).2 = HLogin false
  ∧ ∀ st2 cs2 env2, rtc (authz_step cfg (fun _ => True) (fun u => u ≠ requestURIPrefix +:+ tok)) (handleAuthorize cfg cs env st q).1 st2 ->
      handleAuthorize cfg cs2 env2 st2 q = (st2, HError 400 "invalid_request").
Proof.
  assert (Hh : handleAuthorize cfg cs env st q
    = (with_pushed st (delete (requestURIPrefix +:+ tok) (st_pushed st)), HLogin false)).
  { unfold handleAuthorize. rewrite (authorize_request_pushed _ _ _ _ _ _ _ Hq) by done. erewrite ConsumePushedRequest_live by done.
    rewrite Hdec, Hcl, String.eqb_refl, andb_false_r. unfold finish_authorize, StartAuthorize, startAuthorize. rewrite Hchk.
    destruct x as [[[client audience] scope] details]. cbn [ev_user]. rewrite Hu. unfold login_response.
    by rewrite (proj2 (String.eqb_neq _ _) Hp). }
  rewrite Hh. split; [done|]. intros st2 cs2 env2 Hrun. eapply absent_refused; [exact Hq|done|].
  eapply pushed_absent_run; [exact Hrun|]. apply lookup_delete_eq.
Qed.

(** ** A consent ticket is used once *)

Abbreviation ticket_key t := ("consent:" +:+ tc_jti t).

(** [m] holds the key of [t] past its expiry. *)
Definition burnt (m : Memory) (t : consentTicket) : Prop :=
  ∃ e, mem_entries m !! ticket_key t = Some e ∧ ∀ x, x < unix_time (tc_exp t) + Minute -> expired e x = false.

Lemma burnTicket_burns st now t st' :
  unix_time (tc_exp t) > now -> in_int64 (unix_time (tc_exp t) - now + Minute) ->
  (size (mem_entries (st_tickets st)) < mem_max (st_tickets st))%nat ->
  burnTicket st now t = (st', None) -> burnt (st_tickets st') t.
Proof.
  intros Hexp Hin Hroom. unfold burnTicket. destruct (Seen _ _ _ _ _) as [m seen] eqn:Es. destruct seen; [done|]. intros [= <-].
  assert (Hsub : in_int64 (unix_time (tc_exp t) - now)) by (unfold in_int64, min_int64, max_int64, Minute, Second in *; lia).
  rewrite Sub_small, wrap64_small in Es by done. revert Es. unfold Seen, SetNX. simpl.
  destruct (live_spec (st_tickets st) (ticket_key t) now) as (Hm & _ & _ & _ & Hsz).
  destruct (KV.live (st_tickets st) (ticket_key t) now) as [m' [e|]]; cbn [fst snd negb] in *; [done|]. rewrite put_room by lia. intros [= <-].
  eexists. split; [apply lookup_insert_eq|]. intros x Hx. unfold expired, expiry. cbn [me_expires].
  destruct (Z.leb_spec (unix_time (tc_exp t) - now + Minute) 0) as [Hle|_]; [unfold Minute, Second in *; lia|]. go_time.
  destruct (Z.ltb_spec x (now + (unix_time (tc_exp t) - now + Minute))); [apply andb_false_r|lia].
Qed.

Lemma burnt_again st now t : burnt (st_tickets st) t -> now < unix_time (tc_exp t) + Minute ->
  burnTicket st now t = (st, Some AConsentTicket).
Proof.
  intros (e & He & Hx) Hn. unfold burnTicket, Seen, SetNX, KV.live. rewrite He, (Hx now Hn). simpl. by destruct st.
Qed.

(** One step records at most one key. *)
Lemma startAuthorize_tickets cfg cs env st req resume :
  st_tickets (startAuthorize cfg cs env st req resume).1 = st_tickets st
  ∨ ∃ key ttl, st_tickets (startAuthorize cfg cs env st req resume).1 = (Seen map_to_list (st_tickets st) (ev_now env) key ttl).1.
Proof.
  assert (Hb : st_tickets (burn_resume st (ev_now env) resume).1 = st_tickets st
    ∨ ∃ key ttl, st_tickets (burn_resume st (ev_now env) resume).1 = (Seen map_to_list (st_tickets st) (ev_now env) key ttl).1).
  { destruct resume as [[t d]|]; [|by left]. right.
    exists (ticket_key t), (wrap64 (Sub (unix_time (tc_exp t)) (ev_now env) + Minute)). unfold burn_resume, burnTicket.
    by destruct (Seen _ _ _ _ _) as [? []]. }
  unfold startAuthorize. destruct (authorize_checks cfg cs req) as [[[[client audience] scope] details]|]; [|by left].
  destruct (ev_user env) as [s|]; [|by left]. destruct (reauthNeeded _ _ _ _); [by left|].
  destruct (az_consent cfg) as [h|]; [|left; apply issue_code_frame].
  assert (Hc : ∀ st1 out, consentStep cfg st (ev_now env) (ev_rand env) h req client s (ev_context env) scope resume = (st1, out) ->
    st1 = st ∨ st1 = (burn_resume st (ev_now env) resume).1).
  { intros st1 out. unfold consentStep. destruct (burn_resume st (ev_now env) resume) as [stb ob]. simpl.
    repeat case_match; intros; simplify_eq; auto. }
  destruct (consentStep _ _ _ _ _ _ _ _ _ _ _) as [st1 out]. specialize (Hc _ _ eq_refl).
  assert (Hst1 : st_tickets st1 = st_tickets st ∨ ∃ key ttl, st_tickets st1 = (Seen map_to_list (st_tickets st) (ev_now env) key ttl).1)
    by (destruct Hc as [->| ->]; auto).
  destruct out as [[|]|]; simpl; try done. by rewrite (proj2 (issue_code_frame _ _ _ _ _ _ _ _ _ _)).
Qed.

Lemma authz_step_tickets cfg live fresh st st' : authz_step cfg live fresh st st' ->
  st_tickets st' = st_tickets st ∨ ∃ env key ttl, live env ∧ st_tickets st' = (Seen map_to_list (st_tickets st) (ev_now env) key ttl).1.
Proof.
  intros [cs env st0 q Hl|cs env st0 ticket dec Hl|cs st0 now rand clientID q Hf].
  - unfold handleAuthorize. pose proof (authorize_request_grants cfg cs st0 (ev_now env) q) as [_ Ht].
    destruct (authorize_request cfg cs st0 (ev_now env) q) as [st1 [req|r]]; simpl in *; [|by left].
    destruct (finish_authorize_state cfg cs env st1 req) as (env' & Hn & _ & ->).
    destruct (startAuthorize_tickets cfg cs env' st1 req None) as [->|(key & ttl & ->)]; rewrite Ht; [by left|]. right. rewrite Hn. eauto.
  - destruct (CompleteConsent_start cfg cs env st0 ticket dec) as [(e & ->)|(t & _ & _ & ->)]; [by left|].
    destruct (startAuthorize_tickets cfg cs env st0 (tc_req t) (Some (t, dec))) as [->|(key & ttl & ->)]; [by left|]. right. eauto.
  - left. apply handlePAR_grants.
Qed.

Lemma burnt_run cfg fresh t n st st' :
  nsteps (authz_step cfg (fun env => ev_now env < unix_time (tc_exp t) + Minute) fresh) n st st' -> burnt (st_tickets st) t ->
  (size (mem_entries (st_tickets st)) + n <= mem_max (st_tickets st))%nat -> burnt (st_tickets st') t.
Proof.
  induction 1 as [|n st1 st2 st3 Hs _ IH]; [done|]. intros (e & He & Hx) Hcap.
  destruct (authz_step_tickets _ _ _ _ _ Hs) as [Ht|(env & key & ttl & Hl & Ht)]; apply IH; rewrite Ht; try lia.
  - by exists e.
  - exists e. split; [|done]. apply Seen_keeps; [lia|done|by apply Hx].
  - destruct (Seen_size map_to_list (st_tickets st1) (ev_now env) key ttl); lia.
Qed.

(** A completion that answers has burnt its ticket. *)
Lemma startAuthorize_burns cfg cs env st req t dec st1 u :
  is_Some (az_consent cfg) -> startAuthorize cfg cs env st req (Some (t, dec)) = (st1, Ok u) ->
  ∃ st0, burnTicket st (ev_now env) t = (st0, None) ∧ st_tickets st1 = st_tickets st0.
Proof.
  intros [h Hh]. unfold startAuthorize. destruct (authorize_checks cfg cs req) as [[[[client audience] scope] details]|]; [|done].
  destruct (ev_user env) as [user|]; [|done]. destruct (reauthNeeded _ _ _ _); [done|]. rewrite Hh.
  unfold consentStep, consent_decision, burn_resume. destruct (burnTicket st (ev_now env) t) as [st0 o0].
  pose proof (issue_code_frame cfg env st0 req client user audience details) as Hf.
  destruct (cd_action dec) eqn:Ea; [| |done|rewrite Ea; done]; rewrite Ea.
  - destruct (subsetScopes _ _) as [g|]; [|done]. destruct (clampGrantExpiry _ _ _) as [e|]; [|done]. destruct o0; [done|].
    intros Hi. specialize (Hf g e). rewrite Hi in Hf. exists st0. split; [done|]. apply Hf.
  - destruct o0; [done|]. intros [= <- _]. by exists st0.
Qed.

(** A burnt ticket completes nothing. *)
Lemma startAuthorize_burnt cfg cs env st req t dec :
  is_Some (az_consent cfg) -> burnTicket st (ev_now env) t = (st, Some AConsentTicket) ->
  ∃ e, startAuthorize cfg cs env st req (Some (t, dec)) = (st, Err e).
Proof.
  intros [h Hh] Hb. unfold startAuthorize. destruct (authorize_checks cfg cs req) as [[[[client audience] scope] details]|]; [|eauto].
  destruct (ev_user env) as [user|]; [|eauto]. destruct (reauthNeeded _ _ _ _); [eauto|]. rewrite Hh.
  unfold consentStep, consent_decision, burn_resume. rewrite Hb.
  destruct (cd_action dec) eqn:Ea; try rewrite Ea; eauto. destruct (subsetScopes _ _); [|eauto]. destruct (clampGrantExpiry _ _ _); eauto.
Qed.

Lemma parseTicket_same cfg now now' raw t :
  parseTicket cfg now raw = Ok t -> now < unix_time (tc_exp t)
  ∧ (parseTicket cfg now' raw = Ok t ∨ parseTicket cfg now' raw = Err AConsentTicket).
Proof.
  unfold parseTicket. destruct (consentKey cfg); [|done]. destruct (cut_dot raw) as [[enc sig]|]; [|done]. destruct (_ || _); [done|].
  destruct (b64_decode sig) as [got|]; [|done]. destruct (negb _); [done|]. destruct (b64_decode enc) as [body|]; [|done].
  destruct (decode_ticket body) as [t'|]; [|done]. destruct (_ || _); [done|]. destruct (After _ now) eqn:Ea; [|done]. intros [= <-].
  split; [by apply Z.ltb_lt|]. simpl. destruct (After _ now'); auto.
Qed.

(** C11. A consent ticket is completed once. After the host completes a ticket (with an approval or a denial), no later
    completion of the same ticket succeeds or stores a code, whatever the decision, the user or the session, after any
    number of other requests that the replay cache has room for, made up to a minute after the ticket expires. *)
Theorem consent_ticket_once cfg fresh cs env st ticket t dec st1 u n st2 cs2 env2 dec2
  (Ht : parseTicket cfg (ev_now env) ticket = Ok t) (Hc : CompleteConsent cfg cs env st ticket dec = (st1, Ok u))
  (Hin : in_int64 (unix_time (tc_exp t) - ev_now env + Minute))
  (Hcap : (size (mem_entries (st_tickets st)) + 1 + n <= mem_max (st_tickets st))%nat)
  (Hrun : nsteps (authz_step cfg (fun env => ev_now env < unix_time (tc_exp t) + Minute) fresh) n st1 st2)
  (Hn2 : ev_now env2 < unix_time (tc_exp t) + Minute) :
  ∃ e, CompleteConsent cfg cs2 env2 st2 ticket dec2 = (st2, Err e).
Proof.
  assert (Hcfg : is_Some (az_consent cfg)). { unfold CompleteConsent in Hc. destruct (az_consent cfg); [eauto|done]. }
  destruct (parseTicket_same _ _ (ev_now env2) _ _ Ht) as [Hexp Ht2].
  destruct (CompleteConsent_start cfg cs env st ticket dec) as [(e & He)|(t' & Ht' & _ & He)]; rewrite He in Hc; [done|].
  rewrite Ht in Ht'. injection Ht' as <-. apply startAuthorize_burns in Hc as (st0 & Hb & Hst1); [|done].
  assert (Hburnt : burnt (st_tickets st1) t). { rewrite Hst1. eapply burnTicket_burns; try done; lia. }
  assert (Hsz : (size (mem_entries (st_tickets st1)) <= S (size (mem_entries (st_tickets st))))%nat
                ∧ mem_max (st_tickets st1) = mem_max (st_tickets st)).
  { rewrite Hst1. revert Hb. unfold burnTicket. destruct (Seen _ _ _ _ _) as [m s] eqn:Es. intros [= <- _].
    pose proof (Seen_size map_to_list (st_tickets st) (ev_now env) (ticket_key t) (wrap64 (Sub (unix_time (tc_exp t)) (ev_now env) + Minute))) as Hs.
    rewrite Es in Hs. simpl in *. apply Hs. lia. }
  assert (Hb2 : burnt (st_tickets st2) t) by (eapply burnt_run; [exact Hrun|done|lia]).
  destruct (CompleteConsent_start cfg cs2 env2 st2 ticket dec2) as [?|(t' & Ht' & _ & ->)]; [done|].
  assert (t' = t) as -> by (destruct Ht2 as [Ht2|Ht2]; congruence).
  apply startAuthorize_burnt; [done|]. by apply burnt_again.
Qed.

(** ** What the switches and the declared metadata do not do *)

(** The configuration with other values of [RequirePAR] and [RequireJAR]. *)
Definition with_require cfg (par jar : bool) : AuthzConfig :=
  mkAuthzConfig (az_issuer cfg) (az_resources cfg) (az_compat cfg) (az_require_state cfg) (az_code_ttl cfg) (az_oidc cfg) (az_acr cfg)
    (option_map (fun c => mkPAR (par_ttl c) par) (az_par cfg)) (option_map (fun c => mkJAR (jar_algs c) jar) (az_jar cfg)) (az_skew cfg)
    (az_rar cfg) (az_consent cfg) (az_ticket_ttl cfg) (az_max_grant cfg) (az_key cfg) (az_cimd cfg).

Lemma object_request_require cfg cs now raw clientID par jar :
  object_request (with_require cfg par jar) cs now raw clientID = object_request cfg cs now raw clientID.
Proof.
  unfold object_request. change (ResolveClient (with_require cfg par jar) cs clientID) with (ResolveClient cfg cs clientID).
  destruct (ResolveClient cfg cs clientID) as [client|]; [|done].
  unfold ParseRequestObject. cbn [with_require az_jar az_skew az_issuer]. by destruct (az_jar cfg).
Qed.

(** [RequirePAR] and [RequireJAR] guard inline requests only. The pushed request endpoint answers the same whatever
    the two switches say, so with [RequireJAR] it still takes plain parameters; and a query by [request_uri] or with a
    request object becomes the same authorization request whatever they say, so with [RequirePAR] a request object is
    taken without being pushed, and with [RequireJAR] plain parameters are taken once pushed. *)
Theorem require_switches_guard_inline cfg par jar cs st now rand clientID q
  (Hq : q "request_uri" ≠ "" ∨ q "request" ≠ "") :
  handlePAR (with_require cfg par jar) cs st now rand clientID q = handlePAR cfg cs st now rand clientID q
  ∧ authorize_request (with_require cfg par jar) cs st now q = authorize_request cfg cs st now q.
Proof.
  split.
  - unfold handlePAR. rewrite object_request_require. destruct (if negb _ then _ else _) as [req|]; [|done].
    assert (Hp : PushAuthorize (with_require cfg par jar) cs st now rand req = PushAuthorize cfg cs st now rand req); [|by rewrite Hp].
    unfold PushAuthorize. cbn [with_require az_par]. by destruct (az_par cfg).
  - unfold authorize_request. rewrite object_request_require.
    destruct (q "request_uri" =? "")%string eqn:E1; [|done]. destruct (q "request" =? "")%string eqn:E2; [|done].
    bool_prop. naive_solver.
Qed.

(** A request object of one client authorizes another. The object is verified with the keys of the client that the
    query names, and must be issued by it, but the request it carries is for whatever client its own [client_id] claim
    names: the endpoint goes on with that client, and never compares the two. *)
Theorem request_object_names_any_client cfg cs env st q signer req
  (Hu : q "request_uri" = "") (Ho : q "request" ≠ "") (Hs : ResolveClient cfg cs (q "client_id") = Some signer)
  (Hp : ParseRequestObject (az_jar cfg) (az_skew cfg) (ev_now env) (q "request") (q "client_id") (az_issuer cfg) signer = Ok req)
  (Hc : ar_client req ≠ "") :
  handleAuthorize cfg cs env st q = finish_authorize cfg cs env st req.
Proof.
  unfold handleAuthorize, authorize_request. rewrite Hu, (proj2 (String.eqb_neq _ _) Ho). cbn [negb andb]. rewrite andb_false_l.
  change (("" =? "")%string) with true. cbn [negb]. unfold object_request. rewrite Hs, Hp. unfold with_client.
  rewrite (proj2 (String.eqb_neq _ _) Hc). by destruct req.
Qed.

(** Unless unknown scopes are dropped, what a client declared at its registration plays no part. *)
Lemma declared_scope_ignored cfg requested r sc sc' :
  cp_drop_unknown (az_compat cfg) = false -> narrowScopes cfg requested r sc = narrowScopes cfg requested r sc'.
Proof. intros Hd. unfold narrowScopes, narrowResourceScopes. by rewrite Hd. Qed.

(** A huge [max_age] wraps to a fraction of a second. *)
Lemma max_age_wraps ac now : ax_time ac ≠ 0 -> Second <= now - ax_time ac <= 10 * Second -> too_old (Some 18446744074) (Some ac) now = true.
Proof.
  intros Hz Hn. unfold too_old. change (wrap64 (18446744074 * Second)) with 290448384. unfold Second in *.
  rewrite Sub_small by (unfold in_int64, min_int64, max_int64; lia).
  rewrite (proj2 (Z.ltb_lt _ _) (ltac:(lia) : 290448384 < now - ax_time ac)). apply orb_true_r.
Qed.
End Endpoint.

(** ** Runs *)

#[local] Existing Instance TokenGrants.demo_lib.
#[local] Existing Instance Registration.toy_urls.
#[local] Existing Instance Dpop.toy_lib.
#[local] Existing Instance Delegation.demo_ids.
#[local] Existing Instance Rar.toy_rar.

Definition query (l : list (string * string)) (k : string) : string :=
  match List.find (fun kv => (kv.1 =? k)%string) l with Some kv => kv.2 | None => "" end.

Definition az_request : AuthorizeRequest :=
  mkAuthorize "bank" "https://app/cb" "code" ["read"] "xyz" "challenge" "S256" "https://api" "" None [] "" "".
Definition az_ticket : consentTicket := mkTicket 1 "j1" 1700000600 "alice" "" az_request.
Definition az_claims : jarClaims :=
  mkJarClaims "evil" "https://as" 1700000600 0 0 "" "code" "bank" "https://app/cb" "read" "" "" "challenge" "S256" "https://api" None "" "" "".

(** The decoders know one request object, signed by [evil] and naming [bank], and one key. *)
Definition toy_jar : JarLib := {|
  jar_decode_header s := if (s =? "H")%string then Some (mkJarHeader "EdDSA" "") else None;
  jar_decode_claims s := if (s =? "C")%string then Some az_claims else None;
  jar_decode_jwks s := if (s =? "K")%string then Some [(Some (mkJwkBase "OKP" "" "" ""), Some (mkJwkParams "Ed25519" toy_x "" "" ""))] else None;
  ToUpper s := if (s =? "EdDSA")%string then "EDDSA" else s |}.
#[local] Existing Instance toy_jar.

#[local] Instance AuthorizeRequest_eq_dec : EqDecision AuthorizeRequest.
Proof. solve_decision. Defined.

#[local] Instance AuthorizeRequest_countable : Countable AuthorizeRequest.
Proof.
  refine (inj_countable'
    (fun r => ([ar_client r; ar_redirect r; ar_response r; ar_state r; ar_challenge r; ar_method r; ar_resource r; ar_nonce r; ar_prompt r;
                ar_details r], ar_scope r, ar_acr r, ar_max_age r))
    (fun p => match p with
              | ([a; b; c; d; e; f; g; h; i; j], sc, acr, m) => mkAuthorize a b c sc d e f g h m acr i j
              | _ => az_request
              end) _).
  by intros [].
Defined.

(** The demonstration's own request has a short name. *)
Definition toy_encode (r : AuthorizeRequest) : string := if decide (r = az_request) then "R" else bits (encode r).
Definition toy_decode (s : string) : option AuthorizeRequest := if (s =? "R")%string then Some az_request else decode (unbits s).

Lemma toy_decode_encode r : toy_decode (toy_encode r) = Some r.
Proof.
  unfold toy_decode, toy_encode. case_decide as E; [by rewrite E|].
  assert (Hb : (bits (encode r) =? "R")%string = false) by (by destruct (encode r)).
  by rewrite Hb, unbits_bits, countable.decode_encode.
Qed.

Definition toy_authz : AuthzLib := {|
  url_with u ps := Some (u +:+ "?" +:+ String.concat "&" (map (fun p => p.1 +:+ "=" +:+ p.2) ps)); QueryEscape s := s;
  encode_ticket _ := "T"; decode_ticket s := if (s =? "T")%string then Some az_ticket else None;
  encode_request := toy_encode; decode_request := toy_decode; decode_encode_request r _ := toy_decode_encode r |}.
#[local] Existing Instance toy_authz.

Definition az_demo (consent : option (ConsentRequest -> option ConsentDecision)) : AuthzConfig :=
  mkAuthzConfig "https://as" [mkResource "https://api" ["read"; "write"]] (mkCompat false false false false false) false (60 * Second) false ∅
    (Some (mkPAR 0 false)) (Some (mkJAR [] true)) 0 None consent 0 0 "key" None.
Definition az_client (id redirect jwks : string) : OAuthClient :=
  mkOAuthClient id id "" (mkRegistration id [redirect] [GrantTypeAuthorizationCode] ["code"] "" "none" "web" (mkMeta [] "" "" "" "" "") ""
    jwks "" "" [] "" [] "" false) false demo_now demo_now.
Definition az_clients : ClientStore :=
  mkClientStore (<["bank" := az_client "bank" "https://app/cb" ""]> (<["evil" := az_client "evil" "https://app/evil" "K"]> ∅)) ∅.
Definition az_state : AuthzState := mkAuthzState NewGrantStore ∅ (NewMemory 10) None.
Definition az_env (tok : string) (user : option string) : AuthzEnv := mkAuthzEnv demo_now (Some tok) None user.
Definition az_pushed : AuthzState := (PushAuthorize (az_demo None) az_clients az_state demo_now (Some "p1") az_request).1.
Definition az_uri : string := requestURIPrefix +:+ "p1".
Definition az_query : string -> string := query [("client_id", "bank"); ("request_uri", az_uri)].

Lemma az_query_pushed : pushed_query "bank" az_uri az_query.
Proof. repeat split. intros k Hk. repeat (apply elem_of_cons in Hk as [->|Hk]; [done|]). by apply elem_of_nil in Hk. Qed.

(** The parameters of the request, pushed as a form or sent inline; plain inline requests are allowed, and the host is
    asked for consent and approves what it is shown. *)
Definition az_params : list (string * string) :=
  [("response_type", "code"); ("redirect_uri", "https://app/cb"); ("scope", "read"); ("state", "xyz"); ("code_challenge", "challenge");
   ("code_challenge_method", "S256"); ("resource", "https://api")].
Definition az_inline : AuthzConfig :=
  with_require (az_demo (Some (fun cq => Some (mkDecision ConsentApprove (cq_scopes cq) 0 0 "")))) false false.



Lemma pushed_login_dead_end_witness :
  (handleAuthorize (az_demo None) az_clients (az_env "c1" None) az_pushed az_query).2 = HLogin false
  ∧ ∀ st2 cs2 env2, rtc (authz_step (az_demo None) (fun _ => True) (fun u => u ≠ az_uri))
        (handleAuthorize (az_demo None) az_clients (az_env "c1" None) az_pushed az_query).1 st2 ->
      handleAuthorize (az_demo None) cs2 env2 st2 az_query = (st2, HError 400 "invalid_request").
Proof.
  refine (pushed_login_dead_end (az_demo None) az_clients (az_env "c1" None) az_pushed az_query "bank" "p1"
    (mkPushed "R" (demo_now + 60 * Second)) az_request (az_client "bank" "https://app/cb" "", "https://api", ["read"], "") az_query_pushed _ _ _ _ _ _ _);
    try (vm_compute; reflexivity); done.
Defined.

Definition az_row : AuthorizationCode :=
  mkCode "h:c1" "bank" "alice" "https://app/cb" ["read"] "https://api" "challenge" "S256" "" "" 0 "" [] (demo_now + 60 * Second).

Lemma issued_codes_sound_witness :
  ∃ before c after,
    [CallPush az_clients demo_now (Some "p1") "bank" (query az_params); CallAuthorize az_clients (az_env "c1" (Some "alice")) az_query]
      = before ++ c :: after
    ∧ issued_by (V := string) az_inline (serve_calls (V := string) az_inline az_state before) c az_row.
Proof.
  refine (issued_codes_sound az_inline az_state _ "h:c1" az_row _ _).
  - vm_compute. reflexivity.
  - vm_compute. done.
Defined.

(** The host asks, then approves. *)
Definition az_asking : AuthzConfig := az_demo (Some (fun _ => Some (mkDecision ConsentInteract [] 0 0 "https://app/ask"))).
Definition az_approve : ConsentDecision := mkDecision ConsentApprove ["read"] 0 0 "".
Definition az_signed : string := "T." +:+ toy_x.

Example consent_asked :
  (StartAuthorize az_asking az_clients (az_env "j1" (Some "alice")) az_state az_request).2
  = Ok ("https://app/ask?consent_ticket=" +:+ az_signed).
Proof. vm_compute. reflexivity. Qed.

Definition az_granted : AuthzState := (CompleteConsent az_asking az_clients (az_env "c1" (Some "alice")) az_state az_signed az_approve).1.

Lemma consent_ticket_once_witness :
  ∃ e, CompleteConsent az_asking az_clients (az_env "c2" (Some "alice")) az_granted az_signed az_approve = (az_granted, Err e).
Proof.
  refine (consent_ticket_once az_asking (fun _ => True) az_clients (az_env "c1" (Some "alice")) az_state az_signed az_ticket az_approve az_granted
    "https://app/cb?code=c1&state=xyz&iss=https://as" 0 az_granted az_clients (az_env "c2" (Some "alice")) az_approve _ _ _ _ _ _).
  - vm_compute. reflexivity.
  - vm_compute. reflexivity.
  - vm_compute. done.
  - vm_compute. lia.
  - constructor.
  - vm_compute. reflexivity.
Defined.

Definition az_object : string -> string := query [("client_id", "evil"); ("request", "H.C.S")].

Lemma require_switches_guard_inline_witness :
  handlePAR (with_require (az_demo None) true true) az_clients az_state demo_now (Some "p1") "evil" az_object
  = handlePAR (az_demo None) az_clients az_state demo_now (Some "p1") "evil" az_object
  ∧ authorize_request (with_require (az_demo None) true true) az_clients az_state demo_now az_object
  = authorize_request (az_demo None) az_clients az_state demo_now az_object.
Proof. refine (require_switches_guard_inline (az_demo None) true true az_clients az_state demo_now (Some "p1") "evil" az_object _). by right. Defined.

(** The object of [evil] obtains a code for [bank]. *)
Lemma request_object_names_any_client_witness :
  handleAuthorize (az_demo None) az_clients (az_env "c1" (Some "alice")) az_state az_object
  = finish_authorize (az_demo None) az_clients (az_env "c1" (Some "alice")) az_state (claims_request az_claims)
  ∧ gs_codes (st_grants (handleAuthorize (az_demo None) az_clients (az_env "c1" (Some "alice")) az_state az_object).1) !! "h:c1" = Some az_row.
Proof.
  split; [|vm_compute; reflexivity].
  refine (request_object_names_any_client (az_demo None) az_clients (az_env "c1" (Some "alice")) az_state az_object
    (az_client "evil" "https://app/evil" "K") (claims_request az_claims) _ _ _ _ _); try (vm_compute; reflexivity); done.
Defined.

(** A registration token's scope cap does not bind the client. A token that allows the scope [read] only registers a
    client that declares no scope; that client then obtains an authorization code for [write]. *)
Theorem capped_client_unrestricted :
  let '(ts, cs, r) := handleRegister reg_cfg [] reg_env reg_tokens reg_none
      (Some (with_defaults (mkRegistration "app" ["https://app/cb"] [] [] "" "" "" (mkMeta [] "" "" "" "" "") "" "" "" "" [] "" [] "" false)
               [GrantTypeAuthorizationCode] [] "" "")) "bearer rt_s1" in
  tk_scopes reg_row = ["read"] ∧ reg_tokens !! "t1" = Some reg_row ∧ (tk_uses <$> ts !! "t1") = Some 1
  ∧ (oc_client_id <$> cs_clients cs !! "client-c1") = Some "client-c1"
  ∧ (ac_scope <$> gs_codes (st_grants (handleAuthorize (with_require (az_demo None) false false) cs (az_env "c1" (Some "alice")) az_state
       (query [("client_id", "client-c1"); ("redirect_uri", "https://app/cb"); ("response_type", "code"); ("scope", "write");
               ("code_challenge", "x"); ("code_challenge_method", "S256"); ("resource", "https://api")])).1) !! "h:c1") = Some ["write"].
Proof. vm_compute. done. Qed.
