(* ===== verification/Session.v ===== *)
(** * Sessions ([internal/session], [storage/memory/memory_sessions.go] and the sessions of [memory.go])

    Opaque session tokens: issuing under a cap of concurrent sessions, validation with expiry, idle
    timeout and credential re-checks, and the throttled last-seen time. The store is the in-memory
    backend, one atomic function per method. The hash of a token, the user table, the account gate and
    the credential checker are arguments; [time.Now] is an argument of each call. *)

From Stdlib Require Import ZArith Lia String.
From stdpp Require Import base gmap strings list sorting.
From S2P Require Import Prelude.

Set Default Goal Selector "!".
Open Scope string_scope.
Open Scope list_scope.
Open Scope Z_scope.

(** ** Data ([models.go]) *)

Definition AuthLevelFull : string := "full".
Definition AuthLevelPending2FA : string := "pending_2fa".

Record Session := mkSession {
  se_id : string; se_user : string; se_hash : string; se_ua : string; se_ip : string;
  se_created : Z; se_expires : Z; se_revoked : option Z; se_level : string; se_org : option string;
  se_last_seen : Z; se_elevated : option Z; se_credential : string; se_methods : list string; se_auth_time : Z;
}.

Definition Expired (s : Session) (now : Z) : bool :=
  match se_revoked s with Some _ => true | None => negb (Before now (se_expires s)) end.

Definition with_revoked (s : Session) (at_ : Z) : Session :=
  mkSession (se_id s) (se_user s) (se_hash s) (se_ua s) (se_ip s) (se_created s) (se_expires s) (Some at_) (se_level s)
    (se_org s) (se_last_seen s) (se_elevated s) (se_credential s) (se_methods s) (se_auth_time s).

Definition with_level (s : Session) (level : string) : Session :=
  mkSession (se_id s) (se_user s) (se_hash s) (se_ua s) (se_ip s) (se_created s) (se_expires s) (se_revoked s) level
    (se_org s) (se_last_seen s) (se_elevated s) (se_credential s) (se_methods s) (se_auth_time s).

Definition with_last_seen (s : Session) (at_ : Z) : Session :=
  mkSession (se_id s) (se_user s) (se_hash s) (se_ua s) (se_ip s) (se_created s) (se_expires s) (se_revoked s) (se_level s)
    (se_org s) at_ (se_elevated s) (se_credential s) (se_methods s) (se_auth_time s).

Definition with_elevated (s : Session) (until : option Z) : Session :=
  mkSession (se_id s) (se_user s) (se_hash s) (se_ua s) (se_ip s) (se_created s) (se_expires s) (se_revoked s) (se_level s)
    (se_org s) (se_last_seen s) until (se_credential s) (se_methods s) (se_auth_time s).

Definition with_methods (s : Session) (methods : list string) (at_ : Z) : Session :=
  mkSession (se_id s) (se_user s) (se_hash s) (se_ua s) (se_ip s) (se_created s) (se_expires s) (se_revoked s) (se_level s)
    (se_org s) (se_last_seen s) (se_elevated s) (se_credential s) methods at_.

(** [hash_token] is [crypto.HashToken]; [normalize_method] is [ToLower] of [TrimSpace]. *)
Class SessionLib := {
  hash_token : string -> string;
  normalize_method : string -> string;
}.

Definition MergeAuthMethods `{SessionLib} (existing add : list string) : list string :=
  dedup (List.filter (fun m => negb (m =? "")%string) (map normalize_method (existing ++ add))).

(** ** The store ([memory.go], [memory_sessions.go]) *)

Abbreviation Sessions := (gmap string Session).

Definition CreateSession (st : Sessions) (s : Session) : Sessions * Session :=
  let s := if (se_level s =? "")%string then with_level s AuthLevelFull else s in
  (<[se_id s := s]> st, s).

Definition CreateSessionWithAuthLevel (st : Sessions) (s : Session) : Sessions * Session :=
  let s := if (se_level s =? "")%string then with_level s AuthLevelFull else s in
  (<[se_id s := s]> st, s).

(** The rows in the order a [range] over the map visits them. *)
Definition rows (st : Sessions) : list Session := map snd (map_to_list st).

Definition SessionByTokenHash (st : Sessions) (hash : string) : option Session :=
  List.find (fun s => (se_hash s =? hash)%string) (rows st).

Definition SessionByID (st : Sessions) (id : string) : option Session := st !! id.

(** [None] is [ErrNotFound] in the methods below. *)
Definition RevokeSession (st : Sessions) (id : string) (now : Z) : option Sessions :=
  (fun s => <[id := with_revoked s now]> st) <$> st !! id.

Definition RevokeUserSessions (st : Sessions) (userID : string) (now : Z) : Sessions :=
  (fun s => if bool_decide (se_user s = userID) && bool_decide (se_revoked s = None) then with_revoked s now else s) <$> st.

Definition UpdateSessionAuthLevel (st : Sessions) (id level : string) : option Sessions :=
  (fun s => <[id := with_level s level]> st) <$> st !! id.

Definition live (s : Session) (now : Z) : bool := negb (Expired s now).

Definition newer (s s' : Session) : bool := After (se_created s) (se_created s').

Definition ListUserSessions (st : Sessions) (userID : string) (now : Z) : list Session :=
  sort_by newer (List.filter (fun s => bool_decide (se_user s = userID) && live s now) (rows st)).

Definition TouchSession (st : Sessions) (id : string) (at_ : Z) : option Sessions :=
  (fun s => if After at_ (se_last_seen s) then <[id := with_last_seen s at_]> st else st) <$> st !! id.

Definition RevokeOtherUserSessions (st : Sessions) (userID keep : string) (now : Z) : Sessions :=
  map_imap (fun id s => Some (if bool_decide (se_user s = userID) && negb (id =? keep)%string && live s now
                              then with_revoked s now else s)) st.

Definition RevokeSessionsByCredential (st : Sessions) (credentialID : string) (now : Z) : Sessions :=
  (fun s => if (se_credential s =? credentialID)%string && live s now then with_revoked s now else s) <$> st.

Definition AppendSessionAuthMethods `{SessionLib} (st : Sessions) (id : string) (methods : list string) (at_ : Z)
  : option (Sessions * (list string * Z)) :=
  (fun s =>
     let merged := MergeAuthMethods (se_methods s) methods in
     let at_ := if After at_ (se_auth_time s) then at_ else se_auth_time s in
     (<[id := with_methods s merged at_]> st, (merged, at_))) <$> st !! id.

Definition SetSessionElevatedUntil (st : Sessions) (id : string) (until : option Z) : option Sessions :=
  (fun s => <[id := with_elevated s until]> st) <$> st !! id.

(** ** The service ([service.go], [limits.go]) *)

Inductive session_error :=
  | ErrInvalidToken | ErrSessionExpired | ErrCredential | ErrUserByID | ErrAccount | ErrSessionLimit (max : Z)
  | ErrEvict | ErrNewToken.

(** The answer of a credential checker. *)
Inductive credential_answer := CredentialValid | CredentialRevoked | CredentialError.

(** [Policy]; the toucher and the revoker are the store, when set. *)
Record SessionPolicy := mkPolicy {
  sp_idle : Z; sp_touch_interval : Z; sp_toucher : bool; sp_revoker : bool;
  sp_credentials : option (string -> credential_answer);
}.

Definition OverflowEvictOldest : string := "evict_oldest".
Definition OverflowReject : string := "reject".

Record Cap := mkCap { cap_max : Z; cap_mode : string; cap_lister : bool; cap_revoker : bool }.

Record touchGate := mkTouchGate { tg_last : gmap string Z; tg_swept : Z }.

Definition touchGateSweepThreshold : Z := 4096.

Definition gate_allow (g : touchGate) (id : string) (now interval : Z) : touchGate * bool :=
  if match tg_last g !! id with Some t => Sub now t <? interval | None => false end then (g, false)
  else
    let last := <[id := now]> (tg_last g) in
    if (touchGateSweepThreshold <? Z.of_nat (size last)) && (interval <=? Sub now (tg_swept g))
    then (mkTouchGate (filter (fun kt => Sub now kt.2 < interval) last) now, true)
    else (mkTouchGate last (tg_swept g), true).

Record SessionService := mkSessionService {
  sv_ttl : Z; sv_policy : SessionPolicy; sv_account : option (string -> bool); sv_cap : Cap;
}.

Definition CheckAccount (sv : SessionService) (userID : string) : bool :=
  match sv_account sv with Some check => check userID | None => true end.

Definition older (s s' : Session) : bool := Before (se_created s) (se_created s').

(** The user's full sessions that count against the cap. *)
Definition counted (exclude : string) (s : Session) : bool :=
  negb (se_id s =? exclude)%string && negb (se_level s =? AuthLevelPending2FA)%string.

Fixpoint evict (st : Sessions) (victims : list Session) (now : Z) : Sessions * option session_error :=
  match victims with
  | [] => (st, None)
  | old :: victims' =>
      match RevokeSession st (se_id old) now with
      | None => (st, Some ErrEvict)
      | Some st => evict st victims' now
      end
  end.

(** [noLimit] is a context made by [WithoutLimits]; the list is read at [tl], rows are stamped at [tr]. *)
Definition EnforceCap (cap : Cap) (st : Sessions) (noLimit : bool) (tl tr : Z) (userID exclude : string)
  : Sessions * option session_error :=
  if (cap_max cap <=? 0) || negb (cap_lister cap) then (st, None)
  else if noLimit then (st, None)
  else
    let full := List.filter (counted exclude) (ListUserSessions st userID tl) in
    let over := Z.of_nat (length full) - (cap_max cap - 1) in
    if over <=? 0 then (st, None)
    else if (cap_mode cap =? OverflowReject)%string || negb (cap_revoker cap) then (st, Some (ErrSessionLimit (cap_max cap)))
    else evict st (firstn (Z.to_nat over) (sort_by older full)) tr.

Definition CapRoom (cap : Cap) (st : Sessions) (noLimit : bool) (tl tr : Z) (userID exclude : string)
  : Sessions * option session_error :=
  if negb (cap_mode cap =? OverflowReject)%string then (st, None) else EnforceCap cap st noLimit tl tr userID exclude.

Record IssueOptions := mkIssueOptions { io_ua : string; io_ip : string; io_credential : string; io_ttl : Z }.

(** What a call draws from outside: the clock of the list, of the store and of the service, the random
    token ([None] when the generator fails), the new id, and the context's sign-in record. *)
Record IssueEnv := mkIssueEnv {
  ie_no_limit : bool; ie_list : Z; ie_store : Z; ie_now : Z; ie_token : option string; ie_id : string;
  ie_methods : list string; ie_at : Z;
}.

Section Service.
Context `{SessionLib} {User : Type} (users : string -> option User).

(** [AuthMethods] and [AuthTime] of a new session. *)
Definition record_methods (s : Session) (methods : list string) (at_ now : Z) : Session :=
  match methods with [] => s | _ => with_methods s methods (if IsZero at_ then now else at_) end.

Definition IssueWith (sv : SessionService) (st : Sessions) (e : IssueEnv) (userID : string) (o : IssueOptions)
  : Sessions * result session_error (string * Session) :=
  if negb (CheckAccount sv userID) then (st, Err ErrAccount)
  else match EnforceCap (sv_cap sv) st (ie_no_limit e) (ie_list e) (ie_store e) userID "" with
  | (st, Some err) => (st, Err err)
  | (st, None) =>
      match ie_token e with
      | None => (st, Err ErrNewToken)
      | Some token =>
          let now := ie_now e in
          let ttl := if 0 <? io_ttl o then io_ttl o else sv_ttl sv in
          let sess := record_methods (mkSession (ie_id e) userID (hash_token token) (io_ua o) (io_ip o) now (now + ttl)
            None "" None now None (io_credential o) [] 0) (ie_methods e) (ie_at e) now in
          let '(st, sess) := CreateSession st sess in
          (st, Ok (token, sess))
      end
  end.

Definition checkCredential (p : SessionPolicy) (st : Sessions) (tr : Z) (s : Session) : Sessions * option session_error :=
  match sp_credentials p with
  | None => (st, Some ErrSessionExpired)
  | Some check =>
      match check (se_credential s) with
      | CredentialValid => (st, None)
      | CredentialError => (st, Some ErrCredential)
      | CredentialRevoked =>
          (if sp_revoker p then default st (RevokeSession st (se_id s) tr) else st, Some ErrSessionExpired)
      end
  end.

(** When the session was last seen, as validation reads it. *)
Definition last_seen (s : Session) : Z := if IsZero (se_last_seen s) then se_created s else se_last_seen s.

(** The last-seen update, the last step of a validation; a failed write only logs. *)
Definition touch_session (p : SessionPolicy) (st : Sessions) (g : touchGate) (now : Z) (s : Session)
  : Sessions * touchGate * Session :=
  if sp_toucher p && (0 <? sp_touch_interval p) && (sp_touch_interval p <=? Sub now (last_seen s)) then
    match gate_allow g (se_id s) now (sp_touch_interval p) with
    | (g, false) => (st, g, s)
    | (g, true) =>
        match TouchSession st (se_id s) now with
        | None => (st, g, s)
        | Some st => (st, g, with_last_seen s now)
        end
    end
  else (st, g, s).

Definition validate (sv : SessionService) (st : Sessions) (g : touchGate) (now tr : Z) (token : string) (touch : bool)
  : Sessions * touchGate * result session_error (Session * User) :=
  let p := sv_policy sv in
  if (token =? "")%string then (st, g, Err ErrInvalidToken)
  else match SessionByTokenHash st (hash_token token) with
  | None => (st, g, Err ErrInvalidToken)
  | Some sess =>
      if Expired sess now then (st, g, Err ErrSessionExpired)
      else if (0 <? sp_idle p) && (sp_idle p <=? Sub now (last_seen sess)) then (st, g, Err ErrSessionExpired)
      else match (if (se_credential sess =? "")%string then (st, None) else checkCredential p st tr sess) with
      | (st, Some err) => (st, g, Err err)
      | (st, None) =>
          match users (se_user sess) with
          | None => (st, g, Err ErrUserByID)
          | Some user =>
              if touch then let '(st, g, sess) := touch_session p st g now sess in (st, g, Ok (sess, user))
              else (st, g, Ok (sess, user))
          end
      end
  end.
End Service.

Definition Validate `{SessionLib} {User} (users : string -> option User) sv st g now tr token :=
  validate users sv st g now tr token true.
Definition Check `{SessionLib} {User} (users : string -> option User) sv st g now tr token :=
  validate users sv st g now tr token false.

(** ** Validation *)

(** A session is usable at [now]: what a validation checks of it, besides the user. *)
Definition usable (p : SessionPolicy) (s : Session) (now : Z) : Prop :=
  se_revoked s = None ∧ now < se_expires s
  ∧ (0 < sp_idle p -> Sub now (last_seen s) < sp_idle p)
  ∧ (se_credential s ≠ "" -> ∃ check, sp_credentials p = Some check ∧ check (se_credential s) = CredentialValid).

Lemma Expired_false s now : Expired s now = false ↔ se_revoked s = None ∧ now < se_expires s.
Proof.
  unfold Expired. destruct (se_revoked s); [by split; [|intros []]|]. go_time.
  destruct (Z.ltb_spec now (se_expires s)); simpl; split; (done || lia || by intros []; lia).
Qed.

Lemma session_live_spec s now : live s now = true ↔ se_revoked s = None ∧ now < se_expires s.
Proof. unfold live. by rewrite negb_true_iff, Expired_false. Qed.

Lemma elem_of_rows st s : s ∈ rows st ↔ ∃ k, st !! k = Some s.
Proof.
  unfold rows. rewrite list_elem_of_In, in_map_iff. split.
  - intros ([k s'] & <- & Hin%list_elem_of_In%elem_of_map_to_list). by exists k.
  - intros [k Hk%elem_of_map_to_list%list_elem_of_In]. by exists (k, s).
Qed.

Lemma SessionByTokenHash_Some st h s :
  SessionByTokenHash st h = Some s -> se_hash s = h ∧ ∃ k, st !! k = Some s.
Proof.
  intros [Hin%list_elem_of_In Hh%String.eqb_eq]%find_some. split; [done|]. by apply elem_of_rows.
Qed.

Lemma touch_session_session p st g now s :
  let '(_, _, s') := touch_session p st g now s in s' = s ∨ s' = with_last_seen s now.
Proof.
  unfold touch_session. destruct (_ && _); [|by left]. destruct (gate_allow _ _ _ _) as [g' []]; [|by left].
  destruct (TouchSession _ _ _); auto.
Qed.

Section Validation.
Context `{SessionLib} {User : Type} (users : string -> option User).

(** A validation succeeds exactly on a usable session of a known user. *)
Lemma validate_ok sv st g now tr token touch s' u :
  (validate users sv st g now tr token touch).2 = Ok (s', u) ->
  token ≠ "" ∧ ∃ s, SessionByTokenHash st (hash_token token) = Some s ∧ usable (sv_policy sv) s now
    ∧ users (se_user s) = Some u ∧ (s' = s ∨ touch = true ∧ s' = with_last_seen s now).
Proof.
  unfold validate. destruct (String.eqb_spec token "") as [|Ht]; [done|].
  destruct (SessionByTokenHash st (hash_token token)) as [s|]; [|done].
  destruct (Expired s now) eqn:Ee; [done|]. apply Expired_false in Ee as [Hr He].
  destruct ((0 <? sp_idle (sv_policy sv)) && (sp_idle (sv_policy sv) <=? Sub now (last_seen s))) eqn:Ei; [done|].
  assert (Hi : 0 < sp_idle (sv_policy sv) -> Sub now (last_seen s) < sp_idle (sv_policy sv)).
  { intros Hi. rewrite (proj2 (Z.ltb_lt _ _) Hi) in Ei. simpl in Ei. by apply Z.leb_gt in Ei. }
  destruct (String.eqb_spec (se_credential s) "") as [Hc|Hc].
  2: unfold checkCredential; destruct (sp_credentials (sv_policy sv)) as [check|] eqn:Ech; [|done];
     destruct (check (se_credential s)) eqn:Ea; try done.
  all: destruct (users (se_user s)) as [user|] eqn:Eu; [|done].
  all: destruct touch;
    [pose proof (touch_session_session (sv_policy sv) st g now s) as Hts;
     destruct (touch_session (sv_policy sv) st g now s) as [[st' g'] s'']|]; simpl; intros [= <- <-];
    (split; [done|]); exists s; unfold usable; split_and!; try done; eauto; destruct Hts; auto.
Qed.

Lemma validate_usable sv st g now tr token touch s u :
  token ≠ "" -> SessionByTokenHash st (hash_token token) = Some s -> usable (sv_policy sv) s now ->
  users (se_user s) = Some u -> ∃ s', (validate users sv st g now tr token touch).2 = Ok (s', u).
Proof.
  intros Ht%String.eqb_neq Hs (Hr & He & Hi & Hc) Hu. unfold validate. rewrite Ht, Hs.
  rewrite (proj2 (Expired_false s now)) by done.
  assert (E : (0 <? sp_idle (sv_policy sv)) && (sp_idle (sv_policy sv) <=? Sub now (last_seen s)) = false).
  { destruct (Z.ltb_spec 0 (sp_idle (sv_policy sv))); [|done]. simpl. apply Z.leb_gt. auto. }
  rewrite E. destruct (String.eqb_spec (se_credential s) "") as [|Hne].
  2: destruct (Hc Hne) as (check & Hp & Ha); unfold checkCredential; rewrite Hp, Ha.
  all: rewrite Hu; destruct touch; [|by eexists];
    by destruct (touch_session (sv_policy sv) st g now s) as [[st' g'] s'']; eexists.
Qed.
End Validation.

(** A session token is accepted exactly when it is not empty, its hash names a stored session that is
    not revoked, not expired and not idle for too long, the credential the session is tied to (if any) is
    confirmed valid by a configured checker, and the user still exists. The session handed back is the
    stored one, except for a last-seen time advanced to now. *)
Theorem session_accepted_iff `{SessionLib} {User} (users : string -> option User) sv st g now tr token touch u :
  (∃ s', (validate users sv st g now tr token touch).2 = Ok (s', u)
    ∧ ∃ s, SessionByTokenHash st (hash_token token) = Some s ∧ (s' = s ∨ touch = true ∧ s' = with_last_seen s now))
  ↔ token ≠ "" ∧ ∃ s, SessionByTokenHash st (hash_token token) = Some s ∧ usable (sv_policy sv) s now
      ∧ users (se_user s) = Some u.
Proof.
  split.
  - intros (s' & (Ht & s & Hs & Hu & Hus & _)%validate_ok & _). eauto 10.
  - intros (Ht & s & Hs & Hu & Hus). destruct (validate_usable users sv st g now tr token touch s u) as [s' Hv]; try done.
    exists s'. split; [done|]. apply validate_ok in Hv as (_ & s0 & Hs0 & _ & _ & Hc). eauto.
Qed.

(** ** The cap *)

(** Rows are stored under their own id. *)
Definition keyed (st : Sessions) : Prop := ∀ k s, st !! k = Some s -> se_id s = k.

(** The full sessions of a user at [now]. *)
Definition full_at (userID : string) (now : Z) (s : Session) : Prop :=
  se_user s = userID ∧ se_level s ≠ AuthLevelPending2FA ∧ se_revoked s = None ∧ now < se_expires s.

#[export] Instance full_at_dec userID now s : Decision (full_at userID now s).
Proof. unfold full_at. apply _. Defined.

Definition full_sessions (st : Sessions) (userID : string) (now : Z) : gset string :=
  dom (filter (fun ks => full_at userID now ks.2) st).

Lemma elem_of_full_sessions st userID now k :
  k ∈ full_sessions st userID now ↔ ∃ s, st !! k = Some s ∧ full_at userID now s.
Proof.
  unfold full_sessions. rewrite elem_of_dom. split.
  - intros [s [Hs Hf]%map_lookup_filter_Some]. by exists s.
  - intros (s & Hs & Hf). exists s. by apply map_lookup_filter_Some.
Qed.

(** [st'] has the rows of [st], except that some were revoked, all of those in [gone]. *)
Definition revoked_only (st st' : Sessions) (gone : gset string) : Prop :=
  ∀ k, (k ∈ gone -> ∀ s, st' !! k = Some s -> se_revoked s ≠ None) ∧ (k ∉ gone -> st' !! k = st !! k)
    ∧ ∀ s', st' !! k = Some s' -> ∃ s, st !! k = Some s ∧ (s' = s ∨ ∃ t, s' = with_revoked s t).

Lemma revoked_only_keyed st st' gone : revoked_only st st' gone -> keyed st -> keyed st'.
Proof.
  intros Hr Hk k s' Hs'. destruct (Hr k) as (_ & _ & Hx). destruct (Hx _ Hs') as (s & Hs & [->|[t ->]]);
    by rewrite <- (Hk _ _ Hs).
Qed.

Lemma evict_ok st victims now st' err :
  evict st victims now = (st', err) -> ∃ gone, revoked_only st st' gone ∧ (err = None -> list_to_set (map se_id victims) ⊆ gone)
    ∧ (∀ k, k ∈ gone -> k ∈ map se_id victims).
Proof.
  revert st. induction victims as [|v vs IH]; intros st; simpl.
  { intros [= <- <-]. exists ∅. split_and!; [|set_solver|set_solver]. intros k. split_and!; [set_solver|done|eauto]. }
  unfold RevokeSession. destruct (st !! se_id v) as [s|] eqn:Ev; simpl.
  2: { intros [= <- <-]. exists ∅. split_and!; [|done|set_solver]. intros k. split_and!; [set_solver|done|eauto]. }
  intros (gone & Hr & Hsub & Hin)%IH. exists ({[se_id v]} ∪ gone). split_and!; [|set_solver|set_solver].
  intros k. destruct (Hr k) as (H1 & H2 & H3). destruct (decide (k = se_id v)) as [->|Hne].
  - split_and!; [|set_solver|].
    + intros _ s'. destruct (decide (se_id v ∈ gone)); [by apply H1|]. rewrite H2 by done.
      rewrite lookup_insert_eq. by intros [= <-].
    + intros s' Hs'. destruct (H3 _ Hs') as (s0 & Hs0 & Hc). rewrite lookup_insert_eq in Hs0. injection Hs0 as <-.
      exists s. split; [done|]. right. destruct Hc as [->|[t ->]]; by eexists.
  - rewrite !lookup_insert_ne in * by done. split_and!; [set_solver|set_solver|]. exact H3.
Qed.

Lemma size_le_list (X : gset string) (l : list string) : (∀ k, k ∈ X -> k ∈ l) -> (size X <= length l)%nat.
Proof.
  intros Hs. change (size X) with (length (elements X)). apply submseteq_length, NoDup_submseteq; [apply NoDup_elements|].
  intros k Hk%elem_of_elements. auto.
Qed.

Lemma older_asym s s' : older s s' = true -> older s' s = false.
Proof. unfold older. go_time. rewrite Z.ltb_lt, Z.ltb_ge. lia. Qed.

Lemma older_not_trans s t u : older t s = false -> older u t = false -> older u s = false.
Proof. unfold older. go_time. rewrite !Z.ltb_ge. lia. Qed.

Lemma elem_of_counted st userID exclude tl s :
  s ∈ List.filter (counted exclude) (ListUserSessions st userID tl)
  ↔ (∃ k, st !! k = Some s) ∧ full_at userID tl s ∧ se_id s ≠ exclude.
Proof.
  rewrite list_elem_of_In, filter_In, <- list_elem_of_In. unfold ListUserSessions. rewrite elem_of_sort_by.
  rewrite list_elem_of_In, filter_In, <- list_elem_of_In, elem_of_rows, andb_true_iff, bool_decide_eq_true, session_live_spec.
  unfold counted, full_at. rewrite andb_true_iff, !negb_true_iff, !String.eqb_neq. tauto.
Qed.

Lemma elem_of_map_id s (l : list Session) : s ∈ l -> se_id s ∈ map se_id l.
Proof. intros Hs. apply list_elem_of_In, in_map, list_elem_of_In, Hs. Qed.

(** A full session of a table whose live rows are those of [st] is among the counted ones. *)
Lemma full_counted st st0 userID exclude tl t k :
  keyed st -> tl <= t -> (∀ k s, st0 !! k = Some s -> se_revoked s = None -> st !! k = Some s) ->
  k ∈ full_sessions st0 userID t ∖ {[exclude]} ->
  ∃ s, st0 !! k = Some s ∧ se_revoked s = None ∧ se_id s = k ∧ s ∈ List.filter (counted exclude) (ListUserSessions st userID tl).
Proof.
  intros Hk Ht Hsub [Hf Hne]%elem_of_difference. apply elem_of_full_sessions in Hf as (s & Hs & Hu & Hlv & Hr & He).
  pose proof (Hsub _ _ Hs Hr) as Hst. pose proof (Hk _ _ Hst) as Hid. exists s. split_and!; [done|done|done|].
  apply elem_of_counted. unfold full_at. split_and!; eauto; [lia|set_solver].
Qed.

Lemma revoked_only_live st st' gone k s :
  revoked_only st st' gone -> st' !! k = Some s -> se_revoked s = None -> k ∉ gone ∧ st !! k = Some s.
Proof.
  intros Hr Hs Hrev. destruct (Hr k) as (H1 & H2 & _). destruct (decide (k ∈ gone)) as [Hg|Hg]; [by destruct (H1 Hg _ Hs)|].
  split; [done|]. by rewrite <- H2.
Qed.

(** Evicting the first [n] of the counted sessions in any order leaves at most the rest. *)
Lemma evicted_room st st' gone userID exclude tl t (sorted : list Session) n :
  keyed st -> tl <= t -> revoked_only st st' gone -> list_to_set (map se_id (firstn n sorted)) ⊆ gone ->
  sorted ≡ₚ List.filter (counted exclude) (ListUserSessions st userID tl) ->
  (size (full_sessions st' userID t ∖ {[exclude]}) <= length sorted - n)%nat.
Proof.
  intros Hk Ht Hr Hall Hperm. rewrite <- length_skipn, <- (length_map se_id). apply size_le_list. intros k Hkin.
  destruct (full_counted st st' userID exclude tl t k Hk Ht (fun k s Hs Hrev => proj2 (revoked_only_live _ _ _ _ _ Hr Hs Hrev)) Hkin)
    as (s & Hs & Hrev & <- & Hin).
  rewrite <- Hperm, <- (firstn_skipn n sorted) in Hin. apply elem_of_app in Hin as [Hv|Hrest]; [|by apply elem_of_map_id].
  destruct (revoked_only_live _ _ _ _ _ Hr Hs Hrev) as [[] _]. apply Hall, elem_of_list_to_set. by apply elem_of_map_id.
Qed.

(** Once the cap is enforced, the user has room for one more full session; what was revoked to make it
    are the oldest ones. *)
Lemma EnforceCap_room cap st tl tr userID exclude st' :
  keyed st -> 0 < cap_max cap -> cap_lister cap = true ->
  EnforceCap cap st false tl tr userID exclude = (st', None) ->
  ∃ gone, revoked_only st st' gone
  ∧ (∀ t, tl <= t -> Z.of_nat (size (full_sessions st' userID t ∖ {[exclude]})) <= cap_max cap - 1)
  ∧ ∀ k, k ∈ gone -> ∃ v, st !! k = Some v ∧ se_user v = userID ∧ ∀ k' s, k' ≠ exclude -> k' ∉ gone -> st !! k' = Some s ->
      full_at userID tl s -> se_created v <= se_created s.
Proof.
  intros Hk Hmax Hl. unfold EnforceCap. rewrite Hl, (proj2 (Z.leb_gt _ _) Hmax). cbn [orb negb].
  set (full := List.filter (counted exclude) (ListUserSessions st userID tl)).
  destruct (Z.leb_spec (Z.of_nat (length full) - (cap_max cap - 1)) 0) as [Hover|Hover].
  { intros [= <-]. exists ∅. assert (Hr : revoked_only st st ∅) by (intros k; split_and!; [set_solver|done|eauto]).
    split_and!; [done|intros t Ht|set_solver].
    pose proof (evicted_room st st ∅ userID exclude tl t full 0 Hk Ht Hr ltac:(set_solver) ltac:(done)). lia. }
  destruct (_ || _); [done|]. set (over := Z.to_nat _). set (sorted := sort_by older full).
  assert (Hperm : sorted ≡ₚ full) by apply sort_by_perm.
  intros (gone & Hr & Hall & Hgone)%evict_ok. specialize (Hall eq_refl). exists gone. split_and!; [done| |].
  - intros t Ht. pose proof (evicted_room st st' gone userID exclude tl t sorted over Hk Ht Hr Hall Hperm) as Hsz.
    rewrite Hperm in Hsz. unfold over in Hsz. lia.
  - intros k (v & <- & Hv%list_elem_of_In)%Hgone%list_elem_of_In%in_map_iff.
    assert (Hvf : v ∈ full) by (rewrite <- Hperm, <- (firstn_skipn over sorted); set_solver).
    apply elem_of_counted in Hvf as ([k0 Hk0] & Hf & _). exists v. rewrite (Hk _ _ Hk0). split_and!; [done|apply Hf|].
    intros k' s Hne Hng Hs Hfs. assert (Hsin : s ∈ sorted).
    { rewrite Hperm. apply elem_of_counted. split_and!; [by exists k'|done|]. by rewrite (Hk _ _ Hs). }
    rewrite <- (firstn_skipn over sorted) in Hsin. apply elem_of_app in Hsin as [Hbad|Hrest].
    { destruct Hng. apply Hall, elem_of_list_to_set. rewrite <- (Hk _ _ Hs). by apply elem_of_map_id. }
    pose proof (sort_by_sorted older older_asym older_not_trans full) as Hsrt. fold sorted in Hsrt.
    rewrite <- (firstn_skipn over sorted) in Hsrt. pose proof (StronglySorted_app_1_elem_of _ _ _ _ _ Hsrt Hv Hrest) as Ho.
    unfold not_after, older in Ho. go_time. apply Z.ltb_ge in Ho. lia.
Qed.
