(* ===== verification/Totp.v ===== *)
(** * Second factors ([internal/totp], [crypto/recoverycode.go] and the TOTP tables of [storage/memory])

    Enrollment, verification of one-time codes and recovery codes, and the pending session that a second
    factor turns into a full one, over the sessions of [Session] and the limiter of [Throttle]. The
    library that checks a code ([pquerna/otp]), the sealing of secrets and SHA-256 are parameters. A
    request reads the clock several times: reading [n] is [clk n]. Requests are atomic. *)

From Stdlib Require Import ZArith Lia String Ascii Sorting.Sorted.
From stdpp Require Import base gmap strings list.
From S2P Require Import Prelude Throttle Session.

Set Default Goal Selector "!".
Open Scope string_scope.
Open Scope list_scope.
Open Scope Z_scope.

(** ** Data *)

Record TOTPSecret := mkSecret {
  ts_user : string; ts_enc : string; ts_confirmed : option Z; ts_created : Z; ts_updated : Z;
}.

Record RecoveryCode := mkCode {
  rc_id : string; rc_user : string; rc_hash : string; rc_used : option Z; rc_created : Z;
}.

Record enrollment := mkEnrollment { enr_user : string; enr_secret : string; enr_expires : Z }.

Definition enrollmentTTL : Z := 10 * Minute.
Definition pendingSessionMaxFailures : Z := 5.
Definition totpPeriod : Z := 30.

(** [ValidateCustom] of a code, a secret and a time, with a period of [totpPeriod] and no skew, [None]
    for an error; [Validate] of the same library, which allows a skew of one period; [Decrypt] with the
    configured key; [sha256_bytes] of a byte string. *)
Class TotpLib := {
  ValidateCustom : string -> string -> Z -> option bool;
  ValidateSkewed : string -> string -> Z -> bool;
  Decrypt : string -> option string;
  sha256_bytes : string -> string;
}.

(** ** Recovery codes ([recoverycode.go]) *)

Definition recoveryCodeSaltLen : nat := 16.
Definition sha256_size : nat := 32.

Definition HashRecoveryCode `{TotpLib} (salt code : string) : string := salt +:+ sha256_bytes (salt +:+ code).

Definition VerifyRecoveryCode `{TotpLib} (stored code : string) : bool :=
  if negb (String.length stored =? recoveryCodeSaltLen + sha256_size)%nat then false
  else
    let salt := String.substring 0 recoveryCodeSaltLen stored in
    let want := String.substring recoveryCodeSaltLen sha256_size stored in
    (sha256_bytes (salt +:+ code) =? want)%string.

(** ** State

    The tables of the store, then what the service keeps in memory, then the limiter's store. *)
Record TotpState (St : Type) := mkTotpState {
  tt_sessions : Sessions; tt_secrets : gmap string TOTPSecret; tt_codes : gmap string RecoveryCode;
  tt_steps : gmap string Z;
  tt_gate : touchGate; tt_enrollments : gmap string enrollment; tt_last_steps : gmap string Z;
  tt_failures : gmap string Z; tt_limiter : St;
}.
Arguments mkTotpState {St}.
Arguments tt_sessions {St}.
Arguments tt_secrets {St}.
Arguments tt_codes {St}.
Arguments tt_steps {St}.
Arguments tt_gate {St}.
Arguments tt_enrollments {St}.
Arguments tt_last_steps {St}.
Arguments tt_failures {St}.
Arguments tt_limiter {St}.

(** The service: [None] for [tc_recovery_count] is a service without configuration. [tc_cap] says that the
    session service's cap is installed, [tc_replay] that steps are kept in the store, [tc_appender] that the
    store records sign-in methods, [tc_recovery] that it manages recovery codes. *)
Record TotpService := mkTotpService {
  tc_recovery_count : option Z; tc_sessions : SessionService; tc_limiter : option Config;
  tc_replay : bool; tc_cap : bool; tc_appender : bool; tc_recovery : bool;
}.

Inductive totp_error :=
  | TSession (e : session_error) | TNotPending | TAccountLocked (retry : Z) | TNoCredential | TDecrypt
  | TInvalidCode | TInvalidRecoveryCode | TUpdateLevel | TNotConfigured | TAccountName | TGenerate | TEncrypt
  | TEnrollmentUnknown | TEnrollmentUser | TEnrollmentExpired | TAlreadyEnrolled | TConfirm
  | TRecoveryUnsupported | TNotEnrolled | TNewToken.

Section Totp.
Context `{SessionLib} `{TotpLib} {St : Type} `{ThrottleStore St} {User : Type} (users : string -> option User).

Abbreviation state := (TotpState St).

Definition with_sessions (t : state) (ss : Sessions) : state :=
  mkTotpState ss (tt_secrets t) (tt_codes t) (tt_steps t) (tt_gate t) (tt_enrollments t) (tt_last_steps t) (tt_failures t) (tt_limiter t).
Definition with_secrets (t : state) (m : gmap string TOTPSecret) : state :=
  mkTotpState (tt_sessions t) m (tt_codes t) (tt_steps t) (tt_gate t) (tt_enrollments t) (tt_last_steps t) (tt_failures t) (tt_limiter t).
Definition with_codes (t : state) (m : gmap string RecoveryCode) : state :=
  mkTotpState (tt_sessions t) (tt_secrets t) m (tt_steps t) (tt_gate t) (tt_enrollments t) (tt_last_steps t) (tt_failures t) (tt_limiter t).
Definition with_steps (t : state) (m : gmap string Z) : state :=
  mkTotpState (tt_sessions t) (tt_secrets t) (tt_codes t) m (tt_gate t) (tt_enrollments t) (tt_last_steps t) (tt_failures t) (tt_limiter t).
Definition with_gate (t : state) (ss : Sessions) (g : touchGate) : state :=
  mkTotpState ss (tt_secrets t) (tt_codes t) (tt_steps t) g (tt_enrollments t) (tt_last_steps t) (tt_failures t) (tt_limiter t).
Definition with_enrollments (t : state) (m : gmap string enrollment) : state :=
  mkTotpState (tt_sessions t) (tt_secrets t) (tt_codes t) (tt_steps t) (tt_gate t) m (tt_last_steps t) (tt_failures t) (tt_limiter t).
Definition with_last_steps (t : state) (m : gmap string Z) : state :=
  mkTotpState (tt_sessions t) (tt_secrets t) (tt_codes t) (tt_steps t) (tt_gate t) (tt_enrollments t) m (tt_failures t) (tt_limiter t).
Definition with_failures (t : state) (m : gmap string Z) : state :=
  mkTotpState (tt_sessions t) (tt_secrets t) (tt_codes t) (tt_steps t) (tt_gate t) (tt_enrollments t) (tt_last_steps t) m (tt_limiter t).
Definition with_limiter (t : state) (l : St) : state :=
  mkTotpState (tt_sessions t) (tt_secrets t) (tt_codes t) (tt_steps t) (tt_gate t) (tt_enrollments t) (tt_last_steps t) (tt_failures t) l.

(** ** The tables ([memory.go], [memory_hardening.go]) *)

Definition UpsertPendingTOTPSecret (t : state) (now : Z) (sec : TOTPSecret) : state :=
  match tt_secrets t !! ts_user sec with
  | Some (mkSecret _ _ (Some _) _ _) => t
  | _ =>
      let created := if IsZero (ts_created sec) then now else ts_created sec in
      with_secrets t (<[ts_user sec := mkSecret (ts_user sec) (ts_enc sec) None created created]> (tt_secrets t))
  end.

(** [None] is [ErrNotFound]. *)
Definition ConfirmTOTPSecret (t : state) (userID : string) (at_ : Z) : option state :=
  match tt_secrets t !! userID with
  | Some (mkSecret u enc None created _) =>
      Some (with_secrets t (<[userID := mkSecret u enc (Some at_) created at_]> (tt_secrets t)))
  | _ => None
  end.

Definition TOTPSecretByUserID (t : state) (userID : string) : option TOTPSecret := tt_secrets t !! userID.

Definition DeleteTOTPSecret (t : state) (userID : string) : state :=
  with_codes (with_secrets t (delete userID (tt_secrets t))) (filter (fun ic => rc_user ic.2 ≠ userID) (tt_codes t)).

(** Account merging: the secondary's secret moves, unless the primary has any. *)
Definition MoveTOTPSecret (t : state) (primaryID secondaryID : string) : state :=
  match tt_secrets t !! secondaryID with
  | None => t
  | Some sec =>
      let m := match tt_secrets t !! primaryID with
               | None => <[primaryID := mkSecret primaryID (ts_enc sec) (ts_confirmed sec) (ts_created sec) (ts_updated sec)]> (tt_secrets t)
               | Some _ => tt_secrets t
               end in
      with_secrets t (delete secondaryID m)
  end.

Definition insert_codes (m : gmap string RecoveryCode) (codes : list RecoveryCode) : gmap string RecoveryCode :=
  fold_left (fun m c => <[rc_id c := c]> m) codes m.

Definition InsertRecoveryCodes (t : state) (codes : list RecoveryCode) : state := with_codes t (insert_codes (tt_codes t) codes).

Definition CountUnusedRecoveryCodes (t : state) (userID : string) : Z :=
  Z.of_nat (size (filter (fun ic => rc_user ic.2 = userID ∧ rc_used ic.2 = None) (tt_codes t))).

Definition ReplaceRecoveryCodes (t : state) (userID : string) (codes : list RecoveryCode) : state :=
  with_codes t (insert_codes (filter (fun ic => rc_user ic.2 ≠ userID) (tt_codes t)) codes).

(** A code of the user that is unused and verifies, in the order of the map. *)
Definition matching_code (t : state) (userID code : string) : option (string * RecoveryCode) :=
  List.find (fun ic => bool_decide (rc_user ic.2 = userID) && bool_decide (rc_used ic.2 = None)
                       && VerifyRecoveryCode (rc_hash ic.2) code) (map_to_list (tt_codes t)).

Definition StoreConsumeRecoveryCode (t : state) (userID code : string) (at_ : Z) : option state :=
  (fun ic => with_codes t (<[ic.1 := mkCode (rc_id ic.2) (rc_user ic.2) (rc_hash ic.2) (Some at_) (rc_created ic.2)]> (tt_codes t)))
    <$> matching_code t userID code.

Definition AdvanceTOTPStep (t : state) (userID : string) (step : Z) : state * bool :=
  match tt_steps t !! userID with
  | Some last => if step <=? last then (t, false) else (with_steps t (<[userID := step]> (tt_steps t)), true)
  | None => (with_steps t (<[userID := step]> (tt_steps t)), true)
  end.

(** ** Codes and failures ([service.go]) *)

Fixpoint match_offsets (code secret : string) (now : Z) (offs : list Z) : option Z :=
  match offs with
  | [] => None
  | off :: offs' =>
      let t := now + off * totpPeriod * Second in
      match ValidateCustom code secret t with
      | Some true => Some (Z.quot (Unix t) totpPeriod)
      | _ => match_offsets code secret now offs'
      end
  end.

Definition matchStep (code secret : string) (now : Z) : option Z := match_offsets code secret now [0; -1; 1].

(** The process-local fallback: without a race the loop over [CompareAndSwap] runs once. *)
Definition local_advance (t : state) (userID : string) (step : Z) : state * bool :=
  match tt_last_steps t !! userID with
  | None => (with_last_steps t (<[userID := step]> (tt_last_steps t)), true)
  | Some last => if step <=? last then (t, false) else (with_last_steps t (<[userID := step]> (tt_last_steps t)), true)
  end.

Definition advanceStep (tc : TotpService) (t : state) (userID : string) (step : Z) : state * bool :=
  if tc_replay tc then AdvanceTOTPStep t userID step else local_advance t userID step.

Definition checkMFA (tc : TotpService) (t : state) (now : Z) (userID : string) : option totp_error :=
  match tc_limiter tc with
  | None => None
  | Some _ => match CheckMFA (tt_limiter t) now userID with
              | NotBlocked => None
              | Blocked retry _ => Some (TAccountLocked retry)
              end
  end.

(** A failure to record only logs. *)
Definition mfaFailed (tc : TotpService) (t : state) (now : Z) (userID : string) : state :=
  match tc_limiter tc with
  | None => t
  | Some cfg => match RecordMFAFailure cfg (tt_limiter t) now userID with
                | Some l => with_limiter t l
                | None => t
                end
  end.

Definition mfaSucceeded (tc : TotpService) (t : state) (userID : string) : state :=
  match tc_limiter tc with None => t | Some _ => with_limiter t (RecordMFASuccess (tt_limiter t) userID) end.

Definition recordPendingFailure (t : state) (tr : Z) (sessID : string) : state :=
  let count := default 0 (tt_failures t !! sessID) + 1 in
  if pendingSessionMaxFailures <=? count
  then with_failures (with_sessions t (default (tt_sessions t) (RevokeSession (tt_sessions t) sessID tr)))
         (delete sessID (tt_failures t))
  else with_failures t (<[sessID := count]> (tt_failures t)).

Definition clearPendingFailure (t : state) (sessID : string) : state := with_failures t (delete sessID (tt_failures t)).

Definition decryptSecret (t : state) (userID : string) : result totp_error string :=
  match TOTPSecretByUserID t userID with
  | Some (mkSecret _ enc (Some _) _ _) => match Decrypt enc with Some s => Ok s | None => Err TDecrypt end
  | _ => Err TNoCredential
  end.

(** ** Enrollment *)

(** What a call draws: the new secret, its sealed form and the enrollment id. *)
Record EnrollDraw := mkEnrollDraw { ed_secret : option string; ed_enc : option string; ed_id : option string }.

Definition BeginEnrollment (tc : TotpService) (t : state) (clk : nat -> Z) (userID accountName : string) (d : EnrollDraw)
  : state * result totp_error (string * string) :=
  match tc_recovery_count tc with
  | None => (t, Err TNotConfigured)
  | Some _ =>
      if (accountName =? "")%string then (t, Err TAccountName)
      else match ed_secret d with
      | None => (t, Err TGenerate)
      | Some secret =>
          match ed_enc d with
          | None => (t, Err TEncrypt)
          | Some enc =>
              let now := clk 0%nat in
              let t := UpsertPendingTOTPSecret t (clk 1%nat) (mkSecret userID enc None now now) in
              match ed_id d with
              | None => (t, Err TNewToken)
              | Some id =>
                  (with_enrollments t (<[id := mkEnrollment userID secret (now + enrollmentTTL)]> (tt_enrollments t)),
                   Ok (secret, id))
              end
          end
      end
  end.

(** The drawn codes as rows: id, plain code and hash; [None] when the generator fails. *)
Definition code_rows (userID : string) (now : Z) (draws : list (string * string * string)) : list RecoveryCode :=
  map (fun '(id, _, hash) => mkCode id userID hash None now) draws.

Definition FinishEnrollment (tc : TotpService) (t : state) (clk : nat -> Z) (userID enrollmentID code : string)
    (draws : option (list (string * string * string))) : state * result totp_error (list string) :=
  match tc_recovery_count tc with
  | None => (t, Err TNotConfigured)
  | Some count =>
      match tt_enrollments t !! enrollmentID with
      | None => (t, Err TEnrollmentUnknown)
      | Some enroll =>
          let t := with_enrollments t (delete enrollmentID (tt_enrollments t)) in
          if negb (enr_user enroll =? userID)%string then (t, Err TEnrollmentUser)
          else if After (clk 0%nat) (enr_expires enroll) then (t, Err TEnrollmentExpired)
          else if negb (ValidateSkewed code (enr_secret enroll) (clk 1%nat)) then
            (with_enrollments t (<[enrollmentID := mkEnrollment (enr_user enroll) (enr_secret enroll) (clk 2%nat + enrollmentTTL)]>
               (tt_enrollments t)), Err TInvalidCode)
          else match TOTPSecretByUserID t userID with
          | Some (mkSecret _ _ (Some _) _ _) => (t, Err TAlreadyEnrolled)
          | _ =>
              let now := clk 3%nat in
              match ConfirmTOTPSecret t userID now with
              | None => (t, Err TConfirm)
              | Some t =>
                  match draws with
                  | None => (t, Err TGenerate)
                  | Some draws =>
                      let draws := firstn (Z.to_nat count) draws in
                      (InsertRecoveryCodes t (code_rows userID now draws), Ok (map (fun '(_, plain, _) => plain) draws))
                  end
              end
          end
      end
  end.

(** [gcLoop] at one tick. *)
Definition gc_enrollments (t : state) (now : Z) : state :=
  with_enrollments t (filter (fun ie => Before (enr_expires ie.2) now = false) (tt_enrollments t)).

Definition RegenerateRecoveryCodes (tc : TotpService) (t : state) (clk : nat -> Z) (userID : string)
    (draws : option (list (string * string * string))) : state * result totp_error (list string) :=
  match tc_recovery_count tc with
  | None => (t, Err TNotConfigured)
  | Some count =>
      if negb (tc_recovery tc) then (t, Err TRecoveryUnsupported)
      else match TOTPSecretByUserID t userID with
      | Some (mkSecret _ _ (Some _) _ _) =>
          let count := if count <=? 0 then 10 else count in
          match draws with
          | None => (t, Err TGenerate)
          | Some draws =>
              let draws := firstn (Z.to_nat count) draws in
              (ReplaceRecoveryCodes t userID (code_rows userID (clk 0%nat) draws), Ok (map (fun '(_, plain, _) => plain) draws))
          end
      | _ => (t, Err TNotEnrolled)
      end
  end.

(** Whether the user is enrolled and the unused recovery codes, -1 when they cannot be counted. *)
Definition Status (tc : TotpService) (t : state) (userID : string) : result totp_error (bool * Z) :=
  match tc_recovery_count tc with
  | None => Err TNotConfigured
  | Some _ =>
      match TOTPSecretByUserID t userID with
      | Some (mkSecret _ _ (Some _) _ _) => Ok (true, if tc_recovery tc then CountUnusedRecoveryCodes t userID else -1)
      | _ => Ok (false, 0)
      end
  end.

(** ** Pending sessions *)

Definition IssuePending2FA (t : state) (e : IssueEnv) (userID ua ip : string) : state * result totp_error (string * Session) :=
  match ie_token e with
  | None => (t, Err TNewToken)
  | Some token =>
      let now := ie_now e in
      let sess := record_methods (mkSession (ie_id e) userID (hash_token token) ua ip now (now + 10 * Minute) None
        AuthLevelPending2FA None 0 None "" [] 0) (ie_methods e) (ie_at e) now in
      let '(ss, sess) := CreateSessionWithAuthLevel (tt_sessions t) sess in
      (with_sessions t ss, Ok (token, sess))
  end.

Definition capRoom (tc : TotpService) (t : state) (noLimit : bool) (tl tr : Z) (s : Session) : state * option session_error :=
  if tc_cap tc
  then let '(ss, err) := CapRoom (sv_cap (tc_sessions tc)) (tt_sessions t) noLimit tl tr (se_user s) (se_id s) in (with_sessions t ss, err)
  else (t, None).

Definition enforceCap (tc : TotpService) (t : state) (noLimit : bool) (tl tr : Z) (s : Session) : state * option session_error :=
  if tc_cap tc
  then let '(ss, err) := EnforceCap (sv_cap (tc_sessions tc)) (tt_sessions t) noLimit tl tr (se_user s) (se_id s) in (with_sessions t ss, err)
  else (t, None).

(** Best effort: a failed record leaves the session as it was. *)
Definition recordSecondFactor (tc : TotpService) (t : state) (now : Z) (s : Session) : state * Session :=
  if tc_appender tc then
    match AppendSessionAuthMethods (tt_sessions t) (se_id s) ["otp"; "mfa"] now with
    | None => (t, s)
    | Some (ss, (methods, at_)) => (with_sessions t ss, with_methods s methods at_)
    end
  else (t, s).

(** What both kinds of second factor start with: the pending session of the token, the limiter and room
    under the cap. *)
Definition pending_session (tc : TotpService) (t : state) (noLimit : bool) (clk : nat -> Z) (token : string)
  : state * result totp_error Session :=
  let '(ss, g, r) := Validate users (tc_sessions tc) (tt_sessions t) (tt_gate t) (clk 0%nat) (clk 1%nat) token in
  let t := with_gate t ss g in
  match r with
  | Err err => (t, Err (TSession err))
  | Ok (sess, _) =>
      if negb (se_level sess =? AuthLevelPending2FA)%string then (t, Err TNotPending)
      else match checkMFA tc t (clk 2%nat) (se_user sess) with
      | Some err => (t, Err err)
      | None =>
          match capRoom tc t noLimit (clk 3%nat) (clk 4%nat) sess with
          | (t, Some err) => (t, Err (TSession err))
          | (t, None) => (t, Ok sess)
          end
      end
  end.

(** ... end with on success ... *)
Definition promote (tc : TotpService) (t : state) (noLimit : bool) (clk : nat -> Z) (token : string) (sess : Session)
  : state * result totp_error (string * Session) :=
  let t := clearPendingFailure (mfaSucceeded tc t (se_user sess)) (se_id sess) in
  match enforceCap tc t noLimit (clk 8%nat) (clk 9%nat) sess with
  | (t, Some err) => (t, Err (TSession err))
  | (t, None) =>
      match UpdateSessionAuthLevel (tt_sessions t) (se_id sess) AuthLevelFull with
      | None => (t, Err TUpdateLevel)
      | Some ss =>
          let '(t, updated) := recordSecondFactor tc (with_sessions t ss) (clk 10%nat) sess in
          (t, Ok (token, with_level updated AuthLevelFull))
      end
  end.

(** ... and on a wrong code. *)
Definition strike (tc : TotpService) (t : state) (clk : nat -> Z) (sessID userID : string) : state :=
  recordPendingFailure (mfaFailed tc t (clk 6%nat) userID) (clk 7%nat) sessID.

(** The code against the user's secret, spending its step. *)
Definition check_code (tc : TotpService) (t : state) (now : Z) (userID code : string) : state * result totp_error bool :=
  match decryptSecret t userID with
  | Err err => (t, Err err)
  | Ok secret =>
      match matchStep code secret now with
      | None => (t, Ok false)
      | Some step => let '(t, fresh) := advanceStep tc t userID step in (t, Ok fresh)
      end
  end.

Definition Verify (tc : TotpService) (t : state) (noLimit : bool) (clk : nat -> Z) (token code : string)
  : state * result totp_error (string * Session) :=
  match pending_session tc t noLimit clk token with
  | (t, Err err) => (t, Err err)
  | (t, Ok sess) =>
      match check_code tc t (clk 5%nat) (se_user sess) code with
      | (t, Err err) => (t, Err err)
      | (t, Ok false) => (strike tc t clk (se_id sess) (se_user sess), Err TInvalidCode)
      | (t, Ok true) => promote tc t noLimit clk token sess
      end
  end.

Definition ConsumeRecoveryCode (tc : TotpService) (t : state) (noLimit : bool) (clk : nat -> Z) (token code : string)
  : state * result totp_error (string * Session) :=
  match pending_session tc t noLimit clk token with
  | (t, Err err) => (t, Err err)
  | (t, Ok sess) =>
      match StoreConsumeRecoveryCode t (se_user sess) code (clk 5%nat) with
      | None => (strike tc t clk (se_id sess) (se_user sess), Err TInvalidRecoveryCode)
      | Some t => promote tc t noLimit clk token sess
      end
  end.

(** [stepup.go] *)
Definition CheckCode (tc : TotpService) (t : state) (clk : nat -> Z) (sessID userID code : string) : state * option totp_error :=
  match checkMFA tc t (clk 2%nat) userID with
  | Some err => (t, Some err)
  | None =>
      match check_code tc t (clk 5%nat) userID code with
      | (t, Err err) => (t, Some err)
      | (t, Ok false) => (strike tc t clk sessID userID, Some TInvalidCode)
      | (t, Ok true) => (clearPendingFailure (mfaSucceeded tc t userID) sessID, None)
      end
  end.

Definition Delete (t : state) (userID : string) : state := DeleteTOTPSecret t userID.
End Totp.

(** ** Requests *)

(** A second factor presented: how, on which session and user, whether it was accepted, and the step a
    one-time code spent. *)
Inductive factor := ByTotp | ByRecoveryCode | ByStepUp.

Record attempt := mkAttempt { at_kind : factor; at_session : string; at_user : string; at_ok : bool; at_step : option Z }.

(** The step that an attempt spends on behalf of a user. *)
Definition spends (u : string) (a : attempt) : option Z :=
  if bool_decide (at_user a = u) && at_ok a then at_step a else None.

Inductive request :=
  | RVerify (noLimit : bool) (token code : string)
  | RRecover (noLimit : bool) (token code : string)
  | RCheckCode (sessID userID code : string)
  | RIssue (e : IssueEnv) (userID : string) (o : IssueOptions)
  | RPending (e : IssueEnv) (userID ua ip : string)
  | RValidate (token : string) (touch : bool)
  | RBegin (userID accountName : string) (d : EnrollDraw)
  | RFinish (userID enrollmentID code : string) (draws : option (list (string * string * string)))
  | RRegenerate (userID : string) (draws : option (list (string * string * string)))
  | RDelete (userID : string)
  | RMove (primaryID secondaryID : string)
  | RGC
  | RRevoke (id : string) | RRevokeUser (userID : string) | RRevokeOthers (userID keep : string)
  | RRevokeCredential (credentialID : string) | RElevate (id : string) (until : option Z).

Section Runs.
Context `{SessionLib} `{TotpLib} {St : Type} `{ThrottleStore St} {User : Type} (users : string -> option User) (tc : TotpService).

Abbreviation state := (TotpState St).

Definition on_sessions (t : state) (f : Sessions -> Sessions) : state := with_sessions t (f (tt_sessions t)).

Definition exec (t : state) (clk : nat -> Z) (r : request) : state :=
  match r with
  | RVerify nl token code => (Verify users tc t nl clk token code).1
  | RRecover nl token code => (ConsumeRecoveryCode users tc t nl clk token code).1
  | RCheckCode sid uid code => (CheckCode tc t clk sid uid code).1
  | RIssue e uid o => with_sessions t (IssueWith (tc_sessions tc) (tt_sessions t) e uid o).1
  | RPending e uid ua ip => (IssuePending2FA t e uid ua ip).1
  | RValidate token touch =>
      let '(ss, g, _) := validate users (tc_sessions tc) (tt_sessions t) (tt_gate t) (clk 0%nat) (clk 1%nat) token touch in with_gate t ss g
  | RBegin uid name d => (BeginEnrollment tc t clk uid name d).1
  | RFinish uid id code draws => (FinishEnrollment tc t clk uid id code draws).1
  | RRegenerate uid draws => (RegenerateRecoveryCodes tc t clk uid draws).1
  | RDelete uid => Delete t uid
  | RMove p s => MoveTOTPSecret t p s
  | RGC => gc_enrollments t (clk 0%nat)
  | RRevoke id => on_sessions t (fun ss => default ss (RevokeSession ss id (clk 0%nat)))
  | RRevokeUser uid => on_sessions t (fun ss => RevokeUserSessions ss uid (clk 0%nat))
  | RRevokeOthers uid keep => on_sessions t (fun ss => RevokeOtherUserSessions ss uid keep (clk 0%nat))
  | RRevokeCredential c => on_sessions t (fun ss => RevokeSessionsByCredential ss c (clk 0%nat))
  | RElevate id until => on_sessions t (fun ss => default ss (SetSessionElevatedUntil ss id until))
  end.

(** The step a code would spend, and the attempt that a request makes, if it gets as far as a code. *)
Definition step_of (t : state) (now : Z) (userID code : string) : option Z :=
  match decryptSecret t userID with Ok secret => matchStep code secret now | Err _ => None end.

Definition code_attempt (k : factor) (t : state) (now : Z) (sessID userID code : string) : option attempt :=
  match (check_code tc t now userID code).2 with
  | Err _ => None
  | Ok b => Some (mkAttempt k sessID userID b (step_of t now userID code))
  end.

Definition attempt_of (t : state) (clk : nat -> Z) (r : request) : option attempt :=
  match r with
  | RVerify nl token code =>
      match pending_session users tc t nl clk token with
      | (t1, Ok sess) => code_attempt ByTotp t1 (clk 5%nat) (se_id sess) (se_user sess) code
      | _ => None
      end
  | RRecover nl token code =>
      match pending_session users tc t nl clk token with
      | (t1, Ok sess) => Some (mkAttempt ByRecoveryCode (se_id sess) (se_user sess)
                                 (bool_decide (is_Some (matching_code t1 (se_user sess) code))) None)
      | _ => None
      end
  | RCheckCode sid uid code =>
      match checkMFA tc t (clk 2%nat) uid with
      | None => code_attempt ByStepUp t (clk 5%nat) sid uid code
      | Some _ => None
      end
  | _ => None
  end.

(** Requests in a row, with the attempts they make. *)
Fixpoint run (t : state) (l : list ((nat -> Z) * request)) : state * list attempt :=
  match l with
  | [] => (t, [])
  | (clk, r) :: l' =>
      let '(t', tr) := run (exec t clk r) l' in
      (t', match attempt_of t clk r with Some a => a :: tr | None => tr end)
  end.

(** New sessions have fresh ids. *)
Definition fresh_request (t : state) (r : request) : Prop :=
  match r with
  | RIssue e _ _ | RPending e _ _ _ => ie_id e ≠ "" ∧ tt_sessions t !! ie_id e = None
  | _ => True
  end.

Fixpoint fresh_run (t : state) (l : list ((nat -> Z) * request)) : Prop :=
  match l with [] => True | (clk, r) :: l' => fresh_request t r ∧ fresh_run (exec t clk r) l' end.

(** The last step of the user that was spent. *)
Definition used_step (t : state) (userID : string) : option Z :=
  if tc_replay tc then tt_steps t !! userID else tt_last_steps t !! userID.

(** The steps that one-time codes of a user spent, in order. *)
Definition accepted_steps (userID : string) (tr : list attempt) : list Z := omap (spends userID) tr.
End Runs.

(** ** Tables of sessions over time *)

(** A row changes, but not who it is for, when it ends or what it may do; and a revocation stays. *)
Definition row_evolves (s s' : Session) : Prop :=
  se_id s' = se_id s ∧ se_user s' = se_user s ∧ se_hash s' = se_hash s ∧ se_created s' = se_created s
  ∧ se_expires s' = se_expires s ∧ se_level s' = se_level s ∧ (se_revoked s' = None -> se_revoked s = None).

#[export] Instance row_evolves_preorder : PreOrder row_evolves.
Proof.
  split; [by intros s; unfold row_evolves|]. intros s s' s'' (? & ? & ? & ? & ? & ? & Hra) (? & ? & ? & ? & ? & ? & Hrb).
  unfold row_evolves. split_and!; try congruence. auto.
Qed.

Definition updated (ss ss' : Sessions) : Prop := ∀ k, option_Forall2 row_evolves (ss !! k) (ss' !! k).

#[export] Instance updated_preorder : PreOrder updated.
Proof.
  split; [by intros ss k|]. intros ss ss' ss'' H1 H2 k. by transitivity (ss' !! k).
Qed.

Lemma updated_fwd ss ss' k s : updated ss ss' -> ss !! k = Some s -> ∃ s', ss' !! k = Some s' ∧ row_evolves s s'.
Proof. intros Hu Hs. pose proof (Hu k) as Hk. rewrite Hs in Hk. inversion Hk; eauto. Qed.

Lemma updated_bwd ss ss' k s' : updated ss ss' -> ss' !! k = Some s' -> ∃ s, ss !! k = Some s ∧ row_evolves s s'.
Proof. intros Hu Hs. pose proof (Hu k) as Hk. rewrite Hs in Hk. inversion Hk; eauto. Qed.

Lemma updated_insert ss k s s' : ss !! k = Some s -> row_evolves s s' -> updated ss (<[k := s']> ss).
Proof.
  intros Hs He k'. destruct (decide (k = k')) as [<-|Hne].
  - rewrite lookup_insert_eq, Hs. by constructor.
  - by rewrite lookup_insert_ne.
Qed.

Lemma updated_fmap (f : Session -> Session) ss : (∀ s, row_evolves s (f s)) -> updated ss (f <$> ss).
Proof. intros Hf k. rewrite lookup_fmap. destruct (ss !! k); constructor; auto. Qed.

Lemma row_revoked s t : row_evolves s (with_revoked s t).
Proof. by unfold row_evolves. Qed.

Lemma updated_keyed ss ss' : updated ss ss' -> keyed ss -> keyed ss'.
Proof.
  intros Hu Hk k s' Hs'. destruct (updated_bwd _ _ _ _ Hu Hs') as (s & Hs & Hid & _). by rewrite Hid, (Hk _ _ Hs).
Qed.

Lemma updated_full ss ss' u t : updated ss ss' -> full_sessions ss' u t ⊆ full_sessions ss u t.
Proof.
  intros Hu k. rewrite !elem_of_full_sessions. intros (s' & Hs' & H1 & H2 & H3 & H4).
  destruct (updated_bwd _ _ _ _ Hu Hs') as (s & Hs & _ & Hus & _ & _ & Hex & Hlv & Hr). exists s. split; [done|].
  unfold full_at. rewrite <- Hus, <- Hlv, <- Hex. split_and!; auto.
Qed.

Lemma updated_revoke ss id t : updated ss (default ss (RevokeSession ss id t)).
Proof.
  unfold RevokeSession. destruct (ss !! id) as [s|] eqn:E; simpl; [|reflexivity].
  eapply updated_insert; [exact E|apply row_revoked].
Qed.

Lemma updated_revoke_some ss id t ss' : RevokeSession ss id t = Some ss' -> updated ss ss'.
Proof. intros E. pose proof (updated_revoke ss id t) as Hu. by rewrite E in Hu. Qed.

Lemma updated_touch ss id t ss' : TouchSession ss id t = Some ss' -> updated ss ss'.
Proof.
  unfold TouchSession. destruct (ss !! id) as [s|] eqn:E; simpl; [|done]. intros [= <-].
  destruct (After t (se_last_seen s)); [|reflexivity]. by eapply updated_insert.
Qed.

Lemma updated_evict ss victims t : updated ss (evict ss victims t).1.
Proof.
  revert ss. induction victims as [|v vs IH]; intros ss; simpl; [reflexivity|].
  destruct (RevokeSession ss (se_id v) t) as [ss'|] eqn:E; [|reflexivity]. transitivity ss'; [|apply IH].
  by eapply updated_revoke_some.
Qed.

Lemma updated_EnforceCap cap ss nl tl tr u x : updated ss (EnforceCap cap ss nl tl tr u x).1.
Proof.
  unfold EnforceCap. destruct (_ || _); [reflexivity|]. destruct nl; [reflexivity|]. cbv zeta.
  destruct (_ <=? 0); [reflexivity|]. destruct (_ || _); [reflexivity|]. apply updated_evict.
Qed.

Lemma updated_CapRoom cap ss nl tl tr u x : updated ss (CapRoom cap ss nl tl tr u x).1.
Proof. unfold CapRoom. destruct (negb _); [reflexivity|]. apply updated_EnforceCap. Qed.

Lemma updated_append `{SessionLib} ss id methods t ss' r : AppendSessionAuthMethods ss id methods t = Some (ss', r) -> updated ss ss'.
Proof.
  unfold AppendSessionAuthMethods. destruct (ss !! id) as [s|] eqn:E; simpl; [|done]. intros [= <- _]. by eapply updated_insert.
Qed.

Lemma updated_elevate ss id until : updated ss (default ss (SetSessionElevatedUntil ss id until)).
Proof.
  unfold SetSessionElevatedUntil. destruct (ss !! id) as [s|] eqn:E; simpl; [|reflexivity]. by eapply updated_insert.
Qed.

Lemma updated_revoke_all ss u keep c t :
  updated ss (RevokeUserSessions ss u t) ∧ updated ss (RevokeOtherUserSessions ss u keep t)
  ∧ updated ss (RevokeSessionsByCredential ss c t).
Proof.
  split_and!.
  - apply updated_fmap. intros s. by destruct (_ && _).
  - intros k. unfold RevokeOtherUserSessions. rewrite map_lookup_imap. destruct (ss !! k) as [s|]; constructor. by destruct (_ && _).
  - apply updated_fmap. intros s. by destruct (_ && _).
Qed.

Lemma updated_touch_session p ss g now s : updated ss (touch_session p ss g now s).1.1.
Proof.
  unfold touch_session. destruct (_ && _); [|reflexivity]. destruct (gate_allow _ _ _ _) as [g' []]; [|reflexivity].
  destruct (TouchSession ss (se_id s) now) as [ss'|] eqn:E; [|reflexivity]. by eapply updated_touch.
Qed.

Lemma updated_checkCredential p ss tr s : updated ss (checkCredential p ss tr s).1.
Proof.
  unfold checkCredential. destruct (sp_credentials p) as [check|]; [|reflexivity].
  destruct (check _); try reflexivity. simpl. destruct (sp_revoker p); [apply updated_revoke|reflexivity].
Qed.

Lemma updated_validate `{SessionLib} {User} (users : string -> option User) sv ss g now tr token touch :
  updated ss (validate users sv ss g now tr token touch).1.1.
Proof.
  unfold validate. destruct (token =? "")%string; [reflexivity|].
  destruct (SessionByTokenHash ss (hash_token token)) as [s|]; [|reflexivity].
  destruct (Expired s now); [reflexivity|]. destruct (_ && _); [reflexivity|].
  pose proof (updated_checkCredential (sv_policy sv) ss tr s) as Hc.
  destruct (checkCredential (sv_policy sv) ss tr s) as [ss1 err].
  assert (Hu : ∃ ss2 e2, (if (se_credential s =? "")%string then (ss, None) else (ss1, err)) = (ss2, e2) ∧ updated ss ss2).
  { destruct (se_credential s =? "")%string; eexists _, _; (split; [reflexivity|]); [reflexivity|exact Hc]. }
  destruct Hu as (ss2 & e2 & -> & Hu). destruct e2; [done|]. destruct (users (se_user s)); [|done]. destruct touch; [|done].
  pose proof (updated_touch_session (sv_policy sv) ss2 g now s) as Ht.
  destruct (touch_session (sv_policy sv) ss2 g now s) as [[ss3 g3] s3]. simpl in *. by transitivity ss2.
Qed.

(** ** What each part of a request changes *)

Section Parts.
Context `{SessionLib} `{TotpLib} {St : Type} `{ThrottleStore St} {User : Type} (users : string -> option User) (tc : TotpService).

Abbreviation state := (TotpState St).

(** Everything but the sessions, the enrollments and the limiter. *)
Definition tables (t : state) := (tt_secrets t, tt_codes t, tt_steps t, tt_last_steps t, tt_failures t).

Lemma tables_used_step (t t' : state) u : tables t' = tables t -> used_step tc t' u = used_step tc t u.
Proof. unfold tables, used_step. intros [= _ _ -> -> _]. done. Qed.

Lemma capRoom_spec (t : state) nl tl tr s :
  tables (capRoom tc t nl tl tr s).1 = tables t ∧ updated (tt_sessions t) (tt_sessions (capRoom tc t nl tl tr s).1).
Proof.
  unfold capRoom. destruct (tc_cap tc); [|by split]. pose proof (updated_CapRoom (sv_cap (tc_sessions tc)) (tt_sessions t) nl tl tr (se_user s) (se_id s)) as Hu.
  destruct (CapRoom _ _ _ _ _ _ _) as [ss err]. by split.
Qed.

Lemma pending_session_spec (t : state) nl clk token (t1 : state) r :
  pending_session users tc t nl clk token = (t1, r) ->
  tables t1 = tables t ∧ updated (tt_sessions t) (tt_sessions t1)
  ∧ ∀ sess, r = Ok sess -> keyed (tt_sessions t) -> se_level sess = AuthLevelPending2FA
      ∧ ∃ s, tt_sessions t !! se_id sess = Some s ∧ row_evolves s sess.
Proof.
  unfold pending_session, Validate. intros Hp.
  pose proof (updated_validate users (tc_sessions tc) (tt_sessions t) (tt_gate t) (clk 0%nat) (clk 1%nat) token true) as Hu.
  pose proof (validate_ok users (tc_sessions tc) (tt_sessions t) (tt_gate t) (clk 0%nat) (clk 1%nat) token true) as Hv.
  destruct (validate _ _ _ _ _ _ _ _) as [[ss g] [[sess u]|err]]; [|by injection Hp as <- <-]. simpl in Hu, Hv.
  destruct (String.eqb_spec (se_level sess) AuthLevelPending2FA) as [El|]; [|by injection Hp as <- <-]. cbn [negb] in Hp.
  destruct (checkMFA _ _ _ _); [by injection Hp as <- <-|].
  pose proof (capRoom_spec (with_gate t ss g) nl (clk 3%nat) (clk 4%nat) sess) as [Htab Hcap].
  destruct (capRoom _ _ _ _ _ _) as [t2 [err|]]; injection Hp as <- <-; simpl in Htab, Hcap.
  - split_and!; [done|by transitivity ss|done].
  - split_and!; [done|by transitivity ss|]. intros ? [= <-] Hk. split; [done|].
    destruct (Hv _ _ eq_refl) as (_ & s & (_ & k & Hs)%SessionByTokenHash_Some & _ & _ & Hse).
    assert (He : row_evolves s sess) by (by destruct Hse as [->|[_ ->]]).
    exists s. split; [|done]. destruct He as [-> _]. by rewrite (Hk _ _ Hs).
Qed.

Lemma advanceStep_spec (t : state) u step :
  let '(t', b) := advanceStep tc t u step in
  tt_sessions t' = tt_sessions t ∧ tt_secrets t' = tt_secrets t ∧ tt_codes t' = tt_codes t ∧ tt_failures t' = tt_failures t
  ∧ (∀ u', u' ≠ u -> used_step tc t' u' = used_step tc t u')
  ∧ if b then (∀ last, used_step tc t u = Some last -> last < step) ∧ used_step tc t' u = Some step
    else used_step tc t' u = used_step tc t u.
Proof.
  unfold advanceStep, AdvanceTOTPStep, local_advance, used_step. destruct (tc_replay tc).
  - destruct (tt_steps t !! u) as [last|] eqn:E; [destruct (Z.leb_spec step last)|]; simpl; split_and!; try done;
      intros; rewrite ?lookup_insert_ne, ?lookup_insert_eq by done; try done; by simplify_eq.
  - destruct (tt_last_steps t !! u) as [last|] eqn:E; [destruct (Z.leb_spec step last)|]; simpl; split_and!; try done;
      intros; rewrite ?lookup_insert_ne, ?lookup_insert_eq by done; try done; by simplify_eq.
Qed.

(** A code is accepted only for a step later than the last one spent, which it then is. *)
Lemma check_code_spec (t : state) now u code :
  let '(t', r) := check_code tc t now u code in
  tt_sessions t' = tt_sessions t ∧ tt_codes t' = tt_codes t ∧ tt_failures t' = tt_failures t
  ∧ (∀ u', u' ≠ u -> used_step tc t' u' = used_step tc t u')
  ∧ match r with
    | Ok true => ∃ step, step_of t now u code = Some step ∧ (∀ last, used_step tc t u = Some last -> last < step)
                   ∧ used_step tc t' u = Some step
    | _ => used_step tc t' u = used_step tc t u
    end.
Proof.
  unfold check_code, step_of. destruct (decryptSecret t u) as [secret|err]; [|done].
  destruct (matchStep code secret now) as [step|]; [|done]. pose proof (advanceStep_spec t u step) as Ha.
  destruct (advanceStep tc t u step) as [t' []]; destruct Ha as (? & ? & ? & ? & ? & Hs); split_and!; try done.
  destruct Hs. by exists step.
Qed.

Lemma mfa_tables (t : state) now u :
  (tables (mfaFailed tc t now u) = tables t ∧ tt_sessions (mfaFailed tc t now u) = tt_sessions t)
  ∧ tables (mfaSucceeded tc t u) = tables t ∧ tt_sessions (mfaSucceeded tc t u) = tt_sessions t.
Proof.
  unfold mfaFailed, mfaSucceeded. destruct (tc_limiter tc) as [cfg|]; [|done]. by destruct (RecordMFAFailure _ _ _ _).
Qed.

(** One strike: the count goes up, and the fifth revokes the session and clears it. *)
Lemma strike_spec (t : state) clk sid u :
  let t' := strike tc t clk sid u in
  updated (tt_sessions t) (tt_sessions t') ∧ (∀ u', used_step tc t' u' = used_step tc t u') ∧ tt_codes t' = tt_codes t
  ∧ (∀ k, k ≠ sid -> tt_failures t' !! k = tt_failures t !! k)
  ∧ let n := default 0 (tt_failures t !! sid) + 1 in
    if pendingSessionMaxFailures <=? n then ∀ s, tt_sessions t' !! sid = Some s -> se_revoked s ≠ None
    else tt_failures t' !! sid = Some n.
Proof.
  cbv zeta. unfold strike. destruct (mfa_tables t (clk 6%nat) u) as [[Ht Hs] _]. set (t1 := mfaFailed _ _ _ _) in *.
  pose proof (fun u' => tables_used_step _ _ u' Ht) as Hus. injection Ht as _ Hc _ _ Hf.
  unfold recordPendingFailure. rewrite <- Hf, <- Hs. destruct (pendingSessionMaxFailures <=? _); simpl.
  - split_and!; [apply updated_revoke|done|done|by intros k Hk; rewrite lookup_delete_ne|].
    unfold RevokeSession. intros s. destruct (tt_sessions t1 !! sid) as [s0|] eqn:E; simpl; [|by rewrite E].
    rewrite lookup_insert_eq. by intros [= <-].
  - split_and!; [done|done|done|by intros k Hk; rewrite lookup_insert_ne|]. by rewrite lookup_insert_eq.
Qed.

(** What promotion does: it makes room, then turns the one session full. *)
Lemma promote_spec (t : state) nl clk token sess (t' : state) r :
  promote tc t nl clk token sess = (t', r) ->
  (∀ u, used_step tc t' u = used_step tc t u) ∧ tt_codes t' = tt_codes t ∧ tt_failures t' = delete (se_id sess) (tt_failures t)
  ∧ ∃ ss1 e, updated (tt_sessions t) ss1
    ∧ (tc_cap tc = true -> EnforceCap (sv_cap (tc_sessions tc)) (tt_sessions t) nl (clk 8%nat) (clk 9%nat) (se_user sess) (se_id sess) = (ss1, e))
    ∧ (tt_sessions t' = ss1 ∨ (tc_cap tc = true -> e = None)
       ∧ ∃ s1, ss1 !! se_id sess = Some s1 ∧ updated (<[se_id sess := with_level s1 AuthLevelFull]> ss1) (tt_sessions t')).
Proof.
  unfold promote. destruct (mfa_tables t 0 (se_user sess)) as [_ [Ht Hs]]. set (t0 := mfaSucceeded _ _ _) in *.
  pose proof (fun u' => tables_used_step _ _ u' Ht) as Hus. injection Ht as _ Hc _ _ Hf. unfold enforceCap.
  set (t1 := clearPendingFailure t0 (se_id sess)). assert (Hs1 : tt_sessions t1 = tt_sessions t) by exact Hs. rewrite Hs1.
  assert (Hus1 : ∀ u, used_step tc t1 u = used_step tc t u) by exact Hus.
  assert (Hf1 : tt_failures t1 = delete (se_id sess) (tt_failures t)) by (unfold t1; simpl; by rewrite Hf).
  assert (Hc1 : tt_codes t1 = tt_codes t) by exact Hc. clearbody t1. clear t0 Hus Hc Hf Hs.
  pose proof (updated_EnforceCap (sv_cap (tc_sessions tc)) (tt_sessions t) nl (clk 8%nat) (clk 9%nat) (se_user sess) (se_id sess)) as Hu.
  destruct (EnforceCap _ _ _ _ _ _ _) as [ssE eE]. simpl in Hu.
  assert (Hcap : ∃ t2 e, (if tc_cap tc then (with_sessions t1 ssE, eE) else (t1, None)) = (t2, e)
    ∧ (∀ u, used_step tc t2 u = used_step tc t1 u) ∧ tt_codes t2 = tt_codes t1 ∧ tt_failures t2 = tt_failures t1
    ∧ updated (tt_sessions t) (tt_sessions t2) ∧ (tc_cap tc = true -> (ssE, eE) = (tt_sessions t2, e))).
  { destruct (tc_cap tc); eexists _, _; (split; [reflexivity|]); split_and!; try done. by rewrite Hs1. }
  destruct Hcap as (t2 & e & -> & Hu2 & Hc2 & Hf2 & Hup & Heq). rewrite <- Hc1, <- Hf1, <- Hc2, <- Hf2.
  assert (Hfin : ∀ u, used_step tc t2 u = used_step tc t u) by (intros u; by rewrite Hu2).
  destruct e as [err|]; [intros [= <- <-]; split_and!; try done; exists (tt_sessions t2), (Some err); auto|].
  unfold UpdateSessionAuthLevel. destruct (tt_sessions t2 !! se_id sess) as [s1|] eqn:E1; simpl.
  2: { intros [= <- <-]. split_and!; try done. exists (tt_sessions t2), None. auto. }
  unfold recordSecondFactor. set (ss2 := <[se_id sess := with_level s1 AuthLevelFull]> (tt_sessions t2)).
  assert (Hend : ∀ t3, (∃ ss3, t3 = with_sessions t2 ss3) -> updated ss2 (tt_sessions t3) -> t' = t3 ->
    (∀ u, used_step tc t' u = used_step tc t u) ∧ tt_codes t' = tt_codes t2 ∧ tt_failures t' = tt_failures t2
    ∧ ∃ ss1 e, updated (tt_sessions t) ss1 ∧ (tc_cap tc = true -> (ssE, eE) = (ss1, e))
    ∧ (tt_sessions t' = ss1 ∨ (tc_cap tc = true -> e = None)
       ∧ ∃ s1, ss1 !! se_id sess = Some s1 ∧ updated (<[se_id sess := with_level s1 AuthLevelFull]> ss1) (tt_sessions t'))).
  { intros t3 [ss3 ->] Hu3 ->. split_and!; [by apply Hfin|done|done|]. exists (tt_sessions t2), None. split_and!; try done.
    right. split; [done|]. by exists s1. }
  destruct (tc_appender tc); [destruct (AppendSessionAuthMethods _ _ _ _) as [[ss3 [ms at_]]|] eqn:Ea|]; intros [= <- _];
    (eapply Hend; [by eexists| |done]); [|reflexivity|reflexivity].
  simpl. by eapply updated_append.
Qed.
End Parts.

(** ** What each request changes *)

Section Execs.
Context `{SessionLib} `{TotpLib} {St : Type} `{ThrottleStore St} {User : Type} (users : string -> option User) (tc : TotpService).

Abbreviation state := (TotpState St).

(** Requests other than the three that check codes leave the sessions to the store's own updates, or
    add a new one, and leave steps, strikes and used codes alone. *)
Definition plain_request (r : request) : bool :=
  match r with RVerify _ _ _ | RRecover _ _ _ | RCheckCode _ _ _ => false | _ => true end.

Lemma plain_exec (t : state) clk r : plain_request r = true ->
  attempt_of users tc t clk r = None ∧ (∀ u, used_step tc (exec users tc t clk r) u = used_step tc t u)
  ∧ tt_failures (exec users tc t clk r) = tt_failures t.
Proof.
  unfold used_step.
  destruct r; try done; intros _; (split; [done|]); simpl; try (split; [by destruct (tc_replay tc)|done]).
  - unfold IssuePending2FA. destruct (ie_token e); by destruct (tc_replay tc).
  - destruct (validate _ _ _ _ _ _ _ _) as [[ss g] res]. by destruct (tc_replay tc).
  - unfold BeginEnrollment, UpsertPendingTOTPSecret. repeat case_match; simpl; by destruct (tc_replay tc).
  - unfold FinishEnrollment, ConfirmTOTPSecret. cbv zeta. repeat case_match; simplify_eq; simpl; by destruct (tc_replay tc).
  - unfold RegenerateRecoveryCodes. repeat case_match; simpl; by destruct (tc_replay tc).
  - unfold MoveTOTPSecret. repeat case_match; simpl; by destruct (tc_replay tc).
Qed.

Lemma code_attempt_steps k (t : state) now sid u code u' :
  let '(t', r) := check_code tc t now u code in
  match code_attempt tc k t now sid u code ≫= spends u' with
  | Some step => (∀ last, used_step tc t u' = Some last -> last < step) ∧ used_step tc t' u' = Some step
  | None => used_step tc t' u' = used_step tc t u'
  end.
Proof.
  unfold code_attempt. pose proof (check_code_spec tc t now u code) as Hc.
  destruct (check_code tc t now u code) as [t' [b|err]]; simpl; destruct Hc as (_ & _ & _ & Hne & Hr).
  - unfold spends. simpl. case_bool_decide as Eu; simpl; [|apply Hne; congruence]. subst u'.
    destruct b; [|done]. destruct Hr as (step & -> & Hlt & Hu). done.
  - destruct (decide (u' = u)) as [->|]; auto.
Qed.

Lemma exec_steps (t : state) clk r u :
  match attempt_of users tc t clk r ≫= spends u with
  | Some step => (∀ last, used_step tc t u = Some last -> last < step) ∧ used_step tc (exec users tc t clk r) u = Some step
  | None => used_step tc (exec users tc t clk r) u = used_step tc t u
  end.
Proof.
  destruct (plain_request r) eqn:Ep; [by destruct (plain_exec t clk r Ep) as (-> & -> & _)|].
  destruct r as [nl token code|nl token code|sid uid code| | | | | | | | | | | | | |]; try done; clear Ep; cbn [attempt_of exec].
  - unfold Verify. destruct (pending_session users tc t nl clk token) as [t1 [sess|err]] eqn:E;
      apply pending_session_spec in E as (Ht & _ & _); pose proof (tables_used_step tc _ _ u Ht) as Hu; [|done].
    rewrite <- Hu. pose proof (code_attempt_steps ByTotp t1 (clk 5%nat) (se_id sess) (se_user sess) code u) as Hc.
    destruct (check_code tc t1 _ _ _) as [t2 [[]|err]]; [| |exact Hc].
    + destruct (promote tc t2 nl clk token sess) as [t3 r3] eqn:E3. apply promote_spec in E3 as (Hs & _). simpl. by rewrite Hs.
    + pose proof (strike_spec tc t2 clk (se_id sess) (se_user sess)) as (_ & Hs & _). simpl. by rewrite Hs.
  - unfold ConsumeRecoveryCode. destruct (pending_session users tc t nl clk token) as [t1 [sess|err]] eqn:E;
      apply pending_session_spec in E as (Ht & _ & _); pose proof (tables_used_step tc _ _ u Ht) as Hu; [|done].
    simpl. unfold spends. simpl.
    assert (Hn : (if bool_decide (se_user sess = u) && bool_decide (is_Some (matching_code t1 (se_user sess) code)) then None else None) = @None Z)
      by (by destruct (_ && _)). rewrite Hn.
    unfold StoreConsumeRecoveryCode. destruct (matching_code t1 (se_user sess) code) as [ic|]; simpl.
    + destruct (promote tc _ nl clk token sess) as [t3 r3] eqn:E3. apply promote_spec in E3 as (Hs & _). simpl. rewrite Hs. done.
    + pose proof (strike_spec tc t1 clk (se_id sess) (se_user sess)) as (_ & Hs & _). simpl. by rewrite Hs.
  - unfold CheckCode. destruct (checkMFA tc t (clk 2%nat) uid); [done|].
    pose proof (code_attempt_steps ByStepUp t (clk 5%nat) sid uid code u) as Hc.
    destruct (check_code tc t (clk 5%nat) uid code) as [t2 [[]|err]]; [| |exact Hc].
    + simpl. destruct (mfa_tables tc t2 0 uid) as [_ [Ht _]]. pose proof (tables_used_step tc _ _ u Ht) as Hu.
      unfold used_step in *. simpl in *. by rewrite Hu.
    + pose proof (strike_spec tc t2 clk sid uid) as (_ & Hs & _). simpl. by rewrite Hs.
Qed.

(** How a request changes the table of sessions: updates that keep every row's level; a new session, full
    only within the cap; or the promotion of one session by an accepted second factor. *)
Inductive table_change (t : state) (clk : nat -> Z) (r : request) (ss' : Sessions) : Prop :=
  | change_update : updated (tt_sessions t) ss' -> table_change t clk r ss'
  | change_new ss1 s :
      updated (tt_sessions t) ss1 -> se_id s ≠ "" -> ss1 !! se_id s = None -> ss' = <[se_id s := s]> ss1 ->
      (se_level s = AuthLevelPending2FA
       ∨ ∃ e o, r = RIssue e (se_user s) o
           ∧ EnforceCap (sv_cap (tc_sessions tc)) (tt_sessions t) (ie_no_limit e) (ie_list e) (ie_store e) (se_user s) "" = (ss1, None)) ->
      table_change t clk r ss'
  | change_promote a nl token code ss0 ss1 s1 :
      attempt_of users tc t clk r = Some a -> at_ok a = true -> r = RVerify nl token code ∨ r = RRecover nl token code ->
      updated (tt_sessions t) ss0 -> updated ss0 ss1 -> ss1 !! at_session a = Some s1 -> se_user s1 = at_user a ->
      (tc_cap tc = true ->
       EnforceCap (sv_cap (tc_sessions tc)) ss0 nl (clk 8%nat) (clk 9%nat) (at_user a) (at_session a) = (ss1, None)) ->
      updated (<[at_session a := with_level s1 AuthLevelFull]> ss1) ss' ->
      table_change t clk r ss'.

Lemma updated_None ss ss' k : updated ss ss' -> ss !! k = None -> ss' !! k = None.
Proof. intros Hu Hk. pose proof (Hu k) as Hf. rewrite Hk in Hf. by inversion Hf. Qed.

Lemma promote_change t clk r a nl token code t1 sess t' res :
  keyed (tt_sessions t) -> attempt_of users tc t clk r = Some a -> at_ok a = true -> at_session a = se_id sess ->
  at_user a = se_user sess -> r = RVerify nl token code ∨ r = RRecover nl token code ->
  updated (tt_sessions t) (tt_sessions t1) -> (∃ s, tt_sessions t !! se_id sess = Some s ∧ row_evolves s sess) ->
  promote tc t1 nl clk token sess = (t', res) -> table_change t clk r (tt_sessions t').
Proof.
  intros Hk Ha Hok Hsid Huid Hr Hu (s & Hs & Hev) (_ & _ & _ & ss1 & e & Hu1 & Hcap & Hend)%promote_spec.
  destruct Hend as [->|(He & s1 & Hs1 & Hend)]; [apply change_update; by transitivity (tt_sessions t1)|].
  rewrite <- Hsid in Hs1, Hend. eapply change_promote; try done.
  - destruct (updated_fwd _ _ _ s Hu ltac:(by rewrite <- Hs)) as (s0 & Hs0 & Hev0).
    destruct (updated_fwd _ _ _ s0 Hu1 Hs0) as (s1' & Hs1' & Hev1). rewrite Hsid, Hs1' in Hs1. injection Hs1 as <-.
    destruct Hev as (_ & Hv & _), Hev0 as (_ & Hv0 & _), Hev1 as (_ & Hv1 & _). congruence.
  - intros Hc. rewrite Hsid, Huid, Hcap by done. by rewrite He.
Qed.

Lemma issue_change (t : state) clk e uid o :
  fresh_request t (RIssue e uid o) ->
  table_change t clk (RIssue e uid o) (IssueWith (tc_sessions tc) (tt_sessions t) e uid o).1.
Proof.
  intros [Hid Hfr]. unfold IssueWith. destruct (CheckAccount _ _); [|by apply change_update]. simpl.
  pose proof (updated_EnforceCap (sv_cap (tc_sessions tc)) (tt_sessions t) (ie_no_limit e) (ie_list e) (ie_store e) uid "") as Hu.
  destruct (EnforceCap _ _ _ _ _ _ _) as [ss1 [err|]] eqn:Ec; [by apply change_update|].
  destruct (ie_token e) as [token|]; [|by apply change_update]. unfold record_methods.
  destruct (ie_methods e); cbn; match goal with |- context [<[_ := ?x]> ss1] => apply (change_new _ _ _ _ ss1 x) end;
    simpl; try done; (by eapply updated_None) || (right; eauto).
Qed.

Lemma pending_change (t : state) clk e uid ua ip :
  fresh_request t (RPending e uid ua ip) -> table_change t clk (RPending e uid ua ip) (tt_sessions (IssuePending2FA t e uid ua ip).1).
Proof.
  intros [Hid Hfr]. unfold IssuePending2FA. destruct (ie_token e) as [token|]; [|by apply change_update]. unfold record_methods.
  destruct (ie_methods e); cbn; match goal with |- context [<[_ := ?x]> (tt_sessions t)] => apply (change_new _ _ _ _ (tt_sessions t) x) end;
    simpl; try done; by left.
Qed.

Lemma plain_change (t : state) clk r :
  plain_request r = true -> fresh_request t r -> table_change t clk r (tt_sessions (exec users tc t clk r)).
Proof.
  intros Hp Hfr. destruct r; try done; cbn [exec]; try (by apply change_update); try (by apply issue_change); try (by apply pending_change);
    apply change_update.
  - pose proof (updated_validate users (tc_sessions tc) (tt_sessions t) (tt_gate t) (clk 0%nat) (clk 1%nat) token touch) as Hu.
    by destruct (validate _ _ _ _ _ _ _ _) as [[ss g] res].
  - unfold BeginEnrollment, UpsertPendingTOTPSecret. by repeat case_match.
  - unfold FinishEnrollment, ConfirmTOTPSecret. cbv zeta. by repeat case_match; simplify_eq.
  - unfold RegenerateRecoveryCodes. by repeat case_match.
  - unfold MoveTOTPSecret. by repeat case_match.
  - apply updated_revoke.
  - by apply (updated_revoke_all _ userID "" "").
  - by apply (updated_revoke_all _ userID keep "").
  - by apply (updated_revoke_all _ "" "" credentialID).
  - apply updated_elevate.
Qed.

Lemma exec_table (t : state) clk r :
  keyed (tt_sessions t) -> fresh_request t r -> table_change t clk r (tt_sessions (exec users tc t clk r)).
Proof.
  intros Hk Hfr. destruct (plain_request r) eqn:Ep; [by apply plain_change|].
  destruct r as [nl token code|nl token code|sid uid code| | | | | | | | | | | | | |]; try done; clear Ep Hfr; cbn [exec].
  - unfold Verify. destruct (pending_session users tc t nl clk token) as [t1 [sess|err]] eqn:E;
      pose proof (pending_session_spec users tc _ _ _ _ _ _ E) as (_ & Hu & Hs); [|by apply change_update].
    destruct (Hs sess eq_refl Hk) as (_ & Hrow). pose proof (check_code_spec tc t1 (clk 5%nat) (se_user sess) code) as Hc.
    destruct (check_code tc t1 _ _ _) as [t2 [[]|err]] eqn:Ec; destruct Hc as (Hss & _); simpl.
    + destruct (promote tc t2 nl clk token sess) as [t3 r3] eqn:E3. simpl. rewrite <- Hss in Hu.
      refine (promote_change t clk (RVerify nl token code) (mkAttempt ByTotp (se_id sess) (se_user sess) true
        (step_of t1 (clk 5%nat) (se_user sess) code)) nl token code t2 sess t3 r3 Hk _ _ _ _ _ Hu Hrow E3); try done; [|by left].
      simpl. rewrite E. unfold code_attempt. by rewrite Ec.
    + pose proof (strike_spec tc t2 clk (se_id sess) (se_user sess)) as (Hsu & _). apply change_update.
      transitivity (tt_sessions t1); [done|]. by rewrite <- Hss.
    + apply change_update. by rewrite Hss.
  - unfold ConsumeRecoveryCode. destruct (pending_session users tc t nl clk token) as [t1 [sess|err]] eqn:E;
      pose proof (pending_session_spec users tc _ _ _ _ _ _ E) as (_ & Hu & Hs); [|by apply change_update].
    destruct (Hs sess eq_refl Hk) as (_ & Hrow). unfold StoreConsumeRecoveryCode.
    destruct (matching_code t1 (se_user sess) code) as [ic|] eqn:Em; simpl.
    + destruct (promote tc _ nl clk token sess) as [t3 r3] eqn:E3. simpl.
      refine (promote_change t clk (RRecover nl token code) (mkAttempt ByRecoveryCode (se_id sess) (se_user sess) true None)
        nl token code _ sess t3 r3 Hk _ _ _ _ _ _ Hrow E3); try done; [|by right].
      simpl. by rewrite E, Em.
    + pose proof (strike_spec tc t1 clk (se_id sess) (se_user sess)) as (Hsu & _). apply change_update. by transitivity (tt_sessions t1).
  - unfold CheckCode. destruct (checkMFA tc t (clk 2%nat) uid); [by apply change_update|].
    pose proof (check_code_spec tc t (clk 5%nat) uid code) as Hc.
    destruct (check_code tc t (clk 5%nat) uid code) as [t2 [[]|err]]; destruct Hc as (Hss & _); apply change_update; simpl; rewrite <- Hss.
    + destruct (mfa_tables tc t2 0 uid) as [_ [_ ->]]. done.
    + by pose proof (strike_spec tc t2 clk sid uid) as (Hsu & _).
    + done.
Qed.
End Execs.

(** ** Runs *)

Section RunFacts.
Context `{SessionLib} `{TotpLib} {St : Type} `{ThrottleStore St} {User : Type} (users : string -> option User) (tc : TotpService).

Abbreviation state := (TotpState St).

(** What one request may do to a session that exists. *)
Lemma exec_row (t : state) clk r k s :
  keyed (tt_sessions t) -> fresh_request t r -> tt_sessions t !! k = Some s ->
  ∃ s', tt_sessions (exec users tc t clk r) !! k = Some s' ∧ se_user s' = se_user s
  ∧ (se_revoked s ≠ None -> se_revoked s' ≠ None)
  ∧ (se_level s' = se_level s ∨ ∃ a, attempt_of users tc t clk r = Some a ∧ at_ok a = true ∧ at_session a = k ∧ at_user a = se_user s
       ∧ at_kind a ≠ ByStepUp).
Proof.
  intros Hk Hfr Hs. pose proof (exec_table users tc t clk r Hk Hfr) as Hch. revert Hch. generalize (tt_sessions (exec users tc t clk r)).
  intros ss' [Hu|ss1 sn Hu Hnid Hn -> _|a nl token code ss0 ss1 s1 Ha Hok Hr Hu0 Hu1 Hs1 Hus _ Hend].
  - destruct (updated_fwd _ _ _ _ Hu Hs) as (s' & Hs' & _ & ? & _ & _ & _ & ? & ?). exists s'. split_and!; auto.
  - destruct (updated_fwd _ _ _ _ Hu Hs) as (s' & Hs' & _ & ? & _ & _ & _ & ? & ?). exists s'.
    rewrite lookup_insert_ne by congruence. split_and!; auto.
  - destruct (updated_fwd _ _ _ _ Hu0 Hs) as (s0 & Hs0 & _ & Hu0' & _ & _ & _ & Hl0 & Hr0).
    destruct (updated_fwd _ _ _ _ Hu1 Hs0) as (s1' & Hs1' & _ & Hu1' & _ & _ & _ & Hl1 & Hr1).
    destruct (decide (at_session a = k)) as [<-|Hne].
    + rewrite Hs1 in Hs1'. injection Hs1' as <-.
      destruct (updated_fwd _ _ (at_session a) (with_level s1 AuthLevelFull) Hend) as (s' & Hs' & _ & Hu' & _ & _ & _ & _ & Hr');
        [by rewrite lookup_insert_eq|]. exists s'. simpl in *. split_and!; [done|congruence|by intros Hn E; apply Hn; auto|].
      right. exists a. split_and!; try done; [congruence|]. destruct Hr as [->| ->]; simpl in Ha;
        destruct (pending_session users tc t nl clk token) as [t1 [sess|]]; try done.
      * unfold code_attempt in Ha. destruct (check_code _ _ _ _ _) as [t2 []]; simpl in Ha; [by injection Ha as <-|done].
      * by injection Ha as <-.
    + destruct (updated_fwd _ _ k s1' Hend) as (s' & Hs' & _ & Hu' & _ & _ & _ & Hl' & Hr'); [by rewrite lookup_insert_ne|].
      exists s'. split_and!; [done|congruence|by intros Hn E; apply Hn; auto|left; congruence].
Qed.

Lemma insert_keyed ss s : keyed ss -> keyed (<[se_id s := s]> ss).
Proof. intros Hk k s' [[<- <-]|[_ Hs']]%lookup_insert_Some; [done|by apply Hk]. Qed.

Lemma exec_keyed (t : state) clk r :
  keyed (tt_sessions t) -> fresh_request t r -> keyed (tt_sessions (exec users tc t clk r)).
Proof.
  intros Hk Hfr. destruct (exec_table users tc t clk r Hk Hfr) as [Hu|ss1 sn Hu Hnid Hn -> _|a nl token code ss0 ss1 s1 Ha Hok Hr Hu0 Hu1 Hs1 Hus _ Hend].
  - by eapply updated_keyed.
  - apply insert_keyed. by eapply updated_keyed.
  - eapply updated_keyed; [exact Hend|]. pose proof (updated_keyed _ _ Hu1 (updated_keyed _ _ Hu0 Hk)) as Hk1.
    rewrite <- (Hk1 _ _ Hs1). exact (insert_keyed ss1 (with_level s1 AuthLevelFull) Hk1).
Qed.

Lemma run_cons (t : state) clk r l :
  run users tc t ((clk, r) :: l)
  = ((run users tc (exec users tc t clk r) l).1,
     match attempt_of users tc t clk r with
     | Some a => a :: (run users tc (exec users tc t clk r) l).2
     | None => (run users tc (exec users tc t clk r) l).2
     end).
Proof. simpl. by destruct (run users tc (exec users tc t clk r) l). Qed.

Lemma run_attempts (t : state) clk r l a :
  a ∈ (run users tc t ((clk, r) :: l)).2 ↔ attempt_of users tc t clk r = Some a ∨ a ∈ (run users tc (exec users tc t clk r) l).2.
Proof.
  rewrite run_cons. simpl. destruct (attempt_of users tc t clk r) as [b|]; [|naive_solver].
  rewrite elem_of_cons. naive_solver.
Qed.

Lemma run_steps (t : state) l u :
  StronglySorted Z.lt (accepted_steps u (run users tc t l).2)
  ∧ ∀ last, used_step tc t u = Some last -> Forall (fun k => last < k) (accepted_steps u (run users tc t l).2).
Proof.
  revert t. induction l as [|[clk r] l IH]; intros t; [by split; [constructor|intros; constructor]|].
  pose proof (exec_steps users tc t clk r u) as Hex. rewrite run_cons. unfold accepted_steps in *. simpl.
  destruct (IH (exec users tc t clk r)) as [Hss Hall].
  destruct (attempt_of users tc t clk r) as [a|]; simpl in *; [|rewrite Hex in Hall; done].
  destruct (spends u a) as [k|]; [|rewrite Hex in Hall; done]. destruct Hex as [Hlt Hu]. split.
  - constructor; [done|]. by apply Hall.
  - intros last Hlast. specialize (Hlt _ Hlast). constructor; [done|]. eapply Forall_impl; [by apply Hall|]. simpl. lia.
Qed.

Lemma run_row (t : state) l k s :
  keyed (tt_sessions t) -> fresh_run users tc t l -> tt_sessions t !! k = Some s ->
  ∃ s', tt_sessions (run users tc t l).1 !! k = Some s' ∧ se_user s' = se_user s ∧ (se_revoked s ≠ None -> se_revoked s' ≠ None)
  ∧ (se_level s' = se_level s ∨ ∃ a, a ∈ (run users tc t l).2 ∧ at_ok a = true ∧ at_session a = k ∧ at_user a = se_user s ∧ at_kind a ≠ ByStepUp).
Proof.
  revert t s. induction l as [|[clk r] l IH]; intros t s Hk Hfr Hs; [exists s; by split_and!; [..|left]|].
  destruct Hfr as [Hfr Hrest]. destruct (exec_row t clk r k s Hk Hfr Hs) as (s1 & Hs1 & Hu1 & Hr1 & Hl1).
  destruct (IH (exec users tc t clk r) s1) as (s' & Hs' & Hu' & Hr' & Hl'); [by apply exec_keyed|done|done|].
  exists s'. split_and!; [by rewrite run_cons|congruence|auto|].
  destruct Hl' as [Hl'|(a & Ha & ? & ? & ? & ?)].
  - destruct Hl1 as [Hl1|(a & Ha & ? & ? & ? & ?)]; [left; congruence|]. right. exists a. rewrite run_attempts. split_and!; auto.
  - right. exists a. rewrite run_attempts. split_and!; auto. congruence.
Qed.
End RunFacts.

(** A one-time code is spent once: whatever requests run, the time steps of the TOTP codes accepted
    for a user, at sign-in and at step-up together, strictly increase, also over the step recorded
    before, so no code and no older code is ever accepted again. *)
Theorem totp_steps_increase `{SessionLib} `{TotpLib} {St} `{ThrottleStore St} {User} (users : string -> option User)
    tc (t : TotpState St) l u :
  StronglySorted Z.lt (accepted_steps u (run users tc t l).2)
  ∧ ∀ last, used_step tc t u = Some last -> Forall (fun k => last < k) (accepted_steps u (run users tc t l).2).
Proof. apply run_steps. Qed.

(** C27. No second factor, no session: a session that is waiting for its second factor and has left that
    state after any run of requests was presented, in that run, with a TOTP code or a recovery code of its
    own user that was accepted; and no request turns a revoked session back into a live one. *)
Theorem second_factor_required `{SessionLib} `{TotpLib} {St} `{ThrottleStore St} {User} (users : string -> option User)
    tc (t : TotpState St) l k s :
  keyed (tt_sessions t) -> fresh_run users tc t l -> tt_sessions t !! k = Some s ->
  ∃ s', tt_sessions (run users tc t l).1 !! k = Some s' ∧ (se_revoked s ≠ None -> se_revoked s' ≠ None)
  ∧ (se_level s = AuthLevelPending2FA -> se_level s' ≠ AuthLevelPending2FA ->
     ∃ a, a ∈ (run users tc t l).2 ∧ at_ok a = true ∧ at_session a = k ∧ at_user a = se_user s ∧ at_kind a ≠ ByStepUp).
Proof.
  intros Hk Hfr Hs. destruct (run_row users tc t l k s Hk Hfr Hs) as (s' & Hs' & _ & Hr & Hl). exists s'. split_and!; [done|done|].
  intros Hp Hnp. destruct Hl as [Hl|?]; [congruence|done].
Qed.

(** ** Strikes *)

Section Strikes.
Context `{SessionLib} `{TotpLib} {St : Type} `{ThrottleStore St} {User : Type} (users : string -> option User) (tc : TotpService).

Abbreviation state := (TotpState St).

(** What an attempt leaves of the strikes of its session. *)
Definition struck (t t' : state) (a : attempt) : Prop :=
  (∀ k, k ≠ at_session a -> tt_failures t' !! k = tt_failures t !! k)
  ∧ if at_ok a then tt_failures t' !! at_session a = None
    else let n := default 0 (tt_failures t !! at_session a) + 1 in
      if pendingSessionMaxFailures <=? n then ∀ s, tt_sessions t' !! at_session a = Some s -> se_revoked s ≠ None
      else tt_failures t' !! at_session a = Some n.

Lemma strike_struck (t t1 : state) clk sid u k st :
  tt_failures t1 = tt_failures t -> struck t (strike tc t1 clk sid u) (mkAttempt k sid u false st).
Proof.
  intros Hf. pose proof (strike_spec tc t1 clk sid u) as (_ & _ & _ & Hne & Hs). rewrite Hf in Hne, Hs. by split.
Qed.

Lemma cleared_struck (t t' : state) k sid u st :
  tt_failures t' = delete sid (tt_failures t) -> struck t t' (mkAttempt k sid u true st).
Proof.
  intros Hf. split; simpl; rewrite Hf; [by intros k' Hk; rewrite lookup_delete_ne|by rewrite lookup_delete_eq].
Qed.

Lemma exec_strikes (t : state) clk r :
  match attempt_of users tc t clk r with
  | Some a => struck t (exec users tc t clk r) a
  | None => tt_failures (exec users tc t clk r) = tt_failures t
  end.
Proof.
  destruct (plain_request r) eqn:Ep; [by destruct (plain_exec users tc t clk r Ep) as (-> & _ & ->)|].
  destruct r as [nl token code|nl token code|sid uid code| | | | | | | | | | | | | |]; try done; clear Ep; cbn [attempt_of exec].
  - unfold Verify. destruct (pending_session users tc t nl clk token) as [t1 [sess|err]] eqn:E;
      apply pending_session_spec in E as ([= _ _ _ _ Hf] & _ & _); [|done]. unfold code_attempt.
    pose proof (check_code_spec tc t1 (clk 5%nat) (se_user sess) code) as Hc.
    destruct (check_code tc t1 _ _ _) as [t2 [[]|err]]; destruct Hc as (_ & _ & Hf2 & _); simpl; rewrite Hf in Hf2.
    + destruct (promote tc t2 nl clk token sess) as [t3 r3] eqn:E3. apply promote_spec in E3 as (_ & _ & Hf3 & _).
      apply cleared_struck. simpl. by rewrite Hf3, Hf2.
    + by apply strike_struck.
    + done.
  - unfold ConsumeRecoveryCode. destruct (pending_session users tc t nl clk token) as [t1 [sess|err]] eqn:E;
      apply pending_session_spec in E as ([= _ _ _ _ Hf] & _ & _); [|done].
    unfold StoreConsumeRecoveryCode. destruct (matching_code t1 (se_user sess) code) as [ic|]; simpl.
    + destruct (promote tc _ nl clk token sess) as [t3 r3] eqn:E3. apply promote_spec in E3 as (_ & _ & Hf3 & _).
      apply cleared_struck. simpl. by rewrite Hf3, <- Hf.
    + by apply strike_struck.
  - unfold CheckCode. destruct (checkMFA tc t (clk 2%nat) uid); [done|]. unfold code_attempt.
    pose proof (check_code_spec tc t (clk 5%nat) uid code) as Hc.
    destruct (check_code tc t (clk 5%nat) uid code) as [t2 [[]|err]]; destruct Hc as (_ & _ & Hf2 & _); simpl.
    + destruct (mfa_tables tc t2 0 uid) as [_ [[= _ _ _ _ Hf] _]]. apply cleared_struck. simpl. by rewrite Hf, Hf2.
    + by apply strike_struck.
    + done.
Qed.

(** The wrong codes tried on a session. *)
Definition misses (sid : string) (tr : list attempt) : Z :=
  Z.of_nat (length (List.filter (fun a => (at_session a =? sid)%string && negb (at_ok a)) tr)).

Lemma misses_cons sid a tr :
  misses sid (a :: tr) = (if (at_session a =? sid)%string && negb (at_ok a) then 1 else 0) + misses sid tr.
Proof. unfold misses. simpl. destruct (_ && _); simpl; lia. Qed.

Lemma run_strikes (t : state) l sid s n :
  keyed (tt_sessions t) -> fresh_run users tc t l -> tt_sessions t !! sid = Some s ->
  se_revoked s ≠ None ∨ default 0 (tt_failures t !! sid) = n ->
  (∀ a, a ∈ (run users tc t l).2 -> at_session a = sid -> at_ok a = false) ->
  pendingSessionMaxFailures <= n + misses sid (run users tc t l).2 -> n < pendingSessionMaxFailures ->
  ∃ s', tt_sessions (run users tc t l).1 !! sid = Some s' ∧ se_revoked s' ≠ None.
Proof.
  revert t s n. induction l as [|[clk r] l IH]; intros t s n Hk Hfr Hs Hn Hno Hm Hlt.
  { unfold misses in Hm. simpl in Hm. lia. }
  destruct Hfr as [Hfr Hrest]. destruct (exec_row users tc t clk r sid s Hk Hfr Hs) as (s1 & Hs1 & _ & Hr1 & _).
  pose proof (exec_strikes t clk r) as Hst. pose proof (exec_keyed users tc t clk r Hk Hfr) as Hk1.
  assert (Hno' : ∀ a, a ∈ (run users tc (exec users tc t clk r) l).2 -> at_session a = sid -> at_ok a = false)
    by (intros a Ha; apply Hno, run_attempts; by right).
  rewrite run_cons in Hm |- *. simpl in Hm |- *. destruct Hn as [Hrev|Hn].
  { destruct (run_row users tc (exec users tc t clk r) l sid s1) as (s' & Hs' & _ & Hr' & _); try done. exists s'. auto. }
  destruct (attempt_of users tc t clk r) as [a|] eqn:Ea.
  2: { apply (IH _ s1 n); try done. right. by rewrite Hst. }
  rewrite misses_cons in Hm. destruct Hst as [Hne Hst]. destruct (String.eqb_spec (at_session a) sid) as [Es|Es]; simpl in Hm.
  2: { apply (IH _ s1 n); try done. right. rewrite Hne by done. done. }
  assert (Hok : at_ok a = false) by (apply Hno; [apply run_attempts; by left|done]). rewrite Hok in Hst, Hm. simpl in Hm.
  rewrite Es, Hn in Hst. cbv zeta in Hst. destruct (pendingSessionMaxFailures <=? n + 1) eqn:H5.
  - destruct (run_row users tc (exec users tc t clk r) l sid s1) as (s' & Hs' & _ & Hr' & _); try done. exists s'. eauto.
  - apply (IH _ s1 (n + 1)); try done; [right; by rewrite Hst|lia|by apply Z.leb_gt in H5].
Qed.
End Strikes.

(** Five strikes: once five wrong codes, TOTP or recovery codes, have been tried on a session with no
    right one in between, the session is revoked, so its token is refused from then on and the sign-in
    starts over; whatever other requests run meanwhile. *)
Theorem five_wrong_codes_revoke `{SessionLib} `{TotpLib} {St} `{ThrottleStore St} {User} (users : string -> option User)
    tc (t : TotpState St) l sid s :
  keyed (tt_sessions t) -> fresh_run users tc t l -> tt_sessions t !! sid = Some s -> tt_failures t !! sid = None ->
  (∀ a, a ∈ (run users tc t l).2 -> at_session a = sid -> at_ok a = false) ->
  pendingSessionMaxFailures <= misses sid (run users tc t l).2 ->
  ∃ s', tt_sessions (run users tc t l).1 !! sid = Some s' ∧ se_revoked s' ≠ None
  ∧ ∀ sv g now tr token touch x, SessionByTokenHash (tt_sessions (run users tc t l).1) (hash_token token) = Some s' ->
      (validate users sv (tt_sessions (run users tc t l).1) g now tr token touch).2 ≠ Ok x.
Proof.
  intros Hk Hfr Hs Hf Hno Hm. destruct (run_strikes users tc t l sid s 0) as (s' & Hs' & Hr); try done; [right; by rewrite Hf|].
  exists s'. split_and!; [done|done|]. intros sv g now tr token touch [x u] Htok (_ & s0 & Hs0 & (Hr0 & _) & _)%validate_ok. congruence.
Qed.

(** ** The session cap across sign-ins and promotions *)

Section CapRuns.
Context `{SessionLib} `{TotpLib} {St : Type} `{ThrottleStore St} {User : Type} (users : string -> option User) (tc : TotpService).

Abbreviation state := (TotpState St).
Abbreviation cap := (sv_cap (tc_sessions tc)).

(** From [now] on no user has more full sessions than the cap allows. *)
Definition capped (ss : Sessions) (now : Z) : Prop :=
  ∀ u t, now <= t -> Z.of_nat (size (full_sessions ss u t)) <= cap_max cap.

(** A request whose context does not lift the cap, between two times. *)
Definition in_time (now next : Z) (clk : nat -> Z) (r : request) : Prop :=
  (∀ i, now <= clk i <= next) ∧
  match r with
  | RVerify nl _ _ | RRecover nl _ _ => nl = false
  | RIssue e _ _ => ie_no_limit e = false ∧ now <= ie_list e <= next
  | _ => True
  end.

(** Requests one after the other. *)
Fixpoint in_order (now : Z) (l : list ((nat -> Z) * request)) (end_ : Z) : Prop :=
  match l with [] => now <= end_ | (clk, r) :: l' => ∃ next, in_time now next clk r ∧ in_order next l' end_ end.

(** The sessions and the ids they may have. *)
Definition well_keyed (ss : Sessions) : Prop := keyed ss ∧ ss !! "" = None.

Lemma size_union_le (X Y : gset string) : (size (X ∪ Y) <= size X + size Y)%nat.
Proof. rewrite size_union_alt. pose proof (subseteq_size (Y ∖ X) Y ltac:(set_solver)). lia. Qed.

(** One row more, for one user. *)
Lemma full_insert ss k s u t :
  full_sessions (<[k := s]> ss) u t ⊆ full_sessions ss u t ∖ {[k]} ∪ (if decide (full_at u t s) then {[k]} else ∅).
Proof.
  intros k'. rewrite elem_of_union, elem_of_difference, !elem_of_full_sessions.
  intros (s' & [[<- <-]|[Hne Hs']]%lookup_insert_Some & Hf).
  - right. rewrite decide_True by done. set_solver.
  - left. split; [by exists s'|set_solver].
Qed.

Lemma capped_updated ss ss' now next : updated ss ss' -> now <= next -> capped ss now -> capped ss' next.
Proof.
  intros Hu Hle Hc u t Ht. transitivity (Z.of_nat (size (full_sessions ss u t))); [|apply Hc; lia].
  apply inj_le, subseteq_size. by apply updated_full.
Qed.

(** Room for one, then one more. *)
Lemma capped_insert ss k s now uid :
  capped ss now -> se_user s = uid -> (∀ t, now <= t -> Z.of_nat (size (full_sessions ss uid t ∖ {[k]})) <= cap_max cap - 1) ->
  capped (<[k := s]> ss) now.
Proof.
  intros Hc Hu Hroom u t Ht. pose proof (subseteq_size _ _ (full_insert ss k s u t)) as Hsz.
  pose proof (size_union_le (full_sessions ss u t ∖ {[k]}) (if decide (full_at u t s) then {[k]} else ∅ : gset string)) as Hun.
  destruct (decide (full_at u t s)) as [Hf|Hf].
  - rewrite size_singleton in Hun. destruct Hf as [<- _]. rewrite Hu in *. specialize (Hroom t Ht). lia.
  - rewrite size_empty in Hun. specialize (Hc u t Ht).
    pose proof (subseteq_size (full_sessions ss u t ∖ {[k]}) (full_sessions ss u t) ltac:(set_solver)). lia.
Qed.

Hypothesis Hcap : tc_cap tc = true.
Hypothesis Hmax : 0 < cap_max cap.
Hypothesis Hlist : cap_lister cap = true.

Lemma exec_capped (t : state) clk r now next :
  well_keyed (tt_sessions t) -> fresh_request t r -> in_time now next clk r ->
  capped (tt_sessions t) now -> capped (tt_sessions (exec users tc t clk r)) next.
Proof using Hcap Hmax Hlist.
  intros [Hk Hnil] Hfr [Hclk Hr] Hc. pose proof (Hclk 8%nat) as H8. assert (Hle : now <= next) by lia.
  destruct (exec_table users tc t clk r Hk Hfr) as [Hu|ss1 sn Hu Hnid Hn -> Hkind|a nl token code ss0 ss1 s1 Ha Hok Hrq Hu0 Hu1 Hs1 Hus Hen Hend].
  - by eapply capped_updated.
  - pose proof (capped_updated _ _ _ _ Hu Hle Hc) as Hc1. destruct Hkind as [Hp|(e & o & -> & He)].
    + intros u t' Ht. pose proof (subseteq_size _ _ (full_insert ss1 (se_id sn) sn u t')) as Hsz.
      rewrite decide_False in Hsz by (by intros (_ & ? & _)). specialize (Hc1 u t' Ht).
      pose proof (subseteq_size (full_sessions ss1 u t' ∖ {[se_id sn]} ∪ ∅) (full_sessions ss1 u t') ltac:(set_solver)). lia.
    + destruct Hr as [Hnl Ht]. rewrite Hnl in He. destruct (EnforceCap_room _ _ _ _ _ _ _ Hk Hmax Hlist He) as (gone & _ & Hroom & _).
      apply (capped_insert _ _ _ _ (se_user sn)); [done|done|]. intros t' Ht'. specialize (Hroom t' ltac:(lia)).
      assert (Hnil1 : ss1 !! "" = None) by (by eapply updated_None).
      enough (Hsub : full_sessions ss1 (se_user sn) t' ∖ {[se_id sn]} ⊆ full_sessions ss1 (se_user sn) t' ∖ {[""]})
        by (apply subseteq_size in Hsub; lia).
      intros k'. rewrite !elem_of_difference, elem_of_full_sessions. intros [(s' & Hs' & Hf) _]. split; [by exists s'|].
      rewrite elem_of_singleton. intros ->. congruence.
  - eapply capped_updated; [exact Hend|reflexivity|]. specialize (Hen Hcap).
    assert (Hnl : nl = false) by (destruct Hrq as [->| ->]; done). rewrite Hnl in Hen.
    destruct (EnforceCap_room _ _ _ _ _ _ _ (updated_keyed _ _ Hu0 Hk) Hmax Hlist Hen) as (gone & _ & Hroom & _).
    apply (capped_insert _ _ _ _ (at_user a)); [|done|intros t' Ht'; apply Hroom; lia].
    eapply capped_updated; [exact Hu1|reflexivity|]. by eapply capped_updated.
Qed.

Lemma exec_well_keyed (t : state) clk r :
  well_keyed (tt_sessions t) -> fresh_request t r -> well_keyed (tt_sessions (exec users tc t clk r)).
Proof.
  intros [Hk Hnil] Hfr. split; [by apply exec_keyed|].
  destruct (exec_table users tc t clk r Hk Hfr) as [Hu|ss1 sn Hu Hnid Hn Heq _|a nl token code ss0 ss1 s1 Ha Hok Hrq Hu0 Hu1 Hs1 Hus Hen Hend].
  - by eapply updated_None.
  - rewrite Heq, lookup_insert_ne by done. by eapply updated_None.
  - eapply updated_None; [exact Hend|]. assert (Hn1 : ss1 !! "" = None) by (eapply updated_None, updated_None; eauto).
    rewrite lookup_insert_ne; [done|]. congruence.
Qed.

Lemma run_capped (t : state) l now end_ :
  well_keyed (tt_sessions t) -> fresh_run users tc t l -> in_order now l end_ -> capped (tt_sessions t) now ->
  capped (tt_sessions (run users tc t l).1) end_.
Proof using Hcap Hmax Hlist.
  revert t now. induction l as [|[clk r] l IH]; intros t now Hk Hfr Hord Hc; [by eapply capped_updated|].
  destruct Hfr as [Hfr Hrest]. destruct Hord as (next & Ht & Hord). rewrite run_cons. simpl.
  apply (IH _ next); [by apply exec_well_keyed|done|done|by eapply exec_capped].
Qed.
End CapRuns.

(** The cap on concurrent sessions holds across both ways to a full session: when requests run one
    after the other and the cap is enabled, then after any run of sign-ins, second factors, step-ups and
    revocations no user has more than [Max] live full sessions, whether the service evicts the oldest
    sessions or refuses the new one. *)
Theorem session_cap_holds `{SessionLib} `{TotpLib} {St} `{ThrottleStore St} {User} (users : string -> option User)
    tc (t : TotpState St) l now end_ u :
  tc_cap tc = true -> 0 < cap_max (sv_cap (tc_sessions tc)) -> cap_lister (sv_cap (tc_sessions tc)) = true ->
  tt_sessions t = ∅ -> fresh_run users tc t l -> in_order now l end_ ->
  Z.of_nat (size (full_sessions (tt_sessions (run users tc t l).1) u end_)) <= cap_max (sv_cap (tc_sessions tc)).
Proof.
  intros Hcap Hmax Hlist He Hfr Hord. refine (run_capped users tc Hcap Hmax Hlist t l now end_ _ Hfr Hord _ u end_ ltac:(lia)).
  - rewrite He. split; [|by rewrite lookup_empty]. intros k s Hs. by rewrite lookup_empty in Hs.
  - intros u' t' _. rewrite He. replace (full_sessions ∅ u' t') with (∅ : gset string); [rewrite size_empty; lia|].
    symmetry. apply elem_of_equiv_empty_L. intros k (s & Hs & _)%elem_of_full_sessions. by rewrite lookup_empty in Hs.
Qed.

(** ** Recovery codes *)

Section Codes.
Context `{SessionLib} `{TotpLib} {St : Type} `{ThrottleStore St} {User : Type} (users : string -> option User) (tc : TotpService).

Abbreviation state := (TotpState St).

Definition generates (r : request) : bool := match r with RFinish _ _ _ _ | RRegenerate _ _ => true | _ => false end.

(** A code row that can still be used for [code]. *)
Definition redeemable (t : state) (u code id : string) : Prop :=
  ∃ rc, tt_codes t !! id = Some rc ∧ rc_user rc = u ∧ rc_used rc = None ∧ VerifyRecoveryCode (rc_hash rc) code = true.

Lemma matching_code_Some (t : state) u code ic :
  matching_code t u code = Some ic -> tt_codes t !! ic.1 = Some ic.2 ∧ redeemable t u code ic.1.
Proof.
  intros [Hin%list_elem_of_In Hp]%find_some. destruct ic as [id rc]. apply elem_of_map_to_list in Hin. simpl in *.
  apply andb_prop in Hp as [[Hu%bool_decide_eq_true Hus%bool_decide_eq_true]%andb_prop Hv]. split; [done|]. by exists rc.
Qed.

Lemma matching_code_None (t : state) u code : matching_code t u code = None ↔ ∀ id, ¬ redeemable t u code id.
Proof.
  split.
  - intros Hn id (rc & Hl%elem_of_map_to_list%list_elem_of_In & Hu & Hus & Hv).
    pose proof (find_none _ _ Hn _ Hl) as Hf. simpl in Hf. rewrite Hu, Hus, Hv in Hf. by rewrite !bool_decide_true in Hf.
  - intros Hn. destruct (matching_code t u code) as [ic|] eqn:E; [|done]. apply matching_code_Some in E as [_ Hr]. by destruct (Hn _ Hr).
Qed.

(** Rows that are unused afterwards were there before, unused, unless the request makes new codes. *)
Definition codes_shrink (t t' : state) : Prop :=
  ∀ id rc, tt_codes t' !! id = Some rc -> rc_used rc = None -> tt_codes t !! id = Some rc.

Lemma redeemable_shrink (t t' : state) u code id : codes_shrink t t' -> redeemable t' u code id -> redeemable t u code id.
Proof. intros Hs (rc & Hl & Hu & Hus & Hv). exists rc. split_and!; auto. Qed.

Lemma consume_shrinks (t t' : state) u code at_ :
  StoreConsumeRecoveryCode t u code at_ = Some t' -> codes_shrink t t'.
Proof.
  unfold StoreConsumeRecoveryCode. destruct (matching_code t u code) as [ic|]; [|done]. intros [= <-] id rc Hl Hus. simpl in Hl.
  apply lookup_insert_Some in Hl as [[_ <-]|[_ Hl]]; done.
Qed.

Lemma exec_codes (t : state) clk r : generates r = false -> codes_shrink t (exec users tc t clk r).
Proof.
  intros Hg. destruct r as [nl token code|nl token code|sid uid code|e uid o|e uid ua ip|token touch|uid name d| | |uid|pid sid| | | | | |];
    try done; try (by intros id rc); cbn [exec].
  - unfold Verify. destruct (pending_session users tc t nl clk token) as [t1 [sess|err]] eqn:E;
      apply pending_session_spec in E as ([= _ Hc _ _ _] & _ & _); unfold codes_shrink; [|simpl; by rewrite Hc].
    pose proof (check_code_spec tc t1 (clk 5%nat) (se_user sess) code) as Hcc.
    destruct (check_code tc t1 _ _ _) as [t2 [[]|err]]; destruct Hcc as (_ & Hc2 & _); simpl.
    + destruct (promote tc t2 nl clk token sess) as [t3 r3] eqn:E3. apply promote_spec in E3 as (_ & Hc3 & _). simpl. by rewrite Hc3, Hc2, Hc.
    + pose proof (strike_spec tc t2 clk (se_id sess) (se_user sess)) as (_ & _ & Hc3 & _). by rewrite Hc3, Hc2, Hc.
    + by rewrite Hc2, Hc.
  - unfold ConsumeRecoveryCode. destruct (pending_session users tc t nl clk token) as [t1 [sess|err]] eqn:E;
      apply pending_session_spec in E as ([= _ Hc _ _ _] & _ & _); [|intros id rc; simpl; by rewrite Hc].
    destruct (StoreConsumeRecoveryCode t1 _ _ _) as [t2|] eqn:Ec.
    + apply consume_shrinks in Ec. destruct (promote tc t2 nl clk token sess) as [t3 r3] eqn:E3. apply promote_spec in E3 as (_ & Hc3 & _).
      intros id rc. simpl. rewrite Hc3, <- Hc. apply Ec.
    + pose proof (strike_spec tc t1 clk (se_id sess) (se_user sess)) as (_ & _ & Hc3 & _). intros id rc. simpl. by rewrite Hc3, Hc.
  - unfold CheckCode. destruct (checkMFA tc t (clk 2%nat) uid); [by intros id rc|].
    pose proof (check_code_spec tc t (clk 5%nat) uid code) as Hcc.
    destruct (check_code tc t (clk 5%nat) uid code) as [t2 [[]|err]]; destruct Hcc as (_ & Hc2 & _); intros id rc; simpl.
    + destruct (mfa_tables tc t2 0 uid) as [_ [[= _ Hc3 _ _ _] _]]. by rewrite Hc3, Hc2.
    + pose proof (strike_spec tc t2 clk sid uid) as (_ & _ & Hc3 & _). by rewrite Hc3, Hc2.
    + by rewrite Hc2.
  - unfold IssuePending2FA. destruct (ie_token e); by intros id rc.
  - destruct (validate _ _ _ _ _ _ _ _) as [[ss g] res]. by intros id rc.
  - unfold BeginEnrollment, UpsertPendingTOTPSecret. by repeat case_match; intros id rc.
  - intros id rc. simpl. intros [Hl _]%map_lookup_filter_Some. done.
  - unfold MoveTOTPSecret. by repeat case_match; intros id rc.
  - by intros id' rc.
  - by intros id' rc.
Qed.

Lemma run_codes (t : state) l : (∀ cr, cr ∈ l -> generates cr.2 = false) -> codes_shrink t (run users tc t l).1.
Proof.
  revert t. induction l as [|[clk r] l IH]; intros t Hg; [by intros id rc|]. rewrite run_cons. simpl. intros id rc Hl Hus.
  apply (exec_codes t clk r (Hg _ ltac:(by left))); [|done]. apply IH; [|done|done]. intros cr Hcr. apply Hg. by right.
Qed.
End Codes.

(** A recovery code works once: when a request redeems a code that only one of the user's unused rows
    verifies, then no row verifies it afterwards, whatever requests follow, until new recovery codes are
    generated; so every later attempt with it fails. *)
Theorem recovery_code_once `{SessionLib} `{TotpLib} {St} `{ThrottleStore St} {User} (users : string -> option User)
    tc (t : TotpState St) clk nl token code a l :
  attempt_of users tc t clk (RRecover nl token code) = Some a -> at_ok a = true ->
  (∀ id id', redeemable t (at_user a) code id -> redeemable t (at_user a) code id' -> id = id') ->
  (∀ cr, cr ∈ l -> generates cr.2 = false) ->
  matching_code (run users tc (exec users tc t clk (RRecover nl token code)) l).1 (at_user a) code = None.
Proof.
  intros Ha Hok Huniq Hg. apply matching_code_None. intros id Hr.
  pose proof (redeemable_shrink _ _ _ _ _ (run_codes users tc (exec users tc t clk (RRecover nl token code)) l Hg) Hr) as Hr1.
  pose proof (redeemable_shrink _ _ _ _ _ (exec_codes users tc t clk (RRecover nl token code) eq_refl) Hr1) as Hr0.
  revert Ha Hr1. simpl. unfold ConsumeRecoveryCode. destruct (pending_session users tc t nl clk token) as [t1 [sess|err]] eqn:E; [|done].
  apply pending_session_spec in E as ([= _ Hc _ _ _] & _ & _). intros [= <-]. simpl in *.
  apply bool_decide_eq_true in Hok as [ic Em]. unfold StoreConsumeRecoveryCode. rewrite Em. simpl.
  destruct (promote tc _ nl clk token sess) as [t3 r3] eqn:E3. apply promote_spec in E3 as (_ & Hc3 & _). intros (rc & Hl & _ & Hus & _).
  simpl in Hl. rewrite Hc3 in Hl. simpl in Hl. apply matching_code_Some in Em as [_ Hm].
  assert (Hid : ic.1 = id) by (apply Huniq; [|done]; destruct Hm as (rc' & Hl' & ?); exists rc'; by rewrite <- Hc).
  rewrite Hid, lookup_insert_eq in Hl. by injection Hl as <-.
Qed.

(** ** Two ways to lose a second factor *)

(** Two enrollments that overlap confirm the wrong secret: when a user begins twice and finishes the
    first one with a right code, the service confirms the secret of the second. The user's authenticator
    holds the first secret, and from then on codes are checked against the second. *)
Theorem overlapping_enrollment_confirms_other `{TotpLib} {St} tc (t : TotpState St) clk1 clk2 clk3 u name s1 e1 id1 s2 e2 id2
    code draws count :
  tc_recovery_count tc = Some count -> name ≠ "" -> tt_secrets t !! u = None -> id1 ≠ id2 ->
  clk3 0%nat <= clk1 0%nat + enrollmentTTL -> ValidateSkewed code s1 (clk3 1%nat) = true ->
  let t1 := (BeginEnrollment tc t clk1 u name (mkEnrollDraw (Some s1) (Some e1) (Some id1))).1 in
  let t2 := (BeginEnrollment tc t1 clk2 u name (mkEnrollDraw (Some s2) (Some e2) (Some id2))).1 in
  ∃ t3 codes, FinishEnrollment tc t2 clk3 u id1 code (Some draws) = (t3, Ok codes)
  ∧ ∀ secret, Decrypt e2 = Some secret -> decryptSecret t3 u = Ok secret.
Proof.
  intros Hcount Hname%String.eqb_neq Hsec Hid Hexp Hcode. unfold BeginEnrollment. rewrite Hcount, Hname. cbn [ed_secret ed_enc ed_id].
  unfold UpsertPendingTOTPSecret. cbn. rewrite Hsec. cbn. rewrite lookup_insert_eq. cbn.
  unfold FinishEnrollment. rewrite Hcount. cbn. rewrite lookup_insert_ne, lookup_insert_eq by done. cbn.
  rewrite String.eqb_refl. cbn [negb]. unfold After. rewrite (proj2 (Z.ltb_ge _ _)) by lia. rewrite Hcode. cbn [negb].
  unfold TOTPSecretByUserID, ConfirmTOTPSecret. cbn. rewrite lookup_insert_eq. cbn. eexists _, _. split; [reflexivity|].
  intros secret Hd. unfold decryptSecret, TOTPSecretByUserID. cbn. rewrite lookup_insert_eq. by rewrite Hd.
Qed.

(** Merging accounts can switch the second factor off: when the primary account has begun an
    enrollment and the secondary has a confirmed secret, after the merge neither account has a confirmed
    secret. *)
Theorem merge_drops_active_factor `{TotpLib} {St} (t : TotpState St) primary secondary :
  primary ≠ secondary ->
  (∃ sec, tt_secrets t !! primary = Some sec ∧ ts_confirmed sec = None) ->
  (∃ sec, tt_secrets t !! secondary = Some sec ∧ ts_confirmed sec ≠ None) ->
  decryptSecret (MoveTOTPSecret t primary secondary) primary = Err TNoCredential
  ∧ decryptSecret (MoveTOTPSecret t primary secondary) secondary = Err TNoCredential.
Proof.
  intros Hne (p & Hp & Hpc) (s & Hs & _). unfold MoveTOTPSecret, decryptSecret, TOTPSecretByUserID. rewrite Hs, Hp. cbn.
  rewrite lookup_delete_ne, Hp, lookup_delete_eq by done. destruct p as [pu pe pc pcr pup]. simpl in Hpc. by subst.
Qed.

(** ** A sign-in with two factors *)

Definition pad32 (s : string) : string := String.substring 0 32 (s +:+ "................................").

Definition demo_sessions_lib : SessionLib := {| hash_token := fun s => s; normalize_method := fun s => s |}.

(** Codes of the demonstration spell out the secret and the step. *)
Definition code_at (secret : string) (t : Z) : string := secret +:+ FormatInt (Z.quot (Unix t) totpPeriod).

Definition demo_totp : TotpLib := {|
  ValidateCustom := fun code secret t => Some (code =? code_at secret t)%string;
  ValidateSkewed := fun code secret t => (code =? code_at secret t)%string;
  Decrypt := fun enc => Some enc;
  sha256_bytes := pad32;
|}.

#[local] Existing Instance demo_sessions_lib.
#[local] Existing Instance demo_totp.

Definition demo_throttle : ThrottleStore MemoryStore := MemoryStore_store demo_victim.
#[local] Existing Instance demo_throttle.

Definition demo_users (id : string) : option string := Some id.

Definition demo_service : TotpService :=
  mkTotpService (Some 2) (mkSessionService Hour (mkPolicy 0 0 false false None) None (mkCap 2 OverflowEvictOldest true true))
    (Some demo_cfg) true true true true.

Definition demo_time : Z := unix_epoch + 1700000000 * Second.

Definition demo_clock (n : Z) : nat -> Z := fun _ => demo_time + n * Second.

Definition demo_row : RecoveryCode := mkCode "r1" "ann" (HashRecoveryCode "0123456789abcdef" "aaaaaaaaaa") None 0.

Definition demo_base : TotpState MemoryStore :=
  mkTotpState ∅ (<["ann" := mkSecret "ann" "K" (Some 1) 1 1]> ∅) (<["r1" := demo_row]> ∅) ∅ (mkTouchGate ∅ 0) ∅ ∅ ∅ (NewMemoryStore 0).

Definition demo_env (n : Z) (id : string) : IssueEnv :=
  mkIssueEnv false (demo_time + n * Second) (demo_time + n * Second) (demo_time + n * Second) (Some ("token-" +:+ id)) id ["pwd"] 0.

(** Ann has passed the password and waits for the second factor. *)
Definition demo_pending : TotpState MemoryStore := exec demo_users demo_service demo_base (demo_clock 0) (RPending (demo_env 0 "s1") "ann" "ua" "ip").

Definition demo_session : Session :=
  mkSession "s1" "ann" "token-s1" "ua" "ip" demo_time (demo_time + 10 * Minute) None AuthLevelPending2FA None 0 None "" ["pwd"] demo_time.

Lemma demo_pending_row : tt_sessions demo_pending !! "s1" = Some demo_session.
Proof. vm_compute. reflexivity. Qed.

Lemma demo_pending_keyed : keyed (tt_sessions demo_pending).
Proof.
  change (tt_sessions demo_pending) with (<["s1" := demo_session]> ∅ : Sessions).
  intros k s [[<- <-]|[_ Hs]]%lookup_insert_Some; [done|by rewrite lookup_empty in Hs].
Qed.

Definition demo_code (n : Z) : string := code_at "K" (demo_time + n * Second).

(** Requests that make no session are fresh at any state. *)
Lemma fresh_run_plain (t : TotpState MemoryStore) l :
  Forall (fun cr => match cr.2 with RIssue _ _ _ | RPending _ _ _ _ => False | _ => True end) l -> fresh_run demo_users demo_service t l.
Proof.
  revert t. induction l as [|[clk r] l IH]; intros t Hl; [done|]. apply Forall_cons in Hl as [Hr Hl]. split; [by destruct r|by apply IH].
Qed.

Definition demo_verify : list ((nat -> Z) * request) :=
  [(demo_clock 5, RVerify false "token-s1" "wrong"); (demo_clock 6, RVerify false "token-s1" (demo_code 6))].

Lemma second_factor_required_witness :
  ∃ a, a ∈ (run demo_users demo_service demo_pending demo_verify).2 ∧ at_ok a = true ∧ at_session a = "s1" ∧ at_user a = "ann"
    ∧ at_kind a ≠ ByStepUp.
Proof.
  assert (Hfin : se_level <$> tt_sessions (run demo_users demo_service demo_pending demo_verify).1 !! "s1" = Some AuthLevelFull)
    by (vm_compute; reflexivity).
  destruct (second_factor_required demo_users demo_service demo_pending demo_verify "s1" demo_session demo_pending_keyed
    (fresh_run_plain demo_pending demo_verify ltac:(repeat constructor)) demo_pending_row) as (s' & Hs' & _ & Hx).
  rewrite Hs' in Hfin. simpl in Hfin. apply Hx; [done|]. by injection Hfin as ->.
Defined.

Definition demo_guesses : list ((nat -> Z) * request) :=
  map (fun n => (demo_clock n, RVerify false "token-s1" "wrong")) [1; 2; 3] ++
  map (fun n => (demo_clock n, RRecover false "token-s1" "wrong")) [4; 5].

Lemma five_wrong_codes_revoke_witness :
  ∃ s', tt_sessions (run demo_users demo_service demo_pending demo_guesses).1 !! "s1" = Some s' ∧ se_revoked s' ≠ None.
Proof.
  assert (Htr : (run demo_users demo_service demo_pending demo_guesses).2 =
    (replicate 3 (mkAttempt ByTotp "s1" "ann" false None) ++ replicate 2 (mkAttempt ByRecoveryCode "s1" "ann" false None))%list)
    by (vm_compute; reflexivity).
  destruct (five_wrong_codes_revoke demo_users demo_service demo_pending demo_guesses "s1" demo_session demo_pending_keyed
    (fresh_run_plain demo_pending demo_guesses ltac:(repeat constructor)) demo_pending_row ltac:(vm_compute; reflexivity)) as (s' & Hs' & Hr & _).
  - intros a Ha _. revert a Ha. apply Forall_forall. rewrite Htr. repeat constructor.
  - rewrite Htr. vm_compute. discriminate.
  - exists s'. exact (conj Hs' Hr).
Defined.

Definition demo_signins : list ((nat -> Z) * request) :=
  [(demo_clock 0, RIssue (demo_env 0 "a") "ann" (mkIssueOptions "" "" "" 0));
   (demo_clock 1, RIssue (demo_env 1 "b") "ann" (mkIssueOptions "" "" "" 0));
   (demo_clock 2, RPending (demo_env 2 "c") "ann" "" "");
   (demo_clock 3, RVerify false "token-c" (demo_code 3))].

Lemma demo_signins_fresh : fresh_run demo_users demo_service demo_base demo_signins.
Proof. repeat (split; [first [exact I | split; [done|vm_compute; reflexivity]]|]). exact I. Qed.

Lemma session_cap_holds_witness :
  elements (full_sessions (tt_sessions (run demo_users demo_service demo_base demo_signins).1) "ann" (demo_time + 3 * Second)) = ["c"; "b"]
  ∧ Z.of_nat (size (full_sessions (tt_sessions (run demo_users demo_service demo_base demo_signins).1) "ann" (demo_time + 3 * Second))) <= 2.
Proof.
  split; [vm_compute; reflexivity|].
  refine (session_cap_holds demo_users demo_service demo_base demo_signins demo_time (demo_time + 3 * Second) "ann" eq_refl ltac:(done) eq_refl
    eq_refl demo_signins_fresh _).
  exists demo_time. split; [split; [intros i; unfold demo_clock; lia|unfold demo_env; simpl; split; [done|lia]]|].
  exists (demo_time + 1 * Second). split; [split; [intros i; unfold demo_clock, Second; lia|unfold demo_env, Second; simpl; split; [done|lia]]|].
  exists (demo_time + 2 * Second). split; [split; [intros i; unfold demo_clock, Second; lia|done]|].
  exists (demo_time + 3 * Second). split; [split; [intros i; unfold demo_clock, Second; lia|done]|]. simpl. lia.
Defined.

Lemma recovery_code_once_witness :
  matching_code demo_pending "ann" "aaaaaaaaaa" = Some ("r1", demo_row)
  ∧ matching_code (run demo_users demo_service
      (exec demo_users demo_service demo_pending (demo_clock 1) (RRecover false "token-s1" "aaaaaaaaaa"))
      [(demo_clock 2, RRevoke "s1")]).1 "ann" "aaaaaaaaaa" = None.
Proof.
  split; [vm_compute; reflexivity|].
  refine (recovery_code_once demo_users demo_service demo_pending (demo_clock 1) false "token-s1" "aaaaaaaaaa"
    (mkAttempt ByRecoveryCode "s1" "ann" true None) _ _ eq_refl _ _).
  - vm_compute. reflexivity.
  - assert (Hone : ∀ id, redeemable demo_pending "ann" "aaaaaaaaaa" id -> id = "r1").
    { intros id (rc & Hl & _). change (tt_codes demo_pending) with (<["r1" := demo_row]> ∅ : gmap string RecoveryCode) in Hl.
      apply lookup_insert_Some in Hl as [[<- _]|[_ Hl]]; [done|by rewrite lookup_empty in Hl]. }
    intros id id' Hr Hr'. by rewrite (Hone _ Hr), (Hone _ Hr').
  - intros cr Hcr. apply list_elem_of_singleton in Hcr as ->. reflexivity.
Defined.

Lemma overlapping_enrollment_confirms_other_witness :
  ∃ t3 codes, FinishEnrollment demo_service
      (BeginEnrollment demo_service (BeginEnrollment demo_service demo_base (demo_clock 0) "bob" "bob@x"
         (mkEnrollDraw (Some "K1") (Some "K1") (Some "e1"))).1 (demo_clock 1) "bob" "bob@x"
         (mkEnrollDraw (Some "K2") (Some "K2") (Some "e2"))).1
      (demo_clock 2) "bob" "e1" (code_at "K1" (demo_time + 2 * Second)) (Some []) = (t3, Ok codes)
  ∧ decryptSecret t3 "bob" = Ok "K2".
Proof.
  destruct (overlapping_enrollment_confirms_other demo_service demo_base (demo_clock 0) (demo_clock 1) (demo_clock 2) "bob" "bob@x"
    "K1" "K1" "e1" "K2" "K2" "e2" (code_at "K1" (demo_time + 2 * Second)) [] 2) as (t3 & codes & Hf & Hd).
  - done.
  - done.
  - vm_compute. reflexivity.
  - done.
  - vm_compute. discriminate.
  - vm_compute. reflexivity.
  - exists t3, codes. split; [exact Hf|]. by apply Hd.
Defined.

Lemma merge_drops_active_factor_witness :
  decryptSecret demo_base "ann" = Ok "K"
  ∧ decryptSecret (MoveTOTPSecret (UpsertPendingTOTPSecret demo_base 1 (mkSecret "bob" "K2" None 1 1)) "bob" "ann") "bob" = Err TNoCredential.
Proof.
  split; [vm_compute; reflexivity|].
  destruct (merge_drops_active_factor (UpsertPendingTOTPSecret demo_base 1 (mkSecret "bob" "K2" None 1 1)) "bob" "ann") as [Hb _].
  - done.
  - exists (mkSecret "bob" "K2" None 1 1). split; [vm_compute; reflexivity|done].
  - exists (mkSecret "ann" "K" (Some 1) 1 1). split; [vm_compute; reflexivity|done].
  - exact Hb.
Defined.
