(* ===== verification/McpResource.v ===== *)
(** * The resource server ([mcpresource])

    The middleware in front of an MCP server: it verifies access tokens, binds them to DPoP proofs, asks for
    revocations, and introspects tokens that carry a delegation chain or are opaque. The state is the cache
    of the authorization server's keys, the cache of introspection answers and the DPoP verifier. Requests
    are atomic; what the authorization server answers to a fetch, and the clock, are arguments ([AuthEnv]). *)

From Stdlib Require Import ZArith Lia String Ascii.
From stdpp Require Import base gmap strings list.
From S2P Require Import Prelude Canonical GoJSON Checkpoint KV AgentGate Delegation Dpop McpDpop.

Set Default Goal Selector "!".
Open Scope string_scope.
Open Scope list_scope.
Open Scope Z_scope.

(** ** Tokens ([jwt.go], [principal.go]) *)

(** [actorClaim] has the shape of [Actor]. *)
Record claims := mkRClaims {
  rc_iss : string; rc_sub : string; rc_aud : list string; rc_exp : Z; rc_iat : Z; rc_nbf : Z; rc_jti : string;
  rc_client : string; rc_scope : string; rc_typ : string; rc_act : option Actor; rc_grant : string;
  rc_device : string; rc_acr : string; rc_auth_time : Z; rc_amr : list string; rc_details : string;
  rc_cnf : option string;
}.

Record jwtHeader := mkJwtHeader { jh_alg : string; jh_typ : string; jh_kid : string }.

Inductive PublicKey :=
  | Ed25519Key (pub : string) | ECKey (curve : Curve) (x y : Z) | RSAKey (n e : Z).

Record Detail := mkDetail { dt_type : string; dt_raw : string }.

Record Principal := mkPrincipal {
  p_subject : string; p_actor : string; p_actor_chain : list string; p_scope : list string; p_client : string;
  p_issued_at : Z; p_expires_at : Z; p_issuer : string; p_audience : string; p_audiences : list string;
  p_acr : string; p_amr : list string; p_auth_time : Z; p_jti : string; p_device : string; p_grant : string;
  p_cnf_jkt : string; p_details : list Detail;
}.

Inductive mcp_error :=
  | ESegments | EHeaderDecode | EHeaderParse | EUnsupportedAlg | EMissingTyp | EUnsupportedTyp | EMissingKid
  | EFetchKeys | EUnknownKid | EPinnedAlg | ESignatureDecode | EKeyType | ESignatureLength | EKeyTooSmall
  | ESignatureMismatch | EPayloadDecode | EPayloadParse | EExpired | ENotYetValid | EIatFuture | EAudience
  | EDetails | EDPoP (e : mdpop_error) | ERevoked | ERevocationCheck | EIntrospect | EInactiveChain
  | EOpaqueNoIntrospection | EOpaqueMalformed | EOpaqueInactive | ETokenType | EDPoPWithoutJKT.

(** The JSON decoders of a token's two parts and of an array of authorization details. *)
Class McpLib := {
  decode_jwt_header : string -> option jwtHeader;
  decode_jwt_claims : string -> option claims;
  decode_details : string -> option (list Detail);
}.

(** [BitLen] of a positive integer. *)
Definition BitLen (n : Z) : Z := if n <=? 0 then 0 else Z.log2 n + 1.
Definition minRSABits : Z := 2048.

Definition aud_contains (aud : list string) (want : string) : bool := bool_decide (want ∈ aud).
Definition aud_first (aud : list string) : string := match aud with a :: _ => a | [] => "" end.

(** ** The key cache ([jwks.go]) *)

Record jwksKey := mkJwksKey { jk_key : PublicKey; jk_alg : string }.

(** [lastFetched] is 0 before the first fetch. *)
Record jwksCache := mkJwks {
  jc_ttl : Z; jc_min_refresh : Z; jc_max_stale : Z; jc_keys : gmap string jwksKey; jc_last : Z;
}.

(** One entry of the document. *)
Record jwksEntry := mkEntry {
  en_kty : string; en_crv : string; en_x : string; en_y : string; en_n : string; en_e : string;
  en_kid : string; en_alg : string; en_use : string;
}.

Definition staleLimit (c : jwksCache) : Z := if 0 <? jc_max_stale c then jc_max_stale c else Hour.

Section Keys.
Context `{DpopLib}.

Definition parseEd25519JWK (x : string) : option PublicKey :=
  match b64_decode x with
  | Some raw => if len raw =? 32 then Some (Ed25519Key raw) else None
  | None => None
  end.

Definition parseP256JWK (x y : string) : option PublicKey :=
  match b64_decode x, b64_decode y with
  | Some xb, Some yb =>
      if negb (len xb =? 32) || negb (len yb =? 32) then None
      else if on_curve P256 (byte_of 4 :: list_ascii_of_string (xb +:+ yb)) then Some (ECKey P256 (SetBytes xb) (SetBytes yb))
      else None
  | _, _ => None
  end.

Definition parseRSAJWK (n e : string) : option PublicKey :=
  match b64_decode n, b64_decode e with
  | Some nb, Some eb =>
      if (len nb =? 0) || (len eb =? 0) || (4 <? len eb) then None
      else if BitLen (SetBytes nb) <? minRSABits then None
      else if (SetBytes eb <? 3) || Z.even (SetBytes eb) then None
      else Some (RSAKey (SetBytes nb) (SetBytes eb))
  | _, _ => None
  end.

(** One iteration of the loop of [refresh]. *)
Definition add_entry (fresh : gmap string jwksKey) (k : jwksEntry) : gmap string jwksKey :=
  if negb (en_use k =? "")%string && negb (en_use k =? "sig")%string then fresh
  else
    let parsed :=
      if (en_kty k =? "OKP")%string && (en_crv k =? "Ed25519")%string then Some (parseEd25519JWK (en_x k))
      else if (en_kty k =? "EC")%string && (en_crv k =? "P-256")%string then Some (parseP256JWK (en_x k) (en_y k))
      else if (en_kty k =? "RSA")%string then Some (parseRSAJWK (en_n k) (en_e k))
      else None in
    match parsed with
    | None | Some None => fresh
    | Some (Some pub) => if (en_kid k =? "")%string then fresh else <[en_kid k := mkJwksKey pub (en_alg k)]> fresh
    end.

(** [fetched] is the parsed document the server sent, [None] for any failure before that; [t1] is the clock at
    the throttle, [t2] at the end. [true] means no error. *)
Definition refresh (c : jwksCache) (fetched : option (list jwksEntry)) (t1 t2 : Z) : jwksCache * bool :=
  if (Sub t1 (jc_last c) <? jc_min_refresh c) && negb (bool_decide (jc_keys c = ∅)) then (c, true)
  else match fetched with
  | None => (c, false)
  | Some doc =>
      let fresh := fold_left add_entry doc ∅ in
      if bool_decide (fresh = ∅) then (c, false)
      else (mkJwks (jc_ttl c) (jc_min_refresh c) (jc_max_stale c) fresh t2, true)
  end.

(** The clock readings of a lookup: for staleness, the two of [refresh], and after a failed refresh. *)
Record key_times := mkKeyTimes { kt_stale : Z; kt_throttle : Z; kt_fetched : Z; kt_failed : Z }.

Definition slow_lookup (c : jwksCache) (fetched : option (list jwksEntry)) (t : key_times) (kid : string)
  : jwksCache * result mcp_error jwksKey :=
  match refresh c fetched (kt_throttle t) (kt_fetched t) with
  | (c, false) =>
      match jc_keys c !! kid with
      | Some pub => if Sub (kt_failed t) (jc_last c) <=? staleLimit c then (c, Ok pub) else (c, Err EFetchKeys)
      | None => (c, Err EFetchKeys)
      end
  | (c, true) =>
      match jc_keys c !! kid with Some pub => (c, Ok pub) | None => (c, Err EUnknownKid) end
  end.

Definition jwks_lookup (c : jwksCache) (fetched : option (list jwksEntry)) (t : key_times) (kid : string)
  : jwksCache * result mcp_error jwksKey :=
  let stale := jc_ttl c <? Sub (kt_stale t) (jc_last c) in
  match jc_keys c !! kid with
  | Some pub => if negb stale then (c, Ok pub) else slow_lookup c fetched t kid
  | None => slow_lookup c fetched t kid
  end.

Definition Key (c : jwksCache) (fetched : option (list jwksEntry)) (t : key_times) (kid alg : string)
  : jwksCache * result mcp_error PublicKey :=
  match jwks_lookup c fetched t kid with
  | (c, Err e) => (c, Err e)
  | (c, Ok k) =>
      if negb (jk_alg k =? "")%string && negb (jk_alg k =? alg)%string then (c, Err EPinnedAlg) else (c, Ok (jk_key k))
  end.

(** ** Verification of a token ([jwt.go]) *)

Definition verifyTokenSignature (alg : string) (key : PublicKey) (signingInput sig : string) : result mcp_error unit :=
  if (alg =? "EdDSA")%string then
    match key with
    | Ed25519Key pub =>
        if negb (len pub =? 32) then Err EKeyType
        else if ed25519_verify pub signingInput sig then Ok tt else Err ESignatureMismatch
    | _ => Err EKeyType
    end
  else if (alg =? "ES256")%string then
    match key with
    | ECKey P256 x y =>
        if negb (len sig =? 64) then Err ESignatureLength
        else if ecdsa_verify P256 x y (sha256 signingInput) (SetBytes (String.substring 0 32 sig)) (SetBytes (String.substring 32 32 sig))
        then Ok tt else Err ESignatureMismatch
    | _ => Err EKeyType
    end
  else if (alg =? "RS256")%string then
    match key with
    | RSAKey n e =>
        if BitLen n <? minRSABits then Err EKeyTooSmall
        else if rsa_pkcs1v15 n e (sha256 signingInput) sig then Ok tt else Err ESignatureMismatch
    | _ => Err EKeyType
    end
  else Err EUnsupportedAlg.

Definition supported_alg (alg : string) : bool := bool_decide (alg ∈ ["EdDSA"; "ES256"; "RS256"]).

(** The time and audience checks on the claims. *)
Definition claims_valid (c : claims) (expectedAud : string) (now skew : Z) : result mcp_error unit :=
  if (rc_exp c =? 0) || Before (time_unix (rc_exp c)) (now - skew) then Err EExpired
  else if negb (rc_nbf c =? 0) && After (time_unix (rc_nbf c)) (now + skew) then Err ENotYetValid
  else if negb (rc_iat c =? 0) && After (time_unix (rc_iat c)) (now + skew) then Err EIatFuture
  else if negb (expectedAud =? "")%string && negb (aud_contains (rc_aud c) expectedAud) then Err EAudience
  else Ok tt.

Context `{McpLib}.

Definition verifyJWT (c : jwksCache) (fetched : option (list jwksEntry)) (t : key_times) (token expectedAud : string)
  (now skew : Z) (allowMissingTyp : bool) : jwksCache * result mcp_error claims :=
  match split_dots "" token with
  | [p0; p1; p2] =>
      match b64_decode p0 with
      | None => (c, Err EHeaderDecode)
      | Some headerBytes =>
          match decode_jwt_header headerBytes with
          | None => (c, Err EHeaderParse)
          | Some h =>
              if negb (supported_alg (jh_alg h)) then (c, Err EUnsupportedAlg)
              else if (jh_typ h =? "")%string && negb allowMissingTyp then (c, Err EMissingTyp)
              else if negb (jh_typ h =? "")%string && negb (jh_typ h =? "at+jwt")%string then (c, Err EUnsupportedTyp)
              else if (jh_kid h =? "")%string then (c, Err EMissingKid)
              else match Key c fetched t (jh_kid h) (jh_alg h) with
              | (c, Err e) => (c, Err e)
              | (c, Ok key) =>
                  match b64_decode p2 with
                  | None => (c, Err ESignatureDecode)
                  | Some sig =>
                      match verifyTokenSignature (jh_alg h) key (p0 +:+ "." +:+ p1) sig with
                      | Err e => (c, Err e)
                      | Ok _ =>
                          match b64_decode p1 with
                          | None => (c, Err EPayloadDecode)
                          | Some payloadBytes =>
                              match decode_jwt_claims payloadBytes with
                              | None => (c, Err EPayloadParse)
                              | Some cl =>
                                  match claims_valid cl expectedAud now skew with
                                  | Err e => (c, Err e)
                                  | Ok _ => (c, Ok cl)
                                  end
                              end
                          end
                      end
                  end
              end
          end
      end
  | _ => (c, Err ESegments)
  end.
End Keys.

(** ** The principal ([middleware.go]) *)

(** The loop, then the reversal in place. *)
Definition flattenChain (a : Actor) : list string := rev (actor_links a).

Definition splitScope (s : string) : list string := if (s =? "")%string then [] else Fields s.

Definition unix (t : Z) : Z := if t =? 0 then 0 else time_unix t.

Definition principalFromClaims (c : claims) : Principal :=
  let chain := match rc_act c with Some a => flattenChain a | None => [] end in
  mkPrincipal (rc_sub c) (match chain with a :: _ => a | [] => rc_sub c end) chain (splitScope (rc_scope c)) (rc_client c)
    (unix (rc_iat c)) (unix (rc_exp c)) (rc_iss c) (aud_first (rc_aud c)) (rc_aud c) (rc_acr c) (rc_amr c)
    (unix (rc_auth_time c)) (rc_jti c) (rc_device c) (rc_grant c) "" [].

Definition set_audience (p : Principal) (aud : string) : Principal :=
  mkPrincipal (p_subject p) (p_actor p) (p_actor_chain p) (p_scope p) (p_client p) (p_issued_at p) (p_expires_at p)
    (p_issuer p) aud (p_audiences p) (p_acr p) (p_amr p) (p_auth_time p) (p_jti p) (p_device p) (p_grant p)
    (p_cnf_jkt p) (p_details p).
Definition set_details (p : Principal) (d : list Detail) : Principal :=
  mkPrincipal (p_subject p) (p_actor p) (p_actor_chain p) (p_scope p) (p_client p) (p_issued_at p) (p_expires_at p)
    (p_issuer p) (p_audience p) (p_audiences p) (p_acr p) (p_amr p) (p_auth_time p) (p_jti p) (p_device p) (p_grant p)
    (p_cnf_jkt p) d.
Definition set_jkt (p : Principal) (jkt : string) : Principal :=
  mkPrincipal (p_subject p) (p_actor p) (p_actor_chain p) (p_scope p) (p_client p) (p_issued_at p) (p_expires_at p)
    (p_issuer p) (p_audience p) (p_audiences p) (p_acr p) (p_amr p) (p_auth_time p) (p_jti p) (p_device p) (p_grant p)
    jkt (p_details p).

(** ** Introspection ([introspect.go]) *)

Record introspectionResult := mkIntrospection {
  in_active : bool; in_scope : string; in_client : string; in_token_type : string; in_exp : Z; in_iat : Z;
  in_sub : string; in_aud : list string; in_iss : string; in_jti : string; in_act : option Actor; in_grant : string;
  in_device : string; in_acr : string; in_amr : list string; in_auth_time : Z; in_cnf : option string; in_details : string;
}.

Definition inactive_result : introspectionResult :=
  mkIntrospection false "" "" "" 0 0 "" [] "" "" None "" "" "" [] 0 None "".

Record introspectCacheEntry := mkICEntry { ic_expires : Z; ic_result : introspectionResult }.
Abbreviation ICache := (gmap string introspectCacheEntry).

Definition maxIntrospectEntries : Z := 10000.

(** The clock readings of a lookup: at the hit, at the second look under the write lock, at the sweep and at
    the insertion. *)
Record lookup_times := mkLookupTimes { lt_hit : Z; lt_again : Z; lt_sweep : Z; lt_insert : Z }.

Section Introspect.
Context `{DpopLib} (range : ICache -> list string).

Definition tokenHash (token : string) : string := hex_encode (sha256 token).
Definition cacheKey (token audience : string) : string := tokenHash token +:+ ":" +:+ audience.

(** The second loop of [evictLocked]. *)
Fixpoint evict_some (keys : list string) (m : ICache) : ICache :=
  match keys with
  | [] => m
  | k :: keys => if Z.of_nat (size m) <? maxIntrospectEntries then m else evict_some keys (delete k m)
  end.

Definition evictLocked (m : ICache) (now : Z) : ICache :=
  if Z.of_nat (size m) <? maxIntrospectEntries then m
  else
    let m := filter (fun ke => Before now (ic_expires ke.2) = true) m in
    evict_some (range m) m.

(** [fetched] is the answer to a fetch with the lifetime the server asked for, [None] for an error; [uri] the
    configured endpoint. *)
Definition Lookup (uri : string) (ttl : Z) (m : ICache) (t : lookup_times) (fetched : option (introspectionResult * Z))
  (token audience : string) : ICache * result mcp_error introspectionResult :=
  if (uri =? "")%string then (m, Ok inactive_result)
  else
    let key := cacheKey token audience in
    let hit now := match m !! key with
                   | Some e => if Before now (ic_expires e) then Some (ic_result e) else None
                   | None => None
                   end in
    match hit (lt_hit t) with
    | Some r => (m, Ok r)
    | None =>
        match fetched with
        | None => (m, Err EIntrospect)
        | Some (res, asked) =>
            let life := if asked <=? 0 then ttl else asked in
            match hit (lt_again t) with
            | Some r => (m, Ok r)
            | None => (<[key := mkICEntry (lt_insert t + life) res]> (evictLocked m (lt_sweep t)), Ok res)
            end
        end
    end.

Definition Invalidate (m : ICache) (token : string) : ICache :=
  filter (fun ke => String.prefix (tokenHash token +:+ ":") ke.1 = false) m.
End Introspect.

(** ** The validator ([validator.go], [revocation.go], [opaque.go], [middleware.go]) *)

(** [deviceIntrospectionChecker] is built in; any other checker answers [None] for an error. *)
Inductive RevocationChecker :=
  | NoChecker
  | CustomChecker (IsRevoked : string -> Principal -> option bool)
  | DeviceIntrospection.

Record Validator := mkValidator {
  va_resource : string; va_jwks_uri : string; va_introspect_uri : string; va_cache_ttl : Z; va_skew : Z;
  va_allow_missing_typ : bool; va_revocation : RevocationChecker; va_fail_open : bool; va_opaque : bool;
}.

(** What changes between requests. *)
Record VState := mkVState { vs_jwks : jwksCache; vs_introspect : ICache; vs_dpop : option dpopVerifier }.

Record Options := mkOptions {
  op_jwks_uri : string; op_introspect_uri : string; op_cache_ttl : Z; op_skew : Z; op_allow_missing_typ : bool;
  op_max_stale : Z; op_dpop : option (list string * Z * Z); op_revocation : RevocationChecker; op_fail_open : bool;
  op_opaque : bool;
}.

(** [New] with its options applied: those that take a duration ignore one that is not positive. *)
Definition mcp_New (resourceURI : string) (o : Options) : Validator * VState :=
  let ttl := if 0 <? op_cache_ttl o then op_cache_ttl o else 60 * Second in
  let skew := if 0 <? op_skew o then op_skew o else 60 * Second in
  let stale := if 0 <? op_max_stale o then op_max_stale o else Hour in
  (mkValidator resourceURI (op_jwks_uri o) (op_introspect_uri o) ttl skew (op_allow_missing_typ o) (op_revocation o)
     (op_fail_open o) (op_opaque o),
   mkVState (mkJwks ttl (5 * Second) stale ∅ 0) ∅
     (match op_dpop o with Some (algs, maxAge, window) => Some (newDPoPVerifier algs maxAge skew window) | None => None end)).

(** [true] when the configuration can serve requests. *)
Definition validateConfig (v : Validator) : bool :=
  negb (va_resource v =? "")%string
  && (negb (va_jwks_uri v =? "")%string || (va_opaque v && negb (va_introspect_uri v =? "")%string)).

Record Request := mkRequest {
  hr_method : string; hr_authorization : string; hr_dpop : string; hr_tls : bool; hr_xfp : string; hr_xfh : string;
  hr_host : string; hr_path : string;
}.

Definition requestURL (r : Request) : string :=
  let scheme := if hr_tls r then "https" else "http" in
  let scheme := if (hr_xfp r =? "")%string then scheme else hr_xfp r in
  let host := if (hr_xfh r =? "")%string then hr_host r else hr_xfh r in
  scheme +:+ "://" +:+ host +:+ hr_path r.

(** What happens around one request: the time, the fetches of keys and introspection answers with their clock
    readings, and the clock of the DPoP memory. Two lookups of one request may see different answers. *)
Record AuthEnv := mkAuthEnv {
  ae_now : Z; ae_keys : option (list jwksEntry); ae_key_times : key_times;
  ae_revocation_answer : option (introspectionResult * Z); ae_revocation_times : lookup_times;
  ae_chain_answer : option (introspectionResult * Z); ae_chain_times : lookup_times;
  ae_jti_clock : Z;
}.

Definition isBase64URL (c : ascii) : bool :=
  let b := byte_val c in
  ((97 <=? b) && (b <=? 122)) || ((65 <=? b) && (b <=? 90)) || ((48 <=? b) && (b <=? 57)) || (b =? 45) || (b =? 95).

Fixpoint jwt_shape (l : list ascii) (dots segLen : Z) : bool :=
  match l with
  | [] => (dots =? 2) && (0 <? segLen)
  | c :: l' =>
      if Ascii.eqb c "." then if segLen =? 0 then false else jwt_shape l' (dots + 1) 0
      else if isBase64URL c then jwt_shape l' dots (segLen + 1) else false
  end.

Definition looksLikeJWT (token : string) : bool :=
  String.prefix "eyJ" token && jwt_shape (list_ascii_of_string token) 0 0.

Definition maxOpaqueTokenLen : Z := 2048.

Definition validOpaqueChars (token : string) : bool :=
  if (token =? "")%string || (maxOpaqueTokenLen <? len token) then false
  else forallb (fun c => isBase64URL c || existsb (Ascii.eqb c) ["."; "~"; "+"; "/"; "="]%char) (list_ascii_of_string token).

Section Validate.
Context `{DpopLib} `{McpDpopLib} `{McpLib} (range : ICache -> list string).

Definition parseAuthorizationDetails (raw : string) : option (list Detail) :=
  if (raw =? "")%string || (raw =? "null")%string then Some []
  else match decode_details raw with
  | None => None
  | Some items => if existsb (fun d => (dt_type d =? "")%string) items then None else Some items
  end.

Definition bindDPoP (v : Validator) (s : VState) (e : AuthEnv) (r : Request) (token scheme wantJKT : string)
  : VState * result mcp_error string :=
  match vs_dpop s with
  | None => (s, Err (EDPoP errDPoPMissingHeader))
  | Some d =>
      if negb (EqualFold scheme "dpop") then (s, Err (EDPoP errDPoPMissingHeader))
      else if (hr_dpop r =? "")%string then (s, Err (EDPoP errDPoPMissingHeader))
      else
        match verifyAndBind d (hr_dpop r) (mkDParams (hr_method r) (requestURL r) token wantJKT (ae_now e)) (ae_now e) (ae_jti_clock e) with
        | (d, Ok jkt) => (mkVState (vs_jwks s) (vs_introspect s) (Some d), Ok jkt)
        | (d, Err err) => (mkVState (vs_jwks s) (vs_introspect s) (Some d), Err (EDPoP err))
        end
  end.

Definition with_introspect (s : VState) (m : ICache) : VState := mkVState (vs_jwks s) m (vs_dpop s).

(** [IsRevoked] of the configured checker; [None] is an error. *)
Definition IsRevoked (v : Validator) (s : VState) (e : AuthEnv) (token : string) (p : Principal) : VState * option bool :=
  match va_revocation v with
  | NoChecker => (s, Some false)
  | CustomChecker f => (s, f token p)
  | DeviceIntrospection =>
      if (p_device p =? "")%string then (s, Some false)
      else if (va_introspect_uri v =? "")%string then (s, None)
      else match Lookup range (va_introspect_uri v) (va_cache_ttl v) (vs_introspect s) (ae_revocation_times e)
                   (ae_revocation_answer e) token (va_resource v) with
      | (m, Err _) => (with_introspect s m, None)
      | (m, Ok res) => if in_active res then (with_introspect s m, Some false)
                       else (with_introspect s (Invalidate m token), Some true)
      end
  end.

Definition checkRevocation (v : Validator) (s : VState) (e : AuthEnv) (token : string) (p : Principal)
  : VState * result mcp_error unit :=
  match IsRevoked v s e token p with
  | (s, None) => (s, if va_fail_open v then Ok tt else Err ERevocationCheck)
  | (s, Some true) => (s, Err ERevoked)
  | (s, Some false) => (s, Ok tt)
  end.

Definition named (v : Validator) (p : Principal) : Principal :=
  if (va_resource v =? "")%string then p else set_audience p (va_resource v).

Definition opaque_claims (res : introspectionResult) : claims :=
  mkRClaims (in_iss res) (in_sub res) (in_aud res) (in_exp res) (in_iat res) 0 (in_jti res) (in_client res) (in_scope res) ""
    (in_act res) (in_grant res) (in_device res) (in_acr res) (in_auth_time res) (in_amr res) (in_details res) None.

(** The checks of [authenticateOpaque] on the answer. *)
Definition opaque_valid (v : Validator) (res : introspectionResult) (now : Z) : result mcp_error unit :=
  let tt_ := ToLower (in_token_type res) in
  if negb (in_active res) then Err EOpaqueInactive
  else if negb (tt_ =? "")%string && negb (tt_ =? "bearer")%string && negb (tt_ =? "dpop")%string then Err ETokenType
  else if (in_exp res =? 0) || Before (time_unix (in_exp res)) (now - va_skew v) then Err EExpired
  else if negb (in_iat res =? 0) && After (time_unix (in_iat res)) (now + va_skew v) then Err EIatFuture
  else if negb (va_resource v =? "")%string && negb (aud_contains (in_aud res) (va_resource v)) then Err EAudience
  else Ok tt.

(** Binding to a proof when the token names a key, then the revocation check. *)
Definition bind_and_check (v : Validator) (s : VState) (e : AuthEnv) (r : Request) (token scheme jkt : string) (p : Principal)
  : VState * result mcp_error Principal :=
  let '(s, bound) := if (jkt =? "")%string then (s, Ok p)
                     else match bindDPoP v s e r token scheme jkt with
                          | (s, Ok j) => (s, Ok (set_jkt p j))
                          | (s, Err err) => (s, Err err)
                          end in
  match bound with
  | Err err => (s, Err err)
  | Ok p =>
      match checkRevocation v s e token p with
      | (s, Err err) => (s, Err err)
      | (s, Ok _) => (s, Ok p)
      end
  end.

Definition authenticateOpaque (v : Validator) (s : VState) (e : AuthEnv) (r : Request) (token scheme : string)
  : VState * result mcp_error Principal :=
  if (va_introspect_uri v =? "")%string then (s, Err EOpaqueNoIntrospection)
  else if negb (validOpaqueChars token) then (s, Err EOpaqueMalformed)
  else match Lookup range (va_introspect_uri v) (va_cache_ttl v) (vs_introspect s) (ae_chain_times e) (ae_chain_answer e)
               token (va_resource v) with
  | (m, Err err) => (with_introspect s m, Err err)
  | (m, Ok res) =>
      let s := with_introspect s m in
      match opaque_valid v res (ae_now e) with
      | Err err => (s, Err err)
      | Ok _ =>
          match parseAuthorizationDetails (in_details res) with
          | None => (s, Err EDetails)
          | Some details =>
              let p := set_details (named v (principalFromClaims (opaque_claims res))) details in
              let jkt := default "" (in_cnf res) in
              if (jkt =? "")%string && EqualFold (in_token_type res) "dpop" then (s, Err EDPoPWithoutJKT)
              else bind_and_check v s e r token scheme jkt p
          end
      end
  end.

(** The last step of [authenticate]: a token with a chain or a grant is introspected. *)
Definition chain_check (v : Validator) (s : VState) (e : AuthEnv) (token : string) (cl : claims) (p : Principal)
  : VState * result mcp_error Principal :=
  if bool_decide (is_Some (rc_act cl)) || negb (rc_grant cl =? "")%string then
    match Lookup range (va_introspect_uri v) (va_cache_ttl v) (vs_introspect s) (ae_chain_times e) (ae_chain_answer e)
            token (va_resource v) with
    | (m, Err err) => (with_introspect s m, Err err)
    | (m, Ok res) =>
        if negb (in_active res) then (with_introspect s (Invalidate m token), Err EInactiveChain)
        else match p_details p with
        | [] => match parseAuthorizationDetails (in_details res) with
                | None => (with_introspect s m, Err EDetails)
                | Some d => (with_introspect s m, Ok (set_details p d))
                end
        | _ => (with_introspect s m, Ok p)
        end
    end
  else (s, Ok p).

Definition authenticate (v : Validator) (s : VState) (e : AuthEnv) (r : Request) (token scheme : string)
  : VState * result mcp_error Principal :=
  if va_opaque v && negb (looksLikeJWT token) then authenticateOpaque v s e r token scheme
  else match verifyJWT (vs_jwks s) (ae_keys e) (ae_key_times e) token (va_resource v) (ae_now e) (va_skew v) (va_allow_missing_typ v) with
  | (j, Err err) => (mkVState j (vs_introspect s) (vs_dpop s), Err err)
  | (j, Ok cl) =>
      let s := mkVState j (vs_introspect s) (vs_dpop s) in
      match parseAuthorizationDetails (rc_details cl) with
      | None => (s, Err EDetails)
      | Some details =>
          let p := set_details (named v (principalFromClaims cl)) details in
          match bind_and_check v s e r token scheme (default "" (rc_cnf cl)) p with
          | (s, Err err) => (s, Err err)
          | (s, Ok p) => chain_check v s e token cl p
          end
      end
  end.

(** [extractToken] *)
Definition extractToken (h : string) : string * string :=
  if (h =? "")%string then ("", "")
  else
    let lower := ToLower h in
    if String.prefix "bearer " lower then (TrimSpace (String.substring 7 (String.length h - 7) h), "Bearer")
    else if String.prefix "dpop " lower then (TrimSpace (String.substring 5 (String.length h - 5) h), "DPoP")
    else ("", "").

Inductive Response :=
  | Unauthorized (e : option mcp_error) | UnauthorizedDPoP (e : mcp_error) | Serve (p : Principal) | Panicked.

Definition isDPoPProofError (e : mcp_error) : bool :=
  match e with EDPoP errRequestURL | EDPoP MPanic => false | EDPoP _ => true | _ => false end.

Definition Middleware (v : Validator) (s : VState) (e : AuthEnv) (r : Request) : VState * Response :=
  if negb (validateConfig v) then (s, Unauthorized None)
  else
    let '(token, scheme) := extractToken (hr_authorization r) in
    if (token =? "")%string then (s, Unauthorized None)
    else match authenticate v s e r token scheme with
    | (s, Ok p) => (s, Serve p)
    | (s, Err (EDPoP MPanic)) => (s, Panicked)
    | (s, Err err) => (s, if isDPoPProofError err then UnauthorizedDPoP err else Unauthorized (Some err))
    end.
End Validate.

(** ** Scopes and step-up ([scope.go]) *)

Definition hasAllScopes (have need : list string) : bool := forallb (fun s => bool_decide (s ∈ have)) need.

Record StepUp := mkStepUp { su_acr_values : list string; su_max_age : Z }.

Definition Satisfied (s : StepUp) (p : Principal) (now : Z) : bool :=
  (bool_decide (su_acr_values s = []) || existsb (fun a => negb (p_acr p =? "")%string && (p_acr p =? a)%string) (su_acr_values s))
  && negb ((0 <? su_max_age s) && (IsZero (p_auth_time p) || (su_max_age s <? Sub now (p_auth_time p)))).

(** [RequireScope] and [RequireStepUp] on a request with its principal: [true] runs the handler. *)
Definition RequireScope (scopes : list string) (p : option Principal) : bool :=
  match p with Some p => hasAllScopes (p_scope p) scopes | None => false end.
Definition RequireStepUp (s : StepUp) (p : option Principal) (now : Z) : bool :=
  match p with Some p => Satisfied s p now | None => false end.

(** ** Key rotation *)

Section KeyRuns.
Context `{DpopLib}.

(** Lookups one after another, each with the fetched document and the clock readings it meets. *)
Record key_call := mkKeyCall { kc_doc : option (list jwksEntry); kc_times : key_times; kc_kid : string }.

Definition key_run (c : jwksCache) (ls : list key_call) : jwksCache :=
  fold_left (fun c l => (jwks_lookup c (kc_doc l) (kc_times l) (kc_kid l)).1) ls c.

(** How long a key may be served after the document it came from was fetched. *)
Definition key_lifetime (c : jwksCache) : Z := Z.max (jc_ttl c) (Z.max (jc_min_refresh c) (staleLimit c)).

(** The document does not have the key. *)
Definition lacks (kid : string) (doc : option (list jwksEntry)) : Prop :=
  match doc with Some d => Forall (fun k => en_kid k ≠ kid) d | None => True end.

Lemma fold_add_entry_lacks kid doc m :
  Forall (fun k => en_kid k ≠ kid) doc -> m !! kid = None -> fold_left add_entry doc m !! kid = None.
Proof.
  intros Hd. revert m. induction Hd as [|k doc Hk Hd IH]; intros m Hm; [done|]. simpl. apply IH. unfold add_entry.
  repeat case_match; try done; by rewrite lookup_insert_ne.
Qed.

(** The cache has no document fetched after [T] with the key. *)
Definition rotated (T : Z) (kid : string) (c : jwksCache) : Prop := jc_last c <= T ∨ jc_keys c !! kid = None.

Lemma refresh_rotated T kid c doc t1 t2 :
  lacks kid doc -> rotated T kid c -> rotated T kid (refresh c doc t1 t2).1.
Proof.
  intros Hl Hr. unfold refresh. destruct (_ && _); [done|]. destruct doc as [doc|]; [|done]. case_bool_decide; [done|].
  right. simpl. by apply fold_add_entry_lacks.
Qed.

Lemma refresh_config c doc t1 t2 :
  jc_ttl (refresh c doc t1 t2).1 = jc_ttl c ∧ jc_min_refresh (refresh c doc t1 t2).1 = jc_min_refresh c
  ∧ jc_max_stale (refresh c doc t1 t2).1 = jc_max_stale c.
Proof. unfold refresh. by repeat case_match. Qed.

Lemma slow_lookup_state c doc t kid :
  (slow_lookup c doc t kid).1 = (refresh c doc (kt_throttle t) (kt_fetched t)).1.
Proof. unfold slow_lookup. destruct (refresh c doc _ _) as [c' []]; by repeat case_match. Qed.

Lemma lookup_state c doc t kid :
  (jwks_lookup c doc t kid).1 = c ∨ (jwks_lookup c doc t kid).1 = (refresh c doc (kt_throttle t) (kt_fetched t)).1.
Proof.
  unfold jwks_lookup. rewrite <- (slow_lookup_state c doc t kid). repeat case_match; auto.
Qed.

Lemma key_run_rotated T kid c ls :
  Forall (fun l => lacks kid (kc_doc l)) ls -> rotated T kid c ->
  rotated T kid (key_run c ls) ∧ key_lifetime (key_run c ls) = key_lifetime c.
Proof.
  intros Hl. revert c. induction Hl as [|l ls Hl Hls IH]; intros c Hr; [done|]. simpl.
  destruct (lookup_state c (kc_doc l) (kc_times l) (kc_kid l)) as [->| ->]; [by apply IH|].
  destruct (IH _ (refresh_rotated T kid c _ (kt_throttle (kc_times l)) (kt_fetched (kc_times l)) Hl Hr)) as [H1 H2].
  split; [done|]. rewrite H2. unfold key_lifetime, staleLimit.
  by destruct (refresh_config c (kc_doc l) (kt_throttle (kc_times l)) (kt_fetched (kc_times l))) as (-> & -> & ->).
Qed.

(** Every answer comes from a document that was just fetched, or from the cache while it is young. *)
Lemma slow_lookup_young c doc t kid k :
  (slow_lookup c doc t kid).2 = Ok k ->
  (∃ d, doc = Some d ∧ fold_left add_entry d ∅ !! kid = Some k)
  ∨ jc_keys c !! kid = Some k
    ∧ (Sub (kt_throttle t) (jc_last c) < jc_min_refresh c ∨ Sub (kt_failed t) (jc_last c) <= staleLimit c).
Proof.
  unfold slow_lookup, refresh. destruct (_ && _) eqn:Et.
  - apply andb_prop in Et as [Et _]. apply Z.ltb_lt in Et. destruct (jc_keys c !! kid) eqn:Ek; [|done].
    simpl. intros [= ->]. auto.
  - clear Et. destruct doc as [doc|]; [case_bool_decide|].
    + destruct (jc_keys c !! kid) eqn:Ek; [|done]. destruct (Z.leb_spec (Sub (kt_failed t) (jc_last c)) (staleLimit c)); [|done].
      simpl. intros [= ->]. auto.
    + cbn [jc_keys]. destruct (fold_left _ _ _ !! kid) eqn:Ef; [|done]. simpl. intros [= ->]. eauto.
    + destruct (jc_keys c !! kid) eqn:Ek; [|done]. destruct (Z.leb_spec (Sub (kt_failed t) (jc_last c)) (staleLimit c)); [|done].
      simpl. intros [= ->]. auto.
Qed.

Lemma lookup_young c doc t kid k :
  (jwks_lookup c doc t kid).2 = Ok k ->
  (∃ d, doc = Some d ∧ fold_left add_entry d ∅ !! kid = Some k)
  ∨ jc_keys c !! kid = Some k
    ∧ (Sub (kt_stale t) (jc_last c) <= key_lifetime c ∨ Sub (kt_throttle t) (jc_last c) <= key_lifetime c
       ∨ Sub (kt_failed t) (jc_last c) <= key_lifetime c).
Proof.
  assert (Hslow : (slow_lookup c doc t kid).2 = Ok k ->
    (∃ d, doc = Some d ∧ fold_left add_entry d ∅ !! kid = Some k)
    ∨ jc_keys c !! kid = Some k
      ∧ (Sub (kt_stale t) (jc_last c) <= key_lifetime c ∨ Sub (kt_throttle t) (jc_last c) <= key_lifetime c
         ∨ Sub (kt_failed t) (jc_last c) <= key_lifetime c)).
  { intros [?|[Hk [Hy|Hy]]]%slow_lookup_young; [by left|right; split; [done|]..]; unfold key_lifetime;
      [right; left; lia|right; right; lia]. }
  unfold jwks_lookup. destruct (jc_keys c !! kid) as [pub|] eqn:Ek; [|exact Hslow].
  destruct (Z.ltb_spec (jc_ttl c) (Sub (kt_stale t) (jc_last c))) as [Hs|Hs]; [exact Hslow|].
  simpl. intros [= ->]. right. split; [done|]. left. unfold key_lifetime. lia.
Qed.

Lemma Sub_bound t u b : Sub t u <= b -> b < max_int64 -> t - u <= b.
Proof. unfold Sub, max_int64, min_int64. lia. Qed.

(** A rotated key stops working. When, from some time on, no document the authorization server sends has
    a key identifier, tokens signed with it are refused once the longest of the refresh interval, the
    staleness limit and the refresh throttle has passed, whether the fetches in between succeed or fail. *)
Theorem rotated_key_refused c ls doc t kid T
  (Hgone : Forall (fun l => lacks kid (kc_doc l)) ls) (Hdoc : lacks kid doc)
  (Hlast : jc_last c <= T) (Hlife : key_lifetime c < max_int64)
  (Hlater : T + key_lifetime c < kt_stale t ∧ T + key_lifetime c < kt_throttle t ∧ T + key_lifetime c < kt_failed t) :
  ∃ e, (jwks_lookup (key_run c ls) doc t kid).2 = Err e.
Proof.
  destruct (key_run_rotated T kid c ls Hgone (or_introl Hlast)) as [Hrot Hsame].
  destruct (jwks_lookup (key_run c ls) doc t kid).2 as [k|e] eqn:El; [exfalso|by exists e].
  destruct (lookup_young _ _ _ _ _ El) as [(d & -> & Hd)|[Hk Hy]].
  { simpl in Hdoc. rewrite fold_add_entry_lacks in Hd; done. }
  destruct Hrot as [Hl|Hn]; [|congruence]. rewrite Hsame in Hy.
  destruct Hy as [Hy|[Hy|Hy]]; apply Sub_bound in Hy; lia.
Qed.
End KeyRuns.

(** ** Cached answers *)

Section CacheRuns.
Context `{DpopLib} (range : ICache -> list string) (uri : string) (ttl : Z).

Inductive cache_op :=
  | OLookup (token audience : string) (t : lookup_times) (answer : option (introspectionResult * Z))
  | OInvalidate (token : string).

Definition cache_step (m : ICache) (o : cache_op) : ICache :=
  match o with
  | OLookup token audience t answer => (Lookup range uri ttl m t answer token audience).1
  | OInvalidate token => Invalidate m token
  end.

Definition cache_run (m : ICache) (os : list cache_op) : ICache := fold_left cache_step os m.

Lemma evict_some_sub keys m k e : evict_some keys m !! k = Some e -> m !! k = Some e.
Proof.
  revert m. induction keys as [|k' keys IH]; intros m; simpl; [done|]. destruct (_ <? _); [done|].
  intros [_ Hm]%IH%lookup_delete_Some. done.
Qed.

Lemma evictLocked_sub m now k e : evictLocked range m now !! k = Some e -> m !! k = Some e.
Proof.
  unfold evictLocked. destruct (_ <? _); [done|]. intros Hm%evict_some_sub. by apply map_lookup_filter_Some in Hm as [? _].
Qed.

Lemma evict_some_size keys m :
  dom m ⊆ (list_to_set keys : gset string) -> Z.of_nat (size (evict_some keys m)) < maxIntrospectEntries.
Proof.
  revert m. induction keys as [|k keys IH]; intros m Hd; simpl in *.
  - assert (dom m = ∅) as Hm by set_solver. apply dom_empty_inv_L in Hm as ->. by rewrite map_size_empty.
  - destruct (Z.ltb_spec (Z.of_nat (size m)) maxIntrospectEntries); [done|]. apply IH. rewrite dom_delete_L. set_solver.
Qed.

(** A lookup answers from the cache while an entry lives, or with what the server just said. *)
Lemma Lookup_spec m t answer token audience :
  let '(m', r) := Lookup range uri ttl m t answer token audience in
  let key := cacheKey token audience in
  (m' = m ∧ (r = Ok inactive_result ∨ r = Err EIntrospect
      ∨ ∃ e, m !! key = Some e ∧ r = Ok (ic_result e) ∧ (lt_hit t < ic_expires e ∨ lt_again t < ic_expires e)))
  ∨ ∃ res asked, answer = Some (res, asked) ∧ r = Ok res
      ∧ m' = <[key := mkICEntry (lt_insert t + (if asked <=? 0 then ttl else asked)) res]> (evictLocked range m (lt_sweep t)).
Proof.
  unfold Lookup. destruct (uri =? "")%string; [by left; auto|].
  destruct (m !! cacheKey token audience) as [e|] eqn:Em.
  - unfold Before. destruct (Z.ltb_spec (lt_hit t) (ic_expires e)) as [Hh|Hh]; [left; eauto 10|].
    destruct answer as [[res asked]|]; [|left; auto].
    destruct (Z.ltb_spec (lt_again t) (ic_expires e)) as [Ha|Ha]; [left; eauto 10|right; eauto 10].
  - destruct answer as [[res asked]|]; [|left; auto]. right. eauto 10.
Qed.

(** The cache of introspection answers never holds more than its limit of ten thousand entries, for any
    sequence of lookups and invalidations and whatever order the map is walked in. *)
Theorem introspect_cache_bounded os
  (Hrange : ∀ m, dom m ⊆ (list_to_set (range m) : gset string)) :
  Z.of_nat (size (cache_run ∅ os)) <= maxIntrospectEntries.
Proof.
  assert (Hg : ∀ m, Z.of_nat (size m) <= maxIntrospectEntries -> Z.of_nat (size (cache_run m os)) <= maxIntrospectEntries).
  { induction os as [|o os IH]; intros m Hm; [done|]. simpl. apply IH. destruct o as [token audience t answer|token]; simpl.
    - pose proof (Lookup_spec m t answer token audience) as Hs.
      destruct (Lookup range uri ttl m t answer token audience) as [m' r]. simpl in *.
      destruct Hs as [[-> _]|(res & asked & _ & _ & ->)]; [done|].
      assert (Z.of_nat (size (evictLocked range m (lt_sweep t))) < maxIntrospectEntries).
      { unfold evictLocked. destruct (Z.ltb_spec (Z.of_nat (size m)) maxIntrospectEntries); [done|]. apply evict_some_size, Hrange. }
      rewrite map_size_insert. destruct (_ !! _); simpl; lia.
    - unfold Invalidate. etrans; [|exact Hm]. apply Nat2Z.inj_le, map_subseteq_size, map_filter_subseteq. }
  apply Hg. by rewrite map_size_empty.
Qed.

(** [op] stores answers no later than [T], for no longer than [L]. *)
Definition stored_before (T L : Z) (o : cache_op) : Prop :=
  match o with
  | OLookup _ _ t (Some (_, asked)) => lt_insert t <= T ∧ (if asked <=? 0 then ttl else asked) <= L
  | _ => True
  end.

(** The server no longer calls the token active. *)
Definition answered_inactive (answer : option (introspectionResult * Z)) : Prop :=
  match answer with Some (res, _) => in_active res = false | None => True end.
Definition inactive_after (token audience : string) (o : cache_op) : Prop :=
  match o with
  | OLookup tk au _ answer => cacheKey tk au = cacheKey token audience -> answered_inactive answer
  | OInvalidate _ => True
  end.

(** Entries that call the token active expire by [X]. *)
Definition active_until (X : Z) (key : string) (m : ICache) : Prop :=
  ∀ e, m !! key = Some e -> in_active (ic_result e) = true -> ic_expires e <= X.

Lemma active_until_sub X key m m' : (∀ e, m' !! key = Some e -> m !! key = Some e) -> active_until X key m -> active_until X key m'.
Proof. intros Hs Ha e He. by apply Ha, Hs. Qed.

Lemma cache_step_active X token audience m o :
  (∃ T L, X = T + L ∧ stored_before T L o) ∨ inactive_after token audience o ->
  active_until X (cacheKey token audience) m -> active_until X (cacheKey token audience) (cache_step m o).
Proof.
  intros Ho Ha. destruct o as [tk au t answer|tk]; simpl.
  2: { eapply active_until_sub; [|exact Ha]. intros e He. by apply map_lookup_filter_Some in He as [? _]. }
  pose proof (Lookup_spec m t answer tk au) as Hs. destruct (Lookup range uri ttl m t answer tk au) as [m' r]. simpl in *.
  destruct Hs as [[-> _]|(res & asked & -> & _ & ->)]; [done|].
  intros e. rewrite lookup_insert_Some. intros [[Hk <-]|[_ He]]; simpl.
  - destruct Ho as [(T & L & -> & ? & ?)|Ho]; simpl in *; [lia|]. by rewrite (Ho Hk).
  - by apply Ha, (evictLocked_sub _ (lt_sweep t)).
Qed.

Lemma cache_run_active X token audience m os :
  Forall (fun o => (∃ T L, X = T + L ∧ stored_before T L o) ∨ inactive_after token audience o) os ->
  active_until X (cacheKey token audience) m -> active_until X (cacheKey token audience) (cache_run m os).
Proof.
  intros Ho. revert m. induction Ho as [|o os H1 H2 IH]; intros m Hm; [done|]. simpl. by apply IH, cache_step_active.
Qed.

(** A revoked delegation is noticed. Answers are cached until [T] for at most [L]; from then on the
    authorization server answers that the token is inactive, or not at all. From [T + L] on, a token that
    carries a delegation chain or a grant is refused. *)
Theorem revoked_chain_refused `{McpLib} os1 os2 v s e token cl p T L
  (Huri : va_introspect_uri v = uri) (Httl : va_cache_ttl v = ttl)
  (Hcache : vs_introspect s = cache_run ∅ (os1 ++ os2))
  (Hbefore : Forall (stored_before T L) os1) (Hafter : Forall (inactive_after token (va_resource v)) os2)
  (Hnow : T + L <= lt_hit (ae_chain_times e) ∧ T + L <= lt_again (ae_chain_times e))
  (Hanswer : answered_inactive (ae_chain_answer e))
  (Hchain : is_Some (rc_act cl) ∨ rc_grant cl ≠ "") :
  ∃ err, (chain_check range v s e token cl p).2 = Err err.
Proof.
  assert (Hact : active_until (T + L) (cacheKey token (va_resource v)) (vs_introspect s)).
  { rewrite Hcache. apply cache_run_active; [|by intros ? ?].
    apply Forall_app. split; (eapply Forall_impl; [eassumption|]); intros o Ho; eauto. }
  unfold chain_check.
  assert (bool_decide (is_Some (rc_act cl)) || negb (rc_grant cl =? "")%string = true) as ->.
  { apply orb_true_iff. destruct Hchain as [?|Hg]; [left; by apply bool_decide_eq_true_2|right].
    apply negb_true_iff. by apply String.eqb_neq. }
  rewrite Huri, Httl. pose proof (Lookup_spec (vs_introspect s) (ae_chain_times e) (ae_chain_answer e) token (va_resource v)) as Hs.
  destruct (Lookup _ _ _ _ _ _ _ _) as [m' r]. simpl in Hs.
  destruct r as [res|err]; [|by eexists].
  assert (Hoff : in_active res = false).
  { destruct Hs as [[_ [[= ->]|[?|(en & Hen & [= ->] & Hlt)]]]|(res' & asked & Ha & [= ->] & _)]; [done|done| |].
    - destruct (in_active (ic_result en)) eqn:Ea; [|done]. specialize (Hact en Hen Ea). lia.
    - rewrite Ha in Hanswer. done. }
  rewrite Hoff. by eexists.
Qed.
End CacheRuns.

(** ** What a served request establishes *)

Section Sound.
Context `{DpopLib} `{McpDpopLib} `{McpLib} (range : ICache -> list string).

(** A token the validator accepts as a JWT. *)
Record jwt_accepted (v : Validator) (s : VState) (e : AuthEnv) (token : string) (h : jwtHeader) (key : PublicKey) (cl : claims) : Prop := {
  ja_parts : ∃ p0 p1 p2 hb pb sig, split_dots "" token = [p0; p1; p2]
    ∧ b64_decode p0 = Some hb ∧ decode_jwt_header hb = Some h ∧ b64_decode p1 = Some pb ∧ decode_jwt_claims pb = Some cl
    ∧ b64_decode p2 = Some sig ∧ verifyTokenSignature (jh_alg h) key (p0 +:+ "." +:+ p1) sig = Ok tt;
  ja_alg : jh_alg h ∈ ["EdDSA"; "ES256"; "RS256"];
  ja_typ : jh_typ h = "at+jwt" ∨ jh_typ h = "" ∧ va_allow_missing_typ v = true;
  ja_key : (Key (vs_jwks s) (ae_keys e) (ae_key_times e) (jh_kid h) (jh_alg h)).2 = Ok key;
  ja_exp : rc_exp cl ≠ 0 ∧ ae_now e <= time_unix (rc_exp cl) + va_skew v;
  ja_nbf : rc_nbf cl ≠ 0 -> time_unix (rc_nbf cl) <= ae_now e + va_skew v;
  ja_iat : rc_iat cl ≠ 0 -> time_unix (rc_iat cl) <= ae_now e + va_skew v;
  ja_aud : va_resource v ∈ rc_aud cl;
}.

Lemma claims_valid_ok cl aud now skew :
  aud ≠ "" -> claims_valid cl aud now skew = Ok tt ->
  (rc_exp cl ≠ 0 ∧ now <= time_unix (rc_exp cl) + skew) ∧ (rc_nbf cl ≠ 0 -> time_unix (rc_nbf cl) <= now + skew)
  ∧ (rc_iat cl ≠ 0 -> time_unix (rc_iat cl) <= now + skew) ∧ aud ∈ rc_aud cl.
Proof.
  intros Ha. unfold claims_valid. go_time. apply String.eqb_neq in Ha as ->.
  destruct (Z.eqb_spec (rc_exp cl) 0); [done|]. destruct (Z.ltb_spec (time_unix (rc_exp cl)) (now - skew)); [done|].
  destruct (Z.eqb_spec (rc_nbf cl) 0); destruct (Z.ltb_spec (now + skew) (time_unix (rc_nbf cl))); try done; simpl;
  destruct (Z.eqb_spec (rc_iat cl) 0); destruct (Z.ltb_spec (now + skew) (time_unix (rc_iat cl))); try done; simpl;
  unfold aud_contains; case_bool_decide; try done; intros _; split_and!; (done || lia || (intros; lia)).
Qed.

Lemma verifyJWT_ok v s e token j cl :
  va_resource v ≠ "" ->
  verifyJWT (vs_jwks s) (ae_keys e) (ae_key_times e) token (va_resource v) (ae_now e) (va_skew v) (va_allow_missing_typ v) = (j, Ok cl) ->
  ∃ h key, jwt_accepted v s e token h key cl.
Proof.
  intros Hres. unfold verifyJWT. destruct (split_dots "" token) as [|p0 [|p1 [|p2 [|]]]] eqn:Esp; try done.
  destruct (b64_decode p0) as [hb|] eqn:E0; [|done]. destruct (decode_jwt_header hb) as [h|] eqn:Eh; [|done].
  unfold supported_alg. case_bool_decide as Halg; [|done]. cbn [negb].
  destruct ((jh_typ h =? "")%string && negb (va_allow_missing_typ v)) eqn:Et1; [done|].
  destruct (negb (jh_typ h =? "")%string && negb (jh_typ h =? "at+jwt")%string) eqn:Et2; [done|].
  destruct (String.eqb_spec (jh_kid h) ""); [done|].
  destruct (Key (vs_jwks s) (ae_keys e) (ae_key_times e) (jh_kid h) (jh_alg h)) as [j' [key|]] eqn:Ek; [|done].
  destruct (b64_decode p2) as [sig|] eqn:E2; [|done].
  destruct (verifyTokenSignature _ _ _ _) as [[]|] eqn:Es; [|done].
  destruct (b64_decode p1) as [pb|] eqn:E1; [|done]. destruct (decode_jwt_claims pb) as [cl'|] eqn:Ec; [|done].
  destruct (claims_valid _ _ _ _) as [[]|] eqn:Ev; [|done]. intros [= _ <-].
  apply claims_valid_ok in Ev as (? & ? & ? & ?); [|done].
  exists h, key. constructor; try done.
  - exists p0, p1, p2, hb, pb, sig. split_and!; done.
  - destruct (String.eqb_spec (jh_typ h) ""); destruct (String.eqb_spec (jh_typ h) "at+jwt"); simpl in *; auto; [|done].
    right. split; [done|]. by destruct (va_allow_missing_typ v).
  - by rewrite Ek.
Qed.

(** A token bound to a key comes with a proof by that key, for this request and token. *)
Definition proof_bound (v : Validator) (s : VState) (e : AuthEnv) (r : Request) (token scheme jkt : string) : Prop :=
  EqualFold scheme "dpop" = true ∧ ∃ d d', vs_dpop s = Some d
    ∧ verifyAndBind d (hr_dpop r) (mkDParams (hr_method r) (requestURL r) token jkt (ae_now e)) (ae_now e) (ae_jti_clock e) = (d', Ok jkt).

Lemma bindDPoP_ok v s e r token scheme jkt s' j :
  jkt ≠ "" -> bindDPoP v s e r token scheme jkt = (s', Ok j) ->
  j = jkt ∧ proof_bound v s e r token scheme jkt ∧ vs_introspect s' = vs_introspect s.
Proof.
  intros Hj. unfold bindDPoP, proof_bound. destruct (vs_dpop s) as [d|]; [|done].
  destruct (EqualFold scheme "dpop"); [|done]. destruct (hr_dpop r =? "")%string; [done|]. cbn [negb].
  destruct (verifyAndBind _ _ _ _ _) as [d' [j'|]] eqn:Ev; [|done]. intros [= <- <-].
  pose proof (verifyAndBind_ok _ _ _ _ _ _ _ Ev) as (hdr & claims & sig & input & jwk & can & _ & _ & _ & _ & _ & _ & _ & _ & _ & Hjkt).
  specialize (Hjkt Hj). simpl in Hjkt. subst j'. split_and!; eauto 6.
Qed.

(** A lookup that starts from the cache of [s] may answer [res] for the token: an entry of the cache that has not
    expired at the hit or at the second look, or what the authorization server sends. *)
Definition answers (v : Validator) (s : VState) (t : lookup_times) (fetched : option (introspectionResult * Z)) (token : string)
  (res : introspectionResult) : Prop :=
  (∃ en, vs_introspect s !! cacheKey token (va_resource v) = Some en ∧ ic_result en = res
     ∧ (lt_hit t < ic_expires en ∨ lt_again t < ic_expires en))
  ∨ ∃ asked, fetched = Some (res, asked).

Lemma Lookup_answers v s t fetched token m res :
  Lookup range (va_introspect_uri v) (va_cache_ttl v) (vs_introspect s) t fetched token (va_resource v) = (m, Ok res) ->
  in_active res = true -> answers v s t fetched token res.
Proof.
  intros Hl Ha. pose proof (Lookup_spec range (va_introspect_uri v) (va_cache_ttl v) (vs_introspect s) t fetched token (va_resource v)) as Hs.
  rewrite Hl in Hs. destruct Hs as [[_ [[= ->]|[?|(en & He & [= ->] & Ht)]]]|(r & asked & Hf & [= <-] & _)]; [done|done|left|right]; eauto.
Qed.

(** What a lookup leaves in the cache. *)
Lemma Lookup_entries v s t fetched token m r k en :
  Lookup range (va_introspect_uri v) (va_cache_ttl v) (vs_introspect s) t fetched token (va_resource v) = (m, r) ->
  m !! k = Some en -> vs_introspect s !! k = Some en ∨ ∃ asked, fetched = Some (ic_result en, asked).
Proof.
  intros Hl. pose proof (Lookup_spec range (va_introspect_uri v) (va_cache_ttl v) (vs_introspect s) t fetched token (va_resource v)) as Hs.
  rewrite Hl in Hs. destruct Hs as [[-> _]|(res & asked & Hf & _ & ->)]; [by left|].
  intros [[_ <-]|[_ Hk%evictLocked_sub]]%lookup_insert_Some; [right; eauto|by left].
Qed.

(** No objection of the configured checker to the token of [q]: a checker of the host says that it is not revoked; the
    device checker has nothing to ask for a token without a device, and otherwise an answer that calls the token
    active. A checker that fails is passed over only where the configuration fails open. *)
Definition unobjected (v : Validator) (s : VState) (e : AuthEnv) (token : string) (q : Principal) : Prop :=
  match va_revocation v with
  | NoChecker => True
  | CustomChecker f => f token q = Some false ∨ f token q = None ∧ va_fail_open v = true
  | DeviceIntrospection =>
      p_device q = ""
      ∨ (∃ res, answers v s (ae_revocation_times e) (ae_revocation_answer e) token res ∧ in_active res = true)
      ∨ va_fail_open v = true ∧ (va_introspect_uri v = "" ∨ ae_revocation_answer e = None)
  end.

Lemma Lookup_error uri ttl m t fetched token aud m' err :
  Lookup range uri ttl m t fetched token aud = (m', Err err) -> fetched = None.
Proof. unfold Lookup. destruct (_ =? _)%string; [done|]. cbv zeta. repeat case_match; intros; by simplify_eq. Qed.

Lemma checkRevocation_ok v s e token p s' :
  checkRevocation range v s e token p = (s', Ok tt) ->
  unobjected v s e token p
  ∧ ∀ k en, vs_introspect s' !! k = Some en -> vs_introspect s !! k = Some en ∨ ∃ asked, ae_revocation_answer e = Some (ic_result en, asked).
Proof.
  unfold checkRevocation, IsRevoked, unobjected. destruct (va_revocation v) as [|f|].
  - intros [= <-]. split; [done|by left].
  - destruct (f token p) as [[]|]; [done| |]; [intros [= <-]; split; [|by left]; by left|].
    destruct (va_fail_open v); [|done]. intros [= <-]. split; [|by left]. by right.
  - destruct (String.eqb_spec (p_device p) "") as [?|_]; [intros [= <-]; split; [|by left]; by left|].
    destruct (String.eqb_spec (va_introspect_uri v) "") as [Hu|_].
    { destruct (va_fail_open v); [|done]. intros [= <-]. split; [|by left]. right; right. by split; [|left]. }
    destruct (Lookup _ _ _ _ _ _ _ _) as [m [res|err]] eqn:El.
    + destruct (in_active res) eqn:Ea; [|done]. intros [= <-]. split; [right; left; eauto using Lookup_answers|].
      intros k en. simpl. by eapply Lookup_entries.
    + apply Lookup_error in El as Hn. destruct (va_fail_open v); [|done]. intros [= <-]. split; [right; right; by split; [|right]|].
      intros k en. simpl. by eapply Lookup_entries.
Qed.

(** A state with the same cache of answers. *)
Lemma unobjected_same v s s1 e token p : vs_introspect s1 = vs_introspect s -> unobjected v s1 e token p -> unobjected v s e token p.
Proof. intros Hs. unfold unobjected, answers. by rewrite Hs. Qed.

Lemma bind_and_check_ok v s e r token scheme jkt p s' p' :
  bind_and_check range v s e r token scheme jkt p = (s', Ok p') ->
  p' = (if (jkt =? "")%string then p else set_jkt p jkt) ∧ (jkt ≠ "" -> proof_bound v s e r token scheme jkt)
  ∧ unobjected v s e token p'
  ∧ ∀ k en, vs_introspect s' !! k = Some en -> vs_introspect s !! k = Some en ∨ ∃ asked, ae_revocation_answer e = Some (ic_result en, asked).
Proof.
  unfold bind_and_check. destruct (String.eqb_spec jkt "") as [->|Hj].
  - destruct (checkRevocation _ _ _ _ _ _) as [s1 [[]|]] eqn:Ec; [|done]. intros [= <- <-].
    apply checkRevocation_ok in Ec as [? ?]. by split_and!.
  - destruct (bindDPoP v s e r token scheme jkt) as [s1 [j|]] eqn:Eb; [|done].
    apply bindDPoP_ok in Eb as (-> & Hb & Hi); [|done].
    destruct (checkRevocation _ _ _ _ _ _) as [s2 [[]|]] eqn:Ec; [|done]. intros [= <- <-].
    apply checkRevocation_ok in Ec as [Hu Hc]. rewrite Hi in Hc. split_and!; [done..| |done]. by eapply unobjected_same.
Qed.

(** What the principal takes from the token. *)
Definition principal_of (p : Principal) (cl : claims) : Prop :=
  p_subject p = rc_sub cl ∧ p_actor p = p_actor (principalFromClaims cl) ∧ p_scope p = splitScope (rc_scope cl)
  ∧ p_client p = rc_client cl ∧ p_jti p = rc_jti cl.

Lemma chain_check_ok v s e token cl p s' p' :
  chain_check range v s e token cl p = (s', Ok p') ->
  (∃ d, p' = set_details p d ∧ (p_details p ≠ [] -> d = p_details p))
  ∧ (is_Some (rc_act cl) ∨ rc_grant cl ≠ "" ->
     ∃ res, answers v s (ae_chain_times e) (ae_chain_answer e) token res ∧ in_active res = true).
Proof.
  assert (Hself : p = set_details p (p_details p)) by (by destruct p).
  unfold chain_check. destruct (bool_decide (is_Some (rc_act cl)) || negb (rc_grant cl =? "")%string) eqn:Eb.
  - destruct (Lookup _ _ _ _ _ _ _ _) as [m [res|]] eqn:El; [|done]. destruct (in_active res) eqn:Ea; [|done]. cbn [negb].
    pose proof (Lookup_answers _ _ _ _ _ _ _ El Ea) as Hans. destruct (p_details p) as [|x l] eqn:Ed.
    + destruct (parseAuthorizationDetails _) as [d|]; [|done]. intros [= _ <-]. split; [by exists d|eauto].
    + intros [= _ <-]. split; [by exists (x :: l)|eauto].
  - intros [= _ <-]. split; [by exists (p_details p)|]. apply orb_false_elim in Eb as [E1 E2].
    apply bool_decide_eq_false_1 in E1. apply negb_false_iff, String.eqb_eq in E2. intros [?|?]; done.
Qed.

(** The answers after the revocation check come from the cache before it, from its own fetch, or from the later one. *)
Lemma answers_later v s s1 e token res :
  (∀ k en, vs_introspect s1 !! k = Some en -> vs_introspect s !! k = Some en ∨ ∃ asked, ae_revocation_answer e = Some (ic_result en, asked)) ->
  answers v s1 (ae_chain_times e) (ae_chain_answer e) token res ->
  answers v s (ae_chain_times e) (ae_chain_answer e) token res ∨ ∃ asked, ae_revocation_answer e = Some (res, asked).
Proof.
  intros Hs [(en & Hen & Hr & Ht)|Hf]; [|left; by right]. destruct (Hs _ _ Hen) as [Hold|[asked Ha]]; [left; left; by exists en|right].
  exists asked. by rewrite <- Hr.
Qed.

(** C18. What a served request establishes, for a validator of JWTs (opaque tokens off), in terms of the state [s] before
    the request and what was fetched during it. The token has an accepted algorithm and type, is signed by the key
    published under its identifier, is within its times up to the skew, and is meant for this resource. A token
    bound to a key came with a proof by that key for this request. The revocation checker had no objection: a
    custom checker said so of this principal, and the device checker, for a token with a device, had an answer that
    calls the token active, from an unexpired entry of the cache or from the server; a failing checker is passed over
    only with fail-open. A token with a delegation chain or a grant was called active by such an answer.
    The principal has the subject, client, scopes and details of the token. *)
Theorem served_request_sound v s e r s' p
  (Hjwt : va_opaque v = false) (Hserve : Middleware range v s e r = (s', Serve p)) :
  ∃ token scheme h key cl details,
    extractToken (hr_authorization r) = (token, scheme) ∧ jwt_accepted v s e token h key cl
    ∧ parseAuthorizationDetails (rc_details cl) = Some details
    ∧ principal_of p cl ∧ p_audience p = va_resource v ∧ (details ≠ [] -> p_details p = details)
    ∧ (∀ jkt, rc_cnf cl = Some jkt -> jkt ≠ "" -> p_cnf_jkt p = jkt ∧ proof_bound v s e r token scheme jkt)
    ∧ unobjected v s e token (set_details p details)
    ∧ (is_Some (rc_act cl) ∨ rc_grant cl ≠ "" -> ∃ res, in_active res = true
         ∧ (answers v s (ae_chain_times e) (ae_chain_answer e) token res ∨ ∃ asked, ae_revocation_answer e = Some (res, asked))).
Proof.
  unfold Middleware in Hserve. destruct (validateConfig v) eqn:Ev; [|done]. cbn [negb] in Hserve.
  assert (Hres : va_resource v ≠ "").
  { unfold validateConfig in Ev. apply andb_prop in Ev as [Ev _]. by apply negb_true_iff, String.eqb_neq in Ev. }
  destruct (extractToken (hr_authorization r)) as [token scheme]. destruct (token =? "")%string; [done|].
  unfold authenticate in Hserve. rewrite Hjwt in Hserve. cbn [andb] in Hserve.
  destruct (verifyJWT _ _ _ _ _ _ _ _) as [j [cl|err]] eqn:Ej; [|by destruct err as [| | | | | | | | | | | | | | | | | | | | | |[]| | | | | | | | |]].
  destruct (verifyJWT_ok _ _ _ _ _ _ Hres Ej) as (h & key & Hacc).
  destruct (parseAuthorizationDetails _) as [details|] eqn:Edet; [|done].
  set (p0 := set_details (named v (principalFromClaims cl)) details) in *.
  destruct (bind_and_check _ _ _ _ _ _ _ _ _) as [s1 [p1|err]] eqn:Eb;
    [|by destruct err as [| | | | | | | | | | | | | | | | | | | | | |[]| | | | | | | | |]].
  destruct (chain_check _ _ _ _ _ _ _) as [s2 [p2|err]] eqn:Ec;
    [|by destruct err as [| | | | | | | | | | | | | | | | | | | | | |[]| | | | | | | | |]].
  injection Hserve as _ <-. apply bind_and_check_ok in Eb as (Hp1 & Hbound & Hrev & Hcache).
  apply chain_check_ok in Ec as [(d & -> & Hd) Hchain].
  assert (Hp0 : principal_of p0 cl ∧ p_audience p0 = va_resource v).
  { unfold p0, named, principal_of. by destruct (String.eqb_spec (va_resource v) ""). }
  assert (Hdet : p_details p1 = details) by (rewrite Hp1; by destruct (default "" (rc_cnf cl) =? "")%string).
  exists token, scheme, h, key, cl, details. split_and!; try done.
  - destruct Hp0 as [(?&?&?&?&?) _]. unfold principal_of. rewrite Hp1. by destruct (default "" (rc_cnf cl) =? "")%string.
  - destruct Hp0 as [_ ?]. simpl. rewrite Hp1. by destruct (default "" (rc_cnf cl) =? "")%string.
  - intros Hne. simpl. rewrite Hd; congruence.
  - intros jkt Hc Hj. rewrite Hc in *. simpl in Hp1, Hbound. split.
    + simpl. rewrite Hp1. by apply String.eqb_neq in Hj as ->.
    + destruct (Hbound Hj) as [? (d1 & d2 & Hd1 & Hd2)]. split; [done|]. by exists d1, d2.
  - replace (set_details (set_details p1 d) details) with p1 by (destruct p1; simpl in *; by subst). done.
  - intros Hc. destruct (Hchain Hc) as (res & Hans & Hact). exists res. split; [done|]. by eapply answers_later.
Qed.
End Sound.

(** ** The acting agent *)

(** The [act] claim as [encoding/json] decodes it into an [actorClaim]; [None] is an error or [null]. *)
Fixpoint decode_actor (raw : json) : option Actor :=
  match raw with
  | JObject m =>
      let sub := match List.find (fun kv => (fst kv =? "sub")%string) m with Some (_, JString s) => s | _ => "" end in
      Some (mkActor sub
        ((fix act (m : list (string * json)) :=
            match m with
            | [] => None
            | (k, v) :: m' => if (k =? "act")%string then decode_actor v else act m'
            end) m))
  | _ => None
  end.

Lemma decode_actor_map a : decode_actor (actorClaimToMap a) = Some a.
Proof.
  revert a. fix IH 1. intros [s [b|]]; [|done]. simpl. rewrite IH. done.
Qed.

(** The claim as the authorization server writes it. *)
Lemma ExchangeToken_act `{ExchangeLib} gate cfg e s s' req out :
  ExchangeToken gate cfg e s req = (s', Ok out) ->
  ∃ client agent c, xe_client e = Some client ∧ AgentByClientID s client = Some agent
    ∧ xe_verify e (xr_subject_token req) = Some c
    ∧ x_act (xo_claims out) = Some (actorClaimToMap (Prepend (AgentSubjectPrefix +:+ ag_id agent) (actorFromClaims c))).
Proof.
  unfold ExchangeToken. destruct (xe_client e) as [client|]; [|done].
  destruct (AgentByClientID s client) as [agent|] eqn:Ea; [|done]. destruct (agentLiveErr _ _); [done|].
  destruct (subject_checks cfg e req agent) as [[c proof]|] eqn:Es; [|done].
  destruct (resource_checks cfg req c) as [aud|]; [|done].
  destruct (exchange_mint _ _ _ _ _ _ _ _ _ _) as [out'|] eqn:Em; [|done]. intros [= _ <-].
  apply subject_checks_ok in Es as (Hv & _). exists client, agent, c. split_and!; try done.
  unfold exchange_mint in Em. repeat (case_match; try done; simplify_eq/=).
Qed.

(** The resource server names the wrong agent. The authorization server puts the agent that exchanges a
    token in front of the token's chain of actors; the resource server reads the chain from the other end.
    So when an agent acts with a token that had been exchanged before, the principal's actor is the first
    agent of the chain, not the one that is acting. *)
Theorem resource_names_first_delegate `{ExchangeLib} gate cfg e s s' req out c a cl
  (Hsubject : xe_verify e (xr_subject_token req) = Some c) (Hchain : actorFromClaims c = Some a)
  (Hok : ExchangeToken gate cfg e s req = (s', Ok out))
  (Hclaims : rc_act cl = x_act (xo_claims out) ≫= decode_actor) :
  ∃ client agent first, xe_client e = Some client ∧ AgentByClientID s client = Some agent
    ∧ last (actor_links a) = Some first
    ∧ p_actor_chain (principalFromClaims cl) = rev (actor_links a) ++ [(AgentSubjectPrefix +:+ ag_id agent)%string]
    ∧ p_actor (principalFromClaims cl) = first.
Proof.
  apply ExchangeToken_act in Hok as (client & agent & c' & Hc & Ha & Hv & Hact). rewrite Hsubject in Hv. injection Hv as <-.
  rewrite Hact, Hchain in Hclaims. cbn [mbind option_bind] in Hclaims. rewrite decode_actor_map in Hclaims.
  destruct (actor_links a) as [|x l] eqn:El; [by destruct a|].
  destruct (last_is_Some (x :: l)) as [_ Hl]. destruct (Hl ltac:(done)) as [first Hf].
  exists client, agent, first. unfold principalFromClaims, flattenChain. rewrite Hclaims. unfold Prepend. cbn [actor_links p_actor_chain p_actor].
  rewrite El. split_and!; try done. apply last_Some in Hf as [l' ->]. cbn [rev]. rewrite rev_app_distr. done.
Qed.

(** ** Concrete requests *)

(** In the two exchanges of [Delegation], agent [a2] acts with the token that [a1] had; the resource server
    sees [a1]. *)
Definition demo_resource_claims : claims :=
  mkRClaims "https://as" "u1" ["https://api"] 1700000300 1700000000 0 "j2" "c2" "read" "" (x_act demo_second ≫= decode_actor)
    "g2" "" "" 0 [] "" None.

Lemma resource_names_first_delegate_witness :
  p_actor (principalFromClaims demo_resource_claims) = "agent:a1" ∧ xo_agent
    (mkExchangeResult "signed" "Bearer" 300 ["read"] demo_second "u1" "a2") = "a2".
Proof.
  split; [|reflexivity].
  destruct (resource_names_first_delegate (H := demo_ids) no_gate demo_config (demo_exchange_env "c2" "j2" demo_first)
    demo_delegations (demo_exchange "c2" "j2" demo_first).1 demo_exchange_request
    (mkExchangeResult "signed" "Bearer" 300 ["read"] demo_second "u1" "a2") demo_first (mkActor "agent:a1" None)
    demo_resource_claims eq_refl ltac:(vm_compute; reflexivity)
    ltac:(vm_compute; reflexivity) eq_refl) as (client & agent & first & _ & _ & Hl & _ & ->).
  injection Hl as <-. reflexivity.
Defined.

#[local] Existing Instance toy_lib.
#[local] Existing Instance mcp_toy_lib.

(** Tokens [J.T.S] of an Ed25519 key [k1], and [J.U.S] with a delegation grant. *)
Definition toy_token_claims (grant : string) : claims :=
  mkRClaims "https://as" "u1" ["https://mcp"] 1700000300 1700000000 0 "j" "app" "read" "" None grant "" "" 0 [] "" None.

#[local] Instance mcp_toy_decoders : McpLib := {|
  decode_jwt_header s := if (s =? "J")%string then Some (mkJwtHeader "EdDSA" "at+jwt" "k1") else None;
  decode_jwt_claims s := if (s =? "T")%string then Some (toy_token_claims "")
                         else if (s =? "U")%string then Some (toy_token_claims "g1") else None;
  decode_details _ := None |}.

Definition key_entry (kid : string) : jwksEntry := mkEntry "OKP" "Ed25519" toy_x "" "" "" kid "" "sig".
Definition toy_validator : Validator * VState :=
  mcp_New "https://mcp" (mkOptions "https://as/jwks" "https://as/introspect" 0 0 false 0 None NoChecker false false).
Definition times_at (n : Z) : key_times := mkKeyTimes (toy_at n) (toy_at n) (toy_at n) (toy_at n).
Definition look_at (n : Z) : lookup_times := mkLookupTimes (toy_at n) (toy_at n) (toy_at n) (toy_at n).
Definition toy_env (n : Z) (answer : option (introspectionResult * Z)) : AuthEnv :=
  mkAuthEnv (toy_at n) (Some [key_entry "k1"]) (times_at n) None (look_at n) answer (look_at n) (toy_at n).
Definition toy_request (token : string) : Request := mkRequest "GET" ("Bearer " +:+ token) "" true "" "" "mcp" "/".

Lemma served_request_sound_witness :
  p_subject (principalFromClaims (toy_token_claims "")) = "u1"
  ∧ ∃ h key cl, jwt_accepted toy_validator.1 toy_validator.2 (toy_env 5 None) "J.T.S" h key cl.
Proof.
  split; [reflexivity|].
  destruct (Middleware (fun m => (map_to_list m).*1) toy_validator.1 toy_validator.2 (toy_env 5 None) (toy_request "J.T.S"))
    as [s' [| |p|]] eqn:E; try (exfalso; revert E; vm_compute; discriminate).
  destruct (served_request_sound (fun m => (map_to_list m).*1) toy_validator.1 toy_validator.2 (toy_env 5 None)
    (toy_request "J.T.S") s' p eq_refl E) as (token & scheme & h & key & cl & details & Ht & Hacc & _).
  assert (Ht' : extractToken (hr_authorization (toy_request "J.T.S")) = ("J.T.S", "Bearer")) by (vm_compute; reflexivity).
  rewrite Ht' in Ht. injection Ht as <- <-. exists h, key, cl. exact Hacc.
Defined.

(** The key is fetched at second 5 and gone from the document from second 10 on. *)
Definition toy_keys : jwksCache := (jwks_lookup (vs_jwks toy_validator.2) (Some [key_entry "k1"]) (times_at 5) "k1").1.

Lemma rotated_key_refused_witness :
  jc_last toy_keys = toy_at 5 ∧ is_Some (jc_keys toy_keys !! "k1")
  ∧ ∃ e, (jwks_lookup (key_run toy_keys [mkKeyCall (Some [key_entry "k2"]) (times_at 200) "k2"]) (Some [key_entry "k2"])
            (times_at 4000) "k1").2 = Err e.
Proof.
  split; [vm_compute; reflexivity|]. split; [vm_compute; eauto|].
  apply (rotated_key_refused toy_keys [mkKeyCall (Some [key_entry "k2"]) (times_at 200) "k2"] (Some [key_entry "k2"])
    (times_at 4000) "k1" (toy_at 10)).
  - repeat constructor. discriminate.
  - repeat constructor. discriminate.
  - vm_compute. discriminate.
  - vm_compute. reflexivity.
  - vm_compute. auto.
Defined.

Definition active_result : introspectionResult :=
  mkIntrospection true "read" "app" "bearer" 1700000300 0 "u1" ["https://mcp"] "https://as" "j" None "g1" "" "" [] 0 None "".
Definition keys_range (m : ICache) : list string := (map_to_list m).*1.
Definition cached_state : VState :=
  mkVState toy_keys (cache_run keys_range "https://as/introspect" (60 * Second) ∅
    ([OLookup "J.U.S" "https://mcp" (look_at 5) (Some (active_result, 0))] ++ [OLookup "J.T.S" "https://mcp" (look_at 20) None])) None.

Lemma revoked_chain_refused_witness :
  is_ok (chain_check keys_range toy_validator.1 cached_state (toy_env 30 (Some (inactive_result, 0))) "J.U.S" (toy_token_claims "g1")
           (principalFromClaims (toy_token_claims "g1"))).2 = true
  ∧ ∃ err, (chain_check keys_range toy_validator.1 cached_state (toy_env 70 (Some (inactive_result, 0))) "J.U.S" (toy_token_claims "g1")
           (principalFromClaims (toy_token_claims "g1"))).2 = Err err.
Proof.
  split; [vm_compute; reflexivity|].
  apply (revoked_chain_refused keys_range "https://as/introspect" (60 * Second)
    [OLookup "J.U.S" "https://mcp" (look_at 5) (Some (active_result, 0))] [OLookup "J.T.S" "https://mcp" (look_at 20) None]
    toy_validator.1 cached_state (toy_env 70 (Some (inactive_result, 0))) "J.U.S" (toy_token_claims "g1")
    (principalFromClaims (toy_token_claims "g1")) (toy_at 5) (60 * Second)).
  - reflexivity.
  - reflexivity.
  - reflexivity.
  - repeat constructor; vm_compute; discriminate.
  - repeat constructor.
  - vm_compute. split; discriminate.
  - reflexivity.
  - right. discriminate.
Defined.
