(* ===== verification/Tenants.v ===== *)
(** * The tenant tables of the in-memory store ([storage/memory/memory.go], [memory_v07.go], [memory_v10.go],
    [memory_lifecycle.go])

    Users, sessions, organizations and their members, permissions, roles and grants: one record of maps,
    one atomic function per method. Ids are drawn by position from [fresh], which is [ulid.New]; the
    [range] over a map visits it in the order of [map_to_list]. [time.Now] is an argument. The file
    closes with what the queries return and with the invariant [roles_wf] of the role tables. *)

From Stdlib Require Import ZArith Lia String Ascii.
From stdpp Require Import base gmap strings list sorting pretty.
From S2P Require Import Prelude Session.

Set Default Goal Selector "!".
Open Scope string_scope.
Open Scope list_scope.
Open Scope Z_scope.

(** ** Data ([internal/models/models.go]) *)

Record User := mkUser {
  u_id : string; u_email : string; u_verified : option Z; u_name : string; u_avatar : string;
  u_created : Z; u_updated : Z; u_external : string; u_given : string; u_family : string; u_display : string;
}.

Record Organization := mkOrganization {
  o_id : string; o_name : string; o_slug : string; o_created : Z; o_updated : Z;
}.

Record OrganizationMember := mkMember { m_org : string; m_user : string; m_role : string; m_joined : Z }.

Record Permission := mkPermission { p_id : string; p_name : string; p_desc : string; p_created : Z }.

#[global] Instance Permission_eq_dec : EqDecision Permission.
Proof. solve_decision. Defined.

Record Role := mkRole {
  r_id : string; r_org : option string; r_name : string; r_desc : string; r_perms : list string;
  r_created : Z; r_updated : Z;
}.

Record UserRole := mkUserRole { ur_user : string; ur_role : string; ur_at : Z; ur_by : option string }.

Definition SystemRoleSuperAdmin : string := "super_admin".
Definition OrgRoleOwner : string := "owner".
Definition OrgRoleAdmin : string := "admin".
Definition OrgRoleMember : string := "member".

(** ** The tables *)

(** The organizations of [v07State]; members are keyed by organization and user. *)
Record v07State := mkV07 {
  orgs : gmap string Organization;
  orgsBySlug : gmap string string;
  members : gmap (string * string) OrganizationMember;
}.

(** The roles of [v10State]; grants are keyed by user and role. *)
Record v10State := mkV10 {
  permissionsByID : gmap string Permission;
  permissionsByName : gmap string Permission;
  roles : gmap string Role;
  rolePerms : gmap string (gset string);
  userRoles : gmap (string * string) UserRole;
}.

(** What the tenant code takes from outside: new ids, parsing of ids, functions of [strings] and [strconv], and
    the hash of an address in audit entries. *)
Class TenantLib := {
  fresh : nat -> string;
  ulid_parse : string -> option string;
  to_lower : string -> string;
  trim_space : string -> string;
  atoi : string -> option Z;
  hash_email : string -> string;
}.

(** [ulid.New] never repeats an id and never returns the zero id; lowering twice is lowering once. *)
Class TenantLaws `{TenantLib} := {
  fresh_inj : ∀ n m, fresh n = fresh m -> n = m;
  fresh_nonzero : ∀ n, fresh n ≠ "";
  to_lower_idem : ∀ s, to_lower (to_lower s) = to_lower s;
}.

Definition eqb_opt (a b : option string) : bool := bool_decide (a = b).

(** ** Permissions *)

Definition with_p_id (p : Permission) (id : string) : Permission := mkPermission id (p_name p) (p_desc p) (p_created p).
Definition with_p_created (p : Permission) (t : Z) : Permission := mkPermission (p_id p) (p_name p) (p_desc p) t.

Definition InsertPermission (v : v10State) (now : Z) (p : Permission) : v10State * Permission :=
  match permissionsByName v !! p_name p with
  | Some existing => (v, existing)
  | None =>
      let p := if IsZero (p_created p) then with_p_created p now else p in
      (mkV10 (<[p_id p := p]> (permissionsByID v)) (<[p_name p := p]> (permissionsByName v)) (roles v) (rolePerms v)
         (userRoles v), p)
  end.

(** [None] is [ErrNotFound] below. *)
Definition PermissionByName (v : v10State) (name : string) : option Permission := permissionsByName v !! name.

Definition perm_less (p q : Permission) : bool := String.ltb (p_name p) (p_name q).

Definition ListPermissions (v : v10State) : list Permission :=
  sort_by perm_less (map snd (map_to_list (permissionsByID v))).

(** ** Roles *)

Definition sameOrgPtr (a b : option string) : bool :=
  match a, b with
  | None, None => true
  | None, _ | _, None => false
  | Some a, Some b => (a =? b)%string
  end.

Definition rolesSameScope (a b : Role) : bool := sameOrgPtr (r_org a) (r_org b).

Definition role_rows (v : v10State) : list Role := map snd (map_to_list (roles v)).

Definition with_times (r : Role) (created updated : Z) : Role :=
  mkRole (r_id r) (r_org r) (r_name r) (r_desc r) (r_perms r) created updated.
Definition with_r_perms (r : Role) (perms : list string) : Role :=
  mkRole (r_id r) (r_org r) (r_name r) (r_desc r) perms (r_created r) (r_updated r).

Definition InsertRole (v : v10State) (now : Z) (r : Role) : option (v10State * Role) :=
  if existsb (fun e => rolesSameScope e r && (r_name e =? r_name r)%string) (role_rows v) then None
  else
    let created := if IsZero (r_created r) then now else r_created r in
    let r := with_times r created created in
    Some (mkV10 (permissionsByID v) (permissionsByName v) (<[r_id r := r]> (roles v))
            (match rolePerms v !! r_id r with Some _ => rolePerms v | None => <[r_id r := ∅]> (rolePerms v) end)
            (userRoles v), r).

Definition set_roles (v : v10State) (rs : gmap string Role) : v10State :=
  mkV10 (permissionsByID v) (permissionsByName v) rs (rolePerms v) (userRoles v).

Definition UpdateRoleRow (v : v10State) (now : Z) (r : Role) : option (v10State * Role) :=
  match roles v !! r_id r with
  | None => None
  | Some existing =>
      let r := mkRole (r_id r) (r_org existing) (r_name r) (r_desc r) (r_perms r) (r_created existing) now in
      Some (set_roles v (<[r_id r := r]> (roles v)), r)
  end.

Definition store_DeleteRole (v : v10State) (id : string) : option v10State :=
  match roles v !! id with
  | None => None
  | Some _ =>
      Some (mkV10 (permissionsByID v) (permissionsByName v) (delete id (roles v)) (delete id (rolePerms v))
              (filter (fun kv => kv.1.2 ≠ id) (userRoles v)))
  end.

Definition permsForRoleLocked (v : v10State) (roleID : string) : list string :=
  sort_strings (omap (fun permID => p_name <$> permissionsByID v !! permID)
                  (elements (default ∅ (rolePerms v !! roleID)))).

Definition RoleByID (v : v10State) (id : string) : option Role :=
  (fun r => with_r_perms r (permsForRoleLocked v (r_id r))) <$> roles v !! id.

Definition RoleByOrgAndName (v : v10State) (orgID : option string) (name : string) : option Role :=
  (fun r => with_r_perms r (permsForRoleLocked v (r_id r)))
    <$> List.find (fun r => sameOrgPtr (r_org r) orgID && (r_name r =? name)%string) (role_rows v).

Definition role_less (r r' : Role) : bool := String.ltb (r_name r) (r_name r').

Definition RolesByOrganization (v : v10State) (orgID : option string) : list Role :=
  sort_by role_less (map (fun r => with_r_perms r (permsForRoleLocked v (r_id r)))
    (List.filter (fun r => sameOrgPtr (r_org r) orgID) (role_rows v))).

Definition SetRolePermissions (v : v10State) (roleID : string) (permissionIDs : list string) : option v10State :=
  match roles v !! roleID with
  | None => None
  | Some _ =>
      if forallb (fun id => bool_decide (is_Some (permissionsByID v !! id))) permissionIDs
      then Some (mkV10 (permissionsByID v) (permissionsByName v) (roles v)
                   (<[roleID := list_to_set permissionIDs]> (rolePerms v)) (userRoles v))
      else None
  end.

Definition PermissionsByRole (v : v10State) (roleID : string) : option (list string) :=
  match roles v !! roleID with None => None | Some _ => Some (permsForRoleLocked v roleID) end.

(** ** Grants *)

Definition set_grants (v : v10State) (g : gmap (string * string) UserRole) : v10State :=
  mkV10 (permissionsByID v) (permissionsByName v) (roles v) (rolePerms v) g.

Definition GrantUserRole (users : gmap string User) (v : v10State) (now : Z) (ur : UserRole) : option v10State :=
  match users !! ur_user ur, roles v !! ur_role ur with
  | Some _, Some _ =>
      let ur := if IsZero (ur_at ur) then mkUserRole (ur_user ur) (ur_role ur) now (ur_by ur) else ur in
      Some (set_grants v (<[(ur_user ur, ur_role ur) := ur]> (userRoles v)))
  | _, _ => None
  end.

Definition RevokeUserRole (v : v10State) (userID roleID : string) : option v10State :=
  match userRoles v !! (userID, roleID) with
  | None => None
  | Some _ => Some (set_grants v (delete (userID, roleID) (userRoles v)))
  end.

(** The roles a user holds in the scope [orgID], as the loops over the grants visit them. *)
Definition granted_roles (v : v10State) (userID : string) (orgID : option string) : list Role :=
  omap (fun kv : string * string * UserRole =>
          if (kv.1.1 =? userID)%string then
            match roles v !! kv.1.2 with
            | Some role => if sameOrgPtr (r_org role) orgID then Some role else None
            | None => None
            end
          else None) (map_to_list (userRoles v)).

Definition RolesForUser (v : v10State) (userID : string) (orgID : option string) : list Role :=
  sort_by role_less (map (fun r => with_r_perms r (permsForRoleLocked v (r_id r))) (granted_roles v userID orgID)).

Definition PermissionsForUser (v : v10State) (userID : string) (orgID : option string) : list string :=
  sort_strings (elements (list_to_set (C := gset string)
    (mjoin (map (fun r => permsForRoleLocked v (r_id r)) (granted_roles v userID orgID))))).

Definition holds_in_org (v : v10State) (orgID perm : string) (kv : string * string * UserRole) : option string :=
  match roles v !! kv.1.2 with
  | Some role =>
      if eqb_opt (r_org role) (Some orgID) && existsb (String.eqb perm) (permsForRoleLocked v (r_id role))
      then Some kv.1.1 else None
  | None => None
  end.

Definition CountUsersWithPermissionInOrg (v : v10State) (orgID perm : string) : nat :=
  size (list_to_set (C := gset string) (omap (holds_in_org v orgID perm) (map_to_list (userRoles v)))).

(** ** Organizations and members *)

Inductive org_error := OrgNotFound | ErrSlugTaken.

Section Orgs.
Context `{TenantLib}.

Definition InsertOrganization (v : v07State) (now : Z) (o : Organization) : result org_error (v07State * Organization) :=
  let slug := to_lower (o_slug o) in
  match orgsBySlug v !! slug with
  | Some _ => Err ErrSlugTaken
  | None =>
      let created := if IsZero (o_created o) then now else o_created o in
      let updated := if IsZero (o_updated o) then created else o_updated o in
      let o := mkOrganization (o_id o) (o_name o) slug created updated in
      Ok (mkV07 (<[o_id o := o]> (orgs v)) (<[slug := o_id o]> (orgsBySlug v)) (members v), o)
  end.

Definition OrganizationByID (v : v07State) (id : string) : option Organization := orgs v !! id.

(** The zero organization, which a dangling slug would return. *)
Definition zero_org : Organization := mkOrganization "" "" "" 0 0.

Definition OrganizationBySlug (v : v07State) (slug : string) : option Organization :=
  (fun id => default zero_org (orgs v !! id)) <$> orgsBySlug v !! to_lower slug.

Definition UpdateOrganization (v : v07State) (now : Z) (o : Organization) : result org_error v07State :=
  match orgs v !! o_id o with
  | None => Err OrgNotFound
  | Some existing =>
      let newSlug := to_lower (o_slug o) in
      let row := mkOrganization (o_id o) (o_name o) newSlug (o_created existing) now in
      if (newSlug =? o_slug existing)%string then Ok (mkV07 (<[o_id o := row]> (orgs v)) (orgsBySlug v) (members v))
      else match orgsBySlug v !! newSlug with
      | Some _ => Err ErrSlugTaken
      | None => Ok (mkV07 (<[o_id o := row]> (orgs v))
                      (<[newSlug := o_id o]> (delete (o_slug existing) (orgsBySlug v))) (members v))
      end
  end.
End Orgs.

Definition set_members (v : v07State) (ms : gmap (string * string) OrganizationMember) : v07State :=
  mkV07 (orgs v) (orgsBySlug v) ms.

Definition UpsertOrganizationMember (users : gmap string User) (v : v07State) (now : Z) (m : OrganizationMember)
  : option v07State :=
  match orgs v !! m_org m, users !! m_user m with
  | Some _, Some _ =>
      let key := (m_org m, m_user m) in
      match members v !! key with
      | Some existing =>
          Some (set_members v (<[key := mkMember (m_org existing) (m_user existing) (m_role m) (m_joined existing)]> (members v)))
      | None =>
          let m := if IsZero (m_joined m) then mkMember (m_org m) (m_user m) (m_role m) now else m in
          Some (set_members v (<[key := m]> (members v)))
      end
  | _, _ => None
  end.

Definition DeleteOrganizationMember (v : v07State) (orgID userID : string) : option v07State :=
  match members v !! (orgID, userID) with
  | None => None
  | Some _ => Some (set_members v (delete (orgID, userID) (members v)))
  end.

Definition joined_before (m m' : OrganizationMember) : bool := Before (m_joined m) (m_joined m').

Definition OrganizationMembersByOrg (v : v07State) (orgID : string) : list OrganizationMember :=
  sort_by joined_before (List.filter (fun m => (m_org m =? orgID)%string) (map snd (map_to_list (members v)))).

Definition created_before (o o' : Organization) : bool := Before (o_created o) (o_created o').

Definition OrganizationsByUser (v : v07State) (userID : string) : list Organization :=
  sort_by created_before (omap (fun m => if (m_user m =? userID)%string then orgs v !! m_org m else None)
                            (map snd (map_to_list (members v)))).

Definition OrganizationMemberRole (v : v07State) (orgID userID : string) : option string :=
  m_role <$> members v !! (orgID, userID).

(** ** The store *)

(** The entries that the components below write to the audit trail. *)
Inductive Audit :=
  | RoleGranted (target role name : string) (org : option string)
  | RoleRevoked (target role name : string)
  | RoleCreated (id name : string) (perms : list string)
  | RoleUpdated (id name : string) (perms : list string)
  | RoleDeleted (id : string)
  | UserInvited (user email role : string)
  | MemberRemoved (user org : string)
  | SessionRevoked (id : string)
  | AccountDeleted (user reason email : string)
  | AccountDisabled (user : string)
  | AccountEnabled (user : string)
  | PasswordChangeRequired (user : string).

Record AccountState := mkAccountState { as_must_change : bool; as_disabled : option Z }.

(** [st_next] counts the ids drawn so far. [st_audit] are the calls of the audit emitter, in order: what the services
    report, not what the audit writer stores, which queues events and drops them when its queue is full or when it is
    not running ([internal/audit/service.go]). *)
Record Store := mkStore {
  st_users : gmap string User;
  st_acct : gmap string AccountState;
  st_sessions : Sessions;
  st_v07 : v07State;
  st_v10 : v10State;
  st_audit : list Audit;
  st_next : nat;
}.

Definition set_users (st : Store) u := mkStore u (st_acct st) (st_sessions st) (st_v07 st) (st_v10 st) (st_audit st) (st_next st).
Definition set_acct (st : Store) a := mkStore (st_users st) a (st_sessions st) (st_v07 st) (st_v10 st) (st_audit st) (st_next st).
Definition set_sessions (st : Store) s := mkStore (st_users st) (st_acct st) s (st_v07 st) (st_v10 st) (st_audit st) (st_next st).
Definition set_v07 (st : Store) v := mkStore (st_users st) (st_acct st) (st_sessions st) v (st_v10 st) (st_audit st) (st_next st).
Definition set_v10 (st : Store) v := mkStore (st_users st) (st_acct st) (st_sessions st) (st_v07 st) v (st_audit st) (st_next st).
(** A call of the emitter. *)
Definition EmitAudit (st : Store) (e : Audit) : Store :=
  mkStore (st_users st) (st_acct st) (st_sessions st) (st_v07 st) (st_v10 st) (st_audit st ++ [e]) (st_next st).

(** [ulid.New]. *)
Definition New `{TenantLib} (st : Store) : Store * string :=
  (mkStore (st_users st) (st_acct st) (st_sessions st) (st_v07 st) (st_v10 st) (st_audit st) (S (st_next st)), fresh (st_next st)).

Definition empty_store : Store := mkStore ∅ ∅ ∅ (mkV07 ∅ ∅ ∅) (mkV10 ∅ ∅ ∅ ∅ ∅) [] 0.

Definition CreateUser (st : Store) (u : User) : Store := set_users st (<[u_id u := u]> (st_users st)).

Definition UserByEmail (st : Store) (email : string) : option User :=
  List.find (fun u => (u_email u =? email)%string) (map snd (map_to_list (st_users st))).

Definition UserByID (st : Store) (id : string) : option User := st_users st !! id.

Definition with_org (s : Session) (org : option string) : Session :=
  mkSession (se_id s) (se_user s) (se_hash s) (se_ua s) (se_ip s) (se_created s) (se_expires s) (se_revoked s) (se_level s)
    org (se_last_seen s) (se_elevated s) (se_credential s) (se_methods s) (se_auth_time s).

Definition SetSessionActiveOrganization (st : Store) (sessionID : string) (orgID : option string) : option Store :=
  match st_sessions st !! sessionID with
  | None => None
  | Some sess =>
      if match orgID with Some o => bool_decide (orgs (st_v07 st) !! o = None) | None => false end then None
      else Some (set_sessions st (<[sessionID := with_org sess orgID]> (st_sessions st)))
  end.

(** The tables of this store that [DeleteOrganization] touches. *)
Definition DeleteOrganization (st : Store) (id : string) : option Store :=
  match orgs (st_v07 st) !! id with
  | None => None
  | Some o =>
      let v := st_v07 st in
      Some (set_sessions
        (set_v07 st (mkV07 (delete id (orgs v)) (delete (o_slug o) (orgsBySlug v))
                       (filter (fun kv => kv.1.1 ≠ id) (members v))))
        ((fun s => if eqb_opt (se_org s) (Some id) then with_org s None else s) <$> st_sessions st))
  end.

(** The tables of this store that [DeleteUserCascade] and [deleteUserDependents] touch. *)
Definition DeleteUserCascade (st : Store) (userID : string) : option Store :=
  match st_users st !! userID with
  | None => None
  | Some _ =>
      Some (mkStore (delete userID (st_users st)) (delete userID (st_acct st)) (filter (fun kv => se_user kv.2 ≠ userID) (st_sessions st))
        (set_members (st_v07 st) (filter (fun kv => kv.1.2 ≠ userID) (members (st_v07 st))))
        (set_grants (st_v10 st) (filter (fun kv => kv.1.1 ≠ userID) (userRoles (st_v10 st))))
        (st_audit st) (st_next st))
  end.

Definition AccountStateByUserID (st : Store) (userID : string) : AccountState :=
  default (mkAccountState false None) (st_acct st !! userID).

Definition updateState (st : Store) (userID : string) (fn : AccountState -> AccountState) : option Store :=
  match st_users st !! userID with
  | None => None
  | Some _ => Some (set_acct st (<[userID := fn (AccountStateByUserID st userID)]> (st_acct st)))
  end.

Definition store_SetMustChangePassword (st : Store) (userID : string) (required : bool) : option Store :=
  updateState st userID (fun a => mkAccountState required (as_disabled a)).

Definition SetUserDisabledAt (st : Store) (userID : string) (at_ : option Z) : option Store :=
  updateState st userID (fun a => mkAccountState (as_must_change a) at_).

Definition user_before (u u' : User) : bool := Before (u_created u) (u_created u').

(** [ListUsersByOrganization] with the empty filter the admin API passes. *)
Definition ListUsersByOrganization (st : Store) (orgID : string) (offset limit : Z) : list User * Z :=
  let all := sort_by user_before (omap (fun m => if (m_org m =? orgID)%string then st_users st !! m_user m else None)
                                    (map snd (map_to_list (members (st_v07 st))))) in
  let total := Z.of_nat (length all) in
  let offset := if total <? offset then total else offset in
  let end_ := if (limit <=? 0) || (total <? offset + limit) then total else offset + limit in
  (firstn (Z.to_nat (end_ - offset)) (skipn (Z.to_nat offset) all), total).

(** ** What the queries return *)

Lemma sameOrgPtr_spec a b : sameOrgPtr a b = true ↔ a = b.
Proof. destruct a, b; simpl; rewrite ?String.eqb_eq; naive_solver. Qed.

Lemma elem_of_map_values {K A} `{Countable K} (m : gmap K A) x : x ∈ map snd (map_to_list m) ↔ ∃ k, m !! k = Some x.
Proof.
  rewrite list_elem_of_In, in_map_iff. split.
  - intros ([k y] & <- & Hin%list_elem_of_In%elem_of_map_to_list). by exists k.
  - intros [k Hk%elem_of_map_to_list%list_elem_of_In]. by exists (k, x).
Qed.

(** A role carries a permission, by name. *)
Definition role_permits (v : v10State) (roleID name : string) : Prop :=
  ∃ s id p, rolePerms v !! roleID = Some s ∧ id ∈ s ∧ permissionsByID v !! id = Some p ∧ p_name p = name.

(** A user has been granted a role. *)
Definition granted (v : v10State) (userID roleID : string) : Prop := is_Some (userRoles v !! (userID, roleID)).

(** A user holds a permission in a scope through some granted role of that scope. *)
Definition user_holds (v : v10State) (userID : string) (orgID : option string) (name : string) : Prop :=
  ∃ k role, granted v userID k ∧ roles v !! k = Some role ∧ r_org role = orgID ∧ role_permits v (r_id role) name.

(** A user holds the system role that bypasses every check. *)
Definition super_admin (v : v10State) (userID : string) : Prop :=
  ∃ k role, granted v userID k ∧ roles v !! k = Some role ∧ r_org role = None ∧ r_name role = SystemRoleSuperAdmin.

Lemma elem_of_permsForRole v roleID name : name ∈ permsForRoleLocked v roleID ↔ role_permits v roleID name.
Proof.
  unfold permsForRoleLocked, role_permits. rewrite elem_of_sort_strings, list_elem_of_omap. split.
  - intros (id & Hid%elem_of_elements & (p & Hn & Hp)%fmap_Some). destruct (rolePerms v !! roleID); [|set_solver]. eauto 9.
  - intros (s & id & p & -> & Hid & Hp & <-). exists id. by rewrite elem_of_elements, Hp.
Qed.

Lemma elem_of_granted_roles v userID orgID role :
  role ∈ granted_roles v userID orgID ↔ ∃ k, granted v userID k ∧ roles v !! k = Some role ∧ r_org role = orgID.
Proof.
  unfold granted_roles. rewrite list_elem_of_omap. split.
  - intros ([[u k] ur] & Hin%elem_of_map_to_list & Heq). simpl in Heq.
    destruct (String.eqb_spec u userID) as [->|]; [|done]. destruct (roles v !! k) as [r|] eqn:Hr; [|done].
    destruct (sameOrgPtr (r_org r) orgID) eqn:Ho; [|done]. apply sameOrgPtr_spec in Ho. simplify_eq.
    exists k. repeat split; [by eexists|done].
  - intros (k & [ur Hur] & Hr & Ho). exists (userID, k, ur). rewrite elem_of_map_to_list. split; [done|].
    simpl. rewrite String.eqb_refl, Hr. by rewrite (proj2 (sameOrgPtr_spec _ _) Ho).
Qed.

Lemma elem_of_RolesForUser v userID orgID r :
  r ∈ RolesForUser v userID orgID ↔
    ∃ k role, granted v userID k ∧ roles v !! k = Some role ∧ r_org role = orgID
      ∧ r = with_r_perms role (permsForRoleLocked v (r_id role)).
Proof.
  unfold RolesForUser. rewrite elem_of_sort_by, list_elem_of_In, in_map_iff. split.
  - intros (role & <- & (k & ? & ? & ?)%list_elem_of_In%elem_of_granted_roles). eauto 9.
  - intros (k & role & ? & ? & ? & ->). exists role. split; [done|]. apply list_elem_of_In, elem_of_granted_roles. eauto.
Qed.

Lemma elem_of_PermissionsForUser v userID orgID name :
  name ∈ PermissionsForUser v userID orgID ↔ user_holds v userID orgID name.
Proof.
  unfold PermissionsForUser, user_holds.
  rewrite elem_of_sort_strings, elem_of_elements, elem_of_list_to_set, list_elem_of_join. split.
  - intros (l & Hn & (role & <- & (k & ? & ? & ?)%list_elem_of_In%elem_of_granted_roles)%list_elem_of_In%in_map_iff).
    apply elem_of_permsForRole in Hn. eauto 9.
  - intros (k & role & ? & ? & ? & Hp%elem_of_permsForRole). exists (permsForRoleLocked v (r_id role)). split; [done|].
    apply list_elem_of_In, in_map_iff. exists role. split; [done|]. apply list_elem_of_In, elem_of_granted_roles. eauto.
Qed.

(** The loop of the callers over [RolesForUser] with a nil organization. *)
Definition is_super_admin (v : v10State) (userID : string) : bool :=
  existsb (fun r => (r_name r =? SystemRoleSuperAdmin)%string) (RolesForUser v userID None).

Lemma is_super_admin_spec v userID : is_super_admin v userID = true ↔ super_admin v userID.
Proof.
  unfold is_super_admin, super_admin. rewrite existsb_true_iff. split.
  - intros (r & (k & role & ? & ? & ? & ->)%elem_of_RolesForUser & Hn%String.eqb_eq). simpl in Hn. eauto 9.
  - intros (k & role & ? & ? & ? & Hn). eexists. split; [apply elem_of_RolesForUser; eauto 9|]. simpl. by apply String.eqb_eq.
Qed.

Lemma omap_holds_in_org v orgID perm u :
  u ∈ omap (holds_in_org v orgID perm) (map_to_list (userRoles v)) ↔ user_holds v u (Some orgID) perm.
Proof.
  rewrite list_elem_of_omap. unfold holds_in_org, user_holds, eqb_opt. split.
  - intros ([[u' k] ur] & Hin%elem_of_map_to_list & Heq). simpl in Heq. destruct (roles v !! k) as [r|] eqn:Hr; [|done].
    destruct (bool_decide_reflect (r_org r = Some orgID)); [|done].
    destruct (existsb (String.eqb perm) _) eqn:He; [|done]. simplify_eq/=.
    apply existsb_eqb_elem, elem_of_permsForRole in He. exists k, r. repeat split; [by eexists|done..].
  - intros (k & r & [ur Hur] & Hr & Ho & Hp%elem_of_permsForRole%existsb_eqb_elem). exists (u, k, ur).
    rewrite elem_of_map_to_list. simpl. rewrite Hr, Ho, bool_decide_true by done. by rewrite Hp.
Qed.

(** Counting to zero is nobody holding the permission. *)
Lemma CountUsers_zero v orgID perm :
  CountUsersWithPermissionInOrg v orgID perm = 0%nat ↔ ∀ u, ~ user_holds v u (Some orgID) perm.
Proof.
  unfold CountUsersWithPermissionInOrg. rewrite size_empty_iff. split.
  - intros He u Hu%omap_holds_in_org. set_solver.
  - intros Hn u. rewrite elem_of_list_to_set, omap_holds_in_org. set_solver.
Qed.

(** ** The invariant of the role tables *)

Section Wf.
Context `{TenantLib}.

(** Rows sit under their ids, the two permission tables agree, role permissions and grants point to rows
    that exist, and no row carries an id that is still to be drawn. *)
Record roles_wf (users : gmap string User) (v : v10State) (next : nat) : Prop := {
  wf_role_id : ∀ k r, roles v !! k = Some r -> r_id r = k;
  wf_perm_id : ∀ k p, permissionsByID v !! k = Some p -> p_id p = k ∧ permissionsByName v !! p_name p = Some p;
  wf_perm_name : ∀ n p, permissionsByName v !! n = Some p -> p_name p = n ∧ permissionsByID v !! p_id p = Some p;
  wf_rolePerms : ∀ k s, rolePerms v !! k = Some s ->
    is_Some (roles v !! k) ∧ ∀ id, id ∈ s -> is_Some (permissionsByID v !! id);
  wf_role_has : ∀ k, is_Some (roles v !! k) -> is_Some (rolePerms v !! k);
  wf_grant : ∀ u k ur, userRoles v !! (u, k) = Some ur ->
    ur_user ur = u ∧ ur_role ur = k ∧ is_Some (users !! u) ∧ is_Some (roles v !! k);
  wf_fresh : ∀ n, (next <= n)%nat -> roles v !! fresh n = None ∧ permissionsByID v !! fresh n = None;
}.

Lemma roles_wf_empty users next : roles_wf users (mkV10 ∅ ∅ ∅ ∅ ∅) next.
Proof. split; simpl; intros *; rewrite ?lookup_empty; try done; by intros []. Qed.

Lemma roles_wf_next users v next next' : (next <= next')%nat -> roles_wf users v next -> roles_wf users v next'.
Proof. intros Hle []. split; try done. intros n Hn. apply wf_fresh0. lia. Qed.

Lemma roles_wf_users users users' v next :
  (∀ u, is_Some (users !! u) -> is_Some (users' !! u)) -> roles_wf users v next -> roles_wf users' v next.
Proof. intros Hu []. split; try done. intros u k ur (? & ? & ? & ?)%wf_grant0. eauto 9. Qed.

Lemma InsertPermission_wf users v next now p :
  roles_wf users v next ->
  (permissionsByName v !! p_name p = None -> permissionsByID v !! p_id p = None ∧ ∀ n, (next <= n)%nat -> p_id p ≠ fresh n) ->
  roles_wf users (InsertPermission v now p).1 next.
Proof.
  intros Hwf Hid. unfold InsertPermission. destruct (permissionsByName v !! p_name p) eqn:Hn; [done|].
  destruct (Hid eq_refl) as [Hid' Hf]. clear Hid.
  set (q := if IsZero (p_created p) then with_p_created p now else p).
  assert (Hq : p_id q = p_id p ∧ p_name q = p_name p) by (unfold q; by destruct (IsZero _)). destruct Hq as [Hqi Hqn].
  clearbody q. destruct Hwf. split; simpl; try done.
  - intros k p'. rewrite lookup_insert_Some. intros [[<- <-]|[Hne Hp]].
    { by rewrite lookup_insert_eq. }
    destruct (wf_perm_id0 _ _ Hp) as [? Hnm]. rewrite lookup_insert_ne; [done|]. congruence.
  - intros n p'. rewrite lookup_insert_Some. intros [[<- <-]|[Hne Hp]].
    { by rewrite lookup_insert_eq. }
    destruct (wf_perm_name0 _ _ Hp) as [? Hi]. rewrite lookup_insert_ne; [done|]. congruence.
  - intros k s (? & Hs)%wf_rolePerms0. split; [done|]. intros id Hin. apply lookup_insert_is_Some'. right. auto.
  - intros n Hle. destruct (wf_fresh0 _ Hle). split; [done|]. rewrite lookup_insert_ne; [done|]. rewrite Hqi. auto.
Qed.

Lemma InsertRole_wf users v next now r v' r' :
  roles_wf users v next -> InsertRole v now r = Some (v', r') -> (∀ n, (next <= n)%nat -> r_id r ≠ fresh n) ->
  roles_wf users v' next ∧ roles v' !! r_id r = Some r' ∧ r_id r' = r_id r.
Proof.
  intros Hwf Heq Hf. unfold InsertRole in Heq. destruct (existsb _ _); [done|]. simplify_eq. simpl.
  split; [|by rewrite lookup_insert_eq]. destruct Hwf. split; simpl; try done.
  - intros k r'. rewrite lookup_insert_Some. intros [[<- <-]|[? ?]]; auto.
  - intros k s Hs. rewrite lookup_insert_is_Some'. destruct (rolePerms v !! r_id r) eqn:Hrp.
    + destruct (wf_rolePerms0 _ _ Hs). auto.
    + apply lookup_insert_Some in Hs as [[<- <-]|[? Hs]]; [set_solver|]. destruct (wf_rolePerms0 _ _ Hs). auto.
  - intros k. rewrite lookup_insert_is_Some'. intros [<-|Hk].
    + destruct (rolePerms v !! r_id r) eqn:Hrp; [by rewrite Hrp|by rewrite lookup_insert_eq].
    + destruct (rolePerms v !! r_id r) eqn:Hrp; [auto|]. apply lookup_insert_is_Some'. auto.
  - intros u k ur (? & ? & ? & ?)%wf_grant0. repeat split; try done. apply lookup_insert_is_Some'. auto.
  - intros n Hle. destruct (wf_fresh0 _ Hle). split; [|done]. rewrite lookup_insert_ne; auto.
Qed.

Lemma UpdateRoleRow_wf users v next now r v' r' :
  roles_wf users v next -> UpdateRoleRow v now r = Some (v', r') -> roles_wf users v' next.
Proof.
  intros Hwf Heq. unfold UpdateRoleRow in Heq. destruct (roles v !! r_id r) as [e|] eqn:He; [|done]. simplify_eq. simpl.
  destruct Hwf. split; simpl; try done.
  - intros k r'. rewrite lookup_insert_Some. intros [[<- <-]|[? ?]]; auto.
  - intros k s (? & ?)%wf_rolePerms0. rewrite lookup_insert_is_Some'. auto.
  - intros k. rewrite lookup_insert_is_Some'. intros [<-|?]; eauto.
  - intros u k ur (? & ? & ? & ?)%wf_grant0. rewrite lookup_insert_is_Some'. auto.
  - intros n Hle. destruct (wf_fresh0 _ Hle). split; [|done]. rewrite lookup_insert_ne; [done|]. congruence.
Qed.

Lemma store_DeleteRole_wf users v next id v' : roles_wf users v next -> store_DeleteRole v id = Some v' -> roles_wf users v' next.
Proof.
  intros Hwf Heq. unfold store_DeleteRole in Heq. destruct (roles v !! id) as [e|] eqn:He; [|done]. simplify_eq.
  destruct Hwf. split; simpl; try done.
  - intros k r [? ?]%lookup_delete_Some. auto.
  - intros k s [? (? & ?)%wf_rolePerms0]%lookup_delete_Some. by rewrite lookup_delete_ne.
  - intros k [r [? ?]%lookup_delete_Some]. rewrite lookup_delete_ne by done. eauto.
  - intros u k ur [(? & ? & ? & ?)%wf_grant0 Hne]%map_lookup_filter_Some. simpl in Hne. by rewrite lookup_delete_ne.
  - intros n [? ?]%wf_fresh0. split; [|done]. by apply lookup_delete_None; right.
Qed.

Lemma SetRolePermissions_Some v roleID ids v' :
  SetRolePermissions v roleID ids = Some v' ↔
    is_Some (roles v !! roleID) ∧ (∀ id, id ∈ ids -> is_Some (permissionsByID v !! id))
    ∧ v' = mkV10 (permissionsByID v) (permissionsByName v) (roles v) (<[roleID := list_to_set ids]> (rolePerms v)) (userRoles v).
Proof.
  unfold SetRolePermissions. destruct (roles v !! roleID); [|split; [done|by intros [[] _]]].
  destruct (forallb _ _) eqn:Hf.
  - split; [intros [= <-]|by intros (_ & _ & ->)]. repeat split; [done|]. intros id Hin.
    apply List.forallb_forall with (x := id) in Hf; [by apply bool_decide_eq_true in Hf|by apply list_elem_of_In].
  - split; [done|]. intros (_ & Hall & _). exfalso. apply not_true_iff_false in Hf. apply Hf.
    apply List.forallb_forall. intros id Hin%list_elem_of_In. apply bool_decide_eq_true. auto.
Qed.

Lemma SetRolePermissions_wf users v next roleID ids v' :
  roles_wf users v next -> SetRolePermissions v roleID ids = Some v' -> roles_wf users v' next.
Proof.
  intros Hwf (Hr & Hall & ->)%SetRolePermissions_Some. destruct Hwf. split; simpl; try done.
  - intros k s. rewrite lookup_insert_Some. intros [[<- <-]|[? ?]]; [|by eauto].
    split; [done|]. intros id. rewrite elem_of_list_to_set. auto.
  - intros k Hk. rewrite lookup_insert_is_Some'. auto.
Qed.

Lemma GrantUserRole_Some users v now ur v' :
  GrantUserRole users v now ur = Some v' ↔
    is_Some (users !! ur_user ur) ∧ is_Some (roles v !! ur_role ur)
    ∧ v' = set_grants v (<[(ur_user ur, ur_role ur) :=
        mkUserRole (ur_user ur) (ur_role ur) (if IsZero (ur_at ur) then now else ur_at ur) (ur_by ur)]> (userRoles v)).
Proof.
  unfold GrantUserRole. destruct (users !! ur_user ur), (roles v !! ur_role ur); simpl;
    try (split; [done|intros ([] & [] & _); done]).
  destruct ur as [a b c d]; simpl. destruct (IsZero c); simpl; split;
    first [intros [= <-]; done | by intros (_ & _ & ->)].
Qed.

Lemma GrantUserRole_wf users v next now ur v' :
  roles_wf users v next -> GrantUserRole users v now ur = Some v' -> roles_wf users v' next.
Proof.
  intros Hwf (Hu & Hr & ->)%GrantUserRole_Some. destruct Hwf. split; simpl; try done.
  intros u k ur'. rewrite lookup_insert_Some. intros [[[= <- <-] <-]|[? ?]]; eauto.
Qed.

Lemma RevokeUserRole_wf users v next userID roleID v' :
  roles_wf users v next -> RevokeUserRole v userID roleID = Some v' -> roles_wf users v' next.
Proof.
  intros Hwf Heq. unfold RevokeUserRole in Heq. destruct (userRoles v !! _) as [old|]; [|done]. simplify_eq.
  destruct Hwf. split; simpl; try done. intros u k ur [? ?]%lookup_delete_Some. eauto.
Qed.

Lemma DeleteUserCascade_wf st userID st' next :
  roles_wf (st_users st) (st_v10 st) next -> DeleteUserCascade st userID = Some st' ->
  roles_wf (st_users st') (st_v10 st') next.
Proof.
  intros Hwf Heq. unfold DeleteUserCascade in Heq. destruct (st_users st !! userID) as [usr|]; [|done]. simplify_eq.
  destruct Hwf. split; simpl; try done.
  intros u k ur [(? & ? & ? & ?)%wf_grant0 Hne]%map_lookup_filter_Some. simpl in Hne. by rewrite lookup_delete_ne.
Qed.
End Wf.

Create HintDb tenants.
#[export] Hint Resolve roles_wf_empty InsertPermission_wf UpdateRoleRow_wf store_DeleteRole_wf SetRolePermissions_wf
  GrantUserRole_wf RevokeUserRole_wf DeleteUserCascade_wf : tenants.

(** ** A concrete library, for the examples *)

Definition lower_ascii (c : ascii) : ascii :=
  let n := nat_of_ascii c in if ((65 <=? n) && (n <=? 90))%nat then ascii_of_nat (n + 32) else c.

Fixpoint lower_string (s : string) : string :=
  match s with EmptyString => EmptyString | String c s => String (lower_ascii c) (lower_string s) end.

Lemma lower_ascii_idem c : lower_ascii (lower_ascii c) = lower_ascii c.
Proof. by destruct c as [[] [] [] [] [] [] [] []]; vm_compute. Qed.

Lemma lower_string_idem s : lower_string (lower_string s) = lower_string s.
Proof. induction s as [|c s IH]; simpl; [done|]. by rewrite lower_ascii_idem, IH. Qed.

Definition example_lib : TenantLib := {|
  fresh n := "id" +:+ pretty n;
  ulid_parse s := Some s;
  to_lower := lower_string;
  trim_space s := s;
  atoi s := None;
  hash_email s := "#" +:+ s;
|}.

Lemma example_laws : @TenantLaws example_lib.
Proof.
  split; simpl.
  - intros n m Heq. apply (inj (String.append "id")) in Heq. by apply (inj pretty) in Heq.
  - done.
  - apply lower_string_idem.
Qed.

(** A store with two organizations: alice owns acme and may invite there, bob owns rival, root is a super
    admin. *)
Definition example_user (id : string) : User := mkUser id (id +:+ "@x") None "" "" 1 1 "" "" "" "".
Definition example_users : gmap string User :=
  {["alice" := example_user "alice"; "bob" := example_user "bob"; "root" := example_user "root"]}.

Definition example_v07 : v07State := mkV07
  {["acme" := mkOrganization "acme" "Acme" "acme" 1 1; "rival" := mkOrganization "rival" "Rival" "rival" 1 1]}
  {["acme" := "acme"; "rival" := "rival"]}
  {[("acme", "alice") := mkMember "acme" "alice" OrgRoleOwner 1; ("rival", "bob") := mkMember "rival" "bob" OrgRoleOwner 1;
    ("acme", "bob") := mkMember "acme" "bob" OrgRoleAdmin 2]}.

Definition example_v10 : v10State := mkV10
  {["p1" := mkPermission "p1" "users:invite" "" 1; "p2" := mkPermission "p2" "roles:admin" "" 1;
    "p3" := mkPermission "p3" "users:admin" "" 1]}
  {["users:invite" := mkPermission "p1" "users:invite" "" 1; "roles:admin" := mkPermission "p2" "roles:admin" "" 1;
    "users:admin" := mkPermission "p3" "users:admin" "" 1]}
  {["sa" := mkRole "sa" None SystemRoleSuperAdmin "" [] 1 1; "inviter" := mkRole "inviter" (Some "acme") "inviter" "" [] 1 1;
    "rivals" := mkRole "rivals" (Some "rival") "admin" "" [] 1 1]}
  {["sa" := ∅; "inviter" := {["p1"; "p2"]}; "rivals" := {["p1"; "p2"; "p3"]}]}
  {[("root", "sa") := mkUserRole "root" "sa" 1 None; ("alice", "inviter") := mkUserRole "alice" "inviter" 1 None;
    ("bob", "rivals") := mkUserRole "bob" "rivals" 1 None]}.

Definition example_session (user org : string) : Session :=
  mkSession ("s-" +:+ user) user "h" "" "" 1 100 None AuthLevelFull (Some org) 1 None "" [] 1.

Definition example_store : Store := mkStore example_users ∅
  {["s-alice" := example_session "alice" "acme"]} example_v07 example_v10
  [RoleGranted "root" "sa" SystemRoleSuperAdmin None; RoleGranted "alice" "inviter" "inviter" (Some "acme");
   RoleGranted "bob" "rivals" "admin" (Some "rival")] 0.

Definition drawn_form (k : string) : bool :=
  match k with String a (String b _) => (a =? "i")%char && (b =? "d")%char | _ => false end.

Definition not_drawn {A} (m : gmap string A) : bool := forallb (fun kv => negb (drawn_form kv.1)) (map_to_list m).

Lemma not_drawn_fresh {A} (m : gmap string A) n : not_drawn m = true -> m !! (@fresh example_lib n) = None.
Proof.
  unfold not_drawn. intros Hf. destruct (m !! _) as [x|] eqn:Hx; [|done].
  apply elem_of_map_to_list, list_elem_of_In in Hx. apply (proj1 (List.forallb_forall _ _) Hf) in Hx. discriminate Hx.
Qed.

Lemma example_roles_wf : @roles_wf example_lib example_users example_v10 0.
Proof.
  split.
  - refine (bool_decide_unpack (map_Forall (fun k r => r_id r = k) (roles example_v10)) _). by vm_compute.
  - refine (bool_decide_unpack (map_Forall (fun k p => p_id p = k ∧ permissionsByName example_v10 !! p_name p = Some p)
      (permissionsByID example_v10)) _). by vm_compute.
  - refine (bool_decide_unpack (map_Forall (fun n p => p_name p = n ∧ permissionsByID example_v10 !! p_id p = Some p)
      (permissionsByName example_v10)) _). by vm_compute.
  - refine (bool_decide_unpack (map_Forall (fun k s => is_Some (roles example_v10 !! k)
      ∧ set_Forall (fun id => is_Some (permissionsByID example_v10 !! id)) s) (rolePerms example_v10)) _). by vm_compute.
  - intros k [r Hr]. revert k r Hr.
    refine (bool_decide_unpack (map_Forall (fun k _ => is_Some (rolePerms example_v10 !! k)) (roles example_v10)) _). by vm_compute.
  - intros u k ur Hur. refine (bool_decide_unpack (map_Forall (fun uk ur => ur_user ur = uk.1 ∧ ur_role ur = uk.2
      ∧ is_Some (example_users !! uk.1) ∧ is_Some (roles example_v10 !! uk.2)) (userRoles example_v10)) _ (u, k) ur Hur). by vm_compute.
  - intros n _. split; by apply not_drawn_fresh; vm_compute.
Qed.
