(* ===== verification/Rbac.v ===== *)
(** * Roles and permissions ([internal/rbac/catalog.go], [service.go], [RequirePermission] of [middleware.go])

    The permission catalog and its validation, the role service over the tables of [Tenants], and the
    middleware that asks it. The service's configuration is optional as in the code: without it every
    method but [SeedOrgRoles] fails. Storage failures other than a missing row do not occur in the
    memory store, so the error branches that remain are the service's own. *)

From Stdlib Require Import ZArith Lia String Ascii.
From stdpp Require Import base gmap strings list sorting.
From S2P Require Import Prelude Session Tenants.

Set Default Goal Selector "!".
Open Scope string_scope.
Open Scope list_scope.
Open Scope Z_scope.

(** ** The catalog *)

Definition PermissionBillingRead := "billing:read".
Definition PermissionBillingWrite := "billing:write".
Definition PermissionBillingAdmin := "billing:admin".
Definition PermissionUsersRead := "users:read".
Definition PermissionUsersInvite := "users:invite".
Definition PermissionUsersAdmin := "users:admin".
Definition PermissionRolesRead := "roles:read".
Definition PermissionRolesAdmin := "roles:admin".
Definition PermissionAuditRead := "audit:read".
Definition PermissionSAMLAdmin := "saml:admin".
Definition PermissionSCIMAdmin := "scim:admin".
Definition PermissionSessionsRevoke := "sessions:revoke".
Definition PermissionAgentsAdmin := "agents:admin".
Definition PermissionDelegationsAdmin := "delegations:admin".

Record RoleSeed := mkRoleSeed { rs_name : string; rs_desc : string; rs_perms : list string }.

Definition seeded (name desc : string) : Permission := mkPermission "" name desc 0.

Definition SeededPermissions : list Permission := [
  seeded PermissionBillingRead "View invoices, plans, payment methods.";
  seeded PermissionBillingWrite "Update plan, change payment method, initiate refund.";
  seeded PermissionBillingAdmin "Cancel subscription, transfer billing ownership.";
  seeded PermissionUsersRead "List members of the active organization.";
  seeded PermissionUsersInvite "Send organization invites.";
  seeded PermissionUsersAdmin "Update member status, remove from org, change member role.";
  seeded PermissionRolesRead "List custom roles and their permissions.";
  seeded PermissionRolesAdmin "Create, update, delete custom roles.";
  seeded PermissionAuditRead "Query the organization's audit log.";
  seeded PermissionSAMLAdmin "Create, update, delete SAML connections.";
  seeded PermissionSCIMAdmin "Manage SCIM bearer tokens and provisioning.";
  seeded PermissionSessionsRevoke "Revoke another member's active sessions.";
  seeded PermissionAgentsAdmin "Create, update, suspend, revoke organization-owned agents.";
  seeded PermissionDelegationsAdmin "Create and revoke delegation grants on behalf of users in the organization." ].

Definition DefaultRoleSeeds : list RoleSeed :=
  let allNames := map p_name SeededPermissions in
  let adminPerms := List.filter (fun n => negb (n =? PermissionBillingAdmin)%string) allNames in
  [ mkRoleSeed OrgRoleOwner "Full administrative control." allNames;
    mkRoleSeed OrgRoleAdmin "Day-to-day administration without billing cancellation." adminPerms;
    mkRoleSeed OrgRoleMember "Read-only member of the organization." [PermissionUsersRead; PermissionAuditRead] ].

(** The [range] over the string visits runes; a byte above 0x7e is part of a rune above it. *)
Definition ValidPermissionName (s : string) : bool :=
  negb (s =? "")%string
  && forallb (fun c => negb ((126 <? nat_of_ascii c)%nat || (nat_of_ascii c <? 33)%nat)) (list_ascii_of_string s).

Inductive validate_error :=
  | InvalidPermissionName (name : string) | DuplicatePermission (name : string)
  | MissingReservedRole (name : string) | UnknownSeedPermission (seed perm : string).

Abbreviation PermIndex := (gmap string Permission).

Fixpoint add_extra (catalog : list Permission) (index : PermIndex) (extra : list Permission)
  : result validate_error (list Permission * PermIndex) :=
  match extra with
  | [] => Ok (catalog, index)
  | p :: extra =>
      if negb (ValidPermissionName (p_name p)) then Err (InvalidPermissionName (p_name p))
      else match index !! p_name p with
      | Some existing =>
          if negb (p_desc existing =? "")%string && negb (p_desc p =? "")%string && negb (p_desc existing =? p_desc p)%string
          then Err (DuplicatePermission (p_name p))
          else add_extra catalog index extra
      | None => add_extra (catalog ++ [p]) (<[p_name p := p]> index) extra
      end
  end.

Fixpoint check_seeds (index : PermIndex) (seeds : list RoleSeed) : option validate_error :=
  match seeds with
  | [] => None
  | s :: seeds =>
      match List.find (fun perm => bool_decide (index !! perm = None)) (rs_perms s) with
      | Some perm => Some (UnknownSeedPermission (rs_name s) perm)
      | None => check_seeds index seeds
      end
  end.

(** The names of the seeds that must be there. *)
Definition reserved_missing (seeds : list RoleSeed) : option string :=
  List.find (fun n => negb (existsb (String.eqb n) (map rs_name seeds))) [OrgRoleOwner; OrgRoleAdmin; OrgRoleMember].

Record Config := mkConfig {
  cf_catalog : list Permission; cf_index : PermIndex; cf_seeds : list RoleSeed;
}.

Definition index_of (l : list Permission) : PermIndex := fold_left (fun m p => <[p_name p := p]> m) l ∅.

Definition Validate (extra : list Permission) (rs : list RoleSeed) : result validate_error Config :=
  match add_extra SeededPermissions (index_of SeededPermissions) extra with
  | Err e => Err e
  | Ok (catalog, index) =>
      match (match rs with
             | [] => Ok DefaultRoleSeeds
             | _ => match reserved_missing rs with Some n => Err (MissingReservedRole n) | None => Ok rs end
             end) with
      | Err e => Err e
      | Ok seeds =>
          match check_seeds index seeds with
          | Some e => Err e
          | None => Ok (mkConfig (sort_by perm_less catalog) index seeds)
          end
      end
  end.

(** ** The service *)

Inductive rbac_error := ErrRBACDisabled | ErrUnknownPermission (name : string) | ErrNotFound | ErrForbidden | ErrRoleInUse.

Definition with_name (r : Role) (name desc : string) (now : Z) : Role :=
  mkRole (r_id r) (r_org r) (if (name =? "")%string then r_name r else name) desc (r_perms r) (r_created r) now.

Section Service.
Context `{TenantLib} (cfg : option Config).

Fixpoint seed_permissions (now : Z) (catalog : list Permission) (st : Store) (out : list Permission)
  : Store * list Permission :=
  match catalog with
  | [] => (st, out)
  | p :: catalog =>
      let '(st, p) := if (p_id p =? "")%string then let '(st, id) := New st in (st, with_p_id p id) else (st, p) in
      let p := if IsZero (p_created p) then with_p_created p now else p in
      let '(v, row) := InsertPermission (st_v10 st) now p in
      seed_permissions now catalog (set_v10 st v) (out ++ [row])
  end.

Definition SeedPermissions (st : Store) (now : Z) : Store * result rbac_error (list Permission) :=
  match cfg with
  | None => (st, Err ErrRBACDisabled)
  | Some c => let '(st, out) := seed_permissions now (cf_catalog c) st [] in (st, Ok out)
  end.

(** Resolve names in a map; [Err] holds the first unknown name. *)
Fixpoint resolve (m : gmap string Permission) (names : list string) : result string (list string) :=
  match names with
  | [] => Ok []
  | n :: names =>
      match m !! n with
      | None => Err n
      | Some p => match resolve m names with Ok ids => Ok (p_id p :: ids) | Err e => Err e end
      end
  end.

(** The id of the seed's role, created when it is missing. *)
Definition ensure_role (st : Store) (now : Z) (orgID : string) (seed : RoleSeed) : Store * option string :=
  match RoleByOrgAndName (st_v10 st) (Some orgID) (rs_name seed) with
  | Some role => (st, Some (r_id role))
  | None =>
      let '(st, id) := New st in
      match InsertRole (st_v10 st) now (mkRole id (Some orgID) (rs_name seed) (rs_desc seed) [] now now) with
      | None => (st, None)
      | Some (v, created) => (set_v10 st v, Some (r_id created))
      end
  end.

Fixpoint seed_roles (now : Z) (orgID : string) (permByName : gmap string Permission) (seeds : list RoleSeed) (st : Store)
  : Store * option rbac_error :=
  match seeds with
  | [] => (st, None)
  | seed :: seeds =>
      match ensure_role st now orgID seed with
      | (st, None) => (st, Some ErrNotFound)
      | (st, Some roleID) =>
          match resolve permByName (rs_perms seed) with
          | Err n => (st, Some (ErrUnknownPermission n))
          | Ok permIDs =>
              match SetRolePermissions (st_v10 st) roleID permIDs with
              | None => (st, Some ErrNotFound)
              | Some v => seed_roles now orgID permByName seeds (set_v10 st v)
              end
          end
      end
  end.

Definition SeedOrgRoles (st : Store) (now : Z) (orgID : string) : Store * option rbac_error :=
  match cfg with
  | None => (st, None)
  | Some c =>
      match SeedPermissions st now with
      | (st, Err e) => (st, Some e)
      | (st, Ok perms) => seed_roles now orgID (index_of perms) (cf_seeds c) st
      end
  end.

Definition service_PermissionsForUser (st : Store) (userID : string) (orgID : option string) : result rbac_error (list string) :=
  match cfg with None => Err ErrRBACDisabled | Some _ => Ok (PermissionsForUser (st_v10 st) userID orgID) end.

Definition HasPermission (st : Store) (userID : string) (orgID : option string) (perm : string) : result rbac_error bool :=
  match cfg with
  | None => Err ErrRBACDisabled
  | Some c =>
      match cf_index c !! perm with
      | None => Err (ErrUnknownPermission perm)
      | Some _ =>
          if is_super_admin (st_v10 st) userID then Ok true
          else match orgID with
          | None => Ok false
          | Some _ => Ok (existsb (fun p => (p =? perm)%string) (PermissionsForUser (st_v10 st) userID orgID))
          end
      end
  end.

Definition GrantRole (st : Store) (now : Z) (actor target roleID : string) : Store * option rbac_error :=
  match cfg with
  | None => (st, Some ErrRBACDisabled)
  | Some _ =>
      match RoleByID (st_v10 st) roleID with
      | None => (st, Some ErrNotFound)
      | Some role =>
          if bool_decide (r_org role = None) && (r_name role =? SystemRoleSuperAdmin)%string then (st, Some ErrForbidden)
          else match GrantUserRole (st_users st) (st_v10 st) now (mkUserRole target roleID now (Some actor)) with
          | None => (st, Some ErrNotFound)
          | Some v => (EmitAudit (set_v10 st v) (RoleGranted target roleID (r_name role) (r_org role)), None)
          end
      end
  end.

Definition RevokeRole (st : Store) (target roleID : string) : Store * option rbac_error :=
  match cfg with
  | None => (st, Some ErrRBACDisabled)
  | Some _ =>
      match RoleByID (st_v10 st) roleID with
      | None => (st, Some ErrNotFound)
      | Some role =>
          match RevokeUserRole (st_v10 st) target roleID with
          | None => (st, Some ErrNotFound)
          | Some v => (EmitAudit (set_v10 st v) (RoleRevoked target roleID (r_name role)), None)
          end
      end
  end.

Definition validatePermissions (c : Config) (perms : list string) : option rbac_error :=
  ErrUnknownPermission <$> List.find (fun p => bool_decide (cf_index c !! p = None)) perms.

(** A name that is missing in storage is [ErrStorageNotFound]. *)
Definition permIDsForNames (v : v10State) (names : list string) : option (list string) :=
  mapM (fun name => p_id <$> PermissionByName v name) names.

Definition CreateRole (st : Store) (now : Z) (orgID name desc : string) (perms : list string)
  : Store * result rbac_error Role :=
  match cfg with
  | None => (st, Err ErrRBACDisabled)
  | Some c =>
      match validatePermissions c perms with
      | Some e => (st, Err e)
      | None =>
          let '(st, id) := New st in
          match InsertRole (st_v10 st) now (mkRole id (Some orgID) name desc [] now now) with
          | None => (st, Err ErrNotFound)
          | Some (v, created) =>
              let st := set_v10 st v in
              match permIDsForNames (st_v10 st) perms with
              | None => (st, Err ErrNotFound)
              | Some permIDs =>
                  match SetRolePermissions (st_v10 st) (r_id created) permIDs with
                  | None => (st, Err ErrNotFound)
                  | Some v => (EmitAudit (set_v10 st v) (RoleCreated (r_id created) name perms),
                               Ok (with_r_perms created perms))
                  end
              end
          end
      end
  end.

(** [perms] is [None] when the slice is nil. *)
Definition UpdateRole (st : Store) (now : Z) (roleID name desc : string) (perms : option (list string))
  : Store * result rbac_error Role :=
  match cfg with
  | None => (st, Err ErrRBACDisabled)
  | Some c =>
      match RoleByID (st_v10 st) roleID with
      | None => (st, Err ErrNotFound)
      | Some role =>
          match UpdateRoleRow (st_v10 st) now (with_name role name desc now) with
          | None => (st, Err ErrNotFound)
          | Some (v, updated) =>
              let st := set_v10 st v in
              match perms with
              | None => (EmitAudit st (RoleUpdated roleID (r_name updated) (r_perms updated)), Ok updated)
              | Some perms =>
                  match validatePermissions c perms with
                  | Some e => (st, Err e)
                  | None =>
                      match permIDsForNames (st_v10 st) perms with
                      | None => (st, Err ErrNotFound)
                      | Some permIDs =>
                          match SetRolePermissions (st_v10 st) roleID permIDs with
                          | None => (st, Err ErrNotFound)
                          | Some v => (EmitAudit (set_v10 st v) (RoleUpdated roleID (r_name updated) perms),
                                       Ok (with_r_perms updated perms))
                          end
                      end
                  end
              end
          end
      end
  end.

(** The lockout check of [DeleteRole]. *)
Definition delete_refused (v : v10State) (role : Role) (roleID : string) : result rbac_error bool :=
  match r_org role with
  | None => Ok false
  | Some orgID =>
      let count := CountUsersWithPermissionInOrg v orgID PermissionUsersAdmin in
      match PermissionsByRole v roleID with
      | None => Err ErrNotFound
      | Some perms => Ok (existsb (fun p => (p =? PermissionUsersAdmin)%string) perms && (count <=? 1)%nat)
      end
  end.

Definition DeleteRole (st : Store) (roleID : string) : Store * option rbac_error :=
  match cfg with
  | None => (st, Some ErrRBACDisabled)
  | Some _ =>
      match RoleByID (st_v10 st) roleID with
      | None => (st, Some ErrNotFound)
      | Some role =>
          match delete_refused (st_v10 st) role roleID with
          | Err e => (st, Some e)
          | Ok true => (st, Some ErrRoleInUse)
          | Ok false =>
              match store_DeleteRole (st_v10 st) roleID with
              | None => (st, Some ErrNotFound)
              | Some v => (EmitAudit (set_v10 st v) (RoleDeleted roleID), None)
              end
          end
      end
  end.
End Service.

(** ** The middleware ([middleware.go]) *)

(** The cache of one request; [pc_done] is whether its [Once] has run. *)
Record PermissionCache := mkCache { pc_done : bool; pc_set : gset string; pc_org : option string; pc_super : bool }.

Definition SetFromList (l : list string) : gset string := list_to_set l.

(** What a middleware answers: a problem, or the next handler with the cache in its context. *)
Inductive gate_answer := Problem (status : Z) (code : string) | Serve (cache : PermissionCache).

Definition fill_cache (v : v10State) (userID : string) (org : option string) (c : PermissionCache) : PermissionCache :=
  if pc_done c then c
  else if is_super_admin v userID then mkCache true ∅ (pc_org c) true
  else mkCache true (SetFromList (PermissionsForUser v userID org)) (pc_org c) false.

(** [auth] is the user and session that [Authn] put in the context, [cache] the cache found there. *)
Definition RequirePermission (cfg : option Config) (v : v10State) (auth : option (User * Session))
  (cache : option PermissionCache) (perms : list string) : gate_answer :=
  match cfg with
  | None => Problem 500 "rbac.disabled"
  | Some _ =>
      match auth with
      | None => Problem 401 "auth.unauthenticated"
      | Some (user, sess) =>
          if negb (se_level sess =? "")%string && negb (se_level sess =? AuthLevelFull)%string
          then Problem 401 "auth.step_up_required"
          else match se_org sess with
          | None => Problem 403 "rbac.no_active_org"
          | Some org =>
              let fresh_cache := mkCache false ∅ (Some org) false in
              let cache := match cache with
                | None => fresh_cache
                | Some c => if match pc_org c with Some o => negb (o =? org)%string | None => false end then fresh_cache else c
                end in
              let cache := fill_cache v (u_id user) (Some org) cache in
              if negb (pc_super cache) && existsb (fun p => bool_decide (p ∉ pc_set cache)) perms
              then Problem 403 "rbac.forbidden"
              else Serve cache
          end
      end
  end.

(** ** What a check answers *)

Section Checks.
Context (c : Config) (st : Store).

Lemma HasPermission_spec userID orgID perm :
  HasPermission (Some c) st userID orgID perm = Ok true ↔
    is_Some (cf_index c !! perm)
    ∧ (super_admin (st_v10 st) userID ∨ ∃ org, orgID = Some org ∧ user_holds (st_v10 st) userID (Some org) perm).
Proof.
  unfold HasPermission. destruct (cf_index c !! perm); [|split; [done|by intros [[] _]]].
  destruct (is_super_admin (st_v10 st) userID) eqn:Hs.
  { apply is_super_admin_spec in Hs. split; [by eauto|done]. }
  assert (Hns : ~ super_admin (st_v10 st) userID) by (rewrite <- is_super_admin_spec; congruence).
  destruct orgID as [org|]; [|split; [done|by intros (_ & [?|(? & ? & _)])]].
  transitivity (perm ∈ PermissionsForUser (st_v10 st) userID (Some org)).
  - split.
    + intros [= (q & Hin & ->%String.eqb_eq)%existsb_true_iff]. done.
    + intros Hin. f_equal. apply existsb_true_iff. exists perm. by rewrite String.eqb_refl.
  - rewrite elem_of_PermissionsForUser. naive_solver.
Qed.

End Checks.

(** The level of a session that passed every factor it needs. *)
Definition full_level (s : Session) : Prop := se_level s = "" ∨ se_level s = AuthLevelFull.

#[global] Instance full_level_dec s : Decision (full_level s).
Proof. unfold full_level. apply _. Defined.

Lemma level_check s :
  negb (se_level s =? "")%string && negb (se_level s =? AuthLevelFull)%string = false ↔ full_level s.
Proof. unfold full_level. rewrite andb_false_iff, !negb_false_iff, !String.eqb_eq. done. Qed.

(** The cache that a request starts with, filled. *)
Definition request_cache (v : v10State) (userID org : string) : PermissionCache :=
  fill_cache v userID (Some org) (mkCache false ∅ (Some org) false).

Lemma request_cache_ok v userID org perms :
  negb (pc_super (request_cache v userID org))
    && existsb (fun p => bool_decide (p ∉ pc_set (request_cache v userID org))) perms = false ↔
  super_admin v userID ∨ ∀ p, p ∈ perms -> user_holds v userID (Some org) p.
Proof.
  unfold request_cache, fill_cache. simpl. rewrite <- is_super_admin_spec.
  destruct (is_super_admin v userID); simpl; [naive_solver|].
  rewrite existsb_false_iff. setoid_rewrite bool_decide_eq_false. split.
  - intros Hp. right. intros p Hin. destruct (decide (p ∈ SetFromList (PermissionsForUser v userID (Some org)))) as [Hs|].
    + by apply elem_of_list_to_set, elem_of_PermissionsForUser in Hs.
    + exfalso. by apply (Hp p).
  - intros [?|Hp]; [done|]. intros p Hin Hn. apply Hn, elem_of_list_to_set, elem_of_PermissionsForUser. auto.
Qed.

Lemma RequirePermission_fresh c v user sess org perms :
  full_level sess -> se_org sess = Some org ->
  RequirePermission (Some c) v (Some (user, sess)) None perms =
    let cache := request_cache v (u_id user) org in
    if negb (pc_super cache) && existsb (fun p => bool_decide (p ∉ pc_set cache)) perms
    then Problem 403 "rbac.forbidden" else Serve cache.
Proof. intros Hl%level_check Ho. unfold RequirePermission. by rewrite Hl, Ho. Qed.

(** The middleware runs the handler exactly when RBAC is on, the session is authenticated to the level it
    needs and has an active organization, and its user is a super admin or holds every permission named in
    that organization through a granted role. *)
Lemma RequirePermission_serves_iff cfg v auth perms :
  (∃ cache, RequirePermission cfg v auth None perms = Serve cache) ↔
    is_Some cfg ∧ ∃ user sess org, auth = Some (user, sess) ∧ full_level sess ∧ se_org sess = Some org
      ∧ (super_admin v (u_id user) ∨ ∀ p, p ∈ perms -> user_holds v (u_id user) (Some org) p).
Proof.
  destruct cfg as [c|]; [|split; [by intros []|by intros [[] _]]].
  destruct auth as [[user sess]|]; [|split; [by intros []|by intros (_ & ? & ? & ? & ? & _)]].
  destruct (decide (full_level sess)) as [Hl|Hl].
  2:{ split; [|by intros (_ & u & s & ? & [= <- <-] & ? & _)]. unfold RequirePermission.
      destruct (negb _ && negb _) eqn:E; [by intros []|]. by apply level_check in E. }
  destruct (se_org sess) as [org|] eqn:Ho.
  2:{ split; [|naive_solver]. unfold RequirePermission. rewrite (proj2 (level_check _) Hl), Ho. by intros []. }
  rewrite (RequirePermission_fresh c v user sess org) by done. simpl.
  pose proof (request_cache_ok v (u_id user) org perms) as Hc.
  destruct (negb _ && existsb _ _); split.
  - by intros [].
  - intros (_ & u & s & o & [= <- <-] & _ & Ho' & Hp). rewrite Ho in Ho'. simplify_eq. by apply Hc in Hp.
  - intros _. split; [done|]. exists user, sess, org. repeat split; try done. by apply Hc.
  - intros _. by eexists.
Qed.

(** Two gates in a row on one request, the second with the cache the first left in the context, answer as
    one gate that names the permissions of both. *)
Theorem gates_compose cfg v auth ps qs :
  match RequirePermission cfg v auth None ps with
  | Serve cache => RequirePermission cfg v auth (Some cache) qs
  | Problem status code => Problem status code
  end = RequirePermission cfg v auth None (ps ++ qs).
Proof.
  unfold RequirePermission. destruct cfg as [c|]; [|done]. destruct auth as [[user sess]|]; [|done].
  destruct (negb (se_level sess =? "")%string && _); [done|]. destruct (se_org sess) as [org|]; [|done].
  rewrite existsb_app. fold (request_cache v (u_id user) org).
  destruct (request_cache v (u_id user) org) as [dn s o sup] eqn:Hc.
  assert (Hc' : dn = true ∧ o = Some org).
  { unfold request_cache, fill_cache in Hc. simpl in Hc. destruct (is_super_admin _ _); by simplify_eq. }
  destruct Hc' as [-> ->]. simpl. destruct sup; simpl.
  - by rewrite String.eqb_refl.
  - destruct (existsb _ ps); simpl; [done|]. by rewrite String.eqb_refl.
Qed.

(** ** Runs of the service *)

(** One call of the service, as the public API makes it. *)
Inductive rbac_op :=
  | OpSeedPermissions
  | OpSeedOrgRoles (org : string)
  | OpGrant (actor target role : string)
  | OpRevoke (target role : string)
  | OpCreate (org name desc : string) (perms : list string)
  | OpUpdate (role name desc : string) (perms : option (list string))
  | OpDelete (role : string).

Definition exec_op `{TenantLib} (cfg : option Config) (now : Z) (st : Store) (op : rbac_op) : Store :=
  match op with
  | OpSeedPermissions => (SeedPermissions cfg st now).1
  | OpSeedOrgRoles org => (SeedOrgRoles cfg st now org).1
  | OpGrant actor target role => (GrantRole cfg st now actor target role).1
  | OpRevoke target role => (RevokeRole cfg st target role).1
  | OpCreate org name desc perms => (CreateRole cfg st now org name desc perms).1
  | OpUpdate role name desc perms => (UpdateRole cfg st now role name desc perms).1
  | OpDelete role => (DeleteRole cfg st role).1
  end.

(** A run: calls with the time of each. *)
Definition run_ops `{TenantLib} (cfg : option Config) (st : Store) (ops : list (Z * rbac_op)) : Store :=
  fold_left (fun st op => exec_op cfg op.1 st op.2) ops st.

(** The storage calls that the service makes, in order, as steps of the store. A row is inserted under the id
    drawn for it; a grant, a revocation and a deletion come with their audit entry. [U] are the roles that
    may be updated. *)
Section Steps.
Context `{TenantLib} (U : string -> Prop).

Inductive rbac_step : Store -> Store -> Prop :=
  | s_draw st : rbac_step st (New st).1
  | s_perm st now p : p_id p = fresh (st_next st) ->
      rbac_step st (set_v10 (New st).1 (InsertPermission (st_v10 st) now p).1)
  | s_role st now org name desc v r :
      InsertRole (st_v10 st) now (mkRole (fresh (st_next st)) (Some org) name desc [] now now) = Some (v, r) ->
      rbac_step st (set_v10 (New st).1 v)
  | s_set st id ids v : SetRolePermissions (st_v10 st) id ids = Some v -> rbac_step st (set_v10 st v)
  | s_update st now r v r' : U (r_id r) -> UpdateRoleRow (st_v10 st) now r = Some (v, r') -> rbac_step st (set_v10 st v)
  | s_created st id name perms : rbac_step st (EmitAudit st (RoleCreated id name perms))
  | s_updated st id name perms : rbac_step st (EmitAudit st (RoleUpdated id name perms))
  | s_grant st now ur role v : roles (st_v10 st) !! ur_role ur = Some role ->
      ~ (r_org role = None ∧ r_name role = SystemRoleSuperAdmin) ->
      GrantUserRole (st_users st) (st_v10 st) now ur = Some v ->
      rbac_step st (EmitAudit (set_v10 st v) (RoleGranted (ur_user ur) (ur_role ur) (r_name role) (r_org role)))
  | s_revoke st target roleID name v : RevokeUserRole (st_v10 st) target roleID = Some v ->
      rbac_step st (EmitAudit (set_v10 st v) (RoleRevoked target roleID name))
  | s_delete st roleID v : store_DeleteRole (st_v10 st) roleID = Some v ->
      rbac_step st (EmitAudit (set_v10 st v) (RoleDeleted roleID)).

Lemma seed_permissions_steps now catalog st out :
  Forall (fun p => p_id p = "") catalog -> rtc rbac_step st (seed_permissions now catalog st out).1.
Proof.
  intros Hz. revert st out. induction Hz as [|p catalog Hp _ IH]; intros st out; simpl; [done|].
  rewrite Hp. simpl. set (q := if IsZero _ then _ else _).
  assert (Hq : p_id q = fresh (st_next st)) by (unfold q; by destruct (IsZero _)).
  destruct (InsertPermission (st_v10 st) now q) as [v row] eqn:Hi. eapply rtc_l; [|apply IH].
  pose proof (s_perm st now q Hq) as Hs. by rewrite Hi in Hs.
Qed.

Lemma ensure_role_steps st now orgID seed : rtc rbac_step st (ensure_role st now orgID seed).1.
Proof.
  unfold ensure_role. destruct (RoleByOrgAndName _ _ _); [done|]. simpl. destruct (InsertRole _ _ _) as [[v r]|] eqn:Hi.
  - simpl. apply rtc_once. by eapply s_role.
  - apply rtc_once, s_draw.
Qed.

Lemma seed_roles_steps now orgID m seeds st : rtc rbac_step st (seed_roles now orgID m seeds st).1.
Proof.
  revert st. induction seeds as [|seed seeds IH]; intros st; simpl; [done|].
  pose proof (ensure_role_steps st now orgID seed) as He.
  destruct (ensure_role st now orgID seed) as [st' [roleID|]]; simpl in He; [|done].
  destruct (resolve _ _) as [ids|]; [|done]. destruct (SetRolePermissions _ _ _) as [v|] eqn:Hs; [|done].
  etransitivity; [exact He|]. eapply rtc_l; [by eapply s_set|apply IH].
Qed.

(** The catalog entries of a configuration have no ids of their own yet. *)
Definition ids_unassigned (cfg : option Config) : Prop :=
  match cfg with None => True | Some c => Forall (fun p => p_id p = "") (cf_catalog c) end.

Lemma SeedOrgRoles_steps cfg st now org : ids_unassigned cfg -> rtc rbac_step st (SeedOrgRoles cfg st now org).1.
Proof.
  intros Hz. unfold SeedOrgRoles. destruct cfg as [c|]; [|done]. simpl.
  pose proof (seed_permissions_steps now (cf_catalog c) st [] Hz) as Hs.
  destruct (seed_permissions now (cf_catalog c) st []) as [st' out]. etransitivity; [exact Hs|]. apply seed_roles_steps.
Qed.

Lemma CreateRole_steps cfg st now org name desc perms : rtc rbac_step st (CreateRole cfg st now org name desc perms).1.
Proof.
  unfold CreateRole. destruct cfg as [c|]; [|done]. destruct (validatePermissions c perms); [done|]. simpl.
  destruct (InsertRole _ _ _) as [[v r]|] eqn:Hi; [|apply rtc_once, s_draw]. apply s_role in Hi.
  destruct (permIDsForNames _ _) as [ids|]; [|by apply rtc_once]. simpl.
  destruct (SetRolePermissions _ _ _) as [v'|] eqn:Hs; [|by apply rtc_once]. simpl.
  eapply rtc_l; [exact Hi|]. eapply rtc_l; [eapply (s_set (set_v10 (New st).1 v)); exact Hs|]. apply rtc_once, s_created.
Qed.

Lemma UpdateRole_steps cfg st now roleID name desc perms :
  (∀ r, roles (st_v10 st) !! roleID = Some r -> U (r_id r)) -> rtc rbac_step st (UpdateRole cfg st now roleID name desc perms).1.
Proof.
  intros HU. unfold UpdateRole. destruct cfg as [c|]; [|done].
  destruct (RoleByID (st_v10 st) roleID) as [role|] eqn:Hr; [|done].
  apply fmap_Some in Hr as (row & Hrow & ->).
  destruct (UpdateRoleRow _ _ _) as [[v r]|] eqn:Hu; [|done].
  apply s_update in Hu; [|simpl; by apply HU]. destruct perms as [perms|].
  - destruct (validatePermissions c perms); [by apply rtc_once|].
    destruct (permIDsForNames _ _) as [ids|]; [|by apply rtc_once].
    destruct (SetRolePermissions _ _ _) as [v'|] eqn:Hs; [|by apply rtc_once]. simpl.
    eapply rtc_l; [exact Hu|]. eapply rtc_l; [eapply (s_set (set_v10 st v)); exact Hs|]. apply rtc_once, s_updated.
  - simpl. eapply rtc_l; [exact Hu|]. apply rtc_once, s_updated.
Qed.

Lemma GrantRole_steps cfg st now actor target roleID : rtc rbac_step st (GrantRole cfg st now actor target roleID).1.
Proof.
  unfold GrantRole. destruct cfg as [c|]; [|done].
  destruct (RoleByID (st_v10 st) roleID) as [role|] eqn:Hr; [|done]. apply fmap_Some in Hr as (row & Hrow & ->). simpl.
  destruct (bool_decide (r_org row = None) && _) eqn:Hs; [done|].
  destruct (GrantUserRole _ _ _ _) as [v|] eqn:Hg; [|done]. apply rtc_once. eapply s_grant in Hg; [exact Hg|exact Hrow|].
  intros [Ho Hn]. rewrite Ho, Hn, bool_decide_true in Hs by done. done.
Qed.

Lemma RevokeRole_steps cfg st target roleID : rtc rbac_step st (RevokeRole cfg st target roleID).1.
Proof.
  unfold RevokeRole. destruct cfg as [c|]; [|done]. destruct (RoleByID _ _); [|done].
  destruct (RevokeUserRole _ _ _) eqn:Hr; [|done]. apply rtc_once. by eapply s_revoke.
Qed.

Lemma DeleteRole_steps cfg st roleID : rtc rbac_step st (DeleteRole cfg st roleID).1.
Proof.
  unfold DeleteRole. destruct cfg as [c|]; [|done]. destruct (RoleByID _ _); [|done].
  destruct (delete_refused _ _ _) as [[]|]; [done| |done]. destruct (store_DeleteRole _ _) eqn:Hd; [|done].
  apply rtc_once. by eapply s_delete.
Qed.

Lemma exec_op_steps cfg now st op :
  ids_unassigned cfg ->
  (∀ role name desc perms, op = OpUpdate role name desc perms -> ∀ r, roles (st_v10 st) !! role = Some r -> U (r_id r)) ->
  rtc rbac_step st (exec_op cfg now st op).
Proof.
  intros Hz HU. destruct op; simpl; auto using SeedOrgRoles_steps, CreateRole_steps, GrantRole_steps, RevokeRole_steps,
    DeleteRole_steps; [|apply UpdateRole_steps; by eapply HU].
  unfold SeedPermissions. destruct cfg as [c|]; [|done].
  pose proof (seed_permissions_steps now (cf_catalog c) st [] Hz) as Hs.
  by destruct (seed_permissions now (cf_catalog c) st []).
Qed.
End Steps.

(** ** The invariants of a run *)

(** The role tables of a store are well formed. *)
Definition store_wf `{TenantLib} (st : Store) : Prop := roles_wf (st_users st) (st_v10 st) (st_next st).

Section Invariants.
Context `{TenantLaws}.

Lemma fresh_later n m : (S n <= m)%nat -> fresh n ≠ fresh m.
Proof. intros Hle He%fresh_inj. lia. Qed.

Lemma rbac_step_wf U st st' : rbac_step U st st' -> store_wf st -> store_wf st'.
Proof.
  intros Hs Hwf. unfold store_wf in *. assert (Hn := roles_wf_next _ _ _ (S (st_next st)) (Nat.le_succ_diag_r _) Hwf).
  destruct Hs as [| ? ? ? Hid | | | | | | | |]; simpl in *; eauto with tenants.
  - apply InsertPermission_wf; [done|]. rewrite Hid. intros _. split; [by apply (wf_fresh _ _ _ Hwf)|]. intros n Hle. by apply fresh_later.
  - eapply InsertRole_wf; [exact Hn|done|]. intros n Hle. by apply fresh_later.
Qed.

Lemma rbac_steps_wf U st st' : rtc (rbac_step U) st st' -> store_wf st -> store_wf st'.
Proof. induction 1; eauto using rbac_step_wf. Qed.

(** What a reader of audit entries does to the grants he knows of. *)
Definition replay_entry (g : gset (string * string)) (e : Audit) : gset (string * string) :=
  match e with
  | RoleGranted target role _ _ => {[(target, role)]} ∪ g
  | RoleRevoked target role _ => g ∖ {[(target, role)]}
  | RoleDeleted role => filter (fun k => k.2 ≠ role) g
  | AccountDeleted user _ _ => filter (fun k => k.1 ≠ user) g
  | _ => g
  end.
Definition replay (g : gset (string * string)) (trail : list Audit) : gset (string * string) := fold_left replay_entry trail g.

(** The audit entries since the trail was [old], replayed on the grants [g] of that time, tell the grants in force. *)
Definition trail_tells (g : gset (string * string)) (old : list Audit) (st : Store) : Prop :=
  ∃ new, st_audit st = old ++ new ∧ dom (userRoles (st_v10 st)) = replay g new.

Lemma trail_tells_start st : trail_tells (dom (userRoles (st_v10 st))) (st_audit st) st.
Proof. exists []. by rewrite app_nil_r. Qed.

Lemma replay_snoc g trail e : replay g (trail ++ [e]) = replay_entry (replay g trail) e.
Proof. unfold replay. by rewrite fold_left_app. Qed.

(** A step without an entry that leaves the grants, and a step with one that says what it does to them. *)
Lemma trail_tells_quiet g old st st' :
  st_audit st' = st_audit st -> dom (userRoles (st_v10 st')) = dom (userRoles (st_v10 st)) -> trail_tells g old st -> trail_tells g old st'.
Proof. intros Ha Hd (new & ? & ?). exists new. rewrite Ha, Hd. done. Qed.

Lemma trail_tells_entry g old st st' e :
  st_audit st' = st_audit st ++ [e] -> dom (userRoles (st_v10 st')) = replay_entry (dom (userRoles (st_v10 st))) e ->
  trail_tells g old st -> trail_tells g old st'.
Proof. intros Ha Hd (new & Hn & Hr). exists (new ++ [e]). by rewrite Ha, Hd, Hn, Hr, <- app_assoc, replay_snoc. Qed.

Lemma dom_filter_keys {A} (P : string * string -> Prop) `{∀ k, Decision (P k)} `{∀ kv : string * string * A, Decision (P kv.1)}
  (m : gmap (string * string) A) :
  dom (filter (fun kv => P kv.1) m) = filter P (dom m).
Proof.
  apply set_eq. intros k. rewrite elem_of_filter, !elem_of_dom. split.
  - intros [x [Hx Hp]%map_lookup_filter_Some]. split; [done|by eexists].
  - intros [Hp [x Hx]]. exists x. by apply map_lookup_filter_Some.
Qed.

Lemma rbac_step_trail U g old st st' : rbac_step U st st' -> trail_tells g old st -> trail_tells g old st'.
Proof.
  intros Hs. destruct Hs as [| | ? ? ? ? ? ? ? Hi | ? ? ? ? Hi | ? ? ? ? ? _ Hi | | | ? ? ? ? ? _ _ Hi
    | ? ? ? ? ? Hi | ? ? ? Hi].
  6-10: eapply trail_tells_entry; [done|simpl].
  1-5: apply trail_tells_quiet; [done|simpl].
  all: try done.
  - unfold InsertPermission. by destruct (permissionsByName _ !! _).
  - unfold InsertRole in Hi. destruct (existsb _ _); by simplify_eq.
  - by apply SetRolePermissions_Some in Hi as (_ & _ & ->).
  - unfold UpdateRoleRow in Hi. destruct (roles _ !! _); by simplify_eq.
  - apply GrantUserRole_Some in Hi as (_ & _ & ->). simpl. by rewrite dom_insert_L.
  - unfold RevokeUserRole in Hi. destruct (userRoles _ !! _); simplify_eq/=. by rewrite dom_delete_L.
  - unfold store_DeleteRole in Hi. destruct (roles _ !! _); simplify_eq/=. apply (dom_filter_keys (fun k => k.2 ≠ roleID)).
Qed.

(** The store, with everybody but its role tables, trail and ids as it was. *)
Lemma rbac_step_frame U st st' : rbac_step U st st' ->
  st_users st' = st_users st ∧ st_sessions st' = st_sessions st ∧ st_v07 st' = st_v07 st.
Proof. by destruct 1. Qed.

(** A role of the system, as opposed to one of an organization. *)
Definition system_role (v : v10State) (k : string) : Prop := ∃ r, roles v !! k = Some r ∧ r_org r = None.

Lemma rbac_step_system U st st' k r :
  rbac_step U st st' -> store_wf st -> (∀ k, U k -> ~ system_role (st_v10 st) k) ->
  roles (st_v10 st') !! k = Some r -> r_org r = None -> roles (st_v10 st) !! k = Some r.
Proof.
  intros Hs Hwf HU Hr Ho. destruct Hs as [| | ? ? ? ? ? ? ? Hi | ? ? ? ? Hi | ? ? ? ? ? Hid Hi | | | ? ? ? ? ? _ _ Hi
    | ? ? ? ? ? Hi | ? ? ? Hi]; simpl in *; try done.
  - unfold InsertPermission in Hr. by destruct (permissionsByName _ !! _).
  - unfold InsertRole in Hi. destruct (existsb _ _); simplify_eq/=. apply lookup_insert_Some in Hr as [[_ <-]|[_ Hr]]; done.
  - apply SetRolePermissions_Some in Hi as (_ & _ & ->). done.
  - unfold UpdateRoleRow in Hi. destruct (roles _ !! _) as [e|] eqn:He; simplify_eq/=.
    apply lookup_insert_Some in Hr as [[<- <-]|[_ Hr]]; [|done]. destruct (HU _ Hid). by exists e.
  - apply GrantUserRole_Some in Hi as (_ & _ & ->). done.
  - unfold RevokeUserRole in Hi. destruct (userRoles _ !! _); by simplify_eq.
  - unfold store_DeleteRole in Hi. destruct (roles _ !! _); simplify_eq/=. by apply lookup_delete_Some in Hr as [_ ?].
Qed.

Lemma rbac_step_grants U st st' u k :
  rbac_step U st st' -> granted (st_v10 st') u k ->
  granted (st_v10 st) u k
  ∨ (∃ r, roles (st_v10 st) !! k = Some r ∧ ~ (r_org r = None ∧ r_name r = SystemRoleSuperAdmin)).
Proof.
  unfold granted. intros Hs Hg. destruct Hs as [| | ? ? ? ? ? ? ? Hi | ? ? ? ? Hi | ? ? ? ? ? Hid Hi | | | ? ? ? ? ? Hr Hn Hi
    | ? ? ? ? ? Hi | ? ? ? Hi]; simpl in *; try by left.
  - left. unfold InsertPermission in Hg. by destruct (permissionsByName _ !! _).
  - left. unfold InsertRole in Hi. destruct (existsb _ _); by simplify_eq/=.
  - left. by apply SetRolePermissions_Some in Hi as (_ & _ & ->).
  - left. unfold UpdateRoleRow in Hi. destruct (roles _ !! _) as [e|] eqn:He; by simplify_eq/=.
  - apply GrantUserRole_Some in Hi as (_ & _ & ->). simpl in Hg.
    apply lookup_insert_is_Some' in Hg as [[= <- <-]|Hg]; [right; eauto|by left].
  - left. unfold RevokeUserRole in Hi. destruct (userRoles _ !! _); simplify_eq/=.
    destruct Hg as [x [_ Hx]%lookup_delete_Some]. by eexists.
  - left. unfold store_DeleteRole in Hi. destruct (roles _ !! _); simplify_eq/=.
    destruct Hg as [x [Hx _]%map_lookup_filter_Some]. by eexists.
Qed.

(** A step makes nobody a super admin, when the roles it may update are of organizations. *)
Lemma rbac_step_super U st st' u :
  rbac_step U st st' -> store_wf st -> (∀ k, U k -> ~ system_role (st_v10 st) k) ->
  super_admin (st_v10 st') u -> super_admin (st_v10 st) u.
Proof.
  intros Hs Hwf HU (k & r & Hg & Hr & Ho & Hn). pose proof (rbac_step_system _ _ _ _ _ Hs Hwf HU Hr Ho) as Hr'.
  destruct (rbac_step_grants _ _ _ _ _ Hs Hg) as [?|(r' & ? & Hno)]; [by exists k, r|]. simplify_eq. by destruct Hno.
Qed.

Lemma rbac_steps_super U st st' :
  rtc (rbac_step U) st st' -> store_wf st -> (∀ k, U k -> ~ system_role (st_v10 st) k) ->
  (∀ k, U k -> ~ system_role (st_v10 st') k) ∧ ∀ u, super_admin (st_v10 st') u -> super_admin (st_v10 st) u.
Proof.
  induction 1 as [|st1 st2 st3 Hs _ IH]; intros Hwf HU; [done|].
  assert (HU2 : ∀ k, U k -> ~ system_role (st_v10 st2) k).
  { intros k Hk (r & Hr & Ho). apply (HU k Hk). exists r. split; [|done]. by eapply rbac_step_system. }
  destruct (IH (rbac_step_wf _ _ _ Hs Hwf) HU2) as [HU3 Hsup]. split; [done|]. eauto using rbac_step_super.
Qed.
End Invariants.

Section Runs.
Context `{TenantLaws}.

Lemma exec_op_keeps cfg now st op :
  ids_unassigned cfg -> store_wf st ->
  store_wf (exec_op cfg now st op) ∧ ∀ g old, trail_tells g old st -> trail_tells g old (exec_op cfg now st op).
Proof.
  intros Hz Hwf. assert (Hs : rtc (rbac_step (fun _ => True)) st (exec_op cfg now st op)) by (apply exec_op_steps; done).
  split; [by eapply rbac_steps_wf|]. clear Hwf. intros g old. induction Hs; eauto using rbac_step_trail.
Qed.

(** After any calls of the service, in any order and at any times, successful or not, the role tables are
    well formed (grants and role permissions point to rows that exist, the two permission tables agree,
    every row sits under its id) and what the calls reported to the audit emitter, replayed on the grants
    before them, gives exactly the grants that are in force. *)
Theorem rbac_run_invariant cfg st ops :
  ids_unassigned cfg -> store_wf st ->
  let st' := run_ops cfg st ops in
  store_wf st' ∧ ∃ new, st_audit st' = st_audit st ++ new
    ∧ dom (userRoles (st_v10 st')) = replay (dom (userRoles (st_v10 st))) new.
Proof.
  intros Hz Hwf. assert (Hgen : ∀ st0, store_wf st0 -> store_wf (run_ops cfg st0 ops)
    ∧ ∀ g old, trail_tells g old st0 -> trail_tells g old (run_ops cfg st0 ops)).
  { clear Hwf. induction ops as [|[now op] ops IH]; intros st0 Hwf; [done|]. destruct (exec_op_keeps cfg now st0 op Hz Hwf) as [Hw Ht].
    destruct (IH _ Hw) as [? Ht']. split; [done|]. intros g old Hg. by apply Ht', Ht. }
  destruct (Hgen st Hwf) as [? Ht]. split; [done|]. apply Ht, trail_tells_start.
Qed.

(** No run of the service makes anyone a super admin, as long as it updates roles of organizations only. *)
Theorem no_super_admin_by_api cfg st ops :
  ids_unassigned cfg -> store_wf st ->
  (∀ now role name desc perms, (now, OpUpdate role name desc perms) ∈ ops -> ~ system_role (st_v10 st) role) ->
  ∀ u, super_admin (st_v10 (run_ops cfg st ops)) u -> super_admin (st_v10 st) u.
Proof.
  intros Hz. set (U := fun k => ∃ now name desc perms, (now, OpUpdate k name desc perms) ∈ ops). intros Hwf HU.
  assert (HU' : ∀ k, U k -> ~ system_role (st_v10 st) k) by (intros k (? & ? & ? & ? & ?); eauto). clear HU.
  assert (Hsub : ∀ op, op ∈ ops -> op ∈ ops) by done. intros u. revert Hsub. generalize ops at 1 3. intros ops'. revert st Hwf HU'.
  induction ops' as [|[now op] ops' IH]; intros st Hwf HU' Hsub; [done|].
  assert (Hs : rtc (rbac_step U) st (exec_op cfg now st op)).
  { apply exec_op_steps; [done|]. intros role name desc perms -> r Hr. rewrite (wf_role_id _ _ _ Hwf _ _ Hr).
    exists now, name, desc, perms. set_solver. }
  destruct (rbac_steps_super _ _ _ Hs Hwf HU') as [HU2 Hsup]. intros Hu. apply Hsup.
  eapply IH; [by eapply rbac_steps_wf|done|set_solver|done].
Qed.

(** The condition is needed: an update renames a role of the system to the super admin role, and every
    holder of it is a super admin from then on. *)
Theorem rename_makes_super_admin c st now roleID row u :
  store_wf st -> roles (st_v10 st) !! roleID = Some row -> r_org row = None -> granted (st_v10 st) u roleID ->
  super_admin (st_v10 (UpdateRole (Some c) st now roleID SystemRoleSuperAdmin "" None).1) u.
Proof.
  intros Hwf Hr Ho Hg. unfold UpdateRole, RoleByID. rewrite Hr. simpl. unfold UpdateRoleRow. simpl.
  rewrite (wf_role_id _ _ _ Hwf _ _ Hr), Hr. simpl. eexists roleID, _. split; [exact Hg|]. simpl.
  by rewrite lookup_insert_eq.
Qed.

(** ** Deleting a role *)

(** A role of an organization that carries users:admin is only deleted when two users held that permission. *)
Lemma DeleteRole_admin_ok c st roleID row org :
  roles (st_v10 st) !! roleID = Some row -> r_org row = Some org -> role_permits (st_v10 st) roleID PermissionUsersAdmin ->
  (DeleteRole (Some c) st roleID).2 = None ↔
    (2 <= CountUsersWithPermissionInOrg (st_v10 st) org PermissionUsersAdmin)%nat.
Proof.
  intros Hr Ho Hp%elem_of_permsForRole. unfold DeleteRole, RoleByID. rewrite Hr. simpl. unfold delete_refused. simpl.
  rewrite Ho. unfold PermissionsByRole. rewrite Hr.
  rewrite (proj2 (existsb_true_iff _ _)) by (eexists; split; [exact Hp|apply String.eqb_refl]). simpl.
  unfold store_DeleteRole. rewrite Hr. destruct (Nat.leb_spec (CountUsersWithPermissionInOrg (st_v10 st) org PermissionUsersAdmin) 1);
    simpl; split; (done || lia).
Qed.

(** The lockout check counts holders of users:admin, not holders that remain: when two users hold it and all
    through one role, that role is deleted and nobody is left who can administer the organization. *)
Theorem DeleteRole_locks_out c st roleID row org :
  store_wf st -> roles (st_v10 st) !! roleID = Some row -> r_org row = Some org ->
  role_permits (st_v10 st) roleID PermissionUsersAdmin ->
  (2 <= CountUsersWithPermissionInOrg (st_v10 st) org PermissionUsersAdmin)%nat ->
  (∀ k r, roles (st_v10 st) !! k = Some r -> r_org r = Some org -> role_permits (st_v10 st) k PermissionUsersAdmin -> k = roleID) ->
  (DeleteRole (Some c) st roleID).2 = None
  ∧ CountUsersWithPermissionInOrg (st_v10 (DeleteRole (Some c) st roleID).1) org PermissionUsersAdmin = 0%nat.
Proof.
  intros Hwf Hr Ho Hp Hc Hsole. pose proof (proj2 (DeleteRole_admin_ok c st roleID row org Hr Ho Hp) Hc) as Hok.
  split; [done|]. apply CountUsers_zero. intros u (k & r & _ & Hk & Hko & Hkp). revert Hok Hk Hkp.
  unfold DeleteRole. destruct (RoleByID _ _) as [role|]; [|done]. destruct (delete_refused _ _ _) as [[]|]; [done| |done].
  unfold store_DeleteRole. rewrite Hr. simpl. intros _ [Hne Hk]%lookup_delete_Some.
  rewrite (wf_role_id _ _ _ Hwf _ _ Hk). unfold role_permits. simpl.
  intros (s & id & p & [_ Hs]%lookup_delete_Some & Hin & Hp' & Hn). apply Hne. symmetry. eapply Hsole; [done|done|]. exists s, id, p. done.
Qed.
End Runs.

(** ** Validation *)

(** What the service relies on in a configuration. *)
Record config_ok (c : Config) : Prop := {
  ok_names : NoDup (map p_name (cf_catalog c));
  ok_index : ∀ n, is_Some (cf_index c !! n) ↔ n ∈ map p_name (cf_catalog c);
  ok_seeds : ∀ seed n, seed ∈ cf_seeds c -> n ∈ rs_perms seed -> is_Some (cf_index c !! n);
  ok_reserved : ∀ n, n ∈ [OrgRoleOwner; OrgRoleAdmin; OrgRoleMember] -> n ∈ map rs_name (cf_seeds c);
}.

Lemma add_extra_ok extra catalog index catalog' index' :
  add_extra catalog index extra = Ok (catalog', index') ->
  NoDup (map p_name catalog) -> (∀ n, is_Some (index !! n) ↔ n ∈ map p_name catalog) ->
  NoDup (map p_name catalog') ∧ (∀ n, is_Some (index' !! n) ↔ n ∈ map p_name catalog')
  ∧ ∀ p, p ∈ catalog' -> p ∈ catalog ∨ p ∈ extra.
Proof.
  revert catalog index. induction extra as [|p extra IH]; intros catalog index Heq Hnd Hi; simpl in Heq.
  { simplify_eq. auto. }
  destruct (negb _); [done|]. destruct (index !! p_name p) as [e|] eqn:He.
  - destruct (_ && _); [done|]. destruct (IH _ _ Heq Hnd Hi) as (? & ? & Hp). split; [done|]. split; [done|]. set_solver.
  - assert (Hn : p_name p ∉ map p_name catalog) by (rewrite <- Hi, He; by intros []).
    destruct (IH _ _ Heq) as (? & ? & Hp).
    + rewrite map_app. simpl. apply NoDup_app. split; [done|]. split; [set_solver|apply NoDup_singleton].
    + intros n. rewrite lookup_insert_is_Some', map_app, elem_of_app, Hi. simpl. rewrite list_elem_of_singleton. naive_solver.
    + split; [done|]. split; [done|]. intros q Hq. apply Hp in Hq. set_solver.
Qed.

Lemma check_seeds_ok index seeds seed n :
  check_seeds index seeds = None -> seed ∈ seeds -> n ∈ rs_perms seed -> is_Some (index !! n).
Proof.
  induction seeds as [|s seeds IH]; simpl; [set_solver|]. destruct (find _ _) eqn:Hf; [done|].
  intros Hc [->|Hin]%elem_of_cons Hn; [|auto]. apply List.find_none with (x := n) in Hf; [|by apply list_elem_of_In].
  apply bool_decide_eq_false in Hf. by destruct (index !! n).
Qed.

Lemma reserved_missing_ok seeds n :
  reserved_missing seeds = None -> n ∈ [OrgRoleOwner; OrgRoleAdmin; OrgRoleMember] -> n ∈ map rs_name seeds.
Proof.
  unfold reserved_missing. intros Hf Hn. apply List.find_none with (x := n) in Hf; [|by apply list_elem_of_In].
  apply negb_false_iff in Hf. by apply existsb_eqb_elem.
Qed.

Lemma fold_index_of l (m : PermIndex) n :
  is_Some (fold_left (fun m p => <[p_name p := p]> m) l m !! n) ↔ is_Some (m !! n) ∨ n ∈ map p_name l.
Proof.
  revert m. induction l as [|p l IH]; intros m; simpl.
  - rewrite elem_of_nil. tauto.
  - rewrite IH, lookup_insert_is_Some', elem_of_cons. naive_solver.
Qed.

Lemma index_of_is_Some l n : is_Some (index_of l !! n) ↔ n ∈ map p_name l.
Proof. unfold index_of. rewrite fold_index_of, lookup_empty. split; [by intros [[]|]|auto]. Qed.

(** A configuration that passes validation is one the service can rely on: no permission twice, the index
    and the catalog agree, default roles name known permissions only, the reserved roles are there. *)
Lemma Validate_ok extra rs c :
  Validate extra rs = Ok c -> config_ok c ∧ ∀ p, p ∈ cf_catalog c -> p ∈ SeededPermissions ∨ p ∈ extra.
Proof.
  unfold Validate. destruct (add_extra _ _ _) as [[catalog index]|] eqn:Ha; [|done].
  apply add_extra_ok in Ha as (Hnd & Hi & Hp); [|by apply (bool_decide_unpack (NoDup (map p_name SeededPermissions))); vm_compute|apply index_of_is_Some].
  destruct (match rs with [] => _ | _ => _ end) as [seeds|] eqn:Hs; [|done].
  assert (Hres : ∀ n, n ∈ [OrgRoleOwner; OrgRoleAdmin; OrgRoleMember] -> n ∈ map rs_name seeds).
  { destruct rs as [|r rs]; [simplify_eq; intros n; simpl; set_solver|].
    destruct (reserved_missing (r :: rs)) eqn:Hr; [done|]. simplify_eq. intros n. by apply reserved_missing_ok. }
  destruct (check_seeds index seeds) eqn:Hc; [done|]. intros [= <-].
  assert (Hperm : map p_name (sort_by perm_less catalog) ≡ₚ map p_name catalog) by (apply Permutation_map, sort_by_perm).
  split; [split; simpl; [by rewrite Hperm|intros n; by rewrite Hperm| |done]|].
  - intros seed n. by apply check_seeds_ok.
  - intros p. simpl. rewrite elem_of_sort_by. auto.
Qed.

Lemma Validate_unassigned extra rs c :
  Validate extra rs = Ok c -> Forall (fun p => p_id p = "") extra -> ids_unassigned (Some c).
Proof.
  intros [_ Hp]%Validate_ok He. simpl. apply Forall_forall. intros p [Hin|Hin]%Hp.
  - revert p Hin. apply Forall_forall. repeat constructor.
  - by eapply Forall_forall in He.
Qed.

(** ** Seeding *)

Section Seeding.
Context `{TenantLaws}.

Lemma index_of_lookup l n p : index_of l !! n = Some p -> p ∈ l ∧ p_name p = n.
Proof.
  unfold index_of. assert (Hg : ∀ m : PermIndex, fold_left (fun m p => <[p_name p := p]> m) l m !! n = Some p ->
    m !! n = Some p ∨ p ∈ l ∧ p_name p = n).
  { induction l as [|q l IH]; intros m; simpl; [auto|]. intros [[[<- <-]|[_ ?]]%lookup_insert_Some|[? ?]]%IH; set_solver. }
  intros [Hm|?]%Hg; [|done]. by rewrite lookup_empty in Hm.
Qed.

Lemma InsertPermission_spec v now p v' row :
  InsertPermission v now p = (v', row) ->
  permissionsByName v' !! p_name p = Some row
  ∧ (∀ n q, permissionsByName v !! n = Some q -> permissionsByName v' !! n = Some q)
  ∧ roles v' = roles v ∧ rolePerms v' = rolePerms v ∧ userRoles v' = userRoles v.
Proof.
  unfold InsertPermission. destruct (permissionsByName v !! p_name p) eqn:Hp; intros [= <- <-]; [done|]. simpl.
  assert (Hn : p_name (if IsZero (p_created p) then with_p_created p now else p) = p_name p) by (by destruct (IsZero _)).
  rewrite Hn, lookup_insert_eq. repeat split. intros n q Hq. rewrite lookup_insert_ne; [done|]. congruence.
Qed.

Lemma seed_permissions_spec now catalog st out st' out' :
  seed_permissions now catalog st out = (st', out') ->
  ∃ rows, out' = out ++ rows ∧ Forall2 (fun p row => permissionsByName (st_v10 st') !! p_name p = Some row) catalog rows
    ∧ (∀ n q, permissionsByName (st_v10 st) !! n = Some q -> permissionsByName (st_v10 st') !! n = Some q)
    ∧ roles (st_v10 st') = roles (st_v10 st) ∧ rolePerms (st_v10 st') = rolePerms (st_v10 st)
    ∧ userRoles (st_v10 st') = userRoles (st_v10 st).
Proof.
  revert st out. induction catalog as [|p catalog IH]; intros st out Heq; simpl in Heq.
  { simplify_eq. exists []. rewrite app_nil_r. repeat split; [constructor|done]. }
  destruct (if (p_id p =? "")%string then _ else _) as [st1 p1] eqn:H1.
  assert (H1' : st_v10 st1 = st_v10 st ∧ p_name p1 = p_name p) by (destruct (p_id p =? "")%string; by simplify_eq).
  destruct H1' as [Hv Hn]. set (q := if IsZero _ then _ else _) in Heq.
  assert (Hq : p_name q = p_name p) by (unfold q; by destruct (IsZero _)). clearbody q.
  destruct (InsertPermission (st_v10 st1) now q) as [v row] eqn:Hi.
  apply InsertPermission_spec in Hi as (Hrow & Hmono & Hr & Hrp & Hur).
  apply IH in Heq as (rows & -> & Hrows & Hmono' & Hr' & Hrp' & Hur'). simpl in *.
  exists (row :: rows). rewrite <- app_assoc. simpl. rewrite Hr', Hr, Hrp', Hrp, Hur', Hur, Hv.
  repeat split; [constructor; [rewrite <- Hq; auto|done]|]. intros n r Hnr. apply Hmono', Hmono. by rewrite Hv.
Qed.

(** No two roles of one scope share a name. *)
Definition names_unique (v : v10State) : Prop :=
  ∀ k k' r r', roles v !! k = Some r -> roles v !! k' = Some r' -> r_org r = r_org r' -> r_name r = r_name r' -> k = k'.

Lemma RoleByOrgAndName_spec v org name :
  match RoleByOrgAndName v org name with
  | Some role => ∃ k r, roles v !! k = Some r ∧ r_org r = org ∧ r_name r = name ∧ r_id role = r_id r
      ∧ r_perms role = permsForRoleLocked v (r_id r)
  | None => ∀ k r, roles v !! k = Some r -> ~ (r_org r = org ∧ r_name r = name)
  end.
Proof.
  unfold RoleByOrgAndName. destruct (find _ _) as [r|] eqn:Hf; simpl.
  - apply find_some in Hf as [(k & Hk)%list_elem_of_In%elem_of_map_values [Ho%sameOrgPtr_spec Hn%String.eqb_eq]%andb_true_iff].
    exists k, r. done.
  - intros k r Hk [Ho Hn]. apply List.find_none with (x := r) in Hf.
    + by rewrite (proj2 (sameOrgPtr_spec _ _) Ho), (proj2 (String.eqb_eq _ _) Hn) in Hf.
    + apply list_elem_of_In, elem_of_map_values. eauto.
Qed.

Lemma InsertRole_Some v now r :
  (∀ k e, roles v !! k = Some e -> ~ (r_org e = r_org r ∧ r_name e = r_name r)) -> is_Some (InsertRole v now r).
Proof.
  intros Hno. unfold InsertRole. destruct (existsb _ _) eqn:He; [|by eexists].
  apply existsb_true_iff in He as (e & (k & Hk)%elem_of_map_values & [Ho%sameOrgPtr_spec Hn%String.eqb_eq]%andb_true_iff).
  by destruct (Hno k e).
Qed.

(** What [ensure_role] leaves as it was. *)
Definition roles_kept (v v' : v10State) : Prop :=
  permissionsByID v' = permissionsByID v ∧ permissionsByName v' = permissionsByName v ∧ userRoles v' = userRoles v
  ∧ ∀ k, is_Some (roles v !! k) -> roles v' !! k = roles v !! k ∧ rolePerms v' !! k = rolePerms v !! k.

Lemma ensure_role_ok st now org seed :
  store_wf st -> names_unique (st_v10 st) ->
  ∃ st' k r, ensure_role st now org seed = (st', Some k) ∧ store_wf st' ∧ names_unique (st_v10 st')
    ∧ roles (st_v10 st') !! k = Some r ∧ r_org r = Some org ∧ r_name r = rs_name seed ∧ roles_kept (st_v10 st) (st_v10 st').
Proof.
  intros Hwf Hu. pose proof (RoleByOrgAndName_spec (st_v10 st) (Some org) (rs_name seed)) as Hf.
  pose proof (rbac_steps_wf _ _ _ (ensure_role_steps (fun _ => True) st now org seed) Hwf) as Hwf'. revert Hwf'.
  unfold ensure_role. destruct (RoleByOrgAndName _ _ _) as [role|].
  { destruct Hf as (k & r & Hk & Ho & Hn & Hid & _). intros _. exists st, k, r.
    rewrite Hid, (wf_role_id _ _ _ Hwf _ _ Hk). unfold roles_kept. by split_and!. }
  simpl. set (row := mkRole _ _ _ _ _ _ _). destruct (InsertRole_Some (st_v10 st) now row) as [[v r] Hi]; [done|].
  rewrite Hi. simpl. intros Hwf'. unfold InsertRole in Hi. destruct (existsb _ _); [done|].
  destruct (wf_fresh _ _ _ Hwf (st_next st) (Nat.le_refl _)) as [Hfr _]. simplify_eq/=.
  eexists _, _, _. split; [done|]. split; [done|]. simpl. rewrite lookup_insert_eq. split; [|split; [done|]].
  - intros k k' r r'. simpl. rewrite !lookup_insert_Some.
    intros [[<- <-]|[? Hk]] [[<- <-]|[? Hk']] Ho Hn; simpl in *; try done; [| |by eapply Hu].
    + by destruct (Hf _ _ Hk').
    + by destruct (Hf _ _ Hk).
  - unfold roles_kept. split_and!; simpl; try done. intros k [r0 Hk].
    assert (Hne : fresh (st_next st) ≠ k) by congruence. rewrite lookup_insert_ne by done. split; [done|].
    destruct (rolePerms _ !! fresh _) eqn:Hrp; [done|]. by rewrite lookup_insert_ne.
Qed.

Lemma resolve_ok (m : PermIndex) names :
  (∀ n, n ∈ names -> is_Some (m !! n)) ->
  ∃ ids, resolve m names = Ok ids ∧ ∀ id, id ∈ ids ↔ ∃ n p, n ∈ names ∧ m !! n = Some p ∧ id = p_id p.
Proof.
  induction names as [|n names IH]; intros Hall; simpl.
  { exists []. split; [done|]. set_solver. }
  destruct (Hall n) as [p Hp]; [set_solver|]. destruct IH as (ids & -> & Hids); [set_solver|].
  rewrite Hp. exists (p_id p :: ids). split; [done|]. intros id. rewrite elem_of_cons, Hids. set_solver.
Qed.

(** The map from names to rows agrees with the tables. *)
Definition index_agrees (m : PermIndex) (v : v10State) : Prop :=
  ∀ n p, m !! n = Some p -> p_name p = n ∧ permissionsByID v !! p_id p = Some p.

(** A role of the organization has the name of the seed and the permissions of the seed. *)
Definition seed_done (m : PermIndex) (v : v10State) (org : string) (seed : RoleSeed) : Prop :=
  ∃ k r ids, roles v !! k = Some r ∧ r_org r = Some org ∧ r_name r = rs_name seed
    ∧ resolve m (rs_perms seed) = Ok ids ∧ rolePerms v !! k = Some (list_to_set ids).

Lemma seed_done_permits m v org seed :
  index_agrees m v -> (∀ n, n ∈ rs_perms seed -> is_Some (m !! n)) ->
  seed_done m v org seed ->
  ∃ k r, roles v !! k = Some r ∧ r_org r = Some org ∧ r_name r = rs_name seed
    ∧ ∀ n, role_permits v k n ↔ n ∈ rs_perms seed.
Proof.
  intros Hm Hall (k & r & ids & Hk & Ho & Hn & Hres & Hrp). exists k, r. split_and!; try done. intros n.
  destruct (resolve_ok m (rs_perms seed) Hall) as (ids' & Hres' & Hids). rewrite Hres in Hres'. simplify_eq.
  unfold role_permits. split.
  - intros (s & id & p & Hs & Hin & Hp & <-). rewrite Hrp in Hs. simplify_eq.
    apply elem_of_list_to_set, Hids in Hin as (n & q & Hn' & Hq & ->). destruct (Hm _ _ Hq) as [<- Hq']. by simplify_eq.
  - intros Hin. destruct (Hall n Hin) as [p Hp]. destruct (Hm _ _ Hp) as [Hpn Hpi].
    exists (list_to_set ids'), (p_id p), p. split_and!; try done. apply elem_of_list_to_set, Hids. eauto.
Qed.

Lemma seed_roles_ok now org m seeds st :
  store_wf st -> names_unique (st_v10 st) -> index_agrees m (st_v10 st) ->
  (∀ seed n, seed ∈ seeds -> n ∈ rs_perms seed -> is_Some (m !! n)) -> NoDup (map rs_name seeds) ->
  ∃ st', seed_roles now org m seeds st = (st', None) ∧ names_unique (st_v10 st') ∧ index_agrees m (st_v10 st')
    ∧ permissionsByName (st_v10 st') = permissionsByName (st_v10 st) ∧ userRoles (st_v10 st') = userRoles (st_v10 st)
    ∧ (∀ seed, seed ∈ seeds -> seed_done m (st_v10 st') org seed)
    ∧ (∀ seed, rs_name seed ∉ map rs_name seeds -> seed_done m (st_v10 st) org seed -> seed_done m (st_v10 st') org seed).
Proof.
  revert st. induction seeds as [|seed seeds IH]; intros st Hwf Hu Hm Hall Hnd; simpl.
  { exists st. split_and!; try done. set_solver. }
  apply NoDup_cons in Hnd as [Hnin Hnd].
  destruct (ensure_role_ok st now org seed Hwf Hu) as (st1 & k & r & -> & Hwf1 & Hu1 & Hk & Ho & Hn & Hpi & Hpn & Hur & Hkept).
  destruct (resolve_ok m (rs_perms seed)) as (ids & Hres & Hids); [set_solver|]. rewrite Hres.
  assert (Hm1 : index_agrees m (st_v10 st1)) by (intros n p; rewrite Hpi; apply Hm).
  destruct (SetRolePermissions (st_v10 st1) k ids) as [v|] eqn:Hs.
  2:{ exfalso. assert (Hno : SetRolePermissions (st_v10 st1) k ids ≠ None); [|done]. apply not_eq_None_Some.
      eexists. apply SetRolePermissions_Some. split_and!; [by eexists| |done].
      intros id (n & p & _ & Hp & ->)%Hids. destruct (Hm1 _ _ Hp) as [_ ?]. by eexists. }
  assert (Hwf2 : store_wf (set_v10 st1 v)) by (unfold store_wf; simpl; by eapply SetRolePermissions_wf).
  apply SetRolePermissions_Some in Hs as (_ & _ & ->).
  destruct (IH (set_v10 st1 _) Hwf2 Hu1 Hm1) as (st' & Heq & Hu' & Hm' & Hpn' & Hur' & Hdone & Hkeep);
    [set_solver|done|]. rewrite Heq. exists st'. simpl in *. split_and!; try done; try congruence.
  - intros s [->|Hs]%elem_of_cons; [|auto]. apply Hkeep; [done|]. exists k, r, ids. simpl. by rewrite lookup_insert_eq.
  - intros s [Hne Hns]%not_elem_of_cons (k0 & r0 & ids0 & Hk0 & Ho0 & Hn0 & Hres0 & Hrp0). apply Hkeep; [done|].
    destruct (Hkept k0) as [Hr1 Hrp1]; [by eexists|]. exists k0, r0, ids0. simpl. rewrite Hr1.
    split_and!; try done. rewrite lookup_insert_ne; [congruence|]. intros ->. congruence.
Qed.

Lemma v10_insert_same v k s :
  rolePerms v !! k = Some s ->
  mkV10 (permissionsByID v) (permissionsByName v) (roles v) (<[k := s]> (rolePerms v)) (userRoles v) = v.
Proof. intros Hs. destruct v; simpl in *. by rewrite insert_id. Qed.

Lemma seed_roles_again now org m seeds st :
  store_wf st -> names_unique (st_v10 st) -> index_agrees m (st_v10 st) ->
  (∀ seed n, seed ∈ seeds -> n ∈ rs_perms seed -> is_Some (m !! n)) ->
  (∀ seed, seed ∈ seeds -> seed_done m (st_v10 st) org seed) -> seed_roles now org m seeds st = (st, None).
Proof.
  intros Hwf Hu Hm. induction seeds as [|seed seeds IH]; intros Hall Hdone; simpl; [done|].
  destruct (Hdone seed) as (k & r & ids & Hk & Ho & Hn & Hres & Hrp); [set_solver|].
  unfold ensure_role. pose proof (RoleByOrgAndName_spec (st_v10 st) (Some org) (rs_name seed)) as Hf.
  destruct (RoleByOrgAndName _ _ _) as [role|]; [|by destruct (Hf _ _ Hk)].
  destruct Hf as (k' & r' & Hk' & Ho' & Hn' & Hid & _). rewrite Hid, (wf_role_id _ _ _ Hwf _ _ Hk').
  assert (k' = k) as -> by (eapply Hu; [done|done|congruence..]). rewrite Hres.
  assert (Hs : SetRolePermissions (st_v10 st) k ids = Some (st_v10 st)).
  { apply SetRolePermissions_Some. rewrite v10_insert_same by done. split_and!; [by eexists| |done].
    intros id Hid'. eapply (wf_rolePerms _ _ _ Hwf); [done|]. by apply elem_of_list_to_set. }
  rewrite Hs. replace (set_v10 st (st_v10 st)) with st by (by destruct st). apply IH; set_solver.
Qed.

Lemma seed_permissions_again now catalog st out rows :
  Forall2 (fun p row => permissionsByName (st_v10 st) !! p_name p = Some row) catalog rows ->
  ∃ st', seed_permissions now catalog st out = (st', out ++ rows) ∧ st_v10 st' = st_v10 st.
Proof.
  intros Hrows. revert st out Hrows. induction catalog as [|p catalog IH] in rows |- *; intros st out Hrows; simpl.
  { apply Forall2_nil_inv_l in Hrows as ->. exists st. by rewrite app_nil_r. }
  apply Forall2_cons_inv_l in Hrows as (row & rows' & Hrow & Hrows & ->).
  destruct (if (p_id p =? "")%string then _ else _) as [st1 p1] eqn:H1.
  assert (H1' : st_v10 st1 = st_v10 st ∧ p_name p1 = p_name p) by (destruct (p_id p =? "")%string; by simplify_eq).
  destruct H1' as [Hv Hn]. set (q := if IsZero _ then _ else _).
  assert (Hq : p_name q = p_name p) by (unfold q; by destruct (IsZero _)). clearbody q.
  unfold InsertPermission. rewrite Hv, Hq, Hrow. destruct (IH rows' (set_v10 st1 (st_v10 st)) (out ++ [row])) as (st' & Heq & Hv');
    [done|]. exists st'. by rewrite Heq, <- app_assoc.
Qed.

(** The rows that seeding returns, as an index, agree with the tables and know the whole catalog. *)
Lemma seeded_index catalog rows v users next :
  roles_wf users v next -> Forall2 (fun p row => permissionsByName v !! p_name p = Some row) catalog rows ->
  index_agrees (index_of rows) v ∧ ∀ n, n ∈ map p_name catalog -> is_Some (index_of rows !! n).
Proof.
  intros Hwf Hrows.
  assert (Hnames : map p_name rows = map p_name catalog).
  { induction Hrows as [|p row ps rows' Hr _ IH]; simpl; [done|]. rewrite IH. f_equal.
    by apply (wf_perm_name _ _ _ Hwf) in Hr as [? _]. }
  split.
  - intros n p [Hin Hn]%index_of_lookup. split; [done|].
    apply list_elem_of_lookup in Hin as [i Hi]. destruct (Forall2_lookup_r _ _ _ _ _ Hrows Hi) as (q & _ & Hq).
    by apply (wf_perm_name _ _ _ Hwf) in Hq as [_ ?].
  - intros n. by rewrite index_of_is_Some, Hnames.
Qed.

(** Seeding an organization with a validated configuration always succeeds: every default role is there
    afterwards with exactly the permissions of its seed, no grant changes, and seeding again changes nothing
    in the role tables. *)
Theorem SeedOrgRoles_ok extra rs c st now org :
  Validate extra rs = Ok c -> Forall (fun p => p_id p = "") extra -> NoDup (map rs_name (cf_seeds c)) ->
  store_wf st -> names_unique (st_v10 st) ->
  let r := SeedOrgRoles (Some c) st now org in
  r.2 = None
  ∧ (∀ seed, seed ∈ cf_seeds c -> ∃ role, RoleByOrgAndName (st_v10 r.1) (Some org) (rs_name seed) = Some role
       ∧ ∀ n, n ∈ r_perms role ↔ n ∈ rs_perms seed)
  ∧ userRoles (st_v10 r.1) = userRoles (st_v10 st)
  ∧ ∀ now', st_v10 (SeedOrgRoles (Some c) r.1 now' org).1 = st_v10 r.1.
Proof.
  intros Hv He Hnd Hwf Hu. pose proof (Validate_unassigned _ _ _ Hv He) as Hz. apply Validate_ok in Hv as [Hok _].
  assert (Hwf' := rbac_steps_wf _ _ _ (SeedOrgRoles_steps (fun _ => True) (Some c) st now org Hz) Hwf). revert Hwf'.
  unfold SeedOrgRoles, SeedPermissions.
  assert (Hsteps := seed_permissions_steps (fun _ => True) now (cf_catalog c) st [] Hz).
  destruct (seed_permissions now (cf_catalog c) st []) as [st1 out] eqn:Hs. simpl in Hsteps.
  apply (rbac_steps_wf _ _ _ Hsteps) in Hwf as Hwf1. clear Hsteps.
  apply seed_permissions_spec in Hs as (rows & -> & Hrows & _ & Hr & _ & Hur). simpl.
  destruct (seeded_index _ _ _ _ _ Hwf1 Hrows) as [Hm Hall].
  assert (Hknown : ∀ seed n, seed ∈ cf_seeds c -> n ∈ rs_perms seed -> is_Some (index_of rows !! n)).
  { intros seed n Hin Hn. apply Hall, (ok_index _ Hok). by eapply (ok_seeds _ Hok). }
  assert (Hu1 : names_unique (st_v10 st1)) by (unfold names_unique; by rewrite Hr).
  destruct (seed_roles_ok now org (index_of rows) (cf_seeds c) st1) as (st' & -> & Hu' & Hm' & Hpn' & Hur' & Hdone & _);
    [done..|]. simpl. intros Hwf'. split_and!; [done| |congruence|].
  - intros seed Hin. destruct (seed_done_permits _ _ _ _ Hm' (λ n, Hknown _ n Hin) (Hdone _ Hin)) as (k & r & Hk & Ho & Hn & Hp).
    pose proof (RoleByOrgAndName_spec (st_v10 st') (Some org) (rs_name seed)) as Hf.
    destruct (RoleByOrgAndName _ _ _) as [role|]; [|by destruct (Hf _ _ Hk)].
    destruct Hf as (k' & r' & Hk' & Ho' & Hn' & _ & Hperms). exists role. split; [done|]. intros n.
    assert (k' = k) as -> by (eapply Hu'; [done|done|congruence..]).
    rewrite Hperms, elem_of_permsForRole, (wf_role_id _ _ _ Hwf' _ _ Hk'). apply Hp.
  - intros now'. rewrite <- Hpn' in Hrows.
    destruct (seed_permissions_again now' (cf_catalog c) st' [] rows Hrows) as (st2 & Heq & Hv2).
    assert (Hwf2 := rbac_steps_wf _ _ _ (seed_permissions_steps (fun _ => True) now' (cf_catalog c) st' [] Hz) Hwf').
    rewrite Heq in Hwf2 |- *. simpl in Hwf2 |- *. by rewrite seed_roles_again; rewrite ?Hv2.
Qed.
End Seeding.

(** ** Examples *)

#[local] Existing Instance example_lib.
#[local] Existing Instance example_laws.

(** The configuration of an installation that adds nothing. *)
Definition default_config : Config :=
  match Validate [] [] with Ok c => c | Err _ => mkConfig [] ∅ [] end.

Lemma SeedOrgRoles_ok_witness :
  let r := SeedOrgRoles (Some default_config) example_store 5 "acme" in
  r.2 = None
  ∧ (∀ seed, seed ∈ cf_seeds default_config -> ∃ role, RoleByOrgAndName (st_v10 r.1) (Some "acme") (rs_name seed) = Some role
       ∧ ∀ n, n ∈ r_perms role ↔ n ∈ rs_perms seed)
  ∧ userRoles (st_v10 r.1) = userRoles (st_v10 example_store)
  ∧ ∀ now', st_v10 (SeedOrgRoles (Some default_config) r.1 now' "acme").1 = st_v10 r.1.
Proof.
  apply (SeedOrgRoles_ok [] [] default_config example_store 5 "acme").
  - vm_compute. reflexivity.
  - constructor.
  - refine (bool_decide_unpack (NoDup (map rs_name (cf_seeds default_config))) _). vm_compute. exact I.
  - apply example_roles_wf.
  - intros k k' r r' Hk Hk' Ho Hn.
    refine (bool_decide_unpack (map_Forall (fun k r => map_Forall (fun k' r' => r_org r = r_org r' -> r_name r = r_name r' -> k = k')
      (roles example_v10)) (roles example_v10)) _ k r Hk k' r' Hk' Ho Hn). vm_compute. exact I.
Defined.

Lemma no_super_admin_by_api_witness :
  let final := run_ops (Some default_config) example_store
    [(5, OpSeedOrgRoles "acme"); (6, OpGrant "root" "bob" "sa"); (7, OpUpdate "rivals" SystemRoleSuperAdmin "" None)] in
  super_admin (st_v10 final) "root" ∧ super_admin (st_v10 example_store) "root".
Proof.
  intros final. assert (Hroot : super_admin (st_v10 final) "root") by (apply is_super_admin_spec; by vm_compute).
  split; [exact Hroot|]. revert Hroot. apply (no_super_admin_by_api (Some default_config) example_store).
  - refine (bool_decide_unpack (Forall (fun p => p_id p = "") (cf_catalog default_config)) _). vm_compute. exact I.
  - apply example_roles_wf.
  - intros now role name desc perms Hin. rewrite !elem_of_cons, elem_of_nil in Hin.
    destruct Hin as [?|[?|[?|[]]]]; simplify_eq. intros (r & Hr & Ho). vm_compute in Hr. by simplify_eq.
Defined.
