(* ===== verification/Organizations.v ===== *)
(** * Organizations and accounts ([internal/organizations/service.go], [handlers/handlers.go], [requireOrgRole] of
    [mounts.go], [lifecycle.go])

    Creating organizations, membership with the guard of the last owner, the active organization of a
    session, and the account operations of an administrator. A handler takes the user and session that
    [Authn] found and returns the store and the answer. The main result is that the organization and
    account services never leave an organization without an owner; the file also shows the two ways in
    which the guard is passed by, racing removals and an admin who makes himself owner. *)

From Stdlib Require Import ZArith Lia String Ascii.
From stdpp Require Import base gmap strings list sorting.
From S2P Require Import Prelude Session Tenants Rbac.

Set Default Goal Selector "!".
Open Scope string_scope.
Open Scope list_scope.
Open Scope Z_scope.

(** ** The service *)

Inductive orgs_error :=
  | ErrOrganizationsDisabled | ErrNameRequired | ErrSlugRequired | ErrSlugTooLong | ErrSlugHyphen | ErrSlugChars
  | ErrInvalidRole | ErrLastOwner | ErrStorage (e : org_error).

Definition hyphen : ascii := "-"%char.

Definition slug_char (c : ascii) : bool :=
  let n := nat_of_ascii c in
  ((97 <=? n) && (n <=? 122))%nat || ((48 <=? n) && (n <=? 57))%nat || (c =? hyphen)%char.

(** A byte of a rune outside ASCII is no slug character, like the rune. *)
Definition validateSlug (slug : string) : option orgs_error :=
  match list_ascii_of_string slug with
  | [] => Some ErrSlugRequired
  | c :: cs =>
      if (64 <? String.length slug)%nat then Some ErrSlugTooLong
      else if (c =? hyphen)%char || (List.last (c :: cs) c =? hyphen)%char then Some ErrSlugHyphen
      else if forallb slug_char (c :: cs) then None else Some ErrSlugChars
  end.

Definition isValidRole (r : string) : bool :=
  (r =? OrgRoleOwner)%string || (r =? OrgRoleAdmin)%string || (r =? OrgRoleMember)%string.

(** The loops that count the owners of an organization. *)
Definition owners (v : v07State) (orgID : string) : nat :=
  length (List.filter (fun m => (m_role m =? OrgRoleOwner)%string) (OrganizationMembersByOrg v orgID)).

Section Service.
Context `{TenantLib} (enabled : bool).

Definition Create (st : Store) (now : Z) (name slug ownerUserID : string) : Store * result orgs_error Organization :=
  if negb enabled then (st, Err ErrOrganizationsDisabled)
  else
    let name := trim_space name in
    if (name =? "")%string then (st, Err ErrNameRequired)
    else
      let slug := to_lower (trim_space slug) in
      match validateSlug slug with
      | Some e => (st, Err e)
      | None =>
          let '(st, id) := New st in
          match InsertOrganization (st_v07 st) now (mkOrganization id name slug 0 0) with
          | Err e => (st, Err (ErrStorage e))
          | Ok (v, created) =>
              let st := set_v07 st v in
              match UpsertOrganizationMember (st_users st) (st_v07 st) now (mkMember (o_id created) ownerUserID OrgRoleOwner 0) with
              | None => (st, Err (ErrStorage OrgNotFound))
              | Some v => (set_v07 st v, Ok created)
              end
          end
      end.

Definition BySlug (st : Store) (slug : string) : option Organization := OrganizationBySlug (st_v07 st) (to_lower slug).
End Service.

(** The check that an upsert does not demote the last owner. *)
Definition demotes_last_owner (st : Store) (orgID userID role : string) : bool :=
  negb (role =? OrgRoleOwner)%string
  && bool_decide (OrganizationMemberRole (st_v07 st) orgID userID = Some OrgRoleOwner)
  && (owners (st_v07 st) orgID <=? 1)%nat.

Definition AddMember (st : Store) (now : Z) (orgID userID role : string) : Store * option orgs_error :=
  if negb (isValidRole role) then (st, Some ErrInvalidRole)
  else if demotes_last_owner st orgID userID role then (st, Some ErrLastOwner)
  else match UpsertOrganizationMember (st_users st) (st_v07 st) now (mkMember orgID userID role 0) with
  | None => (st, Some (ErrStorage OrgNotFound))
  | Some v => (set_v07 st v, None)
  end.

(** The reads of [RemoveMember], which come before its delete. *)
Definition remove_check (st : Store) (orgID userID : string) : option orgs_error :=
  match OrganizationMemberRole (st_v07 st) orgID userID with
  | None => Some (ErrStorage OrgNotFound)
  | Some role =>
      if (role =? OrgRoleOwner)%string && (owners (st_v07 st) orgID <=? 1)%nat then Some ErrLastOwner else None
  end.

Definition remove_write (st : Store) (orgID userID : string) : Store * option orgs_error :=
  match DeleteOrganizationMember (st_v07 st) orgID userID with
  | None => (st, Some (ErrStorage OrgNotFound))
  | Some v => (set_v07 st v, None)
  end.

Definition RemoveMember (st : Store) (orgID userID : string) : Store * option orgs_error :=
  match remove_check st orgID userID with
  | Some e => (st, Some e)
  | None => remove_write st orgID userID
  end.

Definition SetActive (st : Store) (sessionID : string) (orgID : option string) : Store * option orgs_error :=
  match SetSessionActiveOrganization st sessionID orgID with
  | None => (st, Some (ErrStorage OrgNotFound))
  | Some st => (st, None)
  end.

(** ** The handlers *)

Inductive body :=
  | NoBody | BOrg (o : Organization) | BOrgs (os : list Organization) | BUser (u : User) | BUserRoles (u : User) (rs : list Role)
  | BUsers (us : list User) (next : option Z) | BSessions (ss : list Session) | BRole (r : Role) | BRoles (rs : list Role)
  | BAccounts.

Record response := mkResp { rp_status : Z; rp_code : string; rp_body : body }.

Definition Error (status : Z) (msg : string) : response := mkResp status msg NoBody.
(** A handler that returns without writing answers 200 with an empty body. *)
Definition Silent : response := mkResp 200 "" NoBody.

(** [requireOrgRole] writes the refusal itself. *)
Definition requireOrgRole (st : Store) (orgID userID : string) (wanted : list string) : option response :=
  match OrganizationMemberRole (st_v07 st) orgID userID with
  | None => Some (Error 404 "not found")
  | Some role => if existsb (fun want => (role =? want)%string) wanted then None else Some (Error 403 "forbidden")
  end.

(** The bodies of the requests; [None] is a body that does not decode. *)
Inductive org_request :=
  | HandleCreate (b : option (string * string))
  | HandleList
  | HandleGet (id : string)
  | HandleAddMember (id : string) (b : option (string * string))
  | HandleRemoveMember (id userId : string)
  | HandleActivate (id : string)
  | HandleClearActive.

Section Handlers.
Context `{TenantLib} (enabled : bool).

Definition handleCreate (st : Store) (now : Z) (user : option User) (b : option (string * string)) : Store * response :=
  match user, b with
  | None, _ => (st, Error 401 "unauthorized")
  | Some _, None => (st, Error 400 "invalid body")
  | Some user, Some (name, slug) =>
      match Create enabled st now name slug (u_id user) with
      | (st, Ok org) => (st, mkResp 201 "" (BOrg org))
      | (st, Err (ErrStorage ErrSlugTaken)) => (st, Error 409 "slug already taken")
      | (st, Err _) => (st, Error 400 "invalid organization")
      end
  end.

Definition handleList (st : Store) (user : option User) : response :=
  match user with
  | None => Error 401 "unauthorized"
  | Some user => mkResp 200 "" (BOrgs (OrganizationsByUser (st_v07 st) (u_id user)))
  end.

Definition any_role : list string := [OrgRoleMember; OrgRoleAdmin; OrgRoleOwner].

Definition handleGet (st : Store) (user : option User) (id : string) : response :=
  match ulid_parse id, user with
  | None, _ => Error 400 "invalid id"
  | Some _, None => Silent
  | Some id, Some user =>
      match requireOrgRole st id (u_id user) any_role with
      | Some r => r
      | None =>
          match OrganizationByID (st_v07 st) id with
          | None => Error 404 "not found"
          | Some org => mkResp 200 "" (BOrg org)
          end
      end
  end.

Definition handleAddMember (st : Store) (now : Z) (user : option User) (id : string) (b : option (string * string))
  : Store * response :=
  match ulid_parse id, user with
  | None, _ => (st, Error 400 "invalid id")
  | Some _, None => (st, Silent)
  | Some id, Some user =>
      match requireOrgRole st id (u_id user) [OrgRoleAdmin; OrgRoleOwner] with
      | Some r => (st, r)
      | None =>
          match b with
          | None => (st, Error 400 "invalid body")
          | Some (userId, role) =>
              match ulid_parse userId with
              | None => (st, Error 400 "invalid user id")
              | Some uid =>
                  match AddMember st now id uid role with
                  | (st, Some _) => (st, Error 400 "invalid role")
                  | (st, None) => (st, mkResp 204 "" NoBody)
                  end
              end
          end
      end
  end.

Definition handleRemoveMember (st : Store) (user : option User) (id userId : string) : Store * response :=
  match ulid_parse id, ulid_parse userId, user with
  | None, _, _ => (st, Error 400 "invalid id")
  | Some _, None, _ => (st, Error 400 "invalid userId")
  | Some _, Some _, None => (st, Silent)
  | Some id, Some uid, Some user =>
      match requireOrgRole st id (u_id user) [OrgRoleOwner] with
      | Some r => (st, r)
      | None =>
          match RemoveMember st id uid with
          | (st, Some ErrLastOwner) => (st, Error 409 "cannot remove the last owner")
          | (st, Some _) => (st, Error 404 "not found")
          | (st, None) => (st, mkResp 204 "" NoBody)
          end
      end
  end.

Definition handleActivate (st : Store) (user : option User) (sess : option Session) (id : string) : Store * response :=
  match ulid_parse id, sess, user with
  | None, _, _ => (st, Error 400 "invalid id")
  | Some id, Some sess, Some user =>
      match requireOrgRole st id (u_id user) any_role with
      | Some r => (st, r)
      | None =>
          match SetActive st (se_id sess) (Some id) with
          | (st, Some _) => (st, Error 404 "not found")
          | (st, None) => (st, mkResp 204 "" NoBody)
          end
      end
  | _, _, _ => (st, Silent)
  end.

Definition handleClearActive (st : Store) (sess : option Session) : Store * response :=
  match sess with
  | None => (st, Error 401 "unauthorized")
  | Some sess =>
      match SetActive st (se_id sess) None with
      | (st, Some _) => (st, Error 500 "internal error")
      | (st, None) => (st, mkResp 204 "" NoBody)
      end
  end.

(** [RequireAuth] on the user and session of the context. *)
Definition RequireAuth (auth : option (User * Session)) : option response :=
  match auth with
  | None => Some (Error 401 "auth.unauthenticated")
  | Some (_, sess) =>
      if negb (se_level sess =? "")%string && negb (se_level sess =? AuthLevelFull)%string
      then Some (Error 401 "auth.step_up_required") else None
  end.

(** The routes of [Mount]. *)
Definition org_serve (st : Store) (now : Z) (auth : option (User * Session)) (r : org_request) : Store * response :=
  match RequireAuth auth with
  | Some refusal => (st, refusal)
  | None =>
      let user := fst <$> auth in
      let sess := snd <$> auth in
      match r with
      | HandleCreate b => handleCreate st now user b
      | HandleList => (st, handleList st user)
      | HandleGet id => (st, handleGet st user id)
      | HandleAddMember id b => handleAddMember st now user id b
      | HandleRemoveMember id userId => handleRemoveMember st user id userId
      | HandleActivate id => handleActivate st user sess id
      | HandleClearActive => handleClearActive st sess
      end
  end.
End Handlers.

(** ** Accounts ([lifecycle.go]) *)

Inductive account_error := ErrAccountStateDisabled | AcctNotFound | AcctInternal | AcctLastOwner | ErrMissingCapability.

(** The parts of an installation that the account operations consult: whether account state is configured,
    the revocation of API tokens and of trusted devices (absent when the installation has none, [false]
    when they fail), and whether organizations are configured. *)
Record AccountCfg := mkAccountCfg {
  ac_state : bool; ac_tokens : option (string -> bool); ac_devices : option (string -> bool); ac_orgs : bool;
}.

Definition SetMustChangePassword (cfg : AccountCfg) (st : Store) (now : Z) (userID : string) (required : bool)
  : Store * option account_error :=
  if negb (ac_state cfg) then (st, Some ErrAccountStateDisabled)
  else match store_SetMustChangePassword st userID required with
  | None => (st, Some AcctNotFound)
  | Some st =>
      if required
      then (EmitAudit (set_sessions st (RevokeUserSessions (st_sessions st) userID now)) (PasswordChangeRequired userID), None)
      else (st, None)
  end.

Definition DisableUser (cfg : AccountCfg) (st : Store) (now : Z) (userID : string) : Store * option account_error :=
  if negb (ac_state cfg) then (st, Some ErrAccountStateDisabled)
  else match SetUserDisabledAt st userID (Some now) with
  | None => (st, Some AcctNotFound)
  | Some st =>
      let st := set_sessions st (RevokeUserSessions (st_sessions st) userID now) in
      if match ac_tokens cfg with Some revoke => negb (revoke userID) | None => false end then (st, Some AcctInternal)
      else if match ac_devices cfg with Some revoke => negb (revoke userID) | None => false end then (st, Some AcctInternal)
      else (EmitAudit st (AccountDisabled userID), None)
  end.

Definition EnableUser (cfg : AccountCfg) (st : Store) (userID : string) : Store * option account_error :=
  if negb (ac_state cfg) then (st, Some ErrAccountStateDisabled)
  else match SetUserDisabledAt st userID None with
  | None => (st, Some AcctNotFound)
  | Some st => (EmitAudit st (AccountEnabled userID), None)
  end.

(** The organizations whose members the guard reads, and its verdict on one. *)
Definition sole_owner (v : v07State) (userID : string) (o : Organization) : bool :=
  let members := OrganizationMembersByOrg v (o_id o) in
  existsb (fun m => (m_role m =? OrgRoleOwner)%string && (m_user m =? userID)%string) members
  && (owners v (o_id o) <=? 1)%nat.

Definition guardLastOwner (cfg : AccountCfg) (st : Store) (userID : string) : bool :=
  ac_orgs cfg && existsb (sole_owner (st_v07 st) userID) (OrganizationsByUser (st_v07 st) userID).

Definition deleteUser `{TenantLib} (cfg : AccountCfg) (st : Store) (userID reason : string) : Store * option account_error :=
  match UserByID st userID with
  | None => (st, Some AcctNotFound)
  | Some user =>
      if guardLastOwner cfg st userID then (st, Some AcctLastOwner)
      else match DeleteUserCascade st userID with
      | None => (st, Some AcctNotFound)
      | Some st => (EmitAudit st (AccountDeleted userID reason (hash_email (u_email user))), None)
      end
  end.

(** ** The invariant of organizations *)

Section Wf.
Context `{TenantLib}.

(** Rows sit under their ids, slugs and organizations are one to one, members point to rows that exist, and
    no organization carries an id still to be drawn. *)
Record orgs_wf (users : gmap string User) (v : v07State) (next : nat) : Prop := {
  ow_id : ∀ k o, orgs v !! k = Some o -> o_id o = k ∧ orgsBySlug v !! o_slug o = Some k;
  ow_slug : ∀ s id, orgsBySlug v !! s = Some id -> ∃ o, orgs v !! id = Some o ∧ o_slug o = s;
  ow_member : ∀ o u m, members v !! (o, u) = Some m ->
    m_org m = o ∧ m_user m = u ∧ is_Some (orgs v !! o) ∧ is_Some (users !! u);
  ow_fresh : ∀ n, (next <= n)%nat -> orgs v !! fresh n = None;
}.
End Wf.

Definition is_owner (v : v07State) (o u : string) : Prop := OrganizationMemberRole v o u = Some OrgRoleOwner.

(** Every organization has an owner. *)
Definition all_owned (v : v07State) : Prop := ∀ o, is_Some (orgs v !! o) -> ∃ u, is_owner v o u.

Lemma is_owner_lookup v o u : is_owner v o u ↔ ∃ m, members v !! (o, u) = Some m ∧ m_role m = OrgRoleOwner.
Proof. unfold is_owner, OrganizationMemberRole. rewrite fmap_Some. naive_solver. Qed.

Lemma NoDup_map_List_filter {A B} (f : A -> B) (g : A -> bool) (l : list A) : NoDup (map f l) -> NoDup (map f (List.filter g l)).
Proof.
  induction l as [|x l IH]; simpl; [done|]. intros [Hn Hl]%NoDup_cons. destruct (g x); simpl; [|auto].
  apply NoDup_cons. split; [|auto]. rewrite list_elem_of_In, in_map_iff. intros (y & Hy & [Hin _]%List.filter_In).
  apply Hn. rewrite list_elem_of_In, in_map_iff. eauto.
Qed.

(** The rows that [owners] counts. *)
Definition owner_rows (v : v07State) (o : string) : list OrganizationMember :=
  List.filter (fun m => (m_role m =? OrgRoleOwner)%string)
    (List.filter (fun m => (m_org m =? o)%string) (map snd (map_to_list (members v)))).

Lemma owners_rows v o : owners v o = length (owner_rows v o).
Proof.
  unfold owners, owner_rows, OrganizationMembersByOrg. apply Permutation_length.
  assert (Hp : ∀ l l', l ≡ₚ l' -> List.filter (fun m => (m_role m =? OrgRoleOwner)%string) l
    ≡ₚ List.filter (fun m => (m_role m =? OrgRoleOwner)%string) l').
  { induction 1; simpl; repeat case_match; eauto using Permutation. }
  apply Hp, sort_by_perm.
Qed.

Section Owners.
Context `{TenantLib} (users : gmap string User) (v : v07State) (next : nat) (Hwf : orgs_wf users v next).

Lemma elem_of_owner_rows o m : m ∈ owner_rows v o ↔ m_org m = o ∧ is_owner v o (m_user m) ∧ members v !! (o, m_user m) = Some m.
Proof.
  unfold owner_rows. rewrite list_elem_of_In, !List.filter_In, <- list_elem_of_In, elem_of_map_values, !String.eqb_eq.
  rewrite is_owner_lookup. split.
  - intros [[([o' u] & Hk) Ho] Hr]. destruct (ow_member _ _ _ Hwf _ _ _ Hk) as (? & ? & _). simplify_eq. eauto.
  - intros (Ho & (m' & Hm' & Hr) & Hm). simplify_eq. eauto.
Qed.

Lemma NoDup_owner_users o : NoDup (map m_user (owner_rows v o)).
Proof.
  assert (Hk : NoDup (map (fun m => (m_org m, m_user m)) (map snd (map_to_list (members v))))).
  { rewrite map_map. erewrite map_ext_in; [apply (NoDup_fst_map_to_list (members v))|].
    intros [[o' u'] m] Hin%list_elem_of_In%elem_of_map_to_list. simpl. by destruct (ow_member _ _ _ Hwf _ _ _ Hin) as (-> & -> & _). }
  apply (NoDup_map_List_filter _ (fun m => (m_org m =? o)%string)), (NoDup_map_List_filter _ (fun m => (m_role m =? OrgRoleOwner)%string)) in Hk.
  fold (owner_rows v o) in Hk. apply (NoDup_fmap_1 (fun u => (o, u))). unfold fmap. change list_fmap with @map.
  rewrite map_map. erewrite map_ext_in; [exact Hk|]. intros m Hin%list_elem_of_In%elem_of_owner_rows. simpl. by destruct Hin as [-> _].
Qed.

(** Two owners are counted exactly when somebody else owns the organization too. *)
Lemma another_owner o u : is_owner v o u -> (owners v o <=? 1)%nat = false ↔ ∃ u', u' ≠ u ∧ is_owner v o u'.
Proof.
  intros Hu. rewrite owners_rows, Nat.leb_gt. pose proof (NoDup_owner_users o) as Hnd.
  assert (Hel : ∀ w, is_owner v o w ↔ w ∈ map m_user (owner_rows v o)).
  { intros w. rewrite list_elem_of_In, in_map_iff. split.
    - intros Hw. pose proof Hw as (m & Hm & _)%is_owner_lookup. destruct (ow_member _ _ _ Hwf _ _ _ Hm) as (? & ? & _).
      exists m. split; [done|]. apply list_elem_of_In, elem_of_owner_rows. by simplify_eq.
    - intros (m & <- & Hin%list_elem_of_In%elem_of_owner_rows). tauto. }
  apply Hel in Hu. setoid_rewrite Hel. rewrite <- (length_map m_user). revert Hnd Hu.
  generalize (map m_user (owner_rows v o)). clear. intros l Hnd Hu. split.
  - intros Hl. destruct l as [|a [|b l]]; simpl in Hl; [lia..|]. apply NoDup_cons in Hnd as [Hab _].
    destruct (decide (a = u)) as [->|]; [exists b|exists a]; set_solver.
  - intros (u' & Hne & Hin). destruct l as [|a [|b l]]; simpl; [set_solver| |lia].
    apply list_elem_of_singleton in Hin, Hu. congruence.
Qed.
End Owners.

(** ** The services keep every organization owned *)

Definition org_inv `{TenantLib} (st : Store) : Prop :=
  orgs_wf (st_users st) (st_v07 st) (st_next st) ∧ all_owned (st_v07 st).

(** One call: a request to the organization routes by a user of the store, or an account operation. *)
Inductive org_step `{TenantLib} (cfg : AccountCfg) : Store -> Store -> Prop :=
  | st_request st now auth r : (∀ u s, auth = Some (u, s) -> st_users st !! u_id u = Some u) ->
      org_step cfg st (org_serve true st now auth r).1
  | st_new_user st u : org_step cfg st (CreateUser st u)
  | st_must_change st now u b : org_step cfg st (SetMustChangePassword cfg st now u b).1
  | st_disable st now u : org_step cfg st (DisableUser cfg st now u).1
  | st_enable st u : org_step cfg st (EnableUser cfg st u).1
  | st_delete st u reason : org_step cfg st (deleteUser cfg st u reason).1.

Section Keeps.
Context `{TenantLaws}.

Lemma Upsert_Some users v next now m v' :
  orgs_wf users v next -> UpsertOrganizationMember users v now m = Some v' ->
  is_Some (orgs v !! m_org m) ∧ is_Some (users !! m_user m)
  ∧ ∃ m', v' = set_members v (<[(m_org m, m_user m) := m']> (members v))
    ∧ m_org m' = m_org m ∧ m_user m' = m_user m ∧ m_role m' = m_role m.
Proof.
  intros Hwf. unfold UpsertOrganizationMember. destruct (orgs v !! m_org m); [|done]. destruct (users !! m_user m); [|done].
  destruct (members v !! _) as [e|] eqn:He; intros [= <-]; (split_and!; [done..|]); eexists; (split; [done|]); simpl.
  - by destruct (ow_member _ _ _ Hwf _ _ _ He) as (-> & -> & _).
  - by destruct (IsZero _).
Qed.

Lemma Upsert_wf users v next now m v' :
  orgs_wf users v next -> UpsertOrganizationMember users v now m = Some v' -> orgs_wf users v' next.
Proof.
  intros Hwf Hu. destruct (Upsert_Some _ _ _ _ _ _ Hwf Hu) as (Ho & Hus & m' & -> & ? & ? & _). destruct Hwf. split; simpl; try done.
  intros o u mm [[[= <- <-] <-]|[_ Hm]]%lookup_insert_Some; eauto.
Qed.

(** Who owns after an upsert. *)
Lemma Upsert_owner users v next now m v' o u :
  orgs_wf users v next -> UpsertOrganizationMember users v now m = Some v' ->
  is_owner v' o u ↔ if decide ((o, u) = (m_org m, m_user m)) then m_role m = OrgRoleOwner else is_owner v o u.
Proof.
  intros Hwf Hu. destruct (Upsert_Some _ _ _ _ _ _ Hwf Hu) as (_ & _ & m' & -> & _ & _ & Hr).
  unfold is_owner, OrganizationMemberRole. simpl. case_decide as He.
  - rewrite He, lookup_insert_eq. simpl. rewrite Hr. split; congruence.
  - by rewrite lookup_insert_ne by congruence.
Qed.

Lemma AddMember_inv st now org user role : org_inv st -> org_inv (AddMember st now org user role).1.
Proof.
  intros [Hwf Hall]. unfold AddMember. destruct (negb _); [done|].
  destruct (demotes_last_owner st org user role) eqn:Hd; [done|].
  destruct (UpsertOrganizationMember _ _ _ _) as [v|] eqn:Hu; [|done]. split; simpl; [by eapply Upsert_wf|].
  intros o Ho. assert (Ho' : is_Some (orgs (st_v07 st) !! o)).
  { by destruct (Upsert_Some _ _ _ _ _ _ Hwf Hu) as (_ & _ & m' & -> & _). }
  destruct (Hall o Ho') as [u Hown]. setoid_rewrite (Upsert_owner _ _ _ _ _ _ o _ Hwf Hu). simpl.
  destruct (decide ((o, u) = (org, user))) as [[= -> ->]|Hne]; [|exists u; by rewrite decide_False].
  destruct (decide (role = OrgRoleOwner)) as [->|Hr]; [exists user; by rewrite decide_True|].
  unfold demotes_last_owner in Hd. rewrite (proj2 (String.eqb_neq _ _) Hr), bool_decide_true in Hd by done. simpl in Hd.
  apply (another_owner _ _ _ Hwf _ _ Hown) in Hd as (u' & Hne & Hu'). exists u'. rewrite decide_False; [done|congruence].
Qed.

Lemma members_sub_wf users users' v next ms :
  orgs_wf users v next -> (∀ k m, ms !! k = Some m -> members v !! k = Some m ∧ (is_Some (users !! k.2) -> is_Some (users' !! k.2))) ->
  orgs_wf users' (set_members v ms) next.
Proof.
  intros [] Hsub. split; simpl; try done. intros o u m [(? & ? & ? & ?)%ow_member0 Hu]%Hsub. auto.
Qed.

Lemma RemoveMember_inv st org user : org_inv st -> org_inv (RemoveMember st org user).1.
Proof.
  intros [Hwf Hall]. unfold RemoveMember. destruct (remove_check st org user) eqn:Hc; [done|].
  unfold remove_write, DeleteOrganizationMember. destruct (members (st_v07 st) !! (org, user)) as [m|] eqn:Hm; [|done].
  split; simpl.
  { eapply members_sub_wf; [done|]. by intros k x [_ ?]%lookup_delete_Some. }
  intros o Ho. destruct (Hall o Ho) as [u Hown].
  assert (Hdel : ∀ w, (o, w) ≠ (org, user) -> is_owner (st_v07 st) o w ->
    is_owner (set_members (st_v07 st) (delete (org, user) (members (st_v07 st)))) o w).
  { intros w Hne. unfold is_owner, OrganizationMemberRole. simpl. by rewrite lookup_delete_ne by congruence. }
  destruct (decide ((o, u) = (org, user))) as [[= -> ->]|Hne]; [|eauto].
  unfold remove_check in Hc. rewrite Hown, String.eqb_refl in Hc. simpl in Hc.
  destruct (owners (st_v07 st) org <=? 1)%nat eqn:Hle; [done|].
  apply (another_owner _ _ _ Hwf _ _ Hown) in Hle as (u' & Hne & Hu'). exists u'. apply Hdel; [congruence|done].
Qed.

Lemma Create_inv enabled st now name slug owner :
  org_inv st -> is_Some (st_users st !! owner) -> org_inv (Create enabled st now name slug owner).1.
Proof.
  intros [Hwf Hall] Hu. unfold Create. destruct (negb enabled); [done|]. destruct (_ =? "")%string; [done|].
  destruct (validateSlug _); [done|]. simpl.
  assert (Hwf1 : orgs_wf (st_users st) (st_v07 st) (S (st_next st))).
  { destruct Hwf. split; try done. intros n Hn. apply ow_fresh0. lia. }
  unfold InsertOrganization. destruct (orgsBySlug _ !! _) as [i|] eqn:Hs; [by split|]. simpl in Hs |- *.
  pose proof (ow_fresh _ _ _ Hwf (st_next st) (Nat.le_refl _)) as Hf.
  set (o := mkOrganization _ _ _ _ _). set (v := mkV07 _ _ _).
  assert (Hwf2 : orgs_wf (st_users st) v (S (st_next st))).
  { destruct Hwf1. split; unfold v; simpl.
    - intros k o' [[<- <-]|[Hne Hk]]%lookup_insert_Some; simpl; [by rewrite lookup_insert_eq|].
      destruct (ow_id0 _ _ Hk) as [? Hsl]. rewrite lookup_insert_ne; [done|]. congruence.
    - intros s id [[<- <-]|[Hne (o' & Ho' & Hsl)%ow_slug0]]%lookup_insert_Some; [exists o; by rewrite lookup_insert_eq|].
      exists o'. rewrite lookup_insert_ne; [done|]. congruence.
    - intros o' u m (? & ? & ? & ?)%ow_member0. rewrite lookup_insert_is_Some'. auto.
    - intros n Hn. rewrite lookup_insert_ne; [apply ow_fresh0; lia|]. intros He%fresh_inj. lia. }
  destruct (UpsertOrganizationMember (st_users st) v now (mkMember (fresh (st_next st)) owner OrgRoleOwner 0)) as [v'|] eqn:Hup.
  2:{ exfalso. unfold UpsertOrganizationMember in Hup. simpl in Hup. rewrite lookup_insert_eq in Hup.
      destruct Hu as [? Hu]. rewrite Hu in Hup. by destruct (members _ !! _). }
  split; simpl; [by eapply Upsert_wf|]. intros k Hk. setoid_rewrite (Upsert_owner _ _ _ _ _ _ k _ Hwf2 Hup). simpl.
  destruct (decide (k = fresh (st_next st))) as [->|Hne]; [exists owner; by rewrite decide_True|].
  destruct (Hall k) as [u Hown].
  { destruct (Upsert_Some _ _ _ _ _ _ Hwf2 Hup) as (_ & _ & m' & -> & _). unfold v in Hk. simpl in Hk.
    by rewrite lookup_insert_ne in Hk. }
  exists u. rewrite decide_False by congruence. exact Hown.
Qed.

Lemma guard_ok cfg st o u :
  ac_orgs cfg = true -> orgs_wf (st_users st) (st_v07 st) (st_next st) -> guardLastOwner cfg st u = false ->
  is_owner (st_v07 st) o u -> ∃ u', u' ≠ u ∧ is_owner (st_v07 st) o u'.
Proof.
  intros Hc Hwf Hg Hown. unfold guardLastOwner in Hg. rewrite Hc in Hg. simpl in Hg.
  pose proof Hown as (m & Hm & Hr)%is_owner_lookup. destruct (ow_member _ _ _ Hwf _ _ _ Hm) as (Hmo & Hmu & [row Ho] & _).
  destruct (ow_id _ _ _ Hwf _ _ Ho) as [Hid _].
  assert (Hs : sole_owner (st_v07 st) u row = false).
  { revert Hg. rewrite existsb_false_iff. intros Hg. apply Hg. unfold OrganizationsByUser.
    rewrite elem_of_sort_by, list_elem_of_omap. exists m. split; [apply elem_of_map_values; eauto|].
    rewrite Hmu, String.eqb_refl, Hmo. done. }
  unfold sole_owner in Hs. rewrite Hid in Hs. rewrite (proj2 (existsb_true_iff _ _)) in Hs.
  - by apply (another_owner _ _ _ Hwf _ _ Hown).
  - exists m. rewrite Hr, Hmu, !String.eqb_refl. split; [|done]. unfold OrganizationMembersByOrg.
    rewrite elem_of_sort_by, list_elem_of_In, List.filter_In, <- list_elem_of_In, elem_of_map_values.
    split; [eauto|]. by rewrite Hmo, String.eqb_refl.
Qed.

Lemma deleteUser_inv cfg st u reason : ac_orgs cfg = true -> org_inv st -> org_inv (deleteUser cfg st u reason).1.
Proof.
  intros Hc [Hwf Hall]. unfold deleteUser. destruct (UserByID st u) as [row|] eqn:Hu; [|done].
  destruct (guardLastOwner cfg st u) eqn:Hg; [done|]. unfold DeleteUserCascade, UserByID in *. rewrite Hu. split; simpl.
  - eapply members_sub_wf; [done|]. intros [o' u'] m [Hm Hne]%map_lookup_filter_Some. simpl in *.
    split; [done|]. by rewrite lookup_delete_ne.
  - intros o Ho. destruct (Hall o Ho) as [w Hw].
    assert (Hex : ∃ w, w ≠ u ∧ is_owner (st_v07 st) o w).
    { destruct (decide (w = u)) as [->|]; [by eapply guard_ok|eauto]. }
    destruct Hex as (w' & Hne & (m & Hm & Hr)%is_owner_lookup). exists w'. apply is_owner_lookup. exists m.
    split; [|done]. simpl. by apply map_lookup_filter_Some.
Qed.

Lemma org_inv_same st st' :
  st_users st' = st_users st -> st_v07 st' = st_v07 st -> st_next st' = st_next st -> org_inv st -> org_inv st'.
Proof. unfold org_inv. by intros -> -> ->. Qed.

Lemma SetActive_inv st sid org : org_inv st -> org_inv (SetActive st sid org).1.
Proof.
  unfold SetActive, SetSessionActiveOrganization. destruct (st_sessions st !! sid); [|done].
  destruct (match org with Some _ => _ | None => _ end); [done|]. by apply org_inv_same.
Qed.

Lemma org_serve_inv enabled st now auth r :
  (∀ u s, auth = Some (u, s) -> st_users st !! u_id u = Some u) -> org_inv st -> org_inv (org_serve enabled st now auth r).1.
Proof.
  intros Hauth Hinv. unfold org_serve. destruct auth as [[u s]|]; [|done]. destruct (RequireAuth _); [done|].
  specialize (Hauth u s eq_refl). destruct r as [[[name slug]|]| | |id b|id uid|id|]; simpl; try done.
  - pose proof (Create_inv enabled st now name slug (u_id u) Hinv (ltac:(by eexists))) as Hc.
    destruct (Create _ _ _ _ _ _) as [st' [o|[]]]; try done. by destruct e.
  - unfold handleAddMember. destruct (ulid_parse id) as [o|]; [|done]. destruct (requireOrgRole _ _ _ _); [done|].
    destruct b as [[userId role]|]; [|done]. destruct (ulid_parse userId) as [w|]; [|done].
    pose proof (AddMember_inv st now o w role Hinv) as Ha. by destruct (AddMember _ _ _ _ _) as [st' []].
  - unfold handleRemoveMember. destruct (ulid_parse id) as [o|]; [|done]. destruct (ulid_parse uid) as [w|]; [|done].
    destruct (requireOrgRole _ _ _ _); [done|].
    pose proof (RemoveMember_inv st o w Hinv) as Hr. by destruct (RemoveMember _ _ _) as [st' [[]|]].
  - unfold handleActivate. destruct (ulid_parse id) as [o|]; [|done]. destruct (requireOrgRole _ _ _ _); [done|].
    pose proof (SetActive_inv st (se_id s) (Some o) Hinv) as Hs. by destruct (SetActive _ _ _) as [st' []].
  - pose proof (SetActive_inv st (se_id s) None Hinv) as Hs. by destruct (SetActive _ _ _) as [st' []].
Qed.

Lemma updateState_same st u fn st' :
  updateState st u fn = Some st' -> st_users st' = st_users st ∧ st_v07 st' = st_v07 st ∧ st_next st' = st_next st.
Proof. unfold updateState. destruct (st_users st !! u); [|done]. by intros [= <-]. Qed.

Lemma org_step_inv cfg st st' : ac_orgs cfg = true -> org_step cfg st st' -> org_inv st -> org_inv st'.
Proof.
  intros Hc Hs Hinv. destruct Hs as [st now auth r Hauth|st u|st now u b|st now u|st u|st u reason]; auto using org_serve_inv, deleteUser_inv.
  - destruct Hinv as [[] Hall]. split; [split; simpl; try done|done].
    intros o w m (? & ? & ? & ?)%ow_member0. rewrite lookup_insert_is_Some'. auto.
  - unfold SetMustChangePassword. destruct (negb _); [done|]. destruct (store_SetMustChangePassword _ _ _) as [st'|] eqn:Hu; [|done].
    apply updateState_same in Hu as (? & ? & ?). destruct b; simpl; by apply (org_inv_same st).
  - unfold DisableUser. destruct (negb _); [done|]. destruct (SetUserDisabledAt _ _ _) as [st'|] eqn:Hu; [|done].
    apply updateState_same in Hu as (? & ? & ?). repeat case_match; simpl; by apply (org_inv_same st).
  - unfold EnableUser. destruct (negb _); [done|]. destruct (SetUserDisabledAt _ _ _) as [st'|] eqn:Hu; [|done].
    apply updateState_same in Hu as (? & ? & ?). simpl; by apply (org_inv_same st).
Qed.

(** Between the reads and the delete of a removal another removal can run: two owners who remove each other
    at the same time both pass the check on the last owner, and the organization has no owner. *)
Theorem racing_removals_orphan st o a b :
  org_inv st -> a ≠ b -> is_owner (st_v07 st) o a -> is_owner (st_v07 st) o b ->
  (∀ u, is_owner (st_v07 st) o u -> u = a ∨ u = b) ->
  remove_check st o a = None ∧ remove_check st o b = None
  ∧ ∀ u, ~ is_owner (st_v07 (remove_write (remove_write st o a).1 o b).1) o u.
Proof.
  intros [Hwf _] Hne Ha Hb Honly.
  assert (Hcheck : ∀ x y, x ≠ y -> is_owner (st_v07 st) o x -> is_owner (st_v07 st) o y -> remove_check st o x = None).
  { intros x y Hxy Hx Hy. unfold remove_check. rewrite Hx, String.eqb_refl. simpl.
    by rewrite (proj2 (another_owner _ _ _ Hwf _ _ Hx)) by eauto. }
  split; [by eapply (Hcheck a b)|]. split; [by eapply (Hcheck b a)|].
  pose proof Ha as (ma & Hma & _)%is_owner_lookup. pose proof Hb as (mb & Hmb & _)%is_owner_lookup.
  unfold remove_write, DeleteOrganizationMember. rewrite Hma. simpl. rewrite lookup_delete_ne by congruence. rewrite Hmb.
  simpl. intros u. rewrite is_owner_lookup. simpl. intros (m & [H1b [H1a Hm]%lookup_delete_Some]%lookup_delete_Some & Hr).
  destruct (Honly u); [by apply is_owner_lookup; eauto|congruence..].
Qed.

(** C24. Every organization keeps an owner who is a user of the store, as long as requests do not overlap: whatever
    users do through the organization routes and whatever account operations are run, in any order but one
    after another (each request is a step: its checks and its write). The condition is needed, and nothing in
    the code enforces it: in every store where an organization has exactly two owners, two requests that remove
    them both pass the check for the last owner if they check before either writes, and then nobody owns the
    organization. *)
Theorem organizations_keep_owner cfg st :
  ac_orgs cfg = true -> org_inv st ->
  (∀ st' o, rtc (org_step cfg) st st' -> is_Some (orgs (st_v07 st') !! o) ->
     ∃ u, is_owner (st_v07 st') o u ∧ is_Some (st_users st' !! u))
  ∧ ∀ o a b, a ≠ b -> is_owner (st_v07 st) o a -> is_owner (st_v07 st) o b ->
      (∀ u, is_owner (st_v07 st) o u -> u = a ∨ u = b) ->
      remove_check st o a = None ∧ remove_check st o b = None
      ∧ ∀ u, ~ is_owner (st_v07 (remove_write (remove_write st o a).1 o b).1) o u.
Proof.
  intros Hc Hinv. split; [|intros o a b; by apply racing_removals_orphan]. intros st' o Hs Ho.
  assert (Hinv' : org_inv st') by (clear Ho; induction Hs; eauto using org_step_inv).
  destruct Hinv' as [Hwf Hall]. destruct (Hall o Ho) as [u Hu]. exists u. split; [done|].
  apply is_owner_lookup in Hu as (m & Hm & _). by destruct (ow_member _ _ _ Hwf _ _ _ Hm) as (_ & _ & _ & ?).
Qed.

(** An admin of an organization, who may not remove members, makes himself owner with one request. *)
Theorem admin_makes_himself_owner enabled st now user sess raw o rawUser :
  org_inv st -> st_users st !! u_id user = Some user -> full_level sess ->
  ulid_parse raw = Some o -> ulid_parse rawUser = Some (u_id user) ->
  OrganizationMemberRole (st_v07 st) o (u_id user) = Some OrgRoleAdmin ->
  is_owner (st_v07 (org_serve enabled st now (Some (user, sess)) (HandleAddMember raw (Some (rawUser, OrgRoleOwner)))).1)
    o (u_id user).
Proof.
  intros [Hwf _] Hu Hl Hp Hp' Hr. unfold org_serve, RequireAuth. rewrite (proj2 (level_check _) Hl). simpl.
  unfold handleAddMember. rewrite Hp. unfold requireOrgRole. rewrite Hr. simpl. rewrite Hp'.
  unfold AddMember. simpl. unfold demotes_last_owner. simpl.
  apply fmap_Some in Hr as (m & Hm & _). destruct (ow_member _ _ _ Hwf _ _ _ Hm) as (_ & _ & [row Ho] & _).
  destruct (UpsertOrganizationMember _ _ _ _) as [v|] eqn:Hup; simpl.
  - apply (Upsert_owner _ _ _ _ _ _ o (u_id user) Hwf Hup). simpl. by rewrite decide_True.
  - unfold UpsertOrganizationMember in Hup. simpl in Hup. by rewrite Ho, Hu, Hm in Hup.
Qed.

Lemma Upsert_tables users v now m v' :
  UpsertOrganizationMember users v now m = Some v' -> orgs v' = orgs v ∧ orgsBySlug v' = orgsBySlug v.
Proof. unfold UpsertOrganizationMember. intros Hup. repeat case_match; by simplify_eq. Qed.

(** A created organization is found under its id and under its slug, the trimmed and lowered one asked for. *)
Lemma Create_found enabled st now name slug owner st' o :
  Create enabled st now name slug owner = (st', Ok o) ->
  o_slug o = to_lower (trim_space slug)
  ∧ BySlug st' (o_slug o) = Some o ∧ OrganizationByID (st_v07 st') (o_id o) = Some o.
Proof.
  unfold Create. destruct (negb enabled); [done|]. destruct (_ =? "")%string; [done|].
  destruct (validateSlug _); [done|]. simpl. unfold InsertOrganization. simpl. destruct (orgsBySlug _ !! _) eqn:Hs; [done|]. simpl.
  destruct (UpsertOrganizationMember _ _ _ _) as [v|] eqn:Hup; [|done]. intros [= <- <-].
  apply Upsert_tables in Hup as [Hv1 Hv2].
  unfold BySlug, OrganizationBySlug, OrganizationByID. simpl.
  rewrite Hv1, Hv2. simpl. rewrite !to_lower_idem, !lookup_insert_eq. simpl. by rewrite lookup_insert_eq.
Qed.
End Keeps.

(** ** Examples *)

#[local] Existing Instance example_lib.
#[local] Existing Instance example_laws.

Lemma example_orgs_wf : orgs_wf example_users example_v07 0.
Proof.
  split.
  - refine (bool_decide_unpack (map_Forall (fun k o => o_id o = k ∧ orgsBySlug example_v07 !! o_slug o = Some k)
      (orgs example_v07)) _). by vm_compute.
  - intros s id Hs. assert (Hb : map_Forall (fun s id => o_slug <$> orgs example_v07 !! id = Some s) (orgsBySlug example_v07)).
    { refine (bool_decide_unpack _ _). by vm_compute. }
    by apply Hb, fmap_Some in Hs as (o & Ho & ->); eauto.
  - intros o u m Hm. refine (bool_decide_unpack (map_Forall (fun ou m => m_org m = ou.1 ∧ m_user m = ou.2
      ∧ is_Some (orgs example_v07 !! ou.1) ∧ is_Some (example_users !! ou.2)) (members example_v07)) _ (o, u) m Hm). by vm_compute.
  - intros n _. by apply not_drawn_fresh; vm_compute.
Qed.

Lemma example_org_inv : org_inv example_store.
Proof.
  split; [apply example_orgs_wf|]. intros o [row Ho].
  assert (Hb : map_Forall (fun o _ => ∃ u, u ∈ ["alice"; "bob"] ∧ is_owner example_v07 o u) (orgs example_v07)).
  { assert (Hb : map_Forall (fun o _ => Exists (is_owner example_v07 o) ["alice"; "bob"]) (orgs example_v07)).
    { unfold is_owner. refine (bool_decide_unpack _ _). by vm_compute. }
    intros k x (u & Hin & Hu)%Hb%Exists_exists. eauto. }
  destruct (Hb o row Ho) as (u & _ & Hu). eauto.
Qed.

(** Alice makes bob an owner, bob removes her, and the account of bob cannot be deleted. *)
Lemma organizations_keep_owner_witness :
  let auth u := Some (example_user u, example_session u "acme") in
  let st1 := (org_serve true example_store 5 (auth "alice") (HandleAddMember "acme" (Some ("bob", OrgRoleOwner)))).1 in
  let st2 := (org_serve true st1 6 (auth "bob") (HandleRemoveMember "acme" "alice")).1 in
  let st3 := (deleteUser (mkAccountCfg true None None true) st2 "bob" "admin").1 in
  ∃ u, is_owner (st_v07 st3) "acme" u ∧ is_Some (st_users st3 !! u).
Proof.
  intros auth st1 st2 st3. apply (proj1 (organizations_keep_owner (mkAccountCfg true None None true) example_store eq_refl example_org_inv)
    st3 "acme").
  - eapply rtc_l; [apply (st_request _ example_store 5 (auth "alice")); intros u s [= <- <-]; vm_compute; reflexivity|].
    eapply rtc_l; [apply (st_request _ st1 6 (auth "bob")); intros u s [= <- <-]; vm_compute; reflexivity|].
    apply rtc_once. apply (st_delete _ st2).
  - apply (bool_decide_unpack (is_Some (orgs (st_v07 st3) !! "acme"))). vm_compute. exact I.
Defined.
