(* ===== verification/AdminApi.v ===== *)
(** * The organization-scoped admin API ([internal/admin/handlers.go])

    The routes under [/admin/v1/organizations/{orgID}], each behind [RequireAuth], [requireOrgMatch] and
    [RequirePermission] for one permission, over the store of [Tenants]: users, invitations, roles of a user,
    sessions, roles. [admin_serve] is the whole chain. The theorems say who reaches a handler and what the
    handlers do to grants, and that the handlers for roles, sessions and invitations do not look at the
    organization of the row they change. The audit query is not modelled. *)

From Stdlib Require Import ZArith Lia String.
From stdpp Require Import base gmap strings list sorting pretty.
From S2P Require Import Prelude Session Tenants Rbac Organizations.

Set Default Goal Selector "!".
Open Scope string_scope.
Open Scope list_scope.
Open Scope Z_scope.

(** ** Requests *)

Record PatchBody := mkPatch {
  pb_status : string; pb_roles : option (list string); pb_must : option bool; pb_disabled : option bool;
}.

(** Path and query parameters as sent; a body that does not decode is [None]. *)
Inductive admin_request :=
  | ListUsers (limit cursor : string)
  | GetUser (userID : string)
  | InviteUser (b : option (string * string))
  | PatchUser (userID : string) (b : option PatchBody)
  | RemoveUser (userID : string)
  | DeleteUserAccount (userID : string)
  | ListSessions (user_id : string)
  | RevokeSessionReq (sessionID : string)
  | ListRoles
  | CreateRoleReq (b : option (string * string * list string))
  | UpdateRoleReq (roleID : string) (b : option (string * string * option (list string)))
  | DeleteRoleReq (roleID : string)
  | ListOAuthAccounts.

(** The permission that [Mount] puts in front of each route. *)
Definition permission_of (r : admin_request) : string :=
  match r with
  | ListUsers _ _ | GetUser _ | ListOAuthAccounts => PermissionUsersRead
  | InviteUser _ => PermissionUsersInvite
  | PatchUser _ _ | RemoveUser _ | DeleteUserAccount _ => PermissionUsersAdmin
  | ListSessions _ | RevokeSessionReq _ => PermissionSessionsRevoke
  | ListRoles => PermissionRolesRead
  | CreateRoleReq _ | UpdateRoleReq _ _ | DeleteRoleReq _ => PermissionRolesAdmin
  end.

(** The installation: RBAC, the account operations (absent without [WithLifecycle]), and whether the
    storage lists sessions. *)
Record AdminCfg := mkAdminCfg { ad_rbac : option Config; ad_lifecycle : option AccountCfg; ad_lister : bool }.

Definition CodeForbidden := "rbac.forbidden".
Definition CodeOrgMismatch := "rbac.org_mismatch".
Definition CodeNoActiveOrg := "rbac.no_active_org".
Definition CodeRoleInUse := "rbac.role_in_use".
Definition CodeUnknownPermission := "rbac.unknown_permission".
Definition CodeUserNotInOrg := "admin.user_not_in_org".
Definition CodeValidationInvalid := "validation.invalid".
Definition CodeNotFound := "admin.not_found".
Definition CodeInternal := "admin.internal".
Definition CodeUnauthorized := "auth.unauthorized".
Definition CodeUnsupportedAction := "admin.unsupported_action".

Section Admin.
Context `{TenantLib} (cfg : AdminCfg).

Definition ParseULIDPath (s : string) : option string := if (s =? "")%string then None else ulid_parse s.

Definition parseLimit (v : string) : Z :=
  if (v =? "")%string then 50
  else match atoi v with
  | None => 50
  | Some n => if n <=? 0 then 50 else if 200 <? n then 200 else n
  end.

Definition parseOffset (v : string) : Z :=
  if (v =? "")%string then 0 else match atoi v with None => 0 | Some n => if n <? 0 then 0 else n end.

Definition isSuperAdmin (st : Store) (user : option User) : bool :=
  match user with None => false | Some user => is_super_admin (st_v10 st) (u_id user) end.

(** [None] lets the request through, with the organization of the path. *)
Definition requireOrgMatch (st : Store) (auth : option (User * Session)) (orgParam : string) : result response string :=
  match ParseULIDPath orgParam with
  | None => Err (Error 400 CodeValidationInvalid)
  | Some orgID =>
      if isSuperAdmin st (fst <$> auth) then Ok orgID
      else match auth with
      | None => Err (Error 401 CodeUnauthorized)
      | Some (_, sess) =>
          match se_org sess with
          | None => Err (Error 403 CodeNoActiveOrg)
          | Some org => if (org =? orgID)%string then Ok orgID else Err (Error 403 CodeOrgMismatch)
          end
      end
  end.

(** ** Users *)

Definition listUsers (st : Store) (orgID limit cursor : string) : response :=
  let limit := parseLimit limit in
  let offset := parseOffset cursor in
  let users := (ListUsersByOrganization st orgID offset limit).1 in
  mkResp 200 "" (BUsers users (if Z.of_nat (length users) =? limit then Some (offset + limit) else None)).

Definition getUser (st : Store) (orgID userParam : string) : response :=
  match ParseULIDPath userParam with
  | None => Error 400 CodeValidationInvalid
  | Some userID =>
      match OrganizationMemberRole (st_v07 st) orgID userID with
      | None => Error 404 CodeUserNotInOrg
      | Some _ =>
          match UserByID st userID with
          | None => Error 404 CodeNotFound
          | Some u => mkResp 200 "" (BUserRoles u (RolesForUser (st_v10 st) userID (Some orgID)))
          end
      end
  end.

(** The invited user, created when the address is new. *)
Definition invited (st : Store) (now : Z) (email : string) : Store * User :=
  match UserByEmail st email with
  | Some u => (st, u)
  | None =>
      let '(st, id) := New st in
      let u := mkUser id email None "" "" now now "" "" "" "" in
      (CreateUser st u, u)
  end.

Definition inviteUser (st : Store) (now : Z) (actor : User) (orgID : string) (b : option (string * string)) : Store * response :=
  match b with
  | None => (st, Error 400 CodeValidationInvalid)
  | Some (email, roleId) =>
      if (email =? "")%string then (st, Error 400 CodeValidationInvalid)
      else
        let '(st, u) := invited st now email in
        match UpsertOrganizationMember (st_users st) (st_v07 st) now (mkMember orgID (u_id u) OrgRoleMember now) with
        | None => (st, Error 500 CodeInternal)
        | Some v =>
            let st := set_v07 st v in
            let done st := (EmitAudit st (UserInvited (u_id u) (hash_email email) roleId), mkResp 201 "" (BUser u)) in
            if (roleId =? "")%string then done st
            else match ulid_parse roleId with
            | None => (st, Error 400 CodeValidationInvalid)
            | Some roleID =>
                match GrantRole (ad_rbac cfg) st now (u_id actor) (u_id u) roleID with
                | (st, Some _) => (st, Error 500 CodeInternal)
                | (st, None) => done st
                end
            end
        end
  end.

Definition lifecycleError (e : account_error) : response :=
  match e with
  | AcctNotFound => Error 404 CodeNotFound
  | AcctLastOwner => Error 409 CodeRoleInUse
  | ErrMissingCapability | ErrAccountStateDisabled => Error 501 CodeUnsupportedAction
  | AcctInternal => Error 500 CodeInternal
  end.

(** The two optional fields of a PATCH. *)
Definition apply_must (lc : AccountCfg) (st : Store) (now : Z) (userID : string) (must : option bool) : Store * option account_error :=
  match must with None => (st, None) | Some b => SetMustChangePassword lc st now userID b end.

Definition apply_disabled (lc : AccountCfg) (st : Store) (now : Z) (userID : string) (disabled : option bool)
  : Store * option account_error :=
  match disabled with
  | None => (st, None)
  | Some true => DisableUser lc st now userID
  | Some false => EnableUser lc st userID
  end.

(** [None] is success. *)
Definition applyLifecycle (st : Store) (now : Z) (actor : User) (userID : string) (must disabled : option bool)
  : Store * option response :=
  if bool_decide (must = None) && bool_decide (disabled = None) then (st, None)
  else match ad_lifecycle cfg with
  | None => (st, Some (Error 400 CodeUnsupportedAction))
  | Some lc =>
      if bool_decide (is_Some disabled) && negb (isSuperAdmin st (Some actor)) then (st, Some (Error 403 CodeForbidden))
      else match apply_must lc st now userID must with
      | (st, Some e) => (st, Some (lifecycleError e))
      | (st, None) =>
          match apply_disabled lc st now userID disabled with
          | (st, Some e) => (st, Some (lifecycleError e))
          | (st, None) => (st, None)
          end
      end
  end.

(** The roles that a PATCH asks for, all of this organization. *)
Fixpoint wanted_roles (st : Store) (orgID : string) (rids : list string) (want : gset string) : result response (gset string) :=
  match rids with
  | [] => Ok want
  | rid :: rids =>
      match ulid_parse rid with
      | None => Err (Error 400 CodeValidationInvalid)
      | Some parsed =>
          match RoleByID (st_v10 st) parsed with
          | None => Err (Error 404 CodeNotFound)
          | Some role =>
              if bool_decide (r_org role = Some orgID) then wanted_roles st orgID rids ({[parsed]} ∪ want)
              else Err (Error 404 CodeUserNotInOrg)
          end
      end
  end.

Fixpoint grant_all (st : Store) (now : Z) (actorID userID : string) (ids : list string) : Store * option rbac_error :=
  match ids with
  | [] => (st, None)
  | id :: ids =>
      match GrantRole (ad_rbac cfg) st now actorID userID id with
      | (st, Some e) => (st, Some e)
      | (st, None) => grant_all st now actorID userID ids
      end
  end.

Fixpoint revoke_all (st : Store) (userID : string) (ids : list string) : Store * option rbac_error :=
  match ids with
  | [] => (st, None)
  | id :: ids =>
      match RevokeRole (ad_rbac cfg) st userID id with
      | (st, Some e) => (st, Some e)
      | (st, None) => revoke_all st userID ids
      end
  end.

(** Replace the user's roles in the organization. *)
Definition patch_roles (st : Store) (now : Z) (actorID orgID userID : string) (rids : list string) : Store * option response :=
  let current := RolesForUser (st_v10 st) userID (Some orgID) in
  match wanted_roles st orgID rids ∅ with
  | Err r => (st, Some r)
  | Ok want =>
      let have : gset string := list_to_set (map r_id current) in
      match grant_all st now actorID userID (elements (want ∖ have)) with
      | (st, Some _) => (st, Some (Error 500 CodeInternal))
      | (st, None) =>
          match revoke_all st userID (elements (have ∖ want)) with
          | (st, Some _) => (st, Some (Error 500 CodeInternal))
          | (st, None) => (st, None)
          end
      end
  end.

Definition patchUser (st : Store) (now : Z) (actor : User) (orgID userParam : string) (b : option PatchBody) : Store * response :=
  match ParseULIDPath userParam with
  | None => (st, Error 400 CodeValidationInvalid)
  | Some userID =>
      match OrganizationMemberRole (st_v07 st) orgID userID with
      | None => (st, Error 404 CodeUserNotInOrg)
      | Some _ =>
          match b with
          | None => (st, Error 400 CodeValidationInvalid)
          | Some b =>
              match applyLifecycle st now actor userID (pb_must b) (pb_disabled b) with
              | (st, Some r) => (st, r)
              | (st, None) =>
                  match (match pb_roles b with
                         | None => (st, None)
                         | Some rids => patch_roles st now (u_id actor) orgID userID rids
                         end) with
                  | (st, Some r) => (st, r)
                  | (st, None) =>
                      match UserByID st userID with
                      | None => (st, Error 500 CodeInternal)
                      | Some u => (st, mkResp 200 "" (BUserRoles u (RolesForUser (st_v10 st) userID (Some orgID))))
                      end
                  end
              end
          end
      end
  end.

Definition removeUser (st : Store) (orgID userParam : string) : Store * response :=
  match ParseULIDPath userParam with
  | None => (st, Error 400 CodeValidationInvalid)
  | Some userID =>
      match DeleteOrganizationMember (st_v07 st) orgID userID with
      | None => (st, Error 404 CodeUserNotInOrg)
      | Some v => (EmitAudit (set_v07 st v) (MemberRemoved userID orgID), mkResp 204 "" NoBody)
      end
  end.

Definition deleteUserAccount (lc : AccountCfg) (st : Store) (actor : User) (orgID userParam : string) : Store * response :=
  match ParseULIDPath userParam with
  | None => (st, Error 400 CodeValidationInvalid)
  | Some userID =>
      if negb (isSuperAdmin st (Some actor)) then (st, Error 403 CodeForbidden)
      else if (u_id actor =? userID)%string then (st, Error 400 CodeValidationInvalid)
      else match OrganizationMemberRole (st_v07 st) orgID userID with
      | None => (st, Error 404 CodeUserNotInOrg)
      | Some _ =>
          match deleteUser lc st userID "admin" with
          | (st, Some e) => (st, lifecycleError e)
          | (st, None) => (st, mkResp 204 "" NoBody)
          end
      end
  end.

(** ** Sessions *)

Definition listSessions (st : Store) (now : Z) (user_id : string) : response :=
  if (user_id =? "")%string then Error 400 CodeValidationInvalid
  else match ulid_parse user_id with
  | None => Error 400 CodeValidationInvalid
  | Some userID => mkResp 200 "" (BSessions (if ad_lister cfg then ListUserSessions (st_sessions st) userID now else []))
  end.

Definition revokeSession (st : Store) (now : Z) (sessionParam : string) : Store * response :=
  match ParseULIDPath sessionParam with
  | None => (st, Error 400 CodeValidationInvalid)
  | Some id =>
      match RevokeSession (st_sessions st) id now with
      | None => (st, Error 404 CodeNotFound)
      | Some s => (EmitAudit (set_sessions st s) (SessionRevoked id), mkResp 204 "" NoBody)
      end
  end.

(** ** Roles *)

Definition listRoles (st : Store) (orgID : string) : response :=
  mkResp 200 "" (BRoles (RolesByOrganization (st_v10 st) (Some orgID))).

Definition createRole (st : Store) (now : Z) (orgID : string) (b : option (string * string * list string)) : Store * response :=
  match b with
  | None => (st, Error 400 CodeValidationInvalid)
  | Some (name, desc, perms) =>
      if (name =? "")%string then (st, Error 400 CodeValidationInvalid)
      else match CreateRole (ad_rbac cfg) st now orgID name desc perms with
      | (st, Err (ErrUnknownPermission _)) => (st, Error 400 CodeUnknownPermission)
      | (st, Err _) => (st, Error 500 CodeInternal)
      | (st, Ok role) => (st, mkResp 201 "" (BRole role))
      end
  end.

Definition updateRole (st : Store) (now : Z) (roleParam : string) (b : option (string * string * option (list string)))
  : Store * response :=
  match ParseULIDPath roleParam with
  | None => (st, Error 400 CodeValidationInvalid)
  | Some roleID =>
      match b with
      | None => (st, Error 400 CodeValidationInvalid)
      | Some (name, desc, perms) =>
          match UpdateRole (ad_rbac cfg) st now roleID name desc perms with
          | (st, Err (ErrUnknownPermission _)) => (st, Error 400 CodeUnknownPermission)
          | (st, Err ErrNotFound) => (st, Error 404 CodeNotFound)
          | (st, Err _) => (st, Error 500 CodeInternal)
          | (st, Ok role) => (st, mkResp 200 "" (BRole role))
          end
      end
  end.

Definition deleteRole (st : Store) (roleParam : string) : Store * response :=
  match ParseULIDPath roleParam with
  | None => (st, Error 400 CodeValidationInvalid)
  | Some roleID =>
      match DeleteRole (ad_rbac cfg) st roleID with
      | (st, Some ErrRoleInUse) => (st, Error 409 CodeRoleInUse)
      | (st, Some ErrNotFound) => (st, Error 404 CodeNotFound)
      | (st, Some _) => (st, Error 500 CodeInternal)
      | (st, None) => (st, mkResp 204 "" NoBody)
      end
  end.

(** ** The chain of a request *)

Definition not_mounted : response := Error 404 "404 page not found".

(** The route for deleting accounts exists only with the account operations. *)
Definition mounted (r : admin_request) : bool :=
  match r with DeleteUserAccount _ => bool_decide (is_Some (ad_lifecycle cfg)) | _ => true end.

Definition handle (st : Store) (now : Z) (actor : User) (orgID : string) (r : admin_request) : Store * response :=
  match r with
  | ListUsers limit cursor => (st, listUsers st orgID limit cursor)
  | GetUser userID => (st, getUser st orgID userID)
  | InviteUser b => inviteUser st now actor orgID b
  | PatchUser userID b => patchUser st now actor orgID userID b
  | RemoveUser userID => removeUser st orgID userID
  | DeleteUserAccount userID =>
      match ad_lifecycle cfg with
      | None => (st, not_mounted)
      | Some lc => deleteUserAccount lc st actor orgID userID
      end
  | ListSessions user_id => (st, listSessions st now user_id)
  | RevokeSessionReq sessionID => revokeSession st now sessionID
  | ListRoles => (st, listRoles st orgID)
  | CreateRoleReq b => createRole st now orgID b
  | UpdateRoleReq roleID b => updateRole st now roleID b
  | DeleteRoleReq roleID => deleteRole st roleID
  | ListOAuthAccounts => (st, mkResp 200 "" BAccounts)
  end.

Definition admin_serve (st : Store) (now : Z) (auth : option (User * Session)) (orgParam : string) (r : admin_request)
  : Store * response :=
  match RequireAuth auth with
  | Some refusal => (st, refusal)
  | None =>
      match requireOrgMatch st auth orgParam with
      | Err refusal => (st, refusal)
      | Ok orgID =>
          if negb (mounted r) then (st, not_mounted)
          else match RequirePermission (ad_rbac cfg) (st_v10 st) auth None [permission_of r], auth with
          | Problem status code, _ => (st, Error status code)
          | Serve _, Some (actor, _) => handle st now actor orgID r
          | Serve _, None => (st, Error 401 "auth.unauthenticated")
          end
      end
  end.
End Admin.

(** ** Who reaches a handler *)

(** The caller is a super admin with an active organization, or the path names the active organization of
    his session and he holds the permission of the route there. *)
Definition may_call (v : v10State) (actor : User) (sess : Session) (orgID : string) (r : admin_request) : Prop :=
  (super_admin v (u_id actor) ∧ is_Some (se_org sess))
  ∨ (se_org sess = Some orgID ∧ user_holds v (u_id actor) (Some orgID) (permission_of r)).

Section Gate.
Context `{TenantLib} (cfg : AdminCfg).

Lemma requireOrgMatch_ok st actor sess p orgID :
  requireOrgMatch st (Some (actor, sess)) p = Ok orgID ↔
    ParseULIDPath p = Some orgID ∧ (super_admin (st_v10 st) (u_id actor) ∨ se_org sess = Some orgID).
Proof.
  unfold requireOrgMatch. simpl. destruct (ParseULIDPath p) as [o|]; [|naive_solver].
  rewrite <- is_super_admin_spec. destruct (is_super_admin _ _); [naive_solver|].
  destruct (se_org sess) as [org|]; [|naive_solver].
  destruct (String.eqb_spec org o); naive_solver.
Qed.

Lemma requireOrgMatch_err st auth p r : requireOrgMatch st auth p = Err r -> 400 <= rp_status r.
Proof.
  unfold requireOrgMatch. intros Hr. repeat case_match; simplify_eq; simpl; lia.
Qed.

Lemma RequirePermission_problem v auth perms status code :
  RequirePermission (ad_rbac cfg) v auth None perms = Problem status code -> 400 <= status.
Proof. unfold RequirePermission. intros Hp. repeat case_match; simplify_eq; simpl; lia. Qed.

(** C25. A request is either refused, with an error status and the store as it was, or it comes from a fully
    authenticated session whose user may call the route on the organization of the path, and is handled. *)
Theorem admin_serve_authorised st now auth p r :
  let res := admin_serve cfg st now auth p r in
  (res.1 = st ∧ 400 <= rp_status res.2)
  ∨ ∃ actor sess orgID, auth = Some (actor, sess) ∧ full_level sess ∧ ParseULIDPath p = Some orgID
      ∧ may_call (st_v10 st) actor sess orgID r ∧ res = handle cfg st now actor orgID r.
Proof.
  simpl. unfold admin_serve. destruct (RequireAuth auth) as [refusal|] eqn:Ha.
  { left. split; [done|]. simpl. unfold RequireAuth in Ha. repeat case_match; simplify_eq; simpl; lia. }
  destruct (requireOrgMatch st auth p) as [orgID|e] eqn:Ho; [|left; by eauto using requireOrgMatch_err].
  destruct (mounted cfg r) eqn:Hmt; simpl; [|by left]. destruct (RequirePermission _ _ _ _ _) as [status code|cache] eqn:Hp.
  { left. split; [done|]. by eapply RequirePermission_problem. }
  destruct auth as [[actor sess]|]; [|by left]. right. exists actor, sess, orgID.
  apply requireOrgMatch_ok in Ho as [Hparse Hsup].
  destruct (proj1 (RequirePermission_serves_iff _ _ _ _) (ex_intro _ _ Hp)) as (_ & u & s & org & [= <- <-] & Hl & Horg & Hperm).
  split_and!; try done. unfold may_call. destruct (decide (org = orgID)) as [->|Hne].
  - destruct Hperm as [|Hperm]; [by left; eauto|]. right. split; [done|]. apply Hperm. set_solver.
  - destruct Hsup as [|Hsup]; [left; eauto|]. congruence.
Qed.
End Gate.

(** ** Replacing the roles of a user *)

Lemma wanted_roles_ok `{TenantLib} st org rids want want' :
  wanted_roles st org rids want = Ok want' ->
  ∀ k, k ∈ want' ↔ k ∈ want ∨ (k ∈ omap ulid_parse rids ∧ ∃ role, roles (st_v10 st) !! k = Some role ∧ r_org role = Some org).
Proof.
  revert want. induction rids as [|rid rids IH]; intros want; simpl; [intros [= <-] k; set_solver|].
  destruct (ulid_parse rid) as [id|]; [|done]. destruct (RoleByID _ _) as [role|] eqn:Hr; [|done].
  apply fmap_Some in Hr as (row & Hrow & ->). simpl. destruct (bool_decide_reflect (r_org row = Some org)) as [Ho|]; [|done].
  intros Hw k. rewrite (IH _ Hw), elem_of_union, elem_of_singleton, elem_of_cons. naive_solver.
Qed.

Section Patch.
Context `{TenantLaws} (cfg : AdminCfg) (c : Config) (Hcfg : ad_rbac cfg = Some c).

(** Roles and users of a store that granting and revoking leave as they are. *)
Definition same_roles (st st' : Store) : Prop :=
  roles (st_v10 st') = roles (st_v10 st) ∧ st_users st' = st_users st ∧ st_v07 st' = st_v07 st ∧ st_next st' = st_next st.

#[local] Instance same_roles_po : PreOrder same_roles.
Proof. split; [by repeat split|]. intros a b d (? & ? & ? & ?) (? & ? & ? & ?). unfold same_roles. split_and!; congruence. Qed.

Lemma GrantRole_ok st now actor target k role org :
  is_Some (st_users st !! target) -> roles (st_v10 st) !! k = Some role -> r_org role = Some org ->
  ∃ st', GrantRole (Some c) st now actor target k = (st', None) ∧ same_roles st st'
    ∧ ∀ u k', granted (st_v10 st') u k' ↔ (u = target ∧ k' = k) ∨ granted (st_v10 st) u k'.
Proof.
  intros Hu Hr Ho. unfold GrantRole, RoleByID. rewrite Hr. simpl. rewrite Ho, bool_decide_false by done. simpl.
  destruct (GrantUserRole _ _ _ _) as [v|] eqn:Hg.
  - apply GrantUserRole_Some in Hg as (_ & _ & ->). eexists. split; [done|]. split; [done|].
    intros u k'. unfold granted. simpl. rewrite lookup_insert_is_Some'. naive_solver.
  - exfalso. unfold GrantUserRole in Hg. simpl in Hg. rewrite Hr in Hg. destruct Hu as [? Hu]. by rewrite Hu in Hg.
Qed.

Lemma RevokeRole_ok st target k :
  is_Some (roles (st_v10 st) !! k) -> granted (st_v10 st) target k ->
  ∃ st', RevokeRole (Some c) st target k = (st', None) ∧ same_roles st st'
    ∧ ∀ u k', granted (st_v10 st') u k' ↔ granted (st_v10 st) u k' ∧ ~ (u = target ∧ k' = k).
Proof.
  intros [role Hr] [ur Hg]. unfold RevokeRole, RoleByID, RevokeUserRole. rewrite Hr. simpl. rewrite Hg.
  eexists. split; [done|]. split; [done|]. intros u k'. unfold granted. simpl. rewrite lookup_delete_is_Some. naive_solver.
Qed.

Lemma grant_all_ok now actor target org ids st :
  is_Some (st_users st !! target) ->
  (∀ k, k ∈ ids -> ∃ role, roles (st_v10 st) !! k = Some role ∧ r_org role = Some org) ->
  ∃ st', grant_all cfg st now actor target ids = (st', None) ∧ same_roles st st'
    ∧ ∀ u k, granted (st_v10 st') u k ↔ (u = target ∧ k ∈ ids) ∨ granted (st_v10 st) u k.
Proof.
  revert st. induction ids as [|id ids IH]; intros st Hu Hids; simpl.
  { exists st. split; [done|]. split; [done|]. intros u k. rewrite elem_of_nil. tauto. }
  destruct (Hids id) as (role & Hr & Ho); [set_solver|]. rewrite Hcfg.
  destruct (GrantRole_ok st now actor target id role org Hu Hr Ho) as (st1 & -> & Hsame & Hg).
  pose proof Hsame as (Hroles & Husers & _).
  destruct (IH st1) as (st' & -> & Hsame' & Hg'); [by rewrite Husers|rewrite Hroles; set_solver|].
  exists st'. split; [done|]. split; [by etransitivity|]. intros u k. rewrite Hg', Hg, elem_of_cons. tauto.
Qed.

Lemma revoke_all_ok target ids st :
  NoDup ids -> (∀ k, k ∈ ids -> is_Some (roles (st_v10 st) !! k) ∧ granted (st_v10 st) target k) ->
  ∃ st', revoke_all cfg st target ids = (st', None) ∧ same_roles st st'
    ∧ ∀ u k, granted (st_v10 st') u k ↔ granted (st_v10 st) u k ∧ ~ (u = target ∧ k ∈ ids).
Proof.
  revert st. induction ids as [|id ids IH]; intros st Hnd Hids; simpl.
  { exists st. split; [done|]. split; [done|]. intros u k. rewrite elem_of_nil. tauto. }
  apply NoDup_cons in Hnd as [Hnin Hnd]. destruct (Hids id) as (Hr & Hgr); [set_solver|]. rewrite Hcfg.
  destruct (RevokeRole_ok st target id Hr Hgr) as (st1 & -> & Hsame & Hg). pose proof Hsame as (Hroles & _).
  destruct (IH st1 Hnd) as (st' & -> & Hsame' & Hg').
  { intros k Hk. rewrite Hroles, Hg. destruct (Hids k) as [? ?]; [set_solver|]. split_and!; try done. by intros [_ ->]. }
  exists st'. split; [done|]. split; [by etransitivity|]. intros u k. rewrite Hg', Hg, elem_of_cons. tauto.
Qed.

(** With the roles of a valid request, the user afterwards has in the organization exactly those roles;
    grants of other users and in other organizations are untouched. *)
Lemma patch_roles_exact st now actor org userID rids want :
  store_wf st -> is_Some (st_users st !! userID) -> wanted_roles st org rids ∅ = Ok want ->
  ∃ st', patch_roles cfg st now actor org userID rids = (st', None) ∧ same_roles st st'
    ∧ ∀ u k role, roles (st_v10 st) !! k = Some role ->
        granted (st_v10 st') u k ↔ if decide (u = userID ∧ r_org role = Some org) then k ∈ want else granted (st_v10 st) u k.
Proof.
  intros Hwf Hu Hw. unfold patch_roles. rewrite Hw. pose proof (wanted_roles_ok _ _ _ _ _ Hw) as Hwant.
  set (have := list_to_set _ : gset string).
  assert (Hhave : ∀ k, k ∈ have ↔ granted (st_v10 st) userID k ∧ ∃ role, roles (st_v10 st) !! k = Some role ∧ r_org role = Some org).
  { intros k. unfold have. rewrite elem_of_list_to_set, list_elem_of_In, in_map_iff. setoid_rewrite <- list_elem_of_In.
    setoid_rewrite elem_of_RolesForUser. split.
    - intros (r & Hk & k' & role & Hg & Hr & Ho & ->). simpl in Hk. rewrite (wf_role_id _ _ _ Hwf _ _ Hr) in Hk. subst. eauto.
    - intros (Hg & role & Hr & Ho). eexists. split; [|eauto 9]. simpl. by apply (wf_role_id _ _ _ Hwf). }
  destruct (grant_all_ok now actor userID org (elements (want ∖ have)) st) as (st1 & -> & Hs1 & Hg1); [done| |].
  { intros k [[[]%not_elem_of_empty|[_ Hk]]%Hwant _]%elem_of_elements%elem_of_difference. done. }
  pose proof Hs1 as (Hr1 & _). destruct (revoke_all_ok userID (elements (have ∖ want)) st1) as (st' & -> & Hs' & Hg').
  { apply NoDup_elements. }
  { intros k [(Hg & role & Hr & _)%Hhave _]%elem_of_elements%elem_of_difference. rewrite Hr1, Hg1. split; [by eexists|auto]. }
  exists st'. split; [done|]. split; [by etransitivity|]. intros u k role Hr. rewrite Hg', Hg1, !elem_of_elements, !elem_of_difference.
  specialize (Hhave k). specialize (Hwant k). case_decide as Hd.
  - destruct Hd as [-> Ho]. destruct (decide (k ∈ want)); destruct (decide (k ∈ have)); naive_solver.
  - assert (Hnh : u = userID -> k ∉ have) by (intros -> (_ & r' & ? & ?)%Hhave; simplify_eq; tauto).
    assert (Hnw : u = userID -> k ∉ want).
    { intros -> [[]%not_elem_of_empty|(_ & r' & ? & ?)]%Hwant. simplify_eq. tauto. }
    tauto.
Qed.
End Patch.

(** ** The invariants under the admin API *)

(** The role tables and the organization tables are well formed. *)
Definition tenant_inv `{TenantLib} (st : Store) : Prop := store_wf st ∧ orgs_wf (st_users st) (st_v07 st) (st_next st).

(** In a run that starts with the grants [g] and the trail [old], the entries since then tell the grants as well. *)
Definition run_inv `{TenantLib} (g : gset (string * string)) (old : list Audit) (st : Store) : Prop :=
  store_wf st ∧ trail_tells g old st ∧ orgs_wf (st_users st) (st_v07 st) (st_next st).

Section Invariants.
Context `{TenantLaws} (cfg : AdminCfg) (g : gset (string * string)) (old : list Audit).

Lemma orgs_wf_grow users users' v next next' :
  (∀ u, is_Some (users !! u) -> is_Some (users' !! u)) -> (next <= next')%nat -> orgs_wf users v next -> orgs_wf users' v next'.
Proof.
  intros Hu Hle Hwf. split; [apply Hwf|apply Hwf| |].
  - intros o u m (? & ? & ? & ?)%(ow_member _ _ _ Hwf). auto.
  - intros n Hn. apply (ow_fresh _ _ _ Hwf). lia.
Qed.

Lemma rbac_steps_inv U st st' : rtc (rbac_step U) st st' -> run_inv g old st -> run_inv g old st'.
Proof.
  induction 1 as [|st1 st2 st3 Hs _ IH]; [done|]. intros (Hwf & Ht & Ho). apply IH.
  split_and!; [by eapply rbac_step_wf|by eapply rbac_step_trail|]. destruct (rbac_step_frame _ _ _ Hs) as (-> & _ & ->).
  eapply orgs_wf_grow; [done| |done]. destruct Hs; simpl; lia.
Qed.

(** A change of sessions, accounts and audit entries that do not concern grants. *)
Lemma run_inv_same st st' :
  st_users st' = st_users st -> st_v07 st' = st_v07 st -> st_v10 st' = st_v10 st -> st_next st' = st_next st ->
  st_audit st' = st_audit st -> run_inv g old st -> run_inv g old st'.
Proof. unfold run_inv, store_wf, trail_tells. by intros -> -> -> -> ->. Qed.

Lemma EmitAudit_inv st e : replay_entry (dom (userRoles (st_v10 st))) e = dom (userRoles (st_v10 st)) -> run_inv g old st -> run_inv g old (EmitAudit st e).
Proof. intros He (? & ? & ?). split_and!; [done| |done]. by eapply trail_tells_entry. Qed.

Lemma set_v07_inv st v : orgs_wf (st_users st) v (st_next st) -> run_inv g old st -> run_inv g old (set_v07 st v).
Proof. intros Hv (? & ? & _). by split_and!. Qed.

Lemma invited_inv st now email :
  run_inv g old st -> run_inv g old (invited st now email).1.
Proof.
  intros (Hwf & Ht & Ho). unfold invited. destruct (UserByEmail st email); [by split_and!|]. simpl.
  assert (Hgrow : ∀ (usr : User) k, is_Some (st_users st !! k) -> is_Some (<[u_id usr := usr]> (st_users st) !! k)).
  { intros usr k Hk. rewrite lookup_insert_is_Some'. auto. }
  split_and!; [|done|].
  - unfold store_wf. simpl. eapply roles_wf_users; [apply Hgrow|]. eapply roles_wf_next; [|exact Hwf]. lia.
  - simpl. eapply orgs_wf_grow; [apply Hgrow| |exact Ho]. simpl. lia.
Qed.

Lemma inviteUser_inv st now actor org b : run_inv g old st -> run_inv g old (inviteUser cfg st now actor org b).1.
Proof.
  intros Hinv. unfold inviteUser. destruct b as [[email roleId]|]; [|done]. destruct (_ =? _)%string; [done|].
  pose proof (invited_inv st now email Hinv) as Hi. destruct (invited st now email) as [st1 u]. simpl in Hi.
  destruct (UpsertOrganizationMember _ _ _ _) as [v|] eqn:Hup; [|done].
  assert (Hs : run_inv g old (set_v07 st1 v)) by (apply set_v07_inv; [eapply Upsert_wf; [apply Hi|done]|done]).
  destruct (roleId =? "")%string; [by apply EmitAudit_inv|]. destruct (ulid_parse roleId) as [roleID|]; [|done].
  pose proof (rbac_steps_inv _ _ _ (GrantRole_steps (fun _ => True) (ad_rbac cfg) (set_v07 st1 v) now (u_id actor) (u_id u) roleID) Hs) as Hg.
  destruct (GrantRole _ _ _ _ _ _) as [st2 [e|]]; [done|]. by apply EmitAudit_inv.
Qed.

Lemma updateState_Some st u fn st' : updateState st u fn = Some st' -> ∃ a, st' = set_acct st a.
Proof. unfold updateState. destruct (st_users st !! u); [|done]. intros [= <-]. by eexists. Qed.

Lemma SetMustChangePassword_inv lc st now u b : run_inv g old st -> run_inv g old (SetMustChangePassword lc st now u b).1.
Proof.
  intros Hinv. unfold SetMustChangePassword. destruct (negb _); [done|].
  destruct (store_SetMustChangePassword _ _ _) as [st'|] eqn:Hu; [|done]. apply updateState_Some in Hu as [a ->].
  destruct b; [|done]. by apply EmitAudit_inv.
Qed.

Lemma DisableUser_inv lc st now u : run_inv g old st -> run_inv g old (DisableUser lc st now u).1.
Proof.
  intros Hinv. unfold DisableUser. destruct (negb _); [done|].
  destruct (SetUserDisabledAt _ _ _) as [st'|] eqn:Hu; [|done]. apply updateState_Some in Hu as [a ->].
  destruct (match ac_tokens lc with Some _ => _ | None => _ end); [done|].
  destruct (match ac_devices lc with Some _ => _ | None => _ end); [done|]. by apply EmitAudit_inv.
Qed.

Lemma EnableUser_inv lc st u : run_inv g old st -> run_inv g old (EnableUser lc st u).1.
Proof.
  intros Hinv. unfold EnableUser. destruct (negb _); [done|].
  destruct (SetUserDisabledAt _ _ _) as [st'|] eqn:Hu; [|done]. apply updateState_Some in Hu as [a ->]. by apply EmitAudit_inv.
Qed.

Lemma applyLifecycle_inv st now actor u must dis : run_inv g old st -> run_inv g old (applyLifecycle cfg st now actor u must dis).1.
Proof.
  intros Hinv. unfold applyLifecycle. destruct (_ && _); [done|]. destruct (ad_lifecycle cfg) as [lc|]; [|done].
  destruct (_ && _); [done|].
  assert (Hm : run_inv g old (apply_must lc st now u must).1) by (destruct must; simpl; auto using SetMustChangePassword_inv).
  destruct (apply_must lc st now u must) as [st1 [e|]]; [done|]. simpl in Hm.
  assert (Hd : run_inv g old (apply_disabled lc st1 now u dis).1)
    by (destruct dis as [[]|]; simpl; auto using DisableUser_inv, EnableUser_inv).
  by destruct (apply_disabled lc st1 now u dis) as [st2 [e|]].
Qed.

Lemma grant_all_steps st now actor u ids : rtc (rbac_step (fun _ => True)) st (grant_all cfg st now actor u ids).1.
Proof.
  revert st. induction ids as [|id ids IH]; intros st; simpl; [done|].
  pose proof (GrantRole_steps (fun _ => True) (ad_rbac cfg) st now actor u id) as Hg.
  destruct (GrantRole _ _ _ _ _ _) as [st1 [e|]]; [done|]. by etransitivity; [exact Hg|].
Qed.

Lemma revoke_all_steps st u ids : rtc (rbac_step (fun _ => True)) st (revoke_all cfg st u ids).1.
Proof.
  revert st. induction ids as [|id ids IH]; intros st; simpl; [done|].
  pose proof (RevokeRole_steps (fun _ => True) (ad_rbac cfg) st u id) as Hr.
  destruct (RevokeRole _ _ _ _) as [st1 [e|]]; [done|]. by etransitivity; [exact Hr|].
Qed.

Lemma patch_roles_steps st now actor org u rids : rtc (rbac_step (fun _ => True)) st (patch_roles cfg st now actor org u rids).1.
Proof.
  unfold patch_roles. destruct (wanted_roles _ _ _ _) as [want|]; [|done]. set (have := list_to_set _).
  pose proof (grant_all_steps st now actor u (elements (want ∖ have))) as Hg.
  destruct (grant_all _ _ _ _ _ _) as [st1 [e|]]; [done|].
  pose proof (revoke_all_steps st1 u (elements (have ∖ want))) as Hr.
  destruct (revoke_all _ _ _ _) as [st2 [e|]]; by etransitivity; [exact Hg|exact Hr].
Qed.

Lemma patchUser_inv st now actor org raw b : run_inv g old st -> run_inv g old (patchUser cfg st now actor org raw b).1.
Proof.
  intros Hinv. unfold patchUser. destruct (ParseULIDPath raw) as [u|]; [|done]. destruct (OrganizationMemberRole _ _ _); [|done].
  destruct b as [b|]; [|done]. pose proof (applyLifecycle_inv st now actor u (pb_must b) (pb_disabled b) Hinv) as Hl.
  destruct (applyLifecycle _ _ _ _ _ _ _) as [st1 [r|]]; [done|]. simpl in Hl. destruct (pb_roles b) as [rids|].
  - pose proof (rbac_steps_inv _ _ _ (patch_roles_steps st1 now (u_id actor) org u rids) Hl) as Hp.
    destruct (patch_roles _ _ _ _ _ _ _) as [st2 [r|]]; [done|]. by destruct (UserByID st2 u).
  - by destruct (UserByID st1 u).
Qed.

Lemma deleteUser_tenant lc st u reason : run_inv g old st -> run_inv g old (deleteUser lc st u reason).1.
Proof.
  intros (Hwf & Ht & Ho). unfold deleteUser. destruct (UserByID st u) as [row|] eqn:Hu; [|by split_and!].
  destruct (guardLastOwner lc st u); [by split_and!|]. destruct (DeleteUserCascade st u) as [st'|] eqn:Hd; [|by split_and!].
  pose proof (DeleteUserCascade_wf _ _ _ _ Hwf Hd) as Hwf'. unfold DeleteUserCascade, UserByID in *. rewrite Hu in Hd.
  simplify_eq. split_and!; [done| |].
  - apply (trail_tells_entry g old st _ (AccountDeleted u reason (hash_email (u_email row)))); [done| |done]. simpl. apply (dom_filter_keys (fun k => k.1 ≠ u)).
  - simpl. eapply members_sub_wf; [exact Ho|]. intros [o' u'] m [Hm Hne]%map_lookup_filter_Some. simpl in *.
    split; [done|]. by rewrite lookup_delete_ne.
Qed.

Lemma handle_inv st now actor org r : run_inv g old st -> run_inv g old (handle cfg st now actor org r).1.
Proof.
  intros Hinv. destruct r as [| |b|raw b|raw|raw| |raw| |b|raw b|raw|]; simpl; auto using inviteUser_inv, patchUser_inv.
  - unfold removeUser. destruct (ParseULIDPath raw) as [u|]; [|done]. unfold DeleteOrganizationMember.
    destruct (members _ !! _); [|done]. apply EmitAudit_inv; [done|]. apply set_v07_inv; [|done].
    eapply members_sub_wf; [apply Hinv|]. by intros k x [_ ?]%lookup_delete_Some.
  - destruct (ad_lifecycle cfg) as [lc|]; [|done]. unfold deleteUserAccount. destruct (ParseULIDPath raw) as [u|]; [|done].
    destruct (negb _); [done|]. destruct (_ =? _)%string; [done|]. destruct (OrganizationMemberRole _ _ _); [|done].
    pose proof (deleteUser_tenant lc st u "admin" Hinv) as Hd. by destruct (deleteUser _ _ _ _) as [st' [e|]].
  - unfold revokeSession. destruct (ParseULIDPath raw) as [s|]; [|done]. destruct (RevokeSession _ _ _); [|done]. by apply EmitAudit_inv.
  - unfold createRole. destruct b as [[[name desc] perms]|]; [|done]. destruct (_ =? _)%string; [done|].
    pose proof (rbac_steps_inv _ _ _ (CreateRole_steps (fun _ => True) (ad_rbac cfg) st now org name desc perms) Hinv) as Hc.
    by destruct (CreateRole _ _ _ _ _ _ _) as [st' [|[]]].
  - unfold updateRole. destruct (ParseULIDPath raw) as [id|]; [|done]. destruct b as [[[name desc] perms]|]; [|done].
    pose proof (rbac_steps_inv _ _ _ (UpdateRole_steps (fun _ => True) (ad_rbac cfg) st now id name desc perms ltac:(done)) Hinv) as Hc.
    by destruct (UpdateRole _ _ _ _ _ _ _) as [st' [|[]]].
  - unfold deleteRole. destruct (ParseULIDPath raw) as [id|]; [|done].
    pose proof (rbac_steps_inv _ _ _ (DeleteRole_steps (fun _ => True) (ad_rbac cfg) st id) Hinv) as Hc.
    by destruct (DeleteRole _ _ _) as [st' [[]|]].
Qed.

Lemma admin_serve_inv st now auth p r : run_inv g old st -> run_inv g old (admin_serve cfg st now auth p r).1.
Proof.
  intros Hinv. unfold admin_serve. destruct (RequireAuth auth); [done|]. destruct (requireOrgMatch st auth p); [|done].
  destruct (negb _); [done|]. destruct (RequirePermission _ _ _ _ _); [done|]. destruct auth as [[actor sess]|]; [|done].
  by apply handle_inv.
Qed.
End Invariants.

Section AdminRun.
Context `{TenantLaws}.

(** C26. Take any run of admin requests, authorized or not, of any callers on any organizations, from a store with well
    formed tables, whatever grants it holds. Afterwards the role and organization tables are well formed, and
    what the requests reported to the audit emitter tells the grants exactly: replaying the entries of the run on
    the grants before it gives the grants in force after it. The entries are the calls of the emitter, in the order of
    the requests. The asynchronous writer behind it may drop events when its queue is full or when it is not running,
    and the stored log may then miss some. *)
Theorem admin_run_invariant cfg st reqs :
  tenant_inv st ->
  let st' := fold_left (fun st '(now, auth, p, r) => (admin_serve cfg st now auth p r).1) reqs st in
  store_wf st' ∧ orgs_wf (st_users st') (st_v07 st') (st_next st')
  ∧ ∃ entries, st_audit st' = st_audit st ++ entries
      ∧ dom (userRoles (st_v10 st')) = replay (dom (userRoles (st_v10 st))) entries.
Proof.
  intros [Hwf Ho] st'. assert (Hinv : run_inv (dom (userRoles (st_v10 st))) (st_audit st) st) by (split_and!; [done|apply trail_tells_start|done]).
  assert (Hend : run_inv (dom (userRoles (st_v10 st))) (st_audit st) st'); [|destruct Hend as (? & Ht & ?); by split_and!].
  unfold st'. clear Hwf Ho st'. revert Hinv. generalize (dom (userRoles (st_v10 st))), (st_audit st). intros g old. revert st.
  induction reqs as [|[[[now auth] p] r] reqs IH]; intros st Hinv; simpl; [done|]. by apply IH, admin_serve_inv.
Qed.
End AdminRun.

(** ** What the handlers do *)

Section Behaviour.
Context `{TenantLaws} (cfg : AdminCfg) (c : Config) (Hcfg : ad_rbac cfg = Some c).

Lemma wanted_roles_all st org rids want want' k :
  wanted_roles st org rids want = Ok want' -> k ∈ omap ulid_parse rids ->
  ∃ role, roles (st_v10 st) !! k = Some role ∧ r_org role = Some org.
Proof.
  revert want. induction rids as [|rid rids IH]; intros want; simpl; [set_solver|].
  destruct (ulid_parse rid) as [id|]; [|done]. destruct (RoleByID _ _) as [role|] eqn:Hr; [|done].
  apply fmap_Some in Hr as (row & Hrow & ->). simpl. destruct (bool_decide_reflect (r_org row = Some org)) as [Ho|]; [|done].
  intros Hw [->|Hk]%elem_of_cons; eauto.
Qed.

(** A PATCH that names roles of this organization succeeds for every member, and afterwards the member has
    in this organization exactly the roles named; no other user's grants and no grants of other
    organizations or of the system change. *)
Theorem patch_user_roles_exact st now actor org raw userID status rids want :
  tenant_inv st -> ParseULIDPath raw = Some userID -> is_Some (OrganizationMemberRole (st_v07 st) org userID) ->
  wanted_roles st org rids ∅ = Ok want ->
  ∃ st' u, patchUser cfg st now actor org raw (Some (mkPatch status (Some rids) None None))
      = (st', mkResp 200 "" (BUserRoles u (RolesForUser (st_v10 st') userID (Some org))))
    ∧ ∀ w k role, roles (st_v10 st) !! k = Some role ->
        granted (st_v10 st') w k ↔
        if decide (w = userID ∧ r_org role = Some org) then k ∈ omap ulid_parse rids else granted (st_v10 st) w k.
Proof.
  intros (Hwf & Ho) Hp Hm Hw. destruct Hm as [mr Hm]. pose proof Hm as (m & Hmm & _)%fmap_Some.
  destruct (ow_member _ _ _ Ho _ _ _ Hmm) as (_ & _ & _ & Hu).
  destruct (patch_roles_exact cfg c Hcfg st now (u_id actor) org userID rids want Hwf Hu Hw) as (st' & Heq & (_ & Hus & _) & Hg).
  destruct Hu as [u Hu]. exists st', u. unfold patchUser, applyLifecycle. rewrite Hp, Hm. simpl. rewrite Heq.
  unfold UserByID. rewrite Hus, Hu. split; [done|]. intros w k role Hr. rewrite (Hg w k role Hr).
  case_decide; [|done]. rewrite (wanted_roles_ok _ _ _ _ _ Hw k). split.
  - intros [[]%not_elem_of_empty|[? _]]. done.
  - intros Hk. right. split; [done|]. by eapply wanted_roles_all.
Qed.

(** The organization of the path is the active one and the caller holds the permission of the route. *)
Definition caller (st : Store) (actor : User) (sess : Session) (p org : string) (r : admin_request) : Prop :=
  full_level sess ∧ se_org sess = Some org ∧ ParseULIDPath p = Some org ∧ mounted cfg r = true
  ∧ user_holds (st_v10 st) (u_id actor) (Some org) (permission_of r).

Lemma admin_serve_reaches st now actor sess p org r :
  caller st actor sess p org r -> admin_serve cfg st now (Some (actor, sess)) p r = handle cfg st now actor org r.
Proof.
  intros (Hl & Ho & Hp & Hmt & Hh). unfold admin_serve, RequireAuth. rewrite (proj2 (level_check _) Hl).
  assert (Hmatch : requireOrgMatch st (Some (actor, sess)) p = Ok org) by (apply requireOrgMatch_ok; auto).
  rewrite Hmatch, Hmt. simpl.
  destruct (proj2 (RequirePermission_serves_iff (ad_rbac cfg) (st_v10 st) (Some (actor, sess)) [permission_of r])) as [cache ->].
  - split; [by rewrite Hcfg|]. exists actor, sess, org. split_and!; try done. right. intros q ->%list_elem_of_singleton. done.
  - done.
Qed.

(** Whoever may invite users may give any user, himself included, any role but super admin: the role named
    in an invitation is granted without asking what it carries or whose it is. *)
Theorem invite_grants_any_role st now actor sess p org email u raw k role :
  let r := InviteUser (Some (email, raw)) in
  caller st actor sess p org r -> is_Some (orgs (st_v07 st) !! org) ->
  email ≠ "" -> UserByEmail st email = Some u -> st_users st !! u_id u = Some u ->
  raw ≠ "" -> ulid_parse raw = Some k -> roles (st_v10 st) !! k = Some role ->
  ~ (r_org role = None ∧ r_name role = SystemRoleSuperAdmin) ->
  let res := admin_serve cfg st now (Some (actor, sess)) p r in
  rp_status res.2 = 201 ∧ granted (st_v10 res.1) (u_id u) k.
Proof.
  intros r Hc [o Ho] He Hu Hus Hraw Hk Hrole Hns. simpl. rewrite (admin_serve_reaches _ _ _ _ _ _ _ Hc). simpl.
  rewrite (proj2 (String.eqb_neq _ _) He). unfold invited. rewrite Hu.
  destruct (UpsertOrganizationMember _ _ _ _) as [v|] eqn:Hup.
  2:{ exfalso. unfold UpsertOrganizationMember in Hup. simpl in Hup. rewrite Ho, Hus in Hup. by destruct (members _ !! _). }
  rewrite (proj2 (String.eqb_neq _ _) Hraw), Hk, Hcfg. unfold GrantRole, RoleByID. simpl. rewrite Hrole. simpl.
  destruct (bool_decide (r_org role = None) && _) eqn:Hb.
  { apply andb_true_iff in Hb as [Hb1%bool_decide_eq_true Hb2%String.eqb_eq]. tauto. }
  unfold GrantUserRole. simpl. rewrite Hus, Hrole. simpl. split; [done|]. unfold granted. simpl.
  destruct (IsZero now); simpl; by rewrite lookup_insert_eq.
Qed.

(** Whoever administers the roles of one organization strips a role of any other organization, or of the
    system, of its permissions: the handler does not compare the role's organization with the path. *)
Theorem role_update_crosses_tenants st now actor sess p org raw k role name :
  let r := UpdateRoleReq raw (Some (name, "", Some [])) in
  tenant_inv st -> caller st actor sess p org r -> ParseULIDPath raw = Some k -> roles (st_v10 st) !! k = Some role ->
  r_org role ≠ Some org ->
  let res := admin_serve cfg st now (Some (actor, sess)) p r in
  rp_status res.2 = 200 ∧ ∀ n, ~ role_permits (st_v10 res.1) k n.
Proof.
  intros r (Hwf & _) Hc Hk Hrole _. simpl. rewrite (admin_serve_reaches _ _ _ _ _ _ _ Hc). simpl.
  unfold updateRole. rewrite Hk, Hcfg. unfold UpdateRole, RoleByID. rewrite Hrole. simpl. unfold UpdateRoleRow. simpl.
  rewrite (wf_role_id _ _ _ Hwf _ _ Hrole), Hrole. simpl. unfold SetRolePermissions. simpl. rewrite lookup_insert_eq. simpl.
  split; [done|]. intros n (s & id & q & Hs & Hin & _). simpl in Hs. rewrite lookup_insert_eq in Hs. simplify_eq.
  by apply not_elem_of_empty in Hin.
Qed.

(** A member removed through the API keeps the roles he was granted there: the middleware answers his
    sessions as before. And the removal does not spare the last owner, unlike the organization routes. *)
Theorem removed_member_keeps_permissions st org raw u m :
  ParseULIDPath raw = Some u -> members (st_v07 st) !! (org, u) = Some m ->
  let st' := (removeUser st org raw).1 in
  OrganizationMemberRole (st_v07 st') org u = None ∧ st_sessions st' = st_sessions st
  ∧ (∀ rc auth perms, RequirePermission rc (st_v10 st') auth None perms = RequirePermission rc (st_v10 st) auth None perms)
  ∧ ((∀ w, is_owner (st_v07 st) org w -> w = u) -> ∀ w, ~ is_owner (st_v07 st') org w).
Proof.
  intros Hp Hm. unfold removeUser. rewrite Hp. unfold DeleteOrganizationMember. rewrite Hm. simpl.
  split; [|split_and!; try done].
  - unfold OrganizationMemberRole. simpl. by rewrite lookup_delete_eq.
  - intros Hsole w. rewrite is_owner_lookup. simpl. intros (m' & [Hne Hm']%lookup_delete_Some & Hr). apply Hne. f_equal. symmetry. apply Hsole.
    apply is_owner_lookup. eauto.
Qed.

(** Inviting the owner of an organization to it makes him a plain member, the last owner included. *)
Theorem invite_demotes_owner st now actor org email u :
  orgs_wf (st_users st) (st_v07 st) (st_next st) -> email ≠ "" -> UserByEmail st email = Some u ->
  is_owner (st_v07 st) org (u_id u) ->
  OrganizationMemberRole (st_v07 (inviteUser cfg st now actor org (Some (email, ""))).1) org (u_id u) = Some OrgRoleMember.
Proof.
  intros Hwf He Hu (m & Hm & Hr)%is_owner_lookup. unfold inviteUser. rewrite (proj2 (String.eqb_neq _ _) He). unfold invited. rewrite Hu.
  destruct (ow_member _ _ _ Hwf _ _ _ Hm) as (_ & _ & [o Ho] & [u' Hu']). unfold UpsertOrganizationMember. simpl.
  rewrite Ho, Hu', Hm. simpl. unfold OrganizationMemberRole. simpl. by rewrite lookup_insert_eq.
Qed.
End Behaviour.

(** ** Examples *)

#[local] Existing Instance example_lib.
#[local] Existing Instance example_laws.

Definition example_cfg : AdminCfg := mkAdminCfg (Some default_config) (Some (mkAccountCfg true None None true)) true.

Lemma example_tenant_inv : tenant_inv example_store.
Proof.
  split; [apply example_roles_wf|apply example_orgs_wf].
Qed.

(** Alice invites with a role of acme. *)
Lemma example_caller r :
  permission_of r = PermissionUsersInvite ∨ permission_of r = PermissionRolesAdmin -> mounted example_cfg r = true ->
  caller example_cfg example_store (example_user "alice") (example_session "alice" "acme") "acme" "acme" r.
Proof.
  intros Hr Hmt. unfold caller. split_and!; [by right|done|done|done|]. apply elem_of_PermissionsForUser.
  destruct Hr as [->| ->]; (refine (bool_decide_unpack _ _); by vm_compute).
Qed.

Lemma admin_run_invariant_witness :
  let st' := fold_left (fun st '(now, auth, p, r) => (admin_serve example_cfg st now auth p r).1)
    [(5, Some (example_user "alice", example_session "alice" "acme"), "acme", InviteUser (Some ("new@x", "inviter")));
     (6, Some (example_user "bob", example_session "bob" "rival"), "rival", DeleteRoleReq "inviter")] example_store in
  store_wf st' ∧ orgs_wf (st_users st') (st_v07 st') (st_next st')
  ∧ ∃ entries, st_audit st' = st_audit example_store ++ entries
      ∧ dom (userRoles (st_v10 st')) = replay (dom (userRoles (st_v10 example_store))) entries.
Proof. apply (admin_run_invariant example_cfg example_store). apply example_tenant_inv. Defined.

(** Bob, a member of acme, is given the role of acme and keeps his role in rival. *)
Lemma patch_user_roles_exact_witness :
  ∃ st' u, patchUser example_cfg example_store 5 (example_user "root") "acme" "bob" (Some (mkPatch "" (Some ["inviter"]) None None))
      = (st', mkResp 200 "" (BUserRoles u (RolesForUser (st_v10 st') "bob" (Some "acme"))))
    ∧ ∀ w k role, roles (st_v10 example_store) !! k = Some role ->
        granted (st_v10 st') w k ↔
        if decide (w = "bob" ∧ r_org role = Some "acme") then k ∈ omap ulid_parse ["inviter"] else granted (st_v10 example_store) w k.
Proof.
  apply (patch_user_roles_exact example_cfg default_config eq_refl example_store 5 (example_user "root") "acme" "bob" "bob" "" ["inviter"]
    {["inviter"]}).
  - apply example_tenant_inv.
  - reflexivity.
  - refine (bool_decide_unpack _ _). vm_compute. exact I.
  - vm_compute. reflexivity.
Defined.

(** Alice, who may invite to acme, gives herself the administrator role of rival. *)
Lemma invite_grants_any_role_witness :
  let res := admin_serve example_cfg example_store 5 (Some (example_user "alice", example_session "alice" "acme")) "acme"
    (InviteUser (Some ("alice@x", "rivals"))) in
  rp_status res.2 = 201 ∧ granted (st_v10 res.1) "alice" "rivals".
Proof.
  apply (invite_grants_any_role example_cfg default_config eq_refl example_store 5 (example_user "alice")
    (example_session "alice" "acme") "acme" "acme" "alice@x" (example_user "alice") "rivals" "rivals"
    (mkRole "rivals" (Some "rival") "admin" "" [] 1 1)).
  - apply example_caller; [by left|reflexivity].
  - refine (bool_decide_unpack _ _). vm_compute. exact I.
  - done.
  - vm_compute. reflexivity.
  - vm_compute. reflexivity.
  - done.
  - reflexivity.
  - vm_compute. reflexivity.
  - intros [Ho _]. done.
Defined.

(** Alice, who administers the roles of acme, empties the role of rival. *)
Lemma role_update_crosses_tenants_witness :
  let res := admin_serve example_cfg example_store 5 (Some (example_user "alice", example_session "alice" "acme")) "acme"
    (UpdateRoleReq "rivals" (Some ("", "", Some []))) in
  rp_status res.2 = 200 ∧ ∀ n, ~ role_permits (st_v10 res.1) "rivals" n.
Proof.
  apply (role_update_crosses_tenants example_cfg default_config eq_refl example_store 5 (example_user "alice")
    (example_session "alice" "acme") "acme" "acme" "rivals" "rivals" (mkRole "rivals" (Some "rival") "admin" "" [] 1 1) "").
  - apply example_tenant_inv.
  - apply example_caller; [by right|reflexivity].
  - reflexivity.
  - vm_compute. reflexivity.
  - done.
Defined.
