(* ===== verification/Shrink.v ===== *)
(** * Proposing narrower permissions from recorded use ([policy/shrink])

    The decisions recorded for an agent are attributed to the grants it holds ([UsageAccumulator]), the
    grants that were not used are proposed for removal, sibling resources may be merged into a wildcard
    ([SuggestShrink]), and the records are replayed against the proposal ([Replay]). Maps are finite maps,
    their iteration order is removed by the sorts of the code. Where rows and grants come from is in
    [ShrinkSources]. *)

From Stdlib Require Import ZArith Lia String Ascii.
From stdpp Require Import base gmap strings list.
From S2P Require Import Prelude Glob PolicyDoc Canonical GoJSON.

Set Default Goal Selector "!".
Open Scope string_scope.
Open Scope list_scope.
Open Scope Z_scope.

(** ** Data ([types.go]) *)

Definition ResultAllowed := "allowed".
Definition ResultDenied := "denied".
Definition ResultRateLimited := "rate_limited".
Definition ResultEscalated := "escalated".

Record DecisionRow := mkRow {
  row_id : string; row_action : string; row_resource : string; row_result : string; row_reason : string;
  row_time : Z; row_chain : list string;
}.

Inductive RowClass := ClassInternal | ClassAllow | ClassDenyNoGrant | ClassDenyOther.
#[export] Instance RowClass_eq_dec : EqDecision RowClass.
Proof. solve_decision. Defined.

Record Permission := mkPerm { pm_action : string; pm_resource : string; pm_conditions : list Condition }.

Definition SourceOwn := "own".
Definition SourceDelegation := "delegation".

Record Origin := mkOrigin { og_kind : string; og_policy : string; og_statement : string; og_chain : string }.

Record Grant := mkGrant { g_permission : Permission; g_source : Origin }.

Record UsedPermission := mkUsed {
  up_permission : Permission; up_count : Z; up_first : Z; up_last : Z; up_via : list string;
}.

(** Action and resource of a call. *)
Definition Pair : Type := string * string.

Record UncoveredAllow := mkUncovered { uc_pair : Pair; uc_count : Z }.

Record Evidence := mkEvidence {
  ev_scanned : Z; ev_allowed : Z; ev_no_grant : Z; ev_other : Z; ev_internal : Z; ev_uncovered : Z;
}.

Record UsageAnalysis := mkAnalysis {
  an_agent : string; an_since : Z; an_until : Z; an_grants : list Grant; an_used : list UsedPermission;
  an_unused : list Permission; an_attempted : list Permission; an_denied : list Pair;
  an_uncovered : list UncoveredAllow; an_evidence : Evidence;
}.

Definition Granted (a : UsageAnalysis) : list Permission := map g_permission (an_grants a).

Record Options := mkOptions { op_min_observations : Z; op_generalize : bool; op_generalize_min : Z }.

Record Rewrite := mkRewrite { rw_from : list Permission; rw_to : Permission }.

Record Suggestion := mkSuggestion { sg_keep : list Permission; sg_remove : list Permission; sg_rewrites : list Rewrite }.

Record RowRef := mkRef { rf_id : string; rf_action : string; rf_resource : string; rf_time : Z }.

Record MatchCount := mkCount { mc_permission : Permission; mc_allows : Z }.

Record BlastRadius := mkBlast {
  br_replayed : Z; br_still : Z; br_newly_count : Z; br_newly : list RowRef; br_would_count : Z;
  br_would : list RowRef; br_ignored : Z; br_per : list MatchCount; br_truncated : bool;
}.

(** ** Permissions ([permissions.go]) *)

Definition internalActions : gset string :=
  {[ "agent.cascade.revoked"; "delegation.create"; "delegation.granted"; "delegation.revoked";
     "approval.request"; "approval.decided" ]}.

Definition noGrantReasons : list string :=
  [ "no matching allow statement"; "no permission grants"; "policy_no_matching_permission" ].

(** What the package uses of Go and of the ULID library: [strings.ToLower], [ulid.ParseStrict]. *)
Class ShrinkLib := { ToLower : string -> string; ParseStrict : string -> option string }.

Definition Classify `{ShrinkLib} (r : DecisionRow) : RowClass :=
  if String.prefix "audit." (row_action r) then ClassInternal
  else if bool_decide (row_action r ∈ internalActions) then ClassInternal
  else if (row_result r =? ResultAllowed)%string then ClassAllow
  else if (row_result r =? ResultDenied)%string
          && existsb (fun p => String.prefix p (ToLower (row_reason r))) noGrantReasons then ClassDenyNoGrant
  else ClassDenyOther.

(** [json.Marshal] of the values of a condition. Go writes a nil slice as [null] and an empty one as [[]]; the
    model has one empty list and writes it as [null]. The text is only compared with other such texts, and a
    condition that passes validation has values, so that the two differ on slices no validated policy
    holds. Without any condition, [extrasKey] is [null] by a branch of its own. *)
Definition json_strings (vs : list string) : list ascii :=
  match vs with
  | [] => list_ascii_of_string "null"
  | v :: vs => "["%char :: json_string v ++ concat (map (fun v => ","%char :: json_string v) vs) ++ ["]"%char]
  end.

Definition json_condition (c : Condition) : list ascii :=
  list_ascii_of_string "{" ++ json_string "op" ++ ":"%char :: json_string (cond_op c) ++ ","%char
  :: (if (cond_key c =? "")%string then [] else json_string "key" ++ ":"%char :: json_string (cond_key c) ++ [","%char])
  ++ json_string "values" ++ ":"%char :: json_strings (cond_values c) ++ ["}"%char].

Definition json_conditions (cs : list Condition) : list ascii :=
  match cs with
  | [] => list_ascii_of_string "null"
  | c :: cs => "["%char :: json_condition c ++ concat (map (fun c => ","%char :: json_condition c) cs) ++ ["]"%char]
  end.

Definition extrasKey (p : Permission) : string := string_of_list_ascii (json_conditions (pm_conditions p)).

(** The separator of the keys. *)
Definition nul : string := String "000"%char "".

Definition atomKey (p : Permission) : string := pm_resource p +:+ nul +:+ pm_action p +:+ nul +:+ extrasKey p.

Definition Covers (outer inner : Permission) : bool :=
  Match (pm_resource outer) (pm_resource inner) && Match (pm_action outer) (pm_action inner).

(** A permission matches a call. *)
Definition hits (p : Permission) (action resource : string) : bool := Match (pm_action p) action && Match (pm_resource p) resource.

(** The index of the first match, [None] for [-1]. *)
Fixpoint firstMatch (perms : list Permission) (action resource : string) : option nat :=
  match perms with
  | [] => None
  | p :: perms => if hits p action resource then Some 0%nat else S <$> firstMatch perms action resource
  end.

(** The body of the loop of [Statements], with the index of the statement of each key. *)
Definition add_statement (acc : list Statement * gmap string nat) (p : Permission) : list Statement * gmap string nat :=
  let '(out, at_) := acc in
  let key := pm_resource p +:+ nul +:+ extrasKey p in
  match at_ !! key with
  | Some i =>
      (alter (fun s => if bool_decide (pm_action p ∈ stmt_actions s) then s
                       else mkStatement (stmt_id s) (stmt_effect s) (stmt_actions s ++ [pm_action p]) (stmt_resources s)
                              (stmt_conditions s) (stmt_tier s) (stmt_require s)) i out, at_)
  | None =>
      (out ++ [mkStatement "" Allow [pm_action p] [pm_resource p] (pm_conditions p) "" ""], <[key := length out]> at_)
  end.

Definition Statements (perms : list Permission) : list Statement := (fold_left add_statement perms ([], ∅)).1.

(** ** Usage ([usage.go]) *)

Definition DistinctCap : nat := 5000.

Record useState := mkUse { us_count : Z; us_first : Z; us_last : Z; us_chains : gset string }.

Record UsageAccumulator := mkAcc {
  ua_agent : string; ua_since : Z; ua_until : Z; ua_grants : list Grant; ua_perms : list Permission;
  ua_used : gmap nat useState; ua_attempted : gset nat; ua_denied : gset Pair; ua_uncovered : gmap Pair Z;
  ua_ev : Evidence;
}.

Definition NewUsageAccumulator (agentID : string) (grants : list Grant) (since until : Z) : UsageAccumulator :=
  mkAcc agentID since until grants (map g_permission grants) ∅ ∅ ∅ ∅ (mkEvidence 0 0 0 0 0 0).

Definition with_use (u : UsageAccumulator) used attempted denied uncovered ev : UsageAccumulator :=
  mkAcc (ua_agent u) (ua_since u) (ua_until u) (ua_grants u) (ua_perms u) used attempted denied uncovered ev.

(** The use of a grant after one more allowed row. *)
Definition record_use (src : Origin) (r : DecisionRow) (s : option useState) : useState :=
  let s := default (mkUse 0 (row_time r) (row_time r) ∅) s in
  let chains := us_chains s in
  let chains := if (og_chain src =? "")%string then chains else {[og_chain src]} ∪ chains in
  let chains := if (og_kind src =? SourceDelegation)%string then list_to_set (row_chain r) ∪ chains else chains in
  mkUse (us_count s + 1)
    (if Before (row_time r) (us_first s) then row_time r else us_first s)
    (if After (row_time r) (us_last s) then row_time r else us_last s) chains.

Definition no_origin : Origin := mkOrigin "" "" "" "".

Section Lib.
Context `{ShrinkLib}.

Definition Add (u : UsageAccumulator) (r : DecisionRow) : UsageAccumulator :=
  let e := ua_ev u in
  let pair := (row_action r, row_resource r) in
  let first := firstMatch (ua_perms u) (row_action r) (row_resource r) in
  match Classify r with
  | ClassInternal =>
      with_use u (ua_used u) (ua_attempted u) (ua_denied u) (ua_uncovered u)
        (mkEvidence (ev_scanned e + 1) (ev_allowed e) (ev_no_grant e) (ev_other e) (ev_internal e + 1) (ev_uncovered e))
  | ClassDenyNoGrant =>
      let denied := if bool_decide (pair ∉ ua_denied u) && (size (ua_denied u) <? DistinctCap)%nat
                    then {[pair]} ∪ ua_denied u else ua_denied u in
      with_use u (ua_used u) (ua_attempted u) denied (ua_uncovered u)
        (mkEvidence (ev_scanned e + 1) (ev_allowed e) (ev_no_grant e + 1) (ev_other e) (ev_internal e) (ev_uncovered e))
  | ClassDenyOther =>
      let attempted := match first with Some i => {[i]} ∪ ua_attempted u | None => ua_attempted u end in
      with_use u (ua_used u) attempted (ua_denied u) (ua_uncovered u)
        (mkEvidence (ev_scanned e + 1) (ev_allowed e) (ev_no_grant e) (ev_other e + 1) (ev_internal e) (ev_uncovered e))
  | ClassAllow =>
      match first with
      | None =>
          let uncovered :=
            if bool_decide (is_Some (ua_uncovered u !! pair)) || (size (ua_uncovered u) <? DistinctCap)%nat
            then <[pair := default 0 (ua_uncovered u !! pair) + 1]> (ua_uncovered u) else ua_uncovered u in
          with_use u (ua_used u) (ua_attempted u) (ua_denied u) uncovered
            (mkEvidence (ev_scanned e + 1) (ev_allowed e + 1) (ev_no_grant e) (ev_other e) (ev_internal e) (ev_uncovered e + 1))
      | Some i =>
          let src := default no_origin (g_source <$> ua_grants u !! i) in
          with_use u (<[i := record_use src r (ua_used u !! i)]> (ua_used u)) (ua_attempted u) (ua_denied u) (ua_uncovered u)
            (mkEvidence (ev_scanned e + 1) (ev_allowed e + 1) (ev_no_grant e) (ev_other e) (ev_internal e) (ev_uncovered e))
      end
  end.

(** [comparePair], as the order it sorts by. *)
Definition pair_less (a b : Pair) : bool :=
  match String.compare a.2 b.2 with Lt => true | Gt => false | Eq => String.ltb a.1 b.1 end.

(** How [Finish] sorts a grant. *)
Inductive usage := Used (s : useState) | AttemptedOnly | Unused.

Definition usage_of (u : UsageAccumulator) (i : nat) : usage :=
  match ua_used u !! i with
  | Some s => Used s
  | None => if bool_decide (i ∈ ua_attempted u) then AttemptedOnly else Unused
  end.

Definition Finish (u : UsageAccumulator) : UsageAnalysis :=
  let l := imap (fun i g => (g_permission g, usage_of u i)) (ua_grants u) in
  mkAnalysis (ua_agent u) (ua_since u) (ua_until u) (ua_grants u)
    (omap (fun x : Permission * usage =>
       match x.2 with
       | Used s => Some (mkUsed x.1 (us_count s) (us_first s) (us_last s) (sort_strings (elements (us_chains s))))
       | _ => None end) l)
    (omap (fun x : Permission * usage => match x.2 with Unused => Some x.1 | _ => None end) l)
    (omap (fun x : Permission * usage => match x.2 with AttemptedOnly => Some x.1 | _ => None end) l)
    (sort_by pair_less (elements (ua_denied u)))
    (sort_by (fun x y => pair_less (uc_pair x) (uc_pair y)) (map (fun kv => mkUncovered kv.1 kv.2) (map_to_list (ua_uncovered u))))
    (ua_ev u).

(** ** Suggestions ([suggest.go]) *)

Definition defaultGeneralizeMin : Z := 3.

(** The bytes before the last colon. *)
Fixpoint before_last_colon (s : string) : option string :=
  match s with
  | "" => None
  | String c s' =>
      match before_last_colon s' with
      | Some r => Some (String c r)
      | None => if (c =? ":")%char then Some "" else None
      end
  end.

(** [strings.ContainsAny(s, `*\{`)] *)
Definition pattern_syntax (s : string) : bool :=
  existsb (fun c => bool_decide (c = star_byte) || bool_decide (c = Glob.backslash) || bool_decide (c = lbrace)) (list_ascii_of_string s).

Definition parentOf (resource : string) : string :=
  if pattern_syntax resource then "" else default "" (before_last_colon resource).

Record group := mkGroup { gr_parent : string; gr_action : string; gr_extras : Permission; gr_indexes : list nat }.

Definition group_key (parent : string) (p : Permission) : string := parent +:+ nul +:+ pm_action p +:+ nul +:+ extrasKey p.

(** The first loop of [generalize]: the keys in order of appearance, and the groups. *)
Definition add_group (observed : gset string) (acc : list string * gmap string group) (ip : nat * Permission)
  : list string * gmap string group :=
  let '(order, groups) := acc in
  let '(i, p) := ip in
  if negb (bool_decide (atomKey p ∈ observed)) || (parentOf (pm_resource p) =? "")%string then acc
  else
    let key := group_key (parentOf (pm_resource p)) p in
    match groups !! key with
    | Some g => (order, <[key := mkGroup (gr_parent g) (gr_action g) (gr_extras g) (gr_indexes g ++ [i])]> groups)
    | None => (order ++ [key], <[key := mkGroup (parentOf (pm_resource p)) (pm_action p) p [i]]> groups)
    end.

Definition numbered {A} (l : list A) : list (nat * A) := imap pair l.

Record merges := mkMerges { mg_drop : gset nat; mg_replace : gmap nat Permission; mg_rewrites : list Rewrite }.

Definition merged (g : group) : Permission := mkPerm (gr_action g) (gr_parent g +:+ ":*") (pm_conditions (gr_extras g)).

(** Whether a group may become a wildcard. *)
Definition may_merge (a : UsageAnalysis) (groupMin : Z) (g : group) : bool :=
  negb (Z.of_nat (length (gr_indexes g)) <? groupMin)
  && existsb (fun gr => Covers gr (merged g)) (Granted a)
  && negb (existsb (fun d : Pair => Match (pm_action (merged g)) d.1 && Match (pm_resource (merged g)) d.2) (an_denied a)).

(** The second loop. A group has at least one index. *)
Definition merge_group (a : UsageAnalysis) (kept : list Permission) (groupMin : Z) (m : merges) (g : group) : merges :=
  match may_merge a groupMin g, gr_indexes g with
  | true, i :: rest =>
      mkMerges (list_to_set rest ∪ mg_drop m) (<[i := merged g]> (mg_replace m))
        (mg_rewrites m ++ [mkRewrite (omap (fun i => kept !! i) (gr_indexes g)) (merged g)])
  | _, _ => m
  end.

Definition rewritten (m : merges) (ip : nat * Permission) : option Permission :=
  if bool_decide (ip.1 ∈ mg_drop m) then None else Some (default ip.2 (mg_replace m !! ip.1)).

Definition group_minimum (opts : Options) : Z :=
  Z.max 2 (if op_generalize_min opts =? 0 then defaultGeneralizeMin else op_generalize_min opts).

Definition generalize (a : UsageAnalysis) (kept : list Permission) (observed : gset string) (opts : Options)
  : list Permission * list Rewrite :=
  let '(order, groups) := fold_left (add_group observed) (numbered kept) ([], ∅) in
  let m := fold_left (merge_group a kept (group_minimum opts)) (omap (fun k => groups !! k) order) (mkMerges ∅ ∅ []) in
  (omap (rewritten m) (numbered kept), mg_rewrites m).

Definition used_counts (a : UsageAnalysis) : gmap string Z :=
  fold_left (fun m u => <[atomKey (up_permission u) := up_count u]> m) (an_used a) ∅.

Definition SuggestShrink (a : UsageAnalysis) (opts : Options) : Suggestion :=
  let minObs := Z.max 1 (op_min_observations opts) in
  let usedCount := used_counts a in
  let attempted : gset string := list_to_set (map atomKey (an_attempted a)) in
  let enough p := minObs <=? default 0 (usedCount !! atomKey p) in
  let keep p := enough p || bool_decide (atomKey p ∈ attempted) in
  let kept := List.filter keep (Granted a) in
  let removed := List.filter (fun p => negb (keep p)) (Granted a) in
  let observed : gset string := list_to_set (map atomKey (List.filter enough (Granted a))) in
  let '(kept, rewrites) := if op_generalize opts then generalize a kept observed opts else (kept, []) in
  mkSuggestion kept removed rewrites.

(** ** Replays ([verify.go]) *)

Definition DefaultMaxExamples : Z := 1000.

Definition ref (r : DecisionRow) : RowRef := mkRef (row_id r) (row_action r) (row_resource r) (row_time r).

Record Replay := mkReplay { rp_proposed : list Permission; rp_max : Z; rp_report : BlastRadius }.

Definition NewReplay (proposed : list Permission) (maxExamples : Z) : Replay :=
  mkReplay proposed (if maxExamples <=? 0 then DefaultMaxExamples else maxExamples)
    (mkBlast 0 0 0 [] 0 [] 0 (map (fun p => mkCount p 0) proposed) false).

Definition add_report (max : Z) (proposed : list Permission) (b : BlastRadius) (row : DecisionRow) : BlastRadius :=
  let hit := firstMatch proposed (row_action row) (row_resource row) in
  match Classify row with
  | ClassInternal | ClassDenyOther =>
      mkBlast (br_replayed b) (br_still b) (br_newly_count b) (br_newly b) (br_would_count b) (br_would b)
        (br_ignored b + 1) (br_per b) (br_truncated b)
  | ClassAllow =>
      match hit with
      | Some i =>
          mkBlast (br_replayed b + 1) (br_still b + 1) (br_newly_count b) (br_newly b) (br_would_count b) (br_would b)
            (br_ignored b) (alter (fun c => mkCount (mc_permission c) (mc_allows c + 1)) i (br_per b)) (br_truncated b)
      | None =>
          let room := Z.of_nat (length (br_newly b)) <? max in
          mkBlast (br_replayed b + 1) (br_still b) (br_newly_count b + 1)
            (if room then br_newly b ++ [ref row] else br_newly b) (br_would_count b) (br_would b) (br_ignored b) (br_per b)
            (if room then br_truncated b else true)
      end
  | ClassDenyNoGrant =>
      match hit with
      | Some _ =>
          let room := Z.of_nat (length (br_would b)) <? max in
          mkBlast (br_replayed b) (br_still b) (br_newly_count b) (br_newly b) (br_would_count b + 1)
            (if room then br_would b ++ [ref row] else br_would b) (br_ignored b) (br_per b)
            (if room then br_truncated b else true)
      | None => b
      end
  end.

Definition replay_Add (r : Replay) (row : DecisionRow) : Replay :=
  mkReplay (rp_proposed r) (rp_max r) (add_report (rp_max r) (rp_proposed r) (rp_report r) row).

Definition VerifyShrink (rows : list DecisionRow) (proposed : list Permission) (maxExamples : Z) : BlastRadius :=
  rp_report (fold_left replay_Add rows (NewReplay proposed maxExamples)).
End Lib.

(** ** Containment of patterns *)

(** Tokens of a pattern without escapes: no literal is a wildcard or a backslash. *)
Definition plain_tok (t : tok) : Prop :=
  match t with Star => True | Lit c => c ≠ star_byte ∧ c ≠ Glob.backslash end.

Definition unescaped (s : string) : Prop := Glob.backslash ∉ bytes_of s.

Lemma toks_plain p : Glob.backslash ∉ p -> Forall plain_tok (toks p).
Proof.
  induction p as [|c p IH]; simpl; [constructor|]. rewrite not_elem_of_cons. intros [Hc Hp].
  destruct (decide (c = star_byte)); [by constructor; auto|].
  destruct (decide (c = Glob.backslash)); [congruence|]. by constructor; auto.
Qed.

Lemma glob_star_cons ts c q : glob (Star :: ts) (c :: q) ↔ glob ts (c :: q) ∨ glob (Star :: ts) q.
Proof.
  split.
  - intros (s1 & s2 & He & Hg)%glob_star_inv. destruct s1 as [|d s1]; simplify_eq/=; [by left|].
    right. by constructor.
  - intros [Hg|(s1 & s2 & -> & Hg)%glob_star_inv]; [by apply (glob_star ts [])|by apply (glob_star ts (c :: s1))].
Qed.

(** Reading one byte on both sides. *)
Lemma glob_same_head ts c q s :
  Forall plain_tok ts -> (∀ ts, Forall plain_tok ts -> glob ts q -> glob ts s) -> glob ts (c :: q) -> glob ts (c :: s).
Proof.
  intros Hp Hs. induction Hp as [|[d|] ts Ht Hp IH]; [by inversion 1| |].
  - intros (q' & Heq & Hg)%glob_lit_inv. injection Heq as -> ->. constructor. auto.
  - rewrite !glob_star_cons. intros [Hg|Hg]; [left; auto|right; apply Hs; [by constructor|done]].
Qed.

(** A byte of the text that no literal is can only be read by a wildcard. *)
Lemma glob_skip ts b q s :
  b = star_byte ∨ b = Glob.backslash -> Forall plain_tok ts ->
  (∀ ts, Forall plain_tok ts -> glob (Star :: ts) q -> glob (Star :: ts) s) -> glob ts (b :: q) -> glob ts s.
Proof.
  intros Hb Hp Hs. induction Hp as [|[d|] ts Ht Hp IH]; [by inversion 1| |].
  - intros (q' & Heq & _)%glob_lit_inv. injection Heq as -> ->. simpl in Ht. by destruct Hb, Ht.
  - rewrite glob_star_cons. intros [Hg|Hg]; [|auto]. apply (glob_star ts []). auto.
Qed.

(** A pattern without escapes that matches another pattern as a text matches all that it matches. *)
Lemma glob_contains n q ts s :
  (length q <= n)%nat -> Forall plain_tok ts -> glob ts q -> glob (toks q) s -> glob ts s.
Proof.
  revert q ts s. induction n as [|n IH]; intros q ts s Hn Hp Hg Hs.
  { destruct q; [|simpl in Hn; lia]. by inversion Hs; subst. }
  destruct q as [|c q]; [by inversion Hs; subst|]. simpl in Hs, Hn. destruct (decide (c = star_byte)) as [->|Hc].
  { apply glob_star_inv in Hs as (s1 & s2 & -> & Hs). revert Hg. apply glob_skip; [auto|done|]. intros ts' Hp' Hg'.
    assert (Hg2 : glob (Star :: ts') s2) by (eapply (IH q); [lia|by constructor|done|done]).
    apply glob_star_inv in Hg2 as (s3 & s4 & -> & Hg2). rewrite app_assoc. by constructor. }
  destruct (decide (c = Glob.backslash)) as [->|Hb].
  - destruct q as [|d q].
    + apply glob_lit_inv in Hs as (s' & -> & Hs). inversion Hs; subst. done.
    + apply glob_lit_inv in Hs as (s' & -> & Hs). revert Hg. apply glob_skip; [auto|done|]. intros ts' Hp' Hg'.
      eapply glob_same_head; [by constructor| |exact Hg']. intros ts2 Hp2 Hg2. eapply (IH q); [simpl in Hn; lia|done..].
  - apply glob_lit_inv in Hs as (s' & -> & Hs). revert Hg. apply glob_same_head; [done|]. intros ts2 Hp2 Hg2.
    eapply (IH q); [lia|done..].
Qed.

Lemma Match_contains p q s : unescaped p -> Match p q = true -> Match q s = true -> Match p s = true.
Proof.
  rewrite !Match_glob. intros Hp Hq Hs. eapply glob_contains; [reflexivity|by apply toks_plain|done|done].
Qed.

(** [Covers] is what it says when the outer permission has no escapes. *)
Lemma Covers_sound outer inner action resource :
  unescaped (pm_action outer) -> unescaped (pm_resource outer) -> Covers outer inner = true ->
  hits inner action resource = true -> hits outer action resource = true.
Proof.
  unfold Covers, hits. intros Ha Hr [H1 H2]%andb_prop [H3 H4]%andb_prop. apply andb_true_intro.
  split; by eapply Match_contains.
Qed.

Definition reaches (perms : list Permission) (action resource : string) : bool := existsb (fun p => hits p action resource) perms.

Lemma firstMatch_reaches perms a r : is_Some (firstMatch perms a r) ↔ reaches perms a r = true.
Proof.
  induction perms as [|p perms IH]; simpl; [by split; [intros []|]|]. destruct (hits p a r); simpl; [by split; eauto|].
  rewrite <- IH. apply fmap_is_Some.
Qed.

Lemma firstMatch_lookup perms a r i : firstMatch perms a r = Some i -> ∃ p, perms !! i = Some p ∧ hits p a r = true.
Proof.
  revert i. induction perms as [|p perms IH]; intros i; simpl; [done|]. destruct (hits p a r) eqn:Hh.
  - intros [= <-]. eauto.
  - intros (j & Hj & ->)%fmap_Some. destruct (IH j Hj) as (q & ? & ?). eauto.
Qed.

Lemma reaches_elem perms a r : reaches perms a r = true ↔ ∃ p, p ∈ perms ∧ hits p a r = true.
Proof. apply existsb_true_iff. Qed.

(** *** Resources without pattern syntax *)

Lemma toks_literal l :
  (∀ c, c ∈ l -> c ≠ star_byte ∧ c ≠ Glob.backslash) -> toks l = map Lit l.
Proof.
  induction l as [|c l IH]; intros Hl; simpl; [done|]. destruct (Hl c) as [? ?]; [set_solver|].
  do 2 (destruct (decide _); [done|]). rewrite IH; [done|set_solver].
Qed.

Lemma pattern_syntax_free s c :
  pattern_syntax s = false -> c ∈ list_ascii_of_string s -> c ≠ star_byte ∧ c ≠ Glob.backslash.
Proof.
  unfold pattern_syntax. intros Hs Hc. assert (Hn := proj1 (existsb_false_iff _ _) Hs c Hc). simpl in Hn.
  apply orb_false_elim in Hn as [[H1 H2]%orb_false_elim _]. by rewrite !bool_decide_eq_false in *.
Qed.

Lemma before_last_colon_spec s p : before_last_colon s = Some p -> ∃ rest, s = p +:+ ":" +:+ rest.
Proof.
  revert p. induction s as [|c s IH]; intros p; simpl; [done|]. destruct (before_last_colon s) as [r|].
  - intros [= <-]. destruct (IH r eq_refl) as [rest ->]. by exists rest.
  - destruct (Ascii.eqb_spec c ":"); [|done]. intros [= <-]. subst. by exists s.
Qed.

(** A resource with a parent is literal, and the wildcard of the parent matches it. *)
Lemma parentOf_Match res r :
  parentOf res ≠ "" -> Match res r = true -> Match (parentOf res +:+ ":*") r = true.
Proof.
  unfold parentOf. destruct (pattern_syntax res) eqn:Hs; [done|]. destruct (before_last_colon res) as [p|] eqn:Hp; [|done]. simpl.
  intros _. rewrite !Match_glob. pose proof (λ c, pattern_syntax_free _ c Hs) as Hfree.
  rewrite (toks_literal _ Hfree), glob_map_lit. intros ->.
  apply before_last_colon_spec in Hp as [rest ->]. rewrite (bytes_of_app p (":" +:+ rest)) in Hfree |- *.
  assert (Hw : list_ascii_of_string (p +:+ ":*") = list_ascii_of_string p ++ [":"%char; "*"%char]) by apply (bytes_of_app p ":*").
  rewrite Hw. assert (Ht : ∀ l, (∀ c, c ∈ l -> c ≠ star_byte ∧ c ≠ Glob.backslash) -> toks (l ++ [":"%char; "*"%char]) = map Lit (l ++ [":"%char]) ++ [Star]).
  { induction l as [|c l IH]; intros Hl; [done|]. simpl. destruct (Hl c) as [? ?]; [set_solver|].
    do 2 (destruct (decide _); [done|]). rewrite IH; [done|set_solver]. }
  rewrite Ht by set_solver. apply glob_lits. exists (list_ascii_of_string rest). split.
  - rewrite (bytes_of_app ":" rest). simpl. by rewrite <- app_assoc.
  - rewrite <- (app_nil_r (list_ascii_of_string rest)). repeat constructor.
Qed.

(** ** What was counted *)

(** How many rows satisfy a test. *)
Definition tally (f : DecisionRow -> bool) (rows : list DecisionRow) : Z := Z.of_nat (length (List.filter f rows)).

Lemma tally_snoc f rows r : tally f (rows ++ [r]) = tally f rows + (if f r then 1 else 0).
Proof. unfold tally. rewrite List.filter_app. simpl. destruct (f r); rewrite length_app; simpl; lia. Qed.

Lemma tally_le f g rows : (∀ r, r ∈ rows -> f r = true -> g r = true) -> tally f rows <= tally g rows.
Proof.
  unfold tally. induction rows as [|r rows IH]; intros Hfg; simpl; [lia|].
  assert (IH' : Z.of_nat (length (List.filter f rows)) <= Z.of_nat (length (List.filter g rows))) by (apply IH; set_solver).
  destruct (f r) eqn:Hf; [rewrite (Hfg r) by set_solver; simpl; lia|]. destruct (g r); simpl; lia.
Qed.

Section Counts.
Context `{ShrinkLib}.

Definition allowed_row (r : DecisionRow) : bool := bool_decide (Classify r = ClassAllow).
Definition no_grant_row (r : DecisionRow) : bool := bool_decide (Classify r = ClassDenyNoGrant).
Definition reached_by (perms : list Permission) (r : DecisionRow) : bool := reaches perms (row_action r) (row_resource r).

(** The row is attributed to the permission at [i]. *)
Definition at_index (perms : list Permission) (i : nat) (r : DecisionRow) : bool :=
  bool_decide (firstMatch perms (row_action r) (row_resource r) = Some i).

Definition flipped (perms : list Permission) (r : DecisionRow) : bool := allowed_row r && negb (reached_by perms r).
Definition opened (perms : list Permission) (r : DecisionRow) : bool := no_grant_row r && reached_by perms r.

Lemma reached_by_first perms r :
  reached_by perms r = match firstMatch perms (row_action r) (row_resource r) with Some _ => true | None => false end.
Proof.
  unfold reached_by. destruct (firstMatch _ _ _) as [i|] eqn:Hf.
  - apply firstMatch_reaches. by rewrite Hf.
  - destruct (reaches _ _ _) eqn:Hr; [|done]. apply firstMatch_reaches in Hr as [i Hi]. congruence.
Qed.

(** *** Replays *)

(** The report of a replay in closed form. *)
Record replayed (max : Z) (proposed : list Permission) (rows : list DecisionRow) (b : BlastRadius) : Prop := mkReplayed {
  rd_all : br_replayed b = tally allowed_row rows;
  rd_still : br_still b = tally (fun r => allowed_row r && reached_by proposed r) rows;
  rd_newly : br_newly_count b = tally (flipped proposed) rows;
  rd_newly_rows : br_newly b = firstn (Z.to_nat max) (map ref (List.filter (flipped proposed) rows));
  rd_would : br_would_count b = tally (opened proposed) rows;
  rd_would_rows : br_would b = firstn (Z.to_nat max) (map ref (List.filter (opened proposed) rows));
  rd_ignored : br_ignored b = tally (fun r => negb (allowed_row r) && negb (no_grant_row r)) rows;
  rd_per : br_per b = imap (fun i p => mkCount p (tally (fun r => allowed_row r && at_index proposed i r) rows)) proposed;
  rd_truncated : br_truncated b = (max <? tally (flipped proposed) rows) || (max <? tally (opened proposed) rows);
}.

Lemma firstn_snoc {A} (n : nat) (l : list A) x :
  firstn n (l ++ [x]) = if (length l <? n)%nat then firstn n l ++ [x] else firstn n l.
Proof.
  rewrite firstn_app. destruct (Nat.ltb_spec (length l) n).
  - f_equal. destruct (n - length l)%nat eqn:E; [lia|]. simpl. by rewrite firstn_nil.
  - replace (n - length l)%nat with 0%nat by lia. by rewrite app_nil_r.
Qed.

(** One more example row in a list capped at [max]. *)
Lemma example_snoc max (f : DecisionRow -> bool) rows r :
  0 < max -> f r = true ->
  let cur := firstn (Z.to_nat max) (map ref (List.filter f rows)) in
  (if Z.of_nat (length cur) <? max then cur ++ [ref r] else cur) = firstn (Z.to_nat max) (map ref (List.filter f (rows ++ [r])))
  ∧ (Z.of_nat (length cur) <? max) = negb (max <? tally f (rows ++ [r])).
Proof.
  intros Hmax Hf. simpl. rewrite List.filter_app, map_app, tally_snoc, Hf. simpl. rewrite Hf. simpl.
  rewrite firstn_snoc, length_firstn, length_map. unfold tally.
  destruct (Z.ltb_spec (Z.of_nat (Nat.min (Z.to_nat max) (length (List.filter f rows)))) max);
    destruct (Nat.ltb_spec (length (List.filter f rows)) (Z.to_nat max)); try lia; (split; [done|]);
    destruct (Z.ltb_spec max (Z.of_nat (length (List.filter f rows)) + 1)); simpl; lia.
Qed.

Lemma filter_same (f : DecisionRow -> bool) rows r : f r = false -> List.filter f (rows ++ [r]) = List.filter f rows.
Proof. intros Hf. rewrite List.filter_app. simpl. rewrite Hf. apply app_nil_r. Qed.

(** The allows per permission after one more row, which is attributed to [hit] if it is an allow. *)
Lemma per_snoc proposed rows r (hit : option nat) :
  (∀ i, allowed_row r && at_index proposed i r = bool_decide (hit = Some i)) ->
  let per rows := imap (fun i p => mkCount p (tally (fun r => allowed_row r && at_index proposed i r) rows)) proposed in
  per (rows ++ [r])
  = match hit with Some i => alter (fun c => mkCount (mc_permission c) (mc_allows c + 1)) i (per rows) | None => per rows end.
Proof.
  intros Hhit. simpl. apply list_eq. intros j. destruct hit as [i|].
  - destruct (decide (i = j)) as [->|Hne].
    + rewrite list_lookup_alter_eq, !list_lookup_imap. destruct (proposed !! j); simpl; [|done].
      by rewrite tally_snoc, Hhit, bool_decide_true by done.
    + rewrite list_lookup_alter_ne, !list_lookup_imap by done. destruct (proposed !! j); simpl; [|done].
      by rewrite tally_snoc, Hhit, bool_decide_false, Z.add_0_r by congruence.
  - rewrite !list_lookup_imap. destruct (proposed !! j); simpl; [|done]. by rewrite tally_snoc, Hhit, bool_decide_false, Z.add_0_r.
Qed.

Lemma add_report_replayed max proposed rows b r :
  0 < max -> replayed max proposed rows b -> replayed max proposed (rows ++ [r]) (add_report max proposed b r).
Proof.
  intros Hmax [Hall Hstill Hnew Hnews Hwd Hwds Hig Hper Htr]. unfold add_report.
  assert (Hrb := reached_by_first proposed r).
  assert (Hflip : flipped proposed r = allowed_row r && negb (reached_by proposed r)) by done.
  assert (Hopen : opened proposed r = no_grant_row r && reached_by proposed r) by done.
  assert (Hat : ∀ i, at_index proposed i r = bool_decide (firstMatch proposed (row_action r) (row_resource r) = Some i)) by done.
  assert (Ha : allowed_row r = match Classify r with ClassAllow => true | _ => false end) by (unfold allowed_row; by destruct (Classify r)).
  assert (Hn : no_grant_row r = match Classify r with ClassDenyNoGrant => true | _ => false end) by (unfold no_grant_row; by destruct (Classify r)).
  assert (Hp := λ hit, per_snoc proposed rows r hit). simpl in Hp.
  assert (Hx := example_snoc max (flipped proposed) rows r Hmax). assert (Hy := example_snoc max (opened proposed) rows r Hmax).
  destruct (Classify r) eqn:Hc; [| | |]; try (destruct (firstMatch proposed _ _) as [i|] eqn:Hf);
    rewrite Ha, Hrb in Hflip; rewrite Hn, Hrb in Hopen; simpl in Hflip, Hopen.
  all: try (destruct Hx as [Hl1 Hr1]; [done|]; rewrite <- Hnews in Hl1, Hr1).
  all: try (destruct Hy as [Hl2 Hr2]; [done|]; rewrite <- Hwds in Hl2, Hr2).
  all: split; simpl; rewrite ?tally_snoc, ?Hflip, ?Hopen, ?Ha, ?Hn, ?Hrb; simpl; rewrite ?Z.add_0_r; try (done || lia).
  all: try (rewrite filter_same by exact Hflip; done).
  all: try (rewrite filter_same by exact Hopen; done).
  all: try (rewrite (Hp None) by (intros; by rewrite ?Ha, ?Hat); done).
  all: try (rewrite (Hp (Some i)) by (intros; by rewrite ?Ha, ?Hat); by rewrite Hper).
  all: rewrite ?Hr1, ?Hr2, ?tally_snoc, ?Hflip, ?Hopen, Htr.
  all: destruct (Z.ltb_spec max (tally (flipped proposed) rows)), (Z.ltb_spec max (tally (opened proposed) rows)),
    (Z.ltb_spec max (tally (flipped proposed) rows + 1)), (Z.ltb_spec max (tally (opened proposed) rows + 1)); simpl; (done || lia).
Qed.

Lemma fold_snoc_inv {S} (P : list DecisionRow -> S -> Prop) (f : S -> DecisionRow -> S) (s : S) rows :
  P [] s -> (∀ rows st r, P rows st -> P (rows ++ [r]) (f st r)) -> P rows (fold_left f rows s).
Proof.
  intros H0 Hs. induction rows as [|r rows IH] using rev_ind; [done|]. rewrite fold_left_app. simpl. auto.
Qed.

(** The report of a replay counts exactly: the allows that stay allowed and the ones that are denied now, the
    refusals for lack of a grant that are allowed now, the rows that say nothing, and the allows of each
    proposed permission, where a row counts for the first that matches. The example lists are the first rows
    of their kind, up to the cap, and the report says when it cut them. *)
Theorem VerifyShrink_exact rows proposed maxExamples :
  replayed (if maxExamples <=? 0 then DefaultMaxExamples else maxExamples) proposed rows (VerifyShrink rows proposed maxExamples).
Proof.
  set (max := if maxExamples <=? 0 then _ else _). assert (Hmax : 0 < max) by (subst max; destruct (Z.leb_spec maxExamples 0); [done|lia]).
  unfold VerifyShrink, NewReplay. fold max.
  assert (Hinv : rp_proposed (fold_left replay_Add rows (mkReplay proposed max (mkBlast 0 0 0 [] 0 [] 0 (map (λ p, mkCount p 0) proposed) false))) = proposed
    ∧ rp_max (fold_left replay_Add rows (mkReplay proposed max (mkBlast 0 0 0 [] 0 [] 0 (map (λ p, mkCount p 0) proposed) false))) = max
    ∧ replayed max proposed rows (rp_report (fold_left replay_Add rows (mkReplay proposed max (mkBlast 0 0 0 [] 0 [] 0 (map (λ p, mkCount p 0) proposed) false))))).
  2:{ by destruct Hinv as (_ & _ & ?). }
  apply (fold_snoc_inv (fun rows st => rp_proposed st = proposed ∧ rp_max st = max ∧ replayed max proposed rows (rp_report st))).
  - simpl. split_and!; [done|done|]. split; simpl; rewrite ?firstn_nil; try done.
    + apply list_eq. intros i. rewrite list_lookup_imap, list_lookup_fmap. by destruct (proposed !! i).
    + change (tally (flipped proposed) []) with 0. change (tally (opened proposed) []) with 0. destruct (Z.ltb_spec max 0); [lia|done].
  - intros rows' st r (Hp & Hm & Hr). simpl. rewrite Hp, Hm. split_and!; [done|done|]. by apply add_report_replayed.
Qed.

(** *** Usage *)

Definition analysed (agent : string) (grants : list Grant) (since until : Z) (rows : list DecisionRow) : UsageAccumulator :=
  fold_left Add rows (NewUsageAccumulator agent grants since until).

(** What the accumulator has read. *)
Record counted (grants : list Grant) (rows : list DecisionRow) (u : UsageAccumulator) : Prop := mkCounted {
  ct_grants : ua_grants u = grants;
  ct_perms : ua_perms u = map g_permission grants;
  ct_used : ∀ i, (match ua_used u !! i with Some s => us_count s | None => 0 end)
                 = tally (fun r => allowed_row r && at_index (map g_permission grants) i r) rows;
  ct_used_pos : ∀ i s, ua_used u !! i = Some s -> 0 < us_count s;
  ct_attempted : ∀ i, i ∈ ua_attempted u ↔ ∃ r, r ∈ rows ∧ Classify r = ClassDenyOther ∧ at_index (map g_permission grants) i r = true;
  ct_denied : ∀ p, p ∈ ua_denied u -> ∃ r, r ∈ rows ∧ no_grant_row r = true ∧ p = (row_action r, row_resource r);
  ct_denied_all : (size (ua_denied u) < DistinctCap)%nat ->
    ∀ r, r ∈ rows -> no_grant_row r = true -> (row_action r, row_resource r) ∈ ua_denied u;
  ct_scanned : ev_scanned (ua_ev u) = Z.of_nat (length rows);
  ct_allowed : ev_allowed (ua_ev u) = tally allowed_row rows;
  ct_uncovered : ev_uncovered (ua_ev u) = tally (flipped (map g_permission grants)) rows;
}.

Lemma Add_counted grants rows u r : counted grants rows u -> counted grants (rows ++ [r]) (Add u r).
Proof.
  intros [Hg Hp Hu Hpos Hat Hd Hda Hs Hal Hun]. unfold Add. rewrite Hp.
  assert (Hrb := reached_by_first (map g_permission grants) r).
  assert (Hx : ∀ i, at_index (map g_permission grants) i r
    = bool_decide (firstMatch (map g_permission grants) (row_action r) (row_resource r) = Some i)) by done.
  assert (Ha : allowed_row r = match Classify r with ClassAllow => true | _ => false end) by (unfold allowed_row; by destruct (Classify r)).
  assert (Hn : no_grant_row r = match Classify r with ClassDenyNoGrant => true | _ => false end) by (unfold no_grant_row; by destruct (Classify r)).
  assert (Hf : flipped (map g_permission grants) r = allowed_row r && negb (reached_by (map g_permission grants) r)) by done.
  assert (Hold : ∀ i, Classify r ≠ ClassDenyOther ∨ at_index (map g_permission grants) i r = false ->
     i ∈ ua_attempted u ↔ ∃ r0, r0 ∈ rows ++ [r] ∧ Classify r0 = ClassDenyOther ∧ at_index (map g_permission grants) i r0 = true).
  { intros i Hno. rewrite Hat. setoid_rewrite elem_of_app. setoid_rewrite list_elem_of_singleton. split; [by intros (? & ? & ? & ?); eauto 9|].
    intros (r0 & [Hin | ->] & Hc & Hi); [by eauto|]. destruct Hno; congruence. }
  destruct (Classify r) eqn:Hc; [|destruct (firstMatch (map g_permission grants) _ _) as [k|] eqn:Hk| |];
    rewrite ?Ha, ?Hrb in Hf; simpl in Hf; split; simpl; try done; try (intros i; rewrite ?tally_snoc, ?Hf, ?Ha; simpl; rewrite ?Z.add_0_r; by auto);
    try (rewrite ?tally_snoc, ?Hf, ?Ha, ?length_app; simpl; lia); try (intros ? (r0 & ? & ? & ?)%Hd; exists r0; set_solver).
  - intros Hsz r0 [Hin | ->%list_elem_of_singleton]%elem_of_app; [by apply Hda|congruence].
  - intros i. rewrite tally_snoc, Ha, Hx. destruct (decide (k = i)) as [->|Hne].
    + rewrite lookup_insert_eq, bool_decide_true by done. simpl. specialize (Hu i). by destruct (ua_used u !! i); simpl in *; rewrite <- Hu.
    + rewrite lookup_insert_ne, bool_decide_false by congruence. rewrite Hu. simpl. lia.
  - intros i s. destruct (decide (k = i)) as [->|Hne].
    + rewrite lookup_insert_eq. intros [= <-]. simpl. specialize (Hpos i). destruct (ua_used u !! i); simpl; [by specialize (Hpos _ eq_refl); lia|lia].
    + rewrite lookup_insert_ne by done. apply Hpos.
  - intros Hsz r0 [Hin | ->%list_elem_of_singleton]%elem_of_app; [by apply Hda|congruence].
  - intros i. rewrite tally_snoc, Ha, Hx, Hu. simpl. lia.
  - intros Hsz r0 [Hin | ->%list_elem_of_singleton]%elem_of_app; [by apply Hda|congruence].
  - intros p Hin. destruct (_ && _); [apply elem_of_union in Hin as [->%elem_of_singleton|Hin]|].
    + exists r. set_solver.
    + destruct (Hd p Hin) as (r0 & ? & ? & ?). exists r0. set_solver.
    + destruct (Hd p Hin) as (r0 & ? & ? & ?). exists r0. set_solver.
  - intros Hsz r0 Hin Hr0. destruct (bool_decide_reflect ((row_action r, row_resource r) ∉ ua_denied u)) as [Hnew|Hin'%dec_stable]; simpl in *.
    + destruct (Nat.ltb_spec (size (ua_denied u)) DistinctCap) as [Hlt|]; simpl in *; [|lia].
      apply elem_of_app in Hin as [Hin | ->%list_elem_of_singleton]; [|set_solver].
      apply elem_of_union_r. by apply Hda.
    + apply elem_of_app in Hin as [Hin | ->%list_elem_of_singleton]; [by apply Hda|done].
  - intros i. destruct (firstMatch (map g_permission grants) _ _) as [k|] eqn:Hk.
    + rewrite elem_of_union, elem_of_singleton. destruct (decide (i = k)) as [->|Hne].
      * split; [|by left]. intros _. exists r. split; [set_solver|]. by rewrite Hx, bool_decide_true.
      * rewrite <- (Hold i); [naive_solver|]. right. rewrite Hx. apply bool_decide_false. congruence.
    + apply Hold. right. by rewrite Hx.
  - intros Hsz r0 [Hin | ->%list_elem_of_singleton]%elem_of_app; [by apply Hda|congruence].
Qed.

Lemma analysed_counted agent grants since until rows : counted grants rows (analysed agent grants since until rows).
Proof.
  apply (fold_snoc_inv (fun rows u => counted grants rows u)); [|intros; by apply Add_counted].
  split; simpl; try done; intros; set_solver.
Qed.
End Counts.

(** ** What a suggestion keeps *)

Definition no_nul (s : string) : Prop := "000"%char ∉ list_ascii_of_string s.

Lemma nul_split a b x y : no_nul a -> no_nul b -> a +:+ nul +:+ x = b +:+ nul +:+ y -> a = b ∧ x = y.
Proof.
  unfold no_nul. intros Ha Hb He. apply (f_equal list_ascii_of_string) in He.
  rewrite !(bytes_of_app _ (nul +:+ _)), !(bytes_of_app nul) in He. simpl in He.
  apply (before_sep (fun c => negb (c =? "000")%char)) in He as [He1 He2]; [|..|done].
  - by apply bytes_of_inj in He1, He2.
  - apply forallb_forall. intros c Hc%list_elem_of_In. destruct (Ascii.eqb_spec c "000"); [by subst|done].
  - apply forallb_forall. intros c Hc%list_elem_of_In. destruct (Ascii.eqb_spec c "000"); [by subst|done].
Qed.

Lemma parentOf_no_nul res : no_nul res -> no_nul (parentOf res).
Proof.
  unfold parentOf. destruct (pattern_syntax res); [intros _; apply not_elem_of_nil|].
  destruct (before_last_colon res) as [p|] eqn:Hp; [|intros _; apply not_elem_of_nil]. simpl.
  apply before_last_colon_spec in Hp as [rest ->]. unfold no_nul. rewrite (bytes_of_app p). set_solver.
Qed.

Lemma elem_of_numbered {A} (l : list A) i x : (i, x) ∈ numbered l ↔ l !! i = Some x.
Proof.
  unfold numbered. rewrite list_elem_of_lookup. setoid_rewrite list_lookup_imap. split.
  - intros (j & Hj). destruct (l !! j) eqn:Hl; simpl in Hj; [|done]. by simplify_eq.
  - intros Hi. exists i. by rewrite Hi.
Qed.

Section Generalize.
Context (a : UsageAnalysis) (kept : list Permission) (observed : gset string) (groupMin : Z).

Definition nul_free (l : list Permission) : Prop := Forall (fun p => no_nul (pm_action p) ∧ no_nul (pm_resource p)) l.

Record group_ok (k : string) (g : group) : Prop := mkGroupOk {
  gk_nodup : NoDup (gr_indexes g);
  gk_key : group_key (gr_parent g) (gr_extras g) = k;
  gk_extras : gr_extras g ∈ kept ∧ gr_action g = pm_action (gr_extras g) ∧ gr_parent g = parentOf (pm_resource (gr_extras g));
  gk_members : ∀ i, i ∈ gr_indexes g -> ∃ p, kept !! i = Some p ∧ parentOf (pm_resource p) ≠ "" ∧ group_key (parentOf (pm_resource p)) p = k;
}.

Definition groups_ok (groups : gmap string group) : Prop := ∀ k g, groups !! k = Some g -> group_ok k g.

(** A member of a group has the action and parent of the group, so its wildcard matches what the member does. *)
Lemma member_hits k g i p action resource :
  nul_free kept -> group_ok k g -> i ∈ gr_indexes g -> kept !! i = Some p -> hits p action resource = true -> hits (merged g) action resource = true.
Proof.
  intros Hnul [_ Hk (He & Ha & Hpar) Hm] Hi Hp. destruct (Hm i Hi) as (p' & Hp' & Hne & Hk'). rewrite Hp in Hp'. injection Hp' as <-. rewrite <- Hk in Hk'.
  unfold nul_free in Hnul. rewrite Forall_forall in Hnul. destruct (Hnul p) as [Hna Hnr]; [by apply list_elem_of_lookup_2 in Hp|].
  destruct (Hnul _ He) as [Hna' Hnr']. unfold group_key in Hk'.
  apply nul_split in Hk' as [Hpe Hk']; [|by apply parentOf_no_nul|rewrite Hpar; by apply parentOf_no_nul].
  apply nul_split in Hk' as [Hae _]; [|done|done].
  unfold hits, merged. simpl. rewrite Ha, <- Hae, <- Hpe. intros [-> Hr]%andb_prop. simpl. by apply parentOf_Match.
Qed.

Lemma add_group_ok l acc :
  (∀ ip, ip ∈ l -> kept !! ip.1 = Some ip.2) -> NoDup (map fst l) ->
  groups_ok acc.2 -> (∀ k g i, acc.2 !! k = Some g -> i ∈ gr_indexes g -> i ∉ map fst l) ->
  groups_ok (fold_left (add_group observed) l acc).2.
Proof.
  revert acc. induction l as [|[i p] l IH]; intros [order groups] Hl Hnd Hok Hfr; simpl; [done|].
  apply NoDup_cons in Hnd as [Hni Hnd]. pose proof (Hl (i, p) ltac:(set_solver)) as Hp. simpl in Hp, Hni.
  destruct (negb _ || _) eqn:Hskip.
  { apply IH; [set_solver|done|done|]. intros k g j Hg Hj. specialize (Hfr k g j Hg Hj). simpl in Hfr. set_solver. }
  apply orb_false_elim in Hskip as [_ Hpar%String.eqb_neq].
  set (k0 := group_key _ p). destruct (groups !! k0) as [g0|] eqn:Hg0.
  - apply IH; [set_solver|done| |].
    + intros k g. simpl. destruct (decide (k0 = k)) as [<-|Hne]; [|rewrite lookup_insert_ne by done; apply Hok].
      rewrite lookup_insert_eq. intros [= <-]. destruct (Hok _ _ Hg0) as [H1 H2 H3 H4]. split; simpl; [|done|done|].
      * apply NoDup_app. split_and!; [done| |apply NoDup_singleton]. intros j Hj ->%list_elem_of_singleton.
        specialize (Hfr _ _ _ Hg0 Hj). simpl in Hfr. set_solver.
      * intros j [Hj| ->%list_elem_of_singleton]%elem_of_app; [auto|]. by exists p.
    + intros k g j. simpl. destruct (decide (k0 = k)) as [<-|Hne].
      * rewrite lookup_insert_eq. intros [= <-]. simpl. intros [Hj| ->%list_elem_of_singleton]%elem_of_app; [|done].
        specialize (Hfr _ _ _ Hg0 Hj). simpl in Hfr. set_solver.
      * rewrite lookup_insert_ne by done. intros Hg Hj. specialize (Hfr _ _ _ Hg Hj). simpl in Hfr. set_solver.
  - apply IH; [set_solver|done| |].
    + intros k g. simpl. destruct (decide (k0 = k)) as [<-|Hne]; [|rewrite lookup_insert_ne by done; apply Hok].
      rewrite lookup_insert_eq. intros [= <-]. split; simpl; [apply NoDup_singleton|done| |].
      * split_and!; [by apply list_elem_of_lookup_2 in Hp|done|done].
      * intros j ->%list_elem_of_singleton. by exists p.
    + intros k g j. simpl. destruct (decide (k0 = k)) as [<-|Hne].
      * rewrite lookup_insert_eq. intros [= <-]. simpl. by intros ->%list_elem_of_singleton.
      * rewrite lookup_insert_ne by done. intros Hg Hj. specialize (Hfr _ _ _ Hg Hj). simpl in Hfr. set_solver.
Qed.

(** What the merges of a list of groups say. *)
Record merges_ok (gs : list group) (m : merges) : Prop := mkMergesOk {
  mo_drop : ∀ j, j ∈ mg_drop m -> ∃ g, g ∈ gs ∧ may_merge a groupMin g = true ∧ j ∈ tail (gr_indexes g);
  mo_replace : ∀ j q, mg_replace m !! j = Some q ->
    ∃ g, g ∈ gs ∧ may_merge a groupMin g = true ∧ head (gr_indexes g) = Some j ∧ q = merged g;
  mo_head : ∀ g j, g ∈ gs -> may_merge a groupMin g = true -> head (gr_indexes g) = Some j -> is_Some (mg_replace m !! j);
}.

Lemma merge_groups_ok gs : merges_ok gs (fold_left (merge_group a kept groupMin) gs (mkMerges ∅ ∅ [])).
Proof.
  induction gs as [|g gs IH] using rev_ind; [split; simpl; set_solver|]. rewrite fold_left_app. simpl.
  destruct IH as [Hd Hr Hh]. set (m := fold_left _ gs _) in *. unfold merge_group.
  assert (Hold : may_merge a groupMin g = false ∨ gr_indexes g = [] -> merges_ok (gs ++ [g]) m).
  { intros Hno. split.
    - intros j (g' & ? & ? & ?)%Hd. exists g'. set_solver.
    - intros j q (g' & ? & ? & ? & ?)%Hr. exists g'. set_solver.
    - intros g' j [?| ->%list_elem_of_singleton]%elem_of_app; [eauto|]. destruct Hno as [?| ->]; [congruence|done]. }
  destruct (may_merge a groupMin g) eqn:Hm; [|by apply Hold; auto]. destruct (gr_indexes g) as [|i rest] eqn:Hi; [by apply Hold; auto|].
  split; simpl.
  - intros j [Hj%elem_of_list_to_set|(g' & ? & ? & ?)%Hd]%elem_of_union; [exists g|exists g']; rewrite ?Hi; set_solver.
  - intros j q. destruct (decide (i = j)) as [->|Hne].
    + rewrite lookup_insert_eq. intros [= <-]. exists g. rewrite Hi. set_solver.
    + rewrite lookup_insert_ne by done. intros (g' & ? & ? & ? & ?)%Hr. exists g'. set_solver.
  - intros g' j Hin Hm' Hhd. destruct (decide (i = j)) as [->|Hne]; [by rewrite lookup_insert_eq|].
    rewrite lookup_insert_ne by done. apply elem_of_app in Hin as [?| ->%list_elem_of_singleton]; [by eauto|].
    rewrite Hi in Hhd. simpl in Hhd. congruence.
Qed.

Lemma NoDup_fst_numbered {A} (l : list A) : NoDup (map fst (numbered l)).
Proof.
  apply NoDup_alt. intros i j x. rewrite !list_lookup_fmap. unfold numbered. rewrite !list_lookup_imap.
  destruct (l !! i), (l !! j); simpl; intros; by simplify_eq.
Qed.

Context (opts : Options) (Hmin : groupMin = group_minimum opts).

(** A permission that [generalize] puts out was kept, or is the wildcard of a group that may be merged. *)
Lemma generalize_elem q :
  q ∈ (generalize a kept observed opts).1 -> q ∈ kept ∨ ∃ g, may_merge a groupMin g = true ∧ q = merged g.
Proof using Hmin.
  unfold generalize. destruct (fold_left _ _ _) as [order groups]. rewrite <- Hmin. simpl.
  rewrite list_elem_of_omap. intros ([i p] & Hp%elem_of_numbered & Hq). unfold rewritten in Hq. simpl in Hq.
  destruct (merge_groups_ok (omap (λ k, groups !! k) order)) as [_ Hr _].
  case_bool_decide; [done|]. injection Hq as <-. destruct (mg_replace _ !! i) as [q|] eqn:Hrep; simpl.
  - apply Hr in Hrep as (g & _ & ? & _ & ->). right. eauto.
  - left. by apply list_elem_of_lookup_2 in Hp.
Qed.

(** Whatever a kept permission matches is matched by what [generalize] puts out. *)
Lemma generalize_reaches action resource :
  nul_free kept -> reaches kept action resource = true -> reaches (generalize a kept observed opts).1 action resource = true.
Proof using Hmin.
  intros Hnul. rewrite !reaches_elem. intros (p & [j Hj]%list_elem_of_lookup & Hh). unfold generalize.
  assert (Hok : groups_ok (fold_left (add_group observed) (numbered kept) ([], ∅)).2).
  { apply add_group_ok; [|apply NoDup_fst_numbered|done|done]. intros [i x]. apply elem_of_numbered. }
  destruct (fold_left _ _ _) as [order groups]. rewrite <- Hmin. simpl in *.
  set (gs := omap (λ k, groups !! k) order).
  assert (Hgs : ∀ g, g ∈ gs -> ∃ k, groups !! k = Some g ∧ group_ok k g).
  { intros g (k & _ & Hk)%list_elem_of_omap. eauto. }
  destruct (merge_groups_ok gs) as [Hd Hr Hhd]. set (m := fold_left _ gs _) in *.
  assert (Hsame : ∀ g g' i, g ∈ gs -> g' ∈ gs -> i ∈ gr_indexes g -> i ∈ gr_indexes g' -> g = g').
  { intros g g' i (k & Hk & Hg)%Hgs (k' & Hk' & Hg')%Hgs Hi Hi'.
    destruct (gk_members _ _ Hg i Hi) as (x & Hx & _ & Hkx). destruct (gk_members _ _ Hg' i Hi') as (y & Hy & _ & Hky). congruence. }
  assert (Hout : ∀ g i, g ∈ gs -> may_merge a groupMin g = true -> head (gr_indexes g) = Some i ->
    ∃ q, q ∈ omap (rewritten m) (numbered kept) ∧ q = merged g).
  { intros g i Hg Hm Hi. exists (merged g). split; [|done]. assert (Hin : i ∈ gr_indexes g) by (by apply head_Some_elem_of).
    destruct (Hgs g Hg) as (k & _ & Hgo). destruct (gk_members _ _ Hgo i Hin) as (x & Hx & _ & _).
    apply list_elem_of_omap. exists (i, x). split; [by apply elem_of_numbered|]. unfold rewritten. simpl.
    rewrite bool_decide_false.
    2:{ intros (g' & Hg' & _ & Htl)%Hd. assert (g' = g) as -> by (eapply Hsame; [done|done| |exact Hin]; destruct (gr_indexes g'); [done|set_solver]).
        pose proof (gk_nodup _ _ Hgo) as Hnd. destruct (gr_indexes g); [done|]. simpl in *. simplify_eq. by apply NoDup_cons in Hnd as [? _]. }
    destruct (Hhd g i Hg Hm Hi) as [q Hq]. rewrite Hq. simpl. apply Hr in Hq as (g' & Hg' & _ & Hi' & ->).
    f_equal. f_equal. eapply Hsame; [done|done|by apply head_Some_elem_of|done]. }
  destruct (decide (j ∈ mg_drop m)) as [Hdrop|Hkeep].
  - destruct (Hd j Hdrop) as (g & Hg & Hm & Htl). destruct (gr_indexes g) as [|i rest] eqn:Hix; [by apply not_elem_of_nil in Htl|].
    destruct (Hout g i Hg Hm) as (q & Hq & ->); [by rewrite Hix|]. exists (merged g). split; [done|].
    destruct (Hgs g Hg) as (k & _ & Hgo). eapply member_hits; [done|exact Hgo| |exact Hj|exact Hh]. rewrite Hix. simpl in Htl. set_solver.
  - exists (default p (mg_replace m !! j)). split.
    + apply list_elem_of_omap. exists (j, p). split; [by apply elem_of_numbered|]. unfold rewritten. by rewrite bool_decide_false.
    + destruct (mg_replace m !! j) as [q|] eqn:Hq; [|done]. simpl. apply Hr in Hq as (g & Hg & _ & Hhead & ->).
      destruct (Hgs g Hg) as (k & _ & Hgo). eapply member_hits; [done|exact Hgo|by apply head_Some_elem_of|exact Hj|exact Hh].
Qed.
End Generalize.

Section Suggestions.
Context `{ShrinkLib}.

Lemma elem_of_used u i g s :
  ua_grants u !! i = Some g -> ua_used u !! i = Some s ->
  ∃ x, x ∈ an_used (Finish u) ∧ up_permission x = g_permission g ∧ up_count x = us_count s.
Proof.
  intros Hg Hs. eexists (mkUsed _ _ _ _ _). split; [|split; reflexivity]. simpl. apply list_elem_of_omap.
  exists (g_permission g, Used s). split; [|reflexivity]. apply list_elem_of_lookup. exists i.
  rewrite list_lookup_imap, Hg. simpl. unfold usage_of. by rewrite Hs.
Qed.

Lemma used_counts_pos a k :
  (∀ x, x ∈ an_used a -> 0 < up_count x) -> (∃ x, x ∈ an_used a ∧ atomKey (up_permission x) = k) ->
  0 < default 0 (used_counts a !! k).
Proof.
  unfold used_counts. intros Hpos. induction (an_used a) as [|x l IH] using rev_ind; [by intros (? & ?%not_elem_of_nil & _)|].
  rewrite fold_left_app. simpl. destruct (decide (atomKey (up_permission x) = k)) as [<-|Hne].
  - intros _. rewrite lookup_insert_eq. simpl. apply Hpos. set_solver.
  - rewrite lookup_insert_ne by done. intros (y & [Hy| ->%list_elem_of_singleton]%elem_of_app & Hk); [|done]. apply IH; [set_solver|eauto].
Qed.

Lemma Finish_used_pos grants rows u : counted grants rows u -> ∀ x, x ∈ an_used (Finish u) -> 0 < up_count x.
Proof.
  intros Hc x. simpl. rewrite list_elem_of_omap. intros ([p v] & Hin & Hx). apply list_elem_of_lookup in Hin as [i Hi].
  rewrite list_lookup_imap in Hi. destruct (ua_grants u !! i); simpl in Hi; [|done]. simplify_eq. unfold usage_of in Hx. simpl in Hx.
  destruct (ua_used u !! i) as [s|] eqn:Hs; [|by case_bool_decide]. simplify_eq. simpl. by eapply ct_used_pos.
Qed.

(** The permissions kept before anything is merged. *)
Definition kept_before (a : UsageAnalysis) (opts : Options) : list Permission :=
  List.filter (fun p => (Z.max 1 (op_min_observations opts) <=? default 0 (used_counts a !! atomKey p))
                        || bool_decide (atomKey p ∈ (list_to_set (map atomKey (an_attempted a)) : gset string))) (Granted a).

Lemma keep_cases a opts :
  ∃ observed, sg_keep (SuggestShrink a opts)
    = if op_generalize opts then (generalize a (kept_before a opts) observed opts).1 else kept_before a opts.
Proof.
  exists (list_to_set (map atomKey (List.filter (fun p => Z.max 1 (op_min_observations opts) <=? default 0 (used_counts a !! atomKey p)) (Granted a)))).
  unfold SuggestShrink. fold (kept_before a opts). destruct (op_generalize opts); [|done]. by destruct (generalize _ _ _ _).
Qed.

Lemma kept_before_granted a opts p : p ∈ kept_before a opts -> p ∈ Granted a.
Proof. intros [? _]%list_elem_of_In%filter_In. by apply list_elem_of_In. Qed.

(** With a threshold of one, an allowed row that a grant matches is matched by what is kept. *)
Lemma kept_before_reaches agent grants since until rows opts r :
  let a := Finish (analysed agent grants since until rows) in
  op_min_observations opts <= 1 -> r ∈ rows -> allowed_row r = true -> reached_by (Granted a) r = true ->
  reached_by (kept_before a opts) r = true.
Proof.
  intros a Hmin Hr Hal Hre. pose proof (analysed_counted agent grants since until rows) as Hc.
  assert (Hgr : Granted a = map g_permission grants) by (unfold Granted; simpl; by rewrite (ct_grants _ _ _ Hc)).
  rewrite Hgr, reached_by_first in Hre. destruct (firstMatch _ _ _) as [i|] eqn:Hf; [|done].
  destruct (firstMatch_lookup _ _ _ _ Hf) as (p & Hp & Hh). apply reaches_elem. exists p. split; [|done].
  apply list_elem_of_In, filter_In. split; [apply list_elem_of_In; rewrite Hgr; by apply list_elem_of_lookup_2 in Hp|].
  apply orb_true_iff. left. apply Z.leb_le. rewrite Z.max_l by lia.
  apply list_lookup_fmap_Some in Hp as (g & Hp & Hg).
  assert (Hcnt : 0 < tally (fun r => allowed_row r && at_index (map g_permission grants) i r) rows).
  { unfold tally. destruct (List.filter _ rows) as [|x l] eqn:Hl; [|simpl; lia]. exfalso.
    assert (Hin : In r (List.filter (fun r => allowed_row r && at_index (map g_permission grants) i r) rows)).
    { apply filter_In. split; [by apply list_elem_of_In|]. rewrite Hal. unfold at_index. by rewrite Hf, bool_decide_true. }
    by rewrite Hl in Hin. }
  rewrite <- (ct_used _ _ _ Hc i) in Hcnt. destruct (ua_used _ !! i) as [s|] eqn:Hs; [|done].
  destruct (elem_of_used (analysed agent grants since until rows) i g s) as (x & Hx & Hxp & _); [by rewrite (ct_grants _ _ _ Hc)|done|].
  assert (0 < default 0 (used_counts a !! atomKey p)); [|lia]. apply used_counts_pos; [by eapply Finish_used_pos|].
  exists x. split; [done|]. by rewrite Hxp, Hp.
Qed.

(** A proposal never reaches further than the grants, as long as no grant uses the escapes of patterns. *)
Theorem suggestion_not_broader a opts action resource :
  Forall (fun p => unescaped (pm_action p) ∧ unescaped (pm_resource p)) (Granted a) ->
  reaches (sg_keep (SuggestShrink a opts)) action resource = true -> reaches (Granted a) action resource = true.
Proof.
  intros Hesc. rewrite !reaches_elem. intros (q & Hq & Hh). destruct (keep_cases a opts) as [obs Hk]. rewrite Hk in Hq.
  assert (Hcase : q ∈ kept_before a opts ∨ ∃ g, may_merge a (group_minimum opts) g = true ∧ q = merged g).
  { destruct (op_generalize opts); [by eapply generalize_elem|by left]. }
  destruct Hcase as [Hin%kept_before_granted|(g & Hm & ->)]; [by eauto|].
  unfold may_merge in Hm. apply andb_prop in Hm as [[_ Hcov]%andb_prop _].
  apply existsb_true_iff in Hcov as (p & Hp & Hcov). exists p. split; [done|].
  rewrite Forall_forall in Hesc. destruct (Hesc p Hp). by eapply Covers_sound.
Qed.

(** What is kept reaches every allowed row that the grants reach, merged or not. *)
Lemma keep_reaches agent grants since until rows opts r :
  let a := Finish (analysed agent grants since until rows) in
  op_min_observations opts <= 1 -> nul_free (Granted a) -> r ∈ rows -> allowed_row r = true ->
  reached_by (Granted a) r = true -> reached_by (sg_keep (SuggestShrink a opts)) r = true.
Proof.
  intros a Hmin Hnul Hr Hal Hre. pose proof (kept_before_reaches agent grants since until rows opts r Hmin Hr Hal Hre) as Hkb. fold a in Hkb.
  destruct (keep_cases a opts) as [obs ->]. destruct (op_generalize opts); [|done]. unfold reached_by in *.
  apply (generalize_reaches a (kept_before a opts) obs _ opts eq_refl); [|done].
  apply Forall_forall. intros p Hp%kept_before_granted. by apply (proj1 (Forall_forall _ _) Hnul).
Qed.

(** Below the cap on distinct denials, what is kept reaches a row refused for lack of a grant only if the grants do. *)
Lemma keep_opens_nothing agent grants since until rows opts r :
  let a := Finish (analysed agent grants since until rows) in
  (length (an_denied a) < DistinctCap)%nat -> r ∈ rows -> no_grant_row r = true ->
  reached_by (sg_keep (SuggestShrink a opts)) r = true -> reached_by (Granted a) r = true.
Proof.
  intros a Hcap Hr Hng. pose proof (analysed_counted agent grants since until rows) as Hc.
  unfold reached_by. rewrite !reaches_elem. intros (q & Hq & Hh). destruct (keep_cases a opts) as [obs Hk]. rewrite Hk in Hq.
  assert (Hcase : q ∈ kept_before a opts ∨ ∃ g, may_merge a (group_minimum opts) g = true ∧ q = merged g).
  { destruct (op_generalize opts); [by eapply generalize_elem|by left]. }
  destruct Hcase as [Hin%kept_before_granted|(g & Hm & ->)]; [by eauto|]. exfalso.
  unfold may_merge in Hm. apply andb_prop in Hm as [_ Hm%negb_true_iff].
  assert (Hden : (row_action r, row_resource r) ∈ an_denied a).
  { simpl. apply elem_of_sort_by, elem_of_elements. apply (ct_denied_all _ _ _ Hc); [|done|done].
    simpl in Hcap. rewrite sort_by_length in Hcap. exact Hcap. }
  pose proof (proj1 (existsb_false_iff _ _) Hm _ Hden) as Hd. simpl in Hd. unfold hits in Hh. simpl in Hh. congruence.
Qed.

(** C4. Replaying the rows that were analysed, with the threshold at its default of one call. Call by call: every
    allowed call that the grants still reach is reached by the proposal, whether or not siblings are merged
    into wildcards, and every call refused for lack of a grant that the proposal reaches is reached by the
    grants too. In the counts of the report: the calls newly denied are at most those that no grant reached
    in the analysis, and the calls that would now be allowed are at most those that today's grants allow.
    Side conditions: the granted actions and resources hold no NUL byte (the package joins its keys with it),
    and for the refused calls the analysis saw fewer than DistinctCap (5000) distinct denials, beyond
    which it stops recording them. *)
Theorem suggestion_replays_clean agent grants since until rows opts maxExamples :
  let a := Finish (analysed agent grants since until rows) in
  let keep := sg_keep (SuggestShrink a opts) in
  let proposal := VerifyShrink rows keep maxExamples in
  let today := VerifyShrink rows (Granted a) maxExamples in
  op_min_observations opts <= 1 -> nul_free (Granted a) -> (length (an_denied a) < DistinctCap)%nat ->
  (∀ r, r ∈ rows -> allowed_row r = true -> reached_by (Granted a) r = true -> reached_by keep r = true)
  ∧ (∀ r, r ∈ rows -> no_grant_row r = true -> reached_by keep r = true -> reached_by (Granted a) r = true)
  ∧ br_replayed proposal = ev_allowed (an_evidence a)
  ∧ br_newly_count proposal <= ev_uncovered (an_evidence a) ∧ ev_uncovered (an_evidence a) = br_newly_count today
  ∧ br_would_count proposal <= br_would_count today.
Proof.
  intros a keep proposal today Hmin Hnul Hcap. pose proof (analysed_counted agent grants since until rows) as Hc.
  assert (Hgr : Granted a = map g_permission grants) by (unfold Granted; simpl; by rewrite (ct_grants _ _ _ Hc)).
  pose proof (fun r => keep_reaches agent grants since until rows opts r Hmin Hnul) as Hkeep.
  pose proof (fun r => keep_opens_nothing agent grants since until rows opts r Hcap) as Hopen. fold a in Hkeep, Hopen.
  destruct (VerifyShrink_exact rows keep maxExamples) as [Hall _ Hnew _ Hwd _ _ _ _].
  destruct (VerifyShrink_exact rows (Granted a) maxExamples) as [_ _ Hnew' _ Hwd' _ _ _ _].
  unfold proposal, today. rewrite Hall, Hnew, Hwd, Hnew', Hwd'. change (an_evidence a) with (ua_ev (analysed agent grants since until rows)).
  rewrite (ct_allowed _ _ _ Hc), (ct_uncovered _ _ _ Hc), <- Hgr. split_and!; [done|done|done| |done|].
  - apply tally_le. intros r Hr [Hal Hno]%andb_prop. unfold flipped. rewrite Hal. simpl. destruct (reached_by (Granted a) r) eqn:Hre; [|done].
    unfold keep in Hno. by rewrite (Hkeep r Hr Hal Hre) in Hno.
  - apply tally_le. intros r Hr [Hng Hre]%andb_prop. unfold opened. rewrite Hng. simpl. by apply Hopen.
Qed.
End Suggestions.
