(* ===== verification/ShrinkSources.v ===== *)
(** * Where rows and grants come from ([policy/shrink/source.go], [adapters.go])

    Rows are read in pages from a source ([walk]): the in-memory source, and the adapter of the audit store.
    Grants are the allow statements of policies, split to single actions, and active delegations;
    [Statements] compacts them again. A cancelled context is an argument of [walk], the stores are arguments
    of the adapters. The last part joins the analysis with the policy engine. *)

From Stdlib Require Import ZArith Lia String Ascii Sorting.Sorted DecimalString.
From stdpp Require Import base gmap strings list sorting.
From S2P Require Import Prelude Glob PolicyDoc PolicyEval PolicyTaint Canonical GoJSON TokenGrants Delegation Shrink.

Set Default Goal Selector "!".
Open Scope string_scope.
Open Scope list_scope.
Open Scope Z_scope.

(** ** Rows in pages ([source.go]) *)

Definition DefaultPageSize : Z := 1000.

Record RowQuery := mkQuery { q_agent : string; q_since : Z; q_until : Z; q_after : string; q_limit : Z }.

(** What reading rows can fail with. *)
Inductive rows_error := ErrCancelled (e : string) | ErrRows (e : string) | ErrCursorStuck.

(** A [RowSource] answers a page and the next cursor. *)
Definition RowSource : Type := RowQuery -> result string (list DecisionRow * string).

Definition pageSize (n : Z) : Z := if n <=? 0 then DefaultPageSize else n.

Definition with_after (q : RowQuery) (cursor : string) : RowQuery :=
  mkQuery (q_agent q) (q_since q) (q_until q) cursor (q_limit q).

Definition with_limit (q : RowQuery) (n : Z) : RowQuery := mkQuery (q_agent q) (q_since q) (q_until q) (q_after q) n.

(** The loop of [walk], with the state that [fn] changes. [ctx n] is what the context answers before page
    [n], counted down; [None] is a loop that is still running. *)
Fixpoint walk_loop {S : Type} (ctx : nat -> option string) (src : RowSource) (fn : S -> DecisionRow -> S)
  (fuel : nat) (q : RowQuery) (st : S) : option (S * option rows_error) :=
  match fuel with
  | O => None
  | Datatypes.S fuel =>
      match ctx fuel with
      | Some e => Some (st, Some (ErrCancelled e))
      | None =>
          match src q with
          | Err e => Some (st, Some (ErrRows e))
          | Ok (rows, next) =>
              let st := fold_left fn rows st in
              if (next =? "")%string then Some (st, None)
              else if (next =? q_after q)%string then Some (st, Some ErrCursorStuck)
              else walk_loop ctx src fn fuel (with_after q next) st
          end
      end
  end.

Definition walk {S : Type} (ctx : nat -> option string) (src : RowSource) (fuel : nat) (q : RowQuery) (size : Z)
  (fn : S -> DecisionRow -> S) (st : S) : option (S * option rows_error) :=
  walk_loop ctx src fn fuel (with_limit q (pageSize size)) st.

(** *** The in-memory source *)

Definition row_before (a b : DecisionRow) : bool :=
  if row_time a =? row_time b then String.ltb (row_id a) (row_id b) else Before (row_time a) (row_time b).

Definition row_after (r : DecisionRow) (ts : Z) (id : string) : bool :=
  if row_time r =? ts then String.ltb id (row_id r) else After (row_time r) ts.

(** [t.UnixNano()] wraps outside of the years 1678 to 2262. *)
Definition UnixNano (t : Z) : Z := wrap64 (t - unix_epoch).

Definition encodeCursor (ts : Z) (id : string) : string := FormatInt (UnixNano ts) +:+ ":" +:+ id.

(** [strings.Cut(s, ":")] *)
Fixpoint cut_colon (s : string) : option (string * string) :=
  match s with
  | "" => None
  | String c s => if (c =? ":")%char then Some ("", s)
                  else match cut_colon s with Some (a, b) => Some (String c a, b) | None => None end
  end.

Definition decodeCursor (s : string) : result string (Z * string) :=
  match cut_colon s with
  | None => Err "shrink: malformed row cursor"
  | Some (n, id) => match ParseInt n with
                    | None => Err "shrink: malformed row cursor"
                    | Some ns => Ok (unix_epoch + ns, id)
                    end
  end.

Definition in_window (q : RowQuery) (r : DecisionRow) : bool :=
  negb (negb (IsZero (q_since q)) && Before (row_time r) (q_since q))
  && negb (negb (IsZero (q_until q)) && After (row_time r) (q_until q)).

(** [MemoryRows.Rows] *)
Definition MemoryRows (m : list DecisionRow) (q : RowQuery) : result string (list DecisionRow * string) :=
  let sorted := sort_by row_before m in
  let limit := Z.to_nat (pageSize (q_limit q)) in
  let page past :=
    let out := firstn limit (List.filter (fun r => in_window q r && past r) sorted) in
    if (length out <? limit)%nat then Ok (out, "")
    else match last out with
         | Some r => Ok (out, encodeCursor (row_time r) (row_id r))
         | None => Ok (out, "")
         end in
  if (q_after q =? "")%string then page (fun _ => true)
  else match decodeCursor (q_after q) with
       | Err e => Err e
       | Ok (ts, id) => page (fun r => row_after r ts id)
       end.

(** ** Adapters ([adapters.go]) *)

Definition DecisionAction := "agent.authorize".
Definition MetaAction := "action".
Definition MetaResource := "resource".
Definition MetaResult := "result".
Definition MetaReason := "reason".

(** A value of the metadata: a string, or something else. *)
Inductive any_value := AnyString (s : string) | AnyOther.

(** The fields of an audit event that the adapters use. *)
Record AuditEvent := mkEvent {
  e_id : string; e_action : string; e_target_type : string; e_target_id : string; e_actor : string;
  e_chain : list string; e_created_at : Z; e_metadata : gmap string any_value;
}.

Definition DecisionEvent (id agentID action resource res reason : string) (at_ : Z) (chain : list string) : AuditEvent :=
  mkEvent id DecisionAction "resource" resource agentID chain at_
    (<[MetaAction := AnyString action]> (<[MetaResource := AnyString resource]>
      (<[MetaResult := AnyString res]> {[MetaReason := AnyString reason]}))).

Definition ResultOf (d : Decision) : string :=
  if (d_effect d =? Allow)%string then ResultAllowed
  else if (d_effect d =? Escalate)%string then ResultEscalated
  else ResultDenied.

Definition meta_string (e : AuditEvent) (k : string) : string :=
  match e_metadata e !! k with Some (AnyString s) => s | _ => "" end.

Definition rowFromEvent (e : AuditEvent) : DecisionRow :=
  let resource := meta_string e MetaResource in
  mkRow (e_id e) (meta_string e MetaAction) (if (resource =? "")%string then e_target_id e else resource)
    (meta_string e MetaResult) (meta_string e MetaReason) (e_created_at e) (e_chain e).

Record AuditQuery := mkAuditQuery {
  aq_action : string; aq_after : string; aq_limit : Z; aq_since : option Z; aq_until : option Z;
}.

Definition set_time (t : Z) : option Z := if IsZero t then None else Some t.

(** [AuditRows.Rows], over the audit store. *)
Definition AuditRows (query : AuditQuery -> result string (list AuditEvent * string)) (q : RowQuery)
  : result string (list DecisionRow * string) :=
  match query (mkAuditQuery DecisionAction (q_after q) (Z.min (pageSize (q_limit q)) 200) (set_time (q_since q)) (set_time (q_until q))) with
  | Err e => Err ("query audit events: " +:+ e)
  | Ok (events, next) => Ok (map rowFromEvent (List.filter (fun e => (e_actor e =? q_agent q)%string) events), next)
  end.

(** Appending the grants whose key is new. *)
Definition add_grant (acc : list Grant * gset string) (g : Grant) : list Grant * gset string :=
  let k := atomKey (g_permission g) in
  if bool_decide (k ∈ acc.2) then acc else (acc.1 ++ [g], {[k]} ∪ acc.2).

(** The grants of one statement, in the order of the loops. *)
Definition statement_grants (pid : string) (is_ : nat * Statement) : list Grant :=
  let '(i, st) := is_ in
  if negb (stmt_effect st =? Allow)%string then []
  else
    let id := if (stmt_id st =? "")%string then "statement-" +:+ FormatInt (Z.of_nat i) else stmt_id st in
    mjoin (map (fun res => map (fun act => mkGrant (mkPerm act res (stmt_conditions st)) (mkOrigin SourceOwn pid id "")) (stmt_actions st))
             (stmt_resources st)).

Definition policy_grants (p : option Policy) : list Grant :=
  match p with
  | None => []
  | Some p => mjoin (map (statement_grants (pol_id p)) (numbered (pol_statements p)))
  end.

Definition PolicyGrants (pols : list (option Policy)) : list Grant :=
  (fold_left add_grant (mjoin (map policy_grants pols)) ([], ∅)).1.

(** A revocation or expiry that has come. *)
Definition reached (at_ : option Z) (now : Z) : bool := match at_ with Some t => negb (After t now) | None => false end.

Definition DelegationGrants (grants : list DelegationGrant) (now : Z) : list Grant :=
  mjoin (map (fun g =>
    if reached (dg_revoked_at g) now || reached (dg_expires_at g) now then []
    else map (fun scope => mkGrant (mkPerm scope (dg_resource g) []) (mkOrigin SourceDelegation "" "" (dg_id g))) (dg_scope g))
    grants).

Section Sources.
Context `{ShrinkLib}.

(** [StorageGrants.Grants]: both sources may be absent. *)
Definition StorageGrants (policies : option (string -> result string (list (option Policy))))
  (delegations : option (string -> result string (list DelegationGrant))) (agentID : string) (now : Z) : result string (list Grant) :=
  let? own := match policies with
              | None => Ok []
              | Some load => match load agentID with
                             | Err e => Err ("load policies for agent " +:+ agentID +:+ ": " +:+ e)
                             | Ok pols => Ok (PolicyGrants pols)
                             end
              end in
  let acc := fold_left add_grant own ([], ∅) in
  match delegations with
  | None => Ok acc.1
  | Some read =>
      match ParseStrict agentID with
      | None => Err ("parse agent id " +:+ agentID)
      | Some id =>
          match read id with
          | Err e => Err ("load delegation grants for agent " +:+ agentID +:+ ": " +:+ e)
          | Ok grants => Ok (fold_left add_grant (DelegationGrants grants now) acc).1
          end
      end
  end.

(** [AnalyzeUsage] and [PreviewPolicyChange]; the outer option is the loop that is still running. *)
Definition AnalyzeUsage (ctx : nat -> option string) (grants : string -> Z -> result string (list Grant)) (rows : RowSource)
  (fuel : nat) (agentID : string) (now since until : Z) (size : Z) : option (result rows_error UsageAnalysis) :=
  match grants agentID now with
  | Err e => Some (Err (ErrRows e))
  | Ok gs =>
      match walk ctx rows fuel (mkQuery agentID since until "" 0) size Add (NewUsageAccumulator agentID gs since until) with
      | None => None
      | Some (_, Some e) => Some (Err e)
      | Some (acc, None) => Some (Ok (Finish acc))
      end
  end.

Record Preview := mkPreview { pv_blast : BlastRadius; pv_agent : string; pv_since : Z; pv_until : Z; pv_scanned : Z }.

Definition PreviewPolicyChange (ctx : nat -> option string) (rows : RowSource) (fuel : nat) (agentID : string)
  (proposed : list Permission) (maxExamples since until size : Z) : option (result rows_error Preview) :=
  match walk ctx rows fuel (mkQuery agentID since until "" 0) size
          (fun st row => (replay_Add st.1 row, st.2 + 1)) (NewReplay proposed maxExamples, 0) with
  | None => None
  | Some (_, Some e) => Some (Err e)
  | Some ((r, scanned), None) => Some (Ok (mkPreview (rp_report r) agentID since until scanned))
  end.
End Sources.

(** ** Paging through the in-memory rows *)

Lemma row_after_before r x : row_after r (row_time x) (row_id x) = row_before x r.
Proof.
  unfold row_after, row_before, After, Before. by destruct (Z.eqb_spec (row_time r) (row_time x)), (Z.eqb_spec (row_time x) (row_time r)).
Qed.

Lemma row_before_asym x y : row_before x y = true -> row_before y x = false.
Proof.
  unfold row_before, Before. destruct (Z.eqb_spec (row_time x) (row_time y)) as [->|Hne].
  - rewrite Z.eqb_refl. apply string_ltb_asym.
  - rewrite (proj2 (Z.eqb_neq _ _)) by congruence. rewrite Z.ltb_lt, Z.ltb_ge. lia.
Qed.

Lemma row_not_before_trans x y z : row_before y x = false -> row_before z y = false -> row_before z x = false.
Proof.
  unfold row_before, Before.
  destruct (Z.eqb_spec (row_time y) (row_time x)), (Z.eqb_spec (row_time z) (row_time y)), (Z.eqb_spec (row_time z) (row_time x));
    rewrite ?Z.ltb_ge; try lia; try (intros; congruence). apply string_not_ltb_trans.
Qed.

Definition row_key (r : DecisionRow) : Z * string := (row_time r, row_id r).

Lemma row_before_total x y : row_before x y = false -> row_before y x = false -> row_key x = row_key y.
Proof.
  unfold row_before, Before, row_key. destruct (Z.eqb_spec (row_time x) (row_time y)) as [->|Hne].
  - rewrite Z.eqb_refl. intros H1 H2. f_equal. by apply string_ltb_total.
  - rewrite (proj2 (Z.eqb_neq _ _)) by congruence. rewrite !Z.ltb_ge. lia.
Qed.

Definition before_rel (x y : DecisionRow) : Prop := row_before x y = true.

Lemma sorted_strict l : NoDup (map row_key l) -> StronglySorted (not_after row_before) l -> StronglySorted before_rel l.
Proof.
  induction 2 as [|x l Hs IH Hx]; [constructor|]. simpl in *. apply NoDup_cons in H as [Hni Hnd]. constructor; [auto|].
  rewrite Forall_forall in *. intros y Hy. unfold before_rel. destruct (row_before x y) eqn:E; [done|]. exfalso. apply Hni.
  rewrite (row_before_total x y E (Hx y Hy)). by apply list_elem_of_fmap_2.
Qed.

Lemma sorted_filter (f : DecisionRow -> bool) l : StronglySorted before_rel l -> StronglySorted before_rel (List.filter f l).
Proof.
  induction 1 as [|x l Hs IH Hx]; simpl; [constructor|]. destruct (f x); [|done]. constructor; [done|].
  rewrite Forall_forall in *. intros y [Hy _]%list_elem_of_In%filter_In. by apply Hx, list_elem_of_In.
Qed.

(** In a strictly sorted list, the rows after an element are the rows behind it. *)
Lemma filter_after l1 x l2 : StronglySorted before_rel (l1 ++ x :: l2) -> List.filter (row_before x) (l1 ++ x :: l2) = l2.
Proof.
  intros Hs. rewrite List.filter_app. simpl.
  assert (Hirr : row_before x x = false) by (destruct (row_before x x) eqn:E; [by rewrite (row_before_asym _ _ E) in E|done]).
  rewrite Hirr. assert (H1 : List.filter (row_before x) l1 = []).
  { apply filter_none. intros y Hy%list_elem_of_In. apply row_before_asym. apply (StronglySorted_app_1_elem_of before_rel l1 (x :: l2) y x); [done|done|set_solver]. }
  rewrite H1. simpl. apply StronglySorted_app_1_r in Hs. apply StronglySorted_inv in Hs as [_ Hx].
  clear -Hx. induction Hx as [|y l Hy Hl IH]; simpl; [done|]. unfold before_rel in Hy. rewrite Hy. by rewrite IH.
Qed.

(** *** Cursors *)

Definition stamped (r : DecisionRow) : Prop := unix_epoch < row_time r <= unix_epoch + max_int64.

Lemma cut_colon_digits s rest : forallb int_char (list_ascii_of_string s) = true -> cut_colon (s +:+ ":" +:+ rest) = Some (s, rest).
Proof.
  induction s as [|c s IH]; simpl; [done|]. intros [Hc Hs]%andb_prop. destruct (Ascii.eqb_spec c ":") as [->|_]; [by vm_compute in Hc|].
  by rewrite IH.
Qed.

Lemma decode_encode_cursor r : stamped r -> decodeCursor (encodeCursor (row_time r) (row_id r)) = Ok (row_time r, row_id r).
Proof.
  intros [H1 H2]. unfold decodeCursor, encodeCursor, UnixNano. rewrite wrap64_small.
  2:{ unfold in_int64, min_int64. unfold max_int64 in *. lia. }
  rewrite cut_colon_digits by apply FormatInt_chars. rewrite ParseInt_FormatInt by lia. do 2 f_equal. lia.
Qed.

Lemma encodeCursor_nonempty ts id : encodeCursor ts id ≠ "".
Proof. unfold encodeCursor. by destruct (FormatInt _). Qed.

(** *** The walk *)

Section Walk.
Context (m : list DecisionRow) {S : Type} (fn : S -> DecisionRow -> S).
Context (Hkeys : NoDup (map row_key m)) (Hstamped : Forall stamped m).

(** The rows of the window in order. *)
Definition window (q : RowQuery) : list DecisionRow := List.filter (in_window q) (sort_by row_before m).

Lemma window_sorted q : StronglySorted before_rel (window q).
Proof using Hkeys.
  apply sorted_filter, sorted_strict; [by rewrite (Permutation_map row_key (sort_by_perm row_before m))|].
  apply sort_by_sorted; [apply row_before_asym|apply row_not_before_trans].
Qed.

Lemma window_stamped q r : r ∈ window q -> stamped r.
Proof using Hstamped.
  intros [Hr%list_elem_of_In _]%list_elem_of_In%filter_In. rewrite elem_of_sort_by in Hr. by apply (proj1 (Forall_forall _ _) Hstamped).
Qed.

(** Where a query stands: [seen] has been read. *)
Definition at_cursor (q : RowQuery) (seen : list DecisionRow) : Prop :=
  match last seen with
  | None => q_after q = ""
  | Some x => q_after q = encodeCursor (row_time x) (row_id x)
  end.

Definition page_of (limit : nat) (rest : list DecisionRow) : list DecisionRow * string :=
  let out := firstn limit rest in
  (out, if (length out <? limit)%nat then "" else match last out with Some r => encodeCursor (row_time r) (row_id r) | None => "" end).

Lemma filter_filter (f g : DecisionRow -> bool) l : List.filter (fun r => f r && g r) l = List.filter g (List.filter f l).
Proof. induction l as [|x l IH]; simpl; [done|]. destruct (f x); simpl; [|done]. destruct (g x); by rewrite IH. Qed.

Lemma filter_every (l : list DecisionRow) : List.filter (fun _ => true) l = l.
Proof. induction l as [|x l IH]; simpl; [done|]. by rewrite IH. Qed.

Lemma MemoryRows_page q seen rest :
  window q = seen ++ rest -> at_cursor q seen -> MemoryRows m q = Ok (page_of (Z.to_nat (pageSize (q_limit q))) rest).
Proof using Hkeys Hstamped.
  intros Hw Hat. unfold MemoryRows, page_of. unfold at_cursor in Hat. destruct (last seen) as [x|] eqn:Hlast.
  - apply last_Some in Hlast as [seen' ->]. rewrite Hat, (proj2 (String.eqb_neq _ _)) by apply encodeCursor_nonempty.
    rewrite decode_encode_cursor by (apply (window_stamped q); rewrite Hw; set_solver).
    rewrite filter_filter. fold (window q). rewrite Hw, <- app_assoc. simpl.
    rewrite (filter_ext _ (row_before x) (fun r => row_after_before r x)), filter_after.
    + by destruct (_ <? _)%nat; [|destruct (last _)].
    + pose proof (window_sorted q) as Hs. by rewrite Hw, <- app_assoc in Hs.
  - apply last_None in Hlast as ->. rewrite Hat. simpl. rewrite filter_filter. fold (window q). rewrite Hw.
    rewrite filter_every. simpl. by destruct (_ <? _)%nat; [|destruct (last _)].
Qed.

Lemma pageSize_pos n : 0 < pageSize n.
Proof. unfold pageSize, DefaultPageSize. destruct (Z.leb_spec n 0); lia. Qed.

Lemma walk_memory fuel q seen rest (st : S) :
  window q = seen ++ rest -> at_cursor q seen -> (length rest < fuel)%nat ->
  walk_loop (fun _ => None) (MemoryRows m) fn fuel q st = Some (fold_left fn rest st, None).
Proof using Hkeys Hstamped.
  revert q seen rest st. induction fuel as [|fuel IH]; intros q seen rest st Hw Hat Hf; [lia|]. simpl.
  rewrite (MemoryRows_page q seen rest Hw Hat). unfold page_of. pose proof (pageSize_pos (q_limit q)) as Hpos.
  set (limit := Z.to_nat _) in *. assert (0 < limit)%nat by lia.
  destruct (Nat.ltb_spec (length (firstn limit rest)) limit) as [Hlt|Hge].
  { simpl. rewrite length_firstn in Hlt. by rewrite firstn_all2 by lia. }
  destruct (last (firstn limit rest)) as [x|] eqn:Hx.
  2:{ apply last_None in Hx. rewrite Hx in Hge. simpl in Hge. lia. }
  rewrite (proj2 (String.eqb_neq _ _)) by apply encodeCursor_nonempty.
  assert (Hsplit : window q = (seen ++ firstn limit rest) ++ skipn limit rest) by (by rewrite <- app_assoc, firstn_skipn).
  assert (Hxin : x ∈ firstn limit rest) by (apply last_Some in Hx as [l ->]; set_solver).
  rewrite (proj2 (String.eqb_neq _ _)).
  2:{ intros Heq. unfold at_cursor in Hat. destruct (last seen) as [y|] eqn:Hy.
      2:{ rewrite Hat in Heq. by apply encodeCursor_nonempty in Heq. }
      assert (Hyin : y ∈ seen) by (apply last_Some in Hy as [l ->]; set_solver).
      assert (Hb : row_before y x = true).
      { pose proof (window_sorted q) as Hs. rewrite Hw in Hs. eapply (StronglySorted_app_1_elem_of before_rel); [exact Hs|done|].
        apply elem_of_take in Hxin as (i & Hi & _). by eapply list_elem_of_lookup_2. }
      rewrite Hat in Heq. apply (f_equal decodeCursor) in Heq.
      rewrite !decode_encode_cursor in Heq; [|apply (window_stamped q); rewrite Hsplit; set_solver..].
      injection Heq as Ht Hi. unfold row_before in Hb. rewrite Ht, Z.eqb_refl, Hi in Hb.
      assert (Hasym := string_ltb_asym _ _ Hb). congruence. }
  rewrite (IH _ (seen ++ firstn limit rest) (skipn limit rest)).
  - by rewrite <- fold_left_app, firstn_skipn.
  - exact Hsplit.
  - unfold at_cursor. rewrite last_app, Hx. done.
  - rewrite length_skipn. rewrite length_firstn in Hge. lia.
Qed.

(** Walking the in-memory rows ends and hands every row of the window to [fn] once, in the order of time and
    id, whatever the page size; rows that share a time are neither skipped nor repeated. *)
Theorem memory_rows_walked q size fuel (st : S) :
  q_after q = "" -> (length m < fuel)%nat ->
  walk (fun _ => None) (MemoryRows m) fuel q size fn st = Some (fold_left fn (window q) st, None).
Proof using Hkeys Hstamped.
  intros Hq Hf. unfold walk. apply (walk_memory _ _ [] (window q)); [done|done|].
  apply Nat.le_lt_trans with (length m); [|done]. unfold window.
  rewrite <- (sort_by_length row_before m). apply filter_length_le.
Qed.
End Walk.

(** The rows an analysis reads from memory: exactly the ones of the window. *)
Corollary AnalyzeUsage_memory `{ShrinkLib} m gs agentID now since until size fuel :
  NoDup (map row_key m) -> Forall stamped m -> (length m < fuel)%nat ->
  AnalyzeUsage (fun _ => None) (fun _ _ => Ok gs) (MemoryRows m) fuel agentID now since until size
  = Some (Ok (Finish (analysed agentID gs since until (window m (mkQuery agentID since until "" 0))))).
Proof.
  intros Hk Hs Hf. unfold AnalyzeUsage. by rewrite (memory_rows_walked m Add Hk Hs) by done.
Qed.

(** What [DecisionEvent] records is what [AuditRows] reads. *)
Lemma rowFromEvent_DecisionEvent id agent action resource res reason at_ chain :
  rowFromEvent (DecisionEvent id agent action resource res reason at_ chain) = mkRow id action resource res reason at_ chain.
Proof.
  set (e := DecisionEvent _ _ _ _ _ _ _ _).
  assert (Hm : meta_string e MetaAction = action ∧ meta_string e MetaResource = resource ∧ meta_string e MetaResult = res
    ∧ meta_string e MetaReason = reason) by (split_and!; reflexivity).
  destruct Hm as (Ha & Hr & Hs & Hn). unfold rowFromEvent. rewrite Ha, Hr, Hs, Hn. subst e. simpl.
  by destruct (String.eqb_spec resource ""); subst.
Qed.

(** ** Permissions and statements *)

(** *** The keys are injective *)

Lemma json_valid_inj s s' x y :
  valid_utf8 s -> valid_utf8 s' -> json_string s ++ x = json_string s' ++ y -> s = s' ∧ x = y.
Proof. intros Hs Hs' [Hr ->]%json_string_inj. split; [|done]. by apply valid_utf8_runes_inj. Qed.

Lemma cons_tail {A} (a b : A) l l' : a :: l = b :: l' -> l = l'.
Proof. congruence. Qed.

(** A list written with commas and a closing bracket. *)
Lemma json_rest_inj {A} (enc : A -> list ascii) (ok : A -> Prop) l l' x y :
  (∀ a b x y, ok a -> ok b -> enc a ++ x = enc b ++ y -> a = b ∧ x = y) -> Forall ok l -> Forall ok l' ->
  (concat (map (fun a => ","%char :: enc a) l) ++ ["]"%char]) ++ x = (concat (map (fun a => ","%char :: enc a) l') ++ ["]"%char]) ++ y ->
  l = l' ∧ x = y.
Proof.
  intros Henc Hl. revert l'. induction Hl as [|a l Ha Hl IH]; intros l' Hl' He; destruct Hl' as [|b l' Hb Hl']; cbn [map concat app] in He.
  - by injection He.
  - discriminate He.
  - discriminate He.
  - apply cons_tail in He. rewrite <- !app_assoc in He. apply Henc in He as [-> He]; [|done|done]. rewrite !app_assoc in He.
    by destruct (IH l' Hl' He) as [-> ->].
Qed.

(** Lists of encodings in brackets, null for an empty one. *)
Lemma json_list_inj {A} (enc : A -> list ascii) (ok : A -> Prop) (all : list A -> list ascii) l l' x y :
  (∀ a b x y, ok a -> ok b -> enc a ++ x = enc b ++ y -> a = b ∧ x = y) ->
  (∀ l, all l = match l with
                | [] => list_ascii_of_string "null"
                | a :: l => "["%char :: enc a ++ concat (map (fun a => ","%char :: enc a) l) ++ ["]"%char]
                end) ->
  Forall ok l -> Forall ok l' -> all l ++ x = all l' ++ y -> l = l' ∧ x = y.
Proof.
  intros Henc Hall Hl Hl'. rewrite !Hall. destruct Hl as [|a l Ha Hl], Hl' as [|b l' Hb Hl']; intros He.
  - by apply app_inv_head in He.
  - discriminate He.
  - discriminate He.
  - cbn [app] in He. apply cons_tail in He. rewrite <- !(app_assoc (enc _)) in He. apply Henc in He as [-> He]; [|done|done].
    by apply (json_rest_inj enc ok) in He as [-> ->].
Qed.

Lemma json_strings_inj vs vs' x y :
  Forall valid_utf8 vs -> Forall valid_utf8 vs' -> json_strings vs ++ x = json_strings vs' ++ y -> vs = vs' ∧ x = y.
Proof. apply (json_list_inj json_string valid_utf8); [intros; by apply json_valid_inj|by intros []]. Qed.

Definition valid_condition (c : Condition) : Prop := valid_utf8 (cond_op c) ∧ valid_utf8 (cond_key c) ∧ Forall valid_utf8 (cond_values c).

(** The members of a condition after its operator. *)
Lemma json_condition_inj c c' x y :
  valid_condition c -> valid_condition c' -> json_condition c ++ x = json_condition c' ++ y -> c = c' ∧ x = y.
Proof.
  intros (Ho & Hk & Hv) (Ho' & Hk' & Hv'). destruct c as [o k v], c' as [o' k' v']. cbn [cond_op cond_key cond_values] in *.
  unfold json_condition. cbn [cond_op cond_key cond_values]. rewrite <- !app_assoc. cbn [app].
  set (tail v x := json_string "values" ++ ":"%char :: json_strings v ++ "}"%char :: x).
  assert (Htail : ∀ x y, tail v x = tail v' y -> v = v' ∧ x = y).
  { intros x0 y0 H0. apply app_inv_head, cons_tail in H0. apply json_strings_inj in H0 as [-> H0]; [|done|done]. by apply cons_tail in H0. }
  intros He. do 2 apply app_inv_head in He. apply cons_tail in He. rewrite <- !app_assoc in He.
  apply json_valid_inj in He as [-> He]; [|done|done]. cbn [app] in He. apply cons_tail in He.
  repeat (rewrite <- app_assoc in He; cbn [app] in He). fold (tail v x) (tail v' y) in He.
  destruct (String.eqb_spec k "") as [->|Hne], (String.eqb_spec k' "") as [->|Hne']; cbn [app] in He.
  - by destruct (Htail x y He) as [-> ->].
  - exfalso. discriminate He.
  - exfalso. discriminate He.
  - repeat (rewrite <- app_assoc in He; cbn [app] in He). fold (tail v x) (tail v' y) in He.
    apply app_inv_head, cons_tail in He. apply json_valid_inj in He as [-> He]; [|done|done]. cbn [app] in He. apply cons_tail in He.
    by destruct (Htail x y He) as [-> ->].
Qed.

Lemma json_conditions_inj cs cs' :
  Forall valid_condition cs -> Forall valid_condition cs' -> json_conditions cs = json_conditions cs' -> cs = cs'.
Proof.
  intros Hc Hc' He. apply (json_list_inj json_condition valid_condition json_conditions cs cs' [] []); [apply json_condition_inj|by intros []|done|done|].
  by rewrite !app_nil_r.
Qed.

(** The texts of a permission that its keys can tell apart. *)
Definition keyed (p : Permission) : Prop := no_nul (pm_action p) ∧ no_nul (pm_resource p) ∧ Forall valid_condition (pm_conditions p).

Lemma extrasKey_inj p q : keyed p -> keyed q -> extrasKey p = extrasKey q -> pm_conditions p = pm_conditions q.
Proof.
  intros (_ & _ & Hp) (_ & _ & Hq) He. apply json_conditions_inj; [done|done|]. unfold extrasKey in He.
  rewrite <- (list_ascii_of_string_of_list_ascii (json_conditions (pm_conditions p))), He. apply list_ascii_of_string_of_list_ascii.
Qed.

Lemma atomKey_inj p q : keyed p -> keyed q -> atomKey p = atomKey q -> p = q.
Proof.
  intros Hp Hq He. pose proof Hp as (Ha & Hr & _). pose proof Hq as (Ha' & Hr' & _). unfold atomKey in He.
  apply nul_split in He as [H1 He]; [|done|done]. apply nul_split in He as [H2 He]; [|done|done].
  apply extrasKey_inj in He; [|done|done]. destruct p, q. simpl in *. congruence.
Qed.

(** *** Statements and their atoms *)

Section Engine.
Context `{GoLib}.

Definition atom_statement (p : Permission) : Statement :=
  mkStatement "" Allow [pm_action p] [pm_resource p] (pm_conditions p) "" "".

Definition resolves (req : Request) (pat : string) : bool :=
  let '(exp, ok) := expand pat (req_attributes req) true in ok && Match exp (req_resource req).

Lemma matches_resource_false pats req : matches_resource pats req false = existsb (resolves req) pats.
Proof.
  induction pats as [|pat pats IH]; simpl; [done|]. unfold resolves at 1. destruct (expand pat _ true) as [exp ok].
  destruct ok; simpl; [|done]. by destruct (Match exp _).
Qed.

(** An allow statement matches when one of its atoms does. *)
Lemma matches_allow s req :
  stmt_effect s = Allow ->
  matches s req = true ↔ ∃ act res, act ∈ stmt_actions s ∧ res ∈ stmt_resources s
    ∧ matches (atom_statement (mkPerm act res (stmt_conditions s))) req = true.
Proof.
  intros Hs. unfold matches, matchesTarget. rewrite Hs. change (Allow =? Deny)%string with false. simpl.
  rewrite !andb_true_iff, matches_resource_false, !existsb_true_iff. split.
  - intros [[(act & Ha & Hma) (res & Hr & Hmr)] Hc]. exists act, res. split_and!; [done|done|].
    pose proof (matches_resource_false [res] req) as He. simpl in He. rewrite He. by rewrite Hma, Hmr, Hc.
  - intros (act & res & Ha & Hr & Hm). pose proof (matches_resource_false [res] req) as He. simpl in He. rewrite He in Hm.
    rewrite !andb_true_iff, !orb_false_r in Hm. destruct Hm as [[? ?] ?]. eauto 9.
Qed.

Record compacted (perms : list Permission) (acc : list Statement * gmap string nat) : Prop := mkCompacted {
  cp_at : ∀ k i, acc.2 !! k = Some i -> ∃ s q, acc.1 !! i = Some s ∧ keyed q ∧ k = pm_resource q +:+ nul +:+ extrasKey q
    ∧ stmt_resources s = [pm_resource q] ∧ stmt_conditions s = pm_conditions q;
  cp_sound : ∀ s, s ∈ acc.1 -> stmt_effect s = Allow ∧ ∃ res, stmt_resources s = [res]
    ∧ ∀ act, act ∈ stmt_actions s -> mkPerm act res (stmt_conditions s) ∈ perms;
  cp_complete : ∀ p, p ∈ perms -> ∃ s, s ∈ acc.1 ∧ pm_action p ∈ stmt_actions s ∧ stmt_resources s = [pm_resource p]
    ∧ stmt_conditions s = pm_conditions p;
}.

Definition add_action (act : string) (s : Statement) : Statement :=
  if bool_decide (act ∈ stmt_actions s) then s
  else mkStatement (stmt_id s) (stmt_effect s) (stmt_actions s ++ [act]) (stmt_resources s) (stmt_conditions s) (stmt_tier s) (stmt_require s).

Lemma add_action_spec act s :
  stmt_effect (add_action act s) = stmt_effect s ∧ stmt_resources (add_action act s) = stmt_resources s
  ∧ stmt_conditions (add_action act s) = stmt_conditions s
  ∧ ∀ x, x ∈ stmt_actions (add_action act s) ↔ x ∈ stmt_actions s ∨ x = act.
Proof. unfold add_action. case_bool_decide; simpl; split_and!; try done; set_solver. Qed.

Lemma add_statement_compacted perms acc p :
  keyed p -> compacted perms acc -> compacted (perms ++ [p]) (add_statement acc p).
Proof.
  intros Hp [Hat Hs Hc]. destruct acc as [out at_]. simpl in *. set (key := pm_resource p +:+ nul +:+ extrasKey p).
  destruct (at_ !! key) as [i|] eqn:Hk.
  - destruct (Hat _ _ Hk) as (s & q & Hi & Hq & Hkey & Hres & Hcond).
    apply nul_split in Hkey as [Hr He]; [|by apply Hp|by apply Hq]. apply extrasKey_inj in He; [|done|done].
    fold (add_action (pm_action p)). destruct (add_action_spec (pm_action p) s) as (Ae & Ar & Ac & Aa).
    assert (Hel : ∀ t, t ∈ alter (add_action (pm_action p)) i out <-> t = add_action (pm_action p) s ∨ ∃ j, j ≠ i ∧ out !! j = Some t).
    { intros t. rewrite list_elem_of_lookup. split.
      - intros [j Hj]. destruct (decide (i = j)) as [->|Hne].
        + rewrite list_lookup_alter_eq, Hi in Hj. simpl in Hj. left. congruence.
        + rewrite list_lookup_alter_ne in Hj by done. eauto.
      - intros [->|(j & Hne & Hj)]; [exists i; by rewrite list_lookup_alter_eq, Hi|exists j; by rewrite list_lookup_alter_ne]. }
    split; simpl.
    + intros k j Hj. destruct (Hat _ _ Hj) as (s' & q' & Hj' & ?). destruct (decide (i = j)) as [->|Hne].
      * exists (add_action (pm_action p) s), q'. rewrite list_lookup_alter_eq, Hi. rewrite Hi in Hj'. simplify_eq. rewrite Ar, Ac. by split.
      * exists s', q'. by rewrite list_lookup_alter_ne.
    + intros t [->|(j & _ & Hj)]%Hel.
      * rewrite Ae, Ar, Ac. destruct (Hs s) as (? & res & Hres' & Hin); [by apply list_elem_of_lookup_2 in Hi|]. split; [done|].
        exists res. split; [done|]. intros act [Hact| ->]%Aa; [set_solver|]. rewrite Hres in Hres'. simplify_eq. rewrite Hcond, <- He, <- Hr.
        destruct p; set_solver.
      * destruct (Hs t) as (? & res & ? & ?); [by apply list_elem_of_lookup_2 in Hj|]. split; [done|]. exists res. set_solver.
    + intros x [(t & Ht & Hx)%Hc| ->%list_elem_of_singleton]%elem_of_app.
      * apply list_elem_of_lookup in Ht as [j Hj]. destruct (decide (j = i)) as [->|Hne].
        -- rewrite Hi in Hj. simplify_eq. exists (add_action (pm_action p) t). rewrite Ar, Ac, Aa. split; [by apply Hel; left|]. tauto.
        -- exists t. split; [apply Hel; eauto|done].
      * exists (add_action (pm_action p) s). rewrite Ar, Ac, Aa. split; [by apply Hel; left|]. rewrite Hres, Hcond. split; [by right|].
        split; congruence.
  - split; simpl.
    + intros k i. destruct (decide (key = k)) as [<-|Hne].
      * rewrite lookup_insert_eq. intros [= <-]. eexists _, p. rewrite lookup_app_r, Nat.sub_diag by done. by split_and!.
      * rewrite lookup_insert_ne by done. intros (s' & q' & Hi & ?)%Hat. exists s', q'. split; [|done]. by apply lookup_app_l_Some.
    + intros s [Hin| ->%list_elem_of_singleton]%elem_of_app.
      * destruct (Hs s Hin) as (? & res & ? & ?). split; [done|]. exists res. set_solver.
      * split; [done|]. exists (pm_resource p). split; [done|]. simpl. intros act ->%list_elem_of_singleton. destruct p; set_solver.
    + intros x [(t & Ht & Hx)%Hc| ->%list_elem_of_singleton]%elem_of_app; [exists t; set_solver|]. exists (atom_statement p).
      split_and!; [set_solver|simpl; set_solver|done|done].
Qed.

Lemma Statements_compacted perms : Forall keyed perms -> compacted perms (fold_left add_statement perms ([], ∅)).
Proof.
  induction perms as [|p perms IH] using rev_ind; [intros _; split; simpl; set_solver|].
  rewrite Forall_app, Forall_singleton. intros [Hps Hp]. rewrite fold_left_app. simpl. by apply add_statement_compacted; auto.
Qed.

(** The statements match what their permissions match. *)
Lemma Statements_matches perms req :
  Forall keyed perms ->
  (∃ s, s ∈ Statements perms ∧ matches s req = true) ↔ ∃ p, p ∈ perms ∧ matches (atom_statement p) req = true.
Proof.
  intros [_ Hs Hc]%Statements_compacted. unfold Statements. split.
  - intros (s & Hin & Hm). destruct (Hs s Hin) as (He & res & Hres & Hp). apply matches_allow in Hm as (act & res' & Ha & Hr & Hm); [|done].
    rewrite Hres in Hr. apply list_elem_of_singleton in Hr as ->. eauto.
  - intros (p & Hin & Hm). destruct (Hc p Hin) as (s & Hins & Ha & Hr & Hcs). exists s. split; [done|]. apply matches_allow; [by apply Hs|].
    exists (pm_action p), (pm_resource p). rewrite Hr, Hcs. split_and!; [done|set_solver|]. by destruct p.
Qed.

(** *** Grants of policies *)

Lemma add_grants l :
  Forall (fun g => keyed (g_permission g)) l ->
  let acc := fold_left add_grant l ([], ∅) in
  ∀ p, p ∈ map g_permission acc.1 ↔ p ∈ map g_permission l.
Proof.
  intros Hl. assert (Hinv : let acc := fold_left add_grant l ([], ∅) in
    acc.2 = list_to_set (map (fun g => atomKey (g_permission g)) acc.1) ∧ ∀ p, p ∈ map g_permission acc.1 ↔ p ∈ map g_permission l).
  2:{ by destruct Hinv. }
  induction l as [|g l IH] using rev_ind; [done|]. rewrite Forall_app, Forall_singleton in Hl. destruct Hl as [Hl Hg].
  rewrite fold_left_app. simpl. destruct (IH Hl) as [Hk Hp]. clear IH. set (acc := fold_left add_grant l ([], ∅)) in *.
  unfold add_grant. rewrite map_app. simpl. case_bool_decide as Hin.
  - split; [done|]. intros p. rewrite elem_of_app, Hp, list_elem_of_singleton. split; [by left|]. intros [?| ->]; [done|].
    rewrite Hk, elem_of_list_to_set in Hin. apply list_elem_of_fmap in Hin as (h & He & Hh).
    assert (Hhl : g_permission h ∈ map g_permission l) by (apply Hp; by apply list_elem_of_fmap_2).
    apply list_elem_of_fmap in Hhl as (h' & Hhh & Hh'). apply atomKey_inj in He; [|done|].
    + rewrite He, Hhh. by apply list_elem_of_fmap_2.
    + rewrite Hhh. by apply (proj1 (Forall_forall _ _) Hl).
  - simpl. rewrite !map_app. simpl. split.
    + rewrite Hk. set_solver.
    + intros p. rewrite !elem_of_app, Hp. done.
Qed.

Definition all_statements (pols : list (option Policy)) : list Statement := map snd (statements_of pols).

Lemma elem_of_all_statements pols s : s ∈ all_statements pols ↔ ∃ p, Some p ∈ pols ∧ s ∈ pol_statements p.
Proof.
  unfold all_statements. rewrite list_elem_of_fmap. split.
  - intros (x & -> & Hx). apply elem_of_statements_of in Hx as (p & ? & ? & ?). eauto.
  - intros (p & Hp & Hs). destruct (statements_of_elem_of _ _ _ Hp Hs) as (x & ? & <-). eauto.
Qed.

(** The texts of a policy that the keys can tell apart: no NUL bytes, conditions in valid UTF-8. *)
Definition valid_statement (s : Statement) : Prop :=
  Forall no_nul (stmt_actions s) ∧ Forall no_nul (stmt_resources s) ∧ Forall valid_condition (stmt_conditions s).

Definition policy_permissions (pols : list (option Policy)) : list Permission := map g_permission (PolicyGrants pols).

Lemma elem_of_policy_grants pols g :
  g ∈ mjoin (map policy_grants pols) -> ∃ s, s ∈ all_statements pols ∧ stmt_effect s = Allow
    ∧ pm_action (g_permission g) ∈ stmt_actions s ∧ pm_resource (g_permission g) ∈ stmt_resources s
    ∧ pm_conditions (g_permission g) = stmt_conditions s.
Proof.
  intros (gs & Hg & Hgs)%list_elem_of_join. apply list_elem_of_fmap in Hgs as ([p|] & -> & Hp); [|by apply not_elem_of_nil in Hg].
  simpl in Hg. apply list_elem_of_join in Hg as (gs & Hg & Hgs). apply list_elem_of_fmap in Hgs as ([i s] & -> & Hs%elem_of_numbered).
  unfold statement_grants in Hg. destruct (String.eqb_spec (stmt_effect s) Allow) as [He|]; simpl in Hg; [|by apply not_elem_of_nil in Hg].
  apply list_elem_of_join in Hg as (gs & Hg & Hgs). apply list_elem_of_fmap in Hgs as (res & -> & Hres).
  apply list_elem_of_fmap in Hg as (act & -> & Hact). simpl. exists s. split_and!; try done.
  apply elem_of_all_statements. exists p. split; [done|by apply list_elem_of_lookup_2 in Hs].
Qed.

Lemma policy_grants_elem pols s act res :
  s ∈ all_statements pols -> stmt_effect s = Allow -> act ∈ stmt_actions s -> res ∈ stmt_resources s ->
  ∃ g, g ∈ mjoin (map policy_grants pols) ∧ g_permission g = mkPerm act res (stmt_conditions s).
Proof.
  intros (p & Hp & [i Hi]%list_elem_of_lookup)%elem_of_all_statements He Ha Hr.
  exists (mkGrant (mkPerm act res (stmt_conditions s))
    (mkOrigin SourceOwn (pol_id p) (if (stmt_id s =? "")%string then "statement-" +:+ FormatInt (Z.of_nat i) else stmt_id s) "")).
  split; [|done]. apply list_elem_of_join. exists (policy_grants (Some p)). split; [|by apply list_elem_of_fmap_2].
  simpl. apply list_elem_of_join. exists (statement_grants (pol_id p) (i, s)). split.
  - unfold statement_grants. rewrite He. simpl. apply list_elem_of_join. eexists. split; [|apply list_elem_of_fmap_2; exact Hr].
    simpl. apply list_elem_of_fmap. eauto.
  - apply list_elem_of_fmap_2. by apply elem_of_numbered.
Qed.

Lemma policy_grants_keyed pols :
  Forall valid_statement (all_statements pols) -> Forall (fun g => keyed (g_permission g)) (mjoin (map policy_grants pols)).
Proof.
  intros Hv. apply Forall_forall. intros g (s & Hs & _ & Ha & Hr & Hc)%elem_of_policy_grants.
  apply (proj1 (Forall_forall _ _) Hv) in Hs as (H1 & H2 & H3). rewrite Forall_forall in H1, H2. unfold keyed. rewrite Hc. auto.
Qed.

Lemma elem_of_policy_permissions pols p :
  Forall valid_statement (all_statements pols) ->
  p ∈ policy_permissions pols ↔ ∃ s, s ∈ all_statements pols ∧ stmt_effect s = Allow
    ∧ pm_action p ∈ stmt_actions s ∧ pm_resource p ∈ stmt_resources s ∧ pm_conditions p = stmt_conditions s.
Proof.
  intros Hv. unfold policy_permissions, PolicyGrants. rewrite (add_grants _ (policy_grants_keyed _ Hv)), list_elem_of_fmap. split.
  - intros (g & -> & Hg). by apply elem_of_policy_grants.
  - intros (s & Hs & He & Ha & Hr & Hc). destruct (policy_grants_elem _ _ _ _ Hs He Ha Hr) as (g & Hg & Hp).
    exists g. split; [|done]. rewrite Hp, <- Hc. by destruct p.
Qed.

(** *** Applying a proposal *)

(** [pols'] is [pols] with its allow statements replaced by those of [perms], in any order and grouping into
    policies: a suggestion only rewrites allow statements. *)
Definition replaces (pols : list (option Policy)) (perms : list Permission) (pols' : list (option Policy)) : Prop :=
  ∀ s, s ∈ all_statements pols' ↔ s ∈ Statements perms ∨ s ∈ all_statements pols ∧ stmt_effect s ≠ Allow.

Lemma any_match_all req P pols : any_match req P pols ↔ ∃ s, s ∈ all_statements pols ∧ matches s req = true ∧ P s = true.
Proof. unfold any_match. setoid_rewrite elem_of_all_statements. naive_solver. Qed.

Lemma Statements_allow perms s : Forall keyed perms -> s ∈ Statements perms -> stmt_effect s = Allow.
Proof. intros [_ Hs _]%Statements_compacted Hin. by apply Hs. Qed.

(** A test that allow statements fail is decided by the same statements before and after. *)
Lemma replaces_other req pols perms pols' P :
  replaces pols perms pols' -> Forall keyed perms -> (∀ s, P s = true -> stmt_effect s ≠ Allow) ->
  any_match req P pols' ↔ any_match req P pols.
Proof.
  intros Hrep Hk HP. rewrite !any_match_all. unfold replaces in Hrep. setoid_rewrite Hrep. split.
  - intros (s & [Hs|[Hs _]] & Hm & HPs); [|by eauto]. exfalso. by apply (HP s HPs), (Statements_allow perms).
  - intros (s & Hs & Hm & HPs). exists s. split; [right; split; [done|by apply HP]|done].
Qed.

Lemma deny_not_allow s : is_deny s = true -> stmt_effect s ≠ Allow.
Proof. by intros ->%String.eqb_eq. Qed.

Lemma escalate_not_allow s : is_escalate s = true -> stmt_effect s ≠ Allow.
Proof. by intros ->%String.eqb_eq. Qed.

Lemma allow_permits s : stmt_effect s = Allow -> is_permit s = true.
Proof. unfold is_permit, is_deny, is_escalate. by intros ->. Qed.

(** What permits after a proposal is applied. *)
Lemma replaces_permit req pols perms pols' :
  replaces pols perms pols' -> Forall keyed perms ->
  any_match req is_permit pols' ↔
  (∃ p, p ∈ perms ∧ matches (atom_statement p) req = true)
  ∨ ∃ s, s ∈ all_statements pols ∧ stmt_effect s ≠ Allow ∧ matches s req = true ∧ is_permit s = true.
Proof.
  intros Hrep Hk. rewrite any_match_all, <- (Statements_matches perms req Hk). unfold replaces in Hrep. setoid_rewrite Hrep. split.
  - intros (s & [Hs|[Hs Hne]] & Hm & HP); [left|right]; eauto.
  - intros [(s & Hs & Hm)|(s & Hs & Hne & Hm & HP)]; exists s; [|by eauto]. split; [by left|]. split; [done|].
    by eapply allow_permits, Statements_allow.
Qed.

Lemma policy_permit req pols :
  Forall valid_statement (all_statements pols) ->
  any_match req is_permit pols ↔
  (∃ p, p ∈ policy_permissions pols ∧ matches (atom_statement p) req = true)
  ∨ ∃ s, s ∈ all_statements pols ∧ stmt_effect s ≠ Allow ∧ matches s req = true ∧ is_permit s = true.
Proof.
  intros Hv. rewrite any_match_all. setoid_rewrite (elem_of_policy_permissions pols _ Hv). split.
  - intros (s & Hs & Hm & HP). destruct (decide (stmt_effect s = Allow)) as [He|Hne]; [left|right; by eauto].
    apply matches_allow in Hm as (act & res & Ha & Hr & Hm); [|done]. exists (mkPerm act res (stmt_conditions s)). eauto 9.
  - intros [(p & (s & Hs & He & Ha & Hr & Hc) & Hm)|(s & Hs & _ & Hm & HP)]; [|by eauto]. exists s. split; [done|].
    split; [|by apply allow_permits]. apply matches_allow; [done|]. exists (pm_action p), (pm_resource p). split_and!; [done|done|].
    rewrite <- Hc. by destruct p.
Qed.

(** Two decisions with the same outcome: allowed, escalated, denied by a statement or a taint rule, or refused
    for lack of an allow statement. *)
Definition same_outcome (d d' : Decision) : Prop :=
  d_allowed d = d_allowed d' ∧ (d_effect d = Escalate ↔ d_effect d' = Escalate) ∧ (d_effect d = Deny ↔ d_effect d' = Deny).

Lemma applyTaint_outcome e req d d' : same_outcome d d' -> same_outcome (applyTaint e req d) (applyTaint e req d').
Proof.
  intros (Ha & He & Hd). unfold applyTaint. rewrite <- Ha.
  assert (Heb : (d_effect d' =? Escalate)%string = (d_effect d =? Escalate)%string).
  { apply eq_true_iff_eq. rewrite !String.eqb_eq. tauto. }
  rewrite Heb. case_match; [done|]. case_match; [|done]. simpl. rewrite Heb. repeat case_match; done.
Qed.

Lemma on_permit req l x : first req is_permit l = Some x -> stmt_effect x.2 ≠ Deny ∧ stmt_effect x.2 ≠ Escalate.
Proof.
  intros (_ & _ & Hp)%first_Some. unfold is_permit, is_deny, is_escalate in Hp. apply andb_prop in Hp as [H1%negb_true_iff H2%negb_true_iff].
  split; by apply String.eqb_neq.
Qed.

Lemma first_kind req P ps qs :
  (any_match req P ps ↔ any_match req P qs) -> first req P (statements_of ps) = None ↔ first req P (statements_of qs) = None.
Proof. rewrite !first_None_any. tauto. Qed.

Lemma first_effect req eff l x : first req (fun s => (stmt_effect s =? eff)%string) l = Some x -> stmt_effect x.2 = eff.
Proof. by intros (_ & _ & ?%String.eqb_eq)%first_Some. Qed.

(** Which statements of each kind match decides the outcome, whatever their order. *)
Lemma evaluate_outcome e req ps qs :
  (any_match req is_permit ps ↔ any_match req is_permit qs) -> (any_match req is_deny ps ↔ any_match req is_deny qs) ->
  (any_match req is_escalate ps ↔ any_match req is_escalate qs) -> same_outcome (evaluate e req ps) (evaluate e req qs).
Proof.
  intros Hp%first_kind Hd%first_kind He%first_kind. rewrite !evaluate_spec. simpl. unfold on_located.
  destruct (first req is_deny (statements_of ps)) as [[[??]?]|] eqn:H1, (first req is_deny (statements_of qs)) as [[[??]?]|] eqn:H2;
    try (by exfalso; naive_solver).
  { apply first_effect in H1, H2. simpl in *. unfold same_outcome. simpl. rewrite H1, H2. done. }
  destruct (first req is_escalate (statements_of ps)) as [[[??]?]|] eqn:H3, (first req is_escalate (statements_of qs)) as [[[??]?]|] eqn:H4;
    try (by exfalso; naive_solver).
  { apply first_effect in H3, H4. simpl in *. unfold same_outcome. simpl. rewrite H3, H4. done. }
  destruct (first req is_permit (statements_of ps)) as [[[??]?]|] eqn:H5, (first req is_permit (statements_of qs)) as [[[??]?]|] eqn:H6;
    try (by exfalso; naive_solver); [|done].
  apply on_permit in H5, H6. unfold applyRisk. destruct (PolicyEval.Classify e req); [done|]. unfold same_outcome. simpl in *. tauto.
Qed.

Lemma Evaluate_replaced e clock req pols perms pols' :
  replaces pols perms pols' -> Forall keyed perms ->
  (any_match (prepare e clock req) is_permit pols' ↔ any_match (prepare e clock req) is_permit pols) ->
  same_outcome (Evaluate e clock req pols') (Evaluate e clock req pols).
Proof.
  intros Hr Hk Hp. apply applyTaint_outcome, evaluate_outcome; [done| |].
  - by eapply replaces_other, deny_not_allow.
  - by eapply replaces_other, escalate_not_allow.
Qed.

Lemma policy_permissions_keyed pols : Forall valid_statement (all_statements pols) -> Forall keyed (policy_permissions pols).
Proof.
  intros Hv. apply Forall_forall. intros p (s & Hs & _ & Ha & Hr & Hc)%(elem_of_policy_permissions _ _ Hv).
  apply (proj1 (Forall_forall _ _) Hv) in Hs as (H1 & H2 & H3). rewrite Forall_forall in H1, H2. unfold keyed. rewrite Hc. auto.
Qed.

(** C3. Splitting the allow statements of policies into single actions and resources (PolicyGrants) and compacting
    them again (Statements) changes no outcome of the engine: a request is allowed, escalated, denied
    explicitly or refused by default after the allow statements are replaced exactly when it was before,
    with templates, conditions, explicit denials, escalations, risk tiers and taint rules, and in whatever
    order and grouping the new statements and the kept ones stand. This holds for policies whose actions and
    resources hold no NUL byte and whose conditions are valid UTF-8 (valid_statement), the texts that the
    keys of the package tell apart. Reasons, codes and statement ids of a decision are not compared: they
    name the statement, and statements merge. *)
Theorem compaction_equivalent e clock req pols pols' :
  Forall valid_statement (all_statements pols) -> replaces pols (policy_permissions pols) pols' ->
  same_outcome (Evaluate e clock req pols') (Evaluate e clock req pols).
Proof.
  intros Hv Hr. apply (Evaluate_replaced _ _ _ _ _ _ Hr (policy_permissions_keyed _ Hv)).
  by rewrite (replaces_permit _ _ _ _ Hr (policy_permissions_keyed _ Hv)), (policy_permit _ _ Hv).
Qed.

(** Without merging, a policy after a suggestion is applied allows nothing that it did not allow before. *)
Theorem shrunk_policy_narrows e clock req pols pols' a opts :
  Forall valid_statement (all_statements pols) -> an_grants a = PolicyGrants pols -> op_generalize opts = false ->
  replaces pols (sg_keep (SuggestShrink a opts)) pols' ->
  d_allowed (Evaluate e clock req pols') = true -> d_allowed (Evaluate e clock req pols) = true.
Proof.
  intros Hv Hg Hno. destruct (keep_cases a opts) as [obs ->]. rewrite Hno. intros Hr.
  assert (Hsub : ∀ p, p ∈ kept_before a opts -> p ∈ policy_permissions pols).
  { intros p Hp%kept_before_granted. unfold Granted in Hp. by rewrite Hg in Hp. }
  assert (Hk : Forall keyed (kept_before a opts)).
  { apply Forall_forall. intros p Hp%Hsub. by apply (proj1 (Forall_forall _ _) (policy_permissions_keyed _ Hv)). }
  unfold Evaluate. rewrite !(applyTaint_allowed _ _ _ (evaluate_allowed_effect _ _ _)), !evaluate_allowed.
  rewrite (replaces_permit _ _ _ _ Hr Hk), (policy_permit _ _ Hv), (replaces_other _ _ _ _ _ Hr Hk deny_not_allow),
    (replaces_other _ _ _ _ _ Hr Hk escalate_not_allow).
  intros [[Hp Hrest] Ht]. split; [split; [|done]|done]. destruct Hp as [(p & Hp & Hm)|?]; [left; exists p; auto|by right].
Qed.
End Engine.

(** ** Examples *)

(** One of the ways to replace the allow statements, for the examples: a single policy. *)
Definition in_one_policy (pols : list (option Policy)) (perms : list Permission) : list (option Policy) :=
  [Some (mkPolicy "1" "" (Statements perms ++ List.filter (fun s => negb (stmt_effect s =? Allow)%string) (all_statements pols)))].

Lemma in_one_policy_replaces pols perms : replaces pols perms (in_one_policy pols perms).
Proof.
  intros s. rewrite elem_of_all_statements. unfold in_one_policy. setoid_rewrite list_elem_of_singleton. split.
  - intros (p & [= ->] & [Hs|[Hs%list_elem_of_In Hne]%list_elem_of_In%filter_In]%elem_of_app); [by left|right]. split; [done|].
    by apply negb_true_iff, String.eqb_neq in Hne.
  - intros Hs. eexists. split; [done|]. simpl. apply elem_of_app. destruct Hs as [?|[Hs Hne]]; [by left|right].
    apply list_elem_of_In, filter_In. split; [by apply list_elem_of_In|]. by apply negb_true_iff, String.eqb_neq.
Qed.

#[export] Instance demo_shrink : ShrinkLib := { ToLower := fun s => s; ParseStrict := Some }.

Definition demo_grant (action resource : string) (cs : list Condition) : Grant :=
  mkGrant (mkPerm action resource cs) (mkOrigin SourceOwn "p" "statement-0" "").

Definition demo_row (id action resource res reason : string) : DecisionRow :=
  mkRow id action resource res reason (unix_epoch + 5) [].

Definition demo_rows : list DecisionRow := [
  demo_row "1" "read" "db:a" ResultAllowed ""; demo_row "2" "read" "db:b" ResultAllowed ""; demo_row "3" "read" "db:c" ResultAllowed "";
  demo_row "4" "drop" "db:a" ResultDenied "no permission grants drop"; demo_row "5" "read" "old:x" ResultAllowed ""].

Definition demo_grants : list Grant :=
  [demo_grant "read" "db:a" []; demo_grant "read" "db:b" []; demo_grant "read" "db:c" []; demo_grant "*" "db:*" []; demo_grant "write" "log" []].

Definition demo_analysis : UsageAnalysis := Finish (analysed "agent" demo_grants 0 0 demo_rows).

Definition merging : Options := mkOptions 1 true 0.

(** Three tables become a wildcard inside an existing grant, the unused log is removed. *)
Example demo_suggestion :
  sg_keep (SuggestShrink demo_analysis merging) = [mkPerm "read" "db:*" []]
  ∧ sg_remove (SuggestShrink demo_analysis merging) = [mkPerm "*" "db:*" []; mkPerm "write" "log" []].
Proof. by vm_compute. Qed.

Lemma suggestion_replays_clean_witness :
  let keep := sg_keep (SuggestShrink demo_analysis merging) in
  let proposal := VerifyShrink demo_rows keep 10 in
  reached_by keep (demo_row "2" "read" "db:b" ResultAllowed "") = true
  ∧ br_replayed proposal = 4 ∧ br_newly_count proposal <= 1 ∧ br_would_count proposal <= 1.
Proof.
  destruct (suggestion_replays_clean "agent" demo_grants 0 0 demo_rows merging 10) as (Hk & _ & H1 & H2 & _ & H3).
  - done.
  - refine (bool_decide_unpack _ _). vm_compute. exact I.
  - apply Nat.ltb_lt. vm_compute. reflexivity.
  - split; [apply Hk; [apply list_elem_of_lookup; by exists 1%nat|by vm_compute|by vm_compute]|].
    split; [exact H1|]. split; [exact H2|exact H3].
Defined.

Lemma suggestion_not_broader_witness : reaches (Granted demo_analysis) "read" "db:z" = true.
Proof.
  apply (suggestion_not_broader demo_analysis merging "read" "db:z").
  - refine (bool_decide_unpack _ _). vm_compute. exact I.
  - vm_compute. reflexivity.
Defined.

Lemma memory_rows_walked_witness :
  walk (fun _ => None) (MemoryRows demo_rows) 6 (mkQuery "agent" 0 0 "" 0) 2 (fun n _ => n + 1) 0 = Some (5, None).
Proof.
  rewrite (memory_rows_walked demo_rows (fun n _ => n + 1)); [by vm_compute| | |done|simpl; lia].
  - refine (bool_decide_unpack _ _). vm_compute. exact I.
  - repeat constructor; by vm_compute.
Defined.

(** *** Where the package falls short *)

(** A literal star in a grant passes for a wildcard: the merged wildcard reaches what no grant does. *)
Definition starred_analysis : UsageAnalysis :=
  Finish (analysed "agent" (demo_grant "read" "db:\*" [] :: take 3 demo_grants) 0 0 demo_rows).

Theorem merged_wildcard_widens :
  reaches (Granted starred_analysis) "read" "db:secret" = false
  ∧ reaches (sg_keep (SuggestShrink starred_analysis merging)) "read" "db:secret" = true.
Proof. by vm_compute. Qed.

(** So does a grant with conditions, which the merged wildcard does not have: the engine allows, after the
    suggestion is applied, a request from outside the network that it refused before. *)
Definition office_only : Condition := mkCondition OpIPCIDR "ip" ["10."].
Definition conditioned : list (option Policy) :=
  [Some (mkPolicy "1" "p" [mkStatement "" Allow ["read"] ["db:a"; "db:b"; "db:c"] [] "" "";
                           mkStatement "" Allow ["read"] ["db:*"] [office_only] "" ""])].

Definition from_outside (resource : string) : Request := mkRequest "read" resource ∅ "11.0.0.7" 5 (SpecFloat.S754_zero false) "" "" false ∅.

Theorem merging_drops_conditions :
  let a := Finish (analysed "agent" (PolicyGrants conditioned) 0 0 demo_rows) in
  d_allowed (Evaluate demo_evaluator 0 (from_outside "db:secret") conditioned) = false
  ∧ d_allowed (Evaluate demo_evaluator 0 (from_outside "db:secret") (in_one_policy conditioned (sg_keep (SuggestShrink a merging)))) = true.
Proof. by vm_compute. Qed.

(** A grant whose resource is a template is matched by the engine, with the variable expanded, but not by the
    analysis: a grant in daily use is reported unused, and the engine refuses the recorded call once the
    suggestion is applied. *)
Definition templated : list (option Policy) := [Some (mkPolicy "1" "p" [demo_allow])].

Theorem template_grant_removed :
  let row := demo_row "1" "read" "doc:1" ResultAllowed "allowed by statement" in
  let a := Finish (analysed "agent" (PolicyGrants templated) 0 0 [row]) in
  d_allowed (Evaluate demo_evaluator 0 demo_request templated) = true
  ∧ row_action row = req_action demo_request ∧ row_resource row = req_resource demo_request
  ∧ an_unused a = [mkPerm "*" "doc:{user}" []]
  ∧ d_allowed (Evaluate demo_evaluator 0 demo_request (in_one_policy templated (sg_keep (SuggestShrink a merging)))) = false.
Proof. by vm_compute. Qed.

Definition shown : list (option Policy) := [Some (mkPolicy "1" "p" [demo_deny; mkStatement "" Allow ["read"; "list"] ["db:*"; "log"] [office_only] "" ""])].

Lemma shown_valid : Forall valid_statement (all_statements shown).
Proof. refine (bool_decide_unpack _ _). vm_compute. exact I. Qed.

Lemma compaction_equivalent_witness :
  same_outcome (Evaluate demo_evaluator 0 (from_outside "log") (in_one_policy shown (policy_permissions shown)))
    (Evaluate demo_evaluator 0 (from_outside "log") shown).
Proof.
  apply (compaction_equivalent demo_evaluator 0 (from_outside "log") shown _ shown_valid), in_one_policy_replaces.
Defined.

Definition from_office (resource : string) : Request := mkRequest "read" resource ∅ "10.0.0.7" 5 (SpecFloat.S754_zero false) "" "" false ∅.

Lemma shrunk_policy_narrows_witness :
  d_allowed (Evaluate demo_evaluator 0 (from_office "db:a") shown) = true.
Proof.
  apply (shrunk_policy_narrows demo_evaluator 0 (from_office "db:a") shown (in_one_policy shown
      (sg_keep (SuggestShrink (Finish (analysed "agent" (PolicyGrants shown) 0 0 demo_rows)) (mkOptions 1 false 0))))
    (Finish (analysed "agent" (PolicyGrants shown) 0 0 demo_rows)) (mkOptions 1 false 0) shown_valid).
  - vm_compute. reflexivity.
  - reflexivity.
  - apply in_one_policy_replaces.
  - vm_compute. reflexivity.
Defined.
