(* ===== verification/Passwords.v ===== *)
(** * Password hashes ([crypto/password.go], [bcrypt.go], [pbkdf2.go], [internal/password/verify.go])

    Argon2id hashes in PHC form, the legacy formats of a migration window, and the upgrade of a hash after a
    match. Argon2id, PBKDF2, bcrypt, base64 and [fmt.Sscanf] are parameters; the salt is drawn by the caller,
    [None] when the generator fails. *)

From Stdlib Require Import ZArith Lia String Ascii.
From stdpp Require Import base gmap strings list.
From S2P Require Import Prelude GoJSON.

Set Default Goal Selector "!".
Open Scope string_scope.
Open Scope list_scope.
Open Scope Z_scope.

(** [IDKey] and [pbkdf2_key] take the lengths of their keys; [bcrypt_compare] answers [None] for an error
    other than a mismatch, [Sscanf_version] and [Sscanf_params] scan "v=%d" and "m=%d,t=%d,p=%d". *)
Class PasswordLib := {
  IDKey : string -> string -> Z -> Z -> Z -> Z -> string;
  raw_encode : string -> string;
  raw_decode : string -> option string;
  std_encode : string -> string;
  std_decode : string -> option string;
  Sscanf_version : string -> option Z;
  Sscanf_params : string -> option (Z * Z * Z);
  bcrypt_compare : string -> string -> option bool;
  pbkdf2_key : bool -> string -> string -> Z -> Z -> option string;
  Atoi : string -> option Z;
}.

Definition no_dollar (s : string) : Prop := "$"%char ∉ list_ascii_of_string s.

(** What the code relies on: base64 reads back what it wrote and writes no dollar sign, scanning reads the
    numbers printed, and a derived key has the length asked for. *)
Class PasswordLaws `{PasswordLib} := {
  raw_decode_encode : ∀ s, raw_decode (raw_encode s) = Some s;
  raw_encode_plain : ∀ s, no_dollar (raw_encode s);
  scan_version : ∀ n, 0 <= n -> Sscanf_version ("v=" +:+ FormatInt n) = Some n;
  scan_params : ∀ m t p, 0 <= m < 2 ^ 32 -> 0 <= t < 2 ^ 32 -> 0 <= p < 256 ->
    Sscanf_params ("m=" +:+ FormatInt m +:+ ",t=" +:+ FormatInt t +:+ ",p=" +:+ FormatInt p) = Some (m, t, p);
  IDKey_length : ∀ plain salt t m p n, 0 <= n -> Z.of_nat (String.length (IDKey plain salt t m p n)) = n;
}.

(** ** Argon2id *)

Definition argonMemoryKiB : Z := 64 * 1024.
Definition argonTime : Z := 3.
Definition argonThreads : Z := 4.
Definition argonSaltLen : nat := 16.
Definition argonKeyLen : Z := 32.
Definition argon2_Version : Z := 19.

Inductive hash_error := ErrInvalidPasswordHash | ErrRandom | ErrBcrypt.

(** [strings.Split(s, "$")] *)
Fixpoint split_dollar (s : string) : list string :=
  match s with
  | "" => [""]
  | String c s =>
      if (c =? "$")%char then "" :: split_dollar s
      else match split_dollar s with
           | p :: ps => String c p :: ps
           | [] => [String c ""]
           end
  end.

Section Hashes.
Context `{PasswordLib}.

(** [salt] is what the generator returned. *)
Definition HashPassword (salt : option string) (plain : string) : result hash_error string :=
  match salt with
  | None => Err ErrRandom
  | Some salt =>
      Ok ("$argon2id$v=" +:+ FormatInt argon2_Version +:+ "$m=" +:+ FormatInt argonMemoryKiB +:+ ",t=" +:+ FormatInt argonTime
          +:+ ",p=" +:+ FormatInt argonThreads +:+ "$" +:+ raw_encode salt +:+ "$"
          +:+ raw_encode (IDKey plain salt argonTime argonMemoryKiB argonThreads argonKeyLen))
  end.

Definition VerifyPassword (plain phc : string) : result hash_error bool :=
  match split_dollar phc with
  | ["" ; alg; v; params; salt64; want64] =>
      if negb (alg =? "argon2id")%string then Err ErrInvalidPasswordHash
      else if negb (bool_decide (Sscanf_version v = Some argon2_Version)) then Err ErrInvalidPasswordHash
      else match Sscanf_params params, raw_decode salt64, raw_decode want64 with
      | Some (memory, time, threads), Some salt, Some want =>
          Ok (IDKey plain salt time memory threads (Z.of_nat (String.length want)) =? want)%string
      | _, _, _ => Err ErrInvalidPasswordHash
      end
  | _ => Err ErrInvalidPasswordHash
  end.

Definition NeedsRehash (phc : string) : bool :=
  match split_dollar phc with
  | ["" ; alg; _; params; _; _] =>
      if negb (alg =? "argon2id")%string then false
      else match Sscanf_params params with
      | Some (memory, t, threads) => (memory <? argonMemoryKiB) || (t <? argonTime) || (threads <? argonThreads)
      | None => false
      end
  | _ => false
  end.

(** ** Legacy formats *)

Definition IsBcryptHash (hash : string) : bool :=
  String.prefix "$2a$" hash || String.prefix "$2b$" hash || String.prefix "$2x$" hash.

Definition VerifyLegacyBcrypt (plain hash : string) : result hash_error bool :=
  match bcrypt_compare hash plain with Some b => Ok b | None => Err ErrBcrypt end.

Definition pbkdf2SHA256Prefix : string := "$pbkdf2-sha256$".
Definition pbkdf2SHA512Prefix : string := "$pbkdf2-sha512$".
Definition maxPBKDF2Iterations : Z := 5000000.

Definition IsPBKDF2Hash (hash : string) : bool := String.prefix pbkdf2SHA256Prefix hash || String.prefix pbkdf2SHA512Prefix hash.

Definition IsLegacyHash (hash : string) : bool := IsBcryptHash hash || IsPBKDF2Hash hash.

Definition FormatPBKDF2Hash (algo : string) (iterations : Z) (salt key : string) : string :=
  "$" +:+ algo +:+ "$" +:+ FormatInt iterations +:+ "$" +:+ std_encode salt +:+ "$" +:+ std_encode key.

Definition pbkdf2_hash (algo : string) : option bool :=
  if (algo =? "pbkdf2-sha256")%string then Some false else if (algo =? "pbkdf2-sha512")%string then Some true else None.

Definition VerifyLegacyPBKDF2 (plain stored : string) : result hash_error bool :=
  match split_dollar stored with
  | ["" ; algo; iters; salt64; want64] =>
      match pbkdf2_hash algo, Atoi iters with
      | Some h, Some iterations =>
          if (iterations <? 1) || (maxPBKDF2Iterations <? iterations) then Err ErrInvalidPasswordHash
          else match std_decode salt64, std_decode want64 with
          | Some salt, Some want =>
              if (want =? "")%string then Err ErrInvalidPasswordHash
              else match pbkdf2_key h plain salt iterations (Z.of_nat (String.length want)) with
              | Some got => Ok (got =? want)%string
              | None => Err ErrInvalidPasswordHash
              end
          | _, _ => Err ErrInvalidPasswordHash
          end
      | _, _ => Err ErrInvalidPasswordHash
      end
  | _ => Err ErrInvalidPasswordHash
  end.

(** The third result is the error. *)
Definition VerifyPasswordWithLegacyFallback (salt : option string) (plain storedHash : string) (allowLegacy : bool)
  : bool * string * option hash_error :=
  if IsLegacyHash storedHash then
    if negb allowLegacy then (false, "", Some ErrInvalidPasswordHash)
    else match (if IsPBKDF2Hash storedHash then VerifyLegacyPBKDF2 plain storedHash else VerifyLegacyBcrypt plain storedHash) with
    | Err e => (false, "", Some e)
    | Ok false => (false, "", None)
    | Ok true => match HashPassword salt plain with Err e => (true, "", Some e) | Ok newHash => (true, newHash, None) end
    end
  else
    match VerifyPassword plain storedHash with
    | Err e => (false, "", Some e)
    | Ok true => if NeedsRehash storedHash
                 then match HashPassword salt plain with Ok newHash => (true, newHash, None) | Err _ => (true, "", None) end
                 else (true, "", None)
    | Ok false => (false, "", None)
    end.

Definition VerifyCredential (salt : option string) (plain stored : string) (allowLegacy : bool) : result hash_error (bool * string) :=
  if IsLegacyHash stored && negb allowLegacy then Ok (false, "")
  else match VerifyPasswordWithLegacyFallback salt plain stored allowLegacy with
  | (true, _, Some _) => Ok (true, "")
  | (ok, newHash, None) => Ok (ok, newHash)
  | (false, _, Some e) => Err e
  end.
End Hashes.

(** ** Hashing and verifying *)

Lemma split_plain a : no_dollar a -> split_dollar a = [a].
Proof.
  unfold no_dollar. induction a as [|c a IH]; simpl; [done|]. rewrite not_elem_of_cons. intros [Hc Ha].
  destruct (Ascii.eqb_spec c "$"); [by subst|]. by rewrite IH.
Qed.

Lemma split_part a rest : no_dollar a -> split_dollar (a +:+ String "$" rest) = a :: split_dollar rest.
Proof.
  unfold no_dollar. induction a as [|c a IH]; simpl; [done|]. rewrite not_elem_of_cons. intros [Hc Ha].
  destruct (Ascii.eqb_spec c "$"); [by subst|]. by rewrite IH.
Qed.

Section Roundtrip.
Context `{PasswordLaws}.

(** The parts of a hash that the library wrote. *)
Lemma hash_parts salt plain h :
  HashPassword (Some salt) plain = Ok h ->
  split_dollar h = ["" ; "argon2id"; "v=19"; "m=65536,t=3,p=4"; raw_encode salt;
                    raw_encode (IDKey plain salt argonTime argonMemoryKiB argonThreads argonKeyLen)].
Proof.
  unfold HashPassword. intros [= <-].
  change ("$argon2id$v=" +:+ FormatInt argon2_Version +:+ "$m=" +:+ FormatInt argonMemoryKiB +:+ ",t=" +:+ FormatInt argonTime
    +:+ ",p=" +:+ FormatInt argonThreads +:+ "$" +:+ raw_encode salt +:+ "$" +:+ raw_encode (IDKey plain salt argonTime argonMemoryKiB argonThreads argonKeyLen))
    with ("" +:+ String "$" ("argon2id" +:+ String "$" ("v=19" +:+ String "$" ("m=65536,t=3,p=4" +:+ String "$" (raw_encode salt +:+ String "$"
      (raw_encode (IDKey plain salt argonTime argonMemoryKiB argonThreads argonKeyLen))))))).
  assert (Hlit : no_dollar "" ∧ no_dollar "argon2id" ∧ no_dollar "v=19" ∧ no_dollar "m=65536,t=3,p=4").
  { unfold no_dollar. split_and!; apply (bool_decide_unpack _); by vm_compute. }
  destruct Hlit as (? & ? & ? & ?). rewrite !split_part by (done || apply raw_encode_plain). by rewrite split_plain by apply raw_encode_plain.
Qed.

Lemma params_scanned : Sscanf_version "v=19" = Some argon2_Version ∧ Sscanf_params "m=65536,t=3,p=4" = Some (argonMemoryKiB, argonTime, argonThreads).
Proof.
  split; [apply (scan_version 19); lia|]. apply (scan_params argonMemoryKiB argonTime argonThreads); unfold argonMemoryKiB, argonTime, argonThreads; lia.
Qed.

Lemma verify_own salt plain other h :
  HashPassword (Some salt) plain = Ok h ->
  VerifyPassword other h = Ok (IDKey other salt argonTime argonMemoryKiB argonThreads argonKeyLen
                               =? IDKey plain salt argonTime argonMemoryKiB argonThreads argonKeyLen)%string.
Proof.
  intros Hh. unfold VerifyPassword. rewrite (hash_parts _ _ _ Hh). simpl. destruct params_scanned as [-> ->].
  rewrite bool_decide_true by done. simpl. rewrite !raw_decode_encode, IDKey_length by (unfold argonKeyLen; lia). done.
Qed.

Lemma own_credential salt plain pw h allowLegacy salt' :
  HashPassword (Some salt) plain = Ok h ->
  VerifyCredential salt' pw h allowLegacy
  = Ok (bool_decide (IDKey pw salt argonTime argonMemoryKiB argonThreads argonKeyLen
                     = IDKey plain salt argonTime argonMemoryKiB argonThreads argonKeyLen), "").
Proof.
  intros Hh. assert (Hleg : IsLegacyHash h = false) by (unfold HashPassword in Hh; by simplify_eq).
  assert (Hre : NeedsRehash h = false).
  { unfold NeedsRehash. rewrite (hash_parts _ _ _ Hh). simpl. by rewrite (proj2 params_scanned). }
  unfold VerifyCredential, VerifyPasswordWithLegacyFallback. rewrite Hleg. simpl. rewrite (verify_own _ _ pw _ Hh), Hre.
  destruct (String.eqb_spec (IDKey pw salt argonTime argonMemoryKiB argonThreads argonKeyLen)
    (IDKey plain salt argonTime argonMemoryKiB argonThreads argonKeyLen)); [by rewrite bool_decide_true|by rewrite bool_decide_false].
Qed.

(** A hash made by the library is Argon2id with current parameters: the password verifies against it, and
    any other password only if it derives the same key; it is no legacy hash and needs no upgrade. *)
Theorem password_hash_roundtrip salt plain other h allowLegacy salt' :
  HashPassword (Some salt) plain = Ok h ->
  VerifyCredential salt' plain h allowLegacy = Ok (true, "")
  ∧ (VerifyCredential salt' other h allowLegacy = Ok (true, "") ->
     IDKey other salt argonTime argonMemoryKiB argonThreads argonKeyLen = IDKey plain salt argonTime argonMemoryKiB argonThreads argonKeyLen).
Proof.
  intros Hh. rewrite !(own_credential _ _ _ _ _ _ Hh), bool_decide_true by done. split; [done|].
  intros Hv. injection Hv as Hv. by apply bool_decide_eq_true in Hv.
Qed.

(** An upgraded hash is one the library wrote for the same password, and is not upgraded again. *)
Lemma upgrade_once salt plain stored allow newHash :
  VerifyCredential salt plain stored allow = Ok (true, newHash) -> newHash ≠ "" ->
  ∃ s, salt = Some s ∧ HashPassword (Some s) plain = Ok newHash ∧ ∀ salt', VerifyCredential salt' plain newHash allow = Ok (true, "").
Proof.
  intros Hv Hne. assert (Hh : HashPassword salt plain = Ok newHash).
  { unfold VerifyCredential, VerifyPasswordWithLegacyFallback in Hv. repeat case_match; simplify_eq; done. }
  destruct salt as [s|]; [|done]. exists s. split_and!; [done|done|]. intros salt'.
  by rewrite (own_credential _ _ _ _ _ _ Hh), bool_decide_true.
Qed.
End Roundtrip.

(** ** A library that keeps the laws *)

(** The bits of a string as characters. *)
Definition bit_char (b : bool) : ascii := if b then "1" else "0".

Fixpoint demo_encode (s : string) : string :=
  match s with
  | "" => ""
  | String (Ascii a b c d e f g h) s =>
      String (bit_char a) (String (bit_char b) (String (bit_char c) (String (bit_char d)
        (String (bit_char e) (String (bit_char f) (String (bit_char g) (String (bit_char h) (demo_encode s))))))))
  end.

Fixpoint demo_decode (s : string) : option string :=
  match s with
  | "" => Some ""
  | String a (String b (String c (String d (String e (String f (String g (String h s))))))) =>
      let bit x := (x =? "1")%char in String (Ascii (bit a) (bit b) (bit c) (bit d) (bit e) (bit f) (bit g) (bit h)) <$> demo_decode s
  | _ => None
  end.

Lemma demo_decode_encode s : demo_decode (demo_encode s) = Some s.
Proof. induction s as [|[a b c d e f g h] s IH]; [done|]. simpl. rewrite IH. simpl. by destruct a, b, c, d, e, f, g, h. Qed.

Lemma demo_encode_plain s : no_dollar (demo_encode s).
Proof.
  unfold no_dollar. induction s as [|[a b c d e f g h] s IH]; [by apply not_elem_of_nil|]. simpl.
  rewrite !not_elem_of_cons. split_and!; [by destruct a|by destruct b|by destruct c|by destruct d|by destruct e|by destruct f|by destruct g|by destruct h|done].
Qed.

Definition demo_read (s : string) : option Z := option_map Z.of_int (DecimalString.NilZero.int_of_string s).

Fixpoint cut_comma (s : string) : string * string :=
  match s with
  | "" => ("", "")
  | String c s => if (c =? ",")%char then ("", s) else let '(a, b) := cut_comma s in (String c a, b)
  end.

Lemma cut_comma_app a b : ","%char ∉ list_ascii_of_string a -> cut_comma (a +:+ String "," b) = (a, b).
Proof.
  induction a as [|c a IH]; simpl; [done|]. rewrite not_elem_of_cons. intros [Hc Ha]. destruct (Ascii.eqb_spec c ","); [by subst|]. by rewrite IH.
Qed.

Lemma FormatInt_no_comma n : ","%char ∉ list_ascii_of_string (FormatInt n).
Proof.
  intros Hin%list_elem_of_In. pose proof (FormatInt_chars n) as Hf. rewrite forallb_forall in Hf. by specialize (Hf _ Hin).
Qed.

Definition demo_scan_version (s : string) : option Z := match s with String _ (String _ s) => demo_read s | _ => None end.

Definition demo_scan_params (s : string) : option (Z * Z * Z) :=
  let '(m, rest) := cut_comma s in let '(t, p) := cut_comma rest in
  m ← demo_scan_version m; t ← demo_scan_version t; p ← demo_scan_version p; Some (m, t, p).

(** The key is the password, padded or cut to the length. *)
Definition demo_key (plain : string) (n : Z) : string :=
  string_of_list_ascii (take (Z.to_nat n) (list_ascii_of_string plain ++ replicate (Z.to_nat n) "."%char)).

Definition demo_passwords : PasswordLib := {|
  IDKey := fun plain salt _ _ _ n => demo_key (plain +:+ salt) n;
  raw_encode := demo_encode; raw_decode := demo_decode; std_encode := demo_encode; std_decode := demo_decode;
  Sscanf_version := demo_scan_version; Sscanf_params := demo_scan_params;
  bcrypt_compare := fun hash plain => Some (hash =? "$2b$" +:+ plain)%string;
  pbkdf2_key := fun _ plain _ _ n => Some (demo_key plain n);
  Atoi := demo_read;
|}.

Lemma demo_scan_params_ok m t p :
  demo_scan_params ("m=" +:+ FormatInt m +:+ ",t=" +:+ FormatInt t +:+ ",p=" +:+ FormatInt p) = Some (m, t, p).
Proof.
  unfold demo_scan_params.
  change ("m=" +:+ FormatInt m +:+ ",t=" +:+ FormatInt t +:+ ",p=" +:+ FormatInt p)
    with (("m=" +:+ FormatInt m) +:+ String "," (("t=" +:+ FormatInt t) +:+ String "," ("p=" +:+ FormatInt p))).
  rewrite !cut_comma_app by (simpl; rewrite !not_elem_of_cons; split_and!; [done..|apply FormatInt_no_comma]).
  rewrite (FormatInt_read m : demo_scan_version ("m=" +:+ FormatInt m) = Some m),
    (FormatInt_read t : demo_scan_version ("t=" +:+ FormatInt t) = Some t),
    (FormatInt_read p : demo_scan_version ("p=" +:+ FormatInt p) = Some p).
  done.
Qed.

Lemma length_of_list_ascii l : String.length (string_of_list_ascii l) = length l.
Proof. induction l as [|c l IH]; [done|]. simpl. by rewrite IH. Qed.

Lemma demo_laws : @PasswordLaws demo_passwords.
Proof.
  constructor; simpl.
  - apply demo_decode_encode.
  - apply demo_encode_plain.
  - intros n _. simpl. apply FormatInt_read.
  - intros. apply demo_scan_params_ok.
  - intros plain salt _ _ _ n Hn. unfold demo_key. rewrite length_of_list_ascii, length_take, length_app, length_replicate. lia.
Qed.

Lemma password_hash_roundtrip_witness :
  ∃ h, @HashPassword demo_passwords (Some "0123456789abcdef") "correct horse" = Ok h
    ∧ @VerifyCredential demo_passwords None "correct horse" h false = Ok (true, "")
    ∧ @VerifyCredential demo_passwords None "battery staple" h false = Ok (false, "").
Proof.
  eexists. split; [reflexivity|]. split.
  - apply (@password_hash_roundtrip demo_passwords demo_laws "0123456789abcdef" "correct horse" "battery staple" _ false None). reflexivity.
  - vm_compute. reflexivity.
Defined.
