(* ===== verification/SignIn.v ===== *)
(** * Signing in with a password or an emailed link ([internal/password], [internal/magiclink],
    [internal/trusteddevice], [internal/emailnorm], the account gate of [lifecycle.go] and their tables in
    [storage/memory])

    Sign-up, sign-in with the second factor gate, password resets, magic links and remembered devices, over
    the sessions of [Session], the pending sessions of [Totp], the limiter of [Throttle] and the hashes of
    [Passwords]. Requests are atomic; a request reads the clock several times, reading [n] is [clk n]. Tokens,
    ids and salts are drawn by the caller. Email delivery, audit events and log lines are not modelled; the
    background delivery of a reset link is an operation of its own. *)

From Stdlib Require Import ZArith Lia String Ascii.
From stdpp Require Import base gmap strings list.
From S2P Require Import Prelude Throttle Session Totp Passwords Tenants.

Set Default Goal Selector "!".
Open Scope string_scope.
Open Scope list_scope.
Open Scope Z_scope.

(** ** Data *)

Record MagicLink := mkLink { ml_id : string; ml_email : string; ml_hash : string; ml_expires : Z; ml_used : option Z; ml_created : Z }.

Record PasswordResetToken := mkReset {
  rt_id : string; rt_user : string; rt_hash : string; rt_expires : Z; rt_used : option Z; rt_created : Z;
}.

Record TrustedDevice := mkDevice {
  td_id : string; td_user : string; td_hash : string; td_label : string; td_ua : string; td_ip : string;
  td_created : Z; td_last_used : Z; td_expires : Z; td_revoked : option Z;
}.

Definition MinPasswordLength : Z := 12.
Definition DefaultMaxPasswordBytes : Z := 72.
Definition PasswordResetTTL : Z := Hour.
Definition DefaultTTL : Z := 30 * 24 * Hour.

Definition AMRPassword : string := "pwd".
Definition AMREmail : string := "email".

Inductive SigninStep := SigninStepFull | SigninStepTOTPRequired.

(** [strings.TrimSpace], [norm.NFKC.String], [strings.ToLower], [mail.ParseAddress] with the address it finds,
    the hex HMAC-SHA256 of a key and a message, [session.DeviceLabel]. *)
Class SignInLib := {
  TrimSpace : string -> string;
  NFKC : string -> string;
  ToLower : string -> string;
  ParseAddress : string -> option string;
  hmac_hex : string -> string -> string;
  DeviceLabel : string -> string;
}.

(** ** State and configuration *)

Record SignInState (St : Type) := mkSignIn {
  si_totp : TotpState St; si_users : gmap string User; si_hashes : gmap string string;
  si_resets : gmap string PasswordResetToken; si_links : gmap string MagicLink;
  si_acct : gmap string AccountState; si_devices : gmap string TrustedDevice;
}.
Arguments mkSignIn {St}.
Arguments si_totp {St}.
Arguments si_users {St}.
Arguments si_hashes {St}.
Arguments si_resets {St}.
Arguments si_links {St}.
Arguments si_acct {St}.
Arguments si_devices {St}.

(** The service of trusted devices: its key and lifetime. *)
Record DeviceService := mkDeviceService { ds_key : string; ds_ttl : Z }.

(** [accountLifecycle]: whether account states are kept, and the devices to revoke. *)
Record accountLifecycle := mkLifecycle { al_state : bool; al_devices : option DeviceService }.

(** [pc_breach] is the breach checker, [None] for a lookup that failed. [pc_ttl], [pc_policy] and [pc_cap]
    configure the session service, whose account gate is [pc_account]. [pc_clear] is [ClearLoginBackoff]. *)
Record PasswordConfig (St : Type) := mkPasswordConfig {
  pc_totp : bool; pc_min_length : Z; pc_max_bytes : Z; pc_breach : option (string -> option bool); pc_nfkc : bool;
  pc_throttle : option Config; pc_legacy : bool; pc_account : option accountLifecycle; pc_devices : option DeviceService;
  pc_ttl : Z; pc_policy : SessionPolicy; pc_cap : Cap; pc_clear : St -> string -> St;
}.
Arguments pc_totp {St}.
Arguments pc_min_length {St}.
Arguments pc_max_bytes {St}.
Arguments pc_breach {St}.
Arguments pc_nfkc {St}.
Arguments pc_throttle {St}.
Arguments pc_legacy {St}.
Arguments pc_account {St}.
Arguments pc_devices {St}.
Arguments pc_ttl {St}.
Arguments pc_policy {St}.
Arguments pc_cap {St}.
Arguments pc_clear {St}.

Inductive signin_error :=
  | PInvalidEmail | PWeakPassword | PGate | PEmailTaken | PHash (e : hash_error) | PNotFound | PSession (e : session_error)
  | PThrottled (retry : Z) (locked : bool) | PInvalidCredentials | PAccountDisabled | PPasswordChangeRequired
  | PTotp (e : totp_error) | PResetInvalid | PResetExpired | PNewToken | PSend | PInvalidToken | PLinkExpired | PAccountStateDisabled.

Section SignIn.
Context `{SessionLib} `{PasswordLib} `{SignInLib} {St : Type} `{ThrottleStore St} (cfg : PasswordConfig St).

Abbreviation state := (SignInState St).

Definition set_totp (st : state) (t : TotpState St) : state :=
  mkSignIn t (si_users st) (si_hashes st) (si_resets st) (si_links st) (si_acct st) (si_devices st).
Definition set_users (st : state) (m : gmap string User) : state :=
  mkSignIn (si_totp st) m (si_hashes st) (si_resets st) (si_links st) (si_acct st) (si_devices st).
Definition set_hashes (st : state) (m : gmap string string) : state :=
  mkSignIn (si_totp st) (si_users st) m (si_resets st) (si_links st) (si_acct st) (si_devices st).
Definition set_resets (st : state) (m : gmap string PasswordResetToken) : state :=
  mkSignIn (si_totp st) (si_users st) (si_hashes st) m (si_links st) (si_acct st) (si_devices st).
Definition set_links (st : state) (m : gmap string MagicLink) : state :=
  mkSignIn (si_totp st) (si_users st) (si_hashes st) (si_resets st) m (si_acct st) (si_devices st).
Definition set_acct (st : state) (m : gmap string AccountState) : state :=
  mkSignIn (si_totp st) (si_users st) (si_hashes st) (si_resets st) (si_links st) m (si_devices st).
Definition set_devices (st : state) (m : gmap string TrustedDevice) : state :=
  mkSignIn (si_totp st) (si_users st) (si_hashes st) (si_resets st) (si_links st) (si_acct st) m.
Definition set_limiter (st : state) (l : St) : state := set_totp st (Totp.with_limiter (si_totp st) l).
Definition set_sessions (st : state) (ss : Sessions) : state := set_totp st (Totp.with_sessions (si_totp st) ss).

(** ** The tables ([memory.go], [memory_lifecycle.go]); [None] is [ErrNotFound] *)

Definition by_email (users : gmap string User) (email : string) : option User :=
  List.find (fun u => (u_email u =? email)%string) (map snd (map_to_list users)).

Definition signin_CreateUser (st : state) (u : User) : state := set_users st (<[u_id u := u]> (si_users st)).

Definition SetUserPassword (st : state) (userID hash : string) : option state :=
  match si_users st !! userID with
  | None => None
  | Some _ => Some (set_hashes st (<[userID := hash]> (si_hashes st)))
  end.

Definition UserByEmailWithPassword (st : state) (email : string) : option (User * string) :=
  (fun u => (u, default "" (si_hashes st !! u_id u))) <$> by_email (si_users st) email.

Definition with_verified (u : User) (at_ : Z) : User :=
  mkUser (u_id u) (u_email u) (Some at_) (u_name u) (u_avatar u) (u_created u) (u_updated u) (u_external u) (u_given u) (u_family u) (u_display u).

Definition MarkEmailVerified (st : state) (userID : string) (now : Z) : option state :=
  (fun u => set_users st (<[userID := with_verified u now]> (si_users st))) <$> si_users st !! userID.

Definition CreatePasswordResetToken (st : state) (t : PasswordResetToken) : option state :=
  match si_users st !! rt_user t with
  | None => None
  | Some _ => Some (set_resets st (<[rt_id t := t]> (si_resets st)))
  end.

Definition reset_usable (hash : string) (now : Z) (it : string * PasswordResetToken) : bool :=
  (rt_hash it.2 =? hash)%string && bool_decide (rt_used it.2 = None) && negb (Before (rt_expires it.2) now).

Definition use_reset (t : PasswordResetToken) (now : Z) : PasswordResetToken :=
  mkReset (rt_id t) (rt_user t) (rt_hash t) (rt_expires t) (Some now) (rt_created t).

Definition ConsumePasswordResetToken (st : state) (hash : string) (now : Z) : option (state * PasswordResetToken) :=
  (fun it => (set_resets st (<[it.1 := use_reset it.2 now]> (si_resets st)), use_reset it.2 now))
    <$> List.find (reset_usable hash now) (map_to_list (si_resets st)).

Definition CreateMagicLink (st : state) (l : MagicLink) : state := set_links st (<[ml_id l := l]> (si_links st)).

Definition link_usable (hash : string) (now : Z) (il : string * MagicLink) : bool :=
  (ml_hash il.2 =? hash)%string && bool_decide (ml_used il.2 = None) && negb (Before (ml_expires il.2) now).

Definition use_link (l : MagicLink) (now : Z) : MagicLink :=
  mkLink (ml_id l) (ml_email l) (ml_hash l) (ml_expires l) (Some now) (ml_created l).

Definition ConsumeMagicLink (st : state) (hash : string) (now : Z) : option (state * MagicLink) :=
  (fun il => (set_links st (<[il.1 := use_link il.2 now]> (si_links st)), use_link il.2 now))
    <$> List.find (link_usable hash now) (map_to_list (si_links st)).

Definition user_state (st : state) (userID : string) : AccountState := default (mkAccountState false None) (si_acct st !! userID).

Definition set_must_change (st : state) (userID : string) (required : bool) : option state :=
  match si_users st !! userID with
  | None => None
  | Some _ => Some (set_acct st (<[userID := mkAccountState required (as_disabled (user_state st userID))]> (si_acct st)))
  end.

Definition InsertTrustedDevice (st : state) (d : TrustedDevice) : state := set_devices st (<[td_id d := d]> (si_devices st)).

Definition TrustedDeviceByTokenHash (st : state) (userID hash : string) : option TrustedDevice :=
  List.find (fun d => bool_decide (td_user d = userID) && (td_hash d =? hash)%string) (map snd (map_to_list (si_devices st))).

Definition newer_device (d d' : TrustedDevice) : bool := After (td_created d) (td_created d').

Definition ListTrustedDevices (st : state) (userID : string) (now : Z) : list TrustedDevice :=
  sort_by newer_device (List.filter (fun d => bool_decide (td_user d = userID) && bool_decide (td_revoked d = None) && After (td_expires d) now)
    (map snd (map_to_list (si_devices st)))).

Definition with_last_used (d : TrustedDevice) (at_ : Z) : TrustedDevice :=
  mkDevice (td_id d) (td_user d) (td_hash d) (td_label d) (td_ua d) (td_ip d) (td_created d) at_ (td_expires d) (td_revoked d).

Definition device_revoked (d : TrustedDevice) (at_ : Z) : TrustedDevice :=
  mkDevice (td_id d) (td_user d) (td_hash d) (td_label d) (td_ua d) (td_ip d) (td_created d) (td_last_used d) (td_expires d) (Some at_).

Definition TouchTrustedDevice (st : state) (id : string) (at_ : Z) : option state :=
  (fun d => set_devices st (<[id := with_last_used d at_]> (si_devices st))) <$> si_devices st !! id.

Definition RevokeTrustedDevice (st : state) (userID id : string) (now : Z) : option state :=
  match si_devices st !! id with
  | Some d => if bool_decide (td_user d = userID) && bool_decide (td_revoked d = None)
              then Some (set_devices st (<[id := device_revoked d now]> (si_devices st))) else None
  | None => None
  end.

Definition RevokeUserTrustedDevices (st : state) (userID : string) (now : Z) : state :=
  set_devices st ((fun d => if bool_decide (td_user d = userID) && bool_decide (td_revoked d = None) then device_revoked d now else d)
                    <$> si_devices st).

(** ** Remembered devices ([trusteddevice/service.go]) *)

Definition device_mac (ds : DeviceService) (token : string) : string := hmac_hex (ds_key ds) ("theauth/trusted-device/v1:" +:+ token).

(** The bytes before and after the last dot. *)
Fixpoint cut_last_dot (s : string) : option (string * string) :=
  match s with
  | "" => None
  | String c s' =>
      match cut_last_dot s' with
      | Some (a, b) => Some (String c a, b)
      | None => if (c =? ".")%char then Some ("", s') else None
      end
  end.

Definition cookie_token (ds : DeviceService) (cookie : string) : option string :=
  match cut_last_dot cookie with
  | Some (tok, got) => if (tok =? "")%string || (got =? "")%string || negb (got =? device_mac ds tok)%string then None else Some tok
  | None => None
  end.

(** [tok] is the drawn token, [id] the new id. *)
Definition Remember (ds : DeviceService) (st : state) (now : Z) (tok : option string) (id userID ua ip : string)
  : state * result signin_error (string * Z) :=
  match tok with
  | None => (st, Err PNewToken)
  | Some tok =>
      let d := mkDevice id userID (hash_token tok) (DeviceLabel ua) ua ip now now (now + ds_ttl ds) None in
      (InsertTrustedDevice st d, Ok (tok +:+ "." +:+ device_mac ds tok, td_expires d))
  end.

Definition Trusted (ds : DeviceService) (st : state) (now : Z) (userID cookie : string) : state * bool :=
  match cookie_token ds cookie with
  | None => (st, false)
  | Some tok =>
      match TrustedDeviceByTokenHash st userID (hash_token tok) with
      | None => (st, false)
      | Some d =>
          if negb (bool_decide (td_revoked d = None)) || negb (After (td_expires d) now) then (st, false)
          else (default st (TouchTrustedDevice st (td_id d) now), true)
      end
  end.

(** ** The account gate ([lifecycle.go], [password/lifecycle.go]) *)

Definition CheckSignin (al : accountLifecycle) (st : state) (userID : string) : option signin_error :=
  if negb (al_state al) then None
  else match as_disabled (user_state st userID) with
  | Some _ => Some PAccountDisabled
  | None => if as_must_change (user_state st userID) then Some PPasswordChangeRequired else None
  end.

Definition checkAccount (st : state) (userID : string) : option signin_error :=
  match pc_account cfg with None => None | Some al => CheckSignin al st userID end.

(** A failed write only logs. *)
Definition PasswordChanged (al : accountLifecycle) (st : state) (userID : string) (now : Z) : state :=
  let st := if al_state al then default st (set_must_change st userID false) else st in
  match al_devices al with Some _ => RevokeUserTrustedDevices st userID now | None => st end.

Definition passwordChanged (st : state) (userID : string) (now : Z) : state :=
  match pc_account cfg with None => st | Some al => PasswordChanged al st userID now end.

Definition RequireChange (al : accountLifecycle) (st : state) (userID : string) : result signin_error state :=
  if negb (al_state al) then Err PAccountStateDisabled
  else match set_must_change st userID true with Some st => Ok st | None => Err PNotFound end.

Definition trustedDevice (st : state) (now : Z) (userID cookie : string) : state * bool :=
  match pc_devices cfg with
  | None => (st, false)
  | Some ds => if (cookie =? "")%string then (st, false) else Trusted ds st now userID cookie
  end.

(** ** Sessions *)

(** The session service with the account gate that [setupLifecycle] installs. *)
Definition session_service (st : state) : SessionService :=
  mkSessionService (pc_ttl cfg) (pc_policy cfg)
    (match pc_account cfg with
     | Some al => if al_state al then Some (fun u => bool_decide (CheckSignin al st u = None)) else None
     | None => None
     end) (pc_cap cfg).

Definition with_amr (e : IssueEnv) (method : string) : IssueEnv :=
  mkIssueEnv (ie_no_limit e) (ie_list e) (ie_store e) (ie_now e) (ie_token e) (ie_id e) [method] (ie_at e).

Definition Issue (st : state) (e : IssueEnv) (userID ua ip : string) : state * result signin_error (string * Session) :=
  match IssueWith (session_service st) (tt_sessions (si_totp st)) e userID (mkIssueOptions ua ip "" 0) with
  | (ss, Ok r) => (set_sessions st ss, Ok r)
  | (ss, Err err) => (set_sessions st ss, Err (PSession err))
  end.

(** ** Emails and passwords *)

Definition Normalize (raw : string) : string :=
  let s := TrimSpace raw in ToLower (if pc_nfkc cfg then NFKC s else s).

Definition ValidatePassword (pw : string) : option signin_error :=
  let minLen := if pc_min_length cfg <=? 0 then MinPasswordLength else pc_min_length cfg in
  let maxBytes := if pc_max_bytes cfg <=? 0 then DefaultMaxPasswordBytes else pc_max_bytes cfg in
  let len := Z.of_nat (String.length pw) in
  if len <? minLen then Some PWeakPassword
  else if maxBytes <? len then Some PWeakPassword
  else match pc_breach cfg with
  | None => None
  | Some check => match check pw with Some true => Some PWeakPassword | _ => None end
  end.

(** ** Throttling *)

Definition checkThrottle (st : state) (now : Z) (ip ident : string) : option signin_error :=
  match pc_throttle cfg with
  | None => None
  | Some _ => match CheckLogin (tt_limiter (si_totp st)) now ip ident with
              | NotBlocked => None
              | Blocked retry locked => Some (PThrottled retry locked)
              end
  end.

Definition recordFailure (st : state) (now : Z) (ip ident : string) : state :=
  match pc_throttle cfg with
  | None => st
  | Some c => match RecordLoginFailure c (tt_limiter (si_totp st)) now ip ident with
              | Some l => set_limiter st l
              | None => st
              end
  end.

Definition recordSuccess (st : state) (ip ident : string) : state :=
  match pc_throttle cfg with
  | None => st
  | Some _ => set_limiter st (RecordLoginSuccess (tt_limiter (si_totp st)) ip ident)
  end.

(** ** Magic links ([magiclink/service.go]) *)

(** [draw] is the token, [id] the id of the link; [sent] says that the email was delivered. *)
Definition RequestLink (st : state) (now ttl : Z) (draw : option string) (id email : string) (sent : bool)
  : state * result signin_error string :=
  match draw with
  | None => (st, Err PNewToken)
  | Some token =>
      let st := CreateMagicLink st (mkLink id (Normalize email) (hash_token token) (now + ttl) None now) in
      (st, if sent then Ok token else Err PSend)
  end.

Definition new_user (id email : string) (verified : option Z) (now : Z) : User := mkUser id email verified "" "" now now "" "" "" "".

(** The user of a link: found, and verified now, or created behind the sign-up gate. *)
Definition link_user (st : state) (clk : nat -> Z) (gate : option bool) (id : string) (l : MagicLink)
  : state * result signin_error (User * bool) :=
  match by_email (si_users st) (ml_email l) with
  | None =>
      match gate with
      | Some false => (st, Err PGate)
      | _ => let u := new_user id (ml_email l) (Some (clk 2%nat)) (clk 2%nat) in (signin_CreateUser st u, Ok (u, true))
      end
  | Some u =>
      match u_verified u with
      | Some _ => (st, Ok (u, false))
      | None => (default st (MarkEmailVerified st (u_id u) (clk 2%nat)), Ok (u, false))
      end
  end.

(** [gate] is the answer of the sign-up gate, if there is one. *)
Definition Consume (st : state) (clk : nat -> Z) (e : IssueEnv) (gate : option bool) (id token : string)
  : state * result signin_error (string * User * bool) :=
  match ConsumeMagicLink st (hash_token token) (clk 0%nat) with
  | None => (st, Err PInvalidToken)
  | Some (st, l) =>
      if Before (ml_expires l) (clk 1%nat) then (st, Err PLinkExpired)
      else match link_user st clk gate id l with
      | (st, Err err) => (st, Err err)
      | (st, Ok (u, created)) =>
          match Issue st (with_amr e AMREmail) (u_id u) "" "" with
          | (st, Err err) => (st, Err err)
          | (st, Ok (tok, _)) => (st, Ok (tok, u, created))
          end
      end
  end.

(** ** Sign-up and sign-in ([password/service.go]) *)

(** What a sign-up draws: the salt, the user id, the session, the verification link. *)
Record SignupDraw := mkSignupDraw { sd_salt : option string; sd_id : string; sd_link : option string; sd_link_id : string; sd_link_ttl : Z; sd_sent : bool }.

Definition Signup (st : state) (clk : nat -> Z) (e : IssueEnv) (gate : option bool) (d : SignupDraw) (email password ua ip : string)
  : state * result signin_error (User * string) :=
  match ParseAddress (Normalize email) with
  | None => (st, Err PInvalidEmail)
  | Some addr =>
      let email := Normalize addr in
      match ValidatePassword password with
      | Some err => (st, Err err)
      | None =>
          if bool_decide (gate = Some false) then (st, Err PGate)
          else match by_email (si_users st) email with
          | Some _ => (st, Err PEmailTaken)
          | None =>
              match HashPassword (sd_salt d) password with
              | Err err => (st, Err (PHash err))
              | Ok hash =>
                  let user := new_user (sd_id d) email None (clk 0%nat) in
                  let st := signin_CreateUser st user in
                  match SetUserPassword st (u_id user) hash with
                  | None => (st, Err PNotFound)
                  | Some st =>
                      match Issue st (with_amr e AMRPassword) (u_id user) ua ip with
                      | (st, Err err) => (st, Err err)
                      | (st, Ok (tok, _)) =>
                          ((RequestLink st (clk 1%nat) (sd_link_ttl d) (sd_link d) (sd_link_id d) email (sd_sent d)).1, Ok (user, tok))
                      end
                  end
              end
          end
      end
  end.

Definition confirmed_secret (st : state) (userID : string) : bool :=
  match tt_secrets (si_totp st) !! userID with Some (mkSecret _ _ (Some _) _ _) => true | _ => false end.

(** What a sign-in tells the audit emitter: [login.failed] with its target, if any, and its reason, and [user.login],
    whose metadata has a hash of the address. *)
Inductive login_event :=
  | LoginFailed (target : option string) (ua ip reason : string)
  | UserLogin (userID ua ip email : string).

Definition emitLoginFailed (userID : option string) (ua ip reason : string) : login_event := LoginFailed userID ua ip reason.

(** The reason of a refusal by the account gate: the code of its error. *)
Definition gate_reason (err : signin_error) : string :=
  match err with
  | PAccountDisabled => "account_disabled"
  | PPasswordChangeRequired => "password_change_required"
  | _ => "blocked"
  end.

(** The part of a sign-in after the credential is proven, with what it emits. *)
Definition finish_signin_emits (st : state) (clk : nat -> Z) (e : IssueEnv) (cookie : string) (user : User) (email ua ip : string)
  : state * result signin_error (string * User * SigninStep) * list login_event :=
  match checkAccount st (u_id user) with
  | Some err => ((st, Err err), [emitLoginFailed (Some (u_id user)) ua ip (gate_reason err)])
  | None =>
      let '(st, trusted) :=
        if pc_totp cfg && confirmed_secret st (u_id user) then trustedDevice st (clk 2%nat) (u_id user) cookie else (st, true) in
      if trusted then
        match Issue st (with_amr e AMRPassword) (u_id user) ua ip with
        | (st, Ok (tok, _)) => ((st, Ok (tok, user, SigninStepFull)), [UserLogin (u_id user) ua ip email])
        | (st, Err err) => ((st, Err err), [])
        end
      else
        match IssuePending2FA (si_totp st) (with_amr e AMRPassword) (u_id user) ua ip with
        | (t, Ok (tok, _)) => ((set_totp st t, Ok (tok, user, SigninStepTOTPRequired)), [])
        | (t, Err err) => ((set_totp st t, Err (PTotp err)), [])
        end
  end.

(** An upgraded hash is stored; a failed write only logs. *)
Definition upgrade (st : state) (userID newHash : string) : state :=
  if (newHash =? "")%string then st else default st (SetUserPassword st userID newHash).

(** The whole [Signin] with what it emits. *)
Definition Signin_emits (st : state) (clk : nat -> Z) (e : IssueEnv) (salt : option string) (cookie email password ua ip : string)
  : state * result signin_error (string * User * SigninStep) * list login_event :=
  let email := Normalize email in
  match checkThrottle st (clk 0%nat) ip email with
  | Some err => ((st, Err err), [])
  | None =>
      match UserByEmailWithPassword st email with
      | None => ((recordFailure st (clk 1%nat) ip email, Err PInvalidCredentials), [emitLoginFailed None ua ip "unknown_user"])
      | Some (user, hash) =>
          if (hash =? "")%string
          then ((recordFailure st (clk 1%nat) ip email, Err PInvalidCredentials), [emitLoginFailed (Some (u_id user)) ua ip "no_password"])
          else match VerifyCredential salt password hash (pc_legacy cfg) with
          | Err err => ((st, Err (PHash err)), [])
          | Ok (false, _) =>
              ((recordFailure st (clk 1%nat) ip email, Err PInvalidCredentials), [emitLoginFailed (Some (u_id user)) ua ip "bad_password"])
          | Ok (true, newHash) =>
              finish_signin_emits (upgrade (recordSuccess st ip email) (u_id user) newHash) clk e cookie user email ua ip
          end
      end
  end.

(** [Signin] as its caller and the stores see it. *)
Definition Signin (st : state) (clk : nat -> Z) (e : IssueEnv) (salt : option string) (cookie email password ua ip : string)
  : state * result signin_error (string * User * SigninStep) := (Signin_emits st clk e salt cookie email password ua ip).1.

(** ** Resets *)

(** [mintAndSendReset]: a failed delivery only logs. *)
Definition mintAndSendReset (st : state) (now : Z) (draw : option string) (id userID : string) : state * result signin_error string :=
  match draw with
  | None => (st, Err PNewToken)
  | Some token =>
      match CreatePasswordResetToken st (mkReset id userID (hash_token token) (now + PasswordResetTTL) None now) with
      | None => (st, Err PNotFound)
      | Some st => (st, Ok token)
      end
  end.

(** [RequestReset] answers nil in both cases; for a known address it leaves a delivery to do. *)
Definition RequestReset (st : state) (email : string) : option string := u_id <$> by_email (si_users st) (Normalize email).

Definition Reset (st : state) (clk : nat -> Z) (salt : option string) (token newPassword : string)
  : state * result signin_error string :=
  if (token =? "")%string then (st, Err PResetInvalid)
  else match ValidatePassword newPassword with
  | Some err => (st, Err err)
  | None =>
      match ConsumePasswordResetToken st (hash_token token) (clk 0%nat) with
      | None => (st, Err PResetInvalid)
      | Some (st, rt) =>
          if Before (rt_expires rt) (clk 1%nat) then (st, Err PResetExpired)
          else match HashPassword salt newPassword with
          | Err err => (st, Err (PHash err))
          | Ok hash =>
              match SetUserPassword st (rt_user rt) hash with
              | None => (st, Err PNotFound)
              | Some st =>
                  let st := passwordChanged st (rt_user rt) (clk 2%nat) in
                  (set_sessions st (RevokeUserSessions (tt_sessions (si_totp st)) (rt_user rt) (clk 3%nat)), Ok (rt_user rt))
              end
          end
      end
  end.

Definition AdminSetPassword (st : state) (clk : nat -> Z) (salt : option string) (email newPassword : string) (requireChange : bool)
  : state * result signin_error string :=
  let email := Normalize email in
  match ValidatePassword newPassword with
  | Some err => (st, Err err)
  | None =>
      match by_email (si_users st) email with
      | None => (st, Err PNotFound)
      | Some user =>
          match HashPassword salt newPassword with
          | Err err => (st, Err (PHash err))
          | Ok hash =>
              match SetUserPassword st (u_id user) hash with
              | None => (st, Err PNotFound)
              | Some st =>
                  let st := passwordChanged st (u_id user) (clk 0%nat) in
                  let required := match pc_account cfg with
                                  | Some al => if requireChange then RequireChange al st (u_id user) else Ok st
                                  | None => Ok st
                                  end in
                  match required with
                  | Err err => (st, Err err)
                  | Ok st =>
                      let st := set_sessions st (RevokeUserSessions (tt_sessions (si_totp st)) (u_id user) (clk 1%nat)) in
                      let st := match pc_throttle cfg with
                                | None => st
                                | Some _ => set_limiter st (pc_clear cfg (UnlockIdentifier (tt_limiter (si_totp st)) email (u_id user)) email)
                                end in
                      (st, Ok (u_id user))
                  end
              end
          end
      end
  end.
End SignIn.

(** ** Signing in *)

Section Properties.
Context `{SessionLib} `{PasswordLaws} `{SignInLib} {St : Type} `{ThrottleStore St} (cfg : PasswordConfig St).

Abbreviation state := (SignInState St).

Lemma by_email_Some (users : gmap string User) email u :
  by_email users email = Some u -> u_email u = email ∧ ∃ k, users !! k = Some u.
Proof.
  unfold by_email. intros [Hin He%String.eqb_eq]%find_some. split; [done|]. apply list_elem_of_In, list_elem_of_fmap in Hin as ([k x] & -> & Hk).
  exists k. by apply elem_of_map_to_list.
Qed.

(** What a successful issue stores. *)
Definition issued (st' : state) (e : IssueEnv) (userID tok level : string) (methods : list string) : Prop :=
  ∃ s, tt_sessions (si_totp st') !! ie_id e = Some s ∧ se_user s = userID ∧ se_hash s = hash_token tok ∧ se_level s = level
    ∧ se_methods s = methods ∧ se_revoked s = None.

Definition same_accounts (st st' : state) : Prop :=
  si_users st' = si_users st ∧ si_hashes st' = si_hashes st ∧ si_resets st' = si_resets st ∧ si_links st' = si_links st ∧ si_acct st' = si_acct st.

Lemma Issue_ok st e method userID ua ip st' tok s :
  Issue cfg st (with_amr e method) userID ua ip = (st', Ok (tok, s)) ->
  issued st' e userID tok AuthLevelFull [method] ∧ same_accounts st st' ∧ si_devices st' = si_devices st
  ∧ CheckAccount (session_service cfg st) userID = true.
Proof.
  unfold Issue, IssueWith. destruct (CheckAccount _ _); simpl; [|done]. destruct (EnforceCap _ _ _ _ _ _ _) as [ss [err|]]; simpl; [done|].
  destruct (ie_token e) as [token|]; simpl; [|done]. intros [= <- <- <-]. split; [|done].
  eexists. simpl. rewrite lookup_insert_eq. split; [done|]. by split_and!.
Qed.

Lemma Issue_frame st e userID ua ip st' r :
  Issue cfg st e userID ua ip = (st', r) -> same_accounts st st' ∧ si_devices st' = si_devices st.
Proof. unfold Issue. destruct (IssueWith _ _ _ _ _) as [ss [|]]; intros [= <- _]; done. Qed.

Lemma IssuePending2FA_ok (t : TotpState St) e method userID ua ip t' tok s :
  IssuePending2FA t (with_amr e method) userID ua ip = (t', Ok (tok, s)) ->
  ∃ ss, t' = Totp.with_sessions t ss ∧ ∃ s, ss !! ie_id e = Some s ∧ se_user s = userID ∧ se_hash s = hash_token tok
    ∧ se_level s = AuthLevelPending2FA ∧ se_methods s = [method] ∧ se_revoked s = None.
Proof.
  unfold IssuePending2FA. simpl. destruct (ie_token e) as [token|]; [|done]. intros [= <- <- <-]. eexists. split; [done|].
  eexists. rewrite lookup_insert_eq. split; [done|]. by split_and!.
Qed.

Lemma trustedDevice_frame st now userID cookie :
  same_accounts st (trustedDevice cfg st now userID cookie).1 ∧ si_totp (trustedDevice cfg st now userID cookie).1 = si_totp st.
Proof.
  unfold trustedDevice, Trusted, TouchTrustedDevice. repeat case_match; simpl; try done. by destruct (si_devices st !! td_id _).
Qed.

(** A device is trusted only if its cookie carries the authentication code of a token whose row is the
    user's, not revoked and not expired. *)
Lemma trustedDevice_sound st now userID cookie :
  (trustedDevice cfg st now userID cookie).2 = true ->
  ∃ ds tok d, pc_devices cfg = Some ds ∧ cookie_token ds cookie = Some tok
    ∧ TrustedDeviceByTokenHash st userID (hash_token tok) = Some d ∧ td_revoked d = None ∧ now < td_expires d.
Proof.
  unfold trustedDevice. destruct (pc_devices cfg) as [ds|]; [|done]. destruct (cookie =? "")%string; [done|]. unfold Trusted.
  destruct (cookie_token ds cookie) as [tok|] eqn:Ht; [|done]. destruct (TrustedDeviceByTokenHash _ _ _) as [d|] eqn:Hd; [|done].
  destruct (bool_decide_reflect (td_revoked d = None)); simpl; [|done]. unfold After.
  destruct (Z.ltb_spec now (td_expires d)); simpl; [|done]. eauto 9.
Qed.

Lemma trustedDevice_eq st st2 now userID cookie :
  si_devices st2 = si_devices st -> (trustedDevice cfg st2 now userID cookie).2 = (trustedDevice cfg st now userID cookie).2.
Proof. intros Hd. unfold trustedDevice, Trusted, TrustedDeviceByTokenHash. rewrite Hd. repeat case_match; done. Qed.

Lemma upgrade_frame (st : state) userID newHash :
  si_devices (upgrade st userID newHash) = si_devices st ∧ si_acct (upgrade st userID newHash) = si_acct st
  ∧ si_totp (upgrade st userID newHash) = si_totp st.
Proof. unfold upgrade, SetUserPassword. repeat case_match; done. Qed.

Lemma recordSuccess_frame st ip ident :
  same_accounts st (recordSuccess cfg st ip ident) ∧ si_devices (recordSuccess cfg st ip ident) = si_devices st
  ∧ tt_secrets (si_totp (recordSuccess cfg st ip ident)) = tt_secrets (si_totp st).
Proof. unfold recordSuccess. by case_match. Qed.

(** The second factor may be skipped: it is not required of this user, or the device is trusted. *)
Definition factor_waived (st : state) (now : Z) (userID cookie : string) : Prop :=
  pc_totp cfg && confirmed_secret st userID = false ∨ (trustedDevice cfg st now userID cookie).2 = true.

Lemma finish_signin_ok st clk e cookie user email ua ip st' tok u step :
  (finish_signin_emits cfg st clk e cookie user email ua ip).1 = (st', Ok (tok, u, step)) ->
  u = user ∧ checkAccount cfg st (u_id user) = None
  ∧ match step with
    | SigninStepFull => factor_waived st (clk 2%nat) (u_id user) cookie ∧ issued st' e (u_id user) tok AuthLevelFull [AMRPassword]
    | SigninStepTOTPRequired => ~ factor_waived st (clk 2%nat) (u_id user) cookie ∧ issued st' e (u_id user) tok AuthLevelPending2FA [AMRPassword]
    end.
Proof.
  unfold finish_signin_emits, factor_waived. destruct (checkAccount cfg st (u_id user)); [done|].
  destruct (pc_totp cfg && confirmed_secret st (u_id user)) eqn:Hreq.
  - destruct (trustedDevice cfg st (clk 2%nat) (u_id user) cookie) as [st2 trusted] eqn:Ht. destruct trusted; simpl.
    + destruct (Issue _ _ _ _ _ _) as [st3 [[tok' s]|]] eqn:Hi; [|done]. intros [= <- <- <- <-]. apply Issue_ok in Hi as (? & _). auto.
    + destruct (IssuePending2FA _ _ _ _ _) as [t [[tok' s]|]] eqn:Hi; [|done]. intros [= <- <- <- <-].
      apply IssuePending2FA_ok in Hi as (ss & -> & s' & Hs). split_and!; [done|done| |by exists s']. intros [?|?]; done.
  - destruct (Issue _ _ _ _ _ _) as [st3 [[tok' s]|]] eqn:Hi; [|done]. intros [= <- <- <- <-]. apply Issue_ok in Hi as (? & _). auto.
Qed.

(** C28. A sign-in succeeds only for the stored user of the normalized address, when the attempt is not throttled,
    the password verifies against the stored hash and the account may sign in. The session it issues is full
    exactly when no second factor is confirmed, or the device is a trusted one, and waits for the second
    factor otherwise. *)
Theorem signin_sound st clk e salt cookie email password ua ip st' tok user step :
  Signin cfg st clk e salt cookie email password ua ip = (st', Ok (tok, user, step)) ->
  let ident := Normalize cfg email in
  checkThrottle cfg st (clk 0%nat) ip ident = None ∧ by_email (si_users st) ident = Some user
  ∧ (∃ hash newHash, si_hashes st !! u_id user = Some hash ∧ VerifyCredential salt password hash (pc_legacy cfg) = Ok (true, newHash))
  ∧ checkAccount cfg st (u_id user) = None
  ∧ match step with
    | SigninStepFull => factor_waived st (clk 2%nat) (u_id user) cookie ∧ issued st' e (u_id user) tok AuthLevelFull [AMRPassword]
    | SigninStepTOTPRequired => ~ factor_waived st (clk 2%nat) (u_id user) cookie ∧ issued st' e (u_id user) tok AuthLevelPending2FA [AMRPassword]
    end.
Proof.
  intros Hs ident. unfold Signin, Signin_emits in Hs. fold ident in Hs. destruct (checkThrottle _ _ _ _ _); [done|]. split; [done|].
  unfold UserByEmailWithPassword in Hs. destruct (by_email _ ident) as [u|] eqn:Hu; [|done]. simpl in Hs.
  destruct (default "" (si_hashes st !! u_id u) =? "")%string eqn:Hne; [done|]. destruct (VerifyCredential _ _ _ _) as [[[] newHash]|] eqn:Hv; [|done..].
  set (st1 := upgrade (recordSuccess cfg st ip ident) (u_id u) newHash) in *.
  apply finish_signin_ok in Hs as (-> & Hacc & Hstep).
  destruct (recordSuccess_frame st ip ident) as ((_ & _ & _ & _ & Ha) & Hd & Hsec).
  destruct (upgrade_frame (recordSuccess cfg st ip ident) (u_id u) newHash) as (Hd2 & Ha2 & Ht2). fold st1 in Hd2, Ha2, Ht2.
  assert (Hacct : checkAccount cfg st1 (u_id u) = checkAccount cfg st (u_id u)).
  { unfold checkAccount, CheckSignin, user_state. by rewrite Ha2, Ha. }
  assert (Hfw : factor_waived st1 (clk 2%nat) (u_id u) cookie ↔ factor_waived st (clk 2%nat) (u_id u) cookie).
  { unfold factor_waived, confirmed_secret. rewrite Ht2, Hsec. by rewrite (trustedDevice_eq st st1) by (by rewrite Hd2, Hd). }
  split; [done|]. split.
  - destruct (si_hashes st !! u_id u) as [hash|]; [|done]. simpl in Hv. eauto.
  - rewrite <- Hacct. split; [done|]. destruct step; by rewrite <- Hfw.
Qed.

(** C40. A refused credential does not tell its caller why: for an unknown address, an account without a password and a
    wrong password, an attempt that is not throttled gets one and the same error, and changes nothing but the login
    limiter, in the same way in the three cases (one failure recorded for the address and the IP where throttling is
    configured, nothing where it is not). The audit trail does tell them apart: each emits one [login.failed], with the
    reason [unknown_user] and no target, or [no_password] or [bad_password] for the user of the address. *)
Theorem signin_refusals_alike st clk e salt cookie email password ua ip :
  let ident := Normalize cfg email in
  checkThrottle cfg st (clk 0%nat) ip ident = None ->
  (∀ user, by_email (si_users st) ident = Some user -> default "" (si_hashes st !! u_id user) ≠ "" ->
    ∃ h, VerifyCredential salt password (default "" (si_hashes st !! u_id user)) (pc_legacy cfg) = Ok (false, h)) ->
  Signin_emits cfg st clk e salt cookie email password ua ip
    = ((recordFailure cfg st (clk 1%nat) ip ident, Err PInvalidCredentials),
       [match by_email (si_users st) ident with
        | None => LoginFailed None ua ip "unknown_user"
        | Some user => LoginFailed (Some (u_id user)) ua ip
            (if decide (default "" (si_hashes st !! u_id user) = "") then "no_password" else "bad_password")
        end])
  ∧ match pc_throttle cfg with
    | None => recordFailure cfg st (clk 1%nat) ip ident = st
    | Some c => recordFailure cfg st (clk 1%nat) ip ident
        = set_limiter st (default (tt_limiter (si_totp st)) (RecordLoginFailure c (tt_limiter (si_totp st)) (clk 1%nat) ip ident))
    end.
Proof.
  intros ident Ht Hw. split.
  - unfold Signin_emits. fold ident. rewrite Ht. unfold UserByEmailWithPassword.
    destruct (by_email _ ident) as [u|] eqn:Hu; simpl; [|done]. destruct (String.eqb_spec (default "" (si_hashes st !! u_id u)) "") as [He|Hne].
    + by rewrite decide_True by done.
    + destruct (Hw u eq_refl Hne) as [h ->]. by rewrite decide_False by done.
  - unfold recordFailure. destruct (pc_throttle cfg) as [c|]; [|done]. destruct (RecordLoginFailure _ _ _ _ _); [done|].
    destruct st as [t]. by destruct t.
Qed.

(** ** Resets and links *)

Lemma find_reset (st : state) hash now it :
  List.find (reset_usable hash now) (map_to_list (si_resets st)) = Some it ->
  si_resets st !! it.1 = Some it.2 ∧ rt_hash it.2 = hash ∧ rt_used it.2 = None ∧ now <= rt_expires it.2.
Proof.
  intros [Hin Hu]%find_some. apply list_elem_of_In in Hin. destruct it as [id t]. apply elem_of_map_to_list in Hin. simpl in *.
  unfold reset_usable in Hu. simpl in Hu. rewrite !andb_true_iff in Hu. destruct Hu as [[Hh%String.eqb_eq Hn%bool_decide_eq_true] Hb].
  unfold Before in Hb. apply negb_true_iff, Z.ltb_ge in Hb. done.
Qed.

Lemma passwordChanged_frame st userID now :
  si_users (passwordChanged cfg st userID now) = si_users st ∧ si_hashes (passwordChanged cfg st userID now) = si_hashes st
  ∧ si_resets (passwordChanged cfg st userID now) = si_resets st ∧ si_links (passwordChanged cfg st userID now) = si_links st
  ∧ si_totp (passwordChanged cfg st userID now) = si_totp st.
Proof. unfold passwordChanged, PasswordChanged, set_must_change. by repeat case_match. Qed.

(** C29. A reset that succeeds was made with a stored, unused token that had not expired, neither when it was
    consumed nor when it was checked again; afterwards the new password, and no
    other up to collisions of the key derivation, verifies; every session and every trusted device of the user
    is revoked, and the user is no longer told to change the password. *)
Theorem reset_effect st clk salt token newPassword st' userID :
  Reset cfg st clk salt token newPassword = (st', Ok userID) ->
  (∃ id t, si_resets st !! id = Some t ∧ rt_hash t = hash_token token ∧ rt_used t = None ∧ rt_user t = userID
     ∧ clk 0%nat <= rt_expires t ∧ clk 1%nat <= rt_expires t
     ∧ si_resets st' = <[id := use_reset t (clk 0%nat)]> (si_resets st))
  ∧ (∃ s h, salt = Some s ∧ si_hashes st' = <[userID := h]> (si_hashes st)
     ∧ ∀ salt' pw, VerifyCredential salt' pw h (pc_legacy cfg)
         = Ok (bool_decide (IDKey pw s argonTime argonMemoryKiB argonThreads argonKeyLen
                            = IDKey newPassword s argonTime argonMemoryKiB argonThreads argonKeyLen), ""))
  ∧ (∀ k s, tt_sessions (si_totp st') !! k = Some s -> se_user s = userID -> is_Some (se_revoked s))
  ∧ (∀ al, pc_account cfg = Some al ->
       (al_state al = true -> as_must_change (user_state st' userID) = false)
       ∧ (is_Some (al_devices al) -> ∀ k d, si_devices st' !! k = Some d -> td_user d = userID -> is_Some (td_revoked d))).
Proof.
  unfold Reset. destruct (token =? "")%string; [done|]. destruct (ValidatePassword cfg newPassword); [done|].
  unfold ConsumePasswordResetToken. destruct (List.find _ _) as [[id t]|] eqn:Hf; simpl; [|done].
  apply find_reset in Hf as (Hid & Hh & Hun & Hexp). simpl in *. destruct (Before _ _) eqn:Hb; [done|]. apply Z.ltb_ge in Hb.
  destruct salt as [s|]; [|done]. destruct (HashPassword (Some s) newPassword) as [h|] eqn:Hhash; [|done].
  unfold SetUserPassword. simpl. destruct (si_users st !! rt_user t) as [u|] eqn:Hu; [|done]. simpl.
  set (st1 := set_hashes _ _). intros [= <- <-]. destruct (passwordChanged_frame st1 (rt_user t) (clk 2%nat)) as (Hus & Hhs & Hrs & _ & Htt).
  simpl. rewrite Hrs, Hhs. split; [by exists id, t|]. split; [exists s, h; split_and!; [done|done|]; intros; by apply own_credential|]. split.
  - intros k x. unfold RevokeUserSessions. rewrite lookup_fmap. intros (y & Hy & ->)%fmap_Some Huser.
    destruct (bool_decide_reflect (se_user y = rt_user t)) as [|Hne]; simpl in *; [|done].
    destruct (bool_decide_reflect (se_revoked y = None)) as [|Hr]; simpl; [done|]. by apply not_eq_None_Some.
  - intros al Hal. unfold passwordChanged, PasswordChanged, set_must_change. rewrite Hal. simpl. rewrite Hu. split.
    + intros ->. unfold user_state. destruct (al_devices al); simpl; by rewrite lookup_insert_eq.
    + intros [ds ->]. intros k d. destruct (al_state al); simpl; rewrite lookup_fmap; intros (y & Hy & ->)%fmap_Some Huser;
        (destruct (bool_decide_reflect (td_user y = rt_user t)); simpl in *; [|done]);
        (destruct (bool_decide_reflect (td_revoked y = None)) as [|Hr]; simpl; [done|]; by apply not_eq_None_Some).
Qed.

(** *** Any run of operations *)

Inductive signin_op :=
  | OSignup (clk : nat -> Z) (e : IssueEnv) (gate : option bool) (d : SignupDraw) (email password ua ip : string)
  | OSignin (clk : nat -> Z) (e : IssueEnv) (salt : option string) (cookie email password ua ip : string)
  | ORequestLink (now ttl : Z) (draw : option string) (id email : string) (sent : bool)
  | OConsume (clk : nat -> Z) (e : IssueEnv) (gate : option bool) (id token : string)
  | ODeliverReset (now : Z) (draw : option string) (id userID : string)
  | OReset (clk : nat -> Z) (salt : option string) (token newPassword : string)
  | OAdmin (clk : nat -> Z) (salt : option string) (email newPassword : string) (requireChange : bool)
  | ORemember (ds : DeviceService) (now : Z) (tok : option string) (id userID ua ip : string)
  | ORevokeDevice (userID id : string) (now : Z)
  | ORevokeDevices (userID : string) (now : Z)
  | OSecondFactor (f : TotpState St -> TotpState St).

Definition exec (st : state) (op : signin_op) : state :=
  match op with
  | OSignup clk e gate d email password ua ip => (Signup cfg st clk e gate d email password ua ip).1
  | OSignin clk e salt cookie email password ua ip => (Signin cfg st clk e salt cookie email password ua ip).1
  | ORequestLink now ttl draw id email sent => (RequestLink cfg st now ttl draw id email sent).1
  | OConsume clk e gate id token => (Consume cfg st clk e gate id token).1
  | ODeliverReset now draw id userID => (mintAndSendReset st now draw id userID).1
  | OReset clk salt token newPassword => (Reset cfg st clk salt token newPassword).1
  | OAdmin clk salt email newPassword requireChange => (AdminSetPassword cfg st clk salt email newPassword requireChange).1
  | ORemember ds now tok id userID ua ip => (Remember ds st now tok id userID ua ip).1
  | ORevokeDevice userID id now => default st (RevokeTrustedDevice st userID id now)
  | ORevokeDevices userID now => RevokeUserTrustedDevices st userID now
  | OSecondFactor f => set_totp st (f (si_totp st))
  end.

Definition run (st : state) (ops : list signin_op) : state := fold_left exec ops st.

(** The token is not drawn again, for a link or a reset, under any id or under the id of another row. *)
Definition draws (op : signin_op) : option (string * string) :=
  match op with
  | OSignup _ _ _ d _ _ _ _ => pair (sd_link_id d) <$> sd_link d
  | ORequestLink _ _ draw id _ _ | ODeliverReset _ draw id _ => pair id <$> draw
  | _ => None
  end.

(** No row with this hash can be used. *)
Definition spent (h : string) (st : state) : Prop :=
  (∀ id t, si_resets st !! id = Some t -> rt_hash t = h -> is_Some (rt_used t))
  ∧ (∀ id l, si_links st !! id = Some l -> ml_hash l = h -> is_Some (ml_used l)).

Lemma spent_same h (st st' : state) : si_resets st' = si_resets st -> si_links st' = si_links st -> spent h st -> spent h st'.
Proof. unfold spent. by intros -> ->. Qed.

Lemma spent_link h (st : state) l : spent h st -> hash_token l.1 ≠ h -> ml_hash l.2 = hash_token l.1 -> spent h (CreateMagicLink st l.2).
Proof.
  intros [Hr Hl] Hne Hm. split; [done|]. intros id x. simpl. destruct (decide (ml_id l.2 = id)) as [<-|Hd].
  - rewrite lookup_insert_eq. intros [= <-]. congruence.
  - rewrite lookup_insert_ne by done. eauto.
Qed.

Lemma RequestLink_spent h st now ttl draw id email sent :
  (∀ tok, draw = Some tok -> hash_token tok ≠ h) -> spent h st -> spent h (RequestLink cfg st now ttl draw id email sent).1.
Proof.
  intros Hd Hs. unfold RequestLink. destruct draw as [tok|]; [|done]. simpl.
  apply (spent_link h st (tok, mkLink id (Normalize cfg email) (hash_token tok) (now + ttl) None now)); [done|by apply Hd|done].
Qed.

Lemma Consume_spent h st clk e gate id token : spent h st -> spent h (Consume cfg st clk e gate id token).1.
Proof.
  intros [Hr Hl]. unfold Consume, ConsumeMagicLink. destruct (List.find _ _) as [[k l]|] eqn:Hf; simpl; [|done].
  apply find_some in Hf as [Hin _]. apply list_elem_of_In, elem_of_map_to_list in Hin. simpl in Hin.
  set (st1 := set_links st _). assert (Hs1 : spent h st1).
  { split; [done|]. intros j x. simpl. destruct (decide (k = j)) as [<-|Hne]; [rewrite lookup_insert_eq; by intros [= <-]|].
    rewrite lookup_insert_ne by done. eauto. }
  destruct (Before _ _); [done|]. assert (Hs2 : spent h (link_user st1 clk gate id (use_link l (clk 0%nat))).1).
  { unfold link_user. destruct (by_email _ _) as [u|].
    - destruct (u_verified u); [done|]. unfold MarkEmailVerified. by destruct (si_users st1 !! u_id u).
    - destruct gate as [[]|]; simpl; done. }
  destruct (link_user _ _ _ _ _) as [st2 [[u created]|]]; [|done]. simpl in Hs2.
  destruct (Issue _ _ _ _ _ _) as [st3 r] eqn:Hi. apply Issue_frame in Hi as ((_ & _ & Q1 & Q2 & _) & _).
  destruct r as [[]|]; simpl; by eapply spent_same.
Qed.

Lemma Reset_spent h st clk salt token newPassword : spent h st -> spent h (Reset cfg st clk salt token newPassword).1.
Proof.
  intros [Hr Hl]. unfold Reset. destruct (token =? "")%string; [done|]. destruct (ValidatePassword cfg newPassword); [done|].
  unfold ConsumePasswordResetToken. destruct (List.find _ _) as [[id t]|] eqn:Hf; simpl; [|done].
  set (st1 := set_resets st _). assert (Hs1 : spent h st1).
  { split; [|done]. intros j x. simpl. destruct (decide (id = j)) as [<-|Hne]; [rewrite lookup_insert_eq; by intros [= <-]|].
    rewrite lookup_insert_ne by done. eauto. }
  destruct (Before _ _); [done|]. destruct (HashPassword salt newPassword) as [hash|]; [|done]. unfold SetUserPassword.
  destruct (si_users st1 !! _); [|done]. simpl. eapply spent_same; [| |exact Hs1]; simpl.
  - by rewrite (proj1 (proj2 (proj2 (passwordChanged_frame _ _ _)))).
  - by rewrite (proj1 (proj2 (proj2 (proj2 (passwordChanged_frame _ _ _))))).
Qed.

Lemma AdminSetPassword_frame st clk salt email newPassword requireChange :
  let st' := (AdminSetPassword cfg st clk salt email newPassword requireChange).1 in
  si_resets st' = si_resets st ∧ si_links st' = si_links st.
Proof.
  simpl. unfold AdminSetPassword, SetUserPassword, RequireChange, set_must_change.
  destruct (ValidatePassword _ _); [done|]. destruct (by_email _ _) as [u|]; [|done]. destruct (HashPassword _ _) as [h|]; [|done].
  destruct (si_users st !! u_id u); [|done]. set (st1 := set_hashes st _).
  destruct (passwordChanged_frame st1 (u_id u) (clk 0%nat)) as (_ & _ & Q1 & Q2 & _). simpl in Q1, Q2.
  destruct (pc_account cfg) as [al|]; [destruct requireChange; [destruct (al_state al); simpl; [destruct (si_users _ !! _); simpl|]|]|];
    destruct (pc_throttle cfg); simpl; by rewrite ?Q1, ?Q2.
Qed.

Lemma Signin_frame st clk e salt cookie email password ua ip :
  let st' := (Signin cfg st clk e salt cookie email password ua ip).1 in si_resets st' = si_resets st ∧ si_links st' = si_links st.
Proof.
  simpl. assert (Hrf : ∀ now ident, si_resets (recordFailure cfg st now ip ident) = si_resets st ∧ si_links (recordFailure cfg st now ip ident) = si_links st).
  { intros. unfold recordFailure. by repeat case_match. }
  unfold Signin, Signin_emits. destruct (checkThrottle _ _ _ _ _); [done|]. destruct (UserByEmailWithPassword _ _) as [[u h]|]; [|apply Hrf].
  destruct (h =? "")%string; [apply Hrf|]. destruct (VerifyCredential _ _ _ _) as [[[] nh]|]; [|apply Hrf|done].
  set (st1 := upgrade _ _ _). assert (Q1 : si_resets st1 = si_resets st ∧ si_links st1 = si_links st).
  { unfold st1, upgrade, SetUserPassword, recordSuccess. by repeat case_match. }
  destruct Q1 as [Q1 Q2]. rewrite <- Q1, <- Q2. clearbody st1. unfold finish_signin_emits. destruct (checkAccount _ _ _); [done|].
  destruct (trustedDevice_frame st1 (clk 2%nat) (u_id u) cookie) as ((_ & _ & Q3 & Q4 & _) & _).
  destruct (pc_totp cfg && _); [destruct (trustedDevice _ _ _ _ _) as [st2 []]|]; simpl in *; [rewrite <- Q3, <- Q4..|].
  - destruct (Issue _ _ _ _ _ _) as [st3 [[]|]] eqn:Hi; apply Issue_frame in Hi as ((_ & _ & ? & ? & _) & _); done.
  - destruct (IssuePending2FA _ _ _ _ _) as [t [[]|]]; done.
  - destruct (Issue _ _ _ _ _ _) as [st3 [[]|]] eqn:Hi; apply Issue_frame in Hi as ((_ & _ & ? & ? & _) & _); done.
Qed.
Lemma Signup_spent h st clk e gate d email password ua ip :
  (∀ tok, sd_link d = Some tok -> hash_token tok ≠ h) -> spent h st -> spent h (Signup cfg st clk e gate d email password ua ip).1.
Proof.
  intros Hd Hs. unfold Signup, SetUserPassword. destruct (ParseAddress _) as [addr|]; [|done]. destruct (ValidatePassword _ _); [done|].
  destruct (bool_decide _); [done|]. destruct (by_email _ _); [done|]. destruct (HashPassword _ _) as [hash|]; [|done].
  destruct (si_users _ !! _); [|done]. destruct (Issue _ _ _ _ _ _) as [st3 r] eqn:Hi. apply Issue_frame in Hi as ((_ & _ & Q1 & Q2 & _) & _).
  assert (Hs3 : spent h st3) by (by eapply spent_same). destruct r as [[]|]; simpl; [|done]. by apply RequestLink_spent.
Qed.

(** No operation makes a spent token usable again, unless it draws a token with the same hash. *)
Lemma exec_spent h st op :
  (∀ id tok, draws op = Some (id, tok) -> hash_token tok ≠ h) -> spent h st -> spent h (exec st op).
Proof.
  intros Hd Hs. destruct op; simpl in *.
  - apply Signup_spent; [|done]. intros tok Ht. apply (Hd (sd_link_id d)). by rewrite Ht.
  - by eapply spent_same; [apply Signin_frame..|].
  - apply RequestLink_spent; [|done]. intros tok ->. by apply (Hd id).
  - by apply Consume_spent.
  - unfold mintAndSendReset, CreatePasswordResetToken. destruct draw as [tok|]; [|done]. simpl. destruct (si_users st !! _); [|done].
    destruct Hs as [Hr Hl]. split; [|done]. intros i t. simpl. destruct (decide (id = i)) as [<-|Hne].
    + rewrite lookup_insert_eq. intros [= <-]. simpl. intros Heq. by destruct (Hd id tok).
    + rewrite lookup_insert_ne by done. eauto.
  - by apply Reset_spent.
  - by eapply spent_same; [apply AdminSetPassword_frame..|].
  - by destruct tok.
  - unfold RevokeTrustedDevice. by repeat case_match.
  - done.
  - done.
Qed.

Definition draws_avoid (h : string) (ops : list signin_op) : Prop :=
  Forall (fun op => ∀ id tok, draws op = Some (id, tok) -> hash_token tok ≠ h) ops.

Lemma run_spent h ops : ∀ st, draws_avoid h ops -> spent h st -> spent h (run st ops).
Proof.
  induction ops as [|op ops IH]; intros st Hd Hs; [done|]. apply Forall_cons in Hd as [Hop Hd]. simpl. apply IH; [done|]. by apply exec_spent.
Qed.

Lemma spent_no_reset h (st : state) now : spent h st -> ConsumePasswordResetToken st h now = None.
Proof.
  intros [Hr _]. unfold ConsumePasswordResetToken. destruct (List.find _ _) as [[id t]|] eqn:Hf; [|done].
  apply find_reset in Hf as (Hid & Hh & Hun & _). simpl in *. destruct (Hr id t Hid Hh). congruence.
Qed.

Lemma find_link (st : state) hash now it :
  List.find (link_usable hash now) (map_to_list (si_links st)) = Some it ->
  si_links st !! it.1 = Some it.2 ∧ ml_hash it.2 = hash ∧ ml_used it.2 = None ∧ now <= ml_expires it.2.
Proof.
  intros [Hin Hu]%find_some. apply list_elem_of_In in Hin. destruct it as [id t]. apply elem_of_map_to_list in Hin. simpl in *.
  unfold link_usable in Hu. simpl in Hu. rewrite !andb_true_iff in Hu. destruct Hu as [[Hh%String.eqb_eq Hn%bool_decide_eq_true] Hb].
  unfold Before in Hb. apply negb_true_iff, Z.ltb_ge in Hb. done.
Qed.

Lemma spent_no_link h (st : state) now : spent h st -> ConsumeMagicLink st h now = None.
Proof.
  intros [_ Hl]. unfold ConsumeMagicLink. destruct (List.find _ _) as [[id t]|] eqn:Hf; [|done].
  apply find_link in Hf as (Hid & Hh & Hun & _). simpl in *. destruct (Hl id t Hid Hh). congruence.
Qed.
(** The row of the reset table or of the link table carries this hash. *)
Definition carries (h : string) (st : state) (row : string + string) : Prop :=
  match row with
  | inl id => ∃ t, si_resets st !! id = Some t ∧ rt_hash t = h
  | inr id => ∃ l, si_links st !! id = Some l ∧ ml_hash l = h
  end.

(** The tables hold at most one row for this hash. *)
Definition drawn_once (h : string) (st : state) : Prop := ∀ r r', carries h st r -> carries h st r' -> r = r'.

Lemma spent_after_reset (st : state) h id t now :
  drawn_once h st -> si_resets st !! id = Some t -> rt_hash t = h ->
  spent h (set_resets st (<[id := use_reset t now]> (si_resets st))).
Proof.
  intros Ho Hid Hh. split; simpl.
  - intros j x. destruct (decide (id = j)) as [<-|Hne]; [rewrite lookup_insert_eq; by intros [= <-]|].
    rewrite lookup_insert_ne by done. intros Hj Hx. destruct Hne. assert (inl (B:=string) id = inl j) by (apply Ho; [by exists t|by exists x]). congruence.
  - intros j x Hj Hx. assert (inl (B:=string) id = inr j) by (apply Ho; [by exists t|by exists x]). congruence.
Qed.

Lemma spent_after_link (st : state) h id l now :
  drawn_once h st -> si_links st !! id = Some l -> ml_hash l = h ->
  spent h (set_links st (<[id := use_link l now]> (si_links st))).
Proof.
  intros Ho Hid Hh. split; simpl.
  - intros j x Hj Hx. assert (inr (A:=string) id = inl j) by (apply Ho; [by exists l|by exists x]). congruence.
  - intros j x. destruct (decide (id = j)) as [<-|Hne]; [rewrite lookup_insert_eq; by intros [= <-]|].
    rewrite lookup_insert_ne by done. intros Hj Hx. destruct Hne. assert (inr (A:=string) id = inr j) by (apply Ho; [by exists l|by exists x]). congruence.
Qed.

Lemma Reset_ok_spent st clk salt token newPassword st' userID :
  Reset cfg st clk salt token newPassword = (st', Ok userID) -> drawn_once (hash_token token) st -> spent (hash_token token) st'.
Proof.
  unfold Reset. destruct (token =? "")%string; [done|]. destruct (ValidatePassword cfg newPassword); [done|].
  unfold ConsumePasswordResetToken. destruct (List.find _ _) as [[id t]|] eqn:Hf; simpl; [|done].
  apply find_reset in Hf as (Hid & Hh & _). simpl in *. destruct (Before _ _); [done|]. destruct (HashPassword salt newPassword) as [h|]; [|done].
  unfold SetUserPassword. simpl. destruct (si_users st !! rt_user t) as [u|]; [|done]. intros [= <- <-] Ho. simpl.
  pose proof (spent_after_reset st _ id t (clk 0%nat) Ho Hid Hh) as Hs.
  set (st1 := set_hashes _ _). destruct (passwordChanged_frame st1 (rt_user t) (clk 2%nat)) as (_ & _ & Q1 & Q2 & _).
  by eapply spent_same.
Qed.

Lemma Consume_after st clk e gate id token k l :
  List.find (link_usable (hash_token token) (clk 0%nat)) (map_to_list (si_links st)) = Some (k, l) ->
  si_links (Consume cfg st clk e gate id token).1 = <[k := use_link l (clk 0%nat)]> (si_links st)
  ∧ si_resets (Consume cfg st clk e gate id token).1 = si_resets st.
Proof.
  intros Hf. unfold Consume, ConsumeMagicLink. rewrite Hf. simpl. destruct (Before _ _); [done|]. set (st1 := set_links st _).
  assert (Hl : si_links (link_user st1 clk gate id (use_link l (clk 0%nat))).1 = si_links st1
             ∧ si_resets (link_user st1 clk gate id (use_link l (clk 0%nat))).1 = si_resets st1).
  { unfold link_user. destruct (by_email _ _) as [u|].
    - destruct (u_verified u); [done|]. unfold MarkEmailVerified. by destruct (si_users st1 !! u_id u).
    - destruct gate as [[]|]; simpl; done. }
  destruct Hl as [Hl1 Hl2]. destruct (link_user _ _ _ _ _) as [st2 [[u created]|]]; [|done]. simpl in Hl1, Hl2.
  destruct (Issue _ _ _ _ _ _) as [st3 r] eqn:Hi. apply Issue_frame in Hi as ((_ & _ & Q1 & Q2 & _) & _).
  destruct r as [[]|]; simpl; split; congruence.
Qed.

(** The session of a link: an unused, unexpired link with the token's hash is stored; the session is the one
    of the user with the link's address and is full, whether or not the user has confirmed a second factor. *)
Theorem magic_link_session st clk e gate id token st' tok u created :
  Consume cfg st clk e gate id token = (st', Ok (tok, u, created)) ->
  ∃ k l, si_links st !! k = Some l ∧ ml_hash l = hash_token token ∧ ml_used l = None
    ∧ si_links st' = <[k := use_link l (clk 0%nat)]> (si_links st)
    ∧ u_email u = ml_email l ∧ (created = true -> gate ≠ Some false ∧ by_email (si_users st) (ml_email l) = None)
    ∧ issued st' e (u_id u) tok AuthLevelFull [AMREmail].
Proof.
  intros Hc. destruct (List.find (link_usable (hash_token token) (clk 0%nat)) (map_to_list (si_links st))) as [[k l]|] eqn:Hf.
  2:{ unfold Consume, ConsumeMagicLink in Hc. by rewrite Hf in Hc. }
  pose proof (Consume_after st clk e gate id token k l Hf) as [Hl _]. rewrite Hc in Hl. simpl in Hl.
  unfold Consume, ConsumeMagicLink in Hc. rewrite Hf in Hc. simpl in Hc.
  apply find_link in Hf as (Hk & Hh & Hu & _). exists k, l. split; [done|]. split; [done|]. split; [done|]. split; [done|].
  destruct (Before _ _); [done|]. set (st1 := set_links st _) in *.
  destruct (link_user st1 clk gate id (use_link l (clk 0%nat))) as [st2 [[u2 c2]|]] eqn:Hlu; [|done].
  destruct (Issue _ _ _ _ _ _) as [st3 [[tok' s]|]] eqn:Hi; [|done]. injection Hc as <- <- <- <-. apply Issue_ok in Hi as [Hi _].
  unfold link_user in Hlu. simpl in Hlu. destruct (by_email _ _) as [v|] eqn:Hv.
  - assert (u2 = v ∧ c2 = false) as [-> ->] by (destruct (u_verified v); injection Hlu as _ <- <-; done).
    apply by_email_Some in Hv as [Hv _]. done.
  - destruct gate as [[]|]; simplify_eq; split_and!; done.
Qed.

(** C30. Tokens sent by email work once: once a token of which the tables hold one row has reset a password or
    signed its reader in, no later reset and no later link accepts it, whatever operations ran in between, as
    long as none of them drew a token with the same hash; a refused attempt changes nothing. *)
Theorem tokens_work_once st token st' ops :
  drawn_once (hash_token token) st ->
  (∃ clk salt newPassword userID, Reset cfg st clk salt token newPassword = (st', Ok userID))
    ∨ (∃ clk e gate id r, Consume cfg st clk e gate id token = (st', Ok r)) ->
  draws_avoid (hash_token token) ops ->
  (∀ clk salt newPassword, ValidatePassword cfg newPassword = None ->
     Reset cfg (run st' ops) clk salt token newPassword = (run st' ops, Err PResetInvalid))
  ∧ (∀ clk e gate id, Consume cfg (run st' ops) clk e gate id token = (run st' ops, Err PInvalidToken)).
Proof.
  intros Ho Hused Hd. assert (Hs : spent (hash_token token) (run st' ops)).
  { apply run_spent; [done|]. destruct Hused as [(clk & salt & pw & uid & Hr)|(clk & e & gate & id & r & Hc)]; [by eapply Reset_ok_spent|].
    destruct (List.find (link_usable (hash_token token) (clk 0%nat)) (map_to_list (si_links st))) as [[k l]|] eqn:Hf.
    - pose proof (Consume_after st clk e gate id token k l Hf) as [Q1 Q2]. rewrite Hc in Q1, Q2. apply find_link in Hf as (Hk & Hh & _).
      by eapply spent_same; [| |apply (spent_after_link st _ k l (clk 0%nat))].
    - unfold Consume, ConsumeMagicLink in Hc. by rewrite Hf in Hc. }
  split; [intros clk salt newPassword Hv|intros].
  - unfold Reset. destruct (token =? "")%string; [done|]. rewrite Hv. by rewrite spent_no_reset.
  - unfold Consume. by rewrite spent_no_link.
Qed.
End Properties.

(** ** A sign-in, a reset and a link *)

#[local] Existing Instance demo_sessions_lib.
#[local] Existing Instance demo_throttle.
#[local] Existing Instance demo_passwords.
#[local] Existing Instance demo_laws.

Definition demo_signin_lib : SignInLib := {|
  TrimSpace := fun s => s; NFKC := fun s => s; ToLower := fun s => s; ParseAddress := Some;
  hmac_hex := fun k m => k +:+ m; DeviceLabel := fun s => s;
|}.
#[local] Existing Instance demo_signin_lib.

Definition demo_devices : DeviceService := mkDeviceService "key" DefaultTTL.

Definition demo_config : PasswordConfig MemoryStore :=
  mkPasswordConfig _ true 0 0 None false (Some demo_cfg) false (Some (mkLifecycle true (Some demo_devices))) (Some demo_devices)
    Hour (mkPolicy 0 0 false false None) (mkCap 2 OverflowEvictOldest true true) (fun st _ => st).

Definition demo_hash (pw : string) : string := match HashPassword (Some "0123456789abcdef") pw with Ok h => h | Err _ => "" end.

(** Ann has a password and a confirmed second factor; a reset token and a link are outstanding. *)
Definition demo_accounts : SignInState MemoryStore :=
  mkSignIn demo_base (<["ann" := new_user "ann" "ann@x" (Some 1) 1]> ∅) (<["ann" := demo_hash "correct horse"]> ∅)
    (<["p1" := mkReset "p1" "ann" "reset" (demo_time + Hour) None demo_time]>
      (<["p2" := mkReset "p2" "ann" "reset2" (demo_time + Hour) None demo_time]> ∅))
    (<["l1" := mkLink "l1" "ann@x" "link" (demo_time + Hour) None demo_time]> ∅) ∅ ∅.

Definition demo_signin (st : SignInState MemoryStore) (cookie pw : string) :=
  Signin demo_config st (demo_clock 1) (demo_env 1 "s1") None cookie "ann@x" pw "ua" "ip".

Definition demo_step (st : SignInState MemoryStore) (cookie pw : string) : option SigninStep :=
  match (demo_signin st cookie pw).2 with Ok (_, _, step) => Some step | Err _ => None end.

(** Ann asks for her device to be remembered. *)
Definition demo_remembered : SignInState MemoryStore * result signin_error (string * Z) :=
  Remember demo_devices demo_accounts (demo_time) (Some "dev") "d1" "ann" "ua" "ip".

Definition demo_cookie : string := match demo_remembered.2 with Ok (c, _) => c | Err _ => "" end.

Example remembered_device_skips_code :
  demo_step demo_accounts "" "correct horse" = Some SigninStepTOTPRequired
  ∧ demo_step demo_remembered.1 demo_cookie "correct horse" = Some SigninStepFull
  ∧ demo_step demo_remembered.1 (demo_cookie +:+ "x") "correct horse" = Some SigninStepTOTPRequired
  ∧ demo_step demo_remembered.1 demo_cookie "wrong horse" = None.
Proof. vm_compute. done. Qed.

Lemma answer_pair {A B} (p : A * B) b : p.2 = b -> p = (p.1, b).
Proof. by destruct p; intros <-. Qed.

Lemma signin_sound_witness :
  (∃ s, tt_sessions (si_totp (demo_signin demo_accounts "" "correct horse").1) !! "s1" = Some s ∧ se_level s = AuthLevelPending2FA)
  ∧ ~ factor_waived demo_config demo_accounts (demo_clock 1 2%nat) "ann" "".
Proof.
  destruct (signin_sound demo_config demo_accounts (demo_clock 1) (demo_env 1 "s1") None "" "ann@x" "correct horse" "ua" "ip"
    (demo_signin demo_accounts "" "correct horse").1 "token-s1" (new_user "ann" "ann@x" (Some 1) 1) SigninStepTOTPRequired)
    as (_ & _ & _ & _ & Hw & s & Hs & _ & _ & Hl & _).
  - refine (answer_pair (demo_signin demo_accounts "" "correct horse") _ _). vm_compute. reflexivity.
  - split; [exists s; split; [exact Hs|exact Hl]|exact Hw].
Defined.

(** The same answer for Ann's wrong password and for an unknown address, and different audit entries. *)
Lemma signin_refusals_alike_witness :
  let attempt email := Signin_emits demo_config demo_accounts (demo_clock 1) (demo_env 1 "s1") None "" email "wrong horse" "ua" "ip" in
  (attempt "ann@x").1.2 = Err PInvalidCredentials ∧ (attempt "bob@x").1.2 = Err PInvalidCredentials
  ∧ (attempt "ann@x").2 = [LoginFailed (Some "ann") "ua" "ip" "bad_password"]
  ∧ (attempt "bob@x").2 = [LoginFailed None "ua" "ip" "unknown_user"].
Proof.
  intros attempt.
  assert (Hann : by_email (si_users demo_accounts) "ann@x" = Some (new_user "ann" "ann@x" (Some 1) 1)) by (vm_compute; reflexivity).
  assert (Hbob : by_email (si_users demo_accounts) "bob@x" = None) by (vm_compute; reflexivity).
  destruct (signin_refusals_alike demo_config demo_accounts (demo_clock 1) (demo_env 1 "s1") None "" "ann@x" "wrong horse" "ua" "ip") as [Ha _].
  { vm_compute. reflexivity. }
  { intros user Hu _. change (Normalize demo_config "ann@x") with "ann@x" in Hu. rewrite Hann in Hu. injection Hu as <-.
    exists "". vm_compute. reflexivity. }
  destruct (signin_refusals_alike demo_config demo_accounts (demo_clock 1) (demo_env 1 "s1") None "" "bob@x" "wrong horse" "ua" "ip") as [Hb _].
  { vm_compute. reflexivity. }
  { intros user Hu _. change (Normalize demo_config "bob@x") with "bob@x" in Hu. rewrite Hbob in Hu. discriminate Hu. }
  unfold attempt. rewrite Ha, Hb. change (Normalize demo_config "ann@x") with "ann@x". change (Normalize demo_config "bob@x") with "bob@x".
  rewrite Hann, Hbob. split_and!; vm_compute; reflexivity.
Defined.

Definition demo_reset (st : SignInState MemoryStore) (token pw : string) := Reset demo_config st (demo_clock 2) (Some "fedcba9876543210") token pw.

Lemma reset_effect_witness :
  (demo_reset demo_accounts "reset" "battery staple").2 = Ok "ann"
  ∧ ∃ h, si_hashes (demo_reset demo_accounts "reset" "battery staple").1 !! "ann" = Some h
      ∧ VerifyCredential None "battery staple" h false = Ok (true, "").
Proof.
  split; [vm_compute; reflexivity|].
  destruct (reset_effect demo_config demo_accounts (demo_clock 2) (Some "fedcba9876543210") "reset" "battery staple"
    (demo_reset demo_accounts "reset" "battery staple").1 "ann") as (_ & (s & h & _ & Hh & Hv) & _).
  - refine (answer_pair (demo_reset demo_accounts "reset" "battery staple") _ _). vm_compute. reflexivity.
  - exists h. rewrite Hh, lookup_insert_eq. split; [reflexivity|]. specialize (Hv None "battery staple"). rewrite bool_decide_true in Hv by reflexivity. exact Hv.
Defined.

(** A reset leaves the other reset tokens of the user: the second one still sets a password afterwards. *)
Example reset_leaves_other_tokens :
  let st := (demo_reset demo_accounts "reset" "battery staple").1 in
  (demo_reset st "reset2" "hijacked horse").2 = Ok "ann"
  ∧ demo_step (demo_reset st "reset2" "hijacked horse").1 "" "hijacked horse" = Some SigninStepTOTPRequired.
Proof. vm_compute. done. Qed.

Definition demo_consume (st : SignInState MemoryStore) := Consume demo_config st (demo_clock 3) (demo_env 3 "s3") None "u9" "link".

(** Ann's link gives a full session although she has a confirmed second factor. *)
Lemma magic_link_session_witness :
  confirmed_secret demo_accounts "ann" = true
  ∧ ∃ s, tt_sessions (si_totp (demo_consume demo_accounts).1) !! "s3" = Some s ∧ se_user s = "ann" ∧ se_level s = AuthLevelFull.
Proof.
  split; [vm_compute; reflexivity|].
  destruct (magic_link_session demo_config demo_accounts (demo_clock 3) (demo_env 3 "s3") None "u9" "link" (demo_consume demo_accounts).1
    "token-s3" (new_user "ann" "ann@x" (Some 1) 1) false) as (k & l & _ & _ & _ & _ & _ & _ & s & Hs & Hu & _ & Hl & _).
  - refine (answer_pair (demo_consume demo_accounts) _ _). vm_compute. reflexivity.
  - exists s. split; [exact Hs|]. split; [exact Hu|exact Hl].
Defined.

Lemma demo_drawn_once : drawn_once "reset" demo_accounts.
Proof.
  assert (Hone : ∀ r, carries "reset" demo_accounts r -> r = inl "p1").
  { intros [id|id] (t & Ht & Hh); simpl in Ht.
    - apply lookup_insert_Some in Ht as [[<- _]|[_ Ht]]; [done|]. apply lookup_insert_Some in Ht as [[_ <-]|[_ Ht]]; [done|by rewrite lookup_empty in Ht].
    - apply lookup_insert_Some in Ht as [[_ <-]|[_ Ht]]; [done|by rewrite lookup_empty in Ht]. }
  intros r r' Hr Hr'. by rewrite (Hone r Hr), (Hone r' Hr').
Qed.

Lemma tokens_work_once_witness :
  (demo_reset demo_accounts "reset" "battery staple").2 = Ok "ann"
  ∧ (demo_reset (run demo_config (demo_reset demo_accounts "reset" "battery staple").1
       [ORequestLink (demo_time + Hour) Hour (Some "fresh") "l2" "ann@x" true]) "reset" "hijacked horse").2 = Err PResetInvalid.
Proof.
  split; [vm_compute; reflexivity|].
  destruct (tokens_work_once demo_config demo_accounts "reset" (demo_reset demo_accounts "reset" "battery staple").1
    [ORequestLink (demo_time + Hour) Hour (Some "fresh") "l2" "ann@x" true]) as [Hr _].
  - exact demo_drawn_once.
  - left. exists (demo_clock 2), (Some "fedcba9876543210"), "battery staple", "ann".
    refine (answer_pair (demo_reset demo_accounts "reset" "battery staple") _ _). vm_compute. reflexivity.
  - apply Forall_singleton. intros id tok [= <- <-]. done.
  - unfold demo_reset. by rewrite Hr.
Defined.
