(* ===== verification/ApiTokens.v ===== *)
(** * API tokens and device logins ([internal/apitokens], [storage/memory/memory_apitokens.go])

    Scoped bearer tokens: minting under the abilities of the grantor, authentication cut to what the owner
    holds at the request, revocation, agent tokens, and the device grant in which a signed in user approves a
    request by its user code. The tables are maps of the state, with the failures of the attempt limiter.
    Requests are atomic; what the host and the role storage answer during a request is a record [HostEnv], and
    random secrets are drawn by the caller, base64 encoded. Encoding of answers, logs, metrics and revocation
    events are not modelled. *)

From Stdlib Require Import ZArith Lia String Ascii Sorting.Sorted.
From stdpp Require Import base gmap strings list.
From S2P Require Import Prelude DeviceAuth Delegation Session Tenants.

Set Default Goal Selector "!".
Open Scope string_scope.
Open Scope list_scope.
Open Scope Z_scope.

(** ** Data ([models.go]) *)

Definition AbilityRoot : string := "root".
Definition OwnerKindUser : string := "user".
Definition OwnerKindServiceAccount : string := "service_account".
Definition APITokenKindPersonal : string := "personal".
Definition APITokenKindAgent : string := "agent".
Definition DeviceStatusPending : string := "pending".
Definition DeviceStatusApproved : string := "approved".
Definition DeviceStatusDenied : string := "denied".
Definition DeviceStatusRedeemed : string := "redeemed".

Record APIToken := mkToken {
  at_id : string; at_owner : string; at_owner_kind : string; at_name : string; at_abilities : list string; at_hash : string;
  at_hint : string; at_kind : string; at_agent_name : string; at_delegated : option string; at_agent : option string;
  at_created : Z; at_expires : option Z; at_last_used : option Z; at_revoked : option Z;
}.

Record DeviceCode := mkCode {
  dc_id : string; dc_hash : string; dc_user_code : string; dc_status : string; dc_client : string; dc_requested : list string;
  dc_approved : list string; dc_approver : option string; dc_ip : string; dc_ua : string; dc_interval : Z;
  dc_polled : option Z; dc_created : Z; dc_expires : Z;
}.

Definition Usable (t : APIToken) (now : Z) : bool :=
  bool_decide (at_revoked t = None) && match at_expires t with None => true | Some e => Before now e end.

Inductive token_error :=
  | TDisabled | TInvalid | TAbilityInvalid | TAbilityNotHeld | TTTLInvalid | TOwnerKind | TKind | TAgentFields | TAgentOwner
  | TAgentName | TDelegatedBy | TName | TRandom | THost | TNotFound | THashSize | TDuplicate
  | DDisabled | DPending | DSlowDown | DExpired | DDenied | DInvalid | DAttempts | DNoUserCode.

(** ** Configuration ([service.go], [device.go]) *)

Record DeviceConfig := mkDeviceConfig { dv_uri : string; dv_code_ttl : Z; dv_interval : Z; dv_token_ttl : Z; dv_defaults : list string }.

Record Config := mkConfig {
  cf_prefix : string; cf_unprefixed : bool; cf_abilities : list string; cf_default_ttl : Z; cf_max_ttl : Z; cf_agent_ttl : Z;
  cf_agent_max : Z; cf_review_ability : string; cf_review_any : bool; cf_device : option DeviceConfig;
}.

(** What the host answers during a request: the users, the names of a user's roles of the system where there is
    role storage, and the functions of the configuration where they are set. [None] in an answer is an error;
    for a user it is [ErrStorageNotFound]. *)
Record HostEnv := mkEnv {
  he_users : string -> option User; he_roles : option (string -> option (list string)); he_is_admin : option (User -> option bool);
  he_abilities : option (User -> option (list string)); he_active : option (string -> option bool);
}.

(** [strings.TrimSpace], [strings.ToUpper], the SHA-256 of a string, [oulid.ParseStrict] with the canonical form of the id. *)
Class TokenLib := {
  TrimSpace : string -> string;
  ToUpper : string -> string;
  hashToken : string -> string;
  ParseStrict : string -> option string;
}.

Definition lower_or_digit (c : ascii) : bool :=
  let n := Z.of_nat (nat_of_ascii c) in ((97 <=? n) && (n <=? 122)) || ((48 <=? n) && (n <=? 57)).

(** [abilityNameRE] *)
Definition ability_name (s : string) : bool :=
  match s with
  | "" => false
  | String c rest =>
      lower_or_digit c && forallb (fun c => lower_or_digit c || existsb (Ascii.eqb c) [":"; "_"; "."; "-"]%char) (list_ascii_of_string rest)
      && (Z.of_nat (String.length rest) <=? 63)
  end.

Definition userCodeAlphabet : string := "BCDFGHJKMNPQRTVWXY346789".
Definition userCodeLen : nat := 8.
Definition slowDownStep : Z := 5.

Definition withDefaults (c : DeviceConfig) (baseURL : string) : DeviceConfig :=
  mkDeviceConfig (if (dv_uri c =? "")%string then TrimRightSlash baseURL +:+ "/device" else dv_uri c)
    (if dv_code_ttl c <=? 0 then 10 * Minute else dv_code_ttl c) (if dv_interval c <=? 0 then 5 * Second else dv_interval c)
    (if dv_token_ttl c <=? 0 then 30 * 24 * Hour else dv_token_ttl c) (dv_defaults c).

(** ** Abilities *)

Definition holdsAbility (held : list string) (need : string) : bool := bool_decide (AbilityRoot ∈ held) || bool_decide (need ∈ held).

Definition clampAbilities (requested held : list string) : list string :=
  List.filter (fun r => if (r =? AbilityRoot)%string then bool_decide (AbilityRoot ∈ held) else holdsAbility held r) requested.

(** The loop over the names, with those seen. *)
Fixpoint check_names (allowed seen abilities : list string) : bool :=
  match abilities with
  | [] => true
  | name :: rest =>
      negb (bool_decide (name ∈ seen))
      && ((name =? AbilityRoot)%string || (ability_name name && (bool_decide (allowed = []) || bool_decide (name ∈ allowed))))
      && check_names allowed (name :: seen) rest
  end.

Definition validateAbilities (allowed abilities : list string) (allowEmpty : bool) : bool :=
  match abilities with
  | [] => allowEmpty
  | _ => negb (bool_decide (AbilityRoot ∈ abilities) && (1 <? length abilities)%nat) && check_names allowed [] abilities
  end.

(** [New]: the configuration with its defaults. *)
Definition New (c : Config) (baseURL : string) : result token_error Config :=
  let c' := mkConfig (if (cf_prefix c =? "")%string then "tk" else cf_prefix c) (cf_unprefixed c) (cf_abilities c)
    (if cf_default_ttl c <=? 0 then 90 * 24 * Hour else cf_default_ttl c) (if cf_max_ttl c <=? 0 then 365 * 24 * Hour else cf_max_ttl c)
    (if cf_agent_ttl c <=? 0 then Hour else cf_agent_ttl c) (if cf_agent_max c <=? 0 then 24 * Hour else cf_agent_max c)
    (cf_review_ability c) (cf_review_any c) ((fun d => withDefaults d baseURL) <$> cf_device c) in
  if existsb (fun name => (name =? AbilityRoot)%string || negb (ability_name name)) (cf_abilities c) then Err TAbilityInvalid
  else match cf_device c' with
  | Some d => if validateAbilities (cf_abilities c) (dv_defaults d) true then Ok c' else Err TAbilityInvalid
  | None => Ok c'
  end.

Definition IsAdmin (e : HostEnv) (u : User) : option bool :=
  match he_is_admin e with
  | Some f => f u
  | None => match he_roles e with
            | None => Some false
            | Some roles => (fun names => existsb (fun n => (n =? SystemRoleSuperAdmin)%string) names) <$> roles (u_id u)
            end
  end.

Definition UserAbilities (e : HostEnv) (u : User) : option (list string) :=
  match he_abilities e with
  | Some f => f u
  | None => (fun admin : bool => if admin then [AbilityRoot] else []) <$> IsAdmin e u
  end.

(** The user, for a user, and whether the owner is active. *)
Definition ownerActive (e : HostEnv) (kind ownerID : string) : result token_error (option User * bool) :=
  let user := if (kind =? OwnerKindUser)%string then he_users e ownerID else None in
  if (kind =? OwnerKindUser)%string && bool_decide (user = None) then Ok (None, false)
  else match he_active e with
  | None => Ok (user, true)
  | Some f => match f ownerID with None => Err THost | Some false => Ok (None, false) | Some true => Ok (user, true) end
  end.

(** ** The tables ([memory_apitokens.go]); [None] is [ErrNotFound] *)

Record TokenState := mkState { ts_tokens : gmap string APIToken; ts_devices : gmap string DeviceCode; ts_fails : gmap string (list Z) }.

Definition set_tokens (st : TokenState) (m : gmap string APIToken) : TokenState := mkState m (ts_devices st) (ts_fails st).
Definition set_devices (st : TokenState) (m : gmap string DeviceCode) : TokenState := mkState (ts_tokens st) m (ts_fails st).
Definition set_fails (st : TokenState) (m : gmap string (list Z)) : TokenState := mkState (ts_tokens st) (ts_devices st) m.

Definition InsertAPIToken (st : TokenState) (t : APIToken) : TokenState := set_tokens st (<[at_id t := t]> (ts_tokens st)).

Definition APITokenByHash (st : TokenState) (hash : string) : option APIToken :=
  List.find (fun t => (at_hash t =? hash)%string) (map snd (map_to_list (ts_tokens st))).

Definition APITokenByID (st : TokenState) (id : string) : option APIToken := ts_tokens st !! id.

Definition newer_token (a b : APIToken) : bool := After (at_created a) (at_created b).

Definition APITokensByOwner (st : TokenState) (ownerID : string) : list APIToken :=
  sort_by newer_token (List.filter (fun t => (at_owner t =? ownerID)%string) (map snd (map_to_list (ts_tokens st)))).

Definition APITokensByAgentID (st : TokenState) (agentID : string) : list APIToken :=
  sort_by newer_token (List.filter (fun t => bool_decide (at_agent t = Some agentID)) (map snd (map_to_list (ts_tokens st)))).

Definition ListAPITokens (st : TokenState) : list APIToken := sort_by newer_token (map snd (map_to_list (ts_tokens st))).

Definition token_revoked (t : APIToken) (at_ : Z) : APIToken :=
  mkToken (at_id t) (at_owner t) (at_owner_kind t) (at_name t) (at_abilities t) (at_hash t) (at_hint t) (at_kind t) (at_agent_name t)
    (at_delegated t) (at_agent t) (at_created t) (at_expires t) (at_last_used t) (Some at_).

Definition token_touched (t : APIToken) (at_ : Z) : APIToken :=
  mkToken (at_id t) (at_owner t) (at_owner_kind t) (at_name t) (at_abilities t) (at_hash t) (at_hint t) (at_kind t) (at_agent_name t)
    (at_delegated t) (at_agent t) (at_created t) (at_expires t) (Some at_) (at_revoked t).

Definition RevokeAPIToken (st : TokenState) (id : string) (at_ : Z) : option TokenState :=
  (fun t => if bool_decide (at_revoked t = None) then set_tokens st (<[id := token_revoked t at_]> (ts_tokens st)) else st) <$> ts_tokens st !! id.

Definition RevokeAPITokensByOwner (st : TokenState) (ownerID : string) (at_ : Z) : TokenState :=
  set_tokens st ((fun t => if (at_owner t =? ownerID)%string && bool_decide (at_revoked t = None) then token_revoked t at_ else t) <$> ts_tokens st).

Definition TouchAPITokenLastUsed (st : TokenState) (id : string) (at_ : Z) : option TokenState :=
  (fun t => set_tokens st (<[id := token_touched t at_]> (ts_tokens st))) <$> ts_tokens st !! id.

(** [None] is [ErrDeviceUserCodeTaken]. *)
Definition InsertDeviceCode (st : TokenState) (d : DeviceCode) : option TokenState :=
  if existsb (fun e => (dc_user_code e =? dc_user_code d)%string) (map snd (map_to_list (ts_devices st))) then None
  else Some (set_devices st (<[dc_id d := d]> (ts_devices st))).

Definition findDevice (st : TokenState) (match_ : DeviceCode -> bool) : option (string * DeviceCode) :=
  List.find (fun kd => match_ kd.2) (map_to_list (ts_devices st)).

Definition DeviceCodeByUserCode (st : TokenState) (userCode : string) : option DeviceCode :=
  snd <$> findDevice st (fun d => (dc_user_code d =? userCode)%string).

Definition DeviceCodeByHash (st : TokenState) (hash : string) : option DeviceCode :=
  snd <$> findDevice st (fun d => (dc_hash d =? hash)%string).

Definition code_decided (d : DeviceCode) (approve : bool) (approver : string) (abilities : list string) : DeviceCode :=
  mkCode (dc_id d) (dc_hash d) (dc_user_code d) (if approve then DeviceStatusApproved else DeviceStatusDenied) (dc_client d) (dc_requested d)
    (if approve then abilities else dc_approved d) (Some approver) (dc_ip d) (dc_ua d) (dc_interval d) (dc_polled d) (dc_created d) (dc_expires d).

Definition code_redeemed (d : DeviceCode) : DeviceCode :=
  mkCode (dc_id d) (dc_hash d) (dc_user_code d) DeviceStatusRedeemed (dc_client d) (dc_requested d) (dc_approved d) (dc_approver d) (dc_ip d)
    (dc_ua d) (dc_interval d) (dc_polled d) (dc_created d) (dc_expires d).

Definition code_polled (d : DeviceCode) (at_ interval : Z) : DeviceCode :=
  mkCode (dc_id d) (dc_hash d) (dc_user_code d) (dc_status d) (dc_client d) (dc_requested d) (dc_approved d) (dc_approver d) (dc_ip d)
    (dc_ua d) interval (Some at_) (dc_created d) (dc_expires d).

Definition DecideDeviceCode (st : TokenState) (userCode : string) (approve : bool) (approver : string) (abilities : list string) (now : Z)
  : option TokenState :=
  match findDevice st (fun d => (dc_user_code d =? userCode)%string) with
  | None => None
  | Some (id, d) =>
      if negb (dc_status d =? DeviceStatusPending)%string || negb (Before now (dc_expires d)) then None
      else Some (set_devices st (<[id := code_decided d approve approver abilities]> (ts_devices st)))
  end.

Definition ClaimDeviceCode (st : TokenState) (hash : string) (now : Z) : option (TokenState * DeviceCode) :=
  match findDevice st (fun d => (dc_hash d =? hash)%string) with
  | None => None
  | Some (id, d) =>
      if negb (dc_status d =? DeviceStatusApproved)%string || negb (Before now (dc_expires d)) then None
      else Some (set_devices st (<[id := code_redeemed d]> (ts_devices st)), code_redeemed d)
  end.

Definition RecordDevicePoll (st : TokenState) (hash : string) (at_ interval : Z) : option TokenState :=
  (fun kd => set_devices st (<[kd.1 := code_polled kd.2 at_ interval]> (ts_devices st))) <$> findDevice st (fun d => (dc_hash d =? hash)%string).

Definition DeleteExpiredDeviceCodes (st : TokenState) (before : Z) : TokenState :=
  set_devices st (filter (fun kd => Before (dc_expires kd.2) before = false) (ts_devices st)).

Definition without_hash (d : DeviceCode) : DeviceCode :=
  mkCode (dc_id d) "" (dc_user_code d) (dc_status d) (dc_client d) (dc_requested d) (dc_approved d) (dc_approver d) (dc_ip d) (dc_ua d)
    (dc_interval d) (dc_polled d) (dc_created d) (dc_expires d).

Definition ListPendingDeviceCodes (st : TokenState) (now limit : Z) : list DeviceCode :=
  let out := sort_by (fun a b => After (dc_created a) (dc_created b))
    (map without_hash (List.filter (fun d => (dc_status d =? DeviceStatusPending)%string && Before now (dc_expires d)) (map snd (map_to_list (ts_devices st))))) in
  if (0 <? limit) && (limit <? Z.of_nat (length out)) then take (Z.to_nat limit) out else out.

(** ** The attempt limiter ([limiter.go]) *)

Definition max_attempts : nat := 5.
Definition attempt_window : Z := 15 * Minute.

Definition kept (fails : gmap string (list Z)) (key : string) (now : Z) : list Z :=
  List.filter (fun t => Sub now t <? attempt_window) (default [] (fails !! key)).

Definition prune (fails : gmap string (list Z)) (key : string) (now : Z) : gmap string (list Z) :=
  match kept fails key now with [] => delete key fails | l => <[key := l]> fails end.

Definition blocked (fails : gmap string (list Z)) (key : string) (now : Z) : gmap string (list Z) * bool :=
  (prune fails key now, (max_attempts <=? length (kept fails key now))%nat).

Definition fail (fails : gmap string (list Z)) (key : string) (now : Z) : gmap string (list Z) :=
  let fails := prune fails key now in <[key := default [] (fails !! key) ++ [now]]> fails.

Section Tokens.
Context `{TokenLib} (cfg : Config).

(** ** Minting and authentication ([service.go]) *)

Record MintAPITokenInput := mkMint {
  mi_owner : string; mi_owner_kind : string; mi_name : string; mi_abilities : list string; mi_ttl : Z; mi_kind : string;
  mi_agent_name : string; mi_delegated : option string; mi_agent : option string;
}.

(** What a mint draws: the encoded secret and the id. *)
Record MintDraw := mkDraw { md_secret : option string; md_id : string }.

Definition valid_name (s : string) : bool := negb (s =? "")%string && (Z.of_nat (String.length s) <=? 120).

(** The checks of the switch on the kind: agent name, delegator, agent, and the two lifetimes. *)
Definition mint_kind (i : MintAPITokenInput) (kind : string)
  : result token_error (string * option string * option string * (Z * Z)) :=
  if (kind =? APITokenKindPersonal)%string then
    if negb (mi_agent_name i =? "")%string || negb (bool_decide (mi_delegated i = None)) || negb (bool_decide (mi_agent i = None))
    then Err TAgentFields else Ok ("", None, None, (cf_max_ttl cfg, cf_default_ttl cfg))
  else if (kind =? APITokenKindAgent)%string then
    if negb (mi_owner_kind i =? OwnerKindUser)%string then Err TAgentOwner
    else if negb (valid_name (TrimSpace (mi_agent_name i))) then Err TAgentName
    else if match mi_delegated i with Some d => negb (d =? mi_owner i)%string | None => false end then Err TDelegatedBy
    else Ok (TrimSpace (mi_agent_name i), Some (mi_owner i), mi_agent i, (cf_agent_max cfg, cf_agent_ttl cfg))
  else Err TKind.

Definition last4 (s : string) : string := String.substring (String.length s - 4) 4 s.

Definition Mint (st : TokenState) (now : Z) (d : MintDraw) (i : MintAPITokenInput) : TokenState * result token_error (string * APIToken) :=
  if negb (mi_owner_kind i =? OwnerKindUser)%string && negb (mi_owner_kind i =? OwnerKindServiceAccount)%string then (st, Err TOwnerKind)
  else if negb (validateAbilities (cf_abilities cfg) (mi_abilities i) false) then (st, Err TAbilityInvalid)
  else
    let kind := if (mi_kind i =? "")%string then APITokenKindPersonal else mi_kind i in
    match mint_kind i kind with
    | Err e => (st, Err e)
    | Ok (agentName, delegatedBy, agentID, (maxTTL, defTTL)) =>
        let ttl := if mi_ttl i =? 0 then defTTL else mi_ttl i in
        if (ttl <? 0) || (maxTTL <? ttl) then (st, Err TTTLInvalid)
        else if negb (valid_name (TrimSpace (mi_name i))) then (st, Err TName)
        else match md_secret d with
        | None => (st, Err TRandom)
        | Some secret =>
            let raw := cf_prefix cfg +:+ "_" +:+ secret in
            let t := mkToken (md_id d) (mi_owner i) (mi_owner_kind i) (TrimSpace (mi_name i)) (mi_abilities i) (hashToken raw)
                       (cf_prefix cfg +:+ "_..." +:+ last4 secret) kind agentName delegatedBy agentID now (Some (now + ttl)) None None in
            (InsertAPIToken st t, Ok (raw, t))
        end
    end.

(** An id of [""] is the zero id; [newID] is drawn. *)
Record ImportedToken := mkImported {
  im_id : string; im_owner : string; im_owner_kind : string; im_name : string; im_abilities : list string; im_hash : string;
  im_created : Z; im_expires : option Z; im_last_used : option Z;
}.

Definition importAPIToken (st : TokenState) (now : Z) (newID : string) (i : ImportedToken) : TokenState * result token_error APIToken :=
  let ownerKind := if (im_owner_kind i =? "")%string then OwnerKindUser else im_owner_kind i in
  if negb (ownerKind =? OwnerKindUser)%string && negb (ownerKind =? OwnerKindServiceAccount)%string then (st, Err TOwnerKind)
  else if negb (String.length (im_hash i) =? 32)%nat then (st, Err THashSize)
  else if negb (valid_name (TrimSpace (im_name i))) then (st, Err TName)
  else if negb (validateAbilities (cf_abilities cfg) (im_abilities i) false) then (st, Err TAbilityInvalid)
  else match APITokenByHash st (im_hash i) with
  | Some _ => (st, Err TDuplicate)
  | None =>
      let t := mkToken (if (im_id i =? "")%string then newID else im_id i) (im_owner i) ownerKind (TrimSpace (im_name i)) (im_abilities i)
                 (im_hash i) "imported" APITokenKindPersonal "" None None (if IsZero (im_created i) then now else im_created i)
                 (im_expires i) (im_last_used i) None in
      (InsertAPIToken st t, Ok t)
  end.

Definition touchInterval : Z := Minute.

Definition PrincipalSession : string := "session".
Definition PrincipalToken : string := "token".

Record Principal := mkPrincipal {
  p_kind : string; p_user_id : string; p_owner_kind : string; p_token : option string; p_abilities : list string;
  p_token_kind : string; p_agent_name : string; p_delegated : option string; p_user : option User;
}.

(** Who is acting: kind, id and name of each link. *)
Definition ActorChain (p : Principal) : list (string * string * string) :=
  ("user", p_user_id p, "") :: (if (p_agent_name p =? "")%string then [] else [("agent", default "" (p_token p), p_agent_name p)]).

Definition Has (p : Principal) (ability : string) : bool := holdsAbility (p_abilities p) ability.

Definition Authenticate (st : TokenState) (e : HostEnv) (now : Z) (raw : string) : TokenState * result token_error Principal :=
  if (raw =? "")%string || (negb (cf_unprefixed cfg) && negb (String.prefix (cf_prefix cfg +:+ "_") raw)) then (st, Err TInvalid)
  else match APITokenByHash st (hashToken raw) with
  | None => (st, Err TInvalid)
  | Some tok =>
      if negb (Usable tok now) then (st, Err TInvalid)
      else match ownerActive e (at_owner_kind tok) (at_owner tok) with
      | Err err => (st, Err err)
      | Ok (_, false) => (st, Err TInvalid)
      | Ok (user, true) =>
          let abilities := match user with
                           | None => Some (at_abilities tok)
                           | Some u => clampAbilities (at_abilities tok) <$> UserAbilities e u
                           end in
          match abilities with
          | None => (st, Err THost)
          | Some abilities =>
              let st := if match at_last_used tok with None => true | Some l => touchInterval <=? Sub now l end
                        then default st (TouchAPITokenLastUsed st (at_id tok) now) else st in
              (st, Ok (mkPrincipal PrincipalToken (at_owner tok) (at_owner_kind tok) (Some (at_id tok)) abilities (at_kind tok)
                         (at_agent_name tok) (at_delegated tok) user))
          end
      end
  end.

Definition Revoke (st : TokenState) (now : Z) (id : string) : TokenState * result token_error unit :=
  match RevokeAPIToken st id now with Some st => (st, Ok tt) | None => (st, Err TNotFound) end.

Definition RevokeOwner (st : TokenState) (now : Z) (ownerID : string) : TokenState := RevokeAPITokensByOwner st ownerID now.

(** ** Agent tokens ([agent.go]) *)

Definition MintAgentToken (st : TokenState) (e : HostEnv) (now : Z) (d : MintDraw) (userID agentName : string) (agentID : option string)
    (abilities : list string) (ttl : Z) : TokenState * result token_error (string * APIToken) :=
  match he_users e userID with
  | None => (st, Err THost)
  | Some user =>
      if negb (validateAbilities (cf_abilities cfg) abilities false) then (st, Err TAbilityInvalid)
      else match UserAbilities e user with
      | None => (st, Err THost)
      | Some held =>
          if negb (length (clampAbilities abilities held) =? length abilities)%nat then (st, Err TAbilityNotHeld)
          else Mint st now d (mkMint userID OwnerKindUser agentName abilities ttl APITokenKindAgent agentName (Some userID) agentID)
      end
  end.

Definition DelegatedAbilities (e : HostEnv) (userID : string) (agentScopes : list string) : option (list string) :=
  u ← he_users e userID; clampAbilities agentScopes <$> UserAbilities e u.

(** ** The routes of tokens ([handlers.go], [principal.go], [self.go]) *)

(** An answer has its status and error code. *)
Inductive reply (A : Type) := Reply (status : Z) (code : string) | Served (a : A).
Arguments Reply {A}.
Arguments Served {A}.

Record tokenCreateBody := mkBody {
  tb_name : string; tb_abilities : list string; tb_expires_in : Z; tb_kind : string; tb_agent_name : string; tb_service : bool; tb_owner : string;
}.

(** The owner of the token to mint: the user, or for an administrator a service account. *)
Definition create_owner (e : HostEnv) (newOwner : string) (user : User) (b : tokenCreateBody) : reply (string * string) :=
  if tb_service b then
    match IsAdmin e user with
    | None => Reply 500 "internal_error"
    | Some false => Reply 403 "forbidden"
    | Some true =>
        if (tb_owner b =? "")%string then Served (newOwner, OwnerKindServiceAccount)
        else match ParseStrict (tb_owner b) with
             | None => Reply 400 "invalid_owner_id"
             | Some id => Served (id, OwnerKindServiceAccount)
             end
    end
  else Served (u_id user, OwnerKindUser).

Definition handleTokenCreate (st : TokenState) (e : HostEnv) (now : Z) (d : MintDraw) (newOwner : string) (user : User)
    (body : option tokenCreateBody) : TokenState * reply (string * APIToken) :=
  match body with
  | None => (st, Reply 400 "invalid_body")
  | Some b =>
      match UserAbilities e user with
      | None => (st, Reply 500 "internal_error")
      | Some held =>
          match create_owner e newOwner user b with
          | Reply s c => (st, Reply s c)
          | Served (ownerID, ownerKind) =>
              if negb (validateAbilities (cf_abilities cfg) (tb_abilities b) false) then (st, Reply 400 "invalid_abilities")
              else if negb (length (clampAbilities (tb_abilities b) held) =? length (tb_abilities b))%nat then (st, Reply 403 "ability_not_held")
              else match Mint st now d (mkMint ownerID ownerKind (tb_name b) (tb_abilities b) (wrap64 (tb_expires_in b * Second)) (tb_kind b)
                                          (tb_agent_name b) None None) with
              | (st, Ok r) => (st, Served r)
              | (st, Err TTTLInvalid) => (st, Reply 400 "invalid_expiry")
              | (st, Err _) => (st, Reply 400 "invalid_token")
              end
          end
      end
  end.

Definition handleTokenList (st : TokenState) (e : HostEnv) (user : User) (all : bool) (ownerID : string) : reply (list APIToken) :=
  if all || negb (ownerID =? "")%string then
    match IsAdmin e user with
    | None => Reply 500 "internal_error"
    | Some false => Reply 403 "forbidden"
    | Some true =>
        if negb (ownerID =? "")%string then
          match ParseStrict ownerID with None => Reply 400 "invalid_owner_id" | Some id => Served (APITokensByOwner st id) end
        else Served (ListAPITokens st)
    end
  else Served (APITokensByOwner st (u_id user)).

Definition handleTokenRevoke (st : TokenState) (e : HostEnv) (now : Z) (user : User) (path : string) : TokenState * reply unit :=
  match ParseStrict path with
  | None => (st, Reply 404 "not_found")
  | Some id =>
      match APITokenByID st id with
      | None => (st, Reply 404 "not_found")
      | Some tok =>
          let revoke := match Revoke st now id with (st, Ok _) => (st, Served tt) | (st, Err _) => (st, Reply 500 "internal_error") end in
          if (at_owner tok =? u_id user)%string then revoke
          else match IsAdmin e user with
          | None => (st, Reply 500 "internal_error")
          | Some false => (st, Reply 404 "not_found")
          | Some true => revoke
          end
      end
  end.

Definition lower_char (c : ascii) : ascii :=
  let n := nat_of_ascii c in if (65 <=? n)%nat && (n <=? 90)%nat then ascii_of_nat (n + 32) else c.

(** [strings.EqualFold(h[:7], "bearer ")], on the bytes of the header *)
Definition BearerToken (h : string) : option string :=
  if (String.length h <? 8)%nat || negb (bool_decide (map lower_char (take 7 (list_ascii_of_string h)) = list_ascii_of_string "bearer ")) then None
  else Some (TrimSpace (String.substring 7 (String.length h - 7) h)).

(** The session of the cookie as the host validates it: its level and its user. *)
Definition sessionPrincipal (e : HostEnv) (session : option (string * User)) : reply Principal :=
  match session with
  | None => Reply 401 "auth.unauthenticated"
  | Some (level, user) =>
      if negb (level =? "")%string && negb (level =? AuthLevelFull)%string then Reply 401 "auth.step_up_required"
      else match UserAbilities e user with
      | None => Reply 500 "auth.internal_error"
      | Some abilities => Served (mkPrincipal PrincipalSession (u_id user) OwnerKindUser None abilities "" "" None (Some user))
      end
  end.

(** [cookie] is the value of the session cookie, [validate] the host's validation. *)
Definition principalFromRequest (st : TokenState) (e : HostEnv) (now : Z) (header : string) (cookie : option string)
    (validate : string -> option (string * User)) : TokenState * reply Principal :=
  match BearerToken header with
  | Some raw =>
      match Authenticate st e now raw with
      | (st, Ok p) => (st, Served p)
      | (st, Err TInvalid) => (st, Reply 401 "auth.unauthenticated")
      | (st, Err _) => (st, Reply 500 "auth.internal_error")
      end
  | None =>
      match cookie with
      | None | Some "" => (st, Reply 401 "auth.unauthenticated")
      | Some c => (st, sessionPrincipal e (validate c))
      end
  end.

Definition RequireAbility (st : TokenState) (e : HostEnv) (now : Z) (ability header : string) (cookie : option string)
    (validate : string -> option (string * User)) : TokenState * reply Principal :=
  match principalFromRequest st e now header cookie validate with
  | (st, Served p) => (st, if Has p ability then Served p else Reply 403 "auth.forbidden")
  | (st, r) => (st, r)
  end.

Definition requireBearerToken (st : TokenState) (e : HostEnv) (now : Z) (header : string) (cookie : option string) : TokenState * reply Principal :=
  match BearerToken header with
  | None => (st, match cookie with
                 | None | Some "" => Reply 401 "auth.unauthenticated"
                 | Some _ => Reply 403 "auth.bearer_required"
                 end)
  | Some _ => principalFromRequest st e now header cookie (fun _ => None)
  end.

Definition handleTokenCurrent (st : TokenState) (p : Principal) : reply (APIToken * list string) :=
  match p_token p with
  | None => Reply 401 "unauthenticated"
  | Some id => match APITokenByID st id with
               | None => Reply 401 "unauthenticated"
               | Some tok => Served (tok, p_abilities p)
               end
  end.

Definition handleTokenCurrentRevoke (st : TokenState) (now : Z) (p : Principal) : TokenState * reply unit :=
  match p_token p with
  | None => (st, Reply 401 "unauthenticated")
  | Some id => match Revoke st now id with (st, Ok _) => (st, Served tt) | (st, Err _) => (st, Reply 500 "internal_error") end
  end.

(** ** The device grant ([device.go]) *)

(** One buffer of random bytes: those below the limit pick a letter, until the code is complete. *)
Definition take_bytes (out : list ascii) (buf : list Z) : list ascii :=
  let limit := 256 - 256 mod Z.of_nat (String.length userCodeAlphabet) in
  fold_left (fun out b =>
    if (b <? limit) && (length out <? userCodeLen)%nat
    then out ++ option_list (list_ascii_of_string userCodeAlphabet !! Z.to_nat (b mod Z.of_nat (String.length userCodeAlphabet)))
    else out) buf out.

(** [bufs] are the buffers read; [None] when a read fails or no more are given. *)
Fixpoint newUserCode (out : list ascii) (bufs : list (list Z)) : option string :=
  if (length out <? userCodeLen)%nat then
    match bufs with [] => None | buf :: bufs => newUserCode (take_bytes out buf) bufs end
  else Some (string_of_list_ascii out).

Definition FormatUserCode (code : string) : string :=
  if negb (String.length code =? userCodeLen)%nat then code else String.substring 0 4 code +:+ "-" +:+ String.substring 4 (String.length code - 4) code.

Definition normalizeUserCode (i : string) : string :=
  ToUpper (string_of_list_ascii (List.filter (fun c => negb (c =? "-")%char && negb (c =? " ")%char) (list_ascii_of_string (TrimSpace i)))).

Record DeviceAuthStart := mkStart { ds_device_code : string; ds_user_code : string; ds_uri : string; ds_uri_complete : string; ds_expires_in : Z; ds_interval : Z }.

Definition cut120 (s : string) : string := if 120 <? Z.of_nat (String.length s) then String.substring 0 120 s else s.

(** The loop of [StartDeviceAuth]: [codes] are the user codes it draws with the ids of the rows. *)
Fixpoint start_loop (st : TokenState) (dc : DeviceConfig) (rec : string -> string -> DeviceCode) (deviceCode : string)
    (codes : list (string * option string)) : TokenState * result token_error DeviceAuthStart :=
  match codes with
  | [] => (st, Err DNoUserCode)
  | (_, None) :: _ => (st, Err TRandom)
  | (id, Some uc) :: codes =>
      match InsertDeviceCode st (rec id uc) with
      | None => start_loop st dc rec deviceCode codes
      | Some st => (st, Ok (mkStart deviceCode (FormatUserCode uc) (dv_uri dc) (dv_uri dc +:+ "?user_code=" +:+ FormatUserCode uc)
                              (dv_code_ttl dc) (dv_interval dc)))
      end
  end.

Definition StartDeviceAuth (st : TokenState) (now : Z) (secret : option string) (codes : list (string * option string))
    (client : string) (abilities : list string) (ip ua : string) : TokenState * result token_error DeviceAuthStart :=
  match cf_device cfg with
  | None => (st, Err DDisabled)
  | Some dc =>
      let abilities := match abilities with [] => dv_defaults dc | _ => abilities end in
      if negb (validateAbilities (cf_abilities cfg) abilities false) then (st, Err TAbilityInvalid)
      else match secret with
      | None => (st, Err TRandom)
      | Some deviceCode =>
          start_loop st dc (fun id uc => mkCode id (hashToken deviceCode) uc DeviceStatusPending (cut120 (TrimSpace client)) abilities [] None ip ua
                                           (Z.quot (dv_interval dc) Second) None now (now + dv_code_ttl dc)) deviceCode (take 5 codes)
      end
  end.

Definition attempt_keys (approver ip : string) : list string := ["u:" +:+ approver; "ip:" +:+ ip].

(** The check of the keys, in order; the first blocked one ends it. *)
Fixpoint check_keys (fails : gmap string (list Z)) (keys : list string) (now : Z) : gmap string (list Z) * bool :=
  match keys with
  | [] => (fails, false)
  | k :: keys => let '(fails, b) := blocked fails k now in if b then (fails, true) else check_keys fails keys now
  end.

(** [lookupPending] up to the answer of the limiter, which it asks under its own lock. *)
Definition lookup_check (st : TokenState) (now : Z) (approver ip : string) : TokenState * bool :=
  let '(fails, b) := check_keys (ts_fails st) (attempt_keys approver ip) now in (set_fails st fails, b).

(** And after it: the table, and the failure the limiter is told of under its lock again. *)
Definition lookup_found (st : TokenState) (now : Z) (approver ip userCode : string) : TokenState * result token_error DeviceCode :=
  match DeviceCodeByUserCode st (normalizeUserCode userCode) with
  | None => (set_fails st (fold_left (fun fails k => fail fails k now) (attempt_keys approver ip) (ts_fails st)), Err DInvalid)
  | Some rec =>
      if negb (Before now (dc_expires rec)) then (st, Err DExpired)
      else if negb (dc_status rec =? DeviceStatusPending)%string then (st, Err DInvalid)
      else (st, Ok rec)
  end.

Definition lookupPending (st : TokenState) (now : Z) (approver ip userCode : string) : TokenState * result token_error DeviceCode :=
  let '(st, b) := lookup_check st now approver ip in
  if b then (st, Err DAttempts) else lookup_found st now approver ip userCode.

(** What an approval grants: the requested abilities, or the named ones among them, as far as the approver holds them. *)
Definition decision_abilities (e : HostEnv) (approver : User) (rec : DeviceCode) (abilities : list string) : result token_error (list string) :=
  if negb (forallb (fun ab => bool_decide (ab ∈ dc_requested rec)) abilities) then Err TAbilityInvalid
  else
    let chosen := match abilities with [] => dc_requested rec | _ => abilities end in
    match UserAbilities e approver with
    | None => Err THost
    | Some held =>
        if bool_decide (AbilityRoot ∈ chosen) && negb (bool_decide (AbilityRoot ∈ held)) then Err TAbilityNotHeld
        else match clampAbilities chosen held with [] => Err TAbilityNotHeld | granted => Ok granted end
    end.

Definition decideRecord (st : TokenState) (e : HostEnv) (now : Z) (approver : User) (rec : DeviceCode) (approve : bool) (abilities : list string)
  : TokenState * result token_error unit :=
  match (if approve then decision_abilities e approver rec abilities else Ok []) with
  | Err err => (st, Err err)
  | Ok granted =>
      match DecideDeviceCode st (dc_user_code rec) approve (u_id approver) granted now with
      | None => (st, Err DExpired)
      | Some st => (st, Ok tt)
      end
  end.

(** [clk 0] and [clk 1] are the two readings of the clock. *)
Definition DecideDeviceRequest (st : TokenState) (e : HostEnv) (clk : nat -> Z) (approver : User) (ip userCode : string) (approve : bool)
    (abilities : list string) : TokenState * result token_error unit :=
  match cf_device cfg with
  | None => (st, Err DDisabled)
  | Some _ =>
      match lookupPending st (clk 0%nat) (u_id approver) ip userCode with
      | (st, Err err) => (st, Err err)
      | (st, Ok rec) => decideRecord st e (clk 1%nat) approver rec approve abilities
      end
  end.

Definition LookupDeviceRequest (st : TokenState) (now : Z) (approver : User) (ip userCode : string)
  : TokenState * result token_error (string * list string * string * string * Z) :=
  match cf_device cfg with
  | None => (st, Err DDisabled)
  | Some _ =>
      match lookupPending st now (u_id approver) ip userCode with
      | (st, Err err) => (st, Err err)
      | (st, Ok rec) => (st, Ok (dc_client rec, dc_requested rec, dc_ip rec, dc_ua rec, dc_expires rec))
      end
  end.

Definition DecideDeviceRequestByID (st : TokenState) (e : HostEnv) (clk : nat -> Z) (approver : User) (id : string) (approve : bool)
    (abilities : list string) : TokenState * result token_error unit :=
  match cf_device cfg with
  | None => (st, Err DDisabled)
  | Some _ =>
      match List.find (fun r => (dc_id r =? id)%string) (ListPendingDeviceCodes st (clk 0%nat) 500) with
      | None => (st, Err DInvalid)
      | Some rec => decideRecord st e (clk 1%nat) approver rec approve abilities
      end
  end.

(** What a dashboard sees: the request without its codes. *)
Record DeviceRequestSummary := mkSummary {
  sm_id : string; sm_client : string; sm_requested : list string; sm_ip : string; sm_ua : string; sm_created : Z; sm_expires : Z;
}.

Definition ListDeviceRequests (st : TokenState) (now : Z) : result token_error (list DeviceRequestSummary) :=
  match cf_device cfg with
  | None => Err DDisabled
  | Some _ => Ok (map (fun r => mkSummary (dc_id r) (dc_client r) (dc_requested r) (dc_ip r) (dc_ua r) (dc_created r) (dc_expires r))
                    (ListPendingDeviceCodes st now 500))
  end.

Definition device_name (client : string) : string := if (client =? "")%string then "device login" else "device: " +:+ client.

(** The end of a redemption: the claim and the mint. *)
Definition claim_and_mint (st : TokenState) (e : HostEnv) (now mint_now : Z) (d : MintDraw) (dc : DeviceConfig) (hash : string)
  : TokenState * result token_error (string * APIToken) :=
  match ClaimDeviceCode st hash now with
  | None => (st, Err DInvalid)
  | Some (st, claimed) =>
      match dc_approver claimed with
      | None => (st, Err DInvalid)
      | Some approver =>
          match ownerActive e OwnerKindUser approver with
          | Err err => (st, Err err)
          | Ok (_, false) => (st, Err DDenied)
          | Ok (_, true) =>
              Mint st mint_now d (mkMint approver OwnerKindUser (device_name (dc_client claimed)) (dc_approved claimed) (dv_token_ttl dc) "" "" None None)
          end
      end
  end.

Definition polled_too_fast (rec : DeviceCode) (now : Z) : bool :=
  match dc_polled rec with Some l => Sub now l <? wrap64 (dc_interval rec * Second) | None => false end.

Definition RedeemDeviceCode (st : TokenState) (e : HostEnv) (clk : nat -> Z) (d : MintDraw) (deviceCode : string)
  : TokenState * result token_error (string * APIToken) :=
  match cf_device cfg with
  | None => (st, Err DDisabled)
  | Some dc =>
      let hash := hashToken deviceCode in
      match DeviceCodeByHash st hash with
      | None => (st, Err DInvalid)
      | Some rec =>
          let now := clk 0%nat in
          if negb (Before now (dc_expires rec)) then (st, Err DExpired)
          else if polled_too_fast rec now then
            match RecordDevicePoll st hash now (dc_interval rec + slowDownStep) with
            | None => (st, Err THost)
            | Some st => (st, Err DSlowDown)
            end
          else match RecordDevicePoll st hash now (dc_interval rec) with
          | None => (st, Err THost)
          | Some st =>
              if (dc_status rec =? DeviceStatusPending)%string then (st, Err DPending)
              else if (dc_status rec =? DeviceStatusDenied)%string then (st, Err DDenied)
              else if (dc_status rec =? DeviceStatusRedeemed)%string then (st, Err DInvalid)
              else claim_and_mint st e now (clk 1%nat) d dc hash
          end
      end
  end.

Definition PurgeExpiredDeviceCodes (st : TokenState) (before : Z) : result token_error TokenState :=
  match cf_device cfg with None => Err DDisabled | Some _ => Ok (DeleteExpiredDeviceCodes st before) end.

(** *** The routes ([device_handlers.go]) *)

(** Who may list and decide requests by id. *)
Definition requireDeviceReviewer (e : HostEnv) (user : option User) : reply unit :=
  if cf_review_any cfg then Served tt
  else match user with
  | None => Reply 401 "auth.unauthenticated"
  | Some u =>
      match UserAbilities e u with
      | None => Reply 500 "auth.internal_error"
      | Some held =>
          let need := if (cf_review_ability cfg =? "")%string then AbilityRoot else cf_review_ability cfg in
          if holdsAbility held need then Served tt else Reply 403 "auth.forbidden"
      end
  end.

(** Request parameters: a string, a list whose elements may be strings, or another value. *)
Inductive param := PString (s : string) | PList (l : list (option string)) | POther.

Definition str (m : gmap string param) (k : string) : string := match m !! k with Some (PString s) => s | _ => "" end.

Definition abilitiesParam (m : gmap string param) : list string :=
  match m !! "scope" with
  | Some (PString v) => Fields v
  | _ => match m !! "abilities" with Some (PList l) => omap id l | _ => [] end
  end.

Definition decide_reply (r : result token_error unit) : reply unit :=
  match r with
  | Ok _ => Served tt
  | Err DAttempts => Reply 429 "rate_limited"
  | Err DInvalid => Reply 404 "invalid_user_code"
  | Err DExpired => Reply 410 "expired_token"
  | Err TAbilityNotHeld => Reply 403 "ability_not_held"
  | Err TAbilityInvalid => Reply 400 "invalid_scope"
  | Err _ => Reply 500 "server_error"
  end.

Definition handleDeviceApprove (st : TokenState) (e : HostEnv) (clk : nat -> Z) (user : User) (ip : string) (params : option (gmap string param))
  : TokenState * reply unit :=
  match cf_device cfg, params with
  | None, _ => (st, Reply 404 "unsupported")
  | _, None => (st, Reply 400 "invalid_request")
  | Some _, Some p =>
      if (str p "action" =? "info")%string then
        let '(st, r) := LookupDeviceRequest st (clk 0%nat) user ip (str p "user_code") in
        (st, decide_reply (match r with Ok _ => Ok tt | Err err => Err err end))
      else
        let '(st, r) := DecideDeviceRequest st e clk user ip (str p "user_code") (negb (str p "action" =? "deny")%string) (abilitiesParam p) in
        (st, decide_reply r)
  end.

Definition handleDeviceRequests (st : TokenState) (now : Z) : reply (list DeviceRequestSummary) :=
  match ListDeviceRequests st now with Err _ => Reply 404 "unsupported" | Ok l => Served l end.

(** [params] is [None] without a body, [Some None] for one that does not parse. *)
Definition handleDeviceRequestDecide (st : TokenState) (e : HostEnv) (clk : nat -> Z) (user : User) (path : string) (approve : bool)
    (params : option (option (gmap string param))) : TokenState * reply unit :=
  match cf_device cfg, ParseStrict path with
  | None, _ => (st, Reply 404 "unsupported")
  | _, None => (st, Reply 404 "invalid_request_id")
  | Some _, Some id =>
      let decide abilities := let '(st, r) := DecideDeviceRequestByID st e clk user id approve abilities in (st, decide_reply r) in
      if approve then
        match params with
        | None => decide []
        | Some None => (st, Reply 400 "invalid_request")
        | Some (Some p) => decide (abilitiesParam p)
        end
      else decide []
  end.

Definition handleDeviceToken (st : TokenState) (e : HostEnv) (clk : nat -> Z) (d : MintDraw) (params : option (gmap string param))
  : TokenState * reply (string * APIToken) :=
  match cf_device cfg, params with
  | None, _ => (st, Reply 404 "unsupported")
  | _, None => (st, Reply 400 "invalid_request")
  | Some _, Some p =>
      if negb (str p "grant_type" =? GrantTypeDeviceCode)%string || (str p "device_code" =? "")%string then (st, Reply 400 "invalid_request")
      else match RedeemDeviceCode st e clk d (str p "device_code") with
      | (st, Ok r) => (st, Served r)
      | (st, Err DPending) => (st, Reply 400 "authorization_pending")
      | (st, Err DSlowDown) => (st, Reply 400 "slow_down")
      | (st, Err DExpired) => (st, Reply 400 "expired_token")
      | (st, Err DDenied) => (st, Reply 400 "access_denied")
      | (st, Err DInvalid) => (st, Reply 400 "invalid_grant")
      | (st, Err _) => (st, Reply 500 "server_error")
      end
  end.

Definition handleDeviceCode (st : TokenState) (now : Z) (secret : option string) (codes : list (string * option string)) (ip ua : string)
    (params : option (gmap string param)) : TokenState * reply DeviceAuthStart :=
  match cf_device cfg, params with
  | None, _ => (st, Reply 404 "unsupported")
  | _, None => (st, Reply 400 "invalid_request")
  | Some _, Some p =>
      match StartDeviceAuth st now secret codes (str p "client_name") (abilitiesParam p) ip ua with
      | (st, Ok r) => (st, Served r)
      | (st, Err TAbilityInvalid) => (st, Reply 400 "invalid_scope")
      | (st, Err _) => (st, Reply 500 "server_error")
      end
  end.
End Tokens.
Arguments Reply {A}.
Arguments Served {A}.

(** ** Any run of operations *)

Section Runs.
Context `{TokenLib} (cfg : Config).

(** The routes, the calls of the library for agents and devices, and the two calls by which the host stores tokens on
    its own authority: [MintAPIToken] and [ImportAPIToken] ask nobody. *)
Inductive token_op :=
  | KMint (now : Z) (d : MintDraw) (i : MintAPITokenInput)
  | KImport (now : Z) (newID : string) (i : ImportedToken)
  | KCreate (e : HostEnv) (now : Z) (d : MintDraw) (newOwner : string) (user : User) (body : option tokenCreateBody)
  | KAgent (e : HostEnv) (now : Z) (d : MintDraw) (userID agentName : string) (agentID : option string) (abilities : list string) (ttl : Z)
  | KAuthenticate (e : HostEnv) (now : Z) (raw : string)
  | KRevoke (e : HostEnv) (now : Z) (user : User) (path : string)
  | KRevokeCurrent (now : Z) (p : Principal)
  | KRevokeOwner (now : Z) (ownerID : string)
  | KStart (now : Z) (secret : option string) (codes : list (string * option string)) (client : string) (abilities : list string) (ip ua : string)
  | KLookup (now : Z) (user : User) (ip userCode : string)
  | KDecide (e : HostEnv) (clk : nat -> Z) (user : User) (ip userCode : string) (approve : bool) (abilities : list string)
  | KDecideByID (e : HostEnv) (clk : nat -> Z) (user : User) (id : string) (approve : bool) (abilities : list string)
  | KRedeem (e : HostEnv) (clk : nat -> Z) (d : MintDraw) (deviceCode : string)
  | KPurge (before : Z).

Definition exec (st : TokenState) (op : token_op) : TokenState :=
  match op with
  | KMint now d i => (Mint cfg st now d i).1
  | KImport now newID i => (importAPIToken cfg st now newID i).1
  | KCreate e now d newOwner user body => (handleTokenCreate cfg st e now d newOwner user body).1
  | KAgent e now d userID agentName agentID abilities ttl => (MintAgentToken cfg st e now d userID agentName agentID abilities ttl).1
  | KAuthenticate e now raw => (Authenticate cfg st e now raw).1
  | KRevoke e now user path => (handleTokenRevoke st e now user path).1
  | KRevokeCurrent now p => (handleTokenCurrentRevoke st now p).1
  | KRevokeOwner now ownerID => RevokeOwner st now ownerID
  | KStart now secret codes client abilities ip ua => (StartDeviceAuth cfg st now secret codes client abilities ip ua).1
  | KLookup now user ip userCode => (LookupDeviceRequest cfg st now user ip userCode).1
  | KDecide e clk user ip userCode approve abilities => (DecideDeviceRequest cfg st e clk user ip userCode approve abilities).1
  | KDecideByID e clk user id approve abilities => (DecideDeviceRequestByID cfg st e clk user id approve abilities).1
  | KRedeem e clk d deviceCode => (RedeemDeviceCode cfg st e clk d deviceCode).1
  | KPurge before => match PurgeExpiredDeviceCodes cfg st before with Ok st => st | Err _ => st end
  end.

Definition run (st : TokenState) (ops : list token_op) : TokenState := fold_left exec ops st.

(** The token that an operation stores, with the secret it hands out; an import hands out none. *)
Definition minted (st : TokenState) (op : token_op) (raw : string) (t : APIToken) : Prop :=
  match op with
  | KMint now d i => (Mint cfg st now d i).2 = Ok (raw, t)
  | KImport now newID i => raw = "" ∧ (importAPIToken cfg st now newID i).2 = Ok t
  | KCreate e now d newOwner user body => (handleTokenCreate cfg st e now d newOwner user body).2 = Served (raw, t)
  | KAgent e now d userID agentName agentID abilities ttl => (MintAgentToken cfg st e now d userID agentName agentID abilities ttl).2 = Ok (raw, t)
  | KRedeem e clk d deviceCode => (RedeemDeviceCode cfg st e clk d deviceCode).2 = Ok (raw, t)
  | _ => False
  end.

Lemma clampAbilities_holds requested held : clampAbilities requested held = List.filter (holdsAbility held) requested.
Proof.
  unfold clampAbilities. apply filter_ext. intros r. unfold holdsAbility. destruct (String.eqb_spec r AbilityRoot) as [->|]; [|done].
  by destruct (bool_decide (AbilityRoot ∈ held)).
Qed.

Lemma elem_of_clamp a requested held : a ∈ clampAbilities requested held ↔ a ∈ requested ∧ holdsAbility held a = true.
Proof. rewrite clampAbilities_holds, !list_elem_of_In, filter_In. done. Qed.

(** Nothing was cut off. *)
Lemma clamp_full requested held :
  length (clampAbilities requested held) = length requested -> ∀ a, a ∈ requested -> holdsAbility held a = true.
Proof.
  rewrite clampAbilities_holds. induction requested as [|r l IH]; simpl; intros Hl a Ha; [by apply not_elem_of_nil in Ha|].
  pose proof (List.filter_length_le (holdsAbility held) l). destruct (holdsAbility held r) eqn:Hr; simpl in Hl; [|lia].
  apply elem_of_cons in Ha as [->|Ha]; [done|]. apply IH; [lia|done].
Qed.

(** A mint stores the token it hands out, or nothing. *)
Lemma Mint_cases st now d i :
  (∃ err, Mint cfg st now d i = (st, Err err))
  ∨ ∃ secret t, md_secret d = Some secret
      ∧ Mint cfg st now d i = (InsertAPIToken st t, Ok (cf_prefix cfg +:+ "_" +:+ secret, t))
      ∧ at_id t = md_id d ∧ at_owner t = mi_owner i ∧ at_owner_kind t = mi_owner_kind i ∧ at_abilities t = mi_abilities i
      ∧ at_hash t = hashToken (cf_prefix cfg +:+ "_" +:+ secret) ∧ validateAbilities (cf_abilities cfg) (mi_abilities i) false = true.
Proof.
  unfold Mint. destruct (negb _ && negb _); [by left; eauto|]. destruct (validateAbilities _ _ _) eqn:Hv; simpl; [|by left; eauto].
  destruct (mint_kind cfg i _) as [[[[an db] ag] [mx df]]|err]; [|by left; eauto]. destruct (_ || _); [by left; eauto|].
  destruct (valid_name _); simpl; [|by left; eauto]. destruct (md_secret d) as [secret|]; [|by left; eauto].
  right. exists secret. eexists. split_and!; [done|done|..]; done.
Qed.

(** An import stores the token it describes, or nothing. *)
Lemma import_cases st now newID i :
  (∃ err, importAPIToken cfg st now newID i = (st, Err err))
  ∨ ∃ t, importAPIToken cfg st now newID i = (InsertAPIToken st t, Ok t)
      ∧ at_owner t = im_owner i ∧ at_owner_kind t = (if (im_owner_kind i =? "")%string then OwnerKindUser else im_owner_kind i)
      ∧ at_abilities t = im_abilities i ∧ at_hash t = im_hash i.
Proof.
  unfold importAPIToken. cbv zeta. destruct (_ && _); [by left; eauto|]. destruct (negb _); [by left; eauto|]. destruct (negb _); [by left; eauto|].
  destruct (negb _); [by left; eauto|]. destruct (APITokenByHash _ _); [by left; eauto|]. right. eexists. split; [done|]. done.
Qed.

(** Where the tokens of the next state come from. *)
Definition carried (t0 t : APIToken) : Prop := t = t0 ∨ ∃ n, t = token_revoked t0 n ∨ t = token_touched t0 n.

Definition evolves (st st' : TokenState) (new : APIToken -> Prop) : Prop :=
  ∀ k t, ts_tokens st' !! k = Some t -> (∃ t0, ts_tokens st !! k = Some t0 ∧ carried t0 t) ∨ new t.

Lemma evolves_same st st' new : ts_tokens st' = ts_tokens st -> evolves st st' new.
Proof. intros He k t. rewrite He. intros Hk. left. exists t. split; [done|by left]. Qed.

Lemma evolves_insert st t : evolves st (InsertAPIToken st t) (fun t' => t' = t).
Proof.
  intros k t'. simpl. destruct (decide (at_id t = k)) as [<-|Hne].
  - rewrite lookup_insert_eq. intros [= <-]. by right.
  - rewrite lookup_insert_ne by done. intros Hk. left. exists t'. split; [done|by left].
Qed.

Lemma evolves_update st k0 t0 t1 new : ts_tokens st !! k0 = Some t0 -> carried t0 t1 -> evolves st (set_tokens st (<[k0 := t1]> (ts_tokens st))) new.
Proof.
  intros Hk0 Hc k t. simpl. destruct (decide (k0 = k)) as [<-|Hne].
  - rewrite lookup_insert_eq. intros [= <-]. left. eauto.
  - rewrite lookup_insert_ne by done. intros Hk. left. exists t. split; [done|by left].
Qed.

Lemma evolves_Revoke st now id new : evolves st (Revoke st now id).1 new.
Proof.
  unfold Revoke, RevokeAPIToken. destruct (ts_tokens st !! id) as [t|] eqn:Ht; simpl; [|by apply evolves_same].
  destruct (bool_decide _); simpl; [|by apply evolves_same]. apply (evolves_update _ _ t); [done|]. right. eauto.
Qed.

Lemma evolves_Mint st now d i :
  evolves st (Mint cfg st now d i).1 (fun t => ∃ raw, (Mint cfg st now d i).2 = Ok (raw, t)).
Proof.
  destruct (Mint_cases st now d i) as [[err ->]|(secret & t & _ & -> & _)]; [by apply evolves_same|].
  intros k t' Hk. apply evolves_insert in Hk as [?| ->]; [by left|]. right. simpl. eauto.
Qed.

Lemma evolves_weaken st st' (P Q : APIToken -> Prop) : (∀ t, P t -> Q t) -> evolves st st' P -> evolves st st' Q.
Proof. intros HPQ He k t Hk. destruct (He k t Hk) as [|HP]; [by left|right; auto]. Qed.

Lemma evolves_Authenticate st e now raw new : evolves st (Authenticate cfg st e now raw).1 new.
Proof.
  unfold Authenticate. destruct (_ || _); [by apply evolves_same|]. destruct (APITokenByHash _ _) as [tok|]; [|by apply evolves_same].
  destruct (negb _); [by apply evolves_same|]. destruct (ownerActive _ _ _) as [[u []]|]; [|by apply evolves_same..].
  assert (Ht : ∀ b : bool, evolves st (if b then default st (TouchAPITokenLastUsed st (at_id tok) now) else st) new).
  { intros []; [|by apply evolves_same]. unfold TouchAPITokenLastUsed. destruct (ts_tokens st !! at_id tok) as [t|] eqn:Ht; simpl; [|by apply evolves_same].
    apply (evolves_update _ _ t); [done|]. right. eauto. }
  destruct u as [u|]; simpl; [destruct (UserAbilities e u); simpl; [|by apply evolves_same]|]; apply Ht.
Qed.

Lemma decideRecord_tokens st e now approver rec approve abilities :
  ts_tokens (decideRecord st e now approver rec approve abilities).1 = ts_tokens st.
Proof.
  unfold decideRecord. destruct (if approve then _ else _); [|done]. unfold DecideDeviceCode. by destruct (findDevice _ _) as [[id d]|]; [destruct (_ || _)|].
Qed.

Lemma lookupPending_tables st now approver ip code :
  ts_tokens (lookupPending st now approver ip code).1 = ts_tokens st ∧ ts_devices (lookupPending st now approver ip code).1 = ts_devices st.
Proof.
  unfold lookupPending, lookup_check, lookup_found. destruct (check_keys _ _ _) as [fails []]; [done|]. destruct (DeviceCodeByUserCode _ _); [|done].
  destruct (negb _); [done|]. by destruct (negb _).
Qed.

Lemma start_loop_tokens st dc rec code codes : ts_tokens (start_loop st dc rec code codes).1 = ts_tokens st.
Proof.
  induction codes as [|[id [uc|]] codes IH]; simpl; [done| |done]. unfold InsertDeviceCode. by destruct (existsb _ _).
Qed.

Lemma claim_tokens st e now mint_now d dc hash :
  evolves st (claim_and_mint cfg st e now mint_now d dc hash).1 (fun t => ∃ raw, (claim_and_mint cfg st e now mint_now d dc hash).2 = Ok (raw, t)).
Proof.
  unfold claim_and_mint, ClaimDeviceCode. destruct (findDevice _ _) as [[id c]|]; [|by apply evolves_same].
  destruct (_ || _); [by apply evolves_same|]. simpl. destruct (dc_approver c) as [u|]; [|by apply evolves_same].
  destruct (ownerActive _ _ _) as [[? []]|]; [|by apply evolves_same..]. set (st1 := set_devices st _).
  intros k t Hk. by apply evolves_Mint in Hk.
Qed.

Lemma RecordDevicePoll_tokens st hash at_ n st' : RecordDevicePoll st hash at_ n = Some st' -> ts_tokens st' = ts_tokens st.
Proof. unfold RecordDevicePoll. destruct (findDevice _ _); [|done]. by intros [= <-]. Qed.

(** Every operation keeps the tokens up to their times of use and revocation, and adds the one it hands out. *)
Lemma exec_evolves st op : evolves st (exec st op) (fun t => ∃ raw, minted st op raw t).
Proof.
  destruct op; simpl.
  - apply evolves_Mint.
  - destruct (import_cases st now newID i) as [[err ->]|(t & -> & _)]; [by apply evolves_same|].
    eapply evolves_weaken; [|apply evolves_insert]. intros t' ->. by exists "".
  - unfold handleTokenCreate. destruct body as [b|]; [|by apply evolves_same]. destruct (UserAbilities e user) as [held|]; [|by apply evolves_same].
    destruct (create_owner _ _ _ _) as [|[o k]]; [by apply evolves_same|]. destruct (negb (validateAbilities _ _ _)); [by apply evolves_same|].
    destruct (negb (length _ =? _)%nat); [by apply evolves_same|].
    pose proof (evolves_Mint st now d (mkMint o k (tb_name b) (tb_abilities b) (wrap64 (tb_expires_in b * Second)) (tb_kind b) (tb_agent_name b) None None)) as He.
    destruct (Mint _ _ _ _ _) as [st' [[raw t]|err]]; simpl in *.
    + eapply evolves_weaken; [|exact He]. intros t' [raw' [= <- <-]]. eauto.
    + assert (He' : evolves st st' (fun _ => False)) by (eapply evolves_weaken; [|exact He]; by intros t' [raw' ?]).
      eapply evolves_weaken; [|destruct err; exact He']. done.
  - unfold MintAgentToken. destruct (he_users e userID) as [u|]; [|by apply evolves_same]. destruct (negb (validateAbilities _ _ _)); [by apply evolves_same|].
    destruct (UserAbilities e u) as [held|]; [|by apply evolves_same]. destruct (negb _); [by apply evolves_same|]. apply evolves_Mint.
  - apply evolves_Authenticate.
  - unfold handleTokenRevoke. destruct (ParseStrict path) as [id|]; [|by apply evolves_same]. destruct (APITokenByID st id) as [tok|]; [|by apply evolves_same].
    pose proof (evolves_Revoke st now id (fun t => ∃ raw : string, False)) as He. destruct (Revoke st now id) as [st' [|]]; simpl in He;
      (destruct (at_owner tok =? u_id user)%string; [done|]; destruct (IsAdmin e user) as [[]|]; done || by apply evolves_same).
  - unfold handleTokenCurrentRevoke. destruct (p_token p) as [id|]; [|by apply evolves_same].
    pose proof (evolves_Revoke st now id (fun t => ∃ raw : string, False)) as He. by destruct (Revoke st now id) as [st' [|]].
  - intros k t. simpl. rewrite lookup_fmap. intros (t0 & Hk & ->)%fmap_Some. left. exists t0. split; [done|].
    destruct (_ && _); [right; eauto|by left].
  - apply evolves_same. unfold StartDeviceAuth. destruct (cf_device cfg) as [dc|]; [|done]. destruct (negb _); [done|]. destruct secret; [|done].
    apply start_loop_tokens.
  - apply evolves_same. unfold LookupDeviceRequest. destruct (cf_device cfg); [|done].
    pose proof (lookupPending_tables st now (u_id user) ip userCode) as [Ht _]. by destruct (lookupPending _ _ _ _ _) as [st' []].
  - apply evolves_same. unfold DecideDeviceRequest. destruct (cf_device cfg); [|done].
    pose proof (lookupPending_tables st (clk 0%nat) (u_id user) ip userCode) as [Ht _]. destruct (lookupPending _ _ _ _ _) as [st' []]; [|done].
    rewrite decideRecord_tokens. done.
  - apply evolves_same. unfold DecideDeviceRequestByID. destruct (cf_device cfg); [|done]. destruct (List.find _ _); [|done]. apply decideRecord_tokens.
  - unfold RedeemDeviceCode. destruct (cf_device cfg) as [dc|]; [|by apply evolves_same]. destruct (DeviceCodeByHash _ _) as [rec|]; [|by apply evolves_same].
    destruct (negb _); [by apply evolves_same|]. destruct (polled_too_fast rec (clk 0%nat)).
    + destruct (RecordDevicePoll _ _ _ _) as [st'|] eqn:Hp; apply evolves_same; [by apply RecordDevicePoll_tokens in Hp|done].
    + destruct (RecordDevicePoll _ _ _ _) as [st'|] eqn:Hp; [|by apply evolves_same]. apply RecordDevicePoll_tokens in Hp.
      destruct (dc_status rec =? DeviceStatusPending)%string; [by apply evolves_same|].
      destruct (dc_status rec =? DeviceStatusDenied)%string; [by apply evolves_same|].
      destruct (dc_status rec =? DeviceStatusRedeemed)%string; [by apply evolves_same|].
      intros k t Hk. apply claim_tokens in Hk. by rewrite Hp in Hk.
  - apply evolves_same. unfold PurgeExpiredDeviceCodes. by destruct (cf_device cfg).
Qed.

(** *** What tokens may do *)

Definition holder (e : HostEnv) (user : User) (a : string) : Prop := ∃ held, UserAbilities e user = Some held ∧ holdsAbility held a = true.

(** In this operation the user held the ability and handed it on. *)
Definition granted_in (op : token_op) (uid a : string) : Prop :=
  match op with
  | KCreate e _ _ _ user _ | KDecide e _ user _ _ _ _ | KDecideByID e _ user _ _ _ => u_id user = uid ∧ holder e user a
  | KAgent e _ _ userID _ _ _ _ => userID = uid ∧ ∃ user, he_users e userID = Some user ∧ holder e user a
  | _ => False
  end.

Definition granted_by_admin (op : token_op) (a : string) : Prop :=
  match op with KCreate e _ _ _ user _ => IsAdmin e user = Some true ∧ holder e user a | _ => False end.

(** In this operation the host stored a token of this owner with the ability. *)
Definition granted_by_host (op : token_op) (uid kind a : string) : Prop :=
  match op with
  | KMint _ _ i => mi_owner i = uid ∧ mi_owner_kind i = kind ∧ a ∈ mi_abilities i
  | KImport _ _ i => im_owner i = uid ∧ (if (im_owner_kind i =? "")%string then OwnerKindUser else im_owner_kind i) = kind ∧ a ∈ im_abilities i
  | _ => False
  end.

(** Somebody stands for the ability: the owner, who held it and handed it on, for a service account an administrator
    who did, or the host. *)
Definition vouched (log : list token_op) (uid kind a : string) : Prop :=
  (kind = OwnerKindUser ∧ ∃ op, op ∈ log ∧ granted_in op uid a)
  ∨ (kind = OwnerKindServiceAccount ∧ ∃ op, op ∈ log ∧ granted_by_admin op a)
  ∨ ∃ op, op ∈ log ∧ granted_by_host op uid kind a.

Definition token_ok (log : list token_op) (t : APIToken) : Prop :=
  ∀ a, a ∈ at_abilities t -> vouched log (at_owner t) (at_owner_kind t) a.

Lemma vouched_mono log log' uid kind a : (∀ op, op ∈ log -> op ∈ log') -> vouched log uid kind a -> vouched log' uid kind a.
Proof.
  intros Hl [(? & o & ? & ?)|[(? & o & ? & ?)|(o & ? & ?)]].
  - left. split; [done|]. exists o. auto.
  - right; left. split; [done|]. exists o. auto.
  - right; right. exists o. auto.
Qed.

Definition device_ok (log : list token_op) (d : DeviceCode) : Prop :=
  (dc_status d = DeviceStatusPending -> dc_approved d = [])
  ∧ ∀ a, a ∈ dc_approved d -> a ∈ dc_requested d ∧ ∃ u, dc_approver d = Some u ∧ ∃ op, op ∈ log ∧ granted_in op u a.

(** No two rows share a user code. *)
Definition codes_unique (devices : gmap string DeviceCode) : Prop :=
  ∀ k k' d d', devices !! k = Some d -> devices !! k' = Some d' -> dc_user_code d = dc_user_code d' -> k = k'.

Record grants_ok (log : list token_op) (st : TokenState) : Prop := mkGrantsOk {
  go_tokens : map_Forall (fun _ => token_ok log) (ts_tokens st);
  go_devices : map_Forall (fun _ => device_ok log) (ts_devices st);
  go_codes : codes_unique (ts_devices st);
}.

Lemma token_ok_grow log op t : token_ok log t -> token_ok (op :: log) t.
Proof.
  intros Ht a Ha. eapply vouched_mono; [|by apply Ht]. by right.
Qed.

Lemma device_ok_grow log op d : device_ok log d -> device_ok (op :: log) d.
Proof.
  intros [Hp Ha]. split; [done|]. intros a H1. destruct (Ha a H1) as (? & u & ? & o & ? & ?). split; [done|]. exists u. split; [done|].
  exists o. split; [by right|done].
Qed.

Lemma token_ok_carried log t0 t : carried t0 t -> token_ok log t0 -> token_ok log t.
Proof. by intros [->|(n & [->| ->])]. Qed.

Lemma Mint_token_ok st now d i raw t log :
  (Mint cfg st now d i).2 = Ok (raw, t) ->
  (∀ a, a ∈ mi_abilities i -> vouched log (mi_owner i) (mi_owner_kind i) a) -> token_ok log t.
Proof.
  intros Hm Hg. destruct (Mint_cases st now d i) as [[err He]|(secret & t' & _ & He & _ & Ho & Hk & Ha & _)]; rewrite He in Hm; simplify_eq/=.
  unfold token_ok. by rewrite Ho, Hk, Ha.
Qed.

Lemma findDevice_Some st f id d : findDevice st f = Some (id, d) -> ts_devices st !! id = Some d ∧ f d = true.
Proof. intros [Hin Hf]%find_some. apply list_elem_of_In, elem_of_map_to_list in Hin. done. Qed.

(** The claimed device code keeps its approval. *)
Lemma RecordDevicePoll_ok log st hash at_ n st' :
  RecordDevicePoll st hash at_ n = Some st' -> map_Forall (fun _ => device_ok log) (ts_devices st) -> map_Forall (fun _ => device_ok log) (ts_devices st').
Proof.
  unfold RecordDevicePoll. destruct (findDevice _ _) as [[id d]|] eqn:Hf; [|done]. intros [= <-] Hd. simpl.
  apply findDevice_Some in Hf as [Hid _]. apply map_Forall_insert_2; [|done]. exact (Hd _ _ Hid).
Qed.

Lemma minted_ok log st op raw t : grants_ok log st -> minted st op raw t -> token_ok (op :: log) t.
Proof.
  intros [_ Hd _]. destruct op; simpl; try done.
  - intros Hm. eapply Mint_token_ok; [exact Hm|]. intros a Ha. right; right. eexists. split; [by left|]. done.
  - destruct (import_cases st now newID i) as [[err ->]|(t' & -> & Ho & Hk & Ha & _)]; [by intros [_ ?]|]. intros [_ [= <-]] a Hin.
    right; right. eexists. split; [by left|]. simpl. rewrite Ho, Hk, <- Ha. done.
  - unfold handleTokenCreate. destruct body as [b|]; [|done]. destruct (UserAbilities e user) as [held|] eqn:Hh; [|done].
    destruct (create_owner _ _ _ _) as [|[o k]] eqn:Ho; [done|]. destruct (negb (validateAbilities _ _ _)); [done|].
    destruct (Nat.eqb_spec (length (clampAbilities (tb_abilities b) held)) (length (tb_abilities b))) as [Hl|]; [|done]. simpl.
    destruct (Mint _ _ _ _ _) as [st' [[raw' t']|err]] eqn:Hm; [|by destruct err]. intros [= <- <-].
    eapply Mint_token_ok; [by rewrite Hm|]. simpl. intros a Ha. pose proof (clamp_full _ _ Hl a Ha) as Hhold.
    unfold create_owner in Ho. destruct (tb_service b).
    + destruct (IsAdmin e user) as [[]|] eqn:Hadm; [|done..]. right; left.
      assert (k = OwnerKindServiceAccount) as -> by (destruct (tb_owner b =? "")%string; [|destruct (ParseStrict _)]; simplify_eq; done).
      split; [done|]. eexists. split; [by left|]. split; [done|]. by exists held.
    + simplify_eq. left. split; [done|]. eexists. split; [by left|]. split; [done|]. by exists held.
  - unfold MintAgentToken. destruct (he_users e userID) as [u|] eqn:Hu; [|done]. destruct (negb (validateAbilities _ _ _)); [done|].
    destruct (UserAbilities e u) as [held|] eqn:Hh; [|done]. destruct (Nat.eqb_spec (length (clampAbilities abilities held)) (length abilities)) as [Hl|]; [|done].
    simpl. intros Hm. eapply Mint_token_ok; [exact Hm|]. simpl. intros a Ha. left. split; [done|]. eexists. split; [by left|]. split; [done|].
    exists u. split; [done|]. exists held. split; [done|]. by apply (clamp_full abilities held).
  - unfold RedeemDeviceCode. destruct (cf_device cfg) as [dc|]; [|done]. destruct (DeviceCodeByHash _ _) as [rec|]; [|done].
    destruct (negb _); [done|]. destruct (polled_too_fast _ _); [by destruct (RecordDevicePoll _ _ _ _)|].
    destruct (RecordDevicePoll _ _ _ _) as [st'|] eqn:Hp; [|done]. apply (RecordDevicePoll_ok log) in Hp; [|done].
    destruct (_ =? DeviceStatusPending)%string; [done|]. destruct (_ =? DeviceStatusDenied)%string; [done|]. destruct (_ =? DeviceStatusRedeemed)%string; [done|].
    unfold claim_and_mint, ClaimDeviceCode. destruct (findDevice _ _) as [[id c]|] eqn:Hf; [|done]. apply findDevice_Some in Hf as [Hid _].
    destruct (_ || _); [done|]. simpl. destruct (dc_approver c) as [u|] eqn:Hu; [|done]. destruct (ownerActive _ _ _) as [[? []]|]; [|done..].
    intros Hm. eapply Mint_token_ok; [exact Hm|]. simpl. intros a Ha. left. split; [done|].
    destruct (Hp _ _ Hid) as [_ Hok]. destruct (Hok a Ha) as (_ & u' & Hu' & o' & Ho' & Hg). rewrite Hu in Hu'. injection Hu' as <-.
    exists o'. split; [by right|done].
Qed.

Lemma decision_ok e approver rec abilities granted :
  decision_abilities e approver rec abilities = Ok granted ->
  ∀ a, a ∈ granted -> a ∈ dc_requested rec ∧ holder e approver a.
Proof.
  unfold decision_abilities. destruct (forallb _ _) eqn:Hall; simpl; [|done]. destruct (UserAbilities e approver) as [held|] eqn:Hh; [|done].
  destruct (_ && _); [done|]. set (chosen := match abilities with [] => _ | _ => _ end).
  assert (Hch : ∀ a, a ∈ chosen -> a ∈ dc_requested rec).
  { intros a Ha. unfold chosen in Ha. rewrite forallb_forall in Hall. destruct abilities as [|x l]; [done|].
    apply list_elem_of_In, Hall, bool_decide_eq_true in Ha. done. }
  destruct (clampAbilities chosen held) as [|x l] eqn:Hc; [done|]. intros [= <-] a Ha. rewrite <- Hc in Ha.
  apply elem_of_clamp in Ha as [Ha Hhold]. split; [by apply Hch|]. by exists held.
Qed.

(** A change of one row that keeps its user code. *)
Lemma codes_unique_update devices k d d' :
  devices !! k = Some d -> dc_user_code d' = dc_user_code d -> codes_unique devices -> codes_unique (<[k := d']> devices).
Proof.
  intros Hk Hc Hu i j x y. rewrite !lookup_insert_Some. intros [[<- <-]|[Hi Hx]] [[<- <-]|[Hj Hy]] He; [done|..].
  - rewrite Hc in He. by eapply Hu.
  - rewrite Hc in He. by eapply Hu.
  - by eapply Hu.
Qed.

(** The devices of the next state. *)
Definition devices_ok (log : list token_op) (devices : gmap string DeviceCode) : Prop :=
  map_Forall (fun _ => device_ok log) devices ∧ codes_unique devices.

Lemma devices_ok_update log devices k d d' :
  devices_ok log devices -> devices !! k = Some d -> dc_user_code d' = dc_user_code d -> device_ok log d' -> devices_ok log (<[k := d']> devices).
Proof. intros [Hd Hu] Hk Hc Hok. split; [by apply map_Forall_insert_2|by eapply codes_unique_update]. Qed.

Lemma start_loop_ok log dc rec code codes : ∀ st,
  (∀ id uc, device_ok log (rec id uc) ∧ dc_id (rec id uc) = id) -> devices_ok log (ts_devices st) -> devices_ok log (ts_devices (start_loop st dc rec code codes).1).
Proof.
  induction codes as [|[id [uc|]] codes IH]; intros st Hrec Hok; simpl; [done| |done]. unfold InsertDeviceCode.
  destruct (existsb _ _) eqn:Hx; [by apply IH|]. simpl. destruct (Hrec id uc) as [Hnew Hid]. rewrite Hid. split.
  - apply map_Forall_insert_2; [done|apply Hok].
  - rewrite existsb_false_iff in Hx. assert (Hfresh : ∀ k d, ts_devices st !! k = Some d -> dc_user_code d ≠ dc_user_code (rec id uc)).
    { intros k d Hk Heq. specialize (Hx d). rewrite Heq, String.eqb_refl in Hx. discriminate Hx. apply list_elem_of_fmap. exists (k, d).
      split; [done|]. by apply elem_of_map_to_list. }
    intros i j x y. rewrite !lookup_insert_Some. intros [[<- <-]|[Hi Hxx]] [[<- <-]|[Hj Hyy]] He; [done|..].
    + by destruct (Hfresh j y Hyy).
    + by destruct (Hfresh i x Hxx).
    + by eapply (proj2 Hok).
Qed.

Lemma decideRecord_ok log op st e now approver rec approve abilities :
  devices_ok log (ts_devices st) ->
  (∃ k d, ts_devices st !! k = Some d ∧ dc_user_code d = dc_user_code rec ∧ dc_requested d = dc_requested rec) ->
  (∀ a, holder e approver a -> granted_in op (u_id approver) a) ->
  devices_ok (op :: log) (ts_devices (decideRecord st e now approver rec approve abilities).1).
Proof.
  intros [Hd Hu] (k & d & Hk & Hc & Hr) Hg.
  assert (Hgrow : devices_ok (op :: log) (ts_devices st)).
  { split; [|done]. intros i x Hi. apply device_ok_grow. by apply (Hd i). }
  unfold decideRecord. destruct (if approve then _ else _) as [granted|] eqn:Hdec; [|done]. unfold DecideDeviceCode.
  destruct (findDevice _ _) as [[k' d']|] eqn:Hf; [|done]. apply findDevice_Some in Hf as [Hk' Hc'%String.eqb_eq].
  assert (k' = k) as -> by (eapply Hu; [done..|congruence]). rewrite Hk in Hk'. injection Hk' as <-.
  destruct (String.eqb_spec (dc_status d) DeviceStatusPending) as [Hp|]; [|done]. destruct (Before _ _); [|done]. simpl.
  apply (devices_ok_update _ _ _ d); [done|done|done|]. destruct (Hgrow) as [Hd' _]. destruct (Hd' _ _ Hk) as [Hpend Hok]. destruct approve; split; simpl.
  - done.
  - intros a Ha. destruct (decision_ok _ _ _ _ _ Hdec a Ha) as [Hreq Hh]. split; [by rewrite Hr|]. exists (u_id approver). split; [done|].
    exists op. split; [by left|by apply Hg].
  - done.
  - rewrite (Hpend Hp). by intros a Ha%not_elem_of_nil.
Qed.

Lemma claim_devices_ok log st e now mint_now d dc hash :
  devices_ok log (ts_devices st) -> devices_ok log (ts_devices (claim_and_mint cfg st e now mint_now d dc hash).1).
Proof.
  intros Hok. unfold claim_and_mint, ClaimDeviceCode. destruct (findDevice _ _) as [[k c]|] eqn:Hf; [|done]. apply findDevice_Some in Hf as [Hk _].
  destruct (_ || _); [done|]. simpl.
  assert (Hr : devices_ok log (<[k := code_redeemed c]> (ts_devices st))).
  { apply (devices_ok_update _ _ _ c); [done..|]. destruct (proj1 Hok _ _ Hk) as [_ Ha]. by split. }
  destruct (dc_approver c) as [u|]; [|done]. destruct (ownerActive _ _ _) as [[? []]|]; [|done..].
  destruct (Mint_cases (set_devices st (<[k := code_redeemed c]> (ts_devices st))) mint_now d
    (mkMint u OwnerKindUser (device_name (dc_client c)) (dc_approved c) (dv_token_ttl dc) "" "" None None)) as [[err ->]|(? & ? & _ & -> & _)]; done.
Qed.

Lemma RecordDevicePoll_devices log st hash at_ n st' :
  RecordDevicePoll st hash at_ n = Some st' -> devices_ok log (ts_devices st) -> devices_ok log (ts_devices st').
Proof.
  unfold RecordDevicePoll. destruct (findDevice _ _) as [[id d]|] eqn:Hf; [|done]. intros [= <-] Hok. simpl.
  apply findDevice_Some in Hf as [Hid _]. apply (devices_ok_update _ _ _ d); [done..|]. exact (proj1 Hok _ _ Hid).
Qed.

Lemma devices_ok_grow log op devices : devices_ok log devices -> devices_ok (op :: log) devices.
Proof. intros [Hd Hu]. split; [|done]. intros k d Hk. apply device_ok_grow. by apply (Hd k). Qed.

Lemma pending_listed st now limit rec id :
  List.find (fun r => (dc_id r =? id)%string) (ListPendingDeviceCodes st now limit) = Some rec ->
  ∃ k d, ts_devices st !! k = Some d ∧ dc_user_code d = dc_user_code rec ∧ dc_requested d = dc_requested rec.
Proof.
  intros [Hin _]%find_some. unfold ListPendingDeviceCodes in Hin. set (out := sort_by _ _) in Hin.
  assert (Ho : rec ∈ out).
  { destruct (_ && _) in Hin; apply list_elem_of_In in Hin; [|done].
    rewrite <- (take_drop (Z.to_nat limit) out), elem_of_app. by left. }
  unfold out in Ho. apply elem_of_sort_by, list_elem_of_fmap in Ho as (d & -> & Hd). apply list_elem_of_In, filter_In in Hd as [Hd _].
  apply list_elem_of_In, list_elem_of_fmap in Hd as ([k d'] & -> & Hk). apply elem_of_map_to_list in Hk. by exists k, d'.
Qed.

Lemma exec_devices_ok log st op : devices_ok log (ts_devices st) -> devices_ok (op :: log) (ts_devices (exec st op)).
Proof.
  intros Hok. pose proof (devices_ok_grow log op _ Hok) as Hg. destruct op; simpl.
  - by destruct (Mint_cases st now d i) as [[? ->]|(? & ? & _ & -> & _)].
  - by destruct (import_cases st now newID i) as [[? ->]|(? & -> & _)].
  - unfold handleTokenCreate. destruct body as [b|]; [|done]. destruct (UserAbilities e user); [|done]. destruct (create_owner _ _ _ _) as [|[o k]]; [done|].
    destruct (negb _); [done|]. destruct (negb _); [done|].
    destruct (Mint_cases st now d (mkMint o k (tb_name b) (tb_abilities b) (wrap64 (tb_expires_in b * Second)) (tb_kind b) (tb_agent_name b) None None))
      as [[[] ->]|(? & ? & _ & -> & _)]; done.
  - unfold MintAgentToken. destruct (he_users e userID); [|done]. destruct (negb _); [done|]. destruct (UserAbilities _ _); [|done]. destruct (negb _); [done|].
    destruct (Mint_cases st now d (mkMint userID OwnerKindUser agentName abilities ttl APITokenKindAgent agentName (Some userID) agentID))
      as [[? ->]|(? & ? & _ & -> & _)]; done.
  - unfold Authenticate, TouchAPITokenLastUsed. repeat case_match; simpl; try done; destruct (ts_tokens st !! _); done.
  - unfold handleTokenRevoke, Revoke, RevokeAPIToken. destruct (ParseStrict path) as [id|]; [|done]. destruct (APITokenByID st id) as [tok|]; [|done].
    destruct (ts_tokens st !! id) as [t|]; simpl; [destruct (bool_decide (at_revoked t = None))|]; repeat case_match; done.
  - unfold handleTokenCurrentRevoke, Revoke, RevokeAPIToken. destruct (p_token p) as [id|]; [|done].
    destruct (ts_tokens st !! id) as [t|]; simpl; [by destruct (bool_decide (at_revoked t = None))|done].
  - done.
  - unfold StartDeviceAuth. destruct (cf_device cfg) as [dc|]; [|done]. destruct (negb _); [done|]. destruct secret as [code|]; [|done].
    apply start_loop_ok; [|done]. intros id uc. split; [|done]. split; [done|]. simpl. by intros a Ha%not_elem_of_nil.
  - unfold LookupDeviceRequest. destruct (cf_device cfg); [|done]. pose proof (lookupPending_tables st now (u_id user) ip userCode) as [_ Hd].
    destruct (lookupPending _ _ _ _ _) as [st' []]; simpl in *; by rewrite Hd.
  - unfold DecideDeviceRequest. destruct (cf_device cfg); [|done]. pose proof (lookupPending_tables st (clk 0%nat) (u_id user) ip userCode) as [_ Hd].
    destruct (lookupPending _ _ _ _ _) as [st' [rec|]] eqn:Hl; simpl in *; [|by rewrite Hd]. apply decideRecord_ok; [by rewrite Hd| |by intros a Ha].
    rewrite Hd. unfold lookupPending, lookup_check, lookup_found in Hl. destruct (check_keys _ _ _) as [fails []]; [done|].
    unfold DeviceCodeByUserCode in Hl. destruct (findDevice _ _) as [[k r]|] eqn:Hf; simpl in Hl; [|done]. apply findDevice_Some in Hf as [Hf _].
    destruct (negb _); [done|]. destruct (negb _); [done|]. injection Hl as _ <-. by exists k, r.
  - unfold DecideDeviceRequestByID. destruct (cf_device cfg); [|done]. destruct (List.find _ _) as [rec|] eqn:Hf; [|done].
    apply decideRecord_ok; [done|by eapply pending_listed|by intros a Ha].
  - unfold RedeemDeviceCode. destruct (cf_device cfg) as [dc|]; [|done]. destruct (DeviceCodeByHash _ _) as [rec|]; [|done].
    destruct (negb _); [done|]. destruct (polled_too_fast _ _).
    + destruct (RecordDevicePoll _ _ _ _) as [st'|] eqn:Hp; [|done]. by apply (RecordDevicePoll_devices (KRedeem e clk d deviceCode :: log)) in Hp.
    + destruct (RecordDevicePoll _ _ _ _) as [st'|] eqn:Hp; [|done]. apply (RecordDevicePoll_devices (KRedeem e clk d deviceCode :: log)) in Hp; [|done].
      destruct (_ =? DeviceStatusPending)%string; [done|]. destruct (_ =? DeviceStatusDenied)%string; [done|]. destruct (_ =? DeviceStatusRedeemed)%string; [done|].
      by apply claim_devices_ok.
  - unfold PurgeExpiredDeviceCodes. destruct (cf_device cfg); [|done]. simpl. destruct Hg as [Hd Hu]. split.
    + intros k x [Hk _]%map_lookup_filter_Some. by apply (Hd k).
    + intros k k' x y [Hk _]%map_lookup_filter_Some [Hk' _]%map_lookup_filter_Some. by eapply Hu.
Qed.

Lemma exec_grants_ok log st op : grants_ok log st -> grants_ok (op :: log) (exec st op).
Proof.
  intros Hok. destruct (exec_devices_ok log st op) as [Hd Hu]; [split; apply Hok|]. split; [|done..].
  intros k t Hk. apply exec_evolves in Hk as [(t0 & Hk & Hc)|(raw & Hm)]; [|by eapply minted_ok].
  apply token_ok_grow. eapply token_ok_carried; [exact Hc|]. by apply (go_tokens _ _ Hok k).
Qed.

Lemma run_tokens_ok ops : ∀ log st, grants_ok log st -> grants_ok (rev ops ++ log) (run st ops).
Proof.
  induction ops as [|op ops IH]; intros log st Hok; [done|]. simpl. rewrite <- app_assoc. simpl. apply IH. by apply exec_grants_ok.
Qed.

Definition empty_state : TokenState := mkState ∅ ∅ ∅.

(** C33. Where the abilities of tokens come from. After any run of operations on empty tables (the routes, the calls
    for agents and devices, and the host's own MintAPIToken and ImportAPIToken), every ability of every stored token
    goes back to an operation of the run: the owner held it and handed it on, when he minted the token or approved the
    device's request; or, for a service account, an administrator who held it minted the token; or the host minted or
    imported, on its own authority, a token of that owner with that ability. The last is the only way to an ability
    that nobody was checked to hold. A device was never approved for more than it asked for. *)
Theorem tokens_within_grants ops :
  let st := run empty_state ops in
  (∀ k t a, ts_tokens st !! k = Some t -> a ∈ at_abilities t ->
    (at_owner_kind t = OwnerKindUser ∧ ∃ op, op ∈ ops ∧ granted_in op (at_owner t) a)
    ∨ (at_owner_kind t = OwnerKindServiceAccount ∧ ∃ op, op ∈ ops ∧ granted_by_admin op a)
    ∨ ∃ op, op ∈ ops ∧ granted_by_host op (at_owner t) (at_owner_kind t) a)
  ∧ (∀ k d a, ts_devices st !! k = Some d -> a ∈ dc_approved d -> a ∈ dc_requested d).
Proof.
  destruct (run_tokens_ok ops [] empty_state) as [Ht Hd _].
  { split; [apply map_Forall_empty..|]. intros k k' d d' Hk. simpl in Hk. by rewrite lookup_empty in Hk. }
  rewrite app_nil_r in Ht, Hd. split.
  - intros k t a Hk Ha. refine (vouched_mono (rev ops) ops _ _ _ _ (Ht k t Hk a Ha)). intros op Ho. by apply list_elem_of_In, in_rev, list_elem_of_In.
  - intros k d a Hk Ha. by apply (Hd k d Hk).
Qed.

(** *** Revoked tokens *)

(** The hash under which an operation would store a token: of the secret it draws, or the imported one. *)
Definition op_hash (op : token_op) : option string :=
  match op with
  | KCreate _ _ d _ _ _ | KAgent _ _ d _ _ _ _ _ | KRedeem _ _ d _ | KMint _ d _ => (fun s => hashToken (cf_prefix cfg +:+ "_" +:+ s)) <$> md_secret d
  | KImport _ _ i => Some (im_hash i)
  | _ => None
  end.

Lemma Mint_hash st now d i raw t :
  (Mint cfg st now d i).2 = Ok (raw, t) -> (fun s => hashToken (cf_prefix cfg +:+ "_" +:+ s)) <$> md_secret d = Some (at_hash t).
Proof.
  intros Hm. destruct (Mint_cases st now d i) as [[err He]|(secret & t' & Hs & He & _ & _ & _ & _ & Hh & _)]; rewrite He in Hm; simplify_eq/=. by rewrite Hs, Hh.
Qed.

Lemma minted_hash st op raw t :
  minted st op raw t -> op_hash op = Some (at_hash t).
Proof.
  destruct op; simpl; try done.
  - apply Mint_hash.
  - destruct (import_cases st now newID i) as [[err ->]|(t' & -> & _ & _ & _ & Hh)]; [by intros [_ ?]|]. intros [_ [= <-]]. by rewrite Hh.
  - unfold handleTokenCreate. destruct body as [b|]; [|done]. destruct (UserAbilities e user) as [held|]; [|done].
    destruct (create_owner _ _ _ _) as [|[o k]]; [done|]. destruct (negb (validateAbilities _ _ _)); [done|]. destruct (negb _); [done|].
    destruct (Mint _ _ _ _ _) as [st' [[raw' t']|err]] eqn:Hm; [|by destruct err]. intros [= <- <-].
    eapply (Mint_hash st now d). by rewrite Hm.
  - unfold MintAgentToken. repeat case_match; try done. apply Mint_hash.
  - unfold RedeemDeviceCode, claim_and_mint. repeat case_match; try done. apply Mint_hash.
Qed.

(** No stored token with this hash can be used. *)
Definition dead (h : string) (st : TokenState) : Prop := map_Forall (fun _ t => at_hash t = h -> is_Some (at_revoked t)) (ts_tokens st).

Definition secrets_avoid (h : string) (ops : list token_op) : Prop :=
  Forall (fun op => op_hash op ≠ Some h) ops.

Lemma exec_dead h st op :
  op_hash op ≠ Some h -> dead h st -> dead h (exec st op).
Proof.
  intros Hop Hd k t Hk. apply exec_evolves in Hk as [(t0 & Hk & Hc)|(raw & Hm)].
  - specialize (Hd k t0 Hk). destruct Hc as [->|(n & [->| ->])]; simpl; [done|by intros _|done].
  - apply minted_hash in Hm. intros Hx. by destruct Hop; rewrite Hm, Hx.
Qed.

Lemma run_dead h ops : ∀ st, secrets_avoid h ops -> dead h st -> dead h (run st ops).
Proof. induction ops as [|op ops IH]; intros st Ha Hd; [done|]. apply Forall_cons in Ha as [Hop Ha]. simpl. apply IH; [done|]. by apply exec_dead. Qed.

Lemma APITokenByHash_Some st h t : APITokenByHash st h = Some t -> at_hash t = h ∧ ∃ k, ts_tokens st !! k = Some t.
Proof.
  intros [Hin Hh%String.eqb_eq]%find_some. split; [done|]. apply list_elem_of_In, list_elem_of_fmap in Hin as ([k x] & -> & Hk). exists k. by apply elem_of_map_to_list.
Qed.

Lemma dead_refused st e now raw : dead (hashToken raw) st -> Authenticate cfg st e now raw = (st, Err TInvalid).
Proof.
  intros Hd. unfold Authenticate. destruct (_ || _); [done|]. destruct (APITokenByHash _ _) as [t|] eqn:Ht; [|done].
  apply APITokenByHash_Some in Ht as [Hh [k Hk]]. destruct (Hd k t Hk Hh) as [n Hn]. unfold Usable. rewrite Hn. done.
Qed.

(** A revoked token is never accepted again: whatever operations follow a successful revocation, the
    presented secret is refused without an effect, if the tables held one row for it and no later operation
    drew a secret or imported a token with the same hash. *)
Theorem revoked_token_refused st now id tok st' raw ops e now' :
  ts_tokens st !! id = Some tok -> at_hash tok = hashToken raw ->
  (∀ k t, ts_tokens st !! k = Some t -> at_hash t = hashToken raw -> k = id) ->
  Revoke st now id = (st', Ok tt) -> secrets_avoid (hashToken raw) ops ->
  Authenticate cfg (run st' ops) e now' raw = (run st' ops, Err TInvalid).
Proof.
  intros Hid Hh Hone Hr Ha. apply dead_refused, run_dead; [done|]. unfold Revoke, RevokeAPIToken in Hr. rewrite Hid in Hr. simpl in Hr.
  injection Hr as <-. intros k t Hk Ht. destruct (bool_decide_reflect (at_revoked tok = None)) as [|Hne]; simpl in Hk.
  - apply lookup_insert_Some in Hk as [[_ <-]|[Hki Hk]]; [done|]. by destruct Hki; rewrite (Hone k t Hk Ht).
  - assert (k = id) as -> by (by eapply Hone). rewrite Hid in Hk. injection Hk as <-. by apply not_eq_None_Some.
Qed.

(** *** Authority at a request *)

(** The stored token behind a bearer secret that is accepted, and what it may do now. *)
Definition bearer_for (st : TokenState) (e : HostEnv) (now : Z) (raw : string) (p : Principal) : Prop :=
  ∃ k tok, ts_tokens st !! k = Some tok ∧ at_hash tok = hashToken raw ∧ at_revoked tok = None
    ∧ (∀ x, at_expires tok = Some x -> now < x) ∧ p_user_id p = at_owner tok
    ∧ (if (at_owner_kind tok =? OwnerKindUser)%string
       then ∃ u held, he_users e (at_owner tok) = Some u ∧ UserAbilities e u = Some held
              ∧ ∀ a, a ∈ p_abilities p ↔ a ∈ at_abilities tok ∧ holdsAbility held a = true
       else p_abilities p = at_abilities tok).

Lemma Authenticate_ok st e now raw st' p : Authenticate cfg st e now raw = (st', Ok p) -> bearer_for st e now raw p.
Proof.
  unfold Authenticate. destruct (_ || _); [done|]. destruct (APITokenByHash _ _) as [tok|] eqn:Ht; [|done].
  apply APITokenByHash_Some in Ht as [Hh [k Hk]]. destruct (Usable tok now) eqn:Hu; simpl; [|done]. unfold Usable in Hu.
  apply andb_prop in Hu as [Hr%bool_decide_eq_true Hx].
  assert (Hexp : ∀ x, at_expires tok = Some x -> now < x) by (intros x E; rewrite E in Hx; by apply Z.ltb_lt in Hx).
  unfold bearer_for, ownerActive. destruct (at_owner_kind tok =? OwnerKindUser)%string eqn:Hkind; simpl.
  - destruct (he_users e (at_owner tok)) as [u|] eqn:Hus; simpl; [|done].
    assert (Hact : ∀ r : result token_error (option User * bool), r = match he_active e with None => Ok (Some u, true) | Some f => match f (at_owner tok) with None => Err THost | Some false => Ok (None, false) | Some true => Ok (Some u, true) end end ->
      r = Ok (Some u, true) ∨ (∃ err, r = Err err) ∨ r = Ok (None, false)) by (intros r ->; repeat case_match; eauto).
    destruct (Hact _ eq_refl) as [->|[[err ->]| ->]]; [|done..]. destruct (UserAbilities e u) as [held|] eqn:Hheld; simpl; [|done].
    intros [= _ <-]. exists k, tok. rewrite Hkind. split_and!; [done..|]. exists u, held. split; [done|]. split; [done|]. intros a. simpl. apply elem_of_clamp.
  - destruct (he_active e) as [f|]; [destruct (f (at_owner tok)) as [[]|]|]; try done; intros [= _ <-]; exists k, tok; rewrite Hkind; by split_and!.
Qed.

(** C34. A route that asks for an ability serves only callers who hold it now: the owner of a live token that
    carries the ability, as far as the owner still holds it himself, or the user of a full session. A request
    with a bearer token is never served by its cookie. *)
Theorem ability_route_sound st e now ability header cookie validate st' p :
  RequireAbility cfg st e now ability header cookie validate = (st', Served p) ->
  holdsAbility (p_abilities p) ability = true
  ∧ match BearerToken header with
    | Some raw => bearer_for st e now raw p
    | None => ∃ c level user, cookie = Some c ∧ validate c = Some (level, user) ∧ (level = "" ∨ level = AuthLevelFull)
                ∧ p_user_id p = u_id user ∧ UserAbilities e user = Some (p_abilities p)
    end.
Proof.
  unfold RequireAbility, principalFromRequest. destruct (BearerToken header) as [raw|] eqn:Hb.
  - destruct (Authenticate cfg st e now raw) as [st1 [q|err]] eqn:Ha; [|by destruct err]. destruct (Has q ability) eqn:Hh; [|done].
    intros [= <- <-]. split; [exact Hh|]. by eapply Authenticate_ok.
  - destruct cookie as [[|c0 c]|]; [done| |done]. set (v := String c0 c). unfold sessionPrincipal. destruct (validate v) as [[level user]|] eqn:Hv; [|done].
    destruct (String.eqb_spec level "") as [Hl|Hl]; simpl.
    + destruct (UserAbilities e user) as [ab|] eqn:Hab; [|done]. destruct (Has _ _) eqn:Hh; [|done]. intros [= <- <-]. split; [exact Hh|].
      exists v, level, user. split_and!; auto.
    + destruct (String.eqb_spec level AuthLevelFull) as [Hf|]; simpl; [|done].
      destruct (UserAbilities e user) as [ab|] eqn:Hab; [|done]. destruct (Has _ _) eqn:Hh; [|done]. intros [= <- <-]. split; [exact Hh|].
      exists v, level, user. split_and!; auto.
Qed.

(** *** Guessing user codes *)

(** The keys, the code and the time of a lookup by user code. *)
Definition lookup_of (op : token_op) : option (list string * string * Z) :=
  match op with
  | KLookup now user ip code => Some (attempt_keys (u_id user) ip, code, now)
  | KDecide _ clk user ip code _ _ => Some (attempt_keys (u_id user) ip, code, clk 0%nat)
  | _ => None
  end.

(** The times at which the limiter let a code of this key through that does not exist. *)
Definition wrong_code (st : TokenState) (op : token_op) (key : string) : list Z :=
  match cf_device cfg, lookup_of op with
  | Some _, Some (keys, code, now) =>
      if bool_decide (key ∈ keys) && negb (check_keys (ts_fails st) keys now).2 && bool_decide (DeviceCodeByUserCode st (normalizeUserCode code) = None)
      then [now] else []
  | _, _ => []
  end.

Fixpoint guesses (st : TokenState) (ops : list token_op) (key : string) : list Z :=
  match ops with [] => [] | op :: ops => wrong_code st op key ++ guesses (exec st op) ops key end.

Definition lookup_times (ops : list token_op) : list Z := omap (fun op => snd <$> lookup_of op) ops.

Definition within (now : Z) (l : list Z) : list Z := List.filter (fun t => Sub now t <? attempt_window) l.

Definition failures (st : TokenState) (key : string) : list Z := default [] (ts_fails st !! key).

Lemma within_later now now' l : now <= now' -> within now' (within now l) = within now' l.
Proof.
  intros Hle. unfold within. induction l as [|x l IH]; [done|]. simpl. destruct (Z.ltb_spec (Sub now x) attempt_window) as [Hx|Hx]; simpl.
  - destruct (_ <? _); by rewrite IH.
  - destruct (Z.ltb_spec (Sub now' x) attempt_window) as [Hx'|]; [|done]. unfold Sub in *. lia.
Qed.

Lemma within_app now l l' : within now (l ++ l') = within now l ++ within now l'.
Proof. apply List.filter_app. Qed.

Lemma prune_lookup fails key k now :
  default [] (prune fails key now !! k) = if decide (key = k) then within now (default [] (fails !! k)) else default [] (fails !! k).
Proof.
  unfold prune, kept. fold (within now (default [] (fails !! key))). destruct (decide (key = k)) as [->|Hne].
  - destruct (within now (default [] (fails !! k))) eqn:Hw; [by rewrite lookup_delete_eq|by rewrite lookup_insert_eq].
  - destruct (within now (default [] (fails !! key))); [by rewrite lookup_delete_ne|by rewrite lookup_insert_ne].
Qed.

Lemma fail_lookup fails key k now :
  default [] (fail fails key now !! k) = if decide (key = k) then within now (default [] (fails !! k)) ++ [now] else default [] (fails !! k).
Proof.
  unfold fail. destruct (decide (key = k)) as [->|Hne].
  - rewrite lookup_insert_eq. simpl. by rewrite prune_lookup, decide_True.
  - rewrite lookup_insert_ne by done. by rewrite prune_lookup, decide_False.
Qed.

(** One lookup: the failures of a key stay, are pruned, or get one more while fewer than the limit. *)
Lemma lookupPending_failures st now u ip code k :
  let st' := (lookupPending st now u ip code).1 in
  let keys := attempt_keys u ip in
  let guess := bool_decide (k ∈ keys) && negb (check_keys (ts_fails st) keys now).2 && bool_decide (DeviceCodeByUserCode st (normalizeUserCode code) = None) in
  if guess then (length (within now (failures st k)) < max_attempts)%nat ∧ failures st' k = within now (failures st k) ++ [now]
  else failures st' k = failures st k ∨ failures st' k = within now (failures st k).
Proof.
  intros st' keys guess. unfold guess, st', keys, lookupPending, lookup_check, lookup_found, failures. clear guess st' keys. unfold attempt_keys.
  set (a := "u:" +:+ u). set (b := "ip:" +:+ ip). assert (Hab : a ≠ b) by done.
  set (f1 := prune (ts_fails st) a now).
  assert (Hck : check_keys (ts_fails st) [a; b] now
    = if (max_attempts <=? length (kept (ts_fails st) a now))%nat then (f1, true)
      else if (max_attempts <=? length (kept f1 b now))%nat then (prune f1 b now, true) else (prune f1 b now, false)) by done.
  rewrite Hck. clear Hck. destruct (max_attempts <=? length (kept (ts_fails st) a now))%nat eqn:Ha; cbn [fst snd negb].
  { rewrite andb_false_r. cbn [andb fst set_fails ts_fails]. unfold f1. rewrite prune_lookup. destruct (decide (a = k)); auto. }
  assert (Hf1 : default [] (f1 !! b) = default [] (ts_fails st !! b)) by (unfold f1; by rewrite prune_lookup, decide_False).
  assert (Hf2 : ∀ k, default [] (prune f1 b now !! k) = if decide (k ∈ [a; b]) then within now (default [] (ts_fails st !! k)) else default [] (ts_fails st !! k)).
  { intros j. rewrite prune_lookup. unfold f1. rewrite prune_lookup. destruct (decide (b = j)) as [<-|Hb].
    - rewrite (decide_False (P := a = b)) by done. by rewrite decide_True by set_solver.
    - destruct (decide (a = j)) as [<-|Haj]; [by rewrite decide_True by set_solver|by rewrite decide_False by set_solver]. }
  destruct (max_attempts <=? length (kept f1 b now))%nat eqn:Hb; cbn [fst snd negb].
  { rewrite andb_false_r. cbn [andb fst set_fails ts_fails]. rewrite Hf2. destruct (decide _); auto. }
  rewrite andb_true_r. change (DeviceCodeByUserCode (set_fails st (prune f1 b now)) (normalizeUserCode code)) with (DeviceCodeByUserCode st (normalizeUserCode code)).
  destruct (DeviceCodeByUserCode st (normalizeUserCode code)) as [rec|]; simpl.
  { rewrite andb_false_r. destruct (Before _ _); simpl; [destruct (_ =? _)%string; simpl|]; rewrite Hf2; destruct (decide _); auto. }
  rewrite andb_true_r. rewrite !fail_lookup, !Hf2. apply Nat.leb_gt in Ha, Hb. unfold kept in Ha, Hb. rewrite Hf1 in Hb.
  fold (within now (default [] (ts_fails st !! a))) in Ha. fold (within now (default [] (ts_fails st !! b))) in Hb.
  destruct (decide (b = k)) as [<-|Hbk].
  - rewrite bool_decide_true by set_solver. rewrite (decide_False (P := a = b)) by done. rewrite decide_True by set_solver. by rewrite within_later by lia.
  - destruct (decide (a = k)) as [<-|Hak].
    + rewrite bool_decide_true by set_solver. rewrite decide_True by set_solver. by rewrite within_later by lia.
    + rewrite bool_decide_false by set_solver. rewrite decide_False by set_solver. by left.
Qed.

Lemma decideRecord_fails st e now approver rec approve abilities :
  ts_fails (decideRecord st e now approver rec approve abilities).1 = ts_fails st.
Proof.
  unfold decideRecord. destruct (if approve then _ else _); [|done]. unfold DecideDeviceCode. by destruct (findDevice _ _) as [[id d]|]; [destruct (_ || _)|].
Qed.

Lemma Mint_fails st now d i : ts_fails (Mint cfg st now d i).1 = ts_fails st.
Proof. by destruct (Mint_cases st now d i) as [[err ->]|(? & ? & _ & -> & _)]. Qed.

Lemma start_loop_fails st dc rec code codes : ts_fails (start_loop st dc rec code codes).1 = ts_fails st.
Proof. induction codes as [|[id [uc|]] codes IH]; simpl; [done| |done]. unfold InsertDeviceCode. by destruct (existsb _ _). Qed.

(** Only lookups touch the limiter. *)
Lemma import_fails st now newID i : ts_fails (importAPIToken cfg st now newID i).1 = ts_fails st.
Proof. by destruct (import_cases st now newID i) as [[? ->]|(? & -> & _)]. Qed.

Lemma exec_fails st op : lookup_of op = None -> ts_fails (exec st op) = ts_fails st.
Proof.
  destruct op; simpl; try done; intros _.
  - apply Mint_fails.
  - apply import_fails.
  - unfold handleTokenCreate. repeat case_match; try done; simplify_eq/=;
      match goal with Hm : Mint cfg st ?n ?d ?i = _ |- _ => pose proof (Mint_fails st n d i) as Hx; by rewrite Hm in Hx end.
  - unfold MintAgentToken. repeat case_match; try done. apply Mint_fails.
  - unfold Authenticate, TouchAPITokenLastUsed. repeat case_match; simpl; try done; destruct (ts_tokens st !! _); done.
  - unfold handleTokenRevoke, Revoke, RevokeAPIToken. destruct (ParseStrict path) as [id|]; [|done]. destruct (APITokenByID st id) as [tok|]; [|done].
    destruct (ts_tokens st !! id) as [t|]; simpl; [destruct (bool_decide (at_revoked t = None))|]; repeat case_match; done.
  - unfold handleTokenCurrentRevoke, Revoke, RevokeAPIToken. destruct (p_token p) as [id|]; [|done].
    destruct (ts_tokens st !! id) as [t|]; simpl; [by destruct (bool_decide (at_revoked t = None))|done].
  - unfold StartDeviceAuth. repeat case_match; try done; apply start_loop_fails.
  - unfold DecideDeviceRequestByID. repeat case_match; try done. apply decideRecord_fails.
  - unfold RedeemDeviceCode, claim_and_mint, RecordDevicePoll, ClaimDeviceCode.
    repeat case_match; simplify_option_eq; try done; by rewrite Mint_fails.
  - unfold PurgeExpiredDeviceCodes. by destruct (cf_device cfg).
Qed.

(** The failures of a key after an operation, with its guess. *)
Lemma exec_failures st op key now :
  snd <$> lookup_of op = Some now ->
  match wrong_code st op key with
  | [] => failures (exec st op) key = failures st key ∨ failures (exec st op) key = within now (failures st key)
  | g => g = [now] ∧ (length (within now (failures st key)) < max_attempts)%nat ∧ failures (exec st op) key = within now (failures st key) ++ [now]
  end.
Proof.
  intros Hl. unfold wrong_code. destruct (cf_device cfg) as [dc|] eqn:Hdc.
  2:{ left. destruct op; simplify_eq/=; [unfold LookupDeviceRequest|unfold DecideDeviceRequest]; by rewrite Hdc. }
  assert (Hex : ∃ u ip code, lookup_of op = Some (attempt_keys u ip, code, now) ∧ ts_fails (exec st op) = ts_fails (lookupPending st now u ip code).1).
  { destruct op; simplify_eq/=.
    - exists (u_id user), ip, userCode. split; [done|]. unfold LookupDeviceRequest. rewrite Hdc. by destruct (lookupPending _ _ _ _ _) as [st' []].
    - exists (u_id user), ip, userCode. split; [done|]. unfold DecideDeviceRequest. rewrite Hdc. destruct (lookupPending _ _ _ _ _) as [st' []]; [|done].
      by rewrite decideRecord_fails. }
  destruct Hex as (u & ip & code & -> & Hf). pose proof (lookupPending_failures st now u ip code key) as Hlp. cbv zeta in Hlp.
  assert (He : failures (exec st op) key = failures (lookupPending st now u ip code).1 key) by (unfold failures; by rewrite Hf).
  rewrite He. destruct (_ && _ && _); [by split|exact Hlp].
Qed.

Definition in_window_of (t x : Z) : bool := (t <=? x) && (x <? t + attempt_window).

Definition few (l : list Z) : Prop := ∀ t, (length (List.filter (in_window_of t) l) <= max_attempts)%nat.

(** The limiter remembers the guesses: at any later time it counts those still in its window. *)
Record remembers (st : TokenState) (key : string) (past : list Z) (now : Z) : Prop := mkRemembers {
  rm_count : ∀ now', now <= now' -> within now' (failures st key) = within now' past;
  rm_past : Forall (fun x => x <= now) past;
  rm_few : few past;
}.

Lemma filter_window_le t now l :
  t <= now < t + attempt_window -> (length (List.filter (in_window_of t) l) <= length (within now l))%nat.
Proof.
  intros Ht. induction l as [|x l IH]; [done|]. simpl. unfold in_window_of at 1.
  destruct (Z.leb_spec t x); simpl; [|destruct (_ <? attempt_window); simpl; lia].
  destruct (Z.ltb_spec x (t + attempt_window)); simpl; [|destruct (_ <? attempt_window); simpl; lia].
  destruct (Z.ltb_spec (Sub now x) attempt_window) as [|Hx]; simpl; [lia|]. unfold Sub, attempt_window, Minute, Second, min_int64, max_int64 in *. lia.
Qed.

Lemma few_snoc past now : few past -> (length (within now past) < max_attempts)%nat -> few (past ++ [now]).
Proof.
  intros Hfew Hlt t. rewrite List.filter_app, length_app. simpl. destruct (in_window_of t now) eqn:Hw; simpl; [|specialize (Hfew t); lia].
  unfold in_window_of in Hw. apply andb_prop in Hw as [H1%Z.leb_le H2%Z.ltb_lt].
  pose proof (filter_window_le t now past (conj H1 H2)). unfold max_attempts in *. lia.
Qed.

Lemma remembers_later st key past now now' : now <= now' -> remembers st key past now -> remembers st key past now'.
Proof.
  intros Hle [Hc Hp Hf]. split; [intros; apply Hc; lia| |done]. eapply Forall_impl; [exact Hp|]. simpl. lia.
Qed.

Lemma exec_remembers st op key past now :
  remembers st key past now -> (∀ n, snd <$> lookup_of op = Some n -> now <= n) ->
  remembers (exec st op) key (past ++ wrong_code st op key) (default now (snd <$> lookup_of op)).
Proof.
  intros Hr Hn. destruct (lookup_of op) as [[[keys code] n]|] eqn:Hl; simpl.
  2:{ assert (Hw : wrong_code st op key = []) by (unfold wrong_code; rewrite Hl; by destruct (cf_device cfg)). rewrite Hw, app_nil_r.
      destruct Hr as [Hc Hp Hf]. split; [|done..]. intros now' Hle. unfold failures. rewrite exec_fails by done. by apply Hc. }
  specialize (Hn n eq_refl). pose proof (exec_failures st op key n) as He. rewrite Hl in He. specialize (He eq_refl).
  apply (remembers_later _ _ _ _ n Hn) in Hr as [Hc Hp Hf]. destruct (wrong_code st op key) as [|g gs].
  - rewrite app_nil_r. split; [|done..]. intros now' Hle. destruct He as [-> | ->]; [by apply Hc|]. rewrite within_later by done. by apply Hc.
  - destruct He as (-> & Hlt & He). split.
    + intros now' Hle. rewrite He, !within_app, within_later by done. by rewrite Hc.
    + apply Forall_app. split; [done|]. by apply Forall_singleton.
    + apply few_snoc; [done|]. by rewrite <- Hc.
Qed.

Lemma run_remembers key ops : ∀ st past now,
  remembers st key past now -> StronglySorted Z.le (now :: lookup_times ops) -> few (past ++ guesses st ops key).
Proof.
  induction ops as [|op ops IH]; intros st past now Hr Hs; simpl.
  - rewrite app_nil_r. apply Hr.
  - rewrite app_assoc. apply (IH _ _ (default now (snd <$> lookup_of op))).
    + apply exec_remembers; [done|]. intros n Hn. apply StronglySorted_inv in Hs as [_ Hall]. unfold lookup_times in Hall. simpl in Hall.
      rewrite Hn in Hall. by apply Forall_cons in Hall as [? _].
    + unfold lookup_times in *. simpl in Hs. destruct (lookup_of op) as [[[ks c] n]|]; simpl in *; [|done]. by apply StronglySorted_inv in Hs as [? _].
Qed.

(** [n] lookups of one approver whose checks all come before any of their failures is counted: the limiter's
    answers, and the state the ones it let through leave. *)
Fixpoint overlapping_checks (n : nat) (st : TokenState) (now : Z) (u ip : string) : TokenState * list bool :=
  match n with
  | O => (st, [])
  | S n => let '(st, b) := lookup_check st now u ip in let '(st, bs) := overlapping_checks n st now u ip in (st, b :: bs)
  end.

Definition overlapping_lookups (n : nat) (st : TokenState) (now : Z) (u ip code : string) : TokenState * list bool :=
  let '(st, bs) := overlapping_checks n st now u ip in
  (fold_left (fun st b => if b : bool then st else (lookup_found st now u ip code).1) bs st, bs).

Lemma lookup_check_unseen st now u ip :
  (∀ key, key ∈ attempt_keys u ip -> ts_fails st !! key = None) -> lookup_check st now u ip = (st, false).
Proof.
  intros Hnone. assert (Hb : ∀ key, key ∈ attempt_keys u ip -> blocked (ts_fails st) key now = (ts_fails st, false)).
  { intros key Hkey. specialize (Hnone key Hkey). unfold blocked, prune, kept. rewrite Hnone. simpl. by rewrite delete_id. }
  unfold lookup_check, attempt_keys in *. cbn [check_keys]. rewrite !Hb by set_solver. by destruct st.
Qed.

Lemma overlapping_checks_pass n st now u ip :
  (∀ key, key ∈ attempt_keys u ip -> ts_fails st !! key = None) -> overlapping_checks n st now u ip = (st, replicate n false).
Proof. intros Hnone. induction n as [|n IH]; [done|]. simpl. rewrite (lookup_check_unseen st now u ip Hnone). by rewrite IH. Qed.

Lemma Sub_diag_window now : (Sub now now <? attempt_window) = true.
Proof. apply Z.ltb_lt. unfold Sub, attempt_window, Minute, Second, min_int64, max_int64. lia. Qed.

Lemma within_now now k : within now (replicate k now) = replicate k now.
Proof.
  induction k as [|k IH]; [done|]. simpl. rewrite Sub_diag_window. by rewrite IH.
Qed.

Lemma wrong_code_counted st now u ip code k key :
  DeviceCodeByUserCode st (normalizeUserCode code) = None -> key ∈ attempt_keys u ip -> failures st key = replicate k now ->
  let st' := (lookup_found st now u ip code).1 in
  DeviceCodeByUserCode st' (normalizeUserCode code) = None ∧ failures st' key = replicate (S k) now.
Proof.
  intros Hcode Hkey Hk st'. unfold st', lookup_found. rewrite Hcode. split; [exact Hcode|]. unfold failures in *. cbn [fst set_fails ts_fails fold_left attempt_keys].
  rewrite !fail_lookup. unfold attempt_keys in Hkey. apply elem_of_cons in Hkey as [-> | ->%list_elem_of_singleton].
  - rewrite (decide_False (P := "ip:" +:+ ip = _)) by done. rewrite decide_True by done. by rewrite Hk, within_now, <- replicate_cons_app.
  - rewrite decide_True by done. rewrite (decide_False (P := "u:" +:+ u = _)) by done. by rewrite Hk, within_now, <- replicate_cons_app.
Qed.

(** C35. Guesses of user codes are bounded when lookups are served one after the other: in any such run with a
    clock that does not go back, at most five codes that do not exist are let through to the table for one approver,
    and for one address, within any fifteen minutes. The bound does not survive lookups served in parallel, because the
    limiter is asked and told under separate locks: of any number of lookups of a wrong code whose checks all come
    before the first of their failures is counted, all are let through. *)
Theorem user_code_guesses_bounded :
  (∀ ops key t, StronglySorted Z.le (lookup_times ops) ->
    (length (List.filter (in_window_of t) (guesses empty_state ops key)) <= max_attempts)%nat)
  ∧ (∀ n st now u ip code, DeviceCodeByUserCode st (normalizeUserCode code) = None ->
      (∀ key, key ∈ attempt_keys u ip -> ts_fails st !! key = None) ->
      (overlapping_lookups n st now u ip code).2 = replicate n false
      ∧ ∀ key, key ∈ attempt_keys u ip -> failures (overlapping_lookups n st now u ip code).1 key = replicate n now).
Proof.
  split.
  - intros ops key t Hs. destruct (lookup_times ops) as [|n ns] eqn:Hts.
    + apply (run_remembers key ops empty_state [] 0); [|rewrite Hts; by repeat constructor]. split; [done|done|]. intros u. simpl. lia.
    + apply (run_remembers key ops empty_state [] n); [|rewrite Hts; constructor; [done|]; constructor; [done|by apply StronglySorted_inv in Hs as [_ ?]]].
      split; [done|done|]. intros u. simpl. lia.
  - intros n st now u ip code Hcode Hnone. unfold overlapping_lookups. rewrite overlapping_checks_pass by done. cbn [fst snd]. split; [done|].
    intros key Hkey. assert (Hk : failures st key = replicate 0 now) by (unfold failures; by rewrite Hnone).
    change n with (0 + n)%nat at 2. revert Hcode Hk. generalize 0%nat. clear Hnone. revert st. induction n as [|n IH]; intros st k Hcode Hk; simpl.
    + by rewrite Nat.add_0_r.
    + destruct (wrong_code_counted st now u ip code k key Hcode Hkey Hk) as [Hcode' Hk']. rewrite <- Nat.add_succ_comm. by apply IH.
Qed.
End Runs.

(** ** Examples *)

Definition demo_lib : TokenLib := {| TrimSpace := fun s => s; ToUpper := fun s => s; hashToken := fun s => "#" +:+ s; ParseStrict := Some |}.
#[local] Existing Instance demo_lib.

Definition demo_cfg : Config :=
  match New (mkConfig "" false [] 0 0 0 0 "" false (Some (mkDeviceConfig "" 0 0 0 []))) "https://x/" with Ok c => c | Err _ => mkConfig "" false [] 0 0 0 0 "" false None end.

Definition demo_user (id : string) : User := mkUser id (id +:+ "@x") None "" "" 0 0 "" "" "" "".

(** Ann holds two abilities, Bob one of them. *)
Definition demo_host : HostEnv :=
  mkEnv (fun id => Some (demo_user id)) None None
    (Some (fun u => Some (if (u_id u =? "ann")%string then ["read"; "write"] else ["read"]))) None.

Definition at_second (n : Z) : nat -> Z := fun _ => n * Second.

Definition create_read (id : string) (expires : Z) : token_op :=
  KCreate demo_host Second (mkDraw (Some ("secret-" +:+ id)) id) "svc" (demo_user "ann") (Some (mkBody "ci" ["read"] expires "" "" false "")).

Definition demo_tokens : TokenState := run demo_cfg empty_state [create_read "t1" 3600].

Definition bearer : string := "Bearer tk_secret-t1".

Lemma ability_route_sound_witness :
  (∃ p, (RequireAbility demo_cfg demo_tokens demo_host (2 * Second) "read" bearer (Some "c") (fun _ => None)).2 = Served p ∧ p_user_id p = "ann"
    ∧ holdsAbility (p_abilities p) "read" = true)
  ∧ (RequireAbility demo_cfg demo_tokens demo_host (2 * Second) "write" bearer (Some "c") (fun _ => Some ("full", demo_user "ann"))).2 = Reply 403 "auth.forbidden".
Proof.
  split; [|vm_compute; reflexivity]. eexists. split; [vm_compute; reflexivity|]. split; [reflexivity|].
  refine (proj1 (ability_route_sound demo_cfg demo_tokens demo_host (2 * Second) "read" bearer (Some "c") (fun _ => None)
    (RequireAbility demo_cfg demo_tokens demo_host (2 * Second) "read" bearer (Some "c") (fun _ => None)).1 _ _)).
  vm_compute. reflexivity.
Defined.

(** Revoking the only token of the tables, and minting another one. *)
Lemma revoked_token_refused_witness :
  (Authenticate demo_cfg demo_tokens demo_host (2 * Second) "tk_secret-t1").2 ≠ Err TInvalid
  ∧ (Authenticate demo_cfg (run demo_cfg (Revoke demo_tokens (2 * Second) "t1").1 [create_read "t2" 60]) demo_host (3 * Second) "tk_secret-t1").2 = Err TInvalid.
Proof.
  split; [vm_compute; discriminate|].
  assert (Hrow : ts_tokens demo_tokens = {["t1" := mkToken "t1" "ann" "user" "ci" ["read"] "#tk_secret-t1" "tk_...t-t1" "personal" "" None None Second
    (Some (Second + 3600 * Second)) None None]}) by (vm_compute; reflexivity).
  rewrite (revoked_token_refused demo_cfg demo_tokens (2 * Second) "t1"
    (mkToken "t1" "ann" "user" "ci" ["read"] "#tk_secret-t1" "tk_...t-t1" "personal" "" None None Second (Some (Second + 3600 * Second)) None None)
    (Revoke demo_tokens (2 * Second) "t1").1 "tk_secret-t1" [create_read "t2" 60] demo_host (3 * Second)); [reflexivity|..].
  - rewrite Hrow. apply lookup_singleton_eq.
  - reflexivity.
  - intros k t Hk _. rewrite Hrow in Hk. by apply lookup_singleton_Some in Hk as [<- _].
  - vm_compute. reflexivity.
  - apply Forall_singleton. vm_compute. discriminate.
Defined.

(** *** Logging in from a device *)

Definition demo_start (client : string) (abilities : list string) : TokenState :=
  (StartDeviceAuth demo_cfg empty_state Second (Some "dev") [("d1", Some "BCDFGHJK")] client abilities "10.0.0.9" "tv").1.

Definition demo_approve (st : TokenState) (abilities : list string) : TokenState :=
  (DecideDeviceRequest demo_cfg st demo_host (at_second 2) (demo_user "ann") "10.0.0.7" "BCDF-GHJK" true abilities).1.

Definition demo_redeem (st : TokenState) (n : Z) (id : string) : TokenState * result token_error (string * APIToken) :=
  RedeemDeviceCode demo_cfg st demo_host (at_second n) (mkDraw (Some ("secret-" +:+ id)) id) "dev".

Definition answer (r : result token_error (string * APIToken)) : result token_error (string * list string) :=
  match r with Ok (raw, t) => Ok (at_owner t, at_abilities t) | Err e => Err e end.

(** Ann is asked for more than she holds: the device gets what she holds, once. *)
Example device_login_flow :
  let st := demo_approve (demo_start "tv" ["read"; "write"; "admin"]) [] in
  answer (demo_redeem st 10 "t1").2 = Ok ("ann", ["read"; "write"])
  ∧ answer (demo_redeem (demo_redeem st 10 "t1").1 20 "t2").2 = Err DInvalid.
Proof. vm_compute. done. Qed.

Definition long_client : string := string_of_list_ascii (replicate 113 "n"%char).

(** A client name that [StartDeviceAuth] accepts and [Mint] does not: the approved request is spent without a token. *)
Example long_client_name_spends_request :
  let st := demo_approve (demo_start long_client ["read"]) [] in
  answer (demo_redeem st 10 "t1").2 = Err TName ∧ answer (demo_redeem (demo_redeem st 10 "t1").1 20 "t2").2 = Err DInvalid.
Proof. vm_compute. done. Qed.

(** So does an approval that names an ability twice. *)
Example repeated_ability_spends_request :
  let st := demo_approve (demo_start "tv" ["read"; "write"]) ["read"; "read"] in
  answer (demo_redeem st 10 "t1").2 = Err TAbilityInvalid ∧ answer (demo_redeem (demo_redeem st 10 "t1").1 20 "t2").2 = Err DInvalid.
Proof. vm_compute. done. Qed.

(** And every approval, where the lifetime of device tokens exceeds the one allowed for tokens. *)
Example device_ttl_over_maximum :
  match New (mkConfig "" false [] 0 (7 * 24 * Hour) 0 0 "" false (Some (mkDeviceConfig "" 0 0 0 ["read"]))) "https://x/" with
  | Ok cfg => answer (RedeemDeviceCode cfg (demo_approve (demo_start "tv" ["read"]) []) demo_host (at_second 10) (mkDraw (Some "s") "t1") "dev").2 = Err TTTLInvalid
  | Err _ => False
  end.
Proof. vm_compute. reflexivity. Qed.

(** A lifetime beyond 64 bits of nanoseconds wraps around: 584 years are stored as 0.29 seconds, not refused. *)
Example token_lifetime_wraps :
  at_expires <$> ts_tokens (exec demo_cfg empty_state (create_read "t1" 18446744074)) !! "t1" = Some (Some (Second + 290448384)).
Proof. vm_compute. reflexivity. Qed.

(** *** Guessing *)

Definition guess (n : Z) : token_op := KLookup (n * Second) (demo_user "eve") "10.0.0.1" "XXXX-XXXX".

Definition guess_times : list Z := [1; 2; 3; 4; 5; 6; 7; 902].

Lemma user_code_guesses_bounded_witness :
  guesses demo_cfg empty_state (map guess guess_times) "u:eve" = map (fun n => n * Second) [1; 2; 3; 4; 5; 902]%Z
  ∧ (length (List.filter (in_window_of Second) (guesses demo_cfg empty_state (map guess guess_times) "u:eve")) <= max_attempts)%nat
  ∧ (overlapping_lookups 8 empty_state Second "eve" "10.0.0.1" "XXXX-XXXX").2 = replicate 8 false.
Proof.
  split; [vm_compute; reflexivity|]. split.
  - apply (proj1 (user_code_guesses_bounded demo_cfg)). vm_compute. repeat constructor; discriminate.
  - refine (proj1 (proj2 (user_code_guesses_bounded demo_cfg) 8%nat empty_state Second "eve" "10.0.0.1" "XXXX-XXXX" _ _)); [reflexivity|].
    intros key _. reflexivity.
Defined.

(** Every letter of a user code is picked by equally many bytes. *)
Lemma user_code_unbiased :
  forallb (fun c => (length (List.filter (fun b => bool_decide (take_bytes [] [Z.of_nat b] = [c])) (seq 0 256)) =? 10)%nat) (list_ascii_of_string userCodeAlphabet)
  = true.
Proof. vm_compute. reflexivity. Qed.
