(* ===== verification/Identities.v ===== *)
(** * Social sign-in and linked identities ([internal/oauth/service.go], [state.go], [internal/identitylink], their tables in [storage/memory])

    The OAuth client flow from the start to a session, with the state that binds it to a browser, the search for
    the user behind a provider account and the sign-up policy; linking and unlinking of accounts and the merge
    of two users. Users, passwords, sessions and second factors are those of [SignIn]. Requests are atomic, a
    provider is a record of the answers it gives, encrypted tokens and random values are drawn by the caller.
    Authorization URLs, audit events and the refresh of provider tokens are not modelled. *)

From Stdlib Require Import ZArith Lia String Ascii.
From stdpp Require Import base gmap strings list.
From S2P Require Import Prelude Throttle Session Totp Passwords Tenants SignIn.

Set Default Goal Selector "!".
Open Scope string_scope.
Open Scope list_scope.
Open Scope Z_scope.

(** ** Data *)

Record OAuthAccount := mkAccount {
  oa_id : string; oa_user : string; oa_provider : string; oa_pid : string; oa_access : string; oa_refresh : string;
  oa_expires : option Z; oa_scope : string; oa_created : Z; oa_updated : Z;
}.

Record WebAuthnCredential := mkCredential {
  wc_id : string; wc_user : string; wc_credential : string; wc_key : string; wc_count : Z; wc_transports : list string;
  wc_aaguid : string; wc_name : string; wc_created : Z; wc_last_used : option Z; wc_eligible : option bool; wc_state : option bool;
}.

Record ProviderToken := mkProviderToken { pt_access : string; pt_refresh : string; pt_expires : Z; pt_scope : string }.

Record ProviderUser := mkProviderUser { pu_id : string; pu_email : string; pu_verified : bool; pu_name : string; pu_avatar : string }.

(** What a provider answers. A provider that is no [NonceProvider] gets the empty nonce. *)
Record Provider := mkProvider {
  pv_nonce : bool;
  pv_exchange : string -> string -> string -> string -> option ProviderToken;
  pv_userinfo : ProviderToken -> option (option ProviderUser);
}.

(** [State] *)
Record FlowState := mkFlow {
  fs_provider : string; fs_verifier : string; fs_redirect : string; fs_nonce : string; fs_return : string; fs_binding : string; fs_created : Z;
}.

Record memEntry := mkEntry { me_state : FlowState; me_expires : Z }.

Inductive findBranch := foundByProvider | foundByEmail | brandNewUser.

Definition SignupOpen : string := "open".
Definition SignupClosed : string := "closed".
Definition SignupAllowedDomains : string := "allowed_domains".
Definition SignupInvite : string := "invite".

Definition AMRFederated : string := "fed".
Definition defaultStateTTL : Z := 10 * Minute.

(** [oc_invite] is the invite check where there is one, [oc_conflict] the answer of the conflict hook: the URL it
    redirects to. [None] in an answer is an error. *)
Record OAuthConfig := mkOAuthConfig {
  oc_ttl : Z; oc_return : list string; oc_signup : string; oc_domains : list string; oc_invite : option (string -> option bool);
  oc_conflict : option (option string); oc_hosts : list string; oc_insecure : bool; oc_base : string; oc_prefix : string;
}.

Definition NewOAuth (c : OAuthConfig) : OAuthConfig :=
  mkOAuthConfig (if oc_ttl c <=? 0 then defaultStateTTL else oc_ttl c) (oc_return c) (if (oc_signup c =? "")%string then SignupOpen else oc_signup c)
    (oc_domains c) (oc_invite c) (oc_conflict c) (oc_hosts c) (oc_insecure c) (oc_base c) (oc_prefix c).

(** The parts of a URL that the code looks at. *)
Record URL := mkURL { url_scheme : string; url_host : string; url_hostname : string; url_opaque : string; url_user : bool; url_fragment : string }.

(** [url.Parse], [strings.EqualFold], [net.ParseIP] followed by [IsLoopback], whether [net.SplitHostPort] succeeds,
    SHA-256. *)
Class OAuthLib := {
  ParseURL : string -> option URL;
  EqualFold : string -> string -> bool;
  loopback_ip : string -> bool;
  has_port : string -> bool;
  bindingHash : string -> string;
}.

Inductive oauth_error :=
  | OUnknownProvider | ORedirectURI | ORandom | OStateUnknown | OStateProvider | OStateExpired | OStateBinding | OExchange | OUserInfo
  | OEmptyUser | OSignupNotAllowed | OUnverifiedEmail | OInvite | OLinkedUser | OEncrypt | OConflictHook | OConflictRedirect (url : string)
  | OSession (e : signin_error).

(** ** State *)

Record IdentityState (St : Type) := mkIdentities {
  is_base : SignInState St; is_oauth : gmap string OAuthAccount; is_passkeys : gmap string WebAuthnCredential; is_states : gmap string memEntry;
}.
Arguments mkIdentities {St}.
Arguments is_base {St}.
Arguments is_oauth {St}.
Arguments is_passkeys {St}.
Arguments is_states {St}.

Section Identities.
Context `{SessionLib} `{PasswordLib} `{SignInLib} `{OAuthLib} {St : Type} `{ThrottleStore St} (cfg : PasswordConfig St) (oc : OAuthConfig).

Abbreviation state := (IdentityState St).

Definition with_base (st : state) (b : SignInState St) : state := mkIdentities b (is_oauth st) (is_passkeys st) (is_states st).
Definition with_oauth (st : state) (m : gmap string OAuthAccount) : state := mkIdentities (is_base st) m (is_passkeys st) (is_states st).
Definition with_passkeys (st : state) (m : gmap string WebAuthnCredential) : state := mkIdentities (is_base st) (is_oauth st) m (is_states st).
Definition with_states (st : state) (m : gmap string memEntry) : state := mkIdentities (is_base st) (is_oauth st) (is_passkeys st) m.

(** ** The tables ([memory.go]); [None] is [ErrNotFound] *)

Definition same_account (provider pid : string) (a : OAuthAccount) : bool := (oa_provider a =? provider)%string && (oa_pid a =? pid)%string.

Definition find_account (st : state) (provider pid : string) : option (string * OAuthAccount) :=
  List.find (fun ka => same_account provider pid ka.2) (map_to_list (is_oauth st)).

Definition upserted (existing a : OAuthAccount) (now : Z) : OAuthAccount :=
  mkAccount (oa_id existing) (oa_user a) (oa_provider existing) (oa_pid existing) (oa_access a) (oa_refresh a) (oa_expires a) (oa_scope a)
    (oa_created existing) now.

Definition UpsertOAuthAccount (st : state) (a : OAuthAccount) (now : Z) : state :=
  match find_account st (oa_provider a) (oa_pid a) with
  | Some (id, existing) => with_oauth st (<[id := upserted existing a now]> (is_oauth st))
  | None =>
      with_oauth st (<[oa_id a := mkAccount (oa_id a) (oa_user a) (oa_provider a) (oa_pid a) (oa_access a) (oa_refresh a) (oa_expires a) (oa_scope a)
                                    (if IsZero (oa_created a) then now else oa_created a) now]> (is_oauth st))
  end.

Definition OAuthAccountByProviderUserID (st : state) (provider pid : string) : option OAuthAccount := snd <$> find_account st provider pid.

Definition OAuthAccountsByUserID (st : state) (userID : string) : list OAuthAccount :=
  List.filter (fun a => (oa_user a =? userID)%string) (map snd (map_to_list (is_oauth st))).

Definition moved (a : OAuthAccount) (userID : string) (now : Z) : OAuthAccount :=
  mkAccount (oa_id a) userID (oa_provider a) (oa_pid a) (oa_access a) (oa_refresh a) (oa_expires a) (oa_scope a) (oa_created a) now.

Definition MoveOAuthAccount (st : state) (provider pid newUserID : string) (now : Z) : option state :=
  (fun ka => with_oauth st (<[ka.1 := moved ka.2 newUserID now]> (is_oauth st))) <$> find_account st provider pid.

Definition DeleteOAuthAccountByProvider (st : state) (userID provider : string) : option state :=
  (fun ka => with_oauth st (delete ka.1 (is_oauth st)))
    <$> List.find (fun ka => (oa_user ka.2 =? userID)%string && (oa_provider ka.2 =? provider)%string) (map_to_list (is_oauth st)).

Definition UserPasswordHashByID (st : state) (userID : string) : string := default "" (si_hashes (is_base st) !! userID).

Definition MovePasswordHash (st : state) (primaryID secondaryID : string) : state :=
  match si_hashes (is_base st) !! secondaryID with
  | None | Some "" => st
  | Some hash => with_base st (set_hashes (is_base st) (delete secondaryID (<[primaryID := hash]> (si_hashes (is_base st)))))
  end.

Definition WebAuthnCredentialsByUserID (st : state) (userID : string) : list WebAuthnCredential :=
  List.filter (fun c => (wc_user c =? userID)%string) (map snd (map_to_list (is_passkeys st))).

Definition credential_moved (c : WebAuthnCredential) (userID : string) : WebAuthnCredential :=
  mkCredential (wc_id c) userID (wc_credential c) (wc_key c) (wc_count c) (wc_transports c) (wc_aaguid c) (wc_name c) (wc_created c)
    (wc_last_used c) (wc_eligible c) (wc_state c).

Definition MoveWebAuthnCredentials (st : state) (primaryID secondaryID : string) : state :=
  with_passkeys st ((fun c => if (wc_user c =? secondaryID)%string then credential_moved c primaryID else c) <$> is_passkeys st).

(** ** The state of a flow ([state.go]) *)

Definition Put (st : state) (key : string) (f : FlowState) (ttl now : Z) : state :=
  with_states st (<[key := mkEntry f (now + ttl)]> (is_states st)).

Definition Take (st : state) (key : string) (now : Z) : state * option FlowState :=
  match is_states st !! key with
  | None => (st, None)
  | Some e => (with_states st (delete key (is_states st)), if After now (me_expires e) then None else Some (me_state e))
  end.

Definition Sweep (st : state) (now : Z) : state := with_states st (filter (fun ke => After now (me_expires ke.2) = false) (is_states st)).

(** ** Redirects *)

Definition HasUnsafeRedirectChars (s : string) : bool :=
  existsb (fun c => let n := nat_of_ascii c in (n <? 32)%nat || (n =? 127)%nat || (n =? 92)%nat) (list_ascii_of_string s).

(** [strings.CutSuffix(e, "*")] *)
Definition cut_star (e : string) : option string :=
  match rev (list_ascii_of_string e) with
  | c :: l => if (c =? "*")%char then Some (string_of_list_ascii (rev l)) else None
  | [] => None
  end.

Definition sameKind (candidate prefix : string) : bool :=
  bool_decide (String.prefix "/" candidate = String.prefix "/" prefix) && negb (prefix =? "")%string.

Definition entry_matches (candidate entry : string) : bool :=
  match cut_star entry with
  | Some prefix => String.prefix prefix candidate && sameKind candidate prefix
  | None => (candidate =? entry)%string
  end.

Definition slash_backslash : string := String "/"%char (String "092"%char "").

Definition MatchReturnTo (candidate : string) (allow : list string) : string :=
  if (candidate =? "")%string || bool_decide (allow = []) || HasUnsafeRedirectChars candidate then ""
  else if String.prefix "//" candidate || String.prefix slash_backslash candidate then ""
  else if existsb (entry_matches candidate) allow then candidate else "".

Definition isLoopbackHost (h : string) : bool := EqualFold h "localhost" || loopback_ip h.

Definition hostAllowed (u : URL) (allowed : list string) : bool :=
  existsb (fun a => EqualFold a (url_host u) || (negb (has_port a) && EqualFold a (url_hostname u))) allowed.

Definition contains_hash (s : string) : bool := existsb (fun c => (c =? "#")%char) (list_ascii_of_string s).

Definition validateRedirectURI (raw : string) : bool :=
  negb (HasUnsafeRedirectChars raw)
  && match ParseURL raw with
     | None => false
     | Some u =>
         ((url_scheme u =? "http")%string || (url_scheme u =? "https")%string)
         && negb ((url_hostname u =? "")%string || negb (url_opaque u =? "")%string) && negb (url_user u)
         && negb (negb (url_fragment u =? "")%string || contains_hash raw)
         && negb ((url_scheme u =? "http")%string && negb (oc_insecure oc) && negb (isLoopbackHost (url_hostname u)))
         && negb (bool_decide (oc_hosts oc ≠ []) && negb (hostAllowed u (oc_hosts oc)))
     end.

(** [hook] is what the configured hook answers, if there is one. *)
Definition redirectURIFor (hook : option (option string)) (provider : string) : option string :=
  match hook with
  | None => Some (oc_base oc +:+ (if (oc_prefix oc =? "")%string then "/auth" else oc_prefix oc) +:+ "/providers/" +:+ provider +:+ "/callback")
  | Some None => None
  | Some (Some raw) => if validateRedirectURI raw then Some raw else None
  end.

(** ** The flow ([service.go]) *)

(** What a start draws; [None] is a failed generator. *)
Record StartDraw := mkStartDraw { sd_state : option string; sd_binding : option string; sd_verifier : option string; sd_nonce : option string }.

(** The answer is the state and the binding. *)
Definition Start (st : state) (now put_now : Z) (d : StartDraw) (p : option Provider) (hook : option (option string)) (provider returnTo : string)
  : state * result oauth_error (string * string) :=
  match p, redirectURIFor hook provider, sd_state d, sd_binding d, sd_verifier d with
  | None, _, _, _, _ => (st, Err OUnknownProvider)
  | _, None, _, _, _ => (st, Err ORedirectURI)
  | Some p, Some redirect, Some key, Some binding, Some verifier =>
      match (if pv_nonce p then sd_nonce d else Some "") with
      | None => (st, Err ORandom)
      | Some nonce =>
          (Put st key (mkFlow provider verifier redirect nonce (MatchReturnTo returnTo (oc_return oc)) (bindingHash binding) now) (oc_ttl oc) put_now,
           Ok (key, binding))
      end
  | _, _, _, _, _ => (st, Err ORandom)
  end.

(** The position after the last at sign. *)
Fixpoint after_last_at (s : string) : option string :=
  match s with
  | "" => None
  | String c s' => match after_last_at s' with Some d => Some d | None => if (c =? "@")%char then Some s' else None end
  end.

Definition checkSignup (pu : ProviderUser) : option oauth_error :=
  if (oc_signup oc =? SignupClosed)%string then Some OSignupNotAllowed
  else if (oc_signup oc =? SignupAllowedDomains)%string then
    match pu_verified pu, after_last_at (pu_email pu) with
    | true, Some domain => if existsb (fun d => EqualFold (TrimSpace d) domain) (oc_domains oc) then None else Some OSignupNotAllowed
    | _, _ => Some OSignupNotAllowed
    end
  else if (oc_signup oc =? SignupInvite)%string then
    match pu_verified pu, oc_invite oc with
    | true, Some check => match check (pu_email pu) with None => Some OInvite | Some false => Some OSignupNotAllowed | Some true => None end
    | _, _ => Some OSignupNotAllowed
    end
  else None.

Definition federated_user (id : string) (pu : ProviderUser) (now : Z) : User :=
  mkUser id (pu_email pu) (if pu_verified pu then Some now else None) (pu_name pu) (pu_avatar pu) now now "" "" "" "".

Definition findOrCreateUser (st : state) (now : Z) (newID provider : string) (pu : ProviderUser) : state * result oauth_error (User * findBranch) :=
  match OAuthAccountByProviderUserID st provider (pu_id pu) with
  | Some acct =>
      match si_users (is_base st) !! oa_user acct with
      | None => (st, Err OLinkedUser)
      | Some u => (st, Ok (u, foundByProvider))
      end
  | None =>
      let create :=
        match checkSignup pu with
        | Some err => (st, Err err)
        | None => let u := federated_user newID pu now in (with_base st (signin_CreateUser (is_base st) u), Ok (u, brandNewUser))
        end in
      if (pu_email pu =? "")%string then create
      else match by_email (si_users (is_base st)) (pu_email pu) with
      | Some u => if pu_verified pu then (st, Ok (u, foundByEmail)) else (st, Err OUnverifiedEmail)
      | None => create
      end
  end.

(** The checks of the state, which is taken in any case. *)
Definition flow_checks (st : state) (clk : nat -> Z) (provider key binding : string) : state * result oauth_error FlowState :=
  match Take st key (clk 0%nat) with
  | (st, None) => (st, Err OStateUnknown)
  | (st, Some f) =>
      if negb (fs_provider f =? provider)%string then (st, Err OStateProvider)
      else if oc_ttl oc <? Sub (clk 1%nat) (fs_created f) then (st, Err OStateExpired)
      else if (binding =? "")%string || negb (bindingHash binding =? fs_binding f)%string then (st, Err OStateBinding)
      else (st, Ok f)
  end.

Definition fetch_user (p : Provider) (f : FlowState) (code : string) : result oauth_error (ProviderToken * ProviderUser) :=
  match pv_exchange p code (fs_verifier f) (fs_redirect f) (if pv_nonce p then fs_nonce f else "") with
  | None => Err OExchange
  | Some tok =>
      match pv_userinfo p tok with
      | None => Err OUserInfo
      | Some None => Err OEmptyUser
      | Some (Some pu) =>
          if (pu_id pu =? "")%string then Err OEmptyUser
          else Ok (tok, mkProviderUser (pu_id pu) (ToLower (TrimSpace (pu_email pu))) (pu_verified pu) (pu_name pu) (pu_avatar pu))
      end
  end.

(** [encrypt] gives the sealed tokens; [newID] and [rowID] are drawn. *)
Record CallbackDraw := mkCallbackDraw { cd_encrypt : string -> option string; cd_user : string; cd_row : string }.

(** The account row and the session; a refresh token that this login did not bring is kept. *)
Definition link_and_issue (st : state) (clk : nat -> Z) (e : IssueEnv) (rowID provider accessEnc refreshEnc : string) (tok : ProviderToken)
    (pu : ProviderUser) (u : User) (created : bool) (ua ip : string) : state * result oauth_error (string * User * bool) :=
  let refreshEnc :=
    if (refreshEnc =? "")%string then
      match OAuthAccountByProviderUserID st provider (pu_id pu) with
      | Some prev => if (oa_user prev =? u_id u)%string then oa_refresh prev else refreshEnc
      | None => refreshEnc
      end
    else refreshEnc in
  let st := UpsertOAuthAccount st (mkAccount rowID (u_id u) provider (pu_id pu) accessEnc refreshEnc
              (if IsZero (pt_expires tok) then None else Some (pt_expires tok)) (pt_scope tok) (clk 3%nat) (clk 3%nat)) (clk 4%nat) in
  match Issue cfg (is_base st) (with_amr e AMRFederated) (u_id u) ua ip with
  | (b, Err err) => (with_base st b, Err (OSession err))
  | (b, Ok (tok, _)) => (with_base st b, Ok (tok, u, created))
  end.

(** The end of a callback: the sealed tokens, and the hook for a user found by his address. *)
Definition finish_callback (st : state) (clk : nat -> Z) (e : IssueEnv) (d : CallbackDraw) (provider : string) (tok : ProviderToken)
    (pu : ProviderUser) (u : User) (branch : findBranch) (ua ip : string) : state * result oauth_error (string * User * bool) :=
  match cd_encrypt d (pt_access tok), (if (pt_refresh tok =? "")%string then Some "" else cd_encrypt d (pt_refresh tok)) with
  | Some accessEnc, Some refreshEnc =>
      match branch, oc_conflict oc with
      | foundByEmail, Some None => (st, Err OConflictHook)
      | foundByEmail, Some (Some url) => (st, Err (OConflictRedirect url))
      | _, _ => link_and_issue st clk e (cd_row d) provider accessEnc refreshEnc tok pu u (match branch with brandNewUser => true | _ => false end) ua ip
      end
  | _, _ => (st, Err OEncrypt)
  end.

(** The answer is the session token, the user and whether it is new; the destination is that of the state. *)
Definition Callback (st : state) (clk : nat -> Z) (e : IssueEnv) (d : CallbackDraw) (p : option Provider) (provider code key binding ua ip : string)
  : state * result oauth_error (string * User * bool * string) :=
  match p with
  | None => (st, Err OUnknownProvider)
  | Some p =>
      match flow_checks st clk provider key binding with
      | (st, Err err) => (st, Err err)
      | (st, Ok f) =>
          match fetch_user p f code with
          | Err err => (st, Err err)
          | Ok (tok, pu) =>
              match findOrCreateUser st (clk 2%nat) (cd_user d) provider pu with
              | (st, Err err) => (st, Err err)
              | (st, Ok (u, branch)) =>
                  match finish_callback st clk e d provider tok pu u branch ua ip with
                  | (st, Err err) => (st, Err err)
                  | (st, Ok (sess, u, created)) => (st, Ok (sess, u, created, fs_return f))
                  end
              end
          end
      end
  end.

(** ** Linked identities ([identitylink/service.go]) *)

Inductive link_error :=
  | LStepUp | LConflict (userID : string) | LWeakPassword | LHash (e : hash_error) | LStore | LSelf | LNoUser | LLastMethod | LNotLinked.

Definition requireFullSession (st : state) (token : string) : option Session :=
  match SessionByTokenHash (tt_sessions (si_totp (is_base st))) (hash_token token) with
  | None => None
  | Some s =>
      if negb (bool_decide (se_revoked s = None)) then None
      else if negb (se_level s =? "")%string && negb (se_level s =? AuthLevelFull)%string then None else Some s
  end.

Definition authMethodCount (st : state) (userID : string) : nat :=
  ((if (UserPasswordHashByID st userID =? "")%string then 0 else 1) + length (OAuthAccountsByUserID st userID)
   + length (WebAuthnCredentialsByUserID st userID) + (if confirmed_secret (is_base st) userID then 1 else 0))%nat.

Definition LinkOAuthToCurrentUser (st : state) (clk : nat -> Z) (rowID token provider pid access refresh : string) (expires : option Z) (scope : string)
  : state * result link_error unit :=
  match requireFullSession st token with
  | None => (st, Err LStepUp)
  | Some s =>
      match OAuthAccountByProviderUserID st provider pid with
      | Some existing => (st, if (oa_user existing =? se_user s)%string then Ok tt else Err (LConflict (oa_user existing)))
      | None => (UpsertOAuthAccount st (mkAccount rowID (se_user s) provider pid access refresh expires scope (clk 0%nat) (clk 0%nat)) (clk 1%nat), Ok tt)
      end
  end.

Definition LinkPasswordToCurrentUser (st : state) (salt : option string) (token password : string) : state * result link_error unit :=
  match requireFullSession st token with
  | None => (st, Err LStepUp)
  | Some s =>
      if (String.length password <? 12)%nat then (st, Err LWeakPassword)
      else match HashPassword salt password with
      | Err err => (st, Err (LHash err))
      | Ok hash => match SetUserPassword (is_base st) (se_user s) hash with
                   | None => (st, Err LStore)
                   | Some b => (with_base st b, Ok tt)
                   end
      end
  end.

(** The loop that moves the accounts. *)
Fixpoint move_accounts (st : state) (now : Z) (primaryID : string) (l : list OAuthAccount) : state * result link_error unit :=
  match l with
  | [] => (st, Ok tt)
  | a :: l =>
      match MoveOAuthAccount st (oa_provider a) (oa_pid a) primaryID now with
      | None => (st, Err LStore)
      | Some st => move_accounts st now primaryID l
      end
  end.

Definition with_second_factor (st : state) (t : TotpState St) : state := with_base st (set_totp (is_base st) t).

Definition MergeAccounts (st : state) (clk : nat -> Z) (token secondaryID : string) : state * result link_error unit :=
  match requireFullSession st token with
  | None => (st, Err LStepUp)
  | Some s =>
      let primaryID := se_user s in
      if (primaryID =? secondaryID)%string then (st, Err LSelf)
      else match si_users (is_base st) !! secondaryID with
      | None => (st, Err LNoUser)
      | Some _ =>
          match move_accounts st (clk 0%nat) primaryID (OAuthAccountsByUserID st secondaryID) with
          | (st, Err err) => (st, Err err)
          | (st, Ok _) =>
              let st := MovePasswordHash st primaryID secondaryID in
              let st := MoveWebAuthnCredentials st primaryID secondaryID in
              let st := with_second_factor st (MoveTOTPSecret (si_totp (is_base st)) primaryID secondaryID) in
              let st := with_base st (set_sessions (is_base st) (RevokeUserSessions (tt_sessions (si_totp (is_base st))) secondaryID (clk 1%nat))) in
              (st, Ok tt)
          end
      end
  end.

Definition UnlinkOAuthProvider (st : state) (token provider : string) : state * result link_error unit :=
  match requireFullSession st token with
  | None => (st, Err LStepUp)
  | Some s =>
      if (authMethodCount st (se_user s) <=? 1)%nat then (st, Err LLastMethod)
      else match DeleteOAuthAccountByProvider st (se_user s) provider with
      | None => (st, Err LNotLinked)
      | Some st => (st, Ok tt)
      end
  end.
End Identities.

(** ** Destinations *)

(** A destination kept by a flow is empty or on the allow-list, has no control character and no backslash, and is
    no protocol-relative URL; so a browser resolves a path among them within the site. *)
Theorem return_to_safe candidate allow r :
  MatchReturnTo candidate allow = r -> r ≠ "" ->
  r = candidate ∧ HasUnsafeRedirectChars r = false ∧ String.prefix "//" r = false ∧ ∃ entry, entry ∈ allow ∧ entry_matches r entry = true.
Proof.
  unfold MatchReturnTo. intros <- Hne. destruct (HasUnsafeRedirectChars candidate) eqn:Hu; [by rewrite orb_true_r in Hne|].
  rewrite orb_false_r in *. destruct (_ || _); [done|]. destruct (String.prefix "//" candidate) eqn:Hp; [done|]. simpl in *.
  destruct (String.prefix slash_backslash candidate); [done|]. destruct (existsb _ _) eqn:He; [|done].
  apply existsb_true_iff in He as (entry & Hin & Hm). split_and!; [done..|]. by exists entry.
Qed.

Section Properties.
Context `{SessionLib} `{PasswordLib} `{SignInLib} `{OAuthLib} {St : Type} `{ThrottleStore St} (cfg : PasswordConfig St) (oc : OAuthConfig).

Abbreviation state := (IdentityState St).

(** ** Accounts *)

(** A provider account has one row. *)
Definition accounts_unique (m : gmap string OAuthAccount) : Prop :=
  ∀ k k' a a', m !! k = Some a -> m !! k' = Some a' -> oa_provider a = oa_provider a' -> oa_pid a = oa_pid a' -> k = k'.

Lemma same_account_true provider pid a : same_account provider pid a = true ↔ oa_provider a = provider ∧ oa_pid a = pid.
Proof. unfold same_account. by rewrite andb_true_iff, !String.eqb_eq. Qed.

Lemma find_account_Some (st : state) provider pid k a :
  find_account st provider pid = Some (k, a) -> is_oauth st !! k = Some a ∧ oa_provider a = provider ∧ oa_pid a = pid.
Proof. intros [Hin Hs]%find_some. apply list_elem_of_In, elem_of_map_to_list in Hin. split; [done|]. by apply same_account_true. Qed.

Lemma find_account_None (st : state) provider pid k a :
  find_account st provider pid = None -> is_oauth st !! k = Some a -> ~ (oa_provider a = provider ∧ oa_pid a = pid).
Proof.
  intros Hf Hk Hs. eapply find_none in Hf; [|by apply list_elem_of_In, elem_of_map_to_list, Hk]. apply same_account_true in Hs. simpl in Hf. congruence.
Qed.

(** Where a provider account has one row, the search finds it. *)
Lemma find_account_row (st : state) k a :
  accounts_unique (is_oauth st) -> is_oauth st !! k = Some a -> find_account st (oa_provider a) (oa_pid a) = Some (k, a).
Proof.
  intros Hu Hk. destruct (find_account st _ _) as [[k' a']|] eqn:Hf; [|by destruct (find_account_None st _ _ k a Hf Hk)].
  apply find_account_Some in Hf as (Hk' & Hp & Hi). assert (k' = k) as -> by (eapply Hu; eauto). congruence.
Qed.

Lemma accounts_unique_update m k a a' :
  m !! k = Some a -> oa_provider a' = oa_provider a -> oa_pid a' = oa_pid a -> accounts_unique m -> accounts_unique (<[k := a']> m).
Proof.
  intros Hk Hp Hi Hu i j x y. rewrite !lookup_insert_Some. intros [[<- <-]|[Hne Hx]] [[<- <-]|[Hne' Hy]] He1 He2; [done|..].
  - rewrite Hp in He1. rewrite Hi in He2. by eapply Hu.
  - rewrite Hp in He1. rewrite Hi in He2. by eapply Hu.
  - by eapply Hu.
Qed.

Lemma Upsert_unique (st : state) a now : accounts_unique (is_oauth st) -> accounts_unique (is_oauth (UpsertOAuthAccount st a now)).
Proof.
  intros Hu. unfold UpsertOAuthAccount. destruct (find_account st _ _) as [[k x]|] eqn:Hf; simpl.
  - apply find_account_Some in Hf as (Hk & _). by eapply accounts_unique_update.
  - intros i j y z. rewrite !lookup_insert_Some. intros [[<- <-]|[Hne Hy]] [[<- <-]|[Hne' Hz]] He1 He2; [done|..]; simpl in *.
    + by destruct (find_account_None _ _ _ _ _ Hf Hz).
    + by destruct (find_account_None _ _ _ _ _ Hf Hy).
    + by eapply Hu.
Qed.

(** The row of an account after it is written. *)
Lemma Upsert_found (st : state) a now :
  accounts_unique (is_oauth st) -> ∃ b, OAuthAccountByProviderUserID (UpsertOAuthAccount st a now) (oa_provider a) (oa_pid a) = Some b ∧ oa_user b = oa_user a.
Proof.
  intros Hu. pose proof (Upsert_unique st a now Hu) as Hu'. unfold OAuthAccountByProviderUserID.
  assert (Hrow : ∃ k b, is_oauth (UpsertOAuthAccount st a now) !! k = Some b ∧ oa_provider b = oa_provider a ∧ oa_pid b = oa_pid a ∧ oa_user b = oa_user a).
  { unfold UpsertOAuthAccount. destruct (find_account st _ _) as [[k x]|] eqn:Hf; simpl.
    - apply find_account_Some in Hf as (Hk & Hp & Hi). exists k, (upserted x a now). rewrite lookup_insert_eq. done.
    - eexists (oa_id a), _. rewrite lookup_insert_eq. by split_and!. }
  destruct Hrow as (k & b & Hk & Hp & Hi & Hus). exists b. rewrite <- Hp, <- Hi, (find_account_row _ k b) by done. done.
Qed.

(** ** The callback *)

Lemma flow_checks_ok (st : state) clk provider key binding st1 f :
  flow_checks oc st clk provider key binding = (st1, Ok f) ->
  (∃ en, is_states st !! key = Some en ∧ me_state en = f ∧ clk 0%nat <= me_expires en) ∧ fs_provider f = provider
  ∧ Sub (clk 1%nat) (fs_created f) <= oc_ttl oc ∧ bindingHash binding = fs_binding f ∧ st1 = with_states st (delete key (is_states st)).
Proof.
  unfold flow_checks, Take. destruct (is_states st !! key) as [en|] eqn:He; simpl; [|done].
  destruct (After (clk 0%nat) (me_expires en)) eqn:Ha; [done|]. destruct (String.eqb_spec (fs_provider (me_state en)) provider); simpl; [|done].
  destruct (Z.ltb_spec (oc_ttl oc) (Sub (clk 1%nat) (fs_created (me_state en)))); [done|]. destruct (binding =? "")%string; simpl; [done|].
  destruct (String.eqb_spec (bindingHash binding) (fs_binding (me_state en))); simpl; [|done]. intros [= <- <-].
  unfold After in Ha. apply Z.ltb_ge in Ha. split_and!; try done. by exists en.
Qed.

(** Who may be signed in for an account of a provider: its owner, the user whose verified address it has, or a new
    user whom the policy admits. *)
Definition resolved (st : state) (provider newID : string) (now : Z) (pu : ProviderUser) (u : User) (created : bool) : Prop :=
  (∃ a, OAuthAccountByProviderUserID st provider (pu_id pu) = Some a ∧ si_users (is_base st) !! oa_user a = Some u ∧ created = false)
  ∨ (OAuthAccountByProviderUserID st provider (pu_id pu) = None ∧ pu_verified pu = true ∧ by_email (si_users (is_base st)) (pu_email pu) = Some u
     ∧ oc_conflict oc = None ∧ created = false)
  ∨ (OAuthAccountByProviderUserID st provider (pu_id pu) = None ∧ (pu_email pu = "" ∨ by_email (si_users (is_base st)) (pu_email pu) = None)
     ∧ checkSignup oc pu = None ∧ u = federated_user newID pu now ∧ created = true).

Lemma link_and_issue_ok (st : state) clk e row provider ae re pt pu u c ua ip st' tok v created :
  link_and_issue cfg st clk e row provider ae re pt pu u c ua ip = (st', Ok (tok, v, created)) ->
  v = u ∧ created = c ∧ issued (is_base st') e (u_id u) tok AuthLevelFull [AMRFederated] ∧ is_states st' = is_states st
  ∧ (accounts_unique (is_oauth st) -> ∃ a, OAuthAccountByProviderUserID st' provider (pu_id pu) = Some a ∧ oa_user a = u_id u).
Proof.
  unfold link_and_issue. set (a := mkAccount _ _ _ _ _ _ _ _ _ _). destruct (Issue _ _ _ _ _ _) as [b [[t s]|]] eqn:Hi; [|done].
  intros [= <- <- <- <-]. apply Issue_ok in Hi as [Hi _].
  split_and!; [done|done|done|by unfold UpsertOAuthAccount; destruct (find_account _ _ _) as [[]|]|]. intros Hu. apply (Upsert_found st a (clk 4%nat) Hu).
Qed.

Lemma finish_callback_ok (st : state) clk e d provider pt pu u branch ua ip st' tok v created :
  finish_callback cfg oc st clk e d provider pt pu u branch ua ip = (st', Ok (tok, v, created)) ->
  v = u ∧ created = (match branch with brandNewUser => true | _ => false end) ∧ (branch = foundByEmail -> oc_conflict oc = None)
  ∧ issued (is_base st') e (u_id u) tok AuthLevelFull [AMRFederated] ∧ is_states st' = is_states st
  ∧ (accounts_unique (is_oauth st) -> ∃ a, OAuthAccountByProviderUserID st' provider (pu_id pu) = Some a ∧ oa_user a = u_id u).
Proof.
  unfold finish_callback. destruct (cd_encrypt d (pt_access pt)) as [ae|]; [|done]. destruct (if (pt_refresh pt =? "")%string then _ else _) as [re|]; [|done].
  destruct branch; simpl; [|destruct (oc_conflict oc) as [[]|]; [done..|]|]; intros Hx; apply link_and_issue_ok in Hx as (? & ? & ? & ? & ?); by split_and!.
Qed.

(** A callback signs in only on a flow that was started for this provider in the browser that presents the
    binding, within its lifetime, and spends it; the code is exchanged with the verifier, redirect URI and nonce
    of that flow. The user is the owner of the provider account, the user whose address the provider has verified
    (when no hook asks him first), or a new one admitted by the policy, and afterwards owns the account. *)
Theorem callback_sound (st : state) clk e d p provider code key binding ua ip st' tok u created ret :
  accounts_unique (is_oauth st) ->
  Callback cfg oc st clk e d p provider code key binding ua ip = (st', Ok (tok, u, created, ret)) ->
  ∃ p0 en pt pu, p = Some p0 ∧ is_states st !! key = Some en
    ∧ (let f := me_state en in
       clk 0%nat <= me_expires en ∧ fs_provider f = provider ∧ Sub (clk 1%nat) (fs_created f) <= oc_ttl oc ∧ bindingHash binding = fs_binding f
       ∧ ret = fs_return f ∧ fetch_user p0 f code = Ok (pt, pu))
    ∧ is_states st' = delete key (is_states st)
    ∧ resolved st provider (cd_user d) (clk 2%nat) pu u created
    ∧ issued (is_base st') e (u_id u) tok AuthLevelFull [AMRFederated]
    ∧ ∃ a, OAuthAccountByProviderUserID st' provider (pu_id pu) = Some a ∧ oa_user a = u_id u.
Proof.
  intros Hu. unfold Callback. destruct p as [p0|]; [|done]. destruct (flow_checks _ _ _ _ _ _) as [st1 [f|]] eqn:Hfc; [|done].
  apply flow_checks_ok in Hfc as ((en & Hen & <- & Hexp) & Hprov & Hage & Hbind & ->).
  destruct (fetch_user p0 (me_state en) code) as [[pt pu]|] eqn:Hfu; [|done].
  destruct (findOrCreateUser _ _ _ _ _ _) as [st2 [[v branch]|]] eqn:Hfo; [|done].
  destruct (finish_callback _ _ _ _ _ _ _ _ _ _ _ _ _) as [st3 [[[t w] c]|]] eqn:Hfin; [|done]. intros [= <- <- <- <- <-].
  apply finish_callback_ok in Hfin as (-> & -> & Hconf & Hiss & Hst3 & Hacct).
  exists p0, en, pt, pu. split; [done|]. split; [done|]. split; [by split_and!|].
  assert (Hst2 : is_states st2 = delete key (is_states st) ∧ is_oauth st2 = is_oauth st ∧ resolved st provider (cd_user d) (clk 2%nat) pu v
    (match branch with brandNewUser => true | _ => false end)).
  { unfold findOrCreateUser in Hfo. set (st1 := with_states st _) in Hfo.
    change (OAuthAccountByProviderUserID st1) with (OAuthAccountByProviderUserID st) in Hfo. change (is_base st1) with (is_base st) in Hfo.
    destruct (OAuthAccountByProviderUserID st provider (pu_id pu)) as [a|] eqn:Ha.
    - destruct (si_users (is_base st) !! oa_user a) as [x|] eqn:Hx; [|done]. simplify_eq. split_and!; [done..|]. left. eauto.
    - destruct (String.eqb_spec (pu_email pu) "") as [He|He].
      + destruct (checkSignup oc pu) eqn:Hc; [done|]. simplify_eq. split_and!; [done..|]. right. right. auto.
      + destruct (by_email (si_users (is_base st)) (pu_email pu)) as [x|] eqn:Hx.
        * destruct (pu_verified pu) eqn:Hv; [|done]. simplify_eq. split_and!; [done..|]. right. left. split_and!; auto.
        * destruct (checkSignup oc pu) eqn:Hc; [done|]. simplify_eq. split_and!; [done..|]. right. right. auto. }
  destruct Hst2 as (Hs2 & Ho2 & Hres). rewrite Hst3, Hs2. split; [done|]. split; [done|]. split; [done|]. apply Hacct. by rewrite Ho2.
Qed.

(** ** Any run of operations *)

Inductive identity_op :=
  | IStart (now put_now : Z) (d : StartDraw) (p : option Provider) (hook : option (option string)) (provider returnTo : string)
  | ICallback (clk : nat -> Z) (e : IssueEnv) (d : CallbackDraw) (p : option Provider) (provider code key binding ua ip : string)
  | ISweep (now : Z)
  | ILinkOAuth (clk : nat -> Z) (rowID token provider pid access refresh : string) (expires : option Z) (scope : string)
  | ILinkPassword (salt : option string) (token password : string)
  | IMerge (clk : nat -> Z) (token secondaryID : string)
  | IUnlink (token provider : string)
  | ISignIn (f : SignInState St -> SignInState St).

Definition exec (st : state) (op : identity_op) : state :=
  match op with
  | IStart now put_now d p hook provider returnTo => (Start oc st now put_now d p hook provider returnTo).1
  | ICallback clk e d p provider code key binding ua ip => (Callback cfg oc st clk e d p provider code key binding ua ip).1
  | ISweep now => Sweep st now
  | ILinkOAuth clk rowID token provider pid access refresh expires scope => (LinkOAuthToCurrentUser st clk rowID token provider pid access refresh expires scope).1
  | ILinkPassword salt token password => (LinkPasswordToCurrentUser st salt token password).1
  | IMerge clk token secondaryID => (MergeAccounts st clk token secondaryID).1
  | IUnlink token provider => (UnlinkOAuthProvider st token provider).1
  | ISignIn f => with_base st (f (is_base st))
  end.

Definition run (st : state) (ops : list identity_op) : state := fold_left exec ops st.

(** The flows of the next state were there before, or are the one just started. *)
Definition started (op : identity_op) (key : string) (f : FlowState) : Prop :=
  match op with
  | IStart now _ d _ _ provider returnTo =>
      sd_state d = Some key ∧ fs_provider f = provider ∧ fs_created f = now ∧ fs_return f = MatchReturnTo returnTo (oc_return oc)
      ∧ ∃ b, sd_binding d = Some b ∧ fs_binding f = bindingHash b
  | _ => False
  end.

Lemma Upsert_states (st : state) a now : is_states (UpsertOAuthAccount st a now) = is_states st.
Proof. unfold UpsertOAuthAccount. by destruct (find_account _ _ _) as [[]|]. Qed.

Lemma move_accounts_states now primary l : ∀ st : state, is_states (move_accounts st now primary l).1 = is_states st.
Proof.
  induction l as [|a l IH]; intros st; simpl; [done|]. unfold MoveOAuthAccount. destruct (find_account _ _ _) as [[]|]; simpl; [|done]. by rewrite IH.
Qed.

Lemma MovePasswordHash_states (st : state) primary secondary : is_states (MovePasswordHash st primary secondary) = is_states st.
Proof. unfold MovePasswordHash. by destruct (_ !! secondary) as [[]|]. Qed.

Lemma link_states (st : state) clk e row provider ae re pt pu u c ua ip :
  is_states (link_and_issue cfg st clk e row provider ae re pt pu u c ua ip).1 = is_states st.
Proof. unfold link_and_issue. destruct (Issue _ _ _ _ _ _) as [b [[]|]]; simpl; apply Upsert_states. Qed.

Lemma findOrCreateUser_frame (st : state) now newID provider pu :
  is_states (findOrCreateUser oc st now newID provider pu).1 = is_states st ∧ is_oauth (findOrCreateUser oc st now newID provider pu).1 = is_oauth st.
Proof. unfold findOrCreateUser. repeat case_match; done. Qed.

Lemma flow_checks_frame (st : state) clk provider key binding :
  is_states (flow_checks oc st clk provider key binding).1 = delete key (is_states st) ∧ is_oauth (flow_checks oc st clk provider key binding).1 = is_oauth st.
Proof.
  unfold flow_checks, Take. destruct (is_states st !! key) as [en|] eqn:He; simpl; [|by rewrite delete_id].
  destruct (After _ _); [done|]. destruct (negb _); [done|]. destruct (_ <? _); [done|]. by destruct (_ || _).
Qed.

(** A callback spends its state, whatever comes of it. *)
Lemma Callback_states (st : state) clk e d p0 provider code key binding ua ip :
  is_states (Callback cfg oc st clk e d (Some p0) provider code key binding ua ip).1 = delete key (is_states st).
Proof.
  unfold Callback. pose proof (flow_checks_frame st clk provider key binding) as [Hs _].
  destruct (flow_checks _ _ _ _ _ _) as [st1 [f|]]; simpl in *; [|done]. destruct (fetch_user p0 f code) as [[pt pu]|]; [|done].
  pose proof (findOrCreateUser_frame st1 (clk 2%nat) (cd_user d) provider pu) as [Hs2 _].
  destruct (findOrCreateUser _ _ _ _ _ _) as [st2 [[v branch]|]]; simpl in *; [|congruence].
  assert (Hf : is_states (finish_callback cfg oc st2 clk e d provider pt pu v branch ua ip).1 = is_states st2).
  { unfold finish_callback. repeat case_match; try done; apply link_states. }
  destruct (finish_callback _ _ _ _ _ _ _ _ _ _ _ _ _) as [st3 [[[]]|]]; simpl in *; congruence.
Qed.

Lemma Merge_states (st : state) clk token secondary : is_states (MergeAccounts st clk token secondary).1 = is_states st.
Proof.
  unfold MergeAccounts. destruct (requireFullSession _ _) as [s|]; [|done]. destruct (_ =? _)%string; [done|]. destruct (_ !! _); [|done].
  pose proof (move_accounts_states (clk 0%nat) (se_user s) (OAuthAccountsByUserID st secondary) st) as Hm.
  destruct (move_accounts _ _ _ _) as [st' []]; [|done]. rewrite <- Hm. apply (MovePasswordHash_states st').
Qed.

Lemma exec_states (st : state) op key en :
  is_states (exec st op) !! key = Some en -> is_states st !! key = Some en ∨ started op key (me_state en).
Proof.
  destruct op; simpl.
  - unfold Start. destruct p as [p|]; [|by left]. destruct (redirectURIFor _ _ _) as [uri|]; [|by left].
    destruct (sd_state d) as [k|]; [|by left]. destruct (sd_binding d) as [b|]; [|by left]. destruct (sd_verifier d) as [v|]; [|by left].
    destruct (if pv_nonce p then _ else _) as [n|]; [|by left]. simpl. intros [[<- <-]|[_ Hk]]%lookup_insert_Some; [|by left].
    right. split_and!; [done..|]. by exists b.
  - destruct p as [p0|]; [|by left]. rewrite Callback_states. intros [_ Hk]%lookup_delete_Some. by left.
  - intros [Hk _]%map_lookup_filter_Some. by left.
  - unfold LinkOAuthToCurrentUser. destruct (requireFullSession _ _); [|by left]. destruct (OAuthAccountByProviderUserID _ _ _); [by left|].
    simpl. rewrite Upsert_states. by left.
  - unfold LinkPasswordToCurrentUser. repeat case_match; by left.
  - rewrite Merge_states. by left.
  - unfold UnlinkOAuthProvider, DeleteOAuthAccountByProvider. destruct (requireFullSession _ _); [|by left]. destruct (_ <=? _)%nat; [by left|].
    destruct (List.find _ _); by left.
  - by left.
Qed.

Lemma run_states ops : ∀ (st : state) key en,
  is_states (run st ops) !! key = Some en -> is_states st !! key = Some en ∨ ∃ op, op ∈ ops ∧ started op key (me_state en).
Proof.
  induction ops as [|op ops IH]; intros st key en Hk; [by left|]. simpl in Hk. apply IH in Hk as [Hk|(o & Ho & Hs)].
  - apply exec_states in Hk as [Hk|Hs]; [by left|]. right. exists op. split; [by left|done].
  - right. exists o. split; [by right|done].
Qed.

(** C31. Nobody can finish a login that another browser started: whatever was requested before, a callback that
    succeeds presents a binding that hashes like the one drawn by an earlier start, of the same provider and the
    same state, no longer ago than the lifetime of a flow; the destination is the one asked for then. *)
Theorem oauth_login_bound (st : state) ops clk e d p provider code key binding ua ip st' tok u created ret :
  is_states st = ∅ ->
  Callback cfg oc (run st ops) clk e d p provider code key binding ua ip = (st', Ok (tok, u, created, ret)) ->
  ∃ now put_now dr p' hook returnTo b, IStart now put_now dr p' hook provider returnTo ∈ ops ∧ sd_state dr = Some key ∧ sd_binding dr = Some b
    ∧ bindingHash binding = bindingHash b ∧ Sub (clk 1%nat) now <= oc_ttl oc ∧ ret = MatchReturnTo returnTo (oc_return oc).
Proof.
  intros Hempty Hc. unfold Callback in Hc. destruct p as [p0|]; [|done]. destruct (flow_checks _ _ _ _ _ _) as [st1 [f|]] eqn:Hfc; [|done].
  apply flow_checks_ok in Hfc as ((en & Hen & <- & _) & Hprov & Hage & Hbind & ->).
  assert (ret = fs_return (me_state en)) as -> by (by repeat case_match; simplify_eq).
  apply run_states in Hen as [Hen|(op & Hop & Hs)]; [by rewrite Hempty, lookup_empty in Hen|].
  destruct op; try done. destruct Hs as (Hst & Hpr & Hcr & Hret & b & Hb & Hbh). subst. exists (fs_created (me_state en)), put_now, d0, p, hook, returnTo, b.
  split_and!; try done. congruence.
Qed.

(** A state is used once: after a callback of a known provider, successful or not, no callback accepts it again
    unless a start draws it again. *)
Theorem oauth_state_once (st : state) clk e d p0 provider code key binding ua ip ops clk' e' d' p1 provider' code' binding' ua' ip' :
  let st' := (Callback cfg oc st clk e d (Some p0) provider code key binding ua ip).1 in
  Forall (fun op => ∀ f, ~ started op key f) ops ->
  (Callback cfg oc (run st' ops) clk' e' d' (Some p1) provider' code' key binding' ua' ip').2 = Err OStateUnknown.
Proof.
  intros st' Hops. assert (Hnone : is_states (run st' ops) !! key = None).
  { destruct (is_states (run st' ops) !! key) as [en|] eqn:He; [|done]. apply run_states in He as [He|(op & Hop & Hs)].
    - unfold st' in He. by rewrite Callback_states, lookup_delete_eq in He.
    - rewrite Forall_forall in Hops. by destruct (Hops op Hop (me_state en)). }
  unfold Callback, flow_checks, Take. by rewrite Hnone.
Qed.

(** ** Merging and unlinking *)

(** The accounts after some were moved from one user to another. *)
Definition relinked (primary secondary : string) (m m' : gmap string OAuthAccount) : Prop :=
  ∀ k a', m' !! k = Some a' -> ∃ a, m !! k = Some a ∧ oa_provider a' = oa_provider a ∧ oa_pid a' = oa_pid a
    ∧ (oa_user a' = oa_user a ∨ (oa_user a = secondary ∧ oa_user a' = primary)).

Lemma move_accounts_ok primary secondary now l : primary ≠ secondary -> ∀ st : state,
  accounts_unique (is_oauth st) -> (∀ a, a ∈ l -> ∃ k b, is_oauth st !! k = Some b ∧ oa_provider b = oa_provider a ∧ oa_pid b = oa_pid a
      ∧ (oa_user b = secondary ∨ oa_user b = primary)) ->
  ∃ st', move_accounts st now primary l = (st', Ok tt) ∧ accounts_unique (is_oauth st') ∧ is_base st' = is_base st ∧ is_passkeys st' = is_passkeys st
    ∧ relinked primary secondary (is_oauth st) (is_oauth st') ∧ dom (is_oauth st') = dom (is_oauth st)
    ∧ (∀ k b, is_oauth st !! k = Some b -> oa_user b = primary -> ∃ b', is_oauth st' !! k = Some b' ∧ oa_user b' = primary)
    ∧ (∀ k b, is_oauth st !! k = Some b -> (∃ a, a ∈ l ∧ oa_provider b = oa_provider a ∧ oa_pid b = oa_pid a) ->
         ∃ b', is_oauth st' !! k = Some b' ∧ oa_user b' = primary).
Proof.
  intros Hps. induction l as [|a l IH]; intros st Hu Hl.
  { exists st. split_and!; try done.
    - intros k x Hk. exists x. split_and!; auto.
    - intros k b Hk Hb. by exists b.
    - intros k b Hk (a & Ha & _). by apply not_elem_of_nil in Ha. }
  destruct (Hl a) as (k & b & Hk & Hp & Hi & Hus); [by left|]. simpl. unfold MoveOAuthAccount.
  rewrite <- Hp, <- Hi, (find_account_row st k b Hu Hk). simpl. set (st1 := with_oauth st (<[k := moved b primary now]> (is_oauth st))).
  assert (Hu1 : accounts_unique (is_oauth st1)) by (by eapply accounts_unique_update).
  destruct (IH st1) as (st' & -> & Hu' & Hb' & Hpk & Hrel & Hdom & Hkeep & Hmoved); [done| |].
  { intros c Hc. destruct (Hl c) as (j & x & Hj & Hxp & Hxi & Hxu); [by right|]. destruct (decide (k = j)) as [<-|Hne].
    - exists k, (moved b primary now). simpl. rewrite lookup_insert_eq. rewrite Hk in Hj. injection Hj as <-. split_and!; auto.
    - exists j, x. simpl. rewrite lookup_insert_ne by done. by split_and!. }
  exists st'. split; [done|]. split; [done|]. split; [done|]. split; [done|].
  assert (Hk1 : ∃ b', is_oauth st' !! k = Some b' ∧ oa_user b' = primary).
  { apply (Hkeep k (moved b primary now)); [by simpl; rewrite lookup_insert_eq|done]. }
  split_and!.
  - intros j x Hj. destruct (Hrel j x Hj) as (y & Hy & Hyp & Hyi & Hyu). simpl in Hy. apply lookup_insert_Some in Hy as [[<- <-]|[Hne Hy]].
    + exists b. simpl in *. split_and!; [done..|]. destruct Hus as [Hus|Hus]; [right|left]; destruct Hyu as [Hyu|[Hyu _]]; rewrite ?Hyu; done || congruence.
    + exists y. by split_and!.
  - rewrite Hdom. simpl. rewrite dom_insert_L. apply elem_of_dom_2 in Hk. set_solver.
  - intros j x Hj Hx. destruct (decide (k = j)) as [<-|Hne]; [done|]. apply (Hkeep j x); [by simpl; rewrite lookup_insert_ne|done].
  - intros j x Hj (c & Hc & Hxp & Hxi). apply elem_of_cons in Hc as [->|Hc].
    + assert (j = k) as -> by (eapply Hu; [done..| |]; congruence). done.
    + destruct (decide (k = j)) as [<-|Hne]; [done|]. apply (Hmoved j x); [by simpl; rewrite lookup_insert_ne|]. by exists c.
Qed.

(** The hashes after a password was moved. *)
Definition hashes_moved (primary secondary : string) (m : gmap string string) : gmap string string :=
  match m !! secondary with None | Some "" => m | Some h => delete secondary (<[primary := h]> m) end.

Lemma MovePasswordHash_set (st : state) primary secondary :
  MovePasswordHash st primary secondary = with_base st (set_hashes (is_base st) (hashes_moved primary secondary (si_hashes (is_base st)))).
Proof. unfold MovePasswordHash, hashes_moved. destruct st as [[]]. simpl. by destruct (si_hashes !! secondary) as [[]|]. Qed.

(** The merge moves everything, and asks nothing of the merged user: with any full session of another user, it
    succeeds for every stored user. Afterwards that user has no provider account, password, passkey or second
    factor and no live session; the accounts, the passkeys and, if there was one, the password belong to the
    caller. *)
Theorem merge_moves_everything (st : state) clk token s secondary u :
  accounts_unique (is_oauth st) -> requireFullSession st token = Some s -> se_user s ≠ secondary -> si_users (is_base st) !! secondary = Some u ->
  ∃ st', MergeAccounts st clk token secondary = (st', Ok tt)
    ∧ (∀ k a, is_oauth st !! k = Some a -> ∃ a', is_oauth st' !! k = Some a' ∧ oa_provider a' = oa_provider a ∧ oa_pid a' = oa_pid a
         ∧ oa_user a' = (if decide (oa_user a = secondary) then se_user s else oa_user a))
    ∧ UserPasswordHashByID st' secondary = ""
    ∧ UserPasswordHashByID st' (se_user s) = (if decide (UserPasswordHashByID st secondary = "") then UserPasswordHashByID st (se_user s) else UserPasswordHashByID st secondary)
    ∧ is_passkeys st' = (fun c => if (wc_user c =? secondary)%string then credential_moved c (se_user s) else c) <$> is_passkeys st
    ∧ tt_secrets (si_totp (is_base st')) !! secondary = None
    ∧ (∀ k x, tt_sessions (si_totp (is_base st')) !! k = Some x -> se_user x = secondary -> is_Some (se_revoked x)).
Proof.
  intros Hu Hs Hne Husr. unfold MergeAccounts. rewrite Hs. destruct (String.eqb_spec (se_user s) secondary); [done|]. rewrite Husr.
  destruct (move_accounts_ok (se_user s) secondary (clk 0%nat) (OAuthAccountsByUserID st secondary) Hne st Hu) as (st1 & -> & Hu1 & Hb1 & Hp1 & Hrel & Hdom & _ & Hmoved).
  { intros a Ha. apply list_elem_of_In, filter_In in Ha as [Ha Hau%String.eqb_eq]. apply list_elem_of_In, list_elem_of_fmap in Ha as ([k b] & -> & Hk).
    apply elem_of_map_to_list in Hk. exists k, b. split_and!; auto. }
  eexists. split; [done|].
  rewrite MovePasswordHash_set. simpl. split_and!.
  - intros k a Hk. assert (Hin : k ∈ dom (is_oauth st1)) by (rewrite Hdom; by eapply elem_of_dom_2). apply elem_of_dom in Hin as [a' Ha'].
    exists a'. destruct (Hrel k a' Ha') as (a0 & Ha0 & Hp & Hi & Hus). rewrite Hk in Ha0. injection Ha0 as <-. split_and!; [done..|].
    destruct (decide (oa_user a = secondary)) as [He|He]; [|by destruct Hus as [|[? _]]].
    destruct (Hmoved k a Hk) as (b' & Hb' & Hbu); [|congruence]. exists a. split; [|done]. apply list_elem_of_In, filter_In. rewrite String.eqb_eq. split; [|done].
    apply list_elem_of_In, list_elem_of_fmap. exists (k, a). split; [done|]. by apply elem_of_map_to_list.
  - unfold UserPasswordHashByID. simpl. unfold hashes_moved. destruct (si_hashes (is_base st1) !! secondary) as [[|c h]|] eqn:Hh; rewrite ?Hh; [done| |done].
    by rewrite lookup_delete_eq.
  - unfold UserPasswordHashByID. simpl. unfold hashes_moved. rewrite Hb1. destruct (si_hashes (is_base st) !! secondary) as [[|c h]|] eqn:Hh; simpl; [done| |done].
    by rewrite lookup_delete_ne, lookup_insert_eq.
  - by rewrite Hp1.
  - unfold MoveTOTPSecret. destruct (tt_secrets (si_totp (is_base st1)) !! secondary) as [sec|] eqn:Hsec; simpl; [|done]. by rewrite lookup_delete_eq.
  - intros k x Hk Hx. unfold RevokeUserSessions in Hk. rewrite lookup_fmap in Hk. apply fmap_Some in Hk as (y & _ & ->).
    destruct (bool_decide_reflect (se_user y = secondary)) as [|Hny]; simpl in *; [|done].
    destruct (bool_decide_reflect (se_revoked y = None)) as [|Hr]; simpl; [done|]. by apply not_eq_None_Some.
Qed.

Lemma filter_length_perm {A} (f : A -> bool) (l l' : list A) : l ≡ₚ l' -> length (List.filter f l) = length (List.filter f l').
Proof. induction 1 as [|x l l' _ IH|x y l|]; simpl; [done| | |congruence]; [destruct (f x); simpl; congruence|destruct (f x), (f y); done]. Qed.

(** Unlinking removes one account and leaves at least one method, where a confirmed second factor counts as one. *)
Theorem unlink_keeps_method (st : state) token provider st' :
  UnlinkOAuthProvider st token provider = (st', Ok tt) ->
  ∃ s, requireFullSession st token = Some s ∧ authMethodCount st (se_user s) = S (authMethodCount st' (se_user s)) ∧ (1 <= authMethodCount st' (se_user s))%nat.
Proof.
  unfold UnlinkOAuthProvider, DeleteOAuthAccountByProvider. destruct (requireFullSession st token) as [s|]; [|done].
  destruct (Nat.leb_spec (authMethodCount st (se_user s)) 1) as [|Hgt]; [done|]. destruct (List.find _ _) as [[k a]|] eqn:Hf; simpl; [|done]. intros [= <-].
  apply find_some in Hf as [Hin Ha]. apply list_elem_of_In, elem_of_map_to_list in Hin. simpl in Ha. apply andb_prop in Ha as [Ha _].
  exists s. split; [done|].
  assert (Hlen : length (OAuthAccountsByUserID st (se_user s)) = S (length (OAuthAccountsByUserID (with_oauth st (delete k (is_oauth st))) (se_user s)))).
  { unfold OAuthAccountsByUserID. simpl. rewrite (filter_length_perm _ _ (a :: map snd (map_to_list (delete k (is_oauth st))))); [simpl; by rewrite Ha|].
    pose proof (map_to_list_delete (is_oauth st) k a Hin) as Hperm. symmetry. apply (Permutation_map snd) in Hperm. exact Hperm. }
  assert (Hc : authMethodCount st (se_user s) = S (authMethodCount (with_oauth st (delete k (is_oauth st))) (se_user s))).
  { unfold authMethodCount. rewrite Hlen. unfold UserPasswordHashByID, WebAuthnCredentialsByUserID, with_oauth. simpl. lia. }
  split; [done|]. lia.
Qed.
End Properties.

(** ** A login, a merge and an unlink *)

#[local] Existing Instance demo_sessions_lib.
#[local] Existing Instance demo_throttle.
#[local] Existing Instance demo_passwords.
#[local] Existing Instance demo_signin_lib.

Definition demo_oauth_lib : OAuthLib := {|
  ParseURL := fun _ => None; EqualFold := String.eqb; loopback_ip := fun _ => false; has_port := fun _ => false; bindingHash := fun s => "#" +:+ s;
|}.
#[local] Existing Instance demo_oauth_lib.

Definition demo_oauth : OAuthConfig := NewOAuth (mkOAuthConfig 0 ["/app*"] "" [] None None [] false "https://x" "").

(** A provider that knows one code and asks for the verifier and the nonce of the flow. *)
Definition demo_provider (email : string) : Provider :=
  mkProvider true
    (fun code verifier _ nonce => if (code =? "code")%string && (verifier =? "v")%string && (nonce =? "n")%string then Some (mkProviderToken "at" "" 0 "") else None)
    (fun _ => Some (Some (mkProviderUser "g1" email true "Ann" ""))).

Definition demo_draw : StartDraw := mkStartDraw (Some "state") (Some "browser") (Some "v") (Some "n").
Definition demo_start (returnTo : string) : identity_op (St := MemoryStore) :=
  IStart demo_time demo_time demo_draw (Some (demo_provider "ann@x")) None "google" returnTo.

Definition demo_identities : IdentityState MemoryStore := mkIdentities demo_accounts ∅ ∅ ∅.
Definition demo_started : IdentityState MemoryStore := run demo_config demo_oauth demo_identities [demo_start "/app/home"].

Definition demo_callback (st : IdentityState MemoryStore) (email code binding : string) :=
  Callback demo_config demo_oauth st (demo_clock 1) (demo_env 1 "s1") (mkCallbackDraw Some "u9" "row1") (Some (demo_provider email)) "google" code "state" binding "ua" "ip".

Definition demo_ann : User := new_user "ann" "ann@x" (Some 1) 1.

Lemma oauth_login_bound_witness :
  ∃ b, sd_binding demo_draw = Some b ∧ bindingHash "browser" = bindingHash b ∧ MatchReturnTo "/app/home" ["/app*"] = "/app/home".
Proof.
  destruct (oauth_login_bound demo_config demo_oauth demo_identities [demo_start "/app/home"] (demo_clock 1) (demo_env 1 "s1") (mkCallbackDraw Some "u9" "row1")
    (Some (demo_provider "ann@x")) "google" "code" "state" "browser" "ua" "ip" (demo_callback demo_started "ann@x" "code" "browser").1 "token-s1" demo_ann false "/app/home")
    as (now & put_now & dr & p & hook & returnTo & b & Hin & _ & Hb & Hh & _ & Hr).
  - reflexivity.
  - refine (answer_pair (demo_callback demo_started "ann@x" "code" "browser") _ _). vm_compute. reflexivity.
  - apply list_elem_of_singleton in Hin. injection Hin as -> -> -> -> -> ->. exists b. split; [exact Hb|]. split; [exact Hh|exact (eq_sym Hr)].
Defined.

Lemma callback_sound_witness :
  (∃ s, tt_sessions (si_totp (is_base (demo_callback demo_started "ann@x" "code" "browser").1)) !! "s1" = Some s ∧ se_user s = "ann" ∧ se_level s = AuthLevelFull)
  ∧ ∃ a, OAuthAccountByProviderUserID (demo_callback demo_started "ann@x" "code" "browser").1 "google" "g1" = Some a ∧ oa_user a = "ann".
Proof.
  destruct (callback_sound demo_config demo_oauth demo_started (demo_clock 1) (demo_env 1 "s1") (mkCallbackDraw Some "u9" "row1")
    (Some (demo_provider "ann@x")) "google" "code" "state" "browser" "ua" "ip" (demo_callback demo_started "ann@x" "code" "browser").1 "token-s1" demo_ann false "/app/home")
    as (p0 & en & pt & pu & Hp & Hen & (_ & _ & _ & _ & _ & Hf) & _ & _ & (s & Hs & Hu & _ & Hl & _) & a & Ha & Hau).
  - intros k k' a a' Hk. exfalso. change (is_oauth demo_started) with (∅ : gmap string OAuthAccount) in Hk. by rewrite lookup_empty in Hk.
  - refine (answer_pair (demo_callback demo_started "ann@x" "code" "browser") _ _). vm_compute. reflexivity.
  - split; [exists s; split; [exact Hs|]; split; [exact Hu|exact Hl]|]. exists a. split; [|exact Hau].
    assert (Hid : pu_id pu = "g1"); [|rewrite Hid in Ha; exact Ha]. injection Hp as <-. vm_compute in Hen. injection Hen as <-.
    vm_compute in Hf. injection Hf as _ <-. reflexivity.
Defined.

(** Another browser, another code and a second callback are refused, and a destination that is not allowed is dropped. *)
Example demo_callback_refusals :
  let answer st email code binding := match (demo_callback st email code binding).2 with Ok (_, _, _, ret) => inl ret | Err e => inr e end in
  answer demo_started "ann@x" "code" "other" = inr OStateBinding ∧ answer demo_started "ann@x" "guess" "browser" = inr OExchange
  ∧ answer (demo_callback demo_started "ann@x" "code" "browser").1 "ann@x" "code" "browser" = inr OStateUnknown
  ∧ answer (run demo_config demo_oauth demo_identities [demo_start "//evil"]) "ann@x" "code" "browser" = inl "".
Proof. vm_compute. done. Qed.

(** Whoever signs up first with the address of another, without verifying it, shares the account that the other
    gets when he signs in with a provider: the address is not verified locally, and the password stays. *)
Definition unverified_base : SignInState MemoryStore :=
  mkSignIn (mkTotpState ∅ ∅ ∅ ∅ (mkTouchGate ∅ 0) ∅ ∅ ∅ (NewMemoryStore 0)) (<["mal" := new_user "mal" "ann@x" None 1]> ∅) (<["mal" := demo_hash "hijacked horse"]> ∅) ∅ ∅ ∅ ∅.

Example unverified_signup_shares_account :
  let st := (demo_callback (run demo_config demo_oauth (mkIdentities unverified_base ∅ ∅ ∅) [demo_start "/app"]) "ann@x" "code" "browser").1 in
  (oa_user <$> OAuthAccountByProviderUserID st "google" "g1") = Some "mal"
  ∧ (u_verified <$> si_users (is_base st) !! "mal") = Some None
  ∧ demo_step (is_base st) "" "hijacked horse" = Some SigninStepFull.
Proof. vm_compute. done. Qed.

(** ** The merge *)

(** Mal has a session and nothing else; the session ended long ago. *)
Definition mal_session : Session :=
  mkSession "m1" "mal" "token-m1" "ua" "ip" 0 1 None AuthLevelFull None 0 None "" ["pwd"] 0.

Definition merge_base : SignInState MemoryStore :=
  mkSignIn (mkTotpState (<["m1" := mal_session]> ∅) (<["ann" := mkSecret "ann" "K" (Some 1) 1 1]> ∅) ∅ ∅ (mkTouchGate ∅ 0) ∅ ∅ ∅ (NewMemoryStore 0))
    (<["mal" := new_user "mal" "mal@x" (Some 1) 1]> (<["ann" := demo_ann]> ∅)) (<["ann" := demo_hash "correct horse"]> ∅) ∅ ∅ ∅ ∅.

Definition merge_state : IdentityState MemoryStore :=
  mkIdentities merge_base (<["row1" := mkAccount "row1" "ann" "google" "g1" "at" "" None "" 1 1]> ∅) ∅ ∅.

Lemma merge_moves_everything_witness :
  requireFullSession merge_state "token-m1" = Some mal_session ∧ After demo_time (se_expires mal_session) = true
  ∧ ∃ st', MergeAccounts merge_state (demo_clock 1) "token-m1" "ann" = (st', Ok tt)
      ∧ UserPasswordHashByID st' "ann" = "" ∧ UserPasswordHashByID st' "mal" = demo_hash "correct horse"
      ∧ ∃ a, is_oauth st' !! "row1" = Some a ∧ oa_user a = "mal".
Proof.
  assert (Hs : requireFullSession merge_state "token-m1" = Some mal_session) by (vm_compute; reflexivity).
  split; [exact Hs|]. split; [vm_compute; reflexivity|].
  destruct (merge_moves_everything merge_state (demo_clock 1) "token-m1" mal_session "ann" demo_ann) as (st' & Hm & Ho & Hp & Hq & _).
  - unfold accounts_unique, merge_state. simpl. intros k k' a a' [[<- _]|[_ Hk]]%lookup_insert_Some [[<- _]|[_ Hk']]%lookup_insert_Some _ _; [reflexivity|by rewrite lookup_empty in *..].
  - exact Hs.
  - discriminate.
  - vm_compute. reflexivity.
  - exists st'. split; [exact Hm|]. split; [exact Hp|]. split.
    + exact Hq.
    + destruct (Ho "row1" (mkAccount "row1" "ann" "google" "g1" "at" "" None "" 1 1)) as (a & Ha & _ & _ & Hau); [reflexivity|].
      exists a. split; [exact Ha|]. rewrite Hau. reflexivity.
Defined.

(** A confirmed second factor counts as a method: the only account of a user can be unlinked beside it, and no
    way to sign in is left. *)
Definition factor_base : SignInState MemoryStore :=
  mkSignIn (mkTotpState (<["m1" := mal_session]> ∅) (<["mal" := mkSecret "mal" "K" (Some 1) 1 1]> ∅) ∅ ∅ (mkTouchGate ∅ 0) ∅ ∅ ∅ (NewMemoryStore 0))
    (<["mal" := new_user "mal" "mal@x" (Some 1) 1]> ∅) ∅ ∅ ∅ ∅ ∅.

Example unlink_leaves_second_factor :
  let st := (UnlinkOAuthProvider (mkIdentities factor_base (<["row1" := mkAccount "row1" "mal" "google" "g1" "at" "" None "" 1 1]> ∅) ∅ ∅) "token-m1" "google").1 in
  authMethodCount st "mal" = 1%nat ∧ OAuthAccountsByUserID st "mal" = [] ∧ UserPasswordHashByID st "mal" = "" ∧ WebAuthnCredentialsByUserID st "mal" = [].
Proof. vm_compute. done. Qed.
