(* ===== verification/Passkeys.v ===== *)
(** * Passkeys ([internal/webauthn], the credentials of [storage/memory])

    Registration and login ceremonies over the passkey table of [Identities] and the sessions of [SignIn], the
    store of open challenges, the policy on authenticator models and the counters. The WebAuthn library is the
    class [WebAuthnLib]: what it parses and checks; its documented behaviour is the class [WebAuthnLaws]. A login is
    a sequence of storage calls, so that concurrent logins interleave in [world_step]; other requests are atomic.
    Byte strings are strings, a user id is its sixteen bytes. Options sent to the browser and audit events are not
    modelled. *)

From Stdlib Require Import ZArith Lia String Ascii Sorting.Sorted.
From stdpp Require Import base gmap strings list.
From S2P Require Import Prelude Checkpoint Throttle Session Totp Passwords Tenants SignIn Identities.

Set Default Goal Selector "!".
Open Scope string_scope.
Open Scope list_scope.
Open Scope Z_scope.

(** ** The library *)

Record GoCredential := mkGoCredential {
  gc_id : string; gc_key : string; gc_transports : list string; gc_aaguid : string; gc_count : Z; gc_clone : bool; gc_be : bool; gc_bs : bool;
}.

Record webauthnUser := mkWebauthnUser { wu_user : User; wu_credentials : list GoCredential; wu_handle : string }.

Definition WebAuthnID (w : webauthnUser) : string := if (wu_handle w =? "")%string then u_id (wu_user w) else wu_handle w.

(** A parsed registration: the format of its attestation, and the rest. *)
Record ParsedCreation := mkParsedCreation { pn_format : string; pn_rest : string }.

(** A parsed assertion: the credential, the handle of the user, the flags, the counter, and the rest. *)
Record ParsedAssertion := mkParsedAssertion {
  pa_raw : string; pa_handle : string; pa_be : bool; pa_bs : bool; pa_uv : bool; pa_count : Z; pa_rest : string;
}.

(** [ParseCredentialCreationResponseBody], [CreateCredential], [ParseCredentialRequestResponseBody],
    [ValidateDiscoverableLogin]; session data is a string. *)
Class WebAuthnLib := {
  ParseCreation : string -> option ParsedCreation;
  CreateCredential : webauthnUser -> string -> ParsedCreation -> option GoCredential;
  ParseAssertion : string -> option ParsedAssertion;
  ValidateDiscoverableLogin : (string -> string -> option webauthnUser) -> string -> ParsedAssertion -> option GoCredential;
}.

(** The counter after an assertion: a value that does not advance leaves the stored one and sets the warning. *)
Definition UpdateCounter (stored asserted : Z) : Z * bool :=
  if (asserted <=? stored) && (negb (asserted =? 0) || negb (stored =? 0)) then (stored, true) else (asserted, false).

(** An accepted assertion is one by a credential of the user that the handler finds for the handle it carries; its
    backup eligibility is the recorded one, the counter is updated. *)
Class WebAuthnLaws `{WebAuthnLib} := {
  validate_ok handler session p c :
    ValidateDiscoverableLogin handler session p = Some c ->
    ∃ wu g, handler (pa_raw p) (pa_handle p) = Some wu ∧ WebAuthnID wu = pa_handle p ∧ g ∈ wu_credentials wu ∧ gc_id g = pa_raw p
      ∧ gc_id c = gc_id g ∧ gc_be g = pa_be p ∧ (gc_count c, gc_clone c) = UpdateCounter (gc_count g) (pa_count p);
}.

(** ** Authenticator models *)

Definition hyphenated (h : string) : string :=
  String.substring 0 8 h +:+ "-" +:+ String.substring 8 4 h +:+ "-" +:+ String.substring 12 4 h +:+ "-" +:+ String.substring 16 4 h +:+ "-"
  +:+ String.substring 20 (String.length h - 20) h.

Definition FormatAAGUID (b : string) : string :=
  let h := hex_encode b in if (String.length b =? 16)%nat then hyphenated h else h.

Definition without_dashes (s : string) : string :=
  string_of_list_ascii (List.filter (fun c => negb (c =? "-")%char) (list_ascii_of_string s)).

Definition NormalizeAAGUID `{SignInLib} (s : string) : option string :=
  match hex_decode (ToLower (without_dashes (TrimSpace s))) with
  | Some b => if (String.length b =? 16)%nat then Some (FormatAAGUID b) else None
  | None => None
  end.

Fixpoint aaguidSet `{SignInLib} (l : list string) : option (gset string) :=
  match l with
  | [] => Some ∅
  | v :: l =>
      match NormalizeAAGUID v with
      | None => None
      | Some n => (fun out => {[n]} ∪ out) <$> aaguidSet l
      end
  end.

(** ** Configuration *)

Definition CloneWarningReject : string := "reject".
Definition CloneWarningFlag : string := "flag".

(** [wf_resolver] maps a credential and a foreign handle to a user. *)
Record WebAuthnConfig := mkWebAuthnConfig {
  wf_ttl : Z; wf_clone : string; wf_resolver : option (string -> string -> option string); wf_preference : string; wf_statement : bool;
  wf_allow : list string; wf_deny : list string; wf_names : list (string * string); wf_name : option (string -> string);
}.

(** Without a configuration nothing is served. *)
Record WebAuthnService := mkWebAuthnService {
  ws_cfg : option WebAuthnConfig; ws_allow : gset string; ws_deny : gset string; ws_names : gmap string string; ws_renamer : bool;
}.

Inductive webauthn_error :=
  | WPreference | WAllowlist | WDenylist | WNames | WLibrary | WNotConfigured | WNoUser | WRandom | WChallengeUnknown | WChallengeUser | WChallengeExpired
  | WBody | WCreate | WAttestationRequired | WAAGUID | WInsert | WValidate | WLookup | WUpdateCount | WReplay | WSession (e : signin_error)
  | WNotFound | WName | WRenameUnsupported.

Fixpoint names_of `{SignInLib} (l : list (string * string)) (m : gmap string string) : option (gmap string string) :=
  match l with
  | [] => Some m
  | (k, v) :: l => match NormalizeAAGUID k with None => None | Some n => names_of l (<[n := v]> m) end
  end.

(** [library] tells whether the library takes the configuration; the names come in the order of the iteration. *)
Definition NewService `{SignInLib} (cfg : option WebAuthnConfig) (library renamer : bool) : result webauthn_error WebAuthnService :=
  match cfg with
  | None => Ok (mkWebAuthnService None ∅ ∅ ∅ renamer)
  | Some c =>
      if negb (bool_decide (wf_preference c ∈ ["" ; "none"; "indirect"; "direct"; "enterprise"])) then Err WPreference
      else match aaguidSet (wf_allow c), aaguidSet (wf_deny c), names_of (wf_names c) ∅ with
      | None, _, _ => Err WAllowlist
      | _, None, _ => Err WDenylist
      | _, _, None => Err WNames
      | Some allow, Some deny, Some names => if library then Ok (mkWebAuthnService cfg allow deny names renamer) else Err WLibrary
      end
  end.

Definition AuthenticatorName (svc : WebAuthnService) (aaguid : string) : string :=
  match ws_cfg svc with
  | None => ""
  | Some c =>
      let id := FormatAAGUID aaguid in
      let known := default "" (ws_names svc !! id) in
      match wf_name c with
      | Some f => if (f id =? "")%string then known else f id
      | None => known
      end
  end.

Definition checkAAGUID (svc : WebAuthnService) (aaguid : string) : bool :=
  let id := FormatAAGUID aaguid in
  negb (bool_decide (id ∈ ws_deny svc)) && (bool_decide (ws_allow svc = ∅) || bool_decide (id ∈ ws_allow svc)).

Definition clonePolicy (svc : WebAuthnService) : string :=
  match ws_cfg svc with
  | Some c => if (wf_clone c =? CloneWarningFlag)%string then CloneWarningFlag else CloneWarningReject
  | None => CloneWarningReject
  end.

Definition AMRHardwareKey : string := "hwk".
Definition AMRSoftwareKey : string := "swk".
Definition AMRUserVerified : string := "user".

Definition passkeyAMR (backupEligible userVerified : bool) : list string :=
  (if backupEligible then [AMRSoftwareKey] else [AMRHardwareKey]) ++ (if userVerified then [AMRUserVerified] else []).

(** ** State *)

Record challenge := mkChallenge { ch_session : string; ch_user : option string; ch_expires : Z }.

Record PasskeyState (St : Type) := mkPasskeys { ps_ids : IdentityState St; ps_challenges : gmap string challenge }.
Arguments mkPasskeys {St}.
Arguments ps_ids {St}.
Arguments ps_challenges {St}.

Section Passkeys.
Context `{SessionLib} `{PasswordLib} `{SignInLib} `{OAuthLib} `{WebAuthnLib} {St : Type} `{ThrottleStore St}
  (pcfg : PasswordConfig St) (svc : WebAuthnService).

Abbreviation state := (PasskeyState St).

Definition users (st : state) : gmap string User := si_users (is_base (ps_ids st)).
Definition creds (st : state) : gmap string WebAuthnCredential := is_passkeys (ps_ids st).
Definition with_creds (st : state) (m : gmap string WebAuthnCredential) : state := mkPasskeys (with_passkeys (ps_ids st) m) (ps_challenges st).
Definition with_challenges (st : state) (m : gmap string challenge) : state := mkPasskeys (ps_ids st) m.

(** ** The table ([memory.go]) *)

Definition find_credential (st : state) (credentialID : string) : option (string * WebAuthnCredential) :=
  List.find (fun kc => (wc_credential kc.2 =? credentialID)%string) (map_to_list (creds st)).

Definition InsertWebAuthnCredential (st : state) (c : WebAuthnCredential) : option state :=
  match find_credential st (wc_credential c) with
  | Some _ => None
  | None => Some (with_creds st (<[wc_id c := c]> (creds st)))
  end.

Definition WebAuthnCredentialByCredentialID (st : state) (credentialID : string) : option WebAuthnCredential := snd <$> find_credential st credentialID.

Definition counted (c : WebAuthnCredential) (newCount usedAt : Z) : WebAuthnCredential :=
  mkCredential (wc_id c) (wc_user c) (wc_credential c) (wc_key c) newCount (wc_transports c) (wc_aaguid c) (wc_name c) (wc_created c)
    (Some usedAt) (wc_eligible c) (wc_state c).

(** [None] is an error: a replay or a missing row. *)
Definition UpdateWebAuthnSignCount (st : state) (credentialID : string) (newCount usedAt : Z) : option (string * state) :=
  match find_credential st credentialID with
  | None => None
  | Some (k, c) => if newCount <=? wc_count c then None else Some (k, with_creds st (<[k := counted c newCount usedAt]> (creds st)))
  end.

Definition flagged (c : WebAuthnCredential) (be bs : bool) : WebAuthnCredential :=
  mkCredential (wc_id c) (wc_user c) (wc_credential c) (wc_key c) (wc_count c) (wc_transports c) (wc_aaguid c) (wc_name c) (wc_created c)
    (wc_last_used c) (Some be) (Some bs).

Definition UpdateWebAuthnBackupFlags (st : state) (credentialID : string) (be bs : bool) : state :=
  match find_credential st credentialID with
  | None => st
  | Some (k, c) => with_creds st (<[k := flagged c be bs]> (creds st))
  end.

Definition own_credential_row (st : state) (id userID : string) : option WebAuthnCredential :=
  match creds st !! id with Some c => if (wc_user c =? userID)%string then Some c else None | None => None end.

Definition DeleteWebAuthnCredential (st : state) (id userID : string) : option state :=
  (fun _ => with_creds st (delete id (creds st))) <$> own_credential_row st id userID.

Definition renamed (c : WebAuthnCredential) (name : string) : WebAuthnCredential :=
  mkCredential (wc_id c) (wc_user c) (wc_credential c) (wc_key c) (wc_count c) (wc_transports c) (wc_aaguid c) name (wc_created c)
    (wc_last_used c) (wc_eligible c) (wc_state c).

Definition RenameWebAuthnCredential (st : state) (id userID name : string) : option state :=
  (fun c => with_creds st (<[id := renamed c name]> (creds st))) <$> own_credential_row st id userID.

(** ** Ceremonies *)

(** The flags go to the library only when both were recorded. *)
Definition dbToGoWebauthnCredential (c : WebAuthnCredential) : GoCredential :=
  let '(be, bs) := match wc_eligible c, wc_state c with Some be, Some bs => (be, bs) | _, _ => (false, false) end in
  mkGoCredential (wc_credential c) (wc_key c) (wc_transports c) (wc_aaguid c) (wc_count c) false be bs.

Definition loadWebauthnUser (st : state) (userID : string) : option webauthnUser :=
  (fun u => mkWebauthnUser u (map dbToGoWebauthnCredential (WebAuthnCredentialsByUserID (ps_ids st) userID)) "") <$> users st !! userID.

(** [session] is what the library starts for the user, [tok] the drawn token. *)
Definition BeginRegistration (st : state) (now : Z) (session : webauthnUser -> option string) (tok : option string) (userID : string)
  : state * result webauthn_error string :=
  match ws_cfg svc, loadWebauthnUser st userID with
  | None, _ => (st, Err WNotConfigured)
  | _, None => (st, Err WNoUser)
  | Some c, Some wu =>
      match session wu, tok with
      | None, _ => (st, Err WLibrary)
      | _, None => (st, Err WRandom)
      | Some data, Some tok => (with_challenges st (<[tok := mkChallenge data (Some userID) (now + wf_ttl c)]> (ps_challenges st)), Ok tok)
      end
  end.

Definition BeginLogin (st : state) (now : Z) (session tok : option string) : state * result webauthn_error string :=
  match ws_cfg svc, session, tok with
  | None, _, _ => (st, Err WNotConfigured)
  | _, None, _ => (st, Err WLibrary)
  | _, _, None => (st, Err WRandom)
  | Some c, Some data, Some tok => (with_challenges st (<[tok := mkChallenge data None (now + wf_ttl c)]> (ps_challenges st)), Ok tok)
  end.

(** A challenge is removed before anything is checked. *)
Definition LoadAndDelete (st : state) (tok : string) : state * option challenge :=
  (with_challenges st (delete tok (ps_challenges st)), ps_challenges st !! tok).

Definition new_row (id userID name : string) (now : Z) (cred : GoCredential) : WebAuthnCredential :=
  mkCredential id userID (gc_id cred) (gc_key cred) (gc_count cred) (gc_transports cred) (gc_aaguid cred) name now None (Some (gc_be cred)) (Some (gc_bs cred)).

(** The answer is the row and whether it is the first one of the user. *)
Definition FinishRegistration (st : state) (clk : nat -> Z) (rowID userID tok name body : string) : state * result webauthn_error (WebAuthnCredential * bool) :=
  match ws_cfg svc with
  | None => (st, Err WNotConfigured)
  | Some c =>
      let '(st, chal) := LoadAndDelete st tok in
      match chal with
      | None => (st, Err WChallengeUnknown)
      | Some chal =>
          if negb (bool_decide (ch_user chal = Some userID)) then (st, Err WChallengeUser)
          else if After (clk 0%nat) (ch_expires chal) then (st, Err WChallengeExpired)
          else match loadWebauthnUser st userID with
          | None => (st, Err WNoUser)
          | Some wu =>
              match ParseCreation body with
              | None => (st, Err WBody)
              | Some parsed =>
                  match CreateCredential wu (ch_session chal) parsed with
                  | None => (st, Err WCreate)
                  | Some cred =>
                      if wf_statement c && (pn_format parsed =? "none")%string then (st, Err WAttestationRequired)
                      else if negb (checkAAGUID svc (gc_aaguid cred)) then (st, Err WAAGUID)
                      else let row := new_row rowID userID name (clk 1%nat) cred in
                      match InsertWebAuthnCredential st row with
                      | None => (st, Err WInsert)
                      | Some st => (st, Ok (row, bool_decide (wu_credentials wu = [])))
                      end
                  end
              end
          end
      end
  end.

(** ** Login *)

(** The user behind a handle, and the handle if it is a foreign one. *)
Definition loginOwner (st : state) (rawID userHandle : string) : option (string * User * string) :=
  let own := if (String.length userHandle =? 16)%nat then users st !! userHandle else None in
  match own with
  | Some u => Some (userHandle, u, "")
  | None =>
      match ws_cfg svc ≫= wf_resolver with
      | None => None
      | Some resolve =>
          match WebAuthnCredentialByCredentialID st rawID with
          | None => None
          | Some stored =>
              if bool_decide (resolve rawID userHandle = Some (wc_user stored)) then
                (fun u => (wc_user stored, u, userHandle)) <$> users st !! wc_user stored
              else None
          end
      end
  end.

Definition unflagged (rawID : string) (c : WebAuthnCredential) : bool :=
  (wc_credential c =? rawID)%string && (bool_decide (wc_eligible c = None) || bool_decide (wc_state c = None)).

(** The credential given to the library: one without recorded flags takes the asserted ones. *)
Definition login_credential (rawID : string) (be bs : bool) (c : WebAuthnCredential) : GoCredential :=
  let gc := dbToGoWebauthnCredential c in
  if unflagged rawID c then mkGoCredential (gc_id gc) (gc_key gc) (gc_transports gc) (gc_aaguid gc) (gc_count gc) (gc_clone gc) be bs else gc.

Definition login_handler (st : state) (be bs : bool) (rawID userHandle : string) : option webauthnUser :=
  match loginOwner st rawID userHandle with
  | None => None
  | Some (uid, u, handle) => Some (mkWebauthnUser u (map (login_credential rawID be bs) (WebAuthnCredentialsByUserID (ps_ids st) uid)) handle)
  end.

(** The credential without recorded flags that the handler met, if it met one. *)
Definition reconciled (st : state) (rawID userHandle : string) : option string :=
  match loginOwner st rawID userHandle with
  | None => None
  | Some (uid, _, _) => if existsb (unflagged rawID) (WebAuthnCredentialsByUserID (ps_ids st) uid) then Some rawID else None
  end.

(** What a login keeps from its validation. *)
Record LoginCheck := mkLoginCheck { lc_cred : GoCredential; lc_reconcile : option string; lc_be : bool; lc_bs : bool; lc_uv : bool }.

(** From the challenge to the answer of the library. *)
Definition login_validate (st : state) (now : Z) (tok body : string) : state * result webauthn_error LoginCheck :=
  match ws_cfg svc with
  | None => (st, Err WNotConfigured)
  | Some _ =>
      let '(st, chal) := LoadAndDelete st tok in
      match chal with
      | None => (st, Err WChallengeUnknown)
      | Some chal =>
          if After now (ch_expires chal) then (st, Err WChallengeExpired)
          else match ParseAssertion body with
          | None => (st, Err WBody)
          | Some p =>
              match ValidateDiscoverableLogin (login_handler st (pa_be p) (pa_bs p)) (ch_session chal) p with
              | None => (st, Err WValidate)
              | Some cred => (st, Ok (mkLoginCheck cred (reconciled st (pa_raw p) (pa_handle p)) (pa_be p) (pa_bs p) (pa_uv p)))
              end
          end
      end
  end.

(** The flags of a credential that had none. *)
Definition login_reconcile (st : state) (lc : LoginCheck) : state :=
  match lc_reconcile lc with Some credentialID => UpdateWebAuthnBackupFlags st credentialID (lc_be lc) (lc_bs lc) | None => st end.

Definition login_stored (st : state) (lc : LoginCheck) : result webauthn_error (WebAuthnCredential * User) :=
  match WebAuthnCredentialByCredentialID st (gc_id (lc_cred lc)) with
  | None => Err WLookup
  | Some stored => match users st !! wc_user stored with None => Err WNoUser | Some u => Ok (stored, u) end
  end.

(** The counter: the updated row, if any, and whether the credential looks cloned. *)
Definition login_count (st : state) (now : Z) (lc : LoginCheck) (stored : WebAuthnCredential) : state * result webauthn_error (option string * bool) :=
  let newCount := gc_count (lc_cred lc) in
  if wc_count stored <? newCount then
    match UpdateWebAuthnSignCount st (wc_credential stored) newCount now with
    | None => (st, Err WUpdateCount)
    | Some (k, st) => (st, Ok (Some k, gc_clone (lc_cred lc)))
    end
  else (st, Ok (None, gc_clone (lc_cred lc) || negb (newCount =? 0) || negb (wc_count stored =? 0))).

Definition with_amrs (e : IssueEnv) (methods : list string) : IssueEnv :=
  mkIssueEnv (ie_no_limit e) (ie_list e) (ie_store e) (ie_now e) (ie_token e) (ie_id e) methods (ie_at e).

Definition login_issue (st : state) (e : IssueEnv) (lc : LoginCheck) (user : User) (clone : bool) (ua ip : string) : state * result webauthn_error (string * Session) :=
  if clone && negb (clonePolicy svc =? CloneWarningFlag)%string then (st, Err WReplay)
  else let '(b, r) := Issue pcfg (is_base (ps_ids st)) (with_amrs e (passkeyAMR (lc_be lc) (lc_uv lc))) (u_id user) ua ip in
       (mkPasskeys (with_base (ps_ids st) b) (ps_challenges st), match r with Ok x => Ok x | Err err => Err (WSession err) end).

Definition FinishLogin (st : state) (clk : nat -> Z) (e : IssueEnv) (tok body ua ip : string) : state * result webauthn_error (string * Session) :=
  match login_validate st (clk 0%nat) tok body with
  | (st, Err err) => (st, Err err)
  | (st, Ok lc) =>
      let st := login_reconcile st lc in
      match login_stored st lc with
      | Err err => (st, Err err)
      | Ok (stored, user) =>
          match login_count st (clk 1%nat) lc stored with
          | (st, Err err) => (st, Err err)
          | (st, Ok (_, clone)) => login_issue st e lc user clone ua ip
          end
      end
  end.

(** ** Management *)

Definition DeleteCredential (st : state) (id userID : string) : state * result webauthn_error unit :=
  match DeleteWebAuthnCredential st id userID with None => (st, Err WNotFound) | Some st => (st, Ok tt) end.

Definition RenameCredential (st : state) (id userID name : string) : state * result webauthn_error unit :=
  let name := TrimSpace name in
  if (name =? "")%string || (64 <? String.length name)%nat then (st, Err WName)
  else if negb (ws_renamer svc) then (st, Err WRenameUnsupported)
  else match RenameWebAuthnCredential st id userID name with None => (st, Err WNotFound) | Some st => (st, Ok tt) end.

(** The sweep of expired challenges. *)
Definition gc_sweep (st : state) (now : Z) : state := with_challenges st (filter (fun kc => Before (ch_expires kc.2) now = false) (ps_challenges st)).

(** ** Concurrent logins *)

(** What a login has done: a storage call is one step. *)
Inductive login_phase :=
  | TValidated (lc : LoginCheck)
  | TReconciled (lc : LoginCheck)
  | TStored (lc : LoginCheck) (stored : WebAuthnCredential) (user : User)
  | TCounted (lc : LoginCheck) (user : User) (updated : option string) (clone : bool)
  | TDone (lc : LoginCheck) (updated : option string) (tok : string) (s : Session)
  | TFailed (err : webauthn_error).

(** The log has the rows whose counter a login advanced, newest first. *)
Record world := mkWorld { w_state : state; w_threads : gmap nat login_phase; w_log : list (nat * string * Z) }.

Inductive event :=
  | EValidate (i : nat) (now : Z) (tok body : string)
  | EStep (i : nat) (now : Z) (e : IssueEnv) (ua ip : string)
  | EBeginRegistration (now : Z) (session : webauthnUser -> option string) (tok : option string) (userID : string)
  | EFinishRegistration (clk : nat -> Z) (rowID userID tok name body : string)
  | EBeginLogin (now : Z) (session tok : option string)
  | ESweep (now : Z)
  | EDelete (id userID : string)
  | ERename (id userID name : string)
  | EIdentity (oc : OAuthConfig) (op : identity_op (St := St)).

(** The next step of a login, with the entry it adds to the log. *)
Definition login_step (st : state) (i : nat) (now : Z) (e : IssueEnv) (ua ip : string) (t : login_phase) : state * login_phase * list (nat * string * Z) :=
  match t with
  | TValidated lc => (login_reconcile st lc, TReconciled lc, [])
  | TReconciled lc => (st, match login_stored st lc with Ok (stored, user) => TStored lc stored user | Err err => TFailed err end, [])
  | TStored lc stored user =>
      match login_count st now lc stored with
      | (st, Err err) => (st, TFailed err, [])
      | (st, Ok (updated, clone)) => (st, TCounted lc user updated clone, match updated with Some k => [(i, k, gc_count (lc_cred lc))] | None => [] end)
      end
  | TCounted lc user updated clone =>
      match login_issue st e lc user clone ua ip with
      | (st, Err err) => (st, TFailed err, [])
      | (st, Ok (tok, s)) => (st, TDone lc updated tok s, [])
      end
  | TDone _ _ _ _ | TFailed _ => (st, t, [])
  end.

Definition other_step (st : state) (ev : event) : state :=
  match ev with
  | EBeginRegistration now session tok userID => (BeginRegistration st now session tok userID).1
  | EFinishRegistration clk rowID userID tok name body => (FinishRegistration st clk rowID userID tok name body).1
  | EBeginLogin now session tok => (BeginLogin st now session tok).1
  | ESweep now => gc_sweep st now
  | EDelete id userID => (DeleteCredential st id userID).1
  | ERename id userID name => (RenameCredential st id userID name).1
  | EIdentity oc op => mkPasskeys (exec pcfg oc (ps_ids st) op) (ps_challenges st)
  | EValidate _ _ _ _ | EStep _ _ _ _ _ => st
  end.

Definition world_step (w : world) (ev : event) : world :=
  match ev with
  | EValidate i now tok body =>
      match w_threads w !! i with
      | Some _ => w
      | None =>
          let '(st, r) := login_validate (w_state w) now tok body in
          mkWorld st (<[i := match r with Ok lc => TValidated lc | Err err => TFailed err end]> (w_threads w)) (w_log w)
      end
  | EStep i now e ua ip =>
      match w_threads w !! i with
      | None => w
      | Some t => let '(st, t, l) := login_step (w_state w) i now e ua ip t in mkWorld st (<[i := t]> (w_threads w)) (l ++ w_log w)
      end
  | _ => mkWorld (other_step (w_state w) ev) (w_threads w) (w_log w)
  end.

Definition world_run (w : world) (evs : list event) : world := fold_left world_step evs w.
End Passkeys.

Arguments mkWorld {St}.
Arguments w_state {St}.
Arguments w_threads {St}.
Arguments w_log {St}.
Arguments EIdentity {St}.

Section Properties.
Context `{SessionLib} `{PasswordLib} `{SignInLib} `{OAuthLib} `{WebAuthnLaws} {St : Type} `{ThrottleStore St}
  (pcfg : PasswordConfig St) (svc : WebAuthnService).

Abbreviation state := (PasskeyState St).
Abbreviation world := (world (St := St)).

(** ** The table *)

(** A credential has one row. *)
Definition creds_unique (m : gmap string WebAuthnCredential) : Prop :=
  ∀ k k' c c', m !! k = Some c -> m !! k' = Some c' -> wc_credential c = wc_credential c' -> k = k'.

Lemma creds_with (st : state) m : creds (with_creds st m) = m.
Proof. done. Qed.

Lemma find_credential_Some (st : state) cid k c : find_credential st cid = Some (k, c) -> creds st !! k = Some c ∧ wc_credential c = cid.
Proof. intros [Hin Hs%String.eqb_eq]%find_some. by apply list_elem_of_In, elem_of_map_to_list in Hin. Qed.

Lemma find_credential_None (st : state) cid k c : find_credential st cid = None -> creds st !! k = Some c -> wc_credential c ≠ cid.
Proof.
  intros Hf Hk Hs. eapply find_none in Hf; [|by apply list_elem_of_In, elem_of_map_to_list, Hk]. simpl in Hf. by apply String.eqb_neq in Hf.
Qed.

Lemma find_credential_row (st : state) k c : creds_unique (creds st) -> creds st !! k = Some c -> find_credential st (wc_credential c) = Some (k, c).
Proof.
  intros Hu Hk. destruct (find_credential st _) as [[k' c']|] eqn:Hf; [|by destruct (find_credential_None st _ k c Hf Hk)].
  apply find_credential_Some in Hf as (Hk' & He). assert (k' = k) as -> by (by eapply Hu). congruence.
Qed.

Lemma creds_unique_update m k c c' : m !! k = Some c -> wc_credential c' = wc_credential c -> creds_unique m -> creds_unique (<[k := c']> m).
Proof.
  intros Hk Hc Hu i j x y. rewrite !lookup_insert_Some. intros [[<- <-]|[Hne Hx]] [[<- <-]|[Hne' Hy]] He; [done|..].
  - rewrite Hc in He. by eapply Hu.
  - rewrite Hc in He. by eapply Hu.
  - by eapply Hu.
Qed.

(** What steps other than a login do to the table: rows keep their credential and their counter, or go; a new row
    has a new credential. *)
Definition kept (m m' : gmap string WebAuthnCredential) (fresh : option string) : Prop :=
  ∀ k c', m' !! k = Some c' ->
    (∃ c, m !! k = Some c ∧ wc_credential c' = wc_credential c ∧ wc_count c' = wc_count c)
    ∨ (fresh = Some k ∧ ∀ j c, m !! j = Some c -> j ≠ k -> wc_credential c ≠ wc_credential c').

Lemma kept_refl m fresh : kept m m fresh.
Proof. intros k c Hk. left. by exists c. Qed.

Lemma kept_update m k c c' fresh : m !! k = Some c -> wc_credential c' = wc_credential c -> wc_count c' = wc_count c -> kept m (<[k := c']> m) fresh.
Proof. intros Hk Hc Hn j x [[<- <-]|[Hne Hj]]%lookup_insert_Some; left; [by exists c|by exists x]. Qed.

Lemma kept_unique m m' fresh : creds_unique m -> kept m m' fresh -> creds_unique m'.
Proof.
  intros Hu Hk i j x y Hi Hj He. destruct (decide (i = j)) as [|Hne]; [done|].
  destruct (Hk i x Hi) as [(x0 & Hx0 & Hx & _)|[Hf Hx]], (Hk j y Hj) as [(y0 & Hy0 & Hy & _)|[Hg Hy]].
  - eapply Hu; [done..|]. congruence.
  - destruct (Hy i x0 Hx0 Hne). congruence.
  - destruct (Hx j y0 Hy0 (not_eq_sym Hne)). congruence.
  - congruence.
Qed.

Lemma kept_moved m primary secondary fresh :
  kept m ((fun c => if (wc_user c =? secondary)%string then credential_moved c primary else c) <$> m) fresh.
Proof.
  intros k c'. rewrite lookup_fmap. intros (c & Hc & ->)%fmap_Some. left. exists c. split; [done|]. by destruct (_ =? _)%string.
Qed.

(** ** Requests on identities leave the table, or move rows *)

Lemma Upsert_passkeys (st : IdentityState St) a now : is_passkeys (UpsertOAuthAccount st a now) = is_passkeys st.
Proof. unfold UpsertOAuthAccount. by destruct (find_account _ _ _) as [[]|]. Qed.

Lemma findOrCreateUser_passkeys oc (st : IdentityState St) now newID provider pu :
  is_passkeys (findOrCreateUser oc st now newID provider pu).1 = is_passkeys st.
Proof. unfold findOrCreateUser. repeat case_match; done. Qed.

Lemma flow_checks_passkeys oc (st : IdentityState St) clk provider key binding : is_passkeys (flow_checks oc st clk provider key binding).1 = is_passkeys st.
Proof. unfold flow_checks, Take. repeat case_match; simplify_eq; done. Qed.

Lemma finish_callback_passkeys oc (st : IdentityState St) clk e d provider pt pu u branch ua ip :
  is_passkeys (finish_callback pcfg oc st clk e d provider pt pu u branch ua ip).1 = is_passkeys st.
Proof.
  unfold finish_callback, link_and_issue. repeat case_match; try done; simpl; try apply Upsert_passkeys.
Qed.

Lemma Callback_passkeys oc (st : IdentityState St) clk e d p provider code key binding ua ip :
  is_passkeys (Callback pcfg oc st clk e d p provider code key binding ua ip).1 = is_passkeys st.
Proof.
  unfold Callback. destruct p as [p0|]; [|done]. pose proof (flow_checks_passkeys oc st clk provider key binding) as Hq1.
  destruct (flow_checks _ _ _ _ _ _) as [st1 [f|]]; simpl in *; [|done]. destruct (fetch_user p0 f code) as [[pt pu]|]; [|done].
  pose proof (findOrCreateUser_passkeys oc st1 (clk 2%nat) (cd_user d) provider pu) as Hq2.
  destruct (findOrCreateUser _ _ _ _ _ _) as [st2 [[v branch]|]]; simpl in *; [|congruence].
  pose proof (finish_callback_passkeys oc st2 clk e d provider pt pu v branch ua ip) as Hq3.
  destruct (finish_callback _ _ _ _ _ _ _ _ _ _ _ _ _) as [st3 [[[]]|]]; simpl in *; congruence.
Qed.

Lemma move_accounts_frame now primary l : ∀ st : IdentityState St,
  is_passkeys (move_accounts st now primary l).1 = is_passkeys st ∧ is_base (move_accounts st now primary l).1 = is_base st.
Proof.
  induction l as [|a l IH]; intros st; simpl; [done|]. unfold MoveOAuthAccount. destruct (find_account _ _ _) as [[]|]; simpl; [|done].
  destruct (IH (with_oauth st (<[s := moved o primary now]> (is_oauth st)))) as [-> ->]. done.
Qed.

Lemma exec_kept oc (st : IdentityState St) op fresh : kept (is_passkeys st) (is_passkeys (exec pcfg oc st op)) fresh.
Proof.
  destruct op; simpl.
  - unfold Start. repeat case_match; apply kept_refl.
  - rewrite Callback_passkeys. apply kept_refl.
  - apply kept_refl.
  - unfold LinkOAuthToCurrentUser. repeat case_match; simpl; rewrite ?Upsert_passkeys; apply kept_refl.
  - unfold LinkPasswordToCurrentUser. repeat case_match; apply kept_refl.
  - unfold MergeAccounts. destruct (requireFullSession _ _) as [s|]; [|apply kept_refl]. destruct (_ =? _)%string; [apply kept_refl|].
    destruct (_ !! _); [|apply kept_refl].
    pose proof (move_accounts_frame (clk 0%nat) (se_user s) (OAuthAccountsByUserID st secondaryID) st) as [Hm _].
    destruct (move_accounts _ _ _ _) as [st' []]; simpl in Hm; [|simpl; rewrite Hm; apply kept_refl].
    rewrite MovePasswordHash_set. simpl. rewrite Hm. apply kept_moved.
  - unfold UnlinkOAuthProvider, DeleteOAuthAccountByProvider. destruct (requireFullSession _ _); [|apply kept_refl]. destruct (_ <=? _)%nat; [apply kept_refl|].
    destruct (List.find _ _); apply kept_refl.
  - apply kept_refl.
Qed.

(** ** Counters under any interleaving *)

(** The row that an event would add. *)
Definition drawn_row (ev : event (St := St)) : option string := match ev with EFinishRegistration _ rowID _ _ _ _ => Some rowID | _ => None end.

Lemma Insert_kept (st : state) row st' : InsertWebAuthnCredential st row = Some st' -> kept (creds st) (creds st') (Some (wc_id row)).
Proof.
  unfold InsertWebAuthnCredential. destruct (find_credential st _) eqn:Hf; [done|]. intros [= <-] k c. rewrite creds_with. intros [[<- <-]|[Hne Hk]]%lookup_insert_Some; [|left; by exists c].
  right. split; [done|]. intros j x Hj _. by eapply find_credential_None.
Qed.

Lemma FinishRegistration_kept (st : state) clk rowID userID tok name body :
  kept (creds st) (creds (FinishRegistration svc st clk rowID userID tok name body).1) (Some rowID).
Proof.
  unfold FinishRegistration, LoadAndDelete. destruct (ws_cfg svc) as [c|]; [|apply kept_refl]. set (st1 := with_challenges st _).
  destruct (ps_challenges st !! tok) as [chal|]; [|apply kept_refl]. destruct (negb _); [apply kept_refl|]. destruct (After _ _); [apply kept_refl|].
  destruct (loadWebauthnUser st1 userID) as [wu|]; [|apply kept_refl]. destruct (ParseCreation body) as [parsed|]; [|apply kept_refl].
  destruct (CreateCredential _ _ _) as [cred|]; [|apply kept_refl]. destruct (_ && _); [apply kept_refl|]. destruct (negb _); [apply kept_refl|].
  destruct (InsertWebAuthnCredential st1 _) as [st2|] eqn:Hi; [|apply kept_refl]. apply Insert_kept in Hi. exact Hi.
Qed.

Lemma own_row (st : state) id userID c : own_credential_row st id userID = Some c -> creds st !! id = Some c.
Proof. unfold own_credential_row. destruct (creds st !! id) as [x|]; [|done]. by destruct (_ =? _)%string. Qed.

Lemma other_kept (st : state) ev : kept (creds st) (creds (other_step pcfg svc st ev)) (drawn_row ev).
Proof.
  destruct ev; simpl; try apply kept_refl.
  - unfold BeginRegistration. repeat case_match; apply kept_refl.
  - apply FinishRegistration_kept.
  - unfold BeginLogin. repeat case_match; apply kept_refl.
  - unfold DeleteCredential, DeleteWebAuthnCredential. destruct (own_credential_row _ _ _); [|apply kept_refl].
    simpl. intros k c. rewrite creds_with. intros [_ Hk]%lookup_delete_Some. left. by exists c.
  - unfold RenameCredential, RenameWebAuthnCredential. destruct (_ || _); [apply kept_refl|]. destruct (negb _); [apply kept_refl|].
    destruct (own_credential_row _ _ _) as [c|] eqn:Hc; [|apply kept_refl]. apply own_row in Hc. by eapply kept_update.
  - apply exec_kept.
Qed.

Lemma validate_creds (st : state) now tok body : creds (login_validate svc st now tok body).1 = creds st.
Proof. unfold login_validate, LoadAndDelete. repeat case_match; done. Qed.

Lemma reconcile_kept (st : state) lc fresh : kept (creds st) (creds (login_reconcile st lc)) fresh.
Proof.
  unfold login_reconcile, UpdateWebAuthnBackupFlags. destruct (lc_reconcile lc); [|apply kept_refl].
  destruct (find_credential st _) as [[k c]|] eqn:Hf; [|apply kept_refl]. apply find_credential_Some in Hf as [Hk _]. by eapply kept_update.
Qed.

Lemma issue_creds (st : state) e lc u clone ua ip : creds (login_issue pcfg svc st e lc u clone ua ip).1 = creds st.
Proof. unfold login_issue. destruct (_ && _); [done|]. by destruct (Issue _ _ _ _ _ _). Qed.

(** One entry of the log against an older one of the same row. *)
Definition advances (x y : nat * string * Z) : Prop := x.1.2 = y.1.2 -> y.2 < x.2.

(** The row [k] is the row of the credential that the login presents, as long as it is there. *)
Definition row_of (m : gmap string WebAuthnCredential) (k : string) (lc : LoginCheck) : Prop :=
  ∀ c, m !! k = Some c -> wc_credential c = gc_id (lc_cred lc).

(** What a login has shown: the counter it advanced is of its own credential and in the log, and without one the
    policy that rejects lets it through with the counter zero only. *)
Definition phase_sound (m : gmap string WebAuthnCredential) (log : list (nat * string * Z)) (i : nat) (t : login_phase) : Prop :=
  match t with
  | TStored lc stored _ => wc_credential stored = gc_id (lc_cred lc)
  | TCounted lc _ (Some k) _ | TDone lc (Some k) _ _ => (i, k, gc_count (lc_cred lc)) ∈ log ∧ row_of m k lc
  | TCounted lc _ None clone => clone = false -> gc_count (lc_cred lc) = 0
  | TDone lc None _ _ => clonePolicy svc = CloneWarningReject -> gc_count (lc_cred lc) = 0
  | _ => True
  end.

Record counters_inv (w : world) : Prop := {
  ci_unique : creds_unique (creds (w_state w));
  ci_log : ∀ i k n c, (i, k, n) ∈ w_log w -> creds (w_state w) !! k = Some c -> n <= wc_count c;
  ci_sorted : StronglySorted advances (w_log w);
  ci_threads : ∀ i t, w_threads w !! i = Some t -> phase_sound (creds (w_state w)) (w_log w) i t;
}.

Definition row_fresh (w : world) (ev : event (St := St)) : Prop :=
  ∀ k, drawn_row ev = Some k -> creds (w_state w) !! k = None ∧ ∀ i n, (i, k, n) ∉ w_log w.

Fixpoint rows_fresh (w : world) (evs : list (event (St := St))) : Prop :=
  match evs with [] => True | ev :: evs => row_fresh w ev ∧ rows_fresh (world_step pcfg svc w ev) evs end.

(** What is known of a login stays known when the log grows and the rows of the log keep their credential or go. *)
Lemma phase_sound_mono m m' log log' i t :
  (∀ k n c, (i, k, n) ∈ log -> m' !! k = Some c -> ∃ c0, m !! k = Some c0 ∧ wc_credential c = wc_credential c0) ->
  (∀ x, x ∈ log -> x ∈ log') -> phase_sound m log i t -> phase_sound m' log' i t.
Proof.
  intros Hm Hl. destruct t as [|lc|lc stored user|lc user [k|] clone|lc [k|] tok s|]; simpl; try done;
    (intros [Hin Hr]; split; [by apply Hl|]; intros c Hc; destruct (Hm k _ c Hin Hc) as (c0 & Hc0 & ->); by apply Hr).
Qed.

Lemma kept_inv (w : world) st' ts' fresh :
  counters_inv w -> kept (creds (w_state w)) (creds st') fresh -> (∀ k, fresh = Some k -> ∀ i n, (i, k, n) ∉ w_log w) ->
  (∀ i t, ts' !! i = Some t -> phase_sound (creds (w_state w)) (w_log w) i t) -> counters_inv (mkWorld st' ts' (w_log w)).
Proof.
  intros [Hu Hl Hs Ht] Hk Hf Hts. constructor; simpl; [by eapply kept_unique| |done|].
  - intros i k n c Hin Hc. destruct (Hk k c Hc) as [(c0 & Hc0 & _ & ->)|[-> _]]; [by eapply Hl|]. by destruct (Hf k eq_refl i n).
  - intros i t Hi. apply (phase_sound_mono (creds (w_state w)) _ (w_log w)); [|done|by apply Hts]. intros k n c Hin Hc.
    destruct (Hk k c Hc) as [(c0 & Hc0 & -> & _)|[-> _]]; [by exists c0|]. by destruct (Hf k eq_refl i n).
Qed.

Lemma threads_insert m log (ts : gmap nat login_phase) i t :
  (∀ j x, ts !! j = Some x -> phase_sound m log j x) -> phase_sound m log i t -> ∀ j x, <[i := t]> ts !! j = Some x -> phase_sound m log j x.
Proof. intros Hts Ht j x [[<- <-]|[_ Hj]]%lookup_insert_Some; auto. Qed.

(** The counter is advanced by a comparison and a write that nothing separates. *)
Lemma count_inv (w : world) i now lc stored user :
  counters_inv w -> w_threads w !! i = Some (TStored lc stored user) ->
  counters_inv (world_step pcfg svc w (EStep i now (mkIssueEnv false 0 0 0 None "" [] 0) "" "")).
Proof.
  intros Hinv Hi. pose proof Hinv as [Hu Hl Hs Ht]. simpl. rewrite Hi. simpl. unfold login_count.
  destruct (Z.ltb_spec (wc_count stored) (gc_count (lc_cred lc))) as [Hlt|Hge].
  - unfold UpdateWebAuthnSignCount. destruct (find_credential (w_state w) _) as [[k c]|] eqn:Hf; simpl.
    + apply find_credential_Some in Hf as [Hk Hc]. destruct (Z.leb_spec (gc_count (lc_cred lc)) (wc_count c)) as [|Hadv]; simpl.
      * eapply kept_inv; [done|apply (kept_refl _ None)|done|]. by apply threads_insert.
      * constructor; simpl.
        -- by eapply creds_unique_update.
        -- intros j k' n x Hin. rewrite creds_with. intros [[<- <-]|[Hne Hx]]%lookup_insert_Some; simpl.
           ++ apply elem_of_cons in Hin as [[= _ <-]|Hin]; [lia|]. pose proof (Hl _ _ _ _ Hin Hk). lia.
           ++ apply elem_of_cons in Hin as [[= _ -> _]|Hin]; [done|]. by eapply Hl.
        -- constructor; [done|]. apply Forall_forall. intros [[j k'] n] Hin Heq. simpl in *. subst k'. pose proof (Hl _ _ _ _ Hin Hk). lia.
        -- rewrite creds_with. pose proof (Ht i _ Hi) as Hsc. simpl in Hsc. apply threads_insert.
           ++ intros j t Hj. apply (phase_sound_mono (creds (w_state w)) _ (w_log w)); [|by right|by apply Ht].
              intros k' n x _. intros [[<- <-]|[_ Hx]]%lookup_insert_Some; [by exists c|by exists x].
           ++ simpl. split; [by left|]. intros x. rewrite lookup_insert_eq. intros [= <-]. simpl. congruence.
    + eapply kept_inv; [done|apply (kept_refl _ None)|done|]. by apply threads_insert.
  - simpl. eapply kept_inv; [done|apply (kept_refl _ None)|done|]. apply threads_insert; [done|]. simpl. intros Hc.
    apply orb_false_iff in Hc as [Hc _]. apply orb_false_iff in Hc as [_ Hz]. apply negb_false_iff, Z.eqb_eq in Hz. done.
Qed.

Lemma login_stored_sound (st : state) m log i lc :
  phase_sound m log i (match login_stored st lc with Ok (stored, user) => TStored lc stored user | Err err => TFailed err end).
Proof.
  unfold login_stored, WebAuthnCredentialByCredentialID. destruct (find_credential st (gc_id (lc_cred lc))) as [[k c]|] eqn:Hf; simpl; [|done].
  apply find_credential_Some in Hf as [_ Hc]. by repeat case_match; simplify_eq/=.
Qed.

Lemma step_inv (w : world) ev : row_fresh w ev -> counters_inv w -> counters_inv (world_step pcfg svc w ev).
Proof.
  intros Hf Hinv. pose proof Hinv as [Hu Hl Hs Ht].
  assert (Hother : counters_inv (mkWorld (other_step pcfg svc (w_state w) ev) (w_threads w) (w_log w))).
  { eapply kept_inv; [done|apply other_kept| |done]. intros k Hk. by apply (Hf k). }
  destruct ev as [i now tok body|i now e ua ip| | | | | | |]; try exact Hother; simpl; clear Hother.
  - destruct (w_threads w !! i) eqn:Hi; [done|]. pose proof (validate_creds (w_state w) now tok body) as Hv.
    destruct (login_validate svc (w_state w) now tok body) as [st' r]. simpl in *.
    eapply kept_inv; [done|rewrite Hv; apply (kept_refl _ None)|done|]. apply threads_insert; [done|]. by destruct r.
  - destruct (w_threads w !! i) as [t|] eqn:Hi; [|done]. destruct t as [lc|lc|lc stored user|lc user updated clone|lc updated tok s|err]; simpl.
    + eapply kept_inv; [done|apply (reconcile_kept _ _ None)|done|]. by apply threads_insert.
    + eapply kept_inv; [done|apply (kept_refl _ None)|done|]. apply threads_insert; [done|]. by apply login_stored_sound.
    + pose proof (count_inv w i now lc stored user Hinv Hi) as Hc. simpl in Hc. rewrite Hi in Hc. exact Hc.
    + pose proof (issue_creds (w_state w) e lc user clone ua ip) as Hv. pose proof (Ht i _ Hi) as Hp. simpl in Hp.
      destruct (login_issue pcfg svc (w_state w) e lc user clone ua ip) as [st' r] eqn:Hiss. simpl in Hv.
      destruct r as [[tok s]|err]; simpl; (eapply kept_inv; [done|rewrite Hv; apply (kept_refl _ None)|done|]); apply threads_insert; try done.
      destruct updated as [k|]; simpl; [done|]. intros Hrej. apply Hp. unfold login_issue in Hiss. rewrite Hrej in Hiss. by destruct clone.
    + eapply kept_inv; [done|apply (kept_refl _ None)|done|]. apply threads_insert; [done|]. by apply (Ht i).
    + eapply kept_inv; [done|apply (kept_refl _ None)|done|]. by apply threads_insert.
Qed.

Lemma run_inv evs : ∀ w : world, rows_fresh w evs -> counters_inv w -> counters_inv (world_run pcfg svc w evs).
Proof. induction evs as [|ev evs IH]; intros w Hf Hinv; [done|]. destruct Hf as [Hf Hfs]. apply IH; [done|]. by apply step_inv. Qed.

Lemma sorted_unique log x y : StronglySorted advances log -> x ∈ log -> y ∈ log -> x.1.2 = y.1.2 -> x.2 = y.2 -> x = y.
Proof.
  induction 1 as [|z log Hs IH Hz]; intros Hx Hy Hk Hn; [by apply not_elem_of_nil in Hx|]. rewrite Forall_forall in Hz.
  apply elem_of_cons in Hx as [->|Hx]; apply elem_of_cons in Hy as [->|Hy]; [done|..|by apply IH].
  - specialize (Hz y Hy Hk). lia.
  - specialize (Hz x Hx (eq_sym Hk)). lia.
Qed.

(** Login [i] ended with a session, having presented the counter [n] of the credential [cid], and advanced the
    counter of the row in [updated], if any. *)
Definition signed_in (w : world) (i : nat) (cid : string) (n : Z) (updated : option string) : Prop :=
  ∃ lc tok s, w_threads w !! i = Some (TDone lc updated tok s) ∧ gc_id (lc_cred lc) = cid ∧ gc_count (lc_cred lc) = n.

(** C32. Sign counts of passkeys, however the storage calls of concurrent logins interleave with each other and with
    registrations, deletions, renamings and merges (ids of new rows are new). A row's counter advances to a value once:
    no two logins that advanced the same row to the same value both have a session, the row is the one of the
    credential they presented, and it is never behind such a value. Under the policy that rejects clones (the default)
    this covers every login with a counter: one that gets a session with a nonzero counter has advanced its row, so
    that no value of a row signs in twice. Under the policy that only flags clones, a login whose counter does not
    advance gets a session too, and a value can sign in again. *)
Theorem counters_accepted_once (w : world) evs :
  creds_unique (creds (w_state w)) -> w_threads w = ∅ -> w_log w = [] -> rows_fresh w evs ->
  let w' := world_run pcfg svc w evs in
  (∀ i j cid cid' k n, signed_in w' i cid n (Some k) -> signed_in w' j cid' n (Some k) -> i = j)
  ∧ (∀ i cid k n c, signed_in w' i cid n (Some k) -> creds (w_state w') !! k = Some c -> wc_credential c = cid ∧ n <= wc_count c)
  ∧ (clonePolicy svc = CloneWarningReject -> ∀ i cid n updated, signed_in w' i cid n updated -> n ≠ 0 -> is_Some updated).
Proof.
  intros Hu Ht Hl Hf w'. assert (Hinv : counters_inv w').
  { apply run_inv; [done|]. constructor; rewrite ?Hl, ?Ht; [done| |constructor|].
    - intros i k n c Hin. by apply not_elem_of_nil in Hin.
    - intros i t. by rewrite lookup_empty. }
  destruct Hinv as [_ Hlog Hs Hth].
  assert (Hin : ∀ i cid k n, signed_in w' i cid n (Some k) -> (i, k, n) ∈ w_log w' ∧ ∀ c, creds (w_state w') !! k = Some c -> wc_credential c = cid).
  { intros i cid k n (lc & tok & s & Hi & <- & <-). apply (Hth i _ Hi). }
  split_and!.
  - intros i j cid cid' k n [Hi _]%Hin [Hj _]%Hin. pose proof (sorted_unique _ _ _ Hs Hi Hj eq_refl eq_refl) as He. by injection He.
  - intros i cid k n c [Hi Hr]%Hin Hc. split; [by apply Hr|by eapply Hlog].
  - intros Hrej i cid n updated (lc & tok & s & Hi & _ & <-) Hne. pose proof (Hth i _ Hi) as Hp. destruct updated as [k|]; [by exists k|].
    by destruct Hne; apply Hp.
Qed.

(** ** A single login *)

(** A login is the sequence of its steps. *)
Theorem FinishLogin_steps (st : state) clk e tok body ua ip :
  let w := world_run pcfg svc (mkWorld st ∅ []) (EValidate 0 (clk 0%nat) tok body :: repeat (EStep 0 (clk 1%nat) e ua ip) 4) in
  FinishLogin pcfg svc st clk e tok body ua ip
  = (w_state w, match w_threads w !! 0%nat with Some (TDone _ _ t s) => Ok (t, s) | Some (TFailed err) => Err err | _ => Err WNotConfigured end).
Proof.
  unfold FinishLogin. simpl. rewrite lookup_empty. destruct (login_validate _ _ _ _ _) as [st1 [lc|err]]; simpl; [|by rewrite !lookup_insert_eq; simpl].
  rewrite lookup_insert_eq. simpl. rewrite lookup_insert_eq. simpl. destruct (login_stored _ lc) as [[stored user]|err]; simpl; [|by rewrite !lookup_insert_eq; simpl].
  rewrite lookup_insert_eq. simpl. destruct (login_count _ _ _ _) as [st2 [[updated clone]|err]]; simpl; [|by rewrite !lookup_insert_eq; simpl].
  rewrite lookup_insert_eq. simpl. destruct (login_issue _ _ _ _ _ _ _ _ _) as [st3 [[t s]|err]]; simpl; by rewrite !lookup_insert_eq.
Qed.

Lemma Issue_methods (b : SignInState St) e methods userID ua ip b' tok s :
  Issue pcfg b (with_amrs e methods) userID ua ip = (b', Ok (tok, s)) -> issued b' e userID tok AuthLevelFull methods.
Proof.
  unfold Issue, IssueWith. destruct (CheckAccount _ _); simpl; [|done]. destruct (EnforceCap _ _ _ _ _ _ _) as [ss [err|]]; simpl; [done|].
  destruct (ie_token e) as [token|]; simpl; [|done]. intros [= <- <- <-]. destruct methods; eexists; simpl; rewrite lookup_insert_eq; (split; [done|]); by split_and!.
Qed.

(** Who stands behind a handle: the user it names, or the owner of the credential, whom the resolver names. *)
Definition handle_names (rawID handle owner : string) : Prop :=
  handle = owner ∨ (∃ resolve, ws_cfg svc ≫= wf_resolver = Some resolve ∧ resolve rawID handle = Some owner).

Lemma by_user_row (st : state) uid c : c ∈ WebAuthnCredentialsByUserID (ps_ids st) uid -> ∃ k, creds st !! k = Some c ∧ wc_user c = uid.
Proof.
  intros Hc. apply list_elem_of_In, filter_In in Hc as [Hc Hu%String.eqb_eq]. apply list_elem_of_In, list_elem_of_fmap in Hc as ([k x] & -> & Hk).
  apply elem_of_map_to_list in Hk. by exists k.
Qed.

(** What the handler gives to the library comes from a row of the user behind the handle. *)
Lemma handler_row (st : state) be bs rawID handle wu g :
  creds_unique (creds st) -> login_handler svc st be bs rawID handle = Some wu -> g ∈ wu_credentials wu -> gc_id g = rawID ->
  ∃ k c, creds st !! k = Some c ∧ wc_credential c = rawID ∧ handle_names rawID handle (wc_user c) ∧ users st !! wc_user c = Some (wu_user wu)
    ∧ gc_count g = wc_count c ∧ (∀ b b', wc_eligible c = Some b -> wc_state c = Some b' -> gc_be g = b).
Proof.
  intros Hu Hh Hg Hid. unfold login_handler in Hh. destruct (loginOwner svc st rawID handle) as [[[uid u] h]|] eqn:Ho; [|done]. injection Hh as <-. simpl in *.
  apply list_elem_of_fmap in Hg as (c & -> & Hc). apply by_user_row in Hc as (k & Hk & Huid). exists k, c. split; [done|].
  assert (Hcid : wc_credential c = rawID).
  { revert Hid. unfold login_credential, dbToGoWebauthnCredential. destruct (wc_eligible c), (wc_state c); destruct (unflagged rawID c); simpl; done. }
  split; [done|]. split_and!.
  - unfold loginOwner in Ho. destruct (if (_ =? _)%nat then users st !! handle else None) as [x|] eqn:Hown; [left; simplify_eq; done|].
    destruct (ws_cfg svc ≫= wf_resolver) as [resolve|] eqn:Hr; [|done]. destruct (WebAuthnCredentialByCredentialID st rawID) as [stored|]; [|done].
    destruct (bool_decide_reflect (resolve rawID handle = Some (wc_user stored))) as [Hres|]; [|done].
    apply fmap_Some in Ho as (x & _ & [= -> _ _]). right. exists resolve. split; [done|]. by rewrite Hres, Huid.
  - unfold loginOwner in Ho. destruct (if (_ =? _)%nat then users st !! handle else None) as [x|] eqn:Hown.
    + simplify_eq. by destruct (_ =? _)%nat.
    + destruct (ws_cfg svc ≫= wf_resolver) as [resolve|] eqn:Hr; [|done]. destruct (WebAuthnCredentialByCredentialID st rawID) as [stored|]; [|done].
      destruct (bool_decide _); [|done]. apply fmap_Some in Ho as (x & Hx & [= -> -> _]). by rewrite Huid.
  - unfold login_credential, dbToGoWebauthnCredential. by destruct (wc_eligible c), (wc_state c); destruct (unflagged rawID c).
  - intros b b' He Hs. unfold login_credential, dbToGoWebauthnCredential, unflagged. rewrite He, Hs. simpl. by rewrite andb_false_r.
Qed.

(** A step of a login keeps the users, and the row of its credential but for the flags. *)
Lemma reconcile_row (st : state) lc k c :
  creds_unique (creds st) -> creds st !! k = Some c ->
  users (login_reconcile st lc) = users st
  ∧ ∃ c', creds (login_reconcile st lc) !! k = Some c' ∧ wc_credential c' = wc_credential c ∧ wc_user c' = wc_user c ∧ wc_count c' = wc_count c
      ∧ creds_unique (creds (login_reconcile st lc)).
Proof.
  intros Hu Hk. unfold login_reconcile, UpdateWebAuthnBackupFlags. destruct (lc_reconcile lc) as [cid|]; [|split; [done|by exists c]].
  destruct (find_credential st cid) as [[j x]|] eqn:Hf; [|split; [done|by exists c]]. apply find_credential_Some in Hf as [Hj Hx].
  split; [done|]. rewrite creds_with. assert (Hu' : creds_unique (<[j := flagged x (lc_be lc) (lc_bs lc)]> (creds st))) by (by eapply creds_unique_update).
  destruct (decide (j = k)) as [->|Hne].
  - exists (flagged x (lc_be lc) (lc_bs lc)). rewrite lookup_insert_eq. by simplify_eq.
  - exists c. by rewrite lookup_insert_ne.
Qed.

Lemma count_ok (st : state) now lc stored st' updated clone :
  login_count st now lc stored = (st', Ok (updated, clone)) ->
  ps_challenges st' = ps_challenges st ∧ is_base (ps_ids st') = is_base (ps_ids st)
  ∧ (clone = false -> gc_clone (lc_cred lc) = false ∧ (wc_count stored < gc_count (lc_cred lc) ∨ (gc_count (lc_cred lc) = 0 ∧ wc_count stored = 0))).
Proof.
  unfold login_count, UpdateWebAuthnSignCount. destruct (Z.ltb_spec (wc_count stored) (gc_count (lc_cred lc))) as [Hlt|Hge].
  - destruct (find_credential st _) as [[k c]|]; [|done]. destruct (_ <=? _); [done|]. intros [= <- <- <-]. split_and!; auto.
  - intros [= <- <- <-]. split_and!; [done..|]. intros Hc. apply orb_false_iff in Hc as [Hc Hz]. apply orb_false_iff in Hc as [Hc Hz'].
    apply negb_false_iff, Z.eqb_eq in Hz, Hz'. auto.
Qed.

(** A passkey signs in its owner and nobody else: the challenge was open and is spent; the assertion was accepted
    for a stored credential, whose owner is the user that the handle names, or that the resolver names for a
    foreign handle; the backup eligibility is the recorded one; the session is a full one of that owner with the
    methods the assertion proved; and unless clones are only flagged, the asserted counter is ahead of the stored
    one, or both are zero. *)
Theorem passkey_login_sound (st : state) clk e tok body ua ip st' token s :
  creds_unique (creds st) -> FinishLogin pcfg svc st clk e tok body ua ip = (st', Ok (token, s)) ->
  ∃ chal p k c u, ps_challenges st !! tok = Some chal ∧ clk 0%nat <= ch_expires chal ∧ ps_challenges st' = delete tok (ps_challenges st)
    ∧ ParseAssertion body = Some p ∧ creds st !! k = Some c ∧ wc_credential c = pa_raw p ∧ handle_names (pa_raw p) (pa_handle p) (wc_user c)
    ∧ users st !! wc_user c = Some u ∧ (∀ b b', wc_eligible c = Some b -> wc_state c = Some b' -> pa_be p = b)
    ∧ issued (is_base (ps_ids st')) e (u_id u) token AuthLevelFull (passkeyAMR (pa_be p) (pa_uv p))
    ∧ (clonePolicy svc = CloneWarningReject -> wc_count c < pa_count p ∨ (pa_count p = 0 ∧ wc_count c = 0)).
Proof.
  intros Hu. unfold FinishLogin, login_validate, LoadAndDelete. destruct (ws_cfg svc) eqn:Hcfg; [|done]. set (st1 := with_challenges st _).
  destruct (ps_challenges st !! tok) as [chal|] eqn:Hchal; [|done]. destruct (After (clk 0%nat) (ch_expires chal)) eqn:Hexp; [done|].
  destruct (ParseAssertion body) as [p|] eqn:Hp; [|done]. destruct (ValidateDiscoverableLogin _ _ _) as [cred|] eqn:Hv; [|done].
  apply validate_ok in Hv as (wu & g & Hh & _ & Hg & Hgid & Hcid & Hbe & Hcount).
  destruct (handler_row st1 _ _ _ _ _ _ Hu Hh Hg Hgid) as (k & c & Hk & Hc & Hnames & Husr & Hgc & Hflags).
  set (lc := mkLoginCheck _ _ _ _ _). destruct (reconcile_row st1 lc k c Hu Hk) as (Hus & c' & Hk' & Hc' & Hcu & Hcc & Hu').
  set (st2 := login_reconcile st1 lc) in *.
  assert (Hch : ps_challenges st2 = delete tok (ps_challenges st)).
  { unfold st2, login_reconcile, UpdateWebAuthnBackupFlags. destruct (lc_reconcile lc); [|done]. by destruct (find_credential _ _) as [[]|]. }
  unfold login_stored, WebAuthnCredentialByCredentialID. assert (gc_id (lc_cred lc) = wc_credential c') as -> by (simpl; congruence).
  rewrite (find_credential_row st2 k c' Hu' Hk'). simpl. rewrite Hus, Hcu, Husr. destruct (login_count _ _ _ _) as [st3 [[updated clone]|]] eqn:Hlc; [|done].
  apply count_ok in Hlc as (Hch3 & _ & Hcl). unfold login_issue. intros Hiss.
  destruct (clone && negb (clonePolicy svc =? CloneWarningFlag)%string) eqn:Hpol; [done|].
  destruct (Issue _ _ _ _ _ _) as [b r] eqn:Hi. destruct r as [x|]; [|done]. simplify_eq. apply Issue_methods in Hi.
  exists chal, p, k, c, (wu_user wu). unfold After in Hexp. apply Z.ltb_ge in Hexp. split_and!; try done.
  - simpl. by rewrite Hch3, Hch.
  - intros b0 b' He Hs. rewrite <- Hbe. by eapply Hflags.
  - intros Hrej. rewrite Hrej in Hpol. rewrite andb_true_r in Hpol. destruct (Hcl Hpol) as [Hncl Hor]. simpl in Hncl, Hor.
    rewrite Hgc in Hcount. unfold UpdateCounter in Hcount. destruct (_ && _); [injection Hcount as _ Hcl2; congruence|]. injection Hcount as Hn _. rewrite Hn, Hcc in Hor. done.
Qed.

(** ** Registration *)

(** A registration is for the user who began it, in time; the row is new, its credential is bound to nobody yet, and
    the model of the authenticator is one the policy admits. *)
Theorem passkey_registration_sound (st : state) clk rowID userID tok name body st' row first :
  FinishRegistration svc st clk rowID userID tok name body = (st', Ok (row, first)) ->
  ∃ c chal wu parsed cred, ws_cfg svc = Some c ∧ ps_challenges st !! tok = Some chal ∧ ch_user chal = Some userID ∧ clk 0%nat <= ch_expires chal
    ∧ ps_challenges st' = delete tok (ps_challenges st) ∧ loadWebauthnUser st userID = Some wu ∧ ParseCreation body = Some parsed
    ∧ CreateCredential wu (ch_session chal) parsed = Some cred ∧ (wf_statement c = true -> pn_format parsed ≠ "none")
    ∧ (FormatAAGUID (gc_aaguid cred) ∉ ws_deny svc) ∧ (ws_allow svc ≠ ∅ -> FormatAAGUID (gc_aaguid cred) ∈ ws_allow svc)
    ∧ row = new_row rowID userID name (clk 1%nat) cred ∧ creds st' = <[rowID := row]> (creds st)
    ∧ (∀ k x, creds st !! k = Some x -> wc_credential x ≠ gc_id cred) ∧ (first = true ↔ wu_credentials wu = []).
Proof.
  unfold FinishRegistration, LoadAndDelete. destruct (ws_cfg svc) as [c|]; [|done]. set (st1 := with_challenges st _).
  destruct (ps_challenges st !! tok) as [chal|] eqn:Hchal; [|done]. destruct (bool_decide_reflect (ch_user chal = Some userID)) as [Hus|]; simpl; [|done].
  destruct (After _ _) eqn:Hexp; [done|]. destruct (loadWebauthnUser st1 userID) as [wu|] eqn:Hwu; [|done]. destruct (ParseCreation body) as [parsed|] eqn:Hp; [|done].
  destruct (CreateCredential _ _ _) as [cred|] eqn:Hc; [|done]. destruct (wf_statement c && _) eqn:Hst; [done|]. destruct (checkAAGUID svc _) eqn:Ha; simpl; [|done].
  unfold InsertWebAuthnCredential. destruct (find_credential st1 _) eqn:Hf; [done|]. intros [= <- <- <-].
  unfold checkAAGUID in Ha. apply andb_prop in Ha as [Hd%negb_true_iff%bool_decide_eq_false Hal]. unfold After in Hexp. apply Z.ltb_ge in Hexp.
  exists c, chal, wu, parsed, cred. split_and!; try done.
  - intros Hs. rewrite Hs in Hst. simpl in Hst. by apply String.eqb_neq.
  - intros Hne. apply orb_prop in Hal as [Hal|Hal]; by apply bool_decide_eq_true in Hal.
  - intros k x Hk. by eapply (find_credential_None st1).
  - by rewrite bool_decide_eq_true.
Qed.

(** ** Passkeys and merged users *)

(** A merge disables the passkeys it moves: the authenticator still presents the handle of the merged user, who
    still exists and has no credential, so that no assertion with it is accepted and the resolver is not asked. *)
Theorem merged_passkey_refused (st : state) mclk mtoken msession secondary u :
  requireFullSession (ps_ids st) mtoken = Some msession -> se_user msession ≠ secondary -> users st !! secondary = Some u -> String.length secondary = 16%nat ->
  accounts_unique (is_oauth (ps_ids st)) ->
  let st' := mkPasskeys (MergeAccounts (ps_ids st) mclk mtoken secondary).1 (ps_challenges st) in
  ∀ clk e tok body p ua ip, ParseAssertion body = Some p -> pa_handle p = secondary ->
  ∀ r, (FinishLogin pcfg svc st' clk e tok body ua ip).2 ≠ Ok r.
Proof.
  intros Hs Hne Hu Hlen Hacc st' clk e tok body p ua ip Hp Hh r. 
  destruct (merge_moves_everything (ps_ids st) mclk mtoken msession secondary u Hacc Hs Hne Hu) as (ids & Hm & _ & _ & _ & Hpk & _).
  assert (Hus : users st' !! secondary = Some u).
  { unfold st', users. simpl. revert Hm. unfold MergeAccounts. rewrite Hs. destruct (String.eqb_spec (se_user msession) secondary); [done|]. unfold users in Hu. rewrite Hu.
    pose proof (move_accounts_frame (mclk 0%nat) (se_user msession) (OAuthAccountsByUserID (ps_ids st) secondary) (ps_ids st)) as [_ Hb].
    destruct (move_accounts _ _ _ _) as [st1 [[]|]]; [|done]. intros _. simpl. rewrite MovePasswordHash_set. simpl in *. by rewrite Hb. }
  unfold FinishLogin, login_validate, LoadAndDelete. destruct (ws_cfg svc); [|done]. destruct (ps_challenges st' !! tok) as [chal|]; [|done].
  destruct (After _ _); [done|]. rewrite Hp. destruct (ValidateDiscoverableLogin _ _ _) as [cred|] eqn:Hv; [|done].
  apply validate_ok in Hv as (wu & g & Hhd & _ & Hg & _). exfalso. unfold login_handler, loginOwner in Hhd. rewrite Hh, Hlen in Hhd. simpl in Hhd.
  change (users (with_challenges st' _)) with (users st') in Hhd. rewrite Hus in Hhd. injection Hhd as <-. simpl in Hg.
  apply list_elem_of_fmap in Hg as (c & _ & Hc). apply (by_user_row st') in Hc as (k & Hk & Hcu). unfold creds, st' in Hk. simpl in Hk. rewrite Hm in Hk. simpl in Hk.
  rewrite Hpk, lookup_fmap in Hk. apply fmap_Some in Hk as (x & _ & ->). by destruct (String.eqb_spec (wc_user x) secondary).
Qed.
End Properties.

(** ** Names of authenticator models *)

Lemma hex_no_dash b : Forall (fun c => (c =? "-")%char = false) (list_ascii_of_string (hex_encode b)).
Proof.
  unfold hex_encode. rewrite list_ascii_of_string_of_list_ascii. induction (list_ascii_of_string b) as [|c l IH]; simpl; [constructor|].
  constructor; [|constructor; [|exact IH]]; by destruct c as [[] [] [] [] [] [] [] []].
Qed.

Lemma hex_encode_length b : String.length (hex_encode b) = (2 * String.length b)%nat.
Proof.
  unfold hex_encode. rewrite <- !bytes_length, list_ascii_of_string_of_list_ascii. induction (list_ascii_of_string b) as [|c l IH]; simpl; [done|].
  rewrite IH. lia.
Qed.

Lemma list_of_substring s : ∀ n m, list_ascii_of_string (String.substring n m s) = take m (drop n (list_ascii_of_string s)).
Proof. induction s as [|c s IH]; intros [|n] [|m]; simpl; try done; by rewrite IH. Qed.

Lemma take_drop_app {A} (l : list A) n m k j t : j = (n + m)%nat -> t = (m + k)%nat -> take m (drop n l) ++ take k (drop j l) = take t (drop n l).
Proof. intros -> ->. by rewrite <- drop_drop, take_take_drop. Qed.

Lemma without_dashes_hyphenated h :
  String.length h = 32%nat -> Forall (fun c => (c =? "-")%char = false) (list_ascii_of_string h) -> without_dashes (hyphenated h) = h.
Proof.
  intros Hlen Hall. unfold without_dashes, hyphenated. rewrite !list_of_string_app, !list_of_substring, Hlen. rewrite <- bytes_length in Hlen.
  set (l := list_ascii_of_string h) in *. assert (Hkeep : ∀ n m, List.filter (fun c => negb (c =? "-")%char) (take m (drop n l)) = take m (drop n l)).
  { intros n m. assert (Hsub : Forall (fun c => (c =? "-")%char = false) (take m (drop n l))) by (by apply Forall_take, Forall_drop).
    induction (take m (drop n l)) as [|c x IH]; simpl; [done|]. apply Forall_cons in Hsub as [Hc Hx]. rewrite Hc. simpl. f_equal. by apply IH. }
  rewrite !List.filter_app, !Hkeep. simpl.
  rewrite (take_drop_app l 16 4 12 20 16), (take_drop_app l 12 4 16 16 20), (take_drop_app l 8 4 20 12 24), (take_drop_app l 0 8 24 8 32) by done.
  rewrite drop_0, take_ge by (rewrite Hlen; done). apply string_of_list_ascii_of_string.
Qed.

(** The name of a model is its own normal form, where lower-casing and trimming leave it as it is. *)
Theorem aaguid_roundtrip `{SignInLib} b :
  String.length b = 16%nat -> TrimSpace (FormatAAGUID b) = FormatAAGUID b -> ToLower (hex_encode b) = hex_encode b ->
  NormalizeAAGUID (FormatAAGUID b) = Some (FormatAAGUID b).
Proof.
  intros Hlen Ht Hl. unfold NormalizeAAGUID. rewrite Ht. assert (without_dashes (FormatAAGUID b) = hex_encode b) as ->.
  { unfold FormatAAGUID. rewrite Hlen. simpl. apply without_dashes_hyphenated; [rewrite hex_encode_length; lia|apply hex_no_dash]. }
  rewrite Hl, hex_decode_encode, Hlen. done.
Qed.

Lemma aaguidSet_spec `{SignInLib} l : ∀ out, aaguidSet l = Some out -> ∀ n, n ∈ out ↔ ∃ v, v ∈ l ∧ NormalizeAAGUID v = Some n.
Proof.
  induction l as [|v l IH]; simpl; intros out.
  - intros [= <-] n. split; [set_solver|]. intros (v & Hv & _). by apply not_elem_of_nil in Hv.
  - destruct (NormalizeAAGUID v) as [m|] eqn:Hm; [|done]. intros (out' & Ho & ->)%fmap_Some n. rewrite elem_of_union, elem_of_singleton, (IH out' Ho). split.
    + intros [->|(w & Hw & Hn)]; [exists v; split; [by left|done]|exists w; split; [by right|done]].
    + intros (w & [->|Hw]%elem_of_cons & Hn); [left; congruence|right; by exists w].
Qed.

(** A model is admitted when no entry of the denylist names it in any spelling and, where there is an allowlist, an
    entry of that does. *)
Theorem aaguid_policy `{SignInLib} c library renamer svc a :
  NewService (Some c) library renamer = Ok svc ->
  checkAAGUID svc a = true ↔ (∀ v, v ∈ wf_deny c -> NormalizeAAGUID v ≠ Some (FormatAAGUID a))
    ∧ (wf_allow c = [] ∨ ∃ v, v ∈ wf_allow c ∧ NormalizeAAGUID v = Some (FormatAAGUID a)).
Proof.
  unfold NewService. destruct (negb _); [done|]. destruct (aaguidSet (wf_allow c)) as [al|] eqn:Ha; [|done]. destruct (aaguidSet (wf_deny c)) as [de|] eqn:Hd; [|done].
  destruct (names_of _ _); [|done]. destruct library; [|done]. intros [= <-]. unfold checkAAGUID. simpl.
  pose proof (aaguidSet_spec _ _ Ha) as Hsa. pose proof (aaguidSet_spec _ _ Hd) as Hsd.
  rewrite andb_true_iff, negb_true_iff, orb_true_iff, bool_decide_eq_false, !bool_decide_eq_true, Hsd, Hsa.
  assert (Hempty : al = ∅ ↔ wf_allow c = []).
  { split; [|intros He; rewrite He in Ha; simpl in Ha; congruence]. intros ->. destruct (wf_allow c) as [|v l]; [done|]. simpl in Ha.
    destruct (NormalizeAAGUID v); [|done]. apply fmap_Some in Ha as (x & _ & Hx). set_solver. }
  rewrite Hempty. split; intros [H1 H2]; (split; [|exact H2]).
  - intros v Hv Hn. apply H1. by exists v.
  - intros (v & Hv & Hn). by apply (H1 v).
Qed.

(** ** A race, a login and a merge *)

#[local] Existing Instance demo_sessions_lib.
#[local] Existing Instance demo_throttle.
#[local] Existing Instance demo_passwords.
#[local] Existing Instance demo_signin_lib.
#[local] Existing Instance demo_oauth_lib.

Definition anna : string := "annannannannann1".

Definition demo_validate (handler : string -> string -> option webauthnUser) (session : string) (p : ParsedAssertion) : option GoCredential :=
  match handler (pa_raw p) (pa_handle p) with
  | None => None
  | Some wu =>
      if (session =? "login")%string && (WebAuthnID wu =? pa_handle p)%string then
        (fun g => let '(n, clone) := UpdateCounter (gc_count g) (pa_count p) in
           mkGoCredential (gc_id g) (gc_key g) (gc_transports g) (gc_aaguid g) n clone (pa_be p) (pa_bs p))
          <$> List.find (fun g => (gc_id g =? pa_raw p)%string && Bool.eqb (gc_be g) (pa_be p)) (wu_credentials wu)
      else None
  end.

(** The bodies of the demonstration name a counter. *)
Definition demo_count (body : string) : option Z :=
  if (body =? "five")%string then Some 5 else if (body =? "six")%string then Some 6 else if (body =? "seven")%string then Some 7 else None.

Definition demo_webauthn : WebAuthnLib := {|
  ParseCreation := fun body => Some (mkParsedCreation "packed" body);
  CreateCredential := fun _ session parsed => if (session =? "create")%string then Some (mkGoCredential (pn_rest parsed) "key" [] "0123456789abcdef" 0 false true true) else None;
  ParseAssertion := fun body => (fun n => mkParsedAssertion "cred1" anna true true true n "") <$> demo_count body;
  ValidateDiscoverableLogin := demo_validate;
|}.
#[local] Existing Instance demo_webauthn.

Lemma demo_webauthn_laws : WebAuthnLaws.
Proof.
  constructor. intros handler session p c. simpl. unfold demo_validate. destruct (handler _ _) as [wu|]; [|done].
  destruct (_ && _) eqn:Hb; [|done]. apply andb_prop in Hb as [_ Hid%String.eqb_eq]. intros (g & Hg & ->)%fmap_Some.
  apply find_some in Hg as [Hin Hc]. apply andb_prop in Hc as [Hraw%String.eqb_eq Hbe%Bool.eqb_prop]. exists wu, g.
  destruct (UpdateCounter _ _) as [n clone]. split_and!; try done. by apply list_elem_of_In.
Qed.
#[local] Existing Instance demo_webauthn_laws.

Definition demo_wacfg : WebAuthnConfig := mkWebAuthnConfig (5 * Minute) "" None "" false [] [] [] None.
Definition demo_wasvc : WebAuthnService := mkWebAuthnService (Some demo_wacfg) ∅ ∅ ∅ true.

(** Ann has a passkey whose counter is at five; Mal has a session. Two logins are open. *)
Definition passkey_base : SignInState MemoryStore :=
  mkSignIn (mkTotpState (<["m1" := mal_session]> ∅) ∅ ∅ ∅ (mkTouchGate ∅ 0) ∅ ∅ ∅ (NewMemoryStore 0))
    (<[anna := new_user anna "ann@x" (Some 1) 1]> (<["mal" := new_user "mal" "mal@x" (Some 1) 1]> ∅)) ∅ ∅ ∅ ∅ ∅.

Definition ann_passkey : WebAuthnCredential := mkCredential "row1" anna "cred1" "key" 5 [] "0123456789abcdef" "phone" 1 None (Some true) (Some true).

Definition passkey_state : PasskeyState MemoryStore :=
  mkPasskeys (mkIdentities passkey_base ∅ (<["row1" := ann_passkey]> ∅) ∅)
    (<["t1" := mkChallenge "login" None (demo_time + Minute)]> (<["t2" := mkChallenge "login" None (demo_time + Minute)]> ∅)).

Lemma passkey_unique : creds_unique (creds passkey_state).
Proof.
  intros k k' c c'. unfold creds, passkey_state. simpl. intros [[<- _]|[_ Hk]]%lookup_insert_Some; [|by rewrite lookup_empty in Hk].
  intros [[<- _]|[_ Hk]]%lookup_insert_Some; [done|by rewrite lookup_empty in Hk].
Qed.

Definition demo_passkey_login (st : PasskeyState MemoryStore) (tok body : string) :=
  FinishLogin demo_config demo_wasvc st (demo_clock 1) (demo_env 1 "s1") tok body "ua" "ip".

Lemma passkey_login_sound_witness :
  ∃ s, tt_sessions (si_totp (is_base (ps_ids (demo_passkey_login passkey_state "t1" "six").1))) !! "s1" = Some s
    ∧ se_user s = anna ∧ se_level s = AuthLevelFull ∧ se_methods s = ["swk"; "user"].
Proof.
  destruct ((demo_passkey_login passkey_state "t1" "six").2) as [[token s0]|err] eqn:Hr; [|vm_compute in Hr; discriminate Hr].
  destruct (passkey_login_sound demo_config demo_wasvc passkey_state (demo_clock 1) (demo_env 1 "s1") "t1" "six" "ua" "ip"
    (demo_passkey_login passkey_state "t1" "six").1 token s0) as (chal & p & k & c & u & _ & _ & _ & Hp & Hk & _ & _ & Hu & _ & (s & Hs & Hsu & _ & Hl & Hm & _) & _).
  - exact passkey_unique.
  - exact (answer_pair (demo_passkey_login passkey_state "t1" "six") _ Hr).
  - exists s. split; [exact Hs|]. clear Hs. vm_compute in Hp. injection Hp as <-. unfold creds, passkey_state in Hk. simpl in Hk.
    apply lookup_insert_Some in Hk as [[_ <-]|[_ Hk]]; [|rewrite lookup_empty in Hk; discriminate Hk]. vm_compute in Hu. injection Hu as <-.
    split; [exact Hsu|]. split; [exact Hl|exact Hm].
Defined.

(** Both logins present the counter six and have read five before either writes. *)
Definition race_step (i : nat) : event (St := MemoryStore) := EStep i (demo_time + Second) (demo_env 1 "s1") "ua" "ip".

Definition race_events : list event :=
  [EValidate 0 (demo_time + Second) "t1" "six"; EValidate 1 (demo_time + Second) "t2" "six";
   race_step 0; race_step 1; race_step 0; race_step 1; race_step 0; race_step 1; race_step 0; race_step 1].

Definition race : world (St := MemoryStore) := world_run demo_config demo_wasvc (mkWorld passkey_state ∅ []) race_events.

Lemma counters_accepted_once_witness :
  w_threads race !! 1%nat = Some (TFailed WUpdateCount) ∧ ∃ cid k, signed_in race 0 cid 6 (Some k).
Proof.
  split; [vm_compute; reflexivity|].
  assert (Hd : ∃ cid updated, signed_in race 0 cid 6 updated).
  { vm_compute. do 5 eexists. split; [reflexivity|]. split; reflexivity. }
  destruct Hd as (cid & updated & Hd).
  destruct (counters_accepted_once demo_config demo_wasvc (mkWorld passkey_state ∅ []) race_events) as (_ & _ & H3).
  - exact passkey_unique.
  - reflexivity.
  - reflexivity.
  - repeat (split; [intros k Hk; discriminate Hk|]). exact I.
  - destruct (H3 eq_refl 0%nat cid 6 updated Hd ltac:(lia)) as [k ->]. exists cid, k. exact Hd.
Defined.

(** The passkey of a merged user works before the merge and not after it, although it belongs to the caller then. *)
Example demo_merged_passkey :
  let merged := mkPasskeys (MergeAccounts (ps_ids passkey_state) (demo_clock 1) "token-m1" anna).1 (ps_challenges passkey_state) in
  let answer st := match (demo_passkey_login st "t1" "six").2 with Ok _ => None | Err err => Some err end in
  answer passkey_state = None ∧ answer merged = Some WValidate ∧ (wc_user <$> creds merged !! "row1") = Some "mal".
Proof. vm_compute. done. Qed.

(** A counter that does not advance is refused, and only flagged under the other policy; a spent challenge is unknown. *)
Example demo_clone :
  let flag := mkWebAuthnService (Some (mkWebAuthnConfig (5 * Minute) "flag" None "" false [] [] [] None)) ∅ ∅ ∅ true in
  let answer svc st tok body := match (FinishLogin demo_config svc st (demo_clock 1) (demo_env 1 "s1") tok body "ua" "ip").2 with Ok _ => None | Err err => Some err end in
  answer demo_wasvc passkey_state "t1" "five" = Some WReplay ∧ answer flag passkey_state "t1" "five" = None
  ∧ answer demo_wasvc (demo_passkey_login passkey_state "t1" "six").1 "t1" "seven" = Some WChallengeUnknown
  ∧ answer demo_wasvc (demo_passkey_login passkey_state "t1" "six").1 "t2" "seven" = None.
Proof. vm_compute. done. Qed.
